(* ===== verification/_CoqProject ===== *)
-Q . S2P
Prelude.v
JsString.v
JsRegex.v
Json.v
Codec.v
OMap.v
Paging.v
Jsonl.v
Ansi.v
CLine.v
Budget.v
StratBasic.v
Classify.v
StratTest.v
StratGrep.v
StratLs.v
Pipeline.v
Chat.v
Operations.v
Summary.v
Compaction.v
Compress.v
Cas.v
Objects.v
History.v
Fts.v
Store.v
Archive.v
Nodes.v
Tokens.v
Evidence.v
Counted.v
PartialOps.v
Layered.v
LayeredTree.v
LayeredNodes.v
LayeredStore.v
Cursors.v
NodeRetrieval.v
Retrieve.v
RtkEngine.v
RtkWire.v
RtkServer.v
RtkClient.v
RtkExchange.v
Enhance.v
HostAdapter.v
Runtime.v
Credentials.v
Security.v
Guard.v
Vsec.v
VsecClient.v
Enhanced.v
GuardFilter.v
PrepareTool.v
