(* ===== verification/Prelude.v ===== *)
(** * BlueCode: a verified model of its context compression

    BlueCode is a plugin for a coding agent host and two local daemons beside it.
    The plugin compresses the output of tools through the daemon _rtk_, and the
    history of a session through the daemon _headroomd_; what is compressed away
    stays archived and can be read back exactly.  This library translates the
    TypeScript of these parts into executable definitions, function by function,
    and proves what makes them correct.  Definitions keep the names of the source;
    file names below are under [src/packages/].

    ** How the parts interact

    A tool result reaches the plugin, which sends it to rtk: [RtkEngine.compress]
    stores the raw bytes ([Cas]) and answers with the short form computed by
    [Pipeline.compressToolOutput].  The plugin holds an [RtkClient], the daemon an
    [RtkServer]; they exchange lines of JSON ([Jsonl], [RtkWire]), and the client answers
    with the tool's own output when the daemon does not.  A request to the language model passes through
    [Runtime.transform], which projects the host messages ([HostAdapter]) and
    writes the session's view into them.  Views come from headroomd: the legacy
    engine ([Compress], [Archive]) or the layered planner ([Layered]) computes a plan
    over the projected messages ([Chat]), archives what the plan hides ([Objects], [Store],
    [Nodes], [LayeredStore]) and answers with a plan, whose operations ([Operations], [Compaction])
    the plugin replays.  [Retrieve] reads the archive back, page by page, through
    [History], [Cursors], [NodeRetrieval] and the index [Fts].  [Enhance] replaces
    extractive summaries by generated ones in the background.  Before a tool runs,
    [Guard] asks the security scanner for a decision ([Security.evaluateTool]); texts
    that leave for the model pass through [Security.sanitizeFields].  Both run in a process of
    their own, [Vsec], which the guard reaches through [VsecClient].

    ** Files

    Foundations, shared by everything:
    - [Prelude]: lemmas on lists, options and integers, notations, automation;
    - [JsString], [JsRegex], [Json], [Codec], [OMap]: what the source uses of the
      language, at its real semantics: UTF-16 strings, backtracking regular
      expressions parsed from the literals of the source, JSON with IEEE doubles,
      UTF-8 and base64url, insertion-ordered maps.

    [shared/src]:
    - [Paging] (paging.ts): cursors and [paginateText];
    - [Jsonl] (jsonl.ts): frames and the incremental line reconstructor;
    - [Ansi] (ansi.ts): the cleaning of terminal output;
    - [Cas] (cas.ts): publication of objects as interleaved writers that may crash.

    [rtk-core/src], [rtk/src] and what they use of [contracts/src]:
    - [CLine], [Budget], [Classify], [StratBasic], [StratTest], [StratGrep], [StratLs]
      (strategies/*.ts, budget.ts, classify.ts, anchor.ts): one strategy per kind of
      output, behind the interface [StratBasic.StrategyOk];
    - [Pipeline] (pipeline.ts, stats.ts): [compressToolOutput] end to end;
    - [RtkEngine] (engine.ts, ownership.ts): the object store of rtk, its size
      ledger and its owners, under concurrent publications;
    - [RtkWire] (contracts/src/rtk.ts, errors.ts): the schemas, encoders and envelopes of
      both directions;
    - [RtkServer] (server.ts, bin.ts): from the bytes of a connection to those of its answers;
    - [RtkClient] (client.ts): queue, timers, restarts, breaker, handshake and late replies;
    - [RtkExchange]: client, wire and server composed.

    [headroomd/src]:
    - [Chat] (turns.ts), [Operations] (layered-operations.ts), [Summary] (memory.ts,
      summarize.ts), [Compaction] (compaction.ts), [Compress] and [Archive] (engine.ts);
    - [Objects], [Store], [Fts], [Nodes], [Cursors] (store/*.ts, search-focus.ts);
    - [History] (history-reader.ts), [NodeRetrieval] (node-retrieval.ts), [Retrieve] (engine.ts);
    - [Tokens] (token-counter.ts), [Evidence], [Counted], [Layered], with the proofs [PartialOps]
      and [LayeredTree] (layered.ts); [Counted] and the second half of [Layered] list the texts that
      a planning gives its token counter, since it throws when one of the counts is not
      a nonnegative integer;
    - [LayeredStore], with the proofs [LayeredNodes] (engine.ts: [compressLayered],
      store/manifests.ts): layered compression onto the store, manifests and active views;
    - [Enhance] (enhancement.ts): the manager of background summaries;
    - [Enhanced] (enhanced-candidate.ts): from a generated answer to a checked candidate plan.

    [plugin/src]:
    - [HostAdapter] (host-adapter.ts, apply-plan.ts): projection of host messages and
      the writing of a plan into them;
    - [Runtime] (runtime.ts): sessions, the work queue, planning and the hooks.

    [security-core/src], [vsecagent/src] and the guard of [plugin/src]:
    - [Credentials] (credentials.ts, model.ts): spans of secrets, redaction, hits;
    - [Security] (paths.ts, bounds.ts, sanitize.ts, index.ts, and contracts/src/security.ts):
      containment of paths, bounded walks, [evaluateTool];
    - [Guard] (security.ts): the guard around the hooks of the plugin;
    - [GuardFilter] (security.ts: [object], [messages], [after]): the filter of structured fields;
    - [PrepareTool] (security-tools.ts): what a call of a tool would read and write;
    - [Vsec] (engine.ts, cache.ts, adapters.ts, protocol.ts): requests to the scanner, its
      cache and the external scanners;
    - [VsecClient] (client.ts, protocol.ts): the child process, its queue and its replies.

    ** State and steps

    Pure functions of the source are functions here; a function that throws returns
    an option or a sum whose errors are the source's.  A class or a closure with
    state is a record and its methods are functions on it.  Where two activities can
    interleave, the unit of a step is the unit of the source: a file-system call
    ([Cas.writer_step]), a SQLite transaction or file call ([RtkEngine.pub_step],
    [Archive.run_effects], [LayeredStore.layered_effect]), the code between two [await]s ([Enhance.apply_event],
    [Runtime.apply_event], [VsecClient.apply_event]), a turn of the event loop with its
    microtasks ([RtkClient.apply_event]).  What the environment answers, and when, is part of the steps.

    Parameters, never defined: SHA-256, gzip, the FTS5 matching of SQLite, the
    tokenizer, the clock ([Date.now], read as often as the source reads it), Unicode case tables, the provider of generated summaries, the parsers of
    shell and TypeScript syntax with the scanners that walk their trees, the
    parsing of dates, and the file system that [PrepareTool] reads ([realpath], [stat], [readFile]).
    Hypotheses on them (an injective hash where contents are compared, gunzip after
    gzip) are named in the theorem that uses them, which then has a witness with a concrete function.

    ** What is proved

    - Nothing is lost silently: [Pipeline.compressToolOutput_no_silent_loss],
      [StratTest.test_protects_failures], [RtkEngine.rtk_compress_then_fetch],
      [Retrieve.archive_then_retrieve], [Paging.read_pages_whole_text], [History.history_pages_whole].
    - A plan does what it says, in the daemon and in the host: [Compress.compress_then_apply],
      [Compress.compress_protects], [Layered.layered_plan_safe],
      [Operations.materializeOperations_sound], [LayeredStore.layered_compression_lands],
      [LayeredStore.views_confirmed], [HostAdapter.host_view_refines],
      [HostAdapter.host_view_keeps_host].
    - Stores stay consistent under crashes and concurrency: [LayeredStore.engine_invariant],
      [LayeredStore.layered_refusals], [Archive.persist_crash_safe],
      [Archive.compress_announces], [Cas.cas_publication], [RtkEngine.rtk_store_safe],
      [Nodes.graph_invariant], [Nodes.saveNodes_atomic], [Store.rebuild_converges], [Store.rebuild_exact].
    - Isolation of sessions and verbatim quotation: [Retrieve.retrieve_isolated], [Fts.searchChunks_verbatim].
    - Credentials stay inside, and a missing scanner lets no text and no writing call through:
      [Credentials.redact_spec], [Credentials.github_token_redacted], [Security.evaluate_denies],
      [Security.within_components], [Guard.guard_fail_closed], [Guard.guard_blocks],
      [GuardFilter.object_fail_closed], [GuardFilter.object_transparent],
      [PrepareTool.escaping_call_blocked], [PrepareTool.prepared_files_exact].
    - Results satisfy the schemas of the contracts: [Pipeline.compressToolOutput_contract],
      [Layered.layered_plan_valid].
    - A generated candidate replaces what it claims to, and never costs more:
      [Enhanced.enhanced_candidate_right].
    - Clients settle every request once, with its own reply or a failure of the right kind:
      [RtkClient.rtk_client_safe], [RtkClient.rtk_client_fail_open], [RtkClient.rtk_client_patient],
      [RtkServer.rtk_server_answers], [RtkExchange.rtk_compress_round_trip],
      [VsecClient.vsec_client_safe], [VsecClient.vsec_client_authentic].
    - The scanner's cache never shows, and external adapters raise a decision or, when they
      fail, replace it by [Unavailable]:
      [Vsec.vsec_cache_transparent], [Vsec.vsec_external_tightens].
    - Asynchronous parts keep their bounds and act on fresh data only:
      [Enhance.enhancement_bounds], [Enhance.enhancement_budget], [Enhance.enhancement_grounded],
      [Runtime.runtime_bounds], [Runtime.runtime_no_stale_plan], [Runtime.runtime_shadow_inert].
    - Implementations refine references: [History.readHistoryPage_refines],
      [NodeRetrieval.node_children_listing], [Retrieve.ordinal_pages_agree], [Tokens.cached_counts_lru], [Jsonl.feed_lines].
    - Loops end and answers fit: [LayeredTree.buildLayeredPlan_ends], [LayeredTree.evidence_hierarchy],
      [LayeredTree.leaf_pieces_cover], [Nodes.nodesForView_reachable], [NodeRetrieval.retrieveNode_fits],
      [Cursors.history_cursor_roundtrip].

    Each file keeps more theorems than these, about single functions.

    ** Fuel

    Loops that are not structural take fuel, and a theorem shows that the fuel given
    suffices, so no result depends on it: the frontier machine takes
    [History.frontier_steps], which counts the leaves and frames below the frontier;
    lineage is at most 128 deep, as in the source; [Layered.split_source] takes the
    length of the text, since every piece consumes a character; [Layered.merge_loop] the number of
    roots, since every pass shortens them; [Layered.restoreState] the number of available nodes
    and two more; [LayeredStore.view_fuel] is the number of nodes that can still be visited; a publication of [RtkEngine] ends within 14 steps and a writer of [Cas]
    within 6.  The literals of the source are parsed as regular expressions by computation.
    [Security.texts_loop] takes the source's own bound of 65,536 steps; [Credentials.assignments_from] the length of
    the text, since no match is empty; [Guard.strings_loop] the number of texts, since
    every batch takes at least one; [RtkClient.drain_loop] the length of the queue, of which every round
    takes one ([RtkClient.drain_loop_idle]); [Vsec.bounded_loop] the source's 65,536 steps;
    [PrepareTool.patch_loop] takes the number of lines of the patch and [PrepareTool.replaceAll_from] the length of
    the text; [Counted.search_probes] and [Layered.cut_source] take the length of the text, like
    the searches they follow.  Event loops need no fuel: a run is a list of events.
    [Retrieve.read_history] is no code of the source but a client of it, which sends every
    [nextCursor] back; its theorem names a number of requests that is enough.

    ** Not modelled

    Sockets, processes, locks and supervision (server.ts, client.ts, bin.ts of headroomd;
    spawn.ts, lease.ts, perms.ts, ids.ts, paths.ts), schema declarations without operations,
    SQL migrations and pragmas, the HTTP provider of summaries, the rotation of audit files,
    traces and metrics: they are calls of the platform with little logic of their own.
    The kill that [RtkClient] may send three seconds after the SIGTERM of its shutdown, when it has let
    go of the child, is left out.
    [Runtime] leaves out [toolAfter]; the verdicts of the security sidecar are events there.
    The scanners bash.ts and typescript.ts walk trees of foreign parsers (tree-sitter and the
    TypeScript compiler) and are parameters of [Security].  Left out for their size are
    enhancement-integration.ts, which schedules [Enhanced] and [Enhance], and
    the plugin's retrieval tools and its wrappers of the two clients.
    The benchmark package eval is not part of the product. *)

From stdpp Require Import base tactics list numbers option sets.

#[global] Open Scope Z_scope.

(** ** Error results

    A JavaScript computation that may [throw] returns [result]: [Ok] is a
    normal return, [Throw msg] an exception carrying the message thrown. *)

Inductive result (E A : Type) : Type :=
| Ok (a : A)
| Throw (e : E).
Arguments Ok {E A} a.
Arguments Throw {E A} e.

Definition rbind {E A B} (m : result E A) (f : A → result E B) : result E B :=
  match m with
  | Ok a => f a
  | Throw e => Throw e
  end.

Definition is_ok {E A} (m : result E A) : bool :=
  match m with Ok _ => true | Throw _ => false end.

Declare Scope js_scope.
Delimit Scope js_scope with js.
Notation "'let!' x ':=' m 'in' k" := (rbind m (λ x, k))
  (at level 10, x name, m at level 100, k at level 200) : js_scope.
Notation "'throw_if' b 'with' e 'in' k" := (if b then Throw e else k)
  (at level 10, b at level 100, e at level 100, k at level 200) : js_scope.
#[global] Open Scope js_scope.

(** ** Integers

    JavaScript indices, lengths and token counts are integers well inside the
    exact range of a double, so they are [Z].  [Number.isSafeInteger] is the
    test the code itself uses. *)

Definition MAX_SAFE_INTEGER : Z := 9007199254740991.
Definition is_safe_integer (n : Z) : bool := (- MAX_SAFE_INTEGER <=? n) && (n <=? MAX_SAFE_INTEGER).

(** [Math.ceil(n / 4)] on a length. *)
Definition ceil4 (n : Z) : Z := (n + 3) `div` 4.

(** Length of a list as a JavaScript number. *)
Abbreviation zlen l := (Z.of_nat (length l)).

(** ** Automation *)

Create HintDb bluecode.

Ltac bool_prop :=
  repeat match goal with
  | H : _ && _ = true |- _ => apply andb_true_iff in H as [? ?]
  | H : _ || _ = false |- _ => apply orb_false_iff in H as [? ?]
  | H : negb _ = true |- _ => apply negb_true_iff in H
  | H : negb _ = false |- _ => apply negb_false_iff in H
  | H : (_ <=? _) = true |- _ => apply Z.leb_le in H
  | H : (_ <=? _) = false |- _ => apply Z.leb_gt in H
  | H : (_ <? _) = true |- _ => apply Z.ltb_lt in H
  | H : (_ <? _) = false |- _ => apply Z.ltb_ge in H
  | H : (_ =? _) = true |- _ => apply Z.eqb_eq in H
  | H : (_ =? _) = false |- _ => apply Z.eqb_neq in H
  | H : bool_decide _ = true |- _ => apply bool_decide_eq_true in H
  | H : bool_decide _ = false |- _ => apply bool_decide_eq_false in H
  end.

(** Close a decidable closed goal by evaluation. *)
Ltac decide_now := apply (bool_decide_unpack _); vm_compute; exact I.

(** Case analysis on the innermost test of the goal, keeping its equation. *)
Ltac case_test :=
  match goal with
  | |- context [if ?b then _ else _] =>
      lazymatch b with
      | context [if _ then _ else _] => fail
      | _ => let E := fresh "E" in destruct b eqn:E
      end
  end.

(** The same on the outermost test of a hypothesis. *)
Ltac case_test_in H :=
  match type of H with
  | context [if ?b then _ else _] =>
      lazymatch b with
      | context [if _ then _ else _] => fail
      | _ => let E := fresh "E" in destruct b eqn:E
      end
  end.

(** ** Lists *)

Definition zsum (l : list Z) : Z := foldr Z.add 0 l.

Lemma zsum_cons x l : zsum (x :: l) = x + zsum l.
Proof. done. Qed.

Lemma zsum_app l1 l2 : zsum (l1 ++ l2) = zsum l1 + zsum l2.
Proof. induction l1 as [|x l1 IH]; simpl; lia. Qed.

Lemma zsum_Permutation l1 l2 : l1 ≡ₚ l2 → zsum l1 = zsum l2.
Proof. induction 1; simpl; lia. Qed.

Lemma ceil4_mono a b : a <= b → ceil4 a <= ceil4 b.
Proof. intros H. unfold ceil4. apply Z.div_le_mono; lia. Qed.

Lemma ceil4_nonneg a : 0 <= a → 0 <= ceil4 a.
Proof. intros H. unfold ceil4. apply Z.div_pos; lia. Qed.

Lemma zlen_app {A} (l1 l2 : list A) : zlen (l1 ++ l2) = zlen l1 + zlen l2.
Proof. rewrite length_app. lia. Qed.

Lemma zlen_nonneg {A} (l : list A) : 0 <= zlen l.
Proof. lia. Qed.

#[export] Hint Resolve ceil4_mono ceil4_nonneg zlen_nonneg : bluecode.

Lemma rbind_ok {E A B} (m : result E A) (f : A → result E B) b :
  rbind m f = Ok b → ∃ a, m = Ok a ∧ f a = Ok b.
Proof. destruct m; simpl; [eauto | done]. Qed.

(** Every prefix of a concatenation is a prefix of a part or contains it. *)
Lemma drop_take_app {A} (l : list A) (i j : nat) :
  (i <= j)%nat → take (j - i) (drop i l) ++ drop j l = drop i l.
Proof.
  intros H. replace j with (i + (j - i))%nat at 2 by lia.
  rewrite <- drop_drop. apply take_drop.
Qed.

Lemma filter_perm {A} (p : A → bool) (l1 l2 : list A) : l1 ≡ₚ l2 → List.filter p l1 ≡ₚ List.filter p l2.
Proof.
  induction 1; simpl; [done| | |by etransitivity].
  - case_test; by rewrite ?IHPermutation.
  - repeat case_test; auto. apply Permutation_swap.
Qed.
