(* ===== verification/JsString.v ===== *)
(** * JavaScript strings

    A JavaScript string is a sequence of 16-bit code units.  This file gives
    the string operations the program uses ([charCodeAt], [codePointAt],
    [slice], [split], [join], [trim], [startsWith], [endsWith],
    [Buffer.byteLength]) on [list Z], and literals ([js "..."], read as
    UTF-8 source text).  Nothing here is specific to one component. *)

From stdpp Require Import base tactics list numbers option sets.
From stdpp Require Import strings.
From S2P Require Import Prelude.

Abbreviation jstr := (list Z).

(** ** Literals *)

Definition utf16_of_cp (cp : Z) : jstr :=
  if cp <? 65536 then [cp]
  else [55296 + Z.shiftr (cp - 65536) 10; 56320 + Z.land (cp - 65536) 1023].

(** Code points of well-formed UTF-8 source text. *)
Fixpoint lit_cps (bs : list Z) : list Z :=
  match bs with
  | [] => []
  | b0 :: r0 =>
    if b0 <? 128 then b0 :: lit_cps r0
    else match r0 with
    | [] => []
    | b1 :: r1 =>
      if b0 <? 224 then ((b0 - 192) * 64 + (b1 - 128)) :: lit_cps r1
      else match r1 with
      | [] => []
      | b2 :: r2 =>
        if b0 <? 240 then ((b0 - 224) * 4096 + (b1 - 128) * 64 + (b2 - 128)) :: lit_cps r2
        else match r2 with
        | [] => []
        | b3 :: r3 =>
          ((b0 - 240) * 262144 + (b1 - 128) * 4096 + (b2 - 128) * 64 + (b3 - 128)) :: lit_cps r3
        end
      end
    end
  end.

Definition js (s : string) : jstr :=
  flat_map utf16_of_cp (lit_cps (map (λ a, Z.of_N (Ascii.N_of_ascii a)) (String.list_ascii_of_string s))).

#[global] Arguments js : simpl never.

(** ** Character tests *)

Definition LF : Z := 10.
Definition CR : Z := 13.
Definition BS : Z := 8.
Definition is_high (c : Z) : bool := (55296 <=? c) && (c <=? 56319).
Definition is_low (c : Z) : bool := (56320 <=? c) && (c <=? 57343).

(** JavaScript WhiteSpace and LineTerminator, the set of [\s] and [trim]. *)
Definition is_space (c : Z) : bool :=
  ((9 <=? c) && (c <=? 13)) || (c =? 32) || (c =? 160) || (c =? 5760)
  || ((8192 <=? c) && (c <=? 8202)) || (c =? 8232) || (c =? 8233) || (c =? 8239)
  || (c =? 8287) || (c =? 12288) || (c =? 65279).

(** ** Positions *)

(** [s.slice(a, b)] for [0 <= a] and [0 <= b]. *)
Definition slice (s : jstr) (a b : nat) : jstr := take (b - a) (drop a s).

Definition codePointAt (s : jstr) (i : nat) : option Z :=
  match drop i s with
  | [] => None
  | c :: r =>
    match r with
    | d :: _ => if is_high c && is_low d then Some ((c - 55296) * 1024 + (d - 56320) + 65536) else Some c
    | [] => Some c
    end
  end.

(** ** Search, split and join *)

Fixpoint starts_with (p s : jstr) : bool :=
  match p, s with
  | [], _ => true
  | a :: p', b :: s' => (a =? b) && starts_with p' s'
  | _ :: _, [] => false
  end.

Definition ends_with (p s : jstr) : bool := starts_with (rev p) (rev s).

(** [s.includes(p)] *)
Fixpoint includes (p s : jstr) : bool :=
  starts_with p s || match s with [] => false | _ :: s' => includes p s' end.

Fixpoint mem_unit (c : Z) (s : jstr) : bool :=
  match s with [] => false | d :: s' => (c =? d) || mem_unit c s' end.

(** [s.split(c)] for a one-unit separator: never empty. *)
Fixpoint split_on (c : Z) (s : jstr) : list jstr :=
  match s with
  | [] => [[]]
  | d :: s' =>
    if d =? c then [] :: split_on c s'
    else match split_on c s' with
         | [] => [[d]]
         | h :: t => (d :: h) :: t
         end
  end.

(** [l.join(sep)] *)
Fixpoint join (sep : jstr) (l : list jstr) : jstr :=
  match l with
  | [] => []
  | [x] => x
  | x :: r => x ++ sep ++ join sep r
  end.

Fixpoint drop_space (s : jstr) : jstr :=
  match s with
  | c :: s' => if is_space c then drop_space s' else s
  | [] => []
  end.

(** [s.trim()] *)
Definition trim (s : jstr) : jstr := rev (drop_space (rev (drop_space s))).
Definition is_blank (s : jstr) : bool := match trim s with [] => true | _ => false end.

Fixpoint jeqb (s t : jstr) : bool :=
  match s, t with
  | [], [] => true
  | a :: s', b :: t' => (a =? b) && jeqb s' t'
  | _, _ => false
  end.

(** The [<] of strings: lexicographic by code unit. *)
Fixpoint jltb (s t : jstr) : bool :=
  match s, t with
  | [], [] => false
  | [], _ :: _ => true
  | _ :: _, [] => false
  | a :: s', b :: t' => (a <? b) || ((a =? b) && jltb s' t')
  end.

(** ** UTF-8 *)

(** Size in bytes of one code point; a lone surrogate is written as U+FFFD. *)
Definition utf8_size (cp : Z) : Z :=
  if cp <=? 127 then 1 else if cp <=? 2047 then 2 else if cp <=? 65535 then 3 else 4.

(** [Buffer.byteLength(s, "utf8")] *)
Fixpoint byte_length (s : jstr) : Z :=
  match s with
  | [] => 0
  | c :: r =>
    match r with
    | d :: r' => if is_high c && is_low d then 4 + byte_length r' else utf8_size c + byte_length r
    | [] => utf8_size c
    end
  end.

(** ** Decimal printing of integers: [String(n)] *)

Fixpoint digits_fuel (fuel : nat) (n : Z) (acc : jstr) : jstr :=
  match fuel with
  | O => acc
  | S f => let acc' := (48 + n `mod` 10) :: acc in
           if n <? 10 then acc' else digits_fuel f (n `div` 10) acc'
  end.

(** A number below [10^k] has at most [k] digits; [log2 n + 1] bounds them. *)
Definition dec_nonneg (n : Z) : jstr := digits_fuel (S (Z.to_nat (Z.log2 n))) n [].
Definition dec (n : Z) : jstr := if n <? 0 then 45 :: dec_nonneg (- n) else dec_nonneg n.

#[global] Arguments dec : simpl never.

Definition estimateTokens (s : jstr) : Z := ceil4 (zlen s).

Example js_ascii : js "ab c" = [97; 98; 32; 99]. Proof. reflexivity. Qed.
Example js_utf8 : js "✓ 历" = [10003; 32; 21382]. Proof. reflexivity. Qed.
Example dec_ex : dec 1203 = js "1203" ∧ dec 0 = js "0" ∧ dec (-7) = js "-7".
Proof. repeat split. Qed.

(** ** Lemmas: equality and search *)

Lemma jeqb_eq s t : jeqb s t = true ↔ s = t.
Proof.
  revert t. induction s as [|a s IH]; intros [|b t]; simpl; split; try done.
  - intros H. bool_prop. f_equal; [done | by apply IH].
  - intros [= -> ->]. rewrite Z.eqb_refl. by apply IH.
Qed.

Lemma jeqb_refl s : jeqb s s = true.
Proof. by apply jeqb_eq. Qed.

Lemma jeqb_neq s t : jeqb s t = false ↔ s ≠ t.
Proof. rewrite <- jeqb_eq. destruct (jeqb s t); naive_solver. Qed.

Lemma starts_with_app p s : starts_with p (p ++ s) = true.
Proof. induction p as [|a p IH]; simpl; [done|]. by rewrite Z.eqb_refl. Qed.

Lemma mem_unit_elem c s : mem_unit c s = true ↔ c ∈ s.
Proof.
  induction s as [|d s IH]; simpl; [set_solver|].
  rewrite orb_true_iff, IH, elem_of_cons, Z.eqb_eq. done.
Qed.

Lemma mem_unit_not_elem c s : mem_unit c s = false ↔ c ∉ s.
Proof. rewrite <- mem_unit_elem. destruct (mem_unit c s); naive_solver. Qed.

(** ** Lemmas: split and join *)

Lemma split_on_ne c s : split_on c s ≠ [].
Proof. induction s as [|d s IH]; simpl; [done|]. case_test; [done|]. by destruct (split_on c s). Qed.

Lemma split_on_cons_ne c d s :
  d ≠ c → ∃ h t, split_on c s = h :: t ∧ split_on c (d :: s) = (d :: h) :: t.
Proof.
  intros Hd. pose proof (split_on_ne c s) as Hne. simpl.
  apply Z.eqb_neq in Hd. rewrite Hd.
  destruct (split_on c s) as [|h t]; [done|]. eauto.
Qed.

Lemma split_on_free c s : c ∉ s → split_on c s = [s].
Proof.
  induction s as [|d s IH]; intros Hf; [done|]. simpl.
  case_test; [bool_prop; set_solver|]. rewrite IH by set_solver. done.
Qed.

Lemma split_on_app_sep c a b : split_on c (a ++ c :: b) = split_on c a ++ split_on c b.
Proof.
  induction a as [|d a IH]; simpl.
  { by rewrite Z.eqb_refl. }
  case_test; [by rewrite IH|]. rewrite IH.
  pose proof (split_on_ne c a). by destruct (split_on c a).
Qed.

Lemma split_on_free_each c s : Forall (λ x, c ∉ x) (split_on c s).
Proof.
  induction s as [|d s IH]; simpl; [repeat constructor; set_solver|].
  case_test; [constructor; [set_solver|done]|].
  destruct (split_on c s) as [|h t]; bool_prop.
  - repeat constructor. set_solver.
  - inversion IH; subst. constructor; [set_solver|done].
Qed.

Lemma join_cons sep x y l : join sep (x :: y :: l) = x ++ sep ++ join sep (y :: l).
Proof. done. Qed.

Lemma join_split c s : join [c] (split_on c s) = s.
Proof.
  induction s as [|d s IH]; [done|]. pose proof (split_on_ne c s) as Hne.
  cbn [split_on]. case_test.
  - bool_prop. subst. destruct (split_on c s) as [|h t]; [done|].
    rewrite join_cons. cbn [app]. by rewrite IH.
  - destruct (split_on c s) as [|h [|h' t]]; [done| |].
    + simpl in *. by rewrite IH.
    + rewrite join_cons in *. cbn [app] in *. by rewrite IH.
Qed.

Lemma split_join c l :
  l ≠ [] → Forall (λ x, c ∉ x) l → split_on c (join [c] l) = l.
Proof.
  induction l as [|x [|y l] IH]; intros Hne Hf; [done| |].
  - inversion Hf; subst. by apply split_on_free.
  - inversion Hf; subst. rewrite join_cons. cbn [app].
    rewrite split_on_app_sep, IH by done. by rewrite split_on_free.
Qed.

Lemma join_length_one c l : l ≠ [] → zlen (join [c] l) = zsum (map (λ x : jstr, zlen x + 1) l) - 1.
Proof.
  induction l as [|x [|y l] IH]; intros Hne; [done|simpl; lia|].
  rewrite join_cons, !zlen_app, IH by done. simpl. lia.
Qed.

Lemma join_app c l1 l2 : l1 ≠ [] → l2 ≠ [] → join [c] (l1 ++ l2) = join [c] l1 ++ [c] ++ join [c] l2.
Proof.
  induction l1 as [|x [|y l1] IH]; intros H1 H2; [done| |].
  - destruct l2; [done|]. done.
  - change ((x :: y :: l1) ++ l2) with (x :: (y :: l1) ++ l2).
    change ((y :: l1) ++ l2) with (y :: (l1 ++ l2)) in *.
    rewrite !join_cons, IH by done. by rewrite !app_assoc.
Qed.

(** ** Lemmas: UTF-8 sizes *)

Definition pairs_with (c : Z) (s : jstr) : bool :=
  is_high c && match s with d :: _ => is_low d | [] => false end.

Lemma low_size d : is_low d = true → utf8_size d = 3.
Proof. unfold is_low, utf8_size. intros H. bool_prop. repeat case_test; bool_prop; lia. Qed.

Lemma high_size d : is_high d = true → utf8_size d = 3.
Proof. unfold is_high, utf8_size. intros H. bool_prop. repeat case_test; bool_prop; lia. Qed.

Lemma low_not_high d : is_low d = true → is_high d = false.
Proof. unfold is_low, is_high. intros H. bool_prop. apply andb_false_iff. right. apply Z.leb_gt. lia. Qed.

Lemma utf8_size_pos c : 1 <= utf8_size c <= 4.
Proof. unfold utf8_size. repeat case_test; lia. Qed.

(** Adding one unit in front: a completed surrogate pair saves two bytes. *)
Lemma byte_length_cons c s :
  byte_length (c :: s) = utf8_size c + byte_length s - (if pairs_with c s then 2 else 0).
Proof.
  unfold pairs_with. destruct s as [|d s]; cbn [byte_length].
  - rewrite andb_false_r. lia.
  - destruct (is_high c && is_low d) eqn:E; [|lia].
    bool_prop. rewrite high_size by done.
    destruct s as [|e s]; rewrite ?low_size by done; [cbn [byte_length]; lia|].
    rewrite low_not_high by done. cbn [andb]. lia.
Qed.

Lemma byte_length_nonneg s : 0 <= byte_length s.
Proof.
  induction s as [|c s IH]; [done|]. rewrite byte_length_cons.
  pose proof (utf8_size_pos c). unfold pairs_with.
  destruct (is_high c) eqn:E; cbn [andb]; [rewrite high_size by done; case_test; lia|lia].
Qed.
#[export] Hint Resolve byte_length_nonneg : bluecode.

Lemma pairs_with_app c s t : s ≠ [] → pairs_with c (s ++ t) = pairs_with c s.
Proof. by destruct s. Qed.

(** Byte length of a concatenation: a pair may straddle the cut. *)
Lemma byte_length_app s t :
  byte_length (s ++ t) =
  byte_length s + byte_length t
  - (if match last s with Some c => pairs_with c t | None => false end then 2 else 0).
Proof.
  induction s as [|c s IH]; [simpl; lia|].
  cbn [app]. rewrite byte_length_cons, byte_length_cons, IH.
  destruct s as [|d s].
  { replace (pairs_with c []) with false by (unfold pairs_with; by rewrite andb_false_r).
    cbn [app last byte_length]. lia. }
  rewrite pairs_with_app by done. rewrite last_cons_cons. lia.
Qed.
