(* ===== verification/JsRegex.v ===== *)
(** * JavaScript regular expressions

    The program recognises tool output with regular-expression literals.  A
    literal is written here exactly as in the source ([re "..."], flags [re_i]
    and [re_s]) and parsed by [parse_re]; matching follows the ECMAScript
    backtracking semantics: alternatives left to right, greedy and lazy
    quantifiers, an iteration that consumes nothing fails, captures by group.
    The syntax covered is the one the source uses: classes, escapes,
    quantifiers, groups, anchors, word boundaries and lookahead. *)

From stdpp Require Import base tactics list numbers option sets.
From stdpp Require Import strings.
From S2P Require Import Prelude JsString.

Inductive regex : Type :=
| REmpty
| RSet (neg : bool) (ranges : list (Z * Z))
| RSeq (a b : regex)
| RAlt (a b : regex)
| RStar (greedy : bool) (a : regex)
| ROpt (greedy : bool) (a : regex)
| RBol
| REol
| RWordB
| RCap (n : nat) (a : regex)
| RLook (neg : bool) (a : regex).

(** ** Character classes *)

Definition in_ranges (rs : list (Z * Z)) (c : Z) : bool :=
  existsb (λ '(lo, hi), (lo <=? c) && (c <=? hi)) rs.

Definition digit_ranges : list (Z * Z) := [(48, 57)].
Definition word_ranges : list (Z * Z) := [(48, 57); (65, 90); (95, 95); (97, 122)].
Definition space_ranges : list (Z * Z) :=
  [(9, 13); (32, 32); (160, 160); (5760, 5760); (8192, 8202); (8232, 8233);
   (8239, 8239); (8287, 8287); (12288, 12288); (65279, 65279)].

(** Complement of sorted disjoint ranges. *)
Fixpoint compl_from (lo : Z) (rs : list (Z * Z)) : list (Z * Z) :=
  match rs with
  | [] => [(lo, 65535)]
  | (a, b) :: r => if lo <? a then (lo, a - 1) :: compl_from (b + 1) r else compl_from (b + 1) r
  end.
Definition compl (rs : list (Z * Z)) : list (Z * Z) := compl_from 0 rs.

Definition is_word (c : Z) : bool := in_ranges word_ranges c.
Definition is_digit (c : Z) : bool := in_ranges digit_ranges c.

(** ** Parsing literals *)

Definition hex_val (c : Z) : Z :=
  if (48 <=? c) && (c <=? 57) then c - 48
  else if (97 <=? c) && (c <=? 102) then c - 87
  else if (65 <=? c) && (c <=? 70) then c - 55 else 0.

(** An escape after the backslash: its ranges and the rest of the pattern. *)
Definition p_escape (s : jstr) : option (list (Z * Z) * jstr) :=
  match s with
  | [] => None
  | c :: r =>
    if c =? 100 then Some (digit_ranges, r)                  (* \d *)
    else if c =? 68 then Some (compl digit_ranges, r)        (* \D *)
    else if c =? 119 then Some (word_ranges, r)              (* \w *)
    else if c =? 87 then Some (compl word_ranges, r)         (* \W *)
    else if c =? 115 then Some (space_ranges, r)             (* \s *)
    else if c =? 83 then Some (compl space_ranges, r)        (* \S *)
    else if c =? 110 then Some ([(10, 10)], r)               (* \n *)
    else if c =? 114 then Some ([(13, 13)], r)               (* \r *)
    else if c =? 116 then Some ([(9, 9)], r)                 (* \t *)
    else if c =? 48 then Some ([(0, 0)], r)                  (* \0 *)
    else if c =? 120 then                                    (* \xHH *)
      match r with
      | a :: b :: r' => let v := hex_val a * 16 + hex_val b in Some ([(v, v)], r')
      | _ => None
      end
    else if c =? 117 then                                    (* \uHHHH *)
      match r with
      | a :: b :: d :: e :: r' =>
        let v := ((hex_val a * 16 + hex_val b) * 16 + hex_val d) * 16 + hex_val e in
        Some ([(v, v)], r')
      | _ => None
      end
    else Some ([(c, c)], r)
  end.

(** One class atom. *)
Definition p_class_atom (s : jstr) : option (list (Z * Z) * jstr) :=
  match s with
  | [] => None
  | c :: r => if c =? 92 then p_escape r else Some ([(c, c)], r)
  end.

Fixpoint p_class (fuel : nat) (s : jstr) (acc : list (Z * Z)) : option (list (Z * Z) * jstr) :=
  match fuel with
  | O => None
  | S f =>
    match s with
    | [] => None
    | c :: r =>
      if c =? 93 then Some (rev acc, r)
      else match p_class_atom s with
      | None => None
      | Some (rs, r1) =>
        match rs, r1 with
        | [(lo, _)], 45 :: d :: _ =>
          if d =? 93 then p_class f r1 (rs ++ acc)
          else match p_class_atom (tail r1) with
               | Some ([(hi, _)], r2) => p_class f r2 ((lo, hi) :: acc)
               | _ => None
               end
        | _, _ => p_class f r1 (rs ++ acc)
        end
      end
    end
  end.

Fixpoint p_nat (s : jstr) (acc : nat) : nat * jstr :=
  match s with
  | c :: r => if is_digit c then p_nat r (10 * acc + Z.to_nat (c - 48))%nat else (acc, s)
  | [] => (acc, s)
  end.

Definition rseq (a b : regex) : regex := match a with REmpty => b | _ => RSeq a b end.
Fixpoint rep_exact (n : nat) (a : regex) : regex :=
  match n with O => REmpty | S m => match m with O => a | _ => RSeq a (rep_exact m a) end end.
Fixpoint rep_upto (g : bool) (n : nat) (a : regex) : regex :=
  match n with O => REmpty | S m => ROpt g (rseq a (rep_upto g m a)) end.

Definition p_lazy (s : jstr) : bool * jstr :=
  match s with 63 :: r => (false, r) | _ => (true, s) end.

(** Quantifier following an atom. *)
Definition p_quant (a : regex) (s : jstr) : regex * jstr :=
  match s with
  | 42 :: r => let '(g, r') := p_lazy r in (RStar g a, r')
  | 43 :: r => let '(g, r') := p_lazy r in (RSeq a (RStar g a), r')
  | 63 :: r => let '(g, r') := p_lazy r in (ROpt g a, r')
  | 123 :: r =>
    let '(lo, r1) := p_nat r O in
    match r1 with
    | 125 :: r2 => let '(_, r') := p_lazy r2 in (rep_exact lo a, r')
    | 44 :: 125 :: r2 => let '(g, r') := p_lazy r2 in (rseq (rep_exact lo a) (RStar g a), r')
    | 44 :: r2 =>
      let '(hi, r3) := p_nat r2 O in
      let '(g, r') := p_lazy (tail r3) in (rseq (rep_exact lo a) (rep_upto g (hi - lo) a), r')
    | _ => (a, s)
    end
  | _ => (a, s)
  end.

Section Parser.
(** Does [.] match line terminators ([s] flag)? *)
Context (dot_all : bool).

Definition dot : regex :=
  if dot_all then RSet true [] else RSet true [(10, 10); (13, 13); (8232, 8233)].

Fixpoint p_disj (fuel : nat) (s : jstr) (n : nat) : option (regex * jstr * nat) :=
  match fuel with
  | O => None
  | S f =>
    match p_alt f s n REmpty with
    | Some (a, 124 :: r, n1) =>
      match p_disj f r n1 with
      | Some (b, r2, n2) => Some (RAlt a b, r2, n2)
      | None => None
      end
    | x => x
    end
  end
with p_alt (fuel : nat) (s : jstr) (n : nat) (acc : regex) : option (regex * jstr * nat) :=
  match fuel with
  | O => None
  | S f =>
    match s with
    | [] | 124 :: _ | 41 :: _ => Some (acc, s, n)
    | _ =>
      match p_atom f s n with
      | Some (a, r, n1) => let '(q, r') := p_quant a r in p_alt f r' n1 (rseq acc q)
      | None => None
      end
    end
  end
with p_atom (fuel : nat) (s : jstr) (n : nat) : option (regex * jstr * nat) :=
  match fuel with
  | O => None
  | S f =>
    let group (mk : regex → regex) r n0 :=
      match p_disj f r n0 with
      | Some (a, 41 :: r', n') => Some (mk a, r', n')
      | _ => None
      end in
    match s with
    | [] => None
    | 94 :: r => Some (RBol, r, n)
    | 36 :: r => Some (REol, r, n)
    | 46 :: r => Some (dot, r, n)
    | 40 :: 63 :: 58 :: r => group (λ a, a) r n
    | 40 :: 63 :: 61 :: r => group (RLook false) r n
    | 40 :: 63 :: 33 :: r => group (RLook true) r n
    | 40 :: r => group (RCap n) r (S n)
    | 91 :: 94 :: r => match p_class (length r) r [] with Some (rs, r') => Some (RSet true rs, r', n) | None => None end
    | 91 :: r => match p_class (length r) r [] with Some (rs, r') => Some (RSet false rs, r', n) | None => None end
    | 92 :: 98 :: r => Some (RWordB, r, n)
    | 92 :: r => match p_escape r with Some (rs, r') => Some (RSet false rs, r', n) | None => None end
    | c :: r => Some (RSet false [(c, c)], r, n)
    end
  end.

Definition parse_re (s : jstr) : option regex :=
  match p_disj (4 * length s + 4) s 1 with
  | Some (r, [], _) => Some r
  | _ => None
  end.
End Parser.

(** The [i] flag: only ASCII letters fold onto ASCII letters. *)
Definition shift_range (lo hi d : Z) (r : Z * Z) : list (Z * Z) :=
  let a := Z.max lo r.1 in let b := Z.min hi r.2 in
  if a <=? b then [(a + d, b + d)] else [].
Definition fold_case_ranges (rs : list (Z * Z)) : list (Z * Z) :=
  rs ++ flat_map (shift_range 65 90 32) rs ++ flat_map (shift_range 97 122 (-32)) rs.
Fixpoint fold_case (r : regex) : regex :=
  match r with
  | RSet neg rs => RSet neg (fold_case_ranges rs)
  | RSeq a b => RSeq (fold_case a) (fold_case b)
  | RAlt a b => RAlt (fold_case a) (fold_case b)
  | RStar g a => RStar g (fold_case a)
  | ROpt g a => ROpt g (fold_case a)
  | RCap n a => RCap n (fold_case a)
  | RLook neg a => RLook neg (fold_case a)
  | _ => r
  end.

(** A literal that does not parse becomes a regex matching nothing; every
    literal of the development is checked to parse where it is declared. *)
Definition never : regex := RSet false [].
Definition re (s : string) : regex := default never (parse_re false (js s)).
Definition re_i (s : string) : regex := fold_case (re s).
Definition re_s (s : string) : regex := default never (parse_re true (js s)).

(** ** Matching *)

Record mstate := MState { m_prev : option Z; m_rest : jstr; m_caps : list (nat * jstr) }.

Definition word_opt (o : option Z) : bool := match o with Some c => is_word c | None => false end.
Definition step1 (st : mstate) : option (Z * mstate) :=
  match m_rest st with
  | [] => None
  | c :: r => Some (c, MState (Some c) r (m_caps st))
  end.

Definition or_else {A} (x : option A) (y : option A) : option A :=
  match x with Some _ => x | None => y end.

(** A quantified iteration must consume something. *)
Definition consuming (st : mstate) (k : mstate → option mstate) (st' : mstate) : option mstate :=
  if bool_decide (length (m_rest st') < length (m_rest st))%nat then k st' else None.

(** The iterations of a star, at most [n]. *)
Fixpoint star_loop (body : mstate → (mstate → option mstate) → option mstate) (g : bool)
    (k : mstate → option mstate) (n : nat) (st : mstate) : option mstate :=
  match n with
  | O => k st
  | S n' =>
    let more := body st (consuming st (star_loop body g k n')) in
    if g then or_else more (k st) else or_else (k st) more
  end.

(** [rmatch r st k]: match [r] at [st], then continue with [k]. *)
Fixpoint rmatch (r : regex) (st : mstate) (k : mstate → option mstate) {struct r} : option mstate :=
  match r with
  | REmpty => k st
  | RSet neg rs =>
    match step1 st with
    | Some (c, st') => if xorb neg (in_ranges rs c) then k st' else None
    | None => None
    end
  | RSeq a b => rmatch a st (λ st', rmatch b st' k)
  | RAlt a b => or_else (rmatch a st k) (rmatch b st k)
  | ROpt g a =>
    let some := rmatch a st (consuming st k) in
    if g then or_else some (k st) else or_else (k st) some
  | RStar g a => star_loop (rmatch a) g k (S (length (m_rest st))) st
  | RBol => match m_prev st with None => k st | Some _ => None end
  | REol => match m_rest st with [] => k st | _ => None end
  | RWordB => if xorb (word_opt (m_prev st)) (word_opt (head (m_rest st))) then k st else None
  | RCap n a =>
    rmatch a st (λ st', k (MState (m_prev st') (m_rest st')
      ((n, take (length (m_rest st) - length (m_rest st')) (m_rest st)) :: m_caps st')))
  | RLook neg a =>
    match rmatch a st Some with
    | Some st' => if neg then None else k (MState (m_prev st) (m_rest st) (m_caps st'))
    | None => if neg then k st else None
    end
  end.

Definition match_at (r : regex) (prev : option Z) (s : jstr) : option mstate :=
  rmatch r (MState prev s []) Some.

Record rmatch_result := RMatch { rm_index : nat; rm_text : jstr; rm_caps : list (nat * jstr) }.

Definition result_of (i : nat) (s : jstr) (st : mstate) : rmatch_result :=
  RMatch i (take (length s - length (m_rest st)) s) (m_caps st).

(** [r.exec(s)]: leftmost match. *)
Fixpoint exec_from (r : regex) (prev : option Z) (i : nat) (s : jstr) : option rmatch_result :=
  match match_at r prev s with
  | Some st => Some (result_of i s st)
  | None => match s with [] => None | c :: s' => exec_from r (Some c) (S i) s' end
  end.
Definition exec (r : regex) (s : jstr) : option rmatch_result := exec_from r None 0 s.

(** [r.test(s)] *)
Definition test (r : regex) (s : jstr) : bool := match exec r s with Some _ => true | None => false end.

(** Capture group [n] of a match, [undefined] when it did not take part. *)
Definition group_of (m : rmatch_result) (n : nat) : option jstr :=
  (fix find (l : list (nat * jstr)) : option jstr :=
     match l with
     | [] => None
     | (i, t) :: r => if (i =? n)%nat then Some t else find r
     end) (rm_caps m).

(** [s.matchAll(r)] for a global regex: [skip] units belong to the last match. *)
Fixpoint match_all_from (r : regex) (prev : option Z) (i : nat) (s : jstr) (skip : nat) : list rmatch_result :=
  match skip, s with
  | S k, c :: s' => match_all_from r (Some c) (S i) s' k
  | S _, [] => []
  | O, _ =>
    match match_at r prev s with
    | Some st =>
      result_of i s st ::
      match s with
      | [] => []
      | c :: s' => match_all_from r (Some c) (S i) s' (length s - length (m_rest st) - 1)
      end
    | None => match s with [] => [] | c :: s' => match_all_from r (Some c) (S i) s' 0 end
    end
  end.
Definition match_all (r : regex) (s : jstr) : list rmatch_result := match_all_from r None 0 s 0.

(** [s.replace(r, f)] for a global regex. *)
Fixpoint replace_from (r : regex) (f : rmatch_result → jstr) (prev : option Z) (i : nat) (s : jstr) (skip : nat) : jstr :=
  match skip, s with
  | S k, c :: s' => replace_from r f (Some c) (S i) s' k
  | S _, [] => []
  | O, _ =>
    match match_at r prev s with
    | Some st =>
      let n := (length s - length (m_rest st))%nat in
      f (result_of i s st) ++
      match s with
      | [] => []
      | c :: s' => if (n =? 0)%nat then c :: replace_from r f (Some c) (S i) s' 0
                   else replace_from r f (Some c) (S i) s' (n - 1)
      end
    | None => match s with [] => [] | c :: s' => c :: replace_from r f (Some c) (S i) s' 0 end
    end
  end.
Definition replace_all (r : regex) (f : rmatch_result → jstr) (s : jstr) : jstr := replace_from r f None 0 s 0.

(** ** Matching lemmas *)

Lemma rmatch_set neg rs st k :
  rmatch (RSet neg rs) st k =
  match m_rest st with
  | c :: r => if xorb neg (in_ranges rs c) then k (MState (Some c) r (m_caps st)) else None
  | [] => None
  end.
Proof. cbn [rmatch]. unfold step1. by destruct (m_rest st). Qed.

(** A greedy star of a class runs to the end of a text over the class. *)
Lemma star_set_all rs k s n st :
  (∀ st', m_rest st' = [] → is_Some (k st')) →
  m_rest st = s → Forall (λ c, in_ranges rs c = true) s → (length s < n)%nat →
  is_Some (star_loop (rmatch (RSet false rs)) true k n st).
Proof.
  intros Hk Hs Hall. revert n st Hs. induction Hall as [|c s Hc _ IH]; intros n st Hs Hn;
    (destruct n as [|n]; [simpl in Hn; lia|]); cbn [star_loop]; rewrite rmatch_set, Hs.
  - destruct (Hk st Hs) as [st' Hst']. exists st'. done.
  - rewrite Hc. cbn [xorb]. unfold consuming. cbn [m_rest].
    rewrite bool_decide_eq_true_2 by (rewrite Hs; simpl; lia).
    destruct (IH n (MState (Some c) s (m_caps st))) as [st' ->]; [done|simpl in Hn; lia|].
    simpl. eauto.
Qed.

(** ** Literals of the shapes used by the program *)

Definition parses (s : string) : bool := bool_decide (is_Some (parse_re false (js s))).

Example re_seed_parses : parses "^\s*FAIL\b|^\d+\)\s|[✗✖●]|^expect\(.*\)|^Expected:? |^\s*(?:Expected|Received):?\s" = true.
Proof. vm_compute. reflexivity. Qed.
Example re_grep : exec (re "^([^\s:][^\s]*?)[:-](\d+)(?:[:-](.*))?$") (js "a/b-c.ts:12:foo: bar") =
  Some (RMatch 0 (js "a/b-c.ts:12:foo: bar") [(3%nat, js "foo: bar"); (2%nat, js "12"); (1%nat, js "a/b-c.ts")]).
Proof. vm_compute. reflexivity. Qed.
Example re_ci : test (re_i "\b(?:todo|next)\b") (js "a ToDo.") = true ∧ test (re_i "\b(?:todo|next)\b") (js "atodo") = false.
Proof. vm_compute. auto. Qed.
