(* ===== verification/Json.v ===== *)
(** * JSON values, [JSON.stringify] and [JSON.parse]

    Numbers are IEEE doubles: a safe integer is kept as [NInt], minus zero as
    [NNegZero], any other finite double as [NFrac] with its exact binary value
    (Rocq's executable [spec_float]).  Objects keep their own-property order,
    array-index keys first, as JavaScript does.  The round trip
    [JSON.parse (JSON.stringify v) = v] is proved for values whose numbers are
    safe integers. *)

From stdpp Require Import base tactics list numbers option sets strings.
From Stdlib Require Import SpecFloat.
From S2P Require Import Prelude JsString.

(** ** Numbers *)

Definition f64_round (s : bool) (m : Z) (e : Z) : spec_float :=
  binary_normalize 53 1024 (if s then - m else m) e s.

(** The double nearest to [m * 10^e]. *)
Definition f64_of_dec (s : bool) (m e : Z) : spec_float :=
  match m with
  | Zpos p =>
    if 0 <=? e then f64_round s (m * 10 ^ e) 0
    else let '(q, e', l) := SFdiv_core_binary 53 1024 m 0 (10 ^ (- e)) 0 in
         binary_round_aux 53 1024 s q e' l
  | _ => S754_zero s
  end.

Inductive jnum : Type :=
| NInt (z : Z)
| NNegZero
| NFrac (f : spec_float).

(** The number a double denotes; [None] for infinities and NaN. *)
Definition jnum_of_f64 (f : spec_float) : option jnum :=
  match f with
  | S754_zero s => Some (if s then NNegZero else NInt 0)
  | S754_finite s m e =>
    let m' := if 0 <=? e then Zpos m * 2 ^ e else Zpos m `div` 2 ^ (- e) in
    let exact := (0 <=? e) || (Zpos m =? m' * 2 ^ (- e)) in
    let n := if s then - m' else m' in
    Some (if exact && is_safe_integer n then NInt n else NFrac f)
  | _ => None
  end.

(** [Number::toString] of a positive finite double that is not a safe integer:
    the shortest digits [s] (with [k] digits and point position [n]) that round
    back to it. *)
Definition f64_cmp_pow10 (m e n : Z) : bool :=   (* m * 2^e < 10^n *)
  let a := m * 2 ^ (Z.max e 0) * 10 ^ (Z.max (- n) 0) in
  let b := 10 ^ (Z.max n 0) * 2 ^ (Z.max (- e) 0) in
  a <? b.
Fixpoint dec_point (fuel : nat) (m e n : Z) : Z :=
  match fuel with
  | O => n
  | S f => if f64_cmp_pow10 m e n then (if f64_cmp_pow10 m e (n - 1) then dec_point f m e (n - 1) else n)
           else dec_point f m e (n + 1)
  end.
Definition sf_eqb (a b : spec_float) : bool :=
  match a, b with
  | S754_zero s, S754_zero t => Bool.eqb s t
  | S754_finite s m e, S754_finite t m' e' => Bool.eqb s t && (Zpos m =? Zpos m') && (e =? e')
  | _, _ => false
  end.
(** A candidate that rounds up to [10^k] has one more digit before the point. *)
Definition carry_up (s k n : Z) : Z * Z * Z :=
  if s =? 10 ^ k then (10 ^ (k - 1), k, n + 1) else (s, k, n).
Fixpoint shortest (fuel : nat) (f : spec_float) (m e n k : Z) : Z * Z * Z :=
  let p := n - k in
  (* floor of m*2^e / 10^p, and the twice-remainder test for the nearer one *)
  let num := m * 2 ^ (Z.max e 0) * 10 ^ (Z.max (- p) 0) in
  let den := 10 ^ (Z.max p 0) * 2 ^ (Z.max (- e) 0) in
  let lo := num `div` den in
  let near_hi := den <? 2 * (num `mod` den) in
  let ok s := sf_eqb (f64_of_dec false s p) f in
  match fuel with
  | O => (lo, k, n)
  | S fu =>
    if near_hi && ok (lo + 1) then carry_up (lo + 1) k n
    else if ok lo then (lo, k, n)
    else if ok (lo + 1) then carry_up (lo + 1) k n
    else shortest fu f m e n (k + 1)
  end.
Definition zeros (n : Z) : jstr := repeat 48 (Z.to_nat n).
Definition fmt_digits (s k n : Z) : jstr :=
  let ds := dec_nonneg s in
  if (k <=? n) && (n <=? 21) then ds ++ zeros (n - k)
  else if (0 <? n) && (n <=? 21) then take (Z.to_nat n) ds ++ [46] ++ drop (Z.to_nat n) ds
  else if (-6 <? n) && (n <=? 0) then [48; 46] ++ zeros (- n) ++ ds
  else let ex := n - 1 in
       let es := (if ex <? 0 then [45] else [43]) ++ dec_nonneg (Z.abs ex) in
       take 1 ds ++ (if k =? 1 then [] else [46] ++ drop 1 ds) ++ [101] ++ es.
Definition frac_to_string (f : spec_float) : jstr :=
  match f with
  | S754_finite s mp e =>
    let m := Zpos mp in
    let g := S754_finite false mp e in
    let n := dec_point 700 m e 0 in
    let '(d, k, n') := shortest 17 g m e n 1 in
    (if s then [45] else []) ++ fmt_digits d k n'
  | _ => [48]
  end.
Definition jnum_to_string (n : jnum) : jstr :=
  match n with
  | NInt z => dec z
  | NNegZero => [48]
  | NFrac f => frac_to_string f
  end.

(** ** Values *)

Inductive json : Type :=
| JNull
| JBool (b : bool)
| JNum (n : jnum)
| JStr (s : jstr)
| JArr (l : list json)
| JObj (l : list (jstr * json)).

Definition hex_digit (n : Z) : Z := if n <? 10 then 48 + n else 87 + n.
Definition hex4 (c : Z) : jstr :=
  [hex_digit (Z.land (Z.shiftr c 12) 15); hex_digit (Z.land (Z.shiftr c 8) 15);
   hex_digit (Z.land (Z.shiftr c 4) 15); hex_digit (Z.land c 15)].
Definition u_escape (c : Z) : jstr := [92; 117] ++ hex4 c.

(** QuoteJSONString, body: one code point at a time, lone surrogates escaped. *)
Definition quote_unit (c : Z) : jstr :=
  if c =? 8 then [92; 98] else if c =? 9 then [92; 116] else if c =? 10 then [92; 110]
  else if c =? 12 then [92; 102] else if c =? 13 then [92; 114]
  else if c =? 34 then [92; 34] else if c =? 92 then [92; 92]
  else if c <? 32 then u_escape c
  else if is_high c || is_low c then u_escape c
  else [c].
Fixpoint quote_body (s : jstr) : jstr :=
  match s with
  | [] => []
  | c :: r =>
    match r with
    | d :: r' => if is_high c && is_low d then c :: d :: quote_body r' else quote_unit c ++ quote_body r
    | [] => quote_unit c
    end
  end.
Definition quote (s : jstr) : jstr := 34 :: quote_body s ++ [34].

Fixpoint stringify (v : json) : jstr :=
  match v with
  | JNull => js "null"
  | JBool true => js "true"
  | JBool false => js "false"
  | JNum n => jnum_to_string n
  | JStr s => quote s
  | JArr l => 91 :: join [44] (map stringify l) ++ [93]
  | JObj l => 123 :: join [44] (map (λ kv, quote kv.1 ++ 58 :: stringify kv.2) l) ++ [125]
  end.

(** ** Parsing *)

Definition is_ws (c : Z) : bool := (c =? 32) || (c =? 9) || (c =? 10) || (c =? 13).
Fixpoint skip_ws (s : jstr) : jstr :=
  match s with c :: r => if is_ws c then skip_ws r else s | [] => [] end.
Definition is_dig (c : Z) : bool := (48 <=? c) && (c <=? 57).

Definition eat (p s : jstr) : option jstr :=
  if starts_with p s then Some (drop (length p) s) else None.

Definition hex_of (c : Z) : option Z :=
  if (48 <=? c) && (c <=? 57) then Some (c - 48)
  else if (97 <=? c) && (c <=? 102) then Some (c - 87)
  else if (65 <=? c) && (c <=? 70) then Some (c - 55) else None.
Definition hex4_of (a b c d : Z) : option Z :=
  match hex_of a, hex_of b, hex_of c, hex_of d with
  | Some a, Some b, Some c, Some d => Some (((a * 16 + b) * 16 + c) * 16 + d)
  | _, _, _, _ => None
  end.
Definition simple_escape (c : Z) : option Z :=
  if c =? 34 then Some 34 else if c =? 92 then Some 92 else if c =? 47 then Some 47
  else if c =? 98 then Some 8 else if c =? 102 then Some 12 else if c =? 110 then Some 10
  else if c =? 114 then Some 13 else if c =? 116 then Some 9 else None.

(** The characters of a string literal after the opening quote. *)
Fixpoint p_string (s : jstr) : option (jstr * jstr) :=
  match s with
  | [] => None
  | c :: r =>
    if c =? 34 then Some ([], r)
    else if c <? 32 then None
    else if c =? 92 then
      match r with
      | [] => None
      | e :: r1 =>
        if e =? 117 then
          match r1 with
          | a :: b :: x :: y :: r2 =>
            match hex4_of a b x y, p_string r2 with
            | Some u, Some (t, r3) => Some (u :: t, r3)
            | _, _ => None
            end
          | _ => None
          end
        else match simple_escape e, p_string r1 with
             | Some u, Some (t, r3) => Some (u :: t, r3)
             | _, _ => None
             end
      end
    else match p_string r with Some (t, r3) => Some (c :: t, r3) | None => None end
  end.

Fixpoint span_dig (s : jstr) : jstr * jstr :=
  match s with
  | c :: r => if is_dig c then let '(d, t) := span_dig r in (c :: d, t) else ([], s)
  | [] => ([], [])
  end.
Definition digits_val (ds : jstr) : Z := foldl (λ a c, a * 10 + (c - 48)) 0 ds.

Definition p_frac (s : jstr) : option (jstr * jstr) :=
  match s with
  | 46 :: r => match span_dig r with ([], _) => None | x => Some x end
  | _ => Some ([], s)
  end.
Definition p_exp (s : jstr) : option (Z * jstr) :=
  match s with
  | c :: r =>
    if (c =? 101) || (c =? 69) then
      let '(neg, r1) := match r with
                        | d :: r' => if d =? 45 then (true, r') else if d =? 43 then (false, r') else (false, r)
                        | [] => (false, r)
                        end in
      match span_dig r1 with
      | ([], _) => None
      | (ds, r2) => Some (if neg : bool then - digits_val ds else digits_val ds, r2)
      end
    else Some (0, s)
  | [] => Some (0, s)
  end.

(** The number a literal [int.frac e ex] denotes. *)
Definition num_of_literal (neg : bool) (ip fp : jstr) (ex : Z) : option jnum :=
  match fp with
  | [] =>
    let n := digits_val ip in
    if (ex =? 0) && is_safe_integer n then Some (if neg then (if n =? 0 then NNegZero else NInt (- n)) else NInt n)
    else jnum_of_f64 (f64_of_dec neg n ex)
  | _ => jnum_of_f64 (f64_of_dec neg (digits_val (ip ++ fp)) (ex - zlen fp))
  end.

Definition p_number (s : jstr) : option (jnum * jstr) :=
  let '(neg, s1) := match s with c :: r => if c =? 45 then (true, r) else (false, s) | [] => (false, s) end in
  match span_dig s1 with
  | ([], _) => None
  | (ip, r1) =>
    if (match ip with c :: _ :: _ => c =? 48 | _ => false end) then None
    else match p_frac r1 with
    | None => None
    | Some (fp, r2) =>
      match p_exp r2 with
      | None => None
      | Some (ex, r3) => match num_of_literal neg ip fp ex with Some n => Some (n, r3) | None => None end
      end
    end
  end.

(** Own-property order of an object built by adding [kvs] in turn. *)
Fixpoint obj_set (l : list (jstr * json)) (k : jstr) (v : json) : list (jstr * json) :=
  match l with
  | [] => [(k, v)]
  | (k', v') :: r => if jeqb k' k then (k', v) :: r else (k', v') :: obj_set r k v
  end.
Definition index_key (k : jstr) : option Z :=
  match k with
  | [] => None
  | c :: r =>
    if forallb is_dig k && (negb (c =? 48) || match r with [] => true | _ => false end)
    then let n := digits_val k in if n <? 4294967295 then Some n else None
    else None
  end.
Fixpoint insert_index (n : Z) (kv : jstr * json) (l : list (Z * (jstr * json))) : list (Z * (jstr * json)) :=
  match l with
  | [] => [(n, kv)]
  | (m, kv') :: r => if n <? m then (n, kv) :: l else (m, kv') :: insert_index n kv r
  end.
Definition obj_order (l : list (jstr * json)) : list (jstr * json) :=
  map snd (foldr (λ kv acc, match index_key kv.1 with Some n => insert_index n kv acc | None => acc end) [] l)
  ++ List.filter (λ kv, match index_key kv.1 with Some _ => false | None => true end) l.
Definition obj_of (kvs : list (jstr * json)) : list (jstr * json) :=
  obj_order (foldl (λ l kv, obj_set l kv.1 kv.2) [] kvs).

Fixpoint p_value (fuel : nat) (s : jstr) : option (json * jstr) :=
  match fuel with
  | O => None
  | S f =>
    match skip_ws s with
    | [] => None
    | c :: r =>
      if c =? 34 then match p_string r with Some (t, r') => Some (JStr t, r') | None => None end
      else if c =? 91 then
        match skip_ws r with
        | d :: r' =>
          if d =? 93 then Some (JArr [], r')
          else match p_elems f r with Some (l, r2) => Some (JArr l, r2) | None => None end
        | [] => None
        end
      else if c =? 123 then
        match skip_ws r with
        | d :: r' =>
          if d =? 125 then Some (JObj [], r')
          else match p_members f r with Some (l, r2) => Some (JObj (obj_of l), r2) | None => None end
        | [] => None
        end
      else match eat (js "null") (c :: r) with
      | Some r' => Some (JNull, r')
      | None =>
      match eat (js "true") (c :: r) with
      | Some r' => Some (JBool true, r')
      | None =>
      match eat (js "false") (c :: r) with
      | Some r' => Some (JBool false, r')
      | None =>
        match p_number (c :: r) with Some (n, r') => Some (JNum n, r') | None => None end
      end end end
    end
  end
with p_elems (fuel : nat) (s : jstr) : option (list json * jstr) :=
  match fuel with
  | O => None
  | S f =>
    match p_value f s with
    | None => None
    | Some (v, r) =>
      match skip_ws r with
      | 44 :: r1 => match p_elems f r1 with Some (l, r2) => Some (v :: l, r2) | None => None end
      | 93 :: r1 => Some ([v], r1)
      | _ => None
      end
    end
  end
with p_members (fuel : nat) (s : jstr) : option (list (jstr * json) * jstr) :=
  match fuel with
  | O => None
  | S f =>
    match skip_ws s with
    | 34 :: r =>
      match p_string r with
      | None => None
      | Some (k, r1) =>
        match skip_ws r1 with
        | 58 :: r2 =>
          match p_value f r2 with
          | None => None
          | Some (v, r3) =>
            match skip_ws r3 with
            | 44 :: r4 => match p_members f r4 with Some (l, r5) => Some ((k, v) :: l, r5) | None => None end
            | 125 :: r4 => Some ([(k, v)], r4)
            | _ => None
            end
          end
        | _ => None
        end
      end
    | _ => None
    end
  end.

(** [JSON.parse]: [None] is the SyntaxError. *)
Definition parse (s : jstr) : option json :=
  match p_value (S (length s)) s with
  | Some (v, r) => match skip_ws r with [] => Some v | _ => None end
  | None => None
  end.

(** [o.k] on a parsed value: [None] is [undefined]. *)
Fixpoint assoc (k : jstr) (l : list (jstr * json)) : option json :=
  match l with
  | [] => None
  | (k', v) :: r => if jeqb k' k then Some v else assoc k r
  end.

Example json_print_frac :
  (λ s, stringify <$> parse s) <$> [js "0.6"; js "1e21"; js "123456789012345680000"; js "-1.50"; js "1.0"; js "5e-324"; js "0.000001"; js "1e-7"]
  = [Some (js "0.6"); Some (js "1e+21"); Some (js "123456789012345680000"); Some (js "-1.5"); Some (js "1"); Some (js "5e-324"); Some (js "0.000001"); Some (js "1e-7")].
Proof. vm_compute. reflexivity. Qed.

(** ** Well-formed values *)

Definition units_ok (s : jstr) : Prop := Forall (λ c, 0 <= c < 65536) s.

Inductive json_ok : json → Prop :=
| ok_null : json_ok JNull
| ok_bool b : json_ok (JBool b)
| ok_int z : is_safe_integer z = true → json_ok (JNum (NInt z))
| ok_str s : units_ok s → json_ok (JStr s)
| ok_arr l : Forall json_ok l → json_ok (JArr l)
| ok_obj l : obj_of l = l → Forall (λ kv, units_ok kv.1 ∧ json_ok kv.2) l → json_ok (JObj l).

Lemma json_ind' (P : json → Prop) :
  P JNull → (∀ b, P (JBool b)) → (∀ n, P (JNum n)) → (∀ s, P (JStr s)) →
  (∀ l, Forall P l → P (JArr l)) →
  (∀ l, Forall (λ kv, P kv.2) l → P (JObj l)) → ∀ v, P v.
Proof.
  intros Hn Hb Hi Hs Ha Ho. fix IH 1. intros [|b|n|s|l|l].
  - apply Hn.
  - apply Hb.
  - apply Hi.
  - apply Hs.
  - apply Ha. induction l as [|v l IHl]; constructor; [apply IH | apply IHl].
  - apply Ho. induction l as [|[k v] l IHl]; constructor; [apply IH | apply IHl].
Qed.

(** ** Digits *)

Lemma digits_val_app ds c : digits_val (ds ++ [c]) = digits_val ds * 10 + (c - 48).
Proof. unfold digits_val. by rewrite foldl_app. Qed.

Record is_decimal (n : Z) (ds : jstr) : Prop := {
  dec_digits : Forall (λ c, is_dig c = true) ds;
  dec_value : digits_val ds = n;
  dec_nonempty : ds ≠ [];
  dec_leading : ∀ c d r, ds = c :: d :: r → (c =? 48) = false }.

Lemma is_dig_mod n : is_dig (48 + n `mod` 10) = true.
Proof.
  pose proof (Z.mod_pos_bound n 10 ltac:(lia)). unfold is_dig.
  apply andb_true_iff. split; apply Z.leb_le; lia.
Qed.

Lemma is_decimal_one n : 0 <= n < 10 → is_decimal n [48 + n `mod` 10].
Proof.
  intros H. split; [|unfold digits_val; simpl; rewrite Z.mod_small; lia|done|done].
  constructor; [apply is_dig_mod|constructor].
Qed.

Lemma is_decimal_snoc n ds : 10 <= n → is_decimal (n `div` 10) ds → is_decimal n (ds ++ [48 + n `mod` 10]).
Proof.
  intros Hn [Hd Hv Hne Hl].
  assert (1 <= n `div` 10) by (apply Z.div_le_lower_bound; lia).
  split.
  - apply Forall_app; split; [done|]. constructor; [apply is_dig_mod|constructor].
  - rewrite digits_val_app, Hv. pose proof (Z.div_mod n 10). lia.
  - by destruct ds.
  - intros c d r Heq. destruct ds as [|c' [|d' r']]; [done| |]; simplify_eq/=.
    + unfold digits_val in *. simpl in *. apply Z.eqb_neq. lia.
    + by eapply Hl.
Qed.

Lemma digits_fuel_spec fuel n acc :
  (0 < fuel)%nat → 0 <= n < 10 ^ Z.of_nat fuel →
  ∃ ds, digits_fuel fuel n acc = ds ++ acc ∧ is_decimal n ds.
Proof.
  revert n acc. induction fuel as [|f IH]; intros n acc Hf Hn; [lia|]. simpl.
  rewrite Nat2Z.inj_succ, Z.pow_succ_r in Hn by lia.
  case_test; bool_prop.
  - exists [48 + n `mod` 10]. split; [done|]. apply is_decimal_one. lia.
  - destruct f as [|f']; [simpl in Hn; lia|].
    destruct (IH (n `div` 10) ((48 + n `mod` 10) :: acc)) as (ds & -> & Hds); [lia| |].
    { split; [apply Z.div_pos; lia|]. apply Z.div_lt_upper_bound; lia. }
    exists (ds ++ [48 + n `mod` 10]). rewrite <- app_assoc. split; [done|].
    by apply is_decimal_snoc.
Qed.

Lemma dec_nonneg_spec n : 0 <= n → is_decimal n (dec_nonneg n).
Proof.
  intros Hn. unfold dec_nonneg.
  destruct (digits_fuel_spec (S (Z.to_nat (Z.log2 n))) n []) as (ds & -> & Hds); [lia| |].
  { pose proof (Z.log2_nonneg n). rewrite Nat2Z.inj_succ, Z2Nat.id by lia. split; [lia|].
    destruct (decide (n = 0)) as [->|]; [done|].
    apply Z.lt_le_trans with (2 ^ Z.succ (Z.log2 n)); [apply Z.log2_spec; lia|].
    apply Z.pow_le_mono_l. lia. }
  by rewrite app_nil_r.
Qed.

(** ** Numbers read back *)

(** A literal ends where the next character cannot extend it. *)
Definition num_stop (s : jstr) : bool :=
  match s with
  | [] => true
  | c :: _ => negb (is_dig c) && negb (c =? 46) && negb (c =? 101) && negb (c =? 69)
  end.

Lemma span_dig_app ds s :
  Forall (λ c, is_dig c = true) ds → num_stop s = true → span_dig (ds ++ s) = (ds, s).
Proof.
  intros Hd Hs. induction Hd as [|c ds Hc _ IH]; simpl.
  - destruct s as [|c s]; [done|]. simpl in *. bool_prop. by rewrite H.
  - by rewrite Hc, IH.
Qed.

Lemma p_frac_stop s : num_stop s = true → p_frac s = Some ([], s).
Proof.
  destruct s as [|c s]; [done|]. simpl. intros H. bool_prop.
  unfold p_frac. repeat case_match; simplify_eq; done.
Qed.

Lemma p_exp_stop s : num_stop s = true → p_exp s = Some (0, s).
Proof.
  destruct s as [|c s]; [done|]. simpl. rewrite !andb_true_iff, !negb_true_iff.
  intros [[_ He] HE]. by rewrite He, HE.
Qed.

Lemma p_number_digits n neg s :
  0 <= n → is_safe_integer n = true → num_stop s = true →
  p_number ((if neg : bool then [45] else []) ++ dec_nonneg n ++ s) =
  Some (if neg then (if n =? 0 then NNegZero else NInt (- n)) else NInt n, s).
Proof.
  intros Hn Hsafe Hstop. destruct (dec_nonneg_spec n Hn) as [Hd Hv Hne Hl].
  destruct (dec_nonneg n) as [|c ds] eqn:E; [done|].
  assert (Hc : is_dig c = true) by (by inversion Hd).
  assert (c ≠ 45) as Hc45%Z.eqb_neq by (intros ->; discriminate).
  unfold p_number.
  replace (match (if neg then [45] else []) ++ (c :: ds) ++ s with
           | c :: r => if c =? 45 then (true, r) else (false, _) | [] => _ end)
    with (neg, (c :: ds) ++ s) by (destruct neg; simpl; [done|by rewrite Hc45]).
  rewrite span_dig_app by done.
  replace (match ds with [] => false | _ :: _ => c =? 48 end) with false
    by (destruct ds; [done|]; symmetry; by eapply Hl).
  rewrite p_frac_stop, p_exp_stop by done. unfold num_of_literal.
  rewrite Hv, Hsafe. simpl. done.
Qed.

Lemma p_number_dec z s :
  is_safe_integer z = true → num_stop s = true → p_number (dec z ++ s) = Some (NInt z, s).
Proof.
  intros Hz Hs. unfold dec. case_test; bool_prop.
  - pose proof (p_number_digits (- z) true s) as H. cbn [app] in *. rewrite H; [|lia| |done].
    + replace (- z =? 0) with false by (symmetry; apply Z.eqb_neq; lia). by rewrite Z.opp_involutive.
    + unfold is_safe_integer, MAX_SAFE_INTEGER in *. bool_prop. apply andb_true_iff; split; apply Z.leb_le; lia.
  - by apply (p_number_digits z false s).
Qed.

(** ** Strings read back *)

Lemma hex_of_digit n : 0 <= n < 16 → hex_of (hex_digit n) = Some n.
Proof.
  intros Hn. unfold hex_digit, hex_of. case_test; bool_prop.
  - replace ((48 <=? 48 + n) && (48 + n <=? 57)) with true
      by (symmetry; apply andb_true_iff; split; apply Z.leb_le; lia). f_equal. lia.
  - replace ((48 <=? 87 + n) && (87 + n <=? 57)) with false
      by (symmetry; apply andb_false_iff; right; apply Z.leb_gt; lia).
    replace ((97 <=? 87 + n) && (87 + n <=? 102)) with true
      by (symmetry; apply andb_true_iff; split; apply Z.leb_le; lia). f_equal. lia.
Qed.

Lemma hex4_of_hex4 c :
  0 <= c < 65536 →
  match hex4 c with [a; b; x; y] => hex4_of a b x y = Some c | _ => False end.
Proof.
  intros Hc. unfold hex4, hex4_of.
  change 15 with (Z.ones 4). rewrite !Z.land_ones, !Z.shiftr_div_pow2 by lia.
  rewrite !hex_of_digit by (apply Z.mod_pos_bound; lia). f_equal.
  change (2 ^ 12) with 4096. change (2 ^ 8) with 256. change (2 ^ 4) with 16.
  Z.to_euclidean_division_equations. lia.
Qed.

Lemma p_string_plain c s :
  (c =? 34) = false → (c <? 32) = false → (c =? 92) = false →
  p_string (c :: s) = match p_string s with Some (t, r) => Some (c :: t, r) | None => None end.
Proof. intros H1 H2 H3. simpl. by rewrite H1, H2, H3. Qed.

Lemma p_string_u c s :
  0 <= c < 65536 →
  p_string (u_escape c ++ s) = match p_string s with Some (t, r) => Some (c :: t, r) | None => None end.
Proof.
  intros Hc. apply hex4_of_hex4 in Hc. unfold u_escape.
  destruct (hex4 c) as [|a [|b [|x [|y []]]]]; try done. simpl. by rewrite Hc.
Qed.

Lemma p_string_unit c s :
  0 <= c < 65536 →
  p_string (quote_unit c ++ s) = match p_string s with Some (t, r) => Some (c :: t, r) | None => None end.
Proof.
  intros Hc. unfold quote_unit.
  do 7 (case_test; [bool_prop; subst; reflexivity|]).
  case_test; [by apply p_string_u|]. case_test; [by apply p_string_u|].
  by apply p_string_plain.
Qed.

Lemma p_string_high c s :
  is_high c = true ∨ is_low c = true →
  p_string (c :: s) = match p_string s with Some (t, r) => Some (c :: t, r) | None => None end.
Proof.
  intros H. apply p_string_plain; unfold is_high, is_low in H;
    [apply Z.eqb_neq|apply Z.ltb_ge|apply Z.eqb_neq]; destruct H; bool_prop; lia.
Qed.

Lemma quote_body_cons c s :
  quote_body (c :: s) =
  if pairs_with c s then match s with d :: r => c :: d :: quote_body r | [] => [] end
  else quote_unit c ++ quote_body s.
Proof.
  destruct s as [|d r]; unfold pairs_with; cbn [quote_body].
  - by rewrite andb_false_r, app_nil_r.
  - by destruct (is_high c && is_low d).
Qed.

Lemma p_string_quote s rest : units_ok s → p_string (quote_body s ++ 34 :: rest) = Some (s, rest).
Proof.
  remember (length s) as n eqn:Hn. revert s Hn.
  induction (lt_wf n) as [n _ IH]. intros s -> Hok.
  destruct s as [|c s]; [done|]. rewrite quote_body_cons. unfold units_ok in Hok.
  apply Forall_cons in Hok as [Hc Hok]. case_test.
  - unfold pairs_with in E. destruct s as [|d s]; [bool_prop; done|]. bool_prop.
    apply Forall_cons in Hok as [Hd Hok]. cbn [app].
    rewrite p_string_high, p_string_high by auto.
    rewrite (IH (length s)) by (done || simpl; lia). done.
  - rewrite <- app_assoc, p_string_unit by done.
    rewrite (IH (length s)) by (done || simpl; lia). done.
Qed.

(** ** Values read back *)

Lemma skip_ws_id c s : is_ws c = false → skip_ws (c :: s) = c :: s.
Proof. intros H. simpl. by rewrite H. Qed.

Lemma dec_head z : ∃ c r, dec z = c :: r ∧ (is_dig c = true ∨ c = 45).
Proof.
  assert (∀ n, 0 <= n → ∃ c r, dec_nonneg n = c :: r ∧ is_dig c = true) as Hd.
  { intros n Hn. destruct (dec_nonneg_spec n Hn) as [Hd _ Hne _].
    destruct (dec_nonneg n) as [|c r]; [done|]. inversion Hd; eauto. }
  unfold dec. case_test; bool_prop; [eauto|].
  destruct (Hd z) as (c & r & -> & ?); [lia|]. eauto.
Qed.

Lemma stringify_head v :
  json_ok v → ∃ c r, stringify v = c :: r ∧ is_ws c = false ∧ c ≠ 93 ∧ c ≠ 125.
Proof.
  intros Hok. destruct Hok as [|b|z Hz|s Hs|l Hl|l Ho Hl]; try (eexists _, _; by eauto).
  - destruct b; eexists _, _; by eauto.
  - destruct (dec_head z) as (c & r & Heq & Hc). exists c, r. split; [done|].
    destruct Hc as [Hc| ->]; [|done]. unfold is_dig in Hc. bool_prop. unfold is_ws.
    repeat split; [|lia|lia]. rewrite !orb_false_iff. repeat split; apply Z.eqb_neq; lia.
Qed.

Definition reads_back (v : json) : Prop :=
  ∀ fuel rest, (length (stringify v) <= fuel)%nat → num_stop rest = true →
  p_value fuel (stringify v ++ rest) = Some (v, rest).

Lemma p_value_number z fuel rest :
  is_safe_integer z = true → num_stop rest = true → (0 < fuel)%nat →
  p_value fuel (dec z ++ rest) = Some (JNum (NInt z), rest).
Proof.
  intros Hz Hrest Hf. destruct fuel as [|f]; [lia|].
  pose proof (p_number_dec z rest Hz Hrest) as Hp.
  destruct (dec_head z) as (c & r & Heq & Hc). rewrite Heq in *. cbn [app] in *.
  cbn [p_value]. rewrite skip_ws_id.
  2: { destruct Hc as [Hc| ->]; [|done]. unfold is_dig in Hc. bool_prop. unfold is_ws.
       rewrite !orb_false_iff. repeat split; apply Z.eqb_neq; lia. }
  assert (∀ k, (57 < k) → (c =? k) = false) as Hk.
  { intros k ?. apply Z.eqb_neq. destruct Hc as [Hc| ->]; [|lia]. unfold is_dig in Hc. bool_prop. lia. }
  rewrite (Hk 91), (Hk 123) by lia.
  replace (c =? 34) with false.
  2: { symmetry. apply Z.eqb_neq. destruct Hc as [Hc| ->]; [|lia]. unfold is_dig in Hc. bool_prop. lia. }
  assert (∀ k p, 57 < k → eat (k :: p) (c :: r ++ rest) = None) as He.
  { intros k p ?. unfold eat. simpl. rewrite Z.eqb_sym, Hk by lia. done. }
  change (js "null") with [110; 117; 108; 108]. change (js "true") with [116; 114; 117; 101].
  change (js "false") with [102; 97; 108; 115; 101].
  rewrite !He by lia. by rewrite Hp.
Qed.

Lemma elems_length v v' l :
  length (join [44] (map stringify (v :: v' :: l))) =
  (length (stringify v) + S (length (join [44%Z] (map stringify (v' :: l)))))%nat.
Proof. cbn [map]. rewrite join_cons. cbn [map app]. rewrite length_app. done. Qed.

Lemma p_elems_reads l rest fuel :
  l ≠ [] → Forall reads_back l →
  (length (join [44%Z] (map stringify l)) < fuel)%nat →
  p_elems fuel (join [44] (map stringify l) ++ 93 :: rest) = Some (l, rest).
Proof.
  revert fuel. induction l as [|v l IH]; intros fuel Hne Hl Hf; [done|].
  apply Forall_cons in Hl as [Hv Hl]. destruct fuel as [|f]; [lia|].
  destruct l as [|v' l].
  - cbn [map join p_elems] in *. rewrite Hv by (done || lia). done.
  - rewrite elems_length in Hf. cbn [map]. rewrite join_cons. rewrite <- app_assoc.
    cbn [p_elems app]. rewrite Hv by (done || lia). cbn [skip_ws is_ws].
    change (is_ws 44) with false. cbv iota. rewrite IH by (done || lia). done.
Qed.

Definition member (kv : jstr * json) : jstr := quote kv.1 ++ 58 :: stringify kv.2.

Lemma p_members_reads l rest fuel :
  l ≠ [] → Forall (λ kv, units_ok kv.1 ∧ reads_back kv.2) l →
  Forall (λ kv, json_ok kv.2) l →
  (length (join [44%Z] (map member l)) < fuel)%nat →
  p_members fuel (join [44] (map member l) ++ 125 :: rest) = Some (l, rest).
Proof.
  revert fuel. induction l as [|[k v] l IH]; intros fuel Hne Hl Hok Hf; [done|].
  apply Forall_cons in Hl as [[Hk Hv] Hl]. apply Forall_cons in Hok as [Hokv Hok].
  cbn [fst snd] in Hk, Hv, Hokv. destruct fuel as [|f]; [lia|].
  assert (∀ tl, member (k, v) ++ tl = 34 :: quote_body k ++ 34 :: 58 :: stringify v ++ tl) as Hm.
  { intros tl. unfold member, quote. cbn [app fst snd]. by rewrite <- !app_assoc. }
  assert (length (stringify v) < length (member (k, v)))%nat as Hlen.
  { unfold member. rewrite length_app. simpl. lia. }
  destruct l as [|kv' l].
  - cbn [map join] in *. rewrite Hm. cbn [p_members]. rewrite skip_ws_id by done.
    rewrite p_string_quote by done. rewrite skip_ws_id by done. rewrite Hv by (done || lia).
    done.
  - cbn [map] in *. rewrite join_cons in *. rewrite <- app_assoc, Hm.
    rewrite !length_app in Hf. cbn [length app] in Hf.
    cbn [p_members]. rewrite skip_ws_id by done.
    rewrite p_string_quote by done. rewrite skip_ws_id by done.
    rewrite Hv by (done || lia). cbn [app]. rewrite skip_ws_id by done.
    rewrite IH by (done || simpl in *; lia). done.
Qed.

Lemma p_value_arr l f rest :
  Forall json_ok l → Forall reads_back l →
  (S (length (join [44%Z] (map stringify l))) <= f)%nat →
  p_value (S f) (stringify (JArr l) ++ rest) = Some (JArr l, rest).
Proof.
  intros Hok Hl Hf. cbn [stringify app p_value]. rewrite skip_ws_id by done.
  destruct l as [|v l]; [done|]. rewrite <- app_assoc. cbn [app].
  pose proof (p_elems_reads (v :: l) rest f ltac:(done) Hl ltac:(lia)) as Hp.
  assert (∃ c r, join [44] (map stringify (v :: l)) = c :: r ∧ is_ws c = false ∧ c ≠ 93)
    as (c & r & Hj & Hws & H93).
  { apply Forall_cons in Hok as [Hv _]. destruct (stringify_head v Hv) as (c & r & Hc & ? & ? & _).
    destruct l; cbn [map]; [|rewrite join_cons]; simpl; rewrite Hc; eexists _, _; eauto. }
  rewrite Hj in *. cbn [app] in *. simpl (91 =? _). cbv iota. rewrite skip_ws_id by done.
  by rewrite Hp, (proj2 (Z.eqb_neq c 93) H93).
Qed.

Lemma p_value_obj l f rest :
  obj_of l = l → Forall (λ kv, units_ok kv.1 ∧ json_ok kv.2) l →
  Forall (λ kv, units_ok kv.1 ∧ reads_back kv.2) l →
  (S (length (join [44%Z] (map member l))) <= f)%nat →
  p_value (S f) (stringify (JObj l) ++ rest) = Some (JObj l, rest).
Proof.
  intros Hobj Hok Hl Hf. cbn [stringify app p_value]. rewrite skip_ws_id by done.
  change (map (λ kv, quote kv.1 ++ 58 :: stringify kv.2) l) with (map member l).
  destruct l as [|kv l]; [done|]. rewrite <- app_assoc. cbn [app].
  pose proof (p_members_reads (kv :: l) rest f ltac:(done) Hl) as Hp.
  cbn [map] in *.
  assert (∃ r, join [44] (member kv :: map member l) = 34 :: r) as (r & Hj).
  { destruct l; cbn [map]; [|rewrite join_cons]; simpl; eauto. }
  rewrite Hj in *. cbn [app] in *. simpl (123 =? _). cbv iota. rewrite skip_ws_id by done.
  simpl (34 =? _). cbv iota. rewrite Hp; [by rewrite Hobj| |simpl in *; lia].
  eapply Forall_impl; [exact Hok|]. by intros ? [_ ?].
Qed.

Lemma json_reads_back v : json_ok v → reads_back v.
Proof.
  induction v as [|b|n|s|l IH|l IH] using json_ind'; intros Hok fuel rest Hf Hrest.
  - destruct fuel; [simpl in Hf; lia|]. done.
  - destruct fuel; [destruct b; simpl in Hf; lia|]. by destruct b.
  - inversion Hok; subst. apply p_value_number; [done..|].
    cbn [stringify jnum_to_string] in Hf. destruct (dec_head z) as (c & r & Hd & _).
    rewrite Hd in Hf. simpl in Hf. lia.
  - inversion Hok; subst. destruct fuel as [|f]; [simpl in Hf; lia|].
    cbn [stringify quote app p_value]. rewrite skip_ws_id by done. simpl.
    rewrite <- app_assoc. cbn [app]. by rewrite p_string_quote.
  - inversion Hok as [| | | |? Hl|]; subst. destruct fuel as [|f]; [simpl in Hf; lia|].
    apply p_value_arr; [done| |simpl in Hf; rewrite length_app in Hf; simpl in *; lia].
    rewrite Forall_forall in *. intros x Hx. by apply IH, Hl.
  - inversion Hok as [| | | | |? Ho Hl]; subst. destruct fuel as [|f]; [simpl in Hf; lia|].
    cbn [stringify length] in Hf. rewrite length_app in Hf. cbn [length] in Hf.
    apply p_value_obj; [done|done| |unfold member; lia].
    rewrite Forall_forall in *. intros x Hx. destruct (Hl x Hx). split; [done|]. by apply IH.
Qed.

(** [JSON.parse] undoes [JSON.stringify]. *)
Lemma parse_stringify v : json_ok v → parse (stringify v) = Some v.
Proof.
  intros Hok. unfold parse.
  pose proof (json_reads_back v Hok (S (length (stringify v))) []) as H.
  rewrite app_nil_r in H. rewrite H by (done || lia). done.
Qed.
