(* ===== verification/Codec.v ===== *)
(** * UTF-8 and base64url

    [Buffer.from(s)] and [toString("utf8")] between strings and bytes (lone
    surrogates are written as U+FFFD, malformed bytes are read as U+FFFD, one
    per maximal subpart), and the unpadded base64url text of a byte sequence.
    Both codecs are proved to read back what they wrote. *)

From stdpp Require Import base tactics list numbers option sets strings.
From S2P Require Import Prelude JsString JsRegex Json.

(** ** UTF-8 *)

Definition enc_cp (cp : Z) : list Z :=
  if cp <=? 127 then [cp]
  else if cp <=? 2047 then [192 + cp `div` 64; 128 + cp `mod` 64]
  else if cp <=? 65535 then [224 + cp `div` 4096; 128 + (cp `div` 64) `mod` 64; 128 + cp `mod` 64]
  else [240 + cp `div` 262144; 128 + (cp `div` 4096) `mod` 64; 128 + (cp `div` 64) `mod` 64; 128 + cp `mod` 64].

Definition pair_cp (c d : Z) : Z := (c - 55296) * 1024 + (d - 56320) + 65536.
Definition unit_cp (c : Z) : Z := if is_high c || is_low c then 65533 else c.

Fixpoint utf8_encode (s : jstr) : list Z :=
  match s with
  | [] => []
  | c :: r =>
    match r with
    | d :: r' => if is_high c && is_low d then enc_cp (pair_cp c d) ++ utf8_encode r'
                 else enc_cp (unit_cp c) ++ utf8_encode r
    | [] => enc_cp (unit_cp c)
    end
  end.

Definition between (a x b : Z) : bool := (a <=? x) && (x <=? b).
Definition cont (b : Z) : bool := between 128 b 191.

Fixpoint utf8_decode (bs : list Z) : jstr :=
  match bs with
  | [] => []
  | b0 :: r0 =>
    if b0 <=? 127 then b0 :: utf8_decode r0
    else if between 194 b0 223 then
      match r0 with
      | b1 :: r1 => if cont b1 then ((b0 - 192) * 64 + (b1 - 128)) :: utf8_decode r1 else 65533 :: utf8_decode r0
      | [] => [65533]
      end
    else if between 224 b0 239 then
      match r0 with
      | b1 :: r1 =>
        if between (if b0 =? 224 then 160 else 128) b1 (if b0 =? 237 then 159 else 191) then
          match r1 with
          | b2 :: r2 =>
            if cont b2 then ((b0 - 224) * 4096 + (b1 - 128) * 64 + (b2 - 128)) :: utf8_decode r2
            else 65533 :: utf8_decode r1
          | [] => [65533]
          end
        else 65533 :: utf8_decode r0
      | [] => [65533]
      end
    else if between 240 b0 244 then
      match r0 with
      | b1 :: r1 =>
        if between (if b0 =? 240 then 144 else 128) b1 (if b0 =? 244 then 143 else 191) then
          match r1 with
          | b2 :: r2 =>
            if cont b2 then
              match r2 with
              | b3 :: r3 =>
                if cont b3 then
                  utf16_of_cp ((b0 - 240) * 262144 + (b1 - 128) * 4096 + (b2 - 128) * 64 + (b3 - 128)) ++ utf8_decode r3
                else 65533 :: utf8_decode r2
              | [] => [65533]
              end
            else 65533 :: utf8_decode r1
          | [] => [65533]
          end
        else 65533 :: utf8_decode r0
      | [] => [65533]
      end
    else 65533 :: utf8_decode r0
  end.

(** ** base64url *)

Definition b64_char (n : Z) : Z :=
  if n <? 26 then 65 + n else if n <? 52 then 71 + n else if n <? 62 then n - 4 else if n =? 62 then 45 else 95.
Definition b64_val (c : Z) : Z :=
  if between 65 c 90 then c - 65 else if between 97 c 122 then c - 71
  else if between 48 c 57 then c + 4 else if c =? 45 then 62 else 63.

Fixpoint b64_encode (bs : list Z) : jstr :=
  match bs with
  | a :: b :: c :: r =>
    b64_char (a `div` 4) :: b64_char ((a `mod` 4) * 16 + b `div` 16)
    :: b64_char ((b `mod` 16) * 4 + c `div` 64) :: b64_char (c `mod` 64) :: b64_encode r
  | [a; b] => [b64_char (a `div` 4); b64_char ((a `mod` 4) * 16 + b `div` 16); b64_char ((b `mod` 16) * 4)]
  | [a] => [b64_char (a `div` 4); b64_char ((a `mod` 4) * 16)]
  | [] => []
  end.

(** Text over the base64url alphabet; a dangling character carries no byte. *)
Fixpoint b64_decode (s : jstr) : list Z :=
  match s with
  | a :: b :: c :: d :: r =>
    (b64_val a * 4 + b64_val b `div` 16) :: ((b64_val b `mod` 16) * 16 + b64_val c `div` 4)
    :: ((b64_val c `mod` 4) * 64 + b64_val d) :: b64_decode r
  | [a; b; c] => [b64_val a * 4 + b64_val b `div` 16; (b64_val b `mod` 16) * 16 + b64_val c `div` 4]
  | [a; b] => [b64_val a * 4 + b64_val b `div` 16]
  | _ => []
  end.

(** [Buffer.from(s).toString("base64url")] and back. *)
Definition to_base64url (s : jstr) : jstr := b64_encode (utf8_encode s).
Definition of_base64url (s : jstr) : jstr := utf8_decode (b64_decode s).

(** ** Well-formed UTF-16: surrogates only in pairs *)

Fixpoint wf_utf16 (s : jstr) : bool :=
  match s with
  | [] => true
  | c :: r =>
    match r with
    | d :: r' => if is_high c then is_low d && wf_utf16 r' else negb (is_low c) && wf_utf16 r
    | [] => negb (is_high c) && negb (is_low c)
    end
  end.

(** ** Arithmetic automation *)

Ltac euclid := Z.to_euclidean_division_equations; lia.

(** Decide the tests of the goal by arithmetic. *)
Ltac arith_tests :=
  repeat (case_test; unfold cont, between, is_high, is_low in *; bool_prop;
          try (exfalso; euclid)).

Lemma b64_val_char n : 0 <= n < 64 → b64_val (b64_char n) = n.
Proof. intros H. unfold b64_char, b64_val, between. repeat case_test; bool_prop; lia. Qed.

Definition b64_alpha (c : Z) : bool :=
  between 65 c 90 || between 97 c 122 || between 48 c 57 || (c =? 95) || (c =? 45).

Lemma b64_char_alpha n : 0 <= n < 64 → b64_alpha (b64_char n) = true.
Proof.
  intros H. unfold b64_char, b64_alpha, between. repeat case_test; bool_prop;
    rewrite !orb_true_iff, ?andb_true_iff, ?Z.leb_le, ?Z.eqb_eq; lia.
Qed.

Definition bytes_ok (bs : list Z) : Prop := Forall (λ b, 0 <= b < 256) bs.

Lemma list_ind3 {A} (P : list A → Prop) :
  P [] → (∀ a, P [a]) → (∀ a b, P [a; b]) → (∀ a b c l, P l → P (a :: b :: c :: l)) → ∀ l, P l.
Proof.
  intros H0 H1 H2 H3. fix IH 1. intros [|a [|b [|c l]]]; [apply H0|apply H1|apply H2|apply H3, IH].
Qed.

Lemma b64_decode_encode bs : bytes_ok bs → b64_decode (b64_encode bs) = bs.
Proof.
  unfold bytes_ok. induction bs as [|a|a b|a b c l IH] using list_ind3; intros H;
    repeat match goal with H : Forall _ (_ :: _) |- _ => apply Forall_cons in H as [? H] end;
    cbn [b64_encode b64_decode]; rewrite ?b64_val_char by euclid; [done|..].
  - f_equal. euclid.
  - f_equal; [euclid|f_equal; euclid].
  - rewrite IH by done. f_equal; [euclid|f_equal; [euclid|f_equal; euclid]].
Qed.

Lemma b64_encode_alpha bs : bytes_ok bs → Forall (λ c, b64_alpha c = true) (b64_encode bs).
Proof.
  unfold bytes_ok. induction bs as [|a|a b|a b c l IH] using list_ind3; intros H;
    repeat match goal with H : Forall _ (_ :: _) |- _ => apply Forall_cons in H as [? H] end;
    cbn [b64_encode]; repeat (apply Forall_cons; split; [apply b64_char_alpha; euclid|]); auto.
Qed.

Lemma enc_cp_bytes cp : 0 <= cp < 1114112 → bytes_ok (enc_cp cp).
Proof. intros H. unfold enc_cp, bytes_ok. repeat case_test; bool_prop; repeat constructor; euclid. Qed.

Lemma pair_cp_range c d : is_high c = true → is_low d = true → 65536 <= pair_cp c d < 1114112.
Proof. unfold is_high, is_low, pair_cp. intros; bool_prop. lia. Qed.

Lemma utf8_encode_cons c s :
  utf8_encode (c :: s) =
  if pairs_with c s then match s with d :: r => enc_cp (pair_cp c d) ++ utf8_encode r | [] => [] end
  else enc_cp (unit_cp c) ++ utf8_encode s.
Proof.
  unfold pairs_with. destruct s as [|d r]; [by rewrite andb_false_r, app_nil_r|].
  by destruct (is_high c && is_low d) eqn:E; cbn [utf8_encode]; rewrite E.
Qed.

Lemma wf_utf16_step c s :
  wf_utf16 (c :: s) =
  if is_high c then match s with d :: r => is_low d && wf_utf16 r | [] => false end
  else negb (is_low c) && wf_utf16 s.
Proof. destruct s; cbn [wf_utf16]; destruct (is_high c); [done| |done..]. by rewrite andb_true_r. Qed.

Lemma pairs_with_split c s :
  pairs_with c s = true → ∃ d r, s = d :: r ∧ is_high c = true ∧ is_low d = true.
Proof. unfold pairs_with. intros H. bool_prop. destruct s as [|d r]; [done|]. eauto. Qed.

Lemma utf8_encode_bytes s : units_ok s → bytes_ok (utf8_encode s).
Proof.
  remember (length s) as n eqn:Hn. revert s Hn.
  induction (lt_wf n) as [n _ IH]. intros s -> Hok. unfold units_ok, bytes_ok in *.
  destruct s as [|c s]; [constructor|]. apply Forall_cons in Hok as [Hc Hok].
  rewrite utf8_encode_cons. case_test.
  - apply pairs_with_split in E as (d & r & -> & Hh & Hl).
    apply Forall_cons in Hok as [_ Hok]. apply Forall_app; split.
    + apply enc_cp_bytes. pose proof (pair_cp_range c d Hh Hl). lia.
    + apply (IH (length r)); [simpl; lia|done|done].
  - apply Forall_app; split; [apply enc_cp_bytes; unfold unit_cp; case_test; lia|].
    apply (IH (length s)); [simpl; lia|done|done].
Qed.

Lemma utf8_decode_unit c bs :
  0 <= c < 65536 → is_high c = false → is_low c = false →
  utf8_decode (enc_cp c ++ bs) = c :: utf8_decode bs.
Proof.
  intros Hc Hh Hl. unfold enc_cp.
  destruct (c <=? 127) eqn:E1; [cbn [app utf8_decode]; by rewrite E1|].
  destruct (c <=? 2047) eqn:E2; [|destruct (c <=? 65535) eqn:E3; [|bool_prop; lia]];
    unfold is_high, is_low in *; cbn [app utf8_decode]; bool_prop.
  - arith_tests. f_equal. euclid.
  - apply andb_false_iff in Hh, Hl.
    assert (c < 55296 ∨ 57343 < c) by (destruct Hh, Hl; bool_prop; lia). clear Hh Hl.
    arith_tests; f_equal; euclid.
Qed.

Lemma utf16_of_pair c d : is_high c = true → is_low d = true → utf16_of_cp (pair_cp c d) = [c; d].
Proof.
  intros Hc Hd. pose proof (pair_cp_range c d Hc Hd). unfold utf16_of_cp.
  case_test; bool_prop; [lia|]. change 1023 with (Z.ones 10).
  rewrite Z.land_ones, Z.shiftr_div_pow2 by lia. change (2 ^ 10) with 1024.
  unfold pair_cp, is_high, is_low in *. bool_prop. f_equal; [euclid|f_equal; euclid].
Qed.

Lemma utf8_decode_pair c d bs :
  is_high c = true → is_low d = true →
  utf8_decode (enc_cp (pair_cp c d) ++ bs) = c :: d :: utf8_decode bs.
Proof.
  intros Hc Hd. pose proof (pair_cp_range c d Hc Hd) as Hr. pose proof (utf16_of_pair c d Hc Hd) as Hu.
  remember (pair_cp c d) as cp. clear Heqcp. unfold enc_cp.
  do 3 (case_test; bool_prop; [lia|]). cbn [app utf8_decode].
  replace ((240 + cp `div` 262144 - 240) * 262144 + (128 + (cp `div` 4096) `mod` 64 - 128) * 4096 +
    (128 + (cp `div` 64) `mod` 64 - 128) * 64 + (128 + cp `mod` 64 - 128)) with cp by euclid.
  rewrite Hu. arith_tests; done.
Qed.

(** UTF-8 reads back every string whose surrogates are paired. *)
Lemma utf8_decode_encode s : units_ok s → wf_utf16 s = true → utf8_decode (utf8_encode s) = s.
Proof.
  remember (length s) as n eqn:Hn. revert s Hn.
  induction (lt_wf n) as [n _ IH]. intros s -> Hok Hwf. unfold units_ok in *.
  destruct s as [|c s]; [done|]. apply Forall_cons in Hok as [Hc Hok].
  rewrite utf8_encode_cons, wf_utf16_step in *. unfold pairs_with.
  destruct (is_high c) eqn:Ec; cbn [andb].
  - destruct s as [|d s]; [done|]. bool_prop. rewrite H. rewrite utf8_decode_pair by done.
    apply Forall_cons in Hok as [_ ?]. by rewrite (IH (length s)) by (done || simpl; lia).
  - bool_prop. unfold unit_cp. rewrite Ec, H. cbn [orb]. rewrite utf8_decode_unit by done.
    by rewrite (IH (length s)) by (done || simpl; lia).
Qed.

(** The base64url text of a string reads back. *)
Lemma of_to_base64url s : units_ok s → wf_utf16 s = true → of_base64url (to_base64url s) = s.
Proof.
  intros Hok Hwf. unfold of_base64url, to_base64url.
  rewrite b64_decode_encode by (by apply utf8_encode_bytes). by apply utf8_decode_encode.
Qed.

(** ** JSON text is well-formed UTF-16, whatever strings it quotes *)

Definition ascii (s : jstr) : Prop := Forall (λ c, 0 <= c < 128) s.

Lemma wf_utf16_cons c s :
  is_high c = false → is_low c = false → wf_utf16 (c :: s) = wf_utf16 s.
Proof. intros Hh Hl. by rewrite wf_utf16_step, Hh, Hl. Qed.

Lemma wf_utf16_app s t : wf_utf16 s = true → wf_utf16 (s ++ t) = wf_utf16 t.
Proof.
  remember (length s) as n eqn:Hn. revert s Hn.
  induction (lt_wf n) as [n _ IH]. intros s -> Hwf.
  destruct s as [|c s]; [done|]. cbn [app]. rewrite wf_utf16_step in *.
  destruct (is_high c) eqn:Ec.
  - destruct s as [|d s]; [done|]. bool_prop. cbn [app]. rewrite H. cbn [andb].
    apply (IH (length s)); simpl; (done || lia).
  - bool_prop. rewrite H. cbn [negb andb]. apply (IH (length s)); simpl; (done || lia).
Qed.

Lemma ascii_wf s : ascii s → wf_utf16 s = true.
Proof.
  induction 1 as [|c s Hc _ IH]; [done|]. rewrite wf_utf16_cons; [done| |];
    unfold is_high, is_low; apply andb_false_iff; left; apply Z.leb_gt; lia.
Qed.

Lemma hex_digit_ascii n : 0 <= n < 16 → 0 <= hex_digit n < 128.
Proof. unfold hex_digit. case_test; lia. Qed.

Lemma u_escape_ascii c : ascii (u_escape c).
Proof.
  unfold u_escape, hex4, ascii. change 15 with (Z.ones 4). rewrite !Z.land_ones by lia.
  do 2 (apply Forall_cons; split; [lia|]).
  repeat (apply Forall_cons; split; [apply hex_digit_ascii, Z.mod_pos_bound; lia|]). constructor.
Qed.

Lemma quote_unit_wf c : 0 <= c < 65536 → wf_utf16 (quote_unit c) = true ∧ units_ok (quote_unit c).
Proof.
  intros Hc. unfold quote_unit.
  do 7 (case_test; [split; [reflexivity|repeat constructor; lia]|]).
  assert (∀ s, ascii s → wf_utf16 s = true ∧ units_ok s) as Ha.
  { intros s Hs. split; [by apply ascii_wf|]. eapply Forall_impl; [exact Hs|]. simpl. lia. }
  case_test; [apply Ha, u_escape_ascii|]. case_test; [apply Ha, u_escape_ascii|].
  bool_prop. rewrite wf_utf16_cons by done. split; [done|]. repeat constructor; lia.
Qed.

Lemma quote_body_wf s : units_ok s → wf_utf16 (quote_body s) = true ∧ units_ok (quote_body s).
Proof.
  remember (length s) as n eqn:Hn. revert s Hn.
  induction (lt_wf n) as [n _ IH]. intros s -> Hok. unfold units_ok in *.
  destruct s as [|c s]; [done|]. rewrite quote_body_cons.
  apply Forall_cons in Hok as [Hc Hok]. case_test.
  - unfold pairs_with in E. destruct s as [|d s]; [bool_prop; done|]. bool_prop.
    apply Forall_cons in Hok as [Hd Hok]. rewrite wf_utf16_step, H, H0. cbn [andb].
    destruct (IH (length s)) with (s := s) as [? ?]; [simpl; lia|done|done|].
    split; [done|]. by repeat (apply Forall_cons; split).
  - destruct (IH (length s)) with (s := s) as [? ?]; [simpl; lia|done|done|].
    destruct (quote_unit_wf c Hc) as [Hw Hu]. rewrite wf_utf16_app by done.
    split; [done|]. by apply Forall_app.
Qed.

Lemma quote_wf s : units_ok s → wf_utf16 (quote s) = true ∧ units_ok (quote s).
Proof.
  intros Hs. destruct (quote_body_wf s Hs) as [Hw Hu]. unfold quote.
  rewrite wf_utf16_cons, wf_utf16_app by done. split; [done|].
  apply Forall_cons; split; [lia|]. apply Forall_app; split; [done|]. repeat constructor; lia.
Qed.

Lemma dec_nonneg_ascii n : 0 <= n → ascii (dec_nonneg n).
Proof.
  intros Hn. destruct (dec_nonneg_spec n Hn) as [Hd _ _ _].
  eapply Forall_impl; [exact Hd|]. simpl. unfold is_dig. intros c Hc. bool_prop. lia.
Qed.
