(* ===== verification/OMap.v ===== *)
(** * JavaScript [Map]: insertion-ordered

    [new Map<K, V>()] iterates its entries in the order their keys were first
    set; setting a present key keeps its place, deleting and setting again
    moves it last.  Grouping, caches and eviction depend on that order. *)

From stdpp Require Import base tactics list numbers option sets.
From S2P Require Import Prelude.

Section OMap.
Context {K V : Type} `{!EqDecision K}.
Implicit Types (m : list (K * V)) (k : K) (v : V).

Fixpoint get k m : option V :=
  match m with
  | [] => None
  | (k', v) :: r => if bool_decide (k = k') then Some v else get k r
  end.

Fixpoint set_key k v m : list (K * V) :=
  match m with
  | [] => [(k, v)]
  | (k', v') :: r => if bool_decide (k = k') then (k', v) :: r else (k', v') :: set_key k v r
  end.

Definition delete_key k m : list (K * V) := List.filter (λ kv, negb (bool_decide (k = kv.1))) m.
Definition has k m : bool := match get k m with Some _ => true | None => false end.

(** Well-formed: no key twice. *)
Definition omap_ok m : Prop := NoDup m.*1.

Lemma get_set_eq k v m : get k (set_key k v m) = Some v.
Proof.
  induction m as [|[k' v'] m IH]; simpl; [by rewrite bool_decide_true|].
  case_bool_decide as E; simpl; [by rewrite bool_decide_true|by rewrite bool_decide_false].
Qed.

Lemma get_set_ne k k' v m : k ≠ k' → get k (set_key k' v m) = get k m.
Proof.
  intros Hne. induction m as [|[k2 v2] m IH]; simpl; [by rewrite bool_decide_false|].
  destruct (bool_decide (k' = k2)) eqn:E; simpl; [|by rewrite IH]. bool_prop. subst k2.
  by rewrite !bool_decide_false.
Qed.

Lemma get_None k m : get k m = None ↔ k ∉ m.*1.
Proof.
  induction m as [|[k' v'] m IH]; simpl; [set_solver|]. case_bool_decide as E; [set_solver|].
  rewrite IH. set_solver.
Qed.

Lemma get_elem k v m : get k m = Some v → (k, v) ∈ m.
Proof.
  induction m as [|[k' v'] m IH]; simpl; [done|]. case_bool_decide as E; [intros; simplify_eq; by left|].
  right. by apply IH.
Qed.

Lemma elem_get k v m : omap_ok m → (k, v) ∈ m → get k m = Some v.
Proof.
  unfold omap_ok. induction m as [|[k' v'] m IH]; simpl; [set_solver|]. intros [Hn Hd]%NoDup_cons [E|Hin]%elem_of_cons.
  - simplify_eq. by rewrite bool_decide_true.
  - rewrite bool_decide_false; [by apply IH|]. intros ->. apply Hn. apply list_elem_of_fmap. by exists (k', v).
Qed.

Lemma get_delete_eq k m : get k (delete_key k m) = None.
Proof.
  induction m as [|[k' v'] m IH]; simpl; [done|]. case_bool_decide as E; simpl; [done|]. by rewrite bool_decide_false.
Qed.

Lemma get_delete_ne k k' m : k ≠ k' → get k (delete_key k' m) = get k m.
Proof.
  intros Hne. induction m as [|[k2 v2] m IH]; simpl; [done|].
  destruct (bool_decide (k' = k2)) eqn:E; simpl; bool_prop; [subst; by rewrite bool_decide_false by done|].
  case_bool_decide; [done|apply IH].
Qed.

Lemma keys_set k v m : (set_key k v m).*1 = if has k m then m.*1 else m.*1 ++ [k].
Proof.
  unfold has. induction m as [|[k' v'] m IH]; [done|]. cbn [set_key get]. case_bool_decide as E; [done|].
  rewrite !fmap_cons, IH. by destruct (get k m).
Qed.

Lemma set_ok k v m : omap_ok m → omap_ok (set_key k v m).
Proof.
  unfold omap_ok. rewrite keys_set. unfold has. destruct (get k m) eqn:E; [done|]. apply get_None in E.
  intros H. apply NoDup_app. split; [done|]. split; [set_solver|apply NoDup_singleton].
Qed.

Lemma delete_ok k m : omap_ok m → omap_ok (delete_key k m).
Proof.
  unfold omap_ok, delete_key. induction m as [|[k' v'] m IH]; simpl; [done|]. intros [Hn Hd]%NoDup_cons.
  case_match; simpl; [|auto]. apply NoDup_cons. split; [|auto]. intros Hin. apply Hn.
  apply list_elem_of_fmap in Hin as ([a b] & -> & Hin). apply list_elem_of_fmap. exists (a, b). split; [done|].
  rewrite list_elem_of_In in Hin. apply filter_In in Hin as [Hin _]. by rewrite list_elem_of_In.
Qed.

Lemma size_set k v m : zlen (set_key k v m) = if has k m then zlen m else zlen m + 1.
Proof.
  unfold has. induction m as [|[k' v'] m IH]; simpl; [done|]. case_bool_decide as E; simpl; [done|].
  destruct (get k m); lia.
Qed.

Lemma size_delete k m : zlen (delete_key k m) <= zlen m.
Proof. unfold delete_key. induction m as [|[k' v'] m IH]; simpl; [done|]. destruct (negb _); simpl; lia. Qed.

Lemma delete_absent k m : k ∉ m.*1 → delete_key k m = m.
Proof.
  intros Hn. apply forallb_filter_id, forallb_forall. intros [a b] Hin.
  apply negb_true_iff, bool_decide_eq_false. intros ->. apply Hn.
  apply list_elem_of_fmap. exists (a, b). split; [done|]. by rewrite list_elem_of_In.
Qed.

Lemma set_absent k v m : get k m = None → set_key k v m = m ++ [(k, v)].
Proof.
  induction m as [|[k' v'] m IH]; [done|]. cbn [get set_key]. case_bool_decide; [done|]. intros Hg. by rewrite IH.
Qed.

Lemma delete_head k v m : k ∉ m.*1 → delete_key k ((k, v) :: m) = m.
Proof. intros H. unfold delete_key. cbn [List.filter fst]. rewrite bool_decide_true by done. by apply delete_absent. Qed.

(** Setting a key replaces one value: what the values of a map add up to. *)
Lemma set_values k v m :
  omap_ok m → (set_key k v m).*2 ≡ₚ v :: (delete_key k m).*2.
Proof.
  unfold omap_ok. induction m as [|[k' v'] m IH]; [done|]. rewrite fmap_cons. intros [Hn Hd]%NoDup_cons.
  cbn [set_key delete_key List.filter fst negb]. case_bool_decide as E; cbn [negb].
  - subst k'. fold (delete_key k m). by rewrite (delete_absent k m Hn).
  - fold (delete_key k m). rewrite !fmap_cons, (IH Hd). apply Permutation_swap.
Qed.

(** Assigning fields of an object that is in a map. *)
Definition update k (f : V → V) m : list (K * V) :=
  match get k m with Some v => set_key k (f v) m | None => m end.

Lemma set_set k v v' m : set_key k v' (set_key k v m) = set_key k v' m.
Proof.
  induction m as [|[k' u] m IH]; cbn [set_key].
  - by rewrite bool_decide_true.
  - destruct (decide (k = k')) as [->|Hne]; [rewrite bool_decide_true by done|rewrite bool_decide_false by done]; cbn [set_key].
    + by rewrite bool_decide_true.
    + rewrite bool_decide_false by done. by rewrite IH.
Qed.

Lemma set_same k v m : get k m = Some v → set_key k v m = m.
Proof.
  induction m as [|[k' v'] m IH]; [done|]. cbn [get set_key]. case_bool_decide as E; [by intros [= ->]; subst|].
  intros H. by rewrite IH.
Qed.

Lemma values_split k v m : omap_ok m → get k m = Some v → m.*2 ≡ₚ v :: (delete_key k m).*2.
Proof. intros Hm Hg. rewrite <- (set_values k v m Hm). by rewrite set_same. Qed.

Lemma Forall_set (P : K * V → Prop) k v m : Forall P m → P (k, v) → Forall P (set_key k v m).
Proof.
  intros Hm Hv. induction Hm as [|[k' v'] m Hx Hm IH]; [by repeat constructor|]. cbn [set_key].
  case_bool_decide as E; [subst; by constructor|by constructor].
Qed.

Lemma Forall_delete (P : K * V → Prop) k m : Forall P m → Forall P (delete_key k m).
Proof. rewrite !Forall_forall. intros Hm x [Hx _]%list_elem_of_In%filter_In. by apply Hm, list_elem_of_In. Qed.

Lemma delete_get k k' v m : get k (delete_key k' m) = Some v → k ≠ k' ∧ get k m = Some v.
Proof.
  intros H. destruct (decide (k = k')) as [->|Hne]; [by rewrite get_delete_eq in H|]. by rewrite get_delete_ne in H.
Qed.

Lemma get_update k k' (f : V → V) m : get k (update k' f m) = if bool_decide (k = k') then f <$> get k m else get k m.
Proof.
  unfold update. case_bool_decide as E.
  - subst. destruct (get k' m) eqn:Eg; [by rewrite get_set_eq|by rewrite Eg].
  - destruct (get k' m); [|done]. by rewrite get_set_ne.
Qed.

Lemma get_update_eq k (f : V → V) m : get k (update k f m) = f <$> get k m.
Proof. by rewrite get_update, bool_decide_true. Qed.

Lemma get_update_ne k k' (f : V → V) m : k ≠ k' → get k (update k' f m) = get k m.
Proof. intros H. by rewrite get_update, bool_decide_false. Qed.

Lemma keys_update k (f : V → V) m : (update k f m).*1 = m.*1.
Proof. unfold update. destruct (get k m) eqn:E; [|done]. rewrite keys_set. unfold has. by rewrite E. Qed.

Lemma zlen_keys m : zlen m = zlen m.*1.
Proof. unfold zlen. by rewrite length_fmap. Qed.

Lemma zlen_update k (f : V → V) m : zlen (update k f m) = zlen m.
Proof. by rewrite (zlen_keys (update _ _ _)), keys_update, <- zlen_keys. Qed.

Lemma update_ok k (f : V → V) m : omap_ok m → omap_ok (update k f m).
Proof. unfold omap_ok. by rewrite keys_update. Qed.

Lemma key_get k m : k ∈ m.*1 ↔ is_Some (get k m).
Proof.
  destruct (get k m) eqn:E; [|rewrite get_None in E; split; [done|by intros []]].
  split; [by eexists|]. intros _. apply list_elem_of_fmap. exists (k, v). split; [done|by apply get_elem].
Qed.

Lemma keys_delete k m : (delete_key k m).*1 = List.filter (λ k', negb (bool_decide (k = k'))) m.*1.
Proof. unfold delete_key. induction m as [|[k' v] m IH]; [done|]. cbn. destruct (negb _); cbn; congruence. Qed.

Lemma filter_out_perm k (l : list K) : NoDup l → k ∈ l → l ≡ₚ k :: List.filter (λ k', negb (bool_decide (k = k'))) l.
Proof.
  induction 1 as [|x l Hx Hl IH]; [by intros ?%elem_of_nil|]. cbn [List.filter]. case_bool_decide as E; cbn [negb].
  - subst. intros _. constructor. rewrite forallb_filter_id; [done|]. apply forallb_forall.
    intros y Hy. apply negb_true_iff, bool_decide_eq_false. intros <-. by apply Hx, list_elem_of_In.
  - intros [?|Hin]%elem_of_cons; [done|]. rewrite (IH Hin) at 1. apply Permutation_swap.
Qed.

Lemma keys_delete_perm k m : omap_ok m → is_Some (get k m) → m.*1 ≡ₚ k :: (delete_key k m).*1.
Proof. intros Hm Hk. rewrite keys_delete. apply filter_out_perm; [done|by apply key_get]. Qed.

Lemma zlen_delete k m : omap_ok m → is_Some (get k m) → zlen m = zlen (delete_key k m) + 1.
Proof.
  intros Hm Hk. pose proof (Permutation_length (keys_delete_perm k m Hm Hk)) as H. rewrite length_cons, !length_fmap in H. lia.
Qed.

Lemma delete_update k (f : V → V) m : delete_key k (update k f m) = delete_key k m.
Proof.
  unfold update. destruct (get k m) eqn:E; [|done]. unfold delete_key. induction m as [|[k' v'] m IH]; [done|].
  cbn [get set_key List.filter fst] in *. case_bool_decide as Ek; cbn [List.filter fst negb]; [by rewrite bool_decide_true|].
  rewrite bool_decide_false by done. cbn [negb]. by rewrite IH.
Qed.

Lemma update_update k (f g : V → V) m : update k g (update k f m) = update k (λ v, g (f v)) m.
Proof.
  unfold update. destruct (get k m) eqn:E; [|by rewrite E]. by rewrite get_set_eq, set_set.
Qed.
End OMap.
#[export] Hint Resolve set_ok delete_ok update_ok : bluecode.
