(* ===== verification/Paging.v ===== *)
(** * Retrieval pages ([packages/shared/src/paging.ts])

    Cursor codec and [paginateText]: a cursor binds a code-unit offset to a
    content reference; a page is the longest run of whole code points from the
    cursor whose UTF-8 size fits both budgets. *)

From stdpp Require Import base tactics list numbers option sets strings.
From S2P Require Import Prelude JsString JsRegex Json Codec.

(** ** Constants and options *)

Definition DEFAULT_PAGE_TOKENS : Z := 2048.
Definition DEFAULT_PAGE_BYTES : Z := 32 * 1024.
Definition MAX_PAGE_TOKENS : Z := 8192.
Definition MAX_PAGE_BYTES : Z := 128 * 1024.

Inductive page_error : Type :=
| PageBudget              (* "Page budget must be a positive integer" *)
| InvalidCursor           (* "Invalid retrieval cursor" *)
| CursorMismatch          (* "Retrieval cursor does not match reference" *)
| CursorOutside           (* "Cursor outside content boundary" *)
| PageTooSmall.           (* "Page budget cannot fit the next code point" *)

Record PageOptions := {
  po_ref : jstr;
  po_cursor : option jstr;
  po_maxBytes : option Z;
  po_maxTokens : option Z }.

Record TextPage := {
  tp_content : jstr;
  tp_nextCursor : option jstr;
  tp_truncated : bool;
  tp_tokens : Z;
  tp_bytes : Z }.

(** The messages of the errors. *)
Definition page_error_text (e : page_error) : jstr :=
  match e with
  | PageBudget => js "Page budget must be a positive integer"
  | InvalidCursor => js "Invalid retrieval cursor"
  | CursorMismatch => js "Retrieval cursor does not match reference"
  | CursorOutside => js "Cursor outside content boundary"
  | PageTooSmall => js "Page budget cannot fit the next code point"
  end.

(** ** Operations *)

(** [limit(value, fallback, cap)] on integers. *)
Definition limit (value : option Z) (fallback cap : Z) : result page_error Z :=
  match value with
  | None => Ok fallback
  | Some v => throw_if negb (is_safe_integer v) || (v <=? 0) with PageBudget in Ok (Z.min v cap)
  end.

Definition cursor_json (ref : jstr) (offset : Z) : json :=
  JObj [(js "v", JNum (NInt 1)); (js "ref", JStr ref); (js "offset", JNum (NInt offset))].

Definition encodeCursor (ref : jstr) (offset : Z) : jstr := to_base64url (stringify (cursor_json ref offset)).

Definition CURSOR_RE : regex := Eval vm_compute in re "^[A-Za-z0-9_-]+$".

(** [Number.isSafeInteger(item.offset) && item.offset >= 0]; minus zero is zero. *)
Definition offset_of (v : option json) : option Z :=
  match v with
  | Some (JNum (NInt z)) => if is_safe_integer z && (0 <=? z) then Some z else None
  | Some (JNum NNegZero) => Some 0
  | _ => None
  end.

Definition decodeCursor (cursor : option jstr) (ref : jstr) : result page_error Z :=
  match cursor with
  | None => Ok 0
  | Some c =>
    throw_if (4096 <? zlen c) || negb (test CURSOR_RE c) with InvalidCursor in
    match parse (of_base64url c) with
    | None => Throw InvalidCursor
    | Some (JObj item) =>
      match assoc (js "v") item, assoc (js "ref") item, offset_of (assoc (js "offset") item) with
      | Some (JNum (NInt 1)), Some (JStr r), Some off => if jeqb r ref then Ok off else Throw CursorMismatch
      | _, _, _ => Throw CursorMismatch
      end
    | Some _ => Throw CursorMismatch
    end
  end.

(** [boundary(text, index)] *)
Definition boundary (text : jstr) (index : Z) : Z :=
  match text !! Z.to_nat index with
  | Some code => if is_low code then index - 1 else index
  | None => index
  end.

(** The [while] loop of [paginateText] on the text from [end]: the final
    [end] and [bytes]. *)
Fixpoint page_loop (lim : Z) (rest : jstr) (end_ bytes : Z) : Z * Z :=
  match rest with
  | [] => (end_, bytes)
  | c :: r =>
    match r with
    | d :: r' =>
      if is_high c && is_low d then
        if lim <? bytes + 4 then (end_, bytes) else page_loop lim r' (end_ + 2) (bytes + 4)
      else
        if lim <? bytes + utf8_size c then (end_, bytes) else page_loop lim r (end_ + 1) (bytes + utf8_size c)
    | [] => if lim <? bytes + utf8_size c then (end_, bytes) else (end_ + 1, bytes + utf8_size c)
    end
  end.

Definition paginateText (text : jstr) (options : PageOptions) : result page_error TextPage :=
  let! maxBytes := limit (po_maxBytes options) DEFAULT_PAGE_BYTES MAX_PAGE_BYTES in
  let! maxTokens := limit (po_maxTokens options) DEFAULT_PAGE_TOKENS MAX_PAGE_TOKENS in
  let! start := decodeCursor (po_cursor options) (po_ref options) in
  throw_if (zlen text <? start) || negb (boundary text start =? start) with CursorOutside in
  let '(end_, bytes) := page_loop (Z.min maxBytes maxTokens) (drop (Z.to_nat start) text) start 0 in
  let content := slice text (Z.to_nat start) (Z.to_nat end_) in
  throw_if (end_ =? start) && (start <? zlen text) with PageTooSmall in
  Ok {| tp_content := content;
        tp_nextCursor := if end_ <? zlen text then Some (encodeCursor (po_ref options) end_) else None;
        tp_truncated := end_ <? zlen text;
        tp_tokens := bytes;
        tp_bytes := byte_length content |}.

Definition with_cursor (o : PageOptions) (c : option jstr) : PageOptions :=
  {| po_ref := po_ref o; po_cursor := c; po_maxBytes := po_maxBytes o; po_maxTokens := po_maxTokens o |}.

(** A client that follows [nextCursor] until it is null. *)
Fixpoint read_pages (fuel : nat) (text : jstr) (options : PageOptions) : result page_error (list TextPage) :=
  match fuel with
  | O => Ok []
  | S f =>
    let! page := paginateText text options in
    match tp_nextCursor page with
    | None => Ok [page]
    | Some c =>
      let! rest := read_pages f text (with_cursor options (Some c)) in
      Ok (page :: rest)
    end
  end.

(** ** The cursor alphabet *)

Lemma cursor_set c : b64_alpha c = in_ranges [(65, 90); (97, 122); (48, 57); (95, 95); (45, 45)] c.
Proof.
  unfold b64_alpha, in_ranges, between. cbn [existsb]. rewrite orb_false_r.
  rewrite <- !orb_assoc. repeat f_equal; apply Bool.eq_iff_eq_true;
    rewrite andb_true_iff, !Z.leb_le, Z.eqb_eq; lia.
Qed.

Lemma cursor_re_accepts s :
  s ≠ [] → Forall (λ c, b64_alpha c = true) s → test CURSOR_RE s = true.
Proof.
  intros Hne Hall. destruct s as [|c s]; [done|]. apply Forall_cons in Hall as [Hc Hs].
  unfold test, exec. destruct (exec_from CURSOR_RE None 0 (c :: s)) eqn:E; [done|].
  exfalso. cbn [exec_from] in E.
  assert (is_Some (match_at CURSOR_RE None (c :: s))) as [st Hst]; [|by rewrite Hst in E].
  unfold match_at, CURSOR_RE. cbn [rmatch m_prev step1 m_rest].
  rewrite cursor_set in Hc. rewrite Hc. cbn [xorb].
  apply (star_set_all [(65, 90); (97, 122); (48, 57); (95, 95); (45, 45)] _ s); [|done| |simpl; lia].
  { intros st' Hst'. rewrite Hst'. eauto. }
  eapply Forall_impl; [exact Hs|]. intros x Hx. by rewrite <- cursor_set.
Qed.

(** ** Cursor round trip *)

Definition offset_ok (off : Z) : Prop := 0 <= off <= MAX_SAFE_INTEGER.

Lemma cursor_json_ok ref off : units_ok ref → offset_ok off → json_ok (cursor_json ref off).
Proof.
  intros Href Hoff. apply ok_obj; [reflexivity|].
  assert (∀ s, ascii s → units_ok s) as Ha by (intros s Hs; eapply Forall_impl; [exact Hs|simpl; lia]).
  repeat (apply Forall_cons; split; [split; [apply Ha; repeat constructor; lia|]|]); [by constructor|by constructor| |constructor].
  constructor. unfold offset_ok, is_safe_integer, MAX_SAFE_INTEGER in *.
  apply andb_true_iff; split; apply Z.leb_le; lia.
Qed.

Lemma cursor_text_wf ref off :
  units_ok ref → 0 <= off →
  wf_utf16 (stringify (cursor_json ref off)) = true ∧ units_ok (stringify (cursor_json ref off)).
Proof.
  intros Href Hoff. destruct (quote_wf ref Href) as [Hq Hu].
  pose proof (dec_nonneg_ascii off Hoff) as Hd.
  assert (stringify (cursor_json ref off) =
    (123 :: quote (js "v") ++ [58; 49; 44] ++ quote (js "ref") ++ [58]) ++ quote ref
    ++ ([44] ++ quote (js "offset") ++ [58] ++ dec_nonneg off ++ [125])) as ->.
  { cbn [stringify cursor_json map fst snd jnum_to_string]. unfold dec.
    replace (off <? 0) with false by (symmetry; apply Z.ltb_ge; lia).
    change (js "v") with [118]. change (js "ref") with [114; 101; 102].
    change (js "offset") with [111; 102; 102; 115; 101; 116].
    unfold quote. cbn [join app quote_body quote_unit]. rewrite <- !app_assoc. simpl.
    rewrite <- ?app_assoc. done. }
  set (a := 123 :: _). set (b := [44] ++ _).
  assert (ascii a) as Ha by (vm_compute; repeat constructor; discriminate).
  assert (ascii b) as Hb.
  { unfold b, ascii. repeat (apply Forall_app; split); try (by (vm_compute; repeat constructor; discriminate)). exact Hd. }
  assert (∀ s, ascii s → units_ok s) as Hau by (intros s Hs; eapply Forall_impl; [exact Hs|simpl; lia]).
  clearbody a b. rewrite (wf_utf16_app a) by (by apply ascii_wf). rewrite (wf_utf16_app (quote ref)) by done.
  split; [by apply ascii_wf|].
  repeat (apply Forall_app; split); auto; by apply Hau.
Qed.

Lemma to_base64url_alpha s :
  units_ok s → Forall (λ c, b64_alpha c = true) (to_base64url s).
Proof. intros Hs. apply b64_encode_alpha. by apply utf8_encode_bytes. Qed.

Lemma decode_encode ref off :
  units_ok ref → offset_ok off →
  decodeCursor (Some (encodeCursor ref off)) ref =
  if 4096 <? zlen (encodeCursor ref off) then Throw InvalidCursor else Ok off.
Proof.
  intros Href Hoff. unfold decodeCursor.
  destruct (4096 <? zlen (encodeCursor ref off)); cbn [orb]; [done|].
  destruct (cursor_text_wf ref off Href) as [Hwf Hu]; [unfold offset_ok in *; lia|].
  assert (encodeCursor ref off ≠ []) as Hne.
  { unfold encodeCursor. intros Heq. pose proof (of_to_base64url _ Hu Hwf) as H. rewrite Heq in H. discriminate H. }
  rewrite cursor_re_accepts; [|done|by apply to_base64url_alpha]. cbn [negb].
  unfold encodeCursor. rewrite of_to_base64url by done.
  rewrite parse_stringify by (by apply cursor_json_ok). cbn [cursor_json].
  change (assoc (js "v") _) with (Some (JNum (NInt 1))).
  change (assoc (js "ref") _) with (Some (JStr ref)).
  change (assoc (js "offset") _) with (Some (JNum (NInt off))).
  cbn [offset_of]. unfold offset_ok in Hoff.
  replace (is_safe_integer off && (0 <=? off)) with true.
  - by rewrite jeqb_refl.
  - symmetry. unfold is_safe_integer, MAX_SAFE_INTEGER in *.
    rewrite !andb_true_iff, !Z.leb_le. lia.
Qed.

(** ** One page *)

Lemma page_loop_spec lim rest e b :
  b <= lim →
  ∃ k, (k <= length rest)%nat
    ∧ page_loop lim rest e b = (e + Z.of_nat k, b + byte_length (take k rest))
    ∧ b + byte_length (take k rest) <= lim
    ∧ ((k < length rest)%nat → lim < b + byte_length (take k rest) + 4)
    ∧ (wf_utf16 rest = true → wf_utf16 (drop k rest) = true).
Proof.
  remember (length rest) as n eqn:Hn. revert rest e b Hn.
  induction (lt_wf n) as [n _ IH]. intros rest e b -> Hb.
  destruct rest as [|c r]; [exists O; simpl; split_and!; auto; try lia; f_equal; lia|].
  assert (byte_length (take 0 (c :: r)) = 0) as H0 by done.
  pose proof (utf8_size_pos c) as Hc.
  destruct (pairs_with c r) eqn:Ep.
  - pose proof Ep as Ep'. apply pairs_with_split in Ep' as (d & r' & -> & Hh & Hl).
    cbn [page_loop]. rewrite Hh, Hl. cbn [andb]. case_test; bool_prop.
    { exists O. rewrite H0. simpl length. split_and!; auto; try lia. f_equal; lia. }
    destruct (IH (length r')) with (rest := r') (e := e + 2) (b := b + 4)
      as (k & Hk & Heq & Hle & Hmax & Hwf); [simpl; lia|done|lia|].
    exists (S (S k)). cbn [take drop]. rewrite Heq.
    assert (byte_length (c :: d :: take k r') = 4 + byte_length (take k r')) as ->
      by (cbn [byte_length]; by rewrite Hh, Hl).
    split_and!; [simpl; lia|f_equal; lia|lia|simpl; lia|].
    rewrite wf_utf16_step, Hh, Hl. exact Hwf.
  - assert (page_loop lim (c :: r) e b =
      if lim <? b + utf8_size c then (e, b) else page_loop lim r (e + 1) (b + utf8_size c)) as ->.
    { unfold pairs_with in Ep. destruct r as [|d r]; cbn [page_loop]; [done|]. by rewrite Ep. }
    case_test; bool_prop.
    { exists O. rewrite H0. split_and!; auto; try lia. f_equal; lia. }
    destruct (IH (length r)) with (rest := r) (e := e + 1) (b := b + utf8_size c)
      as (k & Hk & Heq & Hle & Hmax & Hwf); [simpl; lia|done|lia|].
    exists (S k). cbn [take drop]. rewrite Heq.
    assert (byte_length (c :: take k r) = utf8_size c + byte_length (take k r)) as ->.
    { rewrite byte_length_cons. replace (pairs_with c (take k r)) with false; [lia|].
      symmetry. unfold pairs_with in *. destruct r, k; simpl in *; try done; by rewrite andb_false_r. }
    split_and!; [simpl; lia|f_equal; lia|lia|simpl; lia|].
    rewrite wf_utf16_step. unfold pairs_with in Ep. destruct (is_high c); cbn [andb] in Ep.
    + destruct r as [|d r]; [done|]. rewrite Ep. done.
    + intros ?. bool_prop. auto.
Qed.

Definition page_limit (o : PageOptions) : result page_error Z :=
  let! b := limit (po_maxBytes o) DEFAULT_PAGE_BYTES MAX_PAGE_BYTES in
  let! t := limit (po_maxTokens o) DEFAULT_PAGE_TOKENS MAX_PAGE_TOKENS in
  Ok (Z.min b t).

Lemma limit_range v fb cap n : 0 < fb <= cap → limit v fb cap = Ok n → 0 < n <= cap.
Proof. unfold limit. intros Hc. destruct v as [v|]; [case_test; [done|]|]; intros [= <-]; bool_prop; lia. Qed.

Lemma page_limit_range o n : page_limit o = Ok n → 0 < n <= 8192.
Proof.
  unfold page_limit. intros H. apply rbind_ok in H as (b & Hb & H). apply rbind_ok in H as (t & Ht & [= <-]).
  apply limit_range in Hb; [|done]. apply limit_range in Ht; [|done]. unfold MAX_PAGE_TOKENS in *. lia.
Qed.

(** What a page returned for offset [start] under budget [lim] is. *)
Record page_of (text : jstr) (ref : jstr) (lim start : Z) (page : TextPage) (end_ : Z) : Prop := {
  page_start : 0 <= start <= end_;
  page_end : end_ <= zlen text;
  page_content : tp_content page = slice text (Z.to_nat start) (Z.to_nat end_);
  page_bytes : tp_bytes page = byte_length (tp_content page);
  page_tokens : tp_tokens page = tp_bytes page;
  page_budget : tp_bytes page <= lim;
  page_progress : start < zlen text → start < end_;
  page_full : end_ < zlen text → lim < tp_bytes page + 4;
  page_next : tp_nextCursor page = if end_ <? zlen text then Some (encodeCursor ref end_) else None;
  page_truncated : tp_truncated page = (end_ <? zlen text);
  page_wf : wf_utf16 (drop (Z.to_nat start) text) = true → wf_utf16 (drop (Z.to_nat end_) text) = true }.

Lemma decodeCursor_nonneg c ref off : decodeCursor c ref = Ok off → 0 <= off.
Proof.
  unfold decodeCursor. destruct c as [c|]; [|intros [= <-]; lia].
  repeat (case_match; simplify_eq/=; try done). intros [= <-].
  unfold offset_of in *. repeat (case_match; simplify_eq/=; try done); bool_prop; lia.
Qed.

Lemma paginate_shape text o page :
  paginateText text o = Ok page →
  ∃ lim start end_, page_limit o = Ok lim ∧ decodeCursor (po_cursor o) (po_ref o) = Ok start
    ∧ page_of text (po_ref o) lim start page end_.
Proof.
  unfold paginateText. intros H.
  apply rbind_ok in H as (mb & Hmb & H). apply rbind_ok in H as (mt & Hmt & H).
  apply rbind_ok in H as (start & Hst & H).
  assert (page_limit o = Ok (Z.min mb mt)) as Hlim by (unfold page_limit; by rewrite Hmb, Hmt).
  pose proof (page_limit_range _ _ Hlim) as Hr. pose proof (decodeCursor_nonneg _ _ _ Hst) as Hnn.
  exists (Z.min mb mt), start. set (lim := Z.min mb mt) in *. clearbody lim.
  case_test_in H; [done|]. bool_prop.
  destruct (page_loop_spec lim (drop (Z.to_nat start) text) start 0) as (k & Hk & Heq & Hle & Hmax & Hwf); [lia|].
  rewrite Heq in H. rewrite length_drop in Hk, Hmax. case_test_in H; [done|].
  exists (start + Z.of_nat k). split; [done|]. split; [done|]. simplify_eq/=.
  assert (slice text (Z.to_nat start) (Z.to_nat (start + Z.of_nat k)) = take k (drop (Z.to_nat start) text)) as Hsl
    by (unfold slice; f_equal; lia).
  assert (drop (Z.to_nat (start + Z.of_nat k)) text = drop k (drop (Z.to_nat start) text)) as Hdr
    by (rewrite drop_drop; f_equal; lia).
  split; cbn [tp_content tp_bytes tp_tokens tp_nextCursor tp_truncated]; rewrite ?Hsl, ?Hdr in *; try done; try lia.
Qed.

(** ** Following the cursors *)

(** Every offset of the text has a cursor short enough to be accepted. *)
Definition cursors_fit (ref text : jstr) : Prop :=
  ∀ off, 0 <= off <= zlen text → zlen (encodeCursor ref off) <= 4096.

Lemma wf_head_boundary text start :
  0 <= start → wf_utf16 (drop (Z.to_nat start) text) = true → boundary text start = start.
Proof.
  intros Hs Hwf. unfold boundary. rewrite <- (Nat.add_0_r (Z.to_nat start)), <- lookup_drop.
  destruct (drop (Z.to_nat start) text) as [|c r]; simpl; [done|].
  rewrite wf_utf16_step in Hwf. destruct (is_low c) eqn:El; [|done].
  assert (is_high c = false) as Eh by (by apply low_not_high).
  rewrite Eh in Hwf. done.
Qed.

Lemma paginate_ok text o lim start :
  page_limit o = Ok lim → 4 <= lim → decodeCursor (po_cursor o) (po_ref o) = Ok start →
  start <= zlen text → wf_utf16 (drop (Z.to_nat start) text) = true →
  ∃ page, paginateText text o = Ok page.
Proof.
  intros Hlim H4 Hdec Hle Hwf. pose proof (decodeCursor_nonneg _ _ _ Hdec) as Hnn.
  unfold page_limit in Hlim. apply rbind_ok in Hlim as (mb & Hmb & Hlim).
  apply rbind_ok in Hlim as (mt & Hmt & [= <-]).
  unfold paginateText. rewrite Hmb, Hmt, Hdec. cbn [rbind].
  replace ((zlen text <? start) || negb (boundary text start =? start)) with false.
  2: { symmetry. apply orb_false_iff. rewrite wf_head_boundary, Z.eqb_refl by done. split; [apply Z.ltb_ge; lia|done]. }
  destruct (page_loop_spec (Z.min mb mt) (drop (Z.to_nat start) text) start 0)
    as (k & Hk & -> & Hfit & Hmax & _); [lia|].
  rewrite length_drop in *. case_test; [|eauto]. bool_prop.
  assert (k = O) as -> by lia. rewrite take_0 in Hmax. cbn [byte_length] in Hmax. lia.
Qed.

Lemma read_pages_from fuel text o lim start :
  units_ok (po_ref o) → zlen text <= MAX_SAFE_INTEGER → cursors_fit (po_ref o) text →
  page_limit o = Ok lim → 4 <= lim → decodeCursor (po_cursor o) (po_ref o) = Ok start →
  start <= zlen text → wf_utf16 (drop (Z.to_nat start) text) = true →
  (length (drop (Z.to_nat start) text) < fuel)%nat →
  ∃ pages, read_pages fuel text o = Ok pages
    ∧ concat (map tp_content pages) = drop (Z.to_nat start) text
    ∧ Forall (λ p, tp_bytes p <= lim) pages
    ∧ (length pages <= S (length (drop (Z.to_nat start) text)))%nat.
Proof.
  intros Href Hsafe Hfit Hlim H4. revert o start Href Hfit Hlim.
  induction fuel as [|fuel IH]; intros o start Href Hfit Hlim Hdec Hle Hwf Hfuel; [lia|].
  destruct (paginate_ok text o lim start) as [page Hpage]; [done..|].
  destruct (paginate_shape _ _ _ Hpage) as (lim' & start' & end_ & Hl' & Hd' & P).
  rewrite Hlim in Hl'. rewrite Hdec in Hd'. simplify_eq. destruct P.
  cbn [read_pages]. rewrite Hpage. cbn [rbind]. rewrite page_next0.
  pose proof (drop_take_app text (Z.to_nat start') (Z.to_nat end_) ltac:(lia)) as Hcut.
  destruct (end_ <? zlen text) eqn:Eend; bool_prop.
  - destruct (IH (with_cursor o (Some (encodeCursor (po_ref o) end_))) end_) as (pages & -> & Hcat & Hall & Hlen);
      cbn [po_ref po_cursor with_cursor]; auto.
    { rewrite decode_encode by (done || unfold offset_ok; lia).
      replace (4096 <? _) with false; [done|]. symmetry. apply Z.ltb_ge. apply Hfit. lia. }
    { rewrite length_drop in *. lia. }
    cbn [rbind]. eexists. split; [done|]. cbn [map concat]. rewrite Hcat, page_content0. split; [exact Hcut|].
    split; [by constructor|]. rewrite length_drop in *. simpl. lia.
  - eexists. split; [done|]. cbn [map concat]. rewrite app_nil_r, page_content0.
    split; [|split; [by repeat constructor|simpl; lia]].
    unfold slice in *. rewrite <- Hcut at 2. rewrite (drop_ge text (Z.to_nat end_)) by lia. by rewrite app_nil_r.
Qed.

(** ** Properties *)

(** A cursor made for a reference and an offset decodes, under the same
    reference, to that offset, and under any other reference is refused;
    the only cursors [encodeCursor] makes that [decodeCursor] refuses are the
    ones longer than 4096 characters (a very long reference). *)
Theorem decodeCursor_encodeCursor ref ref' off :
  units_ok ref → offset_ok off →
  decodeCursor (Some (encodeCursor ref off)) ref' =
  if 4096 <? zlen (encodeCursor ref off) then Throw InvalidCursor
  else if jeqb ref ref' then Ok off else Throw CursorMismatch.
Proof.
  intros Href Hoff. pose proof (decode_encode ref off Href Hoff) as H.
  destruct (4096 <? zlen (encodeCursor ref off)) eqn:Elen.
  { unfold decodeCursor. by rewrite Elen. }
  destruct (jeqb ref ref') eqn:Er; [apply jeqb_eq in Er; by subst|].
  unfold decodeCursor in *. case_test; [done|].
  destruct (parse _) as [[| | | | |item]|]; try done.
  destruct (assoc (js "v") item) as [[| |[[|[]|]| |]| | |]|]; try done.
  destruct (assoc (js "ref") item) as [[| | |r| |]|]; try done.
  destruct (offset_of _); [|done]. destruct (jeqb r ref) eqn:E'; [|done].
  apply jeqb_eq in E'. subst. by rewrite Er.
Qed.

Lemma decodeCursor_encodeCursor_witness :
  decodeCursor (Some (encodeCursor (js "sess") 70000)) (js "sess") = Ok 70000.
Proof.
  rewrite (decodeCursor_encodeCursor (js "sess") (js "sess") 70000);
    [vm_compute; reflexivity | repeat constructor; done | split; [lia|unfold MAX_SAFE_INTEGER; lia]].
Defined.

(** Reading a text page by page, from no cursor and then from each
    [nextCursor] in turn, ends after at most one page per code unit plus one
    and yields pages whose contents concatenate to exactly the text, each
    within the byte budget, for every well-formed text, budgets of at least
    four bytes and references whose cursors are accepted. *)
Theorem read_pages_whole_text text o lim :
  po_cursor o = None → units_ok (po_ref o) → zlen text <= MAX_SAFE_INTEGER →
  cursors_fit (po_ref o) text → page_limit o = Ok lim → 4 <= lim → wf_utf16 text = true →
  ∃ pages, read_pages (S (length text)) text o = Ok pages
    ∧ concat (map tp_content pages) = text
    ∧ Forall (λ p, tp_bytes p <= lim) pages
    ∧ (length pages <= S (length text))%nat.
Proof.
  intros Hc Href Hsafe Hfit Hlim H4 Hwf.
  destruct (read_pages_from (S (length text)) text o lim 0) as (pages & H1 & H2 & H3 & H5);
    [done..| | | | |]; rewrite ?drop_0; try (done || lia).
  - by rewrite Hc.
  - exists pages. rewrite drop_0 in *. done.
Qed.

Definition demo_options : PageOptions :=
  {| po_ref := js "r"; po_cursor := None; po_maxBytes := Some 4; po_maxTokens := None |}.

Lemma read_pages_whole_text_witness :
  ∃ pages, read_pages 5 (js "a✓b!") demo_options = Ok pages
    ∧ concat (map tp_content pages) = js "a✓b!".
Proof.
  destruct (read_pages_whole_text (js "a✓b!") demo_options 4) as (pages & H1 & H2 & _).
  - reflexivity.
  - repeat constructor; done.
  - vm_compute. discriminate.
  - intros off Hoff. change (zlen (js "a✓b!")) with 4 in Hoff.
    assert (off = 0 ∨ off = 1 ∨ off = 2 ∨ off = 3 ∨ off = 4) as Hcases by lia.
    repeat (destruct Hcases as [->|Hcases]; [vm_compute; discriminate|]). subst. vm_compute. discriminate.
  - reflexivity.
  - lia.
  - reflexivity.
  - exists pages. split; [exact H1|exact H2].
Defined.

(** Every page returned is a slice of the text starting at the cursor,
    non-empty before the end, of at most the smaller budget (so at most 8192
    bytes) and at most three bytes short of it while text remains; its token
    and byte counts are the UTF-8 size of the content, and [nextCursor] and
    [truncated] tell exactly whether text remains. *)
Theorem paginateText_page text o page :
  paginateText text o = Ok page →
  ∃ lim start end_, page_limit o = Ok lim ∧ lim <= 8192
    ∧ decodeCursor (po_cursor o) (po_ref o) = Ok start ∧ page_of text (po_ref o) lim start page end_.
Proof.
  intros H. destruct (paginate_shape _ _ _ H) as (lim & start & end_ & Hl & Hd & P).
  exists lim, start, end_. pose proof (page_limit_range _ _ Hl). split_and!; [done|lia|done|done].
Qed.

Lemma paginateText_page_witness :
  ∃ page lim start end_, paginateText (js "a✓b!") demo_options = Ok page
    ∧ page_limit demo_options = Ok lim ∧ page_of (js "a✓b!") (js "r") lim start page end_ ∧ end_ = 2.
Proof.
  destruct (paginateText (js "a✓b!") demo_options) as [page|] eqn:E; [|vm_compute in E; discriminate].
  destruct (paginateText_page _ _ _ E) as (lim & start & end_ & H1 & _ & H2 & P).
  exists page, lim, start, end_. split; [reflexivity|]. split; [exact H1|]. split; [exact P|].
  destruct P. assert (lim = 4) as -> by (vm_compute in H1; congruence).
  assert (start = 0) as -> by (vm_compute in H2; congruence).
  assert (tp_content page = js "a✓") as Hc by (vm_compute in E; inversion E; reflexivity).
  rewrite Hc in page_content0. assert (length (slice (js "a✓b!") (Z.to_nat 0) (Z.to_nat end_)) = 2%nat) as Hlen by (rewrite <- page_content0; reflexivity).
  unfold slice in Hlen. rewrite length_take, length_drop in Hlen. change (length (js "a✓b!")) with 4%nat in Hlen. lia.
Defined.

(** A text that starts with an unpaired low surrogate cannot be read at
    all: every request for its first page, whatever the budgets, throws
    [CursorOutside]. *)
Theorem lone_low_surrogate_unreadable c text o lim :
  is_low c = true → po_cursor o = None → page_limit o = Ok lim →
  paginateText (c :: text) o = Throw CursorOutside.
Proof.
  intros Hc Hcur Hlim. unfold page_limit in Hlim.
  apply rbind_ok in Hlim as (mb & Hmb & Hlim). apply rbind_ok in Hlim as (mt & Hmt & _).
  unfold paginateText. rewrite Hmb, Hmt, Hcur. cbn [rbind decodeCursor].
  unfold boundary. change ((c :: text) !! Z.to_nat 0) with (Some c). cbv iota beta. rewrite Hc.
  by rewrite orb_true_r.
Qed.

Lemma lone_low_surrogate_unreadable_witness :
  paginateText (56320 :: js "log") demo_options = Throw CursorOutside.
Proof. apply (lone_low_surrogate_unreadable 56320 (js "log") demo_options 4); reflexivity. Defined.
