(* ===== verification/Jsonl.v ===== *)
(** * JSON Lines framing ([packages/shared/src/jsonl.ts])

    [encodeFrame] and the incremental line reconstructor: a mutable buffer of
    parts with its UTF-8 size, fed with chunks.  [push] returns the lines a
    chunk completes, or throws [FrameOverflowError] with the lines completed
    before the oversized one; in both cases it leaves a new buffer. *)

From stdpp Require Import base tactics list numbers option sets strings.
From S2P Require Import Prelude JsString Json Codec.

(** ** State and operations *)

Definition encodeFrame (value : json) : jstr := stringify value ++ [LF].

Record recon := Recon { parts : list jstr; bytes : Z; previousHigh : bool }.

Definition reset : recon := Recon [] 0 false.

(** [append(part)]: [None] is the throw, which leaves [reset]. *)
Definition append (maxFrameBytes : Z) (st : recon) (part : jstr) : option recon :=
  match part with
  | [] => Some st
  | first :: _ =>
    let bytes' := bytes st + (byte_length part - (if previousHigh st && is_low first then 2 else 0)) in
    let high' := match last part with Some l => is_high l | None => false end in
    if maxFrameBytes <? bytes' then None else Some (Recon (parts st ++ [part]) bytes' high')
  end.

Definition strip_cr (line : jstr) : jstr := if ends_with [CR] line then take (length line - 1) line else line.

Inductive push_result : Type :=
| Lines (l : list jstr)
| FrameOverflow (completedLines : list jstr).

(** The loop of [push] over the pieces [indexOf("\n")] delimits; the last piece
    has no terminator. *)
Fixpoint push_pieces (max : Z) (st : recon) (pieces : list jstr) (lines : list jstr) : recon * push_result :=
  match pieces with
  | [] => (st, Lines lines)
  | [p] => match append max st p with
           | None => (reset, FrameOverflow lines)
           | Some st' => (st', Lines lines)
           end
  | p :: ps => match append max st p with
               | None => (reset, FrameOverflow lines)
               | Some st' => push_pieces max reset ps (lines ++ [strip_cr (concat (parts st'))])
               end
  end.

Definition push (max : Z) (st : recon) (chunk : jstr) : recon * push_result :=
  push_pieces max st (split_on LF chunk) [].

Definition flush (st : recon) : recon * list jstr :=
  let rest := concat (parts st) in
  (reset, match rest with [] => [] | _ => [rest] end).

(** Feeding a sequence of chunks; stops at the first overflow. *)
Fixpoint feed (max : Z) (st : recon) (chunks : list jstr) : recon * push_result :=
  match chunks with
  | [] => (st, Lines [])
  | c :: cs =>
    match push max st c with
    | (st', Lines l) =>
      match feed max st' cs with
      | (st'', Lines l') => (st'', Lines (l ++ l'))
      | (st'', FrameOverflow l') => (st'', FrameOverflow (l ++ l'))
      end
    | r => r
    end
  end.

(** ** Buffers that hold the same text *)

Definition text_of (st : recon) : jstr := concat (parts st).

(** The counters describe the buffered text. *)
Record recon_ok (st : recon) : Prop := {
  recon_bytes : bytes st = byte_length (text_of st);
  recon_high : previousHigh st = match last (text_of st) with Some l => is_high l | None => false end }.

#[export] Instance recon_equiv : Equiv recon := λ a b, text_of a = text_of b.
#[export] Instance recon_equivalence : Equivalence (≡@{recon}).
Proof. unfold equiv, recon_equiv. split; [done|by intros ?? ->|by intros ??? -> ->]. Qed.

Lemma reset_ok : recon_ok reset.
Proof. by split. Qed.
#[export] Hint Resolve reset_ok : bluecode.

Lemma last_app_r {A} (s t : list A) : t ≠ [] → last (s ++ t) = last t.
Proof. intros H. rewrite last_app. destruct (last t) eqn:E; [done|]. by apply last_None in E. Qed.

(** Appending a part appends its text, or the text is too long. *)
Lemma append_spec max st part :
  recon_ok st → byte_length (text_of st) <= max →
  match append max st part with
  | Some st' => recon_ok st' ∧ text_of st' = text_of st ++ part ∧ byte_length (text_of st ++ part) <= max
  | None => max < byte_length (text_of st ++ part)
  end.
Proof.
  intros [Hb Hh] Hmax. destruct part as [|c part]; [cbn [append]; rewrite app_nil_r; by split_and!|].
  assert (bytes st + (byte_length (c :: part) - (if previousHigh st && is_low c then 2 else 0)) =
    byte_length (text_of st ++ c :: part)) as Heq.
  { rewrite byte_length_app, Hb, Hh. unfold pairs_with. destruct (last (text_of st)); simpl; lia. }
  cbn [append]. rewrite Heq. case_test; bool_prop; [lia|].
  assert (concat (parts st ++ [c :: part]) = text_of st ++ c :: part) as Ht
    by (rewrite concat_app; simpl; by rewrite app_nil_r).
  split_and!; [|done|lia].
  split; unfold text_of; cbn [parts bytes previousHigh]; rewrite Ht; [done|].
  by rewrite last_app_r.
Qed.

Lemma reset_text : text_of reset = [].
Proof. done. Qed.

(** ** The lines of a stream *)

(** What a reader expects: every LF-terminated line of the text. *)
Definition complete_lines (s : jstr) : list jstr := map strip_cr (removelast (split_on LF s)).
Definition residue (s : jstr) : jstr := default [] (last (split_on LF s)).
Definition fits (max : Z) (s : jstr) : Prop := Forall (λ l, byte_length l <= max) (split_on LF s).

#[export] Instance fits_dec max s : Decision (fits max s).
Proof. unfold fits. apply _. Defined.

(** The pieces of [t ++ s]: the buffered text joins the first piece. *)
Definition join_first (t : jstr) (pieces : list jstr) : list jstr :=
  match pieces with [] => [] | p :: ps => (t ++ p) :: ps end.

Lemma split_on_prepend t s : LF ∉ t → split_on LF (t ++ s) = join_first t (split_on LF s).
Proof.
  induction t as [|c t IH]; intros Ht.
  - simpl. by destruct (split_on LF s).
  - assert (c ≠ LF) as Hc by set_solver. apply Z.eqb_neq in Hc. cbn [app split_on]. rewrite Hc.
    rewrite IH by set_solver. pose proof (split_on_ne LF s). by destruct (split_on LF s).
Qed.

Lemma push_pieces_cons max st p q ps lines :
  push_pieces max st (p :: q :: ps) lines =
  match append max st p with
  | None => (reset, FrameOverflow lines)
  | Some st' => push_pieces max reset (q :: ps) (lines ++ [strip_cr (concat (parts st'))])
  end.
Proof. done. Qed.

Lemma push_pieces_spec max st pieces lines :
  0 <= max → recon_ok st → byte_length (text_of st) <= max → pieces ≠ [] →
  match push_pieces max st pieces lines with
  | (st', Lines l) =>
    recon_ok st' ∧ byte_length (text_of st') <= max
    ∧ Forall (λ p, byte_length p <= max) (join_first (text_of st) pieces)
    ∧ l = lines ++ map strip_cr (removelast (join_first (text_of st) pieces))
    ∧ text_of st' = default [] (last (join_first (text_of st) pieces))
  | (st', FrameOverflow l) =>
    st' = reset ∧ ∃ k, max < byte_length (default [] (join_first (text_of st) pieces !! k))
      ∧ Forall (λ p, byte_length p <= max) (take k (join_first (text_of st) pieces))
      ∧ l = lines ++ map strip_cr (take k (join_first (text_of st) pieces))
  end.
Proof.
  intros Hmax. revert st lines. induction pieces as [|p ps IH]; intros st lines Hok Hle Hne; [done|].
  pose proof (append_spec max st p Hok Hle) as Ha.
  destruct ps as [|q ps]; [cbn [push_pieces]|rewrite push_pieces_cons];
    destruct (append max st p) as [st1|] eqn:Ea.
  - destruct Ha as (Hok1 & Ht & Hb). cbn [join_first removelast map last default]. rewrite Ht, app_nil_r.
    split_and!; auto.
  - cbn [join_first]. split; [done|]. exists O. simpl. rewrite app_nil_r. auto.
  - destruct Ha as (Hok1 & Ht & Hb).
    change (concat (parts st1)) with (text_of st1). rewrite Ht.
    pose proof (IH reset (lines ++ [strip_cr (text_of st ++ p)]) reset_ok ltac:(simpl; lia) ltac:(done)) as H.
    change (text_of reset) with (@nil Z) in H. cbn [join_first] in *. rewrite app_nil_l in H.
    destruct (push_pieces max reset (q :: ps) _) as [st2 [l|l]].
    + destruct H as (? & ? & Hf & -> & Hr). split_and!; auto.
      rewrite <- app_assoc. done.
    + destruct H as (-> & k & Hk & Hf & ->). split; [done|]. exists (S k).
      cbn [take lookup list_lookup map]. split_and!; [done|by constructor|by rewrite <- app_assoc].
  - split; [done|]. exists O. simpl. rewrite app_nil_r. auto.
Qed.

Lemma join_first_split t s : LF ∉ t → join_first t (split_on LF s) = split_on LF (t ++ s).
Proof. intros H. by rewrite split_on_prepend. Qed.

(** A buffer in use: its counters are right, it fits and holds no newline. *)
Record buffering (max : Z) (st : recon) : Prop := {
  buf_ok : recon_ok st;
  buf_fits : byte_length (text_of st) <= max;
  buf_line : LF ∉ text_of st }.

Lemma reset_buffering max : 0 <= max → buffering max reset.
Proof. intros H. split; [apply reset_ok|done|set_solver]. Qed.

Lemma residue_free s : LF ∉ residue s.
Proof.
  unfold residue. pose proof (split_on_free_each LF s) as H.
  destruct (last (split_on LF s)) as [l|] eqn:E; simpl; [|set_solver].
  rewrite Forall_forall in H. apply H. apply last_Some in E as [l' ->]. set_solver.
Qed.

(** One [push] against the text read so far. *)
Lemma push_spec max st chunk :
  0 <= max → buffering max st →
  match push max st chunk with
  | (st', Lines l) =>
    buffering max st' ∧ fits max (text_of st ++ chunk)
    ∧ l = complete_lines (text_of st ++ chunk) ∧ text_of st' = residue (text_of st ++ chunk)
  | (st', FrameOverflow l) =>
    st' = reset ∧ ∃ k, max < byte_length (default [] (split_on LF (text_of st ++ chunk) !! k))
      ∧ Forall (λ p, byte_length p <= max) (take k (split_on LF (text_of st ++ chunk)))
      ∧ l = map strip_cr (take k (split_on LF (text_of st ++ chunk)))
  end.
Proof.
  intros Hmax [Hok Hfit Hlf]. unfold push.
  pose proof (push_pieces_spec max st (split_on LF chunk) [] Hmax Hok Hfit (split_on_ne _ _)) as H.
  rewrite join_first_split in H by done.
  destruct (push_pieces max st (split_on LF chunk) []) as [st' [l|l]].
  - destruct H as (H1 & H2 & H3 & -> & H5). split_and!; try done.
    split; [done|done|]. rewrite H5. apply residue_free.
  - done.
Qed.

Lemma split_on_last s : split_on LF s = removelast (split_on LF s) ++ [residue s].
Proof.
  unfold residue. pose proof (split_on_ne LF s) as Hne.
  destruct (exists_last Hne) as (l & x & ->). rewrite removelast_last, last_snoc. done.
Qed.

(** Reading on from the residue is reading on from the whole text. *)
Lemma split_on_residue s t :
  split_on LF (s ++ t) = removelast (split_on LF s) ++ split_on LF (residue s ++ t).
Proof.
  rewrite (split_on_prepend (residue s)) by apply residue_free.
  pose proof (split_on_last s) as Hs. remember (residue s) as r eqn:Hr. clear Hr.
  revert r Hs. induction s as [|c s IH]; intros r Hs.
  { simpl in *. inversion Hs; subst. by destruct (split_on LF t). }
  cbn [app split_on] in *. destruct (c =? LF) eqn:Ec.
  - pose proof (split_on_ne LF s) as Hne. destruct (split_on LF s) as [|h tl] eqn:Es; [done|].
    cbn [removelast app] in *. inversion Hs as [Hs']. rewrite (IH r Hs'). done.
  - destruct (split_on LF s) as [|h tl] eqn:Es.
    { by pose proof (split_on_ne LF s). }
    destruct tl as [|h' tl].
    + cbn [removelast app] in *. inversion Hs; subst. specialize (IH h eq_refl).
      rewrite IH. pose proof (split_on_ne LF t). by destruct (split_on LF t).
    + cbn [removelast app] in *. inversion Hs as [Hs']. specialize (IH r).
      rewrite IH by (by rewrite Hs' at 1). done.
Qed.

Lemma complete_lines_app s t : complete_lines (s ++ t) = complete_lines s ++ complete_lines (residue s ++ t).
Proof.
  unfold complete_lines. rewrite split_on_residue, <- map_app.
  rewrite removelast_app by apply split_on_ne. done.
Qed.

Lemma residue_app s t : residue (s ++ t) = residue (residue s ++ t).
Proof. unfold residue at 1 2. rewrite split_on_residue, last_app_r by apply split_on_ne. done. Qed.

Lemma fits_app max s t : fits max (s ++ t) ↔ Forall (λ l, byte_length l <= max) (removelast (split_on LF s)) ∧ fits max (residue s ++ t).
Proof. unfold fits. by rewrite split_on_residue, Forall_app. Qed.

Lemma byte_length_prefix s t : byte_length s <= byte_length (s ++ t).
Proof.
  rewrite byte_length_app. pose proof (byte_length_nonneg t).
  destruct (last s) as [c|]; [|lia]. unfold pairs_with.
  destruct t as [|d t]; [rewrite andb_false_r; lia|].
  destruct (is_high c && is_low d) eqn:E; [|lia]. bool_prop.
  rewrite byte_length_cons, low_size by done. unfold pairs_with. rewrite low_not_high by done.
  cbn [andb]. pose proof (byte_length_nonneg t). lia.
Qed.

Lemma fits_prefix max s t : fits max (s ++ t) → fits max s.
Proof.
  rewrite fits_app. intros [Hl Hr]. unfold fits. rewrite split_on_last.
  apply Forall_app; split; [done|]. constructor; [|constructor].
  unfold fits in Hr. rewrite split_on_prepend in Hr by apply residue_free.
  pose proof (split_on_ne LF t) as Hne. destruct (split_on LF t) as [|p ps]; [done|].
  apply Forall_cons in Hr as [Hr _]. pose proof (byte_length_prefix (residue s) p). lia.
Qed.

Lemma push_fits max st chunk :
  0 <= max → buffering max st → fits max (text_of st ++ chunk) →
  ∃ st', push max st chunk = (st', Lines (complete_lines (text_of st ++ chunk)))
    ∧ buffering max st' ∧ text_of st' = residue (text_of st ++ chunk).
Proof.
  intros Hmax Hb Hf. pose proof (push_spec max st chunk Hmax Hb) as H.
  destruct (push max st chunk) as [st' [l|l]].
  - destruct H as (H1 & _ & -> & H3). eauto.
  - destruct H as (_ & k & Hk & _). exfalso. unfold fits in Hf. rewrite Forall_lookup in Hf.
    destruct (split_on LF (text_of st ++ chunk) !! k) as [x|] eqn:E; simpl in Hk; [|lia].
    specialize (Hf _ _ E). simpl in Hf. lia.
Qed.

Lemma feed_fits max chunks st :
  0 <= max → buffering max st → fits max (text_of st ++ concat chunks) →
  ∃ st', feed max st chunks = (st', Lines (complete_lines (text_of st ++ concat chunks)))
    ∧ buffering max st' ∧ text_of st' = residue (text_of st ++ concat chunks).
Proof.
  intros Hmax. revert st. induction chunks as [|c cs IH]; intros st Hb Hf.
  - cbn [concat feed]. rewrite app_nil_r. exists st. destruct Hb as [Hok Hfit Hlf].
    unfold complete_lines, residue. rewrite split_on_free by done. done.
  - cbn [concat feed] in *. rewrite app_assoc in *.
    destruct (push_fits max st c) as (st1 & -> & Hb1 & Ht1); [done|done|by eapply fits_prefix|].
    destruct (IH st1) as (st2 & -> & Hb2 & Ht2); [done|rewrite Ht1; by apply fits_app in Hf as [_ ?]|].
    exists st2. rewrite (complete_lines_app (text_of st ++ c)), <- Ht1. split; [done|]. split; [done|].
    by rewrite Ht2, Ht1, <- residue_app.
Qed.

#[export] Instance flush_proper : Proper ((≡) ==> (=)) flush.
Proof. intros a b H. unfold equiv, recon_equiv, text_of in H. unfold flush. by rewrite H. Qed.

(** ** Frames never contain a raw newline *)

Definition printable (s : jstr) : Prop := Forall (λ c, 32 <= c) s.

Lemma quote_unit_printable c : 0 <= c → printable (quote_unit c).
Proof.
  intros Hc. unfold quote_unit, printable.
  do 7 (case_test; [repeat constructor; lia|]).
  assert (printable (u_escape c)) as Hu.
  { unfold u_escape, hex4, printable. change 15 with (Z.ones 4). rewrite !Z.land_ones by lia.
    assert (∀ n, 0 <= n < 16 → 32 <= hex_digit n) as Hd by (intros n Hn; unfold hex_digit; case_test; lia).
    do 2 (apply Forall_cons; split; [lia|]).
    repeat (apply Forall_cons; split; [apply Hd, Z.mod_pos_bound; lia|]). constructor. }
  case_test; [done|]. bool_prop. case_test; [done|]. repeat constructor. lia.
Qed.

Lemma quote_body_printable s : units_ok s → printable (quote_body s).
Proof.
  remember (length s) as n eqn:Hn. revert s Hn.
  induction (lt_wf n) as [n _ IH]. intros s -> Hok. unfold units_ok, printable in *.
  destruct s as [|c s]; [constructor|]. apply Forall_cons in Hok as [Hc Hok].
  rewrite quote_body_cons. case_test.
  - apply pairs_with_split in E as (d & r & -> & Hh & Hl).
    unfold is_high, is_low in *. bool_prop. apply Forall_cons in Hok as [_ Hok].
    do 2 (apply Forall_cons; split; [lia|]). apply (IH (length r)); simpl; (done || lia).
  - apply Forall_app; split; [apply quote_unit_printable; lia|].
    apply (IH (length s)); simpl; (done || lia).
Qed.

Lemma quote_printable s : units_ok s → printable (quote s).
Proof.
  intros Hs. unfold quote. apply Forall_cons; split; [lia|]. apply Forall_app; split; [by apply quote_body_printable|].
  repeat constructor; lia.
Qed.

Lemma join_printable sep l : printable sep → Forall printable l → printable (join sep l).
Proof.
  intros Hs Hl. induction Hl as [|x l Hx Hl IH]; [constructor|].
  destruct l as [|y l]; [done|]. rewrite join_cons. unfold printable. by repeat (apply Forall_app; split).
Qed.

Lemma dec_printable z : printable (dec z).
Proof.
  assert (∀ n, 0 <= n → printable (dec_nonneg n)) as H.
  { intros n Hn. destruct (dec_nonneg_spec n Hn) as [Hd _ _ _]. eapply Forall_impl; [exact Hd|].
    unfold is_dig. intros c Hc. simpl in Hc. bool_prop. lia. }
  unfold dec. case_test; bool_prop; [constructor; [lia|]|]; apply H; lia.
Qed.

Lemma stringify_printable v : json_ok v → printable (stringify v).
Proof.
  induction v as [|b|n|s|l IH|l IH] using json_ind'; intros Hok; inversion Hok; subst; unfold printable in *.
  - vm_compute. repeat constructor; discriminate.
  - destruct b; vm_compute; repeat constructor; discriminate.
  - apply dec_printable.
  - by apply quote_printable.
  - cbn [stringify]. apply Forall_cons; split; [lia|]. apply Forall_app; split; [|repeat constructor; lia].
    apply join_printable; [repeat constructor; lia|]. rewrite Forall_map. rewrite Forall_forall in *. intros x Hx. by apply IH, H0.
  - cbn [stringify]. apply Forall_cons; split; [lia|]. apply Forall_app; split; [|repeat constructor; lia].
    apply join_printable; [repeat constructor; lia|]. rewrite Forall_map. rewrite Forall_forall in *.
    intros x Hx. destruct (H1 x Hx) as [Hk Hv].
    unfold printable. apply Forall_app; split; [by apply quote_printable|].
    apply Forall_cons; split; [lia|]. by apply IH.
Qed.

Lemma printable_no_lf s : printable s → LF ∉ s.
Proof. unfold printable, LF. rewrite Forall_forall. intros H Hin. specialize (H _ Hin). lia. Qed.

Lemma strip_cr_printable s : printable s → strip_cr s = s.
Proof.
  intros H. unfold strip_cr, ends_with. change (rev [CR]) with [CR].
  destruct (rev s) as [|c r] eqn:E; [done|]. cbn [starts_with].
  assert ((CR =? c) = false) as ->; [|done]. apply Z.eqb_neq. unfold CR.
  unfold printable in H. rewrite Forall_forall in H. specialize (H c).
  rewrite <- (rev_involutive s), E in H. cbn [rev] in H. specialize (H ltac:(set_solver)). lia.
Qed.

Lemma frames_split vs :
  Forall json_ok vs → split_on LF (concat (map encodeFrame vs)) = map stringify vs ++ [[]].
Proof.
  induction 1 as [|v vs Hv _ IH]; [done|]. cbn [map concat]. unfold encodeFrame at 1.
  rewrite <- app_assoc. cbn [app]. rewrite split_on_app_sep, IH, split_on_free; [done|].
  by apply printable_no_lf, stringify_printable.
Qed.

(** ** Properties *)

(** However a stream is cut into chunks, a fresh reconstructor returns
    exactly the LF-terminated lines of the whole stream, CR stripped, and
    [flush] the unterminated rest, as long as every line of the stream is within
    the frame limit: chunk boundaries, even inside a surrogate pair, are
    invisible. *)
Theorem feed_lines max chunks :
  0 <= max → fits max (concat chunks) →
  ∃ st, feed max reset chunks = (st, Lines (complete_lines (concat chunks)))
    ∧ flush st = (reset, match residue (concat chunks) with [] => [] | r => [r] end).
Proof.
  intros Hmax Hf. destruct (feed_fits max chunks reset Hmax (reset_buffering max Hmax) Hf) as (st & H & _ & Ht).
  change (text_of reset ++ concat chunks) with (concat chunks) in *.
  exists st. split; [done|]. unfold flush. change (concat (parts st)) with (text_of st). rewrite Ht.
  by destruct (residue (concat chunks)).
Qed.

Lemma feed_lines_witness :
  ∃ st, feed 8 reset [js "ab"; [13]; 10 :: js "c" ++ [55357]; [56832; 10] ++ js "d"]
    = (st, Lines [js "ab"; js "c" ++ [55357; 56832]]) ∧ flush st = (reset, [js "d"]).
Proof.
  destruct (feed_lines 8 [js "ab"; [13]; 10 :: js "c" ++ [55357]; [56832; 10] ++ js "d"]) as (st & H1 & H2).
  - lia.
  - decide_now.
  - exists st. split; [exact H1|exact H2].
Defined.

(** A sequence of frames written with [encodeFrame] is read back value for
    value from any chunking of the concatenated stream, with no residue. *)
Theorem frames_read_back max vs chunks :
  0 <= max → Forall json_ok vs → Forall (λ v, byte_length (stringify v) <= max) vs →
  concat chunks = concat (map encodeFrame vs) →
  ∃ st lines, feed max reset chunks = (st, Lines lines) ∧ map parse lines = map Some vs ∧ flush st = (reset, []).
Proof.
  intros Hmax Hok Hsize Hc. pose proof (frames_split vs Hok) as Hs.
  destruct (feed_fits max chunks reset Hmax (reset_buffering max Hmax)) as (st & H1 & _ & Ht).
  { cbn [text_of reset parts concat app]. rewrite Hc. unfold fits. rewrite Hs. apply Forall_app; split.
    - by rewrite Forall_map.
    - repeat constructor. simpl. lia. }
  cbn [text_of reset parts concat app] in *. rewrite Hc in *.
  exists st, (complete_lines (concat (map encodeFrame vs))). split; [done|]. split.
  - unfold complete_lines. rewrite Hs, removelast_last, map_map, map_map.
    apply map_ext_in. intros v Hv. rewrite List.Forall_forall in Hok. specialize (Hok v Hv).
    rewrite strip_cr_printable by (by apply stringify_printable). by apply parse_stringify.
  - unfold flush. change (concat (parts st)) with (text_of st). rewrite Ht. unfold residue.
    by rewrite Hs, last_snoc.
Qed.

Lemma frames_read_back_witness :
  ∃ st lines, feed 64 reset [js "[1,"; js "null]" ++ [10] ++ js "tr"; js "ue" ++ [10]] = (st, Lines lines)
    ∧ map parse lines = [Some (JArr [JNum (NInt 1); JNull]); Some (JBool true)] ∧ flush st = (reset, []).
Proof.
  apply (frames_read_back 64 [JArr [JNum (NInt 1); JNull]; JBool true]).
  - lia.
  - repeat constructor.
  - repeat constructor; vm_compute; discriminate.
  - reflexivity.
Defined.

(** When a chunk overflows the frame limit, the lines handed to the caller
    are exactly the lines of the stream before the first oversized one, all
    within the limit, and the buffer is empty again. *)
Theorem push_overflow max st chunk st' completed :
  0 <= max → buffering max st → push max st chunk = (st', FrameOverflow completed) →
  st' = reset ∧ ∃ before over after,
    split_on LF (text_of st ++ chunk) = before ++ over :: after
    ∧ Forall (λ l, byte_length l <= max) before ∧ max < byte_length over ∧ completed = map strip_cr before.
Proof.
  intros Hmax Hb H. pose proof (push_spec max st chunk Hmax Hb) as Hp. rewrite H in Hp.
  destruct Hp as (-> & k & Hk & Hf & ->). split; [done|].
  destruct (split_on LF (text_of st ++ chunk) !! k) as [x|] eqn:E; simpl in Hk; [|lia].
  exists (take k (split_on LF (text_of st ++ chunk))), x, (drop (S k) (split_on LF (text_of st ++ chunk))).
  split_and!; try done. by rewrite take_drop_middle.
Qed.

Lemma push_overflow_witness :
  push 3 reset (js "ok" ++ [10] ++ js "long!") = (reset, FrameOverflow [js "ok"]) ∧
  ∃ before over after, split_on LF (js "ok" ++ [10] ++ js "long!") = before ++ over :: after ∧ 3 < byte_length over.
Proof.
  split; [reflexivity|].
  destruct (push_overflow 3 reset (js "ok" ++ [10] ++ js "long!") reset [js "ok"]) as (_ & b & o & a & H1 & _ & H2 & _).
  - lia.
  - apply reset_buffering. lia.
  - reflexivity.
  - exists b, o, a. split; [exact H1|exact H2].
Defined.
