(* ===== verification/Ansi.v ===== *)
(** * Terminal noise ([packages/shared/src/ansi.ts])

    The three ordered passes applied to every tool output before it is hashed
    and stored: [stripAnsi], [collapseCarriageReturns], [collapseBackspaces],
    composed by [sanitize]. *)

From stdpp Require Import base tactics list numbers option sets strings.
From S2P Require Import Prelude JsString JsRegex.

Definition ESC : Z := 27.

Definition ANSI_PATTERN : regex := Eval vm_compute in
  re "\x1b\[[0-?]*[ -/]*[@-~]|\x1b\][^\x07\x1b]*(?:\x07|\x1b\\)|\x1b[\x20-\x2f][\x30-\x7e]|\x1b[\x30-\x7e]".

Definition stripAnsi (text : jstr) : jstr := replace_all ANSI_PATTERN (λ _, []) text.

(** The loop from the last segment down: the last non-empty one. *)
Definition last_nonempty (segments : list jstr) : jstr :=
  default [] (last (List.filter (λ s : jstr, negb (jeqb s [])) segments)).

Definition collapseCarriageReturns (text : jstr) : jstr :=
  join [LF] (map (λ line, last_nonempty (split_on CR line)) (split_on LF text)).

(** [for (const ch of text)]: one code point at a time. *)
Fixpoint code_points (s : jstr) : list jstr :=
  match s with
  | [] => []
  | c :: r =>
    match r with
    | d :: r' => if is_high c && is_low d then [c; d] :: code_points r' else [c] :: code_points r
    | [] => [[c]]
    end
  end.

(** [out] is the stack of the source, top first. *)
Definition backspace_step (out : list jstr) (ch : jstr) : list jstr :=
  if jeqb ch [BS] then tail out else ch :: out.

Definition collapseBackspaces (text : jstr) : jstr :=
  concat (rev (foldl backspace_step [] (code_points text))).

Definition sanitize (text : jstr) : jstr := collapseBackspaces (collapseCarriageReturns (stripAnsi text)).

Example ansi_ex : stripAnsi (27 :: js "[1;31mred" ++ 27 :: js "[0m" ++ 27 :: js "]0;title") = js "red0;title".
Proof. vm_compute. reflexivity. Qed.
Example cr_ex : collapseCarriageReturns (js "10%" ++ [13] ++ js "99%" ++ [13; 10] ++ js "x") = js "99%" ++ [10] ++ js "x".
Proof. vm_compute. reflexivity. Qed.
Example bs_ex : collapseBackspaces (js "ab😀" ++ [8; 8] ++ js "c") = js "ac".
Proof. vm_compute. reflexivity. Qed.

(** ** Nothing is invented: every pass returns a subsequence *)

Lemma replace_from_sublist r prev i s skip :
  replace_from r (λ _, []) prev i s skip `sublist_of` s.
Proof.
  revert prev i skip. induction s as [|c s IH]; intros prev i skip; simpl.
  - destruct skip; [|done]. by destruct (match_at r prev []).
  - destruct skip as [|k]; [|by apply sublist_cons].
    destruct (match_at r prev (c :: s)) as [st|]; [|by apply sublist_skip].
    cbn [app]. case_match; [by apply sublist_skip|by apply sublist_cons].
Qed.

Lemma stripAnsi_sublist t : stripAnsi t `sublist_of` t.
Proof. apply replace_from_sublist. Qed.

Lemma join_sublist c l1 l2 : Forall2 sublist l1 l2 → join [c] l1 `sublist_of` join [c] l2.
Proof.
  induction 1 as [|x y l1 l2 Hxy Hl IH]; [done|].
  destruct Hl as [|x' y' l1 l2 Hx' Hl]; [done|]. rewrite !join_cons.
  by repeat apply sublist_app.
Qed.

Lemma in_join_sublist c l x : x ∈ l → x `sublist_of` join [c] l.
Proof.
  induction l as [|y l IH]; intros Hin; [set_solver|].
  apply elem_of_cons in Hin as [->|Hin].
  - destruct l; [done|]. rewrite join_cons. by apply sublist_inserts_r.
  - destruct l; [set_solver|]. rewrite join_cons. by do 2 apply sublist_inserts_l; apply IH.
Qed.

Lemma last_nonempty_in l : last_nonempty l = [] ∨ last_nonempty l ∈ l.
Proof.
  unfold last_nonempty. destruct (last _) as [x|] eqn:E; [|by left]. right. simpl.
  apply last_Some in E as [l' E]. assert (x ∈ List.filter (λ s : jstr, negb (jeqb s [])) l) as Hin
    by (rewrite E; set_solver).
  apply list_elem_of_In, filter_In in Hin as [Hin _]. by apply list_elem_of_In.
Qed.

Lemma last_nonempty_sublist line : last_nonempty (split_on CR line) `sublist_of` line.
Proof.
  destruct (last_nonempty_in (split_on CR line)) as [->|Hin]; [apply sublist_nil_l|].
  rewrite <- (join_split CR line) at 2. by apply in_join_sublist.
Qed.

Lemma collapseCR_sublist t : collapseCarriageReturns t `sublist_of` t.
Proof.
  unfold collapseCarriageReturns. rewrite <- (join_split LF t) at 2. apply join_sublist.
  induction (split_on LF t); constructor; [apply last_nonempty_sublist|done].
Qed.

Lemma code_points_cons c s :
  code_points (c :: s) =
  if pairs_with c s then match s with d :: r => [c; d] :: code_points r | [] => [] end
  else [c] :: code_points s.
Proof.
  unfold pairs_with. destruct s as [|d r]; cbn [code_points]; [by rewrite andb_false_r|].
  by destruct (is_high c && is_low d).
Qed.

Lemma str_ind (P : jstr → Prop) :
  P [] → (∀ c s, pairs_with c s = false → P s → P (c :: s)) →
  (∀ c d s, is_high c = true → is_low d = true → P s → P (c :: d :: s)) → ∀ s, P s.
Proof.
  intros H0 H1 H2 s. remember (length s) as n eqn:Hn. revert s Hn.
  induction (lt_wf n) as [n _ IH]. intros s ->. destruct s as [|c s]; [done|].
  destruct (pairs_with c s) eqn:E.
  - destruct s as [|d s]; unfold pairs_with in E; [by rewrite andb_false_r in E|]. bool_prop.
    apply H2; [done..|]. apply (IH (length s)); [simpl; lia|done].
  - apply H1; [done|]. apply (IH (length s)); [simpl; lia|done].
Qed.

Lemma pairs_with_cons c d s : is_high c = true → is_low d = true → pairs_with c (d :: s) = true.
Proof. intros Hc Hd. unfold pairs_with. by rewrite Hc, Hd. Qed.

Lemma concat_code_points s : concat (code_points s) = s.
Proof.
  induction s as [|c s E IH|c d s Hc Hd IH] using str_ind; [done| |]; rewrite code_points_cons.
  - rewrite E. simpl. by rewrite IH.
  - rewrite pairs_with_cons by done. simpl. by rewrite IH.
Qed.

Lemma backspaces_sublist l out :
  concat (rev (foldl backspace_step out l)) `sublist_of` concat (rev out) ++ concat l.
Proof.
  revert out. induction l as [|ch l IH]; intros out; simpl; [by rewrite app_nil_r|].
  rewrite IH. unfold backspace_step. case_test.
  - apply sublist_app; [|by apply sublist_inserts_l].
    destruct out as [|x out]; [done|]. simpl. rewrite concat_app. by apply sublist_inserts_r.
  - simpl. rewrite concat_app. simpl. rewrite app_nil_r, <- app_assoc. done.
Qed.

Lemma collapseBS_sublist t : collapseBackspaces t `sublist_of` t.
Proof.
  unfold collapseBackspaces. rewrite <- (concat_code_points t) at 2. by apply (backspaces_sublist _ []).
Qed.

Lemma sublist_elem {A} (l1 l2 : list A) x : l1 `sublist_of` l2 → x ∈ l1 → x ∈ l2.
Proof. intros H. rewrite !list_elem_of_In, <- !list_elem_of_In. induction H; set_solver. Qed.

(** ** What is left *)

Lemma collapseCR_no_cr t : CR ∉ collapseCarriageReturns t.
Proof.
  unfold collapseCarriageReturns. intros Hin.
  assert (∀ l : list jstr, Forall (λ x, CR ∉ x) l → CR ∉ join [LF] l) as Hj.
  { induction 1 as [|x l Hx Hl IH]; [set_solver|]. destruct l as [|y l]; [done|].
    rewrite join_cons. unfold LF, CR in *. set_solver. }
  revert Hin. apply Hj. rewrite Forall_map, Forall_forall. intros line _.
  destruct (last_nonempty_in (split_on CR line)) as [->|Hin]; [set_solver|].
  pose proof (split_on_free_each CR line) as H. rewrite Forall_forall in H. by apply H.
Qed.

Lemma backspaces_no_bs l out :
  Forall (λ ch : jstr, ch ≠ [BS]) out → Forall (λ ch, ch ≠ [BS]) (foldl backspace_step out l).
Proof.
  revert out. induction l as [|ch l IH]; intros out Ho; simpl; [done|]. apply IH.
  unfold backspace_step. case_test; [by destruct Ho|]. apply jeqb_neq in E. by constructor.
Qed.

Lemma backspaces_from l out : foldl backspace_step out l ⊆ out ++ l.
Proof.
  revert out. induction l as [|ch l IH]; intros out; simpl; [set_solver|].
  intros x Hx. apply IH in Hx. unfold backspace_step in Hx. case_test_in Hx; [|set_solver].
  destruct out; set_solver.
Qed.

(** A code point holding the backspace unit is the backspace. *)
Lemma code_points_bs s ch : ch ∈ code_points s → BS ∈ ch → ch = [BS].
Proof.
  induction s as [|c s E IH|c d s Hc Hd IH] using str_ind; rewrite ?code_points_cons; intros Hin Hbs; [set_solver| |].
  - rewrite E in Hin. apply elem_of_cons in Hin as [->|Hin]; [|by apply IH].
    apply elem_of_cons in Hbs as [->|Hbs]; [done|set_solver].
  - rewrite pairs_with_cons in Hin by done. apply elem_of_cons in Hin as [->|Hin]; [|by apply IH].
    exfalso. unfold is_high, is_low, BS in *. bool_prop. set_unfold. lia.
Qed.

Lemma collapseBS_no_bs t : BS ∉ collapseBackspaces t.
Proof.
  unfold collapseBackspaces. intros Hin. apply list_elem_of_In, in_concat in Hin as (ch & Hch & Hin).
  apply in_rev in Hch. rewrite <- list_elem_of_In in Hch. rewrite <- list_elem_of_In in Hin.
  pose proof (backspaces_no_bs (code_points t) [] (Forall_nil_2 _)) as Hno. rewrite Forall_forall in Hno.
  apply (Hno ch Hch). apply code_points_bs with t; [|done]. by apply (backspaces_from _ []).
Qed.

(** ** Clean text is left alone *)

Lemma ansi_needs_esc prev c s : c ≠ ESC → match_at ANSI_PATTERN prev (c :: s) = None.
Proof.
  intros Hc. unfold match_at, ANSI_PATTERN. cbn [rmatch step1 m_rest m_prev].
  assert (in_ranges [(27, 27)] c = false) as ->; [|done].
  unfold in_ranges, ESC in *. cbn [existsb]. rewrite orb_false_r. apply andb_false_iff.
  destruct (decide (27 <= c)); [right|left]; apply Z.leb_gt; lia.
Qed.

Lemma ansi_not_empty prev : match_at ANSI_PATTERN prev [] = None.
Proof. reflexivity. Qed.

Lemma replace_clean f prev i t : ESC ∉ t → replace_from ANSI_PATTERN f prev i t 0 = t.
Proof.
  revert prev i. induction t as [|c t IH]; intros prev i Hc; cbn [replace_from].
  - by rewrite ansi_not_empty.
  - rewrite ansi_needs_esc by set_solver. f_equal. apply IH. set_solver.
Qed.

Lemma stripAnsi_clean t : ESC ∉ t → stripAnsi t = t.
Proof. apply replace_clean. Qed.

Lemma collapseCR_clean t : CR ∉ t → collapseCarriageReturns t = t.
Proof.
  intros Hcr. unfold collapseCarriageReturns. rewrite <- (join_split LF t) at 2. f_equal.
  rewrite <- (map_id (split_on LF t)) at 2. apply map_ext_in. intros line Hline.
  assert (CR ∉ line) as Hl.
  { intros Hin. apply Hcr. rewrite <- list_elem_of_In in Hline. eapply sublist_elem; [|exact Hin].
    rewrite <- (join_split LF t). by apply in_join_sublist. }
  rewrite split_on_free by done. unfold last_nonempty. cbn [List.filter].
  by destruct line.
Qed.

Lemma collapseBS_clean t : BS ∉ t → collapseBackspaces t = t.
Proof.
  intros Hbs. unfold collapseBackspaces.
  assert (∀ l out, Forall (λ ch, ch ≠ [BS]) l → foldl backspace_step out l = rev l ++ out) as Hf.
  { induction l as [|ch l IH]; intros out Hl; [done|]. apply Forall_cons in Hl as [Hch Hl]. simpl.
    unfold backspace_step at 2. apply jeqb_neq in Hch. rewrite Hch, IH by done. by rewrite <- app_assoc. }
  rewrite Hf, app_nil_r, rev_involutive; [apply concat_code_points|].
  rewrite Forall_forall. intros ch Hch ->. apply Hbs. rewrite <- (concat_code_points t).
  apply list_elem_of_In, in_concat. exists [BS]. rewrite <- !list_elem_of_In. set_solver.
Qed.

Lemma set_head rs c s caps prev k :
  rmatch (RSet false rs) (MState prev (c :: s) caps) k =
  if in_ranges rs c then k (MState (Some c) s caps) else None.
Proof. by rewrite rmatch_set. Qed.

(** No terminator in the text: the OSC alternative fails after every prefix. *)
Lemma osc_body_fails n st :
  7 ∉ m_rest st → ESC ∉ m_rest st →
  star_loop (rmatch (RSet true [(7, 7); (27, 27)])) true
    (λ st', rmatch (RAlt (RSet false [(7, 7)]) (RSeq (RSet false [(27, 27)]) (RSet false [(92, 92)]))) st' Some) n st = None.
Proof.
  assert (∀ st, 7 ∉ m_rest st → ESC ∉ m_rest st →
    rmatch (RAlt (RSet false [(7, 7)]) (RSeq (RSet false [(27, 27)]) (RSet false [(92, 92)]))) st Some = None) as Hk.
  { intros [prev [|c r] caps] H7 H27; [done|]. cbn [m_rest] in *. cbn [rmatch step1 m_rest].
    assert (∀ k, c ≠ k → in_ranges [(k, k)] c = false) as Hr.
    { intros k Hk. unfold in_ranges. cbn [existsb]. rewrite orb_false_r. apply andb_false_iff.
      destruct (decide (k <= c)); [right|left]; apply Z.leb_gt; lia. }
    rewrite (Hr 7), (Hr 27) by (unfold ESC in *; set_solver). done. }
  revert st. induction n as [|n IH]; intros st H7 H27; cbn [star_loop]; [by apply Hk|].
  rewrite (Hk st) by done. rewrite rmatch_set. destruct (m_rest st) as [|c r] eqn:E; [done|].
  case_match; [|done]. unfold consuming. case_match; [|done].
  rewrite IH; [done| |]; cbn [m_rest]; set_solver.
Qed.

(** ** Properties *)

(** Sanitizing only removes: the result is a subsequence of the input, holds
    no carriage return and no backspace, and text without escape, carriage
    return and backspace characters is returned unchanged. *)
Theorem sanitize_spec t :
  sanitize t `sublist_of` t ∧ CR ∉ sanitize t ∧ BS ∉ sanitize t
  ∧ (ESC ∉ t → CR ∉ t → BS ∉ t → sanitize t = t).
Proof.
  unfold sanitize. split_and!.
  - rewrite collapseBS_sublist, collapseCR_sublist. apply stripAnsi_sublist.
  - intros Hin. eapply collapseCR_no_cr, sublist_elem; [apply collapseBS_sublist|exact Hin].
  - apply collapseBS_no_bs.
  - intros He Hc Hb. by rewrite stripAnsi_clean, collapseCR_clean, collapseBS_clean.
Qed.

(** An unterminated OSC sequence does not pass through verbatim: its
    introducer, matched as a single-character escape, is deleted and only its
    text is kept. *)
Theorem unterminated_osc_introducer_deleted body :
  ESC ∉ body → 7 ∉ body → stripAnsi (ESC :: 93 :: body) = body.
Proof.
  intros He H7. unfold stripAnsi, replace_all. cbn [replace_from].
  assert (match_at ANSI_PATTERN None (ESC :: 93 :: body) = Some (MState (Some 93) body [])) as ->.
  { unfold match_at, ANSI_PATTERN, ESC. cbn [rmatch step1 m_rest].
    change (in_ranges [(27, 27)] 27) with true. change (in_ranges [(91, 91)] 93) with false.
    change (in_ranges [(93, 93)] 93) with true. change (in_ranges [(32, 47)] 93) with false.
    change (in_ranges [(48, 126)] 93) with true. cbn [xorb m_rest m_caps or_else].
    pose proof (osc_body_fails (S (length body)) (MState (Some 93) body []) H7 He) as H.
    match goal with |- context [star_loop ?b ?g ?k ?n ?st] =>
      replace (star_loop b g k n st) with (@None mstate) by (symmetry; exact H) end. done. }
  cbn [m_rest length]. replace (S (S (length body)) - length body)%nat with 2%nat by lia.
  cbn [app Nat.eqb Nat.sub replace_from].
  by apply replace_clean.
Qed.

Lemma unterminated_osc_introducer_deleted_witness :
  stripAnsi (ESC :: 93 :: js "0;title") = js "0;title".
Proof. apply (unterminated_osc_introducer_deleted (js "0;title")); decide_now. Defined.
