(* ===== verification/CLine.v ===== *)
(** * Classified lines ([packages/rtk-core/src/strategies/types.ts],
    [anchor.ts], [budget.ts] is in Budget.v)

    The line representation every strategy produces, [splitLines], the trim
    priorities, double arithmetic for ratios, and the stable array sort. *)

From stdpp Require Import base tactics list numbers option sets strings sorting.
From Stdlib Require Import SpecFloat.
From S2P Require Import Prelude JsString Json.

(** ** Data *)

Inductive StrategyName : Type := SLs | SGrep | SRead | SDiff | STest | SUnknown.
#[export] Instance StrategyName_dec : EqDecision StrategyName.
Proof. solve_decision. Defined.

Record CLine := mkCLine {
  cl_text : jstr;
  cl_sourceLine : option Z;
  cl_anchor : bool;
  cl_priority : Z;
  cl_group : option jstr }.

Record StrategyResult := mkSR {
  sr_lines : list CLine;
  sr_strategy : StrategyName;
  sr_notes : list jstr }.

(** [PRI] *)
Definition PRI_critical : Z := 100.
Definition PRI_high : Z := 70.
Definition PRI_normal : Z := 40.
Definition PRI_low : Z := 10.

(** Split into lines, dropping the empty element a trailing newline leaves. *)
Definition splitLines (text : jstr) : list jstr :=
  let parts := split_on LF text in
  if (1 <? zlen parts) && jeqb (default [] (last parts)) [] then removelast parts else parts.

(** [lines.map((line, index) => ...)] *)
Definition imap_lines {B} (f : Z → jstr → B) (lines : list jstr) : list B := imap (λ i l, f (Z.of_nat i) l) lines.

(** ** Double arithmetic used on counts *)

Definition f64 (n : Z) : spec_float := binary_normalize 53 1024 n 0 false.
Definition fdiv : spec_float → spec_float → spec_float := SFdiv 53 1024.
Definition fmul : spec_float → spec_float → spec_float := SFmul 53 1024.
Definition fadd : spec_float → spec_float → spec_float := SFadd 53 1024.
Definition fltb (a b : spec_float) : bool := SFltb a b.
Definition fleb (a b : spec_float) : bool := SFleb a b.
(** A decimal literal [m * 10^e] of the source. *)
Definition flit (m e : Z) : spec_float := f64_of_dec false m e.
(** [Math.min] and [Math.max] on numbers that are not NaN. *)
Definition fmin (a b : spec_float) : spec_float := if fltb b a then b else a.
Definition fmax (a b : spec_float) : spec_float := if fltb a b then b else a.

(** ** [Array.prototype.sort] with a comparator: stable *)

Section Sort.
Context {A : Type} (cmp : A → A → Z).

Fixpoint sort_insert (x : A) (l : list A) : list A :=
  match l with
  | [] => [x]
  | y :: r => if cmp x y <? 0 then x :: l else y :: sort_insert x r
  end.
Definition sort_by (l : list A) : list A := foldl (λ acc x, sort_insert x acc) [] l.

Lemma sort_insert_perm x l : sort_insert x l ≡ₚ x :: l.
Proof. induction l as [|y l IH]; simpl; [done|]. case_test; [done|]. rewrite IH. apply Permutation_swap. Qed.

Lemma sort_by_perm l : sort_by l ≡ₚ l.
Proof.
  assert (∀ acc, foldl (λ acc x, sort_insert x acc) acc l ≡ₚ acc ++ l) as H; [|by apply (H [])].
  induction l as [|x l IH]; intros acc; simpl; [by rewrite app_nil_r|].
  rewrite IH, sort_insert_perm. simpl. by rewrite Permutation_middle.
Qed.

(** Sorted: no element compares greater than a later one, for a comparator
    that is a total preorder. *)
Definition cmp_le (x y : A) : Prop := cmp x y <= 0.
Class CmpOrder : Prop := {
  cmp_total : ∀ x y, 0 <= cmp x y → cmp_le y x;
  cmp_trans :: Transitive cmp_le }.

Lemma sort_insert_sorted `{!CmpOrder} x l : StronglySorted cmp_le l → StronglySorted cmp_le (sort_insert x l).
Proof.
  induction 1 as [|y l Hl IH Hy]; simpl; [repeat constructor|].
  case_test; bool_prop.
  - constructor; [by constructor|]. assert (cmp_le x y) by (unfold cmp_le; lia).
    constructor; [done|]. eapply Forall_impl; [exact Hy|]. intros z Hz. by transitivity y.
  - constructor; [done|]. rewrite sort_insert_perm. constructor; [|done]. by apply cmp_total.
Qed.

Lemma sort_by_sorted `{!CmpOrder} l : StronglySorted cmp_le (sort_by l).
Proof.
  assert (∀ acc, StronglySorted cmp_le acc → StronglySorted cmp_le (foldl (λ acc x, sort_insert x acc) acc l)) as Hgen.
  { induction l as [|x l IH]; intros acc Ha; simpl; [done|]. apply IH. by apply sort_insert_sorted. }
  apply Hgen. constructor.
Qed.
End Sort.

(** ** Lemmas on lines *)

Lemma splitLines_ne text : splitLines text ≠ [].
Proof.
  unfold splitLines. pose proof (split_on_ne LF text) as Hne.
  destruct (split_on LF text) as [|p [|q l]]; [done|done|].
  case_test; done.
Qed.

Lemma splitLines_join text :
  join [LF] (splitLines text) = text ∨ join [LF] (splitLines text) ++ [LF] = text.
Proof.
  pose proof (join_split LF text) as Hj. pose proof (split_on_ne LF text) as Hne. unfold splitLines.
  case_test; [right|by left]. bool_prop. apply jeqb_eq in H0.
  destruct (exists_last Hne) as (l & x & Hl). rewrite Hl in *. rewrite last_snoc in H0. simpl in H0. subst x.
  rewrite removelast_last. destruct l as [|p l]; [simpl in H; lia|].
  rewrite <- Hj at 1. rewrite join_app by done. by rewrite app_nil_r.
Qed.

Lemma splitLines_no_lf text : Forall (λ l, LF ∉ l) (splitLines text).
Proof.
  unfold splitLines. pose proof (split_on_free_each LF text) as H. pose proof (split_on_ne LF text) as Hne.
  case_test; [|done]. destruct (exists_last Hne) as (l & x & Hl). rewrite Hl in *.
  rewrite removelast_last. by apply Forall_app in H as [? _].
Qed.
