(* ===== verification/Budget.v ===== *)
(** * Budget selection ([packages/rtk-core/src/budget.ts])

    [applyBudget] folds runs of unprotected lines of one group and priority
    into a summary, lowest priority first, until the assembled text fits the
    token budget.  Only runs whose summary is shorter are candidates. *)

From stdpp Require Import base tactics list numbers option sets strings sorting.
From S2P Require Import Prelude JsString Json CLine.

Record BudgetOptions := {
  bo_budgetTokens : Z;
  bo_rawHash : jstr;
  bo_tool : jstr }.

Record BudgetResult := {
  br_text : jstr;
  br_elidedTokens : Z;
  br_groupsCollapsed : Z;
  br_keptLines : list CLine }.

Record Block := mkBlock {
  bk_start : nat;
  bk_end : nat;
  bk_priority : Z;
  bk_label : jstr;
  bk_summary : jstr;
  bk_gain : Z;
  bk_chars : Z }.

#[export] Instance Block_eq_dec : EqDecision Block.
Proof. solve_decision. Defined.

(** ** Operations *)

Definition line_cost (l : CLine) : Z := zlen (cl_text l) + 1.
Definition label_of (opts : BudgetOptions) (l : CLine) : jstr := default (bo_tool opts) (cl_group l).

(** The inner [while]: how many lines from here continue the run. *)
Fixpoint run_length (opts : BudgetOptions) (label : jstr) (priority : Z) (lines : list CLine) : nat :=
  match lines with
  | l :: r =>
    if negb (cl_anchor l) && jeqb (label_of opts l) label && (cl_priority l =? priority)
    then S (run_length opts label priority r) else O
  | [] => O
  end.

Definition summary_text (n : nat) (label : jstr) : jstr :=
  js "[+" ++ dec (Z.of_nat n) ++ js " lines elided in " ++ label ++ js "]".

Definition block_of (opts : BudgetOptions) (start : nat) (first : CLine) (run : list CLine) : Block :=
  let label := label_of opts first in
  let summary := summary_text (length run) label in
  let cost := zsum (map line_cost run) in
  mkBlock start (start + length run) (cl_priority first) label summary (cost - zlen summary - 1) cost.

(** The outer [for] of the block scan, from line [i]. *)
Fixpoint scan_blocks (fuel : nat) (opts : BudgetOptions) (i : nat) (lines : list CLine) : list Block :=
  match fuel with
  | O => []
  | S f =>
    match lines with
    | [] => []
    | first :: r =>
      if cl_anchor first then scan_blocks f opts (S i) r
      else
        let n := run_length opts (label_of opts first) (cl_priority first) lines in
        let b := block_of opts i first (take n lines) in
        (if 0 <? bk_gain b then [b] else []) ++ scan_blocks f opts (i + n) (drop n lines)
    end
  end.

Definition block_cmp (a b : Block) : Z :=
  if bk_priority a - bk_priority b =? 0 then Z.of_nat (bk_start a) - Z.of_nat (bk_start b)
  else bk_priority a - bk_priority b.

Definition quoted (s : jstr) : jstr := [34] ++ s ++ [34].
Definition footer (opts : BudgetOptions) (elided : Z) : jstr :=
  js "[bluecode rtk] compressed: rawHash=" ++ bo_rawHash opts ++ js " (" ++ dec elided
  ++ js " tokens elided). Full output: headroom_retrieve(hash=" ++ quoted (bo_rawHash opts) ++ js ")".

(** The selection loop: blocks taken in order until the text fits. *)
Fixpoint select_blocks (opts : BudgetOptions) (blocks : list Block) (chars elidedChars : Z) : list Block * Z :=
  match blocks with
  | [] => ([], elidedChars)
  | b :: r =>
    if ceil4 (chars + zlen (footer opts (ceil4 elidedChars))) <=? bo_budgetTokens opts then ([], elidedChars)
    else let '(sel, el) := select_blocks opts r (chars - bk_gain b) (elidedChars + bk_chars b) in (b :: sel, el)
  end.

Definition selected_at (selected : list Block) (i : nat) : option Block :=
  snd <$> list_find (λ b, bk_start b = i) selected.

(** The output loop, from line [i]: output lines and kept lines. *)
Fixpoint emit (fuel : nat) (selected : list Block) (i : nat) (lines : list CLine) : list jstr * list CLine :=
  match fuel with
  | O => ([], [])
  | S f =>
    match lines with
    | [] => ([], [])
    | l :: r =>
      match selected_at selected i with
      | Some b => let '(o, k) := emit f selected (bk_end b) (drop (bk_end b - i) lines) in (bk_summary b :: o, k)
      | None => let '(o, k) := emit f selected (S i) r in (cl_text l :: o, l :: k)
      end
    end
  end.

(** Distinct labels, the size of the [Set]. *)
Fixpoint count_distinct (l : list jstr) : Z :=
  match l with
  | [] => 0
  | x :: r => (if existsb (jeqb x) r then 0 else 1) + count_distinct r
  end.

Definition applyBudget (lines : list CLine) (opts : BudgetOptions) : BudgetResult :=
  let blocks := sort_by block_cmp (scan_blocks (length lines) opts 0 lines) in
  let chars := zsum (map line_cost lines) in
  let '(selected, elidedChars) := select_blocks opts blocks chars 0 in
  let '(output, keptLines) := emit (length lines) selected 0 lines in
  let elidedTokens := ceil4 elidedChars in
  {| br_text := join [LF] output ++ [LF] ++ footer opts elidedTokens;
     br_elidedTokens := elidedTokens;
     br_groupsCollapsed := count_distinct (map bk_label selected);
     br_keptLines := keptLines |}.

(** ** Runs and blocks *)

Lemma run_length_le opts label p lines : (run_length opts label p lines <= length lines)%nat.
Proof. induction lines as [|l r IH]; simpl; [lia|]. case_test; lia. Qed.

Lemma run_length_pos opts l r :
  cl_anchor l = false → (0 < run_length opts (label_of opts l) (cl_priority l) (l :: r))%nat.
Proof. intros Ha. simpl. rewrite Ha, jeqb_refl, Z.eqb_refl. simpl. lia. Qed.

(** A run: unprotected lines of one label and one priority. *)
Lemma run_length_run opts label p lines :
  Forall (λ l, cl_anchor l = false ∧ label_of opts l = label ∧ cl_priority l = p)
    (take (run_length opts label p lines) lines).
Proof.
  induction lines as [|l r IH]; simpl; [constructor|]. case_test; [|constructor].
  bool_prop. apply jeqb_eq in H1. by constructor.
Qed.

Lemma scan_starts f opts i lines :
  Forall (λ b, (i <= bk_start b)%nat ∧ (bk_start b < bk_end b)%nat) (scan_blocks f opts i lines).
Proof.
  revert i lines. induction f as [|f IH]; intros i lines; simpl; [constructor|].
  destruct lines as [|l r]; [constructor|]. case_test.
  - eapply Forall_impl; [apply IH|]. simpl. lia.
  - pose proof (run_length_pos opts l r E) as Hn. pose proof (run_length_le opts (label_of opts l) (cl_priority l) (l :: r)) as Hl.
    set (n := run_length _ _ _ _) in *. clearbody n. apply Forall_app; split.
    + case_test; [|constructor]. constructor; [|constructor].
      cbn [block_of bk_start bk_end]. rewrite length_take. lia.
    + eapply Forall_impl; [apply IH|]. simpl. lia.
Qed.

Lemma scan_gains f opts i lines : Forall (λ b, 0 < bk_gain b) (scan_blocks f opts i lines).
Proof.
  revert i lines. induction f as [|f IH]; intros i lines; [constructor|]. cbn [scan_blocks].
  destruct lines as [|l r]; [constructor|]. case_test; [apply IH|].
  apply Forall_app; split; [|apply IH]. case_test; bool_prop; by repeat constructor.
Qed.

Lemma scan_starts_nodup f opts i lines : NoDup (map bk_start (scan_blocks f opts i lines)).
Proof.
  revert i lines. induction f as [|f IH]; intros i lines; simpl; [constructor|].
  destruct lines as [|l r]; [constructor|]. case_test; [done|].
  pose proof (run_length_pos opts l r E) as Hn. set (n := run_length _ _ _ _) in *. clearbody n.
  rewrite map_app. case_test; [|apply IH]. simpl. constructor; [|apply IH].
  intros Hin. apply list_elem_of_In, in_map_iff in Hin as (b & Hb & Hin).
  pose proof (scan_starts f opts (i + n) (drop n (l :: r))) as Hs. rewrite Forall_forall in Hs.
  rewrite <- list_elem_of_In in Hin. specialize (Hs b Hin). simpl in *. lia.
Qed.

(** ** Selection takes a prefix *)

Lemma select_prefix opts blocks chars el :
  ∃ k, (select_blocks opts blocks chars el).1 = take k blocks
    ∧ (select_blocks opts blocks chars el).2 = el + zsum (map bk_chars (take k blocks))
    ∧ ((k < length blocks)%nat →
       ceil4 (chars - zsum (map bk_gain (take k blocks))
              + zlen (footer opts (ceil4 (el + zsum (map bk_chars (take k blocks)))))) <= bo_budgetTokens opts)
    ∧ ∀ j, (j < k)%nat →
       bo_budgetTokens opts < ceil4 (chars - zsum (map bk_gain (take j blocks))
              + zlen (footer opts (ceil4 (el + zsum (map bk_chars (take j blocks)))))).
Proof.
  revert chars el. induction blocks as [|b r IH]; intros chars el; cbn [select_blocks].
  { exists O. simpl. split_and!; auto; lia. }
  case_test; bool_prop.
  { exists O. simpl. rewrite Z.sub_0_r, Z.add_0_r. split_and!; auto; lia. }
  destruct (IH (chars - bk_gain b) (el + bk_chars b)) as (k & H1 & H2 & H3 & H4).
  destruct (select_blocks opts r _ _) as [sel el']. cbn [fst snd] in *. exists (S k).
  cbn [take map zsum foldr length]. change (foldr Z.add 0) with zsum.
  split_and!; [by subst| subst; lia | |].
  - intros Hk. specialize (H3 ltac:(lia)).
    rewrite Z.add_assoc. replace (chars - (bk_gain b + zsum (map bk_gain (take k r))))
      with (chars - bk_gain b - zsum (map bk_gain (take k r))) by lia. done.
  - intros [|j] Hj; cbn [take map zsum foldr]; change (foldr Z.add 0) with zsum.
    + by rewrite Z.sub_0_r, Z.add_0_r.
    + specialize (H4 j ltac:(lia)). rewrite Z.add_assoc.
      replace (chars - (bk_gain b + zsum (map bk_gain (take j r))))
        with (chars - bk_gain b - zsum (map bk_gain (take j r))) by lia. done.
Qed.

(** ** The output of a selection *)

Lemma selected_at_none sel i : (∀ b, b ∈ sel → bk_start b ≠ i) → selected_at sel i = None.
Proof.
  intros H. unfold selected_at. destruct (list_find _ sel) as [[j b]|] eqn:E; [|done].
  apply list_find_Some in E as (Hj & Hb & _). exfalso. eapply H; [|exact Hb]. by eapply list_elem_of_lookup_2.
Qed.

Lemma selected_at_some sel b :
  NoDup (map bk_start sel) → b ∈ sel → selected_at sel (bk_start b) = Some b.
Proof.
  intros Hnd Hin. unfold selected_at. destruct (list_find _ sel) as [[j b']|] eqn:E.
  - apply list_find_Some in E as (Hj & Hb & _). simpl. f_equal.
    apply list_elem_of_lookup in Hin as [i Hi].
    assert (j = i) as ->; [|congruence].
    apply (NoDup_lookup (map bk_start sel) j i (bk_start b)); [done| |]; rewrite list_lookup_fmap, ?Hj, ?Hi; simpl; congruence.
  - apply list_find_None in E. rewrite Forall_forall in E. by specialize (E b Hin).
Qed.

Definition out_cost (o : list jstr) : Z := zsum (map (λ x : jstr, zlen x + 1) o).

(** Lines of [lines] that no selected block starts at are copied. *)
Lemma emit_copy n f sel i lines :
  (n <= length lines)%nat → (∀ b, b ∈ sel → ¬ (i <= bk_start b < i + n)%nat) →
  emit (n + f) sel i lines =
  (map cl_text (take n lines) ++ (emit f sel (i + n) (drop n lines)).1,
   take n lines ++ (emit f sel (i + n) (drop n lines)).2).
Proof.
  revert i lines. induction n as [|n IH]; intros i lines Hn Hsel.
  { rewrite Nat.add_0_r, take_0, drop_0. cbn [Nat.add map app].
    by destruct (emit f sel i lines). }
  destruct lines as [|l r]; [simpl in Hn; lia|]. cbn [Nat.add emit].
  rewrite selected_at_none by (intros b Hb ?; apply (Hsel b Hb); lia).
  rewrite IH; [|simpl in Hn; lia|intros b Hb ?; apply (Hsel b Hb); lia].
  cbn [take drop map app]. replace (S i + n)%nat with (i + S n)%nat by lia. done.
Qed.

Definition in_sel (sel : list Block) (b : Block) : bool := bool_decide (bk_start b ∈ map bk_start sel).

(** Everything the output loop guarantees from a block boundary on. *)
Record emitted (opts : BudgetOptions) (sel : list Block) (lines : list CLine) (blocks : list Block)
    (o : list jstr) (k : list CLine) : Prop := {
  em_cost : out_cost o = zsum (map line_cost lines) - zsum (map bk_gain (List.filter (in_sel sel) blocks));
  em_chars : zsum (map line_cost lines) - zsum (map line_cost k) = zsum (map bk_chars (List.filter (in_sel sel) blocks));
  em_anchor : List.filter cl_anchor k = List.filter cl_anchor lines;
  em_sub : k `sublist_of` lines;
  em_ne : lines ≠ [] → o ≠ [] }.

Lemma filter_run opts label p lines :
  List.filter cl_anchor (take (run_length opts label p lines) lines) = [].
Proof.
  pose proof (run_length_run opts label p lines) as H. induction H as [|l r [Ha _] _ IH]; [done|].
  simpl. by rewrite Ha.
Qed.

Lemma emit_spec opts sel g f i lines :
  NoDup (map bk_start sel) →
  (length lines <= f)%nat → (length lines <= g)%nat →
  (∀ b, b ∈ sel → (i <= bk_start b)%nat → b ∈ scan_blocks f opts i lines) →
  emitted opts sel lines (scan_blocks f opts i lines) (emit g sel i lines).1 (emit g sel i lines).2.
Proof.
  intros Hnd. revert g i lines. induction f as [|f IH]; intros g i lines Hf Hg Hsel.
  { destruct lines; [|simpl in Hf; lia]. destruct g; by split. }
  destruct lines as [|l r]; [destruct g; by split|]. destruct g as [|g]; [simpl in Hg; lia|].
  cbn [scan_blocks] in *. destruct (cl_anchor l) eqn:Ha.
  - assert (∀ b, b ∈ sel → ¬ (i <= bk_start b < i + 1)%nat) as Hno.
    { intros b Hb Hi. specialize (Hsel b Hb ltac:(lia)).
      pose proof (scan_starts f opts (S i) r) as Hs. rewrite Forall_forall in Hs. specialize (Hs b Hsel). lia. }
    change (S g) with (1 + g)%nat. rewrite emit_copy by (done || simpl; lia).
    replace (i + 1)%nat with (S i) by lia.
    cbn [take drop map app fst snd]. rewrite take_0, drop_0. cbn [map app].
    destruct (IH g (S i) r) as [Hc Hch Han Hsub _]; [simpl in *; lia..| |].
    { intros b Hb Hi. apply Hsel; [done|lia]. }
    split; [| | |by apply sublist_skip|done].
    + unfold out_cost in *. cbn [map]. rewrite !zsum_cons. unfold line_cost at 1. lia.
    + cbn [map]. rewrite !zsum_cons. lia.
    + cbn [List.filter]. by rewrite Ha, Han.
  - pose proof (run_length_pos opts l r Ha) as Hpos.
    pose proof (run_length_le opts (label_of opts l) (cl_priority l) (l :: r)) as Hle.
    pose proof (filter_run opts (label_of opts l) (cl_priority l) (l :: r)) as Hfil.
    set (n := run_length _ _ _ _) in *. clearbody n. remember (l :: r) as L eqn:HL.
    set (b := block_of opts i l (take n L)) in *.
    assert (length (take n L) = n) as Hlen by (rewrite length_take; lia).
    assert (bk_start b = i ∧ bk_end b = (i + n)%nat ∧ bk_chars b = zsum (map line_cost (take n L))
      ∧ bk_gain b = bk_chars b - zlen (bk_summary b) - 1) as (Hbs & Hbe & Hbc & Hbg)
      by (unfold b, block_of; simpl; rewrite Hlen; auto).
    assert (∀ b', b' ∈ scan_blocks f opts (i + n) (drop n L) → (i + n <= bk_start b')%nat) as Hlater.
    { intros b' Hb'. pose proof (scan_starts f opts (i + n) (drop n L)) as Hs.
      rewrite Forall_forall in Hs. apply Hs. done. }
    assert (zsum (map line_cost L) = zsum (map line_cost (take n L)) + zsum (map line_cost (drop n L))) as Hsum.
    { rewrite <- zsum_app, <- map_app, take_drop. done. }
    assert (List.filter cl_anchor L = List.filter cl_anchor (drop n L)) as Hfl.
    { rewrite <- (take_drop n L) at 1. rewrite List.filter_app, Hfil. done. }
    destruct (decide (0 < bk_gain b ∧ b ∈ sel)) as [[Hgain Hin]|Hnot].
    + assert ((0 <? bk_gain b) = true) as Hg1 by (by apply Z.ltb_lt). rewrite Hg1 in *.
      assert (emit (S g) sel i L = let '(o, k) := emit g sel (i + n) (drop n L) in (bk_summary b :: o, k)) as ->.
      { rewrite HL in *. cbn [emit]. rewrite <- Hbs at 1. rewrite selected_at_some by done.
        rewrite Hbe. by replace (i + n - i)%nat with n by lia. }
      destruct (IH g (i + n)%nat (drop n L)) as [Hc Hch Han Hsub _].
      1, 2: rewrite length_drop; lia.
      { intros b' Hb' Hi. specialize (Hsel b' Hb' ltac:(lia)).
        apply elem_of_app in Hsel as [Hsel|Hsel]; [|done].
        apply list_elem_of_singleton in Hsel as ->. lia. }
      destruct (emit g sel (i + n) (drop n L)) as [o k]. cbn [fst snd app] in *.
      assert (in_sel sel b = true) as Hib.
      { unfold in_sel. apply bool_decide_eq_true. apply list_elem_of_fmap. eauto. }
      assert (∀ l', List.filter (in_sel sel) (b :: l') = b :: List.filter (in_sel sel) l') as Hfb
        by (intros l'; cbn [List.filter]; by rewrite Hib).
      split; rewrite ?Hfb; cbn [map]; rewrite ?zsum_cons; [| |by rewrite Han, Hfl| |done].
      * unfold out_cost in *. cbn [map]. rewrite !zsum_cons. lia.
      * lia.
      * rewrite <- (take_drop n L). by apply sublist_inserts_l.
    + assert (List.filter (in_sel sel) (if 0 <? bk_gain b then [b] else []) = []) as Hnil.
      { case_test; bool_prop; [|done]. cbn [List.filter]. case_test; [|done]. exfalso.
        match goal with H : in_sel sel b = true |- _ =>
          unfold in_sel in H; apply bool_decide_eq_true, list_elem_of_fmap in H as (b' & Hs' & Hb') end.
        specialize (Hsel b' Hb' ltac:(lia)). apply elem_of_app in Hsel as [Hx|Hx].
        - apply list_elem_of_singleton in Hx as ->. naive_solver.
        - specialize (Hlater b' Hx). lia. }
      assert (∀ b', b' ∈ sel → ¬ (i <= bk_start b' < i + n)%nat) as Hno.
      { intros b' Hb' Hi. specialize (Hsel b' Hb' ltac:(lia)).
        apply elem_of_app in Hsel as [Hx|Hx]; [|specialize (Hlater b' Hx); lia].
        case_test_in Hx; [|set_solver]. bool_prop. apply list_elem_of_singleton in Hx as ->. naive_solver. }
      replace (S g) with (n + (S g - n))%nat by (subst L; simpl in *; lia).
      rewrite emit_copy by done. cbn [fst snd].
      destruct (IH (S g - n)%nat (i + n)%nat (drop n L)) as [Hc Hch Han Hsub _].
      1, 2: rewrite length_drop; lia.
      { intros b' Hb' Hi. specialize (Hsel b' Hb' ltac:(lia)).
        apply elem_of_app in Hsel as [Hx|Hx]; [|done].
        case_test_in Hx; [|set_solver]. apply list_elem_of_singleton in Hx as ->. lia. }
      assert (∀ l', List.filter (in_sel sel) ((if 0 <? bk_gain b then [b] else []) ++ l') = List.filter (in_sel sel) l') as Hfb
        by (intros l'; by rewrite List.filter_app, Hnil).
      split; rewrite ?Hfb.
      * unfold out_cost in *. rewrite map_app, zsum_app, Hc, Hsum, map_map. fold line_cost. lia.
      * rewrite map_app, zsum_app. lia.
      * rewrite List.filter_app, Hfil, Han, Hfl. done.
      * pose proof (sublist_app (take n L) (take n L) _ _ (reflexivity _) Hsub) as Hs.
        by rewrite (take_drop n L) in Hs.
      * intros _. destruct (take n L) eqn:Et; [simpl in Hlen; lia|]. done.
Qed.

(** ** The whole pass *)

#[export] Instance block_cmp_order : CmpOrder block_cmp.
Proof.
  split.
  - intros x y. unfold cmp_le, block_cmp. repeat case_test; bool_prop; lia.
  - intros x y z. unfold cmp_le, block_cmp. repeat case_test; bool_prop; lia.
Qed.

Lemma filter_in_sel sel rest :
  NoDup (map bk_start (sel ++ rest)) → List.filter (in_sel sel) (sel ++ rest) = sel.
Proof.
  intros Hnd. rewrite List.filter_app.
  rewrite map_app in Hnd. apply NoDup_app in Hnd as (_ & Hdis & _).
  assert (List.filter (in_sel sel) sel = sel) as ->.
  { assert (∀ l, (∀ b, b ∈ l → in_sel sel b = true) → List.filter (in_sel sel) l = l) as H.
    { induction l as [|b l IH]; intros Hl; [done|]. cbn [List.filter].
      rewrite Hl, IH by set_solver. done. }
    apply H. intros b Hb. apply bool_decide_eq_true, list_elem_of_fmap. eauto. }
  assert (List.filter (in_sel sel) rest = []) as ->; [|apply app_nil_r].
  induction rest as [|b rest IH]; [done|]. cbn [List.filter map] in *.
  replace (in_sel sel b) with false; [apply IH; set_solver|].
  symmetry. apply bool_decide_eq_false. intros Hin. apply (Hdis _ Hin). set_solver.
Qed.

Definition candidate_blocks (opts : BudgetOptions) (lines : list CLine) : list Block :=
  sort_by block_cmp (scan_blocks (length lines) opts 0 lines).

(** Sum over the candidates the output loop meets of a selected prefix. *)
Lemma selected_sum (g : Block → Z) opts lines k :
  zsum (map g (List.filter (in_sel (take k (candidate_blocks opts lines))) (scan_blocks (length lines) opts 0 lines)))
  = zsum (map g (take k (candidate_blocks opts lines))).
Proof.
  set (blocks := scan_blocks (length lines) opts 0 lines). unfold candidate_blocks. fold blocks.
  set (sorted := sort_by block_cmp blocks). assert (sorted ≡ₚ blocks) as Hp by apply sort_by_perm.
  apply zsum_Permutation. apply Permutation_map.
  rewrite <- (filter_perm _ _ _ Hp). rewrite <- (take_drop k sorted) at 2.
  rewrite filter_in_sel; [done|]. rewrite take_drop, Hp. apply scan_starts_nodup.
Qed.

(** The pass, in terms of how many candidates it folded. *)
Lemma applyBudget_prefix lines opts :
  ∃ k output kept,
    let folded := take k (candidate_blocks opts lines) in
    let elided := zsum (map bk_chars folded) in
    applyBudget lines opts =
      {| br_text := join [LF] output ++ [LF] ++ footer opts (ceil4 elided); br_elidedTokens := ceil4 elided;
         br_groupsCollapsed := count_distinct (map bk_label folded); br_keptLines := kept |}
    ∧ emitted opts folded lines (scan_blocks (length lines) opts 0 lines) output kept
    ∧ ((k < length (candidate_blocks opts lines))%nat →
       ceil4 (zsum (map line_cost lines) - zsum (map bk_gain folded) + zlen (footer opts (ceil4 elided))) <= bo_budgetTokens opts)
    ∧ (∀ j, (j < k)%nat → let f := take j (candidate_blocks opts lines) in
       bo_budgetTokens opts < ceil4 (zsum (map line_cost lines) - zsum (map bk_gain f) + zlen (footer opts (ceil4 (zsum (map bk_chars f)))))).
Proof.
  destruct (select_prefix opts (candidate_blocks opts lines) (zsum (map line_cost lines)) 0) as (k & H1 & H2 & H3 & H4).
  unfold applyBudget. fold (candidate_blocks opts lines).
  destruct (select_blocks _ _ _ _) as [sel el]. cbn [fst snd] in *. subst sel el.
  destruct (emit (length lines) (take k (candidate_blocks opts lines)) 0 lines) as [o kept] eqn:Ee.
  exists k, o, kept. cbn zeta. rewrite Z.add_0_l in *. split_and!; [done| |done|done].
  assert (candidate_blocks opts lines ≡ₚ scan_blocks (length lines) opts 0 lines) as Hp by apply sort_by_perm.
  pose proof (emit_spec opts (take k (candidate_blocks opts lines)) (length lines) (length lines) 0 lines) as He.
  rewrite Ee in He. apply He; [|done|done|].
  - eapply (sublist_NoDup _ (map bk_start (candidate_blocks opts lines))); [rewrite Hp; apply scan_starts_nodup|].
    rewrite <- (take_drop k (candidate_blocks opts lines)) at 2. rewrite map_app. by apply sublist_inserts_r.
  - intros b Hb _. rewrite <- Hp. eapply elem_of_take in Hb as (i & Hb & _). by eapply list_elem_of_lookup_2.
Qed.

Lemma out_text_length o f : o ≠ [] → zlen (join [LF] o ++ [LF] ++ f) = out_cost o + zlen f.
Proof. intros H. rewrite !zlen_app, join_length_one by done. unfold out_cost. simpl length. lia. Qed.

Lemma applyBudget_length lines opts k output kept :
  lines ≠ [] → emitted opts (take k (candidate_blocks opts lines)) lines (scan_blocks (length lines) opts 0 lines) output kept →
  ∀ f, zlen (join [LF] output ++ [LF] ++ f) =
  zsum (map line_cost lines) - zsum (map bk_gain (take k (candidate_blocks opts lines))) + zlen f.
Proof.
  intros Hne [Hc _ _ _ Hne'] f. rewrite out_text_length by auto. rewrite Hc, selected_sum. lia.
Qed.

(** Each kept line is a line of the text. *)
Lemma emit_kept_shown sel f i lines :
  map cl_text (emit f sel i lines).2 `sublist_of` (emit f sel i lines).1.
Proof.
  revert i lines. induction f as [|f IH]; intros i lines; [done|]. destruct lines as [|l r]; [done|]. cbn [emit].
  destruct (selected_at sel i) as [b|].
  - specialize (IH (bk_end b) (drop (bk_end b - i) (l :: r))). destruct (emit f sel _ _) as [o k].
    simpl in *. by apply sublist_cons.
  - specialize (IH (S i) r). destruct (emit f sel _ _) as [o k]. simpl in *. by apply sublist_skip.
Qed.

Lemma applyBudget_text lines opts :
  ∃ output, br_text (applyBudget lines opts) =
    join [LF] output ++ [LF] ++ footer opts (br_elidedTokens (applyBudget lines opts))
    ∧ map cl_text (br_keptLines (applyBudget lines opts)) `sublist_of` output.
Proof.
  unfold applyBudget. destruct (select_blocks _ _ _ _) as [sel el].
  pose proof (emit_kept_shown sel (length lines) 0 lines) as H.
  destruct (emit _ _ _ _) as [o k]. exists o. by split.
Qed.

(** ** Properties *)

(** Budget trimming never touches protected lines: the kept lines are a
    subsequence of the input that contains every anchor line in order, and the
    reported elided tokens are exactly the estimate of the lines not kept. *)
Theorem applyBudget_keeps_anchors lines opts :
  List.filter cl_anchor (br_keptLines (applyBudget lines opts)) = List.filter cl_anchor lines
  ∧ br_keptLines (applyBudget lines opts) `sublist_of` lines
  ∧ br_elidedTokens (applyBudget lines opts) =
    ceil4 (zsum (map line_cost lines) - zsum (map line_cost (br_keptLines (applyBudget lines opts)))).
Proof.
  destruct (applyBudget_prefix lines opts) as (k & output & kept & -> & [_ Hch Han Hsub _] & _).
  cbn [br_keptLines br_elidedTokens]. split_and!; [done|done|]. by rewrite Hch, selected_sum.
Qed.

(** The budget is met greedily: candidates are folded in ascending
    (priority, position) order; the returned text either fits the token budget or has
    every candidate folded, and no shorter prefix of the candidates would have
    fitted.  Folding only shortens the body. *)
Theorem applyBudget_greedy lines opts :
  lines ≠ [] →
  ∃ k, let size j := zsum (map line_cost lines) - zsum (map bk_gain (take j (candidate_blocks opts lines)))
                     + zlen (footer opts (ceil4 (zsum (map bk_chars (take j (candidate_blocks opts lines)))))) in
    zlen (br_text (applyBudget lines opts)) = size k
    ∧ (estimateTokens (br_text (applyBudget lines opts)) <= bo_budgetTokens opts
       ∨ take k (candidate_blocks opts lines) = candidate_blocks opts lines)
    ∧ (∀ j, (j < k)%nat → bo_budgetTokens opts < ceil4 (size j))
    ∧ Forall (λ b, 0 < bk_gain b) (candidate_blocks opts lines)
    ∧ StronglySorted (cmp_le block_cmp) (candidate_blocks opts lines).
Proof.
  intros Hne. destruct (applyBudget_prefix lines opts) as (k & output & kept & -> & Hem & Hfit & Hmin).
  exists k. cbn zeta in *. cbn [br_text]. unfold estimateTokens.
  rewrite (applyBudget_length lines opts k output kept Hne Hem).
  split_and!; [done| |done| |apply sort_by_sorted, _].
  - destruct (decide (k < length (candidate_blocks opts lines))%nat); [left; auto|right]. apply take_ge. lia.
  - unfold candidate_blocks. rewrite sort_by_perm. apply scan_gains.
Qed.

Definition demo_line (anchor : bool) (n : nat) : CLine :=
  mkCLine (repeat 120 n) None anchor PRI_normal (Some (js "g")).
Definition demo_budget : BudgetOptions :=
  {| bo_budgetTokens := 60; bo_rawHash := js "sha256:ab"; bo_tool := js "bash" |}.
Definition demo_lines : list CLine := [demo_line true 10; demo_line false 80; demo_line false 90; demo_line true 5].

Lemma applyBudget_greedy_witness :
  ∃ k, zlen (br_text (applyBudget demo_lines demo_budget)) =
    zsum (map line_cost demo_lines) - zsum (map bk_gain (take k (candidate_blocks demo_budget demo_lines)))
    + zlen (footer demo_budget (ceil4 (zsum (map bk_chars (take k (candidate_blocks demo_budget demo_lines)))))).
Proof.
  destruct (applyBudget_greedy demo_lines demo_budget) as (k & H & _); [discriminate|].
  exists k. exact H.
Defined.
