(* ===== verification/StratBasic.v ===== *)
(** * The strategy interface and the fallback, read and diff strategies
    ([packages/rtk-core/src/strategies/{types,fallback,read,diff}.ts])

    [StrategyOk] is what every strategy promises to the pipeline; the other
    strategies have files of their own. *)

From stdpp Require Import base tactics list numbers option sets strings.
From S2P Require Import Prelude JsString JsRegex Json CLine.

Record StrategyInput := { si_text : jstr; si_toolId : jstr }.
Abbreviation Strategy := (StrategyInput → StrategyResult) (only parsing).

Definition ratio (a b : Z) := fdiv (f64 a) (f64 b).
Definition point9 := Eval vm_compute in flit 9 (-1).
Definition count_if {A} (p : A → bool) (l : list A) : Z := zlen (List.filter p l).

(** ** fallback *)

Definition fallbackStrategy (input : StrategyInput) : StrategyResult :=
  mkSR (imap_lines (λ index line, mkCLine line (Some (index + 1)) true PRI_critical (Some (js "output")))
          (splitLines (si_text input)))
       SUnknown [js "unknown: conservative direct passthrough"].

(** ** read *)

Definition READ_TAG_RE : regex := Eval vm_compute in re "^<\/?(?:path|type|content)(?:>|\s)".
Definition READ_LINE_RE : regex := Eval vm_compute in re "^\s*\d+(?::(?: |$)|[\t ])".

Definition readStrategy (input : StrategyInput) : StrategyResult :=
  let lines := splitLines (si_text input) in
  let relevant := List.filter (λ line, negb (is_blank line) && negb (test READ_TAG_RE line)) lines in
  let numbered := count_if (test READ_LINE_RE) relevant in
  if (zlen relevant =? 0) || fltb (ratio numbered (zlen relevant)) point9 then
    let fb := fallbackStrategy input in
    mkSR (sr_lines fb) (sr_strategy fb)
      (js "read: input lacks line-number format; fell back to unknown strategy" :: sr_notes fb)
  else
    mkSR (imap_lines (λ index line, mkCLine line (Some (index + 1)) true PRI_critical (Some (js "read"))) lines)
         SRead [js "read: preserved all " ++ dec numbered ++ js " numbered code lines"].

(** ** diff *)

Definition COMBINED_RE : regex := Eval vm_compute in re "^@@@".
Definition HUNK_RE : regex := Eval vm_compute in re "^@@".
Definition DIFF_LINE_RE : regex := Eval vm_compute in
  re "^(?:diff --git |index |--- |\+\+\+ |@@|[ +\\-]|new file mode |deleted file mode |similarity index |rename (?:from|to) )".

Definition diffStrategy (input : StrategyInput) : StrategyResult :=
  let lines := splitLines (si_text input) in
  if existsb (test COMBINED_RE) lines then fallbackStrategy input
  else if negb (existsb (test HUNK_RE) lines)
          || existsb (λ line, negb (jeqb line []) && negb (test DIFF_LINE_RE line)) lines
  then fallbackStrategy input
  else
    mkSR (imap_lines (λ index line, mkCLine line (Some (index + 1)) (negb (starts_with (js " ") line)) PRI_normal
                                      (Some (js "diff-context"))) lines)
         SDiff [js "diff: all changes and hunk headers protected; only context may be omitted"].

Example diff_ex :
  map cl_anchor (sr_lines (diffStrategy {| si_text := js "@@ -1 +1 @@" ++ [10] ++ js " ctx" ++ [10] ++ js "+new" ++ [10]; si_toolId := js "bash" |}))
  = [true; false; true].
Proof. vm_compute. reflexivity. Qed.
Example read_ex :
  sr_strategy (readStrategy {| si_text := js "<path>" ++ [10] ++ js "1: let x" ++ [10] ++ js "2: y"; si_toolId := js "read" |}) = SRead.
Proof. vm_compute. reflexivity. Qed.

(** ** The interface *)

(** A line that claims a source line shows it; blank lines may be emptied. *)
Definition shows (src : list jstr) (l : CLine) : Prop :=
  match cl_sourceLine l with
  | None => True
  | Some n => 1 <= n ∧ ∃ s, src !! Z.to_nat (n - 1) = Some s
                        ∧ (cl_text l = s ∨ (is_blank s = true ∧ cl_text l = []))
  end.

Definition sources (ls : list CLine) : list Z := omap cl_sourceLine ls.

Class StrategyOk (name : StrategyName) (s : StrategyInput → StrategyResult) : Prop := {
  strategy_shows : ∀ input, Forall (shows (splitLines (si_text input))) (sr_lines (s input));
  strategy_nodup : ∀ input, NoDup (sources (sr_lines (s input)));
  strategy_name : ∀ input, sr_strategy (s input) = name ∨ sr_strategy (s input) = SUnknown }.

(** Strategies that map every source line in order. *)
Section Indexed.
Context (f : Z → jstr → CLine).
Context (f_source : ∀ i l, cl_sourceLine (f i l) = Some (i + 1)).

Lemma imap_lines_cons (x : jstr) l : imap_lines f (x :: l) = f 0 x :: imap (λ i, f (Z.of_nat (S i))) l.
Proof. done. Qed.

Lemma indexed_lookup l (i : nat) : imap_lines f l !! i = f (Z.of_nat i) <$> l !! i.
Proof. unfold imap_lines. by rewrite list_lookup_imap. Qed.

Lemma indexed_sources l : sources (imap_lines f l) = imap (λ i _, Z.of_nat i + 1) l.
Proof.
  unfold imap_lines, sources. generalize 0%nat as k.
  assert (∀ k, omap cl_sourceLine (imap (λ i l, f (Z.of_nat (k + i)) l) l) = imap (λ i _, Z.of_nat (k + i) + 1) l) as H.
  { induction l as [|x l IH]; intros k; [done|]. simpl. rewrite f_source. f_equal.
    etransitivity; [|etransitivity; [apply (IH (S k))|]].
    - f_equal. apply imap_ext. intros i y _. simpl. do 2 f_equal. lia.
    - apply imap_ext. intros i y _. simpl. lia. }
  intros _. apply (H O).
Qed.

Lemma indexed_nodup l : NoDup (sources (imap_lines f l)).
Proof.
  rewrite indexed_sources. apply NoDup_alt. intros i j x Hi Hj.
  rewrite list_lookup_imap in Hi, Hj. destruct (l !! i), (l !! j); simplify_eq/=. lia.
Qed.

Lemma indexed_shows l (f_text : ∀ i l, cl_text (f i l) = l) : Forall (shows l) (imap_lines f l).
Proof.
  apply Forall_lookup. intros i c Hc. rewrite indexed_lookup in Hc.
  destruct (l !! i) as [s|] eqn:E; simplify_eq/=. unfold shows. rewrite f_source.
  split; [lia|]. exists s. replace (Z.to_nat (Z.of_nat i + 1 - 1)) with i by lia. auto.
Qed.
End Indexed.

(** ** Strategies that scan the lines in order, with a state

    [for (const [index, line] of lines.entries()) { ... out.push(...) }] *)

Section Scan.
Context {St : Type} (step : nat → jstr → St → St) (out : St → list CLine).

Definition scan (st : St) (lines : list jstr) : St := foldl (λ st il, step il.1 il.2 st) st (imap pair lines).

Lemma scan_snoc st lines x : scan st (lines ++ [x]) = step (length lines) x (scan st lines).
Proof. unfold scan. rewrite imap_app, foldl_app. simpl. by rewrite Nat.add_0_r. Qed.

(** What one iteration may do to the output: add at most one sourced line, the
    one of its index, and leave sourced lines alone. *)
Record line_step (i : nat) (x : jstr) (o o' : list CLine) : Prop := {
  ls_sources : sources o' = sources o ∨ sources o' = sources o ++ [Z.of_nat i + 1];
  ls_shows : ∀ src, src !! i = Some x → Forall (shows src) o → Forall (shows src) o';
  ls_kept : ∀ c, c ∈ o → is_Some (cl_sourceLine c) → c ∈ o' }.

(** An invariant of the state the iterations may rely on. *)
Context (inv : St → Prop) (inv_step : ∀ i x st, inv st → inv (step i x st)).
Context (step_ok : ∀ i x st, inv st → line_step i x (out st) (out (step i x st))).

Lemma scan_inv st lines : inv st → inv (scan st lines).
Proof. intros H. induction lines as [|x lines IH] using rev_ind; [done|]. rewrite scan_snoc. by apply inv_step. Qed.


Lemma scan_sources_inv st lines :
  inv st → NoDup (sources (out st)) → Forall (λ n, n <= 0) (sources (out st)) →
  NoDup (sources (out (scan st lines))) ∧ Forall (λ n, n <= Z.of_nat (length lines)) (sources (out (scan st lines))).
Proof.
  intros Hi Hd Hb. induction lines as [|x lines [IH1 IH2]] using rev_ind; [done|].
  rewrite scan_snoc, length_app. simpl.
  destruct (ls_sources _ _ _ _ (step_ok (length lines) x (scan st lines) (scan_inv st lines Hi))) as [-> | ->].
  - split; [done|]. eapply Forall_impl; [exact IH2|]. simpl. lia.
  - split.
    + apply NoDup_app. split; [done|]. split; [|apply NoDup_singleton].
      intros n Hn ->%list_elem_of_singleton. eapply Forall_forall in IH2; [|exact Hn]. simpl in IH2. lia.
    + apply Forall_app. split; [eapply Forall_impl; [exact IH2|]; simpl; lia|]. constructor; [lia|constructor].
Qed.

Lemma scan_shows_inv st lines src :
  inv st → lines `prefix_of` src → Forall (shows src) (out st) → Forall (shows src) (out (scan st lines)).
Proof.
  intros Hi Hp H0. induction lines as [|x lines IH] using rev_ind; [done|]. rewrite scan_snoc.
  eapply ls_shows; [by apply step_ok, scan_inv| |].
  - eapply prefix_lookup_Some; [|exact Hp]. by apply list_lookup_middle.
  - apply IH. etransitivity; [|exact Hp]. by apply prefix_app_r.
Qed.

Lemma scan_kept_inv st lines l2 c :
  inv st → c ∈ out (scan st lines) → is_Some (cl_sourceLine c) → c ∈ out (scan st (lines ++ l2)).
Proof.
  intros Hi Hc Hs. induction l2 as [|x l2 IH] using rev_ind; [by rewrite app_nil_r|].
  rewrite app_assoc, scan_snoc. eapply ls_kept; eauto using scan_inv.
Qed.

(** A line emitted for its index stays to the end. *)
Lemma scan_emits_inv st lines i x c :
  inv st → lines !! i = Some x → is_Some (cl_sourceLine c) →
  c ∈ out (step i x (scan st (take i lines))) → c ∈ out (scan st lines).
Proof.
  intros Hv Hi Hs Hc. rewrite <- (take_drop_middle lines i x Hi).
  change (x :: drop (S i) lines) with ([x] ++ drop (S i) lines). rewrite app_assoc.
  apply scan_kept_inv; [done| |done]. rewrite scan_snoc, length_take_le; [done|].
  apply lookup_lt_Some in Hi. lia.
Qed.
End Scan.

(** The same without an invariant. *)
Section ScanFree.
Context {St : Type} (step : nat → jstr → St → St) (out : St → list CLine).
Context (step_ok : ∀ i x st, line_step i x (out st) (out (step i x st))).
Let top (st : St) := True.

Lemma scan_sources st lines :
  NoDup (sources (out st)) → Forall (λ n, n <= 0) (sources (out st)) →
  NoDup (sources (out (scan step st lines))) ∧ Forall (λ n, n <= Z.of_nat (length lines)) (sources (out (scan step st lines))).
Proof. by apply (scan_sources_inv step out top). Qed.

Lemma scan_shows st lines src :
  lines `prefix_of` src → Forall (shows src) (out st) → Forall (shows src) (out (scan step st lines)).
Proof. by apply (scan_shows_inv step out top). Qed.

Lemma scan_emits st lines i x c :
  lines !! i = Some x → is_Some (cl_sourceLine c) →
  c ∈ out (step i x (scan step st (take i lines))) → c ∈ out (scan step st lines).
Proof. by apply (scan_emits_inv step out top). Qed.
End ScanFree.

Lemma shows_line src i x anchor prio g :
  src !! i = Some x → shows src (mkCLine x (Some (Z.of_nat i + 1)) anchor prio g).
Proof. intros H. split; [simpl; lia|]. exists x. simpl. replace (Z.to_nat (Z.of_nat i + 1 - 1)) with i by lia. auto. Qed.

Lemma shows_blank src i x anchor prio g :
  src !! i = Some x → is_blank x = true → shows src (mkCLine [] (Some (Z.of_nat i + 1)) anchor prio g).
Proof. intros H Hb. split; [simpl; lia|]. exists x. simpl. replace (Z.to_nat (Z.of_nat i + 1 - 1)) with i by lia. auto. Qed.

Lemma sources_app l1 l2 : sources (l1 ++ l2) = sources l1 ++ sources l2.
Proof. apply omap_app. Qed.

#[export] Hint Resolve shows_line shows_blank : bluecode.

(** The push of one line, sourced or not. *)
Lemma line_step_push i x o c :
  (cl_sourceLine c = None ∨ cl_sourceLine c = Some (Z.of_nat i + 1)) →
  (∀ src, src !! i = Some x → shows src c) → line_step i x o (o ++ [c]).
Proof.
  intros Hc Hs. split.
  - rewrite sources_app. unfold sources at 2 4. simpl. destruct Hc as [-> | ->]; [left; apply app_nil_r|by right].
  - intros src Hi Ho. apply Forall_app. auto.
  - intros c' Hc' _. apply elem_of_app. by left.
Qed.

Lemma line_step_refl i x o : line_step i x o o.
Proof. split; auto. Qed.

Lemma line_step_after i x o o1 o2 :
  line_step i x o o1 → sources o1 = sources o → line_step i x o1 o2 → line_step i x o o2.
Proof.
  intros [_ A2 A3] E [B1 B2 B3]. split; [by rewrite <- E|auto|auto].
Qed.

Ltac strategy_cases := repeat match goal with |- context [if ?b then _ else _] => destruct b end; cbn [sr_lines sr_strategy].

#[export] Instance fallback_ok : StrategyOk SUnknown fallbackStrategy.
Proof. split; intros input; [by apply indexed_shows|by apply indexed_nodup|by left]. Qed.

#[export] Instance read_ok : StrategyOk SRead readStrategy.
Proof.
  split; intros input; unfold readStrategy; strategy_cases; auto;
    [apply fallback_ok|by apply indexed_shows|apply fallback_ok|by apply indexed_nodup].
Qed.

#[export] Instance diff_ok : StrategyOk SDiff diffStrategy.
Proof.
  split; intros input; unfold diffStrategy; strategy_cases; auto;
    (apply fallback_ok || by apply indexed_shows || by apply indexed_nodup).
Qed.

(** ** Properties *)

(** The diff strategy protects every line that is not context: whatever the
    input, each source line not starting with a space is emitted as an anchor
    carrying its text and its source line, and lines are emitted one for one
    in source order. *)
Theorem diff_protects_changes input (i : nat) line :
  splitLines (si_text input) !! i = Some line →
  ∃ l, sr_lines (diffStrategy input) !! i = Some l ∧ cl_text l = line ∧ cl_sourceLine l = Some (Z.of_nat i + 1)
    ∧ (starts_with (js " ") line = false → cl_anchor l = true).
Proof.
  intros Hl. unfold diffStrategy, fallbackStrategy. strategy_cases; rewrite indexed_lookup, Hl; simpl;
    eexists; (split; [done|]); simpl; split_and!; auto; by intros ->.
Qed.

Definition demo_diff : StrategyInput :=
  {| si_text := js "@@ -1 +1 @@" ++ [10] ++ js " ctx" ++ [10] ++ js "-old"; si_toolId := js "bash" |}.

Lemma diff_protects_changes_witness :
  ∃ l, sr_lines (diffStrategy demo_diff) !! 2%nat = Some l ∧ cl_text l = js "-old" ∧ cl_anchor l = true.
Proof.
  destruct (diff_protects_changes demo_diff 2 (js "-old")) as (l & H1 & H2 & _ & H4); [reflexivity|].
  exists l. split; [exact H1|]. split; [exact H2|]. apply H4. reflexivity.
Defined.
