(* ===== verification/Classify.v ===== *)
(** * Strategy classification ([packages/rtk-core/src/classify.ts])

    An explicit tool id decides alone; everything else is scored by features,
    in double arithmetic, and needs a score of 0.6. *)

From stdpp Require Import base tactics list numbers option sets strings.
From Stdlib Require Import SpecFloat.
From S2P Require Import Prelude JsString JsRegex Json CLine StratBasic OMap.

Record Classification := mkClass {
  c_strategy : StrategyName;
  c_confidence : spec_float;
  c_signals : list jstr }.

Definition strategy_text (s : StrategyName) : jstr :=
  match s with
  | SLs => js "ls" | SGrep => js "grep" | SRead => js "read"
  | SDiff => js "diff" | STest => js "test" | SUnknown => js "unknown"
  end.

Definition TOOL_STRATEGY : list (jstr * StrategyName) :=
  [(js "read", SRead); (js "grep", SGrep); (js "glob", SLs); (js "ls", SLs)].

Definition CONFIDENCE_THRESHOLD : spec_float := Eval vm_compute in flit 6 (-1).
Definition fone : spec_float := Eval vm_compute in f64 1.
Definition fzero : spec_float := S754_zero false.

Record FeatureScore := mkScore { fs_name : StrategyName; fs_score : spec_float; fs_signal : jstr }.

Definition clamp01 (n : spec_float) : spec_float := fmax fzero (fmin fone n).

(** ** Grep lines *)

Definition SPACE_RE : regex := Eval vm_compute in re "\s".
Definition URL_RE : regex := Eval vm_compute in re_i "^[a-z][a-z0-9+.-]*:\/\/".
Definition SLASH_RE : regex := Eval vm_compute in re "[\\/]".
Definition EXT_RE : regex := Eval vm_compute in re "\.[A-Za-z0-9]{1,8}$".

Definition pathLike (p : jstr) : bool :=
  if jeqb p [] || test SPACE_RE p then false
  else if test URL_RE p then false
  else test SLASH_RE p || test EXT_RE p.

(** [Number(digits)]: the integer the double holds, [None] for [Infinity]. *)
Definition lineno : Type := option Z.
Definition digits_value (ds : jstr) : Z := foldl (λ acc c, acc * 10 + (c - 48)) 0 ds.
Definition Number_digits (ds : jstr) : lineno :=
  match f64_of_dec false (digits_value ds) 0 with
  | S754_zero _ => Some 0
  | S754_finite _ m e => Some (if 0 <=? e then Zpos m * 2 ^ e else Zpos m `div` 2 ^ (- e))
  | _ => None
  end.
Definition lineno_text (n : lineno) : jstr :=
  match n with
  | None => js "Infinity"
  | Some z => if is_safe_integer z then dec z else frac_to_string (f64 z)
  end.

Definition GREP_LINE_RE : regex := Eval vm_compute in re "^([^\s:][^\s]*?)[:-](\d+)(?:[:-](.*))?$".

Record GrepLine := mkGL { gl_path : jstr; gl_lineNo : lineno; gl_text : jstr }.

Definition parseGrepLine (line : jstr) : option GrepLine :=
  match exec GREP_LINE_RE line with
  | None => None
  | Some m =>
    let path := default [] (group_of m 1) in
    if negb (pathLike path) then None
    else Some (mkGL path (Number_digits (default [] (group_of m 2))) (default [] (group_of m 3)))
  end.

(** ** Feature scores *)

Definition LS_PERM_RE : regex := Eval vm_compute in re "^[dcb\-l][rwxStTs\-]{9}[@.+]*\s".
Definition LS_PATH_LINE_RE : regex := Eval vm_compute in
  re "^(?:\.{1,2}\/|~\/)?[\w.@+-]+(?:\/[\w.@+-]+)+\/?$|^[\w.@+-]+\/$|^\.{1,2}\/[\w.@+-]+$".
Definition LS_TOTAL_RE : regex := Eval vm_compute in re "^total \d+$".
Definition TEST_CHECK_RE : regex := Eval vm_compute in re "[✓✔]".
Definition TEST_FAIL_MARK_RE : regex := Eval vm_compute in re "[✗✖●]".
Definition TEST_PF_RE : regex := Eval vm_compute in re "^(?:PASS|FAILED?)\b|^--- (?:FAIL|PASS):|^ok\b".
Definition TEST_AT_RE : regex := Eval vm_compute in re "^\s+at\s".
Definition TEST_SUMMARY_RE : regex := Eval vm_compute in re "(?:^|\s)(?:Tests?|Test Suites?):".
Definition READ_NUM_RE : regex := Eval vm_compute in re "^\s*\d+(?::(?: |$)|[\t ])".
Definition HUNK2_RE : regex := Eval vm_compute in re "^@@ .+ @@".
Definition HUNK3_RE : regex := Eval vm_compute in re "^@@@ .+ @@@".
Definition RUNNER_CASE_RE : regex := Eval vm_compute in re "^--- (?:FAIL|PASS):".

(** The branch a line takes in the diff counter. *)
Definition is_diffGit (line : jstr) : bool := starts_with (js "diff --git ") line.
Definition is_hunk (line : jstr) : bool := negb (is_diffGit line) && (test HUNK2_RE line || test HUNK3_RE line).
Definition is_pm (line : jstr) : bool :=
  negb (is_diffGit line) && negb (test HUNK2_RE line || test HUNK3_RE line) && negb (test RUNNER_CASE_RE line)
  && (starts_with (js "+++ ") line || starts_with (js "--- ") line).

Definition diff_score (lines : list jstr) : FeatureScore :=
  let total := zlen lines in
  let diffGit := count_if is_diffGit lines in
  let hunk := count_if is_hunk lines in
  let pm := count_if is_pm lines in
  let weight := fadd (fadd (f64 (diffGit * 2)) (fmul (f64 hunk) (flit 15 (-1)))) (fmul (f64 pm) (flit 5 (-1))) in
  mkScore SDiff (clamp01 (fmul (fdiv weight (f64 total)) (f64 4)))
    (js "diff: " ++ dec diffGit ++ js " 'diff --git', " ++ dec hunk ++ js " hunk header(s), " ++ dec pm
       ++ js " +++/--- line(s) of " ++ dec total).

Definition grep_score (lines : list jstr) : FeatureScore :=
  let total := zlen lines in
  let matched := count_if (λ l, bool_decide (is_Some (parseGrepLine l))) lines in
  mkScore SGrep (ratio matched total)
    (js "grep: " ++ dec matched ++ js "/" ++ dec total ++ js " line(s) match path:line(:text)").

Definition ls_score (lines : list jstr) : FeatureScore :=
  let total := zlen lines in
  let perm := count_if (test LS_PERM_RE) lines in
  let pathish := count_if (λ l, negb (test LS_PERM_RE l) && test LS_PATH_LINE_RE l) lines in
  let totals := count_if (test LS_TOTAL_RE) lines in
  mkScore SLs
    (clamp01 (fadd (fadd (fmul (ratio perm total) (flit 15 (-1))) (fmul (f64 totals) (flit 2 (-1))))
                   (fmul (ratio pathish total) (flit 8 (-1)))))
    (js "ls: " ++ dec perm ++ js " permission-style, " ++ dec pathish ++ js " path-like, " ++ dec totals
       ++ js " 'total' of " ++ dec total).

Definition bool_text (b : bool) : jstr := if b then js "true" else js "false".

Definition test_score (lines : list jstr) : FeatureScore :=
  let total := zlen lines in
  let check := count_if (test TEST_CHECK_RE) lines in
  let failMark := count_if (test TEST_FAIL_MARK_RE) lines in
  let pf := count_if (test TEST_PF_RE) lines in
  let runnerCaseHeader := existsb (test RUNNER_CASE_RE) lines in
  let frames := count_if (test TEST_AT_RE) lines in
  let summary := existsb (test TEST_SUMMARY_RE) lines in
  let s1 := fmul (ratio (check + failMark) total) (f64 2) in
  let s2 := fadd s1 (fmin (fmul (ratio pf total) (f64 2)) (flit 5 (-1))) in
  let s3 := fadd s2 (if runnerCaseHeader then flit 35 (-2) else fzero) in
  let s4 := fadd s3 (fmin (fmul (ratio frames total) (f64 2)) (flit 3 (-1))) in
  let s5 := fadd s4 (if summary then flit 4 (-1) else fzero) in
  mkScore STest (clamp01 s5)
    (js "test: " ++ dec check ++ js " pass-mark(s), " ++ dec failMark ++ js " fail-mark(s), " ++ dec pf
       ++ js " PASS/FAIL, " ++ dec frames ++ js " stack frame(s), summary=" ++ bool_text summary).

Definition read_score (lines : list jstr) : FeatureScore :=
  let total := zlen lines in
  let numbered := count_if (test READ_NUM_RE) lines in
  mkScore SRead (ratio numbered total)
    (js "read: " ++ dec numbered ++ js "/" ++ dec total ++ js " line(s) start with a line number").

Definition feature_scores (lines : list jstr) : list FeatureScore :=
  if 0 <? zlen lines then [diff_score lines; grep_score lines; ls_score lines; test_score lines; read_score lines]
  else [].

(** The first score no later one exceeds. *)
Definition best_of (scores : list FeatureScore) : option FeatureScore :=
  foldl (λ best s, match best with
                   | None => Some s
                   | Some b => if fltb (fs_score b) (fs_score s) then Some s else best
                   end) None scores.

Definition classifyByFeatures (tool output : jstr) : Classification :=
  let lines := List.filter (λ l, negb (is_blank l)) (split_on LF output) in
  let best := best_of (feature_scores lines) in
  let below top conf := mkClass SUnknown conf
    [js "bash/features(" ++ tool ++ js "): below 0.6 threshold (" ++ top ++ js ")"] in
  match best with
  | Some b => if fleb CONFIDENCE_THRESHOLD (fs_score b) then mkClass (fs_name b) (fs_score b) [fs_signal b]
              else below (js "top=" ++ fs_signal b) (fs_score b)
  | None => below (js "no non-blank lines") fzero
  end.

Definition classify (tool output : jstr) : Classification :=
  match get tool TOOL_STRATEGY with
  | Some mapped => mkClass mapped fone [js "tool_id:" ++ tool ++ js " -> " ++ strategy_text mapped]
  | None => classifyByFeatures tool output
  end.

Example classify_ex :
  map (λ s, c_strategy (classify (js "bash") s))
    [join [LF] [js "a.ts:1:x"; js "b.ts:2:y"];
     join [LF] [js "diff --git a b"; js "@@ -1 +1 @@"; js "-x"; js "+y"];
     js "total 12"; js "hello"; []]
  = [SGrep; SDiff; SUnknown; SUnknown; SUnknown].
Proof. vm_compute. reflexivity. Qed.
Example parseGrepLine_ex :
  map parseGrepLine [js "src/a.ts:12:let x"; js "http://x:80"; js "a b.ts:1"; js "src/a-1-2.ts"]
  = [Some (mkGL (js "src/a.ts") (Some 12) (js "let x")); None; None;
     Some (mkGL (js "src/a") (Some 1) (js "2.ts"))].
Proof. vm_compute. reflexivity. Qed.

(** ** The order of doubles *)

(** Finite doubles compare by sign, exponent and mantissa. *)
Lemma fltb_ge_trans a b c : fltb a b = true → fltb a c = false → fltb b c = false.
Proof.
  unfold fltb, SFltb. destruct a as [[]|[]| |[] ma ea], b as [[]|[]| |[] mb eb], c as [[]|[]| |[] mc ec]; simpl; try done;
    repeat match goal with |- context [Z.compare ?x ?y] => destruct (Z.compare_spec x y) end;
    subst; simpl; try done; try lia;
    change (Pos.compare_cont Eq) with Pos.compare;
    destruct (Pos.compare_spec ma mb), (Pos.compare_spec ma mc), (Pos.compare_spec mb mc); simpl; try done; lia.
Qed.

Lemma fltb_irrefl a : fltb a a = false.
Proof.
  unfold fltb, SFltb. destruct a as [[]|[]| |[] m e]; simpl; try done; rewrite Z.compare_refl; simpl;
    change (Pos.compare_cont Eq m m) with (Pos.compare m m); by rewrite Pos.compare_refl.
Qed.

(** ** The winner *)

Definition best_step (best : option FeatureScore) (s : FeatureScore) : option FeatureScore :=
  match best with
  | None => Some s
  | Some b => if fltb (fs_score b) (fs_score s) then Some s else best
  end.

Lemma fltb_nan_l c : fltb S754_nan c = false.
Proof. by destruct c. Qed.

Lemma fltb_neg_trans a b c : b ≠ S754_nan → fltb a c = true → fltb a b = false → fltb b c = true.
Proof.
  unfold fltb, SFltb. destruct a as [[]|[]| |[] ma ea], b as [[]|[]| |[] mb eb], c as [[]|[]| |[] mc ec]; simpl; try done; intros _;
    repeat match goal with |- context [Z.compare ?x ?y] => destruct (Z.compare_spec x y) end;
    subst; simpl; try done; try lia;
    change (Pos.compare_cont Eq) with Pos.compare;
    destruct (Pos.compare_spec ma mb), (Pos.compare_spec ma mc), (Pos.compare_spec mb mc); simpl; try done; lia.
Qed.

(** A NaN would stay best; a winner that is a number has beaten every score. *)
Lemma best_step_nan l b0 b :
  fs_score b0 = S754_nan → foldl best_step (Some b0) l = Some b → fs_score b = S754_nan.
Proof.
  intros Hn. induction l as [|s l IH]; simpl; [by intros [= <-]|]. by rewrite Hn, fltb_nan_l.
Qed.

Lemma best_step_max l b0 b :
  fs_score b ≠ S754_nan → foldl best_step (Some b0) l = Some b →
  fltb (fs_score b) (fs_score b0) = false ∧ b ∈ b0 :: l ∧ Forall (λ s, fltb (fs_score b) (fs_score s) = false) l.
Proof.
  intros Hb. revert b0. induction l as [|s l IH]; intros b0; simpl.
  { intros [= ->]. split; [apply fltb_irrefl|]. split; [by left|constructor]. }
  intros Hf. assert (fs_score b0 ≠ S754_nan) as Hn.
  { intros Hn. apply Hb. by eapply (best_step_nan (s :: l)). }
  destruct (fltb (fs_score b0) (fs_score s)) eqn:E; apply IH in Hf as (H1 & H2 & H3).
  - split; [|split; [set_solver|by constructor]].
    destruct (fltb (fs_score b) (fs_score b0)) eqn:E2; [|done].
    pose proof (fltb_ge_trans _ _ _ E2 H1). congruence.
  - split; [done|]. split; [set_solver|]. constructor; [|done].
    destruct (fltb (fs_score b) (fs_score s)) eqn:E2; [|done].
    pose proof (fltb_neg_trans _ _ _ Hn E2 H1). congruence.
Qed.

Lemma best_of_max l b :
  fs_score b ≠ S754_nan → best_of l = Some b → b ∈ l ∧ Forall (λ s, fltb (fs_score b) (fs_score s) = false) l.
Proof.
  intros Hb. destruct l as [|s l]; [done|]. intros (H1 & H2 & H3)%(best_step_max l s b); [|done]. split; [done|]. by constructor.
Qed.

(** ** Properties *)

(** A strategy is never guessed below the threshold.  When [classify]
    does not answer [unknown], either the tool id is an explicit mapping and
    the confidence is 1, or the answer is one of the five feature scores of
    the non-blank lines, no score exceeds it, it is at least 0.6, and it is
    the confidence reported. *)
Theorem classify_sound tool output :
  c_strategy (classify tool output) ≠ SUnknown →
  let lines := List.filter (λ l, negb (is_blank l)) (split_on LF output) in
  (get tool TOOL_STRATEGY = Some (c_strategy (classify tool output)) ∧ c_confidence (classify tool output) = fone)
  ∨ (get tool TOOL_STRATEGY = None
     ∧ ∃ s, s ∈ feature_scores lines ∧ c_strategy (classify tool output) = fs_name s
            ∧ c_confidence (classify tool output) = fs_score s
            ∧ fleb CONFIDENCE_THRESHOLD (fs_score s) = true
            ∧ Forall (λ s', fltb (fs_score s) (fs_score s') = false) (feature_scores lines)).
Proof.
  intros Hu lines. revert Hu. unfold classify.
  destruct (get tool TOOL_STRATEGY) as [st|]; intros Hu; [by left|]. right. split; [done|].
  unfold classifyByFeatures in *. fold lines in Hu |- *.
  destruct (best_of (feature_scores lines)) as [b|] eqn:Eb; [|done].
  destruct (fleb CONFIDENCE_THRESHOLD (fs_score b)) eqn:Et; [|done].
  apply best_of_max in Eb as [? ?]; [exists b; auto|]. intros En. by rewrite En in Et.
Qed.

Lemma classify_sound_witness :
  get (js "read") TOOL_STRATEGY = Some SRead ∧ c_confidence (classify (js "read") []) = fone.
Proof.
  destruct (classify_sound (js "read") []) as [[H1 H2]|[H _]]; [by vm_compute| |].
  - split; [exact H1|exact H2].
  - exfalso. revert H. by vm_compute.
Defined.
