(* ===== verification/StratTest.v ===== *)
(** * The test-runner strategy ([packages/rtk-core/src/strategies/test.ts])

    Pass 1 marks the failure regions, pass 2 emits the lines in order and
    folds runs of passed cases. *)

From stdpp Require Import base tactics list numbers option sets strings.
From S2P Require Import Prelude JsString JsRegex Json CLine StratBasic.

(** ** Recognisers *)

Definition SEED_RE : regex := Eval vm_compute in
  re "^\s*FAIL\b|^\d+\)\s|[✗✖●]|^--- FAIL:|(?:AssertionError|EvalError|RangeError|ReferenceError|SyntaxError|TypeError|URIError)\b|^\s*[\w$.]*(?:Error|Exception):\s|^expect\(.*\)|^Expected:? |^Received:? |^\s*(?:Expected|Received):?\s".
Definition FAIL_MARK_RE : regex := Eval vm_compute in re "[✗✖●]".
Definition RUNNER_PASS_RE : regex := Eval vm_compute in re "^(?:--- PASS:|PASS\s)".
Definition INDENT_RE : regex := Eval vm_compute in re "^[ \t]".
Definition SIGN_RE : regex := Eval vm_compute in re "^[+\-]".
Definition EXPECTED_RE : regex := Eval vm_compute in re "^Expected|^Received".

Definition isContinuation (line : jstr) : bool :=
  let trimmed := trim line in
  if jeqb trimmed [] then false
  else if test FAIL_MARK_RE line then true
  else if starts_with (js "✓") trimmed || starts_with (js "✔") trimmed || test RUNNER_PASS_RE line then false
  else if test INDENT_RE line then true
  else if test SIGN_RE line then true
  else test EXPECTED_RE trimmed.

Definition PASS_RE : regex := Eval vm_compute in re "^\s*[✓✔]|^--- PASS:".
Definition SUITE_HEADER_RE : regex := Eval vm_compute in re "^(?:PASS|FAILED?)\s+(\S+)".
Definition SUITE_FILE_RE : regex := Eval vm_compute in re "^(\S+\.(?:test|spec)\.[cm]?[jt]sx?):".
Definition SUMMARY_RE : regex := Eval vm_compute in
  re "^(?:Tests?:|Test Suites?:|Snapshots?:|Time:|Ran all test suites\.)".

(** ** Pass 1: failure regions *)

Record BlockState := mkBS { inBlock : list bool; blockCount : Z; active : bool }.

(** [for (let back = Math.max(0, i - 2); back < i; back++) ...] *)
Definition mark_back (lines : list jstr) (i : nat) (b : list bool) : list bool :=
  foldl (λ b back, if isContinuation (default [] (lines !! back)) then <[back := true]> b else b) b
    (seq (i - 2) (i - (i - 2))).

Definition block_step (lines : list jstr) (st : BlockState) (i : nat) : BlockState :=
  let line := default [] (lines !! i) in
  let seed := test SEED_RE line in
  let st1 :=
    if seed then
      mkBS (mark_back lines i (inBlock st)) (if active st then blockCount st else blockCount st + 1) true
    else st in
  let active2 := active st1 && negb (test RUNNER_PASS_RE line) in
  mkBS (if active2 then <[i := true]> (inBlock st1) else inBlock st1) (blockCount st1) active2.

Definition find_blocks (lines : list jstr) : BlockState :=
  foldl (block_step lines) (mkBS (replicate (length lines) false) 0 false) (seq 0 (length lines)).

(** ** Pass 2: emission *)

Record EmitState := mkES {
  out : list CLine;
  suite : jstr;
  failLinesKept : Z;
  passRunsFolded : Z;
  passCasesFolded : Z;
  pendingPass : Z }.

(** [foldRun(pendingPass); pendingPass = 0] *)
Definition foldRun (st : EmitState) : EmitState :=
  let count := pendingPass st in
  if count <=? 0 then mkES (out st) (suite st) (failLinesKept st) (passRunsFolded st) (passCasesFolded st) 0
  else mkES (out st ++ [mkCLine (js "✓ " ++ dec count ++ js " passed (elided)") None false PRI_low (Some (suite st))])
         (suite st) (failLinesKept st) (passRunsFolded st + 1) (passCasesFolded st + count) 0.

Definition es_push (c : CLine) (st : EmitState) : EmitState :=
  mkES (out st ++ [c]) (suite st) (failLinesKept st) (passRunsFolded st) (passCasesFolded st) (pendingPass st).
Definition es_suite (s : jstr) (st : EmitState) : EmitState :=
  mkES (out st) s (failLinesKept st) (passRunsFolded st) (passCasesFolded st) (pendingPass st).
Definition es_fail (st : EmitState) : EmitState :=
  mkES (out st) (suite st) (failLinesKept st + 1) (passRunsFolded st) (passCasesFolded st) (pendingPass st).
Definition es_pass (st : EmitState) : EmitState :=
  mkES (out st) (suite st) (failLinesKept st) (passRunsFolded st) (passCasesFolded st) (pendingPass st + 1).

Definition emit_step (blocks : list bool) (i : nat) (line : jstr) (st : EmitState) : EmitState :=
  let n := Some (Z.of_nat i + 1) in
  if default false (blocks !! i) then
    let st := foldRun st in
    es_fail (es_push (mkCLine line n true PRI_critical (Some (suite st))) st)
  else match exec SUITE_HEADER_RE line with
  | Some m =>
    let st := foldRun st in
    let s := default (suite st) (group_of m 1) in
    es_push (mkCLine line n true PRI_high (Some s)) (es_suite s st)
  | None =>
    let st := match exec SUITE_FILE_RE line with
              | Some m => let st := foldRun st in es_suite (default (suite st) (group_of m 1)) st
              | None => st
              end in
    if test SUMMARY_RE line then
      es_push (mkCLine line n true PRI_critical (Some (js "summary"))) (foldRun st)
    else if test PASS_RE line then es_pass st
    else if is_blank line then
      es_push (mkCLine [] n false PRI_low (Some (js "other"))) (foldRun st)
    else es_push (mkCLine line n true PRI_normal (Some (js "other"))) (foldRun st)
  end.

Definition emit_init : EmitState := mkES [] (js "tests") 0 0 0 0.

Definition emit_lines (blocks : list bool) (lines : list jstr) : EmitState :=
  foldRun (scan (emit_step blocks) emit_init lines).

Definition testStrategy (input : StrategyInput) : StrategyResult :=
  let lines := splitLines (si_text input) in
  let blocks := find_blocks lines in
  let st := emit_lines (inBlock blocks) lines in
  mkSR (out st) STest
    [js "test: kept " ++ dec (failLinesKept st) ++ js " failure line(s) across " ++ dec (blockCount blocks)
       ++ js " block(s); folded " ++ dec (passCasesFolded st) ++ js " passed case(s) into "
       ++ dec (passRunsFolded st) ++ js " run marker(s)"].

Definition demo_test : StrategyInput :=
  {| si_text := join [LF] [js "src/a.test.ts:"; js "  ✓ one"; js "  ✓ two"; js ""; js "  ctx"; js "FAIL b";
                           js "  ✓ data"; js "PASS src/c.test.ts"; js "✓ three"; js "Tests: 3"];
     si_toolId := js "bash" |}.
Example test_ex :
  map (λ c, (cl_sourceLine c, cl_anchor c)) (sr_lines (testStrategy demo_test))
  = [(Some 1, true); (None, false); (Some 4, false); (Some 5, true); (Some 6, true); (Some 7, true);
     (Some 8, true); (None, false); (Some 10, true)].
Proof. vm_compute. reflexivity. Qed.

(** ** The failure regions, declaratively *)

Abbreviation line_at lines i := (default [] (lines !! i)).

(** A seed at or before the line with no explicit runner pass header since. *)
Definition in_region (lines : list jstr) (i : nat) : Prop :=
  ∃ j, (j <= i)%nat ∧ test SEED_RE (line_at lines j) = true
       ∧ ∀ k, (j <= k <= i)%nat → test RUNNER_PASS_RE (line_at lines k) = false.

(** A continuation line at most two lines above a seed. *)
Definition leads_in (lines : list jstr) (i : nat) : Prop :=
  isContinuation (line_at lines i) = true
  ∧ ∃ j, (i < j <= i + 2)%nat ∧ (j < length lines)%nat ∧ test SEED_RE (line_at lines j) = true.

Section Marks.
Context (lines : list jstr).

Lemma mark_fold_lookup ks b k :
  (foldl (λ b back, if isContinuation (line_at lines back) then <[back := true]> b else b) b ks) !! k = Some true ↔
  b !! k = Some true ∨ ((k < length b)%nat ∧ k ∈ ks ∧ isContinuation (line_at lines k) = true).
Proof.
  revert b. induction ks as [|y ks IH]; intros b; simpl.
  { split; [auto|]. intros [H|(_ & H & _)]; [done|set_solver]. }
  rewrite IH. destruct (isContinuation (line_at lines y)) eqn:E; [rewrite length_insert|set_solver by congruence].
  destruct (decide (k = y)) as [->|Hk].
  - destruct (decide (y < length b)%nat) as [Hl|Hl].
    + rewrite list_lookup_insert_eq by done. set_solver.
    + rewrite list_insert_ge by lia. split; [|intros [H|(? & _)]; [auto|lia]]. intros [H|(? & _)]; [auto|lia].
  - rewrite list_lookup_insert_ne by done. set_solver.
Qed.

Lemma mark_fold_length ks b :
  length (foldl (λ b back, if isContinuation (line_at lines back) then <[back := true]> b else b) b ks) = length b.
Proof. revert b. induction ks as [|y ks IH]; intros b; simpl; [done|]. rewrite IH. case_test; [apply length_insert|done]. Qed.

Lemma mark_back_lookup i b k :
  mark_back lines i b !! k = Some true ↔
  b !! k = Some true ∨ ((k < length b)%nat ∧ (i <= k + 2 ∧ k < i)%nat ∧ isContinuation (line_at lines k) = true).
Proof.
  unfold mark_back. rewrite mark_fold_lookup, elem_of_seq.
  split; (intros [?|(?&?&?)]; [auto|right; split_and!; try done; lia]).
Qed.

Definition blocks_at (n : nat) : BlockState :=
  foldl (block_step lines) (mkBS (replicate (length lines) false) 0 false) (seq 0 n).

Lemma blocks_at_S n : blocks_at (S n) = block_step lines (blocks_at n) n.
Proof. unfold blocks_at. by rewrite seq_S, foldl_snoc. Qed.

Lemma blocks_length n : length (inBlock (blocks_at n)) = length lines.
Proof.
  induction n as [|n IH]; [apply length_replicate|]. rewrite blocks_at_S. unfold block_step.
  cbn [inBlock]. repeat case_test; cbn [inBlock]; rewrite ?length_insert; unfold mark_back; rewrite ?mark_fold_length; done.
Qed.

Lemma blocks_active n :
  active (blocks_at n) = true ↔
  ∃ j, (j < n)%nat ∧ test SEED_RE (line_at lines j) = true
       ∧ ∀ k, (j <= k < n)%nat → test RUNNER_PASS_RE (line_at lines k) = false.
Proof.
  induction n as [|n IH].
  { split; [done|]. intros (j & Hj & _). lia. }
  rewrite blocks_at_S. unfold block_step. cbn [active].
  rewrite andb_true_iff, negb_true_iff.
  destruct (test SEED_RE (line_at lines n)) eqn:Es; cbn [active].
  - split.
    + intros [_ Hp]. exists n. split_and!; [lia|done|]. intros k Hk. by replace k with n by lia.
    + intros (j & Hj & _ & Hk). split; [done|]. apply Hk. lia.
  - rewrite IH. split.
    + intros [(j & Hj & Hs & Hk) Hp]. exists j. split_and!; [lia|done|].
      intros k Hk'. destruct (decide (k = n)) as [->|]; [done|]. apply Hk. lia.
    + intros (j & Hj & Hs & Hk). assert (j ≠ n) by congruence. split; [|apply Hk; lia].
      exists j. split_and!; [lia|done|]. intros k ?. apply Hk. lia.
Qed.

Lemma blocks_spec n i :
  (n <= length lines)%nat → (i < length lines)%nat →
  inBlock (blocks_at n) !! i = Some true ↔
  ((i < n)%nat ∧ in_region lines i) ∨
  (isContinuation (line_at lines i) = true ∧ ∃ j, (i < j <= i + 2)%nat ∧ (j < n)%nat ∧ test SEED_RE (line_at lines j) = true).
Proof.
  intros Hn Hi. induction n as [|n IH].
  { unfold blocks_at. simpl. rewrite lookup_replicate. naive_solver lia. }
  specialize (IH ltac:(lia)).
  assert (∀ b, length b = length lines →
    (if active (blocks_at (S n)) then <[n := true]> b else b) !! i = Some true ↔
    b !! i = Some true ∨ (i = n ∧ in_region lines n)) as Hins.
  { intros b Hb. assert (active (blocks_at (S n)) = true ↔ in_region lines n) as Ha.
    { rewrite blocks_active. unfold in_region. split; intros (j & Hj & Hs & Hk); exists j; (split_and!; [lia|done|]);
        intros k ?; apply Hk; lia. }
    destruct (active (blocks_at (S n))).
    - destruct (decide (i = n)) as [->|]; [|rewrite list_lookup_insert_ne by done; naive_solver].
      split; intros _.
      + right. split; [done|]. by apply Ha.
      + apply list_lookup_insert_eq. lia.
    - split; [auto|]. intros [?|[_ ?%Ha]]; done. }
  pose proof (blocks_at_S n) as HS. unfold block_step in HS.
  pose proof (blocks_length n) as Hlen.
  assert (inBlock (blocks_at (S n)) !! i = Some true ↔
    ((inBlock (blocks_at n) !! i = Some true ∨
      (test SEED_RE (line_at lines n) = true ∧ (n <= i + 2 ∧ i < n)%nat ∧ isContinuation (line_at lines i) = true))
     ∨ (i = n ∧ in_region lines n))) as Hstep.
  { destruct (test SEED_RE (line_at lines n)) eqn:Es; cbn [inBlock active] in HS.
    - specialize (Hins (mark_back lines n (inBlock (blocks_at n)))).
      pose proof (mark_back_lookup n (inBlock (blocks_at n)) i) as Hm.
      assert (length (mark_back lines n (inBlock (blocks_at n))) = length lines) as Hl
        by (unfold mark_back; by rewrite mark_fold_length).
      rewrite HS in Hins at 1. cbn [active] in Hins. rewrite HS. cbn [inBlock].
      rewrite (Hins Hl), Hm, Hlen. tauto.
    - specialize (Hins (inBlock (blocks_at n))). rewrite HS in Hins at 1. cbn [active] in Hins. rewrite HS.
      cbn [inBlock]. rewrite (Hins Hlen). intuition congruence. }
  rewrite Hstep, IH. clear -Hi Hn. split.
  - intros [[[[? ?]|(? & j & ? & ? & ?)]|(? & [? ?] & ?)]|[-> ?]]; [left|right|right|left]; (split; [lia || done|]); try done;
      [exists j|exists n]; split_and!; try done; lia.
  - intros [[? ?]|(? & j & ? & ? & ?)].
    + destruct (decide (i = n)) as [->|]; [by right|]. left; left; left. split; [lia|done].
    + destruct (decide (j = n)) as [->|]; left; [right|left; right]; split_and!; try done; [lia|lia|].
      exists j. split_and!; try done; lia.
Qed.
End Marks.

Lemma find_blocks_spec lines i :
  (i < length lines)%nat →
  default false (inBlock (find_blocks lines) !! i) = true ↔ in_region lines i ∨ leads_in lines i.
Proof.
  intros Hi. change (find_blocks lines) with (blocks_at lines (length lines)).
  pose proof (blocks_spec lines (length lines) i (le_n _) Hi) as H. unfold leads_in.
  transitivity (inBlock (blocks_at lines (length lines)) !! i = Some true).
  - destruct (_ !! i) as [[]|]; simpl; naive_solver.
  - rewrite H. split; [intros [[_ ?]|?]; auto|intros [?|?]; auto].
Qed.

(** ** Emission *)

Lemma foldRun_step i x st : line_step i x (out st) (out (foldRun st)).
Proof.
  unfold foldRun. case_test; [apply line_step_refl|].
  apply line_step_push; [by left|]. intros src _. exact I.
Qed.

Lemma foldRun_sources st : sources (out (foldRun st)) = sources (out st).
Proof. unfold foldRun. case_test; [done|]. cbn [out]. rewrite sources_app. apply app_nil_r. Qed.

Lemma push_after_fold i x st c :
  cl_sourceLine c = Some (Z.of_nat i + 1) → (∀ src, src !! i = Some x → shows src c) →
  line_step i x (out st) (out (foldRun st) ++ [c]).
Proof.
  intros Hc Hs. eapply line_step_after; [apply foldRun_step|apply foldRun_sources|].
  apply line_step_push; [by right|done].
Qed.

Lemma emit_step_ok blocks i x st : line_step i x (out st) (out (emit_step blocks i x st)).
Proof.
  unfold emit_step. destruct (default false (blocks !! i)).
  { apply push_after_fold; [done|]. intros. by eapply shows_line. }
  destruct (exec SUITE_HEADER_RE x).
  { apply push_after_fold; [done|]. intros. by eapply shows_line. }
  match goal with |- context [es_push _ (foldRun ?s)] => set (st1 := s) end.
  assert (line_step i x (out st) (out st1) ∧ sources (out st1) = sources (out st)) as [H1 H2].
  { subst st1. destruct (exec SUITE_FILE_RE x); [|split; [apply line_step_refl|done]].
    split; [apply foldRun_step|apply foldRun_sources]. }
  eapply line_step_after; [exact H1|exact H2|].
  destruct (test SUMMARY_RE x); [|destruct (test PASS_RE x); [|destruct (is_blank x) eqn:Eb]].
  - apply push_after_fold; [done|]. intros. by eapply shows_line.
  - apply line_step_refl.
  - apply push_after_fold; [done|]. intros. by eapply shows_blank.
  - apply push_after_fold; [done|]. intros. by eapply shows_line.
Qed.

#[export] Instance test_ok : StrategyOk STest testStrategy.
Proof.
  split; intros input; [| |by left]; cbn [testStrategy sr_lines]; unfold emit_lines.
  - eapply (ls_shows O (default [] (splitLines (si_text input) !! O))); [apply foldRun_step| |].
    + pose proof (splitLines_ne (si_text input)). by destruct (splitLines (si_text input)).
    + apply scan_shows; [apply emit_step_ok|done|constructor].
  - rewrite foldRun_sources. apply scan_sources; [apply emit_step_ok|constructor|constructor].
Qed.

(** Cases counted so far: reported in a marker, or pending for the next one. *)
Definition counted (st : EmitState) : Z := zlen (sources (out st)) + passCasesFolded st + pendingPass st.

Lemma foldRun_counted st : 0 <= pendingPass st → counted (foldRun st) = counted st ∧ pendingPass (foldRun st) = 0.
Proof.
  intros Hp. unfold counted. rewrite foldRun_sources. unfold foldRun. case_test; bool_prop; simpl; split; lia.
Qed.

Lemma counted_push c st n :
  cl_sourceLine c = Some n → counted (es_push c st) = counted st + 1.
Proof.
  intros Hc. unfold counted, es_push. cbn [out passCasesFolded pendingPass].
  rewrite sources_app, zlen_app. unfold sources at 2. simpl. rewrite Hc. simpl. lia.
Qed.

Lemma emit_step_counted blocks i x st :
  0 <= pendingPass st →
  counted (emit_step blocks i x st) = counted st + 1 ∧ 0 <= pendingPass (emit_step blocks i x st).
Proof.
  intros Hp. pose proof (foldRun_counted st Hp) as [Hc Hz].
  assert (∀ c st', 0 <= pendingPass st' → cl_sourceLine c = Some (Z.of_nat i + 1) →
    counted (es_push c (foldRun st')) = counted st' + 1 ∧ 0 <= pendingPass (es_push c (foldRun st'))) as Hpush.
  { intros c st' Hp' Hs. rewrite (counted_push _ _ _ Hs). apply foldRun_counted in Hp' as [-> E].
    cbn [es_push pendingPass]. lia. }
  unfold emit_step. destruct (default false (blocks !! i)); [by apply (Hpush _ st)|].
  destruct (exec SUITE_HEADER_RE x).
  { set (s := default _ _). change (counted (es_suite s (foldRun st))) with (counted (foldRun st)).
    rewrite (counted_push _ _ (Z.of_nat i + 1)) by done. cbn [es_push es_suite pendingPass].
    change (counted (es_suite s (foldRun st))) with (counted (foldRun st)). lia. }
  match goal with |- context [es_push _ (foldRun ?s)] => set (st1 := s) end.
  assert (counted st1 = counted st ∧ 0 <= pendingPass st1) as [<- Hp1].
  { subst st1. destruct (exec SUITE_FILE_RE x) as [m|]; [|done].
    set (s := default _ _). change (counted (es_suite s (foldRun st))) with (counted (foldRun st)).
    cbn [es_suite pendingPass]. lia. }
  destruct (test SUMMARY_RE x); [by apply Hpush|]. destruct (test PASS_RE x); [|destruct (is_blank x); by apply Hpush].
  unfold counted. cbn [es_pass out passCasesFolded pendingPass]. lia.
Qed.

Lemma scan_counted blocks lines :
  let st := scan (emit_step blocks) emit_init lines in counted st = zlen lines ∧ 0 <= pendingPass st.
Proof.
  induction lines as [|x lines [IH1 IH2]] using rev_ind; simpl in *; [done|].
  rewrite scan_snoc, zlen_app. pose proof (emit_step_counted blocks (length lines) x _ IH2) as [-> ?].
  simpl. lia.
Qed.

(** A line left without output of its own is a passing case outside every region. *)
Lemma emit_step_unshown blocks i x st :
  Z.of_nat i + 1 ∈ sources (out (emit_step blocks i x st))
  ∨ (default false (blocks !! i) = false ∧ test PASS_RE x = true).
Proof.
  assert (∀ o c, cl_sourceLine c = Some (Z.of_nat i + 1) → Z.of_nat i + 1 ∈ sources (o ++ [c])) as Hin.
  { intros o c Hc. rewrite sources_app. apply elem_of_app. right. unfold sources. simpl. rewrite Hc. by left. }
  unfold emit_step. destruct (default false (blocks !! i)); [left; by apply Hin|].
  destruct (exec SUITE_HEADER_RE x); [left; by apply Hin|].
  destruct (test SUMMARY_RE x); [left; by apply Hin|].
  destruct (test PASS_RE x); [by right|]. destruct (is_blank x); left; by apply Hin.
Qed.

Lemma sources_elem n ls : n ∈ sources ls ↔ ∃ c, c ∈ ls ∧ cl_sourceLine c = Some n.
Proof. unfold sources. apply list_elem_of_omap. Qed.

Lemma test_lines_kept input c :
  c ∈ out (scan (emit_step (inBlock (find_blocks (splitLines (si_text input))))) emit_init (splitLines (si_text input))) →
  is_Some (cl_sourceLine c) → c ∈ sr_lines (testStrategy input).
Proof. intros Hc Hs. cbn [testStrategy sr_lines]. unfold emit_lines. eapply (ls_kept O []); [apply foldRun_step|done|done]. Qed.

(** ** Properties *)

(** C38: failures are preserved verbatim.  A source line lies in a failure
    region when some seed line at or above it is not followed by an explicit
    runner pass header up to it, or when it is a continuation line at most two
    lines above a seed.  Every such line, a checkmark line among them, is
    emitted with its exact text and source line as a critical anchor; and a
    source line that is not emitted is a passing case outside every region. *)
Theorem test_protects_failures input (i : nat) line :
  splitLines (si_text input) !! i = Some line →
  let lines := splitLines (si_text input) in
  let outl := sr_lines (testStrategy input) in
  (in_region lines i ∨ leads_in lines i →
     ∃ g, mkCLine line (Some (Z.of_nat i + 1)) true PRI_critical g ∈ outl)
  ∧ (Z.of_nat i + 1 ∉ sources outl → test PASS_RE line = true ∧ ¬ in_region lines i ∧ ¬ leads_in lines i).
Proof.
  intros Hl lines outl. assert (i < length lines)%nat as Hi by (by apply lookup_lt_Some in Hl).
  pose proof (find_blocks_spec lines i Hi) as Hspec. split.
  - intros Hr%Hspec. set (st := scan (emit_step (inBlock (find_blocks lines))) emit_init (take i lines)).
    exists (Some (suite (foldRun st))). apply test_lines_kept; [|simpl; eauto].
    eapply scan_emits; [apply emit_step_ok|exact Hl|simpl; eauto|].
    unfold emit_step at 1. fold lines. rewrite Hr. apply elem_of_app. right. by left.
  - intros Hn. destruct (emit_step_unshown (inBlock (find_blocks lines)) i line
      (scan (emit_step (inBlock (find_blocks lines))) emit_init (take i lines))) as [H|[Hb Hp]].
    + exfalso. apply Hn. apply sources_elem in H as (c & Hc & Hs). apply sources_elem. exists c. split; [|done].
      apply test_lines_kept; [|by rewrite Hs]. eapply scan_emits; [apply emit_step_ok|exact Hl|by rewrite Hs|exact Hc].
    + split; [done|]. rewrite Hb in Hspec. split; intros ?; apply (eq_true_false_abs false); auto; apply Hspec; auto.
Qed.

Lemma test_protects_failures_witness :
  ∃ g, mkCLine (js "  ✓ data") (Some 7) true PRI_critical g ∈ sr_lines (testStrategy demo_test).
Proof.
  destruct (test_protects_failures demo_test 6 (js "  ✓ data")) as [H _]; [vm_compute; reflexivity|].
  apply H. left. exists 5%nat. split; [lia|]. split; [vm_compute; reflexivity|].
  intros k Hk. assert (k = 5 ∨ k = 6)%nat as [-> | ->] by lia; vm_compute; reflexivity.
Defined.

(** The test strategy accounts for every line: the source lines emitted
    and the passing cases its markers report add up to the lines of the
    input, and the output names no source line twice. *)
Theorem test_accounts_for_every_line input :
  let lines := splitLines (si_text input) in
  let st := emit_lines (inBlock (find_blocks lines)) lines in
  sr_lines (testStrategy input) = out st
  ∧ zlen (sources (out st)) + passCasesFolded st = zlen lines
  ∧ NoDup (sources (out st)).
Proof.
  intros lines st. split; [done|]. split; [|exact (strategy_nodup (StrategyOk := test_ok) input)].
  pose proof (scan_counted (inBlock (find_blocks lines)) lines) as [Hc Hp].
  apply foldRun_counted in Hp as [Hf Hz]. unfold st, emit_lines. rewrite <- Hc, <- Hf.
  unfold counted. rewrite Hz. lia.
Qed.
