(* ===== verification/StratGrep.v ===== *)
(** * The grep strategy ([packages/rtk-core/src/strategies/grep.ts])

    Matches are grouped per file in order of first appearance; each group
    shows its first match and every match with an error keyword, and the rest
    is summarised by merged ranges of line numbers. *)

From stdpp Require Import base tactics list numbers option sets strings sorting.
From S2P Require Import Prelude JsString JsRegex Json CLine StratBasic OMap Classify.

Definition ERROR_KEYWORD_RE : regex := Eval vm_compute in re_i "(error|warn|fail|exception)".
Definition MERGE_GAP : Z := 3.

Record Match := mkMatch { m_lineNo : lineno; m_raw : jstr; m_sourceLine : Z }.
Record Range := mkRange { r_start : lineno; r_end : lineno; r_count : Z }.

(** ** Ranges *)

(** [a.lineNo - b.lineNo] as a sort comparator: [Infinity - Infinity] is NaN, read as 0. *)
Definition lineno_cmp (a b : lineno) : Z :=
  match a, b with
  | Some x, Some y => x - y
  | None, None => 0
  | None, Some _ => 1
  | Some _, None => -1
  end.
Definition match_cmp (a b : Match) : Z := lineno_cmp (m_lineNo a) (m_lineNo b).

(** [m.lineNo - last.end <= MERGE_GAP + 1] *)
Definition merges (n last_end : lineno) : bool :=
  match n, last_end with
  | Some x, Some y => x - y <=? MERGE_GAP + 1
  | Some _, None => true
  | None, _ => false
  end.
Definition lineno_max (a b : lineno) : lineno :=
  match a, b with Some x, Some y => Some (Z.max x y) | _, _ => None end.

(** One iteration of the merge loop; [ranges] is reversed, its last range first. *)
Definition merge_step (ranges : list Range) (m : Match) : list Range :=
  match ranges with
  | r :: rs =>
    if merges (m_lineNo m) (r_end r)
    then mkRange (r_start r) (lineno_max (r_end r) (m_lineNo m)) (r_count r + 1) :: rs
    else mkRange (m_lineNo m) (m_lineNo m) 1 :: ranges
  | [] => [mkRange (m_lineNo m) (m_lineNo m) 1]
  end.

Definition mergeRanges (matches : list Match) : list Range :=
  reverse (foldl merge_step [] (sort_by match_cmp matches)).

(** ** The strategy *)

Definition add_match (groups : list (jstr * list Match)) (index : nat) (line : jstr) : list (jstr * list Match) :=
  if is_blank line then groups
  else match parseGrepLine line with
  | None => groups
  | Some p =>
    set_key (gl_path p) (default [] (get (gl_path p) groups) ++ [mkMatch (gl_lineNo p) line (Z.of_nat index + 1)]) groups
  end.
Definition collect (lines : list jstr) : list (jstr * list Match) :=
  scan (λ i l g, add_match g i l) [] lines.

Definition unparsed_step (groups : list (jstr * list Match)) (index : nat) (line : jstr) (o : list CLine) : list CLine :=
  let n := Some (Z.of_nat index + 1) in
  match parseGrepLine line with
  | Some _ => o
  | None =>
    if is_blank line then o ++ [mkCLine [] n false PRI_low (Some (js "other"))]
    else if has line groups then o ++ [mkCLine line n true PRI_critical None]
    else o ++ [mkCLine line n true PRI_normal (Some (js "other"))]
  end.

Definition match_line (path : jstr) (m : Match) : CLine :=
  mkCLine (m_raw m) (Some (m_sourceLine m)) true PRI_critical (Some path).
Definition range_label (path : jstr) (r : Range) : jstr :=
  if bool_decide (r_start r = r_end r)
  then path ++ js ":" ++ lineno_text (r_start r) ++ js " (" ++ dec (r_count r) ++ js " match"
         ++ (if r_count r =? 1 then [] else js "es") ++ js ")"
  else path ++ js ":" ++ lineno_text (r_start r) ++ js "-" ++ lineno_text (r_end r)
         ++ js " (" ++ dec (r_count r) ++ js " matches)".
Definition range_line (path : jstr) (r : Range) : CLine :=
  mkCLine (range_label path r) None false PRI_normal (Some path).

(** The anchors of a group: its first match, then every match with a keyword. *)
Definition group_anchors (matches : list Match) : list Match :=
  match sort_by match_cmp matches with
  | [] => []
  | first :: rest => first :: List.filter (λ m, test ERROR_KEYWORD_RE (m_raw m)) rest
  end.
Definition emit_group (g : jstr * list Match) : list CLine :=
  map (match_line g.1) (group_anchors g.2) ++ map (range_line g.1) (mergeRanges g.2).

Definition grepStrategy (input : StrategyInput) : StrategyResult :=
  let lines := splitLines (si_text input) in
  let groups := collect lines in
  let nonEmpty := List.filter (λ l, negb (is_blank l)) lines in
  let recognized := count_if (λ l, bool_decide (is_Some (parseGrepLine l)) || has l groups) nonEmpty in
  if (zlen nonEmpty =? 0) || fltb (ratio recognized (zlen nonEmpty)) point9 then
    fallbackStrategy {| si_text := si_text input; si_toolId := js "grep" |}
  else
    let totalMatches := zsum (map (λ g, zlen g.2) groups) in
    let totalRanges := zsum (map (λ g, zlen (mergeRanges g.2)) groups) in
    let kept := zsum (map (λ g, zlen (group_anchors g.2)) groups) in
    mkSR (scan (unparsed_step groups) [] lines ++ flat_map emit_group groups) SGrep
      [js "grep: " ++ dec (zlen groups) ++ js " file(s), " ++ dec totalMatches ++ js " match(es) -> "
         ++ dec totalRanges ++ js " range(s); kept " ++ dec kept ++ js " anchor line(s)"].

Definition demo_grep : StrategyInput :=
  {| si_text := join [LF] [js "src/a.ts:9:foo"; js "src/b.ts:1:x"; js "src/a.ts:2:foo"; js "src/a.ts:4:ERROR"; js ""];
     si_toolId := js "grep" |}.
Example grep_ex :
  map (λ c, (cl_text c, cl_sourceLine c)) (sr_lines (grepStrategy demo_grep))
  = [(js "src/a.ts:2:foo", Some 3); (js "src/a.ts:4:ERROR", Some 4);
     (js "src/a.ts:2-4 (2 matches)", None); (js "src/a.ts:9 (1 match)", None);
     (js "src/b.ts:1:x", Some 2); (js "src/b.ts:1 (1 match)", None)].
Proof. vm_compute. reflexivity. Qed.

(** ** The order of line numbers *)

#[export] Instance match_cmp_order : CmpOrder match_cmp.
Proof.
  split.
  - intros x y. unfold cmp_le, match_cmp, lineno_cmp. destruct (m_lineNo x), (m_lineNo y); lia.
  - intros x y z. unfold cmp_le, match_cmp, lineno_cmp. destruct (m_lineNo x), (m_lineNo y), (m_lineNo z); lia.
Qed.

(** ** Merging *)

Definition lineno_le (a b : lineno) : Prop := lineno_cmp a b <= 0.
Definition in_range (n : lineno) (r : Range) : Prop := lineno_le (r_start r) n ∧ lineno_le n (r_end r).

(** Adjacent ranges, latest first: the gap was too wide to merge. *)
Definition apart (r' r : Range) : Prop := merges (r_start r') (r_end r) = false.

Record merged (ranges : list Range) (ms : list Match) : Prop := {
  mg_count : zsum (map r_count ranges) = zlen ms;
  mg_cover : Forall (λ m, ∃ r, r ∈ ranges ∧ in_range (m_lineNo m) r) ms;
  mg_apart : ∀ i r' r, ranges !! i = Some r' → ranges !! S i = Some r → apart r' r;
  mg_start : Forall (λ r, ∃ m, m ∈ ms ∧ r_start r = m_lineNo m) ranges;
  mg_pos : Forall (λ r, 0 < r_count r) ranges }.

Lemma lineno_le_refl a : lineno_le a a.
Proof. destruct a; unfold lineno_le; simpl; lia. Qed.
Lemma lineno_le_trans a b c : lineno_le a b → lineno_le b c → lineno_le a c.
Proof. destruct a, b, c; unfold lineno_le; simpl; lia. Qed.
Lemma lineno_le_max a b : lineno_le a (lineno_max a b) ∧ lineno_le b (lineno_max a b).
Proof. destruct a, b; unfold lineno_le; simpl; lia. Qed.
#[local] Hint Resolve lineno_le_refl : core.

Lemma merged_new ranges ms m :
  merged ranges ms → (∀ r rs, ranges = r :: rs → merges (m_lineNo m) (r_end r) = false) →
  merged (mkRange (m_lineNo m) (m_lineNo m) 1 :: ranges) (ms ++ [m]).
Proof.
  intros [Hc Hv Hs Hl Hp] Hgap. split.
  - cbn [map r_count]. rewrite zsum_cons, zlen_app. simpl. lia.
  - apply Forall_app. split; [eapply Forall_impl; [exact Hv|]; intros ? (r & ? & ?); exists r; set_solver|].
    repeat constructor. eexists. split; [by left|]. by split; simpl.
  - intros [|i] r' r; simpl; [|by apply Hs]. intros [= <-] Hr. destruct ranges as [|r0 rs]; [done|].
    simplify_eq/=. by apply (Hgap r rs).
  - constructor; [exists m; set_solver|]. eapply Forall_impl; [exact Hl|]. intros r (m' & ? & ?). exists m'. set_solver.
  - constructor; [done|exact Hp].
Qed.

Lemma merge_step_merged ranges ms m :
  merged ranges ms → Forall (λ m', cmp_le match_cmp m' m) ms → merged (merge_step ranges m) (ms ++ [m]).
Proof.
  intros Hm Hle. unfold merge_step. destruct ranges as [|r rs]; [by apply merged_new|].
  destruct (merges (m_lineNo m) (r_end r)) eqn:E; [|by apply merged_new; [done|intros; simplify_eq]].
  destruct Hm as [Hc Hv Hs Hl Hp]. destruct (lineno_le_max (r_end r) (m_lineNo m)) as [M1 M2].
  apply Forall_cons in Hl as [(m0 & Hm0 & Hst) Hl]. apply Forall_cons in Hp as [Hp0 Hp].
  split.
  - cbn [map r_count] in *. rewrite zsum_cons, zlen_app in *. simpl. lia.
  - apply Forall_app. split.
    + eapply Forall_impl; [exact Hv|]. intros m' (r1 & [->|Hin]%elem_of_cons & H1 & H2).
      * eexists. split; [by left|]. split; [done|]. by eapply lineno_le_trans.
      * exists r1. split; [by right|done].
    + repeat constructor. eexists. split; [by left|]. split; [|exact M2]. simpl. rewrite Hst.
      eapply Forall_forall in Hle; [|exact Hm0]. exact Hle.
  - intros [|i] r' r1; simpl; [|by apply (Hs (S i))]. intros [= <-] Hr. exact (Hs O r r1 eq_refl Hr).
  - constructor; [exists m0; set_solver|]. eapply Forall_impl; [exact Hl|]. intros r1 (m' & ? & ?). exists m'. set_solver.
  - constructor; [simpl; lia|exact Hp].
Qed.

Lemma merge_fold l : StronglySorted (cmp_le match_cmp) l → merged (foldl merge_step [] l) l.
Proof.
  induction l as [|m l IH] using rev_ind; intros Hs; [by split; try done; constructor|].
  rewrite foldl_snoc. apply StronglySorted_app in Hs as (Hle & Hs & _). apply merge_step_merged; [by apply IH|].
  apply Forall_forall. intros m' Hm'. apply (Hle m' m Hm'). by left.
Qed.

(** ** Collection *)

Definition all_matches (groups : list (jstr * list Match)) : list Match := concat groups.*2.

(** The matches of the text, in text order. *)
Definition parsed_at (index : nat) (line : jstr) : list Match :=
  if is_blank line then []
  else match parseGrepLine line with
       | Some p => [mkMatch (gl_lineNo p) line (Z.of_nat index + 1)]
       | None => []
       end.
Definition parsed_matches (lines : list jstr) : list Match := concat (imap parsed_at lines).

Lemma concat_set k (v : list Match) (g : list (jstr * list Match)) :
  omap_ok g → all_matches (set_key k v g) ≡ₚ v ++ all_matches (delete_key k g).
Proof.
  intros Hok. unfold all_matches. assert (∀ l1 l2 : list (list Match), l1 ≡ₚ l2 → concat l1 ≡ₚ concat l2) as Hperm.
  { induction 1; simpl; [done|by f_equiv|by rewrite !app_assoc, (Permutation_app_comm y x)|by etransitivity]. }
  by rewrite (Hperm _ _ (set_values k v g Hok)).
Qed.

Lemma concat_get k (g : list (jstr * list Match)) :
  omap_ok g → all_matches g ≡ₚ default [] (get k g) ++ all_matches (delete_key k g).
Proof.
  unfold omap_ok. induction g as [|[k' v] g IH]; [done|]. rewrite fmap_cons. intros [Hn Hd]%NoDup_cons.
  unfold all_matches in *. cbn [get delete_key List.filter fst]. rewrite fmap_cons. cbn [concat snd].
  case_bool_decide as E; cbn [negb default].
  - subst k'. fold (delete_key k g). by rewrite (delete_absent k g Hn).
  - fold (delete_key k g). rewrite fmap_cons. cbn [concat snd]. rewrite (IH Hd) at 1.
    rewrite !app_assoc. f_equiv. apply Permutation_app_comm.
Qed.

Lemma add_match_spec g i x :
  omap_ok g → omap_ok (add_match g i x) ∧ all_matches (add_match g i x) ≡ₚ all_matches g ++ parsed_at i x.
Proof.
  intros Hok. unfold add_match, parsed_at. destruct (is_blank x); [by rewrite app_nil_r|].
  destruct (parseGrepLine x) as [p|]; [|by rewrite app_nil_r].
  split; [by apply set_ok|]. rewrite concat_set by done. rewrite (concat_get (gl_path p) g) by done.
  rewrite <- !app_assoc. f_equiv. apply Permutation_app_comm.
Qed.

Lemma collect_spec lines :
  omap_ok (collect lines) ∧ all_matches (collect lines) ≡ₚ parsed_matches lines.
Proof.
  unfold collect, parsed_matches. induction lines as [|x lines [IH1 IH2]] using rev_ind.
  { split; [apply NoDup_nil_2|done]. }
  rewrite scan_snoc, imap_app, concat_app. cbn [imap concat]. rewrite app_nil_r. unfold compose. rewrite Nat.add_0_r.
  destruct (add_match_spec (scan (λ i l g, add_match g i l) [] lines) (length lines) x IH1) as [H1 H2].
  split; [done|]. by rewrite H2, IH2.
Qed.

(** ** Every source line goes one way *)

Lemma elem_of_concat {A} (x : A) ls : x ∈ concat ls ↔ ∃ l, x ∈ l ∧ l ∈ ls.
Proof.
  rewrite list_elem_of_In, in_concat. split; intros (l & H1 & H2); exists l; rewrite !list_elem_of_In in *; auto.
Qed.

Lemma nodup_sub {A} (l k : list A) : l ⊆+ k → NoDup k → NoDup l.
Proof. intros (r & ->)%submseteq_Permutation Hd. by apply NoDup_app in Hd as (? & _). Qed.

(** Unparsed and parsed lines share out the source lines. *)
Lemma sources_shared groups lines :
  sources (scan (unparsed_step groups) [] lines) ++ map m_sourceLine (parsed_matches lines)
  ⊆+ imap (λ i _, Z.of_nat i + 1) lines.
Proof.
  unfold parsed_matches. induction lines as [|x lines IH] using rev_ind; [done|].
  rewrite scan_snoc, !imap_app, concat_app, map_app. cbn [imap concat]. rewrite app_nil_r. unfold compose. rewrite !Nat.add_0_r.
  assert (∀ o c, cl_sourceLine c = Some (zlen lines + 1) → sources (o ++ [c]) = sources o ++ [zlen lines + 1]) as Hs.
  { intros o c Hc. rewrite sources_app. unfold sources at 2. simpl. by rewrite Hc. }
  unfold unparsed_step at 1, parsed_at at 2.
  destruct (parseGrepLine x) as [p|].
  - rewrite app_assoc. apply submseteq_app; [done|]. destruct (is_blank x); [apply submseteq_nil_l|done].
  - transitivity ((sources (scan (unparsed_step groups) [] lines) ++ map m_sourceLine (concat (imap parsed_at lines))) ++ [zlen lines + 1]);
      [|by apply submseteq_app].
    assert (∀ b : bool, map m_sourceLine (if b then [] else []) = []) as -> by (by intros []). rewrite app_nil_r.
    destruct (is_blank x); [|destruct (has x groups)]; rewrite Hs by done; rewrite <- !app_assoc;
      apply submseteq_skips_l, Permutation_submseteq, Permutation_app_comm.
Qed.

Lemma match_lines_sources path l : sources (map (match_line path) l) = map m_sourceLine l.
Proof.
  induction l as [|m l IH]; [done|]. cbn [map]. rewrite <- IH. apply (sources_app [match_line path m]).
Qed.
Lemma range_lines_sources path l : sources (map (range_line path) l) = [].
Proof. by induction l. Qed.

Lemma group_anchors_sub ms : group_anchors ms ⊆+ ms.
Proof.
  unfold group_anchors. rewrite <- (sort_by_perm match_cmp ms) at 2. destruct (sort_by match_cmp ms) as [|m l]; [done|].
  apply submseteq_skip. clear. induction l as [|y l IH]; simpl; [done|].
  destruct (test _ _); [by apply submseteq_skip|by apply submseteq_cons].
Qed.

Lemma emit_groups_sources groups :
  sources (flat_map emit_group groups) ⊆+ map m_sourceLine (all_matches groups).
Proof.
  unfold all_matches. induction groups as [|[p ms] g IH]; [done|]. rewrite fmap_cons. cbn [flat_map concat snd].
  rewrite sources_app, map_app. apply submseteq_app; [|done]. unfold emit_group.
  rewrite sources_app, match_lines_sources, range_lines_sources, app_nil_r.
  apply (fmap_submseteq m_sourceLine), group_anchors_sub.
Qed.

Lemma parsed_at_shows src i x : src !! i = Some x → ∀ p m, m ∈ parsed_at i x → shows src (match_line p m).
Proof.
  unfold parsed_at. intros Hx p m. destruct (is_blank x); [set_solver|]. destruct (parseGrepLine x); [|set_solver].
  intros ->%list_elem_of_singleton. by apply shows_line with (x := x).
Qed.

Lemma unparsed_step_ok groups i x o : line_step i x o (unparsed_step groups i x o).
Proof.
  unfold unparsed_step. destruct (parseGrepLine x); [apply line_step_refl|].
  destruct (is_blank x) eqn:E; [|destruct (has x groups)];
    (apply line_step_push; [by right|]; intros; (by eapply shows_blank) || (by eapply shows_line)).
Qed.

#[export] Instance grep_ok : StrategyOk SGrep grepStrategy.
Proof.
  split; intros input; unfold grepStrategy; strategy_cases; auto;
    [exact (strategy_shows (StrategyOk := fallback_ok) {| si_text := si_text input; si_toolId := js "grep" |})|
    |apply fallback_ok| ]; set (lines := splitLines (si_text input)); pose proof (collect_spec lines) as [Hok Hperm].
  - apply Forall_app. split; [apply (scan_shows _ id); [apply unparsed_step_ok|done|constructor]|].
    apply Forall_forall. intros c Hc. rewrite list_elem_of_In in Hc. apply in_flat_map in Hc as ([p ms] & Hg & Hc).
    unfold emit_group in Hc. apply in_app_iff in Hc as [Hc|Hc]; apply in_map_iff in Hc as (m & <- & Hm); [|exact I].
    rewrite <- list_elem_of_In in Hm. rewrite <- list_elem_of_In in Hg.
    eapply elem_of_submseteq in Hm; [|apply group_anchors_sub]. simpl in Hm.
    assert (m ∈ parsed_matches lines) as Hin.
    { rewrite <- Hperm. unfold all_matches. apply elem_of_concat. exists ms. split; [done|].
      apply list_elem_of_fmap. by exists (p, ms). }
    unfold parsed_matches in Hin. apply elem_of_concat in Hin as (l & Hml & Hl).
    apply elem_of_lookup_imap_1 in Hl as (i & x & -> & Hx). by eapply parsed_at_shows.
  - assert (NoDup (imap (λ i _, Z.of_nat i + 1) lines)) as Hd.
    { rewrite <- (indexed_sources (λ i l, mkCLine l (Some (i + 1)) true 0 None)) by done. by apply indexed_nodup. }
    eapply nodup_sub; [|exact Hd]. etransitivity; [|apply (sources_shared (collect lines))].
    rewrite sources_app. apply submseteq_app; [done|]. etransitivity; [apply emit_groups_sources|].
    apply (fmap_submseteq m_sourceLine). by rewrite Hperm.
Qed.

(** ** Properties *)

(** Merging loses no match.  The ranges of a file cover every line number
    of its matches, their counts add up to the matches, no range is empty, and
    consecutive ranges are further apart than the merge gap. *)
Theorem mergeRanges_spec matches :
  let ranges := mergeRanges matches in
  zsum (map r_count ranges) = zlen matches
  ∧ Forall (λ r, 0 < r_count r) ranges
  ∧ (∀ m, m ∈ matches → ∃ r, r ∈ ranges ∧ in_range (m_lineNo m) r)
  ∧ ∀ i r r', ranges !! i = Some r → ranges !! S i = Some r' → merges (r_start r') (r_end r) = false.
Proof.
  intros ranges. destruct (merge_fold (sort_by match_cmp matches)) as [Hc Hv Hs _ Hp]; [by apply sort_by_sorted; typeclasses eauto|].
  unfold ranges, mergeRanges. split_and!.
  - rewrite (zsum_Permutation _ (map r_count (foldl merge_step [] (sort_by match_cmp matches)))).
    + rewrite Hc. by rewrite (sort_by_perm match_cmp matches).
    + apply Permutation_map, reverse_Permutation.
  - by rewrite reverse_Permutation.
  - intros m Hm. rewrite <- (sort_by_perm match_cmp matches) in Hm.
    eapply Forall_forall in Hv as (r & Hr & ?); [|exact Hm]. exists r. by rewrite elem_of_reverse.
  - intros i r r' Hr Hr'. set (l := foldl merge_step [] (sort_by match_cmp matches)) in *.
    pose proof (lookup_lt_Some _ _ _ Hr') as Hl. rewrite length_reverse in Hl.
    rewrite reverse_lookup in Hr, Hr' by lia. apply (Hs (length l - S (S i))%nat); [exact Hr'|].
    by replace (S (length l - S (S i)))%nat with (length l - S i)%nat by lia.
Qed.

(** No error line is lost to grouping.  When the grep strategy is used, a
    match line with an error keyword is emitted as a critical anchor with its
    own text and source line, whatever its file or place in the group, and so
    is every line that does not parse as a match and is not blank. *)
Theorem grep_protects_errors input (i : nat) line :
  splitLines (si_text input) !! i = Some line → sr_strategy (grepStrategy input) = SGrep →
  is_blank line = false → (parseGrepLine line = None ∨ test ERROR_KEYWORD_RE line = true) →
  ∃ l, l ∈ sr_lines (grepStrategy input) ∧ cl_text l = line
       ∧ cl_sourceLine l = Some (Z.of_nat i + 1) ∧ cl_anchor l = true.
Proof.
  intros Hi Hs Hb He. unfold grepStrategy in *. revert Hs. strategy_cases; [done|]. intros _.
  set (lines := splitLines (si_text input)) in *. destruct (collect_spec lines) as [Hok Hperm].
  destruct (parseGrepLine line) as [p|] eqn:Ep.
  - destruct He as [?|He]; [done|].
    set (m := mkMatch (gl_lineNo p) line (Z.of_nat i + 1)).
    assert (m ∈ all_matches (collect lines)) as Hm.
    { rewrite Hperm. apply elem_of_concat. exists (parsed_at i line). split.
      - unfold parsed_at. rewrite Hb, Ep. by left.
      - apply elem_of_lookup_imap_2 with (f := parsed_at) in Hi. exact Hi. }
    apply elem_of_concat in Hm as (ms & Hm & Hms). apply list_elem_of_fmap in Hms as ([path ms'] & -> & Hg). simpl in Hm.
    exists (match_line path m). split; [|done]. apply elem_of_app. right.
    rewrite list_elem_of_In. apply in_flat_map. exists (path, ms'). split; [by rewrite <- list_elem_of_In|].
    apply in_app_iff. left. apply in_map. rewrite <- list_elem_of_In. unfold group_anchors. simpl.
    rewrite <- (sort_by_perm match_cmp ms') in Hm. destruct (sort_by match_cmp ms') as [|m0 rest]; [done|].
    apply elem_of_cons in Hm as [->|Hm]; [by left|]. right. rewrite list_elem_of_In in *. by apply filter_In.
  - set (l := if has line (collect lines) then mkCLine line (Some (Z.of_nat i + 1)) true PRI_critical None
              else mkCLine line (Some (Z.of_nat i + 1)) true PRI_normal (Some (js "other"))).
    exists l. split; [|unfold l; by destruct (has _ _)]. apply elem_of_app. left.
    eapply (scan_emits _ id); [apply unparsed_step_ok|exact Hi|unfold l; destruct (has _ _); simpl; eauto|].
    unfold unparsed_step at 1. rewrite Ep, Hb. unfold id, l. destruct (has _ _); apply elem_of_app; right; by left.
Qed.

Lemma grep_protects_errors_witness :
  ∃ l, l ∈ sr_lines (grepStrategy demo_grep) ∧ cl_text l = js "src/a.ts:4:ERROR" ∧ cl_anchor l = true.
Proof.
  destruct (grep_protects_errors demo_grep 3 (js "src/a.ts:4:ERROR")) as (l & H1 & H2 & _ & H3);
    [by vm_compute|by vm_compute|by vm_compute|right; by vm_compute|].
  exists l. split; [exact H1|]. split; [exact H2|exact H3].
Defined.
