(* ===== verification/StratLs.v ===== *)
(** * The directory-listing strategy ([packages/rtk-core/src/strategies/ls.ts])

    Shape A ([ls -la]) and shape B (path list) keep the first entries of each
    directory and fold the rest into one marker line per directory.  A marker
    is pushed once and its text then mutated through the reference kept in
    [FoldState]; a reference into [out] is the position of the marker. *)

From stdpp Require Import base tactics list numbers option sets strings.
From S2P Require Import Prelude JsString JsRegex Json CLine StratBasic OMap Classify.

Definition LS_SECTION_RE : regex := Eval vm_compute in re "^[\w.@~+/-]+:$".
Definition PATH_LINE_RE : regex := LS_PATH_LINE_RE.

Definition KEEP_FILES_PER_DIR : Z := 8.
Definition KEEP_ENTRIES_PER_DIR : Z := 5.

Record FoldState := mkFold { markers : list (jstr * nat); counts : list (jstr * Z) }.

(** [existing.text = t] through a reference *)
Definition set_text (t : jstr) (l : CLine) : CLine :=
  mkCLine t (cl_sourceLine l) (cl_anchor l) (cl_priority l) (cl_group l).

Definition bumpFold (state : FoldState) (out : list CLine) (key : jstr) (render : Z → jstr) : FoldState * list CLine :=
  let next := default 0 (get key (counts state)) + 1 in
  let counts' := set_key key next (counts state) in
  match get key (markers state) with
  | Some ref => (mkFold (markers state) counts', alter (set_text (render next)) ref out)
  | None => (mkFold (set_key key (length out) (markers state)) counts',
             out ++ [mkCLine (render 1) None false PRI_low (Some key)])
  end.

(** [line.split(/\s+/)]; [inws] while inside a separator. *)
Fixpoint split_spaces (s : jstr) (inws : bool) : list jstr :=
  match s with
  | [] => [[]]
  | c :: r =>
    if is_space c then (if inws then split_spaces r true else [] :: split_spaces r true)
    else match split_spaces r false with
         | h :: t => (c :: h) :: t
         | [] => [[c]]
         end
  end.

Definition parseLsLa (line : jstr) : option (bool * jstr) :=
  if negb (test LS_PERM_RE line) then None
  else
    let fields := split_spaces line false in
    if zlen fields <? 9 then None
    else Some (starts_with (js "d") (default [] (head fields)), join [32] (drop 8 fields)).

Fixpoint lastIndexOf_slash (s : jstr) (i : Z) (last : Z) : Z :=
  match s with [] => last | c :: r => lastIndexOf_slash r (i + 1) (if c =? 47 then i else last) end.
Definition dirNameOf (path : jstr) : jstr :=
  let slash := lastIndexOf_slash path 0 (-1) in
  if slash =? -1 then js "."
  else if slash =? 0 then js "/"
  else take (Z.to_nat slash) path.

(** [p.replace(/^\.\//, "")] *)
Definition strip_dot (p : jstr) : jstr := if starts_with (js "./") p then drop 2 p else p.
Definition dirSegs (p : jstr) : list jstr := removelast (split_on 47 (strip_dot p)).
Fixpoint common (a b : list jstr) : list jstr :=
  match a, b with
  | x :: a', y :: b' => if jeqb x y then x :: common a' b' else []
  | _, _ => []
  end.
(** The loop stops early on an empty prefix, which is then the result. *)
Definition commonDirPrefix (paths : list jstr) : list jstr :=
  match paths with
  | [] => []
  | p :: rest => foldl (λ prefix path, common prefix (dirSegs path)) (dirSegs p) rest
  end.

Record LsState := mkLs {
  ls_out : list CLine;
  ls_fold : FoldState;
  ls_nth : list (jstr * Z);   (* fileNth, entryNth *)
  currentDir : jstr;
  ls_kept : Z;
  ls_folded : Z }.

Definition ls_push (c : CLine) (st : LsState) : LsState :=
  mkLs (ls_out st ++ [c]) (ls_fold st) (ls_nth st) (currentDir st) (ls_kept st) (ls_folded st).
Definition ls_cd (d : jstr) (st : LsState) : LsState :=
  mkLs (ls_out st) (ls_fold st) (ls_nth st) d (ls_kept st) (ls_folded st).

(** One file or entry of [dir]: the first [keep] are pushed, the others folded. *)
Definition ls_entry (keep : Z) (dir : jstr) (render : Z → jstr) (c : CLine) (st : LsState) : LsState :=
  let nth := default 0 (get dir (ls_nth st)) + 1 in
  let nths := set_key dir nth (ls_nth st) in
  if nth <=? keep then
    mkLs (ls_out st ++ [c]) (ls_fold st) nths (currentDir st) (ls_kept st + 1) (ls_folded st)
  else
    let '(fold', out') := bumpFold (ls_fold st) (ls_out st) dir render in
    mkLs out' fold' nths (currentDir st) (ls_kept st) (ls_folded st + 1).

(** ** Shape A *)

Definition render_files (dir : jstr) (n : Z) : jstr :=
  js "[+" ++ dec n ++ js " file" ++ (if n =? 1 then [] else js "s") ++ js " in " ++ dir ++ js "]".

Definition lsla_step (index : nat) (line : jstr) (st : LsState) : LsState :=
  let n := Some (Z.of_nat index + 1) in
  if is_blank line then st
  else if test LS_TOTAL_RE line then ls_push (mkCLine line n true PRI_critical None) st
  else if test LS_SECTION_RE line then
    let dir := removelast line in
    ls_push (mkCLine line n true PRI_critical (Some dir)) (ls_cd dir st)
  else match parseLsLa line with
  | None => ls_push (mkCLine line n false PRI_normal (Some (currentDir st))) st
  | Some (isDir, _) =>
    if isDir : bool then ls_push (mkCLine line n true PRI_critical (Some (currentDir st))) st
    else ls_entry KEEP_FILES_PER_DIR (currentDir st) (render_files (currentDir st))
           (mkCLine line n false PRI_high (Some (currentDir st))) st
  end.

Definition ls_init (out : list CLine) (dir : jstr) : LsState := mkLs out (mkFold [] []) [] dir 0 0.

Definition lsla (lines : list jstr) : LsState := scan lsla_step (ls_init [] (js ".")) lines.

(** ** Shape B *)

Definition render_entries (dir : jstr) (n : Z) : jstr :=
  js "[+" ++ dec n ++ js " in " ++ (if jeqb dir (js "/") then js "/" else dir ++ js "/") ++ js "]".

Definition path_step (index : nat) (line : jstr) (st : LsState) : LsState :=
  let n := Some (Z.of_nat index + 1) in
  if negb (test PATH_LINE_RE line) then
    ls_push (mkCLine line n false (if is_blank line then PRI_low else PRI_normal) (Some (js "other"))) st
  else
    let dir := dirNameOf (strip_dot line) in
    ls_entry KEEP_ENTRIES_PER_DIR dir (render_entries dir) (mkCLine line n true PRI_critical (Some dir)) st.

Definition prefix_header (prefixSegs : list jstr) (entries : Z) : list CLine :=
  if 0 <? zlen prefixSegs
  then [mkCLine (join [47] prefixSegs ++ js "/ (common prefix, " ++ dec entries ++ js " entries)") None true PRI_critical None]
  else [].

Definition path_list (pathLines lines : list jstr) : LsState :=
  scan path_step (ls_init (prefix_header (commonDirPrefix pathLines) (zlen pathLines)) []) lines.

(** ** The strategy *)

Definition lsStrategy (input : StrategyInput) : StrategyResult :=
  let lines := splitLines (si_text input) in
  let nonEmpty := List.filter (λ l, negb (is_blank l)) lines in
  let recognised := count_if (λ l, test LS_PERM_RE l || test LS_TOTAL_RE l || test LS_SECTION_RE l) nonEmpty in
  let isLsLa := (0 <? zlen nonEmpty) && fleb point9 (ratio recognised (zlen nonEmpty)) in
  if isLsLa then
    let st := lsla lines in
    mkSR (ls_out st) SLs
      [if 0 <? ls_folded st
       then js "ls -la: kept " ++ dec (ls_kept st) ++ js " file(s), folded " ++ dec (ls_folded st) ++ js " into summaries"
       else js "ls -la: " ++ dec (ls_kept st) ++ js " file(s), nothing to fold"]
  else
    let pathLines := List.filter (test PATH_LINE_RE) nonEmpty in
    let pathRatio := if 0 <? zlen nonEmpty then ratio (zlen pathLines) (zlen nonEmpty) else fzero in
    if fleb point9 pathRatio then
      let prefixSegs := commonDirPrefix pathLines in
      let st := path_list pathLines lines in
      mkSR (ls_out st) SLs
        ((if 0 <? zlen prefixSegs then [js "extracted common prefix " ++ join [47] prefixSegs ++ js "/"] else [])
         ++ [if 0 <? ls_folded st
             then js "path list: kept " ++ dec (ls_kept st) ++ js " entr(y|ies), folded " ++ dec (ls_folded st)
                    ++ js " into summaries across " ++ dec (zlen (ls_nth st)) ++ js " director(y|ies)"
             else js "path list: " ++ dec (ls_kept st) ++ js " entr(y|ies), nothing to fold"])
    else fallbackStrategy {| si_text := si_text input; si_toolId := js "ls" |}.

Definition demo_ls : StrategyInput :=
  {| si_text := join [LF] [js "src/a"; js "src/b"; js "src/c"; js "lib/x"; js "src/d"; js "src/e"; js "src/f"; js "lib/y"; js "src/g"];
     si_toolId := js "glob" |}.
Example ls_ex :
  map cl_text (sr_lines (lsStrategy demo_ls))
  = [js "src/a"; js "src/b"; js "src/c"; js "lib/x"; js "src/d"; js "src/e"; js "[+2 in src/]"; js "lib/y"].
Proof. vm_compute. reflexivity. Qed.
Example commonDirPrefix_ex :
  commonDirPrefix [js "./a/b/c"; js "a/b/d/e"] = [js "a"; js "b"].
Proof. vm_compute. reflexivity. Qed.

(** ** Markers report what was folded *)

Definition nth_of (st : LsState) (dir : jstr) : Z := default 0 (get dir (ls_nth st)).
Definition marker (render : jstr → Z → jstr) (dir : jstr) (n : Z) : CLine :=
  mkCLine (render dir n) None false PRI_low (Some dir).

(** A directory within its quota has no marker; one beyond it has exactly one,
    reporting the entries past the quota. *)
Record folds (keep : Z) (render : jstr → Z → jstr) (st : LsState) : Prop := {
  fi_nonneg : ∀ d, 0 <= nth_of st d;
  fi_within : ∀ d, nth_of st d <= keep → get d (markers (ls_fold st)) = None ∧ get d (counts (ls_fold st)) = None;
  fi_beyond : ∀ d, keep < nth_of st d →
    get d (counts (ls_fold st)) = Some (nth_of st d - keep)
    ∧ ∃ ref, get d (markers (ls_fold st)) = Some ref ∧ ls_out st !! ref = Some (marker render d (nth_of st d - keep));
  fi_total : ls_kept st + ls_folded st = zsum (ls_nth st).*2 }.

Lemma zsum_set (k : jstr) v (m : list (jstr * Z)) :
  zsum (set_key k v m).*2 = zsum m.*2 - default 0 (get k m) + v.
Proof.
  induction m as [|[k' v'] m IH]; [simpl; lia|]. cbn [set_key get].
  case_bool_decide; rewrite !fmap_cons, !zsum_cons; simpl; [lia|]. rewrite IH. lia.
Qed.

Lemma folds_more keep render st out' d' k f :
  folds keep render st →
  (∀ i c, ls_out st !! i = Some c → cl_sourceLine c = None → out' !! i = Some c) →
  k + f = ls_kept st + ls_folded st →
  folds keep render (mkLs out' (ls_fold st) (ls_nth st) d' k f).
Proof.
  intros [H1 H2 H3 H4] Ho Hk. split; try done; [|simpl; lia].
  intros d Hd. destruct (H3 d Hd) as (? & ref & ? & ?). split; [done|]. exists ref. split; [done|]. by apply Ho.
Qed.

Lemma ls_push_folds keep render c st : folds keep render st → folds keep render (ls_push c st).
Proof. intros H. apply folds_more; [done| |done]. intros i c' Hi _. by apply lookup_app_l_Some. Qed.

Lemma nth_of_set st dir n o f c k fo d :
  nth_of (mkLs o f (set_key dir n (ls_nth st)) c k fo) d = if bool_decide (d = dir) then n else nth_of st d.
Proof.
  unfold nth_of. simpl. case_bool_decide; [subst; by rewrite get_set_eq|by rewrite get_set_ne].
Qed.

Lemma ls_entry_folds keep render dir c st :
  0 <= keep → folds keep render st → folds keep render (ls_entry keep dir (render dir) c st).
Proof.
  intros Hkeep [H1 H2 H3 H4]. unfold ls_entry. fold (nth_of st dir). destruct (nth_of st dir + 1 <=? keep) eqn:Ek; bool_prop.
  - split.
    + intros d. rewrite nth_of_set. pose proof (H1 d). pose proof (H1 dir). case_bool_decide; lia.
    + intros d. rewrite nth_of_set. case_bool_decide; [subst|auto]. intros _. apply H2. lia.
    + intros d. rewrite nth_of_set. case_bool_decide; [lia|]. intros Hd. destruct (H3 d Hd) as (? & ref & ? & ?).
      split; [done|]. exists ref. split; [done|]. by apply lookup_app_l_Some.
    + simpl. rewrite zsum_set. fold (nth_of st dir). lia.
  - unfold bumpFold. destruct (decide (keep < nth_of st dir)) as [Hb|Hb].
    + destruct (H3 dir Hb) as (Hcnt & ref & Href & Hout). rewrite Href, Hcnt. simpl default.
      replace (nth_of st dir - keep + 1) with (nth_of st dir + 1 - keep) by lia. split.
      * intros d. rewrite nth_of_set. pose proof (H1 d). case_bool_decide; lia.
      * intros d. rewrite nth_of_set. simpl. case_bool_decide; [lia|]. intros Hd. rewrite get_set_ne by done. auto.
      * intros d. rewrite nth_of_set. simpl. case_bool_decide as E; intros Hd.
        -- subst d. rewrite get_set_eq. split; [done|]. exists ref. split; [done|].
           rewrite list_lookup_alter_eq, Hout. done.
        -- destruct (H3 d Hd) as (? & ref' & ? & Hr'). rewrite get_set_ne by done. split; [done|]. exists ref'. split; [done|].
           rewrite list_lookup_alter_ne; [done|]. intros ->. rewrite Hout in Hr'. by simplify_eq.
      * simpl. rewrite zsum_set. fold (nth_of st dir). lia.
    + assert (nth_of st dir = keep) as En by lia. destruct (H2 dir ltac:(lia)) as [Hm Hcnt]. rewrite Hm, Hcnt. simpl default.
      split.
      * intros d. rewrite nth_of_set. pose proof (H1 d). case_bool_decide; lia.
      * intros d. rewrite nth_of_set. simpl. case_bool_decide; [lia|]. intros Hd. rewrite !get_set_ne by done. auto.
      * intros d. rewrite nth_of_set. simpl. case_bool_decide as E; intros Hd.
        -- subst d. rewrite !get_set_eq. split; [f_equal; lia|]. exists (length (ls_out st)). split; [done|].
           rewrite list_lookup_middle by done. unfold marker. do 3 f_equal. lia.
        -- destruct (H3 d Hd) as (? & ref' & ? & Hr'). rewrite !get_set_ne by done. split; [done|]. exists ref'. split; [done|].
           by apply lookup_app_l_Some.
      * simpl. rewrite zsum_set. fold (nth_of st dir). lia.
Qed.

Lemma ls_init_folds keep render o d : 0 <= keep → folds keep render (ls_init o d).
Proof. intros. split; try done. intros d'. unfold nth_of. simpl. lia. Qed.

(** ** One iteration *)

Lemma set_text_sources t ref o :
  sources (alter (set_text t) ref o) = sources o.
Proof.
  revert ref. induction o as [|c o IH]; intros ref; [done|]. destruct ref as [|ref].
  - change (sources ([set_text t c] ++ o) = sources ([c] ++ o)). by rewrite !sources_app.
  - change (sources ([c] ++ alter (set_text t) ref o) = sources ([c] ++ o)). by rewrite !sources_app, IH.
Qed.

Lemma ls_entry_step keep render dir c st i x :
  0 <= keep → folds keep render st → cl_sourceLine c = Some (Z.of_nat i + 1) → (∀ src, src !! i = Some x → shows src c) →
  line_step i x (ls_out st) (ls_out (ls_entry keep dir (render dir) c st)).
Proof.
  intros Hkeep [H1 H2 H3 _] Hc Hs. unfold ls_entry. fold (nth_of st dir). destruct (_ <=? keep) eqn:Ek; bool_prop; simpl.
  { apply line_step_push; [by right|done]. }
  unfold bumpFold. destruct (get dir (markers (ls_fold st))) as [ref|] eqn:Em; simpl.
  - destruct (decide (nth_of st dir <= keep)) as [Hn|Hn]; [apply H2 in Hn as [? _]; congruence|].
    destruct (H3 dir ltac:(lia)) as (_ & ref' & ? & Ho). simplify_eq. split.
    + left. apply set_text_sources.
    + intros src _ Hf. apply Forall_alter; [done|]. intros y Hy _. rewrite Ho in Hy. by simplify_eq.
    + intros y Hy Hsome. apply list_elem_of_lookup in Hy as (j & Hj). apply list_elem_of_lookup. exists j.
      rewrite list_lookup_alter_ne; [done|]. intros <-. rewrite Ho in Hj. simplify_eq. by destruct Hsome.
  - apply line_step_push; [by left|]. intros src _. exact I.
Qed.

Lemma lsla_step_folds i x st : folds KEEP_FILES_PER_DIR render_files st → folds KEEP_FILES_PER_DIR render_files (lsla_step i x st).
Proof.
  intros H. unfold lsla_step. case_test; [done|]. case_test; [by apply ls_push_folds|]. case_test.
  { apply ls_push_folds. apply folds_more; auto. }
  destruct (parseLsLa x) as [[[] ?]|]; [by apply ls_push_folds|by apply ls_entry_folds|by apply ls_push_folds].
Qed.

Lemma push_line i x st a p g :
  line_step i x (ls_out st) (ls_out (ls_push (mkCLine x (Some (Z.of_nat i + 1)) a p g) st)).
Proof. apply line_step_push; [by right|]. intros. by apply shows_line. Qed.

Lemma lsla_step_ok i x st : folds KEEP_FILES_PER_DIR render_files st → line_step i x (ls_out st) (ls_out (lsla_step i x st)).
Proof.
  intros H. unfold lsla_step. case_test; [apply line_step_refl|]. case_test; [apply push_line|]. case_test.
  { apply (push_line i x (ls_cd _ st)). }
  destruct (parseLsLa x) as [[[] ?]|]; [apply push_line| |apply push_line].
  apply ls_entry_step; [done..|]. intros. by apply shows_line.
Qed.

Lemma path_step_folds i x st :
  folds KEEP_ENTRIES_PER_DIR render_entries st → folds KEEP_ENTRIES_PER_DIR render_entries (path_step i x st).
Proof. intros H. unfold path_step. case_test; [by apply ls_push_folds|by apply ls_entry_folds]. Qed.

Lemma path_step_ok i x st : folds KEEP_ENTRIES_PER_DIR render_entries st → line_step i x (ls_out st) (ls_out (path_step i x st)).
Proof.
  intros H. unfold path_step. case_test; [apply push_line|]. apply ls_entry_step; [done..|]. intros. by apply shows_line.
Qed.

#[export] Instance ls_ok : StrategyOk SLs lsStrategy.
Proof.
  assert (∀ p n, sources (prefix_header p n) = []) as Hpre by (intros p n; unfold prefix_header; by case_test).
  assert (∀ src p n, Forall (shows src) (prefix_header p n)) as Hpre2.
  { intros src p n. unfold prefix_header. case_test; [|constructor]. constructor; [exact I|constructor]. }
  split; intros input; unfold lsStrategy; (destruct (_ && _); [|match goal with |- context [fleb ?a (if ?b then ?c else ?d)] => destruct (fleb a (if b then c else d)) end]); cbn [sr_lines sr_strategy]; auto; try apply fallback_ok;
    try exact (strategy_shows (StrategyOk := fallback_ok) {| si_text := si_text input; si_toolId := js "ls" |}).
  - apply (scan_shows_inv _ ls_out _ lsla_step_folds lsla_step_ok); [by apply ls_init_folds|done|constructor].
  - apply (scan_shows_inv _ ls_out _ path_step_folds path_step_ok); [by apply ls_init_folds|done|apply Hpre2].
  - apply (scan_sources_inv _ ls_out _ lsla_step_folds lsla_step_ok); [by apply ls_init_folds|constructor..].
  - apply (scan_sources_inv _ ls_out _ path_step_folds path_step_ok); [by apply ls_init_folds|..]; simpl; rewrite Hpre; constructor.
Qed.

(** ** Properties *)

Definition path_count (dir : jstr) (lines : list jstr) : Z :=
  count_if (λ l, test PATH_LINE_RE l && jeqb (dirNameOf (strip_dot l)) dir) lines.

Lemma count_if_snoc {A} (p : A → bool) l x : count_if p (l ++ [x]) = count_if p l + (if p x then 1 else 0).
Proof. unfold count_if. rewrite List.filter_app, zlen_app. simpl. by destruct (p x). Qed.

Lemma path_scan_nth pathLines lines dir :
  nth_of (path_list pathLines lines) dir = path_count dir lines.
Proof.
  unfold path_list. induction lines as [|x lines IH] using rev_ind; [done|].
  rewrite scan_snoc. unfold path_count in *. rewrite count_if_snoc, <- IH. unfold path_step.
  destruct (test PATH_LINE_RE x); cbn [negb andb]; [|unfold nth_of; simpl; lia].
  unfold ls_entry. set (d := dirNameOf _). set (st := scan _ _ _).
  assert (∀ o f c k fo, nth_of (mkLs o f (set_key d (default 0 (get d (ls_nth st)) + 1) (ls_nth st)) c k fo) dir
          = nth_of st dir + (if jeqb d dir then 1 else 0)) as H.
  { intros. rewrite nth_of_set. case_bool_decide as E; [subst d|].
    - rewrite <- E. unfold nth_of. by rewrite (proj2 (jeqb_eq dir dir)).
    - destruct (jeqb d dir) eqn:Ed; [apply jeqb_eq in Ed; congruence|lia]. }
  case_test; [apply H|]. destruct (bumpFold _ _ _ _) as [f o]. apply H.
Qed.

(** Markers report exactly what a path list hides.  For every directory,
    with [n] the number of its path lines in the text: when [n] is at most 5 it
    has no marker; otherwise the output has a marker line for it whose text
    reports [n - 5] entries, even though the marker was pushed when the sixth
    entry was met.  Kept and folded entries add up to the path lines. *)
Theorem path_list_markers pathLines lines dir :
  let st := path_list pathLines lines in
  let n := path_count dir lines in
  (n <= 5 → get dir (markers (ls_fold st)) = None)
  ∧ (5 < n → ∃ i, get dir (markers (ls_fold st)) = Some i
                 ∧ ls_out st !! i = Some (mkCLine (render_entries dir (n - 5)) None false PRI_low (Some dir)))
  ∧ ls_kept st + ls_folded st = zsum (ls_nth st).*2
  ∧ nth_of st dir = n.
Proof.
  intros st n. assert (folds KEEP_ENTRIES_PER_DIR render_entries st) as [_ H2 H3 H4].
  { apply (scan_inv path_step (folds KEEP_ENTRIES_PER_DIR render_entries) path_step_folds). by apply ls_init_folds. }
  assert (nth_of st dir = n) as En by apply path_scan_nth. split_and!; [| |done|done].
  - intros Hn. apply H2. by rewrite En.
  - intros Hn. destruct (H3 dir) as (_ & i & ? & Hi); [by rewrite En|]. exists i. by rewrite Hi, En.
Qed.
