(* ===== verification/Pipeline.v ===== *)
(** * Tool-output compression ([packages/rtk-core/src/{pipeline,stats}.ts],
    result contract of [packages/contracts/src/rtk.ts])

    [compressToolOutput] puts the parts together: sanitize, redact, hash,
    classify, strategy, budget, and the report of omitted source lines.  The
    SHA-256 of [node:crypto] is a parameter. *)

From stdpp Require Import base tactics list numbers option sets strings sorting.
From Stdlib Require Import SpecFloat.
From S2P Require Import Prelude JsString JsRegex Json Ansi CLine Budget StratBasic OMap Classify StratTest StratGrep StratLs.

(** ** The result and its contract *)

Inductive Status : Type := StCompressed | StUnchanged | StSkipped | StDegraded.
#[export] Instance Status_dec : EqDecision Status.
Proof. solve_decision. Defined.

Inductive DegradedReason : Type :=
| DRspawn_failed | DRtimeout | DRcrash | DRprotocol | DRno_gain | DRoverloaded | DRstorage_capacity | DRstorage_error.
#[export] Instance DegradedReason_dec : EqDecision DegradedReason.
Proof. solve_decision. Defined.

Record LineRange := mkLR { startLine : Z; endLine : Z }.

Record CompressResult := {
  cr_output : jstr;
  cr_status : Status;
  cr_targetTokens : Z;
  cr_actualTokens : Z;
  cr_budgetExceeded : bool;
  cr_omittedRanges : list LineRange;
  cr_diagnostics : list jstr;
  cr_rawHash : jstr;
  cr_strategy : StrategyName;
  cr_compressed : bool;
  cr_truncated : bool;
  cr_rawTokensEst : Z;
  cr_outTokensEst : Z;
  cr_degraded : option DegradedReason;
  cr_rawForStore : jstr }.

(** [omittedRanges.every(...)] of the schema's refinement. *)
Fixpoint ranges_ordered (prev : option LineRange) (ranges : list LineRange) : bool :=
  match ranges with
  | [] => true
  | r :: rest =>
    (startLine r <=? endLine r)
    && match prev with None => true | Some p => endLine p <? startLine r end
    && ranges_ordered (Some r) rest
  end.

Definition compressResult_refine (r : CompressResult) : bool :=
  Bool.eqb (cr_compressed r) (bool_decide (cr_status r = StCompressed))
  && (negb (cr_compressed r) || (cr_outTokensEst r <? cr_rawTokensEst r))
  && (cr_actualTokens r =? cr_outTokensEst r)
  && Bool.eqb (cr_budgetExceeded r) (cr_targetTokens r <? cr_actualTokens r)
  && ranges_ordered None (cr_omittedRanges r).

(** ** The pipeline *)

Definition DEFAULT_BUDGET_TOKENS : Z := 512.

Record CompressInput := {
  ci_tool : jstr;
  ci_output : jstr;
  ci_metadata : option (list (jstr * json));
  ci_budgetTokens : option Z;
  ci_redactor : option (jstr → jstr);
  ci_classifyOverride : option (Classification + StrategyName) }.

Definition noopRedactor (text : jstr) : jstr := text.

Definition STRATEGIES (s : StrategyName) : StrategyInput → StrategyResult :=
  match s with
  | SLs => lsStrategy | SGrep => grepStrategy | SRead => readStrategy
  | SDiff => diffStrategy | STest => testStrategy | SUnknown => fallbackStrategy
  end.

Definition normalizeOverride (o : Classification + StrategyName) : Classification :=
  match o with
  | inr s => mkClass s fone [js "classifyOverride"]
  | inl c => c
  end.

(** [raw.split("\n")] without the empty last element. *)
Definition source_lines (raw : jstr) : list jstr :=
  let parts := split_on LF raw in
  if jeqb (default [] (last parts)) [] then removelast parts else parts.

(** One iteration of the range loop for line index [i]; ranges are reversed. *)
Definition omit_step (retained : list Z) (ranges : list LineRange) (i : Z) : list LineRange :=
  if bool_decide (i + 1 ∈ retained) then ranges
  else match ranges with
  | last :: rest => if endLine last =? i then mkLR (startLine last) (i + 1) :: rest else mkLR (i + 1) (i + 1) :: ranges
  | [] => [mkLR (i + 1) (i + 1)]
  end.
Definition omitted_ranges (retained : list Z) (n : nat) : list LineRange :=
  reverse (foldl (omit_step retained) [] (map Z.of_nat (seq 0 n))).

Section Pipeline.
Context (sha256Hex : jstr → jstr).

Definition build (budgetTokens : Z) (raw : jstr) (truncated : bool)
    (output : jstr) (compressed : bool) (degraded : option DegradedReason) (notes : list jstr)
    (strategy : StrategyName) (omittedRanges : list LineRange) : CompressResult :=
  {| cr_output := output;
     cr_status := match degraded with Some _ => StDegraded | None => if compressed then StCompressed else StUnchanged end;
     cr_targetTokens := budgetTokens;
     cr_actualTokens := estimateTokens output;
     cr_budgetExceeded := budgetTokens <? estimateTokens output;
     cr_omittedRanges := omittedRanges;
     cr_diagnostics := notes;
     cr_rawHash := js "sha256:" ++ sha256Hex raw;
     cr_strategy := strategy;
     cr_compressed := compressed;
     cr_truncated := truncated;
     cr_rawTokensEst := estimateTokens raw;
     cr_outTokensEst := estimateTokens output;
     cr_degraded := degraded;
     cr_rawForStore := raw |}.

Definition raw_of (input : CompressInput) : jstr :=
  default noopRedactor (ci_redactor input) (sanitize (ci_output input)).

Definition compressToolOutput (input : CompressInput) : CompressResult :=
  let budgetTokens := default DEFAULT_BUDGET_TOKENS (ci_budgetTokens input) in
  let raw := raw_of input in
  let rawHashRef := js "sha256:" ++ sha256Hex raw in
  let rawTokensEst := estimateTokens raw in
  let truncated :=
    match ci_metadata input with
    | Some m => match assoc (js "truncated") m with Some (JBool true) => true | _ => false end
    | None => false
    end in
  let classification :=
    match ci_classifyOverride input with
    | Some o => normalizeOverride o
    | None => classify (ci_tool input) raw
    end in
  let sr := STRATEGIES (c_strategy classification) {| si_text := raw; si_toolId := ci_tool input |} in
  let notes := c_signals classification ++ sr_notes sr in
  if (rawTokensEst <=? budgetTokens) || bool_decide (sr_strategy sr = SUnknown) || bool_decide (sr_strategy sr = SRead) then
    build budgetTokens raw truncated raw false None notes (sr_strategy sr) []
  else
    let budgeted := applyBudget (sr_lines sr)
      {| bo_budgetTokens := budgetTokens; bo_rawHash := rawHashRef; bo_tool := ci_tool input |} in
    if rawTokensEst <=? estimateTokens (br_text budgeted) then
      build budgetTokens raw truncated raw false None
        (notes ++ [js "no_gain: assembled output would not be smaller than raw"]) (sr_strategy sr) []
    else
      let retained := sources (br_keptLines budgeted) in
      build budgetTokens raw truncated (br_text budgeted) true None
        (notes ++ [js "budget: " ++ dec (br_elidedTokens budgeted) ++ js " token(s) elided across "
                   ++ dec (br_groupsCollapsed budgeted) ++ js " group(s)"])
        (sr_strategy sr) (omitted_ranges retained (length (source_lines raw))).
End Pipeline.

(** ** Counters *)

Record PipelineStats := mkStats {
  requests : Z;
  compressedCount : Z;
  passthroughCount : Z;
  degradedCounts : DegradedReason → Z }.

Definition createPipelineStats : PipelineStats := mkStats 0 0 0 (λ _, 0).

Definition record_result (st : PipelineStats) (result : CompressResult) : PipelineStats :=
  mkStats (requests st + 1)
    (if cr_compressed result then compressedCount st + 1 else compressedCount st)
    (if cr_compressed result then passthroughCount st else passthroughCount st + 1)
    (match cr_degraded result with
     | Some reason =>
       if bool_decide (reason = DRno_gain) then degradedCounts st
       else λ r, if bool_decide (r = reason) then degradedCounts st r + 1 else degradedCounts st r
     | None => degradedCounts st
     end).

Definition demo_input (lines : nat) : CompressInput :=
  {| ci_tool := js "glob"; ci_output := join [LF] (map (λ i, js "src/some-directory/file-" ++ dec (Z.of_nat i)) (seq 0 lines));
     ci_metadata := None; ci_budgetTokens := Some 60; ci_redactor := None; ci_classifyOverride := None |}.
Example compress_ex :
  let r := compressToolOutput (λ _, js "00") (demo_input 20) in
  cr_status r = StCompressed ∧ cr_strategy r = SLs ∧ cr_omittedRanges r = [mkLR 6 20].
Proof. vm_compute. auto. Qed.

(** ** Ranges *)

Section Ranges.
Context (retained : list Z).

Definition covered (ranges : list LineRange) (n : Z) : Prop := ∃ r, r ∈ ranges ∧ startLine r <= n <= endLine r.

(** Reversed ranges after [n] lines. *)
Record ranges_upto (n : Z) (ranges : list LineRange) : Prop := {
  ru_in : ∀ i, 1 <= i <= n → covered ranges i ↔ i ∉ retained;
  ru_bounds : Forall (λ r, 1 <= startLine r <= endLine r ∧ endLine r <= n) ranges;
  ru_sorted : StronglySorted (λ r' r, endLine r < startLine r') ranges }.

Lemma omit_step_upto n ranges :
  0 <= n → ranges_upto n ranges → ranges_upto (n + 1) (omit_step retained ranges n).
Proof.
  intros Hn [Hi Hb Hs].
  assert (∀ i, covered ranges i → 1 <= i <= n) as Hle.
  { intros i (r & Hr & ?). eapply Forall_forall in Hb; [|exact Hr]. simpl in Hb. lia. }
  assert (Forall (λ r, endLine r < n + 1) ranges) as Hlt by (eapply Forall_impl; [exact Hb|]; simpl; lia).
  unfold omit_step. case_bool_decide as Hr.
  - split; [|eapply Forall_impl; [exact Hb|]; simpl; lia|done].
    intros i Hi'. destruct (decide (i = n + 1)) as [->|]; [|apply Hi; lia].
    split; [intros ?%Hle; lia|done].
  - assert (∀ r, startLine r <= n + 1 <= endLine r → ∀ i, 1 <= i <= n + 1 → ∀ rest,
      (∀ j, 1 <= j <= n → covered (r :: rest) j ↔ covered ranges j) → covered (r :: rest) i ↔ i ∉ retained) as Hnew.
    { intros r Hrn i Hi' rest Hj. destruct (decide (i = n + 1)) as [->|]; [|rewrite Hj by lia; apply Hi; lia].
      split; [done|]. intros _. exists r. split; [by left|done]. }
    assert (ranges_upto (n + 1) (mkLR (n + 1) (n + 1) :: ranges)) as Hpush.
    { split.
      - intros i Hi'. apply Hnew; simpl; [lia|done|]. intros j Hj. unfold covered. split.
        + intros (r & [->|?]%elem_of_cons & ?); simpl in *; [lia|eauto].
        + intros (r & ? & ?). exists r. split; [by right|done].
      - constructor; [simpl; lia|]. eapply Forall_impl; [exact Hb|]. simpl. lia.
      - by constructor. }
    destruct ranges as [|l rest]; [exact Hpush|]. destruct (endLine l =? n) eqn:E; [|exact Hpush]. bool_prop.
    apply Forall_cons in Hb as [Hl Hb]. inversion Hs as [|?? Hs' Hall]; subst. split.
    + intros i Hi'. apply Hnew; simpl; [lia|done|]. intros j Hj. unfold covered. split.
      * intros (r & [->|?]%elem_of_cons & ?); simpl in *; [exists l; split; [by left|lia]|exists r; split; [by right|done]].
      * intros (r & [->|?]%elem_of_cons & ?); [eexists; split; [by left|simpl; lia]|exists r; split; [by right|done]].
    + constructor; [simpl; lia|]. eapply Forall_impl; [exact Hb|]. simpl. lia.
    + by constructor.
Qed.

Lemma omitted_upto n :
  ranges_upto (Z.of_nat n) (foldl (omit_step retained) [] (map Z.of_nat (seq 0 n))).
Proof.
  induction n as [|n IH]; [split; [simpl; lia|constructor..]|].
  rewrite seq_S, map_app, foldl_app. simpl. replace (Z.of_nat (S n)) with (Z.of_nat n + 1) by lia.
  apply omit_step_upto; [lia|done].
Qed.

Lemma ranges_ordered_sorted ranges prev :
  Forall (λ r, startLine r <= endLine r) ranges → StronglySorted (λ r r', endLine r < startLine r') ranges →
  (∀ p, prev = Some p → Forall (λ r, endLine p < startLine r) ranges) → ranges_ordered prev ranges = true.
Proof.
  intros Hb Hs. revert prev. induction Hs as [|r rest Hs IH Hall]; intros prev Hp; [done|].
  apply Forall_cons in Hb as [Hr Hb]. cbn [ranges_ordered]. rewrite !andb_true_iff. split; [split|].
  - apply Z.leb_le. lia.
  - destruct prev as [p|]; [|done]. specialize (Hp p eq_refl). apply Forall_cons in Hp as [? _]. by apply Z.ltb_lt.
  - apply IH; [done|]. by intros p [= <-].
Qed.

Lemma sorted_reverse {A} (R : A → A → Prop) l :
  StronglySorted R l → StronglySorted (λ x y, R y x) (reverse l).
Proof.
  induction 1 as [|x l Hs IH Hall]; [constructor|]. rewrite reverse_cons. apply StronglySorted_app_2; [|done|repeat constructor].
  intros y z Hy ->%list_elem_of_singleton. rewrite elem_of_reverse in Hy. rewrite Forall_forall in Hall. by apply Hall.
Qed.

Lemma omitted_ranges_spec n :
  ranges_ordered None (omitted_ranges retained n) = true
  ∧ (∀ i, 1 <= i <= Z.of_nat n → covered (omitted_ranges retained n) i ↔ i ∉ retained).
Proof.
  destruct (omitted_upto n) as [Hi Hb Hs]. unfold omitted_ranges. split.
  - apply ranges_ordered_sorted; [|by apply sorted_reverse|done].
    rewrite reverse_Permutation. eapply Forall_impl; [exact Hb|]. simpl. lia.
  - intros i Hin. rewrite <- Hi by done. unfold covered. by setoid_rewrite elem_of_reverse.
Qed.
End Ranges.

(** ** Strategies together *)

Lemma strategy_ok_shows s input : Forall (shows (splitLines (si_text input))) (sr_lines (STRATEGIES s input)).
Proof. destruct s; apply strategy_shows. Qed.

Lemma source_lines_split raw : raw ≠ [] → source_lines raw = splitLines raw.
Proof.
  intros Hne. unfold source_lines, splitLines. pose proof (join_split LF raw) as Hj.
  destruct (split_on LF raw) as [|p [|q l]]; [done| |].
  - simpl in Hj. subst p. simpl. by destruct raw.
  - assert ((1 <? zlen (p :: q :: l)) = true) as -> by (apply Z.ltb_lt; simpl; lia). done.
Qed.

(** ** Properties *)

(** The part of the result contract that clients of the pipeline build on. *)
Lemma compress_refines sha256Hex input :
  let r := compressToolOutput sha256Hex input in
  compressResult_refine r = true
  ∧ cr_rawForStore r = raw_of input
  ∧ cr_rawHash r = js "sha256:" ++ sha256Hex (raw_of input)
  ∧ cr_degraded r = None
  ∧ cr_rawTokensEst r = estimateTokens (raw_of input)
  ∧ (cr_compressed r = false → cr_output r = raw_of input ∧ cr_omittedRanges r = []).
Proof.
  intros r. unfold r, compressToolOutput. cbn zeta.
  set (sr := STRATEGIES _ _). set (budget := default _ _). set (raw := raw_of input).
  set (trunc := match ci_metadata input with Some _ => _ | None => _ end).
  assert (∀ n st, compressResult_refine (build sha256Hex budget raw trunc raw false None n st []) = true) as Hraw.
  { intros n st. unfold compressResult_refine. simpl. by rewrite Z.eqb_refl, eqb_reflx. }
  destruct (_ || _ || _) eqn:E; [by split_and!|].
  destruct (_ <=? estimateTokens _) eqn:Eg; [by split_and!|]. bool_prop. split_and!; try done.
  unfold compressResult_refine. cbn [build cr_compressed cr_status cr_outTokensEst cr_rawTokensEst cr_actualTokens
    cr_budgetExceeded cr_targetTokens cr_omittedRanges].
  rewrite Z.eqb_refl, eqb_reflx, (proj2 (Z.ltb_lt _ _) Eg), eqb_reflx. apply omitted_ranges_spec.
Qed.

(** C39: every result meets the wire contract.  For any tool, output, metadata,
    budget, redactor, classification override and digest, the result of
    [compressToolOutput] satisfies the refinement of [compressResultSchema]:
    [compressed] agrees with the status, a compressed result is strictly
    smaller than the raw text, the accounting is consistent, and the omitted
    ranges are non-empty, ascending and disjoint; and nothing but a compressed
    result differs from the raw text or reports omissions. *)
Theorem compressToolOutput_contract sha256Hex input :
  let r := compressToolOutput sha256Hex input in
  compressResult_refine r = true
  ∧ cr_rawForStore r = raw_of input
  ∧ cr_rawHash r = js "sha256:" ++ sha256Hex (raw_of input)
  ∧ cr_degraded r = None
  ∧ (cr_compressed r = false → cr_output r = raw_of input ∧ cr_omittedRanges r = [])
  ∧ (estimateTokens (raw_of input) <= default DEFAULT_BUDGET_TOKENS (ci_budgetTokens input) → cr_compressed r = false).
Proof.
  intros r. destruct (compress_refines sha256Hex input) as (H1 & H2 & H3 & H4 & _ & H6). split_and!; try done.
  intros Hfit. unfold r, compressToolOutput. cbn zeta.
  by rewrite (proj2 (Z.leb_le _ _) Hfit).
Qed.

(** C1: nothing disappears silently.  When the result is compressed, every line
    of the raw text is either inside one of the reported omitted ranges or is a
    line of the output, verbatim (a blank line may be shown empty): the output
    is a list of lines, followed by the footer naming the raw hash, and the
    line is one of them. *)
Theorem compressToolOutput_no_silent_loss sha256Hex input (i : nat) line :
  let r := compressToolOutput sha256Hex input in
  cr_compressed r = true → source_lines (raw_of input) !! i = Some line →
  (¬ covered (cr_omittedRanges r) (Z.of_nat i + 1)) →
  ∃ output elided, cr_output r = join [LF] output ++ [LF] ++
      footer {| bo_budgetTokens := cr_targetTokens r; bo_rawHash := cr_rawHash r; bo_tool := ci_tool input |} elided
    ∧ (line ∈ output ∨ (is_blank line = true ∧ [] ∈ output)).
Proof.
  intros r. unfold r, compressToolOutput. cbn zeta.
  set (sr := STRATEGIES _ _). set (budget := default _ _). set (raw := raw_of input).
  set (trunc := match ci_metadata input with Some _ => _ | None => _ end).
  destruct (_ || _ || _) eqn:E; [done|]. destruct (_ <=? estimateTokens _) eqn:Eg; [done|]. bool_prop.
  intros _ Hl Hc. cbn [build cr_output cr_targetTokens cr_rawHash cr_omittedRanges] in *.
  set (opts := {| bo_budgetTokens := budget |}) in *.
  destruct (applyBudget_text (sr_lines sr) opts) as (output & Htext & Hsub).
  exists output, (br_elidedTokens (applyBudget (sr_lines sr) opts)). split; [exact Htext|].
  assert (Z.of_nat i + 1 ∈ sources (br_keptLines (applyBudget (sr_lines sr) opts))) as Hk.
  { destruct (omitted_ranges_spec (sources (br_keptLines (applyBudget (sr_lines sr) opts))) (length (source_lines raw))) as [_ Hspec].
    apply lookup_lt_Some in Hl. destruct (decide (Z.of_nat i + 1 ∈ sources (br_keptLines (applyBudget (sr_lines sr) opts)))); [done|].
    exfalso. apply Hc, Hspec; [lia|done]. }
  apply sources_elem in Hk as (c & Hk & Hs). destruct (applyBudget_keeps_anchors (sr_lines sr) opts) as (_ & Hkept & _).
  assert (c ∈ sr_lines sr) as Hin by (eapply elem_of_submseteq; [exact Hk|by apply sublist_submseteq]).
  assert (cl_text c ∈ output) as Hout.
  { apply (elem_of_submseteq (map cl_text (br_keptLines (applyBudget (sr_lines sr) opts)))); [|by apply sublist_submseteq].
    apply list_elem_of_In, in_map. by apply list_elem_of_In. }
  assert (raw ≠ []) as Hne.
  { intros Hraw. rewrite Hraw in Eg. unfold estimateTokens in Eg. pose proof (ceil4_nonneg (zlen (br_text (applyBudget (sr_lines sr) opts))) ltac:(lia)).
    change (ceil4 (zlen (@nil Z))) with 0 in Eg. lia. }
  pose proof (strategy_ok_shows (c_strategy (match ci_classifyOverride input with Some o => normalizeOverride o | None => classify (ci_tool input) raw end))
    {| si_text := raw; si_toolId := ci_tool input |}) as Hshow.
  fold sr in Hshow. eapply Forall_forall in Hshow; [|exact Hin]. unfold shows in Hshow. rewrite Hs in Hshow.
  destruct Hshow as (_ & s & Hlk & Ht). cbn [si_text] in Hlk. rewrite <- source_lines_split in Hlk by done.
  replace (Z.to_nat (Z.of_nat i + 1 - 1)) with i in Hlk by lia. rewrite Hl in Hlk. injection Hlk as <-.
  destruct Ht as [<- | [Hb Ht]]; [by left|right]. split; [done|]. by rewrite Ht in Hout.
Qed.

Lemma compressToolOutput_no_silent_loss_witness :
  let r := compressToolOutput (λ _, js "00") (demo_input 20) in
  ∃ output elided, cr_output r = join [LF] output ++ [LF] ++
      footer {| bo_budgetTokens := 60; bo_rawHash := js "sha256:00"; bo_tool := js "glob" |} elided
    ∧ (js "src/some-directory/file-3" ∈ output ∨ (is_blank (js "src/some-directory/file-3") = true ∧ [] ∈ output)).
Proof.
  apply (compressToolOutput_no_silent_loss (λ _, js "00") (demo_input 20) 3 (js "src/some-directory/file-3"));
    [vm_compute; reflexivity|vm_compute; reflexivity|].
  assert (cr_omittedRanges (compressToolOutput (λ _, js "00") (demo_input 20)) = [mkLR 6 20]) as -> by (vm_compute; reflexivity).
  intros (r & ->%list_elem_of_singleton & H). simpl in H. lia.
Defined.

(** The counters add up: over any sequence of results, requests are the
    compressed and the passed-through ones together, and the degraded count of
    a reason is the number of results that report it, except that [no_gain] is
    never counted. *)
Theorem pipelineStats_count results :
  let st := foldl record_result createPipelineStats results in
  requests st = zlen results
  ∧ compressedCount st = count_if cr_compressed results
  ∧ compressedCount st + passthroughCount st = requests st
  ∧ ∀ reason, degradedCounts st reason =
      if bool_decide (reason = DRno_gain) then 0
      else count_if (λ r, bool_decide (cr_degraded r = Some reason)) results.
Proof.
  induction results as [|r results IH] using rev_ind; intros st; [split_and!; try done; intros; by case_bool_decide|].
  unfold st. rewrite foldl_snoc. cbn zeta in IH. destruct IH as (H1 & H2 & H3 & H4).
  set (st0 := foldl record_result createPipelineStats results) in *. unfold record_result. cbn [requests compressedCount passthroughCount degradedCounts].
  rewrite zlen_app, !count_if_snoc. split_and!; [simpl; lia|destruct (cr_compressed r); lia|destruct (cr_compressed r); lia|].
  intros reason. rewrite count_if_snoc. specialize (H4 reason).
  assert (∀ d, (if bool_decide (cr_degraded r = Some d) then 1 else 0) = match cr_degraded r with Some d' => if bool_decide (d = d') then 1 else 0 | None => 0 end) as Hd.
  { intros d. destruct (cr_degraded r) as [d'|]; repeat case_bool_decide; congruence. }
  rewrite Hd. clear Hd. destruct (cr_degraded r) as [d|]; [|case_bool_decide; lia].
  case_bool_decide as E1; case_bool_decide as E2; try subst d; try subst reason; try done; try lia.
  - rewrite H4. by case_bool_decide.
  - case_bool_decide; [congruence|lia].
  - case_bool_decide; lia.
Qed.
