(* ===== verification/Chat.v ===== *)
(** * Messages, turns and content digests
    ([packages/contracts/src/headroom.ts], [packages/headroomd/src/turns.ts])

    The message projection shared by the plugin and the daemon, its canonical
    JSON, the digests that address it, and the segmentation into turns.  The
    SHA-256 of [node:crypto] is a parameter. *)

From stdpp Require Import base tactics list numbers option sets strings sorting.
From S2P Require Import Prelude JsString JsRegex Json CLine.

(** ** Data *)

Inductive Role : Type := RUser | RAssistant.
#[export] Instance Role_dec : EqDecision Role.
Proof. solve_decision. Defined.

Record ToolState := mkTS { ts_status : jstr; ts_error : option jstr; ts_output : option jstr }.

Inductive Part : Type :=
| PText (text : jstr)
| PTool (tool : jstr) (callId : option jstr) (input : option json) (state : ToolState).

Inductive MemoryKind : Type := Kconstraints | Kdecisions | Kchanges | Kverification | Kfailures | Kopen.
#[export] Instance MemoryKind_dec : EqDecision MemoryKind.
Proof. solve_decision. Defined.

Record MemoryEntry := mkMem { me_kind : MemoryKind; me_text : jstr; me_sourceIds : list jstr }.

Record Archive := mkArchive {
  ar_historyHash : jstr;
  ar_memory : list MemoryEntry;
  ar_nodeIds : option (list jstr);
  ar_protectedMemory : option (list MemoryEntry) }.

Record ChatMessage := mkMsg {
  m_id : jstr;
  m_role : Role;
  m_parts : list Part;
  m_protected : option bool;
  m_archive : option Archive }.

Record Namespace := mkNs { projectId : jstr; sessionId : jstr }.
#[export] Instance Namespace_dec : EqDecision Namespace.
Proof. solve_decision. Defined.

Definition HASH_RE : regex := Eval vm_compute in re "^[0-9a-f]{64}$".
Definition headroomHash_ok (s : jstr) : bool := test HASH_RE s.

(** ** As JSON *)

Definition role_text (r : Role) : jstr := match r with RUser => js "user" | RAssistant => js "assistant" end.
Definition kind_text (k : MemoryKind) : jstr :=
  match k with
  | Kconstraints => js "constraints" | Kdecisions => js "decisions" | Kchanges => js "changes"
  | Kverification => js "verification" | Kfailures => js "failures" | Kopen => js "open"
  end.

(** An optional property: absent when [undefined]. *)
Definition opt_field {A} (k : jstr) (f : A → json) (o : option A) : list (jstr * json) :=
  match o with Some a => [(k, f a)] | None => [] end.

Definition json_of_state (s : ToolState) : json :=
  JObj ((js "status", JStr (ts_status s)) :: opt_field (js "error") JStr (ts_error s)
        ++ opt_field (js "output") JStr (ts_output s)).
Definition json_of_part (p : Part) : json :=
  match p with
  | PText text => JObj [(js "type", JStr (js "text")); (js "text", JStr text)]
  | PTool tool callId input state =>
    JObj ([(js "type", JStr (js "tool")); (js "tool", JStr tool)] ++ opt_field (js "callId") JStr callId
          ++ opt_field (js "input") id input ++ [(js "state", json_of_state state)])
  end.
Definition json_of_entry (e : MemoryEntry) : json :=
  JObj [(js "kind", JStr (kind_text (me_kind e))); (js "text", JStr (me_text e));
        (js "sourceIds", JArr (map JStr (me_sourceIds e)))].
Definition json_of_archive (a : Archive) : json :=
  JObj ([(js "historyHash", JStr (ar_historyHash a)); (js "memory", JArr (map json_of_entry (ar_memory a)))]
        ++ opt_field (js "nodeIds") (λ l, JArr (map JStr l)) (ar_nodeIds a)
        ++ opt_field (js "protectedMemory") (λ l, JArr (map json_of_entry l)) (ar_protectedMemory a)).

(** ** Canonical JSON *)

Definition key_cmp (a b : jstr * json) : Z := if jltb a.1 b.1 then -1 else if jltb b.1 a.1 then 1 else 0.

(** Recursively sorted keys. *)
Fixpoint canon (v : json) : json :=
  match v with
  | JArr l => JArr (map canon l)
  | JObj l => JObj (sort_by key_cmp (map (λ kv, (kv.1, canon kv.2)) l))
  | _ => v
  end.
Definition canonicalJSON (v : json) : jstr := stringify (canon v).

(** ** Digests *)

Definition is_true (o : option bool) : bool := match o with Some b => b | None => false end.

Definition messageHashInput (m : ChatMessage) : json :=
  JObj ([(js "version", JNum (NInt 2));
         (js "info", JObj [(js "id", JStr (m_id m)); (js "role", JStr (role_text (m_role m)))]);
         (js "parts", JArr (map json_of_part (m_parts m)))]
        ++ opt_field (js "archive") json_of_archive (m_archive m)
        ++ (if is_true (m_protected m) then [(js "protected", JBool true)] else [])).

(** The loop over the parts: text parts are joined, tool parts collected. *)
Definition legacy_step (acc : jstr * list json) (part : Part) : jstr * list json :=
  match part with
  | PText text => ((if zlen acc.1 =? 0 then text else acc.1 ++ [LF] ++ text), acc.2)
  | PTool tool _ _ state =>
    (acc.1, acc.2 ++ [JObj [(js "tool", JStr tool); (js "output", JStr (default [] (ts_output state)))]])
  end.
Definition legacyMessageHashInput (m : ChatMessage) : json :=
  let '(textParts, toolParts) := foldl legacy_step ([], []) (m_parts m) in
  JObj [(js "id", JStr (m_id m)); (js "role", JStr (role_text (m_role m)));
        (js "textParts", JStr textParts); (js "toolParts", JArr toolParts)].

(** ** Turns *)

Record Turn := mkTurn {
  t_index : Z;
  t_messageIds : list jstr;
  t_messages : list ChatMessage;
  t_startMsgIndex : Z }.

Definition isCompactionReplacement (m : ChatMessage) : bool :=
  bool_decide (m_role m = RUser)
  && match m_archive m with
     | Some a => jeqb (m_id m) (js "compaction-" ++ ar_historyHash a)
     | None => false
     end.

Definition push_message (turn : Turn) (m : ChatMessage) : Turn :=
  mkTurn (t_index turn) (t_messageIds turn ++ [m_id m]) (t_messages turn ++ [m]) (t_startMsgIndex turn).

(** One iteration of [splitTurns]. *)
Definition turn_step (turns : list Turn) (i : nat) (m : ChatMessage) : list Turn :=
  match last turns with
  | Some turn =>
    if bool_decide (m_role m = RUser) then turns ++ [mkTurn (zlen turns) [m_id m] [m] (Z.of_nat i)]
    else removelast turns ++ [push_message turn m]
  | None => [mkTurn 0 [m_id m] [m] (Z.of_nat i)]
  end.
Definition splitTurns (messages : list ChatMessage) : list Turn :=
  foldl (λ turns im, turn_step turns im.1 im.2) [] (imap pair messages).

Section Digests.
Context (sha256Hex : jstr → jstr).

Definition legacyContentHash (m : ChatMessage) : jstr := sha256Hex (canonicalJSON (legacyMessageHashInput m)).
Definition contentDigest (m : ChatMessage) : jstr := sha256Hex (canonicalJSON (messageHashInput m)).
Definition contentHash (m : ChatMessage) : jstr := contentDigest m.
Definition turnHashes (turns : list Turn) : list (list jstr) := map (λ t, map contentHash (t_messages t)) turns.
Definition historyHash (turns : list Turn) : jstr :=
  sha256Hex (canonicalJSON (JArr (map (λ hs, JArr (map JStr hs)) (turnHashes turns)))).
End Digests.

Definition user_text (id text : jstr) : ChatMessage := mkMsg id RUser [PText text] None None.
Definition assistant_text (id text : jstr) : ChatMessage := mkMsg id RAssistant [PText text] None None.
Example canonical_ex :
  canonicalJSON (messageHashInput (user_text (js "u1") (js "hi")))
  = js "{" ++ quote (js "info") ++ js ":{" ++ quote (js "id") ++ js ":" ++ quote (js "u1") ++ js ","
    ++ quote (js "role") ++ js ":" ++ quote (js "user") ++ js "}," ++ quote (js "parts") ++ js ":[{"
    ++ quote (js "text") ++ js ":" ++ quote (js "hi") ++ js "," ++ quote (js "type") ++ js ":" ++ quote (js "text")
    ++ js "}]," ++ quote (js "version") ++ js ":2}".
Proof. vm_compute. reflexivity. Qed.
Example turns_ex :
  map (λ t, (t_index t, t_startMsgIndex t, zlen (t_messages t)))
    (splitTurns [assistant_text (js "a0") []; user_text (js "u1") []; assistant_text (js "a1") []; assistant_text (js "a2") []; user_text (js "u2") []])
  = [(0, 0, 1); (1, 1, 3); (2, 4, 1)].
Proof. vm_compute. reflexivity. Qed.

(** ** Segmentation *)

(** What the turns of [messages] must be. *)
Record turns_of (turns : list Turn) (messages : list ChatMessage) : Prop := {
  to_messages : concat (map t_messages turns) = messages;
  to_ids : Forall (λ t, t_messageIds t = map m_id (t_messages t)) turns;
  to_shape : ∀ i t, turns !! i = Some t →
    t_index t = Z.of_nat i
    ∧ t_startMsgIndex t = zsum (map (λ t, zlen (t_messages t)) (take i turns))
    ∧ ∃ first rest, t_messages t = first :: rest ∧ Forall (λ m, m_role m = RAssistant) rest
                    ∧ ((0 < i)%nat → m_role first = RUser) }.

Lemma not_user r : r ≠ RUser → r = RAssistant.
Proof. by destruct r. Qed.

Lemma turn_step_of turns messages m :
  turns_of turns messages → turns_of (turn_step turns (length messages) m) (messages ++ [m]).
Proof.
  intros [Hm Hids Hs]. unfold turn_step. destruct (last turns) as [turn|] eqn:El.
  - apply last_Some in El as (ts & ->). rewrite removelast_last.
    assert (zlen messages = zsum (map (λ t, zlen (t_messages t)) (ts ++ [turn]))) as Hlen.
    { rewrite <- Hm. clear. induction (ts ++ [turn]) as [|t l IH]; [done|]. simpl. rewrite length_app. lia. }
    case_bool_decide as Hr.
    + split.
      * rewrite map_app, concat_app. simpl. by rewrite Hm.
      * apply Forall_app. split; [done|]. by repeat constructor.
      * intros i t Hi. destruct (decide (i < length (ts ++ [turn]))%nat) as [Hl|Hl].
        -- rewrite lookup_app_l in Hi by done. rewrite take_app_le by lia. by apply Hs.
        -- rewrite lookup_app_r in Hi by lia. destruct (i - length (ts ++ [turn]))%nat eqn:Ei; [|done].
           simplify_eq/=. replace i with (length (ts ++ [turn])) by lia. rewrite take_app_length.
           split_and!; [done|done|]. exists m, []. split_and!; [done|constructor|done].
    + apply not_user in Hr. apply Forall_app in Hids as [Hids Hid]. apply Forall_cons in Hid as [Hid _]. split.
      * rewrite <- Hm, !map_app, !concat_app. simpl. by rewrite !app_nil_r, app_assoc.
      * apply Forall_app. split; [done|]. constructor; [|constructor]. simpl. by rewrite Hid, map_app.
      * intros i t Hi. destruct (decide (i < length ts)%nat) as [Hl|Hl].
        -- rewrite lookup_app_l in Hi by done. rewrite take_app_le by lia.
           specialize (Hs i t). rewrite lookup_app_l, take_app_le in Hs by lia. by apply Hs.
        -- rewrite lookup_app_r in Hi by lia. destruct (i - length ts)%nat eqn:Ei; [|done]. simplify_eq/=.
           replace i with (length ts) by lia. rewrite take_app_length.
           destruct (Hs (length ts) turn) as (H1 & H2 & first & rest & H3 & H4 & H5); [by rewrite list_lookup_middle|].
           rewrite take_app_length in H2. split_and!; [done|done|]. exists first, (rest ++ [m]).
           rewrite H3. split_and!; [done| |done]. apply Forall_app. split; [done|]. by constructor.
  - apply last_None in El. subst turns. simpl in Hm. subst messages. split; [done|by repeat constructor|].
    intros [|i] t Hi; [|done]. simplify_eq/=. split_and!; [done|done|]. exists m, []. split_and!; [done|constructor|lia].
Qed.

Lemma splitTurns_of messages : turns_of (splitTurns messages) messages.
Proof.
  unfold splitTurns. induction messages as [|m messages IH] using rev_ind; [by split; [| constructor|]|].
  rewrite imap_app, foldl_app. cbn [imap foldl fst snd]. unfold compose. rewrite Nat.add_0_r. by apply turn_step_of.
Qed.

(** ** Canonical JSON keeps every field *)

Definition field (k : jstr) (v : json) : option json := match v with JObj l => assoc k l | _ => None end.
Definition keys_ok (v : json) : Prop := match v with JObj l => NoDup l.*1 | _ => True end.

Lemma assoc_elem k v l : NoDup l.*1 → assoc k l = Some v ↔ (k, v) ∈ l.
Proof.
  induction l as [|[k' v'] l IH]; [intros _; simpl; set_solver|]. rewrite fmap_cons. intros [Hn Hd]%NoDup_cons.
  cbn [assoc]. destruct (jeqb k' k) eqn:E.
  - apply jeqb_eq in E. subst k'. split; [intros; simplify_eq; by left|]. intros [?|Hin]%elem_of_cons; [by simplify_eq|].
    exfalso. apply Hn. apply list_elem_of_fmap. by exists (k, v).
  - rewrite IH by done. split; [by right|]. intros [?|?]%elem_of_cons; [|done]. simplify_eq. by rewrite jeqb_refl in E.
Qed.

Lemma assoc_perm k l l' : NoDup l.*1 → l ≡ₚ l' → assoc k l = assoc k l'.
Proof.
  intros Hd Hp. apply option_eq. intros v.
  rewrite !assoc_elem by (done || by rewrite <- Hp). by rewrite Hp.
Qed.

Lemma assoc_map k (f : json → json) l : assoc k (map (λ kv, (kv.1, f kv.2)) l) = f <$> assoc k l.
Proof. induction l as [|[k' v'] l IH]; [done|]. cbn [map assoc fst snd]. by destruct (jeqb k' k). Qed.

Lemma field_canon k v : keys_ok v → field k (canon v) = canon <$> field k v.
Proof.
  destruct v as [| | | |l|l]; try done. intros Hd. cbn [canon field]. rewrite <- assoc_map. symmetry. apply assoc_perm.
  - cbn in Hd. clear -Hd. replace ((map (λ kv, (kv.1, canon kv.2)) l).*1) with (l.*1); [done|].
    clear. induction l as [|[k v] l IH]; [done|]. rewrite fmap_cons. cbn [map]. by rewrite fmap_cons, IH.
  - symmetry. apply sort_by_perm.
Qed.

Lemma canon_field_eq v1 v2 k :
  canon v1 = canon v2 → keys_ok v1 → keys_ok v2 → canon <$> field k v1 = canon <$> field k v2.
Proof. intros E H1 H2. by rewrite <- !field_canon, E. Qed.

(** Two parts that differ only in the order of tool-input keys. *)
Definition part_eqv (p q : Part) : Prop :=
  match p, q with
  | PText s, PText t => s = t
  | PTool t c i s, PTool t' c' i' s' => t = t' ∧ c = c' ∧ canon <$> i = canon <$> i' ∧ s = s'
  | _, _ => False
  end.

Lemma strs_inj l l' : map canon (map JStr l) = map canon (map JStr l') → l = l'.
Proof.
  revert l'. induction l as [|x l IH]; intros [|y l']; simpl; try done. intros [= -> ?]. f_equal. by apply IH.
Qed.

Lemma opt_str_inj (o o' : option jstr) : canon <$> (JStr <$> o) = canon <$> (JStr <$> o') → o = o'.
Proof. destruct o, o'; simpl; congruence. Qed.

Lemma map_inj_Forall2 {A B} (f : A → B) (R : A → A → Prop) l l' :
  (∀ x y, f x = f y → R x y) → map f l = map f l' → Forall2 R l l'.
Proof.
  intros Hf. revert l'. induction l as [|x l IH]; intros [|y l']; try done. cbn [map]. intros H.
  injection H as ? ?. constructor; auto.
Qed.

Lemma canon_map {A} (f : A → json) l : map canon (map f l) = map (λ x, canon (f x)) l.
Proof. by rewrite map_map. Qed.

Lemma state_inj s s' : canon (json_of_state s) = canon (json_of_state s') → s = s'.
Proof.
  destruct s as [st er ou], s' as [st' er' ou']. intros E.
  assert (∀ k, canon <$> field k (json_of_state (mkTS st er ou)) = canon <$> field k (json_of_state (mkTS st' er' ou'))) as H.
  { intros k. apply canon_field_eq; [done|destruct er, ou|destruct er', ou']; hnf; cbn; decide_now. }
  pose proof (H (js "status")) as H1. pose proof (H (js "error")) as H2. pose proof (H (js "output")) as H3.
  destruct er, ou, er', ou'; cbn in H1, H2, H3; try discriminate; injection H1 as ->;
    try injection H2 as ->; try injection H3 as ->; done.
Qed.

(** Equality of the canonical forms of two objects with literal keys, read at a key. *)
Ltac canon_keys := hnf; cbn; decide_now.
Ltac canon_at E k := let H := fresh "F" in
  pose proof (canon_field_eq _ _ (js k) E ltac:(canon_keys) ltac:(canon_keys)) as H; cbn in H.

Lemma entry_inj e e' : canon (json_of_entry e) = canon (json_of_entry e') → e = e'.
Proof.
  intros E. destruct e as [k t i], e' as [k' t' i']. canon_at E "kind". canon_at E "text". canon_at E "sourceIds".
  injection F0 as ->. injection F1 as F1. apply strs_inj in F1 as ->. f_equal.
  destruct k, k'; first [reflexivity|discriminate F].
Qed.

Lemma entries_inj l l' : map canon (map json_of_entry l) = map canon (map json_of_entry l') → l = l'.
Proof.
  rewrite !canon_map. intros H. apply list_eq_Forall2. eapply map_inj_Forall2; [|exact H]. intros x y. apply entry_inj.
Qed.

Lemma archive_inj a a' : canon (json_of_archive a) = canon (json_of_archive a') → a = a'.
Proof.
  intros E. destruct a as [h m n p], a' as [h' m' n' p'].
  assert (h = h' ∧ m = m') as [-> ->].
  { destruct n, p, n', p'; canon_at E "historyHash"; canon_at E "memory"; injection F as ->; injection F0 as F0;
      by apply entries_inj in F0 as ->. }
  assert (n = n') as ->.
  { destruct n, p, n', p'; canon_at E "nodeIds"; try discriminate; try done; injection F as F; by apply strs_inj in F as ->. }
  assert (p = p') as ->; [|done].
  destruct n', p, p'; canon_at E "protectedMemory"; try discriminate; try done; injection F as F; by apply entries_inj in F as ->.
Qed.

Lemma part_inj p p' : canon (json_of_part p) = canon (json_of_part p') → part_eqv p p'.
Proof.
  intros E. destruct p as [t|t c i s], p' as [t'|t' c' i' s'].
  - canon_at E "text". by injection F.
  - destruct c', i'; canon_at E "type"; discriminate.
  - destruct c, i; canon_at E "type"; discriminate.
  - assert (t = t' ∧ s = s') as [-> ->].
    { destruct c, i, c', i'; canon_at E "tool"; canon_at E "state"; injection F as ->;
        injection F0 as F0; (split; [done|]); apply state_inj; exact (f_equal JObj F0). }
    split; [done|]. split; [|split; [|done]].
    + destruct c, c', i, i'; canon_at E "callId"; try discriminate; try done; by injection F as ->.
    + destruct c, c', i, i'; canon_at E "input"; try discriminate; try done; cbn; exact F.
Qed.

(** Messages with the same persisted fields. *)
Record message_eqv (m m' : ChatMessage) : Prop := {
  mq_id : m_id m = m_id m';
  mq_role : m_role m = m_role m';
  mq_parts : Forall2 part_eqv (m_parts m) (m_parts m');
  mq_protected : is_true (m_protected m) = is_true (m_protected m');
  mq_archive : m_archive m = m_archive m' }.

Definition array_of (o : option json) : list json := match o with Some (JArr l) => l | _ => [] end.

Lemma hash_input_inj m m' :
  canon (messageHashInput m) = canon (messageHashInput m') → message_eqv m m'.
Proof.
  destruct m as [i r ps p a], m' as [i' r' ps' p' a']. unfold messageHashInput. cbn [m_id m_role m_parts m_protected m_archive].
  intros E. assert (keys_ok (messageHashInput (mkMsg i r ps p a)) ∧ keys_ok (messageHashInput (mkMsg i' r' ps' p' a'))) as [K K'].
  { unfold messageHashInput. cbn [m_id m_role m_parts m_protected m_archive]. split; [destruct a, (is_true p)|destruct a', (is_true p')]; canon_keys. }
  pose proof (λ k, canon_field_eq _ _ k E K K') as H. clear K K' E.
  pose proof (H (js "info")) as F. pose proof (H (js "parts")) as F0.
  pose proof (H (js "protected")) as F1. pose proof (H (js "archive")) as F2. clear H.
  assert (i = i' ∧ r = r') as [-> ->].
  { assert (canon (JObj [(js "id", JStr i); (js "role", JStr (role_text r))]) = canon (JObj [(js "id", JStr i'); (js "role", JStr (role_text r'))])) as E.
    { destruct a, a', (is_true p), (is_true p'); cbn in F; exact (f_equal (default JNull) F). }
    canon_at E "id". canon_at E "role". injection F3 as ->. split; [done|]. destruct r, r'; first [reflexivity|discriminate F4]. }
  split; try done; cbn [m_parts m_protected m_archive].
  - apply (map_inj_Forall2 (λ x, canon (json_of_part x))); [apply part_inj|]. rewrite <- !(canon_map json_of_part).
    destruct a, a', (is_true p), (is_true p'); exact (f_equal array_of F0).
  - destruct a, a', (is_true p), (is_true p'); cbn in F1; done.
  - destruct a as [a|], a' as [a'|]; [f_equal; apply archive_inj|..|done];
      destruct (is_true p), (is_true p'); try (cbn in F2; discriminate); exact (f_equal (default JNull) F2).
Qed.

(** A sufficient test for [json_ok]. *)
Definition plain_keys (l : list (jstr * json)) : bool :=
  bool_decide (NoDup l.*1) && forallb (λ kv, match index_key kv.1 with None => true | Some _ => false end) l.
Fixpoint json_okb (v : json) : bool :=
  match v with
  | JNull | JBool _ => true
  | JNum (NInt z) => is_safe_integer z
  | JNum _ => false
  | JStr s => forallb (λ c, (0 <=? c) && (c <? 65536)) s
  | JArr l => forallb json_okb l
  | JObj l => plain_keys l && forallb (λ kv, forallb (λ c, (0 <=? c) && (c <? 65536)) kv.1 && json_okb kv.2) l
  end.

Lemma obj_set_new l k v : k ∉ l.*1 → obj_set l k v = l ++ [(k, v)].
Proof.
  induction l as [|[k' v'] l IH]; [done|]. rewrite fmap_cons. intros Hn. cbn [obj_set app fst].
  destruct (jeqb k' k) eqn:E; [apply jeqb_eq in E; subst; set_solver|]. rewrite IH; [done|]. set_solver.
Qed.

Lemma obj_of_plain l : plain_keys l = true → obj_of l = l.
Proof.
  unfold plain_keys. intros [Hd%bool_decide_eq_true Hi]%andb_true_iff. rewrite forallb_forall in Hi.
  assert (∀ l2 l1 : list (jstr * json), NoDup (l1 ++ l2).*1 → foldl (λ l kv, obj_set l kv.1 kv.2) l1 l2 = l1 ++ l2) as Hf.
  { induction l2 as [|[k v] l2 IH]; intros l1 Hn; [by rewrite app_nil_r|]. cbn [foldl fst snd].
    rewrite fmap_app, fmap_cons in Hn. rewrite obj_set_new.
    - rewrite IH, <- app_assoc; [done|]. rewrite !fmap_app, <- app_assoc. done.
    - apply NoDup_app in Hn as (_ & Hn & _). intros Hin. apply (Hn _ Hin). by left. }
  unfold obj_of. rewrite Hf by done. cbn [app]. unfold obj_order.
  assert (foldr (λ kv acc, match index_key kv.1 with Some n => insert_index n kv acc | None => acc end) [] l = []) as ->.
  { clear -Hi. induction l as [|kv l IH]; [done|]. cbn [foldr]. rewrite IH by (intros; apply Hi; by right).
    pose proof (Hi kv ltac:(by left)) as Hkv. cbn beta in Hkv. by destruct (index_key kv.1). }
  cbn [map app]. apply forallb_filter_id, forallb_forall. intros kv Hkv. specialize (Hi kv Hkv). by destruct (index_key kv.1).
Qed.

Lemma json_okb_ok v : json_okb v = true → json_ok v.
Proof.
  assert (∀ s, forallb (λ c, (0 <=? c) && (c <? 65536)) s = true → units_ok s) as Hu.
  { intros s Hs. rewrite forallb_forall in Hs. apply Forall_forall. intros c Hc. rewrite list_elem_of_In in Hc.
    specialize (Hs c Hc). cbn beta in Hs. bool_prop. lia. }
  induction v as [|b|n|s|l IH|l IH] using json_ind'; cbn [json_okb]; intros H; try by constructor.
  - destruct n; [by constructor|done|done].
  - constructor. by apply Hu.
  - constructor. rewrite forallb_forall in H. apply Forall_forall. intros x Hx. eapply Forall_forall in IH; [|exact Hx].
    apply IH, H. by apply list_elem_of_In.
  - apply andb_true_iff in H as [Hp H]. constructor; [by apply obj_of_plain|]. rewrite forallb_forall in H.
    apply Forall_forall. intros x Hx. eapply Forall_forall in IH; [|exact Hx]. rewrite list_elem_of_In in Hx.
    specialize (H x Hx). cbn beta in H. apply andb_true_iff in H as [H1 H2]. auto.
Qed.

(** ** Properties *)

(** Turns partition the history.  Concatenating the messages of the turns
    of [splitTurns] gives the messages back; each turn carries the ids of its
    messages, its ordinal and the index of its first message in the input; only
    the first message of a turn may be a user message, and it is one in every
    turn but the first. *)
Theorem splitTurns_partition messages :
  concat (map t_messages (splitTurns messages)) = messages
  ∧ Forall (λ t, t_messageIds t = map m_id (t_messages t)) (splitTurns messages)
  ∧ ∀ i t, splitTurns messages !! i = Some t →
      t_index t = Z.of_nat i
      ∧ t_startMsgIndex t = zsum (map (λ t, zlen (t_messages t)) (take i (splitTurns messages)))
      ∧ ∃ first rest, t_messages t = first :: rest ∧ Forall (λ m, m_role m = RAssistant) rest
                      ∧ ((0 < i)%nat → m_role first = RUser).
Proof. destruct (splitTurns_of messages). auto. Qed.

(** A content digest binds every persisted field.  When the digest function
    separates the canonical texts of two messages, equal digests mean the same
    id, role, parts one by one with their boundaries, tool, call id, status,
    error and output, archive and protection: only the key order of a tool
    input and a false versus absent protection flag are not distinguished. *)
Theorem contentDigest_binds sha256Hex m m' :
  (∀ s t, sha256Hex s = sha256Hex t → s = t) →
  json_ok (canon (messageHashInput m)) → json_ok (canon (messageHashInput m')) →
  contentDigest sha256Hex m = contentDigest sha256Hex m' → message_eqv m m'.
Proof.
  intros Hinj Hok Hok' Hd. apply Hinj in Hd. apply hash_input_inj.
  apply (f_equal parse) in Hd. unfold canonicalJSON in Hd. rewrite !parse_stringify in Hd by done. exact (f_equal (default JNull) Hd).
Qed.

Definition demo_message : ChatMessage :=
  mkMsg (js "a1") RAssistant [PText (js "x"); PTool (js "bash") None (Some (JObj [(js "cmd", JStr (js "ls"))])) (mkTS (js "completed") None (Some (js "out")))]
    None None.

Lemma demo_message_ok : json_ok (canon (messageHashInput demo_message)).
Proof. apply json_okb_ok. vm_compute. reflexivity. Qed.

(** With the digest instantiated by the identity, which is injective. *)
Lemma contentDigest_binds_witness : message_eqv demo_message demo_message.
Proof.
  apply (contentDigest_binds (λ s, s) demo_message demo_message); [auto|exact demo_message_ok|exact demo_message_ok|reflexivity].
Defined.

(** The legacy hash does not bind part boundaries: two texts in two parts
    and one text with a newline have the same legacy hash input, which is why
    the current digest hashes the parts themselves. *)
Theorem legacy_hash_collapses sha256Hex id role s t :
  s ≠ [] →
  legacyContentHash sha256Hex (mkMsg id role [PText s; PText t] None None)
  = legacyContentHash sha256Hex (mkMsg id role [PText (s ++ [LF] ++ t)] None None).
Proof.
  intros Hs. unfold legacyContentHash, legacyMessageHashInput. cbn [m_parts m_id m_role foldl legacy_step fst snd].
  change (zlen (@nil Z) =? 0) with true. cbn match.
  destruct (zlen s =? 0) eqn:E; [|done]. bool_prop. destruct s; [done|simpl in E; lia].
Qed.

Lemma legacy_hash_collapses_witness :
  legacyContentHash (λ s, s) (mkMsg (js "m") RUser [PText (js "a"); PText (js "b")] None None)
  = legacyContentHash (λ s, s) (mkMsg (js "m") RUser [PText (js "a" ++ [LF] ++ js "b")] None None).
Proof. apply (legacy_hash_collapses (λ s, s) (js "m") RUser (js "a") (js "b")). discriminate. Defined.
