(* ===== verification/Operations.v ===== *)
(** * Atomic view edits ([packages/headroomd/src/layered-operations.ts],
    operation schema of [packages/contracts/src/headroom.ts])

    A plan of operations is validated against the host snapshot and applied to
    a copy of the messages, all together or not at all.  A [fail(status)] of
    the source is [Throw status]. *)

From stdpp Require Import base tactics list numbers option sets strings sorting.
From S2P Require Import Prelude JsString JsRegex Json CLine OMap Chat.

(** ** Data *)

Inductive ApplyStatus : Type := SApplied | SNoMatch | SInvalid | SAlreadyCompacted.
#[export] Instance ApplyStatus_dec : EqDecision ApplyStatus.
Proof. solve_decision. Defined.

(** The statuses [fail] is called with. *)
Inductive FailStatus : Type := FInvalid | FNoMatch.
Definition failed (f : FailStatus) : ApplyStatus := match f with FInvalid => SInvalid | FNoMatch => SNoMatch end.

Record Materialized := mkMat { mz_status : ApplyStatus; mz_messages : list ChatMessage }.

Record OpBase := mkBase { operationId : jstr; sourceVersion : Z; nodeId : jstr }.
Inductive ViewOperation : Type :=
| OpRange (base : OpBase) (messageIds sourceDigests : list jstr) (replacement : ChatMessage)
| OpTool (base : OpBase) (messageId sourceDigest : jstr) (partIndex : Z) (outputDigest replacement : jstr)
| OpText (base : OpBase) (messageId sourceDigest : jstr) (partIndex start end_ : Z) (textDigest replacement : jstr).

Definition op_base (op : ViewOperation) : OpBase :=
  match op with OpRange b _ _ _ | OpTool b _ _ _ _ _ | OpText b _ _ _ _ _ _ _ => b end.

Record SourceSnapshot := mkSnap { sn_messageIds : list jstr; sn_sourceDigests : list jstr }.

(** [new Set(l).size === l.length] *)
Definition distinct (l : list jstr) : bool := bool_decide (NoDup l).

(** [viewOperationSchema.safeParse(op).success] *)
Definition archive_ok (a : Archive) : bool :=
  headroomHash_ok (ar_historyHash a) && forallb headroomHash_ok (default [] (ar_nodeIds a)).
Definition chatMessage_ok (m : ChatMessage) : bool :=
  match m_archive m with Some a => archive_ok a | None => true end.
Definition int_nonneg (n : Z) : bool := is_safe_integer n && (0 <=? n).
Definition viewOperation_ok (op : ViewOperation) : bool :=
  let b := op_base op in
  headroomHash_ok (operationId b) && (sourceVersion b =? 1) && headroomHash_ok (nodeId b)
  && match op with
     | OpRange _ ids digests replacement =>
       (1 <=? zlen ids) && (1 <=? zlen digests) && forallb headroomHash_ok digests && chatMessage_ok replacement
       && (zlen ids =? zlen digests) && distinct ids
     | OpTool _ _ digest partIndex outputDigest _ =>
       headroomHash_ok digest && int_nonneg partIndex && headroomHash_ok outputDigest
     | OpText _ _ digest partIndex start end_ textDigest _ =>
       headroomHash_ok digest && int_nonneg partIndex && int_nonneg start && is_safe_integer end_ && (0 <? end_)
       && headroomHash_ok textDigest && (start <? end_)
     end.

Definition COMPLETED_TOOL_STATUSES : list jstr :=
  [js "completed"; js "error"; js "ok"; js "success"; js "failed"].
Definition completed (status : jstr) : bool := existsb (jeqb status) COMPLETED_TOOL_STATUSES.

Definition part_settled (p : Part) : bool :=
  match p with PText _ => true | PTool _ _ _ st => completed (ts_status st) end.

(** ** Validation *)

Record EditRange := mkER { er_start : nat; er_end : nat; er_replacement : ChatMessage }.

Record OpState := mkOS {
  os_ranges : list EditRange;
  os_parts : list (nat * list (nat * list ViewOperation));
  os_whole : list nat;
  os_ids : list jstr }.

(** [byId]: fails on a duplicate id. *)
Fixpoint index_messages (i : nat) (messages : list ChatMessage) (byId : list (jstr * nat)) : result FailStatus (list (jstr * nat)) :=
  match messages with
  | [] => Ok byId
  | m :: r => throw_if has (m_id m) byId with FInvalid in index_messages (S i) r (set_key (m_id m) i byId)
  end.

Section Materialize.
Context (sha256Hex : jstr → jstr).

Definition textDigest_of (text : jstr) : jstr := sha256Hex text.

(** The loop over the snapshot: the digests of the validated prefix. *)
Fixpoint check_snapshot (messages : list ChatMessage) (ids digests : list jstr) {struct ids} : result FailStatus (list jstr) :=
  match ids, digests with
  | [], _ => Ok []
  | id :: ids', d :: digests' =>
    match messages with
    | m :: r =>
      throw_if negb (jeqb (m_id m) id) with FInvalid in
      throw_if negb (jeqb (contentDigest sha256Hex m) d) with FInvalid in
      let! rest := check_snapshot r ids' digests' in Ok (d :: rest)
    | [] => Throw FInvalid
    end
  | _ :: _, [] => Throw FInvalid
  end.

Section Ops.
Context (messages : list ChatMessage) (byId : list (jstr * nat)) (digests : list jstr).

Definition matches (index : nat) (digest : jstr) : bool := bool_decide (digests !! index = Some digest).

(** The loop over the messages of a range operation: the new [whole]. *)
Fixpoint range_loop (index : nat) (ids ds : list jstr) (parts : list (nat * list (nat * list ViewOperation))) (whole : list nat) :
    result FailStatus (list nat) :=
  match ids with
  | [] => Ok whole
  | id :: ids' =>
    match messages !! index with
    | None => Throw FInvalid
    | Some m =>
      throw_if negb (jeqb (m_id m) id) || is_true (m_protected m) || bool_decide (index ∈ whole)
               || has index parts || negb (matches index (default [] (head ds))) with FInvalid in
      throw_if existsb (λ p, negb (part_settled p)) (m_parts m) with FInvalid in
      range_loop (S index) ids' (tail ds) parts (whole ++ [index])
    end
  end.

Definition add_edit (index partIndex : nat) (op : ViewOperation) (parts : list (nat * list (nat * list ViewOperation))) :=
  let messageParts := default [] (get index parts) in
  let edits := default [] (get partIndex messageParts) in
  set_key index (set_key partIndex (edits ++ [op]) messageParts) parts.

Definition op_step (st : OpState) (op : ViewOperation) : result FailStatus OpState :=
  throw_if negb (viewOperation_ok op) || bool_decide (operationId (op_base op) ∈ os_ids st) with FInvalid in
  let ids' := os_ids st ++ [operationId (op_base op)] in
  match op with
  | OpRange _ ids ds replacement =>
    throw_if negb (zlen ids =? zlen ds) || negb (distinct ids) with FInvalid in
    match get (default [] (head ids)) byId with
    | None => Throw FNoMatch
    | Some start =>
      let! whole := range_loop start ids ds (os_parts st) (os_whole st) in
      let stop := (start + length ids)%nat in
      let misplaced := match get (m_id replacement) byId with
                       | Some r => (r <? start)%nat || (stop <=? r)%nat
                       | None => false
                       end in
      throw_if misplaced with FInvalid in
      Ok (mkOS (os_ranges st ++ [mkER start stop replacement]) (os_parts st) whole ids')
    end
  | OpTool _ mid digest partIndex outputDigest _ =>
    match get mid byId with
    | None => Throw FNoMatch
    | Some index =>
      let m := messages !! index in
      throw_if match m with None => true | Some m => is_true (m_protected m) || bool_decide (index ∈ os_whole st) || negb (matches index digest) end with FInvalid in
      match m ≫= λ m, m_parts m !! Z.to_nat partIndex with
      | Some (PTool _ _ _ ts) =>
        throw_if negb (completed (ts_status ts)) || negb (jeqb (textDigest_of (default [] (ts_output ts))) outputDigest) with FInvalid in
        Ok (mkOS (os_ranges st) (add_edit index (Z.to_nat partIndex) op (os_parts st)) (os_whole st) ids')
      | _ => Throw FInvalid
      end
    end
  | OpText _ mid digest partIndex start end_ textDigest _ =>
    match get mid byId with
    | None => Throw FNoMatch
    | Some index =>
      let m := messages !! index in
      throw_if match m with None => true | Some m => is_true (m_protected m) || bool_decide (index ∈ os_whole st) || negb (matches index digest) end with FInvalid in
      match m ≫= λ m, m_parts m !! Z.to_nat partIndex with
      | Some (PText text) =>
        throw_if (end_ <=? start) || (zlen text <? end_)
                 || negb (jeqb (textDigest_of (slice text (Z.to_nat start) (Z.to_nat end_))) textDigest) with FInvalid in
        Ok (mkOS (os_ranges st) (add_edit index (Z.to_nat partIndex) op (os_parts st)) (os_whole st) ids')
      | _ => Throw FInvalid
      end
    end
  end.

Fixpoint op_loop (st : OpState) (ops : list ViewOperation) : result FailStatus OpState :=
  match ops with
  | [] => Ok st
  | op :: r => let! st' := op_step st op in op_loop st' r
  end.
End Ops.

(** ** Edits of one part *)

Definition edit_start (op : ViewOperation) : Z := match op with OpText _ _ _ _ s _ _ _ => s | _ => 0 end.
Definition edit_cmp (a b : ViewOperation) : Z := edit_start a - edit_start b.

(** Adjacent edits must be text ranges that do not overlap. *)
Fixpoint edits_disjoint (edits : list ViewOperation) : bool :=
  match edits with
  | previous :: rest =>
    match rest with
    | current :: _ =>
      match previous, current with
      | OpText _ _ _ _ _ e _ _, OpText _ _ _ _ s _ _ _ => (e <=? s) && edits_disjoint rest
      | _, _ => false
      end
    | [] => true
    end
  | [] => true
  end.

(** The chunks of an edited text, from position [end_]. *)
Fixpoint text_chunks (text : jstr) (pos : Z) (edits : list ViewOperation) : option (list jstr) :=
  match edits with
  | [] => Some [drop (Z.to_nat pos) text]
  | OpText _ _ _ _ s e _ replacement :: r =>
    rest ← text_chunks text e r; Some (slice text (Z.to_nat pos) (Z.to_nat s) :: replacement :: rest)
  | _ :: _ => None
  end.

Definition edit_part (part : Part) (edits : list ViewOperation) : result FailStatus Part :=
  match edits, part with
  | OpTool _ _ _ _ _ replacement :: _, PTool tool callId input st =>
    Ok (PTool tool callId input (mkTS (ts_status st) (ts_error st) (Some replacement)))
  | _ :: _, PText text =>
    match text_chunks text 0 edits with Some chunks => Ok (PText (concat chunks)) | None => Throw FInvalid end
  | _, _ => Ok part
  end.

Fixpoint edit_parts (original parts : list Part) (messageParts : list (nat * list ViewOperation)) : result FailStatus (list Part) :=
  match messageParts with
  | [] => Ok parts
  | (partIndex, edits) :: r =>
    match original !! partIndex with
    | Some part => let! p := edit_part part edits in edit_parts original (<[partIndex := p]> parts) r
    | None => Throw FInvalid
    end
  end.

Fixpoint edit_messages (messages next : list ChatMessage) (parts : list (nat * list (nat * list ViewOperation))) : result FailStatus (list ChatMessage) :=
  match parts with
  | [] => Ok next
  | (index, messageParts) :: r =>
    match messages !! index with
    | Some m =>
      let! ps := edit_parts (m_parts m) (m_parts m) messageParts in
      edit_messages messages (<[index := mkMsg (m_id m) (m_role m) ps (m_protected m) (m_archive m)]> next) r
    | None => Throw FInvalid
    end
  end.

(** Each edited part's operations sorted once. *)
Definition sort_edits (parts : list (nat * list (nat * list ViewOperation))) :=
  map (λ im, (im.1, map (λ pe, (pe.1, sort_by edit_cmp pe.2)) im.2)) parts.

(** ** Streaming the ranges *)

Definition range_cmp (a b : EditRange) : Z := Z.of_nat (er_start a) - Z.of_nat (er_start b).

Fixpoint stream_ranges (next : list ChatMessage) (cursor : nat) (ranges : list EditRange) : list ChatMessage :=
  match ranges with
  | [] => drop cursor next
  | r :: rest => take (er_start r - cursor) (drop cursor next) ++ er_replacement r :: stream_ranges next (er_end r) rest
  end.

(** ** The operation *)

Definition materialize (messages : list ChatMessage) (operations : list ViewOperation) (snapshot : option SourceSnapshot) :
    result FailStatus (list ChatMessage) :=
  match operations, snapshot with
  | _ :: _, Some snap =>
    let! byId := index_messages 0 messages [] in
    throw_if negb (zlen (sn_messageIds snap) =? zlen (sn_sourceDigests snap)) || negb (distinct (sn_messageIds snap)) with FInvalid in
    let! digests := check_snapshot messages (sn_messageIds snap) (sn_sourceDigests snap) in
    let! st := op_loop messages byId digests (mkOS [] [] [] []) operations in
    let parts := sort_edits (os_parts st) in
    throw_if negb (forallb (λ im, forallb (λ pe, edits_disjoint pe.2) im.2) parts) with FInvalid in
    let! next := edit_messages messages messages parts in
    let output := stream_ranges next 0 (sort_by range_cmp (os_ranges st)) in
    throw_if negb (distinct (map m_id output)) with FInvalid in
    Ok output
  | _, _ => Throw FInvalid
  end.

Definition materializeOperations (messages : list ChatMessage) (operations : list ViewOperation) (snapshot : option SourceSnapshot) :
    Materialized :=
  match materialize messages operations snapshot with
  | Ok output => mkMat SApplied output
  | Throw status => mkMat (failed status) messages
  end.
End Materialize.

(** ** What validation establishes *)

Definition op_targets (op : ViewOperation) : list jstr :=
  match op with OpRange _ ids _ _ => ids | OpTool _ mid _ _ _ _ | OpText _ mid _ _ _ _ _ _ => [mid] end.

Definition range_indices (r : EditRange) : list nat := seq (er_start r) (er_end r - er_start r).

Section Sound.
Context (sha256Hex : jstr → jstr) (messages : list ChatMessage) (byId : list (jstr * nat)) (digests : list jstr).

(** An index an operation may touch on behalf of [targets]. *)
Definition touchable (targets : list jstr) (i : nat) : Prop :=
  ∃ m, messages !! i = Some m ∧ m_id m ∈ targets ∧ is_true (m_protected m) = false ∧ (i < length digests)%nat.

Record ops_ok (st : OpState) (targets : list jstr) : Prop := {
  oo_whole : os_whole st = flat_map range_indices (os_ranges st);
  oo_nodup : NoDup (os_whole st);
  oo_nonempty : Forall (λ r, (er_start r < er_end r)%nat) (os_ranges st);
  oo_touch : Forall (touchable targets) (os_whole st ++ (os_parts st).*1);
  oo_targets : Forall (λ id, ∃ i, touchable targets i ∧ m_id <$> messages !! i = Some id) targets }.

Lemma matches_lt i d : matches digests i d = true → (i < length digests)%nat.
Proof. unfold matches. intros H%bool_decide_eq_true. by eapply lookup_lt_Some. Qed.

Lemma range_loop_ok index ids ds parts whole w :
  range_loop messages digests index ids ds parts whole = Ok w → NoDup whole →
  w = whole ++ seq index (length ids) ∧ NoDup w
  ∧ ∀ k id, ids !! k = Some id → ∃ m, messages !! (index + k)%nat = Some m ∧ m_id m = id
      ∧ is_true (m_protected m) = false ∧ (index + k < length digests)%nat.
Proof.
  revert index ds whole. induction ids as [|id ids IH]; intros index ds whole; cbn [range_loop].
  { intros [= <-] Hd. simpl. rewrite app_nil_r. split_and!; [done|done|]. by intros k id. }
  destruct (messages !! index) as [m|] eqn:Em; [|done].
  destruct (negb (jeqb _ _) || _ || _ || _ || _) eqn:E1; [done|]. destruct (existsb _ _); [done|]. bool_prop.
  intros Hw Hd. apply IH in Hw as (-> & Hnd & Hk).
  2: { apply NoDup_app. split; [done|]. split; [|apply NoDup_singleton]. by intros x Hx ->%list_elem_of_singleton. }
  split_and!; [by rewrite <- app_assoc|by rewrite <- app_assoc in Hnd; rewrite <- app_assoc|].
  intros [|k] id' Hid; simpl in Hid.
  - simplify_eq. rewrite Nat.add_0_r. exists m. split_and!; [done|by apply jeqb_eq|done|by eapply matches_lt].
  - destruct (Hk k id' Hid) as (m' & ? & ? & ? & ?). exists m'. replace (index + S k)%nat with (S index + k)%nat by lia. auto.
Qed.

Lemma touchable_more targets targets' i : targets ⊆ targets' → touchable targets i → touchable targets' i.
Proof. intros Hs (m & ? & ? & ?). exists m. auto. Qed.

Lemma targets_more targets new :
  Forall (λ id, ∃ i, touchable targets i ∧ m_id <$> messages !! i = Some id) targets →
  Forall (λ id, ∃ i, touchable (targets ++ new) i ∧ m_id <$> messages !! i = Some id) new →
  Forall (λ id, ∃ i, touchable (targets ++ new) i ∧ m_id <$> messages !! i = Some id) (targets ++ new).
Proof.
  intros H1 H2. apply Forall_app. split; [|done]. eapply Forall_impl; [exact H1|].
  intros id (i & Ht & ?). exists i. split; [|done]. eapply touchable_more; [|done]. set_solver.
Qed.

(** One edit of a part of message [index]. *)
Lemma add_edit_ok st targets index p op ids m :
  ops_ok st targets → messages !! index = Some m → is_true (m_protected m) = false → (index < length digests)%nat →
  ops_ok (mkOS (os_ranges st) (add_edit index p op (os_parts st)) (os_whole st) ids) (targets ++ [m_id m]).
Proof.
  intros [H1 H2 H3 H4 H5] Hm Hp Hi. assert (touchable (targets ++ [m_id m]) index) as Ht by (exists m; set_solver).
  split; cbn [os_whole os_ranges os_parts]; try done.
  - apply Forall_app in H4 as [H4 H4']. apply Forall_app.
    assert (∀ l, Forall (touchable targets) l → Forall (touchable (targets ++ [m_id m])) l) as Hmore.
    { intros l Hl. eapply Forall_impl; [exact Hl|]. intros i. apply touchable_more. set_solver. }
    split; [auto|]. unfold add_edit. rewrite keys_set. destruct (has _ _); [auto|]. apply Forall_app. split; [auto|]. by constructor.
  - apply targets_more; [done|]. constructor; [|constructor]. exists index. split; [done|]. by rewrite Hm.
Qed.

Lemma get_index_ok : (∀ id i, get id byId = Some i → m_id <$> messages !! i = Some id) →
  ∀ st op st' targets,
  op_step sha256Hex messages byId digests st op = Ok st' → ops_ok st targets → ops_ok st' (targets ++ op_targets op).
Proof.
  intros Hby st op st' targets. unfold op_step. destruct (_ || _) eqn:Eop; [done|]. bool_prop.
  destruct op as [b ids ds rep|b mid d p od rep|b mid d p s e td rep]; cbn [op_targets] in *.
  - destruct (negb _ || _) eqn:E1; [done|]. destruct (get (default [] (head ids)) byId) as [start|] eqn:Eg; [|done].
    destruct (range_loop _ _ _ _ _ _ _) as [w|] eqn:Er; cbn [rbind]; [|done].
    destruct (match get (m_id rep) byId with Some _ => _ | None => _ end); [done|]. intros [= <-] [H1 H2 H3 H4 H5].
    apply range_loop_ok in Er as (-> & Hnd & Hk); [|done].
    assert (∀ k id, ids !! k = Some id → touchable (targets ++ ids) (start + k) ∧ m_id <$> messages !! (start + k)%nat = Some id) as Ht.
    { intros k id Hid. destruct (Hk k id Hid) as (m & Hm & <- & Hp & Hi). split; [|by rewrite Hm].
      exists m. split_and!; try done. apply elem_of_app. right. by eapply list_elem_of_lookup_2. }
    assert (0 < length ids)%nat as Hlen.
    { unfold viewOperation_ok in H. bool_prop. lia. }
    split; cbn [os_whole os_ranges os_parts].
    + rewrite flat_map_app, <- H1. f_equal. cbn [flat_map]. rewrite app_nil_r. unfold range_indices. cbn [er_start er_end]. f_equal. lia.
    + done.
    + apply Forall_app. split; [done|]. constructor; [simpl; lia|constructor].
    + apply Forall_app in H4 as [H4 H4'].
      assert (∀ l, Forall (touchable targets) l → Forall (touchable (targets ++ ids)) l) as Hmore.
      { intros l Hl. eapply Forall_impl; [exact Hl|]. intros i. apply touchable_more. set_solver. }
      repeat (apply Forall_app; split); auto. apply Forall_forall. intros i Hi%elem_of_seq.
      destruct (lookup_lt_is_Some_2 ids (i - start)) as [id Hid]; [lia|].
      apply Ht in Hid as [Hid _]. by replace (start + (i - start))%nat with i in Hid by lia.
    + apply targets_more; [done|]. apply Forall_forall. intros id (k & Hid)%list_elem_of_lookup. exists (start + k)%nat. by apply Ht.
  - destruct (get mid byId) as [index|] eqn:Eg; [|done]. destruct (messages !! index) as [m|] eqn:Em; [|done].
    cbv beta iota zeta.
    destruct (is_true (m_protected m) || _ || _) eqn:E1; [done|]. cbn [mbind option_bind]. destruct (m_parts m !! Z.to_nat p) as [[|? ? ? ts]|]; try done.
    destruct (negb (completed _) || _); [done|]. intros [= <-] Hok. bool_prop. pose proof (Hby _ _ Eg) as Hid. rewrite Em in Hid.
    injection Hid as <-. by apply add_edit_ok; try done; eapply matches_lt.
  - destruct (get mid byId) as [index|] eqn:Eg; [|done]. destruct (messages !! index) as [m|] eqn:Em; [|done].
    cbv beta iota zeta.
    destruct (is_true (m_protected m) || _ || _) eqn:E1; [done|]. cbn [mbind option_bind]. destruct (m_parts m !! Z.to_nat p) as [[text|]|]; try done.
    destruct ((_ <=? _) || _ || _); [done|]. intros [= <-] Hok. bool_prop. pose proof (Hby _ _ Eg) as Hid. rewrite Em in Hid.
    injection Hid as <-. by apply add_edit_ok; try done; eapply matches_lt.
Qed.

Lemma op_loop_ok : (∀ id i, get id byId = Some i → m_id <$> messages !! i = Some id) →
  ∀ ops st st' targets,
  op_loop sha256Hex messages byId digests st ops = Ok st' → ops_ok st targets → ops_ok st' (targets ++ flat_map op_targets ops).
Proof.
  intros Hby ops. induction ops as [|op ops IH]; intros st st' targets; cbn [op_loop flat_map].
  { intros [= <-]. by rewrite app_nil_r. }
  intros (st1 & H1 & H2)%rbind_ok Hok. rewrite app_assoc. eapply IH; [exact H2|]. by eapply get_index_ok.
Qed.
End Sound.

(** ** Edited messages keep their place and identity *)

Lemma map_lookup {A B} (f : A → B) l i : map f l !! i = f <$> l !! i.
Proof. revert i. induction l as [|x l IH]; intros [|i]; simpl; auto. Qed.

Lemma map_insert {A B} (f : A → B) l i x : map f (<[i := x]> l) = <[i := f x]> (map f l).
Proof. revert i. induction l as [|y l IH]; intros [|i]; simpl; try done. by rewrite <- IH. Qed.

Lemma edit_messages_ok messages next parts next' :
  edit_messages messages next parts = Ok next' → map m_id next = map m_id messages →
  map m_id next' = map m_id messages ∧ ∀ i, i ∉ parts.*1 → next' !! i = next !! i.
Proof.
  revert next. induction parts as [|[index mp] parts IH]; intros next; cbn [edit_messages].
  { intros [= <-]. auto. }
  destruct (messages !! index) as [m|] eqn:Em; [|done]. intros (ps & _ & H)%rbind_ok Hids.
  set (m' := mkMsg (m_id m) (m_role m) ps (m_protected m) (m_archive m)) in H.
  apply IH in H as (H1 & H2).
  - split; [done|]. intros i Hi. rewrite fmap_cons in Hi. rewrite H2 by set_solver.
    apply list_lookup_insert_ne. set_solver.
  - rewrite map_insert, <- Hids. apply list_insert_id. rewrite Hids, map_lookup, Em. done.
Qed.

(** ** Streaming keeps what no range covers *)

Fixpoint chained (cursor : nat) (ranges : list EditRange) : Prop :=
  match ranges with
  | [] => True
  | r :: rest => (cursor <= er_start r < er_end r)%nat ∧ chained (er_end r) rest
  end.

Lemma filter_none {A} (P : A → bool) l : (∀ x, x ∈ l → P x = false) → List.filter P l = [].
Proof.
  induction l as [|x l IH]; intros H; [done|]. simpl. rewrite H by (by left). apply IH. intros y Hy. apply H. by right.
Qed.

Lemma stream_keeps (P : ChatMessage → bool) next ranges cursor :
  chained cursor ranges →
  (∀ r i m, r ∈ ranges → (er_start r <= i < er_end r)%nat → next !! i = Some m → P m = false) →
  List.filter P (drop cursor next) `sublist_of` stream_ranges next cursor ranges.
Proof.
  revert cursor. induction ranges as [|r rest IH]; intros cursor Hc Hp; cbn [stream_ranges].
  { induction (drop cursor next) as [|x l IHl]; simpl; [done|]. destruct (P x); [by apply sublist_skip|by apply sublist_cons]. }
  destruct Hc as [Hr Hc].
  rewrite <- (take_drop (er_start r - cursor) (drop cursor next)) at 1. rewrite drop_drop, List.filter_app.
  replace (cursor + (er_start r - cursor))%nat with (er_start r) by lia.
  apply sublist_app.
  { induction (take _ _) as [|x l IHl]; simpl; [done|]. destruct (P x); [by apply sublist_skip|by apply sublist_cons]. }
  apply sublist_cons. rewrite <- (take_drop (er_end r - er_start r) (drop (er_start r) next)), drop_drop, List.filter_app.
  replace (er_start r + (er_end r - er_start r))%nat with (er_end r) by lia.
  rewrite filter_none; [apply IH; [done|]; intros r' i m Hr'; apply Hp; by right|].
  intros x (i & Hx)%list_elem_of_lookup. apply lookup_take_Some in Hx as [Hx Hi]. rewrite lookup_drop in Hx.
  eapply (Hp r); [by left| |exact Hx]. lia.
Qed.

Lemma filter_same (P : ChatMessage → bool) l l' :
  map m_id l = map m_id l' → (∀ i m, l !! i = Some m → P m = true → l' !! i = Some m) →
  (∀ m m', m_id m = m_id m' → P m = P m') → List.filter P l = List.filter P l'.
Proof.
  intros Hids Hs HP. revert l' Hids Hs. induction l as [|x l IH]; intros [|y l'] Hids Hs; try done.
  injection Hids as Hxy Hids. cbn [List.filter]. rewrite <- (HP x y Hxy).
  rewrite (IH l' Hids) by (intros i m Hm; apply (Hs (S i) m Hm)).
  destruct (P x) eqn:E; [|done]. specialize (Hs O x eq_refl E). simpl in Hs. by simplify_eq.
Qed.

#[export] Instance range_cmp_order : CmpOrder range_cmp.
Proof.
  split; [intros x y|intros x y z]; unfold cmp_le, range_cmp; lia.
Qed.

Lemma chained_sorted cursor ranges :
  StronglySorted (cmp_le range_cmp) ranges → NoDup (flat_map range_indices ranges) →
  Forall (λ r, (er_start r < er_end r)%nat) ranges → Forall (λ r, (cursor <= er_start r)%nat) ranges → chained cursor ranges.
Proof.
  intros Hs. revert cursor. induction Hs as [|r rest Hs IH Hall]; intros cursor Hd Hne Hc; [done|].
  cbn [flat_map chained] in *. apply Forall_cons in Hne as [Hr Hne]. apply Forall_cons in Hc as [Hc _].
  apply NoDup_app in Hd as (_ & Hdis & Hd). split; [lia|]. apply IH; [done|done|].
  apply Forall_forall. intros r' Hr'. rewrite Forall_forall in Hall, Hne. specialize (Hall r' Hr'). specialize (Hne r' Hr').
  unfold cmp_le, range_cmp in Hall. destruct (decide (er_end r <= er_start r')%nat); [done|]. exfalso.
  apply (Hdis (er_start r')).
  - unfold range_indices. apply elem_of_seq. lia.
  - rewrite list_elem_of_In. apply in_flat_map. exists r'. rewrite <- !list_elem_of_In. split; [done|].
    unfold range_indices. apply elem_of_seq. lia.
Qed.

Lemma flat_map_perm {A B} (f : A → list B) l l' : l ≡ₚ l' → flat_map f l ≡ₚ flat_map f l'.
Proof.
  induction 1; simpl; [done|by f_equiv| |by etransitivity]. rewrite !app_assoc. f_equiv. apply Permutation_app_comm.
Qed.

Lemma index_messages_ok messages i byId r :
  index_messages i messages byId = Ok r → ∀ id k, get id r = Some k → get id byId = Some k ∨ m_id <$> messages !! (k - i)%nat = Some id ∧ (i <= k)%nat.
Proof.
  revert i byId. induction messages as [|m messages IH]; intros i byId; cbn [index_messages]; [intros [= <-]; auto|].
  destruct (has (m_id m) byId); [done|]. intros H id k Hk. apply (IH _ _ H) in Hk as [Hk|[Hk ?]].
  - destruct (decide (id = m_id m)) as [->|Hne]; [|rewrite get_set_ne in Hk by done; auto].
    rewrite get_set_eq in Hk. simplify_eq. right. rewrite Nat.sub_diag. split; [done|lia].
  - right. replace (k - i)%nat with (S (k - S i))%nat by lia. split; [done|lia].
Qed.

Lemma check_snapshot_ok sha messages ids digests ds :
  check_snapshot sha messages ids digests = Ok ds →
  length ds = length ids ∧ ∀ i id, ids !! i = Some id → ∃ m, messages !! i = Some m ∧ m_id m = id ∧ digests !! i = Some (contentDigest sha m).
Proof.
  revert messages digests ds. induction ids as [|id ids IH]; intros messages digests ds; cbn [check_snapshot].
  { intros [= <-]. done. }
  destruct digests as [|d digests]; [done|]. destruct messages as [|m messages]; [done|].
  destruct (jeqb (m_id m) id) eqn:E1; [|done]. destruct (jeqb (contentDigest sha m) d) eqn:E2; [|done]. cbn [negb].
  intros (rest & H & [= <-])%rbind_ok. apply IH in H as [H1 H2]. apply jeqb_eq in E1, E2. split; [simpl; lia|].
  intros [|i] id' Hid; simpl in *; [simplify_eq; exists m; auto|by apply H2].
Qed.

(** ** Editing a text in one pass *)

(** One edit on its own. *)
Definition splice_one (op : ViewOperation) (text : jstr) : jstr :=
  match op with
  | OpText _ _ _ _ s e _ replacement => take (Z.to_nat s) text ++ replacement ++ drop (Z.to_nat e) text
  | _ => text
  end.

Definition text_edit_in (n : Z) (op : ViewOperation) : Prop :=
  match op with OpText _ _ _ _ s e _ _ => 0 <= s < e ∧ e <= n | _ => False end.

Definition starts_from (pos : Z) (edits : list ViewOperation) : Prop :=
  match edits with op :: _ => pos <= edit_start op | [] => True end.

Lemma text_chunks_spec text edits pos :
  0 <= pos <= zlen text → Forall (text_edit_in (zlen text)) edits → edits_disjoint edits = true → starts_from pos edits →
  ∃ chunks, text_chunks text pos edits = Some chunks
    ∧ concat chunks = drop (Z.to_nat pos) (foldr splice_one text edits)
    ∧ take (Z.to_nat pos) (foldr splice_one text edits) = take (Z.to_nat pos) text
    ∧ zlen text - zlen (foldr splice_one text edits) <= zlen text - pos.
Proof.
  revert pos. induction edits as [|op edits IH]; intros pos Hp He Hd Hs; cbn [text_chunks foldr].
  { eexists. split; [done|]. simpl. rewrite app_nil_r. split_and!; [done|done|lia]. }
  apply Forall_cons in He as [Ho He]. destruct op as [| |b mid d p s e td rep]; [done|done|]. cbn [text_edit_in] in Ho.
  cbn [starts_from edit_start] in Hs.
  destruct (IH e) as (chunks & -> & Hc & Ht & _); [lia|done| | |].
  { cbn [edits_disjoint] in Hd. destruct edits as [|[| |]]; try done. by apply andb_true_iff in Hd as [_ Hd]. }
  { cbn [edits_disjoint] in Hd. destruct edits as [|[| |]]; try done. apply andb_true_iff in Hd as [Hd _]. simpl. by apply Z.leb_le in Hd. }
  cbn [mbind option_bind]. eexists. split; [done|]. cbn [concat splice_one]. rewrite Hc.
  set (t := foldr splice_one text edits) in *.
  assert (take (Z.to_nat s) t = take (Z.to_nat s) text) as Hts.
  { transitivity (take (Z.to_nat s) (take (Z.to_nat e) t)); [by rewrite take_take, Nat.min_l by lia|].
    rewrite Ht, take_take. by rewrite Nat.min_l by lia. }
  assert (length (take (Z.to_nat s) text) = Z.to_nat s) as Hl by (rewrite length_take_le; lia).
  rewrite Hts. split_and!.
  - rewrite drop_app_le by lia. f_equal. unfold slice. rewrite skipn_firstn_comm. done.
  - rewrite take_app_le by lia. rewrite take_take. by rewrite Nat.min_l by lia.
  - rewrite !length_app. lia.
Qed.

(** ** What a successful application establishes *)

Lemma materialize_sound sha256Hex messages operations snapshot output :
  materialize sha256Hex messages operations snapshot = Ok output →
  ∃ snap, snapshot = Some snap
    ∧ NoDup (map m_id output)
    ∧ (∀ i id, sn_messageIds snap !! i = Some id → ∃ m, messages !! i = Some m ∧ m_id m = id
         ∧ sn_sourceDigests snap !! i = Some (contentDigest sha256Hex m))
    ∧ (∀ op id, op ∈ operations → id ∈ op_targets op → ∃ i m, messages !! i = Some m ∧ m_id m = id
         ∧ is_true (m_protected m) = false ∧ (i < length (sn_messageIds snap))%nat)
    ∧ List.filter (λ m, negb (bool_decide (m_id m ∈ flat_map op_targets operations))) messages `sublist_of` output.
Proof.
  intros E. unfold materialize in E. destruct operations as [|op ops]; [done|]. destruct snapshot as [snap|]; [|done].
  set (operations := op :: ops) in *.
  apply rbind_ok in E as (byId & Hby & E). destruct (negb (zlen _ =? _) || _); [done|].
  apply rbind_ok in E as (digests & Hdig & E). apply rbind_ok in E as (st & Hst & E).
  destruct (negb (forallb _ _)); [done|]. apply rbind_ok in E as (next & Hnext & E).
  destruct (negb (distinct _)) eqn:Ed; [done|]. injection E as <-. apply negb_false_iff, bool_decide_eq_true in Ed.
  apply check_snapshot_ok in Hdig as [Hlen Hdig].
  assert (ops_ok messages digests st (flat_map op_targets operations)) as [H1 H2 H3 H4 H5].
  { eapply (op_loop_ok _ _ _ _ _ operations _ _ []) in Hst; [exact Hst|].
    split; try constructor. Unshelve.
    intros id i Hi. eapply index_messages_ok in Hby as [?|[Hk _]]; [done| |exact Hi]. by rewrite Nat.sub_0_r in Hk. }
  exists snap. split_and!; [done|done|exact Hdig| |].
  - intros op' id Hop Hid. rewrite Forall_forall in H5. destruct (H5 id) as (i & (m & Hm & _ & Hp & Hi) & Hid').
    { apply list_elem_of_In, in_flat_map. exists op'. by rewrite <- !list_elem_of_In. }
    rewrite Hm in Hid'. injection Hid' as Hid'. exists i, m. rewrite <- Hlen. auto.
  - set (P := λ m, negb (bool_decide (m_id m ∈ flat_map op_targets operations))).
    apply edit_messages_ok in Hnext as [Hids Hsame]; [|done].
    assert (List.filter P messages = List.filter P next) as ->.
    { apply filter_same; [by rewrite Hids| |intros m m' Em; unfold P; by rewrite Em]. intros i m Hm HP. rewrite <- Hm. apply Hsame.
      intros Hin. apply Forall_app in H4 as [_ H4]. unfold sort_edits in Hin.
      assert ((map (λ im : nat * list (nat * list ViewOperation), (im.1, map (λ pe, (pe.1, sort_by edit_cmp pe.2)) im.2)) (os_parts st)).*1 = (os_parts st).*1) as Hk
        by (clear; induction (os_parts st) as [|[k v] l IH]; [done|]; cbn [map]; by rewrite !fmap_cons, IH).
      rewrite Hk in Hin. rewrite Forall_forall in H4. destruct (H4 i Hin) as (m' & Hm' & Ht & _).
      rewrite Hm in Hm'. simplify_eq. unfold P in HP. by rewrite bool_decide_true in HP. }
    rewrite <- (drop_0 next) at 1. apply stream_keeps.
    + pose proof (sort_by_perm range_cmp (os_ranges st)) as Hp. apply chained_sorted.
      * apply sort_by_sorted, _.
      * rewrite (flat_map_perm _ _ _ Hp). by rewrite <- H1.
      * by rewrite Hp.
      * apply Forall_forall. intros. lia.
    + intros r' i m Hr Hi Hm. rewrite sort_by_perm in Hr. apply Forall_app in H4 as [H4 _]. rewrite H1, Forall_forall in H4.
      destruct (H4 i) as (m' & Hm' & Ht & _).
      { apply list_elem_of_In, in_flat_map. exists r'. rewrite <- !list_elem_of_In. split; [done|]. apply elem_of_seq. lia. }
      assert (m_id m = m_id m') as Hid.
      { assert (map m_id next !! i = map m_id messages !! i) as E by (by rewrite Hids). rewrite !map_lookup, Hm, Hm' in E. by injection E. }
      unfold P. rewrite Hid. by rewrite bool_decide_true.
Qed.

(** ** What each operation was checked against *)

(** The statuses of a tool call that is over. *)
Definition settled (p : Part) : Prop :=
  ∀ tool callId input st, p = PTool tool callId input st →
    ts_status st ∈ [js "completed"; js "error"; js "ok"; js "success"; js "failed"].

Section Justified.
Context (sha256Hex : jstr → jstr) (messages : list ChatMessage) (covered : nat).

(** The message [id] is the one at [i]: unprotected, inside the snapshot, of this digest. *)
Definition editable (i : nat) (id digest : jstr) (m : ChatMessage) : Prop :=
  messages !! i = Some m ∧ m_id m = id ∧ is_true (m_protected m) = false ∧ (i < covered)%nat ∧ digest = contentDigest sha256Hex m.
(** An operation whose digests are those of what it replaces: the whole
    consecutive messages, the output of a call that is over, or the
    range of a text. *)
Definition justified (op : ViewOperation) : Prop :=
  match op with
  | OpRange _ ids digests _ => length digests = length ids ∧ ∃ start, ∀ k id digest, ids !! k = Some id → digests !! k = Some digest →
      ∃ m, editable (start + k) id digest m ∧ Forall settled (m_parts m)
  | OpTool _ id digest partIndex outputDigest _ => ∃ i m tool callId input st,
      editable i id digest m ∧ m_parts m !! Z.to_nat partIndex = Some (PTool tool callId input st)
      ∧ settled (PTool tool callId input st) ∧ outputDigest = sha256Hex (default [] (ts_output st))
  | OpText _ id digest partIndex start end_ textDigest _ => ∃ i m text,
      editable i id digest m ∧ m_parts m !! Z.to_nat partIndex = Some (PText text)
      ∧ start < end_ <= zlen text ∧ textDigest = sha256Hex (slice text (Z.to_nat start) (Z.to_nat end_))
  end.

Lemma completed_settled tool callId input st : completed (ts_status st) = true → settled (PTool tool callId input st).
Proof.
  unfold completed. intros (s & Hs & Heq)%existsb_exists tool' callId' input' st' [= <- <- <- <-].
  apply jeqb_eq in Heq as ->. by apply list_elem_of_In.
Qed.
Lemma part_settled_ok p : part_settled p = true → settled p.
Proof. destruct p as [t|tool callId input st]; [done|]. apply completed_settled. Qed.

Context (byId : list (jstr * nat)) (digests : list jstr) (Hcovered : length digests = covered).
Context (Hby : ∀ id i, get id byId = Some i → m_id <$> messages !! i = Some id).
Context (Hdig : ∀ i d, digests !! i = Some d → ∃ m, messages !! i = Some m ∧ d = contentDigest sha256Hex m).

Lemma matches_editable i d m :
  messages !! i = Some m → is_true (m_protected m) = false → matches digests i d = true → editable i (m_id m) d m.
Proof.
  unfold matches. intros Hm Hp H%bool_decide_eq_true. split_and!; [done|done|done| |].
  - rewrite <- Hcovered. by eapply lookup_lt_Some.
  - destruct (Hdig i d H) as (m' & Hm' & ->). by rewrite Hm in Hm'; injection Hm' as <-.
Qed.

Lemma range_loop_justified index ids ds parts whole w :
  range_loop messages digests index ids ds parts whole = Ok w →
  ∀ k id d, ids !! k = Some id → ds !! k = Some d → ∃ m, editable (index + k) id d m ∧ Forall settled (m_parts m).
Proof.
  revert index ds whole. induction ids as [|id ids IH]; intros index ds whole; cbn [range_loop]; [by intros _ k|].
  destruct (messages !! index) as [m|] eqn:Em; [|done].
  destruct (negb (jeqb _ _) || _ || _ || _ || _) eqn:E1; [done|]. destruct (existsb _ _) eqn:Es; [done|]. intros Hw.
  intros [|k] id' d Hid Hd.
  - destruct ds as [|d0 ds]; [done|]. cbn in Hid, Hd. simplify_eq. bool_prop. rewrite Nat.add_0_r. exists m. split.
    + assert (m_id m = id') as <- by (by apply jeqb_eq). by apply matches_editable.
    + apply Forall_forall. intros p Hp. apply part_settled_ok. apply list_elem_of_In in Hp.
      destruct (part_settled p) eqn:E; [done|]. exfalso. apply not_true_iff_false in Es. apply Es, existsb_exists. exists p. by rewrite E.
  - destruct ds as [|d0 ds]; [done|]. replace (index + S k)%nat with (S index + k)%nat by lia. by apply (IH (S index) ds _ Hw).
Qed.

Lemma op_step_justified st op st' : op_step sha256Hex messages byId digests st op = Ok st' → justified op.
Proof.
  unfold op_step. destruct (_ || _); [done|]. destruct op as [b ids ds rep|b mid d p od rep|b mid d p s e td rep]; cbn [justified].
  - destruct (negb _ || _) eqn:E1; [done|]. destruct (get (default [] (head ids)) byId) as [start|]; [|done].
    destruct (range_loop _ _ _ _ _ _ _) as [w|] eqn:Er; cbn [rbind]; [|done]. intros _. bool_prop. split; [lia|].
    exists start. by eapply range_loop_justified.
  - destruct (get mid byId) as [i|] eqn:Eg; [|done]. destruct (messages !! i) as [m|] eqn:Em; [|done]. cbv beta iota zeta.
    destruct (is_true (m_protected m) || _ || _) eqn:E1; [done|]. cbn [mbind option_bind]. destruct (m_parts m !! Z.to_nat p) as [[|tool callId input ts]|] eqn:Ep; try done.
    destruct (negb (completed _) || _) eqn:E2; [done|]. intros _. bool_prop. exists i, m, tool, callId, input, ts.
    pose proof (Hby _ _ Eg) as Hid. rewrite Em in Hid. injection Hid as <-. split_and!; [by apply matches_editable|done|by apply completed_settled|symmetry; by apply jeqb_eq].
  - destruct (get mid byId) as [i|] eqn:Eg; [|done]. destruct (messages !! i) as [m|] eqn:Em; [|done]. cbv beta iota zeta.
    destruct (is_true (m_protected m) || _ || _) eqn:E1; [done|]. cbn [mbind option_bind]. destruct (m_parts m !! Z.to_nat p) as [[text|]|] eqn:Ep; try done.
    destruct ((_ <=? _) || _ || _) eqn:E2; [done|]. intros _. bool_prop. exists i, m, text.
    pose proof (Hby _ _ Eg) as Hid. rewrite Em in Hid. injection Hid as <-. split_and!; [by apply matches_editable|done|lia|lia|symmetry; by apply jeqb_eq].
Qed.

Lemma op_loop_justified ops st st' : op_loop sha256Hex messages byId digests st ops = Ok st' → Forall justified ops.
Proof.
  revert st. induction ops as [|op ops IH]; intros st; cbn [op_loop]; [constructor|].
  intros (st1 & H1 & H2)%rbind_ok. constructor; [by eapply op_step_justified|by eapply IH].
Qed.
End Justified.

Lemma snapshot_digests sha256Hex messages ids digests ds :
  check_snapshot sha256Hex messages ids digests = Ok ds → ∀ i d, ds !! i = Some d → ∃ m, messages !! i = Some m ∧ d = contentDigest sha256Hex m.
Proof.
  revert messages digests ds. induction ids as [|id ids IH]; intros messages digests ds; cbn [check_snapshot]; [by intros [= <-] i|].
  destruct digests as [|d digests]; [done|]. destruct messages as [|m messages]; [done|].
  destruct (jeqb (m_id m) id); [|done]. destruct (jeqb (contentDigest sha256Hex m) d) eqn:E; [|done]. cbn [negb].
  intros (rest & H & [= <-])%rbind_ok. apply jeqb_eq in E. intros [|i] d' Hd; cbn in *; [injection Hd as <-; by exists m|by eapply IH].
Qed.

Lemma materialize_justified sha256Hex messages operations snap output :
  materialize sha256Hex messages operations (Some snap) = Ok output →
  Forall (justified sha256Hex messages (length (sn_messageIds snap))) operations.
Proof.
  intros E. unfold materialize in E. destruct operations as [|op ops]; [done|].
  apply rbind_ok in E as (byId & Hby & E). destruct (negb (zlen _ =? _) || _); [done|].
  apply rbind_ok in E as (digests & Hdig & E). apply rbind_ok in E as (st & Hst & _).
  eapply op_loop_justified; [by apply check_snapshot_ok in Hdig as [? _]| |by eapply snapshot_digests|exact Hst].
  intros id i Hi. eapply index_messages_ok in Hby as [?|[Hk _]]; [done| |exact Hi]. by rewrite Nat.sub_0_r in Hk.
Qed.

(** ** Properties *)

(** C19: view edits are atomic and bounded by the validated snapshot.  When the
    status is not [applied] the messages are returned unchanged.  When it is:
    ids are unique in the result; every snapshot entry names the message at its
    position and carries its content digest; every operation is justified by
    what it replaces: unprotected messages inside that prefix with the digests
    it names, and, for a range, consecutive messages none of which has a tool
    call that is not over; for an output, a tool call that is over, with that output's
    digest; for a text range, a nonempty range of that text with the range's digest;
    and the messages that are no operation's target appear in the result
    unchanged and in order. *)
Theorem materializeOperations_sound sha256Hex messages operations snapshot :
  let r := materializeOperations sha256Hex messages operations snapshot in
  (mz_status r ≠ SApplied → mz_messages r = messages)
  ∧ (mz_status r = SApplied → ∃ snap, snapshot = Some snap
     ∧ NoDup (map m_id (mz_messages r))
     ∧ (∀ i id, sn_messageIds snap !! i = Some id → ∃ m, messages !! i = Some m ∧ m_id m = id
          ∧ sn_sourceDigests snap !! i = Some (contentDigest sha256Hex m))
     ∧ (∀ op id, op ∈ operations → id ∈ op_targets op → ∃ i m, messages !! i = Some m ∧ m_id m = id
          ∧ is_true (m_protected m) = false ∧ (i < length (sn_messageIds snap))%nat)
     ∧ Forall (justified sha256Hex messages (length (sn_messageIds snap))) operations
     ∧ List.filter (λ m, negb (bool_decide (m_id m ∈ flat_map op_targets operations))) messages
         `sublist_of` mz_messages r).
Proof.
  intros r. unfold r, materializeOperations. destruct (materialize _ _ _ _) as [output|status] eqn:E; cbn [mz_status mz_messages].
  - split; [done|]. intros _. destruct (materialize_sound _ _ _ _ _ E) as (snap & -> & H1 & H2 & H3 & H4).
    exists snap. split_and!; [done|done|done|done| |done]. by eapply materialize_justified.
  - split; [done|]. by destruct status.
Qed.

(** Edits of one text do not disturb one another.  Replacing several
    non-overlapping ranges in one pass gives the same text as replacing them one
    at a time from the last to the first, so every offset keeps its meaning in
    the original text. *)
Theorem edit_part_splices text edits :
  edits ≠ [] → Forall (text_edit_in (zlen text)) edits → edits_disjoint edits = true →
  edit_part (PText text) edits = Ok (PText (foldr splice_one text edits)).
Proof.
  intros Hne He Hd. destruct (text_chunks_spec text edits 0) as (chunks & Hc & Ht & _); [lia|done|done| |].
  { destruct edits as [|[| |]]; try done. apply Forall_cons in He as [Ho _]. simpl in *. lia. }
  unfold edit_part. destruct edits as [|[| |] edits]; [done| | |].
  - by apply Forall_cons in He as [? _].
  - by apply Forall_cons in He as [? _].
  - rewrite Hc. do 2 f_equal. by rewrite Ht.
Qed.

Definition demo_edit (s e : Z) (r : jstr) : ViewOperation := OpText (mkBase [] 1 []) (js "m") [] 0 s e [] r.

Lemma edit_part_splices_witness :
  edit_part (PText (js "one two three")) [demo_edit 0 3 (js "1"); demo_edit 4 7 (js "2")] = Ok (PText (js "1 2 three")).
Proof.
  rewrite (edit_part_splices (js "one two three")); [vm_compute; reflexivity|discriminate| |vm_compute; reflexivity].
  repeat constructor; vm_compute; discriminate.
Defined.

Definition demo_hash (c : Z) : jstr := repeat c 64.
Definition demo_messages : list ChatMessage :=
  [user_text (js "u1") (js "hello world"); assistant_text (js "a1") (js "x"); user_text (js "u2") (js "y")].
Definition demo_operations : list ViewOperation :=
  [OpText (mkBase (demo_hash 97) 1 (demo_hash 48)) (js "u1") (demo_hash 48) 0 6 11 (demo_hash 48) (js "there");
   OpRange (mkBase (demo_hash 98) 1 (demo_hash 48)) [js "a1"] [demo_hash 48] (user_text (js "r1") (js "archived"))].
Definition demo_snapshot : SourceSnapshot := mkSnap [js "u1"; js "a1"] [demo_hash 48; demo_hash 48].

Example materialize_ex :
  materializeOperations (λ _, demo_hash 48) demo_messages demo_operations (Some demo_snapshot)
  = mkMat SApplied [user_text (js "u1") (js "hello there"); user_text (js "r1") (js "archived"); user_text (js "u2") (js "y")].
Proof. vm_compute. reflexivity. Qed.
Example materialize_protected_ex :
  materializeOperations (λ _, demo_hash 48) (map (λ m, mkMsg (m_id m) (m_role m) (m_parts m) (Some true) None) demo_messages)
    demo_operations (Some demo_snapshot)
  = mkMat SInvalid (map (λ m, mkMsg (m_id m) (m_role m) (m_parts m) (Some true) None) demo_messages).
Proof. vm_compute. reflexivity. Qed.
