(* ===== verification/Summary.v ===== *)
(** * Memory and summaries ([packages/headroomd/src/{memory,summarize}.ts])

    Deterministic extractive memory of a history, its rendering, and the texts
    indexed for each message. *)

From stdpp Require Import base tactics list numbers option sets strings sorting.
From S2P Require Import Prelude JsString JsRegex Json Ansi CLine OMap Chat.

(** ** Memory *)

Definition SPAN_RE : regex := Eval vm_compute in re_s ".*?(?:[。！？]|[.!?](?=\s|$)|\n|$)".

Definition compactRepetition (text : jstr) : jstr :=
  let spans := List.filter (λ s, negb (is_blank s)) (map rm_text (match_all SPAN_RE text)) in
  let counts := foldl (λ m span, set_key (trim span) (default 0 (get (trim span) m) + 1) m) [] spans in
  join [LF] (map (λ kc : jstr * Z, if 1 <? kc.2 then kc.1 ++ js " [repeated " ++ dec kc.2 ++ js " times]" else kc.1) counts).

Definition FAILURE_RE : regex := Eval vm_compute in re_i "\b(fail(?:ed|ure)?|error|exception|panic)\b|失败|错误".
Definition OPEN_RE : regex := Eval vm_compute in re_i "\b(todo|pending|next|will|unresolved)\b|待办|下一步|尚未".
Definition VERIFY_RE : regex := Eval vm_compute in re_i "\b(verified|passed|success|completed)\b|验证|通过|完成".
Definition CHANGE_RE : regex := Eval vm_compute in re_i "\b(changed|updated|added|removed|fixed)\b|修改|修复|新增".

Definition category (text : jstr) : MemoryKind :=
  if test FAILURE_RE text then Kfailures
  else if test OPEN_RE text then Kopen
  else if test VERIFY_RE text then Kverification
  else if test CHANGE_RE text then Kchanges
  else Kdecisions.

(** [[...new Set(l)]] *)
Definition uniq (l : list jstr) : list jstr :=
  foldl (λ acc x, if existsb (jeqb x) acc then acc else acc ++ [x]) [] l.

Definition memory_key (e : MemoryEntry) : jstr := kind_text (me_kind e) ++ [0] ++ me_text e.

Definition add_entry (entries : list (jstr * MemoryEntry)) (entry : MemoryEntry) : list (jstr * MemoryEntry) :=
  if is_blank (me_text entry) then entries
  else
    let key := memory_key entry in
    match get key entries with
    | Some previous =>
      set_key key (mkMem (me_kind previous) (me_text previous) (uniq (me_sourceIds previous ++ me_sourceIds entry))) entries
    | None => set_key key entry entries
    end.

Definition tool_content (input : option json) (st : ToolState) : jstr :=
  join [LF] (List.filter (λ s, negb (jeqb s []))
    [match input with Some v => js "input: " ++ stringify v | None => [] end;
     default [] (ts_output st); default [] (ts_error st)]).

Definition part_entry (m : ChatMessage) (p : Part) : MemoryEntry :=
  match p with
  | PText text =>
    if bool_decide (m_role m = RUser) then mkMem Kconstraints text [m_id m]
    else mkMem (category text) (compactRepetition text) [m_id m]
  | PTool tool _ input st =>
    let content := tool_content input st in
    mkMem (if jeqb (ts_status st) (js "error") then Kfailures else category content)
      (js "tool " ++ tool ++ js " (" ++ ts_status st ++ js "): " ++ compactRepetition content) [m_id m]
  end.

(** The entries one message adds, in order. *)
Definition message_entries (m : ChatMessage) : list MemoryEntry :=
  match m_archive m with
  | Some a =>
    if jeqb (m_id m) (js "compaction-" ++ ar_historyHash a)
    then ar_memory a ++ (if 0 <? zlen (ar_memory a) then [] else map (part_entry m) (m_parts m))
    else map (part_entry m) (m_parts m)
  | None => map (part_entry m) (m_parts m)
  end.

Definition buildMemory (messages : list ChatMessage) : list MemoryEntry :=
  (foldl add_entry [] (flat_map message_entries messages)).*2.

Definition MEMORY_KINDS : list MemoryKind := [Kconstraints; Kdecisions; Kchanges; Kverification; Kfailures; Kopen].

Definition renderMemory (memory : list MemoryEntry) : jstr :=
  join [LF] (flat_map (λ kind,
    let entries := List.filter (λ e, bool_decide (me_kind e = kind)) memory in
    match entries with
    | [] => []
    | _ => (kind_text kind ++ js ":") :: map (λ e, js "[" ++ join (js ",") (me_sourceIds e) ++ js "] " ++ me_text e) entries
    end) MEMORY_KINDS).

(** ** Summaries *)

Definition SENTENCE_CAP : nat := 120.
Definition ANCHOR_CAP : nat := 100.
Definition MAX_ACTION_POINTS : nat := 3.
Definition MAX_TOOL_ANCHORS : nat := 5.

Definition SPACES_RE : regex := Eval vm_compute in re "\s+".
Definition SENTENCE_RE : regex := Eval vm_compute in re_s "^.*?(?:[。！？!?；;]|[.](?=\s|$)|\n)|^.*$".

Definition cap (text : jstr) (max : nat) : jstr :=
  let flat := trim (replace_all SPACES_RE (λ _, [32]) text) in
  if (length flat <=? max)%nat then flat else take (max - 1) flat ++ js "…".

Definition firstSentence (text : jstr) : jstr :=
  let trimmed := trim text in
  if zlen trimmed =? 0 then []
  else
    let sentence := match exec SENTENCE_RE trimmed with Some m => trim (rm_text m) | None => trim trimmed end in
    cap sentence SENTENCE_CAP.

Definition messageText (m : ChatMessage) : jstr :=
  join [LF] (omap (λ p, match p with PText t => Some t | _ => None end) (m_parts m)).

Definition firstToolOutputLine (m : ChatMessage) : list (jstr * jstr) :=
  omap (λ p, match p with
             | PTool tool _ _ st =>
               Some (tool, default [] (List.find (λ l, negb (is_blank l)) (split_on LF (default [] (ts_output st)))))
             | _ => None
             end) (m_parts m).

(** Intent: the first user message with text. *)
Definition turn_intent (messages : list ChatMessage) : list jstr :=
  match List.find (λ m, bool_decide (m_role m = RUser) && (0 <? zlen (messageText m))) messages with
  | Some m => [js "intent: " ++ firstSentence (messageText m)]
  | None => []
  end.
(** The counters of the action and anchor loops only bound how many are pushed. *)
Definition turn_actions (messages : list ChatMessage) : list jstr :=
  take MAX_ACTION_POINTS
    (omap (λ m, if bool_decide (m_role m = RAssistant) && negb (is_blank (messageText m))
                then Some (js "action: " ++ firstSentence (messageText m)) else None) messages).
Definition turn_anchors (messages : list ChatMessage) : list jstr :=
  take MAX_TOOL_ANCHORS
    (map (λ tl : jstr * jstr, js "tool " ++ tl.1 ++ js ": " ++ cap tl.2 ANCHOR_CAP) (flat_map firstToolOutputLine messages)).
Definition turnSummary (turn : Turn) : jstr :=
  join (js " | ") (turn_intent (t_messages turn) ++ turn_actions (t_messages turn) ++ turn_anchors (t_messages turn)).

Definition historySummary (turns : list Turn) : jstr :=
  renderMemory (buildMemory (flat_map t_messages turns)).

Definition message_tag (m : ChatMessage) : jstr :=
  match m_role m with
  | RUser => if isCompactionReplacement m then js "compacted-history" else js "user"
  | RAssistant => js "assistant"
  end.
Definition messageSummary (m : ChatMessage) : jstr :=
  let tag := message_tag m in
  let text := trim (messageText m) in
  if zlen text =? 0 then
    match firstToolOutputLine m with
    | [] => tag ++ js ": (empty)"
    | tools => tag ++ js ": " ++ join (js " | ") (map (λ tl : jstr * jstr, js "tool " ++ tl.1 ++ js ": " ++ cap tl.2 ANCHOR_CAP) (take 2 tools))
    end
  else tag ++ js ": " ++ firstSentence text.

Definition part_excerpt (p : Part) : jstr :=
  match p with
  | PText text => text
  | PTool tool _ input st =>
    join [LF] [tool; match input with Some v => stringify v | None => [] end; default [] (ts_output st); default [] (ts_error st)]
  end.
Definition messageExcerpt (m : ChatMessage) : jstr := join [LF] (map part_excerpt (m_parts m)).
Definition messageTokens (m : ChatMessage) : Z := estimateTokens (messageExcerpt m).

(** ** Keywords *)

Definition STOPWORDS : list jstr :=
  map js ["the"; "a"; "an"; "and"; "or"; "of"; "to"; "in"; "is"; "are"; "was"; "were"; "for"; "on"; "with"; "at"; "by";
          "it"; "this"; "that"; "be"; "as"; "from"; "的"; "了"; "是"; "在"; "我"; "有"; "和"; "就"; "不"; "人"; "都";
          "一个"; "上"; "也"; "很"; "到"; "说"; "要"; "去"; "你"; "会"; "着"; "没有"; "看"]%string.
Definition WORD_RE : regex := Eval vm_compute in re "[A-Za-z_][A-Za-z0-9_-]*".
Definition DIGITS_RE : regex := Eval vm_compute in re "^\d+$".

(** [toLowerCase] on the ASCII runs it is applied to. *)
Definition lower_ascii (s : jstr) : jstr := map (λ c, if (65 <=? c) && (c <=? 90) then c + 32 else c) s.
Definition cjk (ch : jstr) : bool :=
  let code := default 0 (codePointAt ch 0) in
  ((12352 <=? code) && (code <=? 12543)) || ((13312 <=? code) && (code <=? 40959)) || ((63744 <=? code) && (code <=? 64255)).

Definition keyword_tokens (text : jstr) : list jstr :=
  map (λ m, lower_ascii (rm_text m)) (match_all WORD_RE text) ++ List.filter cjk (code_points text).
Definition keyword_ok (token : jstr) : bool :=
  negb (zlen token =? 0) && negb (existsb (jeqb token) STOPWORDS) && negb (test DIGITS_RE token).
Definition keywords (text : jstr) (limit : nat) : jstr :=
  let counts := foldl (λ m token, if keyword_ok token then set_key token (default 0 (get token m) + 1) m else m) []
                  (keyword_tokens text) in
  join [32] (map fst (take limit (sort_by (λ a b : jstr * Z, b.2 - a.2) counts))).

Example memory_ex :
  map (λ e, (me_kind e, me_text e, me_sourceIds e))
    (buildMemory [user_text (js "u1") (js "Fix it."); assistant_text (js "a1") (js "Build failed. Build failed. Retry.");
                  user_text (js "u2") (js "Fix it.")])
  = [(Kconstraints, js "Fix it.", [js "u1"; js "u2"]);
     (Kfailures, js "Build failed. [repeated 2 times]" ++ [10] ++ js "Retry.", [js "a1"])].
Proof. vm_compute. reflexivity. Qed.
Example summary_ex :
  (firstSentence (js " Do this now. Then that."), messageSummary (user_text (js "u") []), keywords (js "The parser parses; parser 修复") 2)
  = (js "Do this now.", js "user: (empty)", js "parser parses").
Proof. vm_compute. reflexivity. Qed.

(** ** Memory keeps its evidence *)

Lemma memory_key_inj e e' : memory_key e = memory_key e' → me_kind e = me_kind e' ∧ me_text e = me_text e'.
Proof.
  unfold memory_key. destruct e as [k t s], e' as [k' t' s']. cbn [me_kind me_text].
  destruct k, k'; intros H; first [discriminate H|split; [done|]; by apply app_inv_head in H; injection H].
Qed.

Lemma uniq_elem l x : x ∈ uniq l ↔ x ∈ l.
Proof.
  unfold uniq. assert (∀ acc, x ∈ foldl (λ acc x, if existsb (jeqb x) acc then acc else acc ++ [x]) acc l ↔ x ∈ acc ∨ x ∈ l) as H.
  { induction l as [|y l IH]; intros acc; simpl; [set_solver|]. rewrite IH. destruct (existsb (jeqb y) acc) eqn:E; [|set_solver].
    apply existsb_exists in E as (z & Hz & E). apply jeqb_eq in E. subst z. rewrite <- list_elem_of_In in Hz. set_solver. }
  rewrite H. set_solver.
Qed.

Record memory_of (adds : list MemoryEntry) (entries : list (jstr * MemoryEntry)) : Prop := {
  mo_ok : omap_ok entries;
  mo_sound : ∀ k e, get k entries = Some e →
    k = memory_key e ∧ is_blank (me_text e) = false
    ∧ (∃ a, a ∈ adds ∧ me_kind a = me_kind e ∧ me_text a = me_text e)
    ∧ ∀ s, s ∈ me_sourceIds e → ∃ a, a ∈ adds ∧ me_kind a = me_kind e ∧ me_text a = me_text e ∧ s ∈ me_sourceIds a;
  mo_complete : ∀ a, a ∈ adds → is_blank (me_text a) = false →
    ∃ e, get (memory_key a) entries = Some e ∧ me_sourceIds a ⊆ me_sourceIds e }.

Lemma memory_of_more adds a entries :
  memory_of adds entries → ∀ k e, get k entries = Some e →
    k = memory_key e ∧ is_blank (me_text e) = false
    ∧ (∃ a', a' ∈ adds ++ [a] ∧ me_kind a' = me_kind e ∧ me_text a' = me_text e)
    ∧ ∀ s, s ∈ me_sourceIds e → ∃ a', a' ∈ adds ++ [a] ∧ me_kind a' = me_kind e ∧ me_text a' = me_text e ∧ s ∈ me_sourceIds a'.
Proof.
  intros [_ H _] k e He. apply H in He as (H1 & H2 & (a' & ? & ?) & H4). split_and!; [done|done|exists a'; set_solver|].
  intros s Hs. destruct (H4 s Hs) as (a2 & ? & ?). exists a2. set_solver.
Qed.

Lemma add_entry_of adds entries a :
  memory_of adds entries → memory_of (adds ++ [a]) (add_entry entries a).
Proof.
  intros Hm. pose proof (memory_of_more adds a entries Hm) as Hmore. destruct Hm as [Hok Hs Hc]. unfold add_entry.
  destruct (is_blank (me_text a)) eqn:Eb.
  { split; [done|exact Hmore|]. intros a' [Ha| ->%list_elem_of_singleton]%elem_of_app Hb; [by apply Hc|congruence]. }
  set (new := match get (memory_key a) entries with
              | Some p => mkMem (me_kind p) (me_text p) (uniq (me_sourceIds p ++ me_sourceIds a)) | None => a end).
  replace (match get (memory_key a) entries with Some p => _ | None => set_key (memory_key a) a entries end)
    with (set_key (memory_key a) new entries) by (unfold new; by destruct (get _ _)).
  assert (memory_key new = memory_key a ∧ me_kind new = me_kind a ∧ me_text new = me_text a) as (Hk & Hkk & Hkt).
  { unfold new. destruct (get (memory_key a) entries) as [p|] eqn:Ep; [|done]. apply Hs in Ep as (Ep & _).
    pose proof (memory_key_inj _ _ Ep) as [E1 E2]. cbn [me_kind me_text]. rewrite <- E1, <- E2. done. }
  split.
  - by apply set_ok.
  - intros k e He. destruct (decide (k = memory_key a)) as [->|Hne]; [|rewrite get_set_ne in He by done; by apply Hmore].
    rewrite get_set_eq in He. injection He as <-. rewrite Hkk, Hkt. split_and!; [done|done|exists a; set_solver|].
    intros s Hsrc. unfold new in Hsrc. destruct (get (memory_key a) entries) as [p|] eqn:Ep; [|exists a; set_solver].
    cbn [me_sourceIds] in Hsrc. rewrite uniq_elem in Hsrc. apply elem_of_app in Hsrc as [Hsrc|Hsrc]; [|exists a; set_solver].
    destruct (Hmore _ _ Ep) as (Ek & _ & _ & Hsrcs). apply memory_key_inj in Ek as [-> ->]. by apply Hsrcs.
  - intros a' Ha' Hb. destruct (decide (memory_key a' = memory_key a)) as [E|Hne].
    + rewrite E, get_set_eq. exists new. split; [done|]. apply elem_of_app in Ha' as [Ha'| ->%list_elem_of_singleton].
      * destruct (Hc a' Ha' Hb) as (e & He & Hsub). rewrite E in He. unfold new. rewrite He. cbn [me_sourceIds].
        intros s ?. apply uniq_elem. set_solver.
      * unfold new. destruct (get _ _); [|done]. cbn [me_sourceIds]. intros s ?. apply uniq_elem. set_solver.
    + rewrite get_set_ne by done. apply Hc; [|done]. apply elem_of_app in Ha' as [?| ->%list_elem_of_singleton]; done.
Qed.

Lemma memory_fold adds : memory_of adds (foldl add_entry [] adds).
Proof.
  induction adds as [|a adds IH] using rev_ind.
  - split; [apply NoDup_nil_2|done|set_solver].
  - rewrite foldl_snoc. by apply add_entry_of.
Qed.

Lemma buildMemory_complete messages a :
  a ∈ flat_map message_entries messages → is_blank (me_text a) = false →
  ∃ e, e ∈ buildMemory messages ∧ me_kind e = me_kind a ∧ me_text e = me_text a ∧ me_sourceIds a ⊆ me_sourceIds e.
Proof.
  intros Ha Hb. destruct (memory_fold (flat_map message_entries messages)) as [Hok Hs Hc].
  destruct (Hc a Ha Hb) as (e & He & Hsub). exists e. pose proof (Hs _ _ He) as (Hk & _).
  apply memory_key_inj in Hk as [? ?]. split_and!; try done. apply list_elem_of_fmap. exists (memory_key a, e).
  split; [done|]. by apply get_elem.
Qed.

(** ** Properties *)

(** Memory is complete and grounded.  Every non-blank entry a message adds
    is an entry of [buildMemory], with the same kind and text verbatim and all
    its source ids; every entry of [buildMemory] is one some message added, and
    each of its source ids comes from a message entry of that kind and text; no
    two entries share kind and text. *)
Theorem buildMemory_grounded messages :
  (∀ a, a ∈ flat_map message_entries messages → is_blank (me_text a) = false →
     ∃ e, e ∈ buildMemory messages ∧ me_kind e = me_kind a ∧ me_text e = me_text a ∧ me_sourceIds a ⊆ me_sourceIds e)
  ∧ (∀ e s, e ∈ buildMemory messages → s ∈ me_sourceIds e →
     ∃ a, a ∈ flat_map message_entries messages ∧ me_kind a = me_kind e ∧ me_text a = me_text e ∧ s ∈ me_sourceIds a)
  ∧ NoDup (map memory_key (buildMemory messages)).
Proof.
  destruct (memory_fold (flat_map message_entries messages)) as [Hok Hs Hc]. unfold buildMemory.
  set (entries := foldl add_entry [] (flat_map message_entries messages)) in *. split_and!.
  - apply buildMemory_complete.
  - intros e s He Hsrc. apply list_elem_of_fmap in He as ([k e'] & -> & He). apply elem_get in He; [|done].
    apply Hs in He as (_ & _ & _ & Hsrcs). by apply Hsrcs.
  - assert (map memory_key entries.*2 = entries.*1) as ->; [|done].
    unfold omap_ok in Hok. clear Hc. induction entries as [|[k e] l IH]; [done|]. rewrite !fmap_cons in *. cbn [map].
    apply NoDup_cons in Hok as [Hn Hok]. f_equal.
    + destruct (Hs k e) as (-> & _); [|done]. cbn [get]. by rewrite bool_decide_true.
    + apply IH; [done|]. intros k' e' He. apply Hs. cbn [get]. rewrite bool_decide_false; [done|].
      intros ->. apply Hn. apply list_elem_of_fmap. exists (k, e'). split; [done|]. by apply get_elem.
Qed.

(** User requests survive verbatim.  A non-blank text part of a user
    message that is not itself an archive replacement becomes a [constraints]
    entry with exactly that text, naming the message. *)
Theorem user_requests_kept messages m text :
  m ∈ messages → m_role m = RUser → m_archive m = None → PText text ∈ m_parts m → is_blank text = false →
  ∃ e, e ∈ buildMemory messages ∧ me_kind e = Kconstraints ∧ me_text e = text ∧ m_id m ∈ me_sourceIds e.
Proof.
  intros Hm Hr Ha Hp Hb. destruct (buildMemory_complete messages (mkMem Kconstraints text [m_id m])) as (e & ? & ? & ? & Hsub).
  - apply list_elem_of_In, in_flat_map. exists m. rewrite <- !list_elem_of_In. split; [done|].
    unfold message_entries. rewrite Ha. apply list_elem_of_In, in_map_iff. exists (PText text).
    split; [|by apply list_elem_of_In]. cbn [part_entry]. by rewrite bool_decide_true.
  - done.
  - exists e. split_and!; try done. apply Hsub. by left.
Qed.

Definition demo_history : list ChatMessage :=
  [user_text (js "u1") (js "Keep the API stable."); assistant_text (js "a1") (js "Done.")].

Lemma user_requests_kept_witness :
  ∃ e, e ∈ buildMemory demo_history ∧ me_kind e = Kconstraints ∧ me_text e = js "Keep the API stable." ∧ js "u1" ∈ me_sourceIds e.
Proof.
  apply (user_requests_kept demo_history (user_text (js "u1") (js "Keep the API stable.")) (js "Keep the API stable."));
    [by left|reflexivity|reflexivity|by left|vm_compute; reflexivity].
Defined.
