(* ===== verification/Compaction.v ===== *)
(** * Compaction plans ([packages/headroomd/src/compaction.ts], result contract
    of [packages/contracts/src/headroom.ts])

    A legacy plan replaces one contiguous run of messages by a replacement
    message; a layered plan carries view operations. *)

From stdpp Require Import base tactics list numbers option sets strings sorting.
From S2P Require Import Prelude JsString JsRegex Json CLine OMap Chat Operations.

(** ** The wire result *)

Inductive CompactStrategy : Type := Legacy | Layered.

Record CompactionRef := mkRef { rf_contentHash : jstr; rf_role : Role; rf_turnIndex : Z }.

Record HeadroomCompressResult := {
  hr_compacted : bool;
  hr_operations : option (list ViewOperation);
  hr_sourceSnapshot : option SourceSnapshot;
  hr_sourceDigests : option (list jstr);
  hr_epoch : option jstr;
  hr_memory : option (list MemoryEntry);
  hr_budgetExceeded : option bool;
  hr_historyHash : option jstr;
  hr_summary : option jstr;
  hr_refs : list CompactionRef;
  hr_replacedMessageIds : list jstr;
  hr_rawTokens : Z;
  hr_summaryTokens : Z;
  hr_sourceTokensEst : Z;
  hr_evictedTokensEst : Z;
  hr_retainedTokensEst : Z;
  hr_replacementTokensEst : Z;
  hr_finalTokensEst : Z;
  hr_freedTokens : Z }.

(** ** [operationSourcesAligned] *)

(** A span of a part; [None] is the [Infinity] of a tool output. *)
Definition span_key (messageId : jstr) (partIndex : Z) : jstr := stringify (JArr [JStr messageId; JNum (NInt partIndex)]).

Record AlignState := mkAlign {
  al_touched : list jstr;
  al_ids : list jstr;
  al_spans : list (jstr * list (Z * option Z));
  al_whole : list jstr }.

Definition snapshot_map (snap : SourceSnapshot) : list (jstr * (Z * option jstr)) :=
  foldl (λ m iid, set_key iid.2 (Z.of_nat iid.1, sn_sourceDigests snap !! iid.1) m) [] (imap pair (sn_messageIds snap)).

(** The loop over the ids of one operation. *)
Fixpoint align_ids (snapshot : list (jstr * (Z * option jstr))) (range : bool) (base : option Z) (i : Z) (ids digests : list jstr) (st : AlignState) :
    option AlignState :=
  match ids with
  | [] => Some st
  | id :: ids' =>
    match get id snapshot with
    | None => None
    | Some (index, digest) =>
      if negb (bool_decide (digest = head digests)) then None
      else if range && negb (bool_decide (base = Some (index - i))) then None
      else if range && bool_decide (id ∈ al_whole st) then None
      else align_ids snapshot range base (i + 1) ids' (tail digests)
             (mkAlign (al_touched st ++ [id]) (al_ids st) (al_spans st) (if range then al_whole st ++ [id] else al_whole st))
    end
  end.

Definition align_op (snapshot : list (jstr * (Z * option jstr))) (st : AlignState) (op : ViewOperation) : option AlignState :=
  let oid := operationId (op_base op) in
  if bool_decide (oid ∈ al_ids st) then None
  else
    let st := mkAlign (al_touched st) (al_ids st ++ [oid]) (al_spans st) (al_whole st) in
    let push_span mid p (s : Z * option Z) (st : AlignState) :=
      let key := span_key mid p in
      mkAlign (al_touched st) (al_ids st) (set_key key (default [] (get key (al_spans st)) ++ [s]) (al_spans st)) (al_whole st) in
    match op with
    | OpRange _ ids digests _ => align_ids snapshot true (fst <$> get (default [] (head ids)) snapshot) 0 ids digests st
    | OpTool _ mid d p _ _ => push_span mid p (0, None) <$> align_ids snapshot false None 0 [mid] [d] st
    | OpText _ mid d p s e _ _ => push_span mid p (s, Some e) <$> align_ids snapshot false None 0 [mid] [d] st
    end.

Fixpoint align_ops (snapshot : list (jstr * (Z * option jstr))) (st : AlignState) (ops : list ViewOperation) : option AlignState :=
  match ops with
  | [] => Some st
  | op :: r => match align_op snapshot st op with Some st' => align_ops snapshot st' r | None => None end
  end.

Definition partial_target (op : ViewOperation) : list jstr :=
  match op with OpRange _ _ _ _ => [] | OpTool _ mid _ _ _ _ | OpText _ mid _ _ _ _ _ _ => [mid] end.

(** After sorting by start: no span ends after the next one starts. *)
Fixpoint spans_disjoint (spans : list (Z * option Z)) : bool :=
  match spans with
  | a :: rest =>
    match rest with
    | b :: _ => match a.2 with Some e => e <=? b.1 | None => false end && spans_disjoint rest
    | [] => true
    end
  | [] => true
  end.
Definition span_cmp (a b : Z * option Z) : Z := a.1 - b.1.

Definition operationSourcesAligned (r : HeadroomCompressResult) : bool :=
  match hr_operations r with
  | None => true
  | Some ops =>
    if negb (hr_compacted r) then zlen ops =? 0
    else match ops, hr_sourceSnapshot r with
    | _ :: _, Some snap =>
      let snapshot := snapshot_map snap in
      match align_ops snapshot (mkAlign [] [] [] []) ops with
      | None => false
      | Some st =>
        forallb (λ op, forallb (λ mid, negb (bool_decide (mid ∈ al_whole st))) (partial_target op)) ops
        && forallb (λ ks, spans_disjoint (sort_by span_cmp ks.2)) (al_spans st)
        && let ordered := List.filter (λ id, bool_decide (id ∈ al_touched st)) (sn_messageIds snap) in
           (zlen ordered =? zlen (hr_replacedMessageIds r))
           && bool_decide (ordered = hr_replacedMessageIds r)
           && forallb (λ iid, bool_decide ((get iid.2 snapshot ≫= snd) = (hr_sourceDigests r ≫= λ ds, ds !! iid.1))) (imap pair ordered)
      end
    | _, _ => false
    end
  end.

Definition is_none {A} (o : option A) : bool := match o with None => true | _ => false end.

(** The refinement of [headroomCompressResultSchema]. *)
Definition headroomCompressResult_refine (r : HeadroomCompressResult) : bool :=
  operationSourcesAligned r
  && (hr_rawTokens r =? hr_sourceTokensEst r)
  && (hr_finalTokensEst r =? hr_retainedTokensEst r + hr_replacementTokensEst r)
  && (hr_freedTokens r =? hr_sourceTokensEst r - hr_finalTokensEst r)
  && (if hr_compacted r then
        match hr_sourceDigests r with
        | None => false
        | Some digests =>
          negb (is_none (hr_memory r))
          && (zlen digests =? zlen (hr_replacedMessageIds r)) && (zlen digests =? zlen (hr_refs r)) && (0 <? zlen digests)
          && distinct (hr_replacedMessageIds r)
          && bool_decide (digests = map rf_contentHash (hr_refs r))
          && negb (is_none (hr_historyHash r)) && negb (is_none (hr_summary r))
          && (hr_sourceTokensEst r =? hr_evictedTokensEst r + hr_retainedTokensEst r) && (0 <? hr_freedTokens r)
        end
      else
        is_none (hr_historyHash r) && is_none (hr_summary r) && (hr_freedTokens r =? 0) && (zlen (hr_refs r) =? 0)
        && (zlen (hr_replacedMessageIds r) =? 0) && (hr_evictedTokensEst r =? 0)
        && (hr_retainedTokensEst r =? hr_sourceTokensEst r) && (hr_replacementTokensEst r =? 0)).

(** ** Plans *)

Record CompactionPlan := mkPlan {
  pl_historyHash : option jstr;
  pl_summary : option jstr;
  pl_replacedMessageIds : list jstr;
  pl_sourceDigests : option (list jstr);
  pl_memory : option (list MemoryEntry);
  pl_operations : option (list ViewOperation);
  pl_sourceSnapshot : option SourceSnapshot }.

Definition plan_of (r : HeadroomCompressResult) : CompactionPlan :=
  mkPlan (hr_historyHash r) (hr_summary r) (hr_replacedMessageIds r) (hr_sourceDigests r) (hr_memory r)
    (hr_operations r) (hr_sourceSnapshot r).

Definition COMPACTION_MARKER : jstr := js "[bluecode 历史压缩]".

Definition buildReplacementText (plan : CompactionPlan) : jstr :=
  let summary := match pl_summary plan with None => [] | Some s => [LF; LF] ++ js "摘要：" ++ [LF] ++ s end in
  let retrieve := match pl_historyHash plan with
                  | None => []
                  | Some h => [LF; LF] ++ js "如需分页恢复完整历史，请调用 `headroom_retrieve(historyHash=" ++ [34] ++ h ++ [34] ++ js ")`。"
                  end in
  COMPACTION_MARKER ++ js " 以下历史已归档。" ++ summary ++ retrieve.

Definition replacement_id (plan : CompactionPlan) : jstr := js "compaction-" ++ default (js "unknown") (pl_historyHash plan).

Definition buildReplacementMessage (plan : CompactionPlan) : ChatMessage :=
  mkMsg (replacement_id plan) RUser [PText (buildReplacementText plan)] None
    (match pl_historyHash plan with
     | Some h => if zlen h =? 0 then None else Some (mkArchive h (default [] (pl_memory plan)) None None)
     | None => None
     end).

(** The id table of the source messages: first index by id, and repeated ids. *)
Definition scan_id (acc : list (jstr * nat) * list jstr) (im : nat * ChatMessage) : list (jstr * nat) * list jstr :=
  if has (m_id im.2) acc.1 then (acc.1, acc.2 ++ [m_id im.2]) else (set_key (m_id im.2) im.1 acc.1, acc.2).
Definition scan_ids (messages : list ChatMessage) : list (jstr * nat) * list jstr :=
  foldl scan_id ([], []) (imap pair messages).

Section Materialize.
Context (sha256Hex : jstr → jstr).

Definition materializeCompaction (messages : list ChatMessage) (plan : CompactionPlan) : Materialized :=
  match pl_operations plan with
  | Some ops => materializeOperations sha256Hex messages ops (pl_sourceSnapshot plan)
  | None =>
    let ids := pl_replacedMessageIds plan in
    if (zlen ids =? 0) || negb (distinct ids) then mkMat SInvalid messages
    else
      let '(indexById, duplicateSourceIds) := scan_ids messages in
      if existsb (λ id, bool_decide (id ∈ duplicateSourceIds)) ids then mkMat SInvalid messages
      else
        let indices := map (λ id, get id indexById) ids in
        let missing := zlen (List.filter is_none indices) in
        if missing =? zlen ids then
          mkMat (if existsb (λ m, jeqb (m_id m) (replacement_id plan) && isCompactionReplacement m) messages
                 then SAlreadyCompacted else SNoMatch) messages
        else if 0 <? missing then mkMat SInvalid messages
        else
          let start := default O (mjoin (head indices)) in
          if negb (bool_decide (indices = map Some (seq start (length indices)))) then mkMat SInvalid messages
          else
            let targets := take (length ids) (drop start messages) in
            let stale := match pl_sourceDigests plan with
                         | Some digests =>
                           negb (zlen digests =? zlen targets)
                           || existsb (λ im, negb (bool_decide (digests !! im.1 = Some (contentDigest sha256Hex im.2)))) (imap pair targets)
                         | None => false
                         end in
            if stale then mkMat SInvalid messages
            else if forallb isCompactionReplacement targets then mkMat SAlreadyCompacted messages
            else mkMat SApplied (take start messages ++ [buildReplacementMessage plan] ++ drop (start + length ids) messages)
  end.
End Materialize.

(** ** The id table *)

Definition id_at (messages : list ChatMessage) (i : nat) : option jstr := m_id <$> messages !! i.

Record ids_scanned (messages : list ChatMessage) (t : list (jstr * nat) * list jstr) : Prop := {
  is_sound : ∀ id i, get id t.1 = Some i → id_at messages i = Some id;
  is_complete : ∀ i id, id_at messages i = Some id → is_Some (get id t.1);
  is_distinct : NoDup (map m_id messages) → t.2 = [] }.

Lemma id_at_snoc messages m i id :
  id_at (messages ++ [m]) i = Some id ↔ id_at messages i = Some id ∨ (i = length messages ∧ m_id m = id).
Proof.
  unfold id_at. destruct (decide (i < length messages)%nat) as [Hi|Hi].
  - rewrite lookup_app_l by done. split; [auto|]. intros [?|[-> _]]; [done|lia].
  - rewrite lookup_app_r by lia. destruct (i - length messages)%nat eqn:E.
    + simpl. split; [intros [= <-]; right; split; [lia|done]|]. intros [H|[_ <-]]; [|done].
      rewrite lookup_ge_None_2 in H by lia. done.
    + simpl. split; [done|]. intros [H|[? _]]; [|lia]. rewrite lookup_ge_None_2 in H by lia. done.
Qed.

Lemma scan_ids_spec messages : ids_scanned messages (scan_ids messages).
Proof.
  unfold scan_ids. induction messages as [|m messages [H1 H2 H3]] using rev_ind; [by split|].
  rewrite imap_app, foldl_app. cbn [imap foldl]. unfold compose. rewrite Nat.add_0_r.
  set (t := foldl scan_id ([], []) (imap pair messages)) in *. unfold scan_id. cbn [fst snd].
  destruct (has (m_id m) t.1) eqn:E; unfold has in E; (split; cbn [fst snd]).
  - intros id i Hi. apply id_at_snoc. left. by apply H1.
  - intros i id [?|[_ <-]]%id_at_snoc; [by eapply H2|]. by destruct (get (m_id m) t.1).
  - rewrite map_app. intros (_ & Hn & _)%NoDup_app. exfalso. destruct (get (m_id m) t.1) as [i|] eqn:Ei; [|done].
    apply H1 in Ei. unfold id_at in Ei. apply (Hn (m_id m)); [|by left]. rewrite <- map_lookup in Ei. by eapply list_elem_of_lookup_2.
  - intros id i Hi. apply id_at_snoc. destruct (decide (id = m_id m)) as [->|Hne]; [|rewrite get_set_ne in Hi by done; left; by apply H1].
    rewrite get_set_eq in Hi. injection Hi as <-. by right.
  - intros i id Hi. destruct (decide (id = m_id m)) as [->|Hne]; [rewrite get_set_eq; eauto|rewrite get_set_ne by done].
    apply id_at_snoc in Hi as [?|[_ <-]]; [by eapply H2|done].
  - rewrite map_app. intros (Hd & _ & _)%NoDup_app. auto.
Qed.

Lemma index_unique messages i j id :
  NoDup (map m_id messages) → id_at messages i = Some id → id_at messages j = Some id → i = j.
Proof. unfold id_at. rewrite <- !map_lookup. intros. by eapply NoDup_lookup. Qed.

Section Spec.
Context (sha256Hex : jstr → jstr).

Definition digests_match (targets : list ChatMessage) (o : option (list jstr)) : Prop :=
  match o with Some ds => map (contentDigest sha256Hex) targets = ds | None => True end.

Lemma digests_match_stale targets ds :
  negb (zlen ds =? zlen targets)
  || existsb (λ im : nat * ChatMessage, negb (bool_decide (ds !! im.1 = Some (contentDigest sha256Hex im.2)))) (imap pair targets) = false
  ↔ map (contentDigest sha256Hex) targets = ds.
Proof.
  rewrite orb_false_iff, negb_false_iff, Z.eqb_eq. split.
  - intros [Hl He]. apply list_eq_same_length with (n := length ds); [done|rewrite length_map; lia|].
    intros i x y Hi Hx Hy. rewrite map_lookup in Hx. destruct (targets !! i) as [m|] eqn:Em; [|done]. injection Hx as <-.
    assert (negb (bool_decide (ds !! i = Some (contentDigest sha256Hex m))) = false) as Hb.
    { apply not_true_iff_false. intros Hb. apply (eq_true_false_abs _ Logic.eq_refl). rewrite <- He. symmetry.
      apply existsb_exists. exists (i, m). split; [|exact Hb].
      apply list_elem_of_In. change (i, m) with ((λ i m, (i, m)) i m). by apply elem_of_lookup_imap_2. }
    apply negb_false_iff, bool_decide_eq_true in Hb. congruence.
  - intros <-. rewrite length_map. split; [done|]. apply not_true_iff_false. intros ([i m] & Hin & Hb)%existsb_exists.
    apply list_elem_of_In, elem_of_lookup_imap_1 in Hin as (i' & m' & [= -> ->] & Hm). cbn [fst snd] in Hb.
    rewrite map_lookup, Hm in Hb. by rewrite bool_decide_true in Hb.
Qed.

(** A legacy plan applies to a run of messages with unique ids. *)
Lemma materialize_applies plan pre targets post :
  pl_operations plan = None → NoDup (map m_id (pre ++ targets ++ post)) →
  pl_replacedMessageIds plan = map m_id targets → targets ≠ [] → digests_match targets (pl_sourceDigests plan) →
  forallb isCompactionReplacement targets = false →
  materializeCompaction sha256Hex (pre ++ targets ++ post) plan = mkMat SApplied (pre ++ [buildReplacementMessage plan] ++ post).
Proof.
  intros Ho Hd Hids Hne Hdig Hrep. set (messages := pre ++ targets ++ post) in *.
  unfold materializeCompaction. rewrite Ho, Hids.
  assert (NoDup (map m_id targets)) as Hdt.
  { unfold messages in Hd. rewrite !map_app in Hd. apply NoDup_app in Hd as (_ & _ & Hd). by apply NoDup_app in Hd as (? & _). }
  unfold distinct. rewrite bool_decide_true by done. rewrite length_map.
  destruct targets as [|t0 ts]; [done|]. set (targets := t0 :: ts) in *.
  change (zlen targets =? 0) with false. cbn [orb negb].
  pose proof (scan_ids_spec messages) as [Hsound Hcomp Hdist]. destruct (scan_ids messages) as [indexById dups]. cbn [fst snd] in *.
  rewrite (Hdist Hd). clear Hdist.
  assert (existsb (λ id, bool_decide (id ∈ @nil jstr)) (map m_id targets) = false) as ->.
  { apply not_true_iff_false. intros (x & _ & Hx)%existsb_exists. rewrite bool_decide_false in Hx; [done|set_solver]. }
  assert (map (λ id, get id indexById) (map m_id targets) = map Some (seq (length pre) (length targets))) as ->.
  { apply list_eq. intros k. rewrite !map_lookup. destruct (targets !! k) as [m|] eqn:Ek; cbn [fmap option_fmap option_map].
    - assert (k < length targets)%nat as Hk by (by eapply lookup_lt_Some). rewrite lookup_seq_lt by done. cbn.
      assert (id_at messages (length pre + k) = Some (m_id m)) as Hat.
      { unfold id_at, messages. rewrite lookup_app_r by lia. rewrite lookup_app_l by lia.
        replace (length pre + k - length pre)%nat with k by lia. by rewrite Ek. }
      destruct (Hcomp _ _ Hat) as [i Hi]. rewrite Hi. do 2 f_equal. eapply index_unique; [exact Hd| |exact Hat]. by apply Hsound.
    - rewrite lookup_seq_ge; [done|]. by apply lookup_ge_None_1. }
  assert (List.filter is_none (map Some (seq (length pre) (length targets))) = []) as ->.
  { generalize (seq (length pre) (length targets)). intros l. by induction l. }
  change (zlen (@nil (option nat)) =? zlen targets) with false. cbn [length]. change (0 <? Z.of_nat 0) with false. cbn match.
  rewrite length_map, length_seq. change (default O (mjoin (head (map Some (seq (length pre) (length targets)))))) with (length pre).
  rewrite bool_decide_true by done. cbn [negb].
  assert (take (length targets) (drop (length pre) messages) = targets) as ->.
  { unfold messages. rewrite drop_app_length, take_app_length. done. }
  assert (match pl_sourceDigests plan with Some digests => _ | None => false end = false) as ->.
  { unfold digests_match in Hdig. destruct (pl_sourceDigests plan) as [ds|]; [|done]. by apply digests_match_stale. }
  rewrite Hrep. f_equal. unfold messages. rewrite take_app_length. do 2 f_equal.
  rewrite app_assoc, <- length_app, drop_app_length. done.
Qed.
End Spec.

(** ** Properties *)

(** A legacy plan replaces exactly the run it names.  Without operations,
    when the status is [applied] the messages are a prefix, the run whose ids
    are the plan's in order, and a suffix; the plan's digests, when given, are
    the content digests of the run; not all of the run are replacements
    already; and the result is the prefix, the one replacement message and the
    suffix.  With any other status the messages come back unchanged. *)
Theorem materializeCompaction_spec sha256Hex messages plan :
  let r := materializeCompaction sha256Hex messages plan in
  (mz_status r ≠ SApplied → mz_messages r = messages)
  ∧ (pl_operations plan = None → mz_status r = SApplied → ∃ pre targets post,
       messages = pre ++ targets ++ post ∧ targets ≠ [] ∧ map m_id targets = pl_replacedMessageIds plan
       ∧ digests_match sha256Hex targets (pl_sourceDigests plan)
       ∧ forallb isCompactionReplacement targets = false
       ∧ mz_messages r = pre ++ [buildReplacementMessage plan] ++ post).
Proof.
  intros r. unfold r, materializeCompaction. destruct (pl_operations plan) as [ops|].
  { split; [|done]. unfold materializeOperations. by destruct (materialize _ _ _ _). }
  set (ids := pl_replacedMessageIds plan). destruct (_ || _) eqn:E1; [by split|]. bool_prop.
  pose proof (scan_ids_spec messages) as [Hsound _ _]. destruct (scan_ids messages) as [indexById dups]. cbn [fst] in Hsound.
  destruct (existsb _ ids); [by split|]. set (indices := map (λ id, get id indexById) ids).
  destruct (zlen (List.filter is_none indices) =? zlen ids).
  { cbn [mz_status mz_messages]. split; [done|]. intros _. by destruct (existsb (λ m, _) messages). }
  destruct (0 <? zlen (List.filter is_none indices)); [by split|].
  set (start := default O (mjoin (head indices))). destruct (bool_decide (indices = _)) eqn:Ei; cbn [negb]; [|by split].
  apply bool_decide_eq_true in Ei. set (targets := take (length ids) (drop start messages)).
  destruct (match pl_sourceDigests plan with Some _ => _ | None => false end) eqn:Es; [by split|].
  destruct (forallb isCompactionReplacement targets) eqn:Er; [by split|]. split; [done|]. intros _ _.
  assert (length indices = length ids) as Hli by (unfold indices; by rewrite length_map).
  assert (∀ k id, ids !! k = Some id → id_at messages (start + k) = Some id) as Hk.
  { intros k id Hid. apply Hsound. assert (indices !! k = Some (get id indexById)) as Hg by (unfold indices; by rewrite map_lookup, Hid).
    rewrite Ei, map_lookup, lookup_seq_lt in Hg by (rewrite Hli; by eapply lookup_lt_Some). by injection Hg. }
  assert (map m_id targets = ids) as Hmap.
  { apply list_eq. intros k. unfold targets. rewrite map_lookup. destruct (decide (k < length ids)%nat) as [Hl|Hl].
    - rewrite lookup_take_lt, lookup_drop by done. destruct (lookup_lt_is_Some_2 ids k Hl) as [id Hid]. rewrite Hid. by apply Hk.
    - rewrite lookup_take_ge by lia. by rewrite lookup_ge_None_2 by lia. }
  exists (take start messages), targets, (drop (start + length ids) messages). split_and!; try done.
  - unfold targets. rewrite <- (drop_drop messages). by rewrite take_drop, take_drop.
  - intros Ht. rewrite Ht in Hmap. apply H. by rewrite <- Hmap.
  - unfold digests_match. destruct (pl_sourceDigests plan); [|done]. by apply digests_match_stale.
Qed.

Definition demo_plan : CompactionPlan :=
  mkPlan (Some (demo_hash 97)) (Some (js "s")) [js "u1"; js "a1"] (Some [demo_hash 48; demo_hash 48]) (Some []) None None.
Example materializeCompaction_ex :
  let r := materializeCompaction (λ _, demo_hash 48) demo_messages demo_plan in
  mz_status r = SApplied ∧ map m_id (mz_messages r) = [js "compaction-" ++ demo_hash 97; js "u2"]
  ∧ mz_status (materializeCompaction (λ _, demo_hash 48) (mz_messages r) demo_plan) = SAlreadyCompacted
  ∧ mz_status (materializeCompaction (λ _, demo_hash 49) demo_messages demo_plan) = SInvalid.
Proof. vm_compute. auto. Qed.
