(* ===== verification/Compress.v ===== *)
(** * Legacy compression: the plan ([packages/headroomd/src/engine.ts], [compress], [planArchive])

    Which turns are archived, and the result announced to the plugin.  Storing
    the archive is in the file [Archive]. *)

From stdpp Require Import base tactics list numbers option sets strings sorting.
From Stdlib Require Import SpecFloat.
From S2P Require Import Prelude JsString JsRegex Json CLine OMap Chat Operations Summary Compaction.

(** ** Parameters and plans *)

Record CompressParams := mkParams {
  cp_ns : Namespace;
  cp_messages : list ChatMessage;
  cp_contextWindowTokens : Z;
  cp_targetTokens : option Z;
  cp_epoch : option jstr;
  cp_protectedMessageIds : list jstr;
  cp_retainRecentTurns : Z }.

Record ArchivePlan := mkArchivePlan {
  ap_turns : list Turn;
  ap_messages : list ChatMessage;
  ap_hashes : list jstr;
  ap_historyHash : jstr;
  ap_summary : jstr;
  ap_summaryTokens : Z }.

(** [Math.floor] of a finite nonnegative double. *)
Definition ffloor (f : spec_float) : Z :=
  match f with
  | S754_finite false m e => if 0 <=? e then Zpos m * 2 ^ e else Zpos m `div` 2 ^ (- e)
  | _ => 0
  end.

Fixpoint find_index {A} (p : A → bool) (l : list A) : option nat :=
  match l with
  | [] => None
  | x :: r => if p x then Some O else S <$> find_index p r
  end.

Definition tokens_of (messages : list ChatMessage) : Z := zsum (map messageTokens messages).

Definition unfinished (p : Part) : bool :=
  match p with PText _ => false | PTool _ _ _ st => negb (existsb (jeqb (ts_status st)) COMPLETED_TOOL_STATUSES) end.
Definition message_blocked (protectedIds : list jstr) (m : ChatMessage) : bool :=
  is_true (m_protected m) || bool_decide (m_id m ∈ protectedIds) || existsb unfinished (m_parts m).
Definition turn_blocked (protectedIds : list jstr) (t : Turn) : bool := existsb (message_blocked protectedIds) (t_messages t).

(** The old turns: before the retained tail and before the first blocked turn. *)
Definition candidate_turns (params : CompressParams) : list Turn :=
  let turns := splitTurns (cp_messages params) in
  let tailCount := Z.min (cp_retainRecentTurns params + 1) (zlen turns) in
  take (Z.to_nat (zlen turns - Z.max 1 tailCount)) turns.
Definition old_turns (params : CompressParams) : list Turn :=
  let candidates := candidate_turns params in
  match find_index (turn_blocked (cp_protectedMessageIds params)) candidates with
  | None => candidates
  | Some blocked => take blocked candidates
  end.

Definition target_tokens (params : CompressParams) : Z :=
  match cp_targetTokens params with
  | Some t => t
  | None => ffloor (fmul (f64 (cp_contextWindowTokens params)) (flit 55 (-2)))
  end.

Definition inert (rawTokens : Z) : HeadroomCompressResult := {|
  hr_compacted := false; hr_operations := None; hr_sourceSnapshot := None; hr_sourceDigests := None; hr_epoch := None;
  hr_memory := None; hr_budgetExceeded := None; hr_historyHash := None; hr_summary := None; hr_refs := [];
  hr_replacedMessageIds := []; hr_rawTokens := rawTokens; hr_summaryTokens := 0; hr_sourceTokensEst := rawTokens;
  hr_evictedTokensEst := 0; hr_retainedTokensEst := rawTokens; hr_replacementTokensEst := 0; hr_finalTokensEst := rawTokens;
  hr_freedTokens := 0 |}.

(** Turn owning the flattened message at [flatIndex], the last turn as fallback. *)
Fixpoint turn_index_from (cursor : Z) (turns : list Turn) (flatIndex : Z) : option Z :=
  match turns with
  | [] => None
  | t :: r => let cursor := cursor + zlen (t_messages t) in
              if flatIndex <? cursor then Some (t_index t) else turn_index_from cursor r flatIndex
  end.
Definition turnIndexOf (turns : list Turn) (flatIndex : Z) : Z :=
  default (default 0 (t_index <$> last turns)) (turn_index_from 0 turns flatIndex).

Section Plan.
Context (sha256Hex : jstr → jstr).

Definition planArchive (oldTurns : list Turn) : ArchivePlan :=
  let messages := flat_map t_messages oldTurns in
  let summary := historySummary oldTurns in
  mkArchivePlan oldTurns messages (map (contentHash sha256Hex) messages) (historyHash sha256Hex oldTurns) summary
    (estimateTokens summary).

(** The replacement message a plan announces. *)
Definition replacement_for (plan : ArchivePlan) : ChatMessage :=
  buildReplacementMessage
    (mkPlan (Some (ap_historyHash plan)) (Some (ap_summary plan)) [] None (Some (buildMemory (ap_messages plan))) None None).
Definition gain (plan : ArchivePlan) : Z := tokens_of (ap_messages plan) - messageTokens (replacement_for plan).

(** The loop over prefix lengths. *)
Fixpoint select_plan (rawTokens targetTokens : Z) (oldTurns : list Turn) (counts : list nat) (plan : ArchivePlan) : ArchivePlan :=
  match counts with
  | [] => plan
  | count :: rest =>
    let candidate := planArchive (take count oldTurns) in
    let plan := if 0 <? gain candidate then candidate else plan in
    if (0 <? gain candidate) && (rawTokens - gain candidate <=? targetTokens) then candidate
    else select_plan rawTokens targetTokens oldTurns rest plan
  end.

Definition refs_of (plan : ArchivePlan) : list CompactionRef :=
  imap (λ i mh, mkRef mh.2 (m_role mh.1) (turnIndexOf (ap_turns plan) (Z.of_nat i))) (zip (ap_messages plan) (ap_hashes plan)).

Definition chosen_plan (params : CompressParams) : ArchivePlan :=
  let oldTurns := old_turns params in
  select_plan (tokens_of (cp_messages params)) (target_tokens params) oldTurns (seq 1 (length oldTurns)) (planArchive oldTurns).

(** The result and, when something is compacted, the archive to persist. *)
Definition compress_plan (params : CompressParams) : HeadroomCompressResult * option ArchivePlan :=
  let rawTokens := tokens_of (cp_messages params) in
  if zlen (old_turns params) =? 0 then (inert rawTokens, None)
  else
    let plan := chosen_plan params in
    let targetTokens := target_tokens params in
    let evicted := tokens_of (ap_messages plan) in
    let retained := rawTokens - evicted in
    let replacement := messageTokens (replacement_for plan) in
    let final := retained + replacement in
    let freed := rawTokens - final in
    if freed <=? 0 then (inert rawTokens, None)
    else
      ({| hr_compacted := true; hr_operations := None; hr_sourceSnapshot := None;
          hr_sourceDigests := Some (ap_hashes plan); hr_epoch := cp_epoch params;
          hr_memory := Some (buildMemory (ap_messages plan));
          hr_budgetExceeded := Some (targetTokens <? final);
          hr_historyHash := Some (ap_historyHash plan); hr_summary := Some (ap_summary plan);
          hr_refs := refs_of plan; hr_replacedMessageIds := map m_id (ap_messages plan);
          hr_rawTokens := rawTokens; hr_summaryTokens := ap_summaryTokens plan; hr_sourceTokensEst := rawTokens;
          hr_evictedTokensEst := evicted; hr_retainedTokensEst := retained; hr_replacementTokensEst := replacement;
          hr_finalTokensEst := final; hr_freedTokens := freed |}, Some plan).
End Plan.

(** ** Lists *)

Lemma find_index_take {A} (p : A → bool) l :
  Forall (λ x, p x = false) (match find_index p l with None => l | Some i => take i l end).
Proof.
  induction l as [|x l IH]; simpl; [constructor|]. destruct (p x) eqn:E; [constructor|].
  destruct (find_index p l); simpl; by constructor.
Qed.

Lemma tokens_of_app l1 l2 : tokens_of (l1 ++ l2) = tokens_of l1 + tokens_of l2.
Proof. unfold tokens_of. by rewrite map_app, zsum_app. Qed.

Lemma messageTokens_nonneg m : 0 <= messageTokens m.
Proof. unfold messageTokens, estimateTokens. auto with bluecode. Qed.

Lemma tokens_of_nonneg l : 0 <= tokens_of l.
Proof. induction l as [|m l IH]; [done|]. unfold tokens_of in *. simpl. pose proof (messageTokens_nonneg m). lia. Qed.

(** ** The old turns *)

Record old_turns_of (params : CompressParams) (j : nat) : Prop := {
  oo_take : old_turns params = take j (splitTurns (cp_messages params));
  oo_free : Forall (λ t, turn_blocked (cp_protectedMessageIds params) t = false) (take j (splitTurns (cp_messages params)));
  oo_tail : (0 < j)%nat → Z.of_nat j + Z.max 1 (cp_retainRecentTurns params + 1) <= zlen (splitTurns (cp_messages params)) }.

Lemma old_turns_spec params : ∃ j, old_turns_of params j.
Proof.
  pose proof (find_index_take (turn_blocked (cp_protectedMessageIds params)) (candidate_turns params)) as Hf.
  unfold candidate_turns in *. set (turns := splitTurns (cp_messages params)) in *. cbv zeta in Hf.
  set (n := Z.to_nat (zlen turns - Z.max 1 (Z.min (cp_retainRecentTurns params + 1) (zlen turns)))) in *.
  destruct (find_index (turn_blocked (cp_protectedMessageIds params)) (take n turns)) as [b|] eqn:E.
  - exists (Nat.min b n). split; fold turns.
    + unfold old_turns, candidate_turns. cbv zeta. fold turns n. rewrite E. by rewrite take_take.
    + rewrite <- take_take. exact Hf.
    + unfold n. lia.
  - exists n. split; fold turns; [|exact Hf|unfold n; lia].
    unfold old_turns, candidate_turns. cbv zeta. fold turns n. by rewrite E.
Qed.

Lemma turns_nonempty messages t : t ∈ splitTurns messages → t_messages t ≠ [].
Proof.
  intros (i & Hi)%list_elem_of_lookup. destruct (to_shape _ _ (splitTurns_of messages) i t Hi) as (_ & _ & f & r & -> & _). done.
Qed.

Lemma flat_map_concat {A B} (f : A → list B) l : flat_map f l = concat (map f l).
Proof. by rewrite flat_map_concat_map. Qed.

Lemma turns_prefix messages k :
  messages = flat_map t_messages (take k (splitTurns messages)) ++ flat_map t_messages (drop k (splitTurns messages)).
Proof.
  rewrite !flat_map_concat, <- concat_app, <- map_app, take_drop. symmetry. apply to_messages, splitTurns_of.
Qed.

(** ** The choice of the prefix *)

Section Choice.
Context (sha256Hex : jstr → jstr) (rawTokens targetTokens : Z) (oldTurns : list Turn).
Local Abbreviation cand k := (planArchive sha256Hex (take k oldTurns)).
Local Abbreviation g k := (gain (planArchive sha256Hex (take k oldTurns))).
Definition hit (k : nat) : Prop := 0 < g k ∧ rawTokens - g k <= targetTokens.

(** What the loop returns: the first hit, else the last prefix with a gain,
    else the plan it started from. *)
Inductive selected (counts : list nat) (plan : ArchivePlan) : ArchivePlan → Prop :=
| sel_hit l1 k l2 : counts = l1 ++ k :: l2 → hit k → Forall (λ j, ¬ hit j) l1 → selected counts plan (cand k)
| sel_last l1 k l2 : counts = l1 ++ k :: l2 → Forall (λ j, ¬ hit j) counts → 0 < g k → Forall (λ j, g j <= 0) l2 →
    selected counts plan (cand k)
| sel_none : Forall (λ j, g j <= 0) counts → selected counts plan plan.

Lemma select_plan_selected counts plan :
  selected counts plan (select_plan sha256Hex rawTokens targetTokens oldTurns counts plan).
Proof.
  revert plan. induction counts as [|k counts IH]; intros plan; cbn [select_plan]; [by apply sel_none|].
  destruct (0 <? g k) eqn:Eg; cbn [andb].
  - destruct (rawTokens - g k <=? targetTokens) eqn:Et; bool_prop; [by apply (sel_hit _ _ [] k counts)|].
    assert (¬ hit k) as Hk by (unfold hit; lia).
    destruct (IH (cand k)) as [l1 j l2 -> Hh Hl|l1 j l2 -> Hn Hp Hl|Hl].
    + by apply (sel_hit _ _ (k :: l1) j l2); [| |constructor].
    + by apply (sel_last _ _ (k :: l1) j l2); [|constructor| |].
    + apply (sel_last _ _ [] k counts); [done| |done|done]. constructor; [done|].
      eapply Forall_impl; [exact Hl|]. unfold hit. intros; simpl in *; lia.
  - bool_prop. assert (¬ hit k) as Hk by (unfold hit; lia).
    destruct (IH plan) as [l1 j l2 -> Hh Hl|l1 j l2 -> Hn Hp Hl|Hl].
    + by apply (sel_hit _ _ (k :: l1) j l2); [| |constructor].
    + by apply (sel_last _ _ (k :: l1) j l2); [|constructor| |].
    + apply sel_none. by constructor.
Qed.

Lemma seq_split n l1 k l2 : seq 1 n = l1 ++ k :: l2 → (1 <= k <= n)%nat ∧ l1 = seq 1 (k - 1) ∧ l2 = seq (S k) (n - k).
Proof.
  intros E. assert (length l1 < n)%nat as Hl.
  { apply (f_equal length) in E. rewrite length_seq, length_app in E. simpl in E. lia. }
  assert (k = S (length l1)) as ->.
  { apply (f_equal (λ l, l !! length l1)) in E. rewrite list_lookup_middle in E by done.
    rewrite lookup_seq_lt in E by lia. injection E. lia. }
  split; [lia|]. replace n with (length l1 + S (n - S (length l1)))%nat in E by lia.
  rewrite seq_app in E. apply app_inj_1 in E as [E1 E2]; [|by rewrite length_seq].
  simpl in E2. injection E2 as E2. split; [|by rewrite <- E2].
  rewrite <- E1 at 1. f_equal. lia.
Qed.

(** The numeric form of the choice over all prefix lengths. *)
Definition chosen_prefix (k : nat) : Prop :=
  let n := length oldTurns in
  (1 <= k <= n)%nat
  ∧ ((hit k ∧ ∀ j, (1 <= j < k)%nat → ¬ hit j)
     ∨ ((∀ j, (1 <= j <= n)%nat → ¬ hit j) ∧ 0 < g k ∧ ∀ j, (k < j <= n)%nat → g j <= 0)
     ∨ (k = n ∧ ∀ j, (1 <= j <= n)%nat → g j <= 0)).

Lemma select_plan_prefix :
  oldTurns ≠ [] →
  ∃ k, chosen_prefix k
    ∧ select_plan sha256Hex rawTokens targetTokens oldTurns (seq 1 (length oldTurns)) (planArchive sha256Hex oldTurns) = cand k.
Proof.
  intros Hne. destruct (select_plan_selected (seq 1 (length oldTurns)) (planArchive sha256Hex oldTurns)) as [l1 k l2 E Hh Hl|l1 k l2 E Hn Hp Hl|Hl].
  - exists k. apply seq_split in E as (? & -> & _). split; [|done]. split; [done|]. left. split; [done|].
    intros j Hj. rewrite Forall_forall in Hl. apply Hl, elem_of_seq. lia.
  - exists k. apply seq_split in E as (? & _ & ->). split; [|done]. split; [done|]. right; left. split_and!; [|done|].
    + intros j Hj. rewrite Forall_forall in Hn. apply Hn, elem_of_seq. lia.
    + intros j Hj. rewrite Forall_forall in Hl. apply Hl, elem_of_seq. lia.
  - exists (length oldTurns). split; [|by rewrite firstn_all].
    assert (length oldTurns ≠ 0)%nat by (by rewrite length_zero_iff_nil). split; [lia|]. right; right.
    split; [done|]. intros j Hj. rewrite Forall_forall in Hl. apply Hl, elem_of_seq. lia.
Qed.
End Choice.

Lemma length_flat_map_sum (turns : list Turn) :
  zlen (flat_map t_messages turns) = zsum (map (λ t, zlen (t_messages t)) turns).
Proof. induction turns as [|t turns IH]; [done|]. simpl. rewrite length_app. lia. Qed.

(** What a chosen plan is: a nonempty prefix of the old turns. *)
Record plan_prefix (sha256Hex : jstr → jstr) (params : CompressParams) (k : nat) : Prop := {
  pp_plan : chosen_plan sha256Hex params = planArchive sha256Hex (take k (splitTurns (cp_messages params)));
  pp_free : Forall (λ t, turn_blocked (cp_protectedMessageIds params) t = false) (take k (splitTurns (cp_messages params)));
  pp_ne : ap_messages (chosen_plan sha256Hex params) ≠ [];
  pp_tail : (1 <= k)%nat ∧ Z.of_nat k + Z.max 1 (cp_retainRecentTurns params + 1) <= zlen (splitTurns (cp_messages params)) }.

Lemma chosen_plan_prefix sha256Hex params : old_turns params ≠ [] → ∃ k, plan_prefix sha256Hex params k.
Proof.
  intros Hne. destruct (old_turns_spec params) as [j [Ho Hf Ht]].
  destruct (select_plan_prefix sha256Hex (tokens_of (cp_messages params)) (target_tokens params) (old_turns params) Hne)
    as (k & [Hk _] & Hsel). set (turns := splitTurns (cp_messages params)) in *.
  assert (take k (old_turns params) = take k turns) as Htk.
  { rewrite Ho, take_take. f_equal. rewrite Ho, length_take in Hk. lia. }
  assert (1 <= k <= j ∧ k <= length turns)%nat as Hkj by (rewrite Ho, length_take in Hk; lia).
  exists k. split; fold turns.
  - unfold chosen_plan. cbv zeta. by rewrite Hsel, Htk.
  - replace k with (Nat.min k j) by lia. rewrite <- take_take. by apply Forall_take.
  - unfold chosen_plan. cbv zeta. rewrite Hsel, Htk. cbn [planArchive ap_messages].
    pose proof (turns_nonempty (cp_messages params)) as Htn. fold turns in Htn. destruct turns as [|t ts]; [simpl in Hkj; lia|].
    destruct k; [lia|]. simpl. intros [Hnil _]%app_eq_nil. by apply (Htn t); [left|].
  - specialize (Ht ltac:(lia)). lia.
Qed.

Definition freed_by (sha256Hex : jstr → jstr) (params : CompressParams) : Z := gain (chosen_plan sha256Hex params).

(** Either nothing is compacted and the result is inert, or the chosen plan has
    a positive gain and the result announces it. *)
Inductive compressed (sha256Hex : jstr → jstr) (params : CompressParams) : HeadroomCompressResult * option ArchivePlan → Prop :=
| co_inert : old_turns params = [] ∨ freed_by sha256Hex params <= 0 →
    compressed sha256Hex params (inert (tokens_of (cp_messages params)), None)
| co_plan r k : plan_prefix sha256Hex params k →
    0 < freed_by sha256Hex params →
    r = (compress_plan sha256Hex params).1 →
    hr_compacted r = true → hr_freedTokens r = freed_by sha256Hex params →
    compressed sha256Hex params (r, Some (chosen_plan sha256Hex params)).

Lemma compress_plan_cases sha256Hex params : compressed sha256Hex params (compress_plan sha256Hex params).
Proof.
  pose proof (chosen_plan_prefix sha256Hex params) as Hp. pose proof (co_plan sha256Hex params) as Hco. unfold compress_plan in *.
  destruct (zlen (old_turns params) =? 0) eqn:E.
  { apply co_inert. left. bool_prop. destruct (old_turns params); [done|simpl in E; lia]. }
  cbv zeta in *. set (plan := chosen_plan sha256Hex params) in *.
  destruct (tokens_of (cp_messages params) - (tokens_of (cp_messages params) - tokens_of (ap_messages plan) + messageTokens (replacement_for plan)) <=? 0) eqn:Ef; bool_prop.
  { apply co_inert. right. unfold freed_by, gain. fold plan. lia. }
  destruct Hp as [k Hk]; [intros H0; by rewrite H0 in E|].
  apply (Hco _ k); [done| |done|done|]; unfold freed_by, gain; fold plan; [lia|cbn [hr_freedTokens]; lia].
Qed.

Lemma plan_split sha256Hex params k :
  plan_prefix sha256Hex params k →
  cp_messages params = ap_messages (chosen_plan sha256Hex params) ++ flat_map t_messages (drop k (splitTurns (cp_messages params))).
Proof. intros [-> _ _ _]. apply turns_prefix. Qed.

Lemma plan_hashes sha256Hex params k :
  plan_prefix sha256Hex params k →
  ap_hashes (chosen_plan sha256Hex params) = map (contentDigest sha256Hex) (ap_messages (chosen_plan sha256Hex params)).
Proof. by intros [-> _ _ _]. Qed.

Lemma map_contentHash_refs plan :
  length (ap_messages plan) = length (ap_hashes plan) → map rf_contentHash (refs_of plan) = ap_hashes plan.
Proof.
  intros Hl. unfold refs_of. apply list_eq. intros i. rewrite map_lookup, list_lookup_imap, lookup_zip_with.
  destruct (ap_messages plan !! i) as [m|] eqn:Em, (ap_hashes plan !! i) as [h|] eqn:Eh; try done.
  apply lookup_ge_None_1 in Em. apply lookup_lt_Some in Eh. lia.
Qed.

Lemma replacement_tokens p p' :
  pl_historyHash p = pl_historyHash p' → pl_summary p = pl_summary p' →
  messageTokens (buildReplacementMessage p) = messageTokens (buildReplacementMessage p').
Proof.
  intros Hh Hsum. unfold messageTokens, messageExcerpt, buildReplacementMessage. cbn [m_parts map part_excerpt].
  unfold buildReplacementText. by rewrite Hh, Hsum.
Qed.

(** ** Properties *)

(** Every answer of legacy compression satisfies the wire contract.  For a
    history whose message ids are distinct, the result of [compress] passes the
    refinement of [headroomCompressResultSchema] (consistent token accounting,
    aligned digests, refs and ids, fully inert when nothing is compacted), and
    its token counts are nonnegative. *)
Theorem compress_result_valid sha256Hex params :
  NoDup (map m_id (cp_messages params)) →
  let r := (compress_plan sha256Hex params).1 in
  headroomCompressResult_refine r = true
  ∧ 0 <= hr_evictedTokensEst r ∧ 0 <= hr_retainedTokensEst r ∧ 0 <= hr_replacementTokensEst r ∧ 0 <= hr_freedTokens r.
Proof.
  intros Hd. cbv zeta. pose proof (compress_plan_cases sha256Hex params) as Hc.
  destruct Hc as [_|r k Hk Hf Hr Hcomp Hfreed]; cbn [fst].
  { pose proof (tokens_of_nonneg (cp_messages params)). split; [|cbn; lia].
    unfold headroomCompressResult_refine. cbn. rewrite !Z.eqb_refl, Z.add_0_r, Z.eqb_refl, Z.sub_diag. done. }
  pose proof (plan_split _ _ _ Hk) as Hs. pose proof (plan_hashes _ _ _ Hk) as Hh. destruct Hk as [_ _ Hne _].
  rewrite Hr in Hcomp, Hfreed |- *. clear Hr r. unfold compress_plan in *.
  destruct (zlen (old_turns params) =? 0); [done|]. cbv zeta in *.
  set (plan := chosen_plan sha256Hex params) in *. set (raw := tokens_of (cp_messages params)) in *.
  destruct (raw - (raw - tokens_of (ap_messages plan) + messageTokens (replacement_for plan)) <=? 0) eqn:E; [done|]. bool_prop.
  assert (tokens_of (ap_messages plan) <= raw) as Hle.
  { unfold raw. rewrite Hs, tokens_of_app. pose proof (tokens_of_nonneg (flat_map t_messages (drop k (splitTurns (cp_messages params))))). lia. }
  assert (length (ap_hashes plan) = length (ap_messages plan)) as Hlen by (by rewrite Hh, length_map).
  assert (0 < zlen (ap_messages plan)) as Hpos by (destruct (ap_messages plan); [done|simpl; lia]).
  split.
  2:{ cbn. pose proof (tokens_of_nonneg (ap_messages plan)). pose proof (messageTokens_nonneg (replacement_for plan)). lia. }
  unfold headroomCompressResult_refine, operationSourcesAligned. cbn [fst hr_operations hr_compacted hr_rawTokens
    hr_sourceTokensEst hr_finalTokensEst hr_retainedTokensEst hr_replacementTokensEst hr_freedTokens hr_sourceDigests hr_memory
    hr_replacedMessageIds hr_refs hr_historyHash hr_summary hr_evictedTokensEst is_none].
  assert (length (refs_of plan) = length (ap_hashes plan)) as Hrl.
  { rewrite <- (map_contentHash_refs plan) by done. by rewrite length_map. }
  rewrite (map_contentHash_refs plan) by done. rewrite length_map, Hrl, Hlen.
  unfold distinct. rewrite !bool_decide_true; [|done|].
  2:{ rewrite Hs, map_app in Hd. by apply NoDup_app in Hd as (? & _). }
  rewrite !andb_true_iff, !Z.eqb_eq, !Z.ltb_lt. cbn [negb]. repeat split; lia.
Qed.

(** The archived prefix is the one the watermark asks for.  When there are
    old turns, the plan archives the first [k] of them, where [k] is the least
    prefix that both frees tokens and brings the context under the target; if
    no prefix does, the longest prefix that frees tokens; if none frees tokens,
    all of them, and then nothing is compacted.  Something is compacted exactly
    when some prefix frees tokens. *)
Theorem compress_selects sha256Hex params :
  let old := old_turns params in
  (old ≠ [] → ∃ k, chosen_prefix sha256Hex (tokens_of (cp_messages params)) (target_tokens params) old k
     ∧ chosen_plan sha256Hex params = planArchive sha256Hex (take k old))
  ∧ (hr_compacted (compress_plan sha256Hex params).1 = true
     ↔ ∃ k, (1 <= k <= length old)%nat ∧ 0 < gain (planArchive sha256Hex (take k old))).
Proof.
  intros old. split; [apply select_plan_prefix|].
  assert (old ≠ [] → ∃ k, chosen_prefix sha256Hex (tokens_of (cp_messages params)) (target_tokens params) old k
     ∧ chosen_plan sha256Hex params = planArchive sha256Hex (take k old)) as Hsel by apply select_plan_prefix.
  destruct (compress_plan_cases sha256Hex params) as [Hno|r k Hk Hf Hr Hcomp _]; cbn [fst].
  - split; [done|]. intros (j & Hj & Hg). exfalso. destruct Hno as [Hno|Hno]; [unfold old in Hj; rewrite Hno in Hj; simpl in Hj; lia|].
    destruct Hsel as (k & [Hk Hch] & Hplan); [intros H0; rewrite H0 in Hj; simpl in Hj; lia|].
    unfold freed_by in Hno. rewrite Hplan in Hno. unfold hit in Hch.
    destruct Hch as [[? _]|[(_ & ? & _)|[_ H0]]]; [lia|lia|]. specialize (H0 j Hj). lia.
  - split; [intros _|done]. assert (old ≠ []) as Hne.
    { intros H0. destruct (old_turns_spec params) as [j [Ho _ _]]. unfold old in H0. rewrite H0 in Ho.
      destruct Hk as [_ _ Hne [Hk _]]. unfold chosen_plan in Hne. cbv zeta in Hne. by rewrite H0 in Hne. }
    destruct (Hsel Hne) as (j & [Hj _] & Hplan). exists j. split; [done|]. unfold freed_by in Hf. by rewrite Hplan in Hf.
Qed.

(** What compression may archive.  The archived messages are the first
    messages of the history, whole turns of it; no archived message is marked
    protected, listed in [protectedMessageIds], or has an unfinished tool call;
    and the active turn and the [retainRecentTurns] turns before it stay. *)
Theorem compress_protects sha256Hex params r plan :
  compress_plan sha256Hex params = (r, Some plan) →
  ∃ k kept, (1 <= k)%nat ∧ ap_messages plan = flat_map t_messages (take k (splitTurns (cp_messages params)))
    ∧ cp_messages params = ap_messages plan ++ kept
    ∧ Forall (λ m, message_blocked (cp_protectedMessageIds params) m = false) (ap_messages plan)
    ∧ kept = flat_map t_messages (drop k (splitTurns (cp_messages params)))
    ∧ cp_retainRecentTurns params + 1 <= zlen (drop k (splitTurns (cp_messages params)))
    ∧ 1 <= zlen (drop k (splitTurns (cp_messages params))).
Proof.
  intros H. pose proof (compress_plan_cases sha256Hex params) as Hc. rewrite H in Hc. inversion Hc as [|r' k Hk _ _ _ _]; subst.
  pose proof (plan_split _ _ _ Hk) as Hs. destruct Hk as [Hp Hf _ [H1 Ht]].
  exists k, (flat_map t_messages (drop k (splitTurns (cp_messages params)))). split_and!; [done| |done| |done| |].
  - by rewrite Hp.
  - rewrite Hp. cbn [planArchive ap_messages]. apply Forall_forall. intros m Hm.
    apply list_elem_of_In, in_flat_map in Hm as (t & Ht' & Hm). rewrite <- list_elem_of_In in Ht'.
    rewrite Forall_forall in Hf. specialize (Hf t Ht'). unfold turn_blocked in Hf. apply not_true_iff_false. intros Hb.
    apply (eq_true_false_abs _ Logic.eq_refl). rewrite <- Hf. symmetry. apply existsb_exists. by exists m.
  - rewrite length_drop. lia.
  - rewrite length_drop. lia.
Qed.

(** C7: the announced plan applies and reaches the announced size.  When
    [compress] answers [compacted] for a history with distinct ids whose
    archived part is not only earlier replacements, applying the plan of its
    result to that history succeeds: the archived prefix becomes the one
    replacement message, the rest stays, the new history has exactly
    [finalTokensEst] tokens, and that is less than before. *)
Theorem compress_then_apply sha256Hex params r plan :
  NoDup (map m_id (cp_messages params)) →
  compress_plan sha256Hex params = (r, Some plan) →
  forallb isCompactionReplacement (ap_messages plan) = false →
  let applied := materializeCompaction sha256Hex (cp_messages params) (plan_of r) in
  mz_status applied = SApplied
  ∧ (∃ kept, cp_messages params = ap_messages plan ++ kept
       ∧ mz_messages applied = buildReplacementMessage (plan_of r) :: kept)
  ∧ tokens_of (mz_messages applied) = hr_finalTokensEst r
  ∧ tokens_of (mz_messages applied) < tokens_of (cp_messages params).
Proof.
  intros Hd H Hrep. cbv zeta. pose proof (compress_plan_cases sha256Hex params) as Hc. rewrite H in Hc.
  inversion Hc as [|r' k Hk Hf _ Hcomp Hfreed]; subst. pose proof (plan_split _ _ _ Hk) as Hs.
  pose proof (plan_hashes _ _ _ Hk) as Hh. destruct Hk as [_ _ Hne _].
  set (kept := flat_map t_messages (drop k (splitTurns (cp_messages params)))) in *.
  set (plan := chosen_plan sha256Hex params) in *.
  assert (pl_operations (plan_of r) = None ∧ pl_replacedMessageIds (plan_of r) = map m_id (ap_messages plan)
          ∧ pl_sourceDigests (plan_of r) = Some (ap_hashes plan)
          ∧ messageTokens (buildReplacementMessage (plan_of r)) = messageTokens (replacement_for plan)
          ∧ hr_finalTokensEst r = tokens_of (cp_messages params) - freed_by sha256Hex params) as (E1 & E2 & E3 & E4 & E5).
  { unfold compress_plan in H. destruct (zlen (old_turns params) =? 0); [done|]. cbv zeta in H. fold plan in H.
    case_test_in H; [done|]. injection H as <-. split_and!; [reflexivity|reflexivity|reflexivity|by apply replacement_tokens|].
    cbn [hr_finalTokensEst]. unfold freed_by, gain. fold plan. lia. }
  assert (materializeCompaction sha256Hex (cp_messages params) (plan_of r)
          = mkMat SApplied ([] ++ [buildReplacementMessage (plan_of r)] ++ kept)) as ->.
  { rewrite Hs. apply (materialize_applies sha256Hex (plan_of r) [] (ap_messages plan) kept); try done.
    - cbn [app]. by rewrite <- Hs.
    - unfold digests_match. rewrite E3. by rewrite Hh. }
  cbn [mz_status mz_messages app]. split; [done|]. split; [by exists kept|].
  change (buildReplacementMessage (plan_of r) :: kept) with ([buildReplacementMessage (plan_of r)] ++ kept).
  rewrite E5, tokens_of_app. unfold freed_by, gain in *. fold plan in Hf |- *.
  assert (tokens_of [buildReplacementMessage (plan_of r)] = messageTokens (replacement_for plan)) as ->
    by (rewrite <- E4; unfold tokens_of; cbn [map]; rewrite zsum_cons; change (zsum []) with 0; lia).
  rewrite Hs, tokens_of_app. split; lia.
Qed.

(** ** A concrete history *)

Definition demo_chatter : jstr := mjoin (repeat (js "Working on it. ") 26).
Definition demo_params : CompressParams :=
  mkParams (mkNs (js "p") (js "s"))
    [user_text (js "u1") (js "Fix the parser."); assistant_text (js "a1") demo_chatter;
     user_text (js "u2") (js "Then test it."); assistant_text (js "a2") (js "Running.")]
    1000 None None [] 0.
Definition demo_sha : jstr → jstr := λ _, demo_hash 97.

Lemma demo_compacts :
  let '(r, plan) := compress_plan demo_sha demo_params in
  hr_compacted r = true ∧ match plan with Some p => map m_id (ap_messages p) = [js "u1"; js "a1"] | None => False end.
Proof. vm_compute. auto. Qed.

Definition demo_result : HeadroomCompressResult := (compress_plan demo_sha demo_params).1.
Definition demo_archive : ArchivePlan := default (planArchive demo_sha []) (compress_plan demo_sha demo_params).2.
Lemma demo_plan_eq : compress_plan demo_sha demo_params = (demo_result, Some demo_archive).
Proof. vm_compute. reflexivity. Qed.
Lemma demo_ids : NoDup (map m_id (cp_messages demo_params)).
Proof. decide_now. Qed.

Lemma compress_result_valid_witness : headroomCompressResult_refine demo_result = true.
Proof. apply (compress_result_valid demo_sha demo_params). exact demo_ids. Defined.

Lemma compress_protects_witness : ∃ k kept : nat, (1 <= k)%nat ∧ kept = O.
Proof.
  destruct (compress_protects demo_sha demo_params demo_result demo_archive demo_plan_eq) as (k & _ & Hk & _).
  exists k, O. auto.
Defined.

Lemma compress_then_apply_witness :
  mz_status (materializeCompaction demo_sha (cp_messages demo_params) (plan_of demo_result)) = SApplied.
Proof.
  apply (compress_then_apply demo_sha demo_params demo_result demo_archive);
    [exact demo_ids|exact demo_plan_eq|vm_compute; reflexivity].
Defined.
