(* ===== verification/Cas.v ===== *)
(** * Content-addressed objects ([packages/shared/src/cas.ts])

    Object files are published by writing a temporary file and hard-linking it
    to the object's path.  A writer is a sequence of file-system calls, one
    [writer_step] each; [world_step] interleaves any number of writers, which
    may crash between calls.  Directories and fsync are not modelled: the file
    system is the map from paths to contents, and [crypto.randomUUID] is
    modelled by temporary names that no other writer and no file has.  The
    SHA-256 of [crypto.subtle] is a parameter. *)

From stdpp Require Import base tactics list numbers option sets strings relations.
From S2P Require Import Prelude JsString JsRegex Json CLine OMap Chat.

(** ** Paths *)

Abbreviation bytes := (list Z).
Abbreviation fs := (list (jstr * bytes)).

Definition assertValidHash (hash : jstr) : result jstr unit :=
  if test HASH_RE hash then Ok tt
  else Throw (js "cas: invalid object hash " ++ quote hash ++ js " — expected 64 lowercase hex chars").

Definition object_dir (dataDir hash : jstr) : jstr := dataDir ++ js "/objects/" ++ slice hash 0 2.
Definition object_path (dataDir hash : jstr) : jstr := object_dir dataDir hash ++ js "/" ++ hash.
Definition objectPath (dataDir hash : jstr) : result jstr jstr :=
  let! _ := assertValidHash hash in Ok (object_path dataDir hash).
Definition tmp_path (dataDir hash uuid : jstr) : jstr :=
  object_dir dataDir hash ++ js "/.tmp-" ++ hash ++ js "-" ++ uuid.

(** ** Writers *)

Record WriteObjectResult := mkWrote { wr_hash : jstr; wr_size : Z; wr_existed : bool }.

(** How a call ends: a result, the storage-corruption error, or any other error. *)
Inductive Outcome : Type :=
| Wrote (r : WriteObjectResult)
| Corrupt
| IoError.

Inductive Phase : Type :=
| PCheck                  (** about to read the object for a warm hit *)
| PTmp                    (** about to create the temporary file *)
| PWrite (written : nat)  (** writing it; [written] bytes are in *)
| PLink                   (** about to link it to the object's path *)
| PVerify                 (** the link found an object there: compare *)
| PClean (o : Outcome)    (** about to remove the temporary file *)
| PDone (o : Outcome)
| PDead.

Record Writer := mkWriter {
  w_hash : jstr;
  w_path : jstr;
  w_tmp : jstr;
  w_bytes : bytes;
  w_addressed : bool;     (** [writeObject] rather than [writeObjectAs] *)
  w_phase : Phase }.

Definition set_phase (p : Phase) (w : Writer) : Writer :=
  mkWriter (w_hash w) (w_path w) (w_tmp w) (w_bytes w) (w_addressed w) p.

Definition wrote (w : Writer) (existed : bool) : Outcome := Wrote (mkWrote (w_hash w) (zlen (w_bytes w)) existed).

(** The comparison after [EEXIST]; [writeObject] also compares sizes. *)
Definition verify (w : Writer) (actual : bytes) : Outcome :=
  if negb (jeqb actual (w_bytes w)) then Corrupt
  else if w_addressed w && negb (zlen actual =? zlen (w_bytes w)) then Corrupt
  else wrote w true.

(** One file-system call; [chunk] is how far the kernel gets with a write. *)
Definition writer_step (files : fs) (chunk : nat) (w : Writer) : fs * Writer :=
  match w_phase w with
  | PCheck =>
    match get (w_path w) files with
    | Some existing => (files, set_phase (PDone (if jeqb existing (w_bytes w) then wrote w true else Corrupt)) w)
    | None => (files, set_phase PTmp w)
    end
  | PTmp =>
    if has (w_tmp w) files then (files, set_phase (PClean IoError) w)
    else (set_key (w_tmp w) [] files, set_phase (PWrite 0) w)
  | PWrite written =>
    let written' := Nat.min (written + S chunk) (length (w_bytes w)) in
    (set_key (w_tmp w) (take written' (w_bytes w)) files,
     set_phase (if (written' =? length (w_bytes w))%nat then PLink else PWrite written') w)
  | PLink =>
    match get (w_path w) files, get (w_tmp w) files with
    | Some _, _ => (files, set_phase PVerify w)
    | None, Some content => (set_key (w_path w) content files, set_phase (PClean (wrote w false)) w)
    | None, None => (files, set_phase (PClean IoError) w)
    end
  | PVerify =>
    match get (w_path w) files with
    | Some actual => (files, set_phase (PClean (verify w actual)) w)
    | None => (files, set_phase (PClean IoError) w)
    end
  | PClean o => (delete_key (w_tmp w) files, set_phase (PDone o) w)
  | PDone _ | PDead => (files, w)
  end.

Definition start_writer (dataDir hash uuid : jstr) (content : bytes) (addressed : bool) : Writer :=
  mkWriter hash (object_path dataDir hash) (tmp_path dataDir hash uuid) content addressed PCheck.

(** A writer running alone: every write goes through in one call. *)
Fixpoint run_writer (fuel : nat) (files : fs) (w : Writer) : fs * Writer :=
  match fuel with
  | O => (files, w)
  | S f => let '(files', w') := writer_step files (length (w_bytes w)) w in run_writer f files' w'
  end.

Definition corruption (path what : jstr) : jstr := js "cas: storage corruption at " ++ path ++ js ": " ++ what ++ js " (E_INTERNAL)".
Definition outcome_of (w : Writer) : result jstr WriteObjectResult :=
  match w_phase w with
  | PDone (Wrote r) => Ok r
  | PDone Corrupt => Throw (corruption (w_path w) (js "canonical bytes differ"))
  | _ => Throw (js "I/O error")
  end.

Definition writeObjectAs (files : fs) (dataDir hash : jstr) (content : bytes) (uuid : jstr) : fs * result jstr WriteObjectResult :=
  match assertValidHash hash with
  | Throw e => (files, Throw e)
  | Ok _ =>
    let '(files', w) := run_writer 6 files (start_writer dataDir hash uuid content false) in
    (files', outcome_of w)
  end.

(** Reading is two calls: a [stat] and a [readFile], each of the files as they
    are then.  Absent at the [stat] is [None]. *)
Definition read_sized (at_stat at_read : fs) (path : jstr) : result jstr (option bytes) :=
  match get path at_stat with
  | None => Ok None
  | Some info =>
    match get path at_read with
    | None => Throw (js "I/O error")
    | Some content =>
      throw_if negb (zlen content =? zlen info) with corruption path (js "file changed between stat and read") in
      Ok (Some content)
    end
  end.
Definition readObjectAs (at_stat at_read : fs) (dataDir hash : jstr) : result jstr (option bytes) :=
  let! path := objectPath dataDir hash in
  read_sized at_stat at_read path.

Section Addressed.
Context (sha256Hex : bytes → jstr).

Definition writeObject (files : fs) (dataDir : jstr) (content : bytes) (uuid : jstr) : fs * result jstr WriteObjectResult :=
  let hash := sha256Hex content in
  match objectPath dataDir hash with
  | Throw e => (files, Throw e)
  | Ok _ =>
    let '(files', w) := run_writer 6 files (start_writer dataDir hash uuid content true) in
    (files', outcome_of w)
  end.

Definition readObject (at_stat at_read : fs) (dataDir hash : jstr) : result jstr (option bytes) :=
  let! path := objectPath dataDir hash in
  let! found := read_sized at_stat at_read path in
  match found with
  | None => Ok None
  | Some content =>
    let actual := sha256Hex content in
    throw_if negb (jeqb actual hash) with
      corruption path (js "content hashes to " ++ actual ++ js ", expected " ++ hash) in
    Ok (Some content)
  end.
End Addressed.

(** ** Interleavings *)

Record World := mkWorld { wd_files : fs; wd_writers : list Writer }.

Inductive world_step (dataDir : jstr) : World → World → Prop :=
| ws_start files writers hash uuid content addressed :
    test HASH_RE hash = true →
    get (tmp_path dataDir hash uuid) files = None →
    Forall (λ w, w_tmp w ≠ tmp_path dataDir hash uuid) writers →
    world_step dataDir (mkWorld files writers)
      (mkWorld files (writers ++ [start_writer dataDir hash uuid content addressed]))
| ws_call files l1 w l2 chunk files' w' :
    writer_step files chunk w = (files', w') →
    world_step dataDir (mkWorld files (l1 ++ w :: l2)) (mkWorld files' (l1 ++ w' :: l2))
| ws_crash files l1 w l2 :
    world_step dataDir (mkWorld files (l1 ++ w :: l2)) (mkWorld files (l1 ++ set_phase PDead w :: l2)).

(** ** Hash syntax and paths *)

Definition hex_ranges : list (Z * Z) := [(48, 57); (97, 102)].

Lemma rmatch_run n rs st k :
  rmatch (rep_exact (S n) (RSet false rs)) st k
  = if bool_decide (S n <= length (m_rest st))%nat && forallb (in_ranges rs) (take (S n) (m_rest st))
    then k (MState (Some (default 0 (m_rest st !! n))) (drop (S n) (m_rest st)) (m_caps st)) else None.
Proof.
  revert st. induction n as [|n IH]; intros [prev s caps]; cbn [m_rest m_caps].
  - cbn [rep_exact rmatch step1 m_rest m_caps]. destruct s as [|c s]; [done|]. cbn. rewrite andb_true_r. by destruct (in_ranges rs c).
  - change (rep_exact (S (S n)) (RSet false rs)) with (RSeq (RSet false rs) (rep_exact (S n) (RSet false rs))).
    cbn [rmatch]. destruct s as [|c s]; [done|]. unfold step1. cbn [m_rest m_caps].
    change (xorb false (in_ranges rs c)) with (in_ranges rs c).
    destruct (in_ranges rs c) eqn:E; [|cbn [take forallb]; by rewrite E, andb_false_r].
    rewrite IH. cbn [m_rest m_caps take forallb drop lookup list_lookup length]. rewrite E. cbn [andb].
    destruct (decide (S n <= length s)%nat); [rewrite !bool_decide_true by lia|rewrite !bool_decide_false by lia]; done.
Qed.

Lemma exec_from_bol r i c s : exec_from (RSeq (RSeq RBol r) REol) (Some c) i s = None.
Proof. revert i c. induction s as [|d s IH]; intros i c; [done|]. cbn [exec_from]. by rewrite IH. Qed.

(** [^[0-9a-f]{n}$]: exactly [n] hex digits. *)
Lemma test_hex n s :
  test (RSeq (RSeq RBol (rep_exact (S n) (RSet false hex_ranges))) REol) s
  = bool_decide (length s = S n) && forallb (in_ranges hex_ranges) s.
Proof.
  unfold test, exec.
  assert (match_at (RSeq (RSeq RBol (rep_exact (S n) (RSet false hex_ranges))) REol) None s
          = if bool_decide (length s = S n) && forallb (in_ranges hex_ranges) s
            then Some (MState (Some (default 0 (s !! n))) [] []) else None) as Hm.
  { unfold match_at. cbn [rmatch m_prev]. rewrite rmatch_run. cbn [m_rest m_caps].
    destruct (decide (length s = S n)) as [Hl|Hl].
    - rewrite !bool_decide_true by lia. rewrite firstn_all2 by lia. cbn [andb].
      destruct (forallb (in_ranges hex_ranges) s); [|done]. rewrite skipn_all2 by lia. done.
    - rewrite (bool_decide_false (length s = _)) by done. cbn [andb].
      destruct (bool_decide (S n <= length s)%nat && forallb (in_ranges hex_ranges) (take (S n) s)) eqn:E; [|done].
      bool_prop. destruct (drop (S n) s) eqn:Ed; [|done]. apply (f_equal length) in Ed. rewrite length_drop in Ed. cbn in Ed. lia. }
  destruct s as [|c s].
  - cbn [exec_from]. rewrite Hm. by destruct (bool_decide _ && _).
  - cbn [exec_from]. rewrite Hm, exec_from_bol. by destruct (bool_decide _ && _).
Qed.

Lemma hash_re_spec hash : test HASH_RE hash = bool_decide (length hash = 64%nat) && forallb (in_ranges hex_ranges) hash.
Proof. exact (test_hex 63 hash). Qed.

Lemma hash_parts hash : test HASH_RE hash = true → ∃ a b t, hash = a :: b :: t ∧ a ≠ 46 ∧ length hash = 64%nat.
Proof.
  rewrite hash_re_spec. intros [Hl%bool_decide_eq_true Hf]%andb_true_iff. destruct hash as [|a [|b t]]; [done|done|].
  exists a, b, t. split_and!; [done| |done]. cbn [forallb] in Hf. apply andb_true_iff in Hf as [Ha _]. by intros ->.
Qed.

Lemma paths_aligned (dataDir d x y : jstr) (h h' : jstr) :
  length (take 2 h) = length (take 2 h') →
  dataDir ++ d ++ take 2 h ++ x = dataDir ++ d ++ take 2 h' ++ y → take 2 h = take 2 h' ∧ x = y.
Proof. intros Hl H. apply app_inv_head in H. apply app_inv_head in H. by apply app_inj_1 in H. Qed.

Lemma object_path_inj dataDir h h' :
  test HASH_RE h = true → test HASH_RE h' = true → object_path dataDir h = object_path dataDir h' → h = h'.
Proof.
  intros (a & b & t & -> & _)%hash_parts (a' & b' & t' & -> & _)%hash_parts. unfold object_path, object_dir, slice.
  rewrite <- !app_assoc. intros H. apply paths_aligned in H as [_ H]; [|done]. by apply app_inv_head in H.
Qed.

Lemma tmp_not_object dataDir h h' uuid :
  test HASH_RE h = true → test HASH_RE h' = true → tmp_path dataDir h uuid ≠ object_path dataDir h'.
Proof.
  intros (a & b & t & -> & _)%hash_parts (a' & b' & t' & -> & Ha & _)%hash_parts. unfold tmp_path, object_path, object_dir, slice.
  rewrite <- !app_assoc. intros H. apply paths_aligned in H as [_ H]; [|done].
  change (js "/.tmp-") with (47 :: 46 :: js "tmp-") in H. change (js "/") with [47] in H. cbn [app] in H. by injection H.
Qed.

(** ** Invariant of the interleavings *)

Definition outcome_ok (files : fs) (w : Writer) (o : Outcome) : Prop :=
  match o with
  | Wrote r => wr_hash r = w_hash w ∧ wr_size r = zlen (w_bytes w) ∧ get (w_path w) files = Some (w_bytes w)
  | Corrupt => ∃ b, get (w_path w) files = Some b ∧ b ≠ w_bytes w
  | IoError => False
  end.

Definition phase_ok (files : fs) (w : Writer) : Prop :=
  match w_phase w with
  | PCheck | PTmp => get (w_tmp w) files = None
  | PWrite n => (n <= length (w_bytes w))%nat ∧ get (w_tmp w) files = Some (take n (w_bytes w))
  | PLink => get (w_tmp w) files = Some (w_bytes w)
  | PVerify => get (w_tmp w) files = Some (w_bytes w) ∧ is_Some (get (w_path w) files)
  | PClean o => outcome_ok files w o
  | PDone o => get (w_tmp w) files = None ∧ outcome_ok files w o
  | PDead => True
  end.

(** A writer as [start_writer] makes it. *)
Definition writer_of (dataDir : jstr) (w : Writer) : Prop :=
  ∃ uuid, test HASH_RE (w_hash w) = true ∧ w_path w = object_path dataDir (w_hash w) ∧ w_tmp w = tmp_path dataDir (w_hash w) uuid.

(** What one call may change: its own temporary file, and its absent object. *)
Record files_step (w : Writer) (files files' : fs) : Prop := {
  fst_other : ∀ p, p ≠ w_tmp w → get p files' = get p files ∨ (p = w_path w ∧ get p files = None ∧ get p files' = Some (w_bytes w)) }.

Lemma verify_ok files w actual :
  get (w_path w) files = Some actual → outcome_ok files w (verify w actual).
Proof.
  intros Hg. unfold verify. destruct (jeqb actual (w_bytes w)) eqn:E; cbn [negb].
  - apply jeqb_eq in E. subst actual. rewrite Z.eqb_refl, andb_false_r. done.
  - apply jeqb_neq in E. by exists actual.
Qed.

Lemma writer_step_ok dataDir files chunk w files' w' :
  writer_of dataDir w → phase_ok files w → writer_step files chunk w = (files', w') →
  files_step w files files' ∧ phase_ok files' w' ∧ (∃ p, w' = set_phase p w).
Proof.
  intros (uuid & Hh & Hp & Ht) Hok. assert (w_tmp w ≠ w_path w) as Hne by (rewrite Hp, Ht; by apply tmp_not_object).
  assert (∀ v, files_step w files (set_key (w_tmp w) v files)) as Hset.
  { intros v. split. intros p Hq. left. by rewrite get_set_ne. }
  unfold writer_step, phase_ok in *. destruct (w_phase w) as [| |n| | |o|o|] eqn:E.
  - destruct (get (w_path w) files) as [existing|] eqn:Eg; intros [= <- <-].
    + split_and!; [by split; auto| |by eexists]. cbn [set_phase w_phase w_tmp]. split; [done|].
      destruct (jeqb existing (w_bytes w)) eqn:Ej; [apply jeqb_eq in Ej; by subst|]. apply jeqb_neq in Ej. by exists existing.
    + split_and!; [by split; auto|done|by eexists].
  - unfold has. rewrite Hok. intros [= <- <-]. split_and!; [done| |by eexists]. cbn [set_phase w_phase w_tmp w_bytes].
    split; [lia|]. by rewrite get_set_eq.
  - destruct Hok as [Hn Hg]. intros [= <- <-]. split_and!; [done| |by eexists].
    set (n' := Nat.min (n + S chunk) (length (w_bytes w))). cbn [set_phase w_phase w_tmp w_bytes].
    destruct (Nat.eqb_spec n' (length (w_bytes w))) as [El|El]; rewrite get_set_eq; [by rewrite El, firstn_all|]. split; [lia|done].
  - destruct (get (w_path w) files) as [existing|] eqn:Eg; [intros [= <- <-]|rewrite Hok; intros [= <- <-]].
    + split_and!; [by split; auto| |by eexists]. cbn [set_phase w_phase w_tmp w_bytes w_path]. by rewrite Eg.
    + split_and!; [| |by eexists].
      * split. intros p Hq. destruct (decide (p = w_path w)) as [->|Hq']; [right; by rewrite get_set_eq|left; by rewrite get_set_ne].
      * cbn [set_phase w_phase outcome_ok wrote w_hash w_bytes w_path wr_hash wr_size]. by rewrite get_set_eq.
  - destruct Hok as [Hg [actual Ha]]. rewrite Ha. intros [= <- <-]. split_and!; [by split; auto| |by eexists].
    cbn [set_phase w_phase]. apply (verify_ok files w actual Ha).
  - intros [= <- <-]. split_and!; [| |by eexists].
    + split. intros p Hq. left. by rewrite get_delete_ne.
    + cbn [set_phase w_phase w_tmp]. split; [apply get_delete_eq|]. destruct o as [r| |]; [| |done]; cbn in *.
      * by rewrite get_delete_ne.
      * destruct Hok as (b & ? & ?). exists b. by rewrite get_delete_ne.
  - intros [= <- <-]. rewrite E. split_and!; [by split; auto|apply Hok|apply Hok|]. exists (PDone o). unfold set_phase. rewrite <- E. by destruct w.
  - intros [= <- <-]. rewrite E. split_and!; [by split; auto|done|]. exists PDead. unfold set_phase. rewrite <- E. by destruct w.
Qed.

Lemma phase_ok_stable dataDir w v files files' :
  writer_of dataDir w → writer_of dataDir v → w_tmp v ≠ w_tmp w →
  files_step w files files' → phase_ok files v → phase_ok files' v.
Proof.
  intros (uuid & Hh & Hp & Ht) (uuid' & Hh' & Hp' & Ht') Hne [Hf].
  assert (get (w_tmp v) files' = get (w_tmp v) files) as Htmp.
  { destruct (Hf _ Hne) as [?|[Heq _]]; [done|]. rewrite Ht', Hp in Heq. by apply tmp_not_object in Heq. }
  assert (∀ b, get (w_path v) files = Some b → get (w_path v) files' = Some b) as Hpath.
  { intros b Hb. destruct (Hf (w_path v)) as [->|(_ & Hn & _)]; [|done|congruence].
    rewrite Hp', Ht. intros Heq. symmetry in Heq. by apply tmp_not_object in Heq. }
  assert (∀ o, outcome_ok files v o → outcome_ok files' v o) as Hout.
  { intros [r| |]; cbn; [intros (? & ? & ?); auto|intros (b & ? & ?); eauto|done]. }
  unfold phase_ok. destruct (w_phase v) as [| |n| | |o|o|]; rewrite ?Htmp; auto.
  - intros [? [b Hb]]. split; [done|]. exists b. auto.
  - intros [? ?]. auto.
Qed.

(** [files0] is what the store held at the start. *)
Record world_ok (dataDir : jstr) (files0 : fs) (w : World) : Prop := {
  wo_writers : Forall (writer_of dataDir) (wd_writers w);
  wo_tmps : NoDup (map w_tmp (wd_writers w));
  wo_phases : Forall (phase_ok (wd_files w)) (wd_writers w);
  wo_kept : ∀ h b, test HASH_RE h = true → get (object_path dataDir h) files0 = Some b →
    get (object_path dataDir h) (wd_files w) = Some b;
  wo_new : ∀ h b, test HASH_RE h = true → get (object_path dataDir h) (wd_files w) = Some b →
    get (object_path dataDir h) files0 = Some b ∨ ∃ v, v ∈ wd_writers w ∧ w_hash v = h ∧ w_bytes v = b }.

Lemma files_step_object dataDir w files files' h :
  writer_of dataDir w → test HASH_RE h = true → files_step w files files' →
  get (object_path dataDir h) files' = get (object_path dataDir h) files
  ∨ (get (object_path dataDir h) files = None ∧ get (object_path dataDir h) files' = Some (w_bytes w) ∧ w_hash w = h).
Proof.
  intros (uuid & Hh & Hp & Ht) Hv [Hf]. destruct (Hf (object_path dataDir h)) as [?|(Heq & ? & ?)]; [|by left|].
  - rewrite Ht. intros Heq. symmetry in Heq. by apply tmp_not_object in Heq.
  - right. split_and!; [done|done|]. rewrite Hp in Heq. by apply object_path_inj in Heq.
Qed.

Lemma map_set_phase_tmp l1 w l2 p : map w_tmp (l1 ++ set_phase p w :: l2) = map w_tmp (l1 ++ w :: l2).
Proof. by rewrite !map_app. Qed.

Lemma writer_of_phase dataDir p w : writer_of dataDir (set_phase p w) ↔ writer_of dataDir w.
Proof. done. Qed.

Lemma world_step_call_ok dataDir files0 files l1 w l2 chunk files' w' :
  world_ok dataDir files0 (mkWorld files (l1 ++ w :: l2)) → writer_step files chunk w = (files', w') →
  world_ok dataDir files0 (mkWorld files' (l1 ++ w' :: l2)).
Proof.
  intros [Hw Ht Hp Hk Hn] Hs. cbn [wd_files wd_writers] in *.
  pose proof Hw as Hw0. apply Forall_app in Hw as [Hw1 Hw2]. apply Forall_cons in Hw2 as [Hw Hw2].
  apply Forall_app in Hp as [Hp1 Hp2]. apply Forall_cons in Hp2 as [Hp Hp2].
  destruct (writer_step_ok dataDir files chunk w files' w' Hw Hp Hs) as (Hf & Hp' & p & ->).
  rewrite map_app in Ht. pose proof Ht as Ht0. apply NoDup_app in Ht as (_ & Hd1 & Hd2). cbn [map] in Hd1, Hd2.
  apply NoDup_cons in Hd2 as [Hd2 _]. split; cbn [wd_files wd_writers].
  - apply Forall_app. split; [done|]. by constructor.
  - by rewrite map_set_phase_tmp, map_app.
  - apply Forall_app. split; [|constructor; [done|]]; apply Forall_forall; intros v Hv.
    + rewrite Forall_forall in Hw1, Hp1. apply (phase_ok_stable dataDir w v files files' Hw (Hw1 v Hv)); [|done|by apply Hp1].
      intros Heq. apply (Hd1 (w_tmp w)); [|by left]. rewrite <- Heq. by apply list_elem_of_fmap_2.
    + rewrite Forall_forall in Hw2, Hp2. apply (phase_ok_stable dataDir w v files files' Hw (Hw2 v Hv)); [|done|by apply Hp2].
      intros Heq. apply Hd2. rewrite <- Heq. by apply list_elem_of_fmap_2.
  - intros h b Hh Hb. specialize (Hk h b Hh Hb).
    destruct (files_step_object dataDir w files files' h Hw Hh Hf) as [->|(Hnone & _)]; [done|congruence].
  - intros h b Hh Hb. destruct (files_step_object dataDir w files files' h Hw Hh Hf) as [Heq|(_ & Heq & Hwh)].
    + rewrite Heq in Hb. destruct (Hn h b Hh Hb) as [?|(v & Hv & ? & ?)]; [by left|right].
      apply elem_of_app in Hv as [Hv|Hv]; [exists v; set_solver|]. apply elem_of_cons in Hv as [->|Hv]; [|exists v; set_solver].
      exists (set_phase p w). set_solver.
    + right. exists (set_phase p w). split; [set_solver|]. split; [done|]. cbn [set_phase w_bytes]. congruence.
Qed.

Lemma world_step_ok dataDir files0 w w' :
  world_ok dataDir files0 w → world_step dataDir w w' → world_ok dataDir files0 w'.
Proof.
  intros Hok Hs. destruct Hs as [files writers hash uuid content addressed Hh Hg Hfresh|files l1 v l2 chunk files' v' Hs|files l1 v l2].
  - destruct Hok as [Hw Ht Hp Hk Hn]. cbn [wd_files wd_writers] in *. split; cbn [wd_files wd_writers].
    + apply Forall_app. split; [done|]. constructor; [by exists uuid|constructor].
    + rewrite map_app. apply NoDup_app. split_and!; [done| |apply NoDup_singleton].
      intros t (v & -> & Hv)%list_elem_of_fmap Ht'. apply list_elem_of_singleton in Ht'. rewrite Forall_forall in Hfresh. by apply (Hfresh v).
    + apply Forall_app. split; [done|]. by constructor.
    + done.
    + intros h b ? ?. destruct (Hn h b) as [?|(v & ? & ? & ?)]; [done|done|by left|right]. exists v. set_solver.
  - by eapply world_step_call_ok.
  - destruct Hok as [Hw Ht Hp Hk Hn]. cbn [wd_files wd_writers] in *. split; cbn [wd_files wd_writers].
    + apply Forall_app in Hw as [? Hw]. apply Forall_cons in Hw as [? ?]. apply Forall_app. split; [done|]. by constructor.
    + by rewrite map_set_phase_tmp.
    + apply Forall_app in Hp as [? Hp]. apply Forall_cons in Hp as [? ?]. apply Forall_app. split; [done|]. by constructor.
    + done.
    + intros h b ? ?. destruct (Hn h b) as [?|(u & Hu & ? & ?)]; [done|done|by left|right].
      apply elem_of_app in Hu as [Hu|Hu]; [exists u; set_solver|]. apply elem_of_cons in Hu as [->|Hu]; [|exists u; set_solver].
      exists (set_phase PDead v). set_solver.
Qed.

Lemma world_steps_ok dataDir files0 w w' :
  rtc (world_step dataDir) w w' → world_ok dataDir files0 w → world_ok dataDir files0 w'.
Proof. induction 1 as [|w1 w2 w3 Hs _ IH]; [done|]. intros Hok. apply IH. by eapply world_step_ok. Qed.

Lemma world_start_ok dataDir files0 : world_ok dataDir files0 (mkWorld files0 []).
Proof. split; cbn; [constructor|constructor|constructor|done|by left]. Qed.

(** Any reachable world may be taken as the start of what follows. *)
Lemma world_ok_rebase dataDir files0 w : world_ok dataDir files0 w → world_ok dataDir (wd_files w) w.
Proof. intros [Hw Ht Hp _ _]. split; [done|done|done|done|by left]. Qed.

Definition reachable (dataDir : jstr) (files0 : fs) : World → Prop := rtc (world_step dataDir) (mkWorld files0 []).

Lemma reachable_ok dataDir files0 w : reachable dataDir files0 w → world_ok dataDir files0 w.
Proof. intros H. eapply world_steps_ok; [exact H|apply world_start_ok]. Qed.

(** ** A writer alone *)

Definition phase_measure (w : Writer) : nat :=
  match w_phase w with
  | PCheck => 6 + length (w_bytes w)
  | PTmp => 5 + length (w_bytes w)
  | PWrite n => 4 + (length (w_bytes w) - n)
  | PLink => 3
  | PVerify => 2
  | PClean _ => 1
  | PDone _ | PDead => 0
  end.

(** The files after a completed write, and its outcome. *)
Definition write_spec (files : fs) (path : jstr) (content : bytes) : fs :=
  match get path files with Some _ => files | None => set_key path content files end.

Lemma run_writer_spec dataDir files hash uuid content addressed :
  test HASH_RE hash = true → get (tmp_path dataDir hash uuid) files = None →
  let path := object_path dataDir hash in
  let '(files', w) := run_writer 6 files (start_writer dataDir hash uuid content addressed) in
  w_path w = path ∧ (∀ p, get p files' = get p (write_spec files path content))
  ∧ w_phase w = PDone (match get path files with
                       | Some b => if jeqb b content then wrote w true else Corrupt
                       | None => wrote w false
                       end).
Proof.
  intros Hh Ht. pose proof (tmp_not_object dataDir hash hash uuid Hh Hh) as Hne. unfold start_writer, write_spec.
  set (path := object_path dataDir hash) in *. set (tmp := tmp_path dataDir hash uuid) in *. cbn zeta.
  cbn [run_writer]. unfold writer_step at 1. cbn [w_phase w_path w_bytes]. destruct (get path files) as [b|] eqn:Eg.
  - cbn. by destruct (jeqb b content).
  - unfold writer_step at 1. cbn [set_phase w_phase w_tmp w_bytes w_hash w_path w_addressed]. unfold has. rewrite Ht.
    unfold writer_step at 1. cbn [set_phase w_phase w_tmp w_bytes w_hash w_path w_addressed].
    rewrite (Nat.min_r (0 + S (length content)) (length content)) by lia. rewrite Nat.eqb_refl, firstn_all, set_set.
    unfold writer_step at 1. cbn [set_phase w_phase w_tmp w_bytes w_hash w_path w_addressed].
    rewrite get_set_ne, Eg, get_set_eq by done.
    unfold writer_step at 1. cbn [set_phase w_phase w_tmp w_bytes w_hash w_path w_addressed].
    unfold writer_step at 1. cbn [set_phase w_phase w_tmp w_bytes w_hash w_path w_addressed].
    split; [done|]. split; [|done]. intros p. destruct (decide (p = tmp)) as [->|Hp].
    + rewrite get_delete_eq. by rewrite get_set_ne.
    + rewrite get_delete_ne by done. destruct (decide (p = path)) as [->|Hp']; [by rewrite !get_set_eq|].
      by rewrite !get_set_ne.
Qed.

Lemma writeObjectAs_ok files dataDir hash content uuid :
  test HASH_RE hash = true → get (tmp_path dataDir hash uuid) files = None →
  let path := object_path dataDir hash in
  let '(files', r) := writeObjectAs files dataDir hash content uuid in
  (∀ p, get p files' = get p (write_spec files path content))
  ∧ r = match get path files with
        | Some b => if jeqb b content then Ok (mkWrote hash (zlen content) true)
                    else Throw (corruption path (js "canonical bytes differ"))
        | None => Ok (mkWrote hash (zlen content) false)
        end.
Proof.
  intros Hh Ht. cbv zeta. unfold writeObjectAs, assertValidHash. rewrite Hh.
  pose proof (run_writer_spec dataDir files hash uuid content false Hh Ht) as Hrun. cbv zeta in Hrun.
  destruct (run_writer 6 files (start_writer dataDir hash uuid content false)) as [files' w] eqn:Er.
  assert (w_hash w = hash ∧ w_bytes w = content) as [Hwh Hwb].
  { assert (∀ n fl v, w_hash (run_writer n fl v).2 = w_hash v ∧ w_bytes (run_writer n fl v).2 = w_bytes v) as Hinv.
    { induction n as [|n IH]; intros fl v; [done|]. cbn [run_writer].
      destruct (writer_step fl (length (w_bytes v)) v) as [fl' v'] eqn:Es. destruct (IH fl' v') as [-> ->].
      unfold writer_step in Es. destruct (w_phase v); repeat case_match; by simplify_eq. }
    specialize (Hinv 6%nat files (start_writer dataDir hash uuid content false)). by rewrite Er in Hinv. }
  destruct Hrun as (Hp & Hf & Hph). split; [done|]. unfold outcome_of. rewrite Hph, Hp. unfold wrote. rewrite Hwh, Hwb.
  destruct (get (object_path dataDir hash) files) as [b|]; [|done]. by destruct (jeqb b content).
Qed.

(** ** Properties *)

(** C36: publication is atomic and permanent under any interleaving.  Start any
    number of writers on any store, interleave their file-system calls in any
    order, let writes be partial and let writers crash anywhere.  Every object
    then found was there at the start or is the complete content some writer
    of that very hash was given (never a torn write, never another object's
    content); and an object once found stays, with the same bytes, whatever
    happens later. *)
Theorem cas_publication dataDir files0 w w' h b :
  reachable dataDir files0 w → rtc (world_step dataDir) w w' →
  test HASH_RE h = true → get (object_path dataDir h) (wd_files w) = Some b →
  (get (object_path dataDir h) files0 = Some b ∨ ∃ v, v ∈ wd_writers w ∧ w_hash v = h ∧ w_bytes v = b)
  ∧ get (object_path dataDir h) (wd_files w') = Some b.
Proof.
  intros Hr Hs Hh Hb. apply reachable_ok in Hr. split; [by apply (wo_new _ _ _ Hr)|].
  apply (wo_kept dataDir (wd_files w)); [|done|done]. eapply world_steps_ok; [exact Hs|]. by eapply world_ok_rebase.
Qed.

(** What a finished writer may conclude.  In any interleaving, a writer
    that returns has its own bytes published under its hash and reports its
    hash and size; one that reports corruption faces different bytes there; no
    other error comes from the races between writers; and its temporary file
    is gone. *)
Theorem cas_outcomes dataDir files0 w v o :
  reachable dataDir files0 w → v ∈ wd_writers w → w_phase v = PDone o →
  get (w_tmp v) (wd_files w) = None
  ∧ match o with
    | Wrote r => wr_hash r = w_hash v ∧ wr_size r = zlen (w_bytes v)
                 ∧ get (object_path dataDir (w_hash v)) (wd_files w) = Some (w_bytes v)
    | Corrupt => ∃ b, get (object_path dataDir (w_hash v)) (wd_files w) = Some b ∧ b ≠ w_bytes v
    | IoError => False
    end.
Proof.
  intros Hr Hv Hp. apply reachable_ok in Hr as [Hw _ Hph _ _]. rewrite Forall_forall in Hw, Hph.
  destruct (Hw v Hv) as (uuid & _ & <- & _). specialize (Hph v Hv). unfold phase_ok in Hph. rewrite Hp in Hph.
  destruct Hph as [? Ho]. split; [done|]. by destruct o.
Qed.

(** Readers never see a changing object.  When the [stat] of
    [readObjectAs] sees one state of any interleaving and its [readFile] a later
    one, the read does not throw: it returns what the [stat] saw, or nothing if
    the object was absent then. *)
Theorem cas_read_race dataDir files0 w w' h :
  reachable dataDir files0 w → rtc (world_step dataDir) w w' → test HASH_RE h = true →
  readObjectAs (wd_files w) (wd_files w') dataDir h = Ok (get (object_path dataDir h) (wd_files w)).
Proof.
  intros Hr Hs Hh. apply reachable_ok in Hr. unfold readObjectAs, objectPath, assertValidHash. rewrite Hh. cbn [rbind].
  unfold read_sized. destruct (get (object_path dataDir h) (wd_files w)) as [b|] eqn:Hb; [|done].
  assert (get (object_path dataDir h) (wd_files w') = Some b) as ->.
  { apply (wo_kept dataDir (wd_files w)); [|done|done]. eapply world_steps_ok; [exact Hs|]. by eapply world_ok_rebase. }
  by rewrite Z.eqb_refl.
Qed.

(** A write finishes.  Every file-system call of a writer that has not
    returned strictly decreases a measure that starts at its byte count plus
    six, however short the writes the kernel grants. *)
Theorem cas_writer_terminates files chunk w :
  match w_phase w with PDone _ | PDead => True | PWrite n => (n <= length (w_bytes w))%nat | _ => True end →
  (∀ o, w_phase w ≠ PDone o) → w_phase w ≠ PDead →
  (phase_measure (writer_step files chunk w).2 < phase_measure w)%nat.
Proof.
  intros Hn Hd Hx. unfold writer_step, phase_measure at 2. destruct (w_phase w) as [| |n| | |o|o|] eqn:E; try done.
  - destruct (get (w_path w) files); cbn; lia.
  - destruct (has (w_tmp w) files); unfold phase_measure; cbn [snd set_phase w_phase w_bytes]; lia.
  - cbn [snd]. destruct (Nat.eqb_spec (Nat.min (n + S chunk) (length (w_bytes w))) (length (w_bytes w)));
      unfold phase_measure; cbn [set_phase w_phase w_bytes]; lia.
  - destruct (get (w_path w) files), (get (w_tmp w) files); cbn; lia.
  - destruct (get (w_path w) files); cbn; lia.
  - cbn. lia.
  - by destruct (Hd o).
Qed.

(** ** Witnesses *)

Definition demo_dir : jstr := js "/data".
Definition demo_h : jstr := repeat 97 64.
Definition demo_writer : Writer := start_writer demo_dir demo_h (js "u1") [1; 2; 3] false.
Definition demo_world : World := mkWorld [] [demo_writer].
Definition demo_end : World :=
  let '(files, w) := run_writer 6 [] (start_writer demo_dir demo_h (js "u1") [1; 2; 3] false) in mkWorld files [w].

Lemma demo_reachable : reachable demo_dir [] demo_end.
Proof.
  apply rtc_l with demo_world.
  { apply (ws_start demo_dir [] [] demo_h (js "u1") [1; 2; 3] false); [vm_compute; reflexivity|reflexivity|constructor]. }
  unfold demo_world, demo_end.
  assert (∀ n files w, rtc (world_step demo_dir) (mkWorld files [w])
            (let '(files', w') := run_writer n files w in mkWorld files' [w'])) as H; [|apply H].
  induction n as [|n IH]; intros files w; cbn [run_writer]; [apply rtc_refl|].
  destruct (writer_step files (length (w_bytes w)) w) as [files' w'] eqn:E.
  eapply rtc_l; [|apply IH]. by apply (ws_call demo_dir files [] w [] (length (w_bytes w)) files' w').
Qed.

Lemma cas_publication_witness : get (object_path demo_dir demo_h) (wd_files demo_end) = Some [1; 2; 3].
Proof. apply (cas_publication demo_dir [] demo_end demo_end); [exact demo_reachable|apply rtc_refl|vm_compute; reflexivity|vm_compute; reflexivity]. Defined.

Lemma cas_outcomes_witness :
  get (object_path demo_dir demo_h) (wd_files demo_end) = Some [1; 2; 3].
Proof.
  set (v := (run_writer 6 [] (start_writer demo_dir demo_h (js "u1") [1; 2; 3] false)).2).
  destruct (cas_outcomes demo_dir [] demo_end v (Wrote (mkWrote demo_h 3 false))) as (_ & _ & _ & H);
    [exact demo_reachable|by left|vm_compute; reflexivity|exact H].
Defined.

Lemma cas_read_race_witness :
  readObjectAs (wd_files demo_end) (wd_files demo_end) demo_dir demo_h = Ok (Some [1; 2; 3]).
Proof. apply (cas_read_race demo_dir [] demo_end demo_end demo_h); [exact demo_reachable|apply rtc_refl|vm_compute; reflexivity]. Defined.

Lemma cas_writer_terminates_witness :
  (phase_measure (writer_step [] 0 demo_writer).2
   < phase_measure demo_writer)%nat.
Proof. apply cas_writer_terminates; [exact I|discriminate|discriminate]. Defined.
