(* ===== verification/Objects.v ===== *)
(** * Message objects ([packages/headroomd/src/store/objects.ts])

    One message is one object under its content digest: the gzip of its JSON
    projection.  Gzip ([node:zlib], [Bun.gzipSync]) and SHA-256 are parameters;
    the schema check of [chatMessageSchema] is [message_of_json]. *)

From stdpp Require Import base tactics list numbers option sets strings.
From S2P Require Import Prelude JsString JsRegex Json Codec CLine OMap Chat Operations Cas.

(** ** The message as JSON and back *)

(** Property order of the schema, as [chatMessageSchema.parse] leaves it. *)
Definition json_of_message (m : ChatMessage) : json :=
  JObj ([(js "info", JObj [(js "id", JStr (m_id m)); (js "role", JStr (role_text (m_role m)))]);
         (js "parts", JArr (map json_of_part (m_parts m)))]
        ++ opt_field (js "protected") JBool (m_protected m)
        ++ opt_field (js "archive") json_of_archive (m_archive m)).

Definition req {A} (k : jstr) (f : json → option A) (l : list (jstr * json)) : option A := assoc k l ≫= f.
Definition opt {A} (k : jstr) (f : json → option A) (l : list (jstr * json)) : option (option A) :=
  match assoc k l with None => Some None | Some v => Some <$> f v end.
Definition fields_of (v : json) : option (list (jstr * json)) := match v with JObj l => Some l | _ => None end.
Definition str_of (v : json) : option jstr := match v with JStr s => Some s | _ => None end.
Definition bool_of (v : json) : option bool := match v with JBool b => Some b | _ => None end.
Definition arr_of {A} (f : json → option A) (v : json) : option (list A) := match v with JArr l => mapM f l | _ => None end.
Definition hash_of (v : json) : option jstr := s ← str_of v; if headroomHash_ok s then Some s else None.

Definition role_of (v : json) : option Role :=
  s ← str_of v; if jeqb s (js "user") then Some RUser else if jeqb s (js "assistant") then Some RAssistant else None.
Definition kind_of (v : json) : option MemoryKind :=
  s ← str_of v; List.find (λ k, jeqb s (kind_text k)) [Kconstraints; Kdecisions; Kchanges; Kverification; Kfailures; Kopen].

Definition state_of_json (v : json) : option ToolState :=
  l ← fields_of v;
  status ← req (js "status") str_of l; error ← opt (js "error") str_of l; output ← opt (js "output") str_of l;
  Some (mkTS status error output).
Definition literal_type (t : jstr) (l : list (jstr * json)) : option unit :=
  s ← req (js "type") str_of l; if jeqb s t then Some tt else None.
Definition text_of_json (l : list (jstr * json)) : option Part :=
  _ ← literal_type (js "text") l; text ← req (js "text") str_of l; Some (PText text).
Definition tool_of_json (l : list (jstr * json)) : option Part :=
  _ ← literal_type (js "tool") l;
  tool ← req (js "tool") str_of l; callId ← opt (js "callId") str_of l; input ← opt (js "input") Some l;
  state ← req (js "state") state_of_json l; Some (PTool tool callId input state).
(** The union tries the text part first. *)
Definition part_of_json (v : json) : option Part :=
  l ← fields_of v; match text_of_json l with Some p => Some p | None => tool_of_json l end.
Definition entry_of_json (v : json) : option MemoryEntry :=
  l ← fields_of v;
  kind ← req (js "kind") kind_of l; text ← req (js "text") str_of l; ids ← req (js "sourceIds") (arr_of str_of) l;
  Some (mkMem kind text ids).
Definition archive_of_json (v : json) : option Archive :=
  l ← fields_of v;
  h ← req (js "historyHash") hash_of l; memory ← req (js "memory") (arr_of entry_of_json) l;
  nodeIds ← opt (js "nodeIds") (arr_of hash_of) l;
  protectedMemory ← opt (js "protectedMemory") (arr_of entry_of_json) l;
  Some (mkArchive h memory nodeIds protectedMemory).
Definition message_of_json (v : json) : option ChatMessage :=
  l ← fields_of v;
  info ← req (js "info") fields_of l;
  mid ← req (js "id") str_of info; role ← req (js "role") role_of info;
  parts ← req (js "parts") (arr_of part_of_json) l;
  protected ← opt (js "protected") bool_of l; archive ← opt (js "archive") archive_of_json l;
  Some (mkMsg mid role parts protected archive).

(** ** Writing, reading, rendering *)

Definition MAX_OUTPUT : Z := 64 * 1024 * 1024.

Section Objects.
Context (sha256Hex : jstr → jstr) (gzip : bytes → bytes) (gunzip : Z → bytes → option bytes).

Definition encode_message (m : ChatMessage) : bytes := gzip (utf8_encode (stringify (json_of_message m))).

(** The files after, and the hash with whether the object existed. *)
Definition writeMessageObject (files : fs) (dataDir : jstr) (m : ChatMessage) (hash uuid : jstr) : fs * result jstr (jstr * bool) :=
  if negb (chatMessage_ok m) then (files, Throw (js "ZodError"))
  else if negb (jeqb (contentDigest sha256Hex m) hash) then (files, Throw (js "Message content hash mismatch before write"))
  else let '(files', r) := writeObjectAs files dataDir hash (encode_message m) uuid in
       (files', let! w := r in Ok (wr_hash w, wr_existed w)).

(** Decode the bytes of an object. *)
Definition decode_message (content : bytes) : result jstr ChatMessage :=
  match gunzip MAX_OUTPUT content with
  | None => Throw (js "gunzip failed")
  | Some body =>
    match parse (utf8_decode body) with
    | None => Throw (js "SyntaxError")
    | Some v => match message_of_json v with Some m => Ok m | None => Throw (js "ZodError") end
    end
  end.

Definition readMessageObject (at_stat at_read : fs) (dataDir hash : jstr) : result jstr (option ChatMessage) :=
  let! found := readObjectAs at_stat at_read dataDir hash in
  match found with
  | None => Ok None
  | Some content =>
    let! projection := decode_message content in
    throw_if negb (jeqb (contentDigest sha256Hex projection) hash) && negb (jeqb (legacyContentHash sha256Hex projection) hash)
      with js "Message content hash mismatch" in
    Ok (Some projection)
  end.
End Objects.

Definition render_part (p : Part) : list jstr :=
  match p with
  | PText text => [text]
  | PTool tool _ input st =>
    [js "[tool:" ++ tool ++ js "] " ++ ts_status st]
    ++ match input with Some v => [stringify v] | None => [] end
    ++ match ts_output st with Some o => if 0 <? zlen o then [o] else [] | None => [] end
    ++ match ts_error st with Some e => if 0 <? zlen e then [e] else [] | None => [] end
  end.
Definition renderProjection (m : ChatMessage) : jstr :=
  join [LF] ((js "[" ++ role_text (m_role m) ++ js "]") :: flat_map render_part (m_parts m)).

Example render_ex :
  renderProjection (mkMsg (js "a1") RAssistant [PText (js "hi"); PTool (js "bash") None None (mkTS (js "completed") None (Some (js "ok")))] None None)
  = js "[assistant]" ++ [10] ++ js "hi" ++ [10] ++ js "[tool:bash] completed" ++ [10] ++ js "ok".
Proof. vm_compute. reflexivity. Qed.

(** ** The schema reads back what it writes *)

(** Evaluate comparisons of literal keys. *)
Ltac js_keys :=
  repeat match goal with
  | |- context [jeqb (js ?a) (js ?b)] =>
    let v := eval vm_compute in (jeqb (js a) (js b)) in change (jeqb (js a) (js b)) with v
  end; cbn match.
Ltac read_keys := unfold req, opt, opt_field; cbn [assoc app]; js_keys.

(** Values that [parse] reads back. *)
Ltac keys_ok := apply ok_obj; [reflexivity|].

Lemma lit_units s : forallb (λ c, (0 <=? c) && (c <? 65536)) s = true → units_ok s.
Proof.
  intros H. apply Forall_forall. intros c Hc. rewrite forallb_forall in H. rewrite list_elem_of_In in Hc. specialize (H c Hc). cbn beta in H. bool_prop. lia.
Qed.
Ltac lit_ok := apply lit_units; reflexivity.
Ltac members_ok := repeat first [apply Forall_nil_2 | apply Forall_cons_2; [split; [cbn [fst]; lit_ok|cbn [snd]]|]].

Lemma state_read s : state_of_json (json_of_state s) = Some s.
Proof. destruct s as [st [e|] [o|]]; reflexivity. Qed.

Lemma mapM_read {A} (f : json → option A) (g : A → json) l : Forall (λ x, f (g x) = Some x) l → mapM f (map g l) = Some l.
Proof. induction 1 as [|x l Hx _ IH]; [done|]. cbn [map mapM]. rewrite Hx. cbn. by rewrite IH. Qed.

Lemma strs_read l : arr_of str_of (JArr (map JStr l)) = Some l.
Proof. apply mapM_read. by apply Forall_true. Qed.

Lemma part_read p : part_of_json (json_of_part p) = Some p.
Proof.
  destruct p as [text|tool callId input st]; [reflexivity|]. unfold part_of_json, json_of_part. cbn [fields_of mbind option_bind].
  unfold text_of_json, tool_of_json, literal_type. destruct callId as [c|], input as [v|]; read_keys; cbn [mbind option_bind str_of];
    js_keys; cbn [mbind option_bind fmap option_fmap option_map]; rewrite state_read; reflexivity.
Qed.

Lemma kind_read k : kind_of (JStr (kind_text k)) = Some k.
Proof. destruct k; vm_compute; reflexivity. Qed.

Lemma entry_read e : entry_of_json (json_of_entry e) = Some e.
Proof.
  destruct e as [k t ids]. unfold entry_of_json, json_of_entry. cbn [fields_of mbind option_bind me_kind me_text me_sourceIds].
  read_keys. cbn [mbind option_bind]. rewrite kind_read, strs_read. reflexivity.
Qed.

Lemma entries_read l : arr_of entry_of_json (JArr (map json_of_entry l)) = Some l.
Proof. apply mapM_read. apply Forall_forall. intros e _. apply entry_read. Qed.

Lemma hash_read h : headroomHash_ok h = true → hash_of (JStr h) = Some h.
Proof. intros H. unfold hash_of. cbn [str_of mbind option_bind]. by rewrite H. Qed.

Lemma archive_read a : archive_ok a = true → archive_of_json (json_of_archive a) = Some a.
Proof.
  destruct a as [h mem ns pm]. unfold archive_ok. cbn [ar_historyHash ar_nodeIds]. intros [Hh Hn]%andb_true_iff.
  unfold archive_of_json, json_of_archive. cbn [fields_of mbind option_bind ar_historyHash ar_memory ar_nodeIds ar_protectedMemory].
  assert (∀ l, forallb headroomHash_ok l = true → arr_of hash_of (JArr (map JStr l)) = Some l) as Hns.
  { intros l Hl. apply mapM_read. apply Forall_forall. intros x Hx. apply hash_read. rewrite forallb_forall in Hl.
    apply Hl. by apply list_elem_of_In. }
  destruct ns as [ns|], pm as [pm|]; read_keys; cbn [mbind option_bind]; rewrite hash_read by done; cbn [mbind option_bind];
    rewrite entries_read; cbn [mbind option_bind fmap option_fmap option_map]; rewrite ?Hns, ?entries_read by done; reflexivity.
Qed.

Lemma role_read r : role_of (JStr (role_text r)) = Some r.
Proof. destruct r; vm_compute; reflexivity. Qed.

(** What the schema accepts of a message's own JSON is the message. *)
Lemma message_read m : chatMessage_ok m = true → message_of_json (json_of_message m) = Some m.
Proof.
  destruct m as [i r ps p a]. unfold chatMessage_ok. cbn [m_archive]. intros Ha.
  unfold message_of_json, json_of_message. cbn [fields_of mbind option_bind m_id m_role m_parts m_protected m_archive].
  assert (arr_of part_of_json (JArr (map json_of_part ps)) = Some ps) as Hps.
  { apply mapM_read. apply Forall_forall. intros x _. apply part_read. }
  destruct p as [p|], a as [a|]; read_keys; cbn [mbind option_bind fields_of]; read_keys; cbn [mbind option_bind str_of];
    rewrite role_read; cbn [mbind option_bind]; rewrite Hps; cbn [mbind option_bind fmap option_fmap option_map bool_of];
    rewrite ?archive_read by done; reflexivity.
Qed.

(** What the schema accepts satisfies it. *)
Lemma hash_of_ok v h : hash_of v = Some h → headroomHash_ok h = true.
Proof. unfold hash_of. intros (s & _ & Hh)%bind_Some. case_test_in Hh; [by injection Hh as <-|done]. Qed.

Lemma archive_schema_ok v a : archive_of_json v = Some a → archive_ok a = true.
Proof.
  unfold archive_of_json. intros (l & _ & Ha)%bind_Some. apply bind_Some in Ha as (h & Hh & Ha).
  apply bind_Some in Ha as (mem & _ & Ha). apply bind_Some in Ha as (ns & Hn & Ha). apply bind_Some in Ha as (pm & _ & [= <-]).
  unfold archive_ok. cbn [ar_historyHash ar_nodeIds]. apply andb_true_iff. split.
  { unfold req in Hh. apply bind_Some in Hh as (vh & _ & Hh). by eapply hash_of_ok. }
  destruct ns as [ns|]; [|done]. unfold opt in Hn. destruct (assoc (js "nodeIds") l) as [vn|]; [|done].
  apply fmap_Some in Hn as (ns' & Hn & [= <-]). destruct vn as [| | | |vs|]; try done. cbn [arr_of] in Hn. apply mapM_Some_1 in Hn.
  cbn [default]. apply forallb_forall. intros h' Hin. rewrite <- list_elem_of_In in Hin. revert h' Hin. apply Forall_forall.
  eapply Forall2_Forall_r; [exact Hn|]. apply Forall_forall. intros x _ y. apply hash_of_ok.
Qed.

Lemma message_schema_ok v m : message_of_json v = Some m → chatMessage_ok m = true.
Proof.
  unfold message_of_json. intros Em. do 6 (apply bind_Some in Em as (? & ? & Em)). apply bind_Some in Em as (a & Ha & [= <-]).
  unfold chatMessage_ok. cbn [m_archive]. destruct a as [a|]; [|done]. unfold opt in Ha.
  destruct (assoc (js "archive") _) as [va|]; [|done]. apply fmap_Some in Ha as (a' & Ha & [= <-]). by eapply archive_schema_ok.
Qed.

(** ** [JSON.stringify] is well-formed Unicode *)

Definition text_ok (s : jstr) : Prop := wf_utf16 s = true ∧ units_ok s.

Lemma text_ok_app s t : text_ok s → text_ok t → text_ok (s ++ t).
Proof. intros [H1 H2] [H3 H4]. split; [by rewrite wf_utf16_app|by apply Forall_app]. Qed.

Lemma text_ok_ascii s : forallb (λ c, (0 <=? c) && (c <? 128)) s = true → text_ok s.
Proof.
  intros H. assert (ascii s) as Ha.
  { rewrite forallb_forall in H. apply Forall_forall. intros c Hc. rewrite list_elem_of_In in Hc. specialize (H c Hc). cbn beta in H. bool_prop. lia. }
  split; [by apply ascii_wf|]. eapply Forall_impl; [exact Ha|]. simpl. lia.
Qed.

Lemma text_ok_join l : Forall text_ok l → text_ok (join [44] l).
Proof.
  induction 1 as [|x l Hx Hl IH]; [by apply text_ok_ascii|]. destruct l as [|y l]; [done|].
  rewrite join_cons. apply text_ok_app; [done|]. apply text_ok_app; [by apply text_ok_ascii|done].
Qed.

Lemma text_ok_dec z : text_ok (dec z).
Proof.
  assert (∀ n, 0 <= n → text_ok (dec_nonneg n)) as Hn.
  { intros n H. pose proof (dec_nonneg_ascii n H) as Ha. split; [by apply ascii_wf|]. eapply Forall_impl; [exact Ha|]. simpl. lia. }
  unfold dec. case_test; bool_prop; [|apply Hn; lia].
  change (45 :: dec_nonneg (- z)) with ([45] ++ dec_nonneg (- z)). apply text_ok_app; [by apply text_ok_ascii|apply Hn; lia].
Qed.

Lemma text_ok_wrap a b s : a < 128 → 0 <= a → b < 128 → 0 <= b → text_ok s → text_ok (a :: s ++ [b]).
Proof.
  intros ? ? ? ? Hs. change (a :: s ++ [b]) with ([a] ++ (s ++ [b])).
  assert (∀ c, 0 <= c → c < 128 → text_ok [c]) as Hone.
  { intros c ? ?. apply text_ok_ascii. cbn [forallb]. rewrite andb_true_r, andb_true_iff, Z.leb_le, Z.ltb_lt. lia. }
  apply text_ok_app; [by apply Hone|]. apply text_ok_app; [done|by apply Hone].
Qed.

Lemma stringify_ok v : json_ok v → text_ok (stringify v).
Proof.
  induction v as [|b|n|s|l IH|l IH] using json_ind'; intros H; inversion H; subst; cbn [stringify].
  - by apply text_ok_ascii.
  - destruct b; by apply text_ok_ascii.
  - apply text_ok_dec.
  - by apply quote_wf.
  - apply text_ok_wrap; try lia. apply text_ok_join, Forall_map. eapply Forall_impl; [apply Forall_and; split; [exact IH|eassumption]|].
    intros v [? ?]. auto.
  - apply text_ok_wrap; try lia. apply text_ok_join, Forall_map. eapply Forall_impl; [apply Forall_and; split; [exact IH|eassumption]|].
    intros [k v] [Hv [? ?]]. cbn [fst snd] in *. apply text_ok_app; [by apply quote_wf|].
    change (58 :: stringify v) with ([58] ++ stringify v). apply text_ok_app; [by apply text_ok_ascii|auto].
Qed.

(** ** Round trip *)

(** What the development assumes of gzip: decompressing a compressed body gives
    it back when it is within the output limit. *)
Definition gzip_law (gzip : bytes → bytes) (gunzip : Z → bytes → option bytes) : Prop :=
  ∀ limit body, zlen body <= limit → gunzip limit (gzip body) = Some body.

Section RoundTrip.
Context (sha256Hex : jstr → jstr) (gzip : bytes → bytes) (gunzip : Z → bytes → option bytes).
Context (Hgzip : gzip_law gzip gunzip).

(** A message the store can hold: it satisfies the schema, its JSON is plain
    (UTF-16 units, safe integers, unique keys) and fits the output limit. *)
Definition storable (m : ChatMessage) : Prop :=
  chatMessage_ok m = true ∧ json_ok (json_of_message m)
  ∧ zlen (utf8_encode (stringify (json_of_message m))) <= MAX_OUTPUT.

Lemma decode_encoded m : storable m → decode_message gunzip (encode_message gzip m) = Ok m.
Proof.
  intros (Hok & Hj & Hl). unfold decode_message, encode_message. rewrite Hgzip by done.
  destruct (stringify_ok _ Hj). rewrite utf8_decode_encode by done. rewrite parse_stringify by done. by rewrite message_read.
Qed.

Lemma write_stored files dataDir m uuid :
  let hash := contentDigest sha256Hex m in
  let path := object_path dataDir hash in
  storable m → test HASH_RE hash = true → get (tmp_path dataDir hash uuid) files = None →
  get path files = None ∨ get path files = Some (encode_message gzip m) →
  let '(files', r) := writeMessageObject sha256Hex gzip files dataDir m hash uuid in
  is_ok r = true ∧ get path files' = Some (encode_message gzip m)
  ∧ ∀ p, p ≠ path → get p files' = get p files.
Proof.
  intros hash path (Hok & _) Hh Ht Hpath. unfold writeMessageObject. rewrite Hok, jeqb_refl. cbn [negb].
  pose proof (writeObjectAs_ok files dataDir hash (encode_message gzip m) uuid Hh Ht) as Hw. cbv zeta in Hw.
  destruct (writeObjectAs files dataDir hash (encode_message gzip m) uuid) as [files' r]. destruct Hw as [Hf ->].
  fold path. split_and!.
  - destruct Hpath as [-> | ->]; [done|]. by rewrite jeqb_refl.
  - rewrite Hf. unfold write_spec. fold path. destruct Hpath as [Hp|Hp]; rewrite Hp; [apply get_set_eq|done].
  - intros p Hp. rewrite Hf. unfold write_spec. fold path. destruct (get path files); [done|]. by rewrite get_set_ne.
Qed.

Lemma read_stored files dataDir m :
  let hash := contentDigest sha256Hex m in
  storable m → test HASH_RE hash = true → get (object_path dataDir hash) files = Some (encode_message gzip m) →
  readMessageObject sha256Hex gunzip files files dataDir hash = Ok (Some m).
Proof.
  intros hash Hs Hh Hg. unfold readMessageObject, readObjectAs, objectPath, assertValidHash. rewrite Hh. cbn [rbind].
  unfold read_sized. rewrite Hg, Z.eqb_refl. cbn [negb rbind]. rewrite decode_encoded by done. cbn [rbind].
  unfold hash. rewrite jeqb_refl. done.
Qed.
End RoundTrip.

Lemma join_parts (l : list jstr) x : x ∈ l → ∃ pre post, join [LF] l = pre ++ x ++ post.
Proof.
  induction l as [|y l IH]; [set_solver|]. intros [->|Hx]%elem_of_cons.
  - destruct l as [|z l]; [exists [], []; cbn; by rewrite app_nil_r|]. exists [], ([LF] ++ join [LF] (z :: l)). by rewrite join_cons.
  - destruct (IH Hx) as (pre & post & Hj). destruct l as [|z l]; [set_solver|]. exists (y ++ [LF] ++ pre), post.
    rewrite join_cons, Hj. by rewrite <- !app_assoc.
Qed.

(** ** Properties *)

(** A stored message reads back exactly.  If gzip decompresses what it
    compressed, then writing a message under its content digest into any store
    where that object is absent (or already this message) succeeds, changes no
    other file, and reading that digest afterwards returns the very message:
    every part, status, flag and archive field. *)
Theorem message_object_roundtrip sha256Hex gzip gunzip files dataDir m uuid :
  gzip_law gzip gunzip → storable m →
  let hash := contentDigest sha256Hex m in
  let path := object_path dataDir hash in
  test HASH_RE hash = true → get (tmp_path dataDir hash uuid) files = None →
  get path files = None ∨ get path files = Some (encode_message gzip m) →
  let '(files', r) := writeMessageObject sha256Hex gzip files dataDir m hash uuid in
  is_ok r = true ∧ (∀ p, p ≠ path → get p files' = get p files)
  ∧ readMessageObject sha256Hex gunzip files' files' dataDir hash = Ok (Some m).
Proof.
  intros Hg Hs hash path Hh Ht Hp. pose proof (write_stored sha256Hex gzip files dataDir m uuid Hs Hh Ht Hp) as Hw.
  fold hash in Hw. fold path in Hw. destruct (writeMessageObject _ _ _ _ _ _ _) as [files' r]. destruct Hw as (Hr & Hf & Ho).
  split_and!; [done|done|]. by apply (read_stored sha256Hex gzip).
Qed.

(** A read never returns the wrong message.  Whatever bytes are on disk and
    whatever decompression makes of them, a message returned for a hash
    satisfies the schema and has that hash as its content digest, or as its
    legacy digest; and a write under a hash that is not the message's digest is
    refused without touching the store. *)
Theorem message_object_authentic sha256Hex gzip gunzip at_stat at_read files dataDir m hash uuid :
  (readMessageObject sha256Hex gunzip at_stat at_read dataDir hash = Ok (Some m) →
     chatMessage_ok m = true ∧ (contentDigest sha256Hex m = hash ∨ legacyContentHash sha256Hex m = hash))
  ∧ (contentDigest sha256Hex m ≠ hash →
     let '(files', r) := writeMessageObject sha256Hex gzip files dataDir m hash uuid in files' = files ∧ is_ok r = false).
Proof.
  split.
  - unfold readMessageObject. intros (found & Hfound & H)%rbind_ok. destruct found as [content|]; [|done].
    apply rbind_ok in H as (projection & Hd & H). case_test_in H; [done|]. injection H as ->. split.
    + unfold decode_message in Hd. destruct (gunzip MAX_OUTPUT content); [|done]. destruct (parse _) as [v|]; [|done].
      destruct (message_of_json v) as [m'|] eqn:Em; [|done]. injection Hd as ->. by eapply message_schema_ok.
    + bool_prop. apply andb_false_iff in E. rewrite !negb_false_iff, !jeqb_eq in E. done.
  - intros Hne. unfold writeMessageObject. destruct (chatMessage_ok m); [|done]. cbn [negb].
    apply jeqb_neq in Hne. by rewrite Hne.
Qed.

(** The digest does not look at an absent or false [protected] flag, the stored
    bytes do: once a message is stored, the same message with the flag spelled
    out has the same digest, the same meaning, and cannot be stored: the write
    reports a corrupted store. *)
Theorem unprotected_flag_conflicts sha256Hex gzip gunzip files dataDir m uuid :
  gzip_law gzip gunzip → m_protected m = None →
  let m' := mkMsg (m_id m) (m_role m) (m_parts m) (Some false) (m_archive m) in
  let hash := contentDigest sha256Hex m in
  let path := object_path dataDir hash in
  storable m → storable m' → test HASH_RE hash = true → get (tmp_path dataDir hash uuid) files = None →
  get path files = Some (encode_message gzip m) →
  contentDigest sha256Hex m' = hash
  ∧ (writeMessageObject sha256Hex gzip files dataDir m' hash uuid).2 = Throw (corruption path (js "canonical bytes differ")).
Proof.
  intros Hgz Hp m' hash path Hs Hs' Hh Ht Hg.
  assert (contentDigest sha256Hex m' = hash) as Hd by (unfold hash, contentDigest, messageHashInput; by rewrite Hp).
  split; [done|]. unfold writeMessageObject. rewrite (proj1 Hs'), Hd, jeqb_refl. cbn [negb].
  pose proof (writeObjectAs_ok files dataDir hash (encode_message gzip m') uuid Hh Ht) as Hw. cbv zeta in Hw.
  destruct (writeObjectAs files dataDir hash (encode_message gzip m') uuid) as [files' r]. destruct Hw as [_ ->].
  fold path. rewrite Hg. destruct (jeqb (encode_message gzip m) (encode_message gzip m')) eqn:E; [|done]. apply jeqb_eq in E.
  pose proof (decode_encoded gzip gunzip Hgz m Hs) as H1. pose proof (decode_encoded gzip gunzip Hgz m' Hs') as H2.
  rewrite E, H2 in H1. injection H1 as H1. apply (f_equal m_protected) in H1. by rewrite Hp in H1.
Qed.

(** The rendering shows everything the model saw.  Every text part of a
    message, and every nonempty output and error of its tool parts, occurs
    verbatim in [renderProjection]. *)
Theorem render_shows m :
  (∀ text, PText text ∈ m_parts m → ∃ pre post, renderProjection m = pre ++ text ++ post)
  ∧ (∀ tool callId input st s, PTool tool callId input st ∈ m_parts m → s ≠ [] → ts_output st = Some s ∨ ts_error st = Some s →
     ∃ pre post, renderProjection m = pre ++ s ++ post).
Proof.
  assert (∀ p s, p ∈ m_parts m → s ∈ render_part p → ∃ pre post, renderProjection m = pre ++ s ++ post) as H.
  { intros p s Hp Hs. apply join_parts, elem_of_cons. right. apply list_elem_of_In, in_flat_map. exists p.
    by rewrite <- !list_elem_of_In. }
  split.
  - intros text Hp. apply (H _ _ Hp). by left.
  - intros tool callId input st s Hp Hs Ho. apply (H _ _ Hp). cbn [render_part].
    assert ((0 <? zlen s) = true) as Hz by (apply Z.ltb_lt; destruct s; [done|simpl; lia]).
    rewrite !elem_of_app. destruct Ho as [-> | ->]; rewrite Hz; [right; right; left|right; right; right]; by left.
Qed.

(** ** Witness *)

Definition demo_gunzip (limit : Z) (b : bytes) : option bytes := if zlen b <=? limit then Some b else None.
Lemma demo_gzip_law : gzip_law id demo_gunzip.
Proof. intros limit body H. unfold demo_gunzip, id. apply Z.leb_le in H. by rewrite H. Qed.
Lemma demo_storable : storable demo_message.
Proof. split; [vm_compute; reflexivity|]. split; [apply json_okb_ok; vm_compute; reflexivity|apply Z.leb_le; vm_compute; reflexivity]. Qed.

Lemma message_object_roundtrip_witness :
  let '(files', r) := writeMessageObject (λ _, demo_h) id [] demo_dir demo_message demo_h (js "u1") in
  is_ok r = true ∧ (∀ p, p ≠ object_path demo_dir demo_h → get p files' = get p [])
  ∧ readMessageObject (λ _, demo_h) demo_gunzip files' files' demo_dir demo_h = Ok (Some demo_message).
Proof.
  apply (message_object_roundtrip (λ _, demo_h) id demo_gunzip [] demo_dir demo_message (js "u1"));
    [exact demo_gzip_law|exact demo_storable|vm_compute; reflexivity|reflexivity|by left].
Defined.
