(* ===== verification/History.v ===== *)
(** * Paged reading of an archive tree ([packages/headroomd/src/history-reader.ts])

    An archived message may itself stand for an archived history.  The reader
    keeps a stack of half-read histories, the frontier, which is what a cursor
    persists; [read_leaves] is the abstract reader over the flattened sequence
    of leaves, which the frontier machine refines. *)

From stdpp Require Import base tactics list numbers option sets strings sorting.
From S2P Require Import Prelude JsString JsRegex Json Codec Paging Chat.

Definition LINEAGE_ERROR : jstr := js "Invalid archive lineage".

(** ** The reader interface *)

(** A row carries what its reader's closure remembers of it for [content]
    ([P] is [unit] when nothing is). *)
Record ReaderRow (P : Type) := mkRow {
  rw_hash : jstr; rw_role : Role; rw_turnIndex : Z; rw_nextOffset : option Z; rw_memo : P }.
Arguments mkRow {P}. Arguments rw_hash {P}. Arguments rw_role {P}. Arguments rw_turnIndex {P}.
Arguments rw_nextOffset {P}. Arguments rw_memo {P}.

Inductive Content : Type := CText (text : jstr) | CChild (child : jstr).

Record HistoryReader (P : Type) := mkReader {
  row : jstr → Z → result jstr (option (ReaderRow P));
  content : ReaderRow P → result jstr (option Content) }.
Arguments mkReader {P}. Arguments row {P}. Arguments content {P}.

(** The top of the stack comes first. *)
Record HistoryFrontier := mkFrontier { fr_stack : list (jstr * Z); fr_ordinal : Z; fr_intra : Z }.
Record HistoryItem := mkItem { it_hash : jstr; it_role : Role; it_turnIndex : Z; it_content : jstr }.
Record PageRequest := mkRequest { rq_maxBytes : option Z; rq_maxTokens : option Z; rq_limit : option Z }.
Record HistoryPage := mkPage {
  hp_items : list HistoryItem; hp_missingHashes : list jstr; hp_more : bool; hp_state : HistoryFrontier }.

Definition page_budget_of (o : PageRequest) : Z :=
  Z.min (Z.min (default 32768 (rq_maxBytes o)) 131072) (Z.min (default 2048 (rq_maxTokens o)) 8192).
Definition page_limit_of (o : PageRequest) : Z := Z.min (default 10 (rq_limit o)) 50.

(** What a page has gathered. *)
Record Gathered := mkGathered {
  ga_items : list HistoryItem; ga_missing : list jstr; ga_remaining : Z; ga_count : Z; ga_ordinal : Z; ga_intra : Z }.

Section Reader.
Context {P : Type} (reader : HistoryReader P) (limit : Z).

Definition next_offset (r : ReaderRow P) (offset : Z) : Z := default (offset + 1) (rw_nextOffset r).

(** The options of the page of one leaf. *)
Definition leaf_options (hash : jstr) (ga : Gathered) : PageOptions :=
  {| po_ref := hash; po_cursor := Some (encodeCursor hash (ga_intra ga));
     po_maxBytes := Some (ga_remaining ga); po_maxTokens := Some (ga_remaining ga) |}.

Definition skip_missing (r : ReaderRow P) (ga : Gathered) : Gathered :=
  mkGathered (ga_items ga) (ga_missing ga ++ [rw_hash r]) (ga_remaining ga) (ga_count ga + 1) (ga_ordinal ga + 1) 0.
Definition add_item (r : ReaderRow P) (page : TextPage) (ordinal intra : Z) (ga : Gathered) : Gathered :=
  mkGathered (ga_items ga ++ [mkItem (rw_hash r) (rw_role r) (rw_turnIndex r) (tp_content page)]) (ga_missing ga)
    (ga_remaining ga - tp_bytes page) (ga_count ga + 1) ordinal intra.

(** How the loop goes on from a leaf: past it, or the page ends before or in it. *)
Inductive LeafStep : Type := Past (ga : Gathered) | Ends (ga : Gathered) | Fails (e : jstr).

Definition leaf_step (r : ReaderRow P) (value : option jstr) (ga : Gathered) : LeafStep :=
  if (ga_remaining ga <=? 0) || (limit <=? ga_count ga) then Ends ga else
  match value with
  | None => Past (skip_missing r ga)
  | Some text =>
    match paginateText text (leaf_options (rw_hash r) ga) with
    | Throw e => match ga_items ga with [] => Fails (page_error_text e) | _ => Ends ga end
    | Ok page =>
      match tp_nextCursor page with
      | Some c => match decodeCursor (Some c) (rw_hash r) with
                  | Throw e => Fails (page_error_text e)
                  | Ok intra => Ends (add_item r page (ga_ordinal ga) intra ga)
                  end
      | None => Past (add_item r page (ga_ordinal ga + 1) 0 ga)
      end
    end
  end.

(** The [while] loop of [readHistoryPage]; [None] when the fuel runs out. *)
Fixpoint page_walk (fuel : nat) (stack : list (jstr * Z)) (ga : Gathered) : option (result jstr (list (jstr * Z) * Gathered)) :=
  match fuel with
  | O => None
  | S f =>
    match stack with
    | [] => Some (Ok ([], ga))
    | (hash, offset) :: below =>
      match row reader hash offset with
      | Throw e => Some (Throw e)
      | Ok None => page_walk f below ga
      | Ok (Some r) =>
        match content reader r with
        | Throw e => Some (Throw e)
        | Ok (Some (CChild child)) =>
          if (128 <=? zlen stack) || existsb (λ fr, jeqb fr.1 child) stack then Some (Throw LINEAGE_ERROR)
          else page_walk f ((child, 0) :: (hash, next_offset r offset) :: below) ga
        | Ok v =>
          match leaf_step r (match v with Some (CText t) => Some t | _ => None end) ga with
          | Past ga' => page_walk f ((hash, next_offset r offset) :: below) ga'
          | Ends ga' => Some (Ok (stack, ga'))
          | Fails e => Some (Throw e)
          end
        end
      end
    end
  end.
End Reader.

Definition readHistoryPage {P} (fuel : nat) (reader : HistoryReader P) (original : HistoryFrontier) (options : PageRequest) :
    option (result jstr HistoryPage) :=
  res ← page_walk reader (page_limit_of options) fuel (fr_stack original)
          (mkGathered [] [] (page_budget_of options) 0 (fr_ordinal original) (fr_intra original));
  Some (let! p := res in
        Ok (mkPage (ga_items p.2) (ga_missing p.2) (match p.1 with [] => false | _ => true end)
              (mkFrontier p.1 (ga_ordinal p.2) (ga_intra p.2)))).

(** ** The flattened sequence of leaves *)

(** The leaves an archive yields, in order, and the error that cuts the
    sequence short. *)
Abbreviation leaf P := (ReaderRow P * option jstr)%type.
Abbreviation stream P := (list (leaf P) * option jstr)%type.

Definition stream_app {A} (s t : list A * option jstr) : list A * option jstr :=
  match s.2 with Some e => s | None => (s.1 ++ t.1, t.2) end.
Definition stream_cons {A} (l : A) (s : list A * option jstr) : list A * option jstr := (l :: s.1, s.2).

(** What a reader promises: the rows left of a history from an offset. *)
Class RowReader {P} (reader : HistoryReader P) := {
  rows : jstr → Z → list (ReaderRow P);
  rows_head h o : row reader h o = Ok (head (rows h o));
  rows_next h o r rest : rows h o = r :: rest → rows h (next_offset r o) = rest }.

Section Leaves.
Context {P : Type} (reader : HistoryReader P) `{!RowReader reader}.

(** Leaves of the given rows; [enter c] are the leaves of the child [c]. *)
Fixpoint row_leaves (enter : jstr → stream P) (rs : list (ReaderRow P)) : stream P :=
  match rs with
  | [] => ([], None)
  | r :: rest =>
    match content reader r with
    | Throw e => ([], Some e)
    | Ok (Some (CChild c)) => stream_app (enter c) (row_leaves enter rest)
    | Ok (Some (CText t)) => stream_cons (r, Some t) (row_leaves enter rest)
    | Ok None => stream_cons (r, None) (row_leaves enter rest)
    end
  end.

(** [historyLeaves(hash, ancestors)]: [depth] is what the cap of 128 leaves. *)
Fixpoint child_leaves (depth : nat) (ancestors : list jstr) (hash : jstr) : stream P :=
  match depth with
  | O => ([], Some LINEAGE_ERROR)
  | S d =>
    if existsb (λ a, jeqb a hash) ancestors then ([], Some LINEAGE_ERROR)
    else row_leaves (child_leaves d (hash :: ancestors)) (rows hash 0)
  end.

(** The leaves still to come at a frontier. *)
Fixpoint frontier_leaves (stack : list (jstr * Z)) : stream P :=
  match stack with
  | [] => ([], None)
  | (hash, offset) :: below =>
    stream_app (row_leaves (child_leaves (128 - length stack) stack.*1) (rows hash offset)) (frontier_leaves below)
  end.

(** Loop iterations to the end of the frontier. *)
Fixpoint row_steps (enter : jstr → nat) (rs : list (ReaderRow P)) : nat :=
  match rs with
  | [] => 1
  | r :: rest => S (match content reader r with Ok (Some (CChild c)) => enter c | _ => O end + row_steps enter rest)
  end.
Fixpoint child_steps (depth : nat) (hash : jstr) : nat :=
  match depth with O => 1 | S d => row_steps (child_steps d) (rows hash 0) end.
Fixpoint frontier_steps (stack : list (jstr * Z)) : nat :=
  match stack with
  | [] => 1
  | (hash, offset) :: below => row_steps (child_steps (128 - length stack)) (rows hash offset) + frontier_steps below
  end.

(** The abstract reader: one page off the front of a sequence of leaves, and
    the sequence left. *)
Fixpoint read_leaves (limit : Z) (leaves : list (leaf P)) (fin : option jstr) (ga : Gathered) :
    result jstr (stream P * Gathered) :=
  match leaves with
  | [] => match fin with Some e => Throw e | None => Ok (([], None), ga) end
  | (r, v) :: rest =>
    match leaf_step limit r v ga with
    | Past ga' => read_leaves limit rest fin ga'
    | Ends ga' => Ok ((leaves, fin), ga')
    | Fails e => Throw e
    end
  end.
End Leaves.

Lemma stream_app_assoc {A} (s t u : list A * option jstr) : stream_app (stream_app s t) u = stream_app s (stream_app t u).
Proof. unfold stream_app. destruct s as [l [e|]]; cbn; [done|]. destruct t as [l' [e|]]; cbn; [done|]. by rewrite app_assoc. Qed.
Lemma stream_app_nil {A} (s : list A * option jstr) : stream_app ([], None) s = s.
Proof. by destruct s. Qed.
Lemma stream_app_cons {A} (l : A) (s t : list A * option jstr) : stream_app (stream_cons l s) t = stream_cons l (stream_app s t).
Proof. unfold stream_app, stream_cons. by destruct s as [ls [e|]]. Qed.

Section Refinement.
Context {P : Type} (reader : HistoryReader P) `{!RowReader reader} (limit : Z).
Abbreviation walk := (page_walk reader limit).
Abbreviation leaves := (frontier_leaves reader).
Abbreviation steps := (frontier_steps reader).

Lemma seen_fst (stack : list (jstr * Z)) c : existsb (λ fr, jeqb fr.1 c) stack = existsb (λ a, jeqb a c) stack.*1.
Proof. induction stack as [|fr r IH]; cbn; [done|by rewrite IH]. Qed.

(** What a stack that the walk stopped at still holds. *)
Definition walk_result (r : result jstr (stream P * Gathered)) (res : result jstr (list (jstr * Z) * Gathered)) : Prop :=
  match r with
  | Throw e => res = Throw e
  | Ok (s, ga) => ∃ stack, res = Ok (stack, ga) ∧ leaves stack = s ∧ (length stack <= 128)%nat ∧ (stack = [] ↔ s.1 = [])
  end.

(** Pushing a child unfolds its leaves in place. *)
Lemma leaves_push h o r rest below c :
  rows h o = r :: rest → content reader r = Ok (Some (CChild c)) → (length below < 128)%nat →
  leaves ((h, o) :: below) =
  if (128 <=? zlen ((h, o) :: below)) || existsb (λ fr, jeqb fr.1 c) ((h, o) :: below) then ([], Some LINEAGE_ERROR)
  else leaves ((c, 0) :: (h, next_offset r o) :: below).
Proof.
  intros Hr Hc Hl. cbn [frontier_leaves length]. rewrite Hr, (rows_next _ _ _ _ Hr). cbn [row_leaves]. rewrite Hc, seen_fst.
  destruct (128 <=? Z.of_nat (S (length below))) eqn:E; cbn [orb]; bool_prop.
  - replace (128 - S (length below))%nat with O by lia. done.
  - replace (128 - S (length below))%nat with (S (128 - S (S (length below)))) at 1 by lia.
    cbn [child_leaves]. case_test; [done|]. by rewrite stream_app_assoc.
Qed.

Lemma steps_push h o r rest below c :
  rows h o = r :: rest → content reader r = Ok (Some (CChild c)) → (128 <=? zlen ((h, o) :: below)) = false →
  steps ((h, o) :: below) = S (steps ((c, 0) :: (h, next_offset r o) :: below)).
Proof.
  intros Hr Hc E. bool_prop. cbn [frontier_steps length] in *. rewrite Hr, (rows_next _ _ _ _ Hr). cbn [row_steps]. rewrite Hc.
  replace (128 - S (length below))%nat with (S (128 - S (S (length below)))) at 1 by lia. cbn [child_steps]. lia.
Qed.

Lemma walk_refines fuel stack ga :
  (steps stack <= fuel)%nat → (length stack <= 128)%nat →
  ∃ res, walk fuel stack ga = Some res ∧ walk_result (read_leaves limit (leaves stack).1 (leaves stack).2 ga) res.
Proof.
  revert stack ga. induction fuel as [|f IH]; intros stack ga Hf Hl.
  { exfalso. destruct stack as [|[h o] below]; cbn in Hf; [lia|]. destruct (rows h o); cbn in Hf; lia. }
  destruct stack as [|[h o] below]; [by eexists; split; [done|]; exists []|].
  cbn [page_walk]. rewrite rows_head. cbn [length] in Hl. destruct (rows h o) as [|r rest] eqn:Er; cbn [head].
  { destruct (IH below ga) as (res & Hw & Hres); [cbn [frontier_steps] in Hf; rewrite Er in Hf; cbn in Hf; lia|lia|].
    exists res. split; [done|]. cbn [frontier_leaves]. rewrite Er. cbn [row_leaves]. by rewrite stream_app_nil. }
  destruct (content reader r) as [v|e] eqn:Ec.
  2:{ eexists. split; [done|]. cbn [frontier_leaves]. rewrite Er. cbn [row_leaves]. by rewrite Ec. }
  assert (∀ t, (∀ s, row_leaves reader s (r :: rest) = stream_cons (r, t) (row_leaves reader s rest)) →
    (∀ s, row_steps reader s (r :: rest) = S (row_steps reader s rest)) →
    leaves ((h, o) :: below) = stream_cons (r, t) (leaves ((h, next_offset r o) :: below))
    ∧ steps ((h, o) :: below) = S (steps ((h, next_offset r o) :: below))) as Hleaf.
  { intros t H1 H2. cbn [frontier_leaves frontier_steps length]. rewrite Er, (rows_next _ _ _ _ Er), fmap_cons, H1, H2.
    split; [apply stream_app_cons|lia]. }
  assert (∀ t, leaves ((h, o) :: below) = stream_cons (r, t) (leaves ((h, next_offset r o) :: below))
    ∧ steps ((h, o) :: below) = S (steps ((h, next_offset r o) :: below)) →
    ∃ res, match leaf_step limit r t ga with
           | Past ga' => walk f ((h, next_offset r o) :: below) ga'
           | Ends ga' => Some (Ok ((h, o) :: below, ga'))
           | Fails e => Some (Throw e) end = Some res
      ∧ walk_result (read_leaves limit (leaves ((h, o) :: below)).1 (leaves ((h, o) :: below)).2 ga) res) as Hstep.
  { intros t [Hs Hn]. rewrite Hn in Hf. pose proof Hs as Hs'. rewrite Hs. cbn [stream_cons fst snd read_leaves].
    destruct (leaf_step limit r t ga) as [ga'|ga'|e]; [apply IH; [lia|cbn [length]; lia]| |by eexists].
    eexists. split; [done|]. exists ((h, o) :: below). rewrite Hs'. cbn. split_and!; [done|done|lia|done]. }
  destruct v as [[t|c]|].
  - apply (Hstep (Some t)), Hleaf; intros s; cbn; by rewrite Ec.
  - rewrite (leaves_push h o r rest below c) by (done || lia). destruct (_ || _) eqn:Eo; [by eexists|].
    pose proof Eo as [E1 _]%orb_false_iff. rewrite (steps_push h o r rest below c) in Hf by done.
    apply IH; [lia|]. bool_prop. cbn [length] in *. lia.
  - apply (Hstep None), Hleaf; intros s; cbn; by rewrite Ec.
Qed.
End Refinement.

(** ** Cursors of hashes are short *)

Lemma list_ind2 {A} (P : list A → Prop) : P [] → (∀ a, P [a]) → (∀ a b l, P l → P (b :: l) → P (a :: b :: l)) → ∀ l, P l.
Proof.
  intros H0 H1 H2 l. enough (P l ∧ ∀ a, P (a :: l)) by tauto.
  induction l as [|b l [IH1 IH2]]; [by split|]. split; [apply IH2|]. intros a. apply H2; [done|apply IH2].
Qed.

Lemma enc_cp_length cp : (length (enc_cp cp) <= 4)%nat.
Proof. unfold enc_cp. repeat case_test; cbn; lia. Qed.

Lemma utf8_encode_length s : (length (utf8_encode s) <= 4 * length s)%nat.
Proof.
  induction s as [|c|c d s H1 H2] using list_ind2; [cbn; lia| |].
  - cbn. pose proof (enc_cp_length (unit_cp c)). lia.
  - change (utf8_encode (c :: d :: s)) with
      (if is_high c && is_low d then enc_cp (pair_cp c d) ++ utf8_encode s else enc_cp (unit_cp c) ++ utf8_encode (d :: s)).
    case_test; rewrite length_app; cbn [length] in *; [pose proof (enc_cp_length (pair_cp c d))|pose proof (enc_cp_length (unit_cp c))]; lia.
Qed.

Lemma quote_unit_length c : (length (quote_unit c) <= 6)%nat.
Proof. unfold quote_unit. repeat case_test; cbn; lia. Qed.

Lemma quote_length s : (length (quote s) <= 6 * length s + 2)%nat.
Proof.
  unfold quote. cbn [length]. rewrite length_app. cbn [length]. enough (length (quote_body s) <= 6 * length s)%nat by lia.
  induction s as [|c|c d s H1 H2] using list_ind2; [cbn; lia| |].
  - pose proof (quote_unit_length c). cbn [quote_body length] in *. lia.
  - change (quote_body (c :: d :: s)) with
      (if is_high c && is_low d then c :: d :: quote_body s else quote_unit c ++ quote_body (d :: s)).
    pose proof (quote_unit_length c). case_test; rewrite ?length_app; cbn [length] in *; lia.
Qed.

Lemma b64_encode_length bs : (3 * length (b64_encode bs) <= 4 * length bs + 8)%nat.
Proof. induction bs as [|a|a b|a b c l IH] using list_ind3; cbn [b64_encode length] in *; lia. Qed.

Lemma digits_fuel_length fuel n acc : (length (digits_fuel fuel n acc) <= fuel + length acc)%nat.
Proof.
  revert n acc. induction fuel as [|f IH]; intros n acc; cbn [digits_fuel]; [lia|]. case_test; [cbn [length]; lia|].
  specialize (IH (n `div` 10) ((48 + n `mod` 10) :: acc)). cbn [length] in IH. lia.
Qed.

Lemma cursor_length ref off : (length ref <= 64)%nat → offset_ok off → zlen (encodeCursor ref off) <= 4096.
Proof.
  intros Hr Ho. unfold encodeCursor, to_base64url. set (s := stringify _).
  assert (length s <= 500)%nat as Hs.
  { assert (length (dec off) <= 54)%nat as Hd.
    { unfold dec. destruct (off <? 0) eqn:E; [bool_prop; unfold offset_ok in Ho; lia|]. unfold dec_nonneg.
      pose proof (digits_fuel_length (S (Z.to_nat (Z.log2 off))) off []) as H. cbn [length] in H.
      assert (Z.log2 off <= 52) as Hlog.
      { change 52 with (Z.log2 MAX_SAFE_INTEGER). apply Z.log2_le_mono. apply Ho. }
      lia. }
    pose proof (quote_length ref) as Hq. subst s. unfold cursor_json. cbn [stringify map join fst snd jnum_to_string].
    repeat (rewrite length_app || cbn [length]).
    assert (length (quote (js "v")) = 3%nat ∧ length (quote (js "ref")) = 5%nat ∧ length (quote (js "offset")) = 8%nat ∧ length (dec 1) = 1%nat) as (-> & -> & -> & ->)
      by done. lia. }
  pose proof (utf8_encode_length s) as Hu. pose proof (b64_encode_length (utf8_encode s)) as Hb. lia.
Qed.

(** ** Following the cursors *)

Section Follow.
Context {P : Type}.

(** What may be archived: hashes are hashes, texts well-formed. *)
Definition leaf_ok (l : leaf P) : Prop :=
  units_ok (rw_hash l.1) ∧ (length (rw_hash l.1) <= 64)%nat
  ∧ match l.2 with Some t => wf_utf16 t = true ∧ zlen t <= MAX_SAFE_INTEGER | None => True end.

(** [intra] is a position in the first leaf. *)
Definition within (leaves : list (leaf P)) (intra : Z) : Prop :=
  match leaves with
  | (_, Some t) :: _ => 0 <= intra <= zlen t ∧ wf_utf16 (drop (Z.to_nat intra) t) = true
  | _ => intra = 0
  end.

Definition texts (leaves : list (leaf P)) : jstr := concat (omap snd leaves).
Definition missing_of (leaves : list (leaf P)) : list jstr := map (λ l, rw_hash l.1) (List.filter (λ l, match l.2 with None => true | _ => false end) leaves).
Definition to_read (leaves : list (leaf P)) (intra : Z) : jstr := drop (Z.to_nat intra) (texts leaves).
Definition read_text (ga : Gathered) : jstr := concat (map it_content (ga_items ga)).
Definition left_over (leaves : list (leaf P)) (intra : Z) : nat := length leaves + length (to_read leaves intra).

(** A page can start: nothing read yet and room for a code point, or a page
    that may end here. *)
Definition room (ga : Gathered) : Prop := ga_remaining ga <= 8192 ∧ (4 <= ga_remaining ga ∨ ga_items ga ≠ []).

Lemma leaf_page (r : ReaderRow P) t ga :
  leaf_ok (r, Some t) → 0 <= ga_intra ga <= zlen t → wf_utf16 (drop (Z.to_nat (ga_intra ga)) t) = true → 0 < ga_remaining ga <= 8192 →
  (4 <= ga_remaining ga → ∃ page, paginateText t (leaf_options (rw_hash r) ga) = Ok page)
  ∧ ∀ page, paginateText t (leaf_options (rw_hash r) ga) = Ok page →
      ∃ end_, page_of t (rw_hash r) (ga_remaining ga) (ga_intra ga) page end_
        ∧ decodeCursor (Some (encodeCursor (rw_hash r) end_)) (rw_hash r) = Ok end_.
Proof.
  intros (Hu & Hl & Hwt & Hsafe) Hi Hwf Hrem.
  assert (∀ off, 0 <= off <= zlen t → decodeCursor (Some (encodeCursor (rw_hash r) off)) (rw_hash r) = Ok off) as Hdec.
  { intros off Hoff. assert (offset_ok off) as Ho by (cbn in Hsafe; unfold offset_ok; lia). rewrite decode_encode by done.
    pose proof (cursor_length (rw_hash r) off Hl Ho). rewrite (proj2 (Z.ltb_ge _ _)) by lia. done. }
  assert (page_limit (leaf_options (rw_hash r) ga) = Ok (ga_remaining ga)) as Hlim.
  { unfold page_limit, leaf_options, limit, MAX_PAGE_BYTES, MAX_PAGE_TOKENS. cbn [po_maxBytes po_maxTokens].
    replace (negb (is_safe_integer (ga_remaining ga)) || (ga_remaining ga <=? 0)) with false; [cbn [rbind]; f_equal; lia|].
    symmetry. unfold is_safe_integer, MAX_SAFE_INTEGER. apply orb_false_iff. split; [apply negb_false_iff, andb_true_iff; rewrite !Z.leb_le; lia|].
    apply Z.leb_gt. lia. }
  split.
  - intros H4. apply (paginate_ok _ _ (ga_remaining ga) (ga_intra ga)); try done; [by apply Hdec|lia].
  - intros page Hp. destruct (paginate_shape _ _ _ Hp) as (lim & start & end_ & H1 & H2 & Hpage).
    rewrite Hlim in H1. cbn [po_cursor po_ref leaf_options] in *. rewrite Hdec in H2 by lia. simplify_eq.
    exists end_. split; [done|]. destruct Hpage. apply Hdec. lia.
Qed.

Lemma texts_cons (r : ReaderRow P) t rest : texts ((r, Some t) :: rest) = t ++ texts rest.
Proof. done. Qed.

(** One leaf: what was read so far and what is left to read stay the whole. *)
Lemma leaf_step_ok limit (r : ReaderRow P) v rest ga :
  leaf_ok (r, v) → within ((r, v) :: rest) (ga_intra ga) → room ga →
  match leaf_step limit r v ga with
  | Fails _ => False
  | Past ga' => within rest 0 → room ga' ∧ ga_intra ga' = 0
      ∧ read_text ga' ++ to_read rest 0 = read_text ga ++ to_read ((r, v) :: rest) (ga_intra ga)
      ∧ ga_missing ga' ++ missing_of rest = ga_missing ga ++ missing_of ((r, v) :: rest)
      ∧ (left_over rest 0 < left_over ((r, v) :: rest) (ga_intra ga))%nat
  | Ends ga' => within ((r, v) :: rest) (ga_intra ga')
      ∧ read_text ga' ++ to_read ((r, v) :: rest) (ga_intra ga') = read_text ga ++ to_read ((r, v) :: rest) (ga_intra ga)
      ∧ ga_missing ga' = ga_missing ga
      ∧ ((left_over ((r, v) :: rest) (ga_intra ga') < left_over ((r, v) :: rest) (ga_intra ga))%nat
         ∨ (ga' = ga ∧ (ga_items ga ≠ [] ∨ ga_remaining ga <= 0 ∨ limit <= ga_count ga)))
  end.
Proof.
  intros Hok Hin [Hrem Hroom]. unfold leaf_step. case_test.
  { split_and!; [done|done|done|]. right. split; [done|]. apply orb_true_iff in E as [E|E]; bool_prop; auto. }
  apply orb_false_iff in E as [E1 E2]. bool_prop. destruct v as [t|].
  2:{ cbn in Hin. rewrite Hin. intros _. unfold skip_missing, read_text, left_over, to_read. cbn [ga_items ga_missing ga_remaining ga_intra].
      split_and!; [by split|done|done|cbn; by rewrite <- app_assoc|]. cbn [length]. change (texts ((r, None) :: rest)) with (texts rest). lia. }
  cbn [within] in Hin. destruct Hin as [Hi Hwf].
  destruct (leaf_page r t ga Hok Hi Hwf) as [Hcan Hpage]; [lia|].
  destruct (paginateText t (leaf_options (rw_hash r) ga)) as [page|e].
  2:{ destruct (ga_items ga) eqn:Ei; [destruct Hroom as [H4|H4]; [destruct (Hcan H4) as (? & ?); done|done]|].
      split_and!; [done|done|done|]. right. split; [done|]. by left. }
  destruct (Hpage page Logic.eq_refl) as (end_ & Hp & Hdec). destruct Hp as [Hst Hen Hct Hby Htk Hbu Hpr Hfu Hnx Htr Hww].
  assert (tp_content page ++ drop (Z.to_nat end_) t = drop (Z.to_nat (ga_intra ga)) t) as Hcut.
  { rewrite Hct. apply drop_take_app. lia. }
  assert (∀ s (o i : Z), read_text (add_item r page o i ga) ++ s = read_text ga ++ tp_content page ++ s) as Hread.
  { intros s o i. unfold read_text, add_item. cbn [ga_items]. rewrite map_app, concat_app. cbn. by rewrite app_nil_r, <- app_assoc. }
  assert (∀ i, 0 <= i <= zlen t → to_read ((r, Some t) :: rest) i = drop (Z.to_nat i) t ++ texts rest) as Hto.
  { intros i Hir. unfold to_read. rewrite texts_cons, drop_app_le by lia. done. }
  rewrite Hnx. destruct (end_ <? zlen t) eqn:Eend; bool_prop.
  - rewrite Hdec. cbn [ga_intra add_item]. assert (within ((r, Some t) :: rest) end_) as Hwi by (cbn; split; [lia|by apply Hww]). split_and!; [exact Hwi| |done|].
    + rewrite Hread, !Hto by lia. f_equal. by rewrite (app_assoc (tp_content page)), Hcut.
    + left. unfold left_over. rewrite !Hto, !length_app, !length_drop by lia. lia.
  - intros _. assert (end_ = zlen t) as -> by lia. split_and!.
    + split; cbn [add_item ga_remaining ga_items]; [rewrite Hby; pose proof (byte_length_nonneg (tp_content page)); lia|].
      right. by destruct (ga_items ga).
    + done.
    + rewrite Hread, Hto by lia. unfold to_read. rewrite Z2Nat.inj_0, drop_0. f_equal. f_equal.
      rewrite <- Hcut, (drop_ge t (Z.to_nat (zlen t))) by lia. by rewrite app_nil_r.
    + done.
    + unfold left_over. rewrite Hto by lia. unfold to_read. rewrite Z2Nat.inj_0, drop_0, length_app. cbn [length]. lia.
Qed.
End Follow.

Section Pages.
Context {P : Type}.
Implicit Types (leaves : list (leaf P)) (ga : Gathered).

Lemma within_start leaves : Forall leaf_ok leaves → within leaves 0.
Proof. destruct leaves as [|[r [t|]] rest]; cbn; [done| |done]. intros (_ & _ & H & _)%Forall_cons_1%proj1. split; [lia|done]. Qed.

Lemma read_leaves_ok limit leaves ga :
  Forall leaf_ok leaves → within leaves (ga_intra ga) → room ga →
  ∃ left ga', read_leaves limit leaves None ga = Ok ((left, None), ga')
    ∧ Forall leaf_ok left ∧ within left (ga_intra ga')
    ∧ read_text ga' ++ to_read left (ga_intra ga') = read_text ga ++ to_read leaves (ga_intra ga)
    ∧ ga_missing ga' ++ missing_of left = ga_missing ga ++ missing_of leaves
    ∧ (left_over left (ga_intra ga') <= left_over leaves (ga_intra ga))%nat
    ∧ (leaves ≠ [] → ga_items ga = [] → 0 < ga_remaining ga → ga_count ga < limit →
       (left_over left (ga_intra ga') < left_over leaves (ga_intra ga))%nat).
Proof.
  revert ga. induction leaves as [|[r v] rest IH]; intros ga Hok Hin Hroom.
  { exists [], ga. cbn. split_and!; done || lia. }
  pose proof Hok as [Hl Hrest]%Forall_cons. pose proof (leaf_step_ok limit r v rest ga Hl Hin Hroom) as Hstep.
  cbn [read_leaves]. destruct (leaf_step limit r v ga) as [ga'|ga'|e]; [| |done].
  - destruct Hstep as (Hroom' & Hi & Hread & Hmiss & Hlt); [by apply within_start|].
    destruct (IH ga') as (left & ga2 & Heq & Hok2 & Hw2 & Hr2 & Hm2 & Hle & _); [done|rewrite Hi; by apply within_start|done|].
    rewrite Hi in Hr2, Hle. exists left, ga2. split_and!; [done|done|done|congruence|congruence|lia|]. intros. lia.
  - destruct Hstep as (Hw & Hread & Hmiss & Hlt). exists ((r, v) :: rest), ga'.
    split_and!; [done|done|done|done|congruence| |].
    + destruct Hlt as [Hlt|[-> _]]; lia.
    + intros _ Hit Hre Hco. destruct Hlt as [Hlt|[_ [H|[H|H]]]]; [done|done|lia|lia].
Qed.

(** A page keeps to its budgets. *)
Definition spent ga : Z := zsum (map (λ it, byte_length (it_content it)) (ga_items ga)).
Definition within_budget (limit : Z) ga0 ga : Prop :=
  spent ga + ga_remaining ga = spent ga0 + ga_remaining ga0 ∧ 0 <= ga_remaining ga
  ∧ zlen (ga_items ga) + zlen (ga_missing ga) - ga_count ga = zlen (ga_items ga0) + zlen (ga_missing ga0) - ga_count ga0
  ∧ ga_count ga <= Z.max (ga_count ga0) limit.

Lemma add_item_budget limit ga (r : ReaderRow P) t page o i :
  0 < ga_remaining ga <= 8192 → ga_count ga < limit → paginateText t (leaf_options (rw_hash r) ga) = Ok page →
  within_budget limit ga (add_item r page o i ga).
Proof.
  intros Hr Hc Hp. destruct (paginate_shape _ _ _ Hp) as (lim & s & e & Hl & _ & [Hst Hen Hct Hby Htk Hbu Hpr Hfu Hnx Htr Hww]).
  assert (lim <= ga_remaining ga) as Hle.
  { unfold page_limit, leaf_options, Paging.limit in Hl. cbn [po_maxBytes po_maxTokens] in Hl. case_test_in Hl; [done|]. cbn [rbind] in Hl. simplify_eq. lia. }
  unfold within_budget, spent, add_item. cbn [ga_items ga_missing ga_remaining ga_count].
  rewrite map_app, zsum_app, length_app. cbn [map zsum foldr length it_content]. lia.
Qed.

Lemma read_leaves_budget limit leaves fin ga s ga' :
  0 <= ga_remaining ga <= 8192 → read_leaves limit leaves fin ga = Ok (s, ga') → within_budget limit ga ga'.
Proof.
  revert ga. induction leaves as [|[r v] rest IH]; intros ga Hr; cbn [read_leaves].
  { destruct fin; [done|]. intros [= _ <-]. unfold within_budget. lia. }
  assert (∀ ga2, within_budget limit ga ga2 → read_leaves limit rest fin ga2 = Ok (s, ga') → 0 <= spent ga2 - spent ga → within_budget limit ga ga') as Hgo.
  { intros ga2 (H1 & H2 & H3 & H4) Hrec Hsp. destruct (IH ga2 ltac:(lia) Hrec) as (G1 & G2 & G3 & G4). unfold within_budget. lia. }
  assert (∀ t page o i, paginateText t (leaf_options (rw_hash r) ga) = Ok page → 0 <= spent (add_item r page o i ga) - spent ga) as Hsp.
  { intros t page o i Hp. unfold spent, add_item. cbn [ga_items]. rewrite map_app, zsum_app. cbn.
    pose proof (byte_length_nonneg (tp_content page)). lia. }
  unfold leaf_step. case_test; [intros [= _ <-]; unfold within_budget; lia|]. apply orb_false_iff in E as [E1 E2]. bool_prop.
  destruct v as [t|].
  2:{ intros H. apply (Hgo (skip_missing r ga)); [|done|change (spent (skip_missing r ga)) with (spent ga); lia].
      unfold within_budget, spent, skip_missing. cbn [ga_items ga_missing ga_remaining ga_count]. rewrite length_app. cbn [length]. lia. }
  destruct (paginateText t (leaf_options (rw_hash r) ga)) as [page|e] eqn:Ep.
  2:{ destruct (ga_items ga); [done|]. intros [= _ <-]. unfold within_budget. lia. }
  destruct (tp_nextCursor page) as [c|].
  - destruct (decodeCursor (Some c) (rw_hash r)) as [i|]; [|done]. intros [= _ <-]. apply (add_item_budget limit ga r t); [lia|done|done].
  - intros H. eapply Hgo; [apply (add_item_budget limit ga r t); [lia|done|done]|done|by apply (Hsp t)].
Qed.
End Pages.

(** ** Seeking in a sorted table *)

Lemma seek_rest {A} (key : A → Z) (l : list A) o r rest :
  StronglySorted (λ a b, key a < key b) l → List.filter (λ x, o <=? key x) l = r :: rest →
  List.filter (λ x, key r + 1 <=? key x) l = rest.
Proof.
  assert (∀ l' k, Forall (λ b, k <= key b) l' → List.filter (λ x, k <=? key x) l' = l') as Hall.
  { intros l' k. induction 1 as [|b l' Hb _ IH]; cbn; [done|]. rewrite (proj2 (Z.leb_le _ _)) by done. by rewrite IH. }
  induction 1 as [|a l Hs IH Ha]; cbn [List.filter]; [done|]. destruct (o <=? key a) eqn:E; bool_prop.
  - intros [= <- <-]. rewrite (proj2 (Z.leb_gt _ _)) by lia. rewrite !Hall; [done| |]; (eapply Forall_impl; [exact Ha|]; cbn; lia).
  - intros H. assert (r ∈ List.filter (λ x, o <=? key x) l) as Hin by (rewrite H; by left).
    rewrite list_elem_of_In in Hin. apply filter_In in Hin as [Hin Hor]. bool_prop.
    rewrite (proj2 (Z.leb_gt _ _)) by lia. by apply IH.
Qed.

(** ** The archive reader, page by page *)

Section ArchivePages.
Context {P : Type} (reader : HistoryReader P) `{!RowReader reader} (options : PageRequest).

Definition page_start (st : HistoryFrontier) : Gathered :=
  mkGathered [] [] (page_budget_of options) 0 (fr_ordinal st) (fr_intra st).
Definition page_bounded (page : HistoryPage) : Prop :=
  zsum (map (λ it, byte_length (it_content it)) (hp_items page)) <= page_budget_of options
  ∧ zlen (hp_items page) + zlen (hp_missingHashes page) <= Z.max 0 (page_limit_of options).

(** The page of a frontier, in terms of its leaves. *)
Definition page_spec (st : HistoryFrontier) (res : result jstr HistoryPage) : Prop :=
  let s := frontier_leaves reader (fr_stack st) in
  match read_leaves (page_limit_of options) s.1 s.2 (page_start st) with
  | Throw e => res = Throw e
  | Ok (remain, ga) => ∃ page, res = Ok page ∧ hp_items page = ga_items ga ∧ hp_missingHashes page = ga_missing ga
      ∧ hp_more page = negb (bool_decide (remain.1 = [])) ∧ fr_ordinal (hp_state page) = ga_ordinal ga
      ∧ fr_intra (hp_state page) = ga_intra ga ∧ frontier_leaves reader (fr_stack (hp_state page)) = remain
      ∧ (length (fr_stack (hp_state page)) <= 128)%nat
  end.

Lemma page_refines fuel st :
  (length (fr_stack st) <= 128)%nat → (frontier_steps reader (fr_stack st) <= fuel)%nat →
  ∃ res, readHistoryPage fuel reader st options = Some res ∧ page_spec st res.
Proof.
  intros Hl Hf. unfold readHistoryPage, page_spec. fold (page_start st).
  destruct (walk_refines reader (page_limit_of options) fuel (fr_stack st) (page_start st)) as (res & -> & Hres); [done|done|].
  cbn [mbind option_bind]. eexists. split; [done|]. unfold walk_result in Hres.
  destruct (read_leaves _ _ _ _) as [[s ga]|e]; [|by rewrite Hres].
  destruct Hres as (stack & -> & Hs & Hls & Hne). cbn [rbind fst snd]. eexists. split; [done|].
  cbn [hp_items hp_missingHashes hp_more hp_state fr_stack fr_ordinal fr_intra]. split_and!; try done.
  destruct stack as [|fr stack]; [by rewrite bool_decide_true by (by apply Hne)|].
  rewrite bool_decide_false; [done|]. intros H. by apply Hne in H.
Qed.

Lemma page_spec_bounded st page : 0 <= page_budget_of options → page_spec st (Ok page) → page_bounded page.
Proof.
  intros Hb. unfold page_spec, page_bounded. destruct (read_leaves _ _ _ _) as [[remain ga]|e] eqn:E; [|done].
  intros (page' & [= <-] & -> & -> & _). apply read_leaves_budget in E; [|cbn; unfold page_budget_of in *; lia].
  unfold within_budget, spent in E. cbn in E. lia.
Qed.

(** A client that sends each cursor back until there is none. *)
Fixpoint follow (n : nat) (st : HistoryFrontier) : option (result jstr (list HistoryPage)) :=
  match n with
  | O => None
  | S n' =>
    match readHistoryPage (frontier_steps reader (fr_stack st)) reader st options with
    | None => None
    | Some (Throw e) => Some (Throw e)
    | Some (Ok page) =>
      if hp_more page then
        match follow n' (hp_state page) with
        | Some (Ok pages) => Some (Ok (page :: pages))
        | other => other
        end
      else Some (Ok [page])
    end
  end.

Definition page_text (page : HistoryPage) : jstr := concat (map it_content (hp_items page)).

Lemma follow_whole n st ls :
  4 <= page_budget_of options → 1 <= page_limit_of options → (length (fr_stack st) <= 128)%nat →
  frontier_leaves reader (fr_stack st) = (ls, None) → Forall leaf_ok ls → within ls (fr_intra st) →
  (left_over ls (fr_intra st) < n)%nat →
  ∃ pages, follow n st = Some (Ok pages)
    ∧ concat (map page_text pages) = to_read ls (fr_intra st) ∧ concat (map hp_missingHashes pages) = missing_of ls
    ∧ Forall page_bounded pages.
Proof.
  intros Hb Hlim. revert st ls. induction n as [|n IH]; intros st ls Hl Hls Hok Hin Hn; [lia|]. cbn [follow].
  destruct (page_refines (frontier_steps reader (fr_stack st)) st Hl) as (res & -> & Hres); [done|].
  destruct (read_leaves_ok (page_limit_of options) ls (page_start st)) as (remain & ga & Hr & Hok' & Hw & Hread & Hmiss & Hle & Hlt);
    [done|done|split; cbn; [unfold page_budget_of; lia|by left]|].
  cbn [page_start ga_intra ga_missing app] in Hread, Hmiss, Hle, Hlt. change (read_text (page_start st)) with (@nil Z) in Hread. cbn [app] in Hread.
  pose proof Hres as Hspec. unfold page_spec in Hspec. rewrite Hls in Hspec. cbn [fst snd] in Hspec. rewrite Hr in Hspec.
  destruct Hspec as (page & -> & Hit & Hmi & Hmore & _ & Hintra & Hleft & Hstk). cbn [fst] in Hmore.
  assert (page_bounded page) as Hbd by (apply (page_spec_bounded st); [lia|done]).
  assert (page_text page = read_text ga) as Htext by (unfold page_text, read_text; by rewrite Hit).
  rewrite Hmore. case_bool_decide as El; cbn [negb].
  - subst remain. exists [page]. cbn [map concat]. rewrite !app_nil_r, Htext, Hmi, <- Hread, <- Hmiss.
    unfold to_read. cbn. rewrite drop_nil, !app_nil_r. split_and!; [done|done|done|by constructor].
  - destruct (IH (hp_state page) remain) as (pages & -> & Htx & Hms & Hall); [done|done|done|by rewrite Hintra| |].
    + rewrite Hintra. enough (left_over remain (ga_intra ga) < left_over ls (fr_intra st))%nat by lia.
      apply Hlt; [|done|cbn; lia|cbn; lia]. intros ->. cbn in Hr. by injection Hr as <- <-.
    + exists (page :: pages). cbn [map concat]. rewrite Htx, Hms, Htext, Hmi, Hintra. split_and!; [done|done|done|by constructor].
Qed.
End ArchivePages.

(** ** Where the items of a page come from *)

Section Provenance.
Context {P : Type} (reader : HistoryReader P).

(** An item is a slice of the text of a row the reader returned. *)
Definition item_of (it : HistoryItem) : Prop :=
  ∃ h o r text a b, row reader h o = Ok (Some r) ∧ content reader r = Ok (Some (CText text))
    ∧ it_hash it = rw_hash r ∧ it_role it = rw_role r ∧ it_turnIndex it = rw_turnIndex r ∧ it_content it = slice text a b.

Lemma leaf_step_items limit h o r v ga :
  row reader h o = Ok (Some r) →
  (∀ t, v = Some t → content reader r = Ok (Some (CText t))) → Forall item_of (ga_items ga) →
  match leaf_step limit r v ga with
  | Past ga' | Ends ga' => Forall item_of (ga_items ga')
  | Fails _ => True
  end.
Proof.
  intros Hr Hv Hall. unfold leaf_step. case_test; [done|]. destruct v as [t|]; [|done].
  destruct (paginateText t (leaf_options (rw_hash r) ga)) as [page|e] eqn:Ep; [|destruct (ga_items ga) eqn:Eg; [done|by rewrite Eg]].
  assert (∀ n i, Forall item_of (ga_items (add_item r page n i ga))) as Hadd.
  { intros n i. apply Forall_app. split; [done|]. constructor; [|constructor].
    destruct (paginate_shape _ _ _ Ep) as (lim & s & e & _ & _ & [_ _ Hc _ _ _ _ _ _ _ _]). exists h, o, r, t, (Z.to_nat s), (Z.to_nat e).
    split_and!; try done. by apply Hv. }
  destruct (tp_nextCursor page) as [c|]; [|apply Hadd]. destruct (decodeCursor (Some c) (rw_hash r)); [apply Hadd|done].
Qed.

Lemma page_walk_items limit fuel stack ga stack' ga' :
  page_walk reader limit fuel stack ga = Some (Ok (stack', ga')) → Forall item_of (ga_items ga) → Forall item_of (ga_items ga').
Proof.
  revert stack ga. induction fuel as [|f IH]; intros stack ga; cbn [page_walk]; [done|].
  destruct stack as [|[h o] below]; [by intros [= _ <-]|]. destruct (row reader h o) as [[r|]|e] eqn:Er; [|by apply IH|done].
  destruct (content reader r) as [v|e] eqn:Ec; [|done].
  assert (∀ t, (∀ t', t = Some t' → content reader r = Ok (Some (CText t'))) →
    match leaf_step limit r t ga with
    | Past ga1 => page_walk reader limit f ((h, next_offset r o) :: below) ga1
    | Ends ga1 => Some (Ok ((h, o) :: below, ga1))
    | Fails e => Some (Throw e)
    end = Some (Ok (stack', ga')) → Forall item_of (ga_items ga) → Forall item_of (ga_items ga')) as Hleaf.
  { intros t Ht Hw Hall. pose proof (leaf_step_items limit h o r t ga Er Ht Hall) as Hs.
    destruct (leaf_step limit r t ga) as [ga1|ga1|e]; [by eapply IH|by injection Hw as _ <-|done]. }
  destruct v as [[t|c]|]; [by apply Hleaf; [intros t' [= <-]]| |by apply Hleaf].
  case_test; [done|]. by apply IH.
Qed.

Lemma readHistoryPage_items fuel st options page :
  readHistoryPage fuel reader st options = Some (Ok page) → Forall item_of (hp_items page).
Proof.
  unfold readHistoryPage. destruct (page_walk _ _ _ _ _) as [[[stack ga]|e]|] eqn:E; [|done|done]. intros [= <-].
  eapply page_walk_items; [exact E|constructor].
Qed.
End Provenance.

(** ** Claims *)

(** C28: One page of the frontier machine is one page of the abstract reader
    over the flattened leaves of the frontier, in the same order and with the
    same errors: it always ends within [frontier_steps] iterations, its new
    frontier flattens to the leaves left over, it says there is more exactly
    when leaves are left, and it keeps to its byte budget and its limit. *)
Theorem readHistoryPage_refines {P} (reader : HistoryReader P) `{!RowReader reader} options fuel st :
  (length (fr_stack st) <= 128)%nat → (frontier_steps reader (fr_stack st) <= fuel)%nat →
  ∃ res, readHistoryPage fuel reader st options = Some res ∧ page_spec reader options st res
    ∧ (0 <= page_budget_of options → ∀ page, res = Ok page → page_bounded options page).
Proof.
  intros Hl Hf. destruct (page_refines reader options fuel st Hl Hf) as (res & Hr & Hs). exists res.
  split_and!; [done|done|]. intros Hb page ->. by apply (page_spec_bounded reader options st).
Qed.

(** A client that follows the cursors reads every leaf below the frontier:
    the contents of its pages are the texts of the leaves, in order and
    without gaps or repetition, the hashes reported missing are exactly the
    unreadable leaves, and it needs at most one page per leaf and code unit
    (page budget of at least 4 bytes, limit of at least 1). *)
Theorem history_pages_whole {P} (reader : HistoryReader P) `{!RowReader reader} options st ls :
  4 <= page_budget_of options → 1 <= page_limit_of options → (length (fr_stack st) <= 128)%nat →
  frontier_leaves reader (fr_stack st) = (ls, None) → Forall leaf_ok ls → within ls (fr_intra st) →
  ∃ pages, follow reader options (S (left_over ls (fr_intra st))) st = Some (Ok pages)
    ∧ concat (map page_text pages) = to_read ls (fr_intra st) ∧ concat (map hp_missingHashes pages) = missing_of ls
    ∧ Forall (page_bounded options) pages.
Proof. intros. by apply follow_whole; [| | | | | |lia]. Qed.

(** ** Witnesses *)

Definition demo_rows (h : jstr) : list (ReaderRow Z) :=
  if jeqb h (js "top") then [mkRow (js "m0") RUser 0 (Some 1) 0; mkRow (js "c") RAssistant 0 (Some 3) 2; mkRow (js "m3") RUser 1 (Some 4) 3]
  else if jeqb h (js "c") then [mkRow (js "m1") RAssistant 0 (Some 1) 0; mkRow (js "gone") RUser 0 (Some 2) 1] else [].
Definition demo_reader : HistoryReader Z :=
  mkReader (λ h o, Ok (head (List.filter (λ r, o <=? rw_memo r) (demo_rows h))))
    (λ r, Ok (if jeqb (rw_hash r) (js "c") then Some (CChild (js "c"))
              else if jeqb (rw_hash r) (js "gone") then None else Some (CText (rw_hash r ++ js " text")))).

#[export] Program Instance demo_row_reader : RowReader demo_reader :=
  {| rows h o := List.filter (λ r, o <=? rw_memo r) (demo_rows h) |}.
Next Obligation. done. Qed.
Next Obligation.
  intros h o r rest H. assert (next_offset r o = rw_memo r + 1) as ->.
  { assert (r ∈ demo_rows h) as Hin.
    { assert (r ∈ List.filter (λ x, o <=? rw_memo x) (demo_rows h)) as Hin by (rewrite H; by left).
      rewrite list_elem_of_In in *. by apply filter_In in Hin as [Hin _]. }
    unfold demo_rows in Hin. repeat case_match; set_solver. }
  apply (seek_rest rw_memo _ o); [|done]. unfold demo_rows. repeat case_match; repeat constructor.
Qed.

Definition demo_request : PageRequest := mkRequest (Some 6) None (Some 2).
Definition demo_frontier : HistoryFrontier := mkFrontier [(js "top", 0)] 0 0.
Definition demo_page : option (result jstr HistoryPage) := Eval vm_compute in readHistoryPage 9 demo_reader demo_frontier demo_request.

Lemma readHistoryPage_refines_witness :
  ∃ page, readHistoryPage 9 demo_reader demo_frontier demo_request = Some (Ok page) ∧ page_bounded demo_request page ∧ hp_more page = true.
Proof.
  destruct (readHistoryPage_refines demo_reader demo_request 9 demo_frontier) as (res & Hr & _ & Hb);
    [cbn; lia|apply Nat.leb_le; vm_compute; reflexivity|].
  assert (readHistoryPage 9 demo_reader demo_frontier demo_request = demo_page) as Hd by (vm_compute; reflexivity).
  rewrite Hd in Hr. injection Hr as <-. eexists. split; [exact Hd|]. split; [by apply Hb; [vm_compute|]|reflexivity].
Defined.

Lemma history_pages_whole_witness :
  ∃ pages, follow demo_reader demo_request 29 demo_frontier = Some (Ok pages)
    ∧ concat (map page_text pages) = js "m0 textm1 textm3 text" ∧ concat (map hp_missingHashes pages) = [js "gone"].
Proof.
  destruct (history_pages_whole demo_reader demo_request demo_frontier (frontier_leaves demo_reader [(js "top", 0)]).1)
    as (pages & H1 & H2 & H3 & _); [by vm_compute|by vm_compute|cbn; lia|vm_compute; reflexivity| |vm_compute; done|].
  - repeat constructor; cbn; lia || done.
  - exists pages. split; [exact H1|]. split; [exact H2|exact H3].
Defined.
