(* ===== verification/Fts.v ===== *)
(** * The search index ([packages/headroomd/src/store/fts.ts], [search-focus.ts])

    Query preparation, the cut of a text into overlapping segments, the index
    tables and their write, and the search over them.  The FTS5 engine of
    SQLite is a parameter: which rows of [segment_fts] match an expression, in
    [bm25] order. *)

From stdpp Require Import base tactics list numbers option sets strings.
From S2P Require Import Prelude JsString JsRegex Json Codec Ansi CLine OMap Chat.

(** ** Text preparation *)

Definition CJK_RUN : regex := Eval vm_compute in re "[぀-ヿ㐀-䶿一-鿿豈-﫿]+".
Definition CJK_GAP : regex := Eval vm_compute in re "([぀-ヿ㐀-䶿一-鿿豈-﫿]) ([぀-ヿ㐀-䶿一-鿿豈-﫿])".
Definition ASCII_RUN : regex := Eval vm_compute in re "[A-Za-z0-9_]+".

Definition segmentForIndex (text : jstr) : jstr :=
  replace_all CJK_RUN (λ m, join [32] (code_points (rm_text m))) text.

(** Every pass that changes the text removes a space: [length text] passes suffice. *)
Fixpoint desegment_from (fuel : nat) (out : jstr) : jstr :=
  match fuel with
  | O => out
  | S f =>
    let next := replace_all CJK_GAP (λ m, default [] (group_of m 1) ++ default [] (group_of m 2)) out in
    if jeqb next out then out else desegment_from f next
  end.
Definition desegment (text : jstr) : jstr := desegment_from (S (length text)) text.

Definition QUERY_STOPWORDS : list jstr :=
  map js ["what"; "which"; "who"; "whom"; "when"; "where"; "why"; "how"; "was"; "were"; "is"; "are"; "the"; "a"; "an"; "did";
          "does"; "do"; "we"; "our"; "you"; "your"; "it"; "its"; "for"; "of"; "to"; "and"; "please"; "tell"; "me"]%string.
(** [toLowerCase] on an ASCII run. *)
Definition lower_run (s : jstr) : jstr := map (λ c, if (65 <=? c) && (c <=? 90) then c + 32 else c) s.
Definition quoted (s : jstr) : jstr := [34] ++ s ++ [34].

Definition match_phrases (query : jstr) : list jstr :=
  map quoted
    (take 32 (List.filter (λ w, negb (existsb (jeqb w) QUERY_STOPWORDS)) (map (λ m, lower_run (rm_text m)) (match_all ASCII_RUN query))))
  ++ map (λ m, quoted (join [32] (code_points (rm_text m)))) (match_all CJK_RUN query).
Definition buildMatchQuery (query : jstr) : option jstr :=
  let phrases := match_phrases query in
  if 0 <? zlen phrases then Some (join [32] phrases) else None.

Example match_query_ex :
  (buildMatchQuery (js "What was ERROR_12: 压缩 NEAR x!"), buildMatchQuery (js "?!"), segmentForIndex (js "a压缩b"), desegment (js "压 缩 率 x"))
  = (Some (quoted (js "error_12") ++ js " " ++ quoted (js "near") ++ js " " ++ quoted (js "x") ++ js " " ++ quoted (js "压 缩")), None,
     js "a压 缩b", js "压缩率 x").
Proof. vm_compute. reflexivity. Qed.

(** ** Segments *)

Definition SEGMENT_BREAK : regex := Eval vm_compute in re "\n|[.!?。！？](?:\s|$)".

Record Segment := mkSeg { sg_text : jstr; sg_start : nat; sg_end : nat }.

Definition low_at (text : jstr) (i : nat) : bool := match text !! i with Some c => is_low c | None => false end.

Definition segment_end (text : jstr) (start : nat) : nat :=
  let e := Nat.min (length text) (start + 2048) in
  if (e <? length text)%nat then
    let window := slice text (start + 1024) e in
    let e := match last (match_all SEGMENT_BREAK window) with
             | Some m => (start + 1024 + rm_index m + length (rm_text m))%nat
             | None => e
             end in
    if low_at text e then (e - 1)%nat else e
  else e.
Definition next_start (text : jstr) (start e : nat) : nat :=
  let s := Nat.max (start + 1) (e - 256) in
  if low_at text s then S s else s.

Fixpoint split_from (fuel : nat) (text : jstr) (start : nat) : list Segment :=
  match fuel with
  | O => []
  | S f =>
    if (start <? length text)%nat then
      let e := segment_end text start in
      mkSeg (slice text start e) start e
      :: (if (e =? length text)%nat then [] else split_from f text (next_start text start e))
    else []
  end.
Definition splitContent (text : jstr) : list Segment := split_from (length text) text 0.

(** ** Tables *)

Record SegmentRow := mkSegRow { sr_id : jstr; sr_hash : jstr; sr_start : nat; sr_end : nat; sr_text : jstr }.
Record SegmentFtsRow := mkSegFts { sf_id : jstr; sf_hash : jstr; sf_text : jstr }.
Record ChunkRow := mkChunk {
  ck_hash : jstr; ck_ns : Namespace; ck_role : Role; ck_turnIndex : Z; ck_historyHash : jstr;
  ck_summary : jstr; ck_excerpt : jstr; ck_keywords : jstr }.
Record ChunkRef := mkChunkRef { cr_ns : Namespace; cr_history : jstr; cr_hash : jstr; cr_role : Role; cr_turnIndex : Z }.
Record ChunkFtsRow := mkChunkFts { cf_hash : jstr; cf_summary : jstr; cf_excerpt : jstr; cf_keywords : jstr }.
Record HistoryRow := mkHistory {
  hi_historyHash : jstr; hi_ns : Namespace; hi_summary : jstr; hi_rawTokens : Z; hi_summaryTokens : Z; hi_createdAt : Z }.

(** [index.db]. *)
Record IndexDb := mkIndex {
  ix_segments : list SegmentRow;
  ix_segment_fts : list SegmentFtsRow;
  ix_inventory : list (jstr * Z);
  ix_chunks : list ChunkRow;
  ix_chunks_fts : list ChunkFtsRow;
  ix_chunk_refs : list ChunkRef;
  ix_histories : list HistoryRow;
  ix_rebuild : list (Z * Z) }.
Definition empty_index : IndexDb := mkIndex [] [] [] [] [] [] [] [].

(** [INSERT OR IGNORE] into a table whose primary key is [key]. *)
Definition insert_ignore {A K} `{EqDecision K} (key : A → K) (row : A) (table : list A) : list A :=
  if existsb (λ r, bool_decide (key r = key row)) table then table else table ++ [row].

Definition ref_key (r : ChunkRef) : Namespace * jstr * jstr := (cr_ns r, cr_history r, cr_hash r).

Record InsertChunkInput := mkChunkInput {
  ci_fullText : option jstr; ci_contentHash : jstr; ci_ns : Namespace; ci_role : Role; ci_turnIndex : Z; ci_historyHash : jstr;
  ci_summaryText : jstr; ci_rawExcerpt : jstr; ci_keywords : jstr }.

Definition segment_id (hash : jstr) (s : Segment) : jstr := hash ++ js ":" ++ dec (Z.of_nat (sg_start s)).

(** One transaction: delete and insert by content hash, keep the references. *)
Definition insertChunk (db : IndexDb) (input : InsertChunkInput) : IndexDb :=
  let hash := ci_contentHash input in
  let segments := splitContent (default (ci_rawExcerpt input) (ci_fullText input)) in
  mkIndex
    (List.filter (λ s, negb (jeqb (sr_hash s) hash)) (ix_segments db)
     ++ map (λ s, mkSegRow (segment_id hash s) hash (sg_start s) (sg_end s) (sg_text s)) segments)
    (List.filter (λ s, negb (jeqb (sf_hash s) hash)) (ix_segment_fts db)
     ++ map (λ s, mkSegFts (segment_id hash s) hash (segmentForIndex (sg_text s))) segments)
    (set_key hash (zlen segments) (ix_inventory db))
    (List.filter (λ c, negb (jeqb (ck_hash c) hash)) (ix_chunks db)
     ++ [mkChunk hash (ci_ns input) (ci_role input) (ci_turnIndex input) (ci_historyHash input)
           (segmentForIndex (ci_summaryText input)) (segmentForIndex (ci_rawExcerpt input)) (segmentForIndex (ci_keywords input))])
    (List.filter (λ c, negb (jeqb (cf_hash c) hash)) (ix_chunks_fts db)
     ++ [mkChunkFts hash (segmentForIndex (ci_summaryText input)) (segmentForIndex (ci_rawExcerpt input))
           (segmentForIndex (ci_keywords input))])
    (insert_ignore ref_key (mkChunkRef (ci_ns input) (ci_historyHash input) hash (ci_role input) (ci_turnIndex input)) (ix_chunk_refs db))
    (ix_histories db) (ix_rebuild db).

(** ** Search *)

Record SearchHit := mkHit {
  sh_score : jnum; sh_hash : jstr; sh_ns : Namespace; sh_turnIndex : Z; sh_role : Role; sh_snippet : jstr; sh_chunkId : jstr;
  sh_start : nat; sh_end : nat }.

(** [MIN] of the roles as text. *)
Definition min_role (a b : Role) : Role := match a, b with RUser, RUser => RUser | _, _ => RAssistant end.

(** The [namespace_refs] row of a content hash: least turn and role over its
    references in the namespace. *)
Definition namespace_ref (db : IndexDb) (ns : Namespace) (hash : jstr) : option (Z * Role) :=
  match List.filter (λ r, bool_decide (cr_ns r = ns) && jeqb (cr_hash r) hash) (ix_chunk_refs db) with
  | [] => None
  | r :: rs => Some (foldl (λ acc r, (Z.min acc.1 (cr_turnIndex r), min_role acc.2 (cr_role r))) (cr_turnIndex r, cr_role r) rs)
  end.

Definition touches (a b : SearchHit) : bool :=
  jeqb (sh_hash a) (sh_hash b) && (sh_start a <=? sh_end b)%nat && (sh_start b <=? sh_end a)%nat.

(** The union of a row with an earlier hit it touches. *)
Definition merge_hit (previous row : SearchHit) : SearchHit :=
  let '(first, last) := if (sh_start previous <=? sh_start row)%nat then (previous, row) else (row, previous) in
  mkHit (sh_score previous) (sh_hash previous) (sh_ns previous) (sh_turnIndex previous) (sh_role previous)
    (sh_snippet first ++ drop (sh_end first - sh_start last) (sh_snippet last)) (sh_chunkId previous)
    (Nat.min (sh_start previous) (sh_start row)) (Nat.max (sh_end previous) (sh_end row)).

Fixpoint merge_row (merged : list SearchHit) (row : SearchHit) : list SearchHit :=
  match merged with
  | [] => [row]
  | h :: r => if touches h row then merge_hit h row :: r else h :: merge_row r row
  end.

Section Search.
(** The FTS5 engine: the matching rows of [segment_fts], best first. *)
Context (fts_match : list SegmentFtsRow → jstr → list (jstr * jnum)).

Definition search_rows (db : IndexDb) (ns : Namespace) (matchExpression : jstr) : list SearchHit :=
  flat_map (λ ranked : jstr * jnum,
    flat_map (λ s,
      match namespace_ref db ns (sr_hash s) with
      | Some (turnIndex, role) => [mkHit ranked.2 (sr_hash s) ns turnIndex role (sr_text s) (sr_id s) (sr_start s) (sr_end s)]
      | None => []
      end) (List.filter (λ s, jeqb (sr_id s) ranked.1) (ix_segments db)))
    (fts_match (ix_segment_fts db) matchExpression).

Definition searchChunks (db : IndexDb) (ns : Namespace) (matchExpression : jstr) (limit : nat) : list SearchHit :=
  take limit (foldl merge_row [] (take (limit * 4) (search_rows db ns matchExpression))).
End Search.

(** ** The segments of a text *)

Lemma match_all_bound r prev i s skip m :
  m ∈ match_all_from r prev i s skip → (rm_index m + length (rm_text m) <= i + length s)%nat.
Proof.
  assert (∀ st, (rm_index (result_of i s st) + length (rm_text (result_of i s st)) <= i + length s)%nat) as Hres.
  { intros st. unfold result_of. cbn [rm_index rm_text]. rewrite length_take. lia. }
  revert prev i skip Hres. induction s as [|c s IH]; intros prev i skip Hres Hm; cbn [match_all_from] in Hm.
  - destruct skip; [|set_solver]. destruct (match_at r prev []) as [st|]; [|set_solver].
    apply list_elem_of_singleton in Hm as ->. apply Hres.
  - assert (∀ p k, m ∈ match_all_from r p (S i) s k → (rm_index m + length (rm_text m) <= i + length (c :: s))%nat) as Hrec.
    { intros p k H. apply IH in H; [cbn [length]; lia|]. intros st. unfold result_of. cbn [rm_index rm_text]. rewrite length_take. lia. }
    destruct skip as [|k]; [|by eapply Hrec]. destruct (match_at r prev (c :: s)) as [st|]; [|by eapply Hrec].
    apply elem_of_cons in Hm as [->|Hm]; [apply Hres|by eapply Hrec].
Qed.

Lemma low_at_lt text i : low_at text i = true → (i < length text)%nat.
Proof. unfold low_at. destruct (text !! i) eqn:E; [|done]. intros _. by eapply lookup_lt_Some. Qed.

Lemma length_slice text a b : (b <= length text)%nat → length (slice text a b) = (b - a)%nat.
Proof. intros H. unfold slice. rewrite length_take, length_drop. lia. Qed.

Lemma segment_end_bounds text start :
  (start < length text)%nat →
  (start < segment_end text start <= length text)%nat ∧ (segment_end text start <= start + 2048)%nat
  ∧ ((segment_end text start < length text)%nat → (start + 1023 <= segment_end text start)%nat).
Proof.
  intros Hs. unfold segment_end. cbv zeta. destruct (Nat.ltb_spec (Nat.min (length text) (start + 2048)) (length text)) as [Hl|Hl]; [|lia].
  replace (Nat.min (length text) (start + 2048)) with (start + 2048)%nat in * by lia.
  set (window := slice text (start + 1024) (start + 2048)).
  set (e := match last (match_all SEGMENT_BREAK window) with Some m => _ | None => _ end).
  assert (start + 1024 <= e <= start + 2048)%nat as He.
  { unfold e. destruct (last (match_all SEGMENT_BREAK window)) as [m|] eqn:Em; [|lia].
    apply last_Some_elem_of, match_all_bound in Em. unfold window in Em. rewrite length_slice in Em by lia. lia. }
  clearbody e. destruct (low_at text e); lia.
Qed.

Lemma next_start_bounds text start e :
  (start + 1023 <= e)%nat → (start < next_start text start e)%nat ∧ (e = next_start text start e + 256 ∨ e = next_start text start e + 255)%nat.
Proof.
  intros He. unfold next_start. cbv zeta. replace (Nat.max (start + 1) (e - 256)) with (e - 256)%nat by lia. case_test; lia.
Qed.

(** What the segments from [start] on are: slices at most 2048 units long that
    overlap the next one by 255 or 256 units, the last one ending the text. *)
Fixpoint segments_from (text : jstr) (start : nat) (segments : list Segment) : Prop :=
  match segments with
  | [] => False
  | s :: rest =>
    sg_start s = start ∧ (start < sg_end s <= length text)%nat ∧ (sg_end s <= start + 2048)%nat
    ∧ sg_text s = slice text start (sg_end s)
    ∧ match rest with
      | [] => sg_end s = length text
      | s' :: _ => (start < sg_start s')%nat ∧ (sg_end s = sg_start s' + 256 ∨ sg_end s = sg_start s' + 255)%nat
                   ∧ segments_from text (sg_start s') rest
      end
  end.

Lemma split_from_spec fuel text start :
  (start < length text <= start + fuel)%nat → segments_from text start (split_from fuel text start).
Proof.
  revert start. induction fuel as [|fuel IH]; intros start Hs; [lia|]. cbn [split_from].
  destruct (Nat.ltb_spec start (length text)); [|lia]. destruct (segment_end_bounds text start) as (H1 & H2 & H3); [done|].
  set (e := segment_end text start) in *. destruct (Nat.eqb_spec e (length text)) as [He|He].
  - cbn. split_and!; (done || lia).
  - assert (start + 1023 <= e)%nat as Hlong by (apply H3; lia).
    destruct (next_start_bounds text start e Hlong) as [Hn1 Hn2]. set (n := next_start text start e) in *.
    specialize (IH n ltac:(lia)). cbn [segments_from sg_start sg_end sg_text]. split_and!; [done|lia|lia|lia|done|].
    destruct (split_from fuel text n) as [|s' rest]; [done|].
    assert (sg_start s' = n) as Hs' by (by destruct IH as [? _]). rewrite Hs'. split_and!; [done|done|done].
Qed.

Lemma split_segments text : text ≠ [] → segments_from text 0 (splitContent text).
Proof. intros Hne. apply split_from_spec. destruct text; [done|]. simpl. lia. Qed.

Lemma segments_span text start segments a b :
  segments_from text start segments → (start <= a <= b)%nat → (b <= length text)%nat → (b <= a + 256)%nat →
  ∃ s, s ∈ segments ∧ (sg_start s <= a)%nat ∧ (b <= sg_end s)%nat.
Proof.
  revert start. induction segments as [|s rest IH]; intros start; [done|]. cbn [segments_from].
  intros (Hs & He & Hlen & _ & Hr) Ha Hb Hab. destruct rest as [|s' rest'].
  - exists s. split; [by left|lia].
  - destruct Hr as (Hn & Ho & Hr). destruct (decide (a < sg_start s')%nat).
    + exists s. split; [by left|lia].
    + destruct (IH (sg_start s') Hr) as (s2 & ? & ?); [lia|done|done|]. exists s2. split; [by right|done].
Qed.

Lemma segments_exact_from text start segments s :
  segments_from text start segments → s ∈ segments →
  (sg_start s <= sg_end s <= length text)%nat ∧ sg_text s = slice text (sg_start s) (sg_end s) ∧ (sg_end s - sg_start s <= 2048)%nat.
Proof.
  revert start. induction segments as [|s' rest IH]; intros start; [done|]. cbn [segments_from].
  intros (Hs & He & Hlen & Ht & Hr) [->|Hin]%elem_of_cons; [rewrite Hs; split_and!; (done || lia)|].
  destruct rest as [|s2 rest']; [set_solver|]. destruct Hr as (_ & _ & Hr). by apply (IH (sg_start s2)).
Qed.

(** *** Surrogate pairs *)

Lemma wf_lows text p : wf_utf16 text = true → low_at text p = true → ∃ q, p = S q ∧ low_at text q = false ∧ low_at text (S p) = false.
Proof.
  remember (length text) as n eqn:Hn. revert text p Hn. induction (lt_wf n) as [n _ IH]. intros text p -> Hwf Hp.
  destruct text as [|c s]; [done|]. rewrite wf_utf16_step in Hwf. destruct (is_high c) eqn:Ehigh.
  - destruct s as [|d r]; [done|]. apply andb_true_iff in Hwf as [Hd Hwf]. destruct p as [|[|p]].
    + cbn in Hp. apply low_not_high in Hp. congruence.
    + exists O. split; [done|]. split; [cbn; destruct (is_low c) eqn:El; [apply low_not_high in El; congruence|done]|].
      change (low_at r 0 = false). destruct (low_at r 0) eqn:E; [|done]. destruct (IH (length r)) with (text := r) (p := O) as (q & ? & _); [simpl; lia|done|done|done|done].
    + change (low_at r p = true) in Hp. destruct (IH (length r)) with (text := r) (p := p) as (q & -> & ? & ?); [simpl; lia|done|done|done|].
      by exists (S (S q)).
  - apply andb_true_iff in Hwf as [Hc Hwf]. apply negb_true_iff in Hc. destruct p as [|p]; [cbn in Hp; congruence|].
    change (low_at s p = true) in Hp. destruct (IH (length s)) with (text := s) (p := p) as (q & -> & ? & ?); [simpl; lia|done|done|done|].
    by exists (S q).
Qed.

Lemma not_low_after text p : wf_utf16 text = true → low_at text p = true → low_at text (p - 1) = false ∧ low_at text (S p) = false.
Proof. intros Hwf Hp. destruct (wf_lows text p Hwf Hp) as (q & -> & ? & ?). replace (S q - 1)%nat with q by lia. done. Qed.

Lemma segment_end_not_low text start : wf_utf16 text = true → low_at text (segment_end text start) = false.
Proof.
  intros Hwf. assert (∀ e, (length text <= e)%nat → low_at text e = false) as Hout.
  { intros e He. destruct (low_at text e) eqn:E; [|done]. apply low_at_lt in E. lia. }
  unfold segment_end. cbv zeta. case_test; [|apply Hout; apply Nat.ltb_ge in E; lia].
  set (e := match last _ with Some m => _ | None => _ end). destruct (low_at text e) eqn:E'; [by apply not_low_after|done].
Qed.

Lemma next_start_not_low text start e : wf_utf16 text = true → low_at text (next_start text start e) = false.
Proof. intros Hwf. unfold next_start. cbv zeta. case_test; [by apply not_low_after|done]. Qed.

Lemma split_not_low fuel text start s :
  wf_utf16 text = true → low_at text start = false → s ∈ split_from fuel text start →
  low_at text (sg_start s) = false ∧ low_at text (sg_end s) = false.
Proof.
  intros Hwf. revert start. induction fuel as [|fuel IH]; intros start Hs Hin; cbn [split_from] in Hin; [set_solver|].
  case_test_in Hin; [|set_solver]. apply elem_of_cons in Hin as [->|Hin]; [split; [done|by apply segment_end_not_low]|].
  case_test_in Hin; [set_solver|]. apply IH in Hin; [done|]. by apply next_start_not_low.
Qed.

(** ** Hits are verbatim *)

(** [full] gives the stored text of each content hash. *)
Definition exact_row (full : jstr → jstr) (s : SegmentRow) : Prop :=
  (sr_start s <= sr_end s <= length (full (sr_hash s)))%nat ∧ sr_text s = slice (full (sr_hash s)) (sr_start s) (sr_end s).
Definition exact_hit (full : jstr → jstr) (h : SearchHit) : Prop :=
  (sh_start h <= sh_end h <= length (full (sh_hash h)))%nat ∧ sh_snippet h = slice (full (sh_hash h)) (sh_start h) (sh_end h).

Lemma slice_union (t : jstr) a b c d :
  (a <= c <= b)%nat → (b <= length t)%nat → (c <= d <= length t)%nat →
  slice t a b ++ drop (b - c) (slice t c d) = slice t a (Nat.max b d).
Proof.
  intros Hac Hb Hcd. unfold slice. destruct (decide (d <= b)%nat) as [Hd|Hd].
  - rewrite Nat.max_l by done. rewrite (drop_ge (take (d - c) (drop c t))), app_nil_r; [done|]. rewrite length_take. lia.
  - rewrite Nat.max_r by lia. rewrite skipn_firstn_comm, drop_drop. replace (c + (b - c))%nat with b by lia.
    replace (d - c - (b - c))%nat with (d - b)%nat by lia. replace (d - a)%nat with ((b - a) + (d - b))%nat by lia.
    rewrite <- take_take_drop, drop_drop. by replace (a + (b - a))%nat with b by lia.
Qed.

Lemma merge_hit_exact full h row :
  touches h row = true → exact_hit full h → exact_hit full row → exact_hit full (merge_hit h row).
Proof.
  unfold touches. rewrite !andb_true_iff, !Nat.leb_le, jeqb_eq. intros [[Eh H1] H2] [Hb1 Hs1] [Hb2 Hs2]. rewrite <- Eh in *.
  unfold merge_hit. destruct (Nat.leb_spec (sh_start h) (sh_start row)); split; cbn [sh_start sh_end sh_hash sh_snippet]; try lia;
    rewrite Hs1, Hs2, slice_union by lia; f_equal; lia.
Qed.

Lemma merge_row_all (P : SearchHit → Prop) merged row :
  (∀ h, touches h row = true → P h → P row → P (merge_hit h row)) → Forall P merged → P row → Forall P (merge_row merged row).
Proof.
  intros Hm H Hr. induction H as [|h r Hh Hr' IH]; cbn [merge_row]; [by constructor|].
  destruct (touches h row) eqn:E; constructor; auto.
Qed.

Lemma merged_all (P : SearchHit → Prop) rows :
  (∀ h row, touches h row = true → P h → P row → P (merge_hit h row)) → Forall P rows → Forall P (foldl merge_row [] rows).
Proof.
  intros Hm. assert (∀ acc, Forall P acc → Forall P rows → Forall P (foldl merge_row acc rows)) as H; [|by apply H].
  induction rows as [|row rows IH]; intros acc Ha Hr; [done|]. apply Forall_cons in Hr as [Hr Hrs]. apply IH; [|done].
  by apply merge_row_all; [intros h; apply Hm| |].
Qed.

Section SearchSpec.
Context (fts_match : list SegmentFtsRow → jstr → list (jstr * jnum)).

(** What the namespace may see: a hit of it is referenced from it. *)
Definition visible (db : IndexDb) (ns : Namespace) (h : SearchHit) : Prop :=
  sh_ns h = ns ∧ ∃ r, r ∈ ix_chunk_refs db ∧ cr_ns r = ns ∧ cr_hash r = sh_hash h.

Lemma search_rows_visible db ns expr : Forall (λ h, visible db ns h) (search_rows fts_match db ns expr).
Proof.
  apply Forall_forall. intros h Hh. unfold search_rows in Hh.
  apply list_elem_of_In, in_flat_map in Hh as (ranked & _ & Hh). apply in_flat_map in Hh as (s & _ & Hh).
  unfold namespace_ref in Hh. destruct (List.filter _ (ix_chunk_refs db)) as [|r rs] eqn:Er; [done|].
  destruct (foldl _ _ rs) as [t ro]. destruct Hh as [<-|[]]. split; [done|]. exists r.
  assert (r ∈ r :: rs) as Hr by (by left). rewrite <- Er in Hr. apply list_elem_of_In, filter_In in Hr as [Hr Hb].
  apply andb_true_iff in Hb as [Hn%bool_decide_eq_true Hh%jeqb_eq]. rewrite list_elem_of_In. done.
Qed.

Lemma search_rows_exact full db ns expr :
  Forall (exact_row full) (ix_segments db) → Forall (exact_hit full) (search_rows fts_match db ns expr).
Proof.
  intros Hrows. apply Forall_forall. intros h Hh. unfold search_rows in Hh.
  apply list_elem_of_In, in_flat_map in Hh as (ranked & _ & Hh). apply in_flat_map in Hh as (s & Hs & Hh).
  apply filter_In in Hs as [Hs _]. rewrite <- list_elem_of_In in Hs. rewrite Forall_forall in Hrows. specialize (Hrows s Hs).
  destruct (namespace_ref db ns (sr_hash s)) as [[t ro]|]; [|done]. by destruct Hh as [<-|[]].
Qed.

Lemma search_hits_visible db ns expr limit : Forall (λ h, visible db ns h) (searchChunks fts_match db ns expr limit).
Proof.
  apply Forall_take, merged_all; [|apply Forall_take, search_rows_visible].
  intros h row _ Hv _. unfold visible, merge_hit in *. by destruct (sh_start h <=? sh_start row)%nat.
Qed.

Lemma search_hits_ok full db ns expr limit :
  Forall (exact_row full) (ix_segments db) →
  Forall (λ h, exact_hit full h ∧ visible db ns h) (searchChunks fts_match db ns expr limit).
Proof.
  intros H. apply Forall_and. split; [|apply search_hits_visible].
  apply Forall_take, merged_all; [|by apply Forall_take, search_rows_exact]. intros h row. apply merge_hit_exact.
Qed.
End SearchSpec.

(** ** Writing keeps the index healthy *)

(** The structural probe of [ftsHealthy]; the integrity checks of the FTS5
    tables themselves are SQLite's. *)
Definition ftsHealthy (db : IndexDb) : bool :=
  (zlen (ix_inventory db) =? zlen (ix_chunks db))
  && forallb (λ hn : jstr * Z,
       (hn.2 =? zlen (List.filter (λ s, jeqb (sr_hash s) hn.1) (ix_segments db)))
       && (hn.2 =? zlen (List.filter (λ s, jeqb (sf_hash s) hn.1) (ix_segment_fts db)))) (ix_inventory db)
  && forallb (λ s, existsb (λ f, jeqb (sf_id f) (sr_id s)) (ix_segment_fts db)) (ix_segments db).

Record index_ok (db : IndexDb) : Prop := {
  io_inventory : omap_ok (ix_inventory db);
  io_chunks : NoDup (map ck_hash (ix_chunks db));
  io_same : ∀ h, h ∈ (ix_inventory db).*1 ↔ h ∈ map ck_hash (ix_chunks db);
  io_counts : ∀ h n, get h (ix_inventory db) = Some n →
    n = zlen (List.filter (λ s, jeqb (sr_hash s) h) (ix_segments db))
    ∧ n = zlen (List.filter (λ s, jeqb (sf_hash s) h) (ix_segment_fts db));
  io_rows : ∀ s, s ∈ ix_segments db → ∃ f, f ∈ ix_segment_fts db ∧ sf_id f = sr_id s ∧ sf_hash f = sr_hash s }.

Lemma filter_other {A} (key : A → jstr) h h' l :
  h ≠ h' → List.filter (λ s, jeqb (key s) h) (List.filter (λ s, negb (jeqb (key s) h')) l) = List.filter (λ s, jeqb (key s) h) l.
Proof.
  intros Hne. induction l as [|s l IH]; [done|]. cbn [List.filter]. destruct (jeqb (key s) h') eqn:E; cbn [negb List.filter]; [|by rewrite IH].
  apply jeqb_eq in E. rewrite E. assert (jeqb h' h = false) as -> by (apply jeqb_neq; congruence). done.
Qed.

Lemma filter_gone {A} (key : A → jstr) h l : List.filter (λ s, jeqb (key s) h) (List.filter (λ s, negb (jeqb (key s) h)) l) = [].
Proof.
  induction l as [|s l IH]; [done|]. cbn [List.filter]. destruct (jeqb (key s) h) eqn:E; cbn [negb List.filter]; [done|]. by rewrite E.
Qed.

Lemma filter_rows {A B} (key : A → jstr) (f : B → A) h h' l :
  (∀ b, key (f b) = h') → List.filter (λ s, jeqb (key s) h) (map f l) = if bool_decide (h' = h) then map f l else [].
Proof.
  intros Hk. induction l as [|b l IH]; [by case_bool_decide|]. cbn [map List.filter]. rewrite Hk, IH. case_bool_decide as Hh.
  - subst. by rewrite jeqb_refl.
  - by assert (jeqb h' h = false) as -> by (by apply jeqb_neq).
Qed.

Lemma filter_replaced {A B} (key : A → jstr) (f : B → A) h h' l (new : list B) :
  (∀ b, key (f b) = h') →
  List.filter (λ s, jeqb (key s) h) (List.filter (λ s, negb (jeqb (key s) h')) l ++ map f new)
  = if bool_decide (h' = h) then map f new else List.filter (λ s, jeqb (key s) h) l.
Proof.
  intros Hk. rewrite List.filter_app, (filter_rows _ _ _ _ _ Hk). case_bool_decide as Hh.
  - subst. by rewrite filter_gone.
  - by rewrite filter_other, app_nil_r by congruence.
Qed.

Lemma elem_of_lfilter {A} (p : A → bool) x l : x ∈ List.filter p l ↔ x ∈ l ∧ p x = true.
Proof. rewrite !list_elem_of_In. apply filter_In. Qed.

Lemma insertChunk_ok db c : index_ok db → index_ok (insertChunk db c).
Proof.
  intros [Hi Hc Hs Hn Hr]. unfold insertChunk. set (h := ci_contentHash c).
  set (segs := splitContent (default (ci_rawExcerpt c) (ci_fullText c))). split; cbn [ix_inventory ix_chunks ix_segments ix_segment_fts].
  - by apply set_ok.
  - rewrite map_app. apply NoDup_app. split_and!; [|intros x Hx|apply NoDup_singleton].
    + clear -Hc. induction (ix_chunks db) as [|k l IH]; [done|]. cbn [map] in Hc. apply NoDup_cons in Hc as [Hk Hc]. cbn [List.filter].
      case_test; [|auto]. cbn [map]. apply NoDup_cons. split; [|auto]. intros Hx. apply Hk.
      apply list_elem_of_fmap in Hx as (y & -> & Hy). apply elem_of_lfilter in Hy as [Hy _]. by apply list_elem_of_fmap_2.
    + apply list_elem_of_fmap in Hx as (y & -> & Hy). apply elem_of_lfilter in Hy as [_ Hy]. apply negb_true_iff, jeqb_neq in Hy.
      cbn [map ck_hash]. by rewrite list_elem_of_singleton.
  - intros x. rewrite map_app. cbn [map ck_hash]. assert (x ∈ (set_key h (zlen segs) (ix_inventory db)).*1 ↔ x = h ∨ x ∈ (ix_inventory db).*1) as ->.
    { rewrite keys_set. destruct (has h (ix_inventory db)) eqn:E; [|set_solver].
      unfold has in E. destruct (get h (ix_inventory db)) eqn:Eg; [|done]. apply get_elem in Eg. apply (list_elem_of_fmap_2 fst) in Eg. cbn in Eg. set_solver. }
    rewrite Hs, elem_of_app, list_elem_of_singleton. split.
    + intros [->|Hx]; [by right|]. destruct (decide (x = h)) as [->|Hne]; [by right|left].
      apply list_elem_of_fmap in Hx as (y & -> & Hy). apply list_elem_of_fmap_2, elem_of_lfilter. split; [done|]. by apply negb_true_iff, jeqb_neq.
    + intros [Hx|Hx]; [right|by left]. apply list_elem_of_fmap in Hx as (y & -> & Hy). apply elem_of_lfilter in Hy as [Hy _]. by apply list_elem_of_fmap_2.
  - intros x n Hx. rewrite !filter_replaced by done. destruct (decide (x = h)) as [->|Hne].
    + rewrite get_set_eq in Hx. injection Hx as <-. rewrite bool_decide_true by done. by rewrite !length_map.
    + rewrite get_set_ne in Hx by done. rewrite bool_decide_false by congruence. by apply Hn.
  - intros s [Hx|Hx]%elem_of_app.
    + apply elem_of_lfilter in Hx as [Hx Hne]. destruct (Hr s Hx) as (f & Hf & ? & Hh). exists f. split; [|done].
      apply elem_of_app. left. apply elem_of_lfilter. split; [done|]. by rewrite Hh.
    + apply list_elem_of_fmap in Hx as (sg & -> & Hsg). eexists. split; [|split].
      * apply elem_of_app. right. by apply list_elem_of_fmap_2.
      * done.
      * done.
Qed.

Lemma index_ok_healthy db : index_ok db → ftsHealthy db = true.
Proof.
  intros [Hi Hc Hs Hn Hr]. unfold ftsHealthy. rewrite !andb_true_iff. split_and!.
  - apply Z.eqb_eq. assert ((ix_inventory db).*1 ≡ₚ map ck_hash (ix_chunks db)) as Hp by (by apply NoDup_Permutation).
    apply Permutation_length in Hp. rewrite length_fmap, length_map in Hp. lia.
  - apply forallb_forall. intros [h n] Hin. rewrite <- list_elem_of_In in Hin. apply elem_get in Hin; [|done]. cbn [fst snd].
    destruct (Hn h n Hin) as [-> Heq]. rewrite andb_true_iff, !Z.eqb_eq. done.
  - apply forallb_forall. intros s Hin. rewrite <- list_elem_of_In in Hin. destruct (Hr s Hin) as (f & Hf & Hid & _).
    apply existsb_exists. exists f. rewrite <- list_elem_of_In. split; [done|]. by apply jeqb_eq.
Qed.

(** ** Query tokens *)

Lemma star_set_run rs n st st' :
  star_loop (rmatch (RSet false rs)) true Some n st = Some st' →
  ∃ t, m_rest st = t ++ m_rest st' ∧ Forall (λ c, in_ranges rs c = true) t.
Proof.
  revert st. induction n as [|n IH]; intros st; cbn [star_loop]; [intros [= ->]; by exists []|].
  rewrite rmatch_set. destruct (m_rest st) as [|c r] eqn:Er; cbn [or_else].
  { intros [= <-]. exists []. by rewrite Er. }
  change (xorb false (in_ranges rs c)) with (in_ranges rs c). destruct (in_ranges rs c) eqn:Ec; [|intros [= <-]; exists []; by rewrite Er].
  unfold consuming at 1. cbn [m_rest]. rewrite Er, bool_decide_true by (simpl; lia).
  destruct (star_loop (rmatch (RSet false rs)) true Some n _) as [st2|] eqn:Es; cbn [or_else].
  - intros [= <-]. apply IH in Es as (t & Ht & Hf). cbn [m_rest] in Ht. exists (c :: t). rewrite Ht. split; [done|by constructor].
  - intros [= <-]. exists []. by rewrite Er.
Qed.

(** A match of a class with [+] is a nonempty run of the class. *)
Lemma plus_match rs prev s st :
  match_at (RSeq (RSet false rs) (RStar true (RSet false rs))) prev s = Some st →
  ∃ t, s = t ++ m_rest st ∧ t ≠ [] ∧ Forall (λ c, in_ranges rs c = true) t.
Proof.
  unfold match_at. cbn [rmatch]. unfold step1. cbn [m_rest]. destruct s as [|c s]; [done|].
  change (xorb false (in_ranges rs c)) with (in_ranges rs c). destruct (in_ranges rs c) eqn:Ec; [|done].
  intros (t & Ht & Hf)%star_set_run. cbn [m_rest] in Ht. exists (c :: t). rewrite Ht. split_and!; [done|done|by constructor].
Qed.

Lemma match_all_texts (P : jstr → Prop) r :
  (∀ prev s st, match_at r prev s = Some st → P (take (length s - length (m_rest st)) s)) →
  ∀ s prev i skip m, m ∈ match_all_from r prev i s skip → P (rm_text m).
Proof.
  intros HP s. induction s as [|c s IH]; intros prev i skip m Hm; cbn [match_all_from] in Hm.
  - destruct skip; [|set_solver]. destruct (match_at r prev []) as [st|] eqn:E; [|set_solver].
    apply list_elem_of_singleton in Hm as ->. by apply (HP prev).
  - destruct skip as [|k]; [|by eapply IH]. destruct (match_at r prev (c :: s)) as [st|] eqn:E; [|by eapply IH].
    apply elem_of_cons in Hm as [->|Hm]; [by apply (HP prev)|by eapply IH].
Qed.

Lemma plus_match_texts rs s m :
  m ∈ match_all (RSeq (RSet false rs) (RStar true (RSet false rs))) s →
  rm_text m ≠ [] ∧ Forall (λ c, in_ranges rs c = true) (rm_text m).
Proof.
  apply (match_all_texts (λ t, t ≠ [] ∧ Forall (λ c, in_ranges rs c = true) t)). intros prev u st (t & -> & Hne & Hf)%plus_match.
  rewrite length_app. replace (length t + length (m_rest st) - length (m_rest st))%nat with (length t) by lia.
  by rewrite take_app_length.
Qed.

Lemma join_singletons_no_quote (l : list jstr) : Forall (λ x : jstr, 34 ∉ x) l → 34 ∉ join [32] l.
Proof.
  induction 1 as [|x l Hx Hl IH]; [cbn; set_solver|]. destruct l as [|y l]; [done|]. rewrite join_cons. set_solver.
Qed.

Lemma code_points_elem x s c : x ∈ code_points s → c ∈ x → c ∈ s.
Proof.
  intros Hx Hc. rewrite <- (concat_code_points s). apply list_elem_of_In, in_concat. exists x. by rewrite <- !list_elem_of_In.
Qed.

Lemma in_ranges_not_quote rs c : in_ranges rs 34 = false → in_ranges rs c = true → c ≠ 34.
Proof. intros H1 H2 ->. congruence. Qed.

(** ** Focusing a hit *)

(** [text.indexOf(term, from)] *)
Fixpoint index_from (term s : jstr) (i : nat) : option nat :=
  if starts_with term s then Some i else match s with [] => None | _ :: r => index_from term r (S i) end.
Definition indexOf (term text : jstr) (from : nat) : option nat := index_from term (drop from text) (Nat.min from (length text)).

Definition TERM_RE : regex :=
  Eval vm_compute in default never (parse_re false ([34] ++ js "([^" ++ [34] ++ js "]+)" ++ [34])).

Section Focus.
(** [String.prototype.toLowerCase]: full Unicode case mapping. *)
Context (toLowerCase : jstr → jstr).

(** The quoted terms of the match expression, spaces removed. *)
Definition focus_terms (query : jstr) : list jstr :=
  map (λ m, let term := rm_text m in toLowerCase (List.filter (λ c, negb (c =? 32)) (take (length term - 2) (drop 1 term))))
    (match buildMatchQuery query with Some expression => match_all TERM_RE expression | None => [] end).

Fixpoint term_positions (fuel : nat) (lower term : jstr) (position : option nat) : list nat :=
  match fuel, position with
  | S f, Some p => p :: term_positions f lower term (indexOf term lower (p + Nat.max 1 (length term)))
  | _, _ => []
  end.

Definition window_score (terms : list jstr) (window : jstr) : Z :=
  zsum (map (λ term, if includes term window then Z.min (zlen term) 32 else 0) terms).

(** The window of the best score, the first one on ties. *)
Definition best_step (snippet lower : jstr) (terms : list jstr) (maxChars : nat) (acc : nat * Z) (position : nat) : nat * Z :=
  let candidate := Z.to_nat (Z.max 0 (Z.min (zlen snippet - Z.of_nat maxChars) (Z.of_nat position - Z.of_nat (maxChars / 3)))) in
  let score := window_score terms (slice lower candidate (candidate + maxChars)) in
  if acc.2 <? score then (candidate, score) else acc.
Definition best_window (snippet lower : jstr) (terms : list jstr) (maxChars : nat) (positions : list nat) : nat :=
  (foldl (best_step snippet lower terms maxChars) (O, -1) positions).1.

Definition focusSearchHit (hit : SearchHit) (query : jstr) (maxChars : nat) : SearchHit :=
  let snippet := sh_snippet hit in
  if (length snippet <=? maxChars)%nat then hit
  else
    let terms := focus_terms query in
    let lower := toLowerCase snippet in
    let positions := flat_map (λ term, term_positions 32 lower term (indexOf term lower 0)) terms in
    let start := best_window snippet lower terms maxChars positions in
    let start := if low_at snippet start then S start else start in
    let e := Nat.min (length snippet) (start + maxChars) in
    let e := if low_at snippet e then (e - 1)%nat else e in
    mkHit (sh_score hit) (sh_hash hit) (sh_ns hit) (sh_turnIndex hit) (sh_role hit) (slice snippet start e) (sh_chunkId hit)
      (sh_start hit + start) (sh_start hit + e).
End Focus.

Lemma best_window_le snippet lower terms maxChars positions :
  (maxChars <= length snippet)%nat → (best_window snippet lower terms maxChars positions <= length snippet - maxChars)%nat.
Proof.
  intros Hm. unfold best_window.
  assert (∀ acc, (acc.1 <= length snippet - maxChars)%nat →
    ((foldl (best_step snippet lower terms maxChars) acc positions).1 <= length snippet - maxChars)%nat) as H; [|apply H; simpl; lia].
  induction positions as [|p ps IH]; intros acc Ha; [done|]. cbn [foldl]. apply IH. unfold best_step. case_test; [|done]. cbn [fst]. lia.
Qed.

Lemma slice_slice (t : jstr) a b c d : (c <= d)%nat → (a + d <= b)%nat → slice (slice t a b) c d = slice t (a + c) (a + d).
Proof.
  intros Hc Hd. unfold slice. rewrite skipn_firstn_comm, take_take, drop_drop. f_equal. lia.
Qed.

(** ** Properties *)

(** Segments cover the text.  The segments of a nonempty text are slices
    of at most 2048 units, the first at its start and the last at its end, each
    overlapping the next by 255 or 256 units; so every span of up to 256 units
    lies whole inside one segment and stays searchable; and no segment of
    well-formed text begins or ends inside a surrogate pair. *)
Theorem splitContent_covers text :
  (text ≠ [] → segments_from text 0 (splitContent text))
  ∧ (∀ a b, (a <= b <= length text)%nat → (b <= a + 256)%nat → text ≠ [] →
       ∃ s, s ∈ splitContent text ∧ (sg_start s <= a)%nat ∧ (b <= sg_end s)%nat)
  ∧ (wf_utf16 text = true → ∀ s, s ∈ splitContent text → low_at text (sg_start s) = false ∧ low_at text (sg_end s) = false).
Proof.
  split; [apply split_segments|]. split.
  - intros a b Hab Hspan Hne. apply (segments_span text 0); [by apply split_segments|lia|lia|done].
  - intros Hwf s. apply split_not_low; [done|]. destruct (low_at text 0) eqn:E; [|done].
    destruct (wf_lows text 0 Hwf E) as (q & ? & _). done.
Qed.

(** Search results are verbatim and isolated.  Writing a chunk keeps every
    segment row a slice of the stored text of its content hash.  Then, whatever
    rows the FTS5 engine ranks, every hit of [searchChunks], merged or not, is
    the exact slice its offsets name, belongs to content the namespace itself
    references, and there are at most [limit] hits. *)
Theorem searchChunks_verbatim fts_match full db c ns expr limit :
  Forall (exact_row full) (ix_segments db) →
  let text := default (ci_rawExcerpt c) (ci_fullText c) in
  let full' h := if jeqb h (ci_contentHash c) then text else full h in
  let db' := insertChunk db c in
  let hits := searchChunks fts_match db' ns expr limit in
  Forall (exact_row full') (ix_segments db')
  ∧ Forall (λ h, exact_hit full' h ∧ visible db' ns h) hits ∧ (length hits <= limit)%nat.
Proof.
  intros H text full' db' hits. assert (Forall (exact_row full') (ix_segments db')) as H'.
  { unfold db', insertChunk. cbn [ix_segments]. fold text. apply Forall_app. split; apply Forall_forall; intros s Hs.
    - apply elem_of_lfilter in Hs as [Hs Hne]. apply negb_true_iff in Hne. rewrite Forall_forall in H. specialize (H s Hs).
      unfold exact_row, full' in *. by rewrite Hne.
    - apply list_elem_of_fmap in Hs as (sg & -> & Hsg). unfold exact_row, full'. cbn [sr_hash sr_start sr_end sr_text]. rewrite jeqb_refl.
      destruct text as [|c0 t] eqn:Et; [cbn in Hsg; set_solver|]. rewrite <- Et in *.
      apply (segments_exact_from text 0) in Hsg as (? & ? & _); [done|]. apply split_segments. by rewrite Et. }
  split; [done|]. split; [by apply search_hits_ok|]. unfold hits, searchChunks. rewrite length_take. lia.
Qed.

(** Writing chunks keeps the index healthy.  Any sequence of [insertChunk]
    from the empty index, repeated hashes included, leaves one chunk row per
    content hash, an inventory that counts its segment and search rows, and an
    index that passes the structural probe of [ftsHealthy]. *)
Theorem insertChunk_healthy cs :
  let db := foldl insertChunk empty_index cs in
  ftsHealthy db = true ∧ NoDup (map ck_hash (ix_chunks db)) ∧ index_ok db.
Proof.
  intros db. assert (index_ok db) as H.
  { unfold db. assert (∀ d, index_ok d → index_ok (foldl insertChunk d cs)) as Hf.
    { induction cs as [|c cs' IH]; intros d Hd; [done|]. apply IH. by apply insertChunk_ok. }
    apply Hf. split; cbn; [constructor|constructor|set_solver|done|set_solver]. }
  split; [by apply index_ok_healthy|]. split; [apply H|done].
Qed.

(** A search expression cannot be injected.  Whatever the query text,
    [buildMatchQuery] gives nothing, or a space-separated list of quoted
    phrases none of which contains a quote or is empty, at most 32 of them
    ASCII words, all over letters, digits, underscore, CJK and the spaces put
    between CJK characters. *)
Theorem buildMatchQuery_safe query expr :
  buildMatchQuery query = Some expr →
  ∃ words cjks, expr = join [32] (map quoted (words ++ cjks)) ∧ (length words <= 32)%nat
    ∧ Forall (λ w : jstr, w ≠ [] ∧ Forall (λ c, is_word c = true) w) words
    ∧ Forall (λ w : jstr, 34 ∉ w) cjks.
Proof.
  unfold buildMatchQuery. case_test; [|done]. intros [= <-].
  exists (take 32 (List.filter (λ w, negb (existsb (jeqb w) QUERY_STOPWORDS)) (map (λ m, lower_run (rm_text m)) (match_all ASCII_RUN query)))),
    (map (λ m, join [32] (code_points (rm_text m))) (match_all CJK_RUN query)). split_and!.
  - unfold match_phrases. rewrite map_app, map_map. done.
  - rewrite length_take. lia.
  - apply Forall_take, Forall_forall. intros w Hw. apply elem_of_lfilter in Hw as [Hw _]. apply list_elem_of_fmap in Hw as (m & -> & Hm).
    apply plus_match_texts in Hm as [Hne Hf]. unfold lower_run. split; [by destruct (rm_text m)|]. apply Forall_map.
    eapply Forall_impl; [exact Hf|]. intros c Hc. cbn beta. unfold is_word, in_ranges, word_ranges in *. cbn [existsb] in *.
    rewrite !orb_true_iff, !andb_true_iff, !Z.leb_le in Hc. case_test; rewrite !orb_true_iff, !andb_true_iff, !Z.leb_le; bool_prop; [lia|].
    destruct Hc as [|[|[|[|]]]]; try done; lia.
  - apply Forall_map, Forall_forall. intros m Hm. apply plus_match_texts in Hm as [_ Hf]. apply join_singletons_no_quote, Forall_forall.
    intros x Hx Hq. rewrite Forall_forall in Hf. specialize (Hf 34 (code_points_elem x _ 34 Hx Hq)). done.
Qed.

(** A focused card stays verbatim.  For any case mapping and query,
    [focusSearchHit] of an exact hit is exact, is the hit itself or at most
    [maxChars] long and inside it, and does not cut a surrogate pair of
    well-formed text. *)
Theorem focusSearchHit_verbatim toLowerCase full hit query maxChars :
  exact_hit full hit → (2 <= maxChars)%nat →
  let f := focusSearchHit toLowerCase hit query maxChars in
  exact_hit full f ∧ sh_hash f = sh_hash hit ∧ (sh_start hit <= sh_start f)%nat ∧ (sh_end f <= sh_end hit)%nat
  ∧ (length (sh_snippet f) <= maxChars)%nat
  ∧ (wf_utf16 (sh_snippet hit) = true → (maxChars < length (sh_snippet hit))%nat →
     low_at (sh_snippet hit) (sh_start f - sh_start hit) = false ∧ low_at (sh_snippet hit) (sh_end f - sh_start hit) = false).
Proof.
  intros [Hb Hs] Hm f. assert (length (sh_snippet hit) = (sh_end hit - sh_start hit)%nat) as Hl by (rewrite Hs, length_slice; lia).
  unfold f, focusSearchHit. cbv zeta. destruct (Nat.leb_spec (length (sh_snippet hit)) maxChars) as [Hle|Hgt].
  { split_and!; try done; lia. }
  set (start0 := best_window _ _ _ _ _). assert (start0 <= length (sh_snippet hit) - maxChars)%nat as H0 by (apply best_window_le; lia).
  clearbody start0. set (start := if low_at (sh_snippet hit) start0 then S start0 else start0).
  assert (start0 <= start <= S start0)%nat as H1 by (unfold start; case_test; lia).
  set (e0 := Nat.min (length (sh_snippet hit)) (start + maxChars)). set (e := if low_at (sh_snippet hit) e0 then (e0 - 1)%nat else e0).
  assert (e0 - 1 <= e <= e0)%nat as H2 by (unfold e; case_test; lia).
  assert (start <= e)%nat as H3 by (unfold e0 in *; lia). assert (e <= length (sh_snippet hit))%nat as H4 by (unfold e0 in *; lia).
  cbn [sh_hash sh_start sh_end sh_snippet]. split_and!.
  - split; cbn [sh_hash sh_start sh_end sh_snippet]; [lia|]. rewrite Hs, slice_slice by lia. done.
  - done.
  - lia.
  - lia.
  - rewrite length_slice by done. unfold e0 in *. lia.
  - intros Hwf _. replace (sh_start hit + start - sh_start hit)%nat with start by lia. replace (sh_start hit + e - sh_start hit)%nat with e by lia.
    split; [unfold start|unfold e]; (case_test; [by apply not_low_after|done]).
Qed.

(** ** Witnesses *)

Definition demo_ns : Namespace := mkNs (js "p") (js "s").
Definition demo_chunk : InsertChunkInput :=
  mkChunkInput (Some (js "the parser failed on line 3")) (js "h1") demo_ns RUser 0 (js "hist") (js "user: parser") (js "the parser failed") (js "parser").
(** An engine that ranks every row. *)
Definition demo_match (rows : list SegmentFtsRow) (expr : jstr) : list (jstr * jnum) := map (λ r, (sf_id r, NInt 0)) rows.

Example demo_search :
  map sh_snippet (searchChunks demo_match (insertChunk empty_index demo_chunk) demo_ns (js "parser") 5) = [js "the parser failed on line 3"]
  ∧ searchChunks demo_match (insertChunk empty_index demo_chunk) (mkNs (js "p") (js "other")) (js "parser") 5 = [].
Proof. vm_compute. auto. Qed.

Lemma searchChunks_verbatim_witness :
  (length (searchChunks demo_match (insertChunk empty_index demo_chunk) demo_ns (js "parser") 5) <= 5)%nat.
Proof. apply (searchChunks_verbatim demo_match (λ _, []) empty_index demo_chunk demo_ns (js "parser") 5). constructor. Defined.

Lemma buildMatchQuery_safe_witness :
  ∃ words cjks, quoted (js "error_12") = join [32] (map quoted (words ++ cjks)) ∧ (length words <= 32)%nat
    ∧ Forall (λ w : jstr, w ≠ [] ∧ Forall (λ c, is_word c = true) w) words ∧ Forall (λ w : jstr, 34 ∉ w) cjks.
Proof. apply (buildMatchQuery_safe (js "What was ERROR_12?")). vm_compute. reflexivity. Defined.

Definition demo_hit : SearchHit := mkHit (NInt 0) (js "h1") demo_ns 0 RUser (js "abc needle def") (js "h1:0") 2 16.
Definition demo_full (h : jstr) : jstr := js "x abc needle def y".
Lemma focusSearchHit_verbatim_witness : exact_hit demo_full (focusSearchHit lower_run demo_hit (js "needle") 8).
Proof. apply (focusSearchHit_verbatim lower_run demo_full demo_hit (js "needle") 8); [split; [vm_compute; lia|vm_compute; reflexivity]|lia]. Defined.
