(* ===== verification/Store.v ===== *)
(** * The archive databases ([packages/headroomd/src/store/db.ts], [manifests.ts])

    [meta.db], the attribution ledger, and [index.db], everything derived
    (declared in [Fts]): their rows as lists in row order, the statements of the
    code as functions on them, the probe for a lost index, and the rebuild of
    the index from objects and ledger.  Opening and schema migration of the
    SQLite files are not modelled, except for the two backfill statements. *)

From stdpp Require Import base tactics list numbers option sets strings sorting.
From S2P Require Import Prelude JsString JsRegex Json Codec Ansi CLine OMap Chat Operations Summary Compaction Cas Objects History Fts.

(** ** Rows *)

Record CasMetaInput := mkMeta {
  cm_hash : jstr; cm_ns : Namespace; cm_role : Role; cm_turnIndex : Z; cm_msgSeq : Z; cm_historyHash : jstr; cm_createdAt : Z }.

Record CursorRow := mkCursor { cu_id : jstr; cu_ns : Namespace; cu_history : jstr; cu_frontier : HistoryFrontier; cu_createdAt : Z }.

(** [meta.db]: [cas_meta] by hash, [archive_refs] by namespace, history and
    sequence, the manifests with their children, the active views and the
    history cursors.  A plan column holds the JSON of the plan; it is kept as
    the plan. *)
Record MetaDb := mkMetaDb {
  md_cas_meta : list CasMetaInput;
  md_archive_refs : list CasMetaInput;
  md_manifests : list ((Namespace * jstr) * (HeadroomCompressResult * list jstr));
  md_views : list (Namespace * HeadroomCompressResult);
  md_cursors : list CursorRow }.
Definition empty_meta : MetaDb := mkMetaDb [] [] [] [] [].

Definition seq_key (r : CasMetaInput) : Namespace * jstr * Z := (cm_ns r, cm_historyHash r, cm_msgSeq r).
Definition group_key (r : CasMetaInput) : Namespace * jstr * jstr := (cm_ns r, cm_historyHash r, cm_hash r).

(** Number of distinct values, as [COUNT] over [DISTINCT] or [GROUP BY]. *)
Definition count_distinct {A} `{EqDecision A} (l : list A) : Z := zlen (remove_dups l).

(** ** The ledger *)

Definition set_refs (refs : list CasMetaInput) (meta : MetaDb) : MetaDb :=
  mkMetaDb (md_cas_meta meta) refs (md_manifests meta) (md_views meta) (md_cursors meta).

Definition insertCasMeta (meta : MetaDb) (row : CasMetaInput) : MetaDb :=
  mkMetaDb (insert_ignore cm_hash row (md_cas_meta meta)) (insert_ignore seq_key row (md_archive_refs meta))
    (md_manifests meta) (md_views meta) (md_cursors meta).

(** The compatibility backfill of [openMetaDb]. *)
Definition backfill_refs (meta : MetaDb) : MetaDb :=
  set_refs (foldl (λ refs row, insert_ignore seq_key row refs) (md_archive_refs meta) (md_cas_meta meta)) meta.

Definition countCasMeta (meta : MetaDb) : Z := zlen (md_cas_meta meta).
Definition countSessions (meta : MetaDb) : Z := count_distinct (map cm_ns (md_archive_refs meta)).
Definition countArchiveRefs (meta : MetaDb) : Z := count_distinct (map group_key (md_archive_refs meta)).

Definition ownsCasMeta (meta : MetaDb) (ns : Namespace) (hash : jstr) : bool :=
  existsb (λ r, bool_decide (cm_ns r = ns) && jeqb (cm_hash r) hash) (md_archive_refs meta).
Definition of_history (ns : Namespace) (historyHash : jstr) (r : CasMetaInput) : bool :=
  bool_decide (cm_ns r = ns) && jeqb (cm_historyHash r) historyHash.
Definition hasHistoryMeta (meta : MetaDb) (ns : Namespace) (historyHash : jstr) : bool :=
  existsb (of_history ns historyHash) (md_archive_refs meta).

Definition seq_cmp (a b : CasMetaInput) : Z := cm_msgSeq a - cm_msgSeq b.
Definition history_rows (meta : MetaDb) (ns : Namespace) (historyHash : jstr) : list CasMetaInput :=
  sort_by seq_cmp (List.filter (of_history ns historyHash) (md_archive_refs meta)).
Definition listHistoryMeta (meta : MetaDb) (ns : Namespace) (historyHash : jstr) (offset limit : nat) : list CasMetaInput :=
  take limit (drop offset (history_rows meta ns historyHash)).
Definition nextHistoryMeta (meta : MetaDb) (ns : Namespace) (historyHash : jstr) (nextSequence : Z) : option CasMetaInput :=
  head (List.filter (λ r, nextSequence <=? cm_msgSeq r) (history_rows meta ns historyHash)).

Definition linkHistoryMeta (meta : MetaDb) (ns : Namespace) (source target : jstr) : result jstr MetaDb :=
  throw_if negb (hasHistoryMeta meta ns source) with js "Candidate source archive is missing" in
  Ok (set_refs
        (foldl (λ refs r, insert_ignore seq_key
                   (mkMeta (cm_hash r) (cm_ns r) (cm_role r) (cm_turnIndex r) (cm_msgSeq r) target (cm_createdAt r)) refs)
           (md_archive_refs meta) (List.filter (of_history ns source) (md_archive_refs meta))) meta).

(** ** Manifests and views *)

Definition saveManifest (meta : MetaDb) (ns : Namespace) (plan : HeadroomCompressResult) (children : list jstr) : result jstr MetaDb :=
  match hr_compacted plan, hr_historyHash plan, hr_sourceDigests plan with
  | true, Some historyHash, Some _ =>
    throw_if zlen historyHash =? 0 with js "Only complete versioned plans can be published" in
    throw_if negb (headroomCompressResult_refine plan) with js "ZodError" in
    Ok (mkMetaDb (md_cas_meta meta) (md_archive_refs meta) (set_key (ns, historyHash) (plan, uniq children) (md_manifests meta))
          (md_views meta) (md_cursors meta))
  | _, _, _ => Throw (js "Only complete versioned plans can be published")
  end.
Definition getManifest (meta : MetaDb) (ns : Namespace) (hash : jstr) : option HeadroomCompressResult :=
  fst <$> get (ns, hash) (md_manifests meta).
Definition getView (meta : MetaDb) (ns : Namespace) : option HeadroomCompressResult := get ns (md_views meta).
Definition clearView (meta : MetaDb) (ns : Namespace) : MetaDb :=
  mkMetaDb (md_cas_meta meta) (md_archive_refs meta) (md_manifests meta) (delete_key ns (md_views meta)) (md_cursors meta).

(** ** The index *)

Definition upsertHistory (db : IndexDb) (row : HistoryRow) : IndexDb :=
  mkIndex (ix_segments db) (ix_segment_fts db) (ix_inventory db) (ix_chunks db) (ix_chunks_fts db) (ix_chunk_refs db)
    (insert_ignore hi_historyHash row (ix_histories db)) (ix_rebuild db).
Definition getHistory (db : IndexDb) (historyHash : jstr) : option HistoryRow :=
  List.find (λ r, jeqb (hi_historyHash r) historyHash) (ix_histories db).
Definition hasChunk (db : IndexDb) (contentHash : jstr) : bool := existsb (λ c, jeqb (ck_hash c) contentHash) (ix_chunks db).
Definition hasChunkRef (db : IndexDb) (ns : Namespace) (historyHash contentHash : jstr) : bool :=
  existsb (λ r, bool_decide (ref_key r = (ns, historyHash, contentHash))) (ix_chunk_refs db).
Definition countChunks (db : IndexDb) : Z := zlen (ix_chunks db).
Definition countChunkRefs (db : IndexDb) : Z := zlen (ix_chunk_refs db).

(** The backfill of [openIndexDb]. *)
Definition backfill_chunk_refs (db : IndexDb) : IndexDb :=
  mkIndex (ix_segments db) (ix_segment_fts db) (ix_inventory db) (ix_chunks db) (ix_chunks_fts db)
    (foldl (λ refs c, insert_ignore ref_key (mkChunkRef (ck_ns c) (ck_historyHash c) (ck_hash c) (ck_role c) (ck_turnIndex c)) refs)
       (ix_chunk_refs db) (ix_chunks db))
    (ix_histories db) (ix_rebuild db).

Definition indexLooksLost (index : IndexDb) (meta : MetaDb) : bool :=
  match ix_rebuild index with
  | [] => ((0 <? countCasMeta meta) && (countChunks index <? countCasMeta meta)) || (countChunkRefs index <? countArchiveRefs meta)
  | (expectedChunks, skipped) :: _ =>
    (countChunks index <? expectedChunks) || (countChunkRefs index + skipped <? countArchiveRefs meta)
  end.

(** ** Rebuild *)

(** SQLite compares text by its UTF-8 bytes. *)
Definition text_cmp (a b : jstr) : Z :=
  let a := utf8_encode a in let b := utf8_encode b in if jltb a b then -1 else if jltb b a then 1 else 0.
Definition row_cmp (a b : CasMetaInput) : Z :=
  let c1 := text_cmp (projectId (cm_ns a)) (projectId (cm_ns b)) in
  let c2 := text_cmp (sessionId (cm_ns a)) (sessionId (cm_ns b)) in
  let c3 := text_cmp (cm_historyHash a) (cm_historyHash b) in
  if negb (c1 =? 0) then c1 else if negb (c2 =? 0) then c2 else if negb (c3 =? 0) then c3 else seq_cmp a b.

Record Group := mkGroup { gr_ns : Namespace; gr_historyHash : jstr; gr_messages : list ChatMessage; gr_createdAt : Z }.

(** The index row of a message. *)
Definition chunk_of (hash : jstr) (ns : Namespace) (role : Role) (turnIndex : Z) (historyHash : jstr) (m : ChatMessage) : InsertChunkInput :=
  let summaryText := messageSummary m in
  let rawExcerpt := messageExcerpt m in
  mkChunkInput (Some (renderProjection m)) hash ns role turnIndex historyHash summaryText rawExcerpt
    (keywords (summaryText ++ [32] ++ rawExcerpt) 8).

Definition chunk_of_row (rm : CasMetaInput * ChatMessage) : InsertChunkInput :=
  chunk_of (cm_hash rm.1) (cm_ns rm.1) (cm_role rm.1) (cm_turnIndex rm.1) (cm_historyHash rm.1) rm.2.

Definition group_text (r : CasMetaInput) : jstr :=
  projectId (cm_ns r) ++ [32] ++ sessionId (cm_ns r) ++ [32] ++ cm_historyHash r.
Definition add_to_group (groups : list (jstr * Group)) (rm : CasMetaInput * ChatMessage) : list (jstr * Group) :=
  let key := group_text rm.1 in
  let group := default (mkGroup (cm_ns rm.1) (cm_historyHash rm.1) [] (cm_createdAt rm.1)) (get key groups) in
  set_key key (mkGroup (gr_ns group) (gr_historyHash group) (gr_messages group ++ [rm.2]) (gr_createdAt group)) groups.

Definition history_of (meta : MetaDb) (g : Group) : HistoryRow :=
  let turns := splitTurns (gr_messages g) in
  let summary := match getManifest meta (gr_ns g) (gr_historyHash g) ≫= hr_summary with
                 | Some s => s
                 | None => historySummary turns
                 end in
  mkHistory (gr_historyHash g) (gr_ns g) summary (zsum (map messageTokens (gr_messages g))) (estimateTokens summary) (gr_createdAt g).

Section Rebuild.
(** Reading an object, and the security check, of a message and of the rows. *)
Context (read : jstr → result jstr (option ChatMessage)) (inspect : ChatMessage → bool)
  (inspect_writes : list InsertChunkInput → list HistoryRow → bool).

(** The rows whose object reads, with it, and the keys of the others. *)
Definition resolve_row (acc : list (CasMetaInput * ChatMessage) * list (Namespace * jstr * jstr)) (row : CasMetaInput) :
    list (CasMetaInput * ChatMessage) * list (Namespace * jstr * jstr) :=
  match read (cm_hash row) with
  | Ok (Some m) => if inspect m then (acc.1 ++ [(row, m)], acc.2) else (acc.1, acc.2 ++ [group_key row])
  | _ => (acc.1, acc.2 ++ [group_key row])
  end.
Definition resolve_rows (meta : MetaDb) : list (CasMetaInput * ChatMessage) * list (Namespace * jstr * jstr) :=
  foldl resolve_row ([], []) (sort_by row_cmp (md_archive_refs meta)).

Record RebuildCounts := mkRebuilt { rb_chunks : Z; rb_histories : Z; rb_skipped : Z }.

Definition rebuildFromObjects (meta : MetaDb) (index : IndexDb) : result jstr (IndexDb * RebuildCounts) :=
  let '(resolved, skippedRefs) := resolve_rows meta in
  let skipped := count_distinct skippedRefs in
  let chunkWrites := map chunk_of_row resolved in
  let groups := foldl add_to_group [] resolved in
  let historyWrites := map (history_of meta) groups.*2 in
  throw_if negb (inspect_writes chunkWrites historyWrites) with js "SecurityError" in
  let expectedChunks := count_distinct (map ci_contentHash chunkWrites) in
  let cleared := mkIndex [] [] [] [] [] [] [] (ix_rebuild index) in
  let written := foldl upsertHistory (foldl insertChunk cleared chunkWrites) historyWrites in
  Ok (mkIndex (ix_segments written) (ix_segment_fts written) (ix_inventory written) (ix_chunks written) (ix_chunks_fts written)
     (ix_chunk_refs written) (ix_histories written) [(expectedChunks, skipped)],
      mkRebuilt expectedChunks (zlen historyWrites) skipped).
End Rebuild.

(** ** [INSERT OR IGNORE] *)

Section InsertIgnore.
Context {A K : Type} `{EqDecision K} (key : A → K).

Lemma insert_ignore_keys row table : map key (insert_ignore key row table)
  = if bool_decide (key row ∈ map key table) then map key table else map key table ++ [key row].
Proof.
  unfold insert_ignore. destruct (existsb _ table) eqn:E.
  - apply existsb_exists in E as (r & Hr & Hk%bool_decide_eq_true). rewrite bool_decide_true; [done|].
    rewrite <- Hk. apply list_elem_of_fmap_2. by apply list_elem_of_In.
  - rewrite bool_decide_false; [by rewrite map_app|]. intros (r & Hk & Hr)%list_elem_of_fmap. apply not_true_iff_false in E. apply E.
    apply existsb_exists. exists r. split; [by apply list_elem_of_In|]. by apply bool_decide_eq_true.
Qed.

Lemma insert_ignore_has row table k : k ∈ map key (insert_ignore key row table) ↔ k ∈ map key table ∨ k = key row.
Proof.
  rewrite insert_ignore_keys. case_bool_decide as H; [|set_solver]. split; [by left|]. intros [?| ->]; done.
Qed.

Lemma insert_ignore_nodup row table : NoDup (map key table) → NoDup (map key (insert_ignore key row table)).
Proof.
  intros H. rewrite insert_ignore_keys. case_bool_decide; [done|]. apply NoDup_app. split_and!; [done|set_solver|apply NoDup_singleton].
Qed.

Lemma insert_ignore_elem row table x :
  x ∈ insert_ignore key row table ↔ x ∈ table ∨ (x = row ∧ key row ∉ map key table).
Proof.
  unfold insert_ignore. destruct (existsb _ table) eqn:E.
  - apply existsb_exists in E as (r & Hr & Hk%bool_decide_eq_true). split; [by left|]. intros [?|[_ Hn]]; [done|]. exfalso. apply Hn.
    rewrite <- Hk. apply list_elem_of_fmap_2. by apply list_elem_of_In.
  - rewrite elem_of_app, list_elem_of_singleton. split; intros [?|Hx]; [by left| |by left|by right; apply Hx]. right. split; [done|].
    intros (r & Hk & Hr)%list_elem_of_fmap. apply not_true_iff_false in E. apply E.
    apply existsb_exists. exists r. split; [by apply list_elem_of_In|]. by apply bool_decide_eq_true.
Qed.

Lemma insert_ignore_fold_has rows table k :
  k ∈ map key (foldl (λ t r, insert_ignore key r t) table rows) ↔ k ∈ map key table ∨ k ∈ map key rows.
Proof.
  revert table. induction rows as [|r rows IH]; intros table; [set_solver|]. cbn [foldl map]. rewrite IH, insert_ignore_has. set_solver.
Qed.
End InsertIgnore.

(** ** What the writes leave *)

Lemma insertChunk_hashes db c h :
  h ∈ map ck_hash (ix_chunks (insertChunk db c)) ↔ h ∈ map ck_hash (ix_chunks db) ∨ h = ci_contentHash c.
Proof.
  unfold insertChunk. cbn [ix_chunks]. rewrite map_app, elem_of_app. cbn [map ck_hash]. rewrite list_elem_of_singleton. split.
  - intros [Hx|Hx]; [left|by right]. apply list_elem_of_fmap in Hx as (y & -> & Hy). apply elem_of_lfilter in Hy as [Hy _].
    by apply list_elem_of_fmap_2.
  - intros [Hx|Hx]; [|by right]. destruct (decide (h = ci_contentHash c)) as [->|Hne]; [by right|left].
    apply list_elem_of_fmap in Hx as (y & -> & Hy). apply list_elem_of_fmap_2, elem_of_lfilter. split; [done|]. by apply negb_true_iff, jeqb_neq.
Qed.

Definition input_ref (c : InsertChunkInput) : ChunkRef :=
  mkChunkRef (ci_ns c) (ci_historyHash c) (ci_contentHash c) (ci_role c) (ci_turnIndex c).
Definition input_key (c : InsertChunkInput) : Namespace * jstr * jstr := (ci_ns c, ci_historyHash c, ci_contentHash c).

(** The state of the index after writing chunks on a healthy one. *)
Record chunks_written (db0 : IndexDb) (cs : list InsertChunkInput) (db : IndexDb) : Prop := {
  cw_ok : index_ok db;
  cw_hashes : ∀ h, h ∈ map ck_hash (ix_chunks db) ↔ h ∈ map ck_hash (ix_chunks db0) ∨ h ∈ map ci_contentHash cs;
  cw_refs : ∀ k, k ∈ map ref_key (ix_chunk_refs db) ↔ k ∈ map ref_key (ix_chunk_refs db0) ∨ k ∈ map input_key cs;
  cw_nodup : NoDup (map ref_key (ix_chunk_refs db));
  cw_histories : ix_histories db = ix_histories db0;
  cw_rebuild : ix_rebuild db = ix_rebuild db0 }.

Lemma insertChunks_written db0 cs :
  index_ok db0 → NoDup (map ref_key (ix_chunk_refs db0)) → chunks_written db0 cs (foldl insertChunk db0 cs).
Proof.
  intros Hok Hd. induction cs as [|c cs IH] using rev_ind; [split; (done || set_solver)|].
  rewrite foldl_snoc. destruct IH as [H1 H2 H3 H4 H5 H6]. split.
  - by apply insertChunk_ok.
  - intros h. rewrite insertChunk_hashes, H2, map_app. set_solver.
  - intros k. cbn [insertChunk ix_chunk_refs]. rewrite insert_ignore_has, H3, map_app.
    change (ref_key _) with (input_key c). set_solver.
  - cbn [insertChunk ix_chunk_refs]. by apply insert_ignore_nodup.
  - done.
  - done.
Qed.

Lemma cleared_ok rebuild : index_ok (mkIndex [] [] [] [] [] [] [] rebuild).
Proof. split; cbn; [constructor|constructor|set_solver|done|set_solver]. Qed.

Lemma upserts_keep db rows :
  let db' := foldl upsertHistory db rows in
  ix_chunks db' = ix_chunks db ∧ ix_chunk_refs db' = ix_chunk_refs db ∧ ix_segments db' = ix_segments db
  ∧ ix_segment_fts db' = ix_segment_fts db ∧ ix_inventory db' = ix_inventory db.
Proof. revert db. induction rows as [|r rows IH]; intros db; [done|]. cbn [foldl]. apply (IH (upsertHistory db r)). Qed.

Lemma count_distinct_same {A} `{EqDecision A} (l l' : list A) :
  NoDup l → (∀ x, x ∈ l ↔ x ∈ l') → zlen l = count_distinct l'.
Proof.
  intros Hl He. unfold count_distinct. f_equal. apply Permutation_length, NoDup_Permutation; [done|apply NoDup_remove_dups|].
  intros x. by rewrite elem_of_remove_dups.
Qed.

Lemma count_distinct_le {A} `{EqDecision A} (l a b : list A) :
  (∀ x, x ∈ l → x ∈ a ∨ x ∈ b) → count_distinct l <= zlen a + count_distinct b.
Proof.
  intros H. unfold count_distinct. rewrite <- zlen_app. apply inj_le. apply submseteq_length, NoDup_submseteq; [apply NoDup_remove_dups|].
  intros x Hx. apply elem_of_remove_dups, H in Hx. rewrite elem_of_app, elem_of_remove_dups. done.
Qed.

(** ** The rows a rebuild resolves *)

Record rows_resolved (read : jstr → result jstr (option ChatMessage)) (inspect : ChatMessage → bool) (rows : list CasMetaInput)
    (acc : list (CasMetaInput * ChatMessage) * list (Namespace * jstr * jstr)) : Prop := {
  rs_sound : ∀ row m, (row, m) ∈ acc.1 → row ∈ rows ∧ read (cm_hash row) = Ok (Some m) ∧ inspect m = true;
  rs_complete : ∀ row m, row ∈ rows → read (cm_hash row) = Ok (Some m) → inspect m = true → (row, m) ∈ acc.1;
  rs_skipped : ∀ row, row ∈ rows → (∃ m, (row, m) ∈ acc.1) ∨ group_key row ∈ acc.2 }.

Lemma resolve_fold read inspect rows : rows_resolved read inspect rows (foldl (resolve_row read inspect) ([], []) rows).
Proof.
  induction rows as [|row rows [H1 H2 H3]] using rev_ind; [split; set_solver|]. rewrite foldl_snoc.
  set (acc := foldl (resolve_row read inspect) ([], []) rows) in *. unfold resolve_row.
  destruct (read (cm_hash row)) as [[m|]|] eqn:Er; [destruct (inspect m) eqn:Ei|..]; (split; cbn [fst snd]).
  all: try (intros r m' Hr; rewrite ?elem_of_app, ?list_elem_of_singleton in Hr).
  all: try (intros r Hr; rewrite elem_of_app, list_elem_of_singleton in Hr).
  - destruct Hr as [Hr|[= -> ->]]; [apply H1 in Hr as (? & ? & ?)|]; set_solver.
  - intros Hread Hi. destruct Hr as [Hr| ->]; rewrite elem_of_app; [left; by apply H2|right]. rewrite Er in Hread. injection Hread as ->. by left.
  - destruct Hr as [Hr| ->]; [|left; exists m; set_solver]. destruct (H3 r Hr) as [[m' ?]|?]; [left; exists m'; set_solver|by right].
  - apply H1 in Hr as (? & ? & ?). set_solver.
  - intros Hread Hi. destruct Hr as [Hr| ->]; [by apply H2|congruence].
  - destruct Hr as [Hr| ->]; [|right; set_solver]. destruct (H3 r Hr) as [?|?]; [by left|right; set_solver].
  - apply H1 in Hr as (? & ? & ?). set_solver.
  - intros Hread Hi. destruct Hr as [Hr| ->]; [by apply H2|congruence].
  - destruct Hr as [Hr| ->]; [|right; set_solver]. destruct (H3 r Hr) as [?|?]; [by left|right; set_solver].
  - apply H1 in Hr as (? & ? & ?). set_solver.
  - intros Hread Hi. destruct Hr as [Hr| ->]; [by apply H2|congruence].
  - destruct Hr as [Hr| ->]; [|right; set_solver]. destruct (H3 r Hr) as [?|?]; [by left|right; set_solver].
Qed.

Lemma resolve_rows_spec read inspect meta : rows_resolved read inspect (md_archive_refs meta) (resolve_rows read inspect meta).
Proof.
  unfold resolve_rows. pose proof (sort_by_perm row_cmp (md_archive_refs meta)) as Hp.
  destruct (resolve_fold read inspect (sort_by row_cmp (md_archive_refs meta))) as [H1 H2 H3]. split.
  - intros row m Hr. rewrite <- Hp. by apply H1.
  - intros row m Hr. rewrite <- Hp in Hr. by apply H2.
  - intros row Hr. rewrite <- Hp in Hr. by apply H3.
Qed.

(** ** Isolation of the ledger *)

Lemma filter_insert_other ns h row refs :
  cm_ns row ≠ ns → List.filter (of_history ns h) (insert_ignore seq_key row refs) = List.filter (of_history ns h) refs.
Proof.
  intros Hne. unfold insert_ignore. case_test; [done|]. rewrite List.filter_app. cbn [List.filter].
  assert (of_history ns h row = false) as -> by (unfold of_history; by rewrite bool_decide_false). by rewrite app_nil_r.
Qed.

Lemma existsb_insert_other (p : CasMetaInput → bool) row refs :
  p row = false → existsb p (insert_ignore seq_key row refs) = existsb p refs.
Proof. intros H. unfold insert_ignore. case_test; [done|]. rewrite existsb_app. cbn. by rewrite H, !orb_false_r. Qed.

(** ** Properties *)

(** A rebuild converges.  Whatever objects are missing, corrupt or
    refused, and whatever the old index held, a rebuild that returns leaves an
    index that is not taken for lost again, passes the structural probe, has
    one chunk row per content hash, and keeps that row count as its recorded
    expectation. *)
Theorem rebuild_converges read inspect inspect_writes meta index index' counts :
  rebuildFromObjects read inspect inspect_writes meta index = Ok (index', counts) →
  indexLooksLost index' meta = false ∧ ftsHealthy index' = true
  ∧ countChunks index' = rb_chunks counts ∧ ix_rebuild index' = [(rb_chunks counts, rb_skipped counts)].
Proof.
  unfold rebuildFromObjects. pose proof (resolve_rows_spec read inspect meta) as [_ _ Hskip].
  destruct (resolve_rows read inspect meta) as [resolved skippedRefs]. cbn [fst snd] in Hskip. cbv zeta. case_test; [done|]. intros [= <- <-].
  set (chunkWrites := map chunk_of_row resolved). set (historyWrites := map (history_of meta) _).
  set (cleared := mkIndex [] [] [] [] [] [] [] (ix_rebuild index)).
  destruct (insertChunks_written cleared chunkWrites (cleared_ok _) (NoDup_nil_2)) as [Hok Hh Hr Hd _ _].
  destruct (upserts_keep (foldl insertChunk cleared chunkWrites) historyWrites) as (E1 & E2 & E3 & E4 & E5).
  set (written := foldl upsertHistory (foldl insertChunk cleared chunkWrites) historyWrites) in *. cbn [rb_chunks rb_skipped ix_rebuild].
  assert (countChunks written = count_distinct (map ci_contentHash chunkWrites)) as Hc.
  { unfold countChunks. rewrite E1, <- (length_map ck_hash). apply count_distinct_same; [apply Hok|]. intros h. rewrite Hh. set_solver. }
  split_and!; [|apply index_ok_healthy; destruct Hok as [K1 K2 K3 K4 K5]; split; cbn; rewrite ?E1, ?E2, ?E3, ?E4, ?E5; done|done|done].
  unfold indexLooksLost. cbn [ix_rebuild]. apply orb_false_iff. split; apply Z.ltb_ge.
  - unfold countChunks in *. cbn [ix_chunks]. fold chunkWrites. lia.
  - unfold countChunkRefs. cbn [ix_chunk_refs]. rewrite E2, <- (length_map ref_key). apply count_distinct_le. intros k Hk.
    apply list_elem_of_fmap in Hk as (row & -> & Hrow). destruct (Hskip row Hrow) as [[m Hm]|?]; [left|by right].
    apply Hr. right. apply list_elem_of_fmap. exists (chunk_of_row (row, m)). split; [done|]. by apply list_elem_of_fmap_2.
Qed.

(** A rebuild indexes exactly what can be read.  After a rebuild, every
    ledger row whose object reads and passes inspection has its chunk row and
    its reference, and every chunk row and reference comes from such a row. *)
Theorem rebuild_exact read inspect inspect_writes meta index index' counts :
  rebuildFromObjects read inspect inspect_writes meta index = Ok (index', counts) →
  (∀ row m, row ∈ md_archive_refs meta → read (cm_hash row) = Ok (Some m) → inspect m = true →
     cm_hash row ∈ map ck_hash (ix_chunks index') ∧ group_key row ∈ map ref_key (ix_chunk_refs index'))
  ∧ (∀ h, h ∈ map ck_hash (ix_chunks index') → ∃ row m, row ∈ md_archive_refs meta ∧ cm_hash row = h ∧ read h = Ok (Some m))
  ∧ (∀ k, k ∈ map ref_key (ix_chunk_refs index') → ∃ row m, row ∈ md_archive_refs meta ∧ group_key row = k ∧ read (cm_hash row) = Ok (Some m)).
Proof.
  unfold rebuildFromObjects. pose proof (resolve_rows_spec read inspect meta) as [Hs Hc _].
  destruct (resolve_rows read inspect meta) as [resolved skippedRefs]. cbn [fst snd] in Hs, Hc. cbv zeta. case_test; [done|]. intros [= <- _].
  set (chunkWrites := map chunk_of_row resolved). set (historyWrites := map (history_of meta) _).
  set (cleared := mkIndex [] [] [] [] [] [] [] (ix_rebuild index)).
  destruct (insertChunks_written cleared chunkWrites (cleared_ok _) (NoDup_nil_2)) as [_ Hh Hr _ _ _].
  destruct (upserts_keep (foldl insertChunk cleared chunkWrites) historyWrites) as (E1 & E2 & _).
  cbn [ix_chunks ix_chunk_refs]. rewrite E1, E2. split_and!.
  - intros row m Hrow Hread Hi. specialize (Hc row m Hrow Hread Hi). apply (list_elem_of_fmap_2 chunk_of_row) in Hc. fold chunkWrites in Hc.
    rewrite Hh, Hr. split; right.
    + by apply (list_elem_of_fmap_2 ci_contentHash) in Hc.
    + by apply (list_elem_of_fmap_2 input_key) in Hc.
  - intros h [H0|H]%Hh; [cbn in H0; set_solver|]. apply list_elem_of_fmap in H as (c & -> & H). apply list_elem_of_fmap in H as ([row m] & -> & H).
    apply Hs in H as (? & ? & _). by exists row, m.
  - intros k [H0|H]%Hr; [cbn in H0; set_solver|]. apply list_elem_of_fmap in H as (c & -> & H). apply list_elem_of_fmap in H as ([row m] & -> & H).
    apply Hs in H as (? & ? & _). by exists row, m.
Qed.

(** Namespaces are isolated.  Recording an attribution in one namespace
    changes nothing another namespace can ask of the ledger: what it owns,
    which histories it has, their pages and their next rows. *)
Theorem ledger_isolated meta row ns hash history offset limit seq :
  cm_ns row ≠ ns →
  let meta' := insertCasMeta meta row in
  ownsCasMeta meta' ns hash = ownsCasMeta meta ns hash ∧ hasHistoryMeta meta' ns history = hasHistoryMeta meta ns history
  ∧ listHistoryMeta meta' ns history offset limit = listHistoryMeta meta ns history offset limit
  ∧ nextHistoryMeta meta' ns history seq = nextHistoryMeta meta ns history seq.
Proof.
  intros Hne meta'. unfold ownsCasMeta, hasHistoryMeta, listHistoryMeta, nextHistoryMeta, history_rows, meta', insertCasMeta.
  cbn [md_archive_refs]. rewrite !existsb_insert_other, !filter_insert_other; try done.
  - unfold of_history. by rewrite bool_decide_false.
  - by rewrite bool_decide_false.
Qed.

Definition demo_meta_row : CasMetaInput := mkMeta (js "h1") demo_ns RUser 0 0 (js "hist") 7.
Definition demo_meta : MetaDb := insertCasMeta empty_meta demo_meta_row.
Definition demo_read (h : jstr) : result jstr (option ChatMessage) := Ok (Some (user_text (js "u1") (js "Fix the parser."))).
Definition demo_rebuilt : IndexDb :=
  match rebuildFromObjects demo_read (λ _, true) (λ _ _, true) demo_meta empty_index with Ok r => r.1 | Throw _ => empty_index end.
Lemma demo_rebuild : rebuildFromObjects demo_read (λ _, true) (λ _ _, true) demo_meta empty_index = Ok (demo_rebuilt, mkRebuilt 1 1 0).
Proof. vm_compute. reflexivity. Qed.

Lemma rebuild_converges_witness : indexLooksLost demo_rebuilt demo_meta = false.
Proof. apply (rebuild_converges demo_read (λ _, true) (λ _ _, true) demo_meta empty_index demo_rebuilt (mkRebuilt 1 1 0) demo_rebuild). Defined.

Lemma rebuild_exact_witness : js "h1" ∈ map ck_hash (ix_chunks demo_rebuilt).
Proof.
  destruct (rebuild_exact demo_read (λ _, true) (λ _ _, true) demo_meta empty_index demo_rebuilt (mkRebuilt 1 1 0) demo_rebuild) as [H _].
  apply (H demo_meta_row (user_text (js "u1") (js "Fix the parser."))); [by left|reflexivity|reflexivity].
Defined.

Lemma ledger_isolated_witness : ownsCasMeta (insertCasMeta empty_meta demo_meta_row) (mkNs (js "p") (js "t")) (js "h1") = false.
Proof. apply (ledger_isolated empty_meta demo_meta_row (mkNs (js "p") (js "t")) (js "h1") [] 0 0 0). decide_now. Defined.
