(* ===== verification/Archive.v ===== *)
(** * Archiving a plan ([packages/headroomd/src/engine.ts], [compress], [persistArchive], [backfill])

    The store of one daemon is its object files, [meta.db] and [index.db].
    [persistArchive] is a list of effects, each atomic on disk (an object
    publication, a transaction, a statement); a crash leaves the effect of a
    prefix.  Time, temporary names, the bytes in use on disk and the security
    checks are inputs. *)

From stdpp Require Import base tactics list numbers option sets strings sorting.
From S2P Require Import Prelude JsString JsRegex Json Codec CLine OMap Chat Operations Summary Compaction Compress Cas Objects Fts Store.

Record ArchiveStore := mkStore { as_files : fs; as_meta : MetaDb; as_index : IndexDb }.

Inductive Effect : Type :=
| EObject (m : ChatMessage) (hash uuid : jstr)      (** publish one object *)
| EMeta (rows : list CasMetaInput)                  (** one transaction on [meta.db] *)
| EIndex (chunks : list InsertChunkInput) (history : option HistoryRow)   (** one transaction on [index.db] *)
| EHistory (history : HistoryRow).                  (** one statement on [index.db] *)

Section Persist.
Context (sha256Hex : jstr → jstr) (gzip : bytes → bytes) (dataDir : jstr).

Definition run_effect (st : ArchiveStore) (e : Effect) : ArchiveStore * result jstr unit :=
  match e with
  | EObject m hash uuid =>
    let '(files, r) := writeMessageObject sha256Hex gzip (as_files st) dataDir m hash uuid in
    (mkStore files (as_meta st) (as_index st), let! _ := r in Ok tt)
  | EMeta rows => (mkStore (as_files st) (foldl insertCasMeta (as_meta st) rows) (as_index st), Ok tt)
  | EIndex chunks history =>
    let index := foldl insertChunk (as_index st) chunks in
    (mkStore (as_files st) (as_meta st) (match history with Some h => upsertHistory index h | None => index end), Ok tt)
  | EHistory h => (mkStore (as_files st) (as_meta st) (upsertHistory (as_index st) h), Ok tt)
  end.

(** The effects in order, up to the first that throws. *)
Fixpoint run_effects (st : ArchiveStore) (es : list Effect) : ArchiveStore * result jstr unit :=
  match es with
  | [] => (st, Ok tt)
  | e :: r => match run_effect st e with
              | (st', Ok _) => run_effects st' r
              | (st', Throw x) => (st', Throw x)
              end
  end.

(** The effects of [writeMessageObject] over the messages of a plan. *)
Definition object_effects (plan : ArchivePlan) (uuid : nat → jstr) : list Effect :=
  imap (λ i mh, EObject mh.1 mh.2 (uuid i)) (zip (ap_messages plan) (ap_hashes plan)).

Definition insertCasMetaRows (plan : ArchivePlan) (ns : Namespace) (createdAt : Z) : list CasMetaInput :=
  let seqBase := match ap_turns plan with t :: _ => t_startMsgIndex t | [] => 0 end in
  imap (λ i mh, mkMeta mh.2 ns (m_role mh.1) (turnIndexOf (ap_turns plan) (Z.of_nat i)) (seqBase + Z.of_nat i) (ap_historyHash plan) createdAt)
    (zip (ap_messages plan) (ap_hashes plan)).

Definition chunkInputs (plan : ArchivePlan) (ns : Namespace) : list InsertChunkInput :=
  imap (λ i mh, chunk_of mh.2 ns (m_role mh.1) (turnIndexOf (ap_turns plan) (Z.of_nat i)) (ap_historyHash plan) mh.1)
    (zip (ap_messages plan) (ap_hashes plan)).

Definition history_row (plan : ArchivePlan) (ns : Namespace) (rawTokens createdAt : Z) : HistoryRow :=
  mkHistory (ap_historyHash plan) ns (ap_summary plan) rawTokens (ap_summaryTokens plan) createdAt.

(** The effects of [backfill]. *)
Definition backfill_effects (plan : ArchivePlan) (ns : Namespace) (createdAt : Z) (uuid : nat → jstr) : list Effect :=
  object_effects plan uuid ++ [EMeta (insertCasMetaRows plan ns createdAt); EIndex (chunkInputs plan ns) None].

Definition persist_effects (index : IndexDb) (plan : ArchivePlan) (ns : Namespace) (rawTokens createdAt : Z) (uuid : nat → jstr) :
    list Effect :=
  match getHistory index (ap_historyHash plan) with
  | Some _ => backfill_effects plan ns createdAt uuid ++ [EHistory (history_row plan ns rawTokens createdAt)]
  | None =>
    object_effects plan uuid
    ++ [EMeta (insertCasMetaRows plan ns createdAt);
        EIndex (chunkInputs plan ns) (Some (history_row plan ns rawTokens createdAt))]
  end.

(** What the security checks assert. *)
Context (assert_plan : ArchivePlan → list InsertChunkInput → bool) (assert_result : HeadroomCompressResult → bool).

Definition persistArchive (st : ArchiveStore) (ns : Namespace) (plan : ArchivePlan) (rawTokens createdAt : Z) (uuid : nat → jstr) :
    ArchiveStore * result jstr unit :=
  if negb (assert_plan plan (chunkInputs plan ns)) then (st, Throw (js "SecurityError"))
  else run_effects st (persist_effects (as_index st) plan ns rawTokens createdAt uuid).

(** [children] of a manifest: the archives the messages replace. *)
Definition archive_children (messages : list ChatMessage) : list jstr :=
  flat_map (λ m, match m_archive m with Some a => [ar_historyHash a] | None => [] end) messages.

Definition storage_reserve (messages : list ChatMessage) : Z :=
  byte_length (stringify (JArr (map json_of_message messages))) * 16 + 256 * 1024.

Definition compress (st : ArchiveStore) (params : CompressParams) (storageBytes maxStorageBytes createdAt : Z) (uuid : nat → jstr) :
    ArchiveStore * result jstr HeadroomCompressResult :=
  match compress_plan sha256Hex params with
  | (r, None) => (st, Ok r)
  | (r, Some plan) =>
    if negb (hasHistoryMeta (as_meta st) (cp_ns params) (ap_historyHash plan))
       && (maxStorageBytes <? storageBytes + storage_reserve (ap_messages plan))
    then (st, Throw (js "Headroom storage capacity exceeded"))
    else if negb (assert_result r) then (st, Throw (js "SecurityError"))
    else
      match persistArchive st (cp_ns params) plan (hr_rawTokens r) createdAt uuid with
      | (st', Throw e) => (st', Throw e)
      | (st', Ok _) =>
        match saveManifest (as_meta st') (cp_ns params) r (archive_children (ap_messages plan)) with
        | Throw e => (st', Throw e)
        | Ok meta => (mkStore (as_files st') meta (as_index st'), Ok r)
        end
      end
  end.

(** ** The store invariant *)

(** The object of a hash is the encoding of a message with that digest. *)
Definition object_holds (files : fs) (hash : jstr) (m : ChatMessage) : Prop :=
  test HASH_RE hash = true ∧ contentDigest sha256Hex m = hash ∧ storable m ∧ get (object_path dataDir hash) files = Some (encode_message gzip m).

(** Attribution never leads the objects, and the index never leads attribution. *)
Record store_ok (st : ArchiveStore) : Prop := {
  so_refs : ∀ row, row ∈ md_archive_refs (as_meta st) → ∃ m, object_holds (as_files st) (cm_hash row) m;
  so_index : ∀ k, k ∈ map ref_key (ix_chunk_refs (as_index st)) → k ∈ map group_key (md_archive_refs (as_meta st)) }.

(** What is assumed of a plan: its hashes are the digests of storable messages. *)
Record plan_ok (plan : ArchivePlan) : Prop := {
  po_hashes : ap_hashes plan = map (contentDigest sha256Hex) (ap_messages plan);
  po_storable : Forall storable (ap_messages plan);
  po_valid : Forall (λ h, test HASH_RE h = true) (ap_hashes plan) }.

(** Temporary names no file has. *)
Definition fresh_names (files : fs) (uuid : nat → jstr) : Prop :=
  ∀ h i, test HASH_RE h = true → get (tmp_path dataDir h (uuid i)) files = None.
End Persist.

(** ** Effects *)

Section PersistProofs.
Context (sha256Hex : jstr → jstr) (gzip : bytes → bytes) (dataDir : jstr).
Local Abbreviation run := (run_effects sha256Hex gzip dataDir).
Local Abbreviation holds := (object_holds sha256Hex gzip dataDir).

Lemma run_effects_app st a b :
  run st (a ++ b) = match run st a with (st', Ok _) => run st' b | (st', Throw x) => (st', Throw x) end.
Proof.
  revert st. induction a as [|e a IH]; intros st; [done|]. cbn [app run_effects].
  destruct (run_effect sha256Hex gzip dataDir st e) as [st' [u|x]]; [apply IH|done].
Qed.

(** Files only gain whole objects under valid hashes. *)
Record files_grow (files files' : fs) : Prop := {
  fg_kept : ∀ p b, get p files = Some b → get p files' = Some b;
  fg_new : ∀ p, get p files' = get p files ∨ ∃ h, test HASH_RE h = true ∧ p = object_path dataDir h }.

Lemma files_grow_refl files : files_grow files files.
Proof. split; auto. Qed.
Lemma files_grow_trans f1 f2 f3 : files_grow f1 f2 → files_grow f2 f3 → files_grow f1 f3.
Proof.
  intros [H1 H2] [H3 H4]. split; [auto|]. intros p. destruct (H4 p) as [->|?]; [apply H2|by right].
Qed.

Lemma files_grow_fresh files files' uuid : files_grow files files' → fresh_names dataDir files uuid → fresh_names dataDir files' uuid.
Proof.
  intros [_ Hn] Hf h i Hh. destruct (Hn (tmp_path dataDir h (uuid i))) as [->|(h' & Hh' & Heq)]; [by apply Hf|].
  by apply tmp_not_object in Heq.
Qed.

Lemma holds_grow files files' h m : files_grow files files' → holds files h m → holds files' h m.
Proof. intros [Hk _] (? & ? & ? & ?). split_and!; auto. Qed.

(** Only files may differ between two stores. *)
Definition same_tables (st st' : ArchiveStore) : Prop := as_meta st' = as_meta st ∧ as_index st' = as_index st.

Lemma object_effect_ok st m uuid i :
  storable m → test HASH_RE (contentDigest sha256Hex m) = true → fresh_names dataDir (as_files st) uuid →
  let '(st', r) := run_effect sha256Hex gzip dataDir st (EObject m (contentDigest sha256Hex m) (uuid i)) in
  same_tables st st' ∧ files_grow (as_files st) (as_files st')
  ∧ (is_ok r = true → holds (as_files st') (contentDigest sha256Hex m) m)
  ∧ (is_ok r = true ↔ get (object_path dataDir (contentDigest sha256Hex m)) (as_files st) ∈ [None; Some (encode_message gzip m)])
  ∧ ∀ p, get p (as_files st') = get p (as_files st) ∨ (p = object_path dataDir (contentDigest sha256Hex m) ∧ get p (as_files st') = Some (encode_message gzip m)).
Proof.
  intros Hs Hh Hf. set (hash := contentDigest sha256Hex m) in *. unfold run_effect, writeMessageObject.
  destruct Hs as (Hok & Hj & Hl). rewrite Hok. fold hash. rewrite jeqb_refl. cbn [negb].
  pose proof (writeObjectAs_ok (as_files st) dataDir hash (encode_message gzip m) (uuid i) Hh (Hf hash i Hh)) as Hw. cbv zeta in Hw.
  destruct (writeObjectAs (as_files st) dataDir hash (encode_message gzip m) (uuid i)) as [files' r]. destruct Hw as [Hg ->].
  unfold write_spec in Hg. cbn [as_files as_meta as_index].
  destruct (get (object_path dataDir hash) (as_files st)) as [b|] eqn:Eb.
  - split_and!; [by split|split; intros; rewrite ?Hg; auto| | |auto].
    + destruct (jeqb b (encode_message gzip m)) eqn:E; [|done]. apply jeqb_eq in E. subst b. intros _. split_and!; [done|done|done|by rewrite Hg].
    + destruct (jeqb b (encode_message gzip m)) eqn:E; cbn.
      * apply jeqb_eq in E. subst b. split; [set_solver|done].
      * apply jeqb_neq in E. split; [done|]. set_solver.
  - assert (∀ p, get p files' = get p (as_files st) ∨ (p = object_path dataDir hash ∧ get p files' = Some (encode_message gzip m))) as Hcase.
    { intros p. rewrite Hg. destruct (decide (p = object_path dataDir hash)) as [->|Hne]; [right; by rewrite get_set_eq|left; by rewrite get_set_ne]. }
    split_and!; [by split| | |split; [set_solver|done]|done].
    + split; [|intros p; destruct (Hcase p) as [?|[-> _]]; eauto]. intros p b Hp. destruct (Hcase p) as [->|[-> _]]; [done|congruence].
    + intros _. split_and!; [done|done|done|]. rewrite Hg. apply get_set_eq.
Qed.

(** The object effects of a list of messages. *)
Definition objects_of (messages : list ChatMessage) (uuid : nat → jstr) (k : nat) : list Effect :=
  imap (λ i m, EObject m (contentDigest sha256Hex m) (uuid (k + i)%nat)) messages.

Lemma object_effects_of plan uuid :
  plan_ok sha256Hex plan → object_effects plan uuid = objects_of (ap_messages plan) uuid 0.
Proof.
  intros [Hh _ _]. unfold object_effects, objects_of. rewrite Hh. generalize (ap_messages plan). intros l.
  apply list_eq. intros i. rewrite !list_lookup_imap, lookup_zip_with, map_lookup. by destruct (l !! i).
Qed.

Lemma objects_run messages uuid k st :
  Forall storable messages → Forall (λ m, test HASH_RE (contentDigest sha256Hex m) = true) messages → fresh_names dataDir (as_files st) uuid →
  let '(st', r) := run st (objects_of messages uuid k) in
  same_tables st st' ∧ files_grow (as_files st) (as_files st')
  ∧ (is_ok r = true → Forall (λ m, holds (as_files st') (contentDigest sha256Hex m) m) messages).
Proof.
  intros Hs Hv. revert st k. induction messages as [|m messages IH]; intros st k Hf; cbn [objects_of imap run_effects].
  { split_and!; [done|apply files_grow_refl|constructor]. }
  apply Forall_cons in Hs as [Hm Hs]. apply Forall_cons in Hv as [Hvm Hv].
  pose proof (object_effect_ok st m uuid (k + 0) Hm Hvm Hf) as Ho. rewrite Nat.add_0_r in *.
  destruct (run_effect sha256Hex gzip dataDir st (EObject m (contentDigest sha256Hex m) (uuid k))) as [st1 r1].
  destruct Ho as ([Ht1 Ht2] & Hg & Hh & _). destruct r1 as [u|x]; [|split_and!; done].
  assert (imap ((λ (i : nat) m0, EObject m0 (contentDigest sha256Hex m0) (uuid (k + i)%nat)) ∘ S) messages = objects_of messages uuid (S k)) as ->.
  { unfold objects_of. apply imap_ext. intros i y _. unfold compose. by rewrite Nat.add_succ_r. }
  specialize (IH Hs Hv st1 (S k)). destruct (run st1 (objects_of messages uuid (S k))) as [st2 r2].
  destruct IH as ([Ht3 Ht4] & Hg2 & Hh2); [by eapply files_grow_fresh|]. split_and!.
  - split; congruence.
  - by eapply files_grow_trans.
  - intros Hok. constructor; [|auto]. apply (holds_grow (as_files st1)); [done|]. auto.
Qed.

(** ** Transactions *)

Lemma insertCasMeta_refs meta rows :
  md_archive_refs (foldl insertCasMeta meta rows) = foldl (λ t r, insert_ignore seq_key r t) (md_archive_refs meta) rows.
Proof. revert meta. induction rows as [|r rows IH]; intros meta; [done|]. cbn [foldl]. by rewrite IH. Qed.

Lemma refs_fold_elem rows refs x :
  x ∈ foldl (λ t r, insert_ignore seq_key r t) refs rows → x ∈ refs ∨ x ∈ rows.
Proof.
  revert refs. induction rows as [|r rows IH]; intros refs; [by left|]. cbn [foldl]. intros [H|H]%IH; [|right; by right].
  apply insert_ignore_elem in H as [H|[-> _]]; [by left|right; by left].
Qed.

Lemma refs_fold_kept rows refs x : x ∈ refs → x ∈ foldl (λ t r, insert_ignore seq_key r t) refs rows.
Proof. revert refs. induction rows as [|r rows IH]; intros refs H; [done|]. apply IH, insert_ignore_elem. by left. Qed.

(** A history hash names the same messages wherever it is recorded. *)
Definition history_agrees (meta : MetaDb) (rows : list CasMetaInput) : Prop :=
  ∀ a b, a ∈ md_archive_refs meta → b ∈ rows → seq_key a = seq_key b → cm_hash a = cm_hash b.

Lemma meta_tables_ok st rows :
  store_ok sha256Hex gzip dataDir st → (∀ row, row ∈ rows → ∃ m, holds (as_files st) (cm_hash row) m) →
  store_ok sha256Hex gzip dataDir (mkStore (as_files st) (foldl insertCasMeta (as_meta st) rows) (as_index st)).
Proof.
  intros [Hr Hi] Hrows. split; cbn [as_files as_meta as_index]; rewrite insertCasMeta_refs.
  - intros row [?|?]%refs_fold_elem; auto.
  - intros k Hk. apply Hi, list_elem_of_fmap in Hk as (row & -> & Hrow). apply list_elem_of_fmap_2. by apply refs_fold_kept.
Qed.

(** Every row of a plan is attributed once the ledger transaction is done. *)
Lemma meta_attributes meta rows :
  history_agrees meta rows → NoDup (map seq_key rows) → ∀ row, row ∈ rows → group_key row ∈ map group_key (md_archive_refs (foldl insertCasMeta meta rows)).
Proof.
  intros Ha Hd row Hrow. rewrite insertCasMeta_refs. unfold history_agrees in Ha. revert Ha. generalize (md_archive_refs meta) as refs.
  induction rows as [|r rows IH]; [set_solver|]. intros refs Ha. cbn [foldl]. cbn [map] in Hd. apply NoDup_cons in Hd as [Hn Hd].
  assert (group_key r ∈ map group_key (insert_ignore seq_key r refs)) as Hr.
  { destruct (decide (seq_key r ∈ map seq_key refs)) as [Hin|Hin].
    - apply list_elem_of_fmap in Hin as (a & Hk & Hain). apply list_elem_of_fmap. exists a. split.
      + assert (cm_hash a = cm_hash r) as Hh by (apply Ha; [done|by left|done]). unfold group_key. unfold seq_key in Hk.
        rewrite Hh. congruence.
      + apply insert_ignore_elem. by left.
    - apply list_elem_of_fmap_2, insert_ignore_elem. by right. }
  apply elem_of_cons in Hrow as [->|Hrow].
  - apply list_elem_of_fmap in Hr as (a & -> & Hain). apply list_elem_of_fmap_2. by apply refs_fold_kept.
  - apply IH; [done|done|]. intros a b Hain Hb Hk. apply insert_ignore_elem in Hain as [Hain|[-> _]]; [apply Ha; [done|by right|done]|].
    exfalso. apply Hn. rewrite Hk. by apply list_elem_of_fmap_2.
Qed.

Lemma index_tables_ok st chunks history :
  store_ok sha256Hex gzip dataDir st →
  (∀ c, c ∈ chunks → input_key c ∈ map group_key (md_archive_refs (as_meta st))) →
  store_ok sha256Hex gzip dataDir
    (mkStore (as_files st) (as_meta st)
       (match history with Some h => upsertHistory (foldl insertChunk (as_index st) chunks) h | None => foldl insertChunk (as_index st) chunks end)).
Proof.
  intros [Hr Hi] Hc. split; cbn [as_files as_meta as_index]; [done|]. intros k Hk.
  assert (k ∈ map ref_key (ix_chunk_refs (foldl insertChunk (as_index st) chunks))) as Hk' by (by destruct history).
  clear Hk. revert k Hk'. induction chunks as [|c chunks IH] using rev_ind; [done|]. intros k. rewrite foldl_snoc.
  cbn [insertChunk ix_chunk_refs]. rewrite insert_ignore_has. intros [Hk| ->].
  - apply IH; [|done]. intros c' ?. apply Hc. set_solver.
  - apply (Hc c). set_solver.
Qed.

Lemma store_ok_grow st st' :
  same_tables st st' → files_grow (as_files st) (as_files st') → store_ok sha256Hex gzip dataDir st → store_ok sha256Hex gzip dataDir st'.
Proof.
  intros [Em Ei] Hg [Hr Hi]. split; rewrite Em, ?Ei; [|done]. intros row Hrow. destruct (Hr row Hrow) as [m Hm]. exists m. by eapply holds_grow.
Qed.

(** ** The rows of a plan *)

Lemma zip_hashes plan : plan_ok sha256Hex plan →
  zip (ap_messages plan) (ap_hashes plan) = map (λ m, (m, contentDigest sha256Hex m)) (ap_messages plan).
Proof. intros [-> _ _]. generalize (ap_messages plan). intros l. by induction l as [|m l IH]; [|cbn; rewrite IH]. Qed.

Lemma rows_elem plan ns createdAt row : plan_ok sha256Hex plan →
  row ∈ insertCasMetaRows plan ns createdAt → ∃ m, m ∈ ap_messages plan ∧ cm_hash row = contentDigest sha256Hex m.
Proof.
  intros Hp. unfold insertCasMetaRows. rewrite zip_hashes by done. intros (i & mh & -> & Hi)%elem_of_lookup_imap_1.
  rewrite map_lookup in Hi. destruct (ap_messages plan !! i) as [m|] eqn:Em; [|done]. injection Hi as <-.
  exists m. split; [by eapply list_elem_of_lookup_2|done].
Qed.

Lemma rows_seqs plan ns createdAt : ∃ base, map seq_key (insertCasMetaRows plan ns createdAt)
  = imap (λ i _, (ns, ap_historyHash plan, base + Z.of_nat i)) (zip (ap_messages plan) (ap_hashes plan)).
Proof.
  unfold insertCasMetaRows. set (base := match ap_turns plan with t :: _ => t_startMsgIndex t | [] => 0 end). exists base.
  apply list_eq. intros i. rewrite map_lookup, !list_lookup_imap. by destruct (zip _ _ !! i).
Qed.

Lemma rows_nodup plan ns createdAt : NoDup (map seq_key (insertCasMetaRows plan ns createdAt)).
Proof.
  destruct (rows_seqs plan ns createdAt) as [base ->]. apply NoDup_alt. intros i j x Hi Hj. rewrite list_lookup_imap in Hi, Hj.
  destruct (zip _ _ !! i); [|done]. destruct (zip _ _ !! j); [|done]. cbn in Hi, Hj. simplify_eq. lia.
Qed.

Lemma chunks_attributed plan ns createdAt c :
  c ∈ chunkInputs plan ns → ∃ row, row ∈ insertCasMetaRows plan ns createdAt ∧ group_key row = input_key c.
Proof.
  unfold chunkInputs, insertCasMetaRows. intros (i & mh & -> & Hi)%elem_of_lookup_imap_1. eexists. split.
  - eapply elem_of_lookup_imap_2. exact Hi.
  - done.
Qed.

(** ** A full run *)

Lemma plan_tables st plan ns createdAt :
  plan_ok sha256Hex plan → history_agrees (as_meta st) (insertCasMetaRows plan ns createdAt) →
  Forall (λ m, holds (as_files st) (contentDigest sha256Hex m) m) (ap_messages plan) →
  store_ok sha256Hex gzip dataDir st →
  let st1 := mkStore (as_files st) (foldl insertCasMeta (as_meta st) (insertCasMetaRows plan ns createdAt)) (as_index st) in
  store_ok sha256Hex gzip dataDir st1
  ∧ ∀ history, store_ok sha256Hex gzip dataDir
      (mkStore (as_files st1) (as_meta st1)
         (match history with Some h => upsertHistory (foldl insertChunk (as_index st1) (chunkInputs plan ns)) h
                        | None => foldl insertChunk (as_index st1) (chunkInputs plan ns) end)).
Proof.
  intros Hp Ha Hh Hok st1. assert (store_ok sha256Hex gzip dataDir st1) as H1.
  { apply meta_tables_ok; [done|]. intros row Hrow. destruct (rows_elem _ _ _ _ Hp Hrow) as (m & Hm & ->). exists m.
    rewrite Forall_forall in Hh. by apply Hh. }
  split; [done|]. intros history. apply (index_tables_ok st1); [done|]. intros c Hc.
  destruct (chunks_attributed plan ns createdAt c Hc) as (row & Hrow & <-). unfold st1. cbn [as_meta].
  apply (meta_attributes (as_meta st) (insertCasMetaRows plan ns createdAt)); [done|apply rows_nodup|done].
Qed.

(** The effects after the objects: the ledger, the index and perhaps a history row. *)
Definition table_effects (plan : ArchivePlan) (ns : Namespace) (createdAt : Z) (history : option HistoryRow) (after : list HistoryRow) : list Effect :=
  [EMeta (insertCasMetaRows plan ns createdAt); EIndex (chunkInputs plan ns) history] ++ map EHistory after.

Lemma persist_effects_shape index plan ns raw createdAt uuid :
  ∃ history after, persist_effects index plan ns raw createdAt uuid = object_effects plan uuid ++ table_effects plan ns createdAt history after.
Proof.
  unfold persist_effects, backfill_effects. destruct (getHistory index (ap_historyHash plan)).
  - exists None, [history_row plan ns raw createdAt]. unfold table_effects. by rewrite <- app_assoc.
  - by exists (Some (history_row plan ns raw createdAt)), [].
Qed.

Lemma histories_run st hs :
  run st (map EHistory hs) = (mkStore (as_files st) (as_meta st) (foldl upsertHistory (as_index st) hs), Ok tt).
Proof. revert st. induction hs as [|h hs IH]; intros st; [by destruct st|]. cbn [map run_effects run_effect]. by rewrite IH. Qed.

Lemma histories_ok st hs k :
  store_ok sha256Hex gzip dataDir st → store_ok sha256Hex gzip dataDir (run st (take k (map EHistory hs))).1.
Proof.
  revert st k. induction hs as [|h hs IH]; intros st k Hok; [by destruct k|]. destruct k as [|k]; [done|].
  cbn [map take run_effects run_effect]. apply IH. destruct Hok as [Hr Hi]. by split.
Qed.

Lemma tables_run_ok st plan ns createdAt history after k :
  plan_ok sha256Hex plan → history_agrees (as_meta st) (insertCasMetaRows plan ns createdAt) →
  Forall (λ m, holds (as_files st) (contentDigest sha256Hex m) m) (ap_messages plan) →
  store_ok sha256Hex gzip dataDir st →
  store_ok sha256Hex gzip dataDir (run st (take k (table_effects plan ns createdAt history after))).1.
Proof.
  intros Hp Ha Hh Hok. destruct (plan_tables st plan ns createdAt Hp Ha Hh Hok) as [H1 H2]. destruct k as [|[|k]]; [done|done|].
  unfold table_effects. cbn [app take run_effects run_effect]. apply histories_ok. apply (H2 history).
Qed.

Lemma take_objects plan uuid k : plan_ok sha256Hex plan →
  take k (object_effects plan uuid) = objects_of (take k (ap_messages plan)) uuid 0.
Proof.
  intros Hp. rewrite object_effects_of by done. unfold objects_of. apply list_eq. intros i.
  destruct (decide (i < k)%nat).
  - rewrite lookup_take_lt, !list_lookup_imap, lookup_take_lt by done. done.
  - rewrite lookup_take_ge, list_lookup_imap, lookup_take_ge by lia. done.
Qed.

Lemma plan_valid plan : plan_ok sha256Hex plan → Forall (λ m, test HASH_RE (contentDigest sha256Hex m) = true) (ap_messages plan).
Proof. intros [Hh _ Hv]. rewrite Hh, Forall_map in Hv. done. Qed.

(** Publishing succeeds when no object of another message is in the way. *)
Definition objects_agree (files : fs) (messages : list ChatMessage) : Prop :=
  (∀ m, m ∈ messages → get (object_path dataDir (contentDigest sha256Hex m)) files ∈ [None; Some (encode_message gzip m)])
  ∧ ∀ m m', m ∈ messages → m' ∈ messages → contentDigest sha256Hex m = contentDigest sha256Hex m' → m = m'.

Lemma objects_run_agree messages uuid k st :
  Forall storable messages → Forall (λ m, test HASH_RE (contentDigest sha256Hex m) = true) messages → fresh_names dataDir (as_files st) uuid →
  objects_agree (as_files st) messages → is_ok (run st (objects_of messages uuid k)).2 = true.
Proof.
  intros Hs Hv. revert st k. induction messages as [|m messages IH]; intros st k Hf [Ha Hd]; [done|]. cbn [objects_of imap run_effects].
  apply Forall_cons in Hs as [Hm Hs]. apply Forall_cons in Hv as [Hvm Hv].
  pose proof (object_effect_ok st m uuid (k + 0) Hm Hvm Hf) as Ho. rewrite Nat.add_0_r in *.
  destruct (run_effect sha256Hex gzip dataDir st (EObject m (contentDigest sha256Hex m) (uuid k))) as [st1 r1].
  destruct Ho as (_ & Hg & _ & [_ Hok] & Hcase). destruct r1 as [u|x]; [|discriminate Hok; apply Ha; by left].
  assert (imap ((λ (i : nat) m0, EObject m0 (contentDigest sha256Hex m0) (uuid (k + i)%nat)) ∘ S) messages = objects_of messages uuid (S k)) as ->.
  { unfold objects_of. apply imap_ext. intros i y _. unfold compose. by rewrite Nat.add_succ_r. }
  apply IH; [done|done|by eapply files_grow_fresh|]. split.
  - intros m' Hm'. destruct (Hcase (object_path dataDir (contentDigest sha256Hex m'))) as [->|[Heq ->]]; [apply Ha; by right|].
    apply object_path_inj in Heq; [|rewrite Forall_forall in Hv; by apply Hv|done].
    assert (m' = m) as -> by (apply Hd; [by right|by left|done]). set_solver.
  - intros m1 m2 ? ?. apply Hd; by right.
Qed.
End PersistProofs.

(** ** Reading an archived history *)

Lemma sort_insert_last {A} (cmp : A → A → Z) x l : Forall (λ y, 0 <= cmp x y) l → sort_insert cmp x l = l ++ [x].
Proof.
  induction 1 as [|y l Hy _ IH]; [done|]. cbn [sort_insert]. destruct (cmp x y <? 0) eqn:E; [bool_prop; lia|]. cbn [app]. by rewrite IH.
Qed.

Lemma sort_by_increasing {A} (cmp : A → A → Z) l :
  (∀ i j x y, (i < j)%nat → l !! i = Some x → l !! j = Some y → 0 <= cmp y x) → sort_by cmp l = l.
Proof.
  unfold sort_by. assert (∀ acc, (∀ i j x y, (i < j)%nat → (acc ++ l) !! i = Some x → (acc ++ l) !! j = Some y → 0 <= cmp y x) →
    foldl (λ acc x, sort_insert cmp x acc) acc l = acc ++ l) as H; [|intros Hl; by apply (H [])].
  induction l as [|x l IH]; intros acc Hl; [by rewrite app_nil_r|]. cbn [foldl]. rewrite sort_insert_last.
  - rewrite IH; [by rewrite <- app_assoc|]. by rewrite <- app_assoc.
  - apply Forall_forall. intros y (i & Hi)%list_elem_of_lookup. apply (Hl i (length acc) y x).
    + by eapply lookup_lt_Some.
    + by apply lookup_app_l_Some.
    + by rewrite list_lookup_middle.
Qed.

Lemma refs_fold_new rows refs :
  NoDup (map seq_key rows) → (∀ r, r ∈ rows → seq_key r ∉ map seq_key refs) →
  foldl (λ t r, insert_ignore seq_key r t) refs rows = refs ++ rows.
Proof.
  revert refs. induction rows as [|r rows IH]; intros refs Hd Hn; [by rewrite app_nil_r|]. cbn [foldl map] in *.
  apply NoDup_cons in Hd as [Hr Hd]. assert (insert_ignore seq_key r refs = refs ++ [r]) as ->.
  { unfold insert_ignore. destruct (existsb _ refs) eqn:E; [|done]. exfalso. apply existsb_exists in E as (x & Hx & Hk%bool_decide_eq_true).
    apply (Hn r); [by left|]. rewrite <- Hk. apply list_elem_of_fmap_2. by apply list_elem_of_In. }
  rewrite IH; [by rewrite <- app_assoc|done|]. intros r' Hr'. rewrite map_app. cbn [map]. intros [Hin|Hin]%elem_of_app.
  - apply (Hn r'); [by right|done].
  - apply list_elem_of_singleton in Hin. apply Hr. rewrite <- Hin. by apply list_elem_of_fmap_2.
Qed.

Lemma rows_of_history plan ns createdAt row :
  row ∈ insertCasMetaRows plan ns createdAt → of_history ns (ap_historyHash plan) row = true.
Proof.
  unfold insertCasMetaRows. intros (i & mh & -> & _)%elem_of_lookup_imap_1. unfold of_history. cbn. by rewrite bool_decide_true, jeqb_refl.
Qed.

Lemma filter_all {A} (p : A → bool) l : (∀ x, x ∈ l → p x = true) → List.filter p l = l.
Proof. intros H. apply forallb_filter_id, forallb_forall. intros x Hx. apply H. by apply list_elem_of_In. Qed.
Lemma filter_nil {A} (p : A → bool) l : existsb p l = false → List.filter p l = [].
Proof. induction l as [|x l IH]; [done|]. cbn. destruct (p x); [done|]. apply IH. Qed.

(** The rows a plan leaves under a new history are its own, in order. *)
Lemma new_history_rows meta plan ns createdAt :
  hasHistoryMeta meta ns (ap_historyHash plan) = false →
  history_rows (foldl insertCasMeta meta (insertCasMetaRows plan ns createdAt)) ns (ap_historyHash plan) = insertCasMetaRows plan ns createdAt.
Proof.
  intros Hn. unfold history_rows. rewrite insertCasMeta_refs, refs_fold_new.
  - rewrite List.filter_app, filter_nil by done. cbn [app]. rewrite filter_all by apply rows_of_history.
    apply sort_by_increasing. intros i j x y Hij Hx Hy. unfold insertCasMetaRows in Hx, Hy. rewrite list_lookup_imap in Hx, Hy.
    destruct (zip _ _ !! i); [|done]. destruct (zip _ _ !! j); [|done]. cbn in Hx, Hy. simplify_eq. unfold seq_cmp. cbn. lia.
  - apply rows_nodup.
  - intros r Hr Hin. apply list_elem_of_fmap in Hin as (a & Hk & Ha). pose proof (rows_of_history plan ns createdAt r Hr) as Hof.
    apply not_true_iff_false in Hn. apply Hn. apply existsb_exists. exists a. split; [by apply list_elem_of_In|].
    unfold of_history, seq_key in *. injection Hk as E1 E2 _. by rewrite <- E1, <- E2.
Qed.

(** ** Properties *)

(** Archiving is crash-safe.  In a store whose every attribution names an
    object that reads as a message of that digest, and whose index references
    are all attributed, stop [persistArchive] after any number of its effects,
    or let an object refuse to be written: the store still has both
    properties.  (A history hash is assumed to name the same messages
    wherever it is recorded, and temporary names to be fresh.) *)
Theorem persist_crash_safe sha256Hex gzip dataDir st plan ns raw createdAt uuid k :
  store_ok sha256Hex gzip dataDir st → plan_ok sha256Hex plan → fresh_names dataDir (as_files st) uuid →
  history_agrees (as_meta st) (insertCasMetaRows plan ns createdAt) →
  store_ok sha256Hex gzip dataDir
    (run_effects sha256Hex gzip dataDir st (take k (persist_effects (as_index st) plan ns raw createdAt uuid))).1.
Proof.
  intros Hok Hp Hf Ha. destruct (persist_effects_shape (as_index st) plan ns raw createdAt uuid) as (history & after & ->).
  rewrite take_app, run_effects_app. rewrite (take_objects sha256Hex) by done.
  pose proof (plan_valid sha256Hex plan Hp) as Hv. pose proof (po_storable _ _ Hp) as Hs.
  pose proof (objects_run sha256Hex gzip dataDir (take k (ap_messages plan)) uuid 0 st (Forall_take _ _ _ Hs) (Forall_take _ _ _ Hv) Hf) as Ho.
  destruct (run_effects sha256Hex gzip dataDir st (objects_of sha256Hex (take k (ap_messages plan)) uuid 0)) as [st1 r1].
  destruct Ho as (Hst & Hg & Hh). pose proof (store_ok_grow sha256Hex gzip dataDir st st1 Hst Hg Hok) as Hok1.
  destruct r1 as [u|x]; [|done]. specialize (Hh Logic.eq_refl).
  assert (length (object_effects plan uuid) = length (ap_messages plan)) as Hlen.
  { rewrite (object_effects_of sha256Hex) by done. unfold objects_of. apply length_imap. }
  destruct (decide (k <= length (ap_messages plan))%nat) as [Hk|Hk].
  { replace (k - length (object_effects plan uuid))%nat with 0%nat by lia. done. }
  rewrite firstn_all2 in Hh by lia. apply tables_run_ok; [done| |done|done]. destruct Hst as [-> _]. done.
Qed.

(** What a new archive reads back as. *)
Lemma persist_reads sha256Hex gzip gunzip dataDir assert_plan st plan ns raw createdAt uuid :
  gzip_law gzip gunzip → plan_ok sha256Hex plan → fresh_names dataDir (as_files st) uuid →
  objects_agree sha256Hex gzip dataDir (as_files st) (ap_messages plan) →
  hasHistoryMeta (as_meta st) ns (ap_historyHash plan) = false → assert_plan plan (chunkInputs plan ns) = true →
  let '(st', r) := persistArchive sha256Hex gzip dataDir assert_plan st ns plan raw createdAt uuid in
  r = Ok tt
  ∧ md_archive_refs (as_meta st') = md_archive_refs (foldl insertCasMeta (as_meta st) (insertCasMetaRows plan ns createdAt))
  ∧ history_rows (as_meta st') ns (ap_historyHash plan) = insertCasMetaRows plan ns createdAt
  ∧ map cm_hash (insertCasMetaRows plan ns createdAt) = map (contentDigest sha256Hex) (ap_messages plan)
  ∧ Forall (λ m, readMessageObject sha256Hex gunzip (as_files st') (as_files st') dataDir (contentDigest sha256Hex m) = Ok (Some m)
                 ∧ ownsCasMeta (as_meta st') ns (contentDigest sha256Hex m) = true) (ap_messages plan).
Proof.
  intros Hgz Hp Hf Ha Hn Has. unfold persistArchive. rewrite Has. cbn [negb].
  destruct (persist_effects_shape (as_index st) plan ns raw createdAt uuid) as (history & after & ->).
  rewrite run_effects_app, (object_effects_of sha256Hex) by done.
  pose proof (plan_valid sha256Hex plan Hp) as Hv. pose proof (po_storable _ _ Hp) as Hs.
  pose proof (objects_run sha256Hex gzip dataDir (ap_messages plan) uuid 0 st Hs Hv Hf) as Ho.
  pose proof (objects_run_agree sha256Hex gzip dataDir (ap_messages plan) uuid 0 st Hs Hv Hf Ha) as Hok.
  destruct (run_effects sha256Hex gzip dataDir st (objects_of sha256Hex (ap_messages plan) uuid 0)) as [st1 r1].
  destruct Ho as ([Hm _] & _ & Hh). cbn [snd] in Hok. destruct r1 as [u|x]; [|done]. specialize (Hh Logic.eq_refl).
  unfold table_effects. cbn [app run_effects run_effect as_files as_meta as_index]. rewrite histories_run. cbn [as_files as_meta]. rewrite Hm.
  pose proof (new_history_rows (as_meta st) plan ns createdAt Hn) as Hrows.
  assert (map cm_hash (insertCasMetaRows plan ns createdAt) = map (contentDigest sha256Hex) (ap_messages plan)) as Hhash.
  { unfold insertCasMetaRows. rewrite (zip_hashes sha256Hex) by done. apply list_eq. intros i.
    rewrite !map_lookup, list_lookup_imap, map_lookup. by destruct (ap_messages plan !! i). }
  split_and!; [done|done|exact Hrows|done|].
  - apply Forall_forall. intros m Hin. rewrite Forall_forall in Hh, Hs, Hv. destruct (Hh m Hin) as (_ & _ & Hst & Hg). split.
    + apply (read_stored sha256Hex gzip gunzip Hgz); [done|by apply Hv|done].
    + apply existsb_exists. assert (contentDigest sha256Hex m ∈ map cm_hash (insertCasMetaRows plan ns createdAt)) as Hrow by (rewrite Hhash; by apply list_elem_of_fmap_2).
      apply list_elem_of_fmap in Hrow as (row & Heq & Hrow). exists row. split.
      * apply list_elem_of_In. rewrite insertCasMeta_refs.
        rewrite <- Hrows in Hrow. unfold history_rows in Hrow. rewrite (sort_by_perm seq_cmp) in Hrow. apply elem_of_lfilter in Hrow as [Hrow _].
        by rewrite insertCasMeta_refs in Hrow.
      * apply (rows_of_history plan) in Hrow. unfold of_history in Hrow. apply andb_true_iff in Hrow as [-> _]. by rewrite Heq, jeqb_refl.
Qed.

(** An archive can be read back.  Archiving a plan under a history the
    namespace does not have, when no other object is in the way, succeeds;
    afterwards the ledger lists for that history exactly the plan's messages in
    order, with their hashes, roles and turns, and reading each hash returns
    that very message. *)
Theorem persist_then_read sha256Hex gzip gunzip dataDir assert_plan st plan ns raw createdAt uuid :
  gzip_law gzip gunzip → plan_ok sha256Hex plan → fresh_names dataDir (as_files st) uuid →
  objects_agree sha256Hex gzip dataDir (as_files st) (ap_messages plan) →
  hasHistoryMeta (as_meta st) ns (ap_historyHash plan) = false → assert_plan plan (chunkInputs plan ns) = true →
  let '(st', r) := persistArchive sha256Hex gzip dataDir assert_plan st ns plan raw createdAt uuid in
  r = Ok tt
  ∧ (∀ n, (length (ap_messages plan) <= n)%nat →
       listHistoryMeta (as_meta st') ns (ap_historyHash plan) 0 n = insertCasMetaRows plan ns createdAt)
  ∧ map cm_hash (insertCasMetaRows plan ns createdAt) = map (contentDigest sha256Hex) (ap_messages plan)
  ∧ Forall (λ m, readMessageObject sha256Hex gunzip (as_files st') (as_files st') dataDir (contentDigest sha256Hex m) = Ok (Some m)
                 ∧ ownsCasMeta (as_meta st') ns (contentDigest sha256Hex m) = true) (ap_messages plan).
Proof.
  intros Hgz Hp Hf Ha Hn Has. pose proof (persist_reads sha256Hex gzip gunzip dataDir assert_plan st plan ns raw createdAt uuid Hgz Hp Hf Ha Hn Has) as H.
  destruct (persistArchive sha256Hex gzip dataDir assert_plan st ns plan raw createdAt uuid) as [st' r].
  destruct H as (Hr & _ & Hrows & Hhash & Hall). split_and!; [done| |done|done]. intros n Hlen. unfold listHistoryMeta. rewrite Hrows. cbn [drop].
  apply firstn_all2. by rewrite <- (length_map cm_hash), Hhash, length_map.
Qed.

Lemma chosen_plan_ok sha256Hex params r plan :
  (∀ x, test HASH_RE (sha256Hex x) = true) → Forall storable (cp_messages params) →
  compress_plan sha256Hex params = (r, Some plan) → plan_ok sha256Hex plan ∧ ap_messages plan ≠ [] ∧ ∃ kept, cp_messages params = ap_messages plan ++ kept.
Proof.
  intros Hsha Hst H. pose proof (compress_plan_cases sha256Hex params) as Hc. rewrite H in Hc.
  inversion Hc as [|r' k Hk _ _ _ _]; subst. pose proof (plan_split _ _ _ Hk) as Hs. pose proof (plan_hashes _ _ _ Hk) as Hh.
  destruct Hk as [_ _ Hne _]. split; [|split; [done|eauto]]. split; [done| |].
  - rewrite Hs in Hst. by apply Forall_app in Hst as [? _].
  - rewrite Hh. apply Forall_map, Forall_forall. intros m _. apply Hsha.
Qed.

Lemma history_recorded meta plan ns createdAt :
  insertCasMetaRows plan ns createdAt ≠ [] →
  hasHistoryMeta (foldl insertCasMeta meta (insertCasMetaRows plan ns createdAt)) ns (ap_historyHash plan) = true.
Proof.
  intros Hne. unfold hasHistoryMeta. rewrite insertCasMeta_refs.
  pose proof (rows_of_history plan ns createdAt) as Hof. destruct (insertCasMetaRows plan ns createdAt) as [|row rows]; [done|].
  apply existsb_exists. cbn [foldl].
  assert (seq_key row ∈ map seq_key (insert_ignore seq_key row (md_archive_refs meta))) as Hk by (apply insert_ignore_has; by right).
  apply list_elem_of_fmap in Hk as (a & Hk & Ha). exists a. split; [apply list_elem_of_In; by apply refs_fold_kept|].
  specialize (Hof row ltac:(by left)). unfold of_history, seq_key in *. injection Hk as E1 E2 _. by rewrite <- E1, <- E2.
Qed.

(** Compression announces only what it has archived.  When [compress]
    answers with a compacted result, the manifest of the namespace is that
    result, the history is in the ledger, and every message it replaces is
    published under its digest with its exact bytes; when it answers that
    nothing is compacted, or refuses for capacity, the store is unchanged. *)
Theorem compress_announces sha256Hex gzip dataDir assert_plan assert_result st params used cap createdAt uuid :
  (∀ x, test HASH_RE (sha256Hex x) = true) → Forall storable (cp_messages params) → fresh_names dataDir (as_files st) uuid →
  let '(st', res) := compress sha256Hex gzip dataDir assert_plan assert_result st params used cap createdAt uuid in
  (∀ r, res = Ok r → hr_compacted r = false → st' = st)
  ∧ (∀ r, res = Ok r → hr_compacted r = true → ∃ h replaced kept,
       hr_historyHash r = Some h ∧ getManifest (as_meta st') (cp_ns params) h = Some r
       ∧ hasHistoryMeta (as_meta st') (cp_ns params) h = true
       ∧ cp_messages params = replaced ++ kept ∧ map m_id replaced = hr_replacedMessageIds r
       ∧ Forall (λ m, object_holds sha256Hex gzip dataDir (as_files st') (contentDigest sha256Hex m) m) replaced)
  ∧ (∀ plan, (compress_plan sha256Hex params).2 = Some plan → hasHistoryMeta (as_meta st) (cp_ns params) (ap_historyHash plan) = false →
       cap < used + storage_reserve (ap_messages plan) → st' = st ∧ res = Throw (js "Headroom storage capacity exceeded")).
Proof.
  intros Hsha Hst Hf. unfold compress. destruct (compress_plan sha256Hex params) as [r [plan|]] eqn:Ec.
  2:{ split_and!; [done| |done]. intros r' [= <-] Hc. pose proof (compress_plan_cases sha256Hex params) as Hcase. rewrite Ec in Hcase. by inversion Hcase; subst. }
  destruct (chosen_plan_ok sha256Hex params r plan Hsha Hst Ec) as (Hp & Hne & kept & Hsplit).
  assert (∀ plan', (r, Some plan).2 = Some plan' → hasHistoryMeta (as_meta st) (cp_ns params) (ap_historyHash plan') = false →
    cap < used + storage_reserve (ap_messages plan') →
    negb (hasHistoryMeta (as_meta st) (cp_ns params) (ap_historyHash plan)) && (cap <? used + storage_reserve (ap_messages plan)) = true) as Hcap.
  { intros plan' [= <-] -> Hc. by apply Z.ltb_lt. }
  destruct (negb (hasHistoryMeta _ _ _) && _) eqn:E; [done|].
  assert (∀ (A : Prop) plan', (r, Some plan).2 = Some plan' → hasHistoryMeta (as_meta st) (cp_ns params) (ap_historyHash plan') = false →
    cap < used + storage_reserve (ap_messages plan') → A) as Hno by (intros A plan' H1 H2 H3; specialize (Hcap plan' H1 H2 H3); congruence).
  clear Hcap. case_test; [split_and!; [done|done|apply Hno]|]. unfold persistArchive. case_test; [split_and!; [done|done|apply Hno]|].
  destruct (persist_effects_shape (as_index st) plan (cp_ns params) (hr_rawTokens r) createdAt uuid) as (history & after & ->).
  rewrite run_effects_app, (object_effects_of sha256Hex) by done.
  pose proof (objects_run sha256Hex gzip dataDir (ap_messages plan) uuid 0 st (po_storable _ _ Hp) (plan_valid _ _ Hp) Hf) as Ho.
  destruct (run_effects sha256Hex gzip dataDir st (objects_of sha256Hex (ap_messages plan) uuid 0)) as [st1 [u|x]]; [|split_and!; [done|done|apply Hno]].
  destruct Ho as (_ & _ & Hh). specialize (Hh Logic.eq_refl).
  unfold table_effects. cbn [app run_effects run_effect as_files as_meta as_index]. rewrite histories_run. cbn [as_files as_meta as_index].
  pose proof (compress_plan_cases sha256Hex params) as Hcase. rewrite Ec in Hcase. inversion Hcase as [|r' k _ _ _ Hcomp _]; subst.
  set (plan := chosen_plan sha256Hex params) in *.
  assert (hr_historyHash r = Some (ap_historyHash plan) ∧ hr_replacedMessageIds r = map m_id (ap_messages plan)) as [Hhr Hids].
  { clear -Ec. unfold compress_plan in Ec. case_test_in Ec; [done|]. cbv zeta in Ec. fold plan in Ec. case_test_in Ec; [done|].
    by injection Ec as <-. }
  unfold saveManifest. rewrite Hcomp, Hhr. destruct (hr_sourceDigests r); [|split_and!; [done|done|apply Hno]]. case_test; [split_and!; [done|done|apply Hno]|].
  case_test; [split_and!; [done|done|apply Hno]|]. cbn [rbind as_files as_meta]. split_and!; [congruence| |apply Hno]. intros r0 [= <-] _. exists (ap_historyHash plan), (ap_messages plan), kept.
  split_and!; [done| | |done|done|done].
  - unfold getManifest. cbn [md_manifests]. by rewrite get_set_eq.
  - apply (history_recorded (as_meta st1) plan). intros Hnil. apply (f_equal length) in Hnil. unfold insertCasMetaRows in Hnil.
    rewrite (zip_hashes sha256Hex) in Hnil by done. rewrite length_imap, length_map in Hnil. by destruct (ap_messages plan).
Qed.

(** ** Witnesses *)

(** A toy digest: a valid hash that tells the two archived messages apart. *)
Definition toy_sha (s : jstr) : jstr :=
  if zsum s mod 5 =? 0 then repeat 97 64 else if zsum s mod 5 =? 1 then repeat 98 64 else repeat 99 64.
Lemma toy_sha_valid x : test HASH_RE (toy_sha x) = true.
Proof. unfold toy_sha. repeat case_test; vm_compute; reflexivity. Qed.

Definition toy_store : ArchiveStore := mkStore [] empty_meta empty_index.
Definition toy_message : ChatMessage := user_text (js "u1") (js "Fix the parser.").
Definition toy_plan : ArchivePlan := planArchive toy_sha (splitTurns [toy_message]).
Definition toy_uuid (i : nat) : jstr := js "u".

Lemma storable_check m :
  chatMessage_ok m && json_okb (json_of_message m) && (zlen (utf8_encode (stringify (json_of_message m))) <=? MAX_OUTPUT) = true → storable m.
Proof. intros H. bool_prop. split; [done|]. split; [by apply json_okb_ok|done]. Qed.

Lemma toy_plan_ok : plan_ok toy_sha toy_plan.
Proof.
  split; [reflexivity| |].
  - constructor; [|constructor]. apply storable_check. vm_compute. reflexivity.
  - constructor; [apply toy_sha_valid|constructor].
Qed.

Lemma persist_crash_safe_witness :
  store_ok toy_sha id demo_dir (run_effects toy_sha id demo_dir toy_store (take 1 (persist_effects empty_index toy_plan demo_ns 4 0 toy_uuid))).1.
Proof.
  apply (persist_crash_safe toy_sha id demo_dir toy_store toy_plan demo_ns 4 0 toy_uuid 1);
    [split; cbn; set_solver|exact toy_plan_ok|by intros h i _|intros a b Ha; cbn in Ha; set_solver].
Defined.

Lemma persist_then_read_witness :
  let '(st', r) := persistArchive toy_sha id demo_dir (λ _ _, true) toy_store demo_ns toy_plan 4 0 toy_uuid in
  r = Ok tt ∧ readMessageObject toy_sha demo_gunzip (as_files st') (as_files st') demo_dir (contentDigest toy_sha toy_message) = Ok (Some toy_message).
Proof.
  pose proof (persist_then_read toy_sha id demo_gunzip demo_dir (λ _ _, true) toy_store toy_plan demo_ns 4 0 toy_uuid demo_gzip_law toy_plan_ok) as H.
  destruct (persistArchive toy_sha id demo_dir (λ _ _, true) toy_store demo_ns toy_plan 4 0 toy_uuid) as [st' r].
  destruct H as (Hr & _ & _ & Hm); [by intros h i _| |reflexivity|reflexivity|].
  - split; [intros m _; cbn; set_solver|]. cbn. intros m m' ->%list_elem_of_singleton ->%list_elem_of_singleton. done.
  - split; [exact Hr|]. apply Forall_cons in Hm as [[Hm _] _]. exact Hm.
Defined.

Definition toy_answer : ArchiveStore * result jstr HeadroomCompressResult :=
  compress toy_sha id demo_dir (λ _ _, true) (λ _, true) toy_store demo_params 0 1000000 0 toy_uuid.
Lemma toy_answer_ok : match toy_answer.2 with Ok r => hr_compacted r = true | Throw _ => False end.
Proof. vm_compute. reflexivity. Qed.

Lemma storable_checks ms :
  forallb (λ m, chatMessage_ok m && json_okb (json_of_message m) && (zlen (utf8_encode (stringify (json_of_message m))) <=? MAX_OUTPUT)) ms = true →
  Forall storable ms.
Proof. induction ms as [|m r IH]; cbn [forallb]; [done|]. intros [H1 H2]%andb_true_iff. constructor; [by apply storable_check|by apply IH]. Qed.
Lemma demo_params_storable : Forall storable (cp_messages demo_params).
Proof. apply storable_checks. vm_compute. reflexivity. Qed.
Lemma toy_fresh : fresh_names demo_dir (as_files toy_store) toy_uuid.
Proof. by intros h i _. Qed.

Lemma compress_announces_witness :
  ∃ r h, toy_answer.2 = Ok r ∧ getManifest (as_meta toy_answer.1) (cp_ns demo_params) h = Some r.
Proof.
  pose proof (compress_announces toy_sha id demo_dir (λ _ _, true) (λ _, true) toy_store demo_params 0 1000000 0 toy_uuid toy_sha_valid) as H.
  pose proof toy_answer_ok as Hok. unfold toy_answer in *.
  destruct (compress toy_sha id demo_dir (λ _ _, true) (λ _, true) toy_store demo_params 0 1000000 0 toy_uuid) as [st' res].
  destruct H as (_ & H & _); [exact demo_params_storable|exact toy_fresh|].
  cbn [fst snd] in *. destruct res as [r|]; [|done]. destruct (H r Logic.eq_refl Hok) as (h & _ & _ & _ & Hm & _). by exists r, h.
Defined.
