(* ===== verification/Nodes.v ===== *)
(** * The evidence graph ([packages/headroomd/src/store/nodes.ts])

    Immutable, content-addressed nodes of a namespace: a leaf names ranges of
    archived messages, a parent names nodes of lower level.  The two tables of
    [meta.db] that hold them are a record of their own; a node column holds the
    JSON of the node and is kept as the node.  Time stamps are not modelled. *)

From stdpp Require Import base tactics list numbers option sets strings sorting relations.
From S2P Require Import Prelude JsString JsRegex Json Codec CLine OMap Chat Operations Summary Fts Store.

(** ** Nodes and their schema ([packages/contracts/src/headroom.ts]) *)

Record LayeredSourceRef := mkSrc {
  ls_messageId : jstr; ls_contentHash : jstr; ls_partIndex : option Z; ls_start : option Z; ls_end : option Z;
  ls_historyHash : option jstr; ls_nodeId : option jstr }.
Record LayeredStateEvent := mkEvent {
  ev_kind : MemoryKind; ev_text : jstr; ev_sourceIds : list jstr; ev_eventId : jstr; ev_sourceDigests : list jstr; ev_order : Z;
  ev_tool : option jstr; ev_inputDigest : option jstr; ev_outputDigest : option jstr; ev_status : option jstr }.
Record LayeredNode := mkNode {
  ln_nodeId : jstr; ln_namespace : Namespace; ln_level : Z; ln_children : list jstr; ln_sourceRefs : list LayeredSourceRef;
  ln_stateEvents : option (list LayeredStateEvent); ln_policyVersion : jstr; ln_text : jstr; ln_tokens : Z; ln_sourceTokens : Z }.

Definition opt_ok {A} (f : A → bool) (o : option A) : bool := match o with Some a => f a | None => true end.
Definition sourceRef_ok (r : LayeredSourceRef) : bool :=
  headroomHash_ok (ls_contentHash r) && opt_ok int_nonneg (ls_partIndex r) && opt_ok int_nonneg (ls_start r)
  && opt_ok int_nonneg (ls_end r) && opt_ok headroomHash_ok (ls_historyHash r) && opt_ok headroomHash_ok (ls_nodeId r).
Definition stateEvent_ok (e : LayeredStateEvent) : bool :=
  headroomHash_ok (ev_eventId e) && forallb headroomHash_ok (ev_sourceDigests e) && int_nonneg (ev_order e)
  && opt_ok headroomHash_ok (ev_inputDigest e) && opt_ok headroomHash_ok (ev_outputDigest e).

(** [new Map(node.sourceRefs.map((ref) => [ref.messageId, ref.contentHash]))] *)
Definition source_map (refs : list LayeredSourceRef) : list (jstr * jstr) :=
  foldl (λ m r, set_key (ls_messageId r) (ls_contentHash r) m) [] refs.
Definition event_bound (sources : list (jstr * jstr)) (e : LayeredStateEvent) : bool :=
  negb (zlen (ev_sourceIds e) =? 0) && (zlen (ev_sourceIds e) =? zlen (ev_sourceDigests e))
  && forallb (λ x, bool_decide (get x.1 sources = Some x.2)) (zip (ev_sourceIds e) (ev_sourceDigests e)).
Definition node_refine (n : LayeredNode) : bool :=
  match ln_stateEvents n with
  | None => true
  | Some events =>
    (ln_level n =? 0) && (zlen (ln_children n) =? 0) && distinct (map ev_eventId events)
    && forallb (event_bound (source_map (ln_sourceRefs n))) events
  end.
Definition layeredNode_ok (n : LayeredNode) : bool :=
  headroomHash_ok (ln_nodeId n) && int_nonneg (ln_level n) && forallb headroomHash_ok (ln_children n)
  && forallb sourceRef_ok (ln_sourceRefs n)
  && opt_ok (λ events, (zlen events <=? 64) && forallb stateEvent_ok events) (ln_stateEvents n)
  && int_nonneg (ln_tokens n) && int_nonneg (ln_sourceTokens n) && node_refine n.

(** ** As JSON *)

Definition num (n : Z) : json := JNum (NInt n).
Definition strs (l : list jstr) : json := JArr (map JStr l).
Definition json_of_namespace (ns : Namespace) : json :=
  JObj [(js "projectId", JStr (projectId ns)); (js "sessionId", JStr (sessionId ns))].
Definition json_of_source (r : LayeredSourceRef) : json :=
  JObj ([(js "messageId", JStr (ls_messageId r)); (js "contentHash", JStr (ls_contentHash r))]
        ++ opt_field (js "partIndex") num (ls_partIndex r) ++ opt_field (js "start") num (ls_start r)
        ++ opt_field (js "end") num (ls_end r) ++ opt_field (js "historyHash") JStr (ls_historyHash r)
        ++ opt_field (js "nodeId") JStr (ls_nodeId r)).
Definition json_of_event (e : LayeredStateEvent) : json :=
  JObj ([(js "kind", JStr (kind_text (ev_kind e))); (js "text", JStr (ev_text e)); (js "sourceIds", strs (ev_sourceIds e));
         (js "eventId", JStr (ev_eventId e)); (js "sourceDigests", strs (ev_sourceDigests e)); (js "order", num (ev_order e))]
        ++ opt_field (js "tool") JStr (ev_tool e) ++ opt_field (js "inputDigest") JStr (ev_inputDigest e)
        ++ opt_field (js "outputDigest") JStr (ev_outputDigest e) ++ opt_field (js "status") JStr (ev_status e)).
(** The fields but [nodeId]. *)
Definition node_body (n : LayeredNode) : list (jstr * json) :=
  [(js "namespace", json_of_namespace (ln_namespace n)); (js "level", num (ln_level n)); (js "children", strs (ln_children n));
   (js "sourceRefs", JArr (map json_of_source (ln_sourceRefs n)))]
  ++ opt_field (js "stateEvents") (λ es, JArr (map json_of_event es)) (ln_stateEvents n)
  ++ [(js "policyVersion", JStr (ln_policyVersion n)); (js "text", JStr (ln_text n)); (js "tokens", num (ln_tokens n));
      (js "sourceTokens", num (ln_sourceTokens n))].
Definition json_of_node (n : LayeredNode) : json := JObj ((js "nodeId", JStr (ln_nodeId n)) :: node_body n).

(** ** The tables *)

Record NodeDb := mkNodeDb {
  nd_nodes : list ((Namespace * jstr) * LayeredNode);   (** [layered_nodes] *)
  nd_sources : list (Namespace * jstr * jstr) }.        (** [layered_node_sources]: node and hash *)
Definition empty_nodes : NodeDb := mkNodeDb [] [].

Definition IDENTITY_ERROR : jstr := js "Layered node identity mismatch".
Definition NAMESPACE_ERROR : jstr := js "Layered node namespace mismatch".
Definition EVIDENCE_ERROR : jstr := js "Layered node evidence is not archived in namespace".
Definition CHILD_ERROR : jstr := js "Layered node has invalid child".
Definition COLLISION_ERROR : jstr := js "Immutable node collision".

Section Nodes.
Context (sha256Hex : jstr → jstr).

(** [layered.ts] *)
Definition nodeContentHash (n : LayeredNode) : jstr := textDigest_of sha256Hex (canonicalJSON (JObj (node_body n))).

Definition validateIdentity (n : LayeredNode) : result jstr unit :=
  throw_if negb (jeqb (nodeContentHash n) (ln_nodeId n)) with IDENTITY_ERROR in Ok tt.

Definition readNode (db : NodeDb) (ns : Namespace) (id : jstr) : result jstr (option LayeredNode) :=
  match get (ns, id) (nd_nodes db) with
  | None => Ok None
  | Some node =>
    throw_if negb (layeredNode_ok node) with js "ZodError" in
    let! _ := validateIdentity node in
    throw_if negb (bool_decide (ln_namespace node = ns)) || negb (jeqb (ln_nodeId node) id) with NAMESPACE_ERROR in
    Ok (Some node)
  end.

Definition node_cmp (a b : LayeredNode) : Z :=
  let c := ln_level a - ln_level b in if c =? 0 then text_cmp (ln_nodeId a) (ln_nodeId b) else c.

(** The loop over the children of a node to save. *)
Fixpoint check_children (db : NodeDb) (ns : Namespace) (level : Z) (children : list jstr) : result jstr unit :=
  match children with
  | [] => Ok tt
  | c :: r =>
    let! child := readNode db ns c in
    match child with
    | None => Throw CHILD_ERROR
    | Some n => throw_if level <=? ln_level n with CHILD_ERROR in check_children db ns level r
    end
  end.

Definition saveNode (meta : MetaDb) (ns : Namespace) (db : NodeDb) (node : LayeredNode) : result jstr NodeDb :=
  throw_if negb (layeredNode_ok node) with js "ZodError" in
  let! _ := validateIdentity node in
  throw_if negb (bool_decide (ln_namespace node = ns)) with NAMESPACE_ERROR in
  throw_if existsb (λ r, negb (ownsCasMeta meta ns (ls_contentHash r))) (ln_sourceRefs node) with EVIDENCE_ERROR in
  let! _ := check_children db ns (ln_level node) (ln_children node) in
  let! existing := readNode db ns (ln_nodeId node) in
  throw_if match existing with Some e => negb (jeqb (stringify (json_of_node e)) (stringify (json_of_node node))) | None => false end
    with COLLISION_ERROR in
  Ok (mkNodeDb (if has (ns, ln_nodeId node) (nd_nodes db) then nd_nodes db else nd_nodes db ++ [((ns, ln_nodeId node), node)])
        (foldl (λ t r, insert_ignore id (ns, ln_nodeId node, ls_contentHash r) t) (nd_sources db) (ln_sourceRefs node))).

Fixpoint save_all (meta : MetaDb) (ns : Namespace) (db : NodeDb) (nodes : list LayeredNode) : result jstr NodeDb :=
  match nodes with
  | [] => Ok db
  | n :: r => let! db' := saveNode meta ns db n in save_all meta ns db' r
  end.
(** One transaction: on a throw the tables stay as they were. *)
Definition saveNodes (meta : MetaDb) (ns : Namespace) (db : NodeDb) (nodes : list LayeredNode) : NodeDb * result jstr unit :=
  match save_all meta ns db (sort_by node_cmp nodes) with
  | Ok db' => (db', Ok tt)
  | Throw e => (db, Throw e)
  end.

Definition nodesForSource (db : NodeDb) (ns : Namespace) (hash : jstr) : list jstr :=
  take 3 (sort_by text_cmp (map (λ r, r.1.2) (List.filter (λ r, bool_decide (r.1.1 = ns) && jeqb r.2 hash) (nd_sources db)))).

(** The [for] loop of [nodesForView] over the growing queue. *)
Fixpoint view_loop (fuel : nat) (db : NodeDb) (ns : Namespace) (queue visited : list jstr) (acc : list LayeredNode) :
    option (result jstr (list LayeredNode)) :=
  match fuel with
  | O => None
  | S f =>
    match queue with
    | [] => Some (Ok acc)
    | id :: rest =>
      if existsb (jeqb id) visited then view_loop f db ns rest visited acc else
      if 16384 <=? zlen visited then Some (Throw (js "Active node graph exceeds planning capacity")) else
      match readNode db ns id with
      | Throw e => Some (Throw e)
      | Ok None => view_loop f db ns rest (id :: visited) acc
      | Ok (Some node) => view_loop f db ns (rest ++ ln_children node) (id :: visited) (acc ++ [node])
      end
    end
  end.
Definition nodesForView (fuel : nat) (db : NodeDb) (ns : Namespace) (ids : list jstr) : option (result jstr (list LayeredNode)) :=
  view_loop fuel db ns (uniq ids) [] [].
End Nodes.

(** ** The graph invariant *)

Section GraphInvariant.
Context (sha256Hex : jstr → jstr).
Abbreviation hash_of_node := (nodeContentHash sha256Hex).

Record graph_ok (meta : MetaDb) (db : NodeDb) : Prop := {
  go_keys : omap_ok (nd_nodes db);
  go_node ns i n : get (ns, i) (nd_nodes db) = Some n →
    layeredNode_ok n = true ∧ hash_of_node n = i ∧ ln_nodeId n = i ∧ ln_namespace n = ns;
  go_children ns i n c : get (ns, i) (nd_nodes db) = Some n → c ∈ ln_children n →
    ∃ m, get (ns, c) (nd_nodes db) = Some m ∧ ln_level m < ln_level n;
  go_evidence ns i n r : get (ns, i) (nd_nodes db) = Some n → r ∈ ln_sourceRefs n → ownsCasMeta meta ns (ls_contentHash r) = true;
  go_indexed ns i n r : get (ns, i) (nd_nodes db) = Some n → r ∈ ln_sourceRefs n → (ns, i, ls_contentHash r) ∈ nd_sources db;
  go_sources ns i h : (ns, i, h) ∈ nd_sources db → has (ns, i) (nd_nodes db) = true ∧ ownsCasMeta meta ns h = true }.

Lemma empty_graph_ok meta : graph_ok meta empty_nodes.
Proof. split; try done; [by constructor|]. intros ns i h H. by apply elem_of_nil in H. Qed.

(** Under the invariant a read is a lookup. *)
Lemma readNode_get meta db ns i : graph_ok meta db → readNode sha256Hex db ns i = Ok (get (ns, i) (nd_nodes db)).
Proof.
  intros Hok. unfold readNode. destruct (get (ns, i) (nd_nodes db)) as [n|] eqn:E; [|done].
  destruct (go_node _ _ Hok _ _ _ E) as (H1 & H2 & H3 & H4). unfold validateIdentity. rewrite H1, H2, H3, H4.
  by rewrite !jeqb_refl, bool_decide_true by done.
Qed.

Lemma check_children_ok meta db ns level cs :
  graph_ok meta db → check_children sha256Hex db ns level cs = Ok tt →
  ∀ c, c ∈ cs → ∃ m, get (ns, c) (nd_nodes db) = Some m ∧ ln_level m < level.
Proof.
  intros Hok. induction cs as [|c r IH]; cbn [check_children]; [by intros _ c ?%elem_of_nil|].
  rewrite (readNode_get meta) by done. cbn [rbind]. destruct (get (ns, c) (nd_nodes db)) as [m|] eqn:E; [|done].
  destruct (level <=? ln_level m) eqn:El; [done|]. bool_prop. intros H c' [->|Hin]%elem_of_cons; [by exists m|by apply IH].
Qed.

Lemma get_snoc {K V} `{EqDecision K} (k k' : K) (v : V) m :
  get k (m ++ [(k', v)]) = match get k m with Some x => Some x | None => if bool_decide (k = k') then Some v else None end.
Proof. induction m as [|[k2 v2] m IH]; cbn; [done|]. destruct (bool_decide (k = k2)); [done|apply IH]. Qed.

Lemma has_get {K V} `{EqDecision K} (k : K) (m : list (K * V)) : has k m = true ↔ ∃ v, get k m = Some v.
Proof. unfold has. destruct (get k m); [split; [by eexists|done]|]. split; [done|by intros [? ?]]. Qed.

(** Inserting source rows of one node. *)
Lemma source_rows_elem (ns : Namespace) (i : jstr) (refs : list LayeredSourceRef) table x :
  x ∈ foldl (λ t r, insert_ignore id (ns, i, ls_contentHash r) t) table refs
  ↔ x ∈ table ∨ x ∈ map (λ r, (ns, i, ls_contentHash r)) refs.
Proof.
  revert table. induction refs as [|r rest IH]; intros table; [set_solver|]. cbn [foldl map]. rewrite IH.
  pose proof (insert_ignore_has id (ns, i, ls_contentHash r) table x) as H. rewrite !map_id in H. cbn [id] in H. set_solver.
Qed.

Lemma saveNode_ok meta ns db n db' :
  graph_ok meta db → saveNode sha256Hex meta ns db n = Ok db' →
  graph_ok meta db' ∧ get (ns, ln_nodeId n) (nd_nodes db') ≠ None
  ∧ ∀ k m, get k (nd_nodes db) = Some m → get k (nd_nodes db') = Some m.
Proof.
  intros Hok. unfold saveNode. destruct (layeredNode_ok n) eqn:Hn; [|done]. cbn [negb]. unfold validateIdentity.
  destruct (jeqb _ (ln_nodeId n)) eqn:Hid; [|done]. apply jeqb_eq in Hid. cbn [negb rbind].
  case_bool_decide as Hns; [|done]. cbn [negb]. destruct (existsb _ (ln_sourceRefs n)) eqn:Hev; [done|].
  destruct (check_children sha256Hex db ns (ln_level n) (ln_children n)) as [[]|] eqn:Hch; [|done]. cbn [rbind].
  rewrite (readNode_get meta) by done. cbn [rbind]. case_test; [done|]. intros [= <-]. cbn [nd_nodes nd_sources].
  pose proof (check_children_ok _ _ _ _ _ Hok Hch) as Hkids.
  assert (∀ r, r ∈ ln_sourceRefs n → ownsCasMeta meta ns (ls_contentHash r) = true) as Hown.
  { intros r Hr. destruct (ownsCasMeta meta ns (ls_contentHash r)) eqn:Eo; [done|]. rewrite <- Hev. apply existsb_exists.
    exists r. rewrite Eo. by rewrite <- list_elem_of_In. }
  set (k := (ns, ln_nodeId n)) in *. set (nodes' := if has k (nd_nodes db) then nd_nodes db else nd_nodes db ++ [(k, n)]).
  assert (∀ k' m, get k' (nd_nodes db) = Some m → get k' nodes' = Some m) as Hkeep.
  { intros k' m Hm. unfold nodes'. case_test; [done|]. by rewrite get_snoc, Hm. }
  assert (∀ k' m, get k' nodes' = Some m → get k' (nd_nodes db) = Some m ∨ (k' = k ∧ m = n)) as Hnew.
  { intros k' m. unfold nodes'. case_test; [by left|]. rewrite get_snoc. destruct (get k' (nd_nodes db)); [by left|].
    case_bool_decide; [|done]. intros [= <-]. by right. }
  assert (has k nodes' = true) as Hhas.
  { unfold nodes'. destruct (has k (nd_nodes db)) eqn:Eh; [done|]. apply has_get. rewrite get_snoc. unfold has in Eh.
    destruct (get k (nd_nodes db)); [done|]. rewrite bool_decide_true by done. by eexists. }
  split_and!; [|by apply has_get in Hhas as [? ->]|done]. split; cbn [nd_nodes nd_sources].
  - unfold nodes'. destruct (has k (nd_nodes db)) eqn:Eh; [apply (go_keys _ _ Hok)|]. unfold omap_ok. rewrite fmap_app.
    apply NoDup_app. split_and!; [apply (go_keys _ _ Hok)| |apply NoDup_singleton]. unfold has in Eh.
    destruct (get k (nd_nodes db)) eqn:Eg; [done|]. apply get_None in Eg. set_solver.
  - intros ns' i m [Hm|[[= -> ->] ->]]%Hnew; [by apply (go_node _ _ Hok)|]. split_and!; done.
  - intros ns' i m c Hm%Hnew Hc. assert (∃ p, get (ns', c) (nd_nodes db) = Some p ∧ ln_level p < ln_level m) as (p & Hp & Hl).
    { destruct Hm as [Hm|[[= -> ->] ->]]; [by apply (go_children _ _ Hok ns' i)|by apply Hkids]. }
    exists p. split; [by apply Hkeep|done].
  - intros ns' i m r Hm%Hnew Hr. destruct Hm as [Hm|[[= -> ->] ->]]; [by apply (go_evidence _ _ Hok ns' i m)|by apply Hown].
  - intros ns' i m r Hm%Hnew Hr. apply source_rows_elem. destruct Hm as [Hm|[[= -> ->] ->]]; [left; by apply (go_indexed _ _ Hok ns' i m)|].
    right. apply list_elem_of_In, in_map_iff. exists r. by rewrite <- list_elem_of_In.
  - intros ns' i h [Hin|Hin]%source_rows_elem.
    + destruct (go_sources _ _ Hok _ _ _ Hin) as [[m Hm]%has_get Ho]. split; [|done]. apply has_get. exists m. by apply Hkeep.
    + apply list_elem_of_In, in_map_iff in Hin as (r & [= <- <- <-] & Hr). split; [done|]. apply Hown. by apply list_elem_of_In.
Qed.

Lemma save_all_ok meta ns db ns_nodes db' :
  graph_ok meta db → save_all sha256Hex meta ns db ns_nodes = Ok db' →
  graph_ok meta db' ∧ (∀ k m, get k (nd_nodes db) = Some m → get k (nd_nodes db') = Some m)
  ∧ Forall (λ n, get (ns, ln_nodeId n) (nd_nodes db') ≠ None) ns_nodes.
Proof.
  revert db. induction ns_nodes as [|n r IH]; intros db Hok; cbn [save_all]; [intros [= <-]; by split_and!|].
  intros (db1 & H1 & H2)%rbind_ok. destruct (saveNode_ok _ _ _ _ _ Hok H1) as (Hok1 & Hin & Hkeep).
  destruct (IH db1 Hok1 H2) as (Hok2 & Hkeep2 & Hall). split_and!; [done|by eauto|]. constructor; [|done].
  destruct (get (ns, ln_nodeId n) (nd_nodes db1)) as [m|] eqn:E; [|done]. by rewrite (Hkeep2 _ _ E).
Qed.

(** More ledger rows never invalidate a graph. *)
Lemma graph_ok_ledger meta row db : graph_ok meta db → graph_ok (insertCasMeta meta row) db.
Proof.
  assert (∀ ns h, ownsCasMeta meta ns h = true → ownsCasMeta (insertCasMeta meta row) ns h = true) as Hown.
  { intros ns h. unfold ownsCasMeta, insertCasMeta. cbn [md_archive_refs]. unfold insert_ignore. case_test; [done|].
    rewrite existsb_app. intros ->. done. }
  intros [H1 H2 H3 H4 H5 H6]. split; try done; [intros; by eapply Hown, H4|]. intros ns i h Hin. destruct (H6 _ _ _ Hin). by eauto.
Qed.
End GraphInvariant.

(** ** The reachable graph *)

Section View.
Context (sha256Hex : jstr → jstr) (meta : MetaDb) (db : NodeDb) (ns : Namespace) (Hok : graph_ok sha256Hex meta db).

Definition child_of (i c : jstr) : Prop := ∃ n, get (ns, i) (nd_nodes db) = Some n ∧ c ∈ ln_children n.
Definition reached (ids : list jstr) (c : jstr) : Prop := ∃ i, i ∈ ids ∧ rtc child_of i c.

(** Queue entries that may still be pushed. *)
Definition pending (visited : list jstr) : nat :=
  sum_list_with (λ kn, if bool_decide (kn.1.1 = ns) && negb (existsb (jeqb kn.1.2) visited) then length (ln_children kn.2) else O) (nd_nodes db).

Lemma seen_in i l : existsb (jeqb i) l = true ↔ i ∈ l.
Proof.
  rewrite existsb_exists. setoid_rewrite jeqb_eq. split; [intros (x & Hx & ->); by apply list_elem_of_In|].
  intros H. exists i. split; [by apply list_elem_of_In|done].
Qed.

Lemma pending_visit i n visited :
  get (ns, i) (nd_nodes db) = Some n → i ∉ visited → (pending (i :: visited) + length (ln_children n) <= pending visited)%nat.
Proof.
  intros Hg Hni. assert (∀ j, existsb (jeqb j) (i :: visited) = false → existsb (jeqb j) visited = false) as Hsub.
  { intros j. cbn [existsb]. by intros [_ ?]%orb_false_iff. }
  unfold pending. induction (nd_nodes db) as [|[[ns' j] m] l IH]; [done|]. cbn [sum_list_with fst snd].
  assert (sum_list_with (λ kn, if bool_decide (kn.1.1 = ns) && negb (existsb (jeqb kn.1.2) (i :: visited)) then length (ln_children kn.2) else O) l
    <= sum_list_with (λ kn, if bool_decide (kn.1.1 = ns) && negb (existsb (jeqb kn.1.2) visited) then length (ln_children kn.2) else O) l)%nat as Hmono.
  { clear -Hsub. induction l as [|[[ns2 j2] m2] l IH]; cbn [sum_list_with fst snd]; [lia|].
    destruct (existsb (jeqb j2) (i :: visited)) eqn:E; [|rewrite (Hsub _ E); lia]. rewrite andb_false_r. lia. }
  cbn [get] in Hg. case_bool_decide as Ek.
  - injection Ek as <- <-. injection Hg as ->. rewrite bool_decide_true by done.
    replace (existsb (jeqb i) (i :: visited)) with true by (cbn [existsb]; by rewrite jeqb_refl). cbn [negb andb].
    destruct (existsb (jeqb i) visited) eqn:E; [by apply seen_in in E|]. cbn [negb]. lia.
  - specialize (IH Hg). destruct (existsb (jeqb j) (i :: visited)) eqn:E; [rewrite andb_false_r; lia|]. rewrite (Hsub _ E). lia.
Qed.

Lemma pending_skip i visited : (pending (i :: visited) <= pending visited)%nat.
Proof.
  unfold pending. induction (nd_nodes db) as [|[[ns' j] m] l IH]; cbn [sum_list_with fst snd]; [lia|].
  change (existsb (jeqb j) (i :: visited)) with (jeqb j i || existsb (jeqb j) visited).
  destruct (jeqb j i), (existsb (jeqb j) visited), (bool_decide (ns' = ns)); cbn [orb negb andb]; lia.
Qed.

(** What the loop maintains: visited ids are reachable, and their children are
    visited or queued. *)
Record view_inv (ids queue visited : list jstr) (acc : list LayeredNode) : Prop := {
  vi_nodup : NoDup visited;
  vi_reached i : i ∈ visited ∨ i ∈ queue → reached ids i;
  vi_start i : i ∈ ids → i ∈ visited ∨ i ∈ queue;
  vi_closed i c : i ∈ visited → child_of i c → c ∈ visited ∨ c ∈ queue;
  vi_acc : acc = omap (λ i, get (ns, i) (nd_nodes db)) (rev visited) }.

(** Exactly the reachable nodes, each once. *)
Definition view_of (ids : list jstr) (nodes : list LayeredNode) : Prop :=
  NoDup (map ln_nodeId nodes) ∧ ∀ n, n ∈ nodes ↔ ∃ i, reached ids i ∧ get (ns, i) (nd_nodes db) = Some n.

Lemma view_done ids visited acc : view_inv ids [] visited acc → view_of ids acc.
Proof.
  intros [H1 H2 H3 H4 ->].
  assert (∀ i, reached ids i → i ∈ visited) as Hall.
  { intros c (i & Hi & Hr). assert (i ∈ visited) as Hv by (destruct (H3 i Hi) as [?|?%elem_of_nil]; done).
    clear Hi. induction Hr as [x|x y z Hxy _ IH]; [done|]. apply IH. destruct (H4 x y Hv Hxy) as [?|?%elem_of_nil]; done. }
  split.
  - assert (NoDup (rev visited)) as Hnd by (by rewrite <- Permutation_rev).
    clear -Hnd Hok. induction (rev visited) as [|i l IH]; [constructor|].
    apply NoDup_cons in Hnd as [Hi Hl]. cbn [omap list_omap]. destruct (get (ns, i) (nd_nodes db)) as [n|] eqn:E; [|by apply IH].
    cbn [map]. constructor; [|by apply IH]. rewrite list_elem_of_In, in_map_iff. intros (m & Hm & Hin). apply Hi.
    apply list_elem_of_In, list_elem_of_omap in Hin as (j & Hj & Hg). destruct (go_node _ _ _ Hok _ _ _ E) as (_ & _ & <- & _).
    destruct (go_node _ _ _ Hok _ _ _ Hg) as (_ & _ & Hid & _). congruence.
  - intros n. rewrite list_elem_of_omap. split; intros (i & Hi & Hg); exists i; (split; [|done]).
    + apply H2. left. rewrite list_elem_of_In in *. by apply in_rev.
    + apply list_elem_of_In, in_rev. rewrite rev_involutive. by apply list_elem_of_In, Hall.
Qed.

Lemma view_loop_spec ids fuel queue visited acc :
  view_inv ids queue visited acc → (length queue + pending visited < fuel)%nat →
  ∃ res, view_loop sha256Hex fuel db ns queue visited acc = Some res
    ∧ match res with
      | Ok nodes => view_of ids nodes
      | Throw _ => ∃ l, NoDup l ∧ (16384 < length l)%nat ∧ ∀ i, i ∈ l → reached ids i
      end.
Proof.
  revert queue visited acc. induction fuel as [|f IH]; intros queue visited acc Hinv Hf; [lia|].
  destruct queue as [|i rest]; [eexists; split; [done|by eapply view_done]|]. cbn [view_loop length] in *.
  pose proof Hinv as [H1 H2 H3 H4 H5]. destruct (existsb (jeqb i) visited) eqn:Ev.
  { apply seen_in in Ev. apply IH; [|lia]. split; [done|set_solver| | |done].
    - intros j Hj. destruct (H3 j Hj) as [?|[->|?]%elem_of_cons]; auto.
    - intros j c Hj Hc. destruct (H4 j c Hj Hc) as [?|[->|?]%elem_of_cons]; auto. }
  assert (i ∉ visited) as Hni by (intros Hin%seen_in; congruence).
  destruct (16384 <=? zlen visited) eqn:Ecap; bool_prop.
  { eexists. split; [done|]. exists (i :: visited). split_and!; [by constructor|cbn; lia|]. intros j [->|?]%elem_of_cons; apply H2; set_solver. }
  rewrite (readNode_get sha256Hex meta) by done. destruct (get (ns, i) (nd_nodes db)) as [n|] eqn:Eg.
  - apply IH; [|rewrite length_app; pose proof (pending_visit i n visited Eg Hni); lia]. split.
    + by constructor.
    + intros j Hj. assert (j ∈ visited ∨ j ∈ i :: rest ∨ child_of i j) as [Hj'|[Hj'|Hj']].
      { destruct Hj as [[->|?]%elem_of_cons|[?|Hc]%elem_of_app]; [right; left; by left|by left|right; left; by right|].
        right; right. by exists n. }
      * apply H2. by left.
      * apply H2. by right.
      * destruct (H2 i) as (s & Hs & Hr); [right; by left|]. exists s. split; [done|]. by eapply rtc_r.
    + intros j Hj. destruct (H3 j Hj) as [?|[->|?]%elem_of_cons]; set_solver.
    + intros j c [->|Hj]%elem_of_cons Hc; [right; destruct Hc as (m & Hm & Hc); simplify_eq; set_solver|].
      destruct (H4 j c Hj Hc) as [?|[->|?]%elem_of_cons]; set_solver.
    + rewrite H5. cbn [rev]. rewrite omap_app. cbn. by rewrite Eg.
  - apply IH; [|pose proof (pending_skip i visited); lia]. split.
    + by constructor.
    + intros j Hj. apply H2. set_solver.
    + intros j Hj. destruct (H3 j Hj) as [?|[->|?]%elem_of_cons]; set_solver.
    + intros j c [->|Hj]%elem_of_cons Hc; [destruct Hc as (m & Hm & Hc); by simplify_eq|].
      destruct (H4 j c Hj Hc) as [?|[->|?]%elem_of_cons]; set_solver.
    + rewrite H5. cbn [rev]. rewrite omap_app. cbn. by rewrite Eg, app_nil_r.
Qed.
End View.

(** ** Claims *)

(** What can happen to the tables: a ledger row, a transaction of nodes. *)
Inductive GraphOp : Type := GArchive (row : CasMetaInput) | GSave (ns : Namespace) (nodes : list LayeredNode).
Definition graph_run (sha256Hex : jstr → jstr) (st : MetaDb * NodeDb) (op : GraphOp) : MetaDb * NodeDb :=
  match op with
  | GArchive row => (insertCasMeta st.1 row, st.2)
  | GSave ns nodes => (st.1, (saveNodes sha256Hex st.1 ns st.2 nodes).1)
  end.

Lemma graph_run_ok sha256Hex st op :
  graph_ok sha256Hex st.1 st.2 →
  graph_ok sha256Hex (graph_run sha256Hex st op).1 (graph_run sha256Hex st op).2
  ∧ ∀ k m, get k (nd_nodes st.2) = Some m → get k (nd_nodes (graph_run sha256Hex st op).2) = Some m.
Proof.
  intros Hok. destruct op as [row|ns nodes]; cbn [graph_run fst snd]; [split; [by apply graph_ok_ledger|done]|].
  unfold saveNodes. destruct (save_all sha256Hex st.1 ns st.2 _) as [db'|e] eqn:E; [|done].
  destruct (save_all_ok _ _ _ _ _ _ Hok E) as (H1 & H2 & _). by split.
Qed.

Lemma graph_runs_ok sha256Hex ops st :
  graph_ok sha256Hex st.1 st.2 →
  let st' := foldl (graph_run sha256Hex) st ops in
  graph_ok sha256Hex st'.1 st'.2 ∧ ∀ k m, get k (nd_nodes st.2) = Some m → get k (nd_nodes st'.2) = Some m.
Proof.
  revert st. induction ops as [|op ops IH]; intros st Hok; cbn [foldl]; [done|].
  destruct (graph_run_ok sha256Hex st op Hok) as [H1 H2]. destruct (IH _ H1) as [H3 H4]. split; [done|]. eauto.
Qed.

(** C35: However transactions of nodes and ledger rows are interleaved, the
    graph stays well-formed: every node is valid, stored under its own content
    hash in its own namespace, its children are stored and of lower level (so
    the graph has no cycle), its evidence is archived in its namespace and
    indexed by source; and a node once stored is read back unchanged for ever. *)
Theorem graph_invariant sha256Hex ops1 ops2 :
  let st1 := foldl (graph_run sha256Hex) (empty_meta, empty_nodes) ops1 in
  let st2 := foldl (graph_run sha256Hex) st1 ops2 in
  graph_ok sha256Hex st2.1 st2.2
  ∧ ∀ ns i n, get (ns, i) (nd_nodes st1.2) = Some n → readNode sha256Hex st2.2 ns i = Ok (Some n).
Proof.
  pose proof (graph_runs_ok sha256Hex ops1 (empty_meta, empty_nodes) (empty_graph_ok _ _)) as [H1 _].
  pose proof (graph_runs_ok sha256Hex ops2 _ H1) as [H2 H3]. split; [done|]. intros ns i n Hn.
  rewrite (readNode_get sha256Hex _ _ ns i H2). by rewrite (H3 _ _ Hn).
Qed.

(** A transaction of nodes is all or nothing: when it succeeds every node of
    it is stored, valid, with the content its identity names; when it throws
    the tables are as before. *)
Theorem saveNodes_atomic sha256Hex meta ns db nodes :
  graph_ok sha256Hex meta db →
  match saveNodes sha256Hex meta ns db nodes with
  | (db', Ok _) => graph_ok sha256Hex meta db'
      ∧ Forall (λ n, ∃ m, readNode sha256Hex db' ns (ln_nodeId n) = Ok (Some m) ∧ nodeContentHash sha256Hex m = ln_nodeId n) nodes
  | (db', Throw _) => db' = db
  end.
Proof.
  intros Hok. unfold saveNodes. destruct (save_all sha256Hex meta ns db _) as [db'|e] eqn:E; [|done].
  destruct (save_all_ok _ _ _ _ _ _ Hok E) as (H1 & _ & H2). split; [done|]. rewrite sort_by_perm in H2.
  eapply Forall_impl; [exact H2|]. intros n Hn. cbn beta in Hn. rewrite (readNode_get sha256Hex meta) by done.
  destruct (get (ns, ln_nodeId n) (nd_nodes db')) as [m|] eqn:Em; [|done]. exists m. split; [done|].
  by destruct (go_node _ _ _ H1 _ _ _ Em) as (_ & -> & _).
Qed.

(** The nodes loaded for a view are exactly those reachable from the given
    ids in the namespace, each once; the walk always ends, and it fails only
    when more than 16384 ids are reachable. *)
Theorem nodesForView_reachable sha256Hex meta db ns ids fuel :
  graph_ok sha256Hex meta db → (length (uniq ids) + pending db ns [] < fuel)%nat →
  ∃ res, nodesForView sha256Hex fuel db ns ids = Some res
    ∧ match res with
      | Ok nodes => view_of db ns ids nodes
      | Throw _ => ∃ l, NoDup l ∧ (16384 < length l)%nat ∧ ∀ i, i ∈ l → reached db ns ids i
      end.
Proof.
  intros Hok Hf. apply (view_loop_spec sha256Hex meta db ns Hok ids); [|done]. split; try done.
  - constructor.
  - intros i [?%elem_of_nil|Hi]; [done|]. exists i. split; [by apply uniq_elem|done].
  - intros i Hi. right. by apply uniq_elem.
  - by intros i c ?%elem_of_nil.
Qed.

(** ** Witnesses *)

Definition kin_sha (s : jstr) : jstr := if includes (js "parent text") s then repeat 98 64 else repeat 97 64.
Definition kin_ns : Namespace := mkNs (js "p") (js "s").
Definition kin_leaf : LayeredNode :=
  mkNode (repeat 97 64) kin_ns 0 [] [mkSrc (js "u1") (repeat 99 64) None None None None None] None (js "layered-rules-v2") (js "leaf text") 3 9.
Definition kin_parent : LayeredNode := mkNode (repeat 98 64) kin_ns 1 [repeat 97 64] [] None (js "layered-rules-v2") (js "parent text") 3 9.
Definition kin_meta : MetaDb := insertCasMeta empty_meta (mkMeta (repeat 99 64) kin_ns RUser 0 0 (js "hist") 7).
Definition kin_db : NodeDb := Eval vm_compute in (saveNodes kin_sha kin_meta kin_ns empty_nodes [kin_parent; kin_leaf]).1.

Lemma kin_saved : saveNodes kin_sha kin_meta kin_ns empty_nodes [kin_parent; kin_leaf] = (kin_db, Ok tt).
Proof. vm_compute. reflexivity. Qed.
Lemma kin_ok : graph_ok kin_sha kin_meta kin_db.
Proof.
  pose proof (save_all_ok kin_sha kin_meta kin_ns empty_nodes (sort_by node_cmp [kin_parent; kin_leaf]) kin_db (empty_graph_ok _ _)) as H.
  apply H. vm_compute. reflexivity.
Qed.

Lemma saveNodes_atomic_witness :
  ∃ m, readNode kin_sha kin_db kin_ns (repeat 98 64) = Ok (Some m) ∧ nodeContentHash kin_sha m = repeat 98 64.
Proof.
  pose proof (saveNodes_atomic kin_sha kin_meta kin_ns empty_nodes [kin_parent; kin_leaf] (empty_graph_ok _ _)) as H.
  rewrite kin_saved in H. destruct H as [_ H]. apply Forall_cons in H as [H _]. exact H.
Defined.

Lemma nodesForView_reachable_witness :
  ∃ nodes, nodesForView kin_sha 3 kin_db kin_ns [repeat 98 64] = Some (Ok nodes) ∧ view_of kin_db kin_ns [repeat 98 64] nodes.
Proof.
  destruct (nodesForView_reachable kin_sha kin_meta kin_db kin_ns [repeat 98 64] 3 kin_ok) as (res & H1 & H2); [apply Nat.ltb_lt; vm_compute; reflexivity|].
  assert (nodesForView kin_sha 3 kin_db kin_ns [repeat 98 64] = Some (Ok [kin_parent; kin_leaf])) as E by (vm_compute; reflexivity).
  rewrite E in H1. injection H1 as <-. by exists [kin_parent; kin_leaf].
Defined.
