(* ===== verification/Tokens.v ===== *)
(** * Token counters and planning caches
    ([packages/headroomd/src/token-counter.ts]; the cache and [clip] of
    [packages/headroomd/src/layered.ts])

    The digest-keyed LRU counter, the byte-bounded analysis cache, and the
    binary search for the longest text that fits a token budget.  A counter is
    a function of the text; the daemon's default is [estimateTokens]. *)

From stdpp Require Import base tactics list numbers option sets strings.
From S2P Require Import Prelude JsString JsRegex Json OMap.

(** ** Counters *)

Record TokenCounter := mkCounter { tc_id : jstr; tc_mode : jstr; tc_count : jstr → Z }.
Definition estimatedTokenCounter : TokenCounter := mkCounter (js "bluecode-unicode-estimate-v1") (js "estimated") estimateTokens.

Definition COUNTER_ERROR : jstr := js "TokenCounter must return a nonnegative integer".
Definition CAPACITY_ERROR : jstr := js "Invalid token cache capacity".

(** What a counter promises. *)
Definition count_ok (n : Z) : bool := is_safe_integer n && (0 <=? n).

(** Dropping one code unit never costs more. *)
Class MonotoneCounter (count : jstr → Z) : Prop :=
  count_drop_unit l c r : count (l ++ r) <= count (l ++ c :: r).

#[export] Instance estimate_monotone : MonotoneCounter estimateTokens.
Proof. intros l c r. unfold estimateTokens. apply ceil4_mono. rewrite !length_app. cbn [length]. lia. Qed.

(** [new Map<string, number>()] of [createCachedTokenCounter]. *)
Definition TokenCache : Type := list (jstr * Z).

Section Cached.
Context (textDigest : jstr → jstr) (counter : TokenCounter) (maxEntries : Z).

Definition createCachedTokenCounter : result jstr TokenCache :=
  throw_if negb (is_safe_integer maxEntries) || (maxEntries <? 1) with CAPACITY_ERROR in Ok [].

(** [values.delete(values.keys().next().value)] *)
Definition drop_oldest {V} (values : list (jstr * V)) : list (jstr * V) :=
  match values with [] => [] | (k, _) :: _ => delete_key k values end.

Definition cached_count (values : TokenCache) (text : jstr) : TokenCache * result jstr Z :=
  let key := textDigest text in
  match get key values with
  | Some previous => (set_key key previous (delete_key key values), Ok previous)
  | None =>
    let count := tc_count counter text in
    if negb (count_ok count) then (values, Throw COUNTER_ERROR) else
    let values := set_key key count values in
    ((if maxEntries <? zlen values then drop_oldest values else values), Ok count)
  end.

(** A client's calls, in order. *)
Fixpoint cached_counts (values : TokenCache) (texts : list jstr) : TokenCache * list (result jstr Z) :=
  match texts with
  | [] => (values, [])
  | t :: r => let '(values1, n) := cached_count values t in
              let '(values2, ns) := cached_counts values1 r in (values2, n :: ns)
  end.

(** *** The specification: an unbounded recency list of the counted texts *)

Definition plain_count (text : jstr) : result jstr Z :=
  if count_ok (tc_count counter text) then Ok (tc_count counter text) else Throw COUNTER_ERROR.

(** Most recent first; a refused text is not recorded. *)
Definition touch (recent : list (jstr * Z)) (text : jstr) : list (jstr * Z) :=
  if count_ok (tc_count counter text)
  then (textDigest text, tc_count counter text) :: delete_key (textDigest text) recent else recent.
Definition recency (texts : list jstr) : list (jstr * Z) := foldl touch [] texts.

(** The digests of the texts in play determine their counts. *)
Definition binding (texts : list jstr) : Prop :=
  ∀ s t, s ∈ texts → t ∈ texts → textDigest s = textDigest t → tc_count counter s = tc_count counter t.
End Cached.

(** ** The analysis cache of [createLayeredCache] *)

Section LayeredCache.
Context {V : Type} (json_of : V → json) (maxEntries maxBytes : Z).

Record CacheEntry := mkEntry { ce_value : V; ce_bytes : Z }.
Record LayeredCache := mkCache { lc_entries : list (jstr * CacheEntry); lc_bytes : Z }.

Definition createLayeredCache : result jstr LayeredCache :=
  throw_if negb (is_safe_integer maxEntries) || (maxEntries <? 1) || negb (is_safe_integer maxBytes) || (maxBytes <? 1)
    with js "Invalid analysis cache capacity" in
  Ok (mkCache [] 0).

Definition cache_get (c : LayeredCache) (key : jstr) : LayeredCache * option V :=
  match get key (lc_entries c) with
  | None => (c, None)
  | Some hit => (mkCache (set_key key hit (delete_key key (lc_entries c))) (lc_bytes c), Some (ce_value hit))
  end.

(** The eviction loop; [None] is fuel running out. *)
Fixpoint evict_loop (fuel : nat) (entries : list (jstr * CacheEntry)) (bytes : Z) : option LayeredCache :=
  match fuel with
  | O => None
  | S f =>
    if (maxEntries <? zlen entries) || (maxBytes <? bytes) then
      match entries with
      | [] => None   (* [entries.get(undefined)!] throws *)
      | (oldest, e) :: _ => evict_loop f (delete_key oldest entries) (bytes - ce_bytes e)
      end
    else Some (mkCache entries bytes)
  end.

Definition cache_set (c : LayeredCache) (key : jstr) (value : V) : option LayeredCache :=
  let '(entries, bytes) := match get key (lc_entries c) with
                           | Some old => (delete_key key (lc_entries c), lc_bytes c - ce_bytes old)
                           | None => (lc_entries c, lc_bytes c)
                           end in
  let size := zlen (stringify (json_of value)) * 2 in
  if maxBytes <? size then Some (mkCache entries bytes)
  else evict_loop (S (S (length entries))) (set_key key (mkEntry value size) entries) (bytes + size).

Record cache_ok (c : LayeredCache) : Prop := {
  lco_keys : omap_ok (lc_entries c);
  lco_bytes : lc_bytes c = zsum (map ce_bytes (lc_entries c).*2);
  lco_sizes : Forall (λ e, ce_bytes e = zlen (stringify (json_of (ce_value e))) * 2) (lc_entries c).*2;
  lco_bound : lc_bytes c <= maxBytes;
  lco_count : zlen (lc_entries c) <= maxEntries }.
End LayeredCache.
Arguments CacheEntry V : clear implicits.
Arguments LayeredCache V : clear implicits.

(** ** [clip] *)

(** The search loop: the largest size known to fit; [fits] is asked for sizes
    above [low] only. *)
Fixpoint search_fit (fuel : nat) (fits : nat → bool) (low high : nat) : nat :=
  match fuel with
  | O => low
  | S f =>
    if (low <? high)%nat then
      let mid := ((low + high + 1) / 2)%nat in
      if fits mid then search_fit f fits mid high else search_fit f fits low (mid - 1)
    else low
  end.

Definition ends_high (s : jstr) : bool := match last s with Some c => is_high c | None => false end.

Definition CLIP_MARKER : jstr := LF :: js "[excerpt; expand source for full evidence]".

Definition clip (count : jstr → Z) (text : jstr) (maxTokens : Z) : jstr :=
  if count text <=? maxTokens then text
  else if maxTokens <=? count CLIP_MARKER then []
  else
    let low := search_fit (length text) (λ mid, count (take mid text ++ CLIP_MARKER) <=? maxTokens) 0 (length text) in
    let low := if ends_high (take low text) then (low - 1)%nat else low in
    take low text ++ CLIP_MARKER.

(** ** Lemmas *)

Lemma search_fit_spec fuel fits low high :
  (low <= high)%nat → (high - low <= fuel)%nat →
  let n := search_fit fuel fits low high in
  (low <= n <= high)%nat ∧ (n = low ∨ fits n = true) ∧ (n = high ∨ fits (S n) = false).
Proof.
  revert low high. induction fuel as [|f IH]; intros low high Hl Hf n; subst n; cbn [search_fit].
  { split_and!; [lia|lia|by left|left; lia]. }
  destruct (low <? high)%nat eqn:E; [apply Nat.ltb_lt in E|apply Nat.ltb_ge in E; split_and!; [lia|lia|by left|left; lia]].
  assert (low < (low + high + 1) / 2 <= high)%nat as Hm.
  { split; [apply Nat.div_le_lower_bound; lia|apply Nat.Div0.div_le_upper_bound; lia]. }
  set (mid := ((low + high + 1) / 2)%nat) in *. destruct (fits mid) eqn:Ef.
  - destruct (IH mid high) as (H1 & H2 & H3); [lia|lia|]. split_and!; [lia|lia| |done].
    destruct H2 as [->|?]; by right.
  - destruct (IH low (mid - 1)%nat) as (H1 & H2 & H3); [lia|lia|]. split_and!; [lia|lia|done|].
    right. destruct H3 as [->|?]; [|done]. by replace (S (mid - 1)) with mid by lia.
Qed.

Lemma take_drop_last {A} (l : list A) n : (S n <= length l)%nat → ∃ c, take (S n) l = take n l ++ [c].
Proof. intros H. destruct (lookup_lt_is_Some_2 l n) as [c Hc]; [lia|]. exists c. by apply take_S_r. Qed.

Lemma count_take_monotone count `{!MonotoneCounter count} text m n rest :
  (n <= m)%nat → count (take n text ++ rest) <= count (take m text ++ rest).
Proof.
  induction 1 as [|m Hm IH]; [lia|]. destruct (decide (S m <= length text)%nat) as [Hl|Hl].
  - destruct (take_drop_last text m Hl) as [c ->]. rewrite <- app_assoc.
    pose proof (count_drop_unit (take m text) c rest). cbn [app]. lia.
  - rewrite (take_ge text (S m)) by lia. by rewrite (take_ge text m) in IH by lia.
Qed.

Lemma clip_prefix count text n :
  ∃ k, clip count text n = text ∨ clip count text n = [] ∨ clip count text n = take k text ++ CLIP_MARKER.
Proof. unfold clip. destruct (_ <=? _); [exists O; by left|]. destruct (_ <=? _); [exists O; by right; left|]. eexists. right. right. done. Qed.

Lemma clip_count count `{!MonotoneCounter count} text n : 0 <= n → count [] <= n → count (clip count text n) <= n.
Proof.
  intros Hn H0. unfold clip. destruct (count text <=? n) eqn:E1; [lia|]. destruct (n <=? count CLIP_MARKER) eqn:E2; [done|].
  apply Z.leb_gt in E2. set (fits := λ mid, _). destruct (search_fit_spec (length text) fits 0 (length text)) as (_ & H & _); [lia|lia|].
  set (low := search_fit _ _ _ _) in *. assert (count (take low text ++ CLIP_MARKER) <= n) as Hlow.
  { destruct H as [H|H]; [rewrite H, take_0, app_nil_l; lia|]. by apply Z.leb_le. }
  destruct (ends_high _); [|done]. etrans; [|exact Hlow]. apply count_take_monotone; [done|lia].
Qed.

Lemma snoc_high s : ends_high s = true → ∃ s' c, s = s' ++ [c] ∧ is_high c = true.
Proof. unfold ends_high. destruct (last s) as [c|] eqn:E; [|done]. apply last_Some in E as [s' ->]. eauto. Qed.

Lemma elem_of_rev {A} (x : A) l : x ∈ rev l ↔ x ∈ l.
Proof. by rewrite !list_elem_of_In, <- in_rev. Qed.
Lemma fmap_rev {A B} (f : A → B) l : f <$> rev l = rev (f <$> l).
Proof. apply map_rev. Qed.

(** *** The recency list *)

Section CachedProofs.
Context (textDigest : jstr → jstr) (counter : TokenCounter) (maxEntries : Z).
Abbreviation touch := (touch textDigest counter).
Abbreviation recency := (recency textDigest counter).
Abbreviation cached_count := (cached_count textDigest counter maxEntries).

Lemma delete_take {V} k (m : list (jstr * V)) n :
  k ∈ (take (S n) m).*1 → omap_ok m → take n (delete_key k m) = delete_key k (take (S n) m).
Proof.
  unfold omap_ok. revert n. induction m as [|[k' v] m IH]; intros n; [by rewrite take_nil; set_solver|].
  rewrite fmap_cons, firstn_cons, fmap_cons. cbn [fst]. intros Hin [Hn Hd]%NoDup_cons.
  change (delete_key k (?x :: ?l)) with (if negb (bool_decide (k = x.1)) then x :: delete_key k l else delete_key k l). cbn [fst].
  case_bool_decide as E; cbn [negb].
  - subst k'. rewrite !delete_absent; [done| |done]. intros Hin'. apply Hn.
    apply list_elem_of_fmap in Hin' as (y & -> & Hy). apply list_elem_of_fmap. exists y. split; [done|].
    rewrite <- (take_drop n m). set_solver.
  - apply elem_of_cons in Hin as [?|Hin]; [done|]. destruct n as [|n]; [by rewrite take_0 in Hin; set_solver|].
    rewrite firstn_cons. f_equal. by apply IH.
Qed.

Lemma delete_take_absent {V} k (m : list (jstr * V)) n :
  k ∉ (take (S n) m).*1 → take n (delete_key k m) = take n m.
Proof.
  revert n. induction m as [|[k' v] m IH]; intros n; [done|]. rewrite firstn_cons, fmap_cons. cbn [fst]. intros Hin.
  change (delete_key k (?x :: ?l)) with (if negb (bool_decide (k = x.1)) then x :: delete_key k l else delete_key k l). cbn [fst].
  rewrite bool_decide_false by set_solver. cbn [negb]. destruct n as [|n]; [done|]. rewrite !firstn_cons. f_equal. apply IH. set_solver.
Qed.

Lemma delete_rev {V} k (m : list (jstr * V)) : delete_key k (rev m) = rev (delete_key k m).
Proof.
  unfold delete_key. induction m as [|x m IH]; [done|]. cbn [rev List.filter]. rewrite List.filter_app, IH. cbn [List.filter].
  destruct (negb _); [done|by rewrite app_nil_r].
Qed.

Lemma recency_snoc texts t : recency (texts ++ [t]) = touch (recency texts) t.
Proof. unfold Tokens.recency. by rewrite foldl_app. Qed.

Lemma recency_ok texts : omap_ok (recency texts).
Proof.
  induction texts as [|t texts IH] using rev_ind; [apply NoDup_nil_2|]. rewrite recency_snoc. unfold Tokens.touch.
  destruct (count_ok _); [|done]. unfold omap_ok. rewrite fmap_cons. apply NoDup_cons. split; [|by apply delete_ok].
  cbn [fst]. by apply get_None, get_delete_eq.
Qed.

Lemma recency_entry texts k n :
  (k, n) ∈ recency texts → ∃ t, t ∈ texts ∧ k = textDigest t ∧ n = tc_count counter t ∧ count_ok n = true.
Proof.
  induction texts as [|t texts IH] using rev_ind; [set_solver|]. rewrite recency_snoc. unfold Tokens.touch.
  intros H. assert ((k, n) ∈ recency texts ∨ (count_ok (tc_count counter t) = true ∧ (k, n) = (textDigest t, tc_count counter t))) as [Hin|[Hc [= -> ->]]].
  { destruct (count_ok (tc_count counter t)) in H |- *; [|by left]. apply elem_of_cons in H as [?|H]; [right; by split|left].
    unfold delete_key in H. rewrite list_elem_of_In in H. apply filter_In in H as [H _]. by rewrite list_elem_of_In. }
  - destruct (IH Hin) as (u & Hu & ?). exists u. split; [set_solver|done].
  - exists t. split; [set_solver|done].
Qed.

(** The cache holds the most recently used part of the recency list. *)
Definition lru_inv (values : TokenCache) (texts : list jstr) : Prop :=
  values = rev (take (Z.to_nat maxEntries) (recency texts)).

Lemma lru_get values texts k v : lru_inv values texts → get k values = Some v → (k, v) ∈ take (Z.to_nat maxEntries) (recency texts).
Proof. intros -> H%get_elem. by apply elem_of_rev. Qed.

Lemma cached_count_step values texts t :
  1 <= maxEntries → binding textDigest counter (texts ++ [t]) → lru_inv values texts →
  let r := cached_count values t in lru_inv r.1 (texts ++ [t]) ∧ r.2 = plain_count counter t.
Proof.
  intros Hmax Hb Hinv r. subst r. unfold Tokens.cached_count, lru_inv. rewrite recency_snoc.
  destruct (Z.to_nat maxEntries) as [|n] eqn:En; [lia|]. set (k := textDigest t). pose proof (recency_ok texts) as Hok.
  destruct (get k values) as [p|] eqn:Eg.
  - pose proof (lru_get _ _ _ _ Hinv Eg) as Hin. rewrite En in Hin.
    assert ((k, p) ∈ recency texts) as Hrec by (rewrite <- (take_drop (S n)); set_solver).
    destruct (recency_entry _ _ _ Hrec) as (u & Hu & Hk & -> & Hc).
    assert (tc_count counter t = tc_count counter u) as Ec by (apply (Hb t u); [set_solver|set_solver|done]).
    unfold plain_count, Tokens.touch. fold k. rewrite Ec, Hc. split; [|done]. cbn [fst].
    rewrite set_absent by apply get_delete_eq. rewrite firstn_cons. cbn [rev]. f_equal. rewrite Hinv, En, delete_rev. f_equal.
    symmetry. apply delete_take; [|done]. apply list_elem_of_fmap. by exists (k, tc_count counter u).
  - unfold plain_count, Tokens.touch. fold k. destruct (count_ok (tc_count counter t)) eqn:Ec; cbn [negb fst snd]; [|by rewrite Hinv, En].
    split; [|done]. rewrite set_absent by done. rewrite firstn_cons. cbn [rev].
    apply get_None in Eg. unfold lru_inv in Hinv. rewrite En in Hinv. subst values. rewrite fmap_rev, elem_of_rev in Eg. rewrite delete_take_absent by done.
    assert (zlen (rev (take (S n) (recency texts)) ++ [(k, tc_count counter t)]) = Z.of_nat (Nat.min (S n) (length (recency texts))) + 1) as ->
      by (rewrite length_app, length_rev, length_take; cbn [length]; lia).
    destruct (maxEntries <? _) eqn:El.
    + apply Z.ltb_lt in El. destruct (lookup_lt_is_Some_2 (recency texts) n) as [x Hx]; [lia|].
      rewrite (take_S_r _ _ _ Hx) in Eg |- *. rewrite rev_app_distr. cbn [rev app drop_oldest]. destruct x as [k' v].
      apply delete_head.
      assert (NoDup (take (S n) (recency texts)).*1) as Hd.
      { unfold omap_ok in Hok. rewrite <- (take_drop (S n) (recency texts)), fmap_app in Hok. by apply NoDup_app in Hok as [? _]. }
      rewrite (take_S_r _ _ _ Hx), fmap_app, NoDup_app in Hd. rewrite fmap_app, fmap_rev, elem_of_app, elem_of_rev.
      rewrite fmap_app, elem_of_app in Eg. cbn in Eg |- *. set_solver.
    + apply Z.ltb_ge in El. rewrite (take_ge _ (S n)), (take_ge _ n) by lia. done.
Qed.
End CachedProofs.

(** *** The analysis cache *)

Section CacheProofs.
Context {V : Type} (json_of : V → json) (maxEntries maxBytes : Z).
Abbreviation evict_loop := (evict_loop (V := V) maxEntries maxBytes).
Abbreviation entries_bytes l := (zsum (map ce_bytes l.*2)).

Lemma evict_loop_spec fuel (entries : list (jstr * CacheEntry V)) :
  1 <= maxEntries → 0 <= maxBytes → (length entries < fuel)%nat → omap_ok entries →
  ∃ i, evict_loop fuel entries (entries_bytes entries) = Some (mkCache (drop i entries) (entries_bytes (drop i entries)))
    ∧ entries_bytes (drop i entries) <= maxBytes ∧ zlen (drop i entries) <= maxEntries
    ∧ (∀ x, last entries = Some x → ce_bytes x.2 <= maxBytes → (i < length entries)%nat).
Proof.
  intros Hm Hb. revert entries. induction fuel as [|f IH]; intros entries Hf Hok; [lia|]. cbn [Tokens.evict_loop].
  destruct (_ || _) eqn:E.
  - destruct entries as [|[k e] rest]; [apply orb_true_iff in E as [E%Z.ltb_lt|E%Z.ltb_lt]; cbn in E; lia|]. apply NoDup_cons in Hok as [Hk Hd]. rewrite delete_head by exact Hk.
    rewrite fmap_cons. cbn [map snd]. rewrite zsum_cons. replace (_ + _ - _) with (entries_bytes rest) by lia.
    destruct (IH rest) as (i & -> & H1 & H2 & H3); [cbn in Hf; lia|exact Hd|]. exists (S i). split_and!; [done|done|done|].
    intros x Hx Hs. cbn [length]. destruct rest as [|y rest]; [|rewrite last_cons_cons in Hx; specialize (H3 x Hx Hs); lia].
    exfalso. injection Hx as <-. apply orb_true_iff in E as [E%Z.ltb_lt|E%Z.ltb_lt]; cbn in E, Hs; lia.
  - exists O. apply orb_false_iff in E as [E1 E2]. apply Z.ltb_ge in E1, E2. rewrite drop_0. split_and!; [done|done|done|].
    intros x Hx _. destruct entries; [done|cbn; lia].
Qed.

Lemma delete_bytes (entries : list (jstr * CacheEntry V)) key old :
  omap_ok entries → get key entries = Some old → entries_bytes entries = ce_bytes old + entries_bytes (delete_key key entries).
Proof.
  intros Hok Hg. assert (set_key key old entries = entries) as E.
  { clear Hok. induction entries as [|[k e] l IH]; [done|]. cbn [get set_key] in *. case_bool_decide; [by simplify_eq|by rewrite IH]. }
  pose proof (set_values key old entries Hok) as Hp. rewrite E in Hp.
  rewrite (zsum_Permutation _ (map ce_bytes (old :: (delete_key key entries).*2))); [done|]. by apply Permutation_map.
Qed.

Lemma delete_length {W} (m : list (jstr * W)) key old :
  omap_ok m → get key m = Some old → length m = S (length (delete_key key m)).
Proof.
  intros Hok Hg. pose proof (set_values key old m Hok) as Hp%Permutation_length. rewrite length_cons, !length_fmap in Hp. rewrite <- Hp.
  pose proof (size_set key old m) as Hs. unfold has in Hs. rewrite Hg in Hs. lia.
Qed.

Lemma delete_Forall {W} (P : W → Prop) (m : list (jstr * W)) key : Forall P m.*2 → Forall P (delete_key key m).*2.
Proof.
  unfold delete_key. induction m as [|[k v] m IH]; [done|]. rewrite fmap_cons. intros [Hv Hm]%Forall_cons. cbn [List.filter].
  destruct (negb _); [constructor; [done|]|]; by apply IH.
Qed.

Lemma drop_ok {W} (m : list (jstr * W)) i : omap_ok m → omap_ok (drop i m).
Proof. unfold omap_ok. intros H. rewrite <- (take_drop i m), fmap_app in H. by apply NoDup_app in H as (_ & _ & ?). Qed.

(** Removing the key and appending an entry for it. *)
Lemma append_ok (entries : list (jstr * CacheEntry V)) key e :
  omap_ok entries → omap_ok (delete_key key entries ++ [(key, e)])
  ∧ entries_bytes (delete_key key entries ++ [(key, e)]) = entries_bytes (delete_key key entries) + ce_bytes e.
Proof.
  intros Hok. split; [|rewrite fmap_app, map_app, zsum_app; cbn; lia].
  rewrite <- set_absent by apply get_delete_eq. by apply set_ok, delete_ok.
Qed.

(** What [cache_set] and [cache_get] do to a well-formed cache, the entry
    being removed first. *)
Lemma cache_set_ok c key value :
  1 <= maxEntries → 0 <= maxBytes → cache_ok json_of maxEntries maxBytes c →
  ∃ c', cache_set json_of maxEntries maxBytes c key value = Some c' ∧ cache_ok json_of maxEntries maxBytes c'
    ∧ (zlen (stringify (json_of value)) * 2 <= maxBytes → get key (lc_entries c') = Some (mkEntry value (zlen (stringify (json_of value)) * 2))).
Proof.
  intros Hm Hb [Hk Hs Hz Hbo Hc]. unfold cache_set. set (size := zlen _ * 2). set (rest := delete_key key (lc_entries c)).
  assert (match get key (lc_entries c) with
          | Some old => (rest, lc_bytes c - ce_bytes old)
          | None => (lc_entries c, lc_bytes c) end = (rest, entries_bytes rest)) as ->.
  { destruct (get key (lc_entries c)) as [old|] eqn:Eg.
    - rewrite Hs, (delete_bytes _ _ _ Hk Eg). f_equal. fold rest. lia.
    - unfold rest. rewrite delete_absent by (by apply get_None). by rewrite Hs. }
  assert (entries_bytes rest <= maxBytes ∧ zlen rest <= maxEntries) as [Hr1 Hr2].
  { unfold rest. destruct (get key (lc_entries c)) as [old|] eqn:Eg.
    - pose proof (delete_bytes _ _ _ Hk Eg). pose proof (delete_length _ _ _ Hk Eg).
      assert (0 <= ce_bytes old) by (rewrite Forall_forall in Hz; rewrite (Hz old); [lia|];
        apply list_elem_of_fmap; exists (key, old); split; [done|by apply get_elem]). lia.
    - rewrite delete_absent by (by apply get_None). lia. }
  assert (Forall (λ e, ce_bytes e = zlen (stringify (json_of (ce_value e))) * 2) rest.*2) as Hz' by (by apply delete_Forall).
  destruct (maxBytes <? size) eqn:El; [apply Z.ltb_lt in El|apply Z.ltb_ge in El].
  { eexists. split; [done|]. split; [split; cbn [lc_entries lc_bytes]; [by apply delete_ok|done..]|lia]. }
  rewrite set_absent by apply get_delete_eq. destruct (append_ok (lc_entries c) key (mkEntry value size) Hk) as [Ha1 Ha2]. fold rest in Ha1, Ha2.
  cbn [ce_bytes] in Ha2. rewrite <- Ha2.
  destruct (evict_loop_spec (S (S (length rest))) (rest ++ [(key, mkEntry value size)])) as (i & -> & H1 & H2 & H3);
    [done|done|rewrite length_app; cbn; lia|done|].
  assert (i < length (rest ++ [(key, mkEntry value size)]))%nat as Hi.
  { apply (H3 (key, mkEntry value size)); [by rewrite last_snoc|done]. }
  eexists. split; [done|]. split; [split; cbn [lc_entries lc_bytes]; [by apply drop_ok|done| |done|done]|intros _; cbn [lc_entries]].
  - rewrite fmap_drop. apply Forall_drop. rewrite fmap_app. apply Forall_app. split; [done|]. by repeat constructor.
  - apply elem_get; [by apply drop_ok|]. rewrite length_app in Hi. cbn in Hi. rewrite drop_app_le by lia. set_solver.
Qed.

Lemma cache_get_ok c key :
  cache_ok json_of maxEntries maxBytes c → cache_ok json_of maxEntries maxBytes (cache_get c key).1.
Proof.
  intros [Hk Hs Hz Hbo Hc]. unfold cache_get. destruct (get key (lc_entries c)) as [hit|] eqn:Eg; [|by split]. cbn [fst].
  pose proof (delete_bytes _ _ _ Hk Eg). pose proof (delete_length _ _ _ Hk Eg).
  rewrite set_absent by apply get_delete_eq. destruct (append_ok (lc_entries c) key hit Hk) as [Ha1 Ha2].
  split; cbn [lc_entries lc_bytes]; [done|lia| |done|rewrite length_app; cbn; lia].
  rewrite fmap_app, Forall_app. split; [by apply delete_Forall|]. constructor; [|done].
  rewrite Forall_forall in Hz. apply Hz. apply list_elem_of_fmap. exists (key, hit). split; [done|by apply get_elem].
Qed.

(** What the operations do to the entries, seen as a map. *)
Lemma cache_get_value (c : LayeredCache V) key : (cache_get c key).2 = ce_value <$> get key (lc_entries c).
Proof. unfold cache_get. by destruct (get key (lc_entries c)). Qed.

Lemma cache_get_lookup (c : LayeredCache V) key k : get k (lc_entries (cache_get c key).1) = get k (lc_entries c).
Proof.
  unfold cache_get. destruct (get key (lc_entries c)) as [hit|] eqn:E; [|done]. cbn [fst lc_entries].
  destruct (decide (k = key)) as [->|Hne]; [by rewrite get_set_eq|]. by rewrite get_set_ne, get_delete_ne.
Qed.

Lemma get_delete_Some {W} (m : list (jstr * W)) key k v : get k (delete_key key m) = Some v → get k m = Some v.
Proof.
  destruct (decide (k = key)) as [->|Hne]; [by rewrite get_delete_eq|]. by rewrite get_delete_ne.
Qed.

Lemma evict_lookup fuel entries bytes c k e :
  evict_loop fuel entries bytes = Some c → get k (lc_entries c) = Some e → get k entries = Some e.
Proof.
  revert entries bytes. induction fuel as [|f IH]; intros entries bytes; [done|]. cbn [Tokens.evict_loop].
  destruct (_ || _); [|by intros [= <-]]. destruct entries as [|[oldest x] rest]; [done|]. intros H Hg. eapply get_delete_Some. by eapply IH.
Qed.

Lemma cache_set_lookup (c c' : LayeredCache V) key value k e :
  cache_set json_of maxEntries maxBytes c key value = Some c' → get k (lc_entries c') = Some e →
  (k = key ∧ ce_value e = value) ∨ get k (lc_entries c) = Some e.
Proof.
  unfold cache_set. set (eb := match get key (lc_entries c) with Some _ => _ | None => _ end).
  assert (∀ x, get k eb.1 = Some x → get k (lc_entries c) = Some x) as Heb.
  { unfold eb. destruct (get key (lc_entries c)); cbn [fst]; [|done]. intros x. apply get_delete_Some. }
  destruct eb as [entries bytes]. cbn [fst] in Heb. destruct (_ <? _); [intros [= <-] Hg; right; by apply Heb|].
  intros H Hg. apply (evict_lookup _ _ _ _ _ _ H) in Hg. destruct (decide (k = key)) as [->|Hne].
  - rewrite get_set_eq in Hg. injection Hg as <-. by left.
  - rewrite get_set_ne in Hg by done. right. by apply Heb.
Qed.
End CacheProofs.

(** ** Claims *)

(** The counting cache is an exact least-recently-used cache.  Over any
    sequence of calls it answers what the counter answers (or its contract
    error), and it holds the [maxEntries] most recently counted distinct
    texts, whenever digests do not confuse texts with different counts. *)
Theorem cached_counts_lru textDigest counter maxEntries texts :
  1 <= maxEntries → binding textDigest counter texts →
  cached_counts textDigest counter maxEntries [] texts
  = (rev (take (Z.to_nat maxEntries) (recency textDigest counter texts)), map (plain_count counter) texts).
Proof.
  intros Hm. assert (∀ later before values, binding textDigest counter (before ++ later) → lru_inv textDigest counter maxEntries values before →
    cached_counts textDigest counter maxEntries values later
    = (rev (take (Z.to_nat maxEntries) (recency textDigest counter (before ++ later))), map (plain_count counter) later)) as H.
  { induction later as [|t later IH]; intros before values Hb Hinv; [by rewrite app_nil_r, Hinv|]. cbn [cached_counts].
    destruct (cached_count_step textDigest counter maxEntries values before t Hm) as [H1 H2]; [|done|].
    { intros s u Hs Hu. apply Hb; set_solver. }
    destruct (cached_count _ _ _ _ _) as [values1 n]. cbn [fst snd] in H1, H2. rewrite cons_middle, app_assoc in Hb |- *.
    by rewrite (IH _ _ Hb H1), H2. }
  intros Hb. apply (H texts [] []); [done|]. unfold lru_inv. cbn [recency foldl]. by rewrite take_nil.
Qed.

(** The analysis cache keeps to its budget.  From a well-formed state both
    operations end in a well-formed state — no key twice, the byte counter is
    the sum of the sizes held, at most [maxBytes] and [maxEntries] — the
    eviction loop terminates, and a value that fits is found again. *)
Theorem layered_cache_bounded {V} (json_of : V → json) maxEntries maxBytes c :
  1 <= maxEntries → 0 <= maxBytes → cache_ok json_of maxEntries maxBytes c →
  (∀ key, cache_ok json_of maxEntries maxBytes (cache_get c key).1)
  ∧ ∀ key value, ∃ c', cache_set json_of maxEntries maxBytes c key value = Some c' ∧ cache_ok json_of maxEntries maxBytes c'
      ∧ (zlen (stringify (json_of value)) * 2 <= maxBytes → (cache_get c' key).2 = Some value).
Proof.
  intros Hm Hb Hok. split; [intros; by apply cache_get_ok|]. intros key value.
  destruct (cache_set_ok json_of maxEntries maxBytes c key value Hm Hb Hok) as (c' & H1 & H2 & H3).
  exists c'. split; [done|]. split; [done|]. intros Hs. unfold cache_get. by rewrite (H3 Hs).
Qed.

(** ** Witnesses *)

Lemma cached_counts_lru_witness :
  cached_counts id estimatedTokenCounter 2 [] [js "a"; js "bcdef"; js "a"; js "ghi"]
  = ([(js "a", 1); (js "ghi", 1)], [Ok 1; Ok 2; Ok 1; Ok 1]).
Proof.
  rewrite (cached_counts_lru id estimatedTokenCounter 2); [vm_compute; reflexivity|lia|]. intros s t _ _ E. unfold id in E. by rewrite E.
Defined.

Lemma layered_cache_bounded_witness :
  ∃ c', cache_set JStr 2 20 (mkCache [] 0) (js "k") (js "value") = Some c' ∧ (cache_get c' (js "k")).2 = Some (js "value").
Proof.
  destruct (layered_cache_bounded JStr 2 20 (mkCache [] 0)) as [_ H]; [lia|lia|split; cbn; [apply NoDup_nil_2|done|done|lia|lia]|].
  destruct (H (js "k") (js "value")) as (c' & H1 & _ & H3). exists c'. split; [exact H1|apply H3; vm_compute; discriminate].
Defined.
