(* ===== verification/Evidence.v ===== *)
(** * What a message offers to the layered planner
    ([packages/headroomd/src/layered.ts]: [materialRanges], [skeleton],
    [analyze], [layeredMessageTokens])

    Explicit reference material in texts, the bounded skeleton of a tool
    output, the user text that is always kept, and the task-state entries. *)

From stdpp Require Import base tactics list numbers option sets strings.
From S2P Require Import Prelude JsString JsRegex Json OMap Chat Operations Nodes Tokens.

(** ** Patterns *)

Definition FENCES : regex := Eval vm_compute in re "```[^\n]*\n[\s\S]*?\n```".
Definition REQUESTED_RE : regex := Eval vm_compute in re_i "\b(?:implement|generate|write|create|desired|proposed|template)\b|实现|编写|生成|期望|待实现|模板".
Definition MATERIAL_RE : regex := Eval vm_compute in
  re_i "(?:\b(?:observed logs?|logs?|terminal output|file contents?|source file|reference material)|日志|终端输出|文件内容|参考材料|运行输出)\s*[:：]?\s*$".
Definition FAIL_STATUS_RE : regex := Eval vm_compute in re_i "error|fail".
Definition FAIL_TEXT_RE : regex := Eval vm_compute in re_i "\b(?:error|failed|exception|panic|traceback)\b|失败|错误".
Definition TEST_TOOL_RE : regex := Eval vm_compute in re_i "test|pytest|vitest|jest|typecheck|check|build".
Definition WRITE_TOOL_RE : regex := Eval vm_compute in re_i "write|edit|patch".
Definition SEARCH_TOOL_RE : regex := Eval vm_compute in re_i "grep|search|glob".
Definition DIAGNOSTIC_RE : regex := Eval vm_compute in
  re_i "\b(?:error|fail(?:ed|ure)?|exception|panic|traceback|assert|expected|received)\b|失败|错误|^not ok".
Definition TEST_LINE_RE : regex := Eval vm_compute in re_i "pass|fail|tests?|suites?|duration|exit|通过|失败".
Definition CHANGE_LINE_RE : regex := Eval vm_compute in re_i "^[-+]|changed|updated|written|modified|file".
Definition STATE_RE : regex := Eval vm_compute in
  re_i "\b(?:todo|pending|next|unresolved|decided|decision|changed|updated|verified|passed|failed)\b|待办|下一步|尚未|决定|修改|验证|失败".
Definition OPEN_RE : regex := Eval vm_compute in re_i "\b(?:todo|pending|next|unresolved)\b|待办|下一步|尚未".
Definition FAILURES_RE : regex := Eval vm_compute in re_i "fail|error|失败|错误".
Definition CHANGES_RE : regex := Eval vm_compute in re_i "changed|updated|修改".
Definition VERIFIED_RE : regex := Eval vm_compute in re_i "verified|passed|验证|通过".

Example evidence_patterns_parse :
  forallb parses ["```[^\n]*\n[\s\S]*?\n```"; "\b(?:implement|generate|write|create|desired|proposed|template)\b|实现|编写|生成|期望|待实现|模板";
    "(?:\b(?:observed logs?|logs?|terminal output|file contents?|source file|reference material)|日志|终端输出|文件内容|参考材料|运行输出)\s*[:：]?\s*$";
    "error|fail"; "\b(?:error|failed|exception|panic|traceback)\b|失败|错误"; "test|pytest|vitest|jest|typecheck|check|build"; "write|edit|patch";
    "grep|search|glob"; "\b(?:error|fail(?:ed|ure)?|exception|panic|traceback|assert|expected|received)\b|失败|错误|^not ok";
    "pass|fail|tests?|suites?|duration|exit|通过|失败"; "^[-+]|changed|updated|written|modified|file";
    "\b(?:todo|pending|next|unresolved|decided|decision|changed|updated|verified|passed|failed)\b|待办|下一步|尚未|决定|修改|验证|失败";
    "\b(?:todo|pending|next|unresolved)\b|待办|下一步|尚未"; "fail|error|失败|错误"; "changed|updated|修改"; "verified|passed|验证|通过"]%string = true.
Proof. vm_compute. reflexivity. Qed.

(** ** Data *)

Definition LAYERED_POLICY_VERSION : jstr := js "layered-rules-v2".
Definition NODE_MARKER : jstr := js "[headroom node:".

Inductive ObservationKind : Type := KToolOutput | KTextRange.
#[export] Instance ObservationKind_dec : EqDecision ObservationKind.
Proof. solve_decision. Defined.

Record Observation := mkObs {
  ob_partIndex : Z; ob_kind : ObservationKind; ob_range : option (Z * Z);   (** [start] and [end] *)
  ob_fieldDigest : jstr; ob_sourceTokens : Z; ob_text : jstr; ob_memoryKind : MemoryKind; ob_key : jstr }.

Record StateEntry := mkSE {
  se_partIndex : Z; se_kind : MemoryKind; se_text : jstr; se_tool : option jstr; se_inputDigest : option jstr;
  se_outputDigest : option jstr; se_status : option jstr }.

Record Analysis := mkAnalysis {
  an_digest : jstr; an_tokens : Z; an_observations : list Observation; an_protectedMemory : list MemoryEntry;
  an_stateEntries : list StateEntry }.

Definition kind_of_observation (k : ObservationKind) : jstr :=
  match k with KToolOutput => js "tool-output" | KTextRange => js "text-range" end.
Definition json_of_observation (o : Observation) : json :=
  JObj ([(js "partIndex", num (ob_partIndex o)); (js "kind", JStr (kind_of_observation (ob_kind o)))]
        ++ match ob_range o with Some (s, e) => [(js "start", num s); (js "end", num e)] | None => [] end
        ++ [(js "fieldDigest", JStr (ob_fieldDigest o)); (js "sourceTokens", num (ob_sourceTokens o)); (js "text", JStr (ob_text o));
            (js "memoryKind", JStr (kind_text (ob_memoryKind o))); (js "key", JStr (ob_key o))]).
Definition json_of_state_entry (e : StateEntry) : json :=
  JObj ([(js "partIndex", num (se_partIndex e)); (js "kind", JStr (kind_text (se_kind e))); (js "text", JStr (se_text e))]
        ++ opt_field (js "tool") JStr (se_tool e) ++ opt_field (js "inputDigest") JStr (se_inputDigest e)
        ++ opt_field (js "outputDigest") JStr (se_outputDigest e) ++ opt_field (js "status") JStr (se_status e)).
Definition json_of_analysis (a : Analysis) : json :=
  JObj [(js "digest", JStr (an_digest a)); (js "tokens", num (an_tokens a));
        (js "observations", JArr (map json_of_observation (an_observations a)));
        (js "protectedMemory", JArr (map json_of_entry (an_protectedMemory a)));
        (js "stateEntries", JArr (map json_of_state_entry (an_stateEntries a)))].

(** ** Reference material *)

(** The text before a fence, its last 200 units. *)
Definition fence_prefix (text : jstr) (start : nat) : jstr := trim (slice text (start - 200) start).

Definition material_range (text : jstr) (m : rmatch_result) : list (nat * nat) :=
  let prefix := fence_prefix text (rm_index m) in
  if test REQUESTED_RE prefix then []
  else if test MATERIAL_RE prefix then [(rm_index m, rm_index m + length (rm_text m))%nat] else [].
Definition materialRanges (text : jstr) : list (nat * nat) := flat_map (material_range text) (match_all FENCES text).

(** ** Skeletons of tool outputs *)

(** [String(value)]; an object prints its tag. *)
Fixpoint js_String (v : json) : jstr :=
  match v with
  | JNull => js "null"
  | JBool b => if b then js "true" else js "false"
  | JNum n => jnum_to_string n
  | JStr s => s
  | JArr l => join (js ",") (map (λ x, match x with JNull => [] | _ => js_String x end) l)
  | JObj _ => js "[object Object]"
  end.

(** [String((input as Record).command ?? "")] when the input is an object. *)
Definition command_of (input : option json) : jstr :=
  match input with
  | Some (JObj l) => match assoc (js "command") l with Some JNull | None => [] | Some v => js_String v end
  | _ => []
  end.

(** [canonicalJSON(undefined)] is the JSON string of its name. *)
Definition canonicalJSON_opt (v : option json) : jstr := canonicalJSON (default (JStr (js "undefined")) v).

Section Skeleton.
Context (count : jstr → Z).

(** The loop over the lines of a failing output: a matching line and the two
    after it, until the diagnosis exceeds 320 tokens. *)
Fixpoint diagnose (skip : nat) (lines : list jstr) (diagnostics : list jstr) : list jstr :=
  match lines with
  | [] => diagnostics
  | line :: rest =>
    match skip with
    | S k => diagnose k rest diagnostics
    | O =>
      if test DIAGNOSTIC_RE line then
        let diagnostics := diagnostics ++ take 3 lines in
        if 320 <? count (join [LF] diagnostics) then diagnostics else diagnose 2 rest diagnostics
      else diagnose 0 rest diagnostics
    end
  end.

Definition last_n {A} (n : nat) (l : list A) : list A := drop (length l - n) l.

Definition diagnostics_of (failure isTest isWrite : bool) (tool : jstr) (lines : list jstr) : list jstr :=
  let found :=
    if failure then diagnose 0 lines []
    else if isTest then last_n 8 (List.filter (test TEST_LINE_RE) lines)
    else if isWrite then take 6 (List.filter (test CHANGE_LINE_RE) lines)
    else if test SEARCH_TOOL_RE tool then take 5 (List.filter (λ l, negb (is_blank l)) lines)
    else [] in
  match found with
  | [] => if failure then take 3 lines ++ last_n 3 lines else []
  | _ => found
  end.

Record Skeleton := mkSkeleton { sk_text : jstr; sk_kind : MemoryKind; sk_safe : bool }.

Definition non_empty (s : jstr) : bool := match s with [] => false | _ => true end.

Definition skeleton (tool : jstr) (input : option json) (status output error : jstr) : Skeleton :=
  let args := match input with None => [] | Some v => canonicalJSON v end in
  let failure := test FAIL_STATUS_RE status || test FAIL_TEXT_RE (output ++ error) in
  let isTest := test TEST_TOOL_RE (tool ++ js " " ++ command_of input) in
  let isWrite := test WRITE_TOOL_RE tool in
  let kind := if failure then Kfailures else if isWrite then Kchanges else if isTest then Kverification else Kdecisions in
  let diagnostics := diagnostics_of failure isTest isWrite tool (split_on LF output) in
  let header := clip count (js "tool " ++ tool ++ js " (" ++ status ++ js ") input: " ++ clip count args 120) 128 in
  let diagnosis := join [LF] diagnostics in
  let safeToReplace := negb failure || (count diagnosis <=? 320) in
  let body := join [LF] (List.filter non_empty [header; clip count diagnosis 320; clip count error 24]) in
  mkSkeleton (clip count body 480) kind safeToReplace.
End Skeleton.

(** ** Analysis of one message *)

Section Analyze.
Context (sha256Hex : jstr → jstr) (count : jstr → Z).

Definition layeredMessageTokens (m : ChatMessage) : Z :=
  count (join [LF] (map (λ p, match p with
                              | PText text => text
                              | PTool tool _ input st =>
                                join [LF] [tool; match input with None => [] | Some v => stringify v end;
                                           default [] (ts_output st); default [] (ts_error st)]
                              end) (m_parts m))).

Definition state_kind (text : jstr) : MemoryKind :=
  if test OPEN_RE text then Kopen else if test FAILURES_RE text then Kfailures
  else if test CHANGES_RE text then Kchanges else if test VERIFIED_RE text then Kverification else Kdecisions.

(** The user's own words between the ranges of reference material. *)
Fixpoint user_chunks (text : jstr) (offset : nat) (ranges : list (nat * nat)) : list jstr :=
  match ranges with
  | [] => [drop offset text]
  | (s, e) :: rest => slice text offset s :: user_chunks text e rest
  end.
Definition user_constraints (id text : jstr) : list MemoryEntry :=
  map (λ t, mkMem Kconstraints t [id]) (List.filter (λ t, negb (is_blank t)) (user_chunks text 0 (materialRanges text))).

Definition MATERIAL_TEXT : jstr := js "Explicit reference material; expand source for original content.".
Definition material_observation (namespaceKey : jstr) (partIndex : Z) (text : jstr) (range : nat * nat) : Observation :=
  let material := slice text range.1 range.2 in
  mkObs partIndex KTextRange (Some (Z.of_nat range.1, Z.of_nat range.2)) (textDigest_of sha256Hex material) (count material)
    MATERIAL_TEXT Kdecisions (textDigest_of sha256Hex (namespaceKey ++ 0 :: js "material" ++ 0 :: material)).

Definition opt_string (s : option jstr) : json := JStr (default (js "undefined") s).

Definition analyze_part (m : ChatMessage) (namespaceKey : jstr) (partIndex : Z) (p : Part) :
    list Observation * list MemoryEntry * list StateEntry :=
  match p with
  | PText text =>
    (map (material_observation namespaceKey partIndex text) (materialRanges text),
     (match m_role m with RUser => user_constraints (m_id m) text | RAssistant => [] end),
     (if bool_decide (m_role m = RAssistant) && test STATE_RE text
      then [mkSE partIndex (state_kind text) (clip count text 480) None None None None] else []))
  | PTool tool _ input st =>
    let output := default [] (ts_output st) in
    if completed (ts_status st) && non_empty output && negb (includes NODE_MARKER output) then
      let s := skeleton count tool input (ts_status st) output (default [] (ts_error st)) in
      let fieldDigest := textDigest_of sha256Hex output in
      ((if sk_safe s then
          [mkObs partIndex KToolOutput None fieldDigest (count output) (sk_text s) (sk_kind s)
             (textDigest_of sha256Hex (canonicalJSON (JArr [JStr namespaceKey; JStr tool; default (JStr (js "undefined")) input;
                                                            JStr (ts_status st); JStr fieldDigest; opt_string (ts_error st)])))]
        else []),
       [],
       [mkSE partIndex (sk_kind s) (sk_text s) (Some tool) (Some (textDigest_of sha256Hex (canonicalJSON_opt input)))
          (Some fieldDigest) (Some (ts_status st))])
    else ([], [], [])
  end.

Definition archived_constraints (m : ChatMessage) : list MemoryEntry :=
  match m_archive m with
  | None => []
  | Some a =>
    default [] (ar_protectedMemory a)
    ++ if jeqb (m_id m) (js "compaction-" ++ ar_historyHash a)
       then List.filter (λ e, bool_decide (me_kind e = Kconstraints)) (ar_memory a) else []
  end.

Definition analyze (m : ChatMessage) (namespaceKey digest : jstr) : Analysis :=
  let parts := imap (λ i p, analyze_part m namespaceKey (Z.of_nat i) p) (m_parts m) in
  mkAnalysis digest (layeredMessageTokens m) (flat_map (λ x, x.1.1) parts)
    (flat_map (λ x, x.1.2) parts ++ archived_constraints m) (flat_map snd parts).
End Analyze.

(** ** What reference material is *)

(** The texts an expression can match, whatever stands around them. *)
Inductive lang : regex → jstr → Prop :=
| lang_empty : lang REmpty []
| lang_set neg rs c : xorb neg (in_ranges rs c) = true → lang (RSet neg rs) [c]
| lang_seq a b s t : lang a s → lang b t → lang (RSeq a b) (s ++ t)
| lang_left a b s : lang a s → lang (RAlt a b) s
| lang_right a b s : lang b s → lang (RAlt a b) s
| lang_stop g a : lang (RStar g a) []
| lang_again g a s t : lang a s → lang (RStar g a) t → lang (RStar g a) (s ++ t)
| lang_none g a : lang (ROpt g a) []
| lang_some g a s : lang a s → lang (ROpt g a) s
| lang_bol : lang RBol []
| lang_eol : lang REol []
| lang_word : lang RWordB []
| lang_cap n a s : lang a s → lang (RCap n a) s
| lang_look neg a : lang (RLook neg a) [].

Lemma or_else_some {A} (x y : option A) z : or_else x y = Some z → x = Some z ∨ y = Some z.
Proof. destruct x; cbn; auto. Qed.

Lemma rmatch_lang r st k out :
  rmatch r st k = Some out → ∃ t st', m_rest st = t ++ m_rest st' ∧ lang r t ∧ k st' = Some out.
Proof.
  revert st k out. induction r as [|neg rs|a IHa b IHb|a IHa b IHb|g a IH|g a IH| | | |n a IH|neg a IH]; intros st k out; cbn [rmatch].
  - intros H. exists [], st. split_and!; [done|constructor|done].
  - unfold step1. destruct (m_rest st) as [|c rest] eqn:E; [done|]. destruct (xorb _ _) eqn:Ec; [|done]. intros H.
    eexists [c], _. split_and!; [|by constructor|exact H]. done.
  - intros (s & st1 & -> & Hs & (t & st2 & -> & Ht & H)%IHb)%IHa. exists (s ++ t), st2. rewrite <- app_assoc. split_and!; [done|by constructor|done].
  - intros [(t & st' & ? & ? & ?)%IHa|(t & st' & ? & ? & ?)%IHb]%or_else_some; exists t, st'; split_and!; try done; [by constructor|by apply lang_right].
  - generalize (S (length (m_rest st))) as n. intros n. revert st. induction n as [|n IHn]; intros st; cbn [star_loop].
    { intros H. exists [], st. split_and!; [done|constructor|done]. }
    assert (rmatch a st (consuming st (star_loop (rmatch a) g k n)) = Some out →
      ∃ t st', m_rest st = t ++ m_rest st' ∧ lang (RStar g a) t ∧ k st' = Some out) as Hmore.
    { intros (s & st1 & -> & Hs & H)%IH. unfold consuming in H. destruct (bool_decide _); [|done].
      apply IHn in H as (t & st2 & -> & Ht & H). exists (s ++ t), st2. rewrite <- app_assoc. split_and!; [done|by constructor|done]. }
    assert (k st = Some out → ∃ t st', m_rest st = t ++ m_rest st' ∧ lang (RStar g a) t ∧ k st' = Some out) as Hstop.
    { intros H. exists [], st. split_and!; [done|constructor|done]. }
    destruct g; intros [H|H]%or_else_some; auto.
  - assert (rmatch a st (consuming st k) = Some out → ∃ t st', m_rest st = t ++ m_rest st' ∧ lang (ROpt g a) t ∧ k st' = Some out) as Hsome.
    { intros (s & st1 & -> & Hs & H)%IH. unfold consuming in H. destruct (bool_decide _); [|done]. exists s, st1. split_and!; [done|by constructor|done]. }
    assert (k st = Some out → ∃ t st', m_rest st = t ++ m_rest st' ∧ lang (ROpt g a) t ∧ k st' = Some out) as Hnone.
    { intros H. exists [], st. split_and!; [done|constructor|done]. }
    destruct g; intros [H|H]%or_else_some; auto.
  - destruct (m_prev st); [done|]. intros H. exists [], st. split_and!; [done|constructor|done].
  - destruct (m_rest st) eqn:E; [|done]. intros H. exists [], st. rewrite E. split_and!; [done|constructor|done].
  - destruct (xorb _ _); [|done]. intros H. exists [], st. split_and!; [done|constructor|done].
  - intros (s & st1 & Hs & Ha & H)%IH. eexists s, _. split_and!; [|by constructor|exact H]. done.
  - destruct (rmatch a st Some); destruct neg; try done; intros H; (eexists [], _; split_and!; [|constructor|exact H]; done).
Qed.

Lemma match_all_lang r s m : m ∈ match_all r s →
  ∃ before after, s = before ++ rm_text m ++ after ∧ rm_index m = length before ∧ lang r (rm_text m).
Proof.
  unfold match_all. assert (∀ s prev i skip, m ∈ match_all_from r prev i s skip →
    ∃ before after, s = before ++ rm_text m ++ after ∧ rm_index m = (i + length before)%nat ∧ lang r (rm_text m)) as H; [|apply H].
  clear s. induction s as [|c s IH]; intros prev i skip; cbn [match_all_from].
  - destruct skip; [|by intros ?%elem_of_nil]. destruct (match_at r prev []) as [st|] eqn:E; [|by intros ?%elem_of_nil].
    intros ->%list_elem_of_singleton. apply rmatch_lang in E as (t & st' & Ht & Hl & [= ->]). cbn [m_rest] in Ht.
    symmetry in Ht. apply app_eq_nil in Ht as [-> Hr]. exists [], []. cbn. rewrite Hr. cbn. split_and!; [done|lia|done].
  - assert (∀ p k, m ∈ match_all_from r p (S i) s k → ∃ before after, c :: s = before ++ rm_text m ++ after ∧ rm_index m = (i + length before)%nat ∧ lang r (rm_text m)) as Hrec.
    { intros p k (before & after & -> & Hi & Hl)%IH. exists (c :: before), after. cbn [app length]. split_and!; [done|lia|done]. }
    destruct skip as [|k]; [|by apply Hrec]. destruct (match_at r prev (c :: s)) as [st|] eqn:E; [|by apply Hrec].
    intros [->|H]%elem_of_cons; [|by eapply Hrec]. apply rmatch_lang in E as (t & st' & Ht & Hl & [= ->]). cbn [m_rest] in Ht.
    assert (rm_text (result_of i (c :: s) st) = t) as Htext.
    { unfold result_of. cbn [rm_text]. rewrite Ht, length_app. replace (length t + length (m_rest st) - length (m_rest st))%nat with (length t) by lia. by rewrite take_app_length. }
    exists [], (m_rest st). rewrite Htext. cbn [app length]. split_and!; [done|cbn; lia|done].
Qed.

(** A fenced block that the words before it, at most 200 units of them, present as a log,
    an output or a file, and do not ask for. *)
Definition reference_block (text : jstr) (s e : nat) : Prop :=
  ∃ info content, slice text s e = js "```" ++ info ++ [LF] ++ content ++ [LF] ++ js "```" ∧ (LF ∉ info) ∧ (s <= e <= length text)%nat
  ∧ test MATERIAL_RE (trim (slice text (s - 200) s)) = true ∧ test REQUESTED_RE (trim (slice text (s - 200) s)) = false.

Lemma lang_fence t : lang FENCES t → ∃ info content, t = js "```" ++ info ++ [LF] ++ content ++ [LF] ++ js "```" ∧ LF ∉ info.
Proof.
  assert (∀ g t, lang (RStar g (RSet true [(10, 10)])) t → LF ∉ t) as Hinfo.
  { intros g t' H. remember (RStar g (RSet true [(10, 10)])) as r eqn:Er. induction H; try done; [by intros ?%elem_of_nil|].
    injection Er as -> ->. inversion H; subst. intros [Hin|Hin]%elem_of_app; [|by apply IHlang2].
    apply list_elem_of_singleton in Hin as <-. done. }
  assert (∀ c t, lang (RSet false [(c, c)]) t → t = [c]) as Hlit.
  { intros c t' H. inversion H as [|? ? d Hd| | | | | | | | | | | |]; subst. f_equal. cbn in Hd. rewrite orb_false_r in Hd. destruct ((c <=? d) && (d <=? c)) eqn:E; [|done]. lia. }
  unfold FENCES. intros H.
  repeat match goal with H : lang (RSeq _ _) _ |- _ => inversion H; clear H; subst end.
  repeat match goal with H : lang (RSet false [(?c, ?c)]) ?t |- _ => apply Hlit in H as -> end.
  match goal with H : lang (RStar _ (RSet true [(10, 10)])) ?t, H' : lang (RStar _ _) ?t' |- _ => lazymatch t with t' => fail | _ => exists t, t' end end.
  split; [by rewrite <- !app_assoc|by eapply Hinfo].
Qed.

Lemma materialRanges_reference text s e : (s, e) ∈ materialRanges text → reference_block text s e.
Proof.
  unfold materialRanges. intros (m & Hm & H)%list_elem_of_In%in_flat_map. apply list_elem_of_In, match_all_lang in Hm as (before & after & Ht & Hi & Hl).
  unfold material_range, fence_prefix in H. destruct (test REQUESTED_RE _) eqn:Er; [done|]. destruct (test MATERIAL_RE _) eqn:Em; [|done].
  destruct H as [[= <- <-]|[]]. apply lang_fence in Hl as (info & content & Hl & Hinfo). exists info, content. split_and!; [|done|lia| |done|done].
  - rewrite <- Hl. unfold slice. rewrite Hi. replace (length before + length (rm_text m) - length before)%nat with (length (rm_text m)) by lia.
    by rewrite Ht, drop_app_length, take_app_length.
  - rewrite Hi, Ht, !length_app. lia.
Qed.

(** ** Examples *)

Definition demo_fence : jstr :=
  js "Please fix it. Observed log:" ++ [LF] ++ js "```" ++ [LF] ++ js "boom" ++ [LF] ++ js "```" ++ [LF] ++ js "Thanks".

Example materialRanges_ex : materialRanges demo_fence = [(29, 41)%nat].
Proof. vm_compute. reflexivity. Qed.
Example user_constraints_ex :
  map me_text (user_constraints (js "u") demo_fence) = [js "Please fix it. Observed log:" ++ [LF]; LF :: js "Thanks"].
Proof. vm_compute. reflexivity. Qed.
Example materialRanges_template_ex : materialRanges (js "Please implement this; file contents:" ++ [LF] ++ js "```" ++ [LF] ++ js "x" ++ [LF] ++ js "```") = [].
Proof. vm_compute. reflexivity. Qed.
Example skeleton_verification_ex :
  let s := skeleton estimateTokens (js "bash") (Some (JObj [(js "command", JStr (js "bun test"))])) (js "completed")
             (join [LF] [js "running"; js "AssertionError: no"; js "expected 1"; js "received 2"; js "done"]) [] in
  (sk_kind s, sk_safe s) = (Kverification, true).
Proof. vm_compute. reflexivity. Qed.
