(* ===== verification/Counted.v ===== *)
(** * The texts a planning counts
    ([packages/headroomd/src/token-counter.ts], [createCachedTokenCounter];
    [clip], [skeleton], [analyze] of [packages/headroomd/src/layered.ts])

    Every count of the planner goes through the cached counter, which throws
    when the counter gives anything but a nonnegative safe integer.  The
    functions of files [Tokens] and [Evidence] take the counts as values; the
    lists here are the texts they count, in the order of the code, so that the
    planner throws exactly when one of them is refused. *)

From stdpp Require Import base tactics list numbers option sets strings.
From S2P Require Import Prelude JsString JsRegex Json OMap Chat Operations Nodes Tokens Evidence.

Section Counted.
Context (count : jstr → Z).

(** The sizes the binary search asks about. *)
Fixpoint search_probes (fuel : nat) (fits : nat → bool) (low high : nat) : list nat :=
  match fuel with
  | O => []
  | S f =>
    if (low <? high)%nat then
      let mid := ((low + high + 1) / 2)%nat in
      mid :: if fits mid then search_probes f fits mid high else search_probes f fits low (mid - 1)
    else []
  end.

Definition clip_counted (text : jstr) (maxTokens : Z) : list jstr :=
  text ::
  if count text <=? maxTokens then [] else
  CLIP_MARKER ::
  if maxTokens <=? count CLIP_MARKER then [] else
  map (λ mid, take mid text ++ CLIP_MARKER)
    (search_probes (length text) (λ mid, count (take mid text ++ CLIP_MARKER) <=? maxTokens) 0 (length text)).

(** The growing diagnosis of a failing output. *)
Fixpoint diagnose_counted (skip : nat) (lines : list jstr) (diagnostics : list jstr) : list jstr :=
  match lines with
  | [] => []
  | line :: rest =>
    match skip with
    | S k => diagnose_counted k rest diagnostics
    | O =>
      if test DIAGNOSTIC_RE line then
        let diagnostics := diagnostics ++ take 3 lines in
        let diagnosis := join [LF] diagnostics in
        diagnosis :: if 320 <? count diagnosis then [] else diagnose_counted 2 rest diagnostics
      else diagnose_counted 0 rest diagnostics
    end
  end.

Definition skeleton_counted (tool : jstr) (input : option json) (status output error : jstr) : list jstr :=
  let args := match input with None => [] | Some v => canonicalJSON v end in
  let failure := test FAIL_STATUS_RE status || test FAIL_TEXT_RE (output ++ error) in
  let isTest := test TEST_TOOL_RE (tool ++ js " " ++ command_of input) in
  let isWrite := test WRITE_TOOL_RE tool in
  let lines := split_on LF output in
  let opening := js "tool " ++ tool ++ js " (" ++ status ++ js ") input: " ++ clip count args 120 in
  let diagnosis := join [LF] (diagnostics_of count failure isTest isWrite tool lines) in
  let body := join [LF] (List.filter non_empty [clip count opening 128; clip count diagnosis 320; clip count error 24]) in
  (if failure then diagnose_counted 0 lines [] else [])
  ++ clip_counted args 120 ++ clip_counted opening 128
  ++ (if failure then [diagnosis] else [])
  ++ clip_counted diagnosis 320 ++ clip_counted error 24 ++ clip_counted body 480.

Definition part_counted (m : ChatMessage) (p : Part) : list jstr :=
  match p with
  | PText text =>
    (if bool_decide (m_role m = RAssistant) && test STATE_RE text then clip_counted text 480 else [])
    ++ map (λ range, slice text range.1 range.2) (materialRanges text)
  | PTool tool _ input st =>
    let output := default [] (ts_output st) in
    let error := default [] (ts_error st) in
    if completed (ts_status st) && non_empty output && negb (includes NODE_MARKER output) then
      skeleton_counted tool input (ts_status st) output error
      ++ if sk_safe (skeleton count tool input (ts_status st) output error) then [output] else []
    else []
  end.

(** What [layeredMessageTokens] counts. *)
Definition counted_message (m : ChatMessage) : jstr :=
  join [LF] (map (λ p, match p with
                       | PText text => text
                       | PTool tool _ input st =>
                         join [LF] [tool; match input with None => [] | Some v => stringify v end;
                                    default [] (ts_output st); default [] (ts_error st)]
                       end) (m_parts m)).

Definition analyze_counted (m : ChatMessage) : list jstr := flat_map (part_counted m) (m_parts m) ++ [counted_message m].

Lemma counted_message_tokens m : layeredMessageTokens count m = count (counted_message m).
Proof. done. Qed.
End Counted.

(** ** Example *)

Example clip_counted_ex : clip_counted estimateTokens (js "short") 480 = [js "short"].
Proof. vm_compute. reflexivity. Qed.
