(* ===== verification/PartialOps.v ===== *)
(** * Plans of part edits

    What a successful [materializeOperations] says about a plan whose
    operations all edit parts of messages, and that such a plan passes
    [operationSourcesAligned] of the result schema: the daemon's application
    and the plugin's schema check agree.  Lemmas of the file [Layered]. *)

From stdpp Require Import base tactics list numbers option sets strings sorting.
From S2P Require Import Prelude JsString JsRegex Json CLine OMap Chat Operations Compaction.

(** ** Part edits *)

Definition op_part (op : ViewOperation) : option (jstr * Z) :=
  match op with
  | OpRange _ _ _ _ => None
  | OpTool _ mid _ p _ _ | OpText _ mid _ p _ _ _ _ => Some (mid, p)
  end.
Definition op_source (op : ViewOperation) : jstr :=
  match op with OpRange _ _ _ _ => [] | OpTool _ _ d _ _ _ | OpText _ _ d _ _ _ _ _ => d end.
Definition partial (op : ViewOperation) : Prop := is_Some (op_part op).
Definition hits (mid : jstr) (p : Z) (op : ViewOperation) : bool := bool_decide (op_part op = Some (mid, p)).
Definition span_of (op : ViewOperation) : Z * option Z :=
  match op with OpText _ _ _ _ s e _ _ => (s, Some e) | _ => (0, None) end.

(** The edits of one part. *)
Definition parts_at (parts : list (nat * list (nat * list ViewOperation))) (i q : nat) : list ViewOperation :=
  default [] (get q (default [] (get i parts))).

Lemma parts_at_add parts i q op i' q' :
  parts_at (add_edit i q op parts) i' q' = parts_at parts i' q' ++ (if bool_decide (i = i' ∧ q = q') then [op] else []).
Proof.
  unfold parts_at, add_edit. destruct (decide (i' = i)) as [->|Hi].
  - rewrite get_set_eq. cbn [default from_option id]. destruct (decide (q' = q)) as [->|Hq].
    + rewrite get_set_eq, bool_decide_true by done. done.
    + rewrite get_set_ne, bool_decide_false, app_nil_r by naive_solver. done.
  - rewrite get_set_ne, bool_decide_false, app_nil_r by naive_solver. done.
Qed.

Lemma sort_insert_map {A B} (f : A → B) cmpA cmpB x l :
  (∀ a b, cmpB (f a) (f b) = cmpA a b) → sort_insert cmpB (f x) (map f l) = map f (sort_insert cmpA x l).
Proof.
  intros H. induction l as [|y l IH]; [done|]. cbn [map sort_insert]. rewrite H. destruct (cmpA x y <? 0); [done|]. cbn [map]. by rewrite IH.
Qed.

Lemma sort_by_map {A B} (f : A → B) cmpA cmpB l :
  (∀ a b, cmpB (f a) (f b) = cmpA a b) → sort_by cmpB (map f l) = map f (sort_by cmpA l).
Proof.
  intros H. unfold sort_by. change (@nil B) with (map f []). generalize (@nil A).
  induction l as [|x l IH]; intros acc; [done|]. cbn [map foldl]. rewrite (sort_insert_map f cmpA) by done. apply IH.
Qed.

(** ** The operation loop on part edits *)

Section Loop.
Context (sha256Hex : jstr → jstr) (messages : list ChatMessage) (byId : list (jstr * nat)) (digests : list jstr).
Hypothesis Hby : ∀ id i, get id byId = Some i → m_id <$> messages !! i = Some id.

Record edits_inv (st : OpState) (done : list ViewOperation) : Prop := {
  ei_ids : os_ids st = map (λ op, operationId (op_base op)) done;
  ei_nodup : NoDup (os_ids st);
  ei_sources : Forall (λ op, ∃ mid p i, op_part op = Some (mid, p) ∧ int_nonneg p = true ∧ get mid byId = Some i ∧ digests !! i = Some (op_source op)) done;
  ei_parts : ∀ mid i p, get mid byId = Some i → int_nonneg p = true → parts_at (os_parts st) i (Z.to_nat p) = List.filter (hits mid p) done }.

(** What one part edit adds, whatever its kind. *)
Lemma edits_inv_add st done op mid p i :
  edits_inv st done → op_part op = Some (mid, p) → int_nonneg p = true → get mid byId = Some i → digests !! i = Some (op_source op) →
  operationId (op_base op) ∉ os_ids st →
  edits_inv (mkOS (os_ranges st) (add_edit i (Z.to_nat p) op (os_parts st)) (os_whole st) (os_ids st ++ [operationId (op_base op)])) (done ++ [op]).
Proof.
  intros [H1 H2 H3 H4] Hop Hp Hg Hd Hn. split; cbn [os_ids os_parts].
  - by rewrite map_app, H1.
  - apply NoDup_app. split; [done|]. split; [|apply NoDup_singleton]. by intros x Hx ->%list_elem_of_singleton.
  - apply Forall_app. split; [done|]. repeat constructor. by exists mid, p, i.
  - intros mid' i' p' Hg' Hp'. rewrite parts_at_add, (H4 mid' i' p' Hg' Hp'), List.filter_app. f_equal. cbn [List.filter]. unfold hits.
    rewrite Hop. assert ((i = i' ∧ Z.to_nat p = Z.to_nat p') ↔ Some (mid, p) = Some (mid', p')) as Hiff.
    { split; [|by intros [= -> ->]; simplify_eq]. intros [-> Hq]. pose proof (Hby _ _ Hg) as Ha. rewrite (Hby _ _ Hg') in Ha.
      injection Ha as ->. unfold int_nonneg in *. bool_prop. by replace p' with p by lia. }
    by rewrite (bool_decide_ext _ _ Hiff).
Qed.

Lemma op_step_partial st op st' done :
  op_step sha256Hex messages byId digests st op = Ok st' → partial op → edits_inv st done → edits_inv st' (done ++ [op]).
Proof.
  unfold op_step. destruct (_ || _) eqn:Eop; [done|]. intros Hs Hpart Hinv. bool_prop.
  destruct op as [b ids ds rep|b mid d p od rep|b mid d p s e td rep]; [by destruct Hpart| |];
    cbn [viewOperation_ok op_base] in *; unfold viewOperation_ok, int_nonneg in *; bool_prop;
    (destruct (get mid byId) as [i|] eqn:Eg; [|done]); (destruct (messages !! i) as [m|]; [|done]); cbv beta iota zeta in Hs; (destruct (_ || negb (matches _ _ _)) eqn:Em in Hs; [done|]);
    apply orb_false_iff in Em as [_ Em]; apply negb_false_iff in Em; unfold matches in Em; apply bool_decide_eq_true in Em;
    cbn [mbind option_bind] in Hs; destruct (m_parts m !! _) as [[|]|] in Hs; try done; destruct (_ || _) in Hs; try done; injection Hs as <-;
    (first [apply (edits_inv_add st done (OpTool b mid d p od rep) mid p i)|apply (edits_inv_add st done (OpText b mid d p s e td rep) mid p i)];
       [done|done|apply andb_true_iff; split; [done|by apply Z.leb_le]|done|done|done]).
Qed.

Lemma op_loop_partial ops st st' done :
  op_loop sha256Hex messages byId digests st ops = Ok st' → Forall partial ops → edits_inv st done → edits_inv st' (done ++ ops).
Proof.
  revert st done. induction ops as [|op ops IH]; intros st done; cbn [op_loop].
  { intros [= <-] _. by rewrite app_nil_r. }
  intros (st1 & H1 & H2)%rbind_ok [Hp Hps]%Forall_cons Hinv. rewrite cons_middle, app_assoc. eapply IH; [exact H2|done|].
  by eapply op_step_partial.
Qed.
End Loop.

Lemma index_messages_nodup i messages byId r :
  index_messages i messages byId = Ok r → NoDup (map m_id messages) ∧ ∀ m, m ∈ messages → has (m_id m) byId = false.
Proof.
  revert i byId. induction messages as [|m messages IH]; intros i byId; cbn [index_messages map].
  { intros _. split; [apply NoDup_nil_2|set_solver]. }
  destruct (has (m_id m) byId) eqn:E; [done|]. intros (Hd & Hn)%IH. split.
  - apply NoDup_cons. split; [|done]. intros (m' & Em & Hm')%list_elem_of_fmap. specialize (Hn m' Hm').
    unfold has in Hn. rewrite <- Em, get_set_eq in Hn. done.
  - intros m' [->|Hm']%elem_of_cons; [done|]. specialize (Hn m' Hm'). unfold has in *.
    destruct (decide (m_id m' = m_id m)) as [Em|Hne]; [by rewrite Em|]. by rewrite get_set_ne in Hn.
Qed.

Lemma check_snapshot_digests sha messages ids ds digests :
  check_snapshot sha messages ids ds = Ok digests → digests = take (length ids) ds.
Proof.
  revert messages ds digests. induction ids as [|id ids IH]; intros messages ds digests; cbn [check_snapshot]; [by intros [= <-]|].
  destruct ds as [|d ds]; [done|]. destruct messages as [|m messages]; [done|].
  destruct (negb _); [done|]. destruct (negb _); [done|]. intros (rest & H & [= <-])%rbind_ok. cbn. f_equal. by eapply IH.
Qed.

(** What the contract of a plan of part edits needs to know. *)
Record partial_plan_ok (ops : list ViewOperation) (snap : SourceSnapshot) : Prop := {
  pp_ids : NoDup (sn_messageIds snap);
  pp_opids : NoDup (map (λ op, operationId (op_base op)) ops);
  pp_sources : Forall (λ op, ∃ mid p i, op_part op = Some (mid, p) ∧ int_nonneg p = true ∧ sn_messageIds snap !! i = Some mid
                                     ∧ sn_sourceDigests snap !! i = Some (op_source op)) ops;
  pp_disjoint : ∀ mid p, existsb (hits mid p) ops = true → edits_disjoint (sort_by edit_cmp (List.filter (hits mid p) ops)) = true }.

Lemma sorted_part_disjoint parts i q edits :
  forallb (λ im, forallb (λ pe, edits_disjoint pe.2) im.2) (sort_edits parts) = true →
  parts_at parts i q = edits → edits ≠ [] → edits_disjoint (sort_by edit_cmp edits) = true.
Proof.
  unfold parts_at. intros Hall Heq Hne. destruct (get i parts) as [mp|] eqn:E1; cbn [default from_option id] in Heq; [|by subst].
  destruct (get q mp) as [es|] eqn:E2; cbn [default from_option id] in Heq; [|by subst]. subst es.
  apply get_elem, list_elem_of_In in E1. apply get_elem, list_elem_of_In in E2. rewrite forallb_forall in Hall.
  specialize (Hall (i, map (λ pe, (pe.1, sort_by edit_cmp pe.2)) mp)). unfold sort_edits in Hall. rewrite in_map_iff in Hall.
  assert (∃ x, (x.1, map (λ pe : nat * list ViewOperation, (pe.1, sort_by edit_cmp pe.2)) x.2)
    = (i, map (λ pe, (pe.1, sort_by edit_cmp pe.2)) mp) ∧ In x parts) as Hx by (by exists (i, mp)).
  specialize (Hall Hx). cbn [snd] in Hall. rewrite forallb_forall in Hall.
  apply (Hall (q, sort_by edit_cmp edits)), in_map_iff. by exists (q, edits).
Qed.

Lemma materialize_partial sha messages ops snap output :
  materialize sha messages ops (Some snap) = Ok output → Forall partial ops →
  NoDup (map m_id messages) ∧ partial_plan_ok ops snap.
Proof.
  intros E Hp. unfold materialize in E. destruct ops as [|op0 ops0]; [done|]. set (ops := op0 :: ops0) in *.
  apply rbind_ok in E as (byId & Hby & E). destruct (negb (zlen _ =? _) || _) eqn:E1; [done|]. bool_prop.
  apply rbind_ok in E as (digests & Hdig & E). apply rbind_ok in E as (st & Hst & E).
  destruct (negb (forallb _ _)) eqn:Ef; [done|]. apply negb_false_iff in Ef.
  pose proof (index_messages_nodup _ _ _ _ Hby) as [Hnd _]. split; [done|].
  assert (∀ id i, get id byId = Some i → m_id <$> messages !! i = Some id) as Hby'.
  { intros id i Hi. eapply index_messages_ok in Hby as [?|[Hk _]]; [done| |exact Hi]. by rewrite Nat.sub_0_r in Hk. }
  pose proof (op_loop_partial sha messages byId digests Hby' ops _ _ [] Hst Hp) as [I1 I2 I3 I4].
  { split; cbn; [done|apply NoDup_nil_2|done|]. intros. by unfold parts_at. }
  pose proof (check_snapshot_digests _ _ _ _ _ Hdig) as Hds. apply check_snapshot_ok in Hdig as [Hlen Hdig].
  cbn [app] in *. split; [match goal with H : distinct _ = true |- _ => by apply bool_decide_eq_true in H end|by rewrite <- I1| |].
  - eapply Forall_impl; [exact I3|]. intros op (mid & p & i & H1 & H2 & H3 & H4). exists mid, p, i. split_and!; [done|done| |].
    + assert (i < length (sn_messageIds snap))%nat as Hi by (rewrite <- Hlen; by eapply lookup_lt_Some).
      destruct (lookup_lt_is_Some_2 _ _ Hi) as [id Hid]. rewrite Hid. destruct (Hdig _ _ Hid) as (m & Hm & <- & _).
      specialize (Hby' _ _ H3). rewrite Hm in Hby'. exact Hby'.
    + rewrite Hds in H4. apply lookup_take_Some in H4 as [H4 _]. exact H4.
  - intros mid p Hh. pose proof (proj1 (existsb_exists _ _) Hh) as (op & Hop & Hit). rewrite <- list_elem_of_In in Hop.
    rewrite Forall_forall in I3. destruct (I3 op Hop) as (mid' & p' & i & H1 & H2 & H3 & _). unfold hits in Hit. apply bool_decide_eq_true in Hit.
    rewrite Hit in H1. injection H1 as -> ->. eapply sorted_part_disjoint; [exact Ef|exact (I4 _ _ _ H3 H2)|].
    intros Hnil. assert (op ∈ List.filter (hits mid' p') ops) as Hin.
    { rewrite list_elem_of_In. apply filter_In. rewrite <- list_elem_of_In. split; [done|]. unfold hits. by rewrite Hit, bool_decide_true. }
    rewrite Hnil in Hin. by apply elem_of_nil in Hin.
Qed.

(** ** The contract's view of the same plan *)

Section Aligned.
Context (ops : list ViewOperation) (snap : SourceSnapshot).
Hypothesis Hok : partial_plan_ok ops snap.
Hypothesis Hunits : Forall units_ok (sn_messageIds snap).

Lemma snapshot_lookup i id :
  sn_messageIds snap !! i = Some id → get id (snapshot_map snap) = Some (Z.of_nat i, sn_sourceDigests snap !! i).
Proof.
  intros Hi. unfold snapshot_map. destruct Hok as [Hnd _ _ _]. clear -Hi Hnd. generalize (sn_sourceDigests snap). intros ds.
  set (step := λ m iid, _). revert Hi Hnd. generalize (sn_messageIds snap). intros ids.
  assert (∀ (f : nat → nat) (l : list jstr) m, NoDup l → (∀ j, l !! j = Some id → get id (foldl step m (imap (λ n x, (f n, x)) l)) = Some (Z.of_nat (f j), ds !! f j))) as H.
  2: { intros Hi Hnd. exact (H (λ n, n) ids [] Hnd i Hi). }
  intros f l. revert f. induction l as [|x l IH]; intros f m Hnd j Hj; [done|]. apply NoDup_cons in Hnd as [Hx Hnd].
  cbn [imap foldl]. destruct j as [|j]; cbn [lookup list_lookup] in Hj.
  - injection Hj as ->. assert (∀ g m, id ∉ l → get id (foldl step m (imap (λ n x, (g n, x)) l)) = get id m) as Hskip.
    { clear. intros g. induction l as [|y l IH] in g |- *; intros m Hn; [done|]. cbn [imap foldl].
      rewrite (IH (g ∘ S)) by set_solver. unfold step. cbn [snd]. apply get_set_ne. set_solver. }
    rewrite (Hskip (f ∘ S)) by done. unfold step. cbn [fst snd]. by rewrite get_set_eq.
  - exact (IH (f ∘ S) _ Hnd j Hj).
Qed.

Lemma span_key_inj mid p mid' p' :
  units_ok mid → units_ok mid' → is_safe_integer p = true → is_safe_integer p' = true →
  span_key mid p = span_key mid' p' → mid = mid' ∧ p = p'.
Proof.
  intros H1 H2 H3 H4 E. assert (∀ m q, units_ok m → is_safe_integer q = true → parse (span_key m q) = Some (JArr [JStr m; JNum (NInt q)])) as Hp.
  { intros m q Hm Hq. apply parse_stringify. repeat constructor; done. }
  pose proof (Hp mid p H1 H3) as Ha. rewrite E, (Hp mid' p' H2 H4) in Ha. by injection Ha.
Qed.

Definition op_mid (op : ViewOperation) : jstr := default [] (fst <$> op_part op).
Definition spans_at (mid : jstr) (p : Z) (done : list ViewOperation) : list (Z * option Z) := map span_of (List.filter (hits mid p) done).

Record align_inv (st : AlignState) (done : list ViewOperation) : Prop := {
  av_touched : al_touched st = map op_mid done;
  av_ids : al_ids st = map (λ op, operationId (op_base op)) done;
  av_whole : al_whole st = [];
  av_spans : ∀ mid p, mid ∈ sn_messageIds snap → int_nonneg p = true → default [] (get (span_key mid p) (al_spans st)) = spans_at mid p done;
  av_keys : ∀ k l, (k, l) ∈ al_spans st → ∃ mid p, k = span_key mid p ∧ mid ∈ sn_messageIds snap ∧ int_nonneg p = true
              ∧ existsb (hits mid p) done = true;
  av_map : omap_ok (al_spans st) }.

Lemma units_of mid : mid ∈ sn_messageIds snap → units_ok mid.
Proof. rewrite Forall_forall in Hunits. apply Hunits. Qed.

Lemma nonneg_safe p : int_nonneg p = true → is_safe_integer p = true.
Proof. unfold int_nonneg. intros H. by bool_prop. Qed.

(** One part edit passes the checks and adds its span. *)
Lemma align_op_partial st done op :
  align_inv st done → op ∈ ops → operationId (op_base op) ∉ al_ids st →
  ∃ st', align_op (snapshot_map snap) st op = Some st' ∧ align_inv st' (done ++ [op]).
Proof.
  intros [I1 I2 I3 I4 I5 I6] Hin Hn. destruct Hok as [_ _ Hs _]. rewrite Forall_forall in Hs. specialize (Hs op Hin) as (mid & p & i & Hop & Hp & Hi & Hd).
  pose proof (snapshot_lookup i mid Hi) as Hg. assert (mid ∈ sn_messageIds snap) as Hmid by (by eapply list_elem_of_lookup_2).
  assert (∀ st1, al_touched st1 = al_touched st ++ [mid] → al_ids st1 = al_ids st ++ [operationId (op_base op)] → al_whole st1 = al_whole st →
    al_spans st1 = set_key (span_key mid p) (default [] (get (span_key mid p) (al_spans st)) ++ [span_of op]) (al_spans st) →
    align_inv st1 (done ++ [op])) as Hinv.
  { intros st1 T1 T2 T3 T4. split.
    - rewrite T1, I1, map_app. cbn [map]. unfold op_mid. by rewrite Hop.
    - by rewrite T2, I2, map_app.
    - by rewrite T3.
    - intros mid' p' Hm' Hp'. rewrite T4. unfold spans_at. rewrite List.filter_app, map_app. fold (spans_at mid' p' done). rewrite <- (I4 mid' p' Hm' Hp').
      destruct (decide ((mid', p') = (mid, p))) as [[= -> ->]|Hne].
      + rewrite get_set_eq. cbn [default from_option id List.filter]. unfold hits. by rewrite Hop, bool_decide_true.
      + rewrite get_set_ne. 2: { intros E. apply Hne. apply span_key_inj in E as [-> ->]; eauto using units_of, nonneg_safe. }
        cbn [List.filter]. unfold hits. rewrite Hop, bool_decide_false; [cbn [map]; by rewrite app_nil_r|]. intros [= -> ->]. by apply Hne.
    - intros k l Hkl. rewrite T4 in Hkl. apply (elem_get k l) in Hkl; [|by apply set_ok].
      destruct (decide (k = span_key mid p)) as [->|Hne].
      + exists mid, p. split_and!; [done|done|done|]. rewrite existsb_app. cbn [existsb]. unfold hits. rewrite Hop, bool_decide_true by done. by rewrite orb_true_r.
      + rewrite get_set_ne in Hkl by done. apply get_elem in Hkl. destruct (I5 _ _ Hkl) as (mid' & p' & ? & ? & ? & He).
        exists mid', p'. split_and!; [done|done|done|]. by rewrite existsb_app, He.
    - rewrite T4. by apply set_ok. }
  destruct op as [b ids ds rep|b m d q od rep|b m d q s e td rep]; [done| |]; injection Hop as -> ->; unfold align_op; cbn [op_base op_source] in *;
    rewrite bool_decide_false by done; cbn [align_ids]; rewrite Hg, Hd, bool_decide_true by done; cbn [negb andb align_ids fmap option_fmap option_map al_spans al_touched al_ids al_whole];
    (eexists; split; [reflexivity|apply Hinv; done]).
Qed.

Lemma align_ops_partial st done rest :
  align_inv st done → ops = done ++ rest → ∃ st', align_ops (snapshot_map snap) st rest = Some st' ∧ align_inv st' ops.
Proof.
  revert st done. induction rest as [|op rest IH]; intros st done Hinv E; cbn [align_ops].
  { exists st. split; [done|]. by rewrite E, app_nil_r. }
  destruct (align_op_partial st done op Hinv) as (st1 & -> & Hinv1); [rewrite E; set_solver| |].
  - destruct Hinv as [_ -> _ _ _ _]. destruct Hok as [_ Hnd _ _]. rewrite E, map_app in Hnd. apply NoDup_app in Hnd as (_ & Hnd & _).
    intros Hx. apply (Hnd _ Hx). cbn. set_solver.
  - eapply IH; [exact Hinv1|]. by rewrite E, <- app_assoc.
Qed.

Lemma spans_disjoint_edits l : edits_disjoint l = true → spans_disjoint (map span_of l) = true.
Proof.
  induction l as [|a [|b l] IH]; [done|done|]. cbn [edits_disjoint map spans_disjoint] in *.
  destruct a, b; try done. intros [H1 H2]%andb_true_iff. apply andb_true_iff. split; [exact H1|by apply IH].
Qed.

Lemma partial_aligned r ids ds :
  ops ≠ [] → hr_compacted r = true → hr_operations r = Some ops → hr_sourceSnapshot r = Some snap →
  hr_replacedMessageIds r = ids → hr_sourceDigests r = Some ds →
  ids = List.filter (λ id, bool_decide (id ∈ map op_mid ops)) (sn_messageIds snap) →
  (∀ j id, ids !! j = Some id → ∃ i, sn_messageIds snap !! i = Some id ∧ sn_sourceDigests snap !! i = ds !! j) →
  operationSourcesAligned r = true.
Proof.
  intros Hne Hc Ho Hs Hr Hd Hids Hdig. unfold operationSourcesAligned. rewrite Ho, Hc, Hs, Hr, Hd. cbn [negb].
  match goal with |- match ops with [] => _ | _ :: _ => ?x end = _ => enough (x = true) as Hcore by (by destruct ops) end.
  destruct (align_ops_partial (mkAlign [] [] [] []) [] ops) as (st & Hst & [I1 I2 I3 I4 I5 I6]).
  { split; cbn; [done|done|done|done|set_solver|apply NoDup_nil_2]. }
  { done. }
  rewrite Hst, I1, I3. repeat (apply andb_true_iff; split).
  - apply forallb_forall. intros op _. apply forallb_forall. intros mid _. by rewrite bool_decide_false by set_solver.
  - apply forallb_forall. intros [k l] Hkl. rewrite <- list_elem_of_In in Hkl. destruct (I5 _ _ Hkl) as (mid & p & -> & Hm & Hp & He).
    pose proof (I4 mid p Hm Hp) as Hl. rewrite (elem_get _ _ _ I6 Hkl) in Hl. cbn [default from_option id snd] in *. subst l.
    unfold spans_at. rewrite (sort_by_map span_of edit_cmp) by (by intros [] []). apply spans_disjoint_edits. by destruct Hok as [_ _ _ H]; apply H.
  - rewrite <- Hids. apply Z.eqb_refl.
  - by rewrite <- Hids, bool_decide_true.
  - rewrite <- Hids. apply forallb_forall. intros [j id] Hin. rewrite <- list_elem_of_In in Hin.
    apply elem_of_lookup_imap in Hin as (j' & x & [= -> ->] & Hx). cbn [fst snd]. destruct (Hdig _ _ Hx) as (i & Hi & Hd').
    rewrite (snapshot_lookup _ _ Hi). cbn [mbind option_bind snd]. apply bool_decide_eq_true. exact Hd'.
Qed.
End Aligned.
