(* ===== verification/Layered.v ===== *)
(** * The layered planner ([packages/headroomd/src/layered.ts])

    [buildLayeredPlan] turns old tool outputs and reference material into
    references to immutable evidence nodes, within a token budget.  The phases
    of the function are definitions of their own, in its order: scan, select
    candidates, restore archived state, group the sources into leaves, build
    the parents, budget the visible summaries, apply.  The counting cache is
    transparent (file [Tokens]) and left out; that its counter refuses a text is
    decided on the list of the texts a run counts (file [Counted]).  Token
    budgets are integers.
    [toLowerCase] and the Unicode letter and number classes are parameters. *)

From stdpp Require Import base tactics list numbers option sets strings sorting.
From Stdlib Require Import SpecFloat.
From S2P Require Import Prelude JsString JsRegex Json CLine OMap Chat Operations Summary Compaction Compress Objects.
From S2P Require Import Nodes Tokens Evidence Counted PartialOps.

(** ** Data *)

Definition LEAF_SOURCE_TOKENS : Z := 8192.
Definition LEAF_SUMMARY_TOKENS : Z := 512.
Definition PARENT_SUMMARY_TOKENS : Z := 1024.

Record LayeredPlanOptions := mkPlanOptions {
  lo_namespace : Namespace; lo_contextWindowTokens : Z; lo_targetTokens : option Z; lo_retainRecentTurns : option Z;
  lo_memoryMaxTokens : option Z; lo_memoryRatio : option spec_float; lo_protectedMessageIds : list jstr;
  lo_epoch : option jstr; lo_cache : option (LayeredCache Analysis); lo_nodes : list LayeredNode }.

Record LayeredBudget := mkBudget {
  lb_availableInputTokens : Z; lb_targetTokens : Z; lb_protectedTokens : Z; lb_recentTokens : Z; lb_wrapperTokens : Z;
  lb_historyBudgetTokens : Z; lb_memoryTokens : Z; lb_reasons : list jstr }.
Record LayeredMetrics := mkMetrics {
  lm_scannedMessages : Z; lm_analyzedMessages : Z; lm_analysisCacheHits : Z; lm_candidateCount : Z;
  lm_selectedMemoryBlocks : Z; lm_deduplicatedObservations : Z; lm_operationCount : Z; lm_leafNodes : Z; lm_parentNodes : Z;
  lm_tokenCounter : jstr; lm_tokenCountMode : jstr }.
Record LayeredTaskState := mkTaskState { lt_events : list LayeredStateEvent; lt_currentRequestIds : list jstr }.

Record LayeredPlan := mkLayeredPlan {
  lp_result : HeadroomCompressResult; lp_nodes : list LayeredNode; lp_protectedMemory : list MemoryEntry;
  lp_budget : LayeredBudget; lp_metrics : LayeredMetrics; lp_taskState : LayeredTaskState }.

(** An observation worth replacing; [nodeId] and [replacement] are set once
    the leaves exist. *)
Record Candidate := mkCand { cd_observation : Observation; cd_message : ChatMessage; cd_messageIndex : nat; cd_digest : jstr }.

(** ** Options *)

Definition is_finite (f : spec_float) : bool := match f with S754_zero _ | S754_finite _ _ _ => true | _ => false end.
Definition ONE : spec_float := f64 1.

Definition validateOptions (o : LayeredPlanOptions) : result jstr unit :=
  throw_if lo_contextWindowTokens o <=? 0 with js "Invalid context window" in
  throw_if existsb (λ v, match v with Some n => n <? 0 | None => false end) [lo_targetTokens o; lo_memoryMaxTokens o]
    with js "Invalid token budget" in
  throw_if match lo_retainRecentTurns o with Some n => negb (is_safe_integer n) || (n <? 0) | None => false end
    with js "Invalid retained turns" in
  throw_if match lo_memoryRatio o with
           | Some r => negb (is_finite r) || fltb r (f64 0) || fltb ONE r
           | None => false end
    with js "Invalid memory ratio" in
  Ok tt.

(** [Math.floor(contextWindowTokens * ratio)] *)
Definition share (tokens : Z) (ratio : spec_float) : Z := ffloor (fmul (f64 tokens) ratio).
Definition layered_target (o : LayeredPlanOptions) : Z :=
  default (share (lo_contextWindowTokens o) (flit 55 (-2))) (lo_targetTokens o).

Section Plan.
Context (sha256Hex : jstr → jstr) (counter : TokenCounter) (maxEntries maxBytes : Z).
Context (toLowerCase : jstr → jstr) (letter_or_number : Z → bool).

Definition count (text : jstr) : Z := tc_count counter text.
Definition digest_of (text : jstr) : jstr := textDigest_of sha256Hex text.

(** ** The scan of the messages *)

Record ScanState := mkScan {
  sc_cache : option (LayeredCache Analysis); sc_analyses : list Analysis; sc_turnStarts : list nat; sc_turnIndices : list Z;
  sc_protectedMemory : list MemoryEntry; sc_protectedKeys : list jstr; sc_events : list LayeredStateEvent;
  sc_messageEvents : list (list LayeredStateEvent); sc_hits : Z; sc_analyzed : Z }.

Definition analysis_key (namespaceKey digest : jstr) : jstr :=
  namespaceKey ++ 0 :: LAYERED_POLICY_VERSION ++ 0 :: tc_id counter ++ 0 :: digest.

(** The cached analysis or a fresh one, which is cached. *)
Definition analyze_cached (cache : option (LayeredCache Analysis)) (namespaceKey : jstr) (m : ChatMessage) :
    option (LayeredCache Analysis) * Analysis * bool :=
  let digest := contentDigest sha256Hex m in
  let fresh := analyze sha256Hex count m namespaceKey digest in
  match cache with
  | None => (None, fresh, false)
  | Some c =>
    let key := analysis_key namespaceKey digest in
    let '(c1, hit) := cache_get c key in
    match hit with
    | Some a => (Some c1, a, true)
    | None => (Some (default c1 (cache_set json_of_analysis maxEntries maxBytes c1 key fresh)), fresh, false)
    end
  end.

Definition state_event (namespaceKey digest : jstr) (m : ChatMessage) (i : nat) (e : StateEntry) : LayeredStateEvent :=
  mkEvent (se_kind e) (se_text e) [m_id m]
    (digest_of (canonicalJSON (JArr [JStr namespaceKey; JStr digest; num (se_partIndex e); JStr (kind_text (se_kind e))])))
    [digest] (Z.of_nat i) (se_tool e) (se_inputDigest e) (se_outputDigest e) (se_status e).

Definition protect_step (acc : list MemoryEntry * list jstr) (e : MemoryEntry) : list MemoryEntry * list jstr :=
  let key := canonicalJSON (JArr [JStr (me_text e); strs (me_sourceIds e)]) in
  if bool_decide (key ∈ acc.2) then acc else (acc.1 ++ [e], acc.2 ++ [key]).

Definition scan_step (namespaceKey : jstr) (st : ScanState) (im : nat * ChatMessage) : ScanState :=
  let '(i, m) := im in
  let starts := if (i =? 0)%nat || bool_decide (m_role m = RUser) then sc_turnStarts st ++ [i] else sc_turnStarts st in
  let '(cache, analysis, hit) := analyze_cached (sc_cache st) namespaceKey m in
  let sourceEvents := map (state_event namespaceKey (contentDigest sha256Hex m) m i) (an_stateEntries analysis) in
  let '(pm, pk) := foldl protect_step (sc_protectedMemory st, sc_protectedKeys st) (an_protectedMemory analysis) in
  mkScan cache (sc_analyses st ++ [analysis]) starts (sc_turnIndices st ++ [zlen starts - 1]) pm pk
    (sc_events st ++ sourceEvents) (sc_messageEvents st ++ [sourceEvents])
    (if hit then sc_hits st + 1 else sc_hits st) (if hit then sc_analyzed st else sc_analyzed st + 1).

Definition scan (namespaceKey : jstr) (cache : option (LayeredCache Analysis)) (messages : list ChatMessage) : ScanState :=
  foldl (scan_step namespaceKey) (mkScan cache [] [] [] [] [] [] [] 0 0) (imap pair messages).

(** The first message of the retained tail. *)
Definition recent_start (turnStarts : list nat) (retain : option Z) : nat :=
  let keepTurns := default 1 retain + 1 in
  default O (turnStarts !! Z.to_nat (Z.max 0 (zlen turnStarts - keepTurns))).

(** ** Candidates *)

Definition minimumReplacement (o : Observation) : jstr :=
  NODE_MARKER ++ repeat 48 64 ++ js "]" ++ (if bool_decide (ob_memoryKind o = Kfailures) then LF :: ob_text o else []).
Definition worth_replacing (o : Observation) : bool := negb (ob_sourceTokens o <=? count (minimumReplacement o)).

Definition message_candidates (protectedIds : list jstr) (recentStart : nat) (i : nat)
    (x : ChatMessage * (Analysis * list LayeredStateEvent)) : list Candidate :=
  let '(m, (a, events)) := x in
  if (recentStart <=? i)%nat || is_true (m_protected m) || bool_decide (m_id m ∈ protectedIds) || (64 <? zlen events) then []
  else map (λ o, mkCand o m i (an_digest a)) (List.filter worth_replacing (an_observations a)).
Definition candidates_of (protectedIds : list jstr) (recentStart : nat) (messages : list ChatMessage) (st : ScanState) : list Candidate :=
  concat (imap (message_candidates protectedIds recentStart) (zip messages (zip (sc_analyses st) (sc_messageEvents st)))).

(** [byKey]: the candidates of each key, by position. *)
Definition by_key_step (byKey : list (jstr * list nat)) (ic : nat * Candidate) : list (jstr * list nat) :=
  let key := ob_key (cd_observation ic.2) in set_key key (default [] (get key byKey) ++ [ic.1]) byKey.
Definition by_key (candidates : list Candidate) : list (jstr * list nat) := foldl by_key_step [] (imap pair candidates).
Definition duplicates (candidates : list Candidate) : Z := zlen candidates - zlen (by_key candidates).

(** ** Restoring archived state *)

Section Restore.
Context (namespace : Namespace) (nodes : list LayeredNode).

(** [available]: the nodes of this namespace whose identity holds. *)
Definition available : list (jstr * LayeredNode) :=
  foldl (λ m n, set_key (ln_nodeId n) n m) []
    (List.filter (λ n, jeqb (canonicalJSON (json_of_namespace (ln_namespace n))) (canonicalJSON (json_of_namespace namespace))
                       && jeqb (nodeContentHash sha256Hex n) (ln_nodeId n)) nodes).

Record RestoreState := mkRestore {
  rs_roots : list LayeredNode; rs_used : list jstr; rs_restored : list jstr; rs_events : list LayeredStateEvent }.

Definition add_event (events : list LayeredStateEvent) (e : LayeredStateEvent) : list LayeredStateEvent :=
  if existsb (λ x, jeqb (ev_eventId x) (ev_eventId e)) events then events else events ++ [e].

(** The events of a leaf whose provenance its source references confirm. *)
Definition leaf_events (n : LayeredNode) (events : list LayeredStateEvent) : list LayeredStateEvent :=
  if (ln_level n =? 0) && (zlen (ln_children n) =? 0)
  then foldl add_event events (List.filter (event_bound (source_map (ln_sourceRefs n))) (default [] (ln_stateEvents n)))
  else events.

(** [restoreState]; [None] is fuel running out. *)
Fixpoint restoreState (fuel : nat) (id : jstr) (acc : list jstr * list LayeredStateEvent) :
    option (list jstr * list LayeredStateEvent) :=
  match fuel with
  | O => None
  | S f =>
    if bool_decide (id ∈ acc.1) then Some acc else
    let restored := acc.1 ++ [id] in
    match get id available with
    | None => Some (restored, acc.2)
    | Some n =>
      (fix go (children : list jstr) (acc : list jstr * list LayeredStateEvent) :=
         match children with
         | [] => Some acc
         | c :: rest =>
           match get c available with
           | Some child => if ln_level child <? ln_level n then acc' ← restoreState f c acc; go rest acc' else go rest acc
           | None => go rest acc
           end
         end) (ln_children n) (restored, leaf_events n acc.2)
    end
  end.

Definition addExisting (id : jstr) (merge : bool) (st : RestoreState) : option RestoreState :=
  acc ← restoreState (S (S (length available))) id (rs_restored st, rs_events st);
  let st := mkRestore (rs_roots st) (rs_used st) acc.1 acc.2 in
  if negb merge || bool_decide (id ∈ rs_used st) then Some st
  else Some (mkRestore (rs_roots st ++ match get id available with Some n => [n] | None => [] end)
               (rs_used st ++ [id]) (rs_restored st) (rs_events st)).

Definition NODE_RE : regex := Eval vm_compute in re "\[headroom node:([0-9a-f]{64})\]".

(** The node ids a message shows. *)
Definition part_text (p : Part) : jstr := match p with PText t => t | PTool _ _ _ st => default [] (ts_output st) end.
Definition shown_ids (m : ChatMessage) : list jstr :=
  (match m_archive m with Some a => default [] (ar_nodeIds a) | None => [] end)
  ++ flat_map (λ p, map (λ r, default [] (group_of r 1)) (match_all NODE_RE (part_text p))) (m_parts m).

Fixpoint restore_all (ids : list (jstr * bool)) (st : RestoreState) : option RestoreState :=
  match ids with
  | [] => Some st
  | (id, merge) :: r => st' ← addExisting id merge st; restore_all r st'
  end.
Definition shown (recentStart : nat) (messages : list ChatMessage) : list (jstr * bool) :=
  concat (imap (λ i m, map (λ id, (id, (i <? recentStart)%nat)) (shown_ids m)) messages).
End Restore.

(** [a.localeCompare(b)] of lowercase hexadecimal strings. *)
Definition hex_cmp (a b : jstr) : Z := if jltb a b then -1 else if jltb b a then 1 else 0.
Definition event_cmp (a b : LayeredStateEvent) : Z :=
  let c := ev_order a - ev_order b in if c =? 0 then hex_cmp (ev_eventId a) (ev_eventId b) else c.

(** ** Leaves *)

(** The pieces of a long source: [start, end) and tokens. *)
Fixpoint split_source (fuel : nat) (source : jstr) (offset : nat) : result jstr (list (nat * nat * Z)) :=
  if (length source <=? offset)%nat then Ok [] else
  match fuel with
  | O => Ok []
  | S f =>
    let end_ := Nat.min (length source) (offset + Z.to_nat (LEAF_SOURCE_TOKENS * 4)) in
    let end_ := if LEAF_SOURCE_TOKENS <? count (slice source offset end_)
                then search_fit (end_ - offset) (λ mid, count (slice source offset mid) <=? LEAF_SOURCE_TOKENS) offset end_
                else end_ in
    let end_ := if (offset <? end_)%nat && ends_high (take end_ source) then (end_ - 1)%nat else end_ in
    throw_if (end_ <=? offset)%nat with js "TokenCounter cannot fit one source character in a leaf" in
    let! rest := split_source f source end_ in
    Ok ((offset, end_, count (slice source offset end_)) :: rest)
  end.

Definition source_of (c : Candidate) : jstr :=
  match m_parts (cd_message c) !! Z.to_nat (ob_partIndex (cd_observation c)) with
  | Some (PTool _ _ _ st) => default [] (ts_output st)
  | Some (PText text) =>
    match ob_range (cd_observation c) with Some (s, e) => slice text (Z.to_nat s) (Z.to_nat e) | None => text end
  | None => []
  end.
Definition base_offset (c : Candidate) : Z :=
  match ob_kind (cd_observation c), ob_range (cd_observation c) with KTextRange, Some (s, _) => s | _, _ => 0 end.

Record SourcePiece := mkPiece { pc_index : nat; pc_candidate : Candidate; pc_range : option (Z * Z); pc_tokens : Z }.

Definition pieces_of (ic : nat * Candidate) : result jstr (list SourcePiece) :=
  let '(i, c) := ic in
  let o := cd_observation c in
  if ob_sourceTokens o <=? LEAF_SOURCE_TOKENS then Ok [mkPiece i c None (ob_sourceTokens o)]
  else
    let! parts := split_source (length (source_of c)) (source_of c) 0 in
    Ok (map (λ x, mkPiece i c (Some (base_offset c + Z.of_nat x.1.1, base_offset c + Z.of_nat x.1.2)) x.2) parts).

Definition makeNode (n : LayeredNode) : LayeredNode :=
  mkNode (nodeContentHash sha256Hex n) (ln_namespace n) (ln_level n) (ln_children n) (ln_sourceRefs n) (ln_stateEvents n)
    (ln_policyVersion n) (ln_text n) (ln_tokens n) (ln_sourceTokens n).

Definition piece_ref (p : SourcePiece) : LayeredSourceRef :=
  let c := pc_candidate p in
  let range := match pc_range p with Some r => Some r | None => ob_range (cd_observation c) end in
  mkSrc (m_id (cd_message c)) (cd_digest c) (Some (ob_partIndex (cd_observation c))) (fst <$> range) (snd <$> range)
    (ar_historyHash <$> m_archive (cd_message c)) None.

Record GroupState := mkGroupState {
  gs_nodes : list LayeredNode; gs_candidateNodes : list (nat * list jstr);
  gs_group : list SourcePiece; gs_tokens : Z; gs_events : list (jstr * LayeredStateEvent) }.

Definition note_node (id : jstr) (m : list (nat * list jstr)) (p : SourcePiece) : list (nat * list jstr) :=
  let ids := default [] (get (pc_index p) m) in
  set_key (pc_index p) (if bool_decide (last ids = Some id) then ids else ids ++ [id]) m.

Definition leaf_of (namespace : Namespace) (st : GroupState) : LayeredNode :=
  let text := clip count (join [LF] (uniq (map (λ p, ob_text (cd_observation (pc_candidate p))) (gs_group st)))) LEAF_SUMMARY_TOKENS in
  makeNode (mkNode [] namespace 0 [] (map piece_ref (gs_group st)) (Some (gs_events st).*2) LAYERED_POLICY_VERSION text
              (count text) (gs_tokens st)).

Definition flush (namespace : Namespace) (st : GroupState) : GroupState :=
  match gs_group st with
  | [] => st
  | _ =>
    let node := leaf_of namespace st in
    mkGroupState (gs_nodes st ++ [node]) (foldl (note_node (ln_nodeId node)) (gs_candidateNodes st) (gs_group st)) [] 0 []
  end.

Definition put_event (m : list (jstr * LayeredStateEvent)) (e : LayeredStateEvent) : list (jstr * LayeredStateEvent) :=
  set_key (ev_eventId e) e m.

Definition addPiece (namespace : Namespace) (messageEvents : list (list LayeredStateEvent)) (st : GroupState) (p : SourcePiece) : GroupState :=
  let stateEvents := default [] (messageEvents !! cd_messageIndex (pc_candidate p)) in
  let extraEvents := List.filter (λ e, negb (has (ev_eventId e) (gs_events st))) stateEvents in
  let full := (LEAF_SOURCE_TOKENS <? gs_tokens st + pc_tokens p) || (64 <? zlen (gs_events st) + zlen extraEvents) in
  let st := match gs_group st with _ :: _ => if full then flush namespace st else st | [] => st end in
  let st := mkGroupState (gs_nodes st) (gs_candidateNodes st) (gs_group st ++ [p]) (gs_tokens st + pc_tokens p)
              (foldl put_event (gs_events st) stateEvents) in
  if LEAF_SOURCE_TOKENS <=? gs_tokens st then flush namespace st else st.

Fixpoint all_pieces (cs : list (nat * Candidate)) : result jstr (list SourcePiece) :=
  match cs with
  | [] => Ok []
  | ic :: r => let! ps := pieces_of ic in let! rest := all_pieces r in Ok (ps ++ rest)
  end.

Definition group_pieces (namespace : Namespace) (messageEvents : list (list LayeredStateEvent)) (pieces : list SourcePiece) : GroupState :=
  flush namespace (foldl (addPiece namespace messageEvents) (mkGroupState [] [] [] 0 []) pieces).

(** ** Parents *)

Definition parent_of (namespace : Namespace) (group : list LayeredNode) (level : Z) : LayeredNode :=
  let text := clip count (join [LF] (map ln_text group)) PARENT_SUMMARY_TOKENS in
  makeNode (mkNode [] namespace (level + 1) (map ln_nodeId group) [] None LAYERED_POLICY_VERSION text (count text)
              (zsum (map ln_sourceTokens group))).

(** One pass over the frontier: the next frontier, and the parents made. *)
Fixpoint merge_pass (namespace : Namespace) (frontier : list LayeredNode) : list LayeredNode * list LayeredNode :=
  match frontier with
  | a :: tl =>
    match tl with
    | b :: c :: d :: rest =>
      if forallb (λ n, ln_level n =? ln_level a) [a; b; c; d] then
        let parent := parent_of namespace [a; b; c; d] (ln_level a) in
        let '(next, parents) := merge_pass namespace rest in (parent :: next, parent :: parents)
      else let '(next, parents) := merge_pass namespace tl in (a :: next, parents)
    | _ => let '(next, parents) := merge_pass namespace tl in (a :: next, parents)
    end
  | [] => ([], [])
  end.

(** The loop; [None] is fuel running out. *)
Fixpoint merge_loop (fuel : nat) (namespace : Namespace) (frontier : list LayeredNode) : option (list LayeredNode * list LayeredNode) :=
  if (length frontier <? 4)%nat then Some (frontier, []) else
  match fuel with
  | O => None
  | S f =>
    let '(next, parents) := merge_pass namespace frontier in
    match parents with
    | [] => Some (frontier, [])
    | _ => r ← merge_loop f namespace next; Some (r.1, parents ++ r.2)
    end
  end.

(** ** Operations *)

(** What the marker line of each leaf says; a failure keeps its diagnosis. *)
Definition replacement_of (ids : list jstr) (o : Observation) : jstr :=
  join [LF] (map (λ id, NODE_MARKER ++ id ++ js "]") ids)
  ++ if bool_decide (ob_memoryKind o = Kfailures) then LF :: ob_text o else [].

Definition bound_num (f : Z * Z → Z) (range : option (Z * Z)) : json :=
  match range with Some r => num (f r) | None => JStr (js "undefined") end.

Definition operation (c : Candidate) (ids : list jstr) (suffix : jstr) : ViewOperation :=
  let o := cd_observation c in
  let nodeId := default [] (head ids) in
  let operationId := digest_of (canonicalJSON (JArr [JStr LAYERED_POLICY_VERSION; JStr (m_id (cd_message c)); JStr (cd_digest c);
                       JStr (kind_of_observation (ob_kind o)); num (ob_partIndex o); bound_num fst (ob_range o); bound_num snd (ob_range o);
                       JStr nodeId])) in
  let base := mkBase operationId 1 nodeId in
  let replacement := replacement_of ids o ++ suffix in
  match ob_kind o with
  | KToolOutput => OpTool base (m_id (cd_message c)) (cd_digest c) (ob_partIndex o) (ob_fieldDigest o) replacement
  | KTextRange => OpText base (m_id (cd_message c)) (cd_digest c) (ob_partIndex o) (default 0 (fst <$> ob_range o))
                    (default 0 (snd <$> ob_range o)) (ob_fieldDigest o) replacement
  end.

Definition json_of_operation (op : ViewOperation) : json :=
  let base b := [(js "operationId", JStr (operationId b)); (js "sourceVersion", num (sourceVersion b)); (js "nodeId", JStr (nodeId b))] in
  JObj match op with
       | OpRange b ids ds replacement =>
         base b ++ [(js "kind", JStr (js "range")); (js "messageIds", strs ids); (js "sourceDigests", strs ds);
                    (js "replacement", json_of_message replacement)]
       | OpTool b mid d p od replacement =>
         base b ++ [(js "messageId", JStr mid); (js "sourceDigest", JStr d); (js "partIndex", num p); (js "replacement", JStr replacement);
                    (js "kind", JStr (js "tool-output")); (js "outputDigest", JStr od)]
       | OpText b mid d p s e td replacement =>
         base b ++ [(js "messageId", JStr mid); (js "sourceDigest", JStr d); (js "partIndex", num p); (js "replacement", JStr replacement);
                    (js "kind", JStr (js "text-range")); (js "start", num s); (js "end", num e); (js "textDigest", JStr td)]
       end.
Definition json_of_snapshot (s : SourceSnapshot) : json :=
  JObj [(js "messageIds", strs (sn_messageIds s)); (js "sourceDigests", strs (sn_sourceDigests s))].

(** The history and the current user, never the streaming assistant. *)
Definition source_end (messages : list ChatMessage) : nat :=
  match find_index (λ m, bool_decide (m_role m = RUser)) (rev messages) with
  | Some k => length messages - k
  | None => length messages
  end.
Definition snapshot_of (messages : list ChatMessage) (analyses : list Analysis) : SourceSnapshot :=
  mkSnap (map m_id (take (source_end messages) messages)) (map an_digest (take (source_end messages) analyses)).

Definition view_tokens (messages : list ChatMessage) : Z := zsum (map (layeredMessageTokens count) messages).

(** No operations leave the messages as they are. *)
Definition apply_or_keep (messages : list ChatMessage) (operations : list ViewOperation) (snapshot : SourceSnapshot) : Materialized :=
  match operations with
  | [] => mkMat SApplied messages
  | _ => materializeOperations sha256Hex messages operations (Some snapshot)
  end.

(** ** The visible summaries *)

(** The runs of at least three letters, numbers and [_/.:-] of a text. *)
Fixpoint code_points (s : jstr) : list jstr :=
  match s with
  | c :: rest =>
    match rest with
    | d :: r => if is_high c && is_low d then [c; d] :: code_points r else [c] :: code_points rest
    | [] => [[c]]
    end
  | [] => []
  end.
Definition term_point (p : jstr) : bool :=
  match codePointAt p 0 with Some cp => letter_or_number cp || mem_unit cp (js "_/.:-") | None => false end.
Fixpoint term_runs (points : list jstr) (run : list jstr) : list jstr :=
  let done := if (3 <=? length run)%nat then [concat run] else [] in
  match points with
  | [] => done
  | p :: r => if term_point p then term_runs r (run ++ [p]) else done ++ term_runs r []
  end.
Definition request_terms (messages : list ChatMessage) : list jstr :=
  let latest := match last (List.filter (λ m, bool_decide (m_role m = RUser)) messages) with
                | None => []
                | Some m => join (js " ") (omap (λ p, match p with PText t => Some t | _ => None end) (m_parts m))
                end in
  uniq (take 128 (term_runs (code_points (toLowerCase latest)) [])).

Record UniqueEntry := mkUnique { ue_index : nat; ue_candidate : Candidate; ue_values : list Candidate; ue_relevance : Z }.

Definition unique_entry (candidates : list Candidate) (terms : list jstr) (group : list nat) : list UniqueEntry :=
  match group with
  | i :: _ =>
    match candidates !! i with
    | Some c =>
      [mkUnique i c (omap (λ j, candidates !! j) group)
         (zlen (List.filter (λ t, includes t (toLowerCase (ob_text (cd_observation c)))) terms))]
    | None => []
    end
  | [] => []
  end.
Definition priority (e : UniqueEntry) : Z :=
  match ob_memoryKind (cd_observation (ue_candidate e)) with
  | Kfailures | Kopen => 0
  | Kchanges => 1
  | _ => if 0 <? ue_relevance e then 2 else 3
  end.
Definition last_index (e : UniqueEntry) : Z := match last (ue_values e) with Some c => Z.of_nat (cd_messageIndex c) | None => 0 end.
Definition unique_cmp (a b : UniqueEntry) : Z :=
  let c1 := priority a - priority b in
  let c2 := ue_relevance b - ue_relevance a in
  let c3 := last_index b - last_index a in
  if negb (c1 =? 0) then c1 else if negb (c2 =? 0) then c2 else if negb (c3 =? 0) then c3
  else hex_cmp (ob_key (cd_observation (ue_candidate a))) (ob_key (cd_observation (ue_candidate b))).

Record Visible := mkVisible { vi_memory : list MemoryEntry; vi_suffixes : list (nat * jstr); vi_tokens : Z }.

Definition suffix_of (o : Observation) : jstr := if bool_decide (ob_memoryKind o = Kfailures) then [] else LF :: ob_text o.

Definition visible_step (ids_of : nat → list jstr) (historyBudgetTokens : Z) (st : Visible) (e : UniqueEntry) : Visible :=
  let o := cd_observation (ue_candidate e) in
  let suffix := suffix_of o in
  let cost := count suffix in
  if (historyBudgetTokens <? vi_tokens st + cost)
     || (ob_sourceTokens o <=? count (replacement_of (ids_of (ue_index e)) o ++ suffix)) then st
  else mkVisible (vi_memory st ++ [mkMem (ob_memoryKind o) (ob_text o) (uniq (map (λ c, m_id (cd_message c)) (ue_values e)))])
         (set_key (ue_index e) suffix (vi_suffixes st)) (vi_tokens st + cost).

Definition visible (candidates : list Candidate) (ids_of : nat → list jstr) (terms : list jstr) (historyBudgetTokens : Z) : Visible :=
  foldl (visible_step ids_of historyBudgetTokens) (mkVisible [] [] 0)
    (sort_by unique_cmp (flat_map (unique_entry candidates terms) (by_key candidates).*2)).

(** ** The plan *)

Definition history_budget (o : LayeredPlanOptions) (protectedTokens recentTokens wrapperTokens : Z) : Z :=
  let target := layered_target o in
  Z.max 0 (Z.min 4096 (Z.min (default 4096 (lo_memoryMaxTokens o))
    (Z.min (share (lo_contextWindowTokens o) (default (flit 15 (-2)) (lo_memoryRatio o)))
       (Z.min target (share (lo_contextWindowTokens o) (flit 55 (-2))) - protectedTokens - recentTokens - wrapperTokens)))).

Definition reason (b : bool) (text : string) : list jstr := if b then [js text] else [].

(** Messages some candidate replaces part of. *)
Definition affected (candidates : list Candidate) (i : nat) : bool := existsb (λ c, (cd_messageIndex c =? i)%nat) candidates.

Definition select_affected {A} (candidates : list Candidate) (f : nat → ChatMessage → A) (messages : list ChatMessage) : list A :=
  concat (imap (λ i m, if affected candidates i then [f i m] else []) messages).

(** The node ids of each candidate. *)
Definition node_ids (gs : GroupState) (i : nat) : list jstr := default [] (get i (gs_candidateNodes gs)).

Record Planned := mkPlanned {
  pd_scan : ScanState; pd_recentStart : nat; pd_candidates : list Candidate; pd_restored : RestoreState; pd_groups : GroupState;
  pd_parents : list LayeredNode }.

(** The phases up to the evidence hierarchy. *)
Definition prepare (messages : list ChatMessage) (o : LayeredPlanOptions) : result jstr (option Planned) :=
  let! _ := validateOptions o in
  let st := scan (canonicalJSON (json_of_namespace (lo_namespace o))) (lo_cache o) messages in
  let recentStart := recent_start (sc_turnStarts st) (lo_retainRecentTurns o) in
  let candidates := candidates_of (lo_protectedMessageIds o) recentStart messages st in
  let! pieces := all_pieces (imap pair candidates) in
  Ok (rs ← restore_all (lo_namespace o) (lo_nodes o) (shown recentStart messages) (mkRestore [] [] [] (sc_events st));
      let gs := group_pieces (lo_namespace o) (sc_messageEvents st) pieces in
      let roots := rs_roots rs ++ gs_nodes gs in
      parents ← (if layered_target o <? zsum (map an_tokens (sc_analyses st))
                 then snd <$> merge_loop (length roots) (lo_namespace o) roots else Some []);
      Some (mkPlanned st recentStart candidates rs gs
              (List.filter (λ n, negb (has (ln_nodeId n) (available (lo_namespace o) (lo_nodes o)))) parents))).

Definition finish (messages : list ChatMessage) (o : LayeredPlanOptions) (p : Planned) : LayeredPlan :=
  let st := pd_scan p in
  let candidates := pd_candidates p in
  let ids_of := node_ids (pd_groups p) in
  let rawTokens := zsum (map an_tokens (sc_analyses st)) in
  let recentTokens := zsum (map an_tokens (drop (pd_recentStart p) (sc_analyses st))) in
  let target := layered_target o in
  let snapshot := snapshot_of messages (sc_analyses st) in
  let baseline := apply_or_keep messages (imap (λ i c, operation c (ids_of i) []) candidates) snapshot in
  let baselineTokens := view_tokens (mz_messages baseline) in
  let wrapperTokens := zsum (imap (λ i c, count (replacement_of (ids_of i) (cd_observation c))) candidates) in
  let protectedTokens := Z.max 0 (baselineTokens - recentTokens - wrapperTokens) in
  let budget := history_budget o protectedTokens recentTokens wrapperTokens in
  let vi := visible candidates ids_of (request_terms messages) budget in
  let operations := imap (λ i c, operation c (ids_of i) (default [] (get i (vi_suffixes vi)))) candidates in
  let materialized := apply_or_keep messages operations snapshot in
  let finalTokens := view_tokens (mz_messages materialized) in
  let compacted := bool_decide (mz_status materialized = SApplied) && (0 <? zlen operations) && (finalTokens <? rawTokens) in
  let evicted := zsum (imap (λ i a, if affected candidates i then an_tokens a else 0) (sc_analyses st)) in
  let retained := rawTokens - evicted in
  let refs := select_affected candidates
                (λ i m, mkRef (default [] (an_digest <$> sc_analyses st !! i)) (m_role m) (default 0 (sc_turnIndices st !! i))) messages in
  let replaced := select_affected candidates (λ _ m, m_id m) messages in
  let memory := if compacted then vi_memory vi else [] in
  let summary := join [LF] (map me_text memory) in
  {| lp_result :=
       {| hr_compacted := compacted; hr_operations := Some (if compacted then operations else []);
          hr_sourceSnapshot := Some snapshot; hr_sourceDigests := Some (if compacted then map rf_contentHash refs else []);
          hr_epoch := lo_epoch o; hr_memory := Some memory;
          hr_budgetExceeded := Some (target <? (if compacted then finalTokens else rawTokens));
          hr_historyHash := if compacted
                            then Some (digest_of (canonicalJSON (JArr [JStr LAYERED_POLICY_VERSION; json_of_namespace (lo_namespace o);
                                                                       json_of_snapshot snapshot; JArr (map json_of_operation operations)])))
                            else None;
          hr_summary := if compacted then Some summary else None;
          hr_refs := if compacted then refs else []; hr_replacedMessageIds := if compacted then replaced else [];
          hr_rawTokens := rawTokens; hr_summaryTokens := if compacted then count summary else 0; hr_sourceTokensEst := rawTokens;
          hr_evictedTokensEst := if compacted then evicted else 0; hr_retainedTokensEst := if compacted then retained else rawTokens;
          hr_replacementTokensEst := if compacted then finalTokens - retained else 0;
          hr_finalTokensEst := if compacted then finalTokens else rawTokens;
          hr_freedTokens := if compacted then rawTokens - finalTokens else 0 |};
     lp_nodes := if compacted then gs_nodes (pd_groups p) ++ pd_parents p else [];
     lp_protectedMemory := sc_protectedMemory st;
     lp_budget := mkBudget (lo_contextWindowTokens o) target protectedTokens recentTokens wrapperTokens budget
                    (if compacted then vi_tokens vi else 0)
                    (reason (target <? protectedTokens) "protected-content-exceeds-target"
                     ++ reason (target <? protectedTokens + recentTokens) "protected-and-recent-content-exceeds-target"
                     ++ reason (negb compacted) (if 0 <? zlen candidates then "nonpositive-gain-or-invalid-snapshot" else "no-safe-positive-gain-candidates")
                     ++ reason (target <? finalTokens) "target-not-reached");
     lp_metrics := mkMetrics (zlen messages) (sc_analyzed st) (sc_hits st) (zlen candidates) (zlen memory) (duplicates candidates)
                     (if compacted then zlen operations else 0) (zlen (gs_nodes (pd_groups p))) (zlen (pd_parents p))
                     (tc_id counter) (tc_mode counter);
     lp_taskState := mkTaskState (sort_by event_cmp (rs_events (pd_restored p)))
                       (last_n 1 (map m_id (List.filter (λ m, bool_decide (m_role m = RUser)) (drop (pd_recentStart p) messages)))) |}.

(** ** What a planning counts *)

Definition cached_counted (cache : option (LayeredCache Analysis)) (namespaceKey : jstr) (m : ChatMessage) : list jstr :=
  match c ← cache; (cache_get c (analysis_key namespaceKey (contentDigest sha256Hex m))).2 with
  | Some _ => []
  | None => analyze_counted count m
  end.
Fixpoint scan_counted (namespaceKey : jstr) (cache : option (LayeredCache Analysis)) (messages : list ChatMessage) : list jstr :=
  match messages with
  | [] => []
  | m :: r => cached_counted cache namespaceKey m ++ scan_counted namespaceKey (analyze_cached cache namespaceKey m).1.1 r
  end.

Definition candidate_counted (protectedIds : list jstr) (recentStart : nat) (i : nat)
    (x : ChatMessage * (Analysis * list LayeredStateEvent)) : list jstr :=
  let '(m, (a, events)) := x in
  if (recentStart <=? i)%nat || is_true (m_protected m) || bool_decide (m_id m ∈ protectedIds) || (64 <? zlen events) then []
  else map minimumReplacement (an_observations a).

(** The cuts of a long source, up to the piece that cannot be cut: the
    texts counted, and the pieces added. *)
Fixpoint cut_source (fuel : nat) (source : jstr) (offset : nat) : list jstr * list (nat * nat * Z) :=
  if (length source <=? offset)%nat then ([], []) else
  match fuel with
  | O => ([], [])
  | S f =>
    let full := Nat.min (length source) (offset + Z.to_nat (LEAF_SOURCE_TOKENS * 4)) in
    let fits := λ mid, count (slice source offset mid) <=? LEAF_SOURCE_TOKENS in
    let long := LEAF_SOURCE_TOKENS <? count (slice source offset full) in
    let end_ := if long then search_fit (full - offset) fits offset full else full in
    let end_ := if (offset <? end_)%nat && ends_high (take end_ source) then (end_ - 1)%nat else end_ in
    let counted := slice source offset full
                   :: if long then map (λ mid, slice source offset mid) (search_probes (full - offset) fits offset full) else [] in
    if (end_ <=? offset)%nat then (counted, [])
    else let '(more, rest) := cut_source f source end_ in
         (counted ++ slice source offset end_ :: more, (offset, end_, count (slice source offset end_)) :: rest)
  end.

(** The pieces of the candidates in order, up to the one that throws. *)
Fixpoint cut_candidates (cs : list (nat * Candidate)) : list jstr * list SourcePiece :=
  match cs with
  | [] => ([], [])
  | (i, c) :: r =>
    let o := cd_observation c in
    let '(counted, pieces) :=
      if ob_sourceTokens o <=? LEAF_SOURCE_TOKENS then ([], [mkPiece i c None (ob_sourceTokens o)])
      else let '(counted, parts) := cut_source (length (source_of c)) (source_of c) 0 in
           (counted, map (λ x, mkPiece i c (Some (base_offset c + Z.of_nat x.1.1, base_offset c + Z.of_nat x.1.2)) x.2) parts) in
    match pieces_of (i, c) with
    | Throw _ => (counted, pieces)
    | Ok _ => let '(more, rest) := cut_candidates r in (counted ++ more, pieces ++ rest)
    end
  end.

Definition flush_counted (st : GroupState) : list jstr :=
  match gs_group st with
  | [] => []
  | _ => let text := join [LF] (uniq (map (λ p, ob_text (cd_observation (pc_candidate p))) (gs_group st))) in
         clip_counted count text LEAF_SUMMARY_TOKENS ++ [clip count text LEAF_SUMMARY_TOKENS]
  end.
(** The flushes of [addPiece]: of the group before, and of the one that became full. *)
Definition addPiece_counted (namespace : Namespace) (messageEvents : list (list LayeredStateEvent)) (st : GroupState) (p : SourcePiece) : list jstr :=
  let stateEvents := default [] (messageEvents !! cd_messageIndex (pc_candidate p)) in
  let extraEvents := List.filter (λ e, negb (has (ev_eventId e) (gs_events st))) stateEvents in
  let full := (LEAF_SOURCE_TOKENS <? gs_tokens st + pc_tokens p) || (64 <? zlen (gs_events st) + zlen extraEvents) in
  let st1 := match gs_group st with _ :: _ => if full then flush namespace st else st | [] => st end in
  let st2 := mkGroupState (gs_nodes st1) (gs_candidateNodes st1) (gs_group st1 ++ [p]) (gs_tokens st1 + pc_tokens p)
               (foldl put_event (gs_events st1) stateEvents) in
  (if full then flush_counted st else []) ++ (if LEAF_SOURCE_TOKENS <=? gs_tokens st2 then flush_counted st2 else []).
Fixpoint group_counted (namespace : Namespace) (messageEvents : list (list LayeredStateEvent)) (st : GroupState) (pieces : list SourcePiece) :
    list jstr * GroupState :=
  match pieces with
  | [] => ([], st)
  | p :: r => let '(more, st') := group_counted namespace messageEvents (addPiece namespace messageEvents st p) r in
              (addPiece_counted namespace messageEvents st p ++ more, st')
  end.

Definition parent_counted (group : list LayeredNode) : list jstr :=
  let text := join [LF] (map ln_text group) in clip_counted count text PARENT_SUMMARY_TOKENS ++ [clip count text PARENT_SUMMARY_TOKENS].
Fixpoint pass_counted (frontier : list LayeredNode) : list jstr :=
  match frontier with
  | a :: tl =>
    match tl with
    | b :: c :: d :: rest =>
      if forallb (λ n, ln_level n =? ln_level a) [a; b; c; d] then parent_counted [a; b; c; d] ++ pass_counted rest else pass_counted tl
    | _ => pass_counted tl
    end
  | [] => []
  end.
Fixpoint parents_counted (fuel : nat) (namespace : Namespace) (frontier : list LayeredNode) : list jstr :=
  if (length frontier <? 4)%nat then [] else
  match fuel with
  | O => []
  | S f =>
    let '(next, parents) := merge_pass namespace frontier in
    pass_counted frontier ++ match parents with [] => [] | _ => parents_counted f namespace next end
  end.

Fixpoint visible_counted (ids_of : nat → list jstr) (historyBudgetTokens : Z) (st : Visible) (entries : list UniqueEntry) : list jstr :=
  match entries with
  | [] => []
  | e :: r =>
    let o := cd_observation (ue_candidate e) in
    let suffix := suffix_of o in
    suffix :: (if historyBudgetTokens <? vi_tokens st + count suffix then [] else [replacement_of (ids_of (ue_index e)) o ++ suffix])
    ++ visible_counted ids_of historyBudgetTokens (visible_step ids_of historyBudgetTokens st e) r
  end.

(** The texts of the last phases, from the baseline on. *)
Definition finish_counted (messages : list ChatMessage) (o : LayeredPlanOptions) (p : Planned) : list jstr :=
  let candidates := pd_candidates p in
  let ids_of := node_ids (pd_groups p) in
  let snapshot := snapshot_of messages (sc_analyses (pd_scan p)) in
  let view suffix := mz_messages (apply_or_keep messages (imap (λ i c, operation c (ids_of i) (suffix i)) candidates) snapshot) in
  let plan := finish messages o p in
  let budget := lb_historyBudgetTokens (lp_budget plan) in
  let entries := sort_by unique_cmp (flat_map (unique_entry candidates (request_terms messages)) (by_key candidates).*2) in
  let vi := visible candidates ids_of (request_terms messages) budget in
  map counted_message (view (λ _, []))
  ++ imap (λ i c, replacement_of (ids_of i) (cd_observation c)) candidates
  ++ visible_counted ids_of budget (mkVisible [] [] 0) entries
  ++ map counted_message (view (λ i, default [] (get i (vi_suffixes vi))))
  ++ match hr_summary (lp_result plan) with Some summary => [summary] | None => [] end.

(** All of them: after the groups only when no source has thrown. *)
Definition plan_counted (messages : list ChatMessage) (o : LayeredPlanOptions) : list jstr :=
  let namespaceKey := canonicalJSON (json_of_namespace (lo_namespace o)) in
  let st := scan namespaceKey (lo_cache o) messages in
  let recentStart := recent_start (sc_turnStarts st) (lo_retainRecentTurns o) in
  let '(cuts, pieces) := cut_candidates (imap pair (candidates_of (lo_protectedMessageIds o) recentStart messages st)) in
  let '(leaves, last) := group_counted (lo_namespace o) (sc_messageEvents st) (mkGroupState [] [] [] 0 []) pieces in
  scan_counted namespaceKey (lo_cache o) messages
  ++ concat (imap (candidate_counted (lo_protectedMessageIds o) recentStart) (zip messages (zip (sc_analyses st) (sc_messageEvents st))))
  ++ cuts ++ leaves
  ++ match prepare messages o with
     | Ok (Some p) =>
       let roots := rs_roots (pd_restored p) ++ gs_nodes (pd_groups p) in
       flush_counted last
       ++ (if layered_target o <? zsum (map an_tokens (sc_analyses st)) then parents_counted (length roots) (lo_namespace o) roots else [])
       ++ finish_counted messages o p
     | _ => []
     end.

(** [buildLayeredPlan]: the plan and the cache left behind.  The cached
    counter throws at the first text whose count is no nonnegative integer. *)
Definition buildLayeredPlan (messages : list ChatMessage) (o : LayeredPlanOptions) :
    result jstr (option (LayeredPlan * option (LayeredCache Analysis))) :=
  let! _ := validateOptions o in
  throw_if negb (forallb (λ text, count_ok (count text)) (plan_counted messages o)) with COUNTER_ERROR in
  let! p := prepare messages o in
  Ok (p ← p; Some (finish messages o p, sc_cache (pd_scan p))).

Lemma buildLayeredPlan_ok messages o plan cache :
  buildLayeredPlan messages o = Ok (Some (plan, cache)) → ∃ p, prepare messages o = Ok (Some p) ∧ plan = finish messages o p.
Proof.
  unfold buildLayeredPlan. intros (_ & _ & H)%rbind_ok. destruct (negb _) in H; [done|]. apply rbind_ok in H as (p & Hp & H).
  injection H as H. destruct p as [p|]; [|done]. injection H as <- _. by exists p.
Qed.
End Plan.

(** ** Lemmas on selection *)

Lemma select_lookup {A} candidates (f : nat → ChatMessage → A) messages j y :
  select_affected candidates f messages !! j = Some y →
  ∃ i m, messages !! i = Some m ∧ affected candidates i = true ∧ y = f i m
    ∧ ∀ B (g : nat → ChatMessage → B), select_affected candidates g messages !! j = Some (g i m).
Proof.
  unfold select_affected. assert (∀ (h : nat → nat) j, concat (imap (λ i m, if affected candidates (h i) then [f (h i) m] else []) messages) !! j = Some y →
    ∃ i m, messages !! i = Some m ∧ affected candidates (h i) = true ∧ y = f (h i) m
      ∧ ∀ B (g : nat → ChatMessage → B), concat (imap (λ i m, if affected candidates (h i) then [g (h i) m] else []) messages) !! j = Some (g (h i) m)) as H;
    [|exact (H (λ i, i) j)].
  induction messages as [|m messages IH]; intros h k Hk; [done|]. cbn [imap concat] in Hk. destruct (affected candidates (h 0%nat)) eqn:E.
  - destruct k as [|k]; cbn [app lookup list_lookup] in Hk.
    + exists O, m. injection Hk as <-. split_and!; [done|done|done|]. intros B g. cbn [imap concat]. by rewrite E.
    + destruct (IH (h ∘ S) k Hk) as (i & m' & ? & ? & ? & Hg). exists (S i), m'. split_and!; [done|done|done|].
      intros B g. cbn [imap concat]. rewrite E. cbn [app lookup list_lookup]. exact (Hg B g).
  - cbn [app] in Hk. destruct (IH (h ∘ S) k Hk) as (i & m' & ? & ? & ? & Hg). exists (S i), m'. split_and!; [done|done|done|].
    intros B g. cbn [imap concat]. rewrite E. exact (Hg B g).
Qed.

Lemma select_map {A B} candidates (f : nat → ChatMessage → A) (h : A → B) messages :
  map h (select_affected candidates f messages) = select_affected candidates (λ i m, h (f i m)) messages.
Proof.
  unfold select_affected. assert (∀ k : nat → nat, map h (concat (imap (λ i m, if affected candidates (k i) then [f (k i) m] else []) messages))
    = concat (imap (λ i m, if affected candidates (k i) then [h (f (k i) m)] else []) messages)) as H; [|exact (H (λ i, i))].
  induction messages as [|m messages IH]; intros k; [done|]. cbn [imap concat]. rewrite map_app. f_equal; [by destruct (affected _ _)|].
  exact (IH (k ∘ S)).
Qed.

Lemma select_length {A B} candidates (f : nat → ChatMessage → A) (g : nat → ChatMessage → B) messages :
  length (select_affected candidates f messages) = length (select_affected candidates g messages).
Proof.
  rewrite <- (length_map (λ _, tt)), <- (length_map (λ _, tt) (select_affected candidates g messages)). by rewrite !select_map.
Qed.

(** The ids of the affected messages are the targeted ids, in message order. *)
Lemma select_ids candidates messages (targets : list jstr) :
  (∀ i m, messages !! i = Some m → affected candidates i = bool_decide (m_id m ∈ targets)) →
  select_affected candidates (λ _ m, m_id m) messages = List.filter (λ id, bool_decide (id ∈ targets)) (map m_id messages).
Proof.
  unfold select_affected. assert (∀ k : nat → nat, (∀ i m, messages !! i = Some m → affected candidates (k i) = bool_decide (m_id m ∈ targets)) →
    concat (imap (λ i m, if affected candidates (k i) then [m_id m] else []) messages)
    = List.filter (λ id, bool_decide (id ∈ targets)) (map m_id messages)) as H; [|exact (H (λ i, i))].
  induction messages as [|m messages IH]; intros k Hk; [done|]. cbn [imap concat map List.filter]. rewrite (Hk O m) by done.
  rewrite <- (IH (k ∘ S)) by (intros i m' Hm; exact (Hk (S i) m' Hm)). by destruct (bool_decide _).
Qed.

(** ** Lemmas on candidates and operations *)

Section PlanProofs.
Context (sha256Hex : jstr → jstr) (counter : TokenCounter).

Lemma candidates_sound protectedIds recentStart messages st :
  Forall (λ c, messages !! cd_messageIndex c = Some (cd_message c) ∧ (cd_messageIndex c < recentStart)%nat
              ∧ is_true (m_protected (cd_message c)) = false ∧ (m_id (cd_message c) ∉ protectedIds)
              ∧ ∃ a, sc_analyses st !! cd_messageIndex c = Some a ∧ cd_observation c ∈ an_observations a ∧ cd_digest c = an_digest a)
    (candidates_of counter protectedIds recentStart messages st).
Proof.
  apply Forall_forall. unfold candidates_of. intros c Hc. apply list_elem_of_In, in_concat in Hc as (l & Hl & Hc).
  apply list_elem_of_In in Hl. apply list_elem_of_In in Hc. apply elem_of_lookup_imap in Hl as (i & x & -> & Hx). destruct x as [m [a events]].
  apply lookup_zip_with_Some in Hx as (m' & [a' ev'] & [= -> -> ->] & Hm & Ha). apply lookup_zip_with_Some in Ha as (a'' & ev'' & [= -> ->] & Ha & _).
  unfold message_candidates in Hc. destruct (_ || _ || _ || _) eqn:E; [by apply elem_of_nil in Hc|]. bool_prop.
  apply list_elem_of_fmap in Hc as (ob & -> & Hob). cbn. rewrite list_elem_of_In in Hob. apply filter_In in Hob as [Hob _].
  split_and!; [done|by apply Nat.leb_gt|done|done|]. exists a''. split_and!; [done|by rewrite list_elem_of_In|done].
Qed.

Lemma operation_part c ids suffix :
  op_part (operation sha256Hex c ids suffix) = Some (m_id (cd_message c), ob_partIndex (cd_observation c)).
Proof. unfold operation. by destruct (ob_kind _). Qed.
Lemma operation_mid c ids suffix : op_mid (operation sha256Hex c ids suffix) = m_id (cd_message c).
Proof. unfold op_mid. by rewrite operation_part. Qed.

Lemma nodup_lookup_inj {A} (l : list A) i j x : NoDup l → l !! i = Some x → l !! j = Some x → i = j.
Proof. intros H. rewrite NoDup_alt in H. apply H. Qed.

(** A filter that keeps members of a prefix only. *)
Lemma filter_prefix (targets l : list jstr) n :
  NoDup l → (∀ x, x ∈ targets → x ∈ take n l) →
  List.filter (λ x, bool_decide (x ∈ targets)) l = List.filter (λ x, bool_decide (x ∈ targets)) (take n l).
Proof.
  intros Hnd Ht. rewrite <- (take_drop n l) at 1. rewrite List.filter_app.
  assert (List.filter (λ x, bool_decide (x ∈ targets)) (drop n l) = []) as ->; [|by rewrite app_nil_r].
  rewrite <- (take_drop n l) in Hnd. apply NoDup_app in Hnd as (_ & Hd & _).
  induction (drop n l) as [|x r IH]; [done|]. cbn [List.filter]. rewrite bool_decide_false.
  - apply IH. intros y Hy Hr. apply (Hd y Hy). by right.
  - intros Hx. apply (Hd x (Ht x Hx)). by left.
Qed.

(** The operations of a candidate list, [ids] and [suffix] chosen per candidate. *)
Definition operations_of (candidates : list Candidate) (ids : nat → list jstr) (suffix : nat → jstr) : list ViewOperation :=
  imap (λ i c, operation sha256Hex c (ids i) (suffix i)) candidates.

Lemma operations_mids candidates ids suffix : map op_mid (operations_of candidates ids suffix) = map (λ c, m_id (cd_message c)) candidates.
Proof.
  unfold operations_of. revert ids suffix. induction candidates as [|c cs IH]; intros ids suffix; [done|]. cbn [imap map].
  rewrite operation_mid. f_equal. exact (IH (ids ∘ S) (suffix ∘ S)).
Qed.

Lemma operations_partial candidates ids suffix : Forall partial (operations_of candidates ids suffix).
Proof.
  apply Forall_forall. intros op Hop. apply elem_of_lookup_imap in Hop as (i & c & -> & _). unfold partial. by rewrite operation_part.
Qed.

Section Applied.
Context (messages : list ChatMessage) (candidates : list Candidate) (analyses : list Analysis) (ids : nat → list jstr) (suffix : nat → jstr).
Hypothesis Hcand : Forall (λ c, messages !! cd_messageIndex c = Some (cd_message c)) candidates.
Hypothesis Hanalyses : length analyses = length messages.
Abbreviation ops := (operations_of candidates ids suffix).
Abbreviation snap := (snapshot_of messages analyses).
Hypothesis Hne : candidates ≠ [].
Hypothesis Happlied : mz_status (apply_or_keep sha256Hex messages ops snap) = SApplied.

Lemma applied_ok : NoDup (map m_id messages) ∧ partial_plan_ok ops snap.
Proof.
  unfold apply_or_keep in Happlied. destruct ops as [|op r] eqn:E; [by destruct candidates|]. rewrite <- E in *. clear E.
  unfold materializeOperations in Happlied. destruct (materialize _ _ _ _) as [out|f] eqn:Em; [|by destruct f].
  eapply materialize_partial; [exact Em|apply operations_partial].
Qed.

Lemma targets_in_snapshot id : id ∈ map op_mid ops → id ∈ take (source_end messages) (map m_id messages).
Proof.
  intros (op & -> & Hop)%list_elem_of_fmap. destruct applied_ok as [_ [_ _ Hs _]]. rewrite Forall_forall in Hs.
  destruct (Hs op Hop) as (mid & p & i & Hp & _ & Hi & _). unfold op_mid. rewrite Hp. cbn. cbn in Hi. rewrite firstn_map.
  by eapply list_elem_of_lookup_2.
Qed.

Lemma affected_target i m : messages !! i = Some m → affected candidates i = bool_decide (m_id m ∈ map op_mid ops).
Proof.
  intros Hm. rewrite operations_mids. destruct applied_ok as [Hnd _]. rewrite Forall_forall in Hcand.
  apply eq_true_iff_eq. rewrite bool_decide_eq_true. unfold affected. rewrite existsb_exists. split.
  - intros (c & Hc & E%Nat.eqb_eq). rewrite <- list_elem_of_In in Hc. specialize (Hcand c Hc). rewrite E, Hm in Hcand. injection Hcand as ->.
    apply list_elem_of_fmap. by exists c.
  - intros (c & E & Hc)%list_elem_of_fmap. exists c. rewrite <- list_elem_of_In. split; [done|]. apply Nat.eqb_eq. specialize (Hcand c Hc).
    eapply (nodup_lookup_inj (map m_id messages)); [done|by rewrite map_lookup, Hcand|rewrite map_lookup, Hm; cbn; f_equal; exact E].
Qed.

Lemma replaced_ids :
  select_affected candidates (λ _ m, m_id m) messages
  = List.filter (λ id, bool_decide (id ∈ map op_mid ops)) (sn_messageIds snap).
Proof.
  rewrite (select_ids candidates messages (map op_mid ops)) by apply affected_target. cbn [sn_messageIds snapshot_of].
  rewrite <- firstn_map. apply filter_prefix; [by destruct applied_ok|apply targets_in_snapshot].
Qed.

Lemma replaced_digests j id :
  select_affected candidates (λ _ m, m_id m) messages !! j = Some id →
  ∃ i, sn_messageIds snap !! i = Some id
    ∧ sn_sourceDigests snap !! i = select_affected candidates (λ i _, default [] (an_digest <$> analyses !! i)) messages !! j.
Proof.
  intros Hj. destruct (select_lookup _ _ _ _ _ Hj) as (i & m & Hm & Ha & -> & Hg). exists i.
  assert (i < source_end messages)%nat as Hi.
  { rewrite (affected_target _ _ Hm) in Ha. apply bool_decide_eq_true, targets_in_snapshot, list_elem_of_lookup in Ha as (k & Hk).
    apply lookup_take_Some in Hk as [Hk Hlt]. destruct applied_ok as [Hnd _].
    assert (i = k) as ->; [|done]. eapply nodup_lookup_inj; [exact Hnd|by rewrite map_lookup, Hm|done]. }
  split; cbn [snapshot_of sn_messageIds sn_sourceDigests].
  - by rewrite map_lookup, lookup_take_lt, Hm.
  - rewrite (Hg _ (λ i _, default [] (an_digest <$> analyses !! i))), map_lookup, lookup_take_lt by done.
    apply lookup_lt_Some in Hm. destruct (lookup_lt_is_Some_2 analyses i) as [a ->]; [lia|done].
Qed.

Lemma replaced_nonempty {A} (f : nat → ChatMessage → A) : select_affected candidates f messages ≠ [].
Proof.
  intros E. destruct candidates as [|c cs] eqn:Ec; [done|]. rewrite <- Ec in *. clear Hne.
  assert (c ∈ candidates) as Hc by (rewrite Ec; by left). rewrite Forall_forall in Hcand. specialize (Hcand c Hc).
  assert (m_id (cd_message c) ∈ select_affected candidates (λ _ m, m_id m) messages) as Hin.
  { unfold select_affected. rewrite list_elem_of_In. apply in_concat. exists [m_id (cd_message c)]. split; [|by left].
    rewrite <- list_elem_of_In. apply elem_of_lookup_imap. exists (cd_messageIndex c), (cd_message c). split; [|done].
    assert (affected candidates (cd_messageIndex c) = true) as ->; [|done]. unfold affected. apply existsb_exists. exists c.
    rewrite <- list_elem_of_In. split; [done|apply Nat.eqb_refl]. }
  pose proof (select_length candidates f (λ _ m, m_id m) messages) as Hl. rewrite E in Hl.
  destruct (select_affected candidates (λ _ m, m_id m) messages); [by apply elem_of_nil in Hin|done].
Qed.
End Applied.
End PlanProofs.

(** ** The contract of a plan *)

Section Contract.
Context (sha256Hex : jstr → jstr) (counter : TokenCounter) (maxEntries maxBytes : Z).
Abbreviation scan := (scan sha256Hex counter maxEntries maxBytes).

Lemma scan_messages_snoc ns st l im : foldl (scan_step sha256Hex counter maxEntries maxBytes ns) st (l ++ [im])
  = scan_step sha256Hex counter maxEntries maxBytes ns (foldl (scan_step sha256Hex counter maxEntries maxBytes ns) st l) im.
Proof. by rewrite foldl_app. Qed.

Lemma scan_lengths ns cache messages :
  length (sc_analyses (scan ns cache messages)) = length messages ∧ length (sc_turnIndices (scan ns cache messages)) = length messages
  ∧ length (sc_messageEvents (scan ns cache messages)) = length messages.
Proof.
  unfold Layered.scan. rewrite <- (length_imap pair messages). induction (imap pair messages) as [|im l IH] using rev_ind; [done|].
  rewrite scan_messages_snoc, length_app. cbn [length]. destruct (foldl _ _ l) as [c an ts ti pm pk ev me h a]. unfold scan_step. destruct im as [i m].
  cbn [sc_cache]. destruct (analyze_cached _ _ _ _ _ _ _) as [[c' a'] hit]. cbn [sc_protectedMemory sc_protectedKeys].
  destruct (foldl protect_step _ _) as [pm' pk']. cbn in *. rewrite !length_app. cbn. lia.
Qed.

(** A planned state whose parts belong to [messages]. *)
Record planned_for (messages : list ChatMessage) (p : Planned) : Prop := {
  pf_candidates : Forall (λ c, messages !! cd_messageIndex c = Some (cd_message c)) (pd_candidates p);
  pf_analyses : length (sc_analyses (pd_scan p)) = length messages }.

Lemma prepare_planned messages o p :
  prepare sha256Hex counter maxEntries maxBytes messages o = Ok (Some p) → planned_for messages p.
Proof.
  unfold prepare. intros (_ & _ & H)%rbind_ok. cbv zeta in H. apply rbind_ok in H as (pieces & _ & H). injection H as H.
  destruct (restore_all _ _ _ _ _) as [rs|]; cbn [mbind option_bind] in H; [|done].
  destruct (if _ : bool then _ else _) as [parents|]; cbn [mbind option_bind] in H; [|done]. injection H as <-. split; cbn [pd_candidates pd_scan].
  - eapply Forall_impl; [apply candidates_sound|]. by intros c [? _].
  - by destruct (scan_lengths (canonicalJSON (json_of_namespace (lo_namespace o))) (lo_cache o) messages).
Qed.

(** *** The scan with a coherent cache *)

(** The cache only holds analyses of the messages their keys name. *)
Definition coherent (ns : jstr) (messages : list ChatMessage) (cache : option (LayeredCache Analysis)) : Prop :=
  ∀ c m e, cache = Some c → m ∈ messages → get (analysis_key counter ns (contentDigest sha256Hex m)) (lc_entries c) = Some e →
    ce_value e = analyze sha256Hex (count counter) m ns (contentDigest sha256Hex m).
(** Messages with one digest have one analysis. *)
Definition digests_bind (ns : jstr) (messages : list ChatMessage) : Prop :=
  ∀ m m', m ∈ messages → m' ∈ messages → contentDigest sha256Hex m = contentDigest sha256Hex m' →
    analyze sha256Hex (count counter) m ns (contentDigest sha256Hex m) = analyze sha256Hex (count counter) m' ns (contentDigest sha256Hex m').

Lemma analyze_cached_coherent ns messages cache m :
  m ∈ messages → digests_bind ns messages → coherent ns messages cache →
  let r := analyze_cached sha256Hex counter maxEntries maxBytes cache ns m in
  r.1.2 = analyze sha256Hex (count counter) m ns (contentDigest sha256Hex m) ∧ coherent ns messages r.1.1.
Proof.
  intros Hm Hb Hc. unfold analyze_cached. destruct cache as [c|]; [|done]. set (key := analysis_key counter ns (contentDigest sha256Hex m)).
  pose proof (cache_get_value c key) as Hv. pose proof (cache_get_lookup c key) as Hl. destruct (cache_get c key) as [c1 [a|]]; cbn [fst snd] in *.
  - destruct (get key (lc_entries c)) as [e|] eqn:E; [|done]. injection Hv as ->. split; [by apply (Hc c m e)|].
    intros c' m' e' [= <-] Hm' Hg. rewrite Hl in Hg. by apply (Hc c m' e').
  - split; [done|]. intros c' m' e' [= <-] Hm' Hg. destruct (cache_set _ _ _ _ _ _) as [c2|] eqn:Es; cbn [default from_option id] in Hg.
    + destruct (cache_set_lookup _ _ _ _ _ _ _ _ _ Es Hg) as [[Ek ->]|Hg'].
      * apply app_inv_head in Ek. injection Ek as Ek. apply app_inv_head in Ek. injection Ek as Ek.
        by apply Hb.
      * rewrite Hl in Hg'. by apply (Hc c m' e').
    + rewrite Hl in Hg. by apply (Hc c m' e').
Qed.

Lemma scan_analyses ns cache messages :
  digests_bind ns messages → coherent ns messages cache →
  sc_analyses (scan ns cache messages) = map (λ m, analyze sha256Hex (count counter) m ns (contentDigest sha256Hex m)) messages.
Proof.
  intros Hb Hc. unfold Layered.scan. set (st0 := mkScan cache [] [] [] [] [] [] [] 0 0).
  assert (∀ l, (∀ im, im ∈ l → im.2 ∈ messages) →
    let st := foldl (scan_step sha256Hex counter maxEntries maxBytes ns) st0 l in
    sc_analyses st = map (λ im, analyze sha256Hex (count counter) im.2 ns (contentDigest sha256Hex im.2)) l ∧ coherent ns messages (sc_cache st)) as H.
  { induction l as [|[i m] l IH] using rev_ind; intros Hl; [done|]. rewrite scan_messages_snoc. destruct IH as [H1 H2]; [intros im Him; apply Hl; set_solver|].
    destruct (foldl _ _ l) as [c an ts ti pm pk ev me h a]. cbn [sc_analyses sc_cache] in *. unfold scan_step. cbn [sc_cache].
    pose proof (analyze_cached_coherent ns messages c m) as Ha. destruct (analyze_cached _ _ _ _ _ _ _) as [[c' a'] hit]. cbn [fst snd] in Ha.
    destruct Ha as [-> Hc']; [apply (Hl (i, m)); set_solver|done|done|]. cbn [sc_protectedMemory sc_protectedKeys].
    destruct (foldl protect_step _ _) as [pm' pk']. cbn [sc_analyses sc_cache]. split; [by rewrite map_app, H1|done]. }
  destruct (H (imap pair messages)) as [-> _].
  { intros im (i & x & -> & Hx)%elem_of_lookup_imap. by eapply list_elem_of_lookup_2. }
  assert (∀ k : nat → nat, map (λ im, analyze sha256Hex (count counter) im.2 ns (contentDigest sha256Hex im.2)) (imap (λ i m, (k i, m)) messages)
    = map (λ m, analyze sha256Hex (count counter) m ns (contentDigest sha256Hex m)) messages) as Hk; [|exact (Hk (λ i, i))].
  clear. induction messages as [|m l IH]; intros k; [done|]. cbn [imap map snd]. f_equal. exact (IH (k ∘ S)).
Qed.

Context (toLowerCase : jstr → jstr) (letter_or_number : Z → bool).
Abbreviation finish := (finish sha256Hex counter toLowerCase letter_or_number).

Lemma finish_valid messages o p :
  planned_for messages p → Forall (λ m, units_ok (m_id m)) messages →
  headroomCompressResult_refine (lp_result (finish messages o p)) = true.
Proof.
  intros [Hc Ha] Hu. unfold Layered.finish. cbv zeta. cbn [lp_result]. set (ids := node_ids (pd_groups p)).
  set (vi := visible _ _ _ _ _ _). change (imap (λ i c, operation sha256Hex c (ids i) (default [] (get i (vi_suffixes vi)))) (pd_candidates p))
    with (operations_of sha256Hex (pd_candidates p) ids (λ i, default [] (get i (vi_suffixes vi)))).
  set (suffix := λ i, default [] (get i (vi_suffixes vi))). set (ops := operations_of _ _ _ _).
  set (snap := snapshot_of _ _). set (final := view_tokens _ _). set (raw := zsum (map an_tokens _)).
  set (evicted := zsum (imap _ _)).
  destruct (bool_decide _ && (0 <? zlen ops) && (final <? raw)) eqn:E; unfold headroomCompressResult_refine; cbn [hr_compacted hr_rawTokens
    hr_sourceTokensEst hr_finalTokensEst hr_retainedTokensEst hr_replacementTokensEst hr_freedTokens hr_sourceDigests hr_memory
    hr_replacedMessageIds hr_refs hr_historyHash hr_summary hr_evictedTokensEst].
  2: { unfold operationSourcesAligned. cbn [hr_operations hr_compacted negb is_none]. change (zlen ([] : list ViewOperation)) with 0.
       change (zlen ([] : list CompactionRef)) with 0. change (zlen ([] : list jstr)) with 0. rewrite !Z.eqb_refl. lia. }
  apply andb_true_iff in E as [[E1 E2]%andb_true_iff E3]. apply bool_decide_eq_true in E1. apply Z.ltb_lt in E2, E3.
  assert (pd_candidates p ≠ []) as Hne by (intros En; unfold ops in E2; rewrite En in E2; cbn in E2; lia).
  destruct (applied_ok sha256Hex messages (pd_candidates p) (sc_analyses (pd_scan p)) ids suffix Hc Hne E1) as [Hnd Hpp].
  pose proof (replaced_ids sha256Hex messages (pd_candidates p) (sc_analyses (pd_scan p)) ids suffix Hc Hne E1) as Hrep.
  rewrite !select_map. cbn [rf_contentHash].
  repeat (apply andb_true_iff; split).
  - eapply partial_aligned; [exact Hpp| | |reflexivity|reflexivity|reflexivity|reflexivity|reflexivity|exact Hrep|].
    + apply Forall_forall. intros id (m & -> & Hm)%list_elem_of_fmap. rewrite Forall_forall in Hu. apply Hu.
      by apply (subseteq_take (source_end messages)).
    + intros En. fold ops in En. rewrite En in E2. cbn in E2. lia.
    + eapply replaced_digests; done.
  - lia.
  - lia.
  - lia.
  - done.
  - apply Z.eqb_eq. by rewrite (select_length _ _ (λ _ m, m_id m)).
  - apply Z.eqb_eq. f_equal. apply select_length.
  - apply Z.ltb_lt. match goal with |- 0 < zlen ?l => destruct l eqn:Es end; [exfalso; revert Es; eapply replaced_nonempty; done|rewrite length_cons; lia].
  - apply bool_decide_eq_true. rewrite Hrep. apply NoDup_ListNoDup, List.NoDup_filter, NoDup_ListNoDup. by destruct Hpp.
  - by apply bool_decide_eq_true.
  - done.
  - done.
  - lia.
  - lia.
Qed.

(** What a compacted plan promises about its own application. *)
Lemma finish_compacted messages o p :
  let r := lp_result (finish messages o p) in
  hr_compacted r = true →
  ∃ ids suffix, let ops := operations_of sha256Hex (pd_candidates p) ids suffix in let snap := snapshot_of messages (sc_analyses (pd_scan p)) in
    hr_operations r = Some ops ∧ hr_sourceSnapshot r = Some snap ∧ pd_candidates p ≠ []
    ∧ mz_status (materializeOperations sha256Hex messages ops (Some snap)) = SApplied
    ∧ view_tokens counter (mz_messages (materializeOperations sha256Hex messages ops (Some snap))) = hr_finalTokensEst r
    ∧ hr_finalTokensEst r < hr_rawTokens r.
Proof.
  intros r. subst r. unfold Layered.finish. cbv zeta. cbn [lp_result hr_compacted hr_operations hr_sourceSnapshot hr_finalTokensEst hr_rawTokens].
  set (ids := node_ids (pd_groups p)). set (vi := visible _ _ _ _ _ _). intros E. rewrite E.
  exists ids, (λ i, default [] (get i (vi_suffixes vi))). fold (operations_of sha256Hex (pd_candidates p) ids (λ i, default [] (get i (vi_suffixes vi)))) in E |- *.
  apply andb_true_iff in E as [[E1 E2]%andb_true_iff E3]. apply bool_decide_eq_true in E1. apply Z.ltb_lt in E2, E3.
  assert (pd_candidates p ≠ []) as Hne by (intros En; rewrite En in E2; cbn in E2; lia).
  unfold apply_or_keep in E1, E3 |- *. destruct (operations_of _ _ _ _) as [|op ops] eqn:Eo; [by destruct (pd_candidates p)|].
  split_and!; done.
Qed.

Lemma finish_inert messages o p :
  hr_compacted (lp_result (finish messages o p)) = false →
  hr_operations (lp_result (finish messages o p)) = Some [] ∧ lp_nodes (finish messages o p) = [].
Proof. unfold Layered.finish. cbv zeta. cbn [lp_result hr_compacted hr_operations lp_nodes]. by intros ->. Qed.

(** What an observation of a message replaces. *)
Definition observes (m : ChatMessage) (ob : Observation) : Prop :=
  match m_parts m !! Z.to_nat (ob_partIndex ob) with
  | Some (PTool _ _ _ st) =>
    ob_kind ob = KToolOutput ∧ completed (ts_status st) = true ∧ default [] (ts_output st) ≠ []
    ∧ ob_fieldDigest ob = textDigest_of sha256Hex (default [] (ts_output st))
  | Some (PText text) =>
    ∃ r, r ∈ materialRanges text ∧ ob_kind ob = KTextRange ∧ ob_range ob = Some (Z.of_nat r.1, Z.of_nat r.2)
      ∧ ob_fieldDigest ob = textDigest_of sha256Hex (slice text r.1 r.2)
  | None => False
  end.

Lemma analyze_observes m ns digest ob :
  ob ∈ an_observations (analyze sha256Hex (count counter) m ns digest) → observes m ob ∧ 0 <= ob_partIndex ob.
Proof.
  unfold analyze. cbn [an_observations]. intros H. rewrite list_elem_of_In in H. apply in_flat_map in H as (x & Hx & H).
  rewrite <- list_elem_of_In in Hx. apply elem_of_lookup_imap in Hx as (i & p & -> & Hp). rewrite <- list_elem_of_In in H.
  unfold observes. destruct p as [text|tool callId input st]; cbn [analyze_part fst snd] in H.
  - apply list_elem_of_fmap in H as (r & -> & Hr). unfold material_observation. cbn [ob_partIndex ob_kind ob_range ob_fieldDigest].
    rewrite Nat2Z.id, Hp. split; [by exists r|lia].
  - destruct (_ && _ && _) eqn:E; [|by apply elem_of_nil in H]. bool_prop. cbn [fst] in H. destruct (sk_safe _); [|by apply elem_of_nil in H].
    apply list_elem_of_singleton in H as ->. cbn [ob_partIndex ob_kind ob_range ob_fieldDigest]. rewrite Nat2Z.id, Hp.
    split; [|lia]. split_and!; [done|done| |done]. intros E'. by rewrite E' in *.
Qed.

(** What an operation of a plan replaces in a message: the whole nonempty output
    of a tool call that is over, or exactly one block of reference material. *)
Definition replaces_material (m : ChatMessage) (op : ViewOperation) : Prop :=
  match op with
  | OpRange _ _ _ _ => False
  | OpTool _ id _ p outputDigest _ => id = m_id m ∧ 0 <= p ∧ ∃ tool callId input st output,
      m_parts m !! Z.to_nat p = Some (PTool tool callId input st) ∧ settled (PTool tool callId input st)
      ∧ ts_output st = Some output ∧ output ≠ [] ∧ outputDigest = sha256Hex output
  | OpText _ id _ p start end_ textDigest _ => id = m_id m ∧ 0 <= p ∧ ∃ text,
      m_parts m !! Z.to_nat p = Some (PText text) ∧ 0 <= start ∧ reference_block text (Z.to_nat start) (Z.to_nat end_)
      ∧ textDigest = sha256Hex (slice text (Z.to_nat start) (Z.to_nat end_))
  end.

Lemma operation_replaces c ids suffix :
  observes (cd_message c) (cd_observation c) → 0 <= ob_partIndex (cd_observation c) →
  replaces_material (cd_message c) (operation sha256Hex c ids suffix).
Proof.
  unfold observes, operation. set (ob := cd_observation c). intros H Hp.
  destruct (m_parts (cd_message c) !! Z.to_nat (ob_partIndex ob)) as [[text|tool callId input st]|] eqn:E; [| |done].
  - destruct H as ([s e] & Hr & -> & Hrange & Hd). cbn [replaces_material]. rewrite Hrange. cbn [fst snd fmap option_fmap option_map default from_option id].
    split_and!; [done|done|]. exists text. rewrite !Nat2Z.id. split_and!; [done|lia|by apply materialRanges_reference|done].
  - destruct H as (-> & Hc & Hne & Hd). cbn [replaces_material]. split_and!; [done|done|]. exists tool, callId, input, st.
    destruct (ts_output st) as [output|]; [|done]. exists output. split_and!; [done|by apply completed_settled|done|done|done].
Qed.

(** [turnStarts] of the scan. *)
Definition turn_starts (messages : list ChatMessage) : list nat :=
  concat (imap (λ i m, if (i =? 0)%nat || bool_decide (m_role m = RUser) then [i] else []) messages).

Lemma scan_turn_starts ns cache messages : sc_turnStarts (scan ns cache messages) = turn_starts messages.
Proof.
  unfold Layered.scan, turn_starts. induction messages as [|m messages IH] using rev_ind; [done|].
  rewrite !imap_app, concat_app, <- IH. cbn [imap concat]. rewrite foldl_app. cbn [foldl].
  destruct (foldl _ _ (imap pair messages)) as [c an ts ti pm pk ev me h a]. unfold scan_step. cbn [sc_cache sc_turnStarts].
  destruct (analyze_cached _ _ _ _ _ _ _) as [[c' a'] hit]. destruct (foldl protect_step _ _) as [pm' pk']. cbn [sc_turnStarts].
  rewrite app_nil_r. destruct (_ || _); [done|by rewrite app_nil_r].
Qed.
End Contract.

(** ** Claims *)

Section Claims.
Context (sha256Hex : jstr → jstr) (counter : TokenCounter) (maxEntries maxBytes : Z).
Context (toLowerCase : jstr → jstr) (letter_or_number : Z → bool).
Abbreviation buildLayeredPlan := (buildLayeredPlan sha256Hex counter maxEntries maxBytes toLowerCase letter_or_number).

(** Every plan, compacted or inert, satisfies the refinement of
    [headroomCompressResultSchema]: operations aligned with the source
    snapshot, consistent token accounting, an inert result when nothing was
    gained.  The plugin's schema check never rejects what the daemon plans. *)
Theorem layered_plan_valid messages o plan cache :
  Forall (λ m, units_ok (m_id m)) messages →
  buildLayeredPlan messages o = Ok (Some (plan, cache)) →
  headroomCompressResult_refine (lp_result plan) = true.
Proof.
  intros Hu (p & Hp & ->)%buildLayeredPlan_ok.
  apply finish_valid; [by eapply prepare_planned|done].
Qed.

End Claims.

(** ** Witnesses *)

(** A cheap digest with valid hashes. *)
Definition sum_sha (s : jstr) : jstr :=
  let n := zsum s mod 4096 in repeat 97 61 ++ [hex_digit (n / 256); hex_digit (n / 16 mod 16); hex_digit (n mod 16)].
Definition demo_layered : list ChatMessage :=
  [user_text (js "u1") (js "go");
   mkMsg (js "a1") RAssistant [PTool (js "read") None None (mkTS (js "completed") None (Some (repeat 120 160)))] None None;
   user_text (js "u2") (js "next"); user_text (js "u3") (js "now")].
Definition demo_options : LayeredPlanOptions := mkPlanOptions (mkNs (js "p") (js "s")) 1000 None None None None [] None None [].
Definition ascii_letter (c : Z) : bool := (97 <=? c) && (c <=? 122).
Definition demo_build := buildLayeredPlan sum_sha estimatedTokenCounter 8 4096 id ascii_letter demo_layered demo_options.

Lemma demo_build_ok :
  match demo_build with Ok (Some (p, _)) => hr_compacted (lp_result p) && (hr_freedTokens (lp_result p) =? 12) | _ => false end = true.
Proof. vm_compute. reflexivity. Qed.

Lemma layered_plan_valid_witness :
  ∃ plan cache, demo_build = Ok (Some (plan, cache)) ∧ hr_compacted (lp_result plan) = true
    ∧ headroomCompressResult_refine (lp_result plan) = true.
Proof.
  pose proof demo_build_ok as H. destruct demo_build as [[[plan cache]|]|] eqn:E; [|discriminate H|discriminate H].
  apply andb_true_iff in H as [H _]. exists plan, cache. split; [done|]. split; [exact H|].
  eapply (layered_plan_valid sum_sha estimatedTokenCounter 8 4096 id ascii_letter demo_layered demo_options); [|exact E].
  repeat constructor; done.
Defined.

Lemma demo_binds : digests_bind sum_sha estimatedTokenCounter (canonicalJSON (json_of_namespace (lo_namespace demo_options))) demo_layered.
Proof.
  assert (NoDup (map (contentDigest sum_sha) demo_layered)) as Hnd by (apply (bool_decide_eq_true_1 (NoDup (map (contentDigest sum_sha) demo_layered))); vm_compute; reflexivity).
  intros m m' (i & Hi)%list_elem_of_lookup (j & Hj)%list_elem_of_lookup E.
  assert (i = j) as ->; [|by simplify_eq]. eapply nodup_lookup_inj; [exact Hnd|by rewrite map_lookup, Hi|by rewrite map_lookup, Hj, E].
Qed.

