(* ===== verification/LayeredTree.v ===== *)
(** * The evidence hierarchy of a layered plan ([packages/headroomd/src/layered.ts])

    Proofs about the phases of the file [Layered] that build nodes: long
    sources are cut into pieces that cover them, four adjacent nodes of a level
    become a parent until no four remain, and state is restored from the
    archived graph.  Every loop is shown to end within its fuel. *)

From stdpp Require Import base tactics list numbers option sets strings sorting.
From S2P Require Import Prelude JsString JsRegex Json CLine OMap Chat Operations Compaction Nodes Tokens Evidence Counted Layered.

(** ** Leaves cover their sources *)

Section Splitting.
Context (counter : TokenCounter).
Abbreviation split_source := (split_source counter).
Abbreviation count := (count counter).

(** No surrogate pair straddles position [e]. *)
Definition pair_split (source : jstr) (e : nat) : bool :=
  ends_high (take e source) && match drop e source with c :: _ => is_low c | [] => false end.

Fixpoint tiles (source : jstr) (offset : nat) (pieces : list (nat * nat * Z)) : Prop :=
  match pieces with
  | [] => (length source <= offset)%nat
  | (s, e, t) :: rest =>
    s = offset ∧ (s < e <= length source)%nat ∧ t = count (slice source s e) ∧ pair_split source e = false ∧ tiles source e rest
  end.

Lemma ends_high_drop source e : (e < length source)%nat → ends_high (take (S e) source) = true → pair_split source e = false.
Proof.
  intros He H. destruct (lookup_lt_is_Some_2 source e He) as [c Hc]. rewrite (take_S_r _ _ _ Hc) in H. unfold ends_high in H.
  rewrite last_snoc in H. unfold pair_split. rewrite (drop_S _ _ _ Hc). apply andb_false_iff. right.
  unfold is_high, is_low in *. lia.
Qed.

(** The end of the piece that starts at [offset]. *)
Definition piece_end (source : jstr) (offset : nat) : nat :=
  let end_ := Nat.min (length source) (offset + Z.to_nat (LEAF_SOURCE_TOKENS * 4)) in
  let end_ := if LEAF_SOURCE_TOKENS <? count (slice source offset end_)
              then search_fit (end_ - offset) (λ mid, count (slice source offset mid) <=? LEAF_SOURCE_TOKENS) offset end_
              else end_ in
  if (offset <? end_)%nat && ends_high (take end_ source) then (end_ - 1)%nat else end_.

Lemma split_source_S f source offset :
  (offset < length source)%nat →
  split_source (S f) source offset
  = if (piece_end source offset <=? offset)%nat then Throw (js "TokenCounter cannot fit one source character in a leaf")
    else let! rest := split_source f source (piece_end source offset) in
         Ok ((offset, piece_end source offset, count (slice source offset (piece_end source offset))) :: rest).
Proof. intros H. cbn [Layered.split_source]. by rewrite (proj2 (Nat.leb_gt _ _) H). Qed.

Lemma piece_end_spec source offset :
  (offset < length source)%nat → (offset < piece_end source offset)%nat →
  (piece_end source offset <= length source)%nat ∧ pair_split source (piece_end source offset) = false.
Proof.
  unfold piece_end. intros Ho. set (n := Z.to_nat (LEAF_SOURCE_TOKENS * 4)). set (e0 := Nat.min (length source) (offset + n)).
  set (e1 := if _ <? _ then _ else e0). assert (offset <= e1 <= length source)%nat as He.
  { unfold e1. destruct (_ <? _); [|unfold e0; lia].
    match goal with |- context [search_fit ?a ?b ?c ?d] => destruct (search_fit_spec a b c d) as (H & _) end; unfold e0 in *; lia. }
  destruct ((offset <? e1)%nat && ends_high (take e1 source)) eqn:E; intros Hlt; (split; [lia|]).
  - apply andb_true_iff in E as [_ E]. apply ends_high_drop; [lia|]. by replace (S (e1 - 1)) with e1 by lia.
  - unfold pair_split. apply andb_false_iff in E as [E|E]; [apply Nat.ltb_ge in E; lia|]. by rewrite E.
Qed.

Lemma split_source_tiles fuel source offset pieces :
  (length source <= fuel + offset)%nat → split_source fuel source offset = Ok pieces → tiles source offset pieces.
Proof.
  revert offset pieces. induction fuel as [|f IH]; intros offset pieces Hf.
  { cbn [Layered.split_source]. destruct (_ <=? _)%nat; intros [= <-]; cbn; lia. }
  destruct (decide (length source <= offset)%nat) as [Hl|Hl].
  { cbn [Layered.split_source]. rewrite (proj2 (Nat.leb_le _ _) Hl). intros [= <-]. done. }
  rewrite split_source_S by lia. destruct (_ <=? _)%nat eqn:E; [done|]. apply Nat.leb_gt in E.
  destruct (piece_end_spec source offset) as [H1 H2]; [lia|done|].
  intros (rest & Hr & [= <-])%rbind_ok. cbn [tiles]. split_and!; try done; try lia. apply IH; [lia|done].
Qed.

Lemma tiles_concat source offset pieces :
  tiles source offset pieces → concat (map (λ x, slice source x.1.1 x.1.2) pieces) = drop offset source.
Proof.
  revert offset. induction pieces as [|[[s e] t] rest IH]; intros offset; cbn [tiles map concat].
  { intros H. by rewrite drop_ge. }
  intros (-> & He & _ & _ & Hr). rewrite (IH _ Hr). unfold slice. cbn [fst snd].
  rewrite <- (take_drop (e - offset) (drop offset source)) at 2. f_equal. rewrite drop_drop. f_equal. lia.
Qed.

Lemma piece_tokens `{!MonotoneCounter count} source offset :
  (offset < length source)%nat → (offset < piece_end source offset)%nat → count (slice source offset (piece_end source offset)) <= LEAF_SOURCE_TOKENS.
Proof.
  intros Ho. unfold piece_end. set (e0 := Nat.min _ _). set (e1 := if _ <? _ then _ else e0).
  assert ((offset < e1)%nat → count (slice source offset e1) <= LEAF_SOURCE_TOKENS) as He.
  { unfold e1. destruct (LEAF_SOURCE_TOKENS <? count (slice source offset e0)) eqn:E; [|lia].
    match goal with |- context [search_fit ?a ?b ?c ?d] => destruct (search_fit_spec a b c d) as (_ & [->|H] & _) end;
      [unfold e0; lia|lia|lia|]. intros _. apply Z.leb_le. exact H. }
  destruct (_ && _); intros Hlt; [|by apply He]. etrans; [|apply He; lia].
  unfold slice. pose proof (count_take_monotone count (drop offset source) (e1 - offset) (e1 - 1 - offset) []) as Hm.
  rewrite !app_nil_r in Hm. apply Hm. lia.
Qed.

Lemma split_source_bound `{!MonotoneCounter count} fuel source offset pieces :
  split_source fuel source offset = Ok pieces → Forall (λ x, x.2 <= LEAF_SOURCE_TOKENS) pieces.
Proof.
  revert offset pieces. induction fuel as [|f IH]; intros offset pieces.
  { cbn [Layered.split_source]. destruct (_ <=? _)%nat; intros [= <-]; constructor. }
  destruct (decide (length source <= offset)%nat) as [Hl|Hl].
  { cbn [Layered.split_source]. rewrite (proj2 (Nat.leb_le _ _) Hl). intros [= <-]. constructor. }
  rewrite split_source_S by lia. destruct (_ <=? _)%nat eqn:E; [done|]. apply Nat.leb_gt in E.
  intros (rest & Hr & [= <-])%rbind_ok. constructor; [|by eapply IH]. apply piece_tokens; [lia|done].
Qed.
End Splitting.

(** ** The estimator's pieces *)

Section Estimated.
Abbreviation pe := (piece_end estimatedTokenCounter).
Abbreviation CHUNK := (Z.to_nat (LEAF_SOURCE_TOKENS * 4)).

Lemma estimated_piece_end source offset :
  pe source offset = (let e := Nat.min (length source) (offset + CHUNK) in
                      if (offset <? e)%nat && ends_high (take e source) then (e - 1)%nat else e).
Proof.
  unfold piece_end. cbv zeta. assert ((LEAF_SOURCE_TOKENS <? count estimatedTokenCounter (slice source offset (Nat.min (length source) (offset + CHUNK)))) = false) as ->; [|done].
  apply Z.ltb_ge. unfold count, estimatedTokenCounter, estimateTokens. cbn [tc_count].
  etrans; [apply (ceil4_mono _ (LEAF_SOURCE_TOKENS * 4))|done]. unfold slice. rewrite length_take. unfold LEAF_SOURCE_TOKENS. lia.
Qed.

Lemma split_estimated_ok source fuel offset :
  ends_high source = false → (length source <= fuel + offset)%nat → is_ok (split_source estimatedTokenCounter fuel source offset) = true.
Proof.
  intros Hs. revert offset. induction fuel as [|f IH]; intros offset Hf.
  { cbn [split_source]. by destruct (_ <=? _)%nat. }
  destruct (decide (length source <= offset)%nat) as [Hl|Hl].
  { cbn [split_source]. by rewrite (proj2 (Nat.leb_le _ _) Hl). }
  rewrite split_source_S by lia. assert (offset < pe source offset)%nat as Hp.
  { rewrite estimated_piece_end. cbv zeta. destruct (_ && _) eqn:E; [|unfold LEAF_SOURCE_TOKENS; lia].
    apply andb_true_iff in E as [_ E]. destruct (decide (offset + CHUNK < length source)%nat) as [Hc|Hc].
    - rewrite Nat.min_r by lia. unfold LEAF_SOURCE_TOKENS. lia.
    - rewrite Nat.min_l, take_ge in E by lia. by rewrite Hs in E. }
  rewrite (proj2 (Nat.leb_gt _ _) Hp). specialize (IH (pe source offset)).
  destruct (split_source _ _ _ _); [done|]. cbn in IH |- *. apply IH. lia.
Qed.

Lemma split_estimated_throws source fuel offset :
  ends_high source = true → (offset < length source)%nat → (length source <= fuel + offset)%nat →
  split_source estimatedTokenCounter fuel source offset = Throw (js "TokenCounter cannot fit one source character in a leaf").
Proof.
  intros Hs. revert offset. induction fuel as [|f IH]; intros offset Ho Hf; [lia|].
  rewrite split_source_S by lia. destruct (_ <=? offset)%nat eqn:E; [done|]. apply Nat.leb_gt in E.
  rewrite IH; [done| |lia]. rewrite estimated_piece_end. cbv zeta.
  destruct (decide (offset + CHUNK < length source)%nat) as [Hc|Hc]; [destruct (_ && _); lia|].
  rewrite Nat.min_l, take_ge, Hs by lia. assert ((offset <? length source)%nat = true) as -> by (by apply Nat.ltb_lt). cbn [andb]. lia.
Qed.
End Estimated.

(** ** The hierarchy *)

Section Hierarchy.
Context (sha256Hex : jstr → jstr) (counter : TokenCounter) (namespace : Namespace).
Abbreviation merge_pass := (merge_pass sha256Hex counter namespace).
Abbreviation merge_loop := (λ fuel, merge_loop sha256Hex counter fuel namespace).
Abbreviation parent_of := (parent_of sha256Hex counter namespace).
Abbreviation source_total l := (zsum (map ln_sourceTokens l)).

(** A parent of four adjacent nodes of one level of [pool]. *)
Definition made_from (pool : list LayeredNode) (p : LayeredNode) : Prop :=
  ∃ a b c d, p = parent_of [a; b; c; d] (ln_level a) ∧ [a; b; c; d] ⊆ pool
    ∧ ln_level b = ln_level a ∧ ln_level c = ln_level a ∧ ln_level d = ln_level a.

Lemma merge_pass_spec frontier next parents :
  merge_pass frontier = (next, parents) →
  source_total next = source_total frontier ∧ (length next + 3 * length parents = length frontier)%nat
  ∧ Forall (made_from frontier) parents ∧ (∀ n, n ∈ next → n ∈ frontier ∨ n ∈ parents).
Proof.
  assert (∀ n fr nx ps, (length fr <= n)%nat → merge_pass fr = (nx, ps) →
    source_total nx = source_total fr ∧ (length nx + 3 * length ps = length fr)%nat
    ∧ Forall (made_from fr) ps ∧ (∀ n, n ∈ nx → n ∈ fr ∨ n ∈ ps)) as H; [|by apply (H (length frontier))].
  assert (∀ fr fr' ps, fr ⊆ fr' → Forall (made_from fr) ps → Forall (made_from fr') ps) as Hmore.
  { intros fr fr' ps Hs Hp. eapply Forall_impl; [exact Hp|]. intros p (a & b & c & d & -> & Hsub & Hl). exists a, b, c, d.
    split; [done|]. split; [by etrans|done]. }
  assert (∀ a tl nx ps, (let '(next, parents) := merge_pass tl in (a :: next, parents)) = (nx, ps) →
    (∀ nx ps, merge_pass tl = (nx, ps) → source_total nx = source_total tl ∧ (length nx + 3 * length ps = length tl)%nat
      ∧ Forall (made_from tl) ps ∧ (∀ n, n ∈ nx → n ∈ tl ∨ n ∈ ps)) →
    source_total nx = source_total (a :: tl) ∧ (length nx + 3 * length ps = length (a :: tl))%nat
      ∧ Forall (made_from (a :: tl)) ps ∧ (∀ n, n ∈ nx → n ∈ (a :: tl) ∨ n ∈ ps)) as Hstep.
  { intros a tl nx ps E Htl. destruct (merge_pass tl) as [nx1 ps1]. injection E as <- <-.
    destruct (Htl _ _ eq_refl) as (H1 & H2 & H3 & H4). cbn [map length]. rewrite !zsum_cons, H1. split_and!; [done|lia| |set_solver].
    eapply Hmore; [|exact H3]. set_solver. }
  induction n as [|n IH]; intros fr nx ps Hn E.
  { destruct fr; [|cbn in Hn; lia]. injection E as <- <-. split_and!; [done|done|constructor|set_solver]. }
  destruct fr as [|a tl]; [injection E as <- <-; split_and!; [done|done|constructor|set_solver]|]. cbn [length] in Hn.
  destruct tl as [|b [|c [|d rest]]].
  1-3: (apply Hstep; [exact E|]; intros; apply IH; [cbn [length] in *; lia|done]).
  cbn [Layered.merge_pass] in E. destruct (forallb _ _) eqn:Ef; [|apply Hstep; [exact E|]; intros; apply IH; [cbn [length] in *; lia|done]].
  destruct (merge_pass rest) as [nx1 ps1] eqn:Er. injection E as <- <-. apply IH in Er as (H1 & H2 & H3 & H4); [|cbn [length] in *; lia].
  cbn [forallb] in Ef. bool_prop. cbn [length] in *. split_and!.
  - cbn [map]. rewrite !zsum_cons, H1. unfold Layered.parent_of, makeNode. cbn [ln_sourceTokens map]. rewrite !zsum_cons. change (zsum []) with 0. lia.
  - lia.
  - constructor; [|eapply Hmore; [|exact H3]; intros x Hx; by do 4 right]. exists a, b, c, d. split_and!; [done|set_solver|done|done|done].
  - intros x [->|Hx]%elem_of_cons; [right; by left|]. destruct (H4 x Hx); [left; by do 4 right|right; by right].
Qed.

Lemma made_from_more pool pool' p : pool ⊆ pool' → made_from pool p → made_from pool' p.
Proof. intros Hs (a & b & c & d & -> & Hsub & Hl). exists a, b, c, d. split; [done|]. split; [by etrans|done]. Qed.

(** A list of parents, each made from the roots and the parents before it. *)
Definition well_founded_from (roots parents : list LayeredNode) : Prop :=
  ∀ i p, parents !! i = Some p → made_from (roots ++ take i parents) p.

Lemma merge_loop_spec fuel frontier :
  (length frontier <= fuel)%nat →
  ∃ final parents, merge_loop fuel frontier = Some (final, parents)
    ∧ source_total final = source_total frontier ∧ (length final + 3 * length parents = length frontier)%nat
    ∧ well_founded_from frontier parents ∧ ((length final < 4)%nat ∨ (merge_pass final).2 = []).
Proof.
  revert frontier. induction fuel as [|f IH]; intros frontier Hf; cbn [Layered.merge_loop].
  { destruct frontier; [|cbn in Hf; lia]. exists [], []. split_and!; [done|done|done|by intros i p|left; cbn; lia]. }
  destruct (length frontier <? 4)%nat eqn:E4; [apply Nat.ltb_lt in E4|].
  { exists frontier, []. split_and!; [done|done|cbn;lia|by intros i p|by left]. }
  destruct (merge_pass frontier) as [next parents] eqn:Ep. apply merge_pass_spec in Ep as Hp. destruct Hp as (H1 & H2 & H3 & H4).
  destruct parents as [|p0 parents0].
  { exists frontier, []. split_and!; [done|done|cbn;lia|by intros i p|right]. by rewrite Ep. }
  set (parents := p0 :: parents0) in *. assert (0 < length parents)%nat by (cbn; lia).
  destruct (IH next) as (final & more & -> & G1 & G2 & G3 & G4); [lia|]. exists final, (parents ++ more). cbn [mbind option_bind fst snd].
  split_and!; [done|by rewrite G1|rewrite length_app; lia| |done].
  intros i p Hi. apply lookup_app_Some in Hi as [Hi|[Hl Hi]].
  - rewrite Forall_forall in H3. eapply made_from_more; [|apply H3; by eapply list_elem_of_lookup_2]. set_solver.
  - specialize (G3 _ _ Hi). eapply made_from_more; [|exact G3]. rewrite take_app_ge by done.
    intros x [Hx|Hx]%elem_of_app; [destruct (H4 _ Hx); set_solver|set_solver].
Qed.
End Hierarchy.

(** ** Restoring state ends *)

Section Restoring.
Context (sha256Hex : jstr → jstr) (namespace : Namespace) (nodes : list LayeredNode).
Abbreviation known := (available sha256Hex namespace nodes).
Abbreviation restore := (restoreState sha256Hex namespace nodes).

(** Known nodes not restored yet. *)
Definition unrestored (restored : list jstr) : nat :=
  length (List.filter (λ k, negb (bool_decide (k ∈ restored))) (known).*1).

Lemma unrestored_mono r r' : r ⊆ r' → (unrestored r' <= unrestored r)%nat.
Proof.
  intros Hs. unfold unrestored. induction (known).*1 as [|k l IH]; [done|]. cbn [List.filter].
  destruct (decide (k ∈ r)) as [Hk|Hk].
  - rewrite !bool_decide_true by auto. exact IH.
  - rewrite (bool_decide_false (k ∈ r)) by done. cbn [negb length]. destruct (negb _); cbn [length]; lia.
Qed.

Lemma unrestored_lt r id n : get id known = Some n → id ∉ r → (unrestored (r ++ [id]) < unrestored r)%nat.
Proof.
  intros Hg Hn. unfold unrestored. assert (id ∈ (known).*1) as Hin by (apply list_elem_of_fmap; exists (id, n); split; [done|by apply get_elem]).
  induction (known).*1 as [|k l IH]; [by apply elem_of_nil in Hin|]. cbn [List.filter].
  assert (length (List.filter (λ k, negb (bool_decide (k ∈ r ++ [id]))) l) <= length (List.filter (λ k, negb (bool_decide (k ∈ r))) l))%nat as Hle.
  { clear. induction l as [|k l IH]; [done|]. cbn [List.filter]. destruct (decide (k ∈ r)) as [Hk|Hk].
    - rewrite !bool_decide_true by set_solver. exact IH.
    - rewrite (bool_decide_false (k ∈ r)) by done. cbn [negb length]. destruct (negb _); cbn [length]; lia. }
  destruct (decide (k = id)) as [->|Hne].
  - rewrite bool_decide_true by set_solver. rewrite (bool_decide_false (id ∈ r)) by done. cbn [negb length]. lia.
  - apply elem_of_cons in Hin as [?|Hin]; [done|]. specialize (IH Hin).
    rewrite (bool_decide_ext (k ∈ r ++ [id]) (k ∈ r)) by set_solver. destruct (negb _); cbn [length]; lia.
Qed.

Lemma restoreState_total fuel id acc :
  (unrestored acc.1 < fuel)%nat → ∃ acc', restore fuel id acc = Some acc' ∧ acc.1 ⊆ acc'.1.
Proof.
  revert id acc. induction fuel as [|f IH]; intros id acc Hf; [lia|]. cbn [restoreState].
  case_bool_decide as Hin; [by exists acc|]. destruct (get id known) as [n|] eqn:Eg; [|eexists; split; [done|cbn; set_solver]].
  pose proof (unrestored_lt _ _ _ Eg Hin) as Hlt.
  assert (∀ children acc1, (unrestored acc1.1 < f)%nat → ∃ acc',
    (fix go (children : list jstr) (acc : list jstr * list LayeredStateEvent) :=
       match children with
       | [] => Some acc
       | c :: rest =>
         match get c known with
         | Some child => if ln_level child <? ln_level n then acc' ← restore f c acc; go rest acc' else go rest acc
         | None => go rest acc
         end
       end) children acc1 = Some acc' ∧ acc1.1 ⊆ acc'.1) as Hgo.
  { induction children as [|c rest IHc]; intros acc1 H1; [by exists acc1|]. destruct (get c known) as [child|]; [|by apply IHc].
    destruct (_ <? _); [|by apply IHc]. destruct (IH c acc1 H1) as (acc2 & -> & H2). cbn [mbind option_bind].
    destruct (IHc acc2) as (acc3 & H3 & H4); [pose proof (unrestored_mono _ _ H2); lia|]. exists acc3. split; [exact H3|by etrans]. }
  destruct (Hgo (ln_children n) (acc.1 ++ [id], leaf_events n acc.2)) as (acc' & H1 & H2); [cbn [fst]; lia|].
  exists acc'. split; [exact H1|]. etrans; [|exact H2]. cbn [fst]. set_solver.
Qed.

Lemma restore_all_total ids st : ∃ st', restore_all sha256Hex namespace nodes ids st = Some st'.
Proof.
  revert st. induction ids as [|[id merge] ids IH]; intros st; [by exists st|]. cbn [restore_all]. unfold addExisting.
  destruct (restoreState_total (S (S (length known))) id (rs_restored st, rs_events st)) as (acc & -> & _).
  { unfold unrestored. pose proof (List.filter_length_le (λ k, negb (bool_decide (k ∈ rs_restored st))) (known).*1) as H.
    rewrite length_fmap in H. cbn [fst]. lia. }
  cbn [mbind option_bind]. destruct (_ || _); apply IH.
Qed.
End Restoring.

(** ** Errors *)

Definition OPTION_ERRORS : list jstr :=
  [js "Invalid context window"; js "Invalid token budget"; js "Invalid retained turns"; js "Invalid memory ratio"].
Definition LEAF_ERROR : jstr := js "TokenCounter cannot fit one source character in a leaf".

Lemma validateOptions_error o e : validateOptions o = Throw e → e ∈ OPTION_ERRORS.
Proof.
  unfold validateOptions, OPTION_ERRORS. destruct (lo_contextWindowTokens o <=? 0); [intros [= <-]; by left|].
  destruct (existsb _ _); [intros [= <-]; right; by left|].
  destruct (match lo_retainRecentTurns o with Some _ => _ | None => _ end); [intros [= <-]; do 2 right; by left|].
  destruct (match lo_memoryRatio o with Some _ => _ | None => _ end); [intros [= <-]; do 3 right; by left|done].
Qed.

Lemma split_source_error counter fuel source offset e :
  split_source counter fuel source offset = Throw e → e = js "TokenCounter cannot fit one source character in a leaf".
Proof.
  revert offset. induction fuel as [|f IH]; intros offset; cbn [split_source]; (destruct (length source <=? offset)%nat; [done|]); [done|].
  cbv zeta. destruct (_ <=? offset)%nat; [by intros [= <-]|].
  match goal with |- context [split_source counter f source ?x] => destruct (split_source counter f source x) eqn:E end; cbn [rbind]; [done|].
  intros [= <-]. by eapply IH.
Qed.

Lemma all_pieces_error counter cs e :
  all_pieces counter cs = Throw e → e = js "TokenCounter cannot fit one source character in a leaf".
Proof.
  induction cs as [|[i c] cs IH]; [done|]. cbn [all_pieces]. unfold pieces_of. destruct (_ <=? _); cbn [rbind].
  - destruct (all_pieces counter cs); cbn [rbind]; [done|]. intros [= <-]. by apply IH.
  - destruct (split_source _ _ _ _) eqn:E; cbn [rbind]; [|intros [= <-]; by eapply split_source_error].
    destruct (all_pieces counter cs); cbn [rbind]; [done|]. intros [= <-]. by apply IH.
Qed.

(** ** Claims *)

(** A long source is cut into leaf pieces that cover it exactly.  With the
    daemon's estimator the cut succeeds unless the source ends in a lone high
    surrogate: the pieces follow one another, concatenate to the source, never
    split a surrogate pair and keep to [LEAF_SOURCE_TOKENS] each.  A source that
    ends in a lone high surrogate makes the planner throw. *)
Theorem leaf_pieces_cover source :
  (ends_high source = false → ∃ pieces, split_source estimatedTokenCounter (length source) source 0 = Ok pieces
     ∧ tiles estimatedTokenCounter source 0 pieces ∧ concat (map (λ x, slice source x.1.1 x.1.2) pieces) = source
     ∧ Forall (λ x, x.2 <= LEAF_SOURCE_TOKENS) pieces)
  ∧ (ends_high source = true → split_source estimatedTokenCounter (length source) source 0
                               = Throw (js "TokenCounter cannot fit one source character in a leaf")).
Proof.
  split; intros Hs.
  - pose proof (split_estimated_ok source (length source) 0 Hs) as Hok. destruct (split_source _ _ _ _) as [pieces|e] eqn:E; [|discriminate Hok; lia].
    exists pieces. assert (tiles estimatedTokenCounter source 0 pieces) as Ht by (eapply split_source_tiles; [|exact E]; lia).
    split_and!; [done|done|by apply tiles_concat in Ht|]. eapply split_source_bound; [|exact E]. apply estimate_monotone.
  - apply split_estimated_throws; [done| |lia]. destruct source; [done|cbn; lia].
Qed.

(** The hierarchy loop ends, and what it builds is a graph of evidence.
    Within as many passes as there are roots it reaches a frontier on which
    nothing can be merged; every parent names four adjacent nodes of one level,
    roots or parents made before it, and is one level above them; the parents'
    source tokens add up, so the last frontier accounts for all of the roots'. *)
Theorem evidence_hierarchy sha256Hex counter namespace roots :
  ∃ final parents, merge_loop sha256Hex counter (length roots) namespace roots = Some (final, parents)
    ∧ zsum (map ln_sourceTokens final) = zsum (map ln_sourceTokens roots)
    ∧ (length final + 3 * length parents = length roots)%nat
    ∧ well_founded_from sha256Hex counter namespace roots parents
    ∧ ((length final < 4)%nat ∨ (merge_pass sha256Hex counter namespace final).2 = []).
Proof. by apply merge_loop_spec. Qed.

(** The options the planner accepts. *)
Record valid_options (o : LayeredPlanOptions) : Prop := {
  vo_context : 0 < lo_contextWindowTokens o;
  vo_budgets : ∀ t, lo_targetTokens o = Some t ∨ lo_memoryMaxTokens o = Some t → 0 <= t;
  vo_retain : ∀ n, lo_retainRecentTurns o = Some n → is_safe_integer n = true ∧ 0 <= n;
  vo_ratio : ∀ r, lo_memoryRatio o = Some r → is_finite r = true ∧ fltb r (f64 0) = false ∧ fltb ONE r = false }.

Lemma validateOptions_valid o : is_ok (validateOptions o) = true ↔ valid_options o.
Proof.
  unfold validateOptions. cbn [existsb]. split.
  - destruct (lo_contextWindowTokens o <=? 0) eqn:E1; [done|]. destruct (_ || (_ || false)) eqn:E2; [done|].
    destruct (match lo_retainRecentTurns o with Some _ => _ | None => _ end) eqn:E3; [done|].
    destruct (match lo_memoryRatio o with Some _ => _ | None => _ end) eqn:E4; [done|]. intros _.
    apply orb_false_iff in E2 as [E2 E5]. rewrite orb_false_r in E5. split.
    + lia.
    + intros t [Ht|Ht]; rewrite Ht in *; lia.
    + intros n Hn. rewrite Hn in E3. bool_prop. split; [done|lia].
    + intros r Hr. rewrite Hr in E4. bool_prop. done.
  - intros [H1 H2 H3 H4]. rewrite (proj2 (Z.leb_gt _ _)) by done.
    assert (∀ v, (v = lo_targetTokens o ∨ v = lo_memoryMaxTokens o) → match v with Some n => n <? 0 | None => false end = false) as H5.
    { intros [t|] Hv; [|done]. specialize (H2 t). rewrite Z.ltb_ge. apply H2. destruct Hv as [<-|<-]; auto. }
    rewrite !H5 by auto. cbn [orb].
    assert (match lo_retainRecentTurns o with Some n => negb (is_safe_integer n) || (n <? 0) | None => false end = false) as ->.
    { destruct (lo_retainRecentTurns o) as [n|]; [|done]. destruct (H3 n eq_refl) as [-> ?]. cbn. lia. }
    assert (match lo_memoryRatio o with Some r => negb (is_finite r) || fltb r (f64 0) || fltb ONE r | None => false end = false) as ->; [|done].
    destruct (lo_memoryRatio o) as [r|]; [|done]. by destruct (H4 r eq_refl) as (-> & -> & ->).
Qed.

Lemma prepare_total sha256Hex counter maxEntries maxBytes messages o : is_ok (validateOptions o) = true →
  match prepare sha256Hex counter maxEntries maxBytes messages o with
  | Ok p => is_Some p
  | Throw e => e = LEAF_ERROR
  end.
Proof.
  unfold prepare. destruct (validateOptions o) as [[]|e]; cbn [rbind is_ok]; [intros _|done].
  destruct (all_pieces _ _) as [pieces|e] eqn:Ep; cbn [rbind]; [|by apply all_pieces_error in Ep].
  destruct (restore_all_total sha256Hex (lo_namespace o) (lo_nodes o) (shown (recent_start
      (sc_turnStarts (scan sha256Hex counter maxEntries maxBytes (canonicalJSON (json_of_namespace (lo_namespace o))) (lo_cache o) messages))
      (lo_retainRecentTurns o)) messages) (mkRestore [] [] []
      (sc_events (scan sha256Hex counter maxEntries maxBytes (canonicalJSON (json_of_namespace (lo_namespace o))) (lo_cache o) messages)))) as [rs ->].
  cbn [mbind option_bind]. destruct (_ <? _); [|cbn; eauto].
  match goal with |- context [merge_loop _ _ (length ?r)] => destruct (merge_loop_spec sha256Hex counter (lo_namespace o) (length r) r) as (fin & par & -> & _) end;
    [done|cbn; eauto].
Qed.

(** Without a cache of analyses every message is counted. *)
Lemma scan_counted_messages sha256Hex counter maxEntries maxBytes namespaceKey messages m : m ∈ messages →
  counted_message m ∈ scan_counted sha256Hex counter maxEntries maxBytes namespaceKey None messages.
Proof.
  induction messages as [|x messages IH]; [by intros H%elem_of_nil|]. cbn [scan_counted]. intros [->|H]%elem_of_cons; apply elem_of_app; [left|right].
  - unfold cached_counted, analyze_counted. cbn. apply elem_of_app. right. by left.
  - by apply IH.
Qed.
Lemma plan_counted_messages sha256Hex counter maxEntries maxBytes toLowerCase letter_or_number messages o m : lo_cache o = None → m ∈ messages →
  counted_message m ∈ plan_counted sha256Hex counter maxEntries maxBytes toLowerCase letter_or_number messages o.
Proof.
  intros Ho Hm. unfold plan_counted. cbv zeta. repeat match goal with |- context [let (_, _) := ?x in _] => destruct x end.
  apply elem_of_app. left. rewrite Ho. by apply scan_counted_messages.
Qed.

Lemma buildLayeredPlan_outcome sha256Hex counter maxEntries maxBytes toLowerCase letter_or_number messages o :
  match buildLayeredPlan sha256Hex counter maxEntries maxBytes toLowerCase letter_or_number messages o with
  | Ok r => is_Some r ∧ valid_options o
            ∧ (lo_cache o = None → Forall (λ m, count_ok (layeredMessageTokens (tc_count counter) m) = true) messages)
  | Throw e => (valid_options o → e = COUNTER_ERROR ∧ (∃ text, count_ok (tc_count counter text) = false)
                                ∨ e = LEAF_ERROR)
               ∧ (e ∈ OPTION_ERRORS ∨ valid_options o)
  end.
Proof.
  unfold buildLayeredPlan. destruct (validateOptions o) as [[]|e] eqn:Ev; cbn [rbind].
  2: { split; [|left]. - intros Hv. apply validateOptions_valid in Hv. by rewrite Ev in Hv.
       - by apply (validateOptions_error o). }
  assert (valid_options o) as Hv by (apply validateOptions_valid; by rewrite Ev).
  destruct (forallb _ _) eqn:Ec; cbn [negb].
  - pose proof (prepare_total sha256Hex counter maxEntries maxBytes messages o ltac:(by rewrite Ev)) as Hp.
    destruct (prepare _ _ _ _ _ _) as [p|e]; cbn [rbind]; [destruct Hp as [p' ->]; cbn|auto]. split_and!; [by eexists|done|].
    intros Ho. apply Forall_forall. intros m Hm. rewrite forallb_forall in Ec. rewrite counted_message_tokens. apply Ec, list_elem_of_In. by apply plan_counted_messages.
  - split; [intros _; left; split; [done|]|by right].
    apply not_true_iff_false in Ec. rewrite forallb_forall in Ec.
    destruct (existsb (λ text, negb (count_ok (count counter text))) (plan_counted sha256Hex counter maxEntries maxBytes toLowerCase letter_or_number messages o)) eqn:E.
    + apply existsb_exists in E as (t & _ & Ht). exists t. by apply negb_true_iff in Ht.
    + destruct Ec. intros t Ht. destruct (count_ok (count counter t)) eqn:Et; [done|]. apply not_true_iff_false in E. destruct E. apply existsb_exists.
      exists t. by rewrite Et.
Qed.


(** A counter that gives a negative count. *)
Example counter_refused_ex :
  buildLayeredPlan sum_sha (mkCounter (js "odd") (js "exact") (λ t, 3 - zlen t)) 8 4096 id ascii_letter demo_layered demo_options = Throw COUNTER_ERROR.
Proof. vm_compute. reflexivity. Qed.

(** A long source that ends in half a surrogate pair cannot be cut: the step
    back from the last unit leaves an empty piece. *)
Example split_source_lone_high_ex :
  split_source (mkCounter (js "per-unit") (js "exact") (λ t, 5000 * zlen t)) 3 (js "ab" ++ [0xD800]) 0
  = Throw (js "TokenCounter cannot fit one source character in a leaf").
Proof. vm_compute. reflexivity. Qed.
