(* ===== verification/LayeredNodes.v ===== *)
(** * The nodes of a plan can be saved ([packages/headroomd/src/layered.ts], [store/nodes.ts])

    The planner makes nodes, [saveNodes] refuses those that break the schema, whose identity
    or evidence does not hold, or whose children are unknown.  This file shows that the two
    agree: the nodes of a compacted plan pass every check of the transaction that saves
    them. *)

From stdpp Require Import base tactics list numbers option sets strings sorting.
From S2P Require Import Prelude JsString JsRegex Json CLine OMap Chat Operations Summary Compaction Compress Cas Objects Store Archive.
From S2P Require Import Nodes Tokens Evidence PartialOps Layered LayeredTree.

(** The numbers of a node are natural and safe: [z.number().int().nonnegative()]. *)
Definition node_numbers (n : LayeredNode) : bool :=
  int_nonneg (ln_level n)
  && forallb (λ r, opt_ok int_nonneg (ls_partIndex r) && opt_ok int_nonneg (ls_start r) && opt_ok int_nonneg (ls_end r)) (ln_sourceRefs n)
  && forallb (λ e, int_nonneg (ev_order e)) (default [] (ln_stateEvents n)) && int_nonneg (ln_tokens n) && int_nonneg (ln_sourceTokens n).

(** The identity of a made node is its content. *)
Lemma makeNode_id sha256Hex n : ln_nodeId (makeNode sha256Hex n) = nodeContentHash sha256Hex (makeNode sha256Hex n).
Proof. unfold nodeContentHash. change (node_body (makeNode sha256Hex n)) with (node_body n). reflexivity. Qed.

(** ** Leaves *)

Section Leaves.
Context (sha256Hex : jstr → jstr) (counter : TokenCounter) (namespace : Namespace) (messages : list ChatMessage).
Context (messageEvents : list (list LayeredStateEvent)).

(** An event of a message, at its digest. *)
Record event_of (m : ChatMessage) (e : LayeredStateEvent) : Prop := {
  eo_ids : ev_sourceIds e = [m_id m];
  eo_digests : ev_sourceDigests e = [contentDigest sha256Hex m];
  eo_hashes : headroomHash_ok (ev_eventId e) && opt_ok headroomHash_ok (ev_inputDigest e) && opt_ok headroomHash_ok (ev_outputDigest e) = true }.

(** A piece of one of the messages, whose events fit a leaf. *)
Record piece_ok (p : SourcePiece) : Prop := {
  po_message : messages !! cd_messageIndex (pc_candidate p) = Some (cd_message (pc_candidate p));
  po_digest : cd_digest (pc_candidate p) = contentDigest sha256Hex (cd_message (pc_candidate p));
  po_few : zlen (default [] (messageEvents !! cd_messageIndex (pc_candidate p))) <= 64;
  po_events : Forall (event_of (cd_message (pc_candidate p))) (default [] (messageEvents !! cd_messageIndex (pc_candidate p))) }.

Abbreviation message_of p := (cd_message (pc_candidate p)).

(** A leaf over pieces, with the events of their messages. *)
Record leaf_ok (n : LayeredNode) : Prop := {
  lf_id : ln_nodeId n = nodeContentHash sha256Hex n;
  lf_namespace : ln_namespace n = namespace;
  lf_level : ln_level n = 0;
  lf_children : ln_children n = [];
  lf_sources : ∃ pieces, Forall piece_ok pieces ∧ ln_sourceRefs n = map piece_ref pieces
    ∧ ∃ events, ln_stateEvents n = Some events ∧ zlen events <= 64 ∧ NoDup (map ev_eventId events)
      ∧ Forall (λ e, ∃ p, p ∈ pieces ∧ event_of (message_of p) e) events }.

Record group_ok (st : GroupState) : Prop := {
  gk_pieces : Forall piece_ok (gs_group st);
  gk_keys : omap_ok (gs_events st) ∧ Forall (λ kv, kv.1 = ev_eventId kv.2) (gs_events st);
  gk_few : zlen (gs_events st) <= 64;
  gk_events : Forall (λ kv, ∃ p, p ∈ gs_group st ∧ event_of (message_of p) kv.2) (gs_events st);
  gk_empty : gs_group st = [] → gs_events st = [];
  gk_nodes : Forall leaf_ok (gs_nodes st) }.

Lemma keyed_ids (events : list (jstr * LayeredStateEvent)) : Forall (λ kv, kv.1 = ev_eventId kv.2) events → map ev_eventId events.*2 = events.*1.
Proof. induction 1 as [|[k e] l He Hl IH]; [done|]. cbn in *. by rewrite IH, He. Qed.

Lemma flush_ok st : group_ok st → group_ok (flush sha256Hex counter namespace st).
Proof.
  intros Hok. unfold flush. destruct (gs_group st) as [|p ps] eqn:Eg; [done|]. rewrite <- Eg. destruct Hok as [H1 [H2 H2'] H3 H4 H5 H6].
  split; cbn [gs_group gs_events gs_nodes]; try done; [split; [constructor|done]|].
  apply Forall_app. split; [done|]. constructor; [|done]. split; [apply makeNode_id|reflexivity|reflexivity|reflexivity|].
  exists (gs_group st). split_and!; [done|done|]. exists (gs_events st).*2. split_and!; [done|by rewrite length_fmap| |].
  - rewrite keyed_ids by done. exact H2.
  - apply Forall_fmap. eapply Forall_impl; [exact H4|]. done.
Qed.

Lemma flush_empty st : gs_group (flush sha256Hex counter namespace st) = [] .
Proof. unfold flush. by destruct (gs_group st) eqn:E. Qed.

Lemma put_few es : ∀ m, zlen (foldl put_event m es) <= zlen m + zlen (List.filter (λ e, negb (has (ev_eventId e) m)) es).
Proof.
  assert (∀ es m e, zlen (List.filter (λ x, negb (has (ev_eventId x) (put_event m e))) es) <= zlen (List.filter (λ x, negb (has (ev_eventId x) m)) es)) as Hmono.
  { clear. intros es m e. induction es as [|x es IH]; cbn [List.filter]; [done|].
    destruct (has (ev_eventId x) m) eqn:Ex; cbn [negb].
    - assert (has (ev_eventId x) (put_event m e) = true) as ->; [|exact IH]. unfold has, put_event in *.
      destruct (decide (ev_eventId x = ev_eventId e)) as [->|Hne]; [by rewrite get_set_eq|]. by rewrite get_set_ne by done.
    - destruct (has _ (put_event m e)); cbn [negb length] in *; lia. }
  induction es as [|e es IH]; intros m; cbn [foldl List.filter]; [cbn [length]; lia|].
  specialize (IH (put_event m e)). specialize (Hmono es m e). pose proof (size_set (ev_eventId e) e m) as Hs. fold (put_event m e) in Hs.
  destruct (has (ev_eventId e) m); cbn [negb length] in *; lia.
Qed.

Lemma put_events (P : jstr * LayeredStateEvent → Prop) es : ∀ m,
  omap_ok m → Forall P m → Forall (λ e, P (ev_eventId e, e)) es → omap_ok (foldl put_event m es) ∧ Forall P (foldl put_event m es).
Proof.
  induction es as [|e es IH]; intros m Hok Hm He; [done|]. apply Forall_cons in He as [He Hes]. cbn [foldl]. apply IH; [by apply set_ok|by apply Forall_set|done].
Qed.

Lemma addPiece_ok st p : group_ok st → piece_ok p → group_ok (addPiece sha256Hex counter namespace messageEvents st p).
Proof.
  intros Hok Hp. unfold addPiece. set (es := default [] (messageEvents !! cd_messageIndex (pc_candidate p))).
  set (st1 := match gs_group st with [] => st | _ => _ end).
  assert (group_ok st1 ∧ zlen (foldl put_event (gs_events st1) es) <= 64) as [Hok1 Hfew].
  { pose proof (po_few _ Hp) as Hes. fold es in Hes. pose proof (put_few es (gs_events st)) as Hput.
    assert (zlen (foldl put_event [] es) <= 64) as Hfresh.
    { pose proof (put_few es []) as H. pose proof (List.filter_length_le (λ e, negb (has (ev_eventId e) ([] : list (jstr * LayeredStateEvent)))) es) as Hl.
      cbn [length] in *. lia. }
    unfold st1. destruct (gs_group st) as [|q qs] eqn:Eg.
    - split; [done|]. by rewrite (gk_empty _ Hok Eg).
    - destruct (_ || _) eqn:Ef; [|split; [done|bool_prop; lia]]. split; [by apply flush_ok|].
      by rewrite (gk_empty _ (flush_ok _ Hok) (flush_empty st)). }
  clearbody st1. destruct Hok1 as [H1 [H2 H2'] H3 H4 H5 H6].
  set (st2 := mkGroupState _ _ _ _ _). assert (group_ok st2) as Hok2.
  { assert (omap_ok (foldl put_event (gs_events st1) es)
      ∧ Forall (λ kv, kv.1 = ev_eventId kv.2 ∧ ∃ q, q ∈ gs_group st1 ++ [p] ∧ event_of (message_of q) kv.2) (foldl put_event (gs_events st1) es)) as [A1 A2].
    { apply put_events; [done| |].
      - rewrite Forall_forall in H2', H4. apply Forall_forall. intros kv Hkv. split; [by apply H2'|]. destruct (H4 kv Hkv) as (q & ? & ?). exists q. set_solver.
      - eapply Forall_impl; [exact (po_events _ Hp)|]. intros e He. split; [done|]. exists p. split; [set_solver|done]. }
    split; cbn [st2 gs_group gs_events gs_nodes]; try done.
    - apply Forall_app. split; [done|by constructor].
    - split; [done|]. eapply Forall_impl; [exact A2|]. by intros kv [? _].
    - eapply Forall_impl; [exact A2|]. by intros kv [_ ?].
    - intros E. by apply app_eq_nil in E as [_ ?]. }
  case_test; [by apply flush_ok|done].
Qed.

Lemma group_pieces_ok pieces : Forall piece_ok pieces → group_ok (group_pieces sha256Hex counter namespace messageEvents pieces).
Proof.
  intros Hp. apply flush_ok. assert (∀ st, group_ok st → group_ok (foldl (addPiece sha256Hex counter namespace messageEvents) st pieces)) as H.
  { induction Hp as [|p ps Hp Hps IH]; intros st Hst; [done|]. cbn [foldl]. apply IH. by apply addPiece_ok. }
  apply H. split; cbn [gs_group gs_events gs_nodes]; try done. split; [constructor|done].
Qed.

(** *** A leaf satisfies the schema *)

Hypothesis Hsha : ∀ x, headroomHash_ok (sha256Hex x) = true.
Hypothesis Hids : NoDup (map m_id messages).
Hypothesis Harchives : Forall (λ m, chatMessage_ok m = true) messages.

Lemma same_message p q : piece_ok p → piece_ok q → m_id (message_of p) = m_id (message_of q) → message_of p = message_of q.
Proof.
  intros Hp Hq E. pose proof (po_message _ Hp) as Mp. pose proof (po_message _ Hq) as Mq.
  assert (cd_messageIndex (pc_candidate p) = cd_messageIndex (pc_candidate q)) as Ei.
  { eapply (nodup_lookup_inj (map m_id messages)); [exact Hids|by rewrite map_lookup, Mp|by rewrite map_lookup, Mq, E]. }
  rewrite Ei, Mq in Mp. by injection Mp.
Qed.

Lemma source_map_get pieces p : Forall piece_ok pieces → p ∈ pieces →
  get (m_id (message_of p)) (source_map (map piece_ref pieces)) = Some (contentDigest sha256Hex (message_of p)).
Proof.
  intros Hok Hin. unfold source_map.
  assert (∀ l m, Forall piece_ok l → (get (m_id (message_of p)) m = Some (contentDigest sha256Hex (message_of p)) ∨ p ∈ l) → piece_ok p →
    get (m_id (message_of p)) (foldl (λ m r, set_key (ls_messageId r) (ls_contentHash r) m) m (map piece_ref l)) = Some (contentDigest sha256Hex (message_of p))) as H.
  { clear Hok Hin. induction l as [|q l IH]; intros m Hok Hc Hp; [destruct Hc as [?|?%elem_of_nil]; done|]. apply Forall_cons in Hok as [Hq Hok].
    cbn [map foldl piece_ref ls_messageId ls_contentHash]. apply IH; [done| |done].
    destruct (decide (m_id (message_of p) = m_id (message_of q))) as [E|Hne].
    - left. rewrite E, get_set_eq, (po_digest _ Hq). by rewrite (same_message p q Hp Hq E).
    - rewrite get_set_ne by done. destruct Hc as [?|[-> |?]%elem_of_cons]; [by left|done|by right]. }
  apply H; [done|by right|]. rewrite Forall_forall in Hok. by apply Hok.
Qed.

Lemma leaf_schema n : leaf_ok n → node_numbers n = true → layeredNode_ok n = true.
Proof.
  intros [Hi Hn Hl Hc (pieces & Hp & Hr & events & He & Hf & Hd & Hev)] Hnum. unfold node_numbers in Hnum. rewrite He in Hnum. cbn [default from_option id] in Hnum.
  apply andb_true_iff in Hnum as [[[[N1 N2]%andb_true_iff N3]%andb_true_iff N4]%andb_true_iff N5].
  unfold layeredNode_ok, node_refine. rewrite Hi, Hc, He, N1, N4, N5, Hl. cbn [forallb opt_ok].
  assert (headroomHash_ok (nodeContentHash sha256Hex n) = true) as -> by apply Hsha.
  assert (forallb sourceRef_ok (ln_sourceRefs n) = true) as ->.
  { apply forallb_forall. intros r Hin. rewrite forallb_forall in N2. pose proof (N2 r Hin) as Hr2.
    rewrite <- list_elem_of_In, Hr in Hin. apply list_elem_of_fmap in Hin as (p & -> & Hin). rewrite Forall_forall in Hp. pose proof (Hp p Hin) as Hpo.
    apply andb_true_iff in Hr2 as [[R1 R2]%andb_true_iff R3]. unfold sourceRef_ok. rewrite R1, R2, R3. cbn [piece_ref ls_contentHash ls_historyHash ls_nodeId opt_ok].
    rewrite (po_digest _ Hpo). unfold contentDigest at 1. rewrite Hsha. cbn [andb]. rewrite andb_true_r.
    pose proof (po_message _ Hpo) as Hm. apply list_elem_of_lookup_2 in Hm. rewrite Forall_forall in Harchives. specialize (Harchives _ Hm).
    unfold chatMessage_ok in Harchives. destruct (m_archive (message_of p)) as [a|]; [|done]. cbn [fmap option_fmap option_map opt_ok].
    unfold archive_ok in Harchives. by bool_prop. }
  assert (forallb stateEvent_ok events = true) as ->.
  { apply forallb_forall. intros e Hin. rewrite forallb_forall in N3. pose proof (N3 e Hin) as Ho. rewrite <- list_elem_of_In in Hin.
    rewrite Forall_forall in Hev. destruct (Hev e Hin) as (p & _ & [E1 E2 E3]). unfold stateEvent_ok. rewrite E2, Ho. cbn [forallb].
    unfold contentDigest. rewrite Hsha. apply andb_true_iff in E3 as [[-> ->]%andb_true_iff ->]. done. }
  assert (forallb (event_bound (source_map (ln_sourceRefs n))) events = true) as ->.
  { apply forallb_forall. intros e Hin. rewrite <- list_elem_of_In in Hin. rewrite Forall_forall in Hev. destruct (Hev e Hin) as (p & Hpin & [E1 E2 _]).
    unfold event_bound. rewrite E1, E2, Hr. cbn [zip forallb]. change (zlen [m_id (message_of p)]) with 1. change (zlen [contentDigest sha256Hex (message_of p)]) with 1.
    cbn [zip_with forallb fst snd]. rewrite (source_map_get pieces p Hp Hpin). by rewrite bool_decide_true. }
  assert (distinct (map ev_eventId events) = true) as -> by (by apply bool_decide_eq_true).
  change (zlen ([] : list jstr)) with 0. by rewrite (proj2 (Z.leb_le _ _) Hf).
Qed.
End Leaves.

(** ** The pieces of a plan *)

Section Pieces.
Context (sha256Hex : jstr → jstr) (counter : TokenCounter) (maxEntries maxBytes : Z).
Hypothesis Hsha : ∀ x, headroomHash_ok (sha256Hex x) = true.
Abbreviation scanned ns cache messages := (scan sha256Hex counter maxEntries maxBytes ns cache messages).

(** The events of a message are those of its analysis. *)
Lemma scan_events ns cache messages i evs :
  sc_messageEvents (scanned ns cache messages) !! i = Some evs →
  ∃ m a, messages !! i = Some m ∧ sc_analyses (scanned ns cache messages) !! i = Some a
    ∧ evs = map (state_event sha256Hex ns (contentDigest sha256Hex m) m i) (an_stateEntries a).
Proof.
  revert i evs. induction messages as [|m messages IH] using rev_ind; intros i evs; [done|].
  destruct (scan_lengths sha256Hex counter maxEntries maxBytes ns cache messages) as (L1 & _ & L3).
  unfold scan in *. rewrite imap_app, foldl_app. cbn [imap foldl]. set (st := foldl _ _ (imap pair messages)) in *.
  destruct st as [c an ts ti pm pk ev me h a] eqn:Est. unfold scan_step. cbn [sc_cache].
  destruct (analyze_cached _ _ _ _ _ _ _) as [[c' a'] hit]. cbn [sc_protectedMemory sc_protectedKeys].
  destruct (foldl protect_step _ _) as [pm' pk']. cbn [sc_messageEvents sc_analyses] in *. intros Hi.
  apply lookup_app_Some in Hi as [Hi|[Hl Hi]].
  - destruct (IH i evs Hi) as (m0 & a0 & H1 & H2 & H3). exists m0, a0. split_and!; [by apply lookup_app_l_Some|by apply lookup_app_l_Some|done].
  - apply list_lookup_singleton_Some in Hi as [Hi <-]. assert (i = length messages) as -> by lia. exists m, a'.
    split_and!; [by apply list_lookup_middle|rewrite <- L1; by apply list_lookup_middle|]. by rewrite Nat.add_0_r.
Qed.

Lemma analyze_entries m ns digest e :
  e ∈ an_stateEntries (analyze sha256Hex (count counter) m ns digest) →
  opt_ok headroomHash_ok (se_inputDigest e) && opt_ok headroomHash_ok (se_outputDigest e) = true.
Proof.
  unfold analyze. cbn [an_stateEntries]. intros H. rewrite list_elem_of_In in H. apply in_flat_map in H as (x & Hx & H).
  rewrite <- list_elem_of_In in Hx. apply elem_of_lookup_imap in Hx as (i & p & -> & Hp). rewrite <- list_elem_of_In in H.
  destruct p as [text|tool callId input st]; cbn [analyze_part snd] in H.
  - case_test_in H; [|by apply elem_of_nil in H]. by apply list_elem_of_singleton in H as ->.
  - case_test_in H; [|by apply elem_of_nil in H]. cbn [snd] in H. apply list_elem_of_singleton in H as ->. cbn [se_inputDigest se_outputDigest opt_ok].
    unfold textDigest_of. by rewrite !Hsha.
Qed.

Lemma candidate_few protectedIds recentStart messages st c :
  c ∈ candidates_of counter protectedIds recentStart messages st →
  zlen (default [] (sc_messageEvents st !! cd_messageIndex c)) <= 64.
Proof.
  unfold candidates_of. intros Hc. apply list_elem_of_In, in_concat in Hc as (l & Hl & Hc).
  apply list_elem_of_In in Hl. apply list_elem_of_In in Hc. apply elem_of_lookup_imap in Hl as (i & x & -> & Hx). destruct x as [m [a events]].
  apply lookup_zip_with_Some in Hx as (m' & [a' ev'] & [= -> -> ->] & Hm & Ha). apply lookup_zip_with_Some in Ha as (a'' & ev'' & [= -> ->] & Ha & He).
  unfold message_candidates in Hc. destruct (_ || _ || _ || _) eqn:E; [by apply elem_of_nil in Hc|]. bool_prop.
  apply list_elem_of_fmap in Hc as (ob & -> & Hob). cbn [cd_messageIndex]. rewrite He. cbn [default from_option id]. lia.
Qed.

Lemma all_pieces_from cs ps p : all_pieces counter cs = Ok ps → p ∈ ps → ∃ i, (i, pc_candidate p) ∈ cs.
Proof.
  revert ps. induction cs as [|[i c] cs IH]; intros ps; cbn [all_pieces]; [intros [= <-]; by intros ?%elem_of_nil|].
  intros (here & Hh & H)%rbind_ok. apply rbind_ok in H as (rest & Hr & H). injection H as <-. intros [Hp|Hp]%elem_of_app.
  - assert (pc_candidate p = c) as ->; [|exists i; by left]. unfold pieces_of in Hh. destruct (_ <=? _).
    + injection Hh as <-. by apply list_elem_of_singleton in Hp as ->.
    + apply rbind_ok in Hh as (parts & _ & Hh). injection Hh as <-. by apply list_elem_of_fmap in Hp as (x & -> & _).
  - destruct (IH rest Hr Hp) as [j Hj]. exists j. by right.
Qed.

(** What a prepared plan is made of. *)
Record prepared (messages : list ChatMessage) (o : LayeredPlanOptions) (p : Planned) : Prop := {
  pq_groups : ∃ pieces, pd_groups p = group_pieces sha256Hex counter (lo_namespace o) (sc_messageEvents (pd_scan p)) pieces
    ∧ Forall (piece_ok sha256Hex messages (sc_messageEvents (pd_scan p))) pieces;
  pq_roots : Forall (λ n, ∃ id, get id (available sha256Hex (lo_namespace o) (lo_nodes o)) = Some n) (rs_roots (pd_restored p));
  pq_parents : let roots := rs_roots (pd_restored p) ++ gs_nodes (pd_groups p) in
    ∃ parents, well_founded_from sha256Hex counter (lo_namespace o) roots parents
      ∧ pd_parents p = List.filter (λ n, negb (has (ln_nodeId n) (available sha256Hex (lo_namespace o) (lo_nodes o)))) parents
      ∧ (parents = [] ∨ snd <$> merge_loop sha256Hex counter (length roots) (lo_namespace o) roots = Some parents) }.

Lemma restored_roots ns nodes ids st st' :
  restore_all sha256Hex ns nodes ids st = Some st' →
  Forall (λ n, ∃ id, get id (available sha256Hex ns nodes) = Some n) (rs_roots st) →
  Forall (λ n, ∃ id, get id (available sha256Hex ns nodes) = Some n) (rs_roots st').
Proof.
  revert st. induction ids as [|[id merge] ids IH]; intros st; cbn [restore_all]; [by intros [= <-]|].
  unfold addExisting. destruct (restoreState _ _ _ _ _ _) as [acc|]; [|done]. cbn [mbind option_bind].
  destruct (negb merge || _); intros H Hst; apply IH in H; try done; cbn [rs_roots]; try done.
  apply Forall_app. split; [done|]. destruct (get id (available sha256Hex ns nodes)) as [n|] eqn:E; [|constructor]. constructor; [by exists id|constructor].
Qed.

Lemma prepare_prepared messages o p :
  let ns := canonicalJSON (json_of_namespace (lo_namespace o)) in
  digests_bind sha256Hex counter ns messages → coherent sha256Hex counter ns messages (lo_cache o) →
  prepare sha256Hex counter maxEntries maxBytes messages o = Ok (Some p) → prepared messages o p.
Proof.
  intros ns Hb Hc. unfold prepare. intros (_ & _ & H)%rbind_ok. cbv zeta in H. fold ns in H. apply rbind_ok in H as (pieces & Hps & H). injection H as H.
  destruct (restore_all _ _ _ _ _) as [rs|] eqn:Er; cbn [mbind option_bind] in H; [|done].
  destruct (if _ : bool then _ else _) as [parents|] eqn:Em in H; cbn [mbind option_bind] in H; [|done]. injection H as <-.
  pose proof (scan_analyses sha256Hex counter maxEntries maxBytes ns (lo_cache o) messages Hb Hc) as Ha.
  split; cbn [pd_groups pd_scan pd_restored pd_parents].
  - exists pieces. split; [done|]. apply Forall_forall. intros q Hq. destruct (all_pieces_from _ _ _ Hps Hq) as [j Hj].
    apply elem_of_lookup_imap in Hj as (j' & c & [= -> Ec] & Hj). apply list_elem_of_lookup_2 in Hj. rename Hj into Hin.
    destruct (proj1 (Forall_forall _ _) (candidates_sound counter _ _ _ _) _ Hin) as (G1 & _ & _ & _ & a & G5 & _ & G7). rewrite Ha, map_lookup, G1 in G5. injection G5 as <-.
    pose proof (candidate_few _ _ _ _ _ Hin) as Hfew. split; rewrite ?Ec; [done|done|done|].
    destruct (sc_messageEvents (scanned ns (lo_cache o) messages) !! cd_messageIndex c) as [evs|] eqn:Ee; [|constructor]. cbn [default from_option id].
    destruct (scan_events _ _ _ _ _ Ee) as (m & a & M1 & M2 & ->). rewrite G1 in M1. injection M1 as <-. rewrite Ha, map_lookup, G1 in M2. injection M2 as <-.
    apply Forall_map, Forall_forall. intros e He. split; [done|done|]. cbn [state_event ev_eventId ev_inputDigest ev_outputDigest].
    rewrite <- andb_assoc, (analyze_entries _ _ _ _ He). unfold digest_of, textDigest_of. by rewrite Hsha.
  - eapply restored_roots; [exact Er|constructor].
  - destruct (_ <? _) in Em.
    + destruct (merge_loop_spec sha256Hex counter (lo_namespace o) (length (rs_roots rs ++ gs_nodes (group_pieces sha256Hex counter (lo_namespace o)
        (sc_messageEvents (scanned ns (lo_cache o) messages)) pieces))) (rs_roots rs ++ gs_nodes (group_pieces sha256Hex counter (lo_namespace o)
        (sc_messageEvents (scanned ns (lo_cache o) messages)) pieces))) as (fin & par & Hm & _ & _ & Hw & _); [done|].
      exists parents. rewrite Hm in Em. cbn in Em. injection Em as ->. split_and!; [done|done|]. right. by rewrite Hm.
    + injection Em as <-. exists []. split_and!; [by intros i q|done|by left].
Qed.
End Pieces.

(** ** A transaction that succeeds *)

Section Saving.
Context (sha256Hex : jstr → jstr) (meta : MetaDb) (ns : Namespace).

Definition level_le (a b : LayeredNode) : Prop := ln_level a <= ln_level b.

(** [saveNodes] visits lower levels first. *)
Lemma sorted_levels nodes : StronglySorted level_le (sort_by node_cmp nodes).
Proof.
  assert (∀ a b, node_cmp a b < 0 → level_le a b) as H1 by (intros a b; unfold node_cmp, level_le; cbv zeta; case_test; bool_prop; lia).
  assert (∀ a b, 0 <= node_cmp a b → level_le b a) as H2 by (intros a b; unfold node_cmp, level_le; cbv zeta; case_test; bool_prop; lia).
  assert (∀ x l, StronglySorted level_le l → StronglySorted level_le (sort_insert node_cmp x l)) as Hins.
  { intros x l. induction 1 as [|y l Hl IH Hy]; cbn [sort_insert]; [repeat constructor|]. case_test; bool_prop.
    - specialize (H1 x y ltac:(lia)). constructor; [by constructor|]. constructor; [done|]. eapply Forall_impl; [exact Hy|]. unfold level_le in *. intros z ?. lia.
    - constructor; [done|]. rewrite sort_insert_perm. constructor; [|done]. by apply H2. }
  assert (∀ acc, StronglySorted level_le acc → StronglySorted level_le (foldl (λ acc x, sort_insert node_cmp x acc) acc nodes)) as H; [|apply H; constructor].
  induction nodes as [|x l IH]; intros acc Ha; [done|]. cbn [foldl]. apply IH. by apply Hins.
Qed.

(** A node that passes the checks on itself. *)
Definition node_valid (n : LayeredNode) : Prop :=
  layeredNode_ok n = true ∧ nodeContentHash sha256Hex n = ln_nodeId n ∧ ln_namespace n = ns
  ∧ ∀ r, r ∈ ln_sourceRefs n → ownsCasMeta meta ns (ls_contentHash r) = true.
(** Its children are known, below it. *)
Definition children_known (db : NodeDb) (nodes : list LayeredNode) (n : LayeredNode) : Prop :=
  ∀ c, c ∈ ln_children n → ∃ m, ln_nodeId m = c ∧ ln_level m < ln_level n ∧ (get (ns, c) (nd_nodes db) = Some m ∨ m ∈ nodes).
(** An identity names one node. *)
Definition identities (db : NodeDb) (nodes : list LayeredNode) : Prop :=
  ∀ a b, a ∈ nodes → b ∈ nodes ∨ get (ns, ln_nodeId a) (nd_nodes db) = Some b → ln_nodeId a = ln_nodeId b → a = b.

Lemma check_children_pass db level cs :
  graph_ok sha256Hex meta db → (∀ c, c ∈ cs → ∃ m, get (ns, c) (nd_nodes db) = Some m ∧ ln_level m < level) →
  check_children sha256Hex db ns level cs = Ok tt.
Proof.
  intros Hok. induction cs as [|c cs IH]; intros H; [done|]. cbn [check_children]. rewrite (readNode_get sha256Hex meta) by done.
  destruct (H c ltac:(by left)) as (m & -> & Hl). cbn [rbind]. rewrite (proj2 (Z.leb_gt _ _)) by done. apply IH. intros c' ?. apply H. by right.
Qed.

Lemma saveNode_succeeds db n :
  graph_ok sha256Hex meta db → node_valid n → (∀ c, c ∈ ln_children n → ∃ m, get (ns, c) (nd_nodes db) = Some m ∧ ln_level m < ln_level n) →
  (∀ m, get (ns, ln_nodeId n) (nd_nodes db) = Some m → m = n) →
  ∃ db', saveNode sha256Hex meta ns db n = Ok db'
    ∧ ∀ k, get k (nd_nodes db') = if bool_decide (k = (ns, ln_nodeId n)) then Some n else get k (nd_nodes db).
Proof.
  intros Hok (H1 & H2 & H3 & H4) Hc Hsame. unfold saveNode. rewrite H1. cbn [negb]. unfold validateIdentity. rewrite H2, jeqb_refl. cbn [negb rbind].
  rewrite bool_decide_true by done. cbn [negb].
  assert (existsb (λ r, negb (ownsCasMeta meta ns (ls_contentHash r))) (ln_sourceRefs n) = false) as ->.
  { apply not_true_iff_false. intros (r & Hr & He)%existsb_exists. rewrite <- list_elem_of_In in Hr. by rewrite H4 in He. }
  rewrite check_children_pass by done. cbn [rbind]. rewrite (readNode_get sha256Hex meta) by done. cbn [rbind].
  unfold has. destruct (get (ns, ln_nodeId n) (nd_nodes db)) as [m|] eqn:Eg.
  - rewrite (Hsame m) by done. rewrite jeqb_refl. cbn [negb]. eexists. split; [done|]. intros k. cbn [nd_nodes].
    case_bool_decide as Ek; [|done]. by rewrite Ek, Eg, (Hsame m).
  - eexists. split; [done|]. intros k. cbn [nd_nodes]. rewrite get_snoc. case_bool_decide as Ek; [by rewrite Ek, Eg|]. by destruct (get k _).
Qed.

Lemma save_all_succeeds nodes db :
  graph_ok sha256Hex meta db → Forall node_valid nodes → StronglySorted level_le nodes → Forall (children_known db nodes) nodes → identities db nodes →
  ∃ db', save_all sha256Hex meta ns db nodes = Ok db'.
Proof.
  revert db. induction nodes as [|n nodes IH]; intros db Hok Hv Hs Hc Hi; [by exists db|]. apply Forall_cons in Hv as [Hn Hv].
  apply StronglySorted_inv in Hs as [Hs Hlow]. apply Forall_cons in Hc as [Hcn Hc]. rewrite Forall_forall in Hlow.
  destruct (saveNode_succeeds db n Hok Hn) as (db1 & E1 & Hget).
  { intros c Hin. destruct (Hcn c Hin) as (m & Hid & Hl & [Hm|Hm]); [by exists m|]. apply elem_of_cons in Hm as [->|Hm]; [lia|].
    specialize (Hlow m Hm). unfold level_le in Hlow. lia. }
  { intros m Hm. symmetry. apply Hi; [by left|by right|]. by destruct (go_node _ _ _ Hok _ _ _ Hm) as (_ & _ & -> & _). }
  cbn [save_all]. rewrite E1. cbn [rbind]. destruct (saveNode_ok _ _ _ _ _ _ Hok E1) as (Hok1 & _ & _). apply IH; [done|done|done| |].
  - rewrite Forall_forall in Hc |- *. intros x Hx c Hin. destruct (Hc x Hx c Hin) as (m & Hid & Hl & Hm). exists m. split_and!; [done|done|].
    rewrite Hget. case_bool_decide as Ek.
    + left. injection Ek as Ek. f_equal. apply Hi; [by left| |congruence]. destruct Hm as [Hm|Hm]; [right; by rewrite <- Ek|by left].
    + destruct Hm as [Hm|Hm]; [by left|]. apply elem_of_cons in Hm as [->|Hm]; [by rewrite Hid in Ek|by right].
  - intros a b Ha Hb Hid. destruct Hb as [Hb|Hb]; [apply Hi; [by right|left; by right|done]|]. rewrite Hget in Hb. case_bool_decide as Ek.
    + injection Hb as <-. apply Hi; [by right|left; by left|done].
    + apply Hi; [by right|by right|done].
Qed.
End Saving.

(** ** The nodes of a plan *)

Section PlanNodes.
Context (sha256Hex : jstr → jstr) (counter : TokenCounter) (maxEntries maxBytes : Z) (toLowerCase : jstr → jstr) (letter_or_number : Z → bool).
Hypothesis Hsha : ∀ x, headroomHash_ok (sha256Hex x) = true.
Abbreviation build := (buildLayeredPlan sha256Hex counter maxEntries maxBytes toLowerCase letter_or_number).

Lemma available_get ns nodes i n : get i (available sha256Hex ns nodes) = Some n → n ∈ nodes ∧ ln_nodeId n = i.
Proof.
  unfold available. set (l := List.filter _ nodes). assert (∀ x, x ∈ l → x ∈ nodes) as Hl.
  { intros x Hx. rewrite list_elem_of_In in Hx. apply filter_In in Hx as [Hx _]. by rewrite list_elem_of_In. }
  clearbody l. induction l as [|x l IH] using rev_ind; [done|]. rewrite foldl_app. cbn [foldl].
  destruct (decide (i = ln_nodeId x)) as [->|Hne].
  - rewrite get_set_eq. intros [= <-]. split; [apply Hl; set_solver|done].
  - rewrite get_set_ne by done. apply IH. intros y Hy. apply Hl. set_solver.
Qed.

(** Every node the planner makes for a request: the leaves, and the parents before those
    that are known already are dropped. *)
Definition made_nodes (messages : list ChatMessage) (o : LayeredPlanOptions) : list LayeredNode :=
  match prepare sha256Hex counter maxEntries maxBytes messages o with
  | Ok (Some p) =>
    gs_nodes (pd_groups p)
    ++ (let roots := rs_roots (pd_restored p) ++ gs_nodes (pd_groups p) in
        match merge_loop sha256Hex counter (length roots) (lo_namespace o) roots with Some (_, parents) => parents | None => [] end)
  | _ => []
  end.

(** What the plan was given of the store: nodes of the namespace, as they are stored. *)
Definition given_nodes (db : NodeDb) (o : LayeredPlanOptions) : Prop :=
  ∀ n, n ∈ lo_nodes o → get (lo_namespace o, ln_nodeId n) (nd_nodes db) = Some n.

Lemma made_parent pool p counter' ns : made_from sha256Hex counter' ns pool p →
  ln_nodeId p = nodeContentHash sha256Hex p ∧ ln_namespace p = ns ∧ ln_sourceRefs p = [] ∧ ln_stateEvents p = None
  ∧ ∀ c, c ∈ ln_children p → ∃ m, m ∈ pool ∧ ln_nodeId m = c ∧ ln_level m < ln_level p.
Proof.
  intros (a & b & c & d & -> & Hs & Hb & Hc & Hd). split_and!; [apply makeNode_id|reflexivity|reflexivity|reflexivity|]. cbn [parent_of makeNode ln_children ln_level map].
  intros i Hi. rewrite !elem_of_cons in Hi. destruct Hi as [->|[->|[->|[->|?%elem_of_nil]]]]; [exists a|exists b|exists c|exists d|done];
    (split; [apply Hs; set_solver|split; [done|lia]]).
Qed.

Lemma plan_prepared messages o plan cache : build messages o = Ok (Some (plan, cache)) →
  ∃ p, prepare sha256Hex counter maxEntries maxBytes messages o = Ok (Some p)
    ∧ plan = finish sha256Hex counter toLowerCase letter_or_number messages o p.
Proof.
  apply buildLayeredPlan_ok.
Qed.

Context (messages : list ChatMessage) (o : LayeredPlanOptions).
Abbreviation nskey := (canonicalJSON (json_of_namespace (lo_namespace o))).
Hypothesis Hbind : digests_bind sha256Hex counter nskey messages.
Hypothesis Hcoh : coherent sha256Hex counter nskey messages (lo_cache o).
Hypothesis Hschema : Forall (λ m, chatMessage_ok m = true) messages.

(** Every reference of a plan's node is to a message of the request, at its digest. *)
Lemma plan_refs plan cache n r : build messages o = Ok (Some (plan, cache)) → n ∈ lp_nodes plan → r ∈ ln_sourceRefs n →
  ∃ m, m ∈ messages ∧ m_id m = ls_messageId r ∧ ls_contentHash r = contentDigest sha256Hex m.
Proof.
  intros (p & Hp & ->)%plan_prepared. pose proof (prepare_prepared _ _ _ _ Hsha _ _ _ Hbind Hcoh Hp) as [(pieces & Hg & Hpc) _ (parents & Hw & Hf & _)].
  unfold finish. cbv zeta. cbn [lp_nodes]. case_test; [|by intros ?%elem_of_nil]. intros [Hn|Hn]%elem_of_app Hr.
  - pose proof (group_pieces_ok sha256Hex counter (lo_namespace o) messages (sc_messageEvents (pd_scan p)) pieces Hpc) as Hgo. rewrite <- Hg in Hgo.
    pose proof (gk_nodes _ _ _ _ _ Hgo) as Hl. rewrite Forall_forall in Hl. destruct (lf_sources _ _ _ _ _ (Hl n Hn)) as (ps & Hps & Hrefs & _).
    rewrite Hrefs in Hr. apply list_elem_of_fmap in Hr as (q & -> & Hq). rewrite Forall_forall in Hps. destruct (Hps q Hq) as [M1 M2 _ _].
    exists (cd_message (pc_candidate q)). split_and!; [by eapply list_elem_of_lookup_2|done|done].
  - rewrite Hf, list_elem_of_In in Hn. apply filter_In in Hn as [Hn _]. rewrite <- list_elem_of_In in Hn. apply list_elem_of_lookup in Hn as [i Hi].
    apply Hw in Hi. destruct (made_parent _ _ _ _ Hi) as (_ & _ & Ep & _). rewrite Ep in Hr. by apply elem_of_nil in Hr.
Qed.

(** The leaves and the hierarchy behind a plan's nodes; whatever a parent can name is
    stored or saved with it. *)
Record plan_pool (db : NodeDb) (plan : LayeredPlan) (events : list (list LayeredStateEvent)) (leaves roots parents : list LayeredNode) : Prop := {
  pp_nodes n : n ∈ lp_nodes plan → n ∈ leaves ++ parents;
  pp_made n : n ∈ leaves ++ parents → n ∈ made_nodes messages o;
  pp_leaves : Forall (leaf_ok sha256Hex (lo_namespace o) messages events) leaves;
  pp_parents : well_founded_from sha256Hex counter (lo_namespace o) roots parents;
  pp_pool m : m ∈ roots ++ parents → get (lo_namespace o, ln_nodeId m) (nd_nodes db) = Some m ∨ m ∈ lp_nodes plan }.

Lemma plan_has_pool db plan cache :
  given_nodes db o → build messages o = Ok (Some (plan, cache)) → identities (lo_namespace o) db (made_nodes messages o) → lp_nodes plan ≠ [] →
  ∃ events leaves roots parents, plan_pool db plan events leaves roots parents.
Proof.
  intros Hgiven Hb Hid Hne. destruct (plan_prepared _ _ _ _ Hb) as (p & Hp & Hplan).
  pose proof (prepare_prepared _ _ _ _ Hsha _ _ _ Hbind Hcoh Hp) as [(pieces & Hg & Hpc) Hroots (parents & Hw & Hf & Hm)].
  pose proof (group_pieces_ok sha256Hex counter (lo_namespace o) messages (sc_messageEvents (pd_scan p)) pieces Hpc) as Hgo. rewrite <- Hg in Hgo.
  assert (lp_nodes plan = gs_nodes (pd_groups p) ++ pd_parents p) as Hnodes.
  { rewrite Hplan in Hne |- *. unfold finish in *. cbv zeta in *. cbn [lp_nodes] in *. by case_test. }
  set (roots := rs_roots (pd_restored p) ++ gs_nodes (pd_groups p)) in *.
  assert (∀ n, n ∈ gs_nodes (pd_groups p) ++ parents → n ∈ made_nodes messages o) as Hmade.
  { intros n Hn. unfold made_nodes. rewrite Hp. fold roots. apply elem_of_app in Hn as [Hn|Hn]; apply elem_of_app; [by left|right].
    destruct Hm as [->|Hm]; [by apply elem_of_nil in Hn|]. destruct (merge_loop _ _ _ _ roots) as [[fin par]|]; [|done]. by injection Hm as ->. }
  exists (sc_messageEvents (pd_scan p)), (gs_nodes (pd_groups p)), roots, parents. split; [|done|apply Hgo|done|].
  - intros n. rewrite Hnodes, Hf. intros [?|Hn]%elem_of_app; apply elem_of_app; [by left|right]. rewrite list_elem_of_In in Hn.
    apply filter_In in Hn as [Hn _]. by rewrite list_elem_of_In.
  - intros m. unfold roots. rewrite !elem_of_app. intros [[Hr|Hl]|Hpar].
    + left. rewrite Forall_forall in Hroots. destruct (Hroots m Hr) as (i & Hi). apply Hgiven. by apply available_get in Hi as [? _].
    + right. rewrite Hnodes. apply elem_of_app. by left.
    + destruct (has (ln_nodeId m) (available sha256Hex (lo_namespace o) (lo_nodes o))) eqn:Eh.
      * left. apply has_get in Eh as (m' & Hm'). apply available_get in Hm' as [Hm' Hid']. apply Hgiven in Hm'. rewrite Hid' in Hm'.
        rewrite Hm'. f_equal. symmetry. apply Hid; [apply Hmade; set_solver|by right|done].
      * right. rewrite Hnodes, Hf. apply elem_of_app. right. apply list_elem_of_In, filter_In. rewrite <- list_elem_of_In, Eh. done.
Qed.

Section Pool.
Context (db : NodeDb) (meta : MetaDb) (plan : LayeredPlan) (events : list (list LayeredStateEvent)) (leaves roots parents : list LayeredNode).
Context (Hpool : plan_pool db plan events leaves roots parents) (Hok : graph_ok sha256Hex meta db) (Hnd : NoDup (map m_id messages)).

(** A child of a parent: in the store or in the plan, below it. *)
Lemma pool_child p c : p ∈ parents → c ∈ ln_children p →
  ∃ m, ln_nodeId m = c ∧ ln_level m < ln_level p ∧ (get (lo_namespace o, c) (nd_nodes db) = Some m ∨ m ∈ lp_nodes plan).
Proof.
  intros [i Hi]%list_elem_of_lookup Hc. apply (pp_parents _ _ _ _ _ _ Hpool) in Hi. destruct (made_parent _ _ _ _ Hi) as (_ & _ & _ & _ & E5).
  destruct (E5 c Hc) as (m & Hpm & <- & Hlt). exists m. split_and!; [done|done|]. apply (pp_pool _ _ _ _ _ _ Hpool).
  apply elem_of_app in Hpm as [?|Hpm]; apply elem_of_app; [by left|right; by eapply subseteq_take].
Qed.

Lemma pool_id n : n ∈ lp_nodes plan → headroomHash_ok (ln_nodeId n) = true.
Proof.
  intros [Hl|Hpar]%(pp_nodes _ _ _ _ _ _ Hpool)%elem_of_app.
  - pose proof (pp_leaves _ _ _ _ _ _ Hpool) as Hls. rewrite Forall_forall in Hls. rewrite (lf_id _ _ _ _ _ (Hls n Hl)). apply Hsha.
  - apply list_elem_of_lookup in Hpar as [i Hi]. apply (pp_parents _ _ _ _ _ _ Hpool) in Hi. destruct (made_parent _ _ _ _ Hi) as (-> & _). apply Hsha.
Qed.

Lemma pool_valid n : n ∈ lp_nodes plan → node_numbers n = true →
  (∀ r, r ∈ ln_sourceRefs n → ownsCasMeta meta (lo_namespace o) (ls_contentHash r) = true) → node_valid sha256Hex meta (lo_namespace o) n.
Proof.
  intros Hn Hnum Ho. pose proof (pp_nodes _ _ _ _ _ _ Hpool n Hn) as [Hl|Hpar]%elem_of_app.
  - pose proof (pp_leaves _ _ _ _ _ _ Hpool) as Hls. rewrite Forall_forall in Hls. pose proof (Hls n Hl) as Hleaf.
    split_and!; [by eapply leaf_schema|by destruct Hleaf|by destruct Hleaf|auto].
  - pose proof (λ c, pool_child n c Hpar) as Hkids. apply list_elem_of_lookup in Hpar as [i Hi].
    apply (pp_parents _ _ _ _ _ _ Hpool) in Hi as Hmf. destruct (made_parent _ _ _ _ Hmf) as (E1 & E2 & E3 & E4 & _).
    split_and!; [|done|done|auto]. unfold layeredNode_ok, node_refine. unfold node_numbers in Hnum. rewrite E3, E4 in Hnum. cbn [default from_option id forallb] in Hnum.
    apply andb_true_iff in Hnum as [[[[N1 _]%andb_true_iff _]%andb_true_iff N4]%andb_true_iff N5]. rewrite E3, E4, N1, N4, N5, (pool_id n Hn). cbn [forallb opt_ok andb].
    rewrite !andb_true_r. apply forallb_forall. intros c Hc. rewrite <- list_elem_of_In in Hc. destruct (Hkids c Hc) as (m & <- & _ & [Hst|Hst]); [|by apply pool_id].
    destruct (go_node _ _ _ Hok _ _ _ Hst) as (Hl & _ & _ & _). unfold layeredNode_ok in Hl. by bool_prop.
Qed.

Lemma pool_children n : n ∈ lp_nodes plan → children_known (lo_namespace o) db (lp_nodes plan) n.
Proof.
  intros Hn c Hc. apply (pp_nodes _ _ _ _ _ _ Hpool) in Hn as [Hl|Hpar]%elem_of_app; [|by apply pool_child].
  pose proof (pp_leaves _ _ _ _ _ _ Hpool) as Hls. rewrite Forall_forall in Hls. rewrite (lf_children _ _ _ _ _ (Hls n Hl)) in Hc. by apply elem_of_nil in Hc.
Qed.
End Pool.

(** The transaction that saves the nodes of a plan succeeds: leaves and parents satisfy
    the schema, are named by their content, quote evidence the ledger has, and every
    parent's children are stored or saved before it. *)
Theorem plan_nodes_save meta db plan cache :
  graph_ok sha256Hex meta db → given_nodes db o → NoDup (map m_id messages) →
  build messages o = Ok (Some (plan, cache)) →
  Forall (λ n, node_numbers n = true) (lp_nodes plan) →
  identities (lo_namespace o) db (made_nodes messages o) →
  (∀ n r, n ∈ lp_nodes plan → r ∈ ln_sourceRefs n → ownsCasMeta meta (lo_namespace o) (ls_contentHash r) = true) →
  ∃ db', saveNodes sha256Hex meta (lo_namespace o) db (lp_nodes plan) = (db', Ok tt).
Proof.
  intros Hok Hgiven Hnd Hb Hnum Hid Hown. destruct (decide (lp_nodes plan = [])) as [->|Hne]; [by eexists|].
  destruct (plan_has_pool db plan cache Hgiven Hb Hid Hne) as (events & leaves & roots & parents & Hpool).
  unfold saveNodes. destruct (save_all_succeeds sha256Hex meta (lo_namespace o) (sort_by node_cmp (lp_nodes plan)) db Hok) as [db' ->]; [| | | |by exists db'].
  - rewrite sort_by_perm. rewrite Forall_forall in Hnum |- *. intros n Hn. eapply pool_valid; eauto.
  - apply sorted_levels.
  - apply Forall_forall. intros n Hn c Hc. rewrite sort_by_perm in Hn. destruct (pool_children _ _ _ _ _ _ Hpool n Hn c Hc) as (m & ? & ? & Hm).
    exists m. split_and!; [done|done|]. by rewrite sort_by_perm.
  - intros a b Ha Hb' He. rewrite sort_by_perm in Ha, Hb'. apply Hid; [by eapply pp_made, pp_nodes| |done].
    destruct Hb' as [Hb'|Hb']; [left; by eapply pp_made, pp_nodes|by right].
Qed.
End PlanNodes.
