(* ===== verification/LayeredStore.v ===== *)
(** * Layered compression and the active views ([packages/headroomd/src/engine.ts], [store/manifests.ts])

    [compressLayered] loads the evidence nodes a history shows, plans over them, archives
    what the plan hides, saves the plan's nodes and publishes its manifest.  [setView],
    [getView] and [clearView] keep the view of each namespace.  The state is the archive of
    [Archive], the node tables of [Nodes], and the parts of the stored plans that [Store]
    leaves out.  A compression is a list of effects, each atomic on disk; a crash leaves the
    effect of a prefix. *)

From stdpp Require Import base tactics list numbers option sets strings sorting relations.
From Stdlib Require Import SpecFloat.
From S2P Require Import Prelude JsString JsRegex Json Codec CLine OMap Chat Operations Summary Compaction Compress Cas Objects Fts Store Archive.
From S2P Require Import Nodes Tokens Evidence PartialOps Layered LayeredTree LayeredNodes.

(** ** Plans as they are stored and sent *)

(** The counters of a plan and the timings the engine adds to its answer. *)
Record WireMetrics := mkWireMetrics { wm_counters : LayeredMetrics; wm_timings : list (jstr * jnum) }.

(** The fields of a result that only layered plans have. *)
Record PlanRest := mkRest {
  pr_strategy : option CompactStrategy; pr_nodes : option (list LayeredNode); pr_protectedMemory : option (list MemoryEntry);
  pr_taskState : option LayeredTaskState; pr_budget : option LayeredBudget; pr_metrics : option WireMetrics;
  pr_enhancementJobId : option jstr; pr_enhancementReason : option jstr }.
Definition no_rest : PlanRest := mkRest None None None None None None None None.

Record WirePlan := mkWire { wp_result : HeadroomCompressResult; wp_rest : PlanRest }.

Definition wire_of_plan (p : LayeredPlan) : WirePlan :=
  mkWire (lp_result p) (mkRest (Some Layered) (Some (lp_nodes p)) (Some (lp_protectedMemory p)) (Some (lp_taskState p)) (Some (lp_budget p))
                          (Some (mkWireMetrics (lp_metrics p) [])) None None).
Definition plan_nodes (w : WirePlan) : list LayeredNode := default [] (pr_nodes (wp_rest w)).

(** *** As JSON *)

Definition strategy_text (s : CompactStrategy) : jstr := match s with Legacy => js "legacy" | Layered => js "layered" end.
Definition json_of_task_state (s : LayeredTaskState) : json :=
  JObj [(js "events", JArr (map json_of_event (lt_events s))); (js "currentRequestIds", strs (lt_currentRequestIds s))].
Definition json_of_budget (b : LayeredBudget) : json :=
  JObj [(js "availableInputTokens", num (lb_availableInputTokens b)); (js "targetTokens", num (lb_targetTokens b));
        (js "protectedTokens", num (lb_protectedTokens b)); (js "recentTokens", num (lb_recentTokens b));
        (js "wrapperTokens", num (lb_wrapperTokens b)); (js "historyBudgetTokens", num (lb_historyBudgetTokens b));
        (js "memoryTokens", num (lb_memoryTokens b)); (js "reasons", strs (lb_reasons b))].
Definition json_of_metrics (m : WireMetrics) : json :=
  let c := wm_counters m in
  JObj (map (λ t, (t.1, JNum t.2)) (wm_timings m)
        ++ [(js "scannedMessages", num (lm_scannedMessages c)); (js "analyzedMessages", num (lm_analyzedMessages c));
            (js "analysisCacheHits", num (lm_analysisCacheHits c)); (js "candidateCount", num (lm_candidateCount c));
            (js "selectedMemoryBlocks", num (lm_selectedMemoryBlocks c)); (js "deduplicatedObservations", num (lm_deduplicatedObservations c));
            (js "operationCount", num (lm_operationCount c)); (js "leafNodes", num (lm_leafNodes c)); (js "parentNodes", num (lm_parentNodes c));
            (js "tokenCounter", JStr (lm_tokenCounter c)); (js "tokenCountMode", JStr (lm_tokenCountMode c))]).
Definition json_of_ref (r : CompactionRef) : json :=
  JObj [(js "contentHash", JStr (rf_contentHash r)); (js "role", JStr (role_text (rf_role r))); (js "turnIndex", num (rf_turnIndex r))].
Definition nullable (o : option jstr) : json := match o with Some s => JStr s | None => JNull end.

(** The fields of the schema, without and with the telemetry. *)
Definition content_fields (w : WirePlan) : list (jstr * json) :=
  let r := wp_result w in let x := wp_rest w in
  [(js "compacted", JBool (hr_compacted r))]
  ++ opt_field (js "strategy") (λ s, JStr (strategy_text s)) (pr_strategy x)
  ++ opt_field (js "operations") (λ l, JArr (map json_of_operation l)) (hr_operations r)
  ++ opt_field (js "nodes") (λ l, JArr (map json_of_node l)) (pr_nodes x)
  ++ opt_field (js "protectedMemory") (λ l, JArr (map json_of_entry l)) (pr_protectedMemory x)
  ++ opt_field (js "taskState") json_of_task_state (pr_taskState x)
  ++ opt_field (js "sourceSnapshot") json_of_snapshot (hr_sourceSnapshot r)
  ++ opt_field (js "budget") json_of_budget (pr_budget x)
  ++ opt_field (js "sourceDigests") strs (hr_sourceDigests r)
  ++ opt_field (js "epoch") JStr (hr_epoch r)
  ++ opt_field (js "memory") (λ l, JArr (map json_of_entry l)) (hr_memory r)
  ++ opt_field (js "budgetExceeded") JBool (hr_budgetExceeded r)
  ++ [(js "historyHash", nullable (hr_historyHash r)); (js "summary", nullable (hr_summary r));
      (js "refs", JArr (map json_of_ref (hr_refs r))); (js "replacedMessageIds", strs (hr_replacedMessageIds r));
      (js "rawTokens", num (hr_rawTokens r)); (js "summaryTokens", num (hr_summaryTokens r));
      (js "sourceTokensEst", num (hr_sourceTokensEst r)); (js "evictedTokensEst", num (hr_evictedTokensEst r));
      (js "retainedTokensEst", num (hr_retainedTokensEst r)); (js "replacementTokensEst", num (hr_replacementTokensEst r));
      (js "finalTokensEst", num (hr_finalTokensEst r)); (js "freedTokens", num (hr_freedTokens r))].
Definition telemetry_fields (w : WirePlan) : list (jstr * json) :=
  let x := wp_rest w in
  opt_field (js "metrics") json_of_metrics (pr_metrics x)
  ++ opt_field (js "enhancementJobId") JStr (pr_enhancementJobId x)
  ++ opt_field (js "enhancementReason") JStr (pr_enhancementReason x).
Definition json_of_wire (w : WirePlan) : json := JObj (content_fields w ++ telemetry_fields w).

(** What [setView] compares. *)
Definition comparable (w : WirePlan) : jstr := canonicalJSON (JObj (content_fields w)).

(** ** The store *)

(** The plan columns of [archive_manifests] and [active_views] hold what [Store] keeps
    together with the rest. *)
Record EngineStore := mkEngineStore {
  es_archive : ArchiveStore;
  es_nodes : NodeDb;
  es_manifest_rest : list ((Namespace * jstr) * PlanRest);
  es_view_rest : list (Namespace * PlanRest) }.
Definition empty_engine : EngineStore := mkEngineStore (mkStore [] empty_meta empty_index) empty_nodes [] [].

Definition set_archive (a : ArchiveStore) (es : EngineStore) : EngineStore := mkEngineStore a (es_nodes es) (es_manifest_rest es) (es_view_rest es).
Definition set_meta (meta : MetaDb) (es : EngineStore) : EngineStore :=
  set_archive (mkStore (as_files (es_archive es)) meta (as_index (es_archive es))) es.
Abbreviation es_meta es := (as_meta (es_archive es)).

Definition saveManifest (es : EngineStore) (ns : Namespace) (plan : WirePlan) (children : list jstr) : result jstr EngineStore :=
  let! meta := Store.saveManifest (es_meta es) ns (wp_result plan) children in
  Ok (mkEngineStore (es_archive (set_meta meta es)) (es_nodes es)
        (set_key (ns, default [] (hr_historyHash (wp_result plan))) (wp_rest plan) (es_manifest_rest es)) (es_view_rest es)).
Definition getManifest (es : EngineStore) (ns : Namespace) (hash : jstr) : option WirePlan :=
  r ← Store.getManifest (es_meta es) ns hash; Some (mkWire r (default no_rest (get (ns, hash) (es_manifest_rest es)))).
Definition getView (es : EngineStore) (ns : Namespace) : option WirePlan :=
  r ← Store.getView (es_meta es) ns; Some (mkWire r (default no_rest (get ns (es_view_rest es)))).
Definition clearView (es : EngineStore) (ns : Namespace) : EngineStore :=
  mkEngineStore (es_archive (set_meta (Store.clearView (es_meta es) ns) es)) (es_nodes es) (es_manifest_rest es) (delete_key ns (es_view_rest es)).

(** The part of the schema of the metrics that types leave open: no number is
    negative.  Of a view only the telemetry can fail where the confirmed plan did not. *)
Definition jnum_nonneg (n : jnum) : bool :=
  match n with NInt z => 0 <=? z | NNegZero => true | NFrac f => match f with S754_finite true _ _ => false | _ => true end end.
Definition counters_ok (c : LayeredMetrics) : bool :=
  forallb (λ n, 0 <=? n)
    [lm_scannedMessages c; lm_analyzedMessages c; lm_analysisCacheHits c; lm_candidateCount c; lm_selectedMemoryBlocks c;
     lm_deduplicatedObservations c; lm_operationCount c; lm_leafNodes c; lm_parentNodes c].
Definition metrics_ok (m : WireMetrics) : bool := counters_ok (wm_counters m) && forallb (λ t, jnum_nonneg t.2) (wm_timings m).
Definition telemetry_ok (w : WirePlan) : bool := match pr_metrics (wp_rest w) with Some m => metrics_ok m | None => true end.

Definition VIEW_ERROR : jstr := js "View must match a confirmed archive in its namespace".
Definition setView (es : EngineStore) (ns : Namespace) (plan : WirePlan) : result jstr EngineStore :=
  match match hr_historyHash (wp_result plan) with
        | Some hash => if bool_decide (hash = []) then None else getManifest es ns hash
        | None => None
        end with
  | None => Throw VIEW_ERROR
  | Some stored =>
    throw_if negb (headroomCompressResult_refine (wp_result plan)) || negb (telemetry_ok plan) with js "ZodError" in
    throw_if negb (jeqb (comparable stored) (comparable plan)) with VIEW_ERROR in
    let meta := es_meta es in
    Ok (mkEngineStore
          (es_archive (set_meta (mkMetaDb (md_cas_meta meta) (md_archive_refs meta) (md_manifests meta) (set_key ns (wp_result plan) (md_views meta)) (md_cursors meta)) es))
          (es_nodes es) (es_manifest_rest es) (set_key ns (wp_rest plan) (es_view_rest es)))
  end.

(** ** Effects *)

Inductive LayeredEffect : Type :=
| LArchive (e : Effect)
| LNodes (ns : Namespace) (nodes : list LayeredNode)                           (** one transaction *)
| LManifest (ns : Namespace) (plan : WirePlan) (children : list jstr).         (** one statement *)

(** What [compressLayered] reads of its parameters. *)
Record LayeredParams := mkLayeredParams {
  yp_ns : Namespace; yp_messages : list ChatMessage; yp_contextWindowTokens : Z; yp_targetTokens : option Z; yp_retainRecentTurns : Z;
  yp_memoryMaxTokens : option Z; yp_memoryRatio : option spec_float; yp_protectedMessageIds : list jstr; yp_epoch : option jstr }.

Section Engine.
Context (sha256Hex : jstr → jstr) (gzip : bytes → bytes) (dataDir : jstr).
Context (counter : TokenCounter) (maxEntries maxBytes : Z) (toLowerCase : jstr → jstr) (letter_or_number : Z → bool).
(** What the security checks assert. *)
Context (assert_plan : ArchivePlan → list InsertChunkInput → bool) (assert_result : WirePlan → bool).

Definition layered_effect (es : EngineStore) (e : LayeredEffect) : EngineStore * result jstr unit :=
  match e with
  | LArchive e => let '(a, r) := run_effect sha256Hex gzip dataDir (es_archive es) e in (set_archive a es, r)
  | LNodes ns nodes =>
    let '(db, r) := saveNodes sha256Hex (es_meta es) ns (es_nodes es) nodes in
    (mkEngineStore (es_archive es) db (es_manifest_rest es) (es_view_rest es), r)
  | LManifest ns plan children =>
    match saveManifest es ns plan children with Ok es' => (es', Ok tt) | Throw x => (es, Throw x) end
  end.
Fixpoint layered_effects (es : EngineStore) (l : list LayeredEffect) : EngineStore * result jstr unit :=
  match l with
  | [] => (es, Ok tt)
  | e :: r => match layered_effect es e with
              | (es', Ok _) => layered_effects es' r
              | (es', Throw x) => (es', Throw x)
              end
  end.

(** What the engine adds to an answer: timings, and the job of the background summary or
    why there is none. *)
Definition with_telemetry (w : WirePlan) (metrics : option WireMetrics) (jobId reason : option jstr) : WirePlan :=
  let x := wp_rest w in
  mkWire (wp_result w) (mkRest (pr_strategy x) (pr_nodes x) (pr_protectedMemory x) (pr_taskState x) (pr_budget x) metrics jobId reason).

(** *** [compressLayered] *)

(** [visibleNodeIds]; enough fuel for the walk over the graph below them. *)
Definition visibleNodeIds (messages : list ChatMessage) : list jstr := flat_map shown_ids messages.
Definition view_fuel (db : NodeDb) (ns : Namespace) (ids : list jstr) : nat := S (length (uniq ids) + pending db ns []).

Definition layered_options (params : LayeredParams) (cache : option (LayeredCache Analysis)) (nodes : list LayeredNode) : LayeredPlanOptions :=
  mkPlanOptions (yp_ns params) (yp_contextWindowTokens params) (yp_targetTokens params) (Some (yp_retainRecentTurns params))
    (yp_memoryMaxTokens params) (yp_memoryRatio params) (yp_protectedMessageIds params) (yp_epoch params) cache nodes.

(** [wanted]: the messages a plan hides or quotes. *)
Definition wanted_ids (plan : LayeredPlan) : list jstr :=
  hr_replacedMessageIds (lp_result plan) ++ flat_map (λ n, map ls_messageId (ln_sourceRefs n)) (lp_nodes plan).
Definition wanted (plan : LayeredPlan) (m : ChatMessage) : bool := bool_decide (m_id m ∈ wanted_ids plan).

Definition archive_of (messages : list ChatMessage) (plan : LayeredPlan) (historyHash : jstr) : ArchivePlan :=
  let kept := List.filter (wanted plan) messages in
  mkArchivePlan
    (List.filter (λ t, negb (bool_decide (t_messages t = [])))
       (map (λ t, mkTurn (t_index t) (List.filter (λ id, bool_decide (id ∈ wanted_ids plan)) (t_messageIds t))
                    (List.filter (wanted plan) (t_messages t)) (t_startMsgIndex t)) (splitTurns messages)))
    kept (map (contentHash sha256Hex) kept) historyHash (default [] (hr_summary (lp_result plan))) (hr_summaryTokens (lp_result plan)).

Definition layered_reserve (messages : list ChatMessage) (plan : LayeredPlan) : Z :=
  byte_length (stringify (JArr [JArr (map json_of_message messages); JArr (map json_of_node (lp_nodes plan)); json_of_wire (wire_of_plan plan)])) * 16
  + 256 * 1024.

(** The effects of a compression by either strategy; the legacy one has no nodes to save. *)
Definition publish_effects (index : IndexDb) (ns : Namespace) (archive : ArchivePlan) (w : WirePlan) (raw createdAt : Z) (uuid : nat → jstr)
    (save : bool) : list LayeredEffect :=
  map LArchive (persist_effects index archive ns raw createdAt uuid)
  ++ (if save then [LNodes ns (plan_nodes w)] else []) ++ [LManifest ns w (archive_children (ap_messages archive))].
Definition plan_effects (es : EngineStore) (params : LayeredParams) (plan : LayeredPlan) (archive : ArchivePlan) (createdAt : Z) (uuid : nat → jstr) :
    list LayeredEffect :=
  publish_effects (as_index (es_archive es)) (yp_ns params) archive (wire_of_plan plan) (hr_rawTokens (lp_result plan)) createdAt uuid true.

(** The nodes the history shows, and those below them. *)
Definition loaded_nodes (es : EngineStore) (params : LayeredParams) : option (result jstr (list LayeredNode)) :=
  let ids := visibleNodeIds (yp_messages params) in
  nodesForView sha256Hex (view_fuel (es_nodes es) (yp_ns params) ids) (es_nodes es) (yp_ns params) ids.

(** The plan over the nodes the history shows; [None] is fuel running out, which does
    not happen. *)
Definition layered_plan (es : EngineStore) (params : LayeredParams) (cache : option (LayeredCache Analysis)) :
    option (result jstr LayeredPlan) :=
  nodes ← loaded_nodes es params;
  match nodes with
  | Throw e => Some (Throw e)
  | Ok nodes =>
    match buildLayeredPlan sha256Hex counter maxEntries maxBytes toLowerCase letter_or_number (yp_messages params) (layered_options params cache nodes) with
    | Throw e => Some (Throw e)
    | Ok p => p ← p; Some (Ok p.1)
    end
  end.

Definition CAPACITY_ERROR : jstr := js "Headroom storage capacity exceeded".

Definition compressLayered (es : EngineStore) (params : LayeredParams) (cache : option (LayeredCache Analysis))
    (storageBytes maxStorageBytes createdAt : Z) (uuid : nat → jstr) : option (EngineStore * result jstr WirePlan) :=
  p ← layered_plan es params cache;
  Some match p with
  | Throw e => (es, Throw e)
  | Ok plan =>
    match hr_compacted (lp_result plan), hr_historyHash (lp_result plan) with
    | true, Some historyHash =>
      if bool_decide (historyHash = []) then (es, Ok (wire_of_plan plan)) else
      let archive := archive_of (yp_messages params) plan historyHash in
      if negb (hasHistoryMeta (es_meta es) (yp_ns params) historyHash)
         && (maxStorageBytes <? storageBytes + layered_reserve (ap_messages archive) plan)
      then (es, Throw CAPACITY_ERROR)
      else if negb (assert_result (wire_of_plan plan)) || negb (assert_plan archive (chunkInputs archive (yp_ns params))) then (es, Throw (js "SecurityError"))
      else match layered_effects es (plan_effects es params plan archive createdAt uuid) with
           | (es', Ok _) => (es', Ok (wire_of_plan plan))
           | (es', Throw e) => (es', Throw e)
           end
    | _, _ => (es, Ok (wire_of_plan plan))
    end
  end.

(** *** The legacy compression on the same store *)

Definition compressLegacy (es : EngineStore) (params : CompressParams) (storageBytes maxStorageBytes createdAt : Z) (uuid : nat → jstr) :
    EngineStore * result jstr WirePlan :=
  let '(a, r) := Archive.compress sha256Hex gzip dataDir assert_plan (λ r, assert_result (mkWire r no_rest)) (es_archive es) params storageBytes maxStorageBytes createdAt uuid in
  match r with
  | Ok res =>
    (mkEngineStore a (es_nodes es)
       (match hr_historyHash res with
        | Some h => if hr_compacted res then set_key (cp_ns params, h) no_rest (es_manifest_rest es) else es_manifest_rest es
        | None => es_manifest_rest es
        end) (es_view_rest es), Ok (mkWire res no_rest))
  | Throw e => (set_archive a es, Throw e)
  end.
End Engine.

(** ** What a store keeps *)

(** Under the id of a node of a plan is a node with the same text. *)
Definition stored_node (db : NodeDb) (ns : Namespace) (n : LayeredNode) : Prop :=
  ∃ m, get (ns, ln_nodeId n) (nd_nodes db) = Some m ∧ stringify (json_of_node m) = stringify (json_of_node n).

(** The plan is complete and its evidence is archived in the namespace. *)
Record backed (es : EngineStore) (ns : Namespace) (w : WirePlan) : Prop := {
  bk_compacted : hr_compacted (wp_result w) = true;
  bk_valid : headroomCompressResult_refine (wp_result w) = true;
  bk_history : ∃ h, hr_historyHash (wp_result w) = Some h ∧ h ≠ [] ∧ hasHistoryMeta (es_meta es) ns h = true;
  bk_digests : Forall (λ d, ownsCasMeta (es_meta es) ns d = true) (default [] (hr_sourceDigests (wp_result w)));
  bk_nodes : Forall (stored_node (es_nodes es) ns) (plan_nodes w) }.

Record engine_ok (sha256Hex : jstr → jstr) (gzip : bytes → bytes) (dataDir : jstr) (es : EngineStore) : Prop := {
  eo_store : store_ok sha256Hex gzip dataDir (es_archive es);
  eo_graph : graph_ok sha256Hex (es_meta es) (es_nodes es);
  eo_manifests ns h w : getManifest es ns h = Some w → hr_historyHash (wp_result w) = Some h ∧ backed es ns w;
  eo_views ns w : getView es ns = Some w → headroomCompressResult_refine (wp_result w) = true
    ∧ ∃ m, backed es ns m ∧ comparable m = comparable w ∧ hr_historyHash (wp_result m) = hr_historyHash (wp_result w) }.

(** *** The ledger and the graph only grow *)

Record grows (es es' : EngineStore) : Prop := {
  gr_refs : md_archive_refs (es_meta es) ⊆ md_archive_refs (es_meta es');
  gr_nodes k n : get k (nd_nodes (es_nodes es)) = Some n → get k (nd_nodes (es_nodes es')) = Some n }.
Record same_plans (es es' : EngineStore) : Prop := {
  sp_manifests : md_manifests (es_meta es') = md_manifests (es_meta es);
  sp_views : md_views (es_meta es') = md_views (es_meta es);
  sp_manifest_rest : es_manifest_rest es' = es_manifest_rest es;
  sp_view_rest : es_view_rest es' = es_view_rest es }.

#[export] Instance grows_preorder : PreOrder grows.
Proof. split; [by split|]. intros x y z [A1 A2] [B1 B2]. split; [by etrans|auto]. Qed.
#[export] Instance same_plans_preorder : PreOrder same_plans.
Proof. split; [by split|]. intros x y z [] []. split; congruence. Qed.

Lemma existsb_mono {A} (p : A → bool) l l' : l ⊆ l' → existsb p l = true → existsb p l' = true.
Proof. intros Hs (x & Hx & Hp)%existsb_exists. apply existsb_exists. exists x. split; [|done]. rewrite <- list_elem_of_In in *. auto. Qed.

Lemma owns_mono es es' ns h : grows es es' → ownsCasMeta (es_meta es) ns h = true → ownsCasMeta (es_meta es') ns h = true.
Proof. intros [Hr _]. by apply existsb_mono. Qed.
Lemma history_mono es es' ns h : grows es es' → hasHistoryMeta (es_meta es) ns h = true → hasHistoryMeta (es_meta es') ns h = true.
Proof. intros [Hr _]. by apply existsb_mono. Qed.

Lemma backed_mono es es' ns w : grows es es' → backed es ns w → backed es' ns w.
Proof.
  intros Hg [H1 H2 (h & H3 & H4 & H5) H6 H7]. split; [done|done| | |].
  - exists h. split_and!; [done|done|by eapply history_mono].
  - eapply Forall_impl; [exact H6|]. intros d. by apply owns_mono.
  - eapply Forall_impl; [exact H7|]. intros n (m & Hm & Hs). exists m. split; [|done]. by apply (gr_nodes _ _ Hg).
Qed.

Lemma same_manifest es es' ns h : same_plans es es' → getManifest es' ns h = getManifest es ns h.
Proof. intros [H1 _ H2 _]. unfold getManifest, Store.getManifest. by rewrite H1, H2. Qed.
Lemma same_view es es' ns : same_plans es es' → getView es' ns = getView es ns.
Proof. intros [_ H1 _ H2]. unfold getView, Store.getView. by rewrite H1, H2. Qed.

(** With the plans as they are, what is left is the archive and the graph. *)
Lemma engine_ok_grows sha gzip dir es es' :
  engine_ok sha gzip dir es → grows es es' → same_plans es es' →
  store_ok sha gzip dir (es_archive es') → graph_ok sha (es_meta es') (es_nodes es') → engine_ok sha gzip dir es'.
Proof.
  intros [_ _ Hm Hv] Hg Hs Ha Hn. split; [done|done| |].
  - intros ns h w. rewrite (same_manifest _ _ _ _ Hs). intros [? ?]%Hm. split; [done|]. by eapply backed_mono.
  - intros ns w. rewrite (same_view _ _ _ Hs). intros (? & m & ? & ?)%Hv. split; [done|]. exists m. split; [by eapply backed_mono|done].
Qed.

Lemma empty_engine_ok sha gzip dir : engine_ok sha gzip dir empty_engine.
Proof.
  split; [split|apply empty_graph_ok|done|done].
  - by intros row ?%elem_of_nil.
  - by intros k ?%elem_of_nil.
Qed.

(** *** Effects *)

Section Effects.
Context (sha256Hex : jstr → jstr) (gzip : bytes → bytes) (dataDir : jstr).
Abbreviation run := (layered_effects sha256Hex gzip dataDir).
Abbreviation archived := (run_effects sha256Hex gzip dataDir).

Lemma layered_effects_app es a b :
  run es (a ++ b) = match run es a with (es', Ok _) => run es' b | (es', Throw x) => (es', Throw x) end.
Proof. revert es. induction a as [|e a IH]; intros es; [done|]. cbn [app layered_effects]. by destruct (layered_effect _ _ _ es e) as [es' [u|x]]. Qed.

Lemma set_archive_twice a b es : set_archive a (set_archive b es) = set_archive a es.
Proof. done. Qed.

Lemma archive_effects l es : run es (map LArchive l) = (set_archive (archived (es_archive es) l).1 es, (archived (es_archive es) l).2).
Proof.
  revert es. induction l as [|e l IH]; intros es; [by destruct es|]. cbn [map layered_effects layered_effect run_effects].
  destruct (run_effect _ _ _ _ e) as [a [u|x]]; [|done]. rewrite IH. cbn [set_archive es_archive]. by rewrite set_archive_twice.
Qed.

Lemma insert_metas_graph rows meta db : graph_ok sha256Hex meta db → graph_ok sha256Hex (foldl insertCasMeta meta rows) db.
Proof. revert meta. induction rows as [|r rows IH]; intros meta H; [done|]. cbn [foldl]. apply IH. by apply graph_ok_ledger. Qed.

Lemma insert_metas_plans rows meta :
  md_manifests (foldl insertCasMeta meta rows) = md_manifests meta ∧ md_views (foldl insertCasMeta meta rows) = md_views meta.
Proof. revert meta. induction rows as [|r rows IH]; intros meta; [done|]. cbn [foldl]. by rewrite !(proj1 (IH _)), !(proj2 (IH _)). Qed.

(** Archive effects keep plans, rows and graph. *)
Lemma archived_keeps l st db :
  let st' := (archived st l).1 in
  md_archive_refs (as_meta st) ⊆ md_archive_refs (as_meta st') ∧ md_manifests (as_meta st') = md_manifests (as_meta st)
  ∧ md_views (as_meta st') = md_views (as_meta st) ∧ (graph_ok sha256Hex (as_meta st) db → graph_ok sha256Hex (as_meta st') db).
Proof.
  cbv zeta. revert st. induction l as [|e l IH]; intros st; [done|]. cbn [run_effects].
  assert (let st1 := (run_effect sha256Hex gzip dataDir st e).1 in
    md_archive_refs (as_meta st) ⊆ md_archive_refs (as_meta st1) ∧ md_manifests (as_meta st1) = md_manifests (as_meta st)
    ∧ md_views (as_meta st1) = md_views (as_meta st) ∧ (graph_ok sha256Hex (as_meta st) db → graph_ok sha256Hex (as_meta st1) db)) as H1.
  { destruct e as [m hash uuid|rows|chunks history|history]; cbn [run_effect].
    - by destruct (writeMessageObject _ _ _ _ _ _ _) as [files r].
    - cbn [fst as_meta]. destruct (insert_metas_plans rows (as_meta st)) as [-> ->]. split_and!; [|done|done|apply insert_metas_graph].
      rewrite insertCasMeta_refs. intros x Hx. by apply refs_fold_kept.
    - done.
    - done. }
  destruct (run_effect sha256Hex gzip dataDir st e) as [st1 [u|x]]; cbn [fst] in H1; cbv zeta in H1; [|exact H1].
  destruct H1 as (A1 & A2 & A3 & A4), (IH st1) as (B1 & B2 & B3 & B4). split_and!; [by etrans|congruence|congruence|auto].
Qed.

Lemma archived_grows l es :
  let es' := set_archive (archived (es_archive es) l).1 es in grows es es' ∧ same_plans es es'.
Proof. destruct (archived_keeps l (es_archive es) empty_nodes) as (H1 & H2 & H3 & _). by split; split. Qed.

(** *** A transaction of nodes *)

Lemma saveNode_stored meta ns db n db' :
  graph_ok sha256Hex meta db → saveNode sha256Hex meta ns db n = Ok db' → stored_node db' ns n.
Proof.
  intros Hok. unfold saveNode. case_test; [done|]. intros (_ & _ & H)%rbind_ok. revert H. case_test; [done|]. case_test; [done|].
  intros (_ & _ & H)%rbind_ok. revert H. rewrite (readNode_get sha256Hex meta) by done. cbn [rbind]. unfold has, stored_node.
  destruct (get (ns, ln_nodeId n) (nd_nodes db)) as [m|] eqn:Eg.
  - destruct (jeqb _ _) eqn:Ej; [|done]. cbn [negb]. apply jeqb_eq in Ej. intros [= <-]. cbn [nd_nodes]. by exists m.
  - intros [= <-]. cbn [nd_nodes]. exists n. by rewrite get_snoc, Eg, bool_decide_true.
Qed.

Lemma stored_mono db db' ns n :
  (∀ k m, get k (nd_nodes db) = Some m → get k (nd_nodes db') = Some m) → stored_node db ns n → stored_node db' ns n.
Proof. intros H (m & Hm & Hs). exists m. auto. Qed.

Lemma save_all_stored meta ns nodes db db' :
  graph_ok sha256Hex meta db → save_all sha256Hex meta ns db nodes = Ok db' → Forall (stored_node db' ns) nodes.
Proof.
  revert db. induction nodes as [|n r IH]; intros db Hok; cbn [save_all]; [constructor|]. intros (db1 & H1 & H2)%rbind_ok.
  destruct (saveNode_ok _ _ _ _ _ _ Hok H1) as (Hok1 & _ & _). constructor; [|by eapply IH].
  apply (stored_mono db1); [by destruct (save_all_ok _ _ _ _ _ _ Hok1 H2) as (_ & ? & _)|]. by apply (saveNode_stored meta ns db n db1).
Qed.

Lemma nodes_effect es ns nodes :
  graph_ok sha256Hex (es_meta es) (es_nodes es) →
  let '(es', r) := layered_effect sha256Hex gzip dataDir es (LNodes ns nodes) in
  es_archive es' = es_archive es ∧ grows es es' ∧ same_plans es es' ∧ graph_ok sha256Hex (es_meta es') (es_nodes es')
  ∧ (is_ok r = true → Forall (stored_node (es_nodes es') ns) nodes).
Proof.
  intros Hok. unfold layered_effect, saveNodes. destruct (save_all _ _ _ _ _) as [db'|x] eqn:E; cbn [es_archive es_nodes].
  - destruct (save_all_ok _ _ _ _ _ _ Hok E) as (H1 & H2 & _). pose proof (save_all_stored _ _ _ _ _ Hok E) as H3.
    rewrite sort_by_perm in H3. by split_and!.
  - by split_and!.
Qed.

(** *** The archive of a plan *)

(** What the tables of an archived plan have. *)
Lemma persist_done st plan ns raw createdAt uuid st' u :
  plan_ok sha256Hex plan → fresh_names dataDir (as_files st) uuid → history_agrees (as_meta st) (insertCasMetaRows plan ns createdAt) →
  archived st (persist_effects (as_index st) plan ns raw createdAt uuid) = (st', Ok u) →
  Forall (λ m, ownsCasMeta (as_meta st') ns (contentDigest sha256Hex m) = true) (ap_messages plan)
  ∧ (ap_messages plan ≠ [] → hasHistoryMeta (as_meta st') ns (ap_historyHash plan) = true).
Proof.
  intros Hp Hf Ha. destruct (persist_effects_shape (as_index st) plan ns raw createdAt uuid) as (history & after & ->).
  rewrite run_effects_app, (object_effects_of sha256Hex) by done.
  pose proof (objects_run sha256Hex gzip dataDir (ap_messages plan) uuid 0 st (po_storable _ _ Hp) (plan_valid _ _ Hp) Hf) as Ho.
  destruct (archived st (objects_of sha256Hex (ap_messages plan) uuid 0)) as [st1 [u'|x]]; [|done]. destruct Ho as ([Hm _] & _ & _).
  unfold table_effects. cbn [app run_effects run_effect]. rewrite histories_run. intros [= <- <-]. cbn [as_meta]. rewrite Hm.
  set (rows := insertCasMetaRows plan ns createdAt) in *.
  assert (rows = imap (λ i m, mkMeta (contentDigest sha256Hex m) ns (m_role m) (turnIndexOf (ap_turns plan) (Z.of_nat i))
            (match ap_turns plan with t :: _ => t_startMsgIndex t | [] => 0 end + Z.of_nat i) (ap_historyHash plan) createdAt) (ap_messages plan)) as Hrows.
  { unfold rows, insertCasMetaRows. rewrite (zip_hashes sha256Hex) by done. apply list_eq. intros i.
    rewrite !list_lookup_imap, map_lookup. by destruct (ap_messages plan !! i). }
  split.
  - apply Forall_forall. intros m (i & Hi)%list_elem_of_lookup.
    assert (∃ row, row ∈ rows ∧ group_key row = (ns, ap_historyHash plan, contentDigest sha256Hex m)) as (row & Hrow & Hk).
    { eexists. rewrite Hrows. split; [eapply elem_of_lookup_imap_2; exact Hi|done]. }
    pose proof (meta_attributes (as_meta st) rows Ha (rows_nodup _ _ _) row Hrow) as Hin. rewrite Hk in Hin.
    apply list_elem_of_fmap in Hin as (x & Ex & Hx). injection Ex as E1 E2 E3. apply existsb_exists. exists x. rewrite <- list_elem_of_In.
    split; [done|]. by rewrite <- E1, <- E3, bool_decide_true, jeqb_refl.
  - intros Hne. apply history_recorded. fold rows. rewrite Hrows. by destruct (ap_messages plan).
Qed.

(** *** Publishing a plan *)

(** What a compression publishes: an archive, and a plan that speaks of it. *)
Record publishes (archive : ArchivePlan) (w : WirePlan) : Prop := {
  pb_archive : plan_ok sha256Hex archive;
  pb_some : ap_messages archive ≠ [];
  pb_compacted : hr_compacted (wp_result w) = true;
  pb_history : hr_historyHash (wp_result w) = Some (ap_historyHash archive);
  pb_named : ap_historyHash archive ≠ [];
  pb_digests : default [] (hr_sourceDigests (wp_result w)) ⊆ map (contentDigest sha256Hex) (ap_messages archive) }.

Lemma saveManifest_ok es ns w children es' :
  engine_ok sha256Hex gzip dataDir es → backed es ns w → saveManifest es ns w children = Ok es' →
  engine_ok sha256Hex gzip dataDir es' ∧ grows es es'
  ∧ ∃ h, hr_historyHash (wp_result w) = Some h ∧ getManifest es' ns h = Some w ∧ es_view_rest es' = es_view_rest es
    ∧ md_views (es_meta es') = md_views (es_meta es)
    ∧ ∀ ns' h', (ns', h') ≠ (ns, h) → getManifest es' ns' h' = getManifest es ns' h'.
Proof.
  intros Hok Hb. pose proof Hb as [Hc _ (h & Hh & Hne & _) _ _]. unfold saveManifest, Store.saveManifest. rewrite Hc, Hh.
  destruct (hr_sourceDigests (wp_result w)) as [ds|] eqn:Ed; [|done]. case_test; [done|]. case_test; [done|]. cbn [rbind]. intros [= <-].
  set (es' := mkEngineStore _ _ _ _).
  assert (grows es es') as Hg by (split; [done|auto]).
  assert (∀ ns' h', getManifest es' ns' h' = if bool_decide ((ns', h') = (ns, h)) then Some w else getManifest es ns' h') as Hget.
  { intros ns' h'. unfold getManifest, Store.getManifest. cbn [es_archive es' set_meta set_archive as_meta md_manifests es_manifest_rest default from_option id].
    case_bool_decide as Ek; [rewrite Ek, !get_set_eq; by destruct w|by rewrite !get_set_ne by done]. }
  assert (getManifest es' ns h = Some w) as Hw by (rewrite Hget; by rewrite bool_decide_true).
  split_and!; [|done|].
  - destruct Hok as [H1 H2 H3 H4]. split.
    + destruct H1 as [Hr Hi]. by split.
    + destruct H2 as [G1 G2 G3 G4 G5 G6]. by split.
    + intros ns' h' w'. rewrite Hget. case_bool_decide as Ek.
      * injection Ek as -> ->. intros [= <-]. split; [done|]. by eapply backed_mono.
      * intros [? ?]%H3. split; [done|]. by eapply backed_mono.
    + intros ns' w' Hv. destruct (H4 ns' w' Hv) as (? & m & ? & ?). split; [done|]. exists m. split; [by eapply backed_mono|done].
  - exists h. split_and!; [done|done|done|done|]. intros ns2 h2 Ek. by rewrite Hget, bool_decide_false.
Qed.

Lemma manifest_effect es ns w children :
  engine_ok sha256Hex gzip dataDir es → (headroomCompressResult_refine (wp_result w) = true → backed es ns w) →
  engine_ok sha256Hex gzip dataDir (layered_effect sha256Hex gzip dataDir es (LManifest ns w children)).1.
Proof.
  intros Hok Hb. cbn [layered_effect]. destruct (saveManifest es ns w children) as [es'|x] eqn:E; [|done].
  assert (headroomCompressResult_refine (wp_result w) = true) as Hv.
  { unfold saveManifest, Store.saveManifest in E. destruct (hr_compacted (wp_result w)), (hr_historyHash (wp_result w)), (hr_sourceDigests (wp_result w)); try done.
    case_test_in E; [done|]. case_test_in E; [done|]. by bool_prop. }
  by destruct (saveManifest_ok _ _ _ _ _ Hok (Hb Hv) E).
Qed.

(** After the archive and the nodes the plan is backed. *)
Lemma archived_step es ns archive raw createdAt uuid k :
  engine_ok sha256Hex gzip dataDir es → plan_ok sha256Hex archive → fresh_names dataDir (as_files (es_archive es)) uuid →
  history_agrees (es_meta es) (insertCasMetaRows archive ns createdAt) →
  let '(es', r) := run es (take k (map LArchive (persist_effects (as_index (es_archive es)) archive ns raw createdAt uuid))) in
  engine_ok sha256Hex gzip dataDir es' ∧ grows es es' ∧ same_plans es es'.
Proof.
  intros Hok Hp Hf Ha. rewrite firstn_map, archive_effects. set (l := take k _).
  destruct (archived_grows l es) as [Hg Hs]. split_and!; [|done|done].
  apply (engine_ok_grows _ _ _ es); [done|done|done| |].
  - cbn [set_archive es_archive]. apply persist_crash_safe; [apply Hok|done|done|done].
  - destruct (archived_keeps l (es_archive es) (es_nodes es)) as (_ & _ & _ & H). apply H. apply Hok.
Qed.

Lemma publish_backed es es' ns archive w :
  publishes archive w →
  Forall (λ m, ownsCasMeta (es_meta es) ns (contentDigest sha256Hex m) = true) (ap_messages archive) →
  hasHistoryMeta (es_meta es) ns (ap_historyHash archive) = true → grows es es' →
  Forall (stored_node (es_nodes es') ns) (plan_nodes w) → headroomCompressResult_refine (wp_result w) = true → backed es' ns w.
Proof.
  intros [H1 H2 H3 H5 H6 H7] Ho Hh Hg Hn Hv. split; [done|done| | |done].
  - exists (ap_historyHash archive). split_and!; [done|done|by eapply history_mono].
  - apply Forall_forall. intros d Hd. apply H7, list_elem_of_fmap in Hd as (m & -> & Hm). rewrite Forall_forall in Ho.
    eapply owns_mono; [exact Hg|by apply Ho].
Qed.

(** Publishing, cut off after any number of effects. *)
Lemma publish_prefix_ok es ns archive w raw createdAt uuid save k :
  engine_ok sha256Hex gzip dataDir es → publishes archive w → (save = false → plan_nodes w = []) →
  fresh_names dataDir (as_files (es_archive es)) uuid → history_agrees (es_meta es) (insertCasMetaRows archive ns createdAt) →
  engine_ok sha256Hex gzip dataDir (run es (take k (publish_effects (as_index (es_archive es)) ns archive w raw createdAt uuid save))).1.
Proof.
  intros Hok Hpb Hsave Hf Ha. unfold publish_effects. set (l := map LArchive _). rewrite take_app, layered_effects_app.
  pose proof (archived_step es ns archive raw createdAt uuid k Hok (pb_archive _ _ Hpb) Hf Ha) as H1. fold l in H1.
  destruct (run es (take k l)) as [es1 [u|x]] eqn:E1; [|apply H1]. destruct H1 as (Hok1 & _ & _).
  destruct (decide (k <= length l)%nat) as [Hk|Hk]; [by replace (k - length l)%nat with O by lia|].
  rewrite firstn_all2 in E1 by lia. unfold l in E1. rewrite archive_effects in E1. injection E1 as E1 Er.
  destruct (archived (es_archive es) _) as [st1 r1] eqn:E2. cbn [fst snd] in E1, Er. subst r1.
  destruct (persist_done _ _ _ _ _ _ _ _ (pb_archive _ _ Hpb) Hf Ha E2) as [Hown Hhist]. specialize (Hhist (pb_some _ _ Hpb)).
  assert (es_archive es1 = st1) as <- by (by rewrite <- E1).
  generalize (k - length l)%nat as j. intros j. destruct save; cbn [app].
  - destruct j as [|j]; [done|]. cbn [take layered_effects]. pose proof (nodes_effect es1 ns (plan_nodes w) (eo_graph _ _ _ _ Hok1)) as H2.
    destruct (layered_effect _ _ _ es1 (LNodes ns (plan_nodes w))) as [es2 r2]. destruct H2 as (A1 & A2 & A3 & A4 & A5).
    assert (engine_ok sha256Hex gzip dataDir es2) as Hok2.
    { apply (engine_ok_grows _ _ _ es1); [done|done|done|rewrite A1; apply Hok1|done]. }
    destruct r2 as [u2|x]; [|done]. destruct j as [|j]; [done|]. cbn [take layered_effects].
    assert (headroomCompressResult_refine (wp_result w) = true → backed es2 ns w) as Hb by (apply (publish_backed es1 es2 ns archive w); auto).
    pose proof (manifest_effect es2 ns w (archive_children (ap_messages archive)) Hok2 Hb) as H3.
    destruct (layered_effect _ _ _ es2 _) as [es3 [u3|x]]; [|exact H3]. rewrite take_nil. exact H3.
  - destruct j as [|j]; [done|]. cbn [take layered_effects].
    assert (headroomCompressResult_refine (wp_result w) = true → backed es1 ns w) as Hb.
    { apply (publish_backed es1 es1 ns archive w); [done|done|done|done|]. rewrite Hsave by done. constructor. }
    pose proof (manifest_effect es1 ns w (archive_children (ap_messages archive)) Hok1 Hb) as H3.
    destruct (layered_effect _ _ _ es1 _) as [es3 [u3|x]]; [|exact H3]. rewrite take_nil. exact H3.
Qed.
End Effects.

(** ** What a plan speaks of *)

Lemma storable_id m : storable m → units_ok (m_id m).
Proof.
  intros (_ & Hj & _). inversion Hj as [| | | | |l _ Hl]; subst. rewrite Forall_forall in Hl.
  destruct (Hl (js "info", JObj [(js "id", JStr (m_id m)); (js "role", JStr (role_text (m_role m)))])) as [_ Hi].
  { unfold json_of_message in *. set_solver. }
  cbn [snd] in Hi. inversion Hi as [| | | | |l' _ Hl']; subst. apply Forall_cons in Hl' as [[_ Hs] _]. by inversion Hs.
Qed.

Section Sources.
Context (sha256Hex : jstr → jstr) (counter : TokenCounter) (maxEntries maxBytes : Z) (toLowerCase : jstr → jstr) (letter_or_number : Z → bool).

(** The messages a compacted plan replaces, and their digests. *)
Record plan_sources (messages : list ChatMessage) (r : HeadroomCompressResult) : Prop := {
  ps_history : ∃ text, hr_historyHash r = Some (sha256Hex text);
  ps_distinct : NoDup (map m_id messages);
  ps_replaced : hr_replacedMessageIds r ≠ [];
  ps_known id : id ∈ hr_replacedMessageIds r → ∃ m, m ∈ messages ∧ m_id m = id;
  ps_digests d : d ∈ default [] (hr_sourceDigests r) →
    ∃ m, m ∈ messages ∧ m_id m ∈ hr_replacedMessageIds r ∧ d = contentDigest sha256Hex m }.

Lemma finish_sources messages o p :
  planned_for messages p → hr_compacted (lp_result (finish sha256Hex counter toLowerCase letter_or_number messages o p)) = true →
  plan_sources messages (lp_result (finish sha256Hex counter toLowerCase letter_or_number messages o p)).
Proof.
  intros [Hc Ha]. unfold finish. cbv zeta. cbn [lp_result hr_compacted]. set (ids := node_ids (pd_groups p)).
  set (vi := visible _ _ _ _ _ _). set (suffix := λ i, default [] (get i (vi_suffixes vi))).
  change (imap (λ i c, operation sha256Hex c (ids i) (default [] (get i (vi_suffixes vi)))) (pd_candidates p))
    with (operations_of sha256Hex (pd_candidates p) ids suffix).
  set (ops := operations_of _ _ _ _). set (snap := snapshot_of _ _). set (final := view_tokens _ _). intros E. rewrite E.
  apply andb_true_iff in E as [[E1 E2]%andb_true_iff _]. apply bool_decide_eq_true in E1. apply Z.ltb_lt in E2.
  assert (pd_candidates p ≠ []) as Hne by (intros En; unfold ops in E2; rewrite En in E2; cbn in E2; lia).
  assert (select_affected (pd_candidates p) (λ _ m, m_id m) messages ≠ []) as Hrep by (eapply replaced_nonempty; done).
  split; cbn [hr_historyHash hr_replacedMessageIds hr_sourceDigests default from_option id].
  - eexists. reflexivity.
  - by destruct (applied_ok sha256Hex messages (pd_candidates p) (sc_analyses (pd_scan p)) ids suffix Hc Hne E1).
  - done.
  - intros i (j & Hj)%list_elem_of_lookup. destruct (select_lookup _ _ _ _ _ Hj) as (k & m & Hm & _ & -> & _). exists m.
    split; [by eapply list_elem_of_lookup_2|done].
  - rewrite select_map. cbn [rf_contentHash]. intros d (j & Hj)%list_elem_of_lookup.
    assert (∃ i, select_affected (pd_candidates p) (λ _ m, m_id m) messages !! j = Some i) as [i Hi].
    { apply lookup_lt_is_Some_2. apply lookup_lt_Some in Hj. by erewrite select_length. }
    destruct (replaced_digests sha256Hex messages (pd_candidates p) (sc_analyses (pd_scan p)) ids suffix Hc Ha Hne E1 j i Hi) as (k & Hk & Hd).
    fold snap in Hk, Hd. rewrite Hj in Hd.
    assert (∃ m, messages !! k = Some m ∧ m_id m = i ∧ sn_sourceDigests snap !! k = Some (contentDigest sha256Hex m)) as (m & Hm & <- & Hdm).
    { unfold apply_or_keep in E1. fold ops snap in E1. destruct ops as [|op r]; [cbn in E2; lia|]. unfold materializeOperations in E1.
      destruct (materialize _ _ _ _) as [out|f] eqn:Em; [|by destruct f]. destruct (materialize_sound _ _ _ _ _ Em) as (snap' & [= <-] & _ & Hs & _).
      by apply Hs. }
    exists m. split_and!; [by eapply list_elem_of_lookup_2|by eapply list_elem_of_lookup_2|]. rewrite Hdm in Hd. by injection Hd.
Qed.

Lemma planned_sources messages o plan cache :
  buildLayeredPlan sha256Hex counter maxEntries maxBytes toLowerCase letter_or_number messages o = Ok (Some (plan, cache)) →
  hr_compacted (lp_result plan) = true → plan_sources messages (lp_result plan).
Proof.
  intros (p & Hp & ->)%buildLayeredPlan_ok.
  apply finish_sources. by eapply prepare_planned.
Qed.

(** What [compressLayered] publishes. *)
Lemma layered_publishes messages o plan cache h :
  (∀ x, test HASH_RE (sha256Hex x) = true) → Forall storable messages →
  buildLayeredPlan sha256Hex counter maxEntries maxBytes toLowerCase letter_or_number messages o = Ok (Some (plan, cache)) →
  hr_compacted (lp_result plan) = true → hr_historyHash (lp_result plan) = Some h →
  publishes sha256Hex (archive_of sha256Hex messages plan h) (wire_of_plan plan).
Proof.
  intros Hsha Hst Hb Hc Hh. destruct (planned_sources _ _ _ _ Hb Hc) as [(text & Ht) _ Hne Hknown Hd].
  assert (∀ m, m ∈ messages → m_id m ∈ hr_replacedMessageIds (lp_result plan) → m ∈ ap_messages (archive_of sha256Hex messages plan h)) as Hkept.
  { intros m Hm Hid. cbn [archive_of ap_messages]. apply list_elem_of_In, filter_In. rewrite <- list_elem_of_In. split; [done|].
    apply bool_decide_eq_true. apply elem_of_app. by left. }
  split; cbn [wire_of_plan wp_result archive_of ap_historyHash].
  - split; cbn [archive_of ap_hashes ap_messages]; [done| |].
    + apply Forall_forall. intros m Hm. rewrite list_elem_of_In in Hm. apply filter_In in Hm as [Hm _]. rewrite <- list_elem_of_In in Hm.
      rewrite Forall_forall in Hst. by apply Hst.
    + apply Forall_map, Forall_forall. intros m _. apply Hsha.
  - destruct (hr_replacedMessageIds (lp_result plan)) as [|id ids] eqn:Er; [done|]. destruct (Hknown id) as (m & Hm & Hid); [by left|].
    intros E. specialize (Hkept m Hm). rewrite E, Hid in Hkept.
    assert (m ∈ ([] : list ChatMessage)) as Hin by (apply Hkept; by left). by apply elem_of_nil in Hin.
  - done.
  - done.
  - intros ->. rewrite Ht in Hh. injection Hh as Hh. specialize (Hsha text). rewrite Hh in Hsha. by vm_compute in Hsha.
  - intros d Hin. destruct (Hd d Hin) as (m & Hm & Hid & ->). apply list_elem_of_fmap_2. by apply Hkept.
Qed.
End Sources.

(** ** The daemon's store over time *)

Section Daemon.
Context (sha256Hex : jstr → jstr) (gzip : bytes → bytes) (dataDir : jstr).
Context (counter : TokenCounter) (maxEntries maxBytes : Z) (toLowerCase : jstr → jstr) (letter_or_number : Z → bool).
Abbreviation plans := (layered_plan sha256Hex counter maxEntries maxBytes toLowerCase letter_or_number).

(** What is assumed of the surroundings of a publication: temporary names no file has,
    and no earlier archive that the same history hash attributes to other messages. *)
Definition clear_way (es : EngineStore) (ns : Namespace) (archive : ArchivePlan) (createdAt : Z) (uuid : nat → jstr) : Prop :=
  fresh_names dataDir (as_files (es_archive es)) uuid ∧ history_agrees (es_meta es) (insertCasMetaRows archive ns createdAt).

(** A compression by either strategy, cut off by a crash or an error after [k] effects or
    run to its end, and the requests on views. *)
Inductive engine_step (es : EngineStore) : EngineStore → Prop :=
| step_layered params cache plan h createdAt uuid k :
    plans es params cache = Some (Ok plan) → hr_compacted (lp_result plan) = true → hr_historyHash (lp_result plan) = Some h →
    Forall storable (yp_messages params) → clear_way es (yp_ns params) (archive_of sha256Hex (yp_messages params) plan h) createdAt uuid →
    engine_step es (layered_effects sha256Hex gzip dataDir es
      (take k (plan_effects es params plan (archive_of sha256Hex (yp_messages params) plan h) createdAt uuid))).1
| step_legacy params r plan createdAt uuid k :
    compress_plan sha256Hex params = (r, Some plan) → Forall storable (cp_messages params) →
    clear_way es (cp_ns params) plan createdAt uuid →
    engine_step es (layered_effects sha256Hex gzip dataDir es
      (take k (publish_effects (as_index (es_archive es)) (cp_ns params) plan (mkWire r no_rest) (hr_rawTokens r) createdAt uuid false))).1
| step_set_view ns w es' : setView es ns w = Ok es' → engine_step es es'
| step_clear_view ns : engine_step es (clearView es ns).

Lemma layered_plan_inv es params cache plan :
  plans es params cache = Some (Ok plan) →
  ∃ nodes cache', loaded_nodes sha256Hex es params = Some (Ok nodes)
    ∧ buildLayeredPlan sha256Hex counter maxEntries maxBytes toLowerCase letter_or_number (yp_messages params) (layered_options params cache nodes)
      = Ok (Some (plan, cache')).
Proof.
  unfold layered_plan. destruct (loaded_nodes _ _ _) as [[nodes|e]|] eqn:En; [|done|done]. cbn [mbind option_bind].
  destruct (buildLayeredPlan _ _ _ _ _ _ _ _) as [[[p c]|]|e] eqn:Eb; [|done|done]. cbn [mbind option_bind fst]. intros [= <-]. by exists nodes, c.
Qed.

(** *** Views *)

Lemma setView_spec es ns w :
  match setView es ns w with
  | Ok es' => headroomCompressResult_refine (wp_result w) = true
      ∧ (∃ h m, hr_historyHash (wp_result w) = Some h ∧ getManifest es ns h = Some m ∧ comparable m = comparable w)
      ∧ getView es' ns = Some w ∧ (∀ ns', ns' ≠ ns → getView es' ns' = getView es ns')
      ∧ (∀ ns' h, getManifest es' ns' h = getManifest es ns' h)
      ∧ as_files (es_archive es') = as_files (es_archive es) ∧ as_index (es_archive es') = as_index (es_archive es)
      ∧ md_archive_refs (es_meta es') = md_archive_refs (es_meta es) ∧ es_nodes es' = es_nodes es
  | Throw _ => True
  end.
Proof.
  unfold setView. destruct (hr_historyHash (wp_result w)) as [h|] eqn:Eh; [|done]. case_bool_decide; [done|].
  destruct (getManifest es ns h) as [m|] eqn:Em; [|done]. destruct (headroomCompressResult_refine _); [|done]. cbn [negb orb].
  destruct (negb (telemetry_ok w)); [done|]. destruct (jeqb (comparable m) (comparable w)) eqn:Ec; [|done]. apply jeqb_eq in Ec. cbn [negb]. split_and!; try done.
  - by exists h, m.
  - unfold getView, Store.getView. cbn [es_archive set_meta set_archive as_meta md_views es_view_rest mbind option_bind].
    rewrite !get_set_eq. cbn [mbind option_bind default from_option id]. by destruct w.
  - intros ns' Hne. unfold getView, Store.getView. cbn [es_archive set_meta set_archive as_meta md_views es_view_rest]. by rewrite !get_set_ne.
Qed.

Lemma clearView_get es ns ns' : getView (clearView es ns) ns' = if bool_decide (ns' = ns) then None else getView es ns'.
Proof.
  unfold getView, Store.getView, clearView, Store.clearView. cbn [es_archive set_meta set_archive as_meta md_views es_view_rest].
  case_bool_decide as Ek; [subst; by rewrite !get_delete_eq|by rewrite !get_delete_ne].
Qed.

(** *** The invariant *)

Context (Hsha : ∀ x, test HASH_RE (sha256Hex x) = true).

Lemma legacy_publishes params r plan :
  compress_plan sha256Hex params = (r, Some plan) → Forall storable (cp_messages params) →
  publishes sha256Hex plan (mkWire r no_rest).
Proof.
  intros Hc Hst. destruct (chosen_plan_ok sha256Hex params r plan Hsha Hst Hc) as (Hp & Hne & _).
  pose proof (compress_plan_cases sha256Hex params) as Hcase. rewrite Hc in Hcase. inversion Hcase as [|r' k Hk _ _ Hcomp _]; subst.
  set (plan := chosen_plan sha256Hex params) in *.
  assert (hr_historyHash r = Some (ap_historyHash plan) ∧ hr_sourceDigests r = Some (ap_hashes plan)) as [Hh Hd].
  { clear -Hc. unfold compress_plan in Hc. case_test_in Hc; [done|]. cbv zeta in Hc. fold plan in Hc. case_test_in Hc; [done|]. by injection Hc as <-. }
  split; cbn [wp_result]; try done.
  - intros E. unfold plan in E. rewrite (pp_plan _ _ _ Hk) in E. cbn [planArchive ap_historyHash] in E. unfold historyHash in E.
    match type of E with sha256Hex ?t = [] => specialize (Hsha t) end. rewrite E in Hsha. by vm_compute in Hsha.
  - rewrite Hd, (po_hashes _ _ Hp). done.
Qed.

Lemma rows_ok es es' :
  engine_ok sha256Hex gzip dataDir es → as_files (es_archive es') = as_files (es_archive es) → as_index (es_archive es') = as_index (es_archive es) →
  md_archive_refs (es_meta es') = md_archive_refs (es_meta es) → es_nodes es' = es_nodes es →
  store_ok sha256Hex gzip dataDir (es_archive es') ∧ graph_ok sha256Hex (es_meta es') (es_nodes es') ∧ grows es es'.
Proof.
  intros [[Hr Hi] [G1 G2 G3 G4 G5 G6] _ _] Ef Ei Er En. split_and!.
  - split; rewrite ?Ef, ?Ei, Er; done.
  - rewrite En. assert (∀ ns h, ownsCasMeta (es_meta es') ns h = ownsCasMeta (es_meta es) ns h) as Ho by (intros ns h; unfold ownsCasMeta; by rewrite Er).
    split; try done; intros; rewrite Ho; eauto.
  - split; [by rewrite Er|by rewrite En].
Qed.

Lemma setView_ok es ns w es' : engine_ok sha256Hex gzip dataDir es → setView es ns w = Ok es' → engine_ok sha256Hex gzip dataDir es'.
Proof.
  intros Hok Hs. pose proof (setView_spec es ns w) as H. rewrite Hs in H. destruct H as (Hv & (h & m & Hh & Hm & Hc) & Hw & Hother & Hman & Ef & Ei & Er & En).
  destruct (rows_ok es es' Hok Ef Ei Er En) as (H1 & H2 & H3). split; [done|done| |].
  - intros ns' h' w'. rewrite Hman. intros [? ?]%(eo_manifests _ _ _ _ Hok). split; [done|]. by eapply backed_mono.
  - intros ns' w' Hget. destruct (decide (ns' = ns)) as [->|Hne].
    + rewrite Hw in Hget. injection Hget as <-. split; [done|]. exists m. destruct (eo_manifests _ _ _ _ Hok _ _ _ Hm) as [Hmh Hb].
      split_and!; [by eapply backed_mono|done|congruence].
    + rewrite Hother in Hget by done. destruct (eo_views _ _ _ _ Hok _ _ Hget) as (? & m' & ? & ?). split; [done|]. exists m'.
      split; [by eapply backed_mono|done].
Qed.

Lemma clearView_ok es ns : engine_ok sha256Hex gzip dataDir es → engine_ok sha256Hex gzip dataDir (clearView es ns).
Proof.
  intros Hok. destruct (rows_ok es (clearView es ns) Hok) as (H1 & H2 & H3); [done..|]. split; [done|done| |].
  - intros ns' h' w' [? ?]%(eo_manifests _ _ _ _ Hok). split; [done|]. by eapply backed_mono.
  - intros ns' w'. rewrite clearView_get. case_bool_decide; [done|]. intros (? & m & ? & ?)%(eo_views _ _ _ _ Hok). split; [done|].
    exists m. split; [by eapply backed_mono|done].
Qed.

Lemma layered_step_publishes es params cache plan h :
  plans es params cache = Some (Ok plan) → hr_compacted (lp_result plan) = true → hr_historyHash (lp_result plan) = Some h →
  Forall storable (yp_messages params) → publishes sha256Hex (archive_of sha256Hex (yp_messages params) plan h) (wire_of_plan plan).
Proof. intros (nodes & c & _ & Hb)%layered_plan_inv Hc Hh Hst. by eapply layered_publishes. Qed.

Lemma engine_step_ok es es' : engine_ok sha256Hex gzip dataDir es → engine_step es es' → engine_ok sha256Hex gzip dataDir es'.
Proof.
  intros Hok Hs. destruct Hs as [params cache plan h createdAt uuid k Hp Hc Hh Hst [Hf Ha]|params r plan createdAt uuid k Hc Hst [Hf Ha]|ns w es' Hs|ns].
  - apply publish_prefix_ok; [done|by eapply layered_step_publishes|done|done|done].
  - apply publish_prefix_ok; [done|by eapply legacy_publishes|done|done|done].
  - by eapply setView_ok.
  - by apply clearView_ok.
Qed.

Lemma engine_reachable es es' : rtc engine_step es es' → engine_ok sha256Hex gzip dataDir es → engine_ok sha256Hex gzip dataDir es'.
Proof. induction 1; [done|]. intros. eauto using engine_step_ok. Qed.

(** *** What a publication leaves alone *)

(** A preorder that every effect respects relates the ends of a run. *)
Lemma effects_relate (R : EngineStore → EngineStore → Prop) `{!PreOrder R} l :
  (∀ es e, e ∈ l → R es (layered_effect sha256Hex gzip dataDir es e).1) → ∀ es, R es (layered_effects sha256Hex gzip dataDir es l).1.
Proof.
  induction l as [|e l IH]; intros H es; cbn [layered_effects]; [done|].
  pose proof (H es e ltac:(by left)) as He. destruct (layered_effect _ _ _ es e) as [es1 [u|x]]; [|done].
  etrans; [exact He|]. apply IH. intros es2 e2 ?. apply H. by right.
Qed.

(** An effect moves no view, and manifests only in its own namespace. *)
Lemma effect_keeps es e :
  let es' := (layered_effect sha256Hex gzip dataDir es e).1 in
  (∀ ns, getView es' ns = getView es ns)
  ∧ ∀ ns h, match e with LManifest ns' _ _ => ns' ≠ ns | _ => True end → getManifest es' ns h = getManifest es ns h.
Proof.
  destruct e as [e|ns0 nodes|ns0 w children]; cbn [layered_effect].
  - pose proof (archived_grows sha256Hex gzip dataDir [e] es) as [_ Hs]. cbn [run_effects] in Hs.
    destruct (run_effect _ _ _ _ e) as [a r]; cbn [fst] in Hs |- *. assert (same_plans es (set_archive a es)) as Hs' by (by destruct r).
    split; [intros ns; by apply same_view|intros ns h _; by apply same_manifest].
  - by destruct (saveNodes _ _ _ _ _) as [db r].
  - destruct (saveManifest es ns0 w children) as [es1|x] eqn:E; [|done]. cbn [fst].
    unfold saveManifest, Store.saveManifest in E. destruct (hr_compacted (wp_result w)), (hr_historyHash (wp_result w)) as [h0|], (hr_sourceDigests (wp_result w)); try done.
    case_test_in E; [done|]. case_test_in E; [done|]. cbn [rbind default from_option id] in E. injection E as <-. split; [done|].
    intros ns h Hne. unfold getManifest, Store.getManifest. cbn [es_archive set_meta set_archive as_meta md_manifests es_manifest_rest].
    by rewrite !get_set_ne by congruence.
Qed.

Definition views_kept (es es' : EngineStore) : Prop := ∀ ns, getView es' ns = getView es ns.
Definition manifests_kept (ns : Namespace) (es es' : EngineStore) : Prop := ∀ h, getManifest es' ns h = getManifest es ns h.
#[local] Instance views_kept_preorder : PreOrder views_kept.
Proof. split; [done|]. intros x y z H1 H2 ns. by rewrite H2. Qed.
#[local] Instance manifests_kept_preorder ns : PreOrder (manifests_kept ns).
Proof. split; [done|]. intros x y z H1 H2 h. by rewrite H2. Qed.

Lemma effects_keep_views es l : views_kept es (layered_effects sha256Hex gzip dataDir es l).1.
Proof. apply effects_relate; [apply _|]. intros es' e _. by destruct (effect_keeps es' e). Qed.

Lemma publish_keeps_manifests es index ns archive w raw createdAt uuid save k ns' :
  ns ≠ ns' → manifests_kept ns' es (layered_effects sha256Hex gzip dataDir es (take k (publish_effects index ns archive w raw createdAt uuid save))).1.
Proof.
  intros Hne. apply effects_relate; [apply _|]. intros es' e Hin h. destruct (effect_keeps es' e) as [_ H]. apply H. clear H. apply subseteq_take in Hin.
  unfold publish_effects in Hin. destruct e as [e|ns0 nodes|ns0 w0 children]; [done|done|].
  apply elem_of_app in Hin as [(x & [=] & _)%list_elem_of_fmap|Hin]. destruct save; set_solver.
Qed.

(** The ledger and the graph only grow. *)
Definition growing (es es' : EngineStore) : Prop :=
  graph_ok sha256Hex (es_meta es) (es_nodes es) → grows es es' ∧ graph_ok sha256Hex (es_meta es') (es_nodes es').
#[local] Instance growing_preorder : PreOrder growing.
Proof. split; [done|]. intros x y z H1 H2 Hx. destruct (H1 Hx) as [A1 Hy], (H2 Hy) as [A2 Hz]. split; [by etrans|done]. Qed.

Lemma effect_grows es e : growing es (layered_effect sha256Hex gzip dataDir es e).1.
Proof.
  intros Hok. destruct e as [e|ns nodes|ns w children].
  - pose proof (archived_grows sha256Hex gzip dataDir [e] es) as [Hg _].
    destruct (archived_keeps sha256Hex gzip dataDir [e] (es_archive es) (es_nodes es)) as (_ & _ & _ & Hn). cbn [run_effects] in Hg, Hn.
    cbn [layered_effect]. destruct (run_effect _ _ _ _ e) as [a [u|x]]; (split; [exact Hg|by apply Hn]).
  - pose proof (nodes_effect sha256Hex gzip dataDir es ns nodes Hok) as H. destruct (layered_effect _ _ _ es _) as [es' r].
    by destruct H as (_ & Hg & _ & Hn & _).
  - cbn [layered_effect]. destruct (saveManifest es ns w children) as [es1|x] eqn:E; [|done]. cbn [fst].
    unfold saveManifest, Store.saveManifest in E. destruct (hr_compacted (wp_result w)), (hr_historyHash (wp_result w)) as [h0|], (hr_sourceDigests (wp_result w)); try done.
    case_test_in E; [done|]. case_test_in E; [done|]. cbn [rbind] in E. injection E as <-. split; [by split|]. destruct Hok as [G1 G2 G3 G4 G5 G6]. by split.
Qed.

Lemma engine_step_grows es es' : engine_ok sha256Hex gzip dataDir es → engine_step es es' → grows es es'.
Proof.
  intros Hok Hs. assert (∀ l, grows es (layered_effects sha256Hex gzip dataDir es l).1) as Hl.
  { intros l. apply (effects_relate growing); [intros es1 e _; apply effect_grows|apply Hok]. }
  destruct Hs as [params cache plan h createdAt uuid k|params r plan createdAt uuid k|ns w es' Hs|ns]; [apply Hl|apply Hl| |].
  - pose proof (setView_spec es ns w) as H. rewrite Hs in H. destruct H as (_ & _ & _ & _ & _ & Ef & Ei & Er & En). by apply rows_ok.
  - by apply rows_ok.
Qed.
End Daemon.

(** ** A compression that succeeds *)

Lemma persist_succeeds sha256Hex gzip dataDir st plan ns raw createdAt uuid :
  plan_ok sha256Hex plan → fresh_names dataDir (as_files st) uuid → objects_agree sha256Hex gzip dataDir (as_files st) (ap_messages plan) →
  ∃ st', run_effects sha256Hex gzip dataDir st (persist_effects (as_index st) plan ns raw createdAt uuid) = (st', Ok tt)
    ∧ Forall (λ m, object_holds sha256Hex gzip dataDir (as_files st') (contentDigest sha256Hex m) m) (ap_messages plan).
Proof.
  intros Hp Hf Ha. destruct (persist_effects_shape (as_index st) plan ns raw createdAt uuid) as (history & after & ->).
  rewrite run_effects_app, (object_effects_of sha256Hex) by done.
  pose proof (objects_run sha256Hex gzip dataDir (ap_messages plan) uuid 0 st (po_storable _ _ Hp) (plan_valid _ _ Hp) Hf) as Ho.
  pose proof (objects_run_agree sha256Hex gzip dataDir (ap_messages plan) uuid 0 st (po_storable _ _ Hp) (plan_valid _ _ Hp) Hf Ha) as Hok.
  destruct (run_effects _ _ _ st (objects_of sha256Hex (ap_messages plan) uuid 0)) as [st1 [u|x]]; [|done]. destruct Ho as (_ & _ & Hh).
  unfold table_effects. cbn [app run_effects run_effect]. rewrite histories_run. eexists. split; [done|]. by apply Hh.
Qed.

Lemma saveManifest_succeeds es ns w children h :
  hr_compacted (wp_result w) = true → hr_historyHash (wp_result w) = Some h → h ≠ [] → is_Some (hr_sourceDigests (wp_result w)) →
  headroomCompressResult_refine (wp_result w) = true → ∃ es', saveManifest es ns w children = Ok es'.
Proof.
  intros Hc Hh Hne [ds Hd] Hv. unfold saveManifest, Store.saveManifest. rewrite Hc, Hh, Hd, Hv. cbn [negb].
  assert ((zlen h =? 0) = false) as -> by (apply Z.eqb_neq; destruct h; [done|cbn [length]; lia]). cbn [rbind]. by eexists.
Qed.

(** The answer, whatever valid telemetry the engine adds to it, can be made the view. *)
Lemma answer_becomes_view es ns w metrics jobId reason :
  headroomCompressResult_refine (wp_result w) = true → (∀ m, metrics = Some m → metrics_ok m = true) →
  (∃ h, hr_historyHash (wp_result w) = Some h ∧ h ≠ [] ∧ getManifest es ns h = Some w) →
  ∃ es', setView es ns (with_telemetry w metrics jobId reason) = Ok es' ∧ getView es' ns = Some (with_telemetry w metrics jobId reason).
Proof.
  intros Hv Hok (h & Hh & Hne & Hm). pose proof (setView_spec es ns (with_telemetry w metrics jobId reason)) as H.
  destruct (setView es ns (with_telemetry w metrics jobId reason)) as [es'|x] eqn:E; [exists es'; by destruct H as (_ & _ & ? & _)|].
  exfalso. revert E. unfold setView. cbn [with_telemetry wp_result]. rewrite Hh, bool_decide_false by done. rewrite Hm, Hv.
  assert (telemetry_ok (with_telemetry w metrics jobId reason) = true) as Ht by (unfold telemetry_ok; cbn [with_telemetry wp_rest pr_metrics]; destruct metrics; [by apply Hok|done]).
  rewrite Ht. cbn [negb orb].
  change (comparable (mkWire (wp_result w) _)) with (comparable w). by rewrite jeqb_refl.
Qed.

(** The counters of a plan satisfy the schema. *)
Lemma by_key_length cs : zlen (by_key cs) <= zlen cs.
Proof.
  unfold by_key. assert (∀ l acc, zlen (foldl by_key_step acc l) <= zlen acc + zlen l) as H.
  { induction l as [|ic l IH]; intros acc; cbn [foldl length]; [lia|]. specialize (IH (by_key_step acc ic)).
    assert (zlen (by_key_step acc ic) <= zlen acc + 1) by (unfold by_key_step; rewrite size_set; destruct (has _ _); lia). lia. }
  specialize (H (imap pair cs) []). rewrite length_imap in H. cbn in H. lia.
Qed.
Lemma scan_counts sha256Hex counter maxEntries maxBytes ns cache messages :
  let st := scan sha256Hex counter maxEntries maxBytes ns cache messages in 0 <= sc_hits st ∧ 0 <= sc_analyzed st.
Proof.
  cbv zeta. unfold scan. assert (∀ l st, 0 <= sc_hits st ∧ 0 <= sc_analyzed st →
    let st' := foldl (scan_step sha256Hex counter maxEntries maxBytes ns) st l in 0 <= sc_hits st' ∧ 0 <= sc_analyzed st') as H; [|apply H; cbn; lia].
  induction l as [|[i m] l IH]; intros st Hst; [done|]. cbn [foldl]. apply IH. unfold scan_step.
  destruct (analyze_cached _ _ _ _ _ _ _) as [[c a] hit]. destruct (foldl protect_step _ _) as [pm pk]. cbn [sc_hits sc_analyzed]. destruct hit; lia.
Qed.
Lemma plan_counters_ok sha256Hex counter maxEntries maxBytes toLowerCase letter_or_number messages o plan cache :
  buildLayeredPlan sha256Hex counter maxEntries maxBytes toLowerCase letter_or_number messages o = Ok (Some (plan, cache)) →
  counters_ok (lp_metrics plan) = true.
Proof.
  intros (p & Hp & ->)%buildLayeredPlan_ok. unfold prepare in Hp. apply rbind_ok in Hp as (_ & _ & Hp). cbv zeta in Hp.
  apply rbind_ok in Hp as (pieces & _ & Hp). injection Hp as Hp. destruct (restore_all _ _ _ _ _) as [rs|]; cbn [mbind option_bind] in Hp; [|done].
  destruct (if _ : bool then _ else _) as [parents|] in Hp; cbn [mbind option_bind] in Hp; [|done].
  assert (0 <= sc_hits (pd_scan p) ∧ 0 <= sc_analyzed (pd_scan p)) as [H1 H2] by (injection Hp as <-; apply scan_counts).
  unfold counters_ok, finish. cbv zeta. cbn [lp_metrics lm_scannedMessages lm_analyzedMessages lm_analysisCacheHits lm_candidateCount lm_selectedMemoryBlocks
    lm_deduplicatedObservations lm_operationCount lm_leafNodes lm_parentNodes forallb]. unfold duplicates. pose proof (by_key_length (pd_candidates p)) as H3.
  rewrite !andb_true_iff, !Z.leb_le. split_and!; try lia; try done. destruct (_ && _ && _); [lia|done].
Qed.

Section Lands.
Context (sha256Hex : jstr → jstr) (gzip : bytes → bytes) (dataDir : jstr).
Context (counter : TokenCounter) (maxEntries maxBytes : Z) (toLowerCase : jstr → jstr) (letter_or_number : Z → bool).
Context (assert_plan : ArchivePlan → list InsertChunkInput → bool) (assert_result : WirePlan → bool).

(** What is assumed of a request beyond its schema: digests that bind, a cache that holds
    what it was given, identities that name one node, natural numbers that are safe, and
    no other message's object under a digest. *)
Record request_ok (es : EngineStore) (params : LayeredParams) (cache : option (LayeredCache Analysis)) (nodes : list LayeredNode) (plan : LayeredPlan)
    (archive : ArchivePlan) : Prop := {
  rq_messages : Forall storable (yp_messages params);
  rq_binds : digests_bind sha256Hex counter (canonicalJSON (json_of_namespace (yp_ns params))) (yp_messages params);
  rq_cache : coherent sha256Hex counter (canonicalJSON (json_of_namespace (yp_ns params))) (yp_messages params) cache;
  rq_identities : identities (yp_ns params) (es_nodes es)
    (made_nodes sha256Hex counter maxEntries maxBytes (yp_messages params) (layered_options params cache nodes));
  rq_numbers : Forall (λ n, node_numbers n = true) (lp_nodes plan);
  rq_objects : objects_agree sha256Hex gzip dataDir (as_files (es_archive es)) (ap_messages archive) }.

Lemma storable_schema m : storable m → chatMessage_ok m = true.
Proof. by intros (? & _). Qed.

(** The nodes loaded for a request are nodes of the store. *)
Lemma loaded_given es params nodes cache :
  graph_ok sha256Hex (es_meta es) (es_nodes es) → loaded_nodes sha256Hex es params = Some (Ok nodes) →
  given_nodes (es_nodes es) (layered_options params cache nodes).
Proof.
  intros Hok. unfold loaded_nodes.
  destruct (nodesForView_reachable sha256Hex (es_meta es) (es_nodes es) (yp_ns params) (visibleNodeIds (yp_messages params))
    (view_fuel (es_nodes es) (yp_ns params) (visibleNodeIds (yp_messages params))) Hok) as (res & -> & Hres); [unfold view_fuel; lia|].
  intros [= ->] n Hn. cbn [layered_options lo_nodes lo_namespace] in *. apply Hres in Hn as (i & _ & Hi).
  by destruct (go_node _ _ _ Hok _ _ _ Hi) as (_ & _ & -> & _).
Qed.

Lemma publish_succeeds es params cache nodes plan h createdAt uuid c :
  (∀ x, test HASH_RE (sha256Hex x) = true) → engine_ok sha256Hex gzip dataDir es →
  loaded_nodes sha256Hex es params = Some (Ok nodes) →
  buildLayeredPlan sha256Hex counter maxEntries maxBytes toLowerCase letter_or_number (yp_messages params) (layered_options params cache nodes) = Ok (Some (plan, c)) →
  hr_compacted (lp_result plan) = true → hr_historyHash (lp_result plan) = Some h →
  let archive := archive_of sha256Hex (yp_messages params) plan h in
  request_ok es params cache nodes plan archive → clear_way dataDir es (yp_ns params) archive createdAt uuid →
  ∃ es', layered_effects sha256Hex gzip dataDir es (plan_effects es params plan archive createdAt uuid) = (es', Ok tt)
    ∧ engine_ok sha256Hex gzip dataDir es' ∧ backed es' (yp_ns params) (wire_of_plan plan) ∧ getManifest es' (yp_ns params) h = Some (wire_of_plan plan)
    ∧ Forall (λ m, object_holds sha256Hex gzip dataDir (as_files (es_archive es')) (contentDigest sha256Hex m) m) (ap_messages archive).
Proof.
  intros Hsha Hok Hload Hb Hc Hh archive [Q1 Q2 Q3 Q4 Q5 Q6] [Hf Ha].
  pose proof (layered_publishes _ _ _ _ _ _ _ _ _ _ _ Hsha Q1 Hb Hc Hh) as Hpb. fold archive in Hpb.
  destruct (planned_sources _ _ _ _ _ _ _ _ _ _ Hb Hc) as [_ Hnd _ _ _].
  assert (headroomCompressResult_refine (lp_result plan) = true) as Hv.
  { eapply layered_plan_valid; [|exact Hb]. eapply Forall_impl; [exact Q1|apply storable_id]. }
  unfold plan_effects, publish_effects. cbn [app].
  destruct (persist_succeeds sha256Hex gzip dataDir (es_archive es) archive (yp_ns params) (hr_rawTokens (lp_result plan)) createdAt uuid (pb_archive _ _ _ Hpb) Hf Q6)
    as (st1 & E1 & Hobj).
  destruct (persist_done _ _ _ _ _ _ _ _ _ _ _ (pb_archive _ _ _ Hpb) Hf Ha E1) as [Hown Hhist]. specialize (Hhist (pb_some _ _ _ Hpb)).
  pose proof (archived_step sha256Hex gzip dataDir es (yp_ns params) archive (hr_rawTokens (lp_result plan)) createdAt uuid
    (length (persist_effects (as_index (es_archive es)) archive (yp_ns params) (hr_rawTokens (lp_result plan)) createdAt uuid)) Hok (pb_archive _ _ _ Hpb) Hf Ha) as H1.
  rewrite firstn_all2 in H1 by (by rewrite length_map). rewrite layered_effects_app, archive_effects. rewrite archive_effects in H1.
  rewrite E1 in H1 |- *. cbn [fst snd] in H1 |- *. set (es1 := set_archive st1 es) in *. destruct H1 as (Hok1 & Hg1 & _).
  assert (∃ db', saveNodes sha256Hex (es_meta es1) (yp_ns params) (es_nodes es1) (lp_nodes plan) = (db', Ok tt)) as [db' E2].
  { eapply (plan_nodes_save sha256Hex counter maxEntries maxBytes toLowerCase letter_or_number Hsha (yp_messages params) (layered_options params cache nodes) Q2 Q3);
      [|apply Hok1|exact (loaded_given es params nodes cache (eo_graph _ _ _ _ Hok) Hload)|exact Hnd|exact Hb|exact Q5|exact Q4|].
    - eapply Forall_impl; [exact Q1|apply storable_schema].
    - intros n r Hn Hr. destruct (plan_refs sha256Hex counter maxEntries maxBytes toLowerCase letter_or_number Hsha (yp_messages params) (layered_options params cache nodes) Q2 Q3 plan c n r Hb Hn Hr) as (m & Hm & Hid & ->).
      rewrite Forall_forall in Hown. apply Hown. cbn [archive archive_of ap_messages]. apply list_elem_of_In, filter_In. rewrite <- list_elem_of_In.
      split; [done|]. apply bool_decide_eq_true. unfold wanted_ids. apply elem_of_app. right. rewrite Hid. apply list_elem_of_In, in_flat_map. exists n.
      rewrite <- !list_elem_of_In. split; [done|]. by apply list_elem_of_fmap_2. }
  cbn [layered_effects]. pose proof (nodes_effect sha256Hex gzip dataDir es1 (yp_ns params) (lp_nodes plan) (eo_graph _ _ _ _ Hok1)) as H2.
  cbn [layered_effect plan_nodes wire_of_plan wp_rest pr_nodes default from_option id] in H2 |- *. rewrite E2 in H2 |- *.
  set (es2 := mkEngineStore (es_archive es1) db' (es_manifest_rest es1) (es_view_rest es1)) in *. destruct H2 as (A1 & A2 & A3 & A4 & A5).
  assert (backed es2 (yp_ns params) (wire_of_plan plan)) as Hb2 by (apply (publish_backed sha256Hex es1 es2 _ archive); auto).
  assert (engine_ok sha256Hex gzip dataDir es2) as Hok2 by (apply (engine_ok_grows _ _ _ es1); [done|done|done|apply Hok1|done]).
  destruct (saveManifest_succeeds es2 (yp_ns params) (wire_of_plan plan) (archive_children (ap_messages archive)) h Hc Hh) as [es3 E3];
    [exact (pb_named _ _ _ Hpb)| |done|].
  { unfold headroomCompressResult_refine in Hv. cbn [wire_of_plan wp_result]. rewrite Hc in Hv. destruct (hr_sourceDigests (lp_result plan)); [done|]. by bool_prop. }
  destruct (saveManifest_ok _ _ _ _ _ _ _ _ Hok2 Hb2 E3) as (Hok3 & Hg3 & h' & Hh' & Hm & _). cbn [wire_of_plan wp_result] in Hh'. rewrite Hh in Hh'. injection Hh' as <-.
  change (mkRest _ _ _ _ _ _ _ _) with (wp_rest (wire_of_plan plan)). rewrite E3. exists es3. split_and!; [done|done|by eapply backed_mono|done|].
  assert (as_files (es_archive es3) = as_files st1) as ->; [|done].
  unfold saveManifest in E3. destruct (Store.saveManifest _ _ _ _); [|done]. cbn [rbind] in E3. by injection E3 as <-.
Qed.
End Lands.

(** ** Claims *)

(** C3: the store is consistent whatever happens.  After any sequence of compressions of
    either strategy, each cut off by a crash after any number of its effects, and of
    requests on views: the ledger only names published objects and the index only
    attributed ones, the node graph is well-formed, and every manifest is backed: its
    history is in the ledger, each digest it replaces is published and holds the very
    message, and each of its nodes is read back with the same text, below which every
    quoted source is published too. *)
Theorem engine_invariant sha256Hex gzip dataDir counter maxEntries maxBytes toLowerCase letter_or_number es :
  (∀ x, test HASH_RE (sha256Hex x) = true) →
  rtc (engine_step sha256Hex gzip dataDir counter maxEntries maxBytes toLowerCase letter_or_number) empty_engine es →
  engine_ok sha256Hex gzip dataDir es
  ∧ ∀ ns h w, getManifest es ns h = Some w →
      (∀ d, d ∈ default [] (hr_sourceDigests (wp_result w)) → ∃ m, object_holds sha256Hex gzip dataDir (as_files (es_archive es)) d m)
      ∧ ∀ n, n ∈ plan_nodes w → ∃ m, readNode sha256Hex (es_nodes es) ns (ln_nodeId n) = Ok (Some m)
          ∧ stringify (json_of_node m) = stringify (json_of_node n)
          ∧ ∀ r, r ∈ ln_sourceRefs m → ∃ msg, object_holds sha256Hex gzip dataDir (as_files (es_archive es)) (ls_contentHash r) msg.
Proof.
  intros Hsha Hr. assert (engine_ok sha256Hex gzip dataDir es) as Hok by (eapply engine_reachable; [done|exact Hr|apply empty_engine_ok]).
  split; [done|]. assert (∀ ns d, ownsCasMeta (es_meta es) ns d = true → ∃ m, object_holds sha256Hex gzip dataDir (as_files (es_archive es)) d m) as Howned.
  { intros ns d (row & Hin & Hk)%existsb_exists. apply andb_true_iff in Hk as [_ ->%jeqb_eq%symmetry]. rewrite <- list_elem_of_In in Hin.
    by apply (so_refs _ _ _ _ (eo_store _ _ _ _ Hok)). }
  intros ns h w Hw. destruct (eo_manifests _ _ _ _ Hok _ _ _ Hw) as [_ Hb]. split.
  - intros d Hd. apply (Howned ns). pose proof (bk_digests _ _ _ Hb) as H. rewrite Forall_forall in H. by apply H.
  - intros n Hn. pose proof (bk_nodes _ _ _ Hb) as H. rewrite Forall_forall in H. destruct (H n Hn) as (m & Hm & Hs). exists m.
    rewrite (readNode_get sha256Hex (es_meta es)) by apply Hok. split_and!; [by rewrite Hm|done|]. intros r Hin. apply (Howned ns).
    by apply (go_evidence _ _ _ (eo_graph _ _ _ _ Hok) ns (ln_nodeId n) m).
Qed.

(** C11: a view is a confirmed plan of its own namespace.  Whatever has happened, the active
    view of a namespace has the content of a manifest that this namespace had when the
    view was set, up to metrics and the fields of the background enhancement; that plan is
    still backed by the archive.  Only a request on this very namespace replaces or
    removes the view: no compression and no other namespace does. *)
Theorem views_confirmed sha256Hex gzip dataDir counter maxEntries maxBytes toLowerCase letter_or_number es ns w :
  let step := engine_step sha256Hex gzip dataDir counter maxEntries maxBytes toLowerCase letter_or_number in
  (∀ x, test HASH_RE (sha256Hex x) = true) → rtc step empty_engine es → getView es ns = Some w →
  (∃ es1 h m, rtc step empty_engine es1 ∧ rtc step es1 es ∧ hr_historyHash (wp_result w) = Some h
     ∧ getManifest es1 ns h = Some m ∧ comparable m = comparable w ∧ backed es ns m)
  ∧ ∀ es', step es es' → getView es' ns = Some w ∨ (∃ w', setView es ns w' = Ok es') ∨ es' = clearView es ns.
Proof.
  intros step Hsha Hr Hv. split.
  2: { intros es' Hs. destruct Hs as [params cache plan h createdAt uuid k|params r plan createdAt uuid k|ns0 w' es' Hs|ns0].
    - left. by rewrite effects_keep_views.
    - left. by rewrite effects_keep_views.
    - destruct (decide (ns0 = ns)) as [->|Hne]; [right; left; by exists w'|left]. pose proof (setView_spec es ns0 w') as H. rewrite Hs in H.
      destruct H as (_ & _ & _ & H & _). by rewrite H.
    - destruct (decide (ns0 = ns)) as [->|Hne]; [by right; right|left]. by rewrite clearView_get, bool_decide_false. }
  revert w Hv. revert es Hr. apply (rtc_ind_r (λ es, ∀ w, getView es ns = Some w → ∃ es1 h m, rtc step empty_engine es1 ∧ rtc step es1 es
    ∧ hr_historyHash (wp_result w) = Some h ∧ getManifest es1 ns h = Some m ∧ comparable m = comparable w ∧ backed es ns m)); [done|].
  intros es es' Hr Hs IH w Hv.
  assert (engine_ok sha256Hex gzip dataDir es) as Hok by (eapply engine_reachable; [done|exact Hr|apply empty_engine_ok]).
  pose proof (engine_step_grows sha256Hex gzip dataDir counter maxEntries maxBytes toLowerCase letter_or_number es es' Hok Hs) as Hg.
  assert (getView es ns = Some w ∨ ∃ h m, hr_historyHash (wp_result w) = Some h ∧ getManifest es ns h = Some m ∧ comparable m = comparable w) as H.
  { destruct Hs as [params cache plan h createdAt uuid k|params r plan createdAt uuid k|ns0 w' es' Hs|ns0].
    - left. by rewrite effects_keep_views in Hv.
    - left. by rewrite effects_keep_views in Hv.
    - pose proof (setView_spec es ns0 w') as H. rewrite Hs in H. destruct H as (_ & (h & m & A1 & A2 & A3) & A4 & A5 & _).
      destruct (decide (ns0 = ns)) as [->|Hne]; [|left; by rewrite A5 in Hv]. rewrite A4 in Hv. injection Hv as ->. right. exists h, m.
      by split_and!.
    - left. rewrite clearView_get in Hv. by case_bool_decide. }
  destruct H as [Hv0|(h & m & A1 & A2 & A3)].
  - destruct (IH w Hv0) as (es1 & h & m & B1 & B2 & B3 & B4 & B5 & B6). exists es1, h, m. split_and!; try done; [by eapply rtc_r|by eapply backed_mono].
  - exists es, h, m. split_and!; [done|by apply rtc_once|done|done|done|]. eapply backed_mono; [exact Hg|]. by destruct (eo_manifests _ _ _ _ Hok _ _ _ A2).
Qed.

(** C6: a layered compression lands.  For a request whose plan is compacted, within capacity
    and clean for the scanner, [compressLayered] succeeds: every check of the transaction
    that saves the nodes passes.  Afterwards the plan is the manifest of its history, each
    message it replaces is published under its digest, each of its nodes is read back with
    the same text, and the answer, whatever timings and enhancement fields the engine adds
    to it, is accepted as the view of the session (no timing being negative; the
    counters of the plan satisfy their schema). *)
Theorem layered_compression_lands sha256Hex gzip dataDir counter maxEntries maxBytes toLowerCase letter_or_number assert_plan assert_result
    es params cache nodes plan h used cap createdAt uuid :
  let ns := yp_ns params in let archive := archive_of sha256Hex (yp_messages params) plan h in
  (∀ x, test HASH_RE (sha256Hex x) = true) → engine_ok sha256Hex gzip dataDir es → loaded_nodes sha256Hex es params = Some (Ok nodes) →
  layered_plan sha256Hex counter maxEntries maxBytes toLowerCase letter_or_number es params cache = Some (Ok plan) →
  hr_compacted (lp_result plan) = true → hr_historyHash (lp_result plan) = Some h →
  request_ok sha256Hex gzip dataDir counter maxEntries maxBytes es params cache nodes plan archive → clear_way dataDir es ns archive createdAt uuid →
  hasHistoryMeta (es_meta es) ns h = true ∨ used + layered_reserve (ap_messages archive) plan <= cap →
  assert_result (wire_of_plan plan) = true → assert_plan archive (chunkInputs archive ns) = true →
  ∃ es', compressLayered sha256Hex gzip dataDir counter maxEntries maxBytes toLowerCase letter_or_number assert_plan assert_result
           es params cache used cap createdAt uuid = Some (es', Ok (wire_of_plan plan))
    ∧ getManifest es' ns h = Some (wire_of_plan plan)
    ∧ (∀ m, m ∈ yp_messages params → m_id m ∈ hr_replacedMessageIds (lp_result plan) →
         object_holds sha256Hex gzip dataDir (as_files (es_archive es')) (contentDigest sha256Hex m) m)
    ∧ (∀ n, n ∈ lp_nodes plan → ∃ m, readNode sha256Hex (es_nodes es') ns (ln_nodeId n) = Ok (Some m)
         ∧ stringify (json_of_node m) = stringify (json_of_node n))
    ∧ counters_ok (lp_metrics plan) = true
    ∧ ∀ metrics jobId reason, (∀ m, metrics = Some m → metrics_ok m = true) → ∃ es'', setView es' ns (with_telemetry (wire_of_plan plan) metrics jobId reason) = Ok es''
         ∧ getView es'' ns = Some (with_telemetry (wire_of_plan plan) metrics jobId reason).
Proof.
  intros ns archive Hsha Hok Hload Hplan Hc Hh Hq Hway Hcap Hr Ha. destruct (layered_plan_inv _ _ _ _ _ _ _ _ _ _ Hplan) as (nodes' & c & Hload' & Hb).
  rewrite Hload in Hload'. injection Hload' as <-.
  destruct (publish_succeeds _ _ _ _ _ _ _ _ _ _ _ _ _ _ _ _ _ Hsha Hok Hload Hb Hc Hh Hq Hway) as (es' & E & Hok' & Hbk & Hm & Hobj).
  fold archive in E. exists es'.
  destruct (bk_history _ _ _ Hbk) as (h' & Hh' & Hne & _). cbn [wire_of_plan wp_result] in Hh'. rewrite Hh in Hh'. injection Hh' as <-.
  split_and!.
  - unfold compressLayered. rewrite Hplan. cbn [mbind option_bind]. rewrite Hc, Hh, bool_decide_false by done. cbv zeta. fold archive ns.
    assert (negb (hasHistoryMeta (es_meta es) ns h) && (cap <? used + layered_reserve (ap_messages archive) plan) = false) as ->.
    { destruct Hcap as [->|Hcap]; [done|]. apply andb_false_iff. right. by apply Z.ltb_ge. }
    rewrite Hr, Ha. cbn [negb orb]. setoid_rewrite E. done.
  - done.
  - intros m Hin Hid. rewrite Forall_forall in Hobj. apply Hobj. cbn [archive archive_of ap_messages]. apply list_elem_of_In, filter_In.
    rewrite <- list_elem_of_In. split; [done|]. apply bool_decide_eq_true. apply elem_of_app. by left.
  - intros n Hn. pose proof (bk_nodes _ _ _ Hbk) as H. rewrite Forall_forall in H. destruct (H n Hn) as (m & Hg & Hs). exists m.
    rewrite (readNode_get sha256Hex (es_meta es')) by apply Hok'. unfold ns. by rewrite Hg.
  - by eapply plan_counters_ok.
  - intros metrics jobId reason Hmetrics. apply answer_becomes_view; [by destruct Hbk|done|]. by exists h.
Qed.

(** What a compression refuses it leaves as it was: an inert plan, a full store and a
    finding of the scanner change nothing; and the engine always answers. *)
Theorem layered_refusals sha256Hex gzip dataDir counter maxEntries maxBytes toLowerCase letter_or_number assert_plan assert_result
    es params cache used cap createdAt uuid :
  graph_ok sha256Hex (es_meta es) (es_nodes es) →
  ∃ es' r, compressLayered sha256Hex gzip dataDir counter maxEntries maxBytes toLowerCase letter_or_number assert_plan assert_result
             es params cache used cap createdAt uuid = Some (es', r)
    ∧ (∀ w, r = Ok w → hr_compacted (wp_result w) = false → es' = es)
    ∧ (∀ plan h, layered_plan sha256Hex counter maxEntries maxBytes toLowerCase letter_or_number es params cache = Some (Ok plan) →
         hr_compacted (lp_result plan) = true → hr_historyHash (lp_result plan) = Some h → h ≠ [] →
         let archive := archive_of sha256Hex (yp_messages params) plan h in
         (hasHistoryMeta (es_meta es) (yp_ns params) h = false → cap < used + layered_reserve (ap_messages archive) plan → es' = es ∧ r = Throw CAPACITY_ERROR)
         ∧ (assert_result (wire_of_plan plan) = false → es' = es ∧ is_ok r = false)).
Proof.
  intros Hok. assert (is_Some (layered_plan sha256Hex counter maxEntries maxBytes toLowerCase letter_or_number es params cache)) as [p Hp].
  { unfold layered_plan, loaded_nodes.
    destruct (nodesForView_reachable sha256Hex (es_meta es) (es_nodes es) (yp_ns params) (visibleNodeIds (yp_messages params))
      (view_fuel (es_nodes es) (yp_ns params) (visibleNodeIds (yp_messages params))) Hok) as (res & -> & _); [unfold view_fuel; lia|].
    cbn [mbind option_bind]. destruct res as [nodes|e]; [|by eexists].
    pose proof (buildLayeredPlan_outcome sha256Hex counter maxEntries maxBytes toLowerCase letter_or_number (yp_messages params) (layered_options params cache nodes)) as H.
    destruct (buildLayeredPlan _ _ _ _ _ _ _ _) as [r|e]; [|by eexists]. destruct H as [[[p c] ->] _]. by eexists. }
  unfold compressLayered. rewrite Hp. cbn [mbind option_bind]. destruct p as [plan|e]; [|exists es, (Throw e); by split_and!].
  destruct (hr_compacted (lp_result plan)) eqn:Hc; [|exists es, (Ok (wire_of_plan plan)); split_and!; [done|done|]; intros p0 h0 [= <-]; congruence].
  destruct (hr_historyHash (lp_result plan)) as [h|] eqn:Hh; [|exists es, (Ok (wire_of_plan plan)); split_and!; [done|done|]; intros p0 h0 [= <-]; congruence].
  case_bool_decide as Hne; [exists es, (Ok (wire_of_plan plan)); split_and!; [done|done|]; intros p0 h0 [= <-]; congruence|]. cbv zeta.
  set (archive := archive_of _ _ _ _). destruct (negb _ && _) eqn:Ecap.
  { exists es, (Throw CAPACITY_ERROR). split_and!; [done|done|]. intros p0 h0 [= <-] _ E0 _. rewrite Hh in E0. injection E0 as <-. split; [done|]. done. }
  destruct (negb (assert_result _) || _) eqn:Es.
  { exists es, (Throw (js "SecurityError")). split_and!; [done|done|]. intros p0 h0 [= <-] _ E0 _. rewrite Hh in E0. injection E0 as <-. split; [|done]. intros H1 H2. exfalso.
    rewrite H1 in Ecap. cbn [negb andb] in Ecap. apply Z.ltb_ge in Ecap. unfold archive in Ecap. lia. }
  destruct (layered_effects _ _ _ es _) as [es' [u|e]]; [exists es', (Ok (wire_of_plan plan))|exists es', (Throw e)].
  all: split_and!; [done| |]; [try done; intros w [= <-]; cbn [wire_of_plan wp_result]; congruence|].
  all: intros p0 h0 [= <-] _ E0 _; rewrite Hh in E0; injection E0 as <-; split; [intros H1 H2; exfalso; rewrite H1 in Ecap; cbn [negb andb] in Ecap; apply Z.ltb_ge in Ecap; unfold archive in Ecap; lia|].
  all: intros H; by rewrite H in Es.
Qed.

(** ** Witnesses *)

Definition view_ns : Namespace := lo_namespace demo_options.
Definition view_request : LayeredParams := mkLayeredParams view_ns demo_layered 1000 None 1 None None [] None.
Abbreviation view_planned := (layered_plan sum_sha estimatedTokenCounter 8 4096 id ascii_letter empty_engine view_request None).
Abbreviation view_step := (engine_step sum_sha id demo_dir estimatedTokenCounter 8 4096 id ascii_letter).

Lemma sum_sha_valid x : test HASH_RE (sum_sha x) = true.
Proof.
  rewrite hash_re_spec. unfold sum_sha. set (n := zsum x mod 4096). assert (0 <= n < 4096) as Hn by (apply Z.mod_pos_bound; lia).
  assert (∀ d, 0 <= d < 16 → in_ranges hex_ranges (hex_digit d) = true) as Hd.
  { intros d Hd. assert (forallb (λ d, in_ranges hex_ranges (hex_digit d)) (seqZ 0 16) = true) as Hall by (vm_compute; reflexivity).
    rewrite forallb_forall in Hall. apply Hall, list_elem_of_In, elem_of_seqZ. lia. }
  rewrite bool_decide_true by done. cbn [andb]. rewrite forallb_app. apply andb_true_iff. split; [by vm_compute|]. cbn [forallb].
  rewrite !Hd; [done|apply Z.mod_pos_bound; lia|apply Z.mod_pos_bound; lia|]. split; [apply Z.div_pos; lia|apply Z.div_lt_upper_bound; lia].
Qed.

(** The plan of the demonstration, with its history. *)
Lemma view_plan : ∃ plan h, view_planned = Some (Ok plan) ∧ hr_compacted (lp_result plan) = true ∧ hr_historyHash (lp_result plan) = Some h
  ∧ forallb node_numbers (lp_nodes plan) = true ∧ headroomCompressResult_refine (lp_result plan) = true.
Proof.
  assert (match view_planned with
          | Some (Ok plan) => hr_compacted (lp_result plan) && bool_decide (is_Some (hr_historyHash (lp_result plan))) && forallb node_numbers (lp_nodes plan)
              && headroomCompressResult_refine (lp_result plan)
          | _ => false end = true) as H by (vm_compute; reflexivity).
  destruct view_planned as [[plan|e]|]; [|discriminate H|discriminate H]. apply andb_true_iff in H as [[[H1 H2]%andb_true_iff H3]%andb_true_iff H4].
  apply bool_decide_eq_true in H2 as [h Hh]. by exists plan, h.
Qed.
Lemma view_storable : Forall storable demo_layered.
Proof. apply storable_checks. vm_compute. reflexivity. Qed.
Lemma view_way plan h : clear_way demo_dir empty_engine view_ns (archive_of sum_sha demo_layered plan h) 0 toy_uuid.
Proof. split; [by intros k i _|]. intros a b Ha. by apply elem_of_nil in Ha. Qed.

(** A view that was set after a compression. *)
Lemma view_reached : ∃ es w, rtc view_step empty_engine es ∧ getView es view_ns = Some w.
Proof.
  destruct view_plan as (plan & h & Hp & Hc & Hh & _ & Hv).
  set (archive := archive_of sum_sha demo_layered plan h).
  set (es1 := (layered_effects sum_sha id demo_dir empty_engine (take 9 (plan_effects empty_engine view_request plan archive 0 toy_uuid))).1).
  assert (view_step empty_engine es1) as Hs.
  { apply (step_layered _ _ _ _ _ _ _ _ empty_engine view_request None plan h 0 toy_uuid 9 Hp Hc Hh view_storable (view_way plan h)). }
  assert (is_ok (match view_planned with
          | Some (Ok plan) => match hr_historyHash (lp_result plan) with
              | Some h => setView (layered_effects sum_sha id demo_dir empty_engine (take 9 (plan_effects empty_engine view_request plan (archive_of sum_sha demo_layered plan h) 0 toy_uuid))).1
                            view_ns (wire_of_plan plan)
              | None => Throw [] end
          | _ => Throw [] end) = true) as H by (vm_compute; reflexivity).
  rewrite Hp, Hh in H. fold archive es1 in H. destruct (setView es1 view_ns (wire_of_plan plan)) as [es2|] eqn:E; [|discriminate H].
  exists es2, (wire_of_plan plan). split; [eapply rtc_l; [exact Hs|]; apply rtc_once; by eapply step_set_view|].
  pose proof (setView_spec es1 view_ns (wire_of_plan plan)) as Hspec. rewrite E in Hspec. by destruct Hspec as (_ & _ & ? & _).
Qed.

Lemma engine_invariant_witness : ∃ es, rtc view_step empty_engine es ∧ is_Some (getView es view_ns) ∧ engine_ok sum_sha id demo_dir es.
Proof.
  destruct view_reached as (es & w & Hr & Hv). exists es. split; [exact Hr|]. split; [by exists w|].
  exact (proj1 (engine_invariant sum_sha id demo_dir estimatedTokenCounter 8 4096 id ascii_letter es sum_sha_valid Hr)).
Defined.

Lemma views_confirmed_witness : ∃ es w h, getView es view_ns = Some w ∧ hr_historyHash (wp_result w) = Some h.
Proof.
  destruct view_reached as (es & w & Hr & Hv).
  destruct (views_confirmed sum_sha id demo_dir estimatedTokenCounter 8 4096 id ascii_letter es view_ns w sum_sha_valid Hr Hv) as [(es1 & h & m & _ & _ & Hh & _) _].
  by exists es, w, h.
Defined.

Lemma view_identities : identities view_ns empty_nodes (made_nodes sum_sha estimatedTokenCounter 8 4096 demo_layered (layered_options view_request None [])).
Proof.
  assert (bool_decide (length (made_nodes sum_sha estimatedTokenCounter 8 4096 demo_layered (layered_options view_request None [])) = 1%nat) = true) as H by (vm_compute; reflexivity).
  apply bool_decide_eq_true in H. intros a b Ha [Hb|Hb] _; [|discriminate Hb].
  destruct (made_nodes _ _ _ _ _ _) as [|n [|n' l]]; [discriminate H| |discriminate H]. apply list_elem_of_singleton in Ha as ->. by apply list_elem_of_singleton in Hb as ->.
Qed.

Lemma view_fits plan h : view_planned = Some (Ok plan) → hr_historyHash (lp_result plan) = Some h →
  0 + layered_reserve (ap_messages (archive_of sum_sha demo_layered plan h)) plan <= 10000000.
Proof.
  assert (match view_planned with
          | Some (Ok plan) => match hr_historyHash (lp_result plan) with
              | Some h => 0 + layered_reserve (ap_messages (archive_of sum_sha demo_layered plan h)) plan <=? 10000000
              | None => false end
          | _ => false end = true) as H by (vm_compute; reflexivity).
  intros Hp Hh. rewrite Hp in H. rewrite Hh in H. by apply Z.leb_le.
Qed.

Lemma archive_of_subset sha messages plan h m : m ∈ ap_messages (archive_of sha messages plan h) → m ∈ messages.
Proof. cbn [archive_of ap_messages]. rewrite !list_elem_of_In. by intros [? _]%filter_In. Qed.
Lemma demo_layered_digests m m' : m ∈ demo_layered → m' ∈ demo_layered → contentDigest sum_sha m = contentDigest sum_sha m' → m = m'.
Proof.
  assert (NoDup (map (contentDigest sum_sha) demo_layered)) as Hnd by (apply (bool_decide_eq_true_1 (NoDup (map (contentDigest sum_sha) demo_layered))); vm_compute; reflexivity).
  intros [i Hi]%list_elem_of_lookup [j Hj]%list_elem_of_lookup E.
  assert (i = j) as ->; [|by simplify_eq]. eapply nodup_lookup_inj; [exact Hnd|by rewrite map_lookup, Hi|by rewrite map_lookup, Hj, E].
Qed.

Lemma layered_compression_lands_witness : ∃ es' plan,
  compressLayered sum_sha id demo_dir estimatedTokenCounter 8 4096 id ascii_letter (λ _ _, true) (λ _, true) empty_engine view_request None 0 10000000 0 toy_uuid
    = Some (es', Ok (wire_of_plan plan))
  ∧ hr_compacted (lp_result plan) = true.
Proof.
  destruct view_plan as (plan & h & Hp & Hc & Hh & Hn & _).
  destruct (layered_compression_lands sum_sha id demo_dir estimatedTokenCounter 8 4096 id ascii_letter (λ _ _, true) (λ _, true)
    empty_engine view_request None [] plan h 0 10000000 0 toy_uuid sum_sha_valid) as (es' & E & _).
  - apply empty_engine_ok.
  - reflexivity.
  - exact Hp.
  - exact Hc.
  - exact Hh.
  - split.
    + exact view_storable.
    + exact demo_binds.
    + intros c m e Hcache. discriminate Hcache.
    + exact view_identities.
    + apply Forall_forall. intros n Hin. rewrite forallb_forall in Hn. apply Hn. by apply list_elem_of_In.
    + split; [intros m _; by left|]. intros m m' Hm%archive_of_subset Hm'%archive_of_subset. by apply demo_layered_digests.
  - apply view_way.
  - right. exact (view_fits plan h Hp Hh).
  - reflexivity.
  - reflexivity.
  - exists es', plan. split; [exact E|exact Hc].
Defined.
