(* ===== verification/Cursors.v ===== *)
(** * Persisted history cursors ([packages/headroomd/src/store/history-cursors.ts])

    A cursor names a frontier saved in [meta.db]; the table keeps the 4096 most
    recent ones.  The frontier column holds JSON and is kept as the frontier;
    [randomUUID] and [Date.now] are inputs. *)

From stdpp Require Import base tactics list numbers option sets strings sorting.
From S2P Require Import Prelude JsString JsRegex Json CLine OMap Chat History Fts Store.

Definition CAP : nat := 4096.
Definition cursor_id (uuid : jstr) : jstr := js "h3-" ++ uuid.
Definition EXPIRED : jstr := js "History cursor expired or does not match reference; restart retrieval".

Definition set_cursors (meta : MetaDb) (rows : list CursorRow) : MetaDb :=
  mkMetaDb (md_cas_meta meta) (md_archive_refs meta) (md_manifests meta) (md_views meta) rows.

(** [ORDER BY created_at DESC, rowid DESC]: the table is in [rowid] order. *)
Definition age_cmp (a b : CursorRow) : Z := cu_createdAt b - cu_createdAt a.
Definition newest_first (rows : list CursorRow) : list CursorRow := sort_by age_cmp (rev rows).
(** The [DELETE] of every row past the first [CAP]. *)
Definition evict (rows : list CursorRow) : list CursorRow :=
  let doomed := map cu_id (drop CAP (newest_first rows)) in
  List.filter (λ r, negb (existsb (jeqb (cu_id r)) doomed)) rows.

Definition saveHistoryCursor (meta : MetaDb) (ns : Namespace) (hash : jstr) (frontier : HistoryFrontier) (uuid : jstr) (now : Z) :
    result jstr (MetaDb * jstr) :=
  let id := cursor_id uuid in
  throw_if existsb (λ r, jeqb (cu_id r) id) (md_cursors meta) with js "UNIQUE constraint failed: history_cursors.id" in
  Ok (set_cursors meta (evict (md_cursors meta ++ [mkCursor id ns hash frontier now])), id).

Definition loadHistoryCursor (meta : MetaDb) (ns : Namespace) (hash id : jstr) : result jstr HistoryFrontier :=
  match List.find (λ r, jeqb (cu_id r) id && bool_decide (cu_ns r = ns) && jeqb (cu_history r) hash) (md_cursors meta) with
  | Some r => Ok (cu_frontier r)
  | None => Throw EXPIRED
  end.

(** ** Eviction *)

#[export] Instance age_cmp_order : CmpOrder age_cmp.
Proof. split; unfold cmp_le, age_cmp; [lia|]. intros a b c. lia. Qed.

Lemma in_ids i (l : list jstr) : existsb (jeqb i) l = true ↔ i ∈ l.
Proof.
  rewrite existsb_exists. setoid_rewrite jeqb_eq. split; [intros (x & Hx & ->); by apply list_elem_of_In|].
  intros H. exists i. split; [by apply list_elem_of_In|done].
Qed.

Lemma newest_first_perm rows : newest_first rows ≡ₚ rows.
Proof. unfold newest_first. rewrite sort_by_perm. by rewrite <- Permutation_rev. Qed.

(** The table after an eviction is, in its order, what is left of it. *)
Lemma evict_kept rows r : NoDup (map cu_id rows) → r ∈ evict rows ↔ r ∈ take CAP (newest_first rows).
Proof.
  intros Hnd. unfold evict. rewrite list_elem_of_In, filter_In, negb_true_iff, <- list_elem_of_In.
  assert (NoDup (map cu_id (newest_first rows))) as Hnd' by by rewrite newest_first_perm.
  rewrite <- (take_drop CAP (newest_first rows)), map_app in Hnd'. apply NoDup_app in Hnd' as (_ & Hdisj & _).
  assert (r ∈ rows ↔ r ∈ take CAP (newest_first rows) ∨ r ∈ drop CAP (newest_first rows)) as ->.
  { rewrite <- elem_of_app, take_drop. by rewrite newest_first_perm. }
  assert (∀ x l, x ∈ l → cu_id x ∈ map cu_id l) as Hmap by (intros x l Hx; apply list_elem_of_In, in_map, list_elem_of_In, Hx).
  rewrite <- not_true_iff_false, in_ids. split; [intros [[H|H] Hn]; [done|by destruct Hn; apply Hmap]|].
  intros H. split; [by left|]. apply Hdisj. by apply Hmap.
Qed.

Lemma evict_small rows : NoDup (map cu_id rows) → (length rows <= CAP)%nat → evict rows = rows.
Proof.
  intros Hnd Hl. unfold evict. rewrite drop_ge by (by rewrite newest_first_perm). cbn. clear.
  induction rows as [|r l IH]; cbn; [done|by rewrite IH].
Qed.

Lemma evict_nodup rows : NoDup (map cu_id rows) → NoDup (map cu_id (evict rows)).
Proof.
  unfold evict. generalize (map cu_id (drop CAP (newest_first rows))) as doomed. intros doomed.
  induction rows as [|r l IH]; cbn [map List.filter]; [done|]. intros [Hn Hd]%NoDup_cons. case_test; [|by apply IH].
  cbn [map]. constructor; [|by apply IH]. intros Hin. apply Hn. rewrite list_elem_of_In, in_map_iff in *.
  destruct Hin as (x & Hx & [Hin _]%filter_In). by exists x.
Qed.

Lemma evict_length rows : NoDup (map cu_id rows) → (length (evict rows) <= CAP)%nat.
Proof.
  intros Hnd. assert (NoDup (evict rows)) as Hnd' by (apply (NoDup_fmap_1 cu_id), evict_nodup, Hnd).
  transitivity (length (take CAP (newest_first rows))); [|rewrite length_take; lia].
  apply submseteq_length, NoDup_submseteq; [done|]. intros r. by apply evict_kept.
Qed.

(** A row no older than the others comes first, ties included. *)
Lemma newest_first_snoc rows new :
  Forall (λ r, cu_createdAt r <= cu_createdAt new) rows → newest_first (rows ++ [new]) = new :: newest_first rows.
Proof.
  intros Hall. unfold newest_first. rewrite rev_app_distr. cbn [rev app]. unfold sort_by. cbn [foldl].
  assert (Forall (λ r, cu_createdAt r <= cu_createdAt new) (rev rows)) as Hrev by by rewrite <- Permutation_rev.
  enough (∀ acc, foldl (λ acc x, sort_insert age_cmp x acc) (new :: acc) (rev rows) = new :: foldl (λ acc x, sort_insert age_cmp x acc) acc (rev rows)) as H by apply (H []).
  induction Hrev as [|x l Hx _ IH]; intros acc; [done|]. cbn [foldl sort_insert].
  unfold age_cmp at 2. rewrite (proj2 (Z.ltb_ge _ _)) by lia. apply IH.
Qed.

(** ** Claims *)

Definition cursors_ok (meta : MetaDb) : Prop := NoDup (map cu_id (md_cursors meta)) ∧ (length (md_cursors meta) <= CAP)%nat.

(** The cursor table never exceeds its capacity and names each frontier
    once.  A frontier saved under a reference loads back exactly, and only for
    the namespace and reference it was saved under; saving a cursor keeps
    the 4095 most recent other ones. *)
Theorem history_cursor_roundtrip meta ns hash frontier uuid now meta' id :
  cursors_ok meta → Forall (λ r, cu_createdAt r <= now) (md_cursors meta) →
  saveHistoryCursor meta ns hash frontier uuid now = Ok (meta', id) →
  cursors_ok meta'
  ∧ (∀ ns' hash', loadHistoryCursor meta' ns' hash' id =
       if bool_decide (ns = ns') && jeqb hash hash' then Ok frontier else Throw EXPIRED)
  ∧ ∀ r, r ∈ take (CAP - 1) (newest_first (md_cursors meta)) →
       loadHistoryCursor meta' (cu_ns r) (cu_history r) (cu_id r) = Ok (cu_frontier r).
Proof.
  intros [Hnd Hlen] Hnow. unfold saveHistoryCursor. destruct (existsb _ (md_cursors meta)) eqn:Ex; [done|]. intros [= <- <-].
  set (new := mkCursor (cursor_id uuid) ns hash frontier now). set (rows := md_cursors meta ++ [new]).
  assert (NoDup (map cu_id rows)) as Hnd'.
  { unfold rows. rewrite map_app. apply NoDup_app. split_and!; [done| |apply NoDup_singleton]. cbn. intros i Hi ->%list_elem_of_singleton.
    apply list_elem_of_In, in_map_iff in Hi as (r & Hr & Hin). assert (existsb (λ r, jeqb (cu_id r) (cursor_id uuid)) (md_cursors meta) = true) as Hc; [|congruence].
    apply existsb_exists. exists r. split; [done|]. by apply jeqb_eq. }
  assert (newest_first rows = new :: newest_first (md_cursors meta)) as Hfirst by by apply newest_first_snoc.
  assert (∀ r, r ∈ rows → r ∈ take CAP (newest_first rows) → ∀ ns' hash',
    loadHistoryCursor (set_cursors meta (evict rows)) ns' hash' (cu_id r) =
    if bool_decide (cu_ns r = ns') && jeqb (cu_history r) hash' then Ok (cu_frontier r) else Throw EXPIRED) as Hload.
  { intros r Hin Hn ns' hash'. unfold loadHistoryCursor. cbn [md_cursors set_cursors].
    assert (r ∈ evict rows) as Hev by (by apply evict_kept).
    assert (∀ x, x ∈ evict rows → cu_id x = cu_id r → x = r) as Huniq.
    { clear -Hev Hnd'. apply evict_nodup in Hnd'. revert Hev Hnd'. generalize (evict rows) as l. intros l.
      induction l as [|y l IH]; [by intros ?%elem_of_nil|]. intros Hr [Hy Hl]%NoDup_cons x Hx Heq.
      assert (∀ z, z ∈ l → cu_id z ∈ map cu_id l) as Hmap by (intros z Hz; apply list_elem_of_In, in_map, list_elem_of_In, Hz).
      apply elem_of_cons in Hr as [->|Hr], Hx as [->|Hx]; [done| | |by apply IH];
        destruct Hy; [rewrite <- Heq|rewrite Heq]; by apply Hmap. }
    destruct (List.find _ (evict rows)) as [x|] eqn:Ef.
    - apply find_some in Ef as [Hx Hb]. apply list_elem_of_In in Hx. bool_prop.
      match goal with H : jeqb (cu_id x) _ = true |- _ => apply jeqb_eq in H; apply (Huniq x Hx) in H as -> end.
      rewrite bool_decide_true by done. by match goal with H : jeqb _ _ = true |- _ => rewrite H end.
    - destruct (bool_decide (cu_ns r = ns') && jeqb (cu_history r) hash') eqn:Eb; [|done]. rewrite list_elem_of_In in Hev.
      pose proof (find_none _ _ Ef r Hev) as Hno. cbn beta in Hno. rewrite jeqb_refl in Hno. cbn [andb] in Hno. congruence. }
  split_and!.
  - split; [by apply evict_nodup|]. by apply evict_length.
  - intros ns' hash'. apply (Hload new); [unfold rows; set_solver|]. rewrite Hfirst. cbn [take CAP]. by left.
  - intros r Hr. rewrite (Hload r); [by rewrite bool_decide_true, jeqb_refl| |rewrite Hfirst; cbn [take CAP]; by right].
    unfold rows. apply elem_of_app. left. rewrite <- (newest_first_perm (md_cursors meta)). by eapply subseteq_take.
Qed.

(** ** Witness *)

Definition demo_saved : MetaDb := set_cursors empty_meta [mkCursor (js "h3-a") (mkNs (js "p") (js "s")) (js "hist") (mkFrontier [(js "hist", 3)] 3 0) 5].

Lemma history_cursor_roundtrip_witness :
  ∃ meta' id, saveHistoryCursor demo_saved (mkNs (js "p") (js "t")) (js "hist") (mkFrontier [] 1 2) (js "b") 9 = Ok (meta', id)
    ∧ loadHistoryCursor meta' (mkNs (js "p") (js "t")) (js "hist") id = Ok (mkFrontier [] 1 2)
    ∧ loadHistoryCursor meta' (mkNs (js "p") (js "s")) (js "hist") (js "h3-a") = Ok (mkFrontier [(js "hist", 3)] 3 0).
Proof.
  destruct (saveHistoryCursor demo_saved (mkNs (js "p") (js "t")) (js "hist") (mkFrontier [] 1 2) (js "b") 9) as [[meta' id]|e] eqn:E;
    [|vm_compute in E; discriminate].
  assert (cursors_ok demo_saved) as Hok by (split; [apply NoDup_singleton|apply Nat.leb_le; vm_compute; reflexivity]).
  assert (Forall (λ r, cu_createdAt r <= 9) (md_cursors demo_saved)) as Hage by (constructor; [vm_compute; discriminate|constructor]).
  destruct (history_cursor_roundtrip _ _ _ _ _ _ _ _ Hok Hage E) as (_ & H1 & H2).
  exists meta', id. split_and!; [done|by rewrite H1|].
  apply (H2 (mkCursor (js "h3-a") (mkNs (js "p") (js "s")) (js "hist") (mkFrontier [(js "hist", 3)] 3 0) 5)). cbn. by left.
Defined.
