(* ===== verification/NodeRetrieval.v ===== *)
(** * Reading evidence nodes ([packages/headroomd/src/node-retrieval.ts])

    [readNodeChildren] lists, page by page, the nodes a number of levels below
    a node; [retrieveNode] answers with the summary, the children or the source
    texts of a node, within a byte and token budget of the whole JSON answer. *)

From stdpp Require Import base tactics list numbers option sets strings sorting relations.
From S2P Require Import Prelude JsString JsRegex Json Codec Paging CLine OMap Chat Operations Cas Objects History Fts Store Nodes Cursors.

Record ChildDescriptor := mkChild { cd_nodeId : jstr; cd_level : Z; cd_tokens : Z }.
Definition entry_of (n : LayeredNode) : ChildDescriptor := mkChild (ln_nodeId n) (ln_level n) (ln_tokens n).
Definition MISSING_CHILD : jstr := js "Node child is missing".
Definition NODE_LINEAGE : jstr := js "Invalid node lineage".

(** ** The children of a node *)

Record Listing := mkListing { li_children : list ChildDescriptor; li_ordinal : Z }.

Section Children.
Context (read : jstr → result jstr (option LayeredNode)) (depth : nat) (accepts : list ChildDescriptor → bool).

(** The [while] loop of [readNodeChildren]; the top of the stack comes first. *)
Fixpoint children_walk (fuel : nat) (stack : list (jstr * Z)) (li : Listing) : option (result jstr (list (jstr * Z) * Listing)) :=
  match fuel with
  | O => None
  | S f =>
    match stack with
    | [] => Some (Ok ([], li))
    | (hash, offset) :: below =>
      match read hash with
      | Throw e => Some (Throw e)
      | Ok None => Some (Throw MISSING_CHILD)
      | Ok (Some node) =>
        if (depth <=? length below)%nat || (zlen (ln_children node) =? 0) then
          let children := li_children li ++ [entry_of node] in
          if accepts children then children_walk f below (mkListing children (li_ordinal li + 1))
          else Some (Ok (stack, li))
        else
          match ln_children node !! Z.to_nat offset with
          | None => children_walk f below li
          | Some child =>
            if existsb (λ fr, jeqb fr.1 child) stack then Some (Throw NODE_LINEAGE)
            else children_walk f ((child, 0) :: (hash, offset + 1) :: below) li
          end
      end
    end
  end.

Definition readNodeChildren (fuel : nat) (original : HistoryFrontier) :
    option (result jstr (list ChildDescriptor * HistoryFrontier * bool)) :=
  res ← children_walk fuel (fr_stack original) (mkListing [] (fr_ordinal original));
  Some (let! p := res in
        Ok (li_children p.2, mkFrontier p.1 (li_ordinal p.2) (fr_intra original), match p.1 with [] => false | _ => true end)).

(** ** The listing as a sequence *)

Abbreviation entries := (list ChildDescriptor * option jstr)%type.

(** The entries below a node from its child number [offset] on, [d] levels
    down, and the error that cuts them short. *)
Fixpoint node_entries (d : nat) (lineage : list jstr) (hash : jstr) (offset : nat) : entries :=
  match read hash with
  | Throw e => ([], Some e)
  | Ok None => ([], Some MISSING_CHILD)
  | Ok (Some node) =>
    match d, ln_children node with
    | O, _ | _, [] => ([entry_of node], None)
    | S d', cs =>
      foldr (λ c rest, if existsb (λ a, jeqb a c) (hash :: lineage) then ([], Some NODE_LINEAGE)
                       else stream_app (node_entries d' (hash :: lineage) c 0) rest) ([], None) (drop offset cs)
    end
  end.
Fixpoint stack_entries (stack : list (jstr * Z)) : entries :=
  match stack with
  | [] => ([], None)
  | (hash, offset) :: below =>
    stream_app (node_entries (depth - length below) below.*1 hash (Z.to_nat offset)) (stack_entries below)
  end.

(** Loop iterations. *)
Fixpoint node_steps (d : nat) (hash : jstr) (offset : nat) : nat :=
  match read hash with
  | Ok (Some node) =>
    match d, ln_children node with
    | O, _ | _, [] => 1
    | S d', cs => foldr (λ c n, S (node_steps d' c 0 + n)) 1%nat (drop offset cs)
    end
  | _ => 1
  end.
Fixpoint stack_steps (stack : list (jstr * Z)) : nat :=
  match stack with
  | [] => 1
  | (hash, offset) :: below => node_steps (depth - length below) hash (Z.to_nat offset) + stack_steps below
  end.

(** The page taken off the front of a sequence of entries. *)
Fixpoint take_entries (es : list ChildDescriptor) (fin : option jstr) (li : Listing) : result jstr (entries * Listing) :=
  match es with
  | [] => match fin with Some e => Throw e | None => Ok (([], None), li) end
  | e :: rest =>
    let children := li_children li ++ [e] in
    if accepts children then take_entries rest fin (mkListing children (li_ordinal li + 1)) else Ok ((es, fin), li)
  end.

(** Offsets are positions, and no frame lies below the depth. *)
Fixpoint stack_ok (stack : list (jstr * Z)) : Prop :=
  match stack with
  | [] => True
  | (_, offset) :: below => 0 <= offset ∧ (length below <= depth)%nat ∧ stack_ok below
  end.

Definition listed (r : result jstr (entries * Listing)) (res : result jstr (list (jstr * Z) * Listing)) : Prop :=
  match r with
  | Throw e => res = Throw e
  | Ok (s, li) => ∃ stack, res = Ok (stack, li) ∧ stack_entries stack = s ∧ stack_ok stack ∧ (stack = [] ↔ s.1 = [])
  end.

Lemma seen_map (stack : list (jstr * Z)) c : existsb (λ fr, jeqb fr.1 c) stack = existsb (λ a, jeqb a c) stack.*1.
Proof. induction stack as [|fr r IH]; cbn; [done|by rewrite IH]. Qed.

Lemma steps_pos stack : (1 <= stack_steps stack)%nat.
Proof. destruct stack as [|[h o] below]; cbn; [lia|]. destruct (stack_steps below) eqn:E; [|lia].
  exfalso. revert E. clear. induction below as [|[h o] b IH]; cbn; [done|]. intros ?. apply IH. lia. Qed.

(** The children left of an inner node, one pushed. *)
Lemma entries_push node hash offset below c rest :
  read hash = Ok (Some node) → (length below < depth)%nat → 0 <= offset → drop (Z.to_nat offset) (ln_children node) = c :: rest →
  stack_entries ((hash, offset) :: below) =
    (if existsb (λ fr, jeqb fr.1 c) ((hash, offset) :: below) then ([], Some NODE_LINEAGE)
     else stack_entries ((c, 0) :: (hash, offset + 1) :: below))
  ∧ stack_steps ((hash, offset) :: below) = S (stack_steps ((c, 0) :: (hash, offset + 1) :: below)).
Proof.
  intros Hr Hl Ho Hd. assert (drop (Z.to_nat (offset + 1)) (ln_children node) = rest) as Hd'.
  { replace (Z.to_nat (offset + 1)) with (Z.to_nat offset + 1)%nat by lia. by rewrite <- drop_drop, Hd. }
  rewrite seen_map. cbn [stack_entries stack_steps length].
  destruct (depth - length below)%nat as [|d] eqn:Ed; [lia|]. replace (depth - S (length below))%nat with d by lia.
  assert (ln_children node ≠ []) as Hne by (intros Hn; rewrite Hn, drop_nil in Hd; done).
  assert (∀ o, node_entries (S d) below.*1 hash o =
    foldr (λ c rest, if existsb (λ a, jeqb a c) (hash :: below.*1) then ([], Some NODE_LINEAGE)
                     else stream_app (node_entries d (hash :: below.*1) c 0) rest) ([], None) (drop o (ln_children node))
    ∧ node_steps (S d) hash o = foldr (λ c n, S (node_steps d c 0 + n)) 1%nat (drop o (ln_children node))) as Hunf.
  { intros o. cbn [node_entries node_steps]. rewrite Hr. by destruct (ln_children node). }
  destruct (Hunf (Z.to_nat offset)) as [-> ->]. destruct (Hunf (Z.to_nat (offset + 1))) as [-> ->].
  rewrite Hd, Hd'. cbn [foldr]. rewrite fmap_cons. cbn [fst]. split; [|rewrite Z2Nat.inj_0; lia].
  case_test; [done|]. rewrite Z2Nat.inj_0. by rewrite stream_app_assoc.
Qed.

Lemma children_refine fuel stack li :
  (stack_steps stack <= fuel)%nat → stack_ok stack →
  ∃ res, children_walk fuel stack li = Some res ∧ listed (take_entries (stack_entries stack).1 (stack_entries stack).2 li) res.
Proof.
  revert stack li. induction fuel as [|f IH]; intros stack li Hf Hok; [pose proof (steps_pos stack); lia|].
  destruct stack as [|[h o] below]; [by eexists; split; [done|]; exists []|].
  cbn [children_walk]. pose proof Hok as (Ho & Hl & Hbelow).
  destruct (read h) as [[node|]|e] eqn:Er.
  2, 3: eexists; split; [done|]; cbn [stack_entries]; destruct (depth - length below)%nat; cbn [node_entries]; rewrite Er; done.
  assert (∀ e, stack_entries ((h, o) :: below) = stream_cons e (stack_entries below) →
    stack_steps ((h, o) :: below) = S (stack_steps below) →
    ∃ res, (if accepts (li_children li ++ [e]) then children_walk f below (mkListing (li_children li ++ [e]) (li_ordinal li + 1))
            else Some (Ok ((h, o) :: below, li))) = Some res
      ∧ listed (take_entries (stack_entries ((h, o) :: below)).1 (stack_entries ((h, o) :: below)).2 li) res) as Hentry.
  { intros e He Hs. pose proof He as He'. rewrite He. cbn [stream_cons fst snd take_entries]. case_test; [apply IH; [lia|done]|].
    eexists. split; [done|]. exists ((h, o) :: below). rewrite He'. split_and!; done. }
  destruct (depth <=? length below)%nat eqn:Ed; cbn [orb].
  { apply Nat.leb_le in Ed. apply Hentry; cbn [stack_entries stack_steps]; replace (depth - length below)%nat with O by lia;
      cbn [node_entries node_steps]; rewrite Er; by destruct (ln_children node). }
  apply Nat.leb_gt in Ed. destruct (zlen (ln_children node) =? 0) eqn:Ec.
  { bool_prop. assert (ln_children node = []) as Hn by (destruct (ln_children node); [done|cbn in Ec; lia]).
    apply Hentry; cbn [stack_entries stack_steps]; destruct (depth - length below)%nat; cbn [node_entries node_steps]; rewrite Er, ?Hn; done. }
  bool_prop. destruct (ln_children node !! Z.to_nat o) as [c|] eqn:El.
  - pose proof (drop_S _ _ _ El) as Hd. destruct (entries_push node h o below c _ Er Ed Ho Hd) as [He Hs]. rewrite He.
    rewrite Hs in Hf. case_test; [by eexists|]. apply IH; [lia|]. cbn [stack_ok length]. split_and!; [lia|lia|lia|lia|done].
  - apply lookup_ge_None in El. assert (ln_children node ≠ []) as Hne by (intros Hn; by rewrite Hn in Ec).
    assert (stack_entries ((h, o) :: below) = stack_entries below ∧ stack_steps ((h, o) :: below) = S (stack_steps below)) as [-> Hs].
    { cbn [stack_entries stack_steps]. destruct (depth - length below)%nat as [|d] eqn:E; [lia|]. cbn [node_entries node_steps]. rewrite Er.
      destruct (ln_children node) as [|c0 cs] eqn:Ecs; [done|]. rewrite drop_ge by done. cbn [foldr]. by rewrite stream_app_nil. }
    apply IH; [lia|done].
Qed.
End Children.

Section ChildrenSpec.
Context (sha256Hex : jstr → jstr) (meta : MetaDb) (db : NodeDb) (ns : Namespace) (depth : nat) (accepts : list ChildDescriptor → bool).
Context (Hok : graph_ok sha256Hex meta db).
Abbreviation read := (readNode sha256Hex db ns).

Lemma take_entries_spec es li :
  ∃ got rest, es = got ++ rest
    ∧ take_entries accepts es None li = Ok ((rest, None), mkListing (li_children li ++ got) (li_ordinal li + zlen got))
    ∧ match rest with [] => True | e :: _ => accepts (li_children li ++ got ++ [e]) = false end.
Proof.
  revert li. induction es as [|e es IH]; intros li; cbn [take_entries].
  { exists [], []. destruct li as [cs n]. cbn. by rewrite app_nil_r, Z.add_0_r. }
  destruct (accepts (li_children li ++ [e])) eqn:E.
  - destruct (IH (mkListing (li_children li ++ [e]) (li_ordinal li + 1))) as (got & rest & -> & -> & Hr). exists (e :: got), rest.
    cbn [li_children li_ordinal] in *. split_and!; [done| |destruct rest as [|e' rest]; [done|]; by rewrite <- app_assoc in Hr].
    rewrite <- app_assoc. cbn [app length]. do 2 f_equal. f_equal. lia.
  - exists [], (e :: es). destruct li as [cs n]. cbn. by rewrite app_nil_r, Z.add_0_r.
Qed.

(** Entries of a stored node: no error, all of them nodes below it. *)
Lemma node_entries_ok d lineage h node o :
  get (ns, h) (nd_nodes db) = Some node →
  (∀ a, a ∈ lineage → ∃ m, get (ns, a) (nd_nodes db) = Some m ∧ ln_level node < ln_level m) →
  (node_entries read d lineage h o).2 = None
  ∧ Forall (λ e, ∃ i n, rtc (child_of db ns) h i ∧ get (ns, i) (nd_nodes db) = Some n ∧ e = entry_of n) (node_entries read d lineage h o).1.
Proof.
  revert lineage h node o. induction d as [|d IH]; intros lineage h node o Hg Hlin; cbn [node_entries];
    rewrite (readNode_get sha256Hex meta) by done; rewrite Hg.
  { split; [by destruct (ln_children node)|]. assert (Forall (λ e, ∃ i n, rtc (child_of db ns) h i ∧ get (ns, i) (nd_nodes db) = Some n ∧ e = entry_of n) [entry_of node])
      by (constructor; [by exists h, node|constructor]). by destruct (ln_children node). }
  destruct (ln_children node) as [|c0 cs0] eqn:Ecs.
  { split; [done|]. constructor; [by exists h, node|constructor]. }
  rewrite <- Ecs. assert (∀ c, c ∈ drop o (ln_children node) → c ∈ ln_children node) as Hsub.
  { intros c Hc. by eapply subseteq_drop. }
  revert Hsub. generalize (drop o (ln_children node)) as cs. intros cs. induction cs as [|c cs IHcs]; intros Hsub; [split; [done|constructor]|].
  cbn [foldr]. destruct IHcs as [IH1 IH2]; [intros c' Hc'; apply Hsub; by right|].
  assert (c ∈ ln_children node) as Hc by (apply Hsub; by left).
  destruct (go_children _ _ _ Hok _ _ _ _ Hg Hc) as (m & Hm & Hlt).
  destruct (existsb (λ a, jeqb a c) (h :: lineage)) eqn:Ex.
  { exfalso. apply existsb_exists in Ex as (a & Ha & Heq). apply jeqb_eq in Heq as ->. apply list_elem_of_In in Ha.
    apply elem_of_cons in Ha as [->|Ha]; [simplify_eq; lia|]. destruct (Hlin c Ha) as (m' & Hm' & Hlt'). simplify_eq. lia. }
  destruct (IH (h :: lineage) c m 0%nat Hm) as [H1 H2].
  { intros a [->|Ha]%elem_of_cons; [by exists node|]. destruct (Hlin a Ha) as (p & Hp & Hlt'). exists p. split; [done|lia]. }
  unfold stream_app. rewrite H1. cbn [fst snd]. split; [done|]. apply Forall_app. split; [|done].
  eapply Forall_impl; [exact H2|]. intros e (i & n & Hr & Hn & ->). exists i, n. split_and!; [|done|done].
  eapply rtc_l; [|done]. by exists node.
Qed.

Lemma children_page st fuel es :
  stack_ok depth (fr_stack st) → stack_entries read depth (fr_stack st) = (es, None) → (stack_steps read depth (fr_stack st) <= fuel)%nat →
  ∃ children st' rest, readNodeChildren read depth accepts fuel st = Some (Ok (children, st', negb (bool_decide (rest = []))))
    ∧ es = children ++ rest ∧ stack_ok depth (fr_stack st') ∧ stack_entries read depth (fr_stack st') = (rest, None)
    ∧ match rest with [] => True | e :: _ => accepts (children ++ [e]) = false end.
Proof.
  intros Hst Hes Hf. unfold readNodeChildren.
  destruct (children_refine read depth accepts fuel (fr_stack st) (mkListing [] (fr_ordinal st)) Hf Hst) as (res & -> & Hres).
  cbn [mbind option_bind]. rewrite Hes in Hres. cbn [fst snd] in Hres.
  destruct (take_entries_spec es (mkListing [] (fr_ordinal st))) as (got & rest & -> & Heq & Hrest). rewrite Heq in Hres.
  destruct Hres as (stack & -> & Hs & Hso & Hne). cbn [rbind fst snd li_children li_ordinal app] in *. exists got, (mkFrontier stack (fr_ordinal st + zlen got) (fr_intra st)), rest.
  split_and!; [|done|exact Hso|exact Hs|done]. cbn [fr_stack]. do 2 f_equal.
  destruct stack as [|fr stack]; [rewrite bool_decide_true by (by apply Hne); done|].
  rewrite bool_decide_false; [done|]. intros H. by apply Hne in H.
Qed.
End ChildrenSpec.

(** ** The answer for a node *)

Record NodeDescriptor := mkDescriptor { de_nodeId : jstr; de_level : Z; de_policyVersion : jstr; de_tokens : Z; de_sourceTokens : Z }.
Definition descriptor (n : LayeredNode) : NodeDescriptor :=
  mkDescriptor (ln_nodeId n) (ln_level n) (ln_policyVersion n) (ln_tokens n) (ln_sourceTokens n).

Inductive NodeDetail : Type := DSummary | DChildren | DSource.
Inductive NodeBody : Type :=
| BSummary
| BChildren (children : list ChildDescriptor)
| BSource (items : list HistoryItem).
Record NodeResult := mkNodeResult {
  nr_node : NodeDescriptor; nr_content : jstr; nr_body : NodeBody; nr_nextCursor : option jstr; nr_truncated : bool }.
Record RetrieveByNodeParams := mkByNode {
  bn_ns : Namespace; bn_nodeId : jstr; bn_detail : option NodeDetail; bn_depth : option nat;
  bn_cursor : option jstr; bn_maxBytes : option Z; bn_maxTokens : option Z }.

Definition detail_text (d : NodeDetail) : jstr := match d with DSummary => js "summary" | DChildren => js "children" | DSource => js "source" end.
Definition json_of_child (c : ChildDescriptor) : json :=
  JObj [(js "nodeId", JStr (cd_nodeId c)); (js "level", num (cd_level c)); (js "tokens", num (cd_tokens c))].
Definition json_of_item (i : HistoryItem) : json :=
  JObj [(js "contentHash", JStr (it_hash i)); (js "role", JStr (role_text (it_role i))); (js "turnIndex", num (it_turnIndex i));
        (js "content", JStr (it_content i))].
Definition json_of_result (r : NodeResult) : json :=
  let d := nr_node r in
  JObj ([(js "found", JBool true);
         (js "node", JObj [(js "nodeId", JStr (de_nodeId d)); (js "level", num (de_level d)); (js "policyVersion", JStr (de_policyVersion d));
                           (js "tokens", num (de_tokens d)); (js "sourceTokens", num (de_sourceTokens d))]);
         (js "content", JStr (nr_content r))]
        ++ match nr_body r with
           | BSummary => []
           | BChildren cs => [(js "children", JArr (map json_of_child cs))]
           | BSource items => [(js "sourceItems", JArr (map json_of_item items))]
           end
        ++ [(js "nextCursor", match nr_nextCursor r with Some c => JStr c | None => JNull end); (js "truncated", JBool (nr_truncated r))]).

(** [fits] *)
Definition node_maxBytes (p : RetrieveByNodeParams) : Z := Z.min (default 32768 (bn_maxBytes p)) 131072.
Definition node_maxTokens (p : RetrieveByNodeParams) : Z := Z.min (default 2048 (bn_maxTokens p)) 8192.
Definition fits (p : RetrieveByNodeParams) (r : NodeResult) : bool :=
  let text := stringify (json_of_result r) in
  (byte_length text <=? node_maxBytes p) && (ceil4 (zlen text) <=? node_maxTokens p).

(** What [row] of the source reader remembers for [content]. *)
Inductive NodeAction : Type := AChild (child : jstr) | ASource (source : LayeredSourceRef) (projection : option ChatMessage).

(** The text a source reference names in its message. *)
Definition source_text (source : LayeredSourceRef) (m : ChatMessage) : jstr :=
  let text := match (i ← ls_partIndex source; m_parts m !! Z.to_nat i) with
              | Some (PText t) => t
              | Some (PTool _ _ _ st) => match ts_output st with Some o => o | None => default [] (ts_error st) end
              | None => renderProjection m
              end in
  match ls_start source with
  | Some s => slice text (Z.to_nat s) (match ls_end source with Some e => Z.to_nat e | None => length text end)
  | None => text
  end.

Section NodeRetrieval.
Context (sha256Hex : jstr → jstr) (gunzip : Z → bytes → option bytes) (files : fs) (dataDir : jstr).
Context (db : NodeDb) (uuid : nat → jstr) (now : Z) (fuel : nat).

Definition NOT_OWNED : jstr := js "Node source is not owned by namespace".
Definition NODE_BUDGET : jstr := js "Node retrieval budget cannot fit the JSON envelope".

Definition source_reader (meta : MetaDb) (ns : Namespace) (turnIndex : Z) : HistoryReader NodeAction :=
  mkReader
    (λ id offset,
      let! node := readNode sha256Hex db ns id in
      match node with
      | None => Throw MISSING_CHILD
      | Some node =>
        match ln_children node !! Z.to_nat offset with
        | Some child => Ok (Some (mkRow child RAssistant turnIndex None (AChild child)))
        | None =>
          match ln_sourceRefs node !! Z.to_nat (offset - zlen (ln_children node)) with
          | None => Ok None
          | Some source =>
            throw_if negb (ownsCasMeta meta ns (ls_contentHash source)) with NOT_OWNED in
            let! projection := readMessageObject sha256Hex gunzip files files dataDir (ls_contentHash source) in
            Ok (Some (mkRow (ls_contentHash source) (match projection with Some m => m_role m | None => RAssistant end) turnIndex None
                        (ASource source projection)))
          end
        end
      end)
    (λ r, match rw_memo r with
          | AChild child => Ok (Some (CChild child))
          | ASource source (Some m) => Ok (Some (CText (source_text source m)))
          | ASource _ None => Ok None
          end).

(** The frontier a cursor stands for. *)
Definition node_frontier (meta : MetaDb) (p : RetrieveByNodeParams) (ref : jstr) : result jstr HistoryFrontier :=
  match bn_cursor p with
  | Some (_ :: _ as c) => loadHistoryCursor meta (bn_ns p) ref c
  | _ => Ok (mkFrontier [(bn_nodeId p, 0)] 0 0)
  end.

(** A page's [nextCursor], saved when there is more. *)
Definition save_more (meta : MetaDb) (ns : Namespace) (ref : jstr) (more : bool) (state : HistoryFrontier) (attempt : nat) :
    result jstr (MetaDb * option jstr) :=
  if more then let! saved := saveHistoryCursor meta ns ref state (uuid attempt) now in Ok (saved.1, Some saved.2) else Ok (meta, None).

Definition text_error {A} (r : result page_error A) : result jstr A := match r with Ok a => Ok a | Throw e => Throw (page_error_text e) end.

Definition node_ref (p : RetrieveByNodeParams) (detail : NodeDetail) : jstr :=
  stringify (JArr [json_of_namespace (bn_ns p); JStr (bn_nodeId p); JStr (detail_text detail); num (Z.of_nat (default 1%nat (bn_depth p)))]).

Definition retrieve_children (meta : MetaDb) (p : RetrieveByNodeParams) (root : LayeredNode) (ref : jstr) :
    option (MetaDb * result jstr NodeResult) :=
  match node_frontier meta p ref with
  | Throw e => Some (meta, Throw e)
  | Ok state =>
    let answer children cursor more := mkNodeResult (descriptor root) [] (BChildren children) cursor more in
    page ← readNodeChildren (readNode sha256Hex db (bn_ns p)) (default 1%nat (bn_depth p))
             (λ children, fits p (answer children (Some (js "h3-" ++ repeat 48 36)) true)) fuel state;
    match page with
    | Throw e => Some (meta, Throw e)
    | Ok (children, state', more) =>
      if (zlen children =? 0) && more then Some (meta, Throw (js "Node retrieval budget cannot fit a reference")) else
      match save_more meta (bn_ns p) ref more state' 0 with
      | Throw e => Some (meta, Throw e)
      | Ok (meta', cursor) =>
        let r := answer children cursor more in
        Some (meta', if fits p r then Ok r else Throw NODE_BUDGET)
      end
    end
  end.

(** One attempt with a given allowance: the tables after, and the answer. *)
Definition attempt_summary (p : RetrieveByNodeParams) (root : LayeredNode) (ref : jstr) (allowance : Z) : result jstr NodeResult :=
  let! page := text_error (paginateText (ln_text root)
                 {| po_ref := ref; po_cursor := match bn_cursor p with Some (_ :: _ as c) => Some c | _ => None end;
                    po_maxBytes := Some allowance; po_maxTokens := Some allowance |}) in
  Ok (mkNodeResult (descriptor root) (tp_content page) BSummary (tp_nextCursor page) (tp_truncated page)).

Definition attempt_source (meta : MetaDb) (p : RetrieveByNodeParams) (root : LayeredNode) (ref : jstr) (allowance : Z) (attempt : nat) :
    option (MetaDb * result jstr NodeResult) :=
  match node_frontier meta p ref with
  | Throw e => Some (meta, Throw e)
  | Ok state =>
    page ← readHistoryPage fuel (source_reader meta (bn_ns p) (fr_ordinal state)) state (mkRequest (Some allowance) (Some allowance) (Some 1));
    match page with
    | Throw e => Some (meta, Throw e)
    | Ok page =>
      if negb (zlen (hp_missingHashes page) =? 0) then Some (meta, Throw (js "Node source object is missing; archive is incomplete")) else
      match save_more meta (bn_ns p) ref (hp_more page) (hp_state page) attempt with
      | Throw e => Some (meta, Throw e)
      | Ok (meta', cursor) => Some (meta', Ok (mkNodeResult (descriptor root) [] (BSource (hp_items page)) cursor (hp_more page)))
      end
    end
  end.

(** At most eight attempts, each with half the allowance of the last. *)
Fixpoint attempts (n : nat) (meta : MetaDb) (p : RetrieveByNodeParams) (detail : NodeDetail) (root : LayeredNode) (ref : jstr) (allowance : Z) :
    option (MetaDb * result jstr NodeResult) :=
  match n with
  | O => Some (meta, Throw NODE_BUDGET)
  | S n' =>
    res ← match detail with
          | DSource => attempt_source meta p root ref allowance (8 - n)
          | _ => Some (meta, attempt_summary p root ref allowance)
          end;
    match res with
    | (meta', Throw e) => Some (meta', Throw e)
    | (meta', Ok r) => if fits p r then Some (meta', Ok r) else attempts n' meta' p detail root ref (Z.max 1 (allowance / 2))
    end
  end.

(** [None] answers [found: false] (inside [Ok]); the outer [None] is fuel. *)
Definition retrieveNode (meta : MetaDb) (p : RetrieveByNodeParams) : option (MetaDb * result jstr (option NodeResult)) :=
  match readNode sha256Hex db (bn_ns p) (bn_nodeId p) with
  | Throw e => Some (meta, Throw e)
  | Ok None => Some (meta, Ok None)
  | Ok (Some root) =>
    let detail := default DSummary (bn_detail p) in
    let ref := node_ref p detail in
    res ← match detail with
          | DChildren => retrieve_children meta p root ref
          | _ => attempts 8 meta p detail root ref (Z.max 1 (Z.min (node_maxBytes p) (node_maxTokens p * 4) - 512))
          end;
    Some (res.1, let! r := res.2 in Ok (Some r))
  end.
End NodeRetrieval.

(** ** Claims *)

(** Listing the nodes below a stored node never fails and is the listing of
    the nodes the graph reaches from it: a page is the longest prefix of what is
    left whose answer the budget accepts, its cursor stands for exactly the
    rest, and there is more exactly when something is left. *)
Theorem node_children_listing sha256Hex meta db ns depth accepts root node :
  graph_ok sha256Hex meta db → get (ns, root) (nd_nodes db) = Some node →
  let read := readNode sha256Hex db ns in
  ∃ es, stack_entries read depth [(root, 0)] = (es, None)
    ∧ Forall (λ e, ∃ i n, rtc (child_of db ns) root i ∧ get (ns, i) (nd_nodes db) = Some n ∧ e = entry_of n) es
    ∧ ∀ st fuel rest0, stack_ok depth (fr_stack st) → stack_entries read depth (fr_stack st) = (rest0, None) →
        (stack_steps read depth (fr_stack st) <= fuel)%nat →
        ∃ children st' rest, readNodeChildren read depth accepts fuel st = Some (Ok (children, st', negb (bool_decide (rest = []))))
          ∧ rest0 = children ++ rest ∧ stack_ok depth (fr_stack st') ∧ stack_entries read depth (fr_stack st') = (rest, None)
          ∧ match rest with [] => True | e :: _ => accepts (children ++ [e]) = false end.
Proof.
  intros Hok Hg read. destruct (node_entries_ok sha256Hex meta db ns Hok depth [] root node 0 Hg) as [H1 H2]; [by intros a ?%elem_of_nil|].
  exists (node_entries read depth [] root 0).1. split_and!; [|done|].
  - cbn [stack_entries length fmap list_fmap]. rewrite Nat.sub_0_r. unfold stream_app. unfold read in *. rewrite Z2Nat.inj_0, H1. cbn. by rewrite app_nil_r.
  - intros st fuel rest0 Hst Hes Hf. by apply children_page.
Qed.

(** The texts of a message. *)
Inductive message_text (m : ChatMessage) : jstr → Prop :=
  | text_rendering : message_text m (renderProjection m)
  | text_part t : PText t ∈ m_parts m → message_text m t
  | text_output tool callId input st o : PTool tool callId input st ∈ m_parts m → ts_output st = Some o → message_text m o
  | text_error_of tool callId input st : PTool tool callId input st ∈ m_parts m → ts_output st = None → message_text m (default [] (ts_error st)).
(** A piece of a message a node of the namespace has for a source, from
    the range the source names. *)
Definition source_quoted (read : jstr → option ChatMessage) (db : NodeDb) (meta : MetaDb) (ns : Namespace) (it : HistoryItem) : Prop :=
  ownsCasMeta meta ns (it_hash it) = true
  ∧ ∃ i node source m t a b, get (ns, i) (nd_nodes db) = Some node ∧ source ∈ ln_sourceRefs node ∧ ls_contentHash source = it_hash it
      ∧ read (it_hash it) = Some m ∧ message_text m t ∧ it_content it = slice t a b
      ∧ ∀ s, ls_start source = Some s → (Z.to_nat s <= a)%nat ∧ ∀ e, ls_end source = Some e → (b <= Nat.max (Z.to_nat s) (Z.to_nat e))%nat.
(** Every answer fits, names the node asked for, and shows what the
    namespace has: a piece of the node's text, nodes, or pieces of sources. *)
Definition answer_ok (read : jstr → option ChatMessage) (db : NodeDb) (meta : MetaDb) (p : RetrieveByNodeParams) (r : NodeResult) : Prop :=
  fits p r = true ∧ ∃ n, get (bn_ns p, bn_nodeId p) (nd_nodes db) = Some n ∧ nr_node r = descriptor n
  ∧ match nr_body r with
    | BSummary => ∃ a b, nr_content r = slice (ln_text n) a b
    | BChildren cs => nr_content r = [] ∧ Forall (λ e, ∃ i n', get (bn_ns p, i) (nd_nodes db) = Some n' ∧ e = entry_of n') cs
    | BSource items => nr_content r = [] ∧ Forall (source_quoted read db meta (bn_ns p)) items
    end.

Lemma slice_in_slice (t : jstr) s e c d :
  ∃ a b, slice (slice t s e) c d = slice t a b ∧ (s <= a)%nat ∧ (b <= Nat.max s e)%nat.
Proof.
  exists (s + Nat.min c (e - s))%nat, (s + Nat.min c (e - s) + Nat.min (d - c) (e - s - c))%nat. split_and!; [|lia|lia].
  unfold slice. rewrite skipn_firstn_comm, drop_drop, take_take. destruct (Nat.le_ge_cases c (e - s)) as [H|H].
  - rewrite (Nat.min_l c) by lia. f_equal. lia.
  - replace (e - s - c)%nat with 0%nat by lia. rewrite Nat.min_0_r, Nat.add_0_r, Nat.sub_diag. done.
Qed.

(** The text of a source is the text of a part, or the rendering, cut to the range. *)
Lemma source_text_cut source m c d : ∃ t a b, message_text m t ∧ slice (source_text source m) c d = slice t a b
  ∧ ∀ s, ls_start source = Some s → (Z.to_nat s <= a)%nat ∧ ∀ e, ls_end source = Some e → (b <= Nat.max (Z.to_nat s) (Z.to_nat e))%nat.
Proof.
  unfold source_text. set (text := match (i ← ls_partIndex source; _) with Some _ => _ | None => _ end).
  assert (message_text m text) as Ht.
  { unfold text. destruct (ls_partIndex source) as [i|]; cbn [mbind option_bind]; [|constructor].
    destruct (m_parts m !! Z.to_nat i) as [part|] eqn:E; [|constructor]. apply list_elem_of_lookup_2 in E.
    destruct part as [t|tool callId input st]; [by constructor|]. destruct (ts_output st) eqn:Eo; [by eapply text_output|by eapply text_error_of]. }
  exists text. destruct (ls_start source) as [s|]; [|by exists c, d].
  destruct (ls_end source) as [e|]; [|].
  - destruct (slice_in_slice text (Z.to_nat s) (Z.to_nat e) c d) as (a & b & H1 & H2 & H3). exists a, b. split_and!; [done|done|]. intros ? [= <-]. split; [done|]. by intros ? [= <-].
  - destruct (slice_in_slice text (Z.to_nat s) (length text) c d) as (a & b & H1 & H2 & H3). exists a, b. split_and!; [done|done|]. intros ? [= <-]. by split.
Qed.

Lemma children_walk_all read depth accepts (P : ChildDescriptor → Prop) fuel stack li stack' li' :
  (∀ h node, read h = Ok (Some node) → P (entry_of node)) →
  children_walk read depth accepts fuel stack li = Some (Ok (stack', li')) → Forall P (li_children li) → Forall P (li_children li').
Proof.
  intros HP. revert stack li. induction fuel as [|f IH]; intros stack li; cbn [children_walk]; [done|].
  destruct stack as [|[h o] below]; [by intros [= _ <-]|]. destruct (read h) as [[node|]|e] eqn:Er; [|done|done].
  destruct (_ || _).
  - destruct (accepts _); [|by intros [= _ <-]]. intros H Hl. apply (IH _ _ H). cbn [li_children]. apply Forall_app. split; [done|]. constructor; [by eapply HP|constructor].
  - destruct (ln_children node !! Z.to_nat o); [|by apply IH]. destruct (existsb _ _); [done|]. by apply IH.
Qed.

Lemma save_more_refs uuid now meta ns ref more state attempt meta' c :
  save_more uuid now meta ns ref more state attempt = Ok (meta', c) → md_archive_refs meta' = md_archive_refs meta.
Proof.
  unfold save_more, saveHistoryCursor. destruct more; [|by intros [= <- _]]. case_test; [done|]. by intros [= <- _].
Qed.

Lemma owns_refs meta meta' ns h : md_archive_refs meta' = md_archive_refs meta → ownsCasMeta meta' ns h = ownsCasMeta meta ns h.
Proof. unfold ownsCasMeta. by intros ->. Qed.

Section Answers.
Context (sha256Hex : jstr → jstr) (gunzip : Z → bytes → option bytes) (files : fs) (dataDir : jstr).
Context (db : NodeDb) (uuid : nat → jstr) (now : Z) (fuel : nat) (meta0 : MetaDb) (Hgraph : graph_ok sha256Hex meta0 db).
(** The object of a hash, when it reads back. *)
Definition object_of (hash : jstr) : option ChatMessage :=
  match readMessageObject sha256Hex gunzip files files dataDir hash with Ok m => m | Throw _ => None end.

Lemma source_items meta p turn st o page :
  readHistoryPage fuel (source_reader sha256Hex gunzip files dataDir db meta (bn_ns p) turn) st o = Some (Ok page) →
  Forall (source_quoted object_of db meta (bn_ns p)) (hp_items page).
Proof.
  intros H. apply readHistoryPage_items in H. eapply Forall_impl; [exact H|].
  intros it (h & off & r & text & a & b & Hr & Hc & Hh & _ & _ & Ht). cbn [source_reader row content] in *.
  rewrite (readNode_get sha256Hex meta0) in Hr by done.
  destruct (get (bn_ns p, h) (nd_nodes db)) as [node|] eqn:Hn; cbn [rbind] in Hr; [|done].
  destruct (ln_children node !! Z.to_nat off) as [child|]; [by injection Hr as <-|].
  destruct (ln_sourceRefs node !! _) as [source|] eqn:Es; [|done]. destruct (ownsCasMeta meta (bn_ns p) (ls_contentHash source)) eqn:Eo; [|done].
  cbn [negb] in Hr. destruct (readMessageObject _ _ _ _ _ _) as [projection|] eqn:Em; cbn [rbind] in Hr; [|done]. injection Hr as <-.
  cbn [rw_memo rw_hash] in *. destruct projection as [m|]; [|done]. injection Hc as <-. rewrite <- Hh in *. split; [done|].
  destruct (source_text_cut source m a b) as (t & a' & b' & Hm & Hs & Hcut). exists h, node, source, m, t, a', b'. rewrite Ht.
  split_and!; [done|by eapply list_elem_of_lookup_2|done| |done|done|done]. unfold object_of. by rewrite Em.
Qed.

Lemma attempts_ok n meta p detail root ref allowance meta' r :
  get (bn_ns p, bn_nodeId p) (nd_nodes db) = Some root →
  attempts sha256Hex gunzip files dataDir db uuid now fuel n meta p detail root ref allowance = Some (meta', Ok r) →
  answer_ok object_of db meta p r.
Proof.
  intros Hg. revert meta allowance. induction n as [|n IH]; intros meta allowance; cbn [attempts]; [done|].
  destruct (match detail with DSource => _ | _ => _ end) as [[m1 [r1|e]]|] eqn:E; cbn [mbind option_bind]; [|done|done].
  assert (md_archive_refs m1 = md_archive_refs meta ∧ nr_node r1 = descriptor root
    ∧ match nr_body r1 with
      | BSummary => ∃ a b, nr_content r1 = slice (ln_text root) a b
      | BChildren _ => False
      | BSource items => nr_content r1 = [] ∧ Forall (source_quoted object_of db meta (bn_ns p)) items
      end) as (Hm & Hn & Hb).
  { assert (Some (meta, attempt_summary p root ref allowance) = Some (m1, Ok r1) → md_archive_refs m1 = md_archive_refs meta
      ∧ nr_node r1 = descriptor root ∧ nr_body r1 = BSummary ∧ ∃ a b, nr_content r1 = slice (ln_text root) a b) as Hsum.
    { intros [= <- Hs]. unfold attempt_summary in Hs. apply rbind_ok in Hs as (page & Hp & [= <-]). split_and!; [done|done|done|].
      destruct (paginateText _ _) as [page'|] eqn:Ep; [|done]. injection Hp as <-.
      destruct (paginate_shape _ _ _ Ep) as (lim & a & b & _ & _ & [_ _ Hc _ _ _ _ _ _ _ _]). by exists (Z.to_nat a), (Z.to_nat b). }
    destruct detail; [apply Hsum in E as (H1 & H2 & -> & H3); done|apply Hsum in E as (H1 & H2 & -> & H3); done|].
    unfold attempt_source in E. destruct (node_frontier meta p ref) as [st|]; [|done]. destruct (readHistoryPage _ _ _ _) as [[page|]|] eqn:Ep; [|done|done].
    cbn [mbind option_bind] in E. case_test_in E; [done|].
    destruct (save_more uuid now meta (bn_ns p) ref (hp_more page) (hp_state page) (8 - S n)) as [[m2 c]|] eqn:Es; [|done].
    injection E as <- <-. split_and!; [by eapply save_more_refs|done|]. cbn [nr_body]. split; [done|]. by eapply source_items. }
  destruct (fits p r1) eqn:Ef.
  - intros [= <- <-]. split; [done|]. exists root. split_and!; [done|done|]. by destruct (nr_body r1).
  - intros H. destruct (IH m1 _ H) as (H1 & root' & H2 & H3 & H4). split; [done|]. exists root'. split_and!; [done|done|].
    destruct (nr_body r); [done|done|]. destruct H4 as [H4 H5]. split; [done|]. eapply Forall_impl; [exact H5|].
    intros it [Ho Hq]. split; [|exact Hq]. by rewrite <- (owns_refs meta m1).
Qed.
End Answers.

Lemma node_answer_ok sha256Hex gunzip files dataDir db uuid now fuel meta0 meta p meta' r :
  graph_ok sha256Hex meta0 db →
  retrieveNode sha256Hex gunzip files dataDir db uuid now fuel meta p = Some (meta', Ok (Some r)) →
  answer_ok (object_of sha256Hex gunzip files dataDir) db meta p r.
Proof.
  intros Hok. unfold retrieveNode. rewrite (readNode_get sha256Hex meta0) by done.
  destruct (get (bn_ns p, bn_nodeId p) (nd_nodes db)) as [root|] eqn:Hg; [|done].
  destruct (match default DSummary (bn_detail p) with DChildren => _ | _ => _ end) as [[m1 [r1|e]]|] eqn:E; cbn; [|done|done].
  intros [= <- <-]. destruct (default DSummary (bn_detail p)); [by eapply attempts_ok| |by eapply attempts_ok].
  unfold retrieve_children in E. destruct (node_frontier _ _ _) as [st|]; [|done].
  destruct (readNodeChildren _ _ _ _ _) as [[[[children st'] more]|]|] eqn:Ec; [|done|done]. cbn [mbind option_bind] in E.
  assert (Forall (λ e, ∃ i n', get (bn_ns p, i) (nd_nodes db) = Some n' ∧ e = entry_of n') children) as Hall.
  { unfold readNodeChildren in Ec. destruct (children_walk _ _ _ _ _ _) as [[[stack li]|]|] eqn:Ew; [|done|done]. cbn in Ec. injection Ec as <- _ _.
    eapply (children_walk_all _ _ _ _ _ _ _ _ _ _ Ew); [constructor]. Unshelve. intros h node. rewrite (readNode_get sha256Hex meta0) by done.
    intros [= Hn]. by exists h, node. }
  case_test_in E; [done|]. destruct (save_more _ _ _ _ _ _ _ _) as [[m2 c]|]; [|done]. injection E as <- E.
  case_test_in E; [|done]. injection E as <-. split; [done|]. by exists root.
Qed.

(** Whatever it answers for a node, the JSON of the answer fits the byte and
    the token budget asked for, describes the node of that id in the namespace,
    and shows a piece of that node's text, nodes of the namespace, or pieces of
    source objects the ledger attributes to it. *)
Theorem retrieveNode_fits sha256Hex gunzip files dataDir db uuid now fuel meta0 meta p meta' r :
  graph_ok sha256Hex meta0 db →
  retrieveNode sha256Hex gunzip files dataDir db uuid now fuel meta p = Some (meta', Ok (Some r)) →
  answer_ok (object_of sha256Hex gunzip files dataDir) db meta p r.
Proof. apply node_answer_ok. Qed.

(** ** Witnesses *)

Lemma node_children_listing_witness :
  ∃ children st', readNodeChildren (readNode kin_sha kin_db kin_ns) 1 (λ cs, (length cs <=? 1)%nat) 9 (mkFrontier [(repeat 98 64, 0)] 0 0)
    = Some (Ok (children, st', false)) ∧ children = [entry_of kin_leaf].
Proof.
  destruct (node_children_listing kin_sha kin_meta kin_db kin_ns 1 (λ cs, (length cs <=? 1)%nat) (repeat 98 64) kin_parent kin_ok)
    as (es & He & _ & Hpage); [vm_compute; reflexivity|].
  assert (es = [entry_of kin_leaf]) as -> by (vm_compute in He; by injection He as <-).
  destruct (Hpage (mkFrontier [(repeat 98 64, 0)] 0 0) 9%nat [entry_of kin_leaf]) as (children & st' & rest & Hr & Hes & _ & _ & Hmax);
    [cbn; split_and!; lia|exact He|apply Nat.leb_le; vm_compute; reflexivity|].
  destruct children as [|c [|c2 cs]]; cbn in Hes.
  - destruct rest as [|e rest]; [done|]. injection Hes as <- <-. vm_compute in Hmax. discriminate.
  - injection Hes as <- <-. exists [entry_of kin_leaf], st'. split; [exact Hr|reflexivity].
  - by injection Hes.
Defined.

Definition kin_request : RetrieveByNodeParams := mkByNode kin_ns (repeat 98 64) None None None None None.
Lemma retrieveNode_fits_witness :
  ∃ meta' r, retrieveNode kin_sha (λ _ b, Some b) [] (js "/data") kin_db (λ _, js "u") 0 9 kin_meta kin_request = Some (meta', Ok (Some r))
    ∧ answer_ok (object_of kin_sha (λ _ b, Some b) [] (js "/data")) kin_db kin_meta kin_request r ∧ nr_content r = js "parent text".
Proof.
  destruct (retrieveNode kin_sha (λ _ b, Some b) [] (js "/data") kin_db (λ _, js "u") 0 9 kin_meta kin_request) as [[meta' [[r|]|e]]|] eqn:E;
    [|vm_compute in E; discriminate..].
  exists meta', r. split; [done|]. split; [exact (retrieveNode_fits kin_sha _ _ _ _ _ _ _ kin_meta kin_meta kin_request meta' r kin_ok E)|].
  vm_compute in E. by injection E as <- <-.
Defined.
