(* ===== verification/Retrieve.v ===== *)
(** * Retrieval ([packages/headroomd/src/engine.ts], [retrieve], [historyLeaves])

    The four retrieve modes: one archived message by hash, a history page by
    page, a full-text query, an evidence node.  The object files, the index and
    the ledger are the state; only the cursor table changes. *)

From stdpp Require Import base tactics list numbers option sets strings sorting.
From S2P Require Import Prelude JsString JsRegex Json Codec Paging CLine OMap Chat Operations Summary Compaction Compress Cas Objects History Fts Store Archive Nodes Cursors NodeRetrieval.

Definition RETRIEVE_LIMIT_CAP : Z := 50.

(** ** Requests and answers *)

Record ByHash := mkByHash { bh_ns : Namespace; bh_hash : jstr; bh_cursor : option jstr; bh_maxBytes : option Z; bh_maxTokens : option Z }.
Record ByHistory := mkByHistory {
  by_ns : Namespace; by_historyHash : jstr; by_offset : option Z; by_limit : option Z;
  by_cursor : option jstr; by_maxBytes : option Z; by_maxTokens : option Z }.
Inductive QueryStyle : Type := Cards | Segments.
Record ByQuery := mkByQuery {
  bq_ns : Namespace; bq_query : jstr; bq_style : option QueryStyle; bq_limit : option Z;
  bq_cursor : option jstr; bq_maxBytes : option Z; bq_maxTokens : option Z }.
Inductive RetrieveParams : Type :=
| RHash (p : ByHash) | RHistory (p : ByHistory) | RQuery (p : ByQuery) | RNode (p : RetrieveByNodeParams).

Record HistoryAnswer := mkHistoryAnswer {
  ha_items : list HistoryItem; ha_nextOffset : option Z; ha_nextCursor : option jstr;
  ha_truncated : bool; ha_partial : bool; ha_missingHashes : list jstr }.
(** A hit, with the card fields of the default style. *)
Record HitCard := mkCard { hc_hit : SearchHit; hc_card : option (list jstr * list jstr * list jstr) }.
Record QueryAnswer := mkQueryAnswer { qa_hits : list HitCard; qa_nextCursor : option jstr; qa_truncated : bool }.
Inductive RetrieveResult : Type :=
| NotFound                                    (** [{ found: false }] *)
| FoundText (page : TextPage)
| FoundHistory (answer : HistoryAnswer)
| NoHits                                      (** [{ hits: [] }] *)
| Hits (answer : QueryAnswer)
| FoundNode (answer : NodeResult).

(** A truthy string. *)
Definition truthy (s : option jstr) : option jstr := match s with Some (_ :: _) => s | _ => None end.

(** The two halves of a cursor of the form [a.b]. *)
Definition split_cursor (c : jstr) : option (jstr * jstr) := match split_on 46 c with [a; b] => Some (a, b) | _ => None end.
Definition outer_cursor (ref : jstr) (offset intra : Z) : jstr :=
  encodeCursor ref offset ++ [46] ++ encodeCursor (ref ++ js ":" ++ dec offset) intra.
Definition read_outer (ref c error : jstr) : result jstr (Z * Z) :=
  match split_cursor c with
  | None => Throw error
  | Some (a, b) =>
    let! offset := text_error (decodeCursor (Some a) ref) in
    let! intra := text_error (decodeCursor (Some b) (ref ++ js ":" ++ dec offset)) in
    Ok (offset, intra)
  end.

(** [paginateText("", ...)]: only the budgets are looked at. *)
Definition check_budget (maxBytes maxTokens : option Z) : result jstr unit :=
  let! _ := text_error (paginateText [] {| po_ref := []; po_cursor := None; po_maxBytes := maxBytes; po_maxTokens := maxTokens |}) in Ok tt.

Section Retrieve.
Context (sha256Hex : jstr → jstr) (gunzip : Z → bytes → option bytes) (files : fs) (dataDir : jstr).

Definition readValidProjection (hash : jstr) : option ChatMessage :=
  match readMessageObject sha256Hex gunzip files files dataDir hash with Ok (Some m) => Some m | _ => None end.

(** ** A history *)

(** The child archive a replacement message stands for. *)
Definition child_archive (meta : MetaDb) (ns : Namespace) (m : ChatMessage) : option jstr :=
  match m_archive m with
  | Some a => if negb (zlen (ar_historyHash a) =? 0) && jeqb (m_id m) (js "compaction-" ++ ar_historyHash a)
                 && hasHistoryMeta meta ns (ar_historyHash a)
              then Some (ar_historyHash a) else None
  | None => None
  end.
Definition archive_row (r : CasMetaInput) : ReaderRow unit :=
  mkRow (cm_hash r) (cm_role r) (cm_turnIndex r) (Some (cm_msgSeq r + 1)) tt.
Definition archive_content (meta : MetaDb) (ns : Namespace) (r : ReaderRow unit) : result jstr (option Content) :=
  Ok (match readValidProjection (rw_hash r) with
      | None => None
      | Some m => Some (match child_archive meta ns m with Some c => CChild c | None => CText (renderProjection m) end)
      end).
Definition archive_reader (meta : MetaDb) (ns : Namespace) : HistoryReader unit :=
  mkReader (λ hash offset, Ok (archive_row <$> nextHistoryMeta meta ns hash offset)) (archive_content meta ns).

Definition CURSOR3 : jstr := js "h3-".
Definition history_state (meta : MetaDb) (p : ByHistory) : result jstr HistoryFrontier :=
  match truthy (by_cursor p) with
  | Some c => loadHistoryCursor meta (by_ns p) (by_historyHash p) c
  | None => Ok (mkFrontier [(by_historyHash p, 0)] 0 0)
  end.
Definition history_page (meta : MetaDb) (p : ByHistory) (uuid : jstr) (now : Z) (fuel : nat) : option (MetaDb * result jstr HistoryAnswer) :=
  match history_state meta p with
  | Throw e => Some (meta, Throw e)
  | Ok state =>
    res ← readHistoryPage fuel (archive_reader meta (by_ns p)) state (mkRequest (by_maxBytes p) (by_maxTokens p) (by_limit p));
    match res with
    | Throw e => Some (meta, Throw e)
    | Ok page =>
      let answer cursor := mkHistoryAnswer (hp_items page) (if hp_more page then Some (fr_ordinal (hp_state page)) else None) cursor
                             (hp_more page) (negb (zlen (hp_missingHashes page) =? 0)) (hp_missingHashes page) in
      if hp_more page then
        match saveHistoryCursor meta (by_ns p) (by_historyHash p) (hp_state page) uuid now with
        | Throw e => Some (meta, Throw e)
        | Ok (meta', id) => Some (meta', Ok (answer (Some id)))
        end
      else Some (meta, Ok (answer None))
    end
  end.

(** The rows [listHistoryMeta(hash, offset, 1)] gives for offset 0, 1, ... *)
Fixpoint rows_from (n : nat) (meta : MetaDb) (ns : Namespace) (hash : jstr) (offset : nat) : list CasMetaInput :=
  match n with
  | O => []
  | S n' => match listHistoryMeta meta ns hash offset 1 with [] => [] | r :: _ => r :: rows_from n' meta ns hash (S offset) end
  end.
(** The leaves [historyLeaves] yields, and the exception that ends them. *)
Fixpoint historyLeaves (depth : nat) (meta : MetaDb) (ns : Namespace) (ancestors : list jstr) (hash : jstr) : stream unit :=
  match depth with
  | O => ([], Some LINEAGE_ERROR)
  | S d =>
    if existsb (λ a, jeqb a hash) ancestors then ([], Some LINEAGE_ERROR)
    else row_leaves (archive_reader meta ns) (historyLeaves d meta ns (hash :: ancestors))
           (map archive_row (rows_from (length (md_archive_refs meta)) meta ns hash 0))
  end.

(** The skipped part of the generator, then its [while] loop. *)
Fixpoint skip_leaves (n : nat) (leaves : list (leaf unit)) (fin : option jstr) : result jstr (stream unit) :=
  match n, leaves, fin with
  | O, _, _ => Ok (leaves, fin)
  | S _, [], Some e => Throw e
  | S _, [], None => Ok ([], None)
  | S n', _ :: rest, _ => skip_leaves n' rest fin
  end.
Fixpoint ordinal_loop (limit : Z) (leaves : list (leaf unit)) (fin : option jstr) (ga : Gathered) : result jstr (Gathered * bool) :=
  match leaves with
  | [] => match fin with
          | Some e => Throw e
          | None => throw_if negb ((ga_remaining ga <=? 0) || (limit <=? ga_count ga)) && negb (ga_intra ga =? 0)
                      with js "Cursor outside history" in Ok (ga, false)
          end
  | (r, v) :: rest =>
    match leaf_step limit r v ga with
    | Past ga' => ordinal_loop limit rest fin ga'
    | Ends ga' => Ok (ga', true)
    | Fails e => Throw e
    end
  end.

Definition history_ref (p : ByHistory) : jstr := stringify (JArr [json_of_namespace (by_ns p); JStr (by_historyHash p)]).
(** The page of a legacy ordinal cursor. *)
Definition ordinal_page (meta : MetaDb) (p : ByHistory) : result jstr HistoryAnswer :=
  let ref := history_ref p in
  let! start := match truthy (by_cursor p) with
                | Some c => read_outer ref c (js "Invalid history cursor")
                | None => Ok (default 0 (by_offset p), 0)
                end in
  let! _ := check_budget (by_maxBytes p) (by_maxTokens p) in
  let request := mkRequest (by_maxBytes p) (by_maxTokens p) (by_limit p) in
  let all := historyLeaves 128 meta (by_ns p) [] (by_historyHash p) in
  let! current := skip_leaves (Z.to_nat start.1) all.1 all.2 in
  let! res := ordinal_loop (page_limit_of request) current.1 current.2 (mkGathered [] [] (page_budget_of request) 0 start.1 start.2) in
  let '(ga, more) := res in
  Ok (mkHistoryAnswer (ga_items ga) (if more then Some (ga_ordinal ga) else None)
        (if more then Some (outer_cursor ref (ga_ordinal ga) (ga_intra ga)) else None)
        more (negb (zlen (ga_missing ga) =? 0)) (ga_missing ga)).

Definition retrieve_history (meta : MetaDb) (p : ByHistory) (uuid : jstr) (now : Z) (fuel : nat) : option (MetaDb * result jstr RetrieveResult) :=
  if negb (hasHistoryMeta meta (by_ns p) (by_historyHash p)) then Some (meta, Ok NotFound) else
  let persisted := match truthy (by_cursor p) with
                   | Some c => starts_with CURSOR3 c
                   | None => default 0 (by_offset p) =? 0
                   end in
  if persisted then res ← history_page meta p uuid now fuel; Some (res.1, let! a := res.2 in Ok (FoundHistory a))
  else Some (meta, let! a := ordinal_page meta p in Ok (FoundHistory a)).

(** ** A message *)

Definition retrieve_hash (meta : MetaDb) (p : ByHash) : result jstr RetrieveResult :=
  let ref := stringify (JArr [json_of_namespace (bh_ns p); JStr (bh_hash p)]) in
  let! _ := text_error (decodeCursor (bh_cursor p) ref) in
  if negb (ownsCasMeta meta (bh_ns p) (bh_hash p)) then Ok NotFound else
  let! projection := readMessageObject sha256Hex gunzip files files dataDir (bh_hash p) in
  match projection with
  | None => Ok NotFound
  | Some m =>
    let! page := text_error (paginateText (renderProjection m)
                   {| po_ref := ref; po_cursor := bh_cursor p; po_maxBytes := bh_maxBytes p; po_maxTokens := bh_maxTokens p |}) in
    Ok (FoundText page)
  end.
End Retrieve.

(** ** A query *)

Definition WORD3_RE : regex := Eval vm_compute in re "[A-Za-z_][A-Za-z0-9_]{2,}".
Definition PATH_KEYS : list jstr := [js "path"; js "filePath"; js "file_path"; js "filename"].

(** The file paths among the arguments of a tool part. *)
Definition part_paths (p : Part) : list jstr :=
  match p with
  | PTool _ _ (Some (JObj args)) _ =>
    flat_map (λ k, match assoc k args with Some (JStr s) => if zlen s <=? 256 then [s] else [] | _ => [] end) PATH_KEYS
  | _ => []
  end.
Definition file_paths (m : ChatMessage) : list jstr := take 5 (uniq (flat_map part_paths (m_parts m))).

Definition set_snippet (h : SearchHit) (snippet : jstr) (s e : nat) : SearchHit :=
  mkHit (sh_score h) (sh_hash h) (sh_ns h) (sh_turnIndex h) (sh_role h) snippet (sh_chunkId h) s e.
Definition json_of_hit (h : SearchHit) : json :=
  JObj [(js "hash", JStr (sh_hash h)); (js "chunkId", JStr (sh_chunkId h)); (js "startOffset", num (Z.of_nat (sh_start h)));
        (js "endOffset", num (Z.of_nat (sh_end h))); (js "snippet", JStr (sh_snippet h))].

(** The [while] loop over the hits from [offset] on: the new offset and
    position, and the hits of the page. *)
Fixpoint hits_loop (rest : list HitCard) (offset intra budget : Z) (hits : list HitCard) : result jstr (Z * Z * list HitCard) :=
  match rest with
  | [] => Ok (offset, intra, hits)
  | c :: rest' =>
    if budget <=? 0 then Ok (offset, intra, hits) else
    let h := hc_hit c in
    match paginateText (sh_snippet h)
            {| po_ref := sh_hash h; po_cursor := Some (encodeCursor (sh_hash h) intra);
               po_maxBytes := Some budget; po_maxTokens := Some budget |} with
    | Throw e => match hits with [] => Throw (page_error_text e) | _ => Ok (offset, intra, hits) end
    | Ok page =>
      let startOffset := (sh_start h + Z.to_nat intra)%nat in
      let hits' := hits ++ [mkCard (set_snippet h (tp_content page) startOffset (startOffset + length (tp_content page))) (hc_card c)] in
      match tp_nextCursor page with
      | Some cur => let! intra' := text_error (decodeCursor (Some cur) (sh_hash h)) in Ok (offset, intra', hits')
      | None => hits_loop rest' (offset + 1) 0 (budget - tp_bytes page) hits'
      end
    end
  end.

Section Query.
Context (sha256Hex : jstr → jstr) (gunzip : Z → bytes → option bytes) (files : fs) (dataDir : jstr).
(** The FTS5 engine and [toLowerCase]. *)
Context (fts_match : list SegmentFtsRow → jstr → list (jstr * jnum)) (toLowerCase : jstr → jstr).

Definition query_identifiers (query snippet : jstr) : list jstr :=
  take 8 (List.filter (λ word, includes (toLowerCase word) (toLowerCase snippet)) (uniq (map rm_text (match_all WORD3_RE query)))).

(** One match: a segment as it is, or the focused, revalidated card. *)
Definition card_of (nodes : NodeDb) (p : ByQuery) (hit : SearchHit) : list HitCard :=
  match bq_style p with
  | Some Segments => [mkCard hit None]
  | _ =>
    match readValidProjection sha256Hex gunzip files dataDir (sh_hash hit) with
    | None => []
    | Some m =>
      let focused := focusSearchHit toLowerCase hit (bq_query p) 512 in
      if negb (jeqb (slice (renderProjection m) (sh_start focused) (sh_end focused)) (sh_snippet focused)) then []
      else [mkCard focused (Some (file_paths m, query_identifiers (bq_query p) (sh_snippet focused),
                                  nodesForSource nodes (bq_ns p) (sh_hash hit)))]
    end
  end.

Definition retrieve_query (index : IndexDb) (nodes : NodeDb) (p : ByQuery) : result jstr RetrieveResult :=
  match buildMatchQuery (bq_query p) with
  | None => Ok NoHits
  | Some expression =>
    let limit := default 5 (bq_limit p) in
    let cap := match bq_style p with Some Segments => RETRIEVE_LIMIT_CAP | _ => 5 end in
    let found := searchChunks fts_match index (bq_ns p) expression (Z.to_nat (Z.min limit cap)) in
    let all := flat_map (card_of nodes p) found in
    let snapshot := sha256Hex (stringify (JArr (map (λ c, json_of_hit (hc_hit c)) all))) in
    let ref := stringify (JArr [json_of_namespace (bq_ns p); JStr (bq_query p); num limit; JStr snapshot]) in
    let! start := match bq_cursor p with
                  | Some c => read_outer ref c (js "Invalid query cursor")
                  | None => Ok (0, 0)
                  end in
    let! _ := check_budget (bq_maxBytes p) (bq_maxTokens p) in
    throw_if (zlen all <? start.1) || ((start.1 =? zlen all) && (0 <? start.2)) with js "Cursor outside query results" in
    let! res := hits_loop (drop (Z.to_nat start.1) all) start.1 start.2 (page_budget_of (mkRequest (bq_maxBytes p) (bq_maxTokens p) None)) [] in
    let '(offset, intra, hits) := res in
    let truncated := offset <? zlen all in
    Ok (Hits (mkQueryAnswer hits (if truncated then Some (outer_cursor ref offset intra) else None) truncated))
  end.

(** ** [retrieve] *)

Definition retrieve_budget (params : RetrieveParams) : result jstr unit :=
  match params with
  | RHash p => check_budget (bh_maxBytes p) (bh_maxTokens p)
  | RHistory p => check_budget (by_maxBytes p) (by_maxTokens p)
  | RQuery p => check_budget (bq_maxBytes p) (bq_maxTokens p)
  | RNode p => check_budget (bn_maxBytes p) (bn_maxTokens p)
  end.

Definition retrieve (meta : MetaDb) (index : IndexDb) (nodes : NodeDb) (params : RetrieveParams) (uuid : nat → jstr) (now : Z) (fuel : nat) :
    option (MetaDb * result jstr RetrieveResult) :=
  match retrieve_budget params with
  | Throw e => Some (meta, Throw e)
  | Ok _ =>
    match params with
    | RNode p =>
      res ← retrieveNode sha256Hex gunzip files dataDir nodes uuid now fuel meta p;
      Some (res.1, let! r := res.2 in Ok (match r with Some a => FoundNode a | None => NotFound end))
    | RHash p => Some (meta, retrieve_hash sha256Hex gunzip files dataDir meta p)
    | RHistory p => retrieve_history sha256Hex gunzip files dataDir meta p (uuid O) now fuel
    | RQuery p => Some (meta, retrieve_query index nodes p)
    end
  end.
End Query.

(** ** The ledger as a row reader *)

(** The primary key of [archive_refs], and sequence numbers count from zero. *)
Definition ledger_ok (meta : MetaDb) : Prop :=
  NoDup (map seq_key (md_archive_refs meta)) ∧ Forall (λ r, 0 <= cm_msgSeq r) (md_archive_refs meta).

#[export] Instance seq_cmp_order : CmpOrder seq_cmp.
Proof. split; unfold cmp_le, seq_cmp; [lia|]. intros a b c. lia. Qed.

Lemma history_rows_elem meta ns h r : r ∈ history_rows meta ns h ↔ r ∈ md_archive_refs meta ∧ cm_ns r = ns ∧ cm_historyHash r = h.
Proof.
  unfold history_rows. rewrite sort_by_perm, elem_of_lfilter. unfold of_history.
  rewrite andb_true_iff, bool_decide_eq_true, jeqb_eq. naive_solver.
Qed.

Lemma history_rows_length meta ns h : (length (history_rows meta ns h) <= length (md_archive_refs meta))%nat.
Proof. unfold history_rows. rewrite sort_by_perm. apply List.filter_length_le. Qed.

Lemma history_rows_sorted meta ns h : ledger_ok meta → StronglySorted (λ a b, cm_msgSeq a < cm_msgSeq b) (history_rows meta ns h).
Proof.
  intros [Hnd _]. assert (NoDup (map cm_msgSeq (history_rows meta ns h))) as Hseq.
  { unfold history_rows. rewrite sort_by_perm. revert Hnd. generalize (md_archive_refs meta) as l. clear. intros l.
    induction l as [|r l IH]; cbn [map List.filter]; [by constructor|]. intros [Hr Hl]%NoDup_cons. case_test; [|by apply IH].
    cbn [map]. constructor; [|by apply IH]. intros Hin. apply Hr. apply list_elem_of_In, in_map_iff in Hin as (x & Hx & [Hin Hf]%filter_In).
    apply list_elem_of_In, in_map_iff. exists x. split; [|done]. unfold of_history in *. bool_prop.
    repeat match goal with H : jeqb _ _ = true |- _ => apply jeqb_eq in H end. unfold seq_key. congruence. }
  assert (StronglySorted (λ a b, seq_cmp a b <= 0) (history_rows meta ns h)) as Hs by exact (sort_by_sorted seq_cmp _).
  revert Hseq Hs. generalize (history_rows meta ns h) as l. clear. induction l as [|r l IH]; [constructor|].
  cbn [map]. intros [Hr Hl]%NoDup_cons Hs. inversion Hs as [|? ? Hs' Hall]; subst. constructor; [by apply IH|].
  rewrite Forall_forall in *. intros x Hx. specialize (Hall x Hx). unfold seq_cmp in Hall.
  enough (cm_msgSeq r ≠ cm_msgSeq x) by lia. intros Heq. apply Hr. rewrite Heq. by apply list_elem_of_In, in_map, list_elem_of_In.
Qed.

Section Reader.
Context (sha256Hex : jstr → jstr) (gunzip : Z → bytes → option bytes) (files : fs) (dataDir : jstr).
Context (meta : MetaDb) (ns : Namespace) (Hledger : ledger_ok meta).
Abbreviation reader := (archive_reader sha256Hex gunzip files dataDir meta ns).

Definition archive_rows (h : jstr) (o : Z) : list (ReaderRow unit) :=
  map archive_row (List.filter (λ r, o <=? cm_msgSeq r) (history_rows meta ns h)).

#[export] Instance archive_row_reader : RowReader reader.
Proof.
  refine {| rows := archive_rows |}.
  - intros h o. cbn [archive_reader row]. unfold nextHistoryMeta, archive_rows. by destruct (List.filter _ _).
  - intros h o r rest H. unfold archive_rows in *. destruct (List.filter _ (history_rows meta ns h)) as [|r0 rest0] eqn:E; [done|].
    injection H as <- <-. f_equal. unfold next_offset. cbn [archive_row rw_nextOffset default].
    by apply (seek_rest cm_msgSeq _ o); [apply history_rows_sorted|].
Defined.

Lemma archive_rows_0 h : archive_rows h 0 = map archive_row (history_rows meta ns h).
Proof.
  unfold archive_rows. f_equal. apply forallb_filter_id, forallb_forall. intros r Hr. apply Z.leb_le.
  destruct Hledger as [_ Hpos]. rewrite Forall_forall in Hpos. apply Hpos. by apply list_elem_of_In, history_rows_elem in Hr as [? _].
Qed.

Lemma rows_from_take n h o : rows_from n meta ns h o = take n (drop o (history_rows meta ns h)).
Proof.
  revert o. induction n as [|n IH]; intros o; [done|]. cbn [rows_from]. unfold listHistoryMeta.
  destruct (drop o (history_rows meta ns h)) as [|r rest] eqn:E; [done|]. cbn [take]. rewrite IH.
  replace (S o) with (o + 1)%nat by lia. by rewrite <- drop_drop, E.
Qed.

(** The generator yields the leaves of the frontier reader. *)
Lemma historyLeaves_leaves depth ancestors h :
  historyLeaves sha256Hex gunzip files dataDir depth meta ns ancestors h = child_leaves reader depth ancestors h.
Proof.
  revert ancestors h. induction depth as [|d IH]; intros ancestors h; cbn [historyLeaves child_leaves]; [done|]. case_test; [done|].
  cbn [rows archive_row_reader]. rewrite archive_rows_0, rows_from_take, drop_0, firstn_all2 by apply history_rows_length.
  induction (map archive_row (history_rows meta ns h)) as [|r l IHl]; cbn [row_leaves]; [done|].
  destruct (content reader r) as [[[t|c]|]|]; [by rewrite IHl|by rewrite IHl, IH|by rewrite IHl|done].
Qed.

Lemma start_leaves h : frontier_leaves reader [(h, 0)] = child_leaves reader 128 [] h.
Proof. cbn [frontier_leaves child_leaves existsb length]. unfold stream_app. by destruct (row_leaves _ _ _) as [l [e|]]; cbn; rewrite ?app_nil_r. Qed.

(** ** Ordinal cursors and persisted cursors *)

Lemma ordinal_loop_read limit ls fin ga :
  (ls = [] → ga_intra ga = 0) →
  ordinal_loop limit ls fin ga =
  match read_leaves limit ls fin ga with Throw e => Throw e | Ok (s, ga') => Ok (ga', negb (bool_decide (s.1 = []))) end.
Proof.
  revert ga. induction ls as [|[r v] rest IH]; intros ga Hi; cbn [ordinal_loop read_leaves].
  { destruct fin; [done|]. rewrite (Hi Logic.eq_refl). cbn. by rewrite andb_false_r. }
  assert (∀ ga', leaf_step limit r v ga = Past ga' → ga_intra ga' = 0) as Hpast.
  { intros ga'. unfold leaf_step. case_test; [done|]. destruct v as [t|]; [|by intros [= <-]].
    destruct (paginateText _ _) as [page|]; [|by destruct (ga_items ga)]. destruct (tp_nextCursor page); [by destruct (decodeCursor _ _)|by intros [= <-]]. }
  destruct (leaf_step limit r v ga) as [ga'|ga'|e]; [|by rewrite bool_decide_false|done]. apply IH. intros _. by apply Hpast.
Qed.

(** What is consumed is counted by the ordinal. *)
Lemma read_leaves_ordinal limit ls fin ga s ga' :
  read_leaves limit ls fin ga = Ok (s, ga') →
  ∃ k : nat, ga_ordinal ga' = ga_ordinal ga + Z.of_nat k ∧ skip_leaves k ls fin = Ok s ∧ (s.1 = [] → s.2 = None).
Proof.
  revert ga. induction ls as [|[r v] rest IH]; intros ga; cbn [read_leaves].
  { destruct fin; [done|]. intros [= <- <-]. exists O. cbn. split_and!; [lia|done|done]. }
  assert (∀ ga', (leaf_step limit r v ga = Past ga' → ga_ordinal ga' = ga_ordinal ga + 1)
               ∧ (leaf_step limit r v ga = Ends ga' → ga_ordinal ga' = ga_ordinal ga)) as Hord.
  { intros ga2. unfold leaf_step. case_test; [split; [done|by intros [= <-]]|]. destruct v as [t|]; [|split; [by intros [= <-]|done]].
    destruct (paginateText _ _) as [page|]; [|destruct (ga_items ga); split; try done; by intros [= <-]].
    destruct (tp_nextCursor page); [destruct (decodeCursor _ _); split; try done; by intros [= <-]|split; [by intros [= <-]|done]]. }
  destruct (leaf_step limit r v ga) as [ga1|ga1|e] eqn:E; [| |done].
  - intros H. destruct (IH ga1 H) as (k & Hk & Hs & Hn). exists (S k). rewrite Hk, (proj1 (Hord ga1)) by done. split_and!; [lia|done|done].
  - intros [= <- <-]. exists O. rewrite (proj2 (Hord ga1)) by done. split_and!; [lia|done|done].
Qed.

Lemma skip_leaves_add a b ls fin s : skip_leaves a ls fin = Ok s → skip_leaves (a + b) ls fin = skip_leaves b s.1 s.2.
Proof.
  revert ls. induction a as [|a IH]; intros ls; cbn [skip_leaves Nat.add]; [by intros [= <-]|].
  destruct ls as [|l rest]; [|apply IH]. destruct fin; [done|]. intros [= <-]. cbn. destruct b; done.
Qed.
End Reader.

#[export] Hint Extern 0 (ledger_ok _) => assumption : typeclass_instances.

Section Agreement.
Context (sha256Hex : jstr → jstr) (gunzip : Z → bytes → option bytes) (files : fs) (dataDir : jstr).
Context (meta : MetaDb) (Hledger : ledger_ok meta) (p : ByHistory).
Abbreviation reader := (archive_reader sha256Hex gunzip files dataDir meta (by_ns p)).
Abbreviation generator := (historyLeaves sha256Hex gunzip files dataDir 128 meta (by_ns p) [] (by_historyHash p)).
Abbreviation request := (mkRequest (by_maxBytes p) (by_maxTokens p) (by_limit p)).

(** A frontier and an ordinal position that stand at the same place of the
    sequence of leaves. *)
Record same_place (st : HistoryFrontier) : Prop := {
  sp_stack : (length (fr_stack st) <= 128)%nat;
  sp_ordinal : 0 <= fr_ordinal st;
  sp_leaves : skip_leaves (Z.to_nat (fr_ordinal st)) generator.1 generator.2 = Ok (frontier_leaves reader (fr_stack st));
  sp_intra : (frontier_leaves reader (fr_stack st)).1 = [] → fr_intra st = 0 }.

Lemma same_start : same_place (mkFrontier [(by_historyHash p, 0)] 0 0).
Proof.
  assert (frontier_leaves reader [(by_historyHash p, 0)] = generator) as Hg by (by rewrite start_leaves, <- historyLeaves_leaves).
  split; cbn [fr_stack fr_ordinal fr_intra]; [cbn; lia|lia| |done]. rewrite Hg. generalize generator as g. by intros [l e].
Qed.

(** The legacy page from an ordinal position. *)
Definition ordinal_from (start : Z * Z) : result jstr (Gathered * bool) :=
  let! current := skip_leaves (Z.to_nat start.1) generator.1 generator.2 in
  ordinal_loop (page_limit_of request) current.1 current.2 (mkGathered [] [] (page_budget_of request) 0 start.1 start.2).

Lemma same_page st fuel :
  same_place st → (frontier_steps reader (fr_stack st) <= fuel)%nat →
  match readHistoryPage fuel reader st request with
  | Some (Ok page) => (∃ ga, ordinal_from (fr_ordinal st, fr_intra st) = Ok (ga, hp_more page)
      ∧ ga_items ga = hp_items page ∧ ga_missing ga = hp_missingHashes page ∧ ga_ordinal ga = fr_ordinal (hp_state page)
      ∧ ga_intra ga = fr_intra (hp_state page)) ∧ (hp_more page = true → same_place (hp_state page))
  | Some (Throw e) => ordinal_from (fr_ordinal st, fr_intra st) = Throw e
  | None => False
  end.
Proof.
  intros [H1 H2 H3 H4] Hf. destruct (page_refines reader request fuel st H1 Hf) as (res & -> & Hspec).
  unfold page_spec in Hspec. unfold ordinal_from. cbn [fst snd]. rewrite H3. cbn [rbind].
  set (fl := frontier_leaves reader (fr_stack st)) in *. fold (page_start request st). rewrite ordinal_loop_read by done.
  destruct (read_leaves (page_limit_of request) fl.1 fl.2 (page_start request st)) as [[s ga]|e] eqn:E; [|by rewrite Hspec].
  destruct Hspec as (page & -> & Hit & Hmi & Hmore & Hord & Hintra & Hl & Hstk). rewrite Hmore. split; [by exists ga|].
  intros Hne. destruct (read_leaves_ordinal _ _ _ _ _ _ E) as (k & Hk & Hskip & _). cbn [page_start ga_ordinal] in Hk.
  split; [done|lia| |].
  - rewrite Hord, Hk, Z2Nat.inj_add, Nat2Z.id by lia. rewrite (skip_leaves_add _ _ _ _ _ H3). by rewrite Hskip, Hl.
  - intros Hnil. rewrite Hl in Hnil. by rewrite Hnil in Hne.
Qed.
End Agreement.

(** ** Only the namespace's own evidence *)

Section Isolation.
Context (sha256Hex : jstr → jstr) (gunzip : Z → bytes → option bytes) (files : fs) (dataDir : jstr).
Context (fts_match : list SegmentFtsRow → jstr → list (jstr * jnum)) (toLowerCase : jstr → jstr).

(** A verbatim slice of an object the ledger attributes to the namespace. *)
Definition quotes (meta : MetaDb) (ns : Namespace) (hash text : jstr) : Prop :=
  ownsCasMeta meta ns hash = true
  ∧ ∃ m a b, readMessageObject sha256Hex gunzip files files dataDir hash = Ok (Some m) ∧ text = slice (renderProjection m) a b.
Abbreviation quoted_item meta ns := (λ it, quotes meta ns (it_hash it) (it_content it)).

Lemma readValid hash m : readValidProjection sha256Hex gunzip files dataDir hash = Some m →
  readMessageObject sha256Hex gunzip files files dataDir hash = Ok (Some m).
Proof. unfold readValidProjection. destruct (readMessageObject _ _ _ _ _ _) as [[?|]|]; congruence. Qed.

Lemma archive_content_text meta ns r t :
  archive_content sha256Hex gunzip files dataDir meta ns r = Ok (Some (CText t)) →
  ∃ m, readMessageObject sha256Hex gunzip files files dataDir (rw_hash r) = Ok (Some m) ∧ t = renderProjection m.
Proof.
  unfold archive_content. destruct (readValidProjection _ _ _ _ (rw_hash r)) as [m|] eqn:E; [|done].
  destruct (child_archive meta ns m); [done|]. intros [= <-]. exists m. split; [by apply readValid|done].
Qed.

Lemma owned_row meta ns r h : r ∈ history_rows meta ns h → ownsCasMeta meta ns (cm_hash r) = true.
Proof.
  intros (Hr & Hns & _)%history_rows_elem. unfold ownsCasMeta. apply existsb_exists. exists r.
  rewrite bool_decide_true, jeqb_refl by done. split; [by apply list_elem_of_In|done].
Qed.

(** A leaf that may be quoted. *)
Definition quotable (meta : MetaDb) (ns : Namespace) (l : leaf unit) : Prop :=
  ownsCasMeta meta ns (rw_hash l.1) = true ∧ ∀ t, l.2 = Some t →
  ∃ m, readMessageObject sha256Hex gunzip files files dataDir (rw_hash l.1) = Ok (Some m) ∧ t = renderProjection m.

Lemma step_quotes meta ns limit r v ga :
  quotable meta ns (r, v) → Forall (quoted_item meta ns) (ga_items ga) →
  match leaf_step limit r v ga with Past g | Ends g => Forall (quoted_item meta ns) (ga_items g) | Fails _ => True end.
Proof.
  intros [Hown Hv] Hga. unfold leaf_step. case_test; [done|]. destruct v as [t|]; [|done].
  destruct (paginateText t (leaf_options (rw_hash r) ga)) as [page|] eqn:Ep; [|destruct (ga_items ga) eqn:Eg; [done|by rewrite Eg]].
  assert (∀ n i, Forall (quoted_item meta ns) (ga_items (add_item r page n i ga))) as Hadd.
  { intros n i. apply Forall_app. split; [done|]. constructor; [|constructor]. cbn [it_hash it_content]. split; [done|].
    destruct (Hv t Logic.eq_refl) as (m & Hm & ->). destruct (paginate_shape _ _ _ Ep) as (lim & a & b & _ & _ & [_ _ Hc _ _ _ _ _ _ _ _]).
    by exists m, (Z.to_nat a), (Z.to_nat b). }
  destruct (tp_nextCursor page); [destruct (decodeCursor _ _); [apply Hadd|done]|apply Hadd].
Qed.

Lemma loop_quotes meta ns limit fin leaves ga more ga' :
  Forall (quotable meta ns) leaves → Forall (quoted_item meta ns) (ga_items ga) →
  ordinal_loop limit leaves fin ga = Ok (ga', more) → Forall (quoted_item meta ns) (ga_items ga').
Proof.
  revert ga. induction leaves as [|[r v] rest IH]; intros ga Hl Hga; cbn [ordinal_loop].
  { destruct fin; [done|]. case_test; [done|]. by intros [= <- _]. }
  apply Forall_cons in Hl as [Hq Hl]. pose proof (step_quotes meta ns limit r v ga Hq Hga) as Hstep.
  destruct (leaf_step limit r v ga) as [g|g|e]; [by apply IH|by intros [= <- _]|done].
Qed.

Lemma generator_quotable depth meta ns ancestors h :
  Forall (quotable meta ns) (historyLeaves sha256Hex gunzip files dataDir depth meta ns ancestors h).1.
Proof.
  revert ancestors h. induction depth as [|d IH]; intros ancestors h; cbn [historyLeaves]; [constructor|]. case_test; [constructor|].
  assert (Forall (λ r, ownsCasMeta meta ns (cm_hash r) = true) (rows_from (length (md_archive_refs meta)) meta ns h 0)) as Hrows.
  { rewrite rows_from_take. apply Forall_take, Forall_drop, Forall_forall. intros r Hr. by eapply owned_row. }
  induction Hrows as [|r l Hr _ IHl]; cbn [map row_leaves]; [constructor|].
  destruct (content _ (archive_row r)) as [[[t|c]|]|] eqn:Ec; [| | |constructor].
  - constructor; [|done]. split; [done|]. intros t' [= <-]. by apply archive_content_text in Ec.
  - unfold stream_app. specialize (IH (h :: ancestors) c). destruct (historyLeaves _ _ _ _ d meta ns (h :: ancestors) c) as [ls [e|]]; [done|].
    cbn [fst] in *. by apply Forall_app.
  - by constructor.
Qed.

Lemma skip_sub n ls fin s : skip_leaves n ls fin = Ok s → ∀ l, l ∈ s.1 → l ∈ ls.
Proof.
  revert ls. induction n as [|n IH]; intros ls; cbn [skip_leaves]; [by intros [= <-]|]. destruct ls as [|l0 rest].
  - destruct fin; [done|]. by intros [= <-].
  - intros H l Hl. right. by eapply IH.
Qed.

Lemma hits_loop_all (P : HitCard → Prop) rest offset intra budget hits res :
  (∀ c a b s e, P c → P (mkCard (set_snippet (hc_hit c) (slice (sh_snippet (hc_hit c)) a b) s e) (hc_card c))) →
  Forall P rest → Forall P hits → hits_loop rest offset intra budget hits = Ok res → Forall P res.2.
Proof.
  intros HP. revert offset intra budget hits. induction rest as [|c rest IH]; intros offset intra budget hits Hr Hh; cbn [hits_loop]; [by intros [= <-]|].
  apply Forall_cons in Hr as [Hc Hr]. case_test; [by intros [= <-]|].
  destruct (paginateText _ _) as [page|e] eqn:Ep; [|destruct hits; [done|by intros [= <-]]].
  destruct (paginate_shape _ _ _ Ep) as (lim & a & b & _ & _ & [_ _ Hct _ _ _ _ _ _ _ _]).
  assert (Forall P (hits ++ [mkCard (set_snippet (hc_hit c) (tp_content page) (sh_start (hc_hit c) + Z.to_nat intra)
    (sh_start (hc_hit c) + Z.to_nat intra + length (tp_content page))) (hc_card c)])) as Hall.
  { apply Forall_app. split; [done|]. constructor; [|constructor]. rewrite Hct. by apply HP. }
  destruct (tp_nextCursor page); [|by apply IH]. destruct (text_error _); cbn [rbind]; [|done]. by intros [= <-].
Qed.

(** What an answer may show.  [full] are the texts the index was given for its hashes. *)
Definition answer_isolated (meta : MetaDb) (index : IndexDb) (full : jstr → jstr) (nodes : NodeDb) (params : RetrieveParams) (r : RetrieveResult) : Prop :=
  match params, r with
  | RHash p, FoundText page => quotes meta (bh_ns p) (bh_hash p) (tp_content page)
  | RHistory p, FoundHistory a => hasHistoryMeta meta (by_ns p) (by_historyHash p) = true
      ∧ Forall (quoted_item meta (by_ns p)) (ha_items a)
  | RQuery p, Hits a => Forall (λ c, visible index (bq_ns p) (hc_hit c)
      ∧ (∃ a b, sh_snippet (hc_hit c) = slice (full (sh_hash (hc_hit c))) a b)
      ∧ (bq_style p ≠ Some Segments → ∃ m a b, readMessageObject sha256Hex gunzip files files dataDir (sh_hash (hc_hit c)) = Ok (Some m)
           ∧ sh_snippet (hc_hit c) = slice (renderProjection m) a b)) (qa_hits a)
  | RNode p, FoundNode a => answer_ok (object_of sha256Hex gunzip files dataDir) nodes meta p a
  | RQuery _, NoHits => True
  | (RHash _ | RHistory _ | RNode _), NotFound => True
  | _, _ => False
  end.

Lemma focus_fields hit query n :
  let f := focusSearchHit toLowerCase hit query n in sh_hash f = sh_hash hit ∧ sh_ns f = sh_ns hit ∧ ∃ a b, sh_snippet f = slice (sh_snippet hit) a b.
Proof.
  unfold focusSearchHit. destruct (length (sh_snippet hit) <=? n)%nat; cbn [sh_hash sh_ns sh_snippet]; [|by eauto].
  split_and!; [done|done|]. exists 0%nat, (length (sh_snippet hit)). unfold slice. by rewrite drop_0, Nat.sub_0_r, firstn_all.
Qed.

Lemma slice_of_slice (t : jstr) a b c d : ∃ a' b', slice (slice t a b) c d = slice t a' b'.
Proof.
  unfold slice. exists (a + c)%nat, (a + c + Nat.min (d - c) (b - a - c))%nat.
  rewrite skipn_firstn_comm, drop_drop, take_take. f_equal. lia.
Qed.

Lemma cards_ok nodes index full p :
  let good c := visible index (bq_ns p) (hc_hit c) ∧ (∃ a b, sh_snippet (hc_hit c) = slice (full (sh_hash (hc_hit c))) a b)
    ∧ (bq_style p ≠ Some Segments → ∃ m a b, readMessageObject sha256Hex gunzip files files dataDir (sh_hash (hc_hit c)) = Ok (Some m)
        ∧ sh_snippet (hc_hit c) = slice (renderProjection m) a b) in
  ∀ found, Forall (λ h, exact_hit full h ∧ visible index (bq_ns p) h) found →
    Forall good (flat_map (card_of sha256Hex gunzip files dataDir toLowerCase nodes p) found).
Proof.
  intros good found. induction 1 as [|hit found [He Hv] _ IH]; cbn [flat_map]; [constructor|]. apply Forall_app. split; [|done].
  assert (∃ a b, sh_snippet hit = slice (full (sh_hash hit)) a b) as (a0 & b0 & Hs) by (destruct He as [_ He]; eauto).
  unfold card_of. assert (Forall good
    match readValidProjection sha256Hex gunzip files dataDir (sh_hash hit) with
    | None => []
    | Some m => let focused := focusSearchHit toLowerCase hit (bq_query p) 512 in
      if negb (jeqb (slice (renderProjection m) (sh_start focused) (sh_end focused)) (sh_snippet focused)) then []
      else [mkCard focused (Some (file_paths m, query_identifiers toLowerCase (bq_query p) (sh_snippet focused), nodesForSource nodes (bq_ns p) (sh_hash hit)))]
    end) as Hcard.
  { destruct (readValidProjection _ _ _ _ (sh_hash hit)) as [m|] eqn:Em; [|constructor]. cbv zeta.
    destruct (focus_fields hit (bq_query p) 512) as (Hh & Hn & a & b & Hf). case_test; [constructor|]. apply negb_false_iff, jeqb_eq in E.
    constructor; [|constructor]. unfold good. cbn [hc_hit]. split_and!.
    - destruct Hv as (Hns & r & Hr). split; [by rewrite Hn|]. exists r. by rewrite Hh.
    - rewrite Hf, Hs, Hh. apply slice_of_slice.
    - intros _. exists m, (sh_start (focusSearchHit toLowerCase hit (bq_query p) 512)), (sh_end (focusSearchHit toLowerCase hit (bq_query p) 512)).
      rewrite Hh. split; [by apply readValid|by rewrite E]. }
  destruct (bq_style p) as [[|]|] eqn:Es; [done| |done].
  constructor; [|constructor]. split; [done|]. split; [by eauto|]. intros Hns. by destruct Hns.
Qed.
End Isolation.

(** ** An archive read back *)

Section ReadBack.
Context (sha256Hex : jstr → jstr) (gzip : bytes → bytes) (gunzip : Z → bytes → option bytes) (dataDir : jstr).

Lemma ledger_ok_fold meta rows :
  ledger_ok meta → Forall (λ r, 0 <= cm_msgSeq r) rows → ledger_ok (foldl insertCasMeta meta rows).
Proof.
  intros [Hnd Hpos] Hrows. unfold ledger_ok. rewrite insertCasMeta_refs. split.
  - clear Hpos Hrows. revert Hnd. generalize (md_archive_refs meta) as refs. induction rows as [|r rows IH]; intros refs Hnd; [done|].
    cbn [foldl]. apply IH. by apply insert_ignore_nodup.
  - rewrite Forall_forall in *. intros r [Hr|Hr]%refs_fold_elem; auto.
Qed.

(** What a plan must satisfy for its pages to carry every text. *)
Record plan_pages (meta : MetaDb) (ns : Namespace) (plan : ArchivePlan) : Prop := {
  pp_seq : 0 <= match ap_turns plan with t :: _ => t_startMsgIndex t | [] => 0 end;
  pp_texts : Forall (λ m, wf_utf16 (renderProjection m) = true ∧ zlen (renderProjection m) <= MAX_SAFE_INTEGER) (ap_messages plan);
  pp_leaves : Forall (λ m, child_archive meta ns m = None) (ap_messages plan) }.

Lemma plan_rows_seq plan ns createdAt :
  0 <= match ap_turns plan with t :: _ => t_startMsgIndex t | [] => 0 end → Forall (λ r, 0 <= cm_msgSeq r) (insertCasMetaRows plan ns createdAt).
Proof.
  intros H. apply Forall_forall. intros r Hr. unfold insertCasMetaRows in Hr.
  apply elem_of_lookup_imap_1 in Hr as (i & mh & -> & _). cbn [cm_msgSeq]. lia.
Qed.

(** The leaves of rows whose objects all read back. *)
Lemma plan_leaves files meta ns rs ms enter :
  map cm_hash rs = map (contentDigest sha256Hex) ms →
  Forall (λ m, readMessageObject sha256Hex gunzip files files dataDir (contentDigest sha256Hex m) = Ok (Some m)) ms →
  Forall (λ m, child_archive meta ns m = None) ms →
  row_leaves (archive_reader sha256Hex gunzip files dataDir meta ns) enter (map archive_row rs)
  = (zip_with (λ r m, (archive_row r, Some (renderProjection m))) rs ms, None).
Proof.
  revert ms. induction rs as [|r rs IH]; intros [|m ms]; try done. cbn [map]. intros [= Hh Hr] Hm Hc.
  apply Forall_cons in Hm as [Hm Hms]. apply Forall_cons in Hc as [Hc Hcs]. cbn [row_leaves archive_reader content].
  unfold archive_content, readValidProjection. cbn [archive_row rw_hash]. rewrite Hh, Hm, Hc. cbn [zip_with].
  rewrite (IH ms) by done. done.
Qed.

Lemma plan_leaf_texts rs ms : length rs = length ms →
  texts (zip_with (λ r m, (archive_row r, Some (renderProjection m))) rs ms) = concat (map renderProjection ms)
  ∧ missing_of (zip_with (λ r m, (archive_row r, Some (renderProjection m))) rs ms) = [].
Proof.
  revert ms. induction rs as [|r rs IH]; intros [|m ms]; try done. intros [= Hl].
  destruct (IH ms Hl) as [H1 H2]. cbn [zip_with map concat]. by rewrite texts_cons, H1.
Qed.

Lemma plan_leaf_ok rs ms :
  map cm_hash rs = map (contentDigest sha256Hex) ms → Forall (λ m, test HASH_RE (contentDigest sha256Hex m) = true) ms →
  Forall (λ m, wf_utf16 (renderProjection m) = true ∧ zlen (renderProjection m) <= MAX_SAFE_INTEGER) ms →
  Forall leaf_ok (zip_with (λ r m, (archive_row r, Some (renderProjection m))) rs ms).
Proof.
  revert ms. induction rs as [|r rs IH]; intros [|m ms]; try done. cbn [map zip_with]. intros [= Hh Hr] Hv Hm.
  apply Forall_cons in Hv as [Hv Hvs]. apply Forall_cons in Hm as [Hm Hms]. constructor; [|by apply IH].
  rewrite hash_re_spec in Hv. apply andb_true_iff in Hv as [Hlen%bool_decide_eq_true Hall]. rewrite <- Hh in *.
  split_and!; cbn [fst snd archive_row rw_hash]; [|lia|done].
  apply Forall_forall. intros c Hc. rewrite forallb_forall in Hall. apply list_elem_of_In in Hc. specialize (Hall c Hc).
  unfold in_ranges, hex_ranges in Hall. cbn [existsb fst snd] in Hall. rewrite !orb_true_iff, !andb_true_iff, !Z.leb_le in Hall. lia.
Qed.

(** Such rows are read in one iteration each. *)
Lemma plan_steps files meta ns rs ms enter :
  map cm_hash rs = map (contentDigest sha256Hex) ms →
  Forall (λ m, readMessageObject sha256Hex gunzip files files dataDir (contentDigest sha256Hex m) = Ok (Some m)) ms →
  Forall (λ m, child_archive meta ns m = None) ms →
  row_steps (archive_reader sha256Hex gunzip files dataDir meta ns) enter (map archive_row rs) = S (length ms).
Proof.
  revert ms. induction rs as [|r rs IH]; intros [|m ms]; try done. cbn [map]. intros [= Hh Hr] Hm Hc.
  apply Forall_cons in Hm as [Hm Hms]. apply Forall_cons in Hc as [Hc Hcs]. cbn [row_steps archive_reader content].
  unfold archive_content, readValidProjection. cbn [archive_row rw_hash]. rewrite Hh, Hm, Hc. by rewrite (IH ms).
Qed.

Lemma run_effects_cursors es st : md_cursors (as_meta (run_effects sha256Hex gzip dataDir st es).1) = md_cursors (as_meta st).
Proof.
  revert st. induction es as [|e es IH]; intros st; [done|]. cbn [run_effects].
  assert (md_cursors (as_meta (run_effect sha256Hex gzip dataDir st e).1) = md_cursors (as_meta st)) as He.
  { destruct e as [m h u|rows| |]; cbn [run_effect]; [by destruct (writeMessageObject _ _ _ _ _ _ _)| |done|done]. cbn [fst as_meta].
    generalize (as_meta st) as meta. induction rows as [|r l IHl]; intros meta; [done|]. cbn [foldl]. by rewrite IHl. }
  destruct (run_effect sha256Hex gzip dataDir st e) as [st1 [u|x]]; [by rewrite IH|done].
Qed.
Lemma persist_cursors assert_plan st ns plan raw createdAt uuid :
  md_cursors (as_meta (persistArchive sha256Hex gzip dataDir assert_plan st ns plan raw createdAt uuid).1) = md_cursors (as_meta st).
Proof. unfold persistArchive. case_test; [done|]. apply run_effects_cursors. Qed.
End ReadBack.

(** ** A client *)

Lemma page_walk_fuel {P} (reader : HistoryReader P) limit f f' stack ga r :
  page_walk reader limit f stack ga = Some r → (f <= f')%nat → page_walk reader limit f' stack ga = Some r.
Proof.
  revert f' stack ga. induction f as [|f IH]; intros [|f'] stack ga; cbn [page_walk]; [done|done|lia|]. intros H Hf.
  repeat case_match; try done; apply IH; by (lia || done).
Qed.

(** A page never leaves more iterations than it found. *)
Lemma page_walk_steps {P} (reader : HistoryReader P) `{!RowReader reader} limit f stack ga stack' ga' :
  page_walk reader limit f stack ga = Some (Ok (stack', ga')) → (frontier_steps reader stack' <= frontier_steps reader stack)%nat.
Proof.
  revert stack ga. induction f as [|f IH]; intros stack ga; cbn [page_walk]; [done|].
  destruct stack as [|[h o] below]; [by intros [= <- _]|]. rewrite rows_head.
  destruct (rows h o) as [|r rest] eqn:Er; cbn [head].
  { intros H%IH. cbn [frontier_steps]. lia. }
  assert (∀ c, content reader r = Ok c → (∀ ch, c ≠ Some (CChild ch)) →
    (frontier_steps reader ((h, next_offset r o) :: below) <= frontier_steps reader ((h, o) :: below))%nat) as Hleaf.
  { intros c Hc Hn. cbn [frontier_steps length]. rewrite Er, (rows_next _ _ _ _ Er). cbn [row_steps]. lia. }
  destruct (content reader r) as [[[t|c]|]|e] eqn:Ec; [| | |done].
  - specialize (Hleaf _ Logic.eq_refl ltac:(done)). destruct (leaf_step _ _ _ _) as [g|g|e]; [|by intros [= <- _]|done]. intros H%IH. lia.
  - destruct (_ || _) eqn:Eo; [done|]. apply orb_false_iff in Eo as [Eo _]. intros H%IH.
    rewrite (steps_push reader h o r rest below c) by done. lia.
  - specialize (Hleaf _ Logic.eq_refl ltac:(done)). destruct (leaf_step _ _ _ _) as [g|g|e]; [|by intros [= <- _]|done]. intros H%IH. lia.
Qed.

Lemma evict_sub rows r : r ∈ evict rows → r ∈ rows.
Proof. unfold evict. rewrite !list_elem_of_In, filter_In. tauto. Qed.

Section Client.
Context (sha256Hex : jstr → jstr) (gunzip : Z → bytes → option bytes) (files : fs) (dataDir : jstr).
Context (fts_match : list SegmentFtsRow → jstr → list (jstr * jnum)) (toLowerCase : jstr → jstr) (index : IndexDb) (nodes : NodeDb).
(** What [randomUUID] and [Date.now] give to the i-th request, and the fuel of each. *)
Context (uuid : nat → jstr) (clock : nat → Z) (fuel : nat).

Definition continued (p : ByHistory) (cursor : jstr) : ByHistory :=
  mkByHistory (by_ns p) (by_historyHash p) (by_offset p) (by_limit p) (Some cursor) (by_maxBytes p) (by_maxTokens p).

(** A client that asks for a history, and sends each [nextCursor] back until
    there is none; the ledger, with the cursors saved in it, goes from one
    request to the next. *)
Fixpoint read_history (n : nat) (meta : MetaDb) (p : ByHistory) (i : nat) : option (list HistoryAnswer) :=
  match n with
  | O => None
  | S n' =>
    match retrieve sha256Hex gunzip files dataDir fts_match toLowerCase meta index nodes (RHistory p) (λ _, uuid i) (clock i) fuel with
    | Some (meta', Ok (FoundHistory a)) =>
      match ha_nextCursor a with
      | None => Some [a]
      | Some cursor => rest ← read_history n' meta' (continued p cursor) (S i); Some (a :: rest)
      end
    | _ => None
    end
  end.

Abbreviation request p := (mkRequest (by_maxBytes p) (by_maxTokens p) (by_limit p)).

(** The request starts at, or carries the cursor of, a frontier. *)
Record stands_at (meta : MetaDb) (p : ByHistory) (st : HistoryFrontier) : Prop := {
  sa_persisted : match truthy (by_cursor p) with Some c => starts_with CURSOR3 c | None => default 0 (by_offset p) =? 0 end = true;
  sa_state : history_state meta p = Ok st }.
(** No other cursor is newer than the next request, or has its name. *)
Record cursors_before (meta : MetaDb) (i : nat) : Prop := {
  cb_table : cursors_ok meta;
  cb_age : Forall (λ r, cu_createdAt r <= clock i) (md_cursors meta);
  cb_fresh : ∀ j, (i <= j)%nat → cursor_id (uuid j) ∉ map cu_id (md_cursors meta) }.

Context (Hclock : ∀ i, clock i <= clock (S i)) (Huuid : Inj eq eq uuid).

Lemma cursor_saved meta i ns hash st : cursors_before meta i →
  ∃ rows, saveHistoryCursor meta ns hash st (uuid i) (clock i) = Ok (set_cursors meta rows, cursor_id (uuid i))
    ∧ cursors_before (set_cursors meta rows) (S i)
    ∧ loadHistoryCursor (set_cursors meta rows) ns hash (cursor_id (uuid i)) = Ok st.
Proof.
  intros [Ht Ha Hf]. destruct (saveHistoryCursor meta ns hash st (uuid i) (clock i)) as [[meta' id]|e] eqn:E.
  2:{ exfalso. unfold saveHistoryCursor in E. destruct (existsb _ (md_cursors meta)) eqn:Ex; [|done].
      apply existsb_exists in Ex as (r & Hr & He%jeqb_eq). apply (Hf i); [done|]. rewrite <- He. by apply list_elem_of_In, in_map. }
  destruct (history_cursor_roundtrip _ _ _ _ _ _ _ _ Ht Ha E) as (Hok & Hload & _).
  unfold saveHistoryCursor in E. destruct (existsb _ (md_cursors meta)); [done|]. injection E as <- <-. eexists. split; [done|]. split.
  - split; [done| |]; cbn [md_cursors set_cursors].
    + apply Forall_forall. intros r Hr%evict_sub. apply elem_of_app in Hr as [Hr|Hr]; [|apply list_elem_of_singleton in Hr as ->; cbn; apply Hclock].
      rewrite Forall_forall in Ha. specialize (Ha r Hr). specialize (Hclock i). cbn in Ha. lia.
    + intros j Hj Hid. apply list_elem_of_In, in_map_iff in Hid as (r & Hr & Hin). apply list_elem_of_In, evict_sub, elem_of_app in Hin as [Hin|Hin]; [|apply list_elem_of_singleton in Hin as ->].
      * apply (Hf j); [lia|]. rewrite <- Hr. by apply list_elem_of_In, in_map, list_elem_of_In.
      * cbn [cu_id] in Hr. unfold cursor_id in Hr. apply app_inv_head, (inj uuid) in Hr. lia.
  - rewrite Hload. by rewrite bool_decide_true, jeqb_refl.
Qed.

Lemma read_history_follows meta (Hledger : ledger_ok meta) n rows p i st pages :
  let meta' := set_cursors meta rows in
  let reader := archive_reader sha256Hex gunzip files dataDir meta (by_ns p) in
  hasHistoryMeta meta (by_ns p) (by_historyHash p) = true → check_budget (by_maxBytes p) (by_maxTokens p) = Ok tt →
  stands_at meta' p st → cursors_before meta' i → (frontier_steps reader (fr_stack st) <= fuel)%nat →
  follow reader (request p) n st = Some (Ok pages) →
  ∃ answers, read_history n meta' p i = Some answers
    ∧ Forall2 (λ a page, ha_items a = hp_items page ∧ ha_missingHashes a = hp_missingHashes page) answers pages.
Proof.
  intros meta' reader Hhas Hbudget. subst meta'. revert rows p i st pages Hhas Hbudget reader. induction n as [|n IH]; [done|].
  intros rows p i st pages Hhas Hbudget reader [Hper Hst] Hcur Hf. cbn [follow read_history].
  unfold retrieve, retrieve_budget. rewrite Hbudget. unfold retrieve_history. change (hasHistoryMeta (set_cursors meta rows)) with (hasHistoryMeta meta).
  rewrite Hhas, Hper. cbn [negb]. unfold history_page. rewrite Hst.
  change (archive_reader sha256Hex gunzip files dataDir (set_cursors meta rows)) with (archive_reader sha256Hex gunzip files dataDir meta). fold reader.
  unfold readHistoryPage at 1. destruct (page_walk reader _ (frontier_steps reader (fr_stack st)) _ _) as [[[stack ga]|e]|] eqn:Ew; [|done|done].
  pose proof (page_walk_steps _ _ _ _ _ _ _ Ew) as Hsteps. unfold readHistoryPage. rewrite (page_walk_fuel _ _ _ _ _ _ _ Ew Hf).
  cbn [mbind option_bind rbind fst snd hp_more hp_items hp_missingHashes hp_state]. destruct stack as [|fr stack].
  { intros [= <-]. eexists. split; [done|]. by repeat constructor. }
  destruct (cursor_saved (set_cursors meta rows) i (by_ns p) (by_historyHash p) (mkFrontier (fr :: stack) (ga_ordinal ga) (ga_intra ga)) Hcur)
    as (rows' & -> & Hcur' & Hload). cbn [mbind option_bind fst snd rbind ha_nextCursor].
  change (set_cursors (set_cursors meta rows) rows') with (set_cursors meta rows') in *.
  destruct (follow reader (request p) n _) as [[rest|e]|] eqn:Ef; [|done|done]. intros [= <-].
  destruct (IH rows' (continued p (cursor_id (uuid i))) (S i) (mkFrontier (fr :: stack) (ga_ordinal ga) (ga_intra ga)) rest) as (answers & -> & Hall);
    [done|done|by split|done|cbn [fr_stack]; etransitivity; [exact Hsteps|done]|exact Ef|].
  eexists. split; [done|]. by constructor.
Qed.
End Client.

(** ** Claims *)

(** Ordinal and persisted cursors read the same pages.  From an ordinal
    position and a frontier that stand at the same place (the start of a
    history does), the legacy page and the page of the persisted frontier have
    the same items, missing hashes, truncation and next ordinal, fail with the
    same error, and stand at the same place again afterwards. *)
Theorem ordinal_pages_agree sha256Hex gunzip files dataDir meta (Hledger : ledger_ok meta) p :
  same_place sha256Hex gunzip files dataDir meta Hledger p (mkFrontier [(by_historyHash p, 0)] 0 0)
  ∧ ∀ st fuel, same_place sha256Hex gunzip files dataDir meta Hledger p st →
      let reader := archive_reader sha256Hex gunzip files dataDir meta (by_ns p) in
      let start := (fr_ordinal st, fr_intra st) in
      (frontier_steps reader (fr_stack st) <= fuel)%nat →
      match readHistoryPage fuel reader st (mkRequest (by_maxBytes p) (by_maxTokens p) (by_limit p)) with
      | Some (Ok page) => (∃ ga, ordinal_from sha256Hex gunzip files dataDir meta p start = Ok (ga, hp_more page)
          ∧ ga_items ga = hp_items page ∧ ga_missing ga = hp_missingHashes page ∧ ga_ordinal ga = fr_ordinal (hp_state page)
          ∧ ga_intra ga = fr_intra (hp_state page))
          ∧ (hp_more page = true → same_place sha256Hex gunzip files dataDir meta Hledger p (hp_state page))
      | Some (Throw e) => ordinal_from sha256Hex gunzip files dataDir meta p start = Throw e
      | None => False
      end.
Proof. split; [apply same_start|]. intros st fuel Hs reader start Hf. by apply same_page. Qed.


(** C2: What compression archives, retrieval gives back.  After [persistArchive]
    of a new history whose messages stand for themselves, a client that asks
    [retrieve] for the history and sends each [nextCursor] back until there is
    none receives, in order and complete, the rendering of every archived
    message, and no hash is reported missing; every answer keeps to its budget
    and limit, and one request per message and code unit is enough.  The
    frontiers travel through the cursor table; no younger cursor is assumed in it,
    nor one of a name [randomUUID] still gives. *)
Theorem archive_then_retrieve sha256Hex gzip gunzip dataDir assert_plan fts_match toLowerCase st plan ns raw createdAt uuid
    nodes limit maxBytes maxTokens cursorUuid clock fuel :
  gzip_law gzip gunzip → plan_ok sha256Hex plan → ap_messages plan ≠ [] → fresh_names dataDir (as_files st) uuid →
  objects_agree sha256Hex gzip dataDir (as_files st) (ap_messages plan) →
  hasHistoryMeta (as_meta st) ns (ap_historyHash plan) = false → assert_plan plan (chunkInputs plan ns) = true →
  ledger_ok (as_meta st) → cursors_before cursorUuid clock (as_meta st) 0 → Inj eq eq cursorUuid → (∀ i, clock i <= clock (S i)) →
  let request := mkRequest maxBytes maxTokens limit in
  check_budget maxBytes maxTokens = Ok tt → 4 <= page_budget_of request → 1 <= page_limit_of request →
  (length (ap_messages plan) + 2 <= fuel)%nat →
  let '(st', r) := persistArchive sha256Hex gzip dataDir assert_plan st ns plan raw createdAt uuid in
  plan_pages (as_meta st') ns plan →
  r = Ok tt ∧ ∃ answers,
    read_history sha256Hex gunzip (as_files st') dataDir fts_match toLowerCase (as_index st') nodes cursorUuid clock fuel
      (S (length (ap_messages plan) + length (concat (map renderProjection (ap_messages plan)))))
      (as_meta st') (mkByHistory ns (ap_historyHash plan) None limit None maxBytes maxTokens) 0 = Some answers
    ∧ concat (map (λ a, concat (map it_content (ha_items a))) answers) = concat (map renderProjection (ap_messages plan))
    ∧ concat (map ha_missingHashes answers) = []
    ∧ Forall (λ a, zsum (map (λ it, byte_length (it_content it)) (ha_items a)) <= page_budget_of request
                   ∧ zlen (ha_items a) <= page_limit_of request) answers.
Proof.
  intros Hgz Hp Hne Hf Ha Hn Has Hled Hcur Hinj Hclock request Hbudget Hb Hlim Hfuel.
  pose proof (persist_reads sha256Hex gzip gunzip dataDir assert_plan st plan ns raw createdAt uuid Hgz Hp Hf Ha Hn Has) as H.
  pose proof (persist_cursors sha256Hex gzip dataDir assert_plan st ns plan raw createdAt uuid) as Hcursors.
  destruct (persistArchive sha256Hex gzip dataDir assert_plan st ns plan raw createdAt uuid) as [st' r]. cbn [fst] in Hcursors.
  destruct H as (-> & Hrefs & Hrows & Hhash & Hall). intros [Hseq Htexts Hleaves]. split; [done|].
  assert (Forall (λ m, readMessageObject sha256Hex gunzip (as_files st') (as_files st') dataDir (contentDigest sha256Hex m) = Ok (Some m)) (ap_messages plan))
    as Hread by (eapply Forall_impl; [exact Hall|]; by intros m [? _]).
  assert (ledger_ok (as_meta st')) as Hled'.
  { pose proof (ledger_ok_fold (as_meta st) (insertCasMetaRows plan ns createdAt) Hled (plan_rows_seq plan ns createdAt Hseq)) as [H1 H2].
    split; by rewrite Hrefs. }
  assert (hasHistoryMeta (as_meta st') ns (ap_historyHash plan) = true) as Hhas.
  { unfold hasHistoryMeta. rewrite Hrefs. apply history_recorded. intros E. rewrite E in Hhash. by destruct (ap_messages plan). }
  set (rs := insertCasMetaRows plan ns createdAt) in *. set (ms := ap_messages plan) in *.
  set (reader := archive_reader sha256Hex gunzip (as_files st') dataDir (as_meta st') ns).
  set (ls := zip_with (λ r m, (archive_row r, Some (renderProjection m))) rs ms).
  assert (length rs = length ms) as Hlen by (by rewrite <- (length_map cm_hash), Hhash, length_map).
  assert (frontier_leaves reader [(ap_historyHash plan, 0)] = (ls, None)) as Hfl.
  { unfold reader. rewrite start_leaves. cbn [child_leaves existsb rows archive_row_reader]. rewrite archive_rows_0, Hrows by done. by apply plan_leaves. }
  assert (le (frontier_steps reader [(ap_historyHash plan, 0)]) fuel) as Hsteps.
  { cbn [frontier_steps rows archive_row_reader]. rewrite archive_rows_0, Hrows by done. unfold reader. erewrite plan_steps by done. fold ms. lia. }
  assert (Forall leaf_ok ls) as Hok by (by apply (plan_leaf_ok sha256Hex); [|apply plan_valid|]).
  destruct (plan_leaf_texts rs ms Hlen) as [Ht Hm].
  assert (to_read ls 0 = concat (map renderProjection ms)) as Hto by (unfold to_read; by rewrite Z2Nat.inj_0, drop_0).
  destruct (follow_whole reader request (S (length ms + length (concat (map renderProjection ms)))) (mkFrontier [(ap_historyHash plan, 0)] 0 0) ls)
    as (pages & Hfollow & Htext & Hmiss & Hbd); [done|done|cbn; lia|done|done|by apply within_start| |].
  { cbn [fr_intra]. unfold left_over. rewrite Hto. unfold ls. rewrite length_zip_with, Hlen. lia. }
  destruct (read_history_follows sha256Hex gunzip (as_files st') dataDir fts_match toLowerCase (as_index st') nodes cursorUuid clock fuel Hclock Hinj
    (as_meta st') Hled' (S (length ms + length (concat (map renderProjection ms)))) (md_cursors (as_meta st')) (mkByHistory ns (ap_historyHash plan) None limit None maxBytes maxTokens) 0%nat (mkFrontier [(ap_historyHash plan, 0)] 0 0) pages
    Hhas Hbudget) as (answers & Hanswers & Hsame); [by split|destruct Hcur; split; cbn [md_cursors set_cursors]; by rewrite Hcursors|exact Hsteps|exact Hfollow|].
  exists answers. split.
  { rewrite <- Hanswers. by destruct (as_meta st'). }
  cbn [fr_intra] in Htext. rewrite Hto in Htext. rewrite (Hm : missing_of ls = []) in Hmiss. rewrite <- Htext, <- Hmiss. clear -Hsame Hbd Hlim.
  induction Hsame as [|a page answers pages [Hi Hmi] _ IH]; [by repeat split|]. apply Forall_cons in Hbd as [[Hb1 Hb2] Hbd].
  destruct (IH Hbd) as (H1 & H2 & H3). cbn [map concat]. rewrite H1, H2, Hi, Hmi. split; [done|]. split; [done|]. constructor; [|done].
  split; [by rewrite Hi|rewrite Hi; unfold page_limit_of in *; lia].
Qed.

(** ** Witnesses *)

Lemma empty_ledger : ledger_ok empty_meta.
Proof. split; constructor. Qed.
Lemma toy_ledger : ledger_ok (as_meta toy_store).
Proof. exact empty_ledger. Qed.

Lemma ordinal_pages_agree_witness :
  same_place toy_sha demo_gunzip [] demo_dir empty_meta empty_ledger (mkByHistory demo_ns (js "h") None None None None None)
    (mkFrontier [(js "h", 0)] 0 0).
Proof. exact (proj1 (ordinal_pages_agree toy_sha demo_gunzip [] demo_dir empty_meta empty_ledger (mkByHistory demo_ns (js "h") None None None None None))). Defined.

Definition toy_persisted : ArchiveStore * result jstr unit :=
  persistArchive toy_sha id demo_dir (λ _ _, true) toy_store demo_ns toy_plan 4 0 toy_uuid.
Definition toy_query : RetrieveParams := RHash (mkByHash demo_ns (contentDigest toy_sha toy_message) None None None).

Definition toy_full (_ : jstr) : jstr := renderProjection toy_message.
Lemma toy_rows : Forall (exact_row toy_full) (ix_segments (as_index toy_persisted.1)).
Proof. apply (bool_decide_unpack _). vm_compute. exact I. Qed.

Abbreviation toy_retrieved := (retrieve toy_sha demo_gunzip (as_files toy_persisted.1) demo_dir demo_match id (as_meta toy_persisted.1)
  (as_index toy_persisted.1) empty_nodes toy_query toy_uuid 0 0).
Definition toy_text (r : option (MetaDb * result jstr RetrieveResult)) : jstr :=
  match r with Some (_, Ok (FoundText page)) => tp_content page | _ => [] end.
Lemma toy_retrieved_text : toy_text toy_retrieved = js "[user]" ++ [10] ++ js "Fix the parser.".
Proof. vm_compute. reflexivity. Qed.


Lemma toy_pages : plan_pages (as_meta toy_persisted.1) demo_ns toy_plan.
Proof. split; [vm_compute; discriminate|constructor; [split; [vm_compute; reflexivity|vm_compute; discriminate]|constructor]|constructor; [reflexivity|constructor]]. Qed.

Definition toy_cursor (i : nat) : jstr := replicate i 120.
Abbreviation toy_answers := (read_history toy_sha demo_gunzip (as_files toy_persisted.1) demo_dir demo_match id (as_index toy_persisted.1) empty_nodes
  toy_cursor Z.of_nat 4 24 (as_meta toy_persisted.1) (mkByHistory demo_ns (ap_historyHash toy_plan) None (Some 2) None (Some 6) None) 0).
(** Four answers: three cursors are saved and loaded. *)
Example toy_answers_ex : length <$> toy_answers = Some 4%nat.
Proof. vm_compute. reflexivity. Qed.

Lemma archive_then_retrieve_witness :
  ∃ answers, toy_answers = Some answers
    ∧ concat (map (λ a, concat (map it_content (ha_items a))) answers) = js "[user]" ++ [10] ++ js "Fix the parser.".
Proof.
  pose proof (archive_then_retrieve toy_sha id demo_gunzip demo_dir (λ _ _, true) demo_match id toy_store toy_plan demo_ns 4 0 toy_uuid
    empty_nodes (Some 2) (Some 6) None toy_cursor Z.of_nat 4 demo_gzip_law toy_plan_ok ltac:(discriminate) toy_fresh) as H.
  pose proof toy_pages as Hpp. unfold toy_persisted in *.
  destruct (persistArchive toy_sha id demo_dir (λ _ _, true) toy_store demo_ns toy_plan 4 0 toy_uuid) as [st' r]. cbn [fst] in *.
  destruct H as (_ & answers & H1 & H2 & _); [|reflexivity|reflexivity|exact toy_ledger| | |lia|reflexivity|vm_compute; discriminate|vm_compute; discriminate|cbn; lia|exact Hpp|].
  - split; [intros m _; cbn; set_solver|]. cbn. intros m m' ->%list_elem_of_singleton ->%list_elem_of_singleton. done.
  - split; [split; [constructor|cbn; lia]|constructor|]. intros j _. cbn. apply not_elem_of_nil.
  - intros i j H%(f_equal length). unfold toy_cursor in H. by rewrite !length_replicate in H.
  - exists answers. split; [exact H1|]. exact H2.
Defined.
