(* ===== verification/RtkEngine.v ===== *)
(** * The rtk engine ([packages/rtk/src/engine.ts], [ownership.ts])

    [compress] runs the pipeline of the file [Pipeline] and stores the raw text
    as a content-addressed object (file [Cas]); [fetch] reads it back for the
    session that stored it.  The store of rtk is the object files, the size
    ledger [rtk_storage], the ownership table [rtk_refs] and the publication
    mutex (the [BEGIN EXCLUSIVE] of [rtk-writer.db]).

    A publication is a process of several atomic steps, [pub_step]; [rtk_step]
    interleaves the publications of any number of engines on one directory,
    which may crash, fail or find the mutex taken at any point, and engine
    starts, which enter objects found on disk into the ledger.  SQLite
    transactions are single steps.  The clock columns are not modelled. *)

From stdpp Require Import base tactics list numbers option sets strings relations.
From S2P Require Import Prelude JsString JsRegex Json Codec CLine OMap Paging Chat Pipeline Cas Archive.

(** ** The ownership store *)

Inductive StorageState : Type := Pending | Published.
#[export] Instance StorageState_dec : EqDecision StorageState.
Proof. solve_decision. Defined.

(** [rtk_storage(hash PRIMARY KEY, size, state)]. *)
Abbreviation Ledger := (list (jstr * (Z * StorageState))).

(** The holder of the mutex is named by the publication's [pb_id]. *)
Record RtkStore := mkRtk {
  rk_files : fs;
  rk_storage : Ledger;
  rk_refs : list (jstr * jstr);
  rk_lock : option jstr }.

Definition set_storage (s : Ledger) (st : RtkStore) : RtkStore := mkRtk (rk_files st) s (rk_refs st) (rk_lock st).
Definition set_files (f : fs) (st : RtkStore) : RtkStore := mkRtk f (rk_storage st) (rk_refs st) (rk_lock st).
Definition set_lock (l : option jstr) (st : RtkStore) : RtkStore := mkRtk (rk_files st) (rk_storage st) (rk_refs st) l.

(** [COALESCE(SUM(size), 0)] *)
Definition usage (s : Ledger) : Z := zsum (map fst s.*2).

(** The transaction [reserve]. *)
Definition reserve (s : Ledger) (hash : jstr) (size limit : Z) : Ledger * bool :=
  match get hash s with
  | Some (existing, _) => (s, existing =? size)
  | None => if limit <? usage s + size then (s, false) else (s ++ [(hash, (size, Pending))], true)
  end.

Definition grant (session hash : jstr) (refs : list (jstr * jstr)) : list (jstr * jstr) :=
  if bool_decide ((session, hash) ∈ refs) then refs else refs ++ [(session, hash)].
Definition owns (refs : list (jstr * jstr)) (session hash : jstr) : bool := bool_decide ((session, hash) ∈ refs).

Section Reconcile.
Context (dataDir : jstr).

Definition reconcile_row (files : fs) (s : Ledger) (hash : jstr) : result jstr Ledger :=
  let! path := objectPath dataDir hash in
  match get hash s with
  | None => Ok s
  | Some (size, state) =>
    if has path files then Ok (set_key hash (size, Published) s)
    else Ok (if bool_decide (state = Pending) then delete_key hash s else s)
  end.

Fixpoint reconcile_rows (files : fs) (pending : list jstr) (s : Ledger) : result jstr Ledger :=
  match pending with
  | [] => Ok s
  | hash :: rest => let! s := reconcile_row files s hash in reconcile_rows files rest s
  end.

Definition pending_rows (s : Ledger) : list jstr := (List.filter (λ r, bool_decide (r.2.2 = Pending)) s).*1.

(** The transaction [reconcilePending]; an error rolls it back. *)
Definition reconcilePending (files : fs) (s : Ledger) : result jstr Ledger :=
  reconcile_rows files (pending_rows s) s.
End Reconcile.

(** ** Publications *)

(** How a publication ends: [None] when the object is stored and granted. *)
Abbreviation Failure := (option DegradedReason).

Inductive PubPhase : Type :=
| UBegin                 (** about to take the mutex *)
| UReconcile             (** holds it; about to reconcile *)
| UReserve
| UWrite (w : Writer)    (** inside [writeObject] *)
| UGrant
| UFinish (r : Failure)  (** in the [finally]: about to reconcile again *)
| UUnlock (r : Failure)  (** about to roll back, which frees the mutex *)
| UDone (r : Failure)
| UDead.

Record Publication := mkPub {
  pb_id : jstr;          (** [crypto.randomUUID()] of its temporary file *)
  pb_session : jstr;
  pb_hash : jstr;        (** [expectedHex] *)
  pb_content : bytes;    (** the UTF-8 bytes of [rawForStore] *)
  pb_phase : PubPhase }.

Definition set_pub (ph : PubPhase) (p : Publication) : Publication :=
  mkPub (pb_id p) (pb_session p) (pb_hash p) (pb_content p) ph.

Section Engine.
Context (sha256Hex : bytes → jstr) (dataDir : jstr) (maxStorageBytes : Z).

Definition failed : Failure := Some DRstorage_error.

(** What [work] does once [writeObject] has returned. *)
Definition written (p : Publication) (w : Writer) : PubPhase :=
  match outcome_of w with
  | Ok stored => if jeqb (wr_hash stored) (pb_hash p) then UGrant else UFinish failed
  | Throw _ => UFinish failed
  end.

Definition start_write (p : Publication) : PubPhase :=
  let hash := sha256Hex (pb_content p) in
  match assertValidHash hash with
  | Throw _ => UFinish failed
  | Ok _ => UWrite (start_writer dataDir hash (pb_id p) (pb_content p) true)
  end.

(** One atomic step of a publication. *)
Definition pub_step (st : RtkStore) (chunk : nat) (p : Publication) : RtkStore * Publication :=
  match pb_phase p with
  | UBegin =>
    match rk_lock st with
    | Some _ => (st, set_pub (UDone failed) p)
    | None => (set_lock (Some (pb_id p)) st, set_pub UReconcile p)
    end
  | UReconcile =>
    match reconcilePending dataDir (rk_files st) (rk_storage st) with
    | Ok s => (set_storage s st, set_pub UReserve p)
    | Throw _ => (st, set_pub (UFinish failed) p)
    end
  | UReserve =>
    let '(s, granted) := reserve (rk_storage st) (pb_hash p) (zlen (pb_content p)) maxStorageBytes in
    (set_storage s st, set_pub (if granted then start_write p else UFinish (Some DRstorage_capacity)) p)
  | UWrite w =>
    let '(files, w') := writer_step (rk_files st) chunk w in
    (set_files files st, set_pub (match w_phase w' with PDone _ => written p w' | _ => UWrite w' end) p)
  | UGrant =>
    (mkRtk (rk_files st) (rk_storage st) (grant (pb_session p) (pb_hash p) (rk_refs st)) (rk_lock st), set_pub (UFinish None) p)
  | UFinish r =>
    match reconcilePending dataDir (rk_files st) (rk_storage st) with
    | Ok s => (set_storage s st, set_pub (UUnlock r) p)
    | Throw _ => (st, set_pub (UUnlock failed) p)
    end
  | UUnlock r => (set_lock None st, set_pub (UDone r) p)
  | UDone _ | UDead => (st, p)
  end.

(** A publication running alone. *)
Fixpoint run_pub (fuel : nat) (st : RtkStore) (p : Publication) : RtkStore * Publication :=
  match fuel with
  | O => (st, p)
  | S f => let '(st', p') := pub_step st (length (pb_content p)) p in run_pub f st' p'
  end.

Definition start_pub (id session text : jstr) : Publication :=
  mkPub id session (sha256Hex (utf8_encode text)) (utf8_encode text) UBegin.

Definition pub_failure (p : Publication) : Failure :=
  match pb_phase p with UDone r => r | _ => failed end.

(** [createEngine] enters an object it found on disk. *)
Definition backfill_object (st : RtkStore) (hash : jstr) (size : Z) : RtkStore :=
  set_storage (reserve (rk_storage st) hash size MAX_SAFE_INTEGER).1 st.

Definition BUCKET_RE : regex := Eval vm_compute in re "^[0-9a-f]{2}$".

(** The scan of [createEngine] for objects: any two-hex-digit bucket, any
    64-hex-digit file in it. *)
Definition existing_object (path : jstr) : option jstr :=
  let root := dataDir ++ js "/objects/" in
  let rest := drop (length root) path in
  if starts_with root path && test BUCKET_RE (take 2 rest) && jeqb (slice rest 2 3) (js "/") && test HASH_RE (drop 3 rest)
  then Some (drop 3 rest) else None.

Definition existingObjects (files : fs) : list (jstr * Z) :=
  omap (λ f, hash ← existing_object f.1; Some (hash, zlen f.2)) files.

Definition createEngine (st : RtkStore) : RtkStore :=
  foldl (λ st o, backfill_object st o.1 o.2) st (existingObjects (rk_files st)).

(** ** compress and fetch *)

Inductive RtkError : Type :=
| InvalidParams                (** the zod schema refuses the parameters *)
| Failed (message : jstr)      (** a storage error *)
| PageError (e : page_error).

(** [compressParamsSchema]; the fields the pipeline does not read are left out. *)
Record RtkParams := mkParams {
  rp_tool : jstr;
  rp_output : jstr;
  rp_metadata : option (list (jstr * json));
  rp_budgetTokens : option Z;
  rp_sessionId : jstr }.

Definition positive_int (cap : option Z) (n : Z) : bool :=
  is_safe_integer n && (0 <? n) && match cap with Some c => n <=? c | None => true end.
Definition optionally {A} (p : A → bool) (o : option A) : bool := match o with Some a => p a | None => true end.

Definition compressParams_ok (params : RtkParams) : bool :=
  optionally (positive_int None) (rp_budgetTokens params) && negb (jeqb (rp_sessionId params) []).

Definition pipeline_input (params : RtkParams) : CompressInput :=
  {| ci_tool := rp_tool params; ci_output := rp_output params; ci_metadata := rp_metadata params;
     ci_budgetTokens := Some (default 512 (rp_budgetTokens params)); ci_redactor := None; ci_classifyOverride := None |}.

Definition text_hash (text : jstr) : jstr := sha256Hex (utf8_encode text).

Definition failure_notice (reason : DegradedReason) : jstr :=
  match reason with DRstorage_capacity => js "storage_capacity" | _ => js "storage_error" end.

(** A storage failure turns the result into a raw, degraded one. *)
Definition degrade (reason : DegradedReason) (raw : jstr) (r : CompressResult) : CompressResult :=
  {| cr_output := raw; cr_status := StDegraded; cr_targetTokens := cr_targetTokens r;
     cr_actualTokens := cr_rawTokensEst r;
     cr_budgetExceeded := cr_targetTokens r <? cr_rawTokensEst r;
     cr_omittedRanges := []; cr_diagnostics := cr_diagnostics r ++ [failure_notice reason];
     cr_rawHash := cr_rawHash r; cr_strategy := cr_strategy r; cr_compressed := false;
     cr_truncated := cr_truncated r; cr_rawTokensEst := cr_rawTokensEst r;
     cr_outTokensEst := cr_rawTokensEst r; cr_degraded := Some reason;
     cr_rawForStore := cr_rawForStore r |}.

Record RtkState := mkState { rs_store : RtkStore; rs_stats : PipelineStats }.

(** Enough for a publication that runs alone ([run_pub_done]); [id] is the
    random name its temporary file would get. *)
Definition PUB_STEPS : nat := 14.

Definition compress (st : RtkState) (params : RtkParams) (id : jstr) : RtkState * result RtkError CompressResult :=
  if negb (compressParams_ok params) then (st, Throw InvalidParams) else
  let run := compressToolOutput text_hash (pipeline_input params) in
  let raw := cr_rawForStore run in
  let expectedHex := drop 7 (cr_rawHash run) in
  let '(store, p) := run_pub PUB_STEPS (rs_store st) (mkPub id (rp_sessionId params) expectedHex (utf8_encode raw) UBegin) in
  let result := match pub_failure p with Some reason => degrade reason raw run | None => run end in
  (mkState store (record_result (rs_stats st) result), Ok result).

(** [fetchParamsSchema] *)
Record FetchParams := mkFetch {
  fp_hash : jstr;
  fp_sessionId : jstr;
  fp_cursor : option jstr;
  fp_maxBytes : option Z;
  fp_maxTokens : option Z }.

Definition fetchParams_ok (params : FetchParams) : bool :=
  starts_with (js "sha256:") (fp_hash params) && test HASH_RE (drop 7 (fp_hash params))
  && negb (jeqb (fp_sessionId params) [])
  && optionally (λ c, zlen c <=? 4096) (fp_cursor params)
  && optionally (positive_int (Some 131072)) (fp_maxBytes params)
  && optionally (positive_int (Some 8192)) (fp_maxTokens params).

(** [new TextDecoder().decode]: as [toString("utf8")], without a leading byte
    order mark. *)
Definition text_decode (bs : bytes) : jstr :=
  match utf8_decode bs with
  | 0xFEFF :: rest => rest
  | text => text
  end.

Definition fetch_options (params : FetchParams) : PageOptions :=
  {| po_ref := fp_sessionId params ++ js ":" ++ fp_hash params; po_cursor := fp_cursor params;
     po_maxBytes := fp_maxBytes params; po_maxTokens := fp_maxTokens params |}.

(** [None] is [{ found: false }]; [at_stat] and [at_read] are the files as the
    two calls of [readObject] see them. *)
Definition fetch (refs : list (jstr * jstr)) (at_stat at_read : fs) (params : FetchParams) : result RtkError (option TextPage) :=
  if negb (fetchParams_ok params) then Throw InvalidParams else
  let hex := drop 7 (fp_hash params) in
  if negb (owns refs (fp_sessionId params) hex) then Ok None else
  match readObject sha256Hex at_stat at_read dataDir hex with
  | Throw e => Throw (Failed e)
  | Ok None => Ok None
  | Ok (Some content) =>
    match paginateText (text_decode content) (fetch_options params) with
    | Throw e => Throw (PageError e)
    | Ok page => Ok (Some page)
    end
  end.

(** A client that follows [nextCursor]. *)
Definition with_fetch_cursor (params : FetchParams) (c : option jstr) : FetchParams :=
  mkFetch (fp_hash params) (fp_sessionId params) c (fp_maxBytes params) (fp_maxTokens params).

Fixpoint fetch_all (fuel : nat) (st : RtkStore) (params : FetchParams) : result RtkError (list TextPage) :=
  match fuel with
  | O => Ok []
  | S f =>
    match fetch (rk_refs st) (rk_files st) (rk_files st) params with
    | Throw e => Throw e
    | Ok None => Ok []
    | Ok (Some page) =>
      match tp_nextCursor page with
      | None => Ok [page]
      | Some c => let! rest := fetch_all f st (with_fetch_cursor params (Some c)) in Ok (page :: rest)
      end
    end
  end.

(** ** Interleavings *)

Record RtkWorld := mkRtkWorld { rw_store : RtkStore; rw_pubs : list Publication }.

(** Taking the mutex away from a publication that dies. *)
Definition release (p : Publication) (st : RtkStore) : RtkStore :=
  if bool_decide (rk_lock st = Some (pb_id p)) then set_lock None st else st.

(** Between taking and freeing the mutex. *)
Definition critical (p : Publication) : bool :=
  match pb_phase p with UBegin | UDone _ | UDead => false | _ => true end.

(** A call inside [work] may throw at any time (disk full, busy database). *)
Definition may_fail (p : Publication) : option PubPhase :=
  match pb_phase p with
  | UBegin => Some (UDone failed)
  | UReconcile | UReserve | UWrite _ | UGrant => Some (UFinish failed)
  | UFinish _ => Some (UUnlock failed)
  | _ => None
  end.

Inductive rtk_step : RtkWorld → RtkWorld → Prop :=
| rs_start st pubs id session text :
    id ∉ map pb_id pubs → get (tmp_path dataDir (text_hash text) id) (rk_files st) = None →
    rtk_step (mkRtkWorld st pubs) (mkRtkWorld st (pubs ++ [start_pub id session text]))
| rs_call st l1 p l2 chunk st' p' :
    pub_step st chunk p = (st', p') →
    rtk_step (mkRtkWorld st (l1 ++ p :: l2)) (mkRtkWorld st' (l1 ++ p' :: l2))
| rs_fail st l1 p l2 ph :
    may_fail p = Some ph →
    rtk_step (mkRtkWorld st (l1 ++ p :: l2)) (mkRtkWorld st (l1 ++ set_pub ph p :: l2))
| rs_crash st l1 p l2 :
    rtk_step (mkRtkWorld st (l1 ++ p :: l2)) (mkRtkWorld (release p st) (l1 ++ set_pub UDead p :: l2))
| rs_backfill st pubs hash content :
    test HASH_RE hash = true → get (object_path dataDir hash) (rk_files st) = Some content →
    rtk_step (mkRtkWorld st pubs) (mkRtkWorld (backfill_object st hash (zlen content)) pubs).

(** The bytes of the objects on disk. *)
Definition is_object (path : jstr) : bool :=
  let hash := drop (length path - 64) path in
  test HASH_RE hash && jeqb path (object_path dataDir hash).
Definition disk_bytes (files : fs) : Z := zsum (map (λ f, zlen f.2) (List.filter (λ f, is_object f.1) files)).
End Engine.

(** ** The ledger *)

Section LedgerProofs.
Context (dataDir : jstr).
Abbreviation object_path := (object_path dataDir).
Abbreviation reconcilePending := (reconcilePending dataDir).
Abbreviation reconcile_rows := (reconcile_rows dataDir).
Abbreviation reconcile_row := (reconcile_row dataDir).

(** The ledger against the files: every object has its row, of its size; a
    published row has its object. *)
Record storage_ok (files : fs) (s : Ledger) : Prop := {
  so_keys : omap_ok s;
  so_valid : ∀ h x, get h s = Some x → test HASH_RE h = true;
  so_sizes : Forall (λ r, 0 <= r.2.1) s;
  so_counted : ∀ h c, test HASH_RE h = true → get (object_path h) files = Some c → ∃ x, get h s = Some (zlen c, x);
  so_published : ∀ h n, get h s = Some (n, Published) → is_Some (get (object_path h) files) }.

Lemma usage_set k n x y (s : Ledger) : omap_ok s → get k s = Some (n, x) → usage (set_key k (n, y) s) = usage s.
Proof.
  intros Hs Hg. unfold usage.
  rewrite (zsum_Permutation _ _ (Permutation_map fst (set_values k (n, y) s Hs))).
  by rewrite (zsum_Permutation _ _ (Permutation_map fst (values_split k (n, x) s Hs Hg))).
Qed.

Lemma usage_split k n x (s : Ledger) : omap_ok s → get k s = Some (n, x) → usage s = n + usage (delete_key k s).
Proof.
  intros Hs Hg. unfold usage. by rewrite (zsum_Permutation _ _ (Permutation_map fst (values_split k (n, x) s Hs Hg))).
Qed.

Lemma get_size (s : Ledger) k n x : Forall (λ r, 0 <= r.2.1) s → get k s = Some (n, x) → 0 <= n.
Proof. intros Hs Hg. apply get_elem in Hg. rewrite Forall_forall in Hs. by apply (Hs _ Hg). Qed.

Lemma publish_row files s h n x :
  storage_ok files s → get h s = Some (n, x) → is_Some (get (object_path h) files) → storage_ok files (set_key h (n, Published) s).
Proof.
  intros [Hk Hv Hz Hc Hp] Hg Hf. split; [by apply set_ok| | | |].
  - intros h' y. destruct (decide (h' = h)) as [->|Hne]; [by eauto|]. rewrite get_set_ne by done. apply Hv.
  - apply Forall_set; [done|]. cbn. by eapply get_size.
  - intros h' c Hh Hgc. destruct (Hc h' c Hh Hgc) as [y Hy]. destruct (decide (h' = h)) as [->|Hne].
    + exists Published. rewrite get_set_eq. congruence.
    + exists y. by rewrite get_set_ne.
  - intros h' n'. destruct (decide (h' = h)) as [->|Hne]; [done|]. rewrite get_set_ne by done. apply Hp.
Qed.

Lemma drop_row files s h : storage_ok files s → get (object_path h) files = None → storage_ok files (delete_key h s).
Proof.
  intros [Hk Hv Hz Hc Hp] Hf. split; [by apply delete_ok| | | |].
  - intros h' y [_ H]%delete_get. by eapply Hv.
  - by apply Forall_delete.
  - intros h' c Hh Hgc. destruct (Hc h' c Hh Hgc) as [y Hy]. exists y. rewrite get_delete_ne; [done|]. congruence.
  - intros h' n [_ H]%delete_get. by eapply Hp.
Qed.

(** What reconciling changes: pending rows become published or go. *)
Record reconciled (files : fs) (s s' : Ledger) : Prop := {
  rc_ok : storage_ok files s';
  rc_usage : usage s' <= usage s;
  rc_kept : ∀ h n x, get h s' = Some (n, x) → ∃ y, get h s = Some (n, y) }.

Lemma reconcile_row_ok files s h :
  storage_ok files s → test HASH_RE h = true →
  ∃ s', reconcile_row files s h = Ok s' ∧ reconciled files s s'
    ∧ (get (object_path h) files = None → get h s' = None).
Proof.
  intros Hs Hh. unfold RtkEngine.reconcile_row, objectPath, assertValidHash. rewrite Hh. cbn [rbind].
  destruct (get h s) as [[n x]|] eqn:Eg; [|exists s; split_and!; [done|by split; eauto|done]].
  unfold has. destruct (get (object_path h) files) as [c|] eqn:Ef.
  - eexists. split_and!; [done| |done]. split; [by eapply publish_row; eauto|by rewrite (usage_set _ _ x) by (done || apply Hs)|].
    intros h' n' y. destruct (decide (h' = h)) as [->|Hne]; [rewrite get_set_eq; intros [= <- <-]; eauto|]. rewrite get_set_ne by done. eauto.
  - destruct x; cycle 1. { destruct (so_published _ _ Hs h n Eg) as [c Hc]. congruence. }
    rewrite bool_decide_true by done. eexists. split_and!; [done| |intros _; apply get_delete_eq].
    split; [by apply drop_row| |].
    + rewrite (usage_split h n Pending s) by (done || apply Hs). pose proof (get_size s h n Pending (so_sizes _ _ Hs) Eg). lia.
    + intros h' n' y [_ H]%delete_get. eauto.
Qed.

Lemma reconcile_rows_ok files pending s :
  storage_ok files s → Forall (λ h, test HASH_RE h = true) pending →
  ∃ s', reconcile_rows files pending s = Ok s' ∧ reconciled files s s'
    ∧ (∀ h, h ∈ pending → get (object_path h) files = None → get h s' = None).
Proof.
  intros Hs Hp. revert s Hs. induction Hp as [|h pending Hh Hp IH]; intros s Hs.
  { exists s. split_and!; [done|by split; eauto|]. intros h Hin. by apply elem_of_nil in Hin. }
  destruct (reconcile_row_ok files s h Hs Hh) as (s1 & H1 & [R1 R2 R3] & R4).
  destruct (IH s1 R1) as (s2 & H2 & [Q1 Q2 Q3] & Q4). exists s2. cbn [RtkEngine.reconcile_rows]. rewrite H1. cbn [rbind].
  split_and!; [done| |].
  - split; [done|lia|]. intros h' n x H'. destruct (Q3 h' n x H') as [y Hy]. by eapply R3.
  - intros h' [->|Hin]%elem_of_cons Hn; [|by apply Q4]. specialize (R4 Hn).
    destruct (get h s2) as [[n x]|] eqn:E; [|done]. destruct (Q3 h n x E) as [y Hy]. congruence.
Qed.

Lemma reconcile_ok files s :
  storage_ok files s →
  ∃ s', reconcilePending files s = Ok s' ∧ reconciled files s s'
    ∧ (∀ h, get (object_path h) files = None → get h s' = None).
Proof.
  intros Hs. destruct (reconcile_rows_ok files (pending_rows s) s Hs) as (s' & H & R & Hgone).
  { apply Forall_forall. intros h ([h' [n x]] & -> & [Hin _]%list_elem_of_In%filter_In)%list_elem_of_fmap.
    apply list_elem_of_In in Hin. apply (so_valid _ _ Hs h' (n, x)). apply elem_get; [apply Hs|done]. }
  exists s'. split_and!; [done|done|]. intros h Hn. destruct (get h s') as [[n x]|] eqn:E; [|done].
  destruct (rc_kept _ _ _ R h n x E) as [y Hy]. destruct y.
  - assert (get h s' = None) as Hh; [|congruence]. apply Hgone; [|done].
    apply list_elem_of_fmap. exists (h, (n, Pending)). split; [done|]. apply list_elem_of_In, filter_In.
    split; [by apply list_elem_of_In, get_elem|]. by rewrite bool_decide_true.
  - destruct (so_published _ _ Hs h n Hy). congruence.
Qed.

Lemma reserve_ok files s h size lim s' granted :
  storage_ok files s → test HASH_RE h = true → 0 <= size → reserve s h size lim = (s', granted) →
  storage_ok files s' ∧ usage s' <= Z.max (usage s) lim
  ∧ (granted = true → ∃ x, get h s' = Some (size, x))
  ∧ (granted = false → s' = s ∧ (lim < usage s + size ∨ ∃ n x, get h s = Some (n, x) ∧ n ≠ size)).
Proof.
  intros Hs Hh Hz. unfold reserve. destruct (get h s) as [[n x]|] eqn:Eg.
  { intros [= <- <-]. split_and!; [done|lia|intros <-%Z.eqb_eq; eauto|]. intros Hne%Z.eqb_neq. eauto 6. }
  destruct (lim <? usage s + size) eqn:El; intros [= <- <-].
  { split_and!; [done|lia|done|]. intros _. split; [done|left; lia]. }
  assert (s ++ [(h, (size, Pending))] = set_key h (size, Pending) s) as -> by (by rewrite set_absent).
  assert (usage (set_key h (size, Pending) s) = usage s + size) as Hu.
  { rewrite set_absent by done. unfold usage. rewrite fmap_app, map_app, zsum_app. cbn. lia. }
  destruct Hs as [Hk Hv Hzs Hc Hp]. split_and!; [|lia|intros _; exists Pending; apply get_set_eq|done]. split; [by apply set_ok| | | |].
  - intros h' y. destruct (decide (h' = h)) as [->|Hne]; [done|]. rewrite get_set_ne by done. apply Hv.
  - by apply Forall_set.
  - intros h' c Hh' Hgc. destruct (Hc h' c Hh' Hgc) as [y Hy]. exists y. rewrite get_set_ne; [done|]. congruence.
  - intros h' n. destruct (decide (h' = h)) as [->|Hne]; [by rewrite get_set_eq|]. rewrite get_set_ne by done. apply Hp.
Qed.

(** A ledger that may miss rows, as an old directory has it. *)
Record legacy_ok (files : fs) (s : Ledger) : Prop := {
  lo_keys : omap_ok s;
  lo_valid : ∀ h x, get h s = Some x → test HASH_RE h = true;
  lo_sizes : Forall (λ r, 0 <= r.2.1) s;
  lo_sized : ∀ h n x c, get h s = Some (n, x) → get (object_path h) files = Some c → zlen c = n;
  lo_published : ∀ h n, get h s = Some (n, Published) → is_Some (get (object_path h) files) }.

Lemma legacy_reserve files s h c :
  legacy_ok files s → test HASH_RE h = true → get (object_path h) files = Some c → usage s + zlen c <= MAX_SAFE_INTEGER →
  let s' := (reserve s h (zlen c) MAX_SAFE_INTEGER).1 in
  legacy_ok files s' ∧ usage s' <= usage s + zlen c ∧ is_Some (get h s') ∧ (∀ h', is_Some (get h' s) → is_Some (get h' s')).
Proof.
  intros [Hk Hv Hz Hs Hp] Hh Hg Hu. unfold reserve. pose proof (zlen_nonneg c).
  destruct (get h s) as [[n x]|] eqn:Eg; [cbn [fst]; split_and!; [done|lia|by eexists|done]|].
  rewrite (proj2 (Z.ltb_ge _ _)) by lia. cbn [fst]. rewrite <- (set_absent h (zlen c, Pending) s) by done.
  assert (usage (set_key h (zlen c, Pending) s) = usage s + zlen c) as ->.
  { rewrite set_absent by done. unfold usage. rewrite fmap_app, map_app, zsum_app. cbn. lia. }
  split_and!; [|lia|by rewrite get_set_eq; eexists|].
  - split; [by apply set_ok| |by apply Forall_set| |].
    + intros h' y. destruct (decide (h' = h)) as [->|Hne]; [done|]. rewrite get_set_ne by done. apply Hv.
    + intros h' n x c'. destruct (decide (h' = h)) as [->|Hne]; [rewrite get_set_eq|rewrite get_set_ne by done; apply Hs].
      intros [= <- <-]. congruence.
    + intros h' n. destruct (decide (h' = h)) as [->|Hne]; [by rewrite get_set_eq|]. rewrite get_set_ne by done. apply Hp.
  - intros h' [y Hy]. destruct (decide (h' = h)) as [->|Hne]; [by rewrite get_set_eq; eexists|]. rewrite get_set_ne by done. by eexists.
Qed.

Lemma backfill_rows files objects st :
  legacy_ok files (rk_storage st) → Forall (λ o, test HASH_RE o.1 = true ∧ ∃ c, get (object_path o.1) files = Some c ∧ o.2 = zlen c) objects →
  usage (rk_storage st) + zsum (map snd objects) <= MAX_SAFE_INTEGER →
  let st' := foldl (λ st o, backfill_object st o.1 o.2) st objects in
  legacy_ok files (rk_storage st') ∧ rk_files st' = rk_files st ∧ rk_refs st' = rk_refs st ∧ rk_lock st' = rk_lock st
  ∧ (∀ h, is_Some (get h (rk_storage st)) ∨ h ∈ objects.*1 → is_Some (get h (rk_storage st'))).
Proof.
  revert st. induction objects as [|[h n] objects IH]; intros st Hl Ho Hu; cbn [foldl].
  { split_and!; try done. by intros h [?|[]%elem_of_nil]. }
  apply Forall_cons in Ho as [(Hh & c & Hg & Hn) Ho]. cbn [fst snd map] in Hh, Hg, Hn, Hu |- *. subst n. rewrite zsum_cons in Hu.
  assert (0 <= zsum (map snd objects)) as Hnn.
  { clear -Ho. induction Ho as [|o l (_ & c & _ & Hn) Hl IHo]; cbn [map]; [done|]. rewrite zsum_cons, Hn. pose proof (zlen_nonneg c). lia. }
  destruct (legacy_reserve files (rk_storage st) h c Hl Hh Hg) as (R1 & R2 & R3 & R4); [lia|].
  destruct (IH (backfill_object st h (zlen c)) R1 Ho) as (I1 & I2 & I3 & I4 & I5); [cbn [backfill_object set_storage rk_storage]; lia|].
  split_and!; try done. intros h' [Hx|[->|Hx]%elem_of_cons]; apply I5; [left; by apply R4|by left|by right].
Qed.

Lemma existing_object_path h : test HASH_RE h = true → existing_object dataDir (object_path h) = Some h.
Proof.
  intros Hh. destruct (hash_parts h Hh) as (a & b & t & -> & _ & Hl). pose proof Hh as Hh0. rewrite hash_re_spec in Hh.
  apply andb_true_iff in Hh as [_ Hf]. cbn [forallb] in Hf. apply andb_true_iff in Hf as [Ha [Hb _]%andb_true_iff].
  assert (object_path (a :: b :: t) = (dataDir ++ js "/objects/") ++ ([a; b] ++ js "/") ++ a :: b :: t) as ->.
  { unfold Cas.object_path, object_dir, slice. by rewrite <- !app_assoc. }
  unfold existing_object. rewrite starts_with_app, drop_app_length. change (take 2 (([a; b] ++ js "/") ++ ?x)) with [a; b].
  change (slice (([a; b] ++ js "/") ++ ?x) 2 3) with (js "/"). change (drop 3 (([a; b] ++ js "/") ++ ?x)) with x.
  assert (test BUCKET_RE [a; b] = true) as ->; [|by rewrite jeqb_refl, Hh0].
  change BUCKET_RE with (RSeq (RSeq RBol (rep_exact 2 (RSet false hex_ranges))) REol). rewrite test_hex. cbn [forallb].
  by rewrite Ha, Hb.
Qed.

(** Opening an old directory puts every object into the ledger. *)
Lemma createEngine_counts st :
  omap_ok (rk_files st) → legacy_ok (rk_files st) (rk_storage st) →
  (∀ path c, (path, c) ∈ rk_files st → ∀ h, existing_object dataDir path = Some h → path = object_path h) →
  usage (rk_storage st) + zsum (map snd (existingObjects dataDir (rk_files st))) <= MAX_SAFE_INTEGER →
  let st' := createEngine dataDir st in
  storage_ok (rk_files st') (rk_storage st') ∧ rk_files st' = rk_files st ∧ rk_refs st' = rk_refs st ∧ rk_lock st' = rk_lock st.
Proof.
  intros Hf Hl Hcan Hu st'. destruct (backfill_rows (rk_files st) (existingObjects dataDir (rk_files st)) st Hl) as (H1 & H2 & H3 & H4 & H5); [|done|].
  - apply Forall_forall. intros [h n] Hin. apply list_elem_of_omap in Hin as ([path c] & Hin & E). cbn [fst snd] in E.
    destruct (existing_object dataDir path) as [h'|] eqn:Ee; [|done]. cbn in E. injection E as <- <-.
    pose proof (Hcan path c Hin h' Ee) as ->. split.
    + unfold existing_object in Ee. destruct (_ && _) eqn:Eb in Ee; [|done]. injection Ee as <-. by apply andb_true_iff in Eb as [_ Eb].
    + exists c. split; [|done]. by apply elem_get.
  - split_and!; try done. unfold st', createEngine. rewrite H2. destruct H1 as [L1 L2 L3 L4 L5]. split; try done.
    intros h c Hh Hg. destruct (H5 h) as [[n x] Hx]; [|exists x; by rewrite (L4 h n x c Hx Hg)].
    right. apply list_elem_of_fmap. exists (h, zlen c). split; [done|]. apply list_elem_of_omap. exists (object_path h, c).
    split; [by apply get_elem|]. cbn [fst snd]. by rewrite existing_object_path.
Qed.

(** The objects on disk never outweigh the ledger. *)
Lemma counted_usage (l : list (jstr * bytes)) (key : jstr * bytes → jstr) (s : Ledger) :
  NoDup (map key l) → omap_ok s → Forall (λ r, 0 <= r.2.1) s →
  Forall (λ f, ∃ x, get (key f) s = Some (zlen f.2, x)) l → zsum (map (λ f, zlen f.2) l) <= usage s.
Proof.
  intros Hn. revert s. induction l as [|f l IH]; intros s Hs Hz Hl.
  { cbn. unfold usage. clear -Hz. induction Hz as [|r s Hr Hs IH]; cbn; [lia|]. unfold zsum in IH. cbn in Hr. lia. }
  cbn [map] in Hn. apply NoDup_cons in Hn as [Hf Hn]. apply Forall_cons in Hl as [[x Hx] Hl].
  rewrite (usage_split _ _ _ s Hs Hx). cbn [map]. rewrite zsum_cons. cut (zsum (map (λ g, zlen g.2) l) <= usage (delete_key (key f) s)); [lia|].
  apply IH; [done|by apply delete_ok|by apply Forall_delete|]. rewrite Forall_forall in Hl |- *. intros g Hg.
  destruct (Hl g Hg) as [y Hy]. exists y. rewrite get_delete_ne; [done|]. intros E. apply Hf. rewrite <- E. by apply list_elem_of_fmap_2.
Qed.

Lemma disk_usage files s : omap_ok files → storage_ok files s → disk_bytes dataDir files <= usage s.
Proof.
  intros Hf [Hk Hv Hz Hc Hp]. unfold disk_bytes.
  set (key := λ f : jstr * bytes, drop (length f.1 - 64) f.1).
  assert (∀ f, f ∈ List.filter (λ f, is_object dataDir f.1) files → f ∈ files ∧ test HASH_RE (key f) = true ∧ f.1 = object_path (key f)) as Hin.
  { intros f [Hin H]%list_elem_of_In%filter_In. apply andb_true_iff in H as [H1 H2%jeqb_eq]. by apply list_elem_of_In in Hin. }
  apply (counted_usage _ key); [|done|done|].
  - apply (NoDup_fmap_1 object_path). assert (map object_path (map key (List.filter (λ f, is_object dataDir f.1) files))
      = (List.filter (λ f, is_object dataDir f.1) files).*1) as Heq.
    { rewrite map_map. apply map_ext_in. intros f Hfin%list_elem_of_In. by destruct (Hin f Hfin) as (_ & _ & ->). }
    eapply eq_ind_r with (P := λ l, NoDup l); [|exact Heq]. clear -Hf. induction files as [|f files IH]; [constructor|].
    unfold omap_ok in Hf. apply NoDup_cons in Hf as [Hn Hf]. cbn [List.filter]. destruct (is_object _ _); [|by apply IH].
    constructor; [|by apply IH]. intros (g & E & [Hg _]%list_elem_of_In%filter_In)%list_elem_of_fmap.
    apply Hn, list_elem_of_fmap. exists g. split; [done|by apply list_elem_of_In].
  - apply Forall_forall. intros f Hfin. destruct (Hin f Hfin) as (Hfi & Hh & Hp').
    apply Hc; [done|]. rewrite <- Hp'. apply elem_get; [done|]. by destruct f.
Qed.
End LedgerProofs.

(** ** Publications *)

Section PubProofs.
Context (sha256Hex : bytes → jstr) (dataDir : jstr) (maxStorageBytes : Z).
Context (sha_valid : ∀ content, test HASH_RE (sha256Hex content) = true).
Abbreviation object_path := (object_path dataDir).
Abbreviation tmp_path := (tmp_path dataDir).
Abbreviation pub_step := (pub_step sha256Hex dataDir maxStorageBytes).
Abbreviation storage_ok := (storage_ok dataDir).

(** The store of rtk: the ledger counts the objects, an object has the hash it
    is named by, and what a session was granted is there. *)
Record rtk_ok (st : RtkStore) : Prop := {
  ro_files : omap_ok (rk_files st);
  ro_storage : storage_ok (rk_files st) (rk_storage st);
  ro_address : ∀ h c, test HASH_RE h = true → get (object_path h) (rk_files st) = Some c → sha256Hex c = h;
  ro_granted : ∀ s h, (s, h) ∈ rk_refs st → test HASH_RE h = true ∧ is_Some (get (object_path h) (rk_files st)) }.

Definition pub_writer (p : Publication) (w : Writer) : Prop :=
  ∃ ph, w = set_phase ph (start_writer dataDir (pb_hash p) (pb_id p) (pb_content p) true).

Definition pub_stored (st : RtkStore) (p : Publication) : Prop := get (object_path (pb_hash p)) (rk_files st) = Some (pb_content p).

Definition pub_phase_ok (st : RtkStore) (p : Publication) : Prop :=
  match pb_phase p with
  | UBegin | UReconcile | UReserve => get (tmp_path (pb_hash p) (pb_id p)) (rk_files st) = None
  | UWrite w => pub_writer p w ∧ phase_ok (rk_files st) w ∧ ∃ x, get (pb_hash p) (rk_storage st) = Some (zlen (pb_content p), x)
  | UGrant => pub_stored st p
  | UFinish None | UUnlock None | UDone None => (pb_session p, pb_hash p) ∈ rk_refs st ∧ pub_stored st p
  | _ => True
  end.

Record pub_ok (st : RtkStore) (p : Publication) : Prop := {
  po_hash : pb_hash p = sha256Hex (pb_content p);
  po_lock : critical p = true → rk_lock st = Some (pb_id p);
  po_phase : pub_phase_ok st p }.

Lemma tmp_path_inj h h' u u' : test HASH_RE h = true → test HASH_RE h' = true → tmp_path h u = tmp_path h' u' → u = u'.
Proof.
  intros (a & b & t & -> & _ & Hl)%hash_parts (a' & b' & t' & -> & _ & Hl')%hash_parts. unfold Cas.tmp_path, object_dir, slice.
  rewrite !skipn_0, <- !app_assoc. intros H. apply paths_aligned in H as [_ H]; [|done].
  apply app_inv_head in H. apply app_inj_1 in H as [_ H]; [|cbn in *; lia]. by apply app_inv_head in H.
Qed.

Lemma writer_step_omap files chunk w files' w' : omap_ok files → writer_step files chunk w = (files', w') → omap_ok files'.
Proof.
  intros Hf. unfold writer_step. destruct (w_phase w); repeat case_match; intros; simplify_eq; auto using set_ok, delete_ok.
Qed.

Lemma pub_writer_of p w : test HASH_RE (pb_hash p) = true → pub_writer p w → writer_of dataDir w.
Proof. intros Hh [ph ->]. by exists (pb_id p). Qed.

(** A step of the writer of a reserved object keeps the store. *)
Lemma write_ok st p w files' :
  rtk_ok st → pb_hash p = sha256Hex (pb_content p) → pub_writer p w → files_step w (rk_files st) files' →
  omap_ok files' → (∃ x, get (pb_hash p) (rk_storage st) = Some (zlen (pb_content p), x)) →
  rtk_ok (set_files files' st).
Proof.
  intros [Hf [Hk Hv Hz Hc Hp] Ha Hg] Hh Hw Hs Hf' [x Hx]. pose proof Hw as [ph ->].
  assert (∀ h, test HASH_RE h = true → get (object_path h) files' = get (object_path h) (rk_files st)
    ∨ get (object_path h) files' = Some (pb_content p) ∧ pb_hash p = h) as Hobj.
  { intros h Hvh. destruct (files_step_object dataDir _ _ _ h (pub_writer_of p _ ltac:(rewrite Hh; apply sha_valid) Hw) Hvh Hs)
      as [?|(_ & ? & ?)]; auto. }
  assert (∀ h, test HASH_RE h = true → is_Some (get (object_path h) (rk_files st)) → is_Some (get (object_path h) files')) as Hkeep.
  { intros h Hvh [c Hc']. destruct (Hobj h Hvh) as [->|[-> _]]; eauto. }
  split; cbn [set_files rk_files rk_storage rk_refs]; [done|split; try done| |].
  - intros h c Hvh H. destruct (Hobj h Hvh) as [E|[E <-]]; rewrite E in H; [by apply Hc|]. simplify_eq. eauto.
  - intros h n H. apply Hkeep; [by eapply Hv|by eapply Hp].
  - intros h c Hvh H. destruct (Hobj h Hvh) as [E|[E <-]]; rewrite E in H; [by apply Ha|]. simplify_eq. done.
  - intros s h H. destruct (Hg s h H) as [Hvh ?]. auto.
Qed.

Lemma rtk_ok_storage st s : rtk_ok st → storage_ok (rk_files st) s → rtk_ok (set_storage s st).
Proof. by intros [Hf Hs Ha Hg] H. Qed.
Lemma rtk_ok_lock st l : rtk_ok st → rtk_ok (set_lock l st).
Proof. by intros [Hf Hs Ha Hg]. Qed.

Lemma grant_elem s h refs x : x ∈ grant s h refs ↔ x ∈ refs ∨ x = (s, h).
Proof.
  unfold grant. case_bool_decide as E; [|rewrite elem_of_app, list_elem_of_singleton; tauto].
  split; [tauto|]. intros [?| ->]; done.
Qed.

(** What a step of [p] keeps: the store, and what the other publications need. *)
Record pub_stepped (st : RtkStore) (p : Publication) (st' : RtkStore) (p' : Publication) : Prop := {
  ps_store : rtk_ok st';
  ps_pub : pub_ok st' p';
  ps_same : ∃ ph, p' = set_pub ph p;
  ps_usage : usage (rk_storage st') <= Z.max (usage (rk_storage st)) maxStorageBytes;
  ps_refs : ∀ x, x ∈ rk_refs st → x ∈ rk_refs st';
  ps_new : ∀ x, x ∈ rk_refs st' → x ∈ rk_refs st ∨ x = (pb_session p, pb_hash p);
  ps_holder : ∀ id, rk_lock st' = Some id → (id = pb_id p ∧ critical p' = true) ∨ (id ≠ pb_id p ∧ rk_lock st = Some id);
  ps_objects : ∀ h c, test HASH_RE h = true → get (object_path h) (rk_files st) = Some c → get (object_path h) (rk_files st') = Some c;
  ps_others : ∀ q, pub_ok st q → pb_id q ≠ pb_id p → pub_ok st' q }.

(** A publication without the mutex needs only its names and grants. *)
Lemma pub_ok_idle st st' q :
  pub_ok st q → critical q = false → (∀ x, x ∈ rk_refs st → x ∈ rk_refs st') → (pub_stored st q → pub_stored st' q) →
  (get (tmp_path (pb_hash q) (pb_id q)) (rk_files st) = None → get (tmp_path (pb_hash q) (pb_id q)) (rk_files st') = None) →
  pub_ok st' q.
Proof.
  intros [Hh Hl Hp] Hc Hr Ho Ht. split; [done|by rewrite Hc|]. unfold pub_phase_ok, critical in *.
  destruct (pb_phase q); try done; [by auto|]. destruct r; [done|]. destruct Hp. auto.
Qed.

Lemma not_critical st p q :
  pub_ok st q → pb_id q ≠ pb_id p → rk_lock st = Some (pb_id p) ∨ rk_lock st = None → critical q = false.
Proof.
  intros [_ Hl _] Hne Hlock. destruct (critical q) eqn:E; [|done]. specialize (Hl eq_refl). destruct Hlock; congruence.
Qed.

(** A step of [p] that has the mutex or finds it free. *)
Lemma stepped st p st' ph :
  pub_ok st p → rk_lock st = Some (pb_id p) ∨ rk_lock st = None →
  (∀ h u, test HASH_RE h = true → u ≠ pb_id p → get (tmp_path h u) (rk_files st') = get (tmp_path h u) (rk_files st)) →
  (∀ h c, test HASH_RE h = true → get (object_path h) (rk_files st) = Some c → get (object_path h) (rk_files st') = Some c) →
  rtk_ok st' → pub_ok st' (set_pub ph p) → usage (rk_storage st') <= Z.max (usage (rk_storage st)) maxStorageBytes →
  (∀ x, x ∈ rk_refs st → x ∈ rk_refs st') → (∀ x, x ∈ rk_refs st' → x ∈ rk_refs st ∨ x = (pb_session p, pb_hash p)) →
  (∀ id, rk_lock st' = Some id → id = pb_id p ∧ critical (set_pub ph p) = true) →
  pub_stepped st p st' (set_pub ph p).
Proof.
  intros Hp Hlock Hf Ho Hst Hp' Hu Hr Hr' Hl. split; try done; [by eexists|by left; apply Hl|].
  intros q Hq Hne. apply (pub_ok_idle st); [done|by eapply not_critical|done| |].
  { apply Ho. rewrite (po_hash _ _ Hq). apply sha_valid. }
  rewrite Hf; [done| |done]. rewrite (po_hash _ _ Hq). apply sha_valid.
Qed.

Lemma written_ok files st p w :
  pub_writer p w → phase_ok files w → rk_files st = files →
  match w_phase w with
  | PDone _ => match written p w with
               | UGrant => get (object_path (pb_hash p)) files = Some (pb_content p)
               | UFinish r => r = failed
               | _ => False
               end
  | _ => True
  end.
Proof.
  intros [ph ->] Hok Hf. unfold written, outcome_of. destruct ph as [| | | | | |o|]; try done. cbn [set_phase w_phase] in Hok |- *.
  destruct Hok as [_ Hok]. destruct o as [r| |]; [|done|done]. destruct (jeqb _ _); [|done]. by destruct Hok as (_ & _ & H).
Qed.

Lemma set_pub_same p : set_pub (pb_phase p) p = p.
Proof. by destruct p. Qed.

Lemma reconcile_stepped st p ph s :
  rtk_ok st → pub_ok st p → critical p = true → storage_ok (rk_files st) s →
  usage s <= Z.max (usage (rk_storage st)) maxStorageBytes → critical (set_pub ph p) = true →
  pub_phase_ok (set_storage s st) (set_pub ph p) → pub_stepped st p (set_storage s st) (set_pub ph p).
Proof.
  intros Hst Hp Hc Hs Hu Hc' Hph. pose proof (po_lock _ _ Hp Hc) as Hl.
  apply stepped; try done; [by left|by apply rtk_ok_storage| |by left|].
  - split; [apply Hp|by intros _|done].
  - intros id Hid. cbn [set_storage rk_lock] in Hid. split; [congruence|done].
Qed.

Lemma same_stepped st p ph :
  rtk_ok st → pub_ok st p → (critical (set_pub ph p) = true → critical p = true) →
  (critical p = true → critical (set_pub ph p) = true) →
  (rk_lock st = Some (pb_id p) → critical p = true) →
  pub_phase_ok st (set_pub ph p) → pub_stepped st p st (set_pub ph p).
Proof.
  intros Hst [Hh Hl Hp] Hc1 Hc2 Hlk Hph. split; try done; [|by eexists|lia|by left|].
  - split; [done|by intros H; apply Hl, Hc1|done].
  - intros id Hid. destruct (decide (id = pb_id p)) as [->|?]; [left|by right]. auto.
Qed.

Lemma pub_step_ok st chunk p st' p' :
  rtk_ok st → pub_ok st p → (rk_lock st = Some (pb_id p) → critical p = true) →
  pub_step st chunk p = (st', p') → pub_stepped st p st' p'.
Proof.
  intros Hst Hp Hlk. pose proof Hp as [Hh Hl Hph]. unfold RtkEngine.pub_step. unfold pub_phase_ok in Hph.
  destruct (pb_phase p) as [| | |w| |r|r|r|] eqn:E.
  - destruct (rk_lock st) eqn:El; intros [= <- <-].
    + apply same_stepped; unfold critical in *; rewrite ?E in *; try done. rewrite El. done.
    + apply stepped; try done; [by right|by apply rtk_ok_lock|apply Z.le_max_l| |].
      * by left.
      * cbn. by intros id [= <-].
  - destruct (reconcile_ok dataDir (rk_files st) (rk_storage st)) as (s & Hrs & [R1 R2 _] & _); [apply Hst|].
    rewrite Hrs. intros [= <- <-]. apply reconcile_stepped; unfold critical; rewrite ?E; try done. lia.
  - destruct (reserve _ _ _ _) as [s granted] eqn:Er. intros [= <- <-].
    destruct (reserve_ok dataDir (rk_files st) (rk_storage st) (pb_hash p) (zlen (pb_content p)) maxStorageBytes s granted)
      as (R1 & R2 & R3 & _); [apply Hst|rewrite Hh; apply sha_valid|apply zlen_nonneg|done|].
    assert (start_write sha256Hex dataDir p = UWrite (start_writer dataDir (pb_hash p) (pb_id p) (pb_content p) true)) as Hsw.
    { unfold start_write, assertValidHash. by rewrite <- Hh, Hh, sha_valid, <- Hh. }
    apply reconcile_stepped; unfold critical; rewrite ?E; try done; cbn [set_pub pb_phase]; [by destruct granted; rewrite ?Hsw|].
    destruct granted; [|done]. rewrite Hsw. split; [by exists PCheck|]. split; [done|]. by apply R3.
  - destruct Hph as (Hw & Hok & Hrow). destruct (writer_step _ _ _) as [files w'] eqn:Es. intros [= <- <-].
    assert (test HASH_RE (pb_hash p) = true) as Hv by (rewrite Hh; apply sha_valid).
    destruct (writer_step_ok dataDir _ _ _ _ _ (pub_writer_of p w Hv Hw) Hok Es) as (Hfs & Hok' & ph & ->).
    assert (pub_writer p (set_phase ph w)) as Hw' by (destruct Hw as [ph' ->]; by exists ph).
    assert (critical p = true) as Hc by (unfold critical; by rewrite E).
    assert (rk_lock st = Some (pb_id p)) as Hlock by auto.
    pose proof (written_ok files (set_files files st) p (set_phase ph w) Hw' Hok' eq_refl) as Hwr. cbn [set_phase w_phase] in Hwr |- *.
    assert (critical (set_pub match ph with PDone _ => written p (set_phase ph w) | _ => UWrite (set_phase ph w) end p) = true) as Hc'.
    { unfold critical. cbn [set_pub pb_phase]. destruct ph; try done. by destruct (written p _). }
    apply stepped; try done; [by left| | | | |apply Z.le_max_l| |].
    + intros h u Hvh Hne. destruct Hw as [ph' ->]. destruct (fst_other _ _ _ Hfs (tmp_path h u)) as [?|(Hx & _)]; [|done|].
      * cbn. by intros ?%tmp_path_inj.
      * by apply tmp_not_object in Hx.
    + intros h c Hvh Hg. destruct (files_step_object dataDir w (rk_files st) files h (pub_writer_of p w Hv Hw) Hvh Hfs) as [?|(? & _)]; cbn [set_files rk_files]; congruence.
    + apply (write_ok st p w); try done. eapply writer_step_omap; [apply Hst|exact Es].
    + split; [done|by intros _|]. unfold pub_phase_ok. cbn [set_pub pb_phase set_files rk_files rk_storage]. destruct ph as [| | | | | |o|]; try done.
      destruct (written p _); try done. by rewrite Hwr.
    + by left.
    + cbn. rewrite Hlock. by intros id [= <-].
  - intros [= <- <-]. assert (critical p = true) as Hc by (unfold critical; by rewrite E).
    apply stepped; try done; [by left; auto| | |apply Z.le_max_l| | |].
    + destruct Hst as [Hf Hs Ha Hg]. split; try done. cbn. intros s h [?|[= -> ->]]%grant_elem; [by apply (Hg s)|].
      split; [rewrite Hh; apply sha_valid|by eexists].
    + split; [done|by intros _; apply Hl|]. split; [apply grant_elem; by right|done].
    + intros x. cbn. rewrite grant_elem. by left.
    + intros x. cbn [rk_refs]. by rewrite grant_elem.
    + cbn. intros id. rewrite (Hl Hc). by intros [= <-].
  - destruct (reconcile_ok dataDir (rk_files st) (rk_storage st)) as (s & Hrs & [R1 R2 _] & _); [apply Hst|].
    rewrite Hrs. intros [= <- <-]. apply reconcile_stepped; unfold critical; rewrite ?E; try done. lia.
  - intros [= <- <-]. assert (critical p = true) as Hc by (unfold critical; by rewrite E).
    apply stepped; try done; [by left; auto|by apply rtk_ok_lock|apply Z.le_max_l|by left].
  - intros [= <- <-]. rewrite <- (set_pub_same p) at 2. apply same_stepped; rewrite ?set_pub_same; try done. exact (po_phase _ _ Hp).
  - intros [= <- <-]. rewrite <- (set_pub_same p) at 2. apply same_stepped; rewrite ?set_pub_same; try done. exact (po_phase _ _ Hp).
Qed.

(** ** Reachable worlds *)

(** [st0] is the store at the start. *)
Record rtk_world_ok (st0 : RtkStore) (w : RtkWorld) : Prop := {
  rw_ok : rtk_ok (rw_store w);
  rw_usage : usage (rk_storage (rw_store w)) <= Z.max (usage (rk_storage st0)) maxStorageBytes;
  rw_source : ∀ s h, (s, h) ∈ rk_refs (rw_store w) →
    (s, h) ∈ rk_refs st0 ∨ ∃ p, p ∈ rw_pubs w ∧ pb_session p = s ∧ pb_hash p = h;
  rw_ids : NoDup (map pb_id (rw_pubs w));
  rw_holder : ∀ id, rk_lock (rw_store w) = Some id → ∃ p, p ∈ rw_pubs w ∧ pb_id p = id ∧ critical p = true;
  rw_each : Forall (pub_ok (rw_store w)) (rw_pubs w) }.

Lemma nodup_middle l1 p (l2 : list Publication) q :
  NoDup (map pb_id (l1 ++ p :: l2)) → q ∈ l1 ++ l2 → pb_id q ≠ pb_id p.
Proof.
  rewrite map_app. cbn [map]. intros Hn Hq E. rewrite <- Permutation_middle in Hn. apply NoDup_cons in Hn as [Hn _].
  apply Hn. rewrite <- E, <- map_app. by apply list_elem_of_fmap_2.
Qed.

(** One publication moves: the shape shared by the steps below. *)
Lemma rtk_move st0 st l1 p l2 st' ph :
  rtk_world_ok st0 (mkRtkWorld st (l1 ++ p :: l2)) → pub_stepped st p st' (set_pub ph p) →
  rtk_world_ok st0 (mkRtkWorld st' (l1 ++ set_pub ph p :: l2)).
Proof.
  intros [Hok Hu Hsrc Hids Hh He] [S1 S2 _ S4 _ S5 S6 _ S7]. cbn [rw_store rw_pubs] in *.
  assert (∀ q, q ∈ l1 ++ p :: l2 ↔ q = p ∨ q ∈ l1 ++ l2) as Hin by (intros q; rewrite !elem_of_app, elem_of_cons; tauto).
  assert (∀ q, q ∈ l1 ++ set_pub ph p :: l2 ↔ q = set_pub ph p ∨ q ∈ l1 ++ l2) as Hin' by (intros q; rewrite !elem_of_app, elem_of_cons; tauto).
  rewrite Forall_forall in He. split; cbn [rw_store rw_pubs]; [done|lia| | | |].
  - intros s h [Hold|[= -> ->]]%S5; [|right; exists (set_pub ph p); rewrite Hin'; by auto].
    destruct (Hsrc s h Hold) as [?|(q & Hq & Es & Eh)]; [by left|right]. apply Hin in Hq as [->|Hq].
    + exists (set_pub ph p). rewrite Hin'. by auto.
    + exists q. rewrite Hin'. by auto.
  - rewrite !map_app in *. exact Hids.
  - intros id [[-> Hc]|[Hne Hl]]%S6; [exists (set_pub ph p); rewrite Hin'; by auto|].
    destruct (Hh id Hl) as (q & Hq & Eq & Hc). apply Hin in Hq as [->|Hq]; [by rewrite Eq in Hne|]. exists q. rewrite Hin'. by auto.
  - apply Forall_forall. intros q [->|Hq]%Hin'; [done|]. apply S7; [apply He, Hin; by auto|]. by eapply nodup_middle.
Qed.

(** The mutex is with a live publication. *)
Lemma holder_critical st0 st l1 p l2 :
  rtk_world_ok st0 (mkRtkWorld st (l1 ++ p :: l2)) → rk_lock st = Some (pb_id p) → critical p = true.
Proof.
  intros [_ _ _ Hids Hh _] Hl. destruct (Hh _ Hl) as (q & Hq & Eq & Hc). cbn [rw_pubs] in *.
  apply elem_of_app in Hq as [Hq|[->|Hq]%elem_of_cons]; [|done|]; by (destruct (nodup_middle l1 p l2 q Hids); [apply elem_of_app; auto|]).
Qed.

Lemma fail_stepped st p ph :
  rtk_ok st → pub_ok st p → (rk_lock st = Some (pb_id p) → critical p = true) → may_fail p = Some ph →
  pub_stepped st p st (set_pub ph p).
Proof.
  intros Hst Hp Hlk Hf. assert (critical (set_pub ph p) = critical p ∧ pub_phase_ok st (set_pub ph p)) as [Hc Hph].
  { unfold may_fail, critical in *. by destruct (pb_phase p); simplify_eq. }
  destruct (decide (critical p = true)) as [Hcp|Hcp].
  - apply stepped; rewrite ?Hc; try done; [left; by apply (po_lock _ _ Hp)| |lia|by left|].
    + split; [apply Hp|rewrite Hc; by apply Hp|done].
    + rewrite (po_lock _ _ Hp Hcp). by intros id [= <-].
  - apply same_stepped; rewrite ?Hc; try done.
Qed.

Lemma crash_stepped st p :
  rtk_ok st → pub_ok st p → (rk_lock st = Some (pb_id p) → critical p = true) → pub_stepped st p (release p st) (set_pub UDead p).
Proof.
  intros Hst Hp Hlk. unfold release. case_bool_decide as E.
  - apply stepped; try done; [by left|by apply rtk_ok_lock|by split; [apply Hp|done|done]|apply Z.le_max_l|by left].
  - apply same_stepped; try done. intros Hc. by destruct E; apply (po_lock _ _ Hp).
Qed.

Lemma rtk_step_ok st0 w w' :
  rtk_world_ok st0 w → rtk_step sha256Hex dataDir maxStorageBytes w w' → rtk_world_ok st0 w'.
Proof.
  intros Hw Hs. pose proof Hw as [Hok Hu Hsrc Hids Hh He].
  destruct Hs as [st pubs id session text Hid Ht|st l1 p l2 chunk st' p' Hs|st l1 p l2 ph Hf|st l1 p l2|st pubs hash content Hv Hg];
    cbn [rw_store rw_pubs] in *.
  - split; cbn [rw_store rw_pubs]; [done|done| | | |].
    + intros s h H. destruct (Hsrc s h H) as [?|(q & Hq & ? & ?)]; [by left|right; exists q; rewrite elem_of_app; auto].
    + rewrite map_app. apply NoDup_app. split_and!; [done| |apply NoDup_singleton]. intros x Hx Hx'%list_elem_of_singleton. by subst.
    + intros id' Hl. destruct (Hh id' Hl) as (q & Hq & ? & ?). exists q. rewrite elem_of_app. auto.
    + apply Forall_app. split; [done|]. constructor; [|constructor]. by split.
  - apply Forall_app in He as [_ [Hp _]%Forall_cons].
    assert (pub_stepped st p st' p') as Hst; [|destruct (ps_same _ _ _ _ Hst) as [ph ->]; by eapply rtk_move].
    eapply pub_step_ok; try done. by eapply holder_critical.
  - apply Forall_app in He as [_ [Hp _]%Forall_cons]. eapply rtk_move; [done|]. apply fail_stepped; try done. by eapply holder_critical.
  - apply Forall_app in He as [_ [Hp _]%Forall_cons]. eapply rtk_move; [done|]. apply crash_stepped; try done. by eapply holder_critical.
  - unfold backfill_object. destruct (so_counted _ _ _ (ro_storage _ Hok) hash content Hv Hg) as [x Hx].
    unfold reserve. rewrite Hx. cbn [fst]. by destruct st.
Qed.
End PubProofs.

(** ** One request *)

Section Request.
Context (sha256Hex : bytes → jstr) (dataDir : jstr) (maxStorageBytes : Z).
Context (sha_valid : ∀ content, test HASH_RE (sha256Hex content) = true).
Abbreviation object_path := (object_path dataDir).
Abbreviation pub_step := (pub_step sha256Hex dataDir maxStorageBytes).
Abbreviation run_pub := (run_pub sha256Hex dataDir maxStorageBytes).
Abbreviation rtk_ok := (rtk_ok sha256Hex dataDir).
Abbreviation pub_ok := (pub_ok sha256Hex dataDir).

(** Steps left of a publication that runs alone. *)
Definition writer_rank (w : Writer) : nat :=
  match w_phase w with PCheck => 6 | PTmp => 5 | PWrite _ => 4 | PLink => 3 | PVerify => 2 | PClean _ => 1 | _ => 0 end.
Definition pub_rank (p : Publication) : nat :=
  match pb_phase p with
  | UBegin => 13 | UReconcile => 12 | UReserve => 11 | UWrite w => 4 + writer_rank w
  | UGrant => 3 | UFinish _ => 2 | UUnlock _ => 1 | UDone _ | UDead => 0
  end.
Definition lively (p : Publication) : Prop :=
  match pb_phase p with UWrite w => (0 < writer_rank w)%nat ∧ w_bytes w = pb_content p | UDead => False | _ => True end.

Lemma writer_step_rank files w files' w' :
  (0 < writer_rank w)%nat → writer_step files (length (w_bytes w)) w = (files', w') →
  (writer_rank w' < writer_rank w)%nat ∧ w_bytes w' = w_bytes w
  ∧ match w_phase w' with PDone _ => True | _ => (0 < writer_rank w')%nat end.
Proof.
  unfold writer_rank, writer_step. destruct (w_phase w) as [| |n| | |o|o|] eqn:E; intros Hr; try lia.
  - destruct (get _ _) as [c|]; intros [= <- <-]; cbn; split_and!; try done; lia.
  - destruct (has _ _); intros [= <- <-]; cbn; split_and!; try done; lia.
  - rewrite Nat.min_r by lia. rewrite Nat.eqb_refl. intros [= <- <-]. cbn. split_and!; try done; lia.
  - destruct (get (w_path w) files), (get (w_tmp w) files); intros [= <- <-]; cbn; split_and!; try done; lia.
  - destruct (get (w_path w) files); intros [= <- <-]; cbn; split_and!; try done; lia.
  - intros [= <- <-]. cbn. split_and!; try done; lia.
Qed.

Lemma pub_step_rank st p st' p' :
  lively p → pub_step st (length (pb_content p)) p = (st', p') →
  lively p' ∧ (pub_rank p' <= pub_rank p - 1)%nat.
Proof.
  unfold lively, pub_rank, RtkEngine.pub_step. destruct (pb_phase p) as [| | |w| |r|r|r|] eqn:E.
  - destruct (rk_lock st); intros _ [= <- <-]; cbn; (split; [done|lia]).
  - destruct (reconcilePending _ _ _); intros _ [= <- <-]; cbn; (split; [done|lia]).
  - destruct (reserve _ _ _ _) as [s [|]]; intros _ [= <- <-]; cbn; [|split; [done|lia]].
    unfold start_write. destruct (assertValidHash _); cbn; (split; [|lia]); [|done]. split; [lia|done].
  - intros [Hr Hb]. rewrite <- Hb. destruct (writer_step _ _ _) as [files w'] eqn:Es. intros [= <- <-].
    destruct (writer_step_rank _ _ _ _ Hr Es) as (Hlt & Hb' & Hd). cbn [set_pub pb_phase pb_content].
    assert (written p w' = UGrant ∨ written p w' = UFinish failed) as Hw by (unfold written; repeat case_match; auto).
    destruct (w_phase w') eqn:Ew; cbn [set_pub pb_phase pb_content]; [..|destruct Hw as [-> | ->]; (split; [done|lia])|];
      (split; [|lia]); split; congruence.
  - intros _ [= <- <-]. cbn. split; [done|lia].
  - destruct (reconcilePending _ _ _); intros _ [= <- <-]; cbn; (split; [done|lia]).
  - intros _ [= <- <-]. cbn. split; [done|lia].
  - intros _ [= <- <-]. rewrite E. split; [done|lia].
  - done.
Qed.

(** What a request keeps while it runs; [st0] and [p0] are the start. *)
Record request_ok (st0 : RtkStore) (p0 : Publication) (st : RtkStore) (p : Publication) : Prop := {
  rq_store : rtk_ok st;
  rq_pub : pub_ok st p;
  rq_lock : ∀ id, rk_lock st = Some id → id = pb_id p ∧ critical p = true;
  rq_lively : lively p;
  rq_same : ∃ ph, p = set_pub ph p0;
  rq_refs : ∀ x, x ∈ rk_refs st0 → x ∈ rk_refs st;
  rq_new : ∀ x, x ∈ rk_refs st → x ∈ rk_refs st0 ∨ x = (pb_session p0, pb_hash p0);
  rq_objects : ∀ h c, test HASH_RE h = true → get (object_path h) (rk_files st0) = Some c → get (object_path h) (rk_files st) = Some c }.

Lemma request_step st0 p0 st p st' p' :
  request_ok st0 p0 st p → pub_step st (length (pb_content p)) p = (st', p') → request_ok st0 p0 st' p'.
Proof.
  intros [Hst Hp Hl Hv [ph ->] Hr Hn Ho] Hs.
  destruct (pub_step_ok sha256Hex dataDir maxStorageBytes sha_valid st _ _ st' p' Hst Hp (λ E, proj2 (Hl _ E)) Hs)
    as [S1 S2 [ph' ->] _ S4 S5 S6 S7 _].
  destruct (pub_step_rank _ _ _ _ Hv Hs) as [Hv' _]. split; try done; auto.
  - intros id [?|[Hne Hid]]%S6; [done|]. by destruct (Hl id Hid).
  - by exists ph'.
  - intros x [Hx| ->]%S5; auto.
Qed.

Lemma run_pub_request n st0 p0 st p st' p' :
  request_ok st0 p0 st p → run_pub n st p = (st', p') → request_ok st0 p0 st' p' ∧ (pub_rank p' <= pub_rank p - n)%nat.
Proof.
  revert st p. induction n as [|n IH]; intros st p Hr; cbn [RtkEngine.run_pub]; [intros [= <- <-]; split; [done|lia]|].
  destruct (pub_step st (length (pb_content p)) p) as [st1 p1] eqn:Es. intros H.
  destruct (IH st1 p1 (request_step _ _ _ _ _ _ Hr Es) H) as [H1 H2].
  destruct (pub_step_rank _ _ _ _ (rq_lively _ _ _ _ Hr) Es). split; [done|lia].
Qed.

Lemma request_start st p :
  rtk_ok st → rk_lock st = None → pb_phase p = UBegin → pb_hash p = sha256Hex (pb_content p) →
  get (tmp_path dataDir (pb_hash p) (pb_id p)) (rk_files st) = None → request_ok st p st p.
Proof.
  intros Hst Hl Hph Hh Ht. split; try done; [|by rewrite Hl|unfold lively; by rewrite Hph| |by left].
  - split; [done|unfold critical; by rewrite Hph|unfold pub_phase_ok; by rewrite Hph].
  - exists UBegin. destruct p; cbn in *; by subst.
Qed.

(** A request alone ends, and frees the mutex. *)
Lemma run_pub_done st p :
  rtk_ok st → rk_lock st = None → pb_phase p = UBegin → pb_hash p = sha256Hex (pb_content p) →
  get (tmp_path dataDir (pb_hash p) (pb_id p)) (rk_files st) = None →
  ∃ st' p' r, run_pub PUB_STEPS st p = (st', p') ∧ request_ok st p st' p' ∧ pb_phase p' = UDone r ∧ rk_lock st' = None.
Proof.
  intros Hst Hl Hph Hh Ht. destruct (run_pub PUB_STEPS st p) as [st' p'] eqn:E.
  destruct (run_pub_request _ _ _ _ _ _ _ (request_start st p Hst Hl Hph Hh Ht) E) as [Hr Hk].
  assert (pub_rank p = 13%nat) as Hrank by (unfold pub_rank; by rewrite Hph). rewrite Hrank in Hk. cbn in Hk.
  assert (∃ r, pb_phase p' = UDone r) as [r Hd].
  { pose proof (rq_lively _ _ _ _ Hr) as Hv. unfold lively, pub_rank in *. destruct (pb_phase p'); try lia; by eauto. }
  exists st', p', r. split_and!; try done. destruct (rk_lock st') as [id|] eqn:El; [|done].
  destruct (rq_lock _ _ _ _ Hr id El) as [_ Hc]. unfold critical in Hc. by rewrite Hd in Hc.
Qed.

(** *** Enough room: the request cannot fail *)

Definition stored (st : RtkStore) (p : Publication) : Prop := is_Some (get (object_path (pb_hash p)) (rk_files st)).
Definition room (st : RtkStore) (p : Publication) : Prop := usage (rk_storage st) + zlen (pb_content p) <= maxStorageBytes.

(** No other content is stored under the hash, and there is room or the object
    is there already. *)
Definition smooth (st : RtkStore) (p : Publication) : Prop :=
  (∀ c, get (object_path (pb_hash p)) (rk_files st) = Some c → c = pb_content p)
  ∧ match pb_phase p with
    | UBegin => rk_lock st = None ∧ (stored st p ∨ room st p)
    | UReconcile => stored st p ∨ room st p
    | UReserve => stored st p ∨ (get (pb_hash p) (rk_storage st) = None ∧ room st p)
    | UFinish r | UUnlock r | UDone r => r = None
    | UDead => False
    | UWrite _ | UGrant => True
    end.

Lemma written_smooth files p w :
  pub_writer dataDir p w → phase_ok files w → (∀ c, get (object_path (pb_hash p)) files = Some c → c = pb_content p) →
  match w_phase w with PDone _ => written p w = UGrant | _ => True end.
Proof.
  intros [ph ->] Hok Hc. unfold written, outcome_of. destruct ph as [| | | | | |o|]; try done. cbn [set_phase w_phase] in Hok |- *.
  destruct Hok as [_ Hok]. destruct o as [r| |]; [|destruct Hok as (b & Hb & Hne); by destruct Hne; apply Hc|done].
  destruct Hok as (-> & _). by rewrite jeqb_refl.
Qed.

Lemma smooth_step st p st' p' :
  rtk_ok st → pub_ok st p → smooth st p → pub_step st (length (pb_content p)) p = (st', p') → smooth st' p'.
Proof.
  intros Hst [Hh Hl Hph] [Hc Hs]. unfold pub_phase_ok, RtkEngine.pub_step, smooth in *.
  destruct (reconcile_ok dataDir (rk_files st) (rk_storage st)) as (s & Hrs & [_ Hu _] & Hgone); [apply Hst|].
  destruct (pb_phase p) as [| | |w| |r|r|r|] eqn:E.
  - destruct Hs as [-> Hs]. intros [= <- <-]. done.
  - rewrite Hrs. intros [= <- <-]. split; [done|]. cbn [set_pub pb_phase]. unfold stored, room in *. cbn [set_pub set_storage rk_files rk_storage pb_hash pb_content].
    destruct (get (object_path (pb_hash p)) (rk_files st)) as [c|] eqn:Eg; [left; eauto|right]. destruct Hs as [[c Hx]|Hroom]; [done|].
    split; [by apply Hgone|lia].
  - assert ((reserve (rk_storage st) (pb_hash p) (zlen (pb_content p)) maxStorageBytes).2 = true) as Hres.
    { unfold reserve. destruct Hs as [[c Hg]|[-> Hroom]].
      - destruct (so_counted _ _ _ (ro_storage _ _ _ Hst) (pb_hash p) c) as [x ->]; [rewrite Hh; apply sha_valid|done|].
        rewrite (Hc c Hg). apply Z.eqb_refl.
      - rewrite (proj2 (Z.ltb_ge _ _)) by (unfold room in Hroom; lia). done. }
    destruct (reserve _ _ _ _) as [s' granted]. cbn in Hres. subst granted. intros [= <- <-]. split; [done|].
    unfold start_write, assertValidHash. by rewrite sha_valid.
  - destruct Hph as (Hw & Hok & _). destruct (writer_step _ _ _) as [files w'] eqn:Es. intros [= <- <-].
    assert (test HASH_RE (pb_hash p) = true) as Hv by (rewrite Hh; apply sha_valid).
    destruct (writer_step_ok dataDir _ _ _ _ _ (pub_writer_of dataDir p w Hv Hw) Hok Es) as (Hfs & Hok' & ph & ->).
    assert (∀ c, get (object_path (pb_hash p)) files = Some c → c = pb_content p) as Hc'.
    { intros c Hg. destruct (files_step_object dataDir w _ _ (pb_hash p) (pub_writer_of dataDir p w Hv Hw) Hv Hfs) as [Eq|(_ & Eq & _)];
        rewrite Eq in Hg; [by apply Hc|]. destruct Hw as [ph' ->]. by simplify_eq. }
    assert (pub_writer dataDir p (set_phase ph w)) as Hw' by (destruct Hw as [ph' ->]; by exists ph).
    pose proof (written_smooth files p _ Hw' Hok' Hc') as Hwr. cbn [set_phase w_phase] in Hwr |- *. split; [done|].
    cbn [set_pub pb_phase]. destruct ph; try done. by rewrite Hwr.
  - by intros [= <- <-].
  - rewrite Hrs. by intros [= <- <-].
  - by intros [= <- <-].
  - intros [= <- <-]. by rewrite E.
  - done.
Qed.

Lemma run_pub_smooth n st0 p0 st p st' p' :
  request_ok st0 p0 st p → smooth st p → run_pub n st p = (st', p') → smooth st' p'.
Proof.
  revert st p. induction n as [|n IH]; intros st p Hr Hs; cbn [RtkEngine.run_pub]; [by intros [= <- <-]|].
  destruct (pub_step st (length (pb_content p)) p) as [st1 p1] eqn:Es. apply IH; [by eapply request_step|].
  eapply smooth_step; [apply Hr|apply Hr|done|exact Es].
Qed.
End Request.

(** ** Reading back *)

Section Reading.
Context (sha256Hex : bytes → jstr) (dataDir : jstr).
Abbreviation object_path := (object_path dataDir).
Abbreviation fetch := (fetch sha256Hex dataDir).
Abbreviation fetch_all := (fetch_all sha256Hex dataDir).

Lemma text_decode_encode text :
  units_ok text → wf_utf16 text = true → head text ≠ Some 0xFEFF → text_decode (utf8_encode text) = text.
Proof.
  intros Hu Hw Hb. unfold text_decode. rewrite utf8_decode_encode by done.
  destruct text as [|c text]; [done|]. cbn in Hb. repeat case_match; simplify_eq; done.
Qed.

Lemma read_stored_object files h c :
  test HASH_RE h = true → get (object_path h) files = Some c → sha256Hex c = h →
  readObject sha256Hex files files dataDir h = Ok (Some c).
Proof.
  intros Hh Hg Hs. unfold readObject, objectPath, assertValidHash. rewrite Hh. cbn [rbind].
  unfold read_sized. rewrite Hg. rewrite Z.eqb_refl. cbn [rbind negb]. by rewrite Hs, jeqb_refl.
Qed.

(** A page of an owned object is the page of its text. *)
Lemma fetch_owned st params c :
  let hex := drop 7 (fp_hash params) in
  fetchParams_ok params = true → owns (rk_refs st) (fp_sessionId params) hex = true →
  get (object_path hex) (rk_files st) = Some c → sha256Hex c = hex → test HASH_RE hex = true →
  fetch (rk_refs st) (rk_files st) (rk_files st) params
  = match paginateText (text_decode c) (fetch_options params) with Ok page => Ok (Some page) | Throw e => Throw (PageError e) end.
Proof.
  intros hex Hok Ho Hg Hs Hh. unfold RtkEngine.fetch. fold hex. rewrite Hok, Ho. cbn [negb].
  by rewrite (read_stored_object _ _ _ Hh Hg Hs).
Qed.

Lemma page_cursor_short text o page : paginateText text o = Ok page → optionally (λ c, zlen c <=? 4096) (po_cursor o) = true.
Proof.
  intros (lim & start & e & _ & Hd & _)%paginate_shape. unfold decodeCursor in Hd. destruct (po_cursor o) as [c|]; [|done]. cbn.
  destruct (4096 <? zlen c) eqn:E; [done|]. lia.
Qed.

Lemma fetch_ok_cursor params :
  fetchParams_ok (with_fetch_cursor params None) = true → optionally (λ c, zlen c <=? 4096) (po_cursor (fetch_options params)) = true →
  fetchParams_ok params = true.
Proof.
  unfold fetchParams_ok. cbn [with_fetch_cursor fp_hash fp_sessionId fp_cursor fp_maxBytes fp_maxTokens fetch_options po_cursor].
  rewrite !andb_true_iff. tauto.
Qed.

(** Following the cursors of fetch reads the pages of the text. *)
Lemma fetch_all_pages fuel st params c pages :
  let hex := drop 7 (fp_hash params) in
  fetchParams_ok (with_fetch_cursor params None) = true → owns (rk_refs st) (fp_sessionId params) hex = true →
  get (object_path hex) (rk_files st) = Some c → sha256Hex c = hex → test HASH_RE hex = true →
  read_pages fuel (text_decode c) (fetch_options params) = Ok pages → fetch_all fuel st params = Ok pages.
Proof.
  intros hex Hok Ho Hg Hs Hh. revert params hex Hok Ho Hg Hs Hh pages.
  induction fuel as [|f IH]; intros params hex Hok Ho Hg Hs Hh pages; cbn [read_pages RtkEngine.fetch_all]; [by intros [= <-]|].
  intros H. apply rbind_ok in H as (page & Hp & H). rewrite (fetch_owned st params c); [|by eapply fetch_ok_cursor, page_cursor_short|done..].
  rewrite Hp. destruct (tp_nextCursor page) as [cur|]; [|by injection H as <-]. apply rbind_ok in H as (rest & Hr & [= <-]).
  rewrite (IH (with_fetch_cursor params (Some cur)) Hok Ho Hg Hs Hh rest Hr). done.
Qed.
End Reading.

(** A degraded result still meets the wire contract. *)
Lemma degrade_refines reason raw r : compressResult_refine (degrade reason raw r) = true.
Proof. unfold compressResult_refine, degrade. cbn. by rewrite Z.eqb_refl, eqb_reflx. Qed.

(** How a request ends, with what the client and the store then have. *)
Lemma compress_outcome sha256Hex dataDir maxStorageBytes st params id :
  (∀ content, test HASH_RE (sha256Hex content) = true) →
  let raw := raw_of (pipeline_input params) in
  let hex := sha256Hex (utf8_encode raw) in
  let run := compressToolOutput (text_hash sha256Hex) (pipeline_input params) in
  rtk_ok sha256Hex dataDir (rs_store st) → rk_lock (rs_store st) = None →
  get (tmp_path dataDir hex id) (rk_files (rs_store st)) = None → compressParams_ok params = true →
  let p := mkPub id (rp_sessionId params) hex (utf8_encode raw) UBegin in
  ∃ store p' r, compress sha256Hex dataDir maxStorageBytes st params id
      = (mkState store (record_result (rs_stats st) (match r with Some reason => degrade reason raw run | None => run end)),
         Ok (match r with Some reason => degrade reason raw run | None => run end))
    ∧ request_ok sha256Hex dataDir (rs_store st) p store p' ∧ pb_phase p' = UDone r ∧ rk_lock store = None
    ∧ (smooth dataDir maxStorageBytes (rs_store st) p → r = None).
Proof.
  intros Hsha raw hex run Hst Hl Ht Hok p.
  destruct (run_pub_done sha256Hex dataDir maxStorageBytes Hsha (rs_store st) p) as (store & p' & r & Hrun & Hreq & Hd & Hl'); try done.
  exists store, p', r. split_and!; try done.
  - unfold compress. rewrite Hok. cbn [negb]. destruct (compress_refines (text_hash sha256Hex) (pipeline_input params)) as (_ & -> & -> & _).
    change (drop 7 (js "sha256:" ++ ?h)) with h. fold raw. change (text_hash sha256Hex raw) with hex. fold p. rewrite Hrun.
    unfold pub_failure. by rewrite Hd.
  - intros Hs. pose proof (run_pub_smooth sha256Hex dataDir maxStorageBytes Hsha PUB_STEPS (rs_store st) p (rs_store st) p store p') as Hsm.
    destruct Hsm as [_ H]; [by apply request_start|done|done|]. by rewrite Hd in H.
Qed.

Lemma rtk_reachable_ok sha256Hex dataDir maxStorageBytes st0 w :
  (∀ content, test HASH_RE (sha256Hex content) = true) → rtk_ok sha256Hex dataDir st0 → rk_lock st0 = None →
  rtc (rtk_step sha256Hex dataDir maxStorageBytes) (mkRtkWorld st0 []) w → rtk_world_ok sha256Hex dataDir maxStorageBytes st0 w.
Proof.
  intros Hsha Hst Hl Hr.
  assert (rtk_world_ok sha256Hex dataDir maxStorageBytes st0 (mkRtkWorld st0 [])) as H0.
  { split; cbn; [done|lia|by left|constructor|by rewrite Hl|constructor]. }
  clear Hst Hl. induction Hr as [|w1 w2 w3 Hs _ IH]; [done|]. apply IH. by eapply rtk_step_ok.
Qed.

(** ** The theorems *)

(** C12: the rtk store is safe under any interleaving of publications of any
    number of engines on one directory, with crashes, failing calls, a taken
    mutex and engine restarts at any point.  The bytes of the objects on disk
    never exceed the size ledger, and the ledger never exceeds the limit (or
    what it held at the start); every grant in the ownership table names an
    object that is on disk, reads back and has the hash it is named by; every
    new grant is of a session that published that very content; a publication
    that reports success has been granted and its content is stored; and the mutex is never left with a
    dead publication. *)
Theorem rtk_store_safe sha256Hex dataDir maxStorageBytes st0 w :
  (∀ content, test HASH_RE (sha256Hex content) = true) → rtk_ok sha256Hex dataDir st0 → rk_lock st0 = None →
  rtc (rtk_step sha256Hex dataDir maxStorageBytes) (mkRtkWorld st0 []) w →
  let st := rw_store w in
  disk_bytes dataDir (rk_files st) <= usage (rk_storage st)
  ∧ usage (rk_storage st) <= Z.max (usage (rk_storage st0)) maxStorageBytes
  ∧ (∀ s h, owns (rk_refs st) s h = true →
       (∃ c, readObject sha256Hex (rk_files st) (rk_files st) dataDir h = Ok (Some c) ∧ sha256Hex c = h)
       ∧ (owns (rk_refs st0) s h = true ∨ ∃ p, p ∈ rw_pubs w ∧ pb_session p = s ∧ pb_hash p = h ∧ sha256Hex (pb_content p) = h))
  ∧ (∀ p, p ∈ rw_pubs w → pb_phase p = UDone None → owns (rk_refs st) (pb_session p) (pb_hash p) = true
       ∧ get (object_path dataDir (pb_hash p)) (rk_files st) = Some (pb_content p))
  ∧ (∀ id, rk_lock st = Some id → ∃ p, p ∈ rw_pubs w ∧ pb_id p = id ∧ critical p = true).
Proof.
  intros Hsha Hst Hl Hr st. destruct (rtk_reachable_ok _ _ _ _ _ Hsha Hst Hl Hr) as [[Hf Hs Ha Hg] Hu Hsrc _ Hh He].
  fold st in Hf, Hs, Ha, Hg, Hu, Hsrc, Hh, He. rewrite Forall_forall in He. unfold owns.
  split_and!; [by apply disk_usage|done| | |done].
  - intros s h Hin%bool_decide_eq_true. destruct (Hg s h Hin) as [Hv [c Hc]]. split.
    { exists c. split; [|by apply Ha]. apply read_stored_object; auto. }
    destruct (Hsrc s h Hin) as [?|(p & Hp & Es & Eh)]; [left; by apply bool_decide_eq_true|right].
    exists p. split_and!; try done. by rewrite <- (po_hash _ _ _ _ (He p Hp)).
  - intros p Hp Hd. pose proof (po_phase _ _ _ _ (He p Hp)) as Hph. unfold pub_phase_ok in Hph. rewrite Hd in Hph.
    destruct Hph. by split; [apply bool_decide_eq_true|].
Qed.

(** C31: one request.  On a store in order whose mutex is free, compress answers
    with a result that meets the wire contract, leaves the store in order and
    the mutex free, and loses nothing: either the output is the whole raw text,
    or the session can fetch the raw text, and following the cursors of fetch
    gives all of it.  With room below the limit and no other content under the
    hash, storing does not fail.  Only this session gains access, and only to
    this object. *)
Theorem rtk_compress_then_fetch sha256Hex dataDir maxStorageBytes st params id :
  (∀ content, test HASH_RE (sha256Hex content) = true) →
  rtk_ok sha256Hex dataDir (rs_store st) → rk_lock (rs_store st) = None → compressParams_ok params = true →
  let raw := raw_of (pipeline_input params) in
  let hex := sha256Hex (utf8_encode raw) in
  get (tmp_path dataDir hex id) (rk_files (rs_store st)) = None →
  ∃ st' r, compress sha256Hex dataDir maxStorageBytes st params id = (st', Ok r)
  ∧ compressResult_refine r = true ∧ cr_rawHash r = js "sha256:" ++ hex
  ∧ rtk_ok sha256Hex dataDir (rs_store st') ∧ rk_lock (rs_store st') = None
  ∧ (cr_compressed r = false → cr_output r = raw)
  ∧ (cr_degraded r = None → ∀ mb mt lim,
       let q := mkFetch (cr_rawHash r) (rp_sessionId params) None mb mt in
       fetchParams_ok q = true → page_limit (fetch_options q) = Ok lim → 4 <= lim →
       units_ok raw → wf_utf16 raw = true → head raw ≠ Some 0xFEFF → zlen raw <= MAX_SAFE_INTEGER →
       units_ok (po_ref (fetch_options q)) → cursors_fit (po_ref (fetch_options q)) raw →
       ∃ pages, fetch_all sha256Hex dataDir (S (length raw)) (rs_store st') q = Ok pages ∧ concat (map tp_content pages) = raw)
  ∧ (cr_degraded r ≠ None → cr_compressed r = false)
  ∧ (usage (rk_storage (rs_store st)) + zlen (utf8_encode raw) <= maxStorageBytes →
     (∀ c, get (object_path dataDir hex) (rk_files (rs_store st)) = Some c → c = utf8_encode raw) → cr_degraded r = None)
  ∧ (∀ s h, owns (rk_refs (rs_store st')) s h = true → owns (rk_refs (rs_store st)) s h = true ∨ (s, h) = (rp_sessionId params, hex)).
Proof.
  intros Hsha Hst Hl Hok raw hex Ht.
  destruct (compress_outcome sha256Hex dataDir maxStorageBytes st params id Hsha Hst Hl Ht Hok) as (store & p' & r & Hc & Hreq & Hd & Hl' & Hsm).
  fold raw hex in Hc, Hreq, Hsm. destruct (compress_refines (text_hash sha256Hex) (pipeline_input params)) as (C1 & C2 & C3 & C4 & C5 & C6).
  set (run := compressToolOutput (text_hash sha256Hex) (pipeline_input params)) in *. fold raw in C2, C3, C5, C6. change (text_hash sha256Hex raw) with hex in C3.
  eexists _, _. split; [exact Hc|]. cbn [rs_store].
  split_and!; [destruct r; [apply degrade_refines|done]|by destruct r|apply Hreq|done|destruct r; [done|by intros [? _]%C6]| | | |].
  - destruct r as [reason|]; [done|]. intros _ mb mt lim. set (q := mkFetch (cr_rawHash run) (rp_sessionId params) None mb mt). intros Hq Hlim H4 Hu Hw Hb Hz Hur Hfit.
    destruct (rq_same _ _ _ _ _ _ Hreq) as [ph Hp']. pose proof (po_phase _ _ _ _ (rq_pub _ _ _ _ _ _ Hreq)) as Hph.
    unfold pub_phase_ok in Hph. rewrite Hd, Hp' in Hph. destruct Hph as [Ho Hg]. unfold pub_stored in Hg. cbn [set_pub pb_hash pb_content pb_session] in Ho, Hg.
    assert (drop 7 (fp_hash q) = hex) as Hhex by (unfold q; cbn [fp_hash]; by rewrite C3).
    destruct (read_pages_from (S (length raw)) raw (fetch_options q) lim 0) as (pages & Hp & Hcat & _); try done; [apply zlen_nonneg|apply Nat.lt_succ_diag_r|].
    exists pages. split; [|exact Hcat]. apply (fetch_all_pages _ _ _ _ _ (utf8_encode raw)); rewrite ?Hhex; try done; [by apply bool_decide_eq_true|apply Hsha|].
    by rewrite text_decode_encode.
  - by destruct r.
  - intros Hroom Hsame. rewrite (Hsm (conj Hsame (conj Hl (or_intror Hroom)))). done.
  - intros s h [Hin|[= -> ->]]%bool_decide_eq_true%(rq_new _ _ _ _ _ _ Hreq); [left; by apply bool_decide_eq_true|by right].
Qed.

(** ** Witnesses *)

Definition empty_rtk : RtkStore := mkRtk [] [] [] None.

Lemma empty_rtk_ok sha256Hex dataDir : rtk_ok sha256Hex dataDir empty_rtk.
Proof. split; [constructor|split; try done; constructor|done|]. cbn. intros s h []%elem_of_nil. Qed.

Lemma run_pub_reachable sha256Hex dataDir maxStorageBytes n st p :
  rtc (rtk_step sha256Hex dataDir maxStorageBytes) (mkRtkWorld st [p])
      (let '(st', p') := run_pub sha256Hex dataDir maxStorageBytes n st p in mkRtkWorld st' [p']).
Proof.
  revert st p. induction n as [|n IH]; intros st p; cbn [run_pub]; [apply rtc_refl|].
  destruct (pub_step sha256Hex dataDir maxStorageBytes st (length (pb_content p)) p) as [st' p'] eqn:E.
  eapply rtc_l; [|apply IH]. by eapply (rs_call sha256Hex dataDir maxStorageBytes st [] p []).
Qed.

Definition demo_rtk : RtkStore * Publication :=
  run_pub toy_sha (js "/d") 100 PUB_STEPS empty_rtk (start_pub toy_sha (js "u1") (js "s1") (js "hi✓")).
Definition demo_rtk_world : RtkWorld := let '(st, p) := demo_rtk in mkRtkWorld st [p].

Lemma demo_rtk_reachable : rtc (rtk_step toy_sha (js "/d") 100) (mkRtkWorld empty_rtk []) demo_rtk_world.
Proof.
  eapply rtc_l; [apply (rs_start toy_sha (js "/d") 100 empty_rtk [] (js "u1") (js "s1") (js "hi✓")); [by intros []%elem_of_nil|done]|].
  apply run_pub_reachable.
Qed.

Lemma rtk_store_safe_witness :
  disk_bytes (js "/d") (rk_files (rw_store demo_rtk_world)) = 5
  ∧ readObject toy_sha (rk_files (rw_store demo_rtk_world)) (rk_files (rw_store demo_rtk_world)) (js "/d") (toy_sha (utf8_encode (js "hi✓")))
    = Ok (Some (utf8_encode (js "hi✓"))).
Proof.
  destruct (rtk_store_safe toy_sha (js "/d") 100 empty_rtk demo_rtk_world toy_sha_valid (empty_rtk_ok _ _) eq_refl demo_rtk_reachable)
    as (_ & _ & H & _).
  split; [vm_compute; reflexivity|].
  destruct (H (js "s1") (toy_sha (utf8_encode (js "hi✓")))) as [(c & Hc & _) _]; [vm_compute; reflexivity|].
  rewrite Hc. vm_compute in Hc |- *. by simplify_eq.
Defined.

Definition demo_rtk_params : RtkParams := mkParams (js "bash") (js "hi") None None (js "s1").
Definition demo_rtk_answer := compress toy_sha (js "/d") 100 (mkState empty_rtk createPipelineStats) demo_rtk_params (js "u1").
Definition demo_fetch : FetchParams := mkFetch (js "sha256:" ++ toy_sha (utf8_encode (js "hi"))) (js "s1") None (Some 4) None.

Lemma demo_cursors : cursors_fit (po_ref (fetch_options demo_fetch)) (js "hi").
Proof.
  intros off Hoff. change (zlen (js "hi")) with 2 in Hoff. assert (off = 0 ∨ off = 1 ∨ off = 2) as Hcases by lia.
  repeat (destruct Hcases as [->|Hcases]; [vm_compute; discriminate|]). subst. vm_compute. discriminate.
Qed.

Lemma rtk_compress_then_fetch_witness :
  ∃ pages, fetch_all toy_sha (js "/d") 3 (rs_store demo_rtk_answer.1) demo_fetch = Ok pages ∧ concat (map tp_content pages) = js "hi".
Proof.
  pose proof (rtk_compress_then_fetch toy_sha (js "/d") 100 (mkState empty_rtk createPipelineStats) demo_rtk_params (js "u1")
    toy_sha_valid (empty_rtk_ok _ _) eq_refl eq_refl) as H.
  assert (raw_of (pipeline_input demo_rtk_params) = js "hi") as Hraw by (vm_compute; reflexivity).
  rewrite Hraw in H. destruct (H eq_refl) as (st' & r & Hc & _ & Hh & _ & _ & _ & Hf & _ & Hroom & _). clear H.
  assert (demo_rtk_answer.1 = st') as -> by (unfold demo_rtk_answer; by rewrite Hc).
  assert (cr_degraded r = None) as Hd by (apply Hroom; [vm_compute; discriminate|intros c [=]]).
  specialize (Hf Hd (Some 4) None 4). rewrite Hh in Hf.
  apply Hf; [vm_compute; reflexivity|vm_compute; reflexivity|lia| | | | | |exact demo_cursors].
  - repeat constructor; done.
  - vm_compute. reflexivity.
  - discriminate.
  - vm_compute. discriminate.
  - apply (bool_decide_eq_true_1 (Forall _ _)). vm_compute. reflexivity.
Defined.

(** A fetched text has lost its byte order mark, so it is not the text the hash
    names. *)
Example fetch_strips_bom_ex : text_decode (utf8_encode (0xFEFF :: js "id,name")) = js "id,name".
Proof. vm_compute. reflexivity. Qed.
