(* ===== verification/RtkWire.v ===== *)
(** * The wire contract of rtk ([packages/contracts/src/{rtk,errors}.ts])

    The schemas that both ends of the pipe check: envelopes, parameters and
    results.  A schema is a function from a parsed JSON value to the data it
    accepts; encoders give the values the two ends send.  Numbers that the
    schemas do not ask to be integers stay doubles. *)

From stdpp Require Import base tactics list numbers option sets strings.
From Stdlib Require Import SpecFloat.
From S2P Require Import Prelude JsString JsRegex Json Paging Codec Ansi CLine Budget StratBasic OMap Classify Pipeline Chat Objects Cas RtkEngine.

(** ** Numbers *)

Definition num_of (v : json) : option jnum := match v with JNum n => Some n | _ => None end.
Definition f64_of_jnum (n : jnum) : spec_float := match n with NInt z => f64 z | NNegZero => S754_zero true | NFrac f => f end.
(** [a < b] and [a === b]; safe integers are exact. *)
Definition jnum_ltb (a b : jnum) : bool := match a, b with NInt x, NInt y => x <? y | _, _ => fltb (f64_of_jnum a) (f64_of_jnum b) end.
Definition jnum_eqb (a b : jnum) : bool := match a, b with NInt x, NInt y => x =? y | _, _ => SFeqb (f64_of_jnum a) (f64_of_jnum b) end.
(** [z.number().int().positive()] and [z.number().nonnegative()] *)
Definition positive_of (v : json) : option Z := n ← num_of v; match n with NInt z => if is_safe_integer z && (0 <? z) then Some z else None | _ => None end.
Definition nonnegative_of (v : json) : option jnum := n ← num_of v; if jnum_ltb n (NInt 0) then None else Some n.

(** ** Enumerations *)

Definition enum_of {A} (name : A → jstr) (all : list A) (v : json) : option A := s ← str_of v; List.find (λ a, jeqb s (name a)) all.

Inductive RtkOp : Type := OpCompress | OpFetch | OpPing | OpStats | OpSimulateCrash.
#[export] Instance RtkOp_dec : EqDecision RtkOp.
Proof. solve_decision. Defined.
Definition op_name (op : RtkOp) : jstr :=
  match op with OpCompress => js "compress" | OpFetch => js "fetch" | OpPing => js "ping" | OpStats => js "stats" | OpSimulateCrash => js "simulateCrash" end.
Definition rtkOpSchema : json → option RtkOp := enum_of op_name [OpCompress; OpFetch; OpPing; OpStats; OpSimulateCrash].

Definition status_name (s : Status) : jstr :=
  match s with StCompressed => js "compressed" | StUnchanged => js "unchanged" | StSkipped => js "skipped" | StDegraded => js "degraded" end.
Definition reason_name (r : DegradedReason) : jstr :=
  match r with
  | DRspawn_failed => js "spawn_failed" | DRtimeout => js "timeout" | DRcrash => js "crash" | DRprotocol => js "protocol"
  | DRno_gain => js "no_gain" | DRoverloaded => js "overloaded" | DRstorage_capacity => js "storage_capacity" | DRstorage_error => js "storage_error"
  end.
Definition ALL_REASONS : list DegradedReason :=
  [DRspawn_failed; DRtimeout; DRcrash; DRprotocol; DRno_gain; DRoverloaded; DRstorage_capacity; DRstorage_error].
Definition statusSchema : json → option Status := enum_of status_name [StCompressed; StUnchanged; StSkipped; StDegraded].
Definition degradedReasonSchema : json → option DegradedReason := enum_of reason_name ALL_REASONS.
Definition strategyNameSchema : json → option StrategyName := enum_of strategy_text [SLs; SGrep; SRead; SDiff; STest; SUnknown].

Inductive ErrorCode : Type := E_PROTOCOL | E_UNKNOWN_OP | E_INVALID_PARAMS | E_INTERNAL.
#[export] Instance ErrorCode_dec : EqDecision ErrorCode.
Proof. solve_decision. Defined.
Definition code_name (c : ErrorCode) : jstr :=
  match c with E_PROTOCOL => js "E_PROTOCOL" | E_UNKNOWN_OP => js "E_UNKNOWN_OP" | E_INVALID_PARAMS => js "E_INVALID_PARAMS" | E_INTERNAL => js "E_INTERNAL" end.
Record ProtocolError := mkPE { pe_code : ErrorCode; pe_message : jstr; pe_detail : option json }.
Definition errorSchema (v : json) : option ProtocolError :=
  l ← fields_of v;
  code ← req (js "code") (enum_of code_name [E_PROTOCOL; E_UNKNOWN_OP; E_INVALID_PARAMS; E_INTERNAL]) l;
  message ← req (js "message") str_of l;
  Some (mkPE code message (assoc (js "detail") l)).
Definition json_of_error (e : ProtocolError) : json :=
  JObj ([(js "code", JStr (code_name (pe_code e))); (js "message", JStr (pe_message e))] ++ opt_field (js "detail") (λ v, v) (pe_detail e)).

(** ** Envelopes *)

Definition PROTOCOL_VERSION : Z := 3.
Definition version_of (v : json) : option unit := n ← num_of v; match n with NInt z => if z =? PROTOCOL_VERSION then Some tt else None | _ => None end.
Definition id_of (v : json) : option jstr := s ← str_of v; match s with [] => None | _ => Some s end.

Definition helloSchema (v : json) : option Z := l ← fields_of v; _ ← req (js "proto") version_of l; req (js "pid") positive_of l.

(** [result] is [z.unknown()]: [None] is [undefined]. *)
Inductive RtkResponse : Type :=
| ResponseOk (id : jstr) (result : option json)
| ResponseError (id : jstr) (error : ProtocolError).
Definition response_id (r : RtkResponse) : jstr := match r with ResponseOk id _ | ResponseError id _ => id end.
Definition responseSchema (v : json) : option RtkResponse :=
  l ← fields_of v;
  ok ← req (js "ok") bool_of l; _ ← req (js "v") version_of l; id ← req (js "id") id_of l;
  if (ok : bool) then Some (ResponseOk id (assoc (js "result") l)) else error ← req (js "error") errorSchema l; Some (ResponseError id error).
Definition json_of_response (r : RtkResponse) : json :=
  let head id ok := [(js "v", JNum (NInt PROTOCOL_VERSION)); (js "id", JStr id); (js "ok", JBool ok)] in
  match r with
  | ResponseOk id result => JObj (head id true ++ opt_field (js "result") (λ v, v) result)
  | ResponseError id error => JObj (head id false ++ [(js "error", json_of_error error)])
  end.
Definition json_of_request (id : jstr) (op : RtkOp) (params : json) : json :=
  JObj [(js "v", JNum (NInt PROTOCOL_VERSION)); (js "id", JStr id); (js "op", JStr (op_name op)); (js "params", params)].

(** ** Parameters *)

Definition scalar_of (v : json) : option unit := match v with JStr _ | JNum _ | JBool _ | JNull => Some tt | _ => None end.
Definition record_of {A} (f : json → option A) (v : json) : option (list (jstr * A)) :=
  l ← fields_of v; mapM (λ kv, a ← f kv.2; Some (kv.1, a)) l.
Definition sha256RefSchema (v : json) : option jstr :=
  s ← str_of v; if starts_with (js "sha256:") s && test HASH_RE (drop 7 s) then Some s else None.
Definition strings_of (keys : list jstr) (v : json) : option unit :=
  l ← fields_of v; _ ← mapM (λ k, opt k str_of l) keys; Some tt.

Definition compressParamsSchema (v : json) : option RtkParams :=
  l ← fields_of v;
  tool ← req (js "tool") str_of l; output ← req (js "output") str_of l;
  _ ← opt (js "title") str_of l; _ ← opt (js "toolArgs") (record_of scalar_of) l;
  _ ← opt (js "source") (strings_of [js "path"; js "kind"]) l;
  _ ← opt (js "provenance") (strings_of [js "provider"; js "model"; js "callId"]) l;
  metadata ← opt (js "metadata") fields_of l; budgetTokens ← opt (js "budgetTokens") positive_of l;
  sessionId ← req (js "sessionId") id_of l; _ ← opt (js "callId") str_of l;
  Some (mkParams tool output metadata budgetTokens sessionId).
Definition capped {A} (p : A → bool) (f : json → option A) (v : json) : option A := a ← f v; if p a then Some a else None.
Definition fetchParamsSchema (v : json) : option FetchParams :=
  l ← fields_of v;
  hash ← req (js "hash") sha256RefSchema l; sessionId ← req (js "sessionId") id_of l;
  cursor ← opt (js "cursor") (capped (λ c, zlen c <=? 4096) str_of) l;
  maxBytes ← opt (js "maxBytes") (capped (λ n, n <=? 131072) positive_of) l;
  maxTokens ← opt (js "maxTokens") (capped (λ n, n <=? 8192) positive_of) l;
  Some (mkFetch hash sessionId cursor maxBytes maxTokens).

(** ** Results *)

Record WireResult := mkWire {
  wr_output : jstr; wr_status : Status; wr_targetTokens : Z; wr_actualTokens : jnum; wr_budgetExceeded : bool;
  wr_omittedRanges : list LineRange; wr_diagnostics : list jstr; wr_rawHash : jstr; wr_strategy : StrategyName; wr_compressed : bool;
  wr_truncated : bool; wr_rawTokensEst : jnum; wr_outTokensEst : jnum; wr_degraded : option DegradedReason }.

Definition range_of (v : json) : option LineRange :=
  l ← fields_of v; startLine ← req (js "startLine") positive_of l; endLine ← req (js "endLine") positive_of l; Some (mkLR startLine endLine).
Definition nullable {A} (f : json → option A) (v : json) : option (option A) := match v with JNull => Some None | _ => Some <$> f v end.
Definition degraded_of (v : json) : option DegradedReason := l ← fields_of v; req (js "reason") degradedReasonSchema l.

Definition wire_refine (r : WireResult) : bool :=
  Bool.eqb (wr_compressed r) (bool_decide (wr_status r = StCompressed))
  && (negb (wr_compressed r) || jnum_ltb (wr_outTokensEst r) (wr_rawTokensEst r))
  && jnum_eqb (wr_actualTokens r) (wr_outTokensEst r)
  && Bool.eqb (wr_budgetExceeded r) (jnum_ltb (NInt (wr_targetTokens r)) (wr_actualTokens r))
  && ranges_ordered None (wr_omittedRanges r).
Definition compressResultSchema (v : json) : option WireResult :=
  l ← fields_of v;
  output ← req (js "output") str_of l; status ← req (js "status") statusSchema l;
  targetTokens ← req (js "targetTokens") positive_of l; actualTokens ← req (js "actualTokens") nonnegative_of l;
  budgetExceeded ← req (js "budgetExceeded") bool_of l; omittedRanges ← req (js "omittedRanges") (arr_of range_of) l;
  diagnostics ← req (js "diagnostics") (arr_of str_of) l; rawHash ← req (js "rawHash") sha256RefSchema l;
  strategy ← req (js "strategy") strategyNameSchema l; compressed ← req (js "compressed") bool_of l;
  truncated ← req (js "truncated") bool_of l; rawTokensEst ← req (js "rawTokensEst") nonnegative_of l;
  outTokensEst ← req (js "outTokensEst") nonnegative_of l; degraded ← req (js "degraded") (nullable degraded_of) l;
  let r := mkWire output status targetTokens actualTokens budgetExceeded omittedRanges diagnostics rawHash strategy compressed truncated
             rawTokensEst outTokensEst degraded in
  if wire_refine r then Some r else None.

(** The value an engine's result is sent as; [rawForStore] and [notes] stay behind. *)
Definition json_of_range (r : LineRange) : json := JObj [(js "startLine", JNum (NInt (startLine r))); (js "endLine", JNum (NInt (endLine r)))].
Definition json_of_result (r : CompressResult) : json :=
  JObj [(js "output", JStr (cr_output r)); (js "status", JStr (status_name (cr_status r)));
        (js "targetTokens", JNum (NInt (cr_targetTokens r))); (js "actualTokens", JNum (NInt (cr_actualTokens r)));
        (js "budgetExceeded", JBool (cr_budgetExceeded r)); (js "omittedRanges", JArr (map json_of_range (cr_omittedRanges r)));
        (js "diagnostics", JArr (map JStr (cr_diagnostics r))); (js "rawHash", JStr (cr_rawHash r));
        (js "strategy", JStr (strategy_text (cr_strategy r))); (js "compressed", JBool (cr_compressed r));
        (js "truncated", JBool (cr_truncated r)); (js "rawTokensEst", JNum (NInt (cr_rawTokensEst r)));
        (js "outTokensEst", JNum (NInt (cr_outTokensEst r)));
        (js "degraded", match cr_degraded r with Some d => JObj [(js "reason", JStr (reason_name d))] | None => JNull end)].
Definition wire_of (r : CompressResult) : WireResult :=
  mkWire (cr_output r) (cr_status r) (cr_targetTokens r) (NInt (cr_actualTokens r)) (cr_budgetExceeded r) (cr_omittedRanges r) (cr_diagnostics r)
    (cr_rawHash r) (cr_strategy r) (cr_compressed r) (cr_truncated r) (NInt (cr_rawTokensEst r)) (NInt (cr_outTokensEst r)) (cr_degraded r).

(** [None] is [{ found: false }]. *)
Record FetchPage := mkFound { fr_content : jstr; fr_nextCursor : option jstr; fr_truncated : bool }.
Definition fetchResultSchema (v : json) : option (option FetchPage) :=
  l ← fields_of v; found ← req (js "found") bool_of l;
  if (found : bool) then
    content ← req (js "content") str_of l; nextCursor ← req (js "nextCursor") (nullable str_of) l; truncated ← req (js "truncated") bool_of l;
    Some (Some (mkFound content nextCursor truncated))
  else Some None.
Definition json_of_page (p : option TextPage) : json :=
  match p with
  | Some page => JObj [(js "found", JBool true); (js "content", JStr (tp_content page));
                       (js "nextCursor", match tp_nextCursor page with Some c => JStr c | None => JNull end); (js "truncated", JBool (tp_truncated page))]
  | None => JObj [(js "found", JBool false)]
  end.
Definition page_of (p : TextPage) : FetchPage := mkFound (tp_content p) (tp_nextCursor p) (tp_truncated p).

Definition pingResultSchema (v : json) : option jnum :=
  l ← fields_of v; pong ← req (js "pong") bool_of l; if (pong : bool) then req (js "uptimeMs") num_of l else None.
(** A record over an enumeration has all of its keys and no other. *)
Record StatsResult := mkStatsResult {
  st_requests : jnum; st_compressedCount : jnum; st_passthroughCount : jnum; st_degradedCounts : list (DegradedReason * jnum); st_uptimeMs : jnum }.
Definition counts_of (v : json) : option (list (DegradedReason * jnum)) :=
  l ← fields_of v;
  if forallb (λ kv, existsb (λ r, jeqb kv.1 (reason_name r)) ALL_REASONS) l
  then mapM (λ r, n ← req (reason_name r) num_of l; Some (r, n)) ALL_REASONS else None.
Definition statsResultSchema (v : json) : option StatsResult :=
  l ← fields_of v;
  requests ← req (js "requests") num_of l; compressedCount ← req (js "compressedCount") num_of l; passthroughCount ← req (js "passthroughCount") num_of l;
  degradedCounts ← req (js "degradedCounts") counts_of l; uptimeMs ← req (js "uptimeMs") num_of l;
  Some (mkStatsResult requests compressedCount passthroughCount degradedCounts uptimeMs).
Definition json_of_stats (st : PipelineStats) (uptimeMs : Z) : json :=
  JObj [(js "requests", JNum (NInt (requests st))); (js "compressedCount", JNum (NInt (compressedCount st)));
        (js "passthroughCount", JNum (NInt (passthroughCount st)));
        (js "degradedCounts", JObj (map (λ r, (reason_name r, JNum (NInt (degradedCounts st r)))) ALL_REASONS)); (js "uptimeMs", JNum (NInt uptimeMs))].

(** [RESULT_SCHEMAS] of both ends. *)
Inductive OpResult : Type :=
| RCompress (r : WireResult)
| RFetch (r : option FetchPage)
| RPing (uptimeMs : jnum)
| RStats (r : StatsResult).
Definition RESULT_SCHEMAS (op : RtkOp) (v : json) : option OpResult :=
  match op with
  | OpCompress => RCompress <$> compressResultSchema v
  | OpFetch => RFetch <$> fetchResultSchema v
  | OpPing => RPing <$> pingResultSchema v
  | OpStats => RStats <$> statsResultSchema v
  | OpSimulateCrash => None
  end.

(** ** What one end sends, the other accepts *)

Lemma code_read c : enum_of code_name [E_PROTOCOL; E_UNKNOWN_OP; E_INVALID_PARAMS; E_INTERNAL] (JStr (code_name c)) = Some c.
Proof. destruct c; vm_compute; reflexivity. Qed.
Lemma reason_read r : degradedReasonSchema (JStr (reason_name r)) = Some r.
Proof. destruct r; vm_compute; reflexivity. Qed.
Lemma status_read s : statusSchema (JStr (status_name s)) = Some s.
Proof. destruct s; vm_compute; reflexivity. Qed.
Lemma strategy_read s : strategyNameSchema (JStr (strategy_text s)) = Some s.
Proof. destruct s; vm_compute; reflexivity. Qed.
Lemma op_read op : rtkOpSchema (JStr (op_name op)) = Some op.
Proof. destruct op; vm_compute; reflexivity. Qed.

Ltac read_obj := cbn [fields_of mbind option_bind str_of bool_of num_of fmap option_fmap option_map]; read_keys.

Lemma error_read e : errorSchema (json_of_error e) = Some e.
Proof.
  destruct e as [c m d]. unfold errorSchema, json_of_error. cbn [pe_code pe_message pe_detail].
  destruct d as [d|]; do 3 read_obj; rewrite code_read; do 3 read_obj; reflexivity.
Qed.

Lemma response_read r : response_id r ≠ [] → responseSchema (json_of_response r) = Some r.
Proof.
  assert (version_of (JNum (NInt PROTOCOL_VERSION)) = Some tt) as Hv by (vm_compute; reflexivity).
  destruct r as [[|c id] result|[|c id] e]; cbn [response_id]; try done; intros _; unfold responseSchema, json_of_response.
  - destruct result; do 2 read_obj; rewrite Hv; do 2 read_obj; reflexivity.
  - do 2 read_obj; rewrite Hv; do 2 read_obj. cbn [id_of str_of mbind option_bind]. rewrite error_read. reflexivity.
Qed.

Lemma positive_read n : is_safe_integer n && (0 <? n) = true → positive_of (JNum (NInt n)) = Some n.
Proof. intros H. unfold positive_of. cbn [num_of mbind option_bind]. by rewrite H. Qed.

Lemma range_read r : is_safe_integer (startLine r) && (0 <? startLine r) && (is_safe_integer (endLine r) && (0 <? endLine r)) = true →
  range_of (json_of_range r) = Some r.
Proof.
  destruct r as [a b]. cbn [startLine endLine]. intros [Ha%positive_read Hb%positive_read]%andb_true_iff. unfold range_of, json_of_range. cbn [startLine endLine].
  do 2 read_obj. rewrite Ha. do 2 read_obj. by rewrite Hb.
Qed.

(** The contract in the numbers of the engine, with the sizes the schema asks for. *)
Definition wire_sized (r : CompressResult) : bool :=
  is_safe_integer (cr_targetTokens r) && (0 <? cr_targetTokens r) && (0 <=? cr_actualTokens r) && (0 <=? cr_rawTokensEst r) && (0 <=? cr_outTokensEst r)
  && forallb (λ x, is_safe_integer (startLine x) && (0 <? startLine x) && (is_safe_integer (endLine x) && (0 <? endLine x))) (cr_omittedRanges r)
  && (starts_with (js "sha256:") (cr_rawHash r) && test HASH_RE (drop 7 (cr_rawHash r))).

Lemma nonnegative_read n : (0 <=? n) = true → nonnegative_of (JNum (NInt n)) = Some (NInt n).
Proof. intros H. unfold nonnegative_of. cbn [num_of mbind option_bind jnum_ltb]. bool_prop. by rewrite (proj2 (Z.ltb_ge n 0) H). Qed.

Lemma ref_read s : starts_with (js "sha256:") s && test HASH_RE (drop 7 s) = true → sha256RefSchema (JStr s) = Some s.
Proof. intros H. unfold sha256RefSchema. cbn [str_of mbind option_bind]. by rewrite H. Qed.

Lemma wire_refined r : compressResult_refine r = true → wire_refine (wire_of r) = true.
Proof. done. Qed.

Lemma result_read r : compressResult_refine r = true → wire_sized r = true → compressResultSchema (json_of_result r) = Some (wire_of r).
Proof.
  intros Hr%wire_refined Hs. destruct r as [output status target actual exceeded ranges diagnostics hash strategy compressed truncated raw out degraded store].
  unfold wire_sized in Hs. cbn [cr_targetTokens cr_actualTokens cr_rawTokensEst cr_outTokensEst cr_omittedRanges cr_rawHash] in Hs.
  apply andb_true_iff in Hs as [Hs Hh%ref_read]. apply andb_true_iff in Hs as [Hs Hranges]. apply andb_true_iff in Hs as [Hs ?].
  apply andb_true_iff in Hs as [Hs ?]. apply andb_true_iff in Hs as [Hs%positive_read ?].
  assert (arr_of range_of (JArr (map json_of_range ranges)) = Some ranges) as Er.
  { apply mapM_read. apply Forall_forall. intros x Hx. apply range_read. rewrite list_elem_of_In in Hx. revert x Hx. by apply forallb_forall. }
  unfold compressResultSchema, json_of_result.
  cbn [cr_output cr_status cr_targetTokens cr_actualTokens cr_budgetExceeded cr_omittedRanges cr_diagnostics cr_rawHash cr_strategy cr_compressed
       cr_truncated cr_rawTokensEst cr_outTokensEst cr_degraded].
  do 2 read_obj. rewrite status_read. do 2 read_obj. rewrite Hs. do 2 read_obj.
  rewrite nonnegative_read by done. do 2 read_obj. rewrite Er. do 2 read_obj. rewrite strs_read. do 2 read_obj.
  rewrite Hh. do 2 read_obj. rewrite strategy_read. do 2 read_obj.
  rewrite !nonnegative_read by done. do 2 read_obj.
  assert (nullable degraded_of (match degraded with Some d => JObj [(js "reason", JStr (reason_name d))] | None => JNull end) = Some degraded) as ->.
  { destruct degraded as [d|]; [|done]. cbn [nullable]. unfold degraded_of. do 2 read_obj. by rewrite reason_read. }
  cbn [mbind option_bind]. cbv zeta. unfold wire_of in *. cbn [cr_output cr_status cr_targetTokens cr_actualTokens cr_budgetExceeded cr_omittedRanges cr_diagnostics cr_rawHash cr_strategy cr_compressed
       cr_truncated cr_rawTokensEst cr_outTokensEst cr_degraded] in *. by rewrite Hr.
Qed.

Lemma page_read p : fetchResultSchema (json_of_page p) = Some (page_of <$> p).
Proof.
  destruct p as [[content [c|] truncated tokens bytes]|]; unfold fetchResultSchema, json_of_page; cbn [tp_content tp_nextCursor tp_truncated];
    do 3 read_obj; reflexivity.
Qed.

Lemma ping_read n : pingResultSchema (JObj [(js "pong", JBool true); (js "uptimeMs", JNum n)]) = Some n.
Proof. unfold pingResultSchema. do 3 read_obj. reflexivity. Qed.

Lemma stats_read st uptimeMs : is_Some (statsResultSchema (json_of_stats st uptimeMs)).
Proof. eexists. vm_compute. reflexivity. Qed.
