(* ===== verification/RtkServer.v ===== *)
(** * The rtk server process ([packages/rtk/src/{server,bin}.ts])

    [startServer] answers lines one after the other over the engine of
    [RtkEngine]; [bin.ts] cuts them out of the chunks of stdin.  The pid, the
    clock, the random names of temporary files and the messages of zod are
    those of the process: the clock and the names are indexed by the number of
    the line they are used for, so nothing is assumed about them. *)

From stdpp Require Import base tactics list numbers option sets strings.
From S2P Require Import Prelude JsString JsRegex Json Paging Codec Jsonl Ansi CLine Budget StratBasic OMap Classify Pipeline Chat Objects Cas RtkEngine RtkWire.

Definition UNKNOWN_ID : jstr := js "?".
Definition internalError (message : jstr) : ProtocolError := mkPE E_INTERNAL message None.

(** [ENVELOPE_PRE_SCHEMA]: an array has no [v], so only objects pass. *)
Definition ENVELOPE_PRE_SCHEMA (v : json) : option (jstr * jstr * option json) :=
  l ← fields_of v;
  _ ← req (js "v") version_of l; id ← req (js "id") id_of l; op ← req (js "op") str_of l;
  Some (id, op, assoc (js "params") l).

(** What a line makes the server do. *)
Inductive Reply : Type :=
| Answer (response : RtkResponse)
| ExitProcess (code : Z).

(** [emit]: no result leaves without its schema. *)
Definition emit (id : jstr) (result : json) (op : RtkOp) : RtkResponse :=
  match RESULT_SCHEMAS op result with
  | None => if bool_decide (op = OpSimulateCrash) then ResponseOk id (Some result) else ResponseError id (internalError (js "result failed schema"))
  | Some _ => ResponseOk id (Some result)
  end.

(** [writeChecked]: the frame that is written. *)
Definition writeChecked (r : RtkResponse) : jstr :=
  encodeFrame (match responseSchema (json_of_response r) with
    | Some _ => json_of_response r
    | None => json_of_response (ResponseError UNKNOWN_ID (internalError (js "outgoing frame failed response schema")))
    end).

(** The message of an error other than a schema error, which has issues instead. *)
Definition error_message (e : RtkError) : jstr :=
  match e with InvalidParams => [] | Failed message => message | PageError e => page_error_text e end.

Record Server := mkServer { sv_engine : RtkState; sv_linesSeen : Z; sv_frames : list jstr; sv_exit : option Z }.

Section Server.
Context (sha256Hex : bytes → jstr) (dataDir : jstr) (maxStorageBytes : Z) (pid : Z) (testMode : bool).
Context (uuid : Z → jstr) (uptimeMs : Z → Z) (issues : RtkOp → option json → list jstr).

(** The operations of the engine on parameters as they arrive. *)
Definition engine_compress (st : RtkState) (params : option json) (id : jstr) : RtkState * result RtkError CompressResult :=
  match params ≫= compressParamsSchema with
  | Some p => RtkEngine.compress sha256Hex dataDir maxStorageBytes st p id
  | None => (st, Throw InvalidParams)
  end.
Definition engine_fetch (st : RtkState) (params : option json) : result RtkError (option TextPage) :=
  match params ≫= fetchParamsSchema with
  | Some p => RtkEngine.fetch sha256Hex dataDir (rk_refs (rs_store st)) (rk_files (rs_store st)) (rk_files (rs_store st)) p
  | None => Throw InvalidParams
  end.

(** The [catch] of the dispatch. *)
Definition failure_of (op : RtkOp) (params : option json) (e : RtkError) : ProtocolError :=
  match e with
  | InvalidParams => mkPE E_INVALID_PARAMS (js "params failed schema validation") (Some (JArr (map JStr (issues op params))))
  | _ => internalError (error_message e)
  end.

Definition dispatch (st : RtkState) (lineNo : Z) (id : jstr) (op : RtkOp) (params : option json) : RtkState * Reply :=
  match op with
  | OpPing => (st, Answer (emit id (JObj [(js "pong", JBool true); (js "uptimeMs", JNum (NInt (uptimeMs lineNo)))]) OpPing))
  | OpStats => (st, Answer (emit id (json_of_stats (rs_stats st) (uptimeMs lineNo)) OpStats))
  | OpCompress =>
    match engine_compress st params (uuid lineNo) with
    | (st', Ok r) => (st', Answer (emit id (json_of_result r) OpCompress))
    | (st', Throw e) => (st', Answer (ResponseError id (failure_of OpCompress params e)))
    end
  | OpFetch =>
    match engine_fetch st params with
    | Ok page => (st, Answer (emit id (json_of_page page) OpFetch))
    | Throw e => (st, Answer (ResponseError id (failure_of OpFetch params e)))
    end
  | OpSimulateCrash =>
    if testMode then (st, ExitProcess 137)
    else (st, Answer (ResponseError id (mkPE E_PROTOCOL (js "simulateCrash requires BLUECODE_TEST=1 (test-only op)") None)))
  end.

Definition protocol_error (lineNo : Z) (message : jstr) : Reply :=
  Answer (ResponseError UNKNOWN_ID (mkPE E_PROTOCOL message (Some (JObj [(js "line", JNum (NInt lineNo))])))).

Definition answer_line (st : RtkState) (lineNo : Z) (line : jstr) : RtkState * Reply :=
  match trim line with
  | [] => (st, protocol_error lineNo (js "empty line is not a valid frame"))
  | _ =>
    match parse line with
    | None => (st, protocol_error lineNo (js "frame is not valid JSON"))
    | Some parsed =>
      match ENVELOPE_PRE_SCHEMA parsed with
      | None => (st, protocol_error lineNo (js "malformed request envelope (expected {v:3,id,op,params})"))
      | Some (id, op, params) =>
        match rtkOpSchema (JStr op) with
        | None => (st, Answer (ResponseError id (mkPE E_UNKNOWN_OP (js "unknown op " ++ quote op) None)))
        | Some op => dispatch st lineNo id op params
        end
      end
    end
  end.

(** ** The process *)

Definition startServer (st : RtkStore) : Server :=
  mkServer (mkState (createEngine dataDir st) createPipelineStats) 0
    [encodeFrame (JObj [(js "proto", JNum (NInt PROTOCOL_VERSION)); (js "pid", JNum (NInt pid))])] None.

Definition perform (sv : Server) (st : RtkState) (lineNo : Z) (reply : Reply) : Server :=
  match reply with
  | Answer r => mkServer st lineNo (sv_frames sv ++ [writeChecked r]) (sv_exit sv)
  | ExitProcess code => mkServer st lineNo (sv_frames sv) (Some code)
  end.
Definition handleLine (sv : Server) (line : jstr) : Server :=
  match sv_exit sv with
  | Some _ => sv
  | None =>
    let lineNo := sv_linesSeen sv + 1 in
    let '(st, reply) := answer_line (sv_engine sv) lineNo line in perform sv st lineNo reply
  end.
Definition abortProtocol (sv : Server) (message : jstr) : Server :=
  mkServer (sv_engine sv) (sv_linesSeen sv)
    (sv_frames sv ++ [writeChecked (ResponseError UNKNOWN_ID (mkPE E_PROTOCOL message (Some (JObj [(js "fatal", JBool true)]))))]) (sv_exit sv).
Definition exit_process (code : Z) (sv : Server) : Server :=
  match sv_exit sv with Some _ => sv | None => mkServer (sv_engine sv) (sv_linesSeen sv) (sv_frames sv) (Some code) end.

(** [bin.ts]: the chunks of stdin as [TextDecoder] yields them. *)
Record Bin := mkBin { bn_server : Server; bn_recon : recon }.
Section Bin.
Context (maxFrameBytes : Z).
Definition overflow_message : jstr := js "frame exceeded " ++ dec maxFrameBytes ++ js " bytes without a newline".

Definition on_chunk (b : Bin) (chunk : jstr) : Bin :=
  match sv_exit (bn_server b) with
  | Some _ => b
  | None =>
    match push maxFrameBytes (bn_recon b) chunk with
    | (recon, Lines lines) => mkBin (foldl handleLine (bn_server b) lines) recon
    | (recon, FrameOverflow _) => mkBin (exit_process 0 (abortProtocol (bn_server b) overflow_message)) recon
    end
  end.
(** [tail] is what the final [decode()] still holds; an overflow here is not caught. *)
Definition on_eof (b : Bin) (tail : jstr) : Bin :=
  match sv_exit (bn_server b) with
  | Some _ => b
  | None =>
    match push maxFrameBytes (bn_recon b) tail with
    | (recon, Lines lines) =>
      let '(recon, rest) := flush recon in
      mkBin (exit_process 0 (foldl handleLine (foldl handleLine (bn_server b) lines) rest)) recon
    | (recon, FrameOverflow _) => mkBin (exit_process 1 (bn_server b)) recon
    end
  end.
Definition run_bin (st : RtkStore) (chunks : list jstr) : Bin := foldl on_chunk (mkBin (startServer st) reset) chunks.
End Bin.
End Server.

(** ** What a line is answered with *)

(** The request on a line, when there is one. *)
Definition request_of (line : jstr) : option (jstr * jstr * option json) :=
  match trim line with [] => None | _ => parse line ≫= ENVELOPE_PRE_SCHEMA end.
Definition reply_id (line : jstr) : jstr := match request_of line with Some (id, _, _) => id | None => UNKNOWN_ID end.
(** A reply carries the id of its request, and a result only one that satisfies
    the schema of the operation asked for. *)
Record answers (line : jstr) (r : RtkResponse) : Prop := {
  an_id : response_id r = reply_id line;
  an_result : ∀ id v, r = ResponseOk id v → ∃ op params w, request_of line = Some (id, op_name op, params) ∧ v = Some w ∧ is_Some (RESULT_SCHEMAS op w) }.

Lemma op_named (s : jstr) op : rtkOpSchema (JStr s) = Some op → s = op_name op.
Proof.
  unfold rtkOpSchema, enum_of. cbn [str_of mbind option_bind]. intros H. apply List.find_some in H as [_ H]. by apply jeqb_eq.
Qed.

Lemma envelope_id v id op params : ENVELOPE_PRE_SCHEMA v = Some (id, op, params) → id ≠ [].
Proof.
  unfold ENVELOPE_PRE_SCHEMA. intros H. do 2 (apply bind_Some in H as (? & _ & H)). apply bind_Some in H as (i & Hi & H). apply bind_Some in H as (o & _ & [= <- _ _]).
  unfold req in Hi. apply bind_Some in Hi as (w & _ & Hi). unfold id_of in Hi. apply bind_Some in Hi as (s & _ & Hi). by destruct s; [|injection Hi as <-].
Qed.

Lemma reply_id_ne line : reply_id line ≠ [].
Proof.
  unfold reply_id, request_of. destruct (trim line); [done|]. destruct (parse line ≫= _) as [[[id op] params]|] eqn:E; [|done].
  apply bind_Some in E as (v & _ & E). by apply envelope_id in E.
Qed.

Lemma writeChecked_reply line r : answers line r → writeChecked r = encodeFrame (json_of_response r).
Proof.
  intros [Hid _]. unfold writeChecked. rewrite response_read; [done|]. rewrite Hid. apply reply_id_ne.
Qed.

Lemma emit_answers line id r op params : request_of line = Some (id, op_name op, params) → op ≠ OpSimulateCrash → answers line (emit id r op).
Proof.
  intros Hr Hop. unfold emit. destruct (RESULT_SCHEMAS op r) as [x|] eqn:Es; [|rewrite bool_decide_false by done]; (constructor; [unfold reply_id; by rewrite Hr|]).
  - intros id' v [= <- <-]. exists op, params, r. by rewrite Es.
  - done.
Qed.

Lemma error_answers line e : answers line (ResponseError (reply_id line) e).
Proof. by constructor. Qed.

Section ServerProofs.
Context (sha256Hex : bytes → jstr) (dataDir : jstr) (maxStorageBytes : Z) (pid : Z).
Context (uuid : Z → jstr) (uptimeMs : Z → Z) (issues : RtkOp → option json → list jstr).
#[local] Abbreviation answer_now := (answer_line sha256Hex dataDir maxStorageBytes false uuid uptimeMs issues).
#[local] Abbreviation handle := (handleLine sha256Hex dataDir maxStorageBytes false uuid uptimeMs issues).
#[local] Abbreviation receive := (on_chunk sha256Hex dataDir maxStorageBytes false uuid uptimeMs issues).

Lemma answer_line_ok st n line : ∃ st' r, answer_now st n line = (st', Answer r) ∧ answers line r.
Proof.
  unfold answer_line. pose proof (error_answers line) as He. unfold reply_id in He.
  destruct (request_of line) as [[[id op] params]|] eqn:Hr; unfold request_of in *.
  - destruct (trim line) as [|c s] eqn:Et; [done|]. apply bind_Some in Hr as (v & Ep & Ev). rewrite Ep, Ev.
    destruct (rtkOpSchema (JStr op)) as [o|] eqn:Eo; [|eexists; eexists; split; [reflexivity|apply He]].
    assert (request_of line = Some (id, op_name o, params)) as Hreq by (unfold request_of; rewrite Et, Ep; cbn; by rewrite Ev, (op_named _ _ Eo)).
    destruct o; cbn [dispatch].
    + destruct (engine_compress _ _ _ _ _ _) as [st' [r|e]]; eexists; eexists; (split; [reflexivity|]); [by eapply emit_answers|apply He].
    + destruct (engine_fetch _ _ _ _) as [r|e]; eexists; eexists; (split; [reflexivity|]); [by eapply emit_answers|apply He].
    + eexists; eexists; (split; [reflexivity|]). by eapply emit_answers.
    + eexists; eexists; (split; [reflexivity|]). by eapply emit_answers.
    + eexists; eexists; (split; [reflexivity|]). apply He.
  - destruct (trim line) as [|c s] eqn:Et; [eexists; eexists; split; [reflexivity|apply He]|].
    destruct (parse line) as [v|]; [|eexists; eexists; split; [reflexivity|apply He]]. cbn in Hr. rewrite Hr.
    eexists; eexists; split; [reflexivity|apply He].
Qed.

Lemma lines_answered lines : ∀ sv, sv_exit sv = None → ∃ rs, Forall2 answers lines rs
  ∧ sv_exit (foldl handle sv lines) = None ∧ sv_linesSeen (foldl handle sv lines) = sv_linesSeen sv + zlen lines
  ∧ sv_frames (foldl handle sv lines) = sv_frames sv ++ map (λ r, encodeFrame (json_of_response r)) rs.
Proof.
  induction lines as [|line lines IH]; intros sv He; cbn [foldl].
  { exists []. split_and!; [constructor|done|cbn; lia|by rewrite app_nil_r]. }
  destruct (answer_line_ok (sv_engine sv) (sv_linesSeen sv + 1) line) as (st & r & Ha & Hr).
  assert (handle sv line = mkServer st (sv_linesSeen sv + 1) (sv_frames sv ++ [encodeFrame (json_of_response r)]) None) as ->.
  { unfold handleLine. rewrite He. cbv zeta. rewrite Ha. cbn [perform]. by rewrite (writeChecked_reply _ _ Hr), He. }
  destruct (IH (mkServer st (sv_linesSeen sv + 1) (sv_frames sv ++ [encodeFrame (json_of_response r)]) None) eq_refl) as (rs & H1 & H2 & H3 & H4).
  exists (r :: rs). cbn [sv_linesSeen sv_frames] in *. split_and!; [by constructor|done|rewrite H3; cbn [length]; lia|]. rewrite H4, <- app_assoc. done.
Qed.

Lemma chunks_served max chunks : ∀ b r lines, sv_exit (bn_server b) = None → feed max (bn_recon b) chunks = (r, Lines lines) →
  foldl (receive max) b chunks = mkBin (foldl handle (bn_server b) lines) r.
Proof.
  induction chunks as [|c cs IH]; intros b r lines He Hf; cbn [feed foldl] in *.
  { injection Hf as <- <-. by destruct b. }
  destruct (push max (bn_recon b) c) as [r1 [l1|l1]] eqn:Ep; [|done]. destruct (feed max r1 cs) as [r2 [l2|l2]] eqn:Ef; [|done]. injection Hf as <- <-.
  rewrite foldl_app. assert (receive max b c = mkBin (foldl handle (bn_server b) l1) r1) as -> by (unfold on_chunk; by rewrite He, Ep).
  apply (IH (mkBin _ _)); [|done]. cbn [bn_server]. by destruct (lines_answered l1 (bn_server b) He) as (_ & _ & ? & _).
Qed.

(** C29: the server answers every line, and only in its protocol.  Outside of the
    test mode, for any bytes on stdin cut into any chunks, as long as no line is
    beyond the frame limit, the process keeps serving and has written its
    handshake and then exactly one response for each complete line, in order:
    a response with the id of the request, or the unknown id when the line holds
    none, that reports success only with a result that satisfies the schema of
    the operation. *)
Theorem rtk_server_answers maxFrameBytes st chunks :
  0 <= maxFrameBytes → fits maxFrameBytes (concat chunks) →
  let b := run_bin sha256Hex dataDir maxStorageBytes pid false uuid uptimeMs issues maxFrameBytes st chunks in
  sv_exit (bn_server b) = None ∧ sv_linesSeen (bn_server b) = zlen (complete_lines (concat chunks))
  ∧ ∃ responses, Forall2 answers (complete_lines (concat chunks)) responses
    ∧ sv_frames (bn_server b) = sv_frames (startServer dataDir pid st) ++ map (λ r, encodeFrame (json_of_response r)) responses
    ∧ Forall (λ r, responseSchema (json_of_response r) = Some r) responses.
Proof.
  intros Hmax Hf b. destruct (feed_fits maxFrameBytes chunks reset Hmax (reset_buffering _ Hmax) Hf) as (r & Hfeed & _).
  change (text_of reset ++ concat chunks) with (concat chunks) in Hfeed. unfold b, run_bin.
  rewrite (chunks_served maxFrameBytes chunks (mkBin (startServer dataDir pid st) reset) r _ eq_refl Hfeed).
  destruct (lines_answered (complete_lines (concat chunks)) (startServer dataDir pid st) eq_refl) as (rs & H1 & H2 & H3 & H4).
  split; [exact H2|]. split; [exact H3|]. exists rs. split; [exact H1|]. split; [exact H4|].
  clear -H1. induction H1 as [|l r ls rs [Hid _] _ IH]; constructor; [|exact IH]. apply response_read. rewrite Hid. apply reply_id_ne.
Qed.
End ServerProofs.

Definition demo_sha (content : bytes) : jstr := repeat 48 64.
Definition demo_line : jstr := js "{" ++ quote (js "v") ++ js ":3," ++ quote (js "id") ++ js ":" ++ quote (js "r1") ++ js "," ++ quote (js "op") ++ js ":" ++ quote (js "ping") ++ js "}".
Lemma demo_fits : fits 64 (demo_line ++ [10] ++ js "oops" ++ [10]).
Proof. decide_now. Qed.
Lemma rtk_server_answers_witness :
  complete_lines (concat [demo_line; [10] ++ js "oops" ++ [10]]) = [demo_line; js "oops"]
  ∧ sv_linesSeen (bn_server (run_bin demo_sha (js "/d") 100 7 false (λ _, js "u") (λ n, n) (λ _ _, []) 64 empty_rtk [demo_line; [10] ++ js "oops" ++ [10]])) = 2.
Proof.
  split; [vm_compute; reflexivity|].
  exact (proj1 (proj2 (rtk_server_answers demo_sha (js "/d") 100 7 (λ _, js "u") (λ n, n) (λ _ _, []) 64 empty_rtk [demo_line; [10] ++ js "oops" ++ [10]] ltac:(lia) demo_fits))).
Defined.

(** A chunk that ends complete lines and then exceeds the frame limit: the
    complete lines are lost, unlike in the client, which hands them on. *)
Example overflow_loses_lines :
  let b := run_bin demo_sha (js "/d") 100 7 false (λ _, js "u") (λ n, n) (λ _ _, []) 64 empty_rtk [demo_line ++ [10] ++ repeat 97 65] in
  sv_exit (bn_server b) = Some 0 ∧ sv_linesSeen (bn_server b) = 0 ∧ length (sv_frames (bn_server b)) = 2%nat.
Proof. vm_compute. auto. Qed.
