(* ===== verification/RtkClient.v ===== *)
(** * The rtk client ([packages/rtk/src/client.ts])

    [RtkClient] keeps one server process alive and exchanges one request at a
    time with it: a bounded queue, a timer for each request, a breaker with
    probes behind a bounded number of restarts.  The class is a state machine
    here.  One event is one turn of the event loop: a call, a timer, a chunk of
    stdout, the exit of a child; the microtasks it schedules (the continuation
    of the handshake, [drainQueue]) run before the next one.  Children are
    named by the number of the spawn.  [cl_log] is what can be observed:
    requests, frames in both directions, signals and settled promises.

    The ids of requests, the clock, the failures of [spawn] and [write] and
    every byte a child prints come from outside and are arbitrary.  A pending
    request always has its timer, so the timer is not kept besides; stderr is
    diagnostics only and is left out. *)

From stdpp Require Import base tactics list numbers option sets strings relations.
From S2P Require Import Prelude JsString JsRegex Json Paging Codec Jsonl Ansi CLine Budget StratBasic OMap Classify Pipeline Chat Objects Cas RtkEngine RtkWire.

(** ** Data *)

Definition RESTART_BACKOFF_MS : Z := 250.
Definition LATE_REPLY_RING : nat := 64.
Definition MAX_PENDING : nat := 32.
Definition MAX_QUEUED_BYTES : Z := 8 * 1024 * 1024.

Inductive PendingFailure : Type := FTimeout | FCrash | FProtocol (message : jstr) | FUnready | FOverloaded.
(** What the promise of a request is rejected with. *)
Inductive Rejection : Type :=
| Failure (f : PendingFailure)
| RtkServerError (error : ProtocolError)
| PlainError (message : jstr).
Definition Settlement : Type := OpResult + Rejection.

(** [pd_proc] and [pd_bytes] are variables of the closures. *)
Record PendingRequest := mkPending { pd_op : RtkOp; pd_bytes : Z; pd_proc : nat }.
Record Job := mkJob { jb_id : jstr; jb_frame : jstr; jb_deadline : Z; jb_proc : nat }.

(** Who waits for [spawnAndGreet], and whether the child is being terminated. *)
Inductive Origin : Type := FromCreate | FromRestart | FromProbe.
#[export] Instance Origin_dec : EqDecision Origin.
Proof. solve_decision. Defined.
Record Spawn := mkSpawn { sp_proc : nat; sp_terminating : bool; sp_origin : Origin }.

Inductive Signal : Type := SIGTERM | SIGKILL.
Inductive Effect : Type :=
| Requested (id : jstr) (op : RtkOp)
| Sent (proc : nat) (frame : jstr)
| Received (line : jstr)
| Settled (id : jstr) (s : Settlement)
| Spawned (proc : nat)
| Killed (proc : nat) (signal : Signal).

(** [cl_restartTimer] is the delay of an armed timer; [cl_hello] is the state of
    the deferred of the current child: pending, or what it was settled with. *)
Record Client := mkClient {
  cl_proc : option nat;
  cl_ready : bool;
  cl_helloPid : option Z;
  cl_shuttingDown : bool;
  cl_spawn : option Spawn;
  cl_breakerOpen : bool;
  cl_restartAttempt : Z;
  cl_restartTimer : option Z;
  cl_probeTimer : bool;
  cl_protocolStreak : Z;
  cl_lateReplyIds : list jstr;
  cl_pending : list (jstr * PendingRequest);
  cl_queuedBytes : Z;
  cl_queue : list Job;
  cl_inFlightId : option jstr;
  cl_stalledTimer : option (nat * jstr);
  cl_spawns : nat;
  cl_recoveries : Z;
  cl_helloDone : bool;
  cl_hello : option (option Z);
  cl_recon : recon;
  cl_log : list Effect }.

Definition set_proc (v : option nat) (c : Client) : Client := mkClient v (cl_ready c) (cl_helloPid c) (cl_shuttingDown c) (cl_spawn c) (cl_breakerOpen c) (cl_restartAttempt c) (cl_restartTimer c) (cl_probeTimer c) (cl_protocolStreak c) (cl_lateReplyIds c) (cl_pending c) (cl_queuedBytes c) (cl_queue c) (cl_inFlightId c) (cl_stalledTimer c) (cl_spawns c) (cl_recoveries c) (cl_helloDone c) (cl_hello c) (cl_recon c) (cl_log c).
Definition set_ready (v : bool) (c : Client) : Client := mkClient (cl_proc c) v (cl_helloPid c) (cl_shuttingDown c) (cl_spawn c) (cl_breakerOpen c) (cl_restartAttempt c) (cl_restartTimer c) (cl_probeTimer c) (cl_protocolStreak c) (cl_lateReplyIds c) (cl_pending c) (cl_queuedBytes c) (cl_queue c) (cl_inFlightId c) (cl_stalledTimer c) (cl_spawns c) (cl_recoveries c) (cl_helloDone c) (cl_hello c) (cl_recon c) (cl_log c).
Definition set_helloPid (v : option Z) (c : Client) : Client := mkClient (cl_proc c) (cl_ready c) v (cl_shuttingDown c) (cl_spawn c) (cl_breakerOpen c) (cl_restartAttempt c) (cl_restartTimer c) (cl_probeTimer c) (cl_protocolStreak c) (cl_lateReplyIds c) (cl_pending c) (cl_queuedBytes c) (cl_queue c) (cl_inFlightId c) (cl_stalledTimer c) (cl_spawns c) (cl_recoveries c) (cl_helloDone c) (cl_hello c) (cl_recon c) (cl_log c).
Definition set_shuttingDown (v : bool) (c : Client) : Client := mkClient (cl_proc c) (cl_ready c) (cl_helloPid c) v (cl_spawn c) (cl_breakerOpen c) (cl_restartAttempt c) (cl_restartTimer c) (cl_probeTimer c) (cl_protocolStreak c) (cl_lateReplyIds c) (cl_pending c) (cl_queuedBytes c) (cl_queue c) (cl_inFlightId c) (cl_stalledTimer c) (cl_spawns c) (cl_recoveries c) (cl_helloDone c) (cl_hello c) (cl_recon c) (cl_log c).
Definition set_spawn (v : option Spawn) (c : Client) : Client := mkClient (cl_proc c) (cl_ready c) (cl_helloPid c) (cl_shuttingDown c) v (cl_breakerOpen c) (cl_restartAttempt c) (cl_restartTimer c) (cl_probeTimer c) (cl_protocolStreak c) (cl_lateReplyIds c) (cl_pending c) (cl_queuedBytes c) (cl_queue c) (cl_inFlightId c) (cl_stalledTimer c) (cl_spawns c) (cl_recoveries c) (cl_helloDone c) (cl_hello c) (cl_recon c) (cl_log c).
Definition set_breakerOpen (v : bool) (c : Client) : Client := mkClient (cl_proc c) (cl_ready c) (cl_helloPid c) (cl_shuttingDown c) (cl_spawn c) v (cl_restartAttempt c) (cl_restartTimer c) (cl_probeTimer c) (cl_protocolStreak c) (cl_lateReplyIds c) (cl_pending c) (cl_queuedBytes c) (cl_queue c) (cl_inFlightId c) (cl_stalledTimer c) (cl_spawns c) (cl_recoveries c) (cl_helloDone c) (cl_hello c) (cl_recon c) (cl_log c).
Definition set_restartAttempt (v : Z) (c : Client) : Client := mkClient (cl_proc c) (cl_ready c) (cl_helloPid c) (cl_shuttingDown c) (cl_spawn c) (cl_breakerOpen c) v (cl_restartTimer c) (cl_probeTimer c) (cl_protocolStreak c) (cl_lateReplyIds c) (cl_pending c) (cl_queuedBytes c) (cl_queue c) (cl_inFlightId c) (cl_stalledTimer c) (cl_spawns c) (cl_recoveries c) (cl_helloDone c) (cl_hello c) (cl_recon c) (cl_log c).
Definition set_restartTimer (v : option Z) (c : Client) : Client := mkClient (cl_proc c) (cl_ready c) (cl_helloPid c) (cl_shuttingDown c) (cl_spawn c) (cl_breakerOpen c) (cl_restartAttempt c) v (cl_probeTimer c) (cl_protocolStreak c) (cl_lateReplyIds c) (cl_pending c) (cl_queuedBytes c) (cl_queue c) (cl_inFlightId c) (cl_stalledTimer c) (cl_spawns c) (cl_recoveries c) (cl_helloDone c) (cl_hello c) (cl_recon c) (cl_log c).
Definition set_probeTimer (v : bool) (c : Client) : Client := mkClient (cl_proc c) (cl_ready c) (cl_helloPid c) (cl_shuttingDown c) (cl_spawn c) (cl_breakerOpen c) (cl_restartAttempt c) (cl_restartTimer c) v (cl_protocolStreak c) (cl_lateReplyIds c) (cl_pending c) (cl_queuedBytes c) (cl_queue c) (cl_inFlightId c) (cl_stalledTimer c) (cl_spawns c) (cl_recoveries c) (cl_helloDone c) (cl_hello c) (cl_recon c) (cl_log c).
Definition set_protocolStreak (v : Z) (c : Client) : Client := mkClient (cl_proc c) (cl_ready c) (cl_helloPid c) (cl_shuttingDown c) (cl_spawn c) (cl_breakerOpen c) (cl_restartAttempt c) (cl_restartTimer c) (cl_probeTimer c) v (cl_lateReplyIds c) (cl_pending c) (cl_queuedBytes c) (cl_queue c) (cl_inFlightId c) (cl_stalledTimer c) (cl_spawns c) (cl_recoveries c) (cl_helloDone c) (cl_hello c) (cl_recon c) (cl_log c).
Definition set_lateReplyIds (v : list jstr) (c : Client) : Client := mkClient (cl_proc c) (cl_ready c) (cl_helloPid c) (cl_shuttingDown c) (cl_spawn c) (cl_breakerOpen c) (cl_restartAttempt c) (cl_restartTimer c) (cl_probeTimer c) (cl_protocolStreak c) v (cl_pending c) (cl_queuedBytes c) (cl_queue c) (cl_inFlightId c) (cl_stalledTimer c) (cl_spawns c) (cl_recoveries c) (cl_helloDone c) (cl_hello c) (cl_recon c) (cl_log c).
Definition set_pending (v : list (jstr * PendingRequest)) (c : Client) : Client := mkClient (cl_proc c) (cl_ready c) (cl_helloPid c) (cl_shuttingDown c) (cl_spawn c) (cl_breakerOpen c) (cl_restartAttempt c) (cl_restartTimer c) (cl_probeTimer c) (cl_protocolStreak c) (cl_lateReplyIds c) v (cl_queuedBytes c) (cl_queue c) (cl_inFlightId c) (cl_stalledTimer c) (cl_spawns c) (cl_recoveries c) (cl_helloDone c) (cl_hello c) (cl_recon c) (cl_log c).
Definition set_queuedBytes (v : Z) (c : Client) : Client := mkClient (cl_proc c) (cl_ready c) (cl_helloPid c) (cl_shuttingDown c) (cl_spawn c) (cl_breakerOpen c) (cl_restartAttempt c) (cl_restartTimer c) (cl_probeTimer c) (cl_protocolStreak c) (cl_lateReplyIds c) (cl_pending c) v (cl_queue c) (cl_inFlightId c) (cl_stalledTimer c) (cl_spawns c) (cl_recoveries c) (cl_helloDone c) (cl_hello c) (cl_recon c) (cl_log c).
Definition set_queue (v : list Job) (c : Client) : Client := mkClient (cl_proc c) (cl_ready c) (cl_helloPid c) (cl_shuttingDown c) (cl_spawn c) (cl_breakerOpen c) (cl_restartAttempt c) (cl_restartTimer c) (cl_probeTimer c) (cl_protocolStreak c) (cl_lateReplyIds c) (cl_pending c) (cl_queuedBytes c) v (cl_inFlightId c) (cl_stalledTimer c) (cl_spawns c) (cl_recoveries c) (cl_helloDone c) (cl_hello c) (cl_recon c) (cl_log c).
Definition set_inFlightId (v : option jstr) (c : Client) : Client := mkClient (cl_proc c) (cl_ready c) (cl_helloPid c) (cl_shuttingDown c) (cl_spawn c) (cl_breakerOpen c) (cl_restartAttempt c) (cl_restartTimer c) (cl_probeTimer c) (cl_protocolStreak c) (cl_lateReplyIds c) (cl_pending c) (cl_queuedBytes c) (cl_queue c) v (cl_stalledTimer c) (cl_spawns c) (cl_recoveries c) (cl_helloDone c) (cl_hello c) (cl_recon c) (cl_log c).
Definition set_stalledTimer (v : option (nat * jstr)) (c : Client) : Client := mkClient (cl_proc c) (cl_ready c) (cl_helloPid c) (cl_shuttingDown c) (cl_spawn c) (cl_breakerOpen c) (cl_restartAttempt c) (cl_restartTimer c) (cl_probeTimer c) (cl_protocolStreak c) (cl_lateReplyIds c) (cl_pending c) (cl_queuedBytes c) (cl_queue c) (cl_inFlightId c) v (cl_spawns c) (cl_recoveries c) (cl_helloDone c) (cl_hello c) (cl_recon c) (cl_log c).
Definition set_spawns (v : nat) (c : Client) : Client := mkClient (cl_proc c) (cl_ready c) (cl_helloPid c) (cl_shuttingDown c) (cl_spawn c) (cl_breakerOpen c) (cl_restartAttempt c) (cl_restartTimer c) (cl_probeTimer c) (cl_protocolStreak c) (cl_lateReplyIds c) (cl_pending c) (cl_queuedBytes c) (cl_queue c) (cl_inFlightId c) (cl_stalledTimer c) v (cl_recoveries c) (cl_helloDone c) (cl_hello c) (cl_recon c) (cl_log c).
Definition set_recoveries (v : Z) (c : Client) : Client := mkClient (cl_proc c) (cl_ready c) (cl_helloPid c) (cl_shuttingDown c) (cl_spawn c) (cl_breakerOpen c) (cl_restartAttempt c) (cl_restartTimer c) (cl_probeTimer c) (cl_protocolStreak c) (cl_lateReplyIds c) (cl_pending c) (cl_queuedBytes c) (cl_queue c) (cl_inFlightId c) (cl_stalledTimer c) (cl_spawns c) v (cl_helloDone c) (cl_hello c) (cl_recon c) (cl_log c).
Definition set_helloDone (v : bool) (c : Client) : Client := mkClient (cl_proc c) (cl_ready c) (cl_helloPid c) (cl_shuttingDown c) (cl_spawn c) (cl_breakerOpen c) (cl_restartAttempt c) (cl_restartTimer c) (cl_probeTimer c) (cl_protocolStreak c) (cl_lateReplyIds c) (cl_pending c) (cl_queuedBytes c) (cl_queue c) (cl_inFlightId c) (cl_stalledTimer c) (cl_spawns c) (cl_recoveries c) v (cl_hello c) (cl_recon c) (cl_log c).
Definition set_hello (v : option (option Z)) (c : Client) : Client := mkClient (cl_proc c) (cl_ready c) (cl_helloPid c) (cl_shuttingDown c) (cl_spawn c) (cl_breakerOpen c) (cl_restartAttempt c) (cl_restartTimer c) (cl_probeTimer c) (cl_protocolStreak c) (cl_lateReplyIds c) (cl_pending c) (cl_queuedBytes c) (cl_queue c) (cl_inFlightId c) (cl_stalledTimer c) (cl_spawns c) (cl_recoveries c) (cl_helloDone c) v (cl_recon c) (cl_log c).
Definition set_recon (v : recon) (c : Client) : Client := mkClient (cl_proc c) (cl_ready c) (cl_helloPid c) (cl_shuttingDown c) (cl_spawn c) (cl_breakerOpen c) (cl_restartAttempt c) (cl_restartTimer c) (cl_probeTimer c) (cl_protocolStreak c) (cl_lateReplyIds c) (cl_pending c) (cl_queuedBytes c) (cl_queue c) (cl_inFlightId c) (cl_stalledTimer c) (cl_spawns c) (cl_recoveries c) (cl_helloDone c) (cl_hello c) v (cl_log c).
Definition set_log (v : list Effect) (c : Client) : Client := mkClient (cl_proc c) (cl_ready c) (cl_helloPid c) (cl_shuttingDown c) (cl_spawn c) (cl_breakerOpen c) (cl_restartAttempt c) (cl_restartTimer c) (cl_probeTimer c) (cl_protocolStreak c) (cl_lateReplyIds c) (cl_pending c) (cl_queuedBytes c) (cl_queue c) (cl_inFlightId c) (cl_stalledTimer c) (cl_spawns c) (cl_recoveries c) (cl_helloDone c) (cl_hello c) (cl_recon c) v.

Definition new_client : Client :=
  mkClient None false None false None false 0 None false 0 [] [] 0 [] None None 0 0 false None reset [].
Definition note (e : Effect) (c : Client) : Client := set_log (cl_log c ++ [e]) c.

(** ** Requests *)

(** [settle]: once; later calls find nothing to delete. *)
Definition without_job (id : jstr) (q : list Job) : list Job :=
  match list_find (λ j, jb_id j = id) q with Some (i, _) => delete i q | None => q end.
Definition settle (id : jstr) (s : Settlement) (c : Client) : Client :=
  match get id (cl_pending c) with
  | None => c
  | Some p =>
    note (Settled id s)
      (set_queue (without_job id (cl_queue c)) (set_queuedBytes (cl_queuedBytes c - pd_bytes p) (set_pending (delete_key id (cl_pending c)) c)))
  end.
Definition reject (id : jstr) (r : Rejection) : Client → Client := settle id (inr r).

Section Client.
Context (maxRestartAttempts maxFrameBytes : Z) (write_fails : nat → jstr → bool).

Definition usable (c : Client) (p : nat) : bool := bool_decide (cl_proc c = Some p) && cl_ready c && negb (cl_shuttingDown c).

(** [drainQueue] with the microtasks a failing write schedules: it is called
    again, with nothing in flight. *)
Fixpoint drain_loop (fuel : nat) (now : Z) (c : Client) : Client :=
  match fuel, cl_inFlightId c, cl_queue c with
  | S fuel, None, job :: rest =>
    let c := set_queue rest c in
    if negb (has (jb_id job) (cl_pending c)) then drain_loop fuel now c
    else if jb_deadline job <=? now then drain_loop fuel now (reject (jb_id job) (Failure FTimeout) c)
    else if negb (usable c (jb_proc job)) then drain_loop fuel now (reject (jb_id job) (Failure FUnready) c)
    else if write_fails (jb_proc job) (jb_frame job) then drain_loop fuel now (reject (jb_id job) (Failure FCrash) c)
    else note (Sent (jb_proc job) (jb_frame job)) (set_inFlightId (Some (jb_id job)) c)
  | _, _, _ => c
  end.
Definition drainQueue (now : Z) (c : Client) : Client := drain_loop (length (cl_queue c)) now c.

Definition enqueue (id : jstr) (op : RtkOp) (frame : jstr) (deadline : Z) (p : nat) (c : Client) : Client :=
  let bytes := byte_length frame in
  let c := set_queuedBytes (cl_queuedBytes c + bytes) c in
  let c := set_pending (set_key id (mkPending op bytes p) (cl_pending c)) c in
  set_queue (cl_queue c ++ [mkJob id frame deadline p]) c.
Definition request (op : RtkOp) (params : json) (id : jstr) (timeoutMs now : Z) (c : Client) : Client :=
  let c := note (Requested id op) c in
  if cl_shuttingDown c then note (Settled id (inr (PlainError (js "RtkClient is shut down")))) c
  else match cl_ready c, cl_proc c, cl_breakerOpen c, cl_spawn c with
  | true, Some p, false, None =>
    let frame := encodeFrame (json_of_request id op params) in
    let bytes := byte_length frame in
    if (MAX_PENDING <=? length (cl_pending c))%nat || (MAX_QUEUED_BYTES <? cl_queuedBytes c + bytes)
    then note (Settled id (inr (Failure FOverloaded))) c
    else drainQueue now (enqueue id op frame (now + timeoutMs) p c)
  | _, _, _, _ => note (Settled id (inr (Failure FUnready))) c
  end.

Definition rememberLateReply (id : jstr) (c : Client) : Client :=
  let ids := if bool_decide (id ∈ cl_lateReplyIds c) then cl_lateReplyIds c else cl_lateReplyIds c ++ [id] in
  set_lateReplyIds (if (LATE_REPLY_RING <? length ids)%nat then tail ids else ids) c.

(** The timer of a request. *)
Definition timed_out (id : jstr) (p : PendingRequest) (c : Client) : Client :=
  reject id (Failure FTimeout)
    (if bool_decide (cl_inFlightId c = Some id) then set_stalledTimer (Some (pd_proc p, id)) (rememberLateReply id c) else c).
Definition on_timer (id : jstr) (now : Z) (c : Client) : Client :=
  match get id (cl_pending c) with
  | None => c
  | Some p => drainQueue now (timed_out id p c)
  end.
(** The timer behind a request that timed out in flight. *)
Definition on_stalled (c : Client) : Client :=
  match cl_stalledTimer c with
  | None => c
  | Some (p, id) =>
    let c := set_stalledTimer None c in
    if bool_decide (cl_proc c = Some p) && bool_decide (cl_inFlightId c = Some id) && negb (cl_shuttingDown c) then note (Killed p SIGKILL) c else c
  end.

(** ** Frames *)

Definition checkProtocolStreak (c : Client) : Client :=
  match cl_proc c with
  | Some p =>
    if (3 <=? cl_protocolStreak c) && negb (cl_shuttingDown c) && negb (cl_breakerOpen c)
    then note (Killed p SIGKILL) (set_protocolStreak 0 c) else c
  | None => c
  end.
Definition protocolFailure (message : jstr) (victim : option jstr) (c : Client) : Client :=
  let c := match victim with Some id => reject id (Failure (FProtocol message)) c | None => c end in
  checkProtocolStreak (set_protocolStreak (cl_protocolStreak c + 1) c).

Definition answered (id : jstr) (c : Client) : Client :=
  if bool_decide (cl_inFlightId c = Some id) then set_inFlightId None (set_stalledTimer None c) else c.

Definition onFrame (line : jstr) (c : Client) : Client :=
  let c := note (Received line) c in
  match parse line with
  | None => protocolFailure (js "response frame is not valid JSON") None c
  | Some parsed =>
    match responseSchema parsed with
    | None => protocolFailure (js "response envelope failed schema validation") None c
    | Some (ResponseError id error) => set_protocolStreak 0 (reject id (RtkServerError error) (answered id c))
    | Some (ResponseOk id result) =>
      let c := answered id c in
      match get id (cl_pending c) with
      | None =>
        if bool_decide (id ∈ cl_lateReplyIds c) then set_lateReplyIds (List.filter (λ i, negb (jeqb i id)) (cl_lateReplyIds c)) c
        else checkProtocolStreak (set_protocolStreak (cl_protocolStreak c + 1) c)
      | Some p =>
        match result ≫= RESULT_SCHEMAS (pd_op p) with
        | None => protocolFailure (js "response result failed schema validation") (Some id) c
        | Some data => settle id (inl data) (set_protocolStreak 0 c)
        end
      end
    end
  end.

Definition consumeHello (line : jstr) (c : Client) : Client := set_hello (Some (parse line ≫= helloSchema)) c.
(** One line of the pump; the first one of a child is the handshake. *)
Definition on_line (c : Client) (line : jstr) : Client :=
  if cl_helloDone c then onFrame line c else consumeHello line (set_helloDone true c).
Definition overflow_failure : Client → Client :=
  protocolFailure (js "response frame exceeded " ++ dec maxFrameBytes ++ js " bytes") None.
(** [feed] on a chunk of the current child. *)
Definition feed_chunk (chunk : jstr) (c : Client) : Client :=
  match push maxFrameBytes (cl_recon c) chunk with
  | (recon, Lines lines) => foldl on_line (set_recon recon c) lines
  | (recon, FrameOverflow lines) => overflow_failure (foldl on_line (set_recon recon c) lines)
  end.

(** ** Lifecycle *)

Definition clearTimers (c : Client) : Client := set_probeTimer false (set_restartTimer None (set_stalledTimer None c)).
(** [shutdown]; the second call returns the promise of the first. *)
Definition shutdown (c : Client) : Client :=
  if cl_shuttingDown c then c else
  let c := clearTimers (set_shuttingDown true c) in
  let c := foldl (λ c id, reject id (PlainError (js "RtkClient is shutting down")) c) c (cl_pending c).*1 in
  let proc := cl_proc c in
  let c := set_proc None (set_ready false (set_pending [] c)) in
  match proc with Some p => note (Killed p SIGTERM) c | None => c end.

Definition tripBreaker (c : Client) : Client := set_probeTimer true (set_restartAttempt 0 (set_breakerOpen true c)).
Definition scheduleRestart (c : Client) : Client :=
  if cl_breakerOpen c || cl_shuttingDown c then c else
  let c := set_restartAttempt (cl_restartAttempt c + 1) c in
  if maxRestartAttempts <? cl_restartAttempt c then tripBreaker c
  else set_restartTimer (Some (RESTART_BACKOFF_MS * 2 ^ (cl_restartAttempt c - 1))) c.

(** What waits for [spawnAndGreet] when it throws. *)
Definition spawn_failed (origin : Origin) (c : Client) : Client :=
  let c := set_spawn None c in
  match origin with FromCreate => shutdown c | FromRestart => scheduleRestart c | FromProbe => c end.
(** [spawnAndGreet] up to the wait for the handshake; [ok] when the spawn does not throw. *)
Definition spawn_child (origin : Origin) (ok : bool) (c : Client) : Client :=
  if (ok : bool) then
    let p := S (cl_spawns c) in
    note (Spawned p)
      (set_recon reset (set_hello None (set_helloDone false (set_spawn (Some (mkSpawn p false origin)) (set_proc (Some p) (set_spawns p c))))))
  else spawn_failed origin c.
Definition trySpawn (origin : Origin) (ok : bool) (c : Client) : Client :=
  if cl_shuttingDown c || bool_decide (is_Some (cl_spawn c)) || bool_decide (is_Some (cl_proc c)) then
    match origin, cl_proc c with FromRestart, None => scheduleRestart c | _, _ => c end
  else spawn_child origin ok c.
(** The rest of [spawnAndGreet], and of [trySpawn], after the handshake. *)
Definition greeted (pid : Z) (origin : Origin) (c : Client) : Client :=
  let c := set_spawn None (set_lateReplyIds [] (set_protocolStreak 0 (set_restartAttempt 0 (set_ready true (set_helloPid (Some pid) c))))) in
  match origin with
  | FromCreate => c
  | _ =>
    let c := if cl_breakerOpen c then set_probeTimer false (set_breakerOpen false c) else c in
    set_recoveries (cl_recoveries c + 1) c
  end.
Definition terminate (s : Spawn) (c : Client) : Client :=
  note (Killed (sp_proc s) SIGTERM) (set_spawn (Some (mkSpawn (sp_proc s) true (sp_origin s))) c).
(** The continuation of the handshake, once its race is decided. *)
Definition after_hello (c : Client) : Client :=
  match cl_spawn c, cl_hello c with
  | Some s, Some h =>
    if sp_terminating s || negb (bool_decide (cl_proc c = Some (sp_proc s))) then c
    else match h with Some pid => greeted pid (sp_origin s) c | None => terminate s c end
  | _, _ => c
  end.

Definition onChildExit (p : nat) (c : Client) : Client :=
  if negb (bool_decide (cl_proc c = Some p)) then c else
  let c := set_helloPid None (set_ready false (set_inFlightId None (set_proc None (set_stalledTimer None c)))) in
  if cl_shuttingDown c || bool_decide (is_Some (cl_spawn c)) then c else
  let c := foldl (λ c id, reject id (Failure FCrash) c) c (cl_pending c).*1 in
  scheduleRestart (set_pending [] c).

(** ** Events *)

Inductive Event : Type :=
| EvRequest (op : RtkOp) (params : json) (id : jstr) (timeoutMs now : Z)
| EvTimer (id : jstr) (now : Z)
| EvStalled
| EvStdout (p : nat) (chunk : jstr) (now : Z)
| EvStdoutEnd (p : nat) (tail : jstr) (now : Z)
| EvExit (p : nat)
| EvHandshakeTimeout
| EvGrace
| EvRestart (ok : bool)
| EvProbe (ok : bool)
| EvShutdown.

Definition apply_event (c : Client) (e : Event) : Client :=
  match e with
  | EvRequest op params id timeoutMs now => request op params id timeoutMs now c
  | EvTimer id now => on_timer id now c
  | EvStalled => on_stalled c
  | EvStdout p chunk now =>
    if bool_decide (cl_proc c = Some p) then drainQueue now (after_hello (feed_chunk chunk c)) else c
  | EvStdoutEnd p tail now =>
    if bool_decide (cl_proc c = Some p) then
      let c := feed_chunk tail c in
      let '(recon, lines) := flush (cl_recon c) in
      drainQueue now (after_hello (foldl (λ c line, onFrame line c) (set_recon recon c) lines))
    else c
  | EvExit p =>
    let c' := onChildExit p c in
    match cl_spawn c' with
    | Some s => if (sp_proc s =? p)%nat then spawn_failed (sp_origin s) c' else c'
    | None => c'
    end
  | EvHandshakeTimeout => match cl_spawn c with Some s => if sp_terminating s then c else terminate s c | None => c end
  | EvGrace =>
    match cl_spawn c with Some s => if sp_terminating s then note (Killed (sp_proc s) SIGKILL) c else c | None => c end
  | EvRestart ok => match cl_restartTimer c with Some _ => trySpawn FromRestart ok (set_restartTimer None c) | None => c end
  | EvProbe ok => if cl_probeTimer c then trySpawn FromProbe ok c else c
  | EvShutdown => shutdown c
  end.

(** [create]: the client that is awaited, and later kept if the handshake succeeds. *)
Definition create (ok : bool) : Client := spawn_child FromCreate ok new_client.
Definition run (ok : bool) (events : list Event) : Client := foldl apply_event (create ok) events.
End Client.

(** ** compress and fetch *)

Record ToolOutput := mkOutput {
  to_tool : jstr; to_output : jstr; to_title : option jstr; to_toolArgs : option json; to_source : option json; to_provenance : option json;
  to_metadata : option json; to_sessionId : jstr; to_callId : option jstr }.

Definition compress_params (budgetTokens : Z) (input : ToolOutput) : json :=
  JObj ([(js "tool", JStr (to_tool input)); (js "output", JStr (to_output input))]
        ++ opt_field (js "toolArgs") (λ v, v) (to_toolArgs input) ++ opt_field (js "source") (λ v, v) (to_source input)
        ++ opt_field (js "provenance") (λ v, v) (to_provenance input) ++ opt_field (js "title") JStr (to_title input)
        ++ opt_field (js "metadata") (λ v, v) (to_metadata input) ++ [(js "sessionId", JStr (to_sessionId input))]
        ++ opt_field (js "callId") JStr (to_callId input) ++ [(js "budgetTokens", JNum (NInt budgetTokens))]).

Inductive CompressOutcome : Type :=
| Compressed (result : WireResult)
| Passthrough (output : jstr) (degraded : option DegradedReason) (status : Status) (result : option WireResult).

(** [degradeFrom]: [None] is [null], which rethrows. *)
Definition degradeFrom (r : Rejection) : option DegradedReason :=
  match r with
  | Failure FTimeout => Some DRtimeout
  | Failure FCrash => Some DRcrash
  | Failure (FProtocol _) => Some DRprotocol
  | Failure FUnready => Some DRspawn_failed
  | Failure FOverloaded => Some DRoverloaded
  | RtkServerError _ | PlainError _ => None
  end.

(** Outputs under [minBytes] never reach the server. *)
Definition fast_path (minBytes : Z) (input : ToolOutput) : option CompressOutcome :=
  if byte_length (to_output input) <? minBytes then Some (Passthrough (to_output input) None StSkipped None) else None.
(** [compress] after its [await]: [Throw] is what it rethrows; a result of
    another operation cannot arrive and would fail the second parse. *)
Definition compress_outcome (input : ToolOutput) (s : Settlement) : result Rejection CompressOutcome :=
  match s with
  | inl (RCompress r) =>
    Ok (if wr_compressed r && bool_decide (wr_status r = StCompressed) then Compressed r
        else Passthrough (wr_output r)
               match wr_degraded r with Some DRno_gain => None | d => d end
               (if bool_decide (wr_status r = StDegraded) then StDegraded else StUnchanged) (Some r))
  | inl _ => Throw (PlainError (js "ZodError"))
  | inr e => match degradeFrom e with Some d => Ok (Passthrough (to_output input) (Some d) StDegraded None) | None => Throw e end
  end.

Inductive FetchOutcome : Type := FoundPage (page : FetchPage) | Missing | UnavailableArchive (degraded : DegradedReason).
Definition fetch_outcome (s : Settlement) : result Rejection FetchOutcome :=
  match s with
  | inl (RFetch (Some page)) => Ok (FoundPage page)
  | inl (RFetch None) => Ok Missing
  | inl _ => Throw (PlainError (js "ZodError"))
  | inr e => match degradeFrom e with Some d => Ok (UnavailableArchive d) | None => Throw e end
  end.

(** ** A run *)

Definition demo_hello : jstr := encodeFrame (JObj [(js "proto", JNum (NInt 3)); (js "pid", JNum (NInt 7))]).
Definition demo_pong (id : jstr) : jstr := encodeFrame (json_of_response (ResponseOk id (Some (JObj [(js "pong", JBool true); (js "uptimeMs", JNum (NInt 5))])))).
Definition demo_events : list Event :=
  [EvStdout 1 demo_hello 0; EvRequest OpPing (JObj []) (js "r1") 40 0; EvRequest OpPing (JObj []) (js "r2") 1000 10; EvTimer (js "r1") 40;
   EvStdout 1 (demo_pong (js "r1")) 50; EvStdout 1 (demo_pong (js "r2")) 60; EvExit 1; EvRequest OpPing (JObj []) (js "r3") 40 70].
Example demo_run :
  let c := run 5 (8 * 1024 * 1024) (λ _ _, false) true demo_events in
  cl_log c = [Spawned 1; Requested (js "r1") OpPing; Sent 1 (encodeFrame (json_of_request (js "r1") OpPing (JObj []))); Requested (js "r2") OpPing;
              Settled (js "r1") (inr (Failure FTimeout)); Received (removelast (demo_pong (js "r1")));
              Sent 1 (encodeFrame (json_of_request (js "r2") OpPing (JObj []))); Received (removelast (demo_pong (js "r2")));
              Settled (js "r2") (inl (RPing (NInt 5))); Requested (js "r3") OpPing; Settled (js "r3") (inr (Failure FUnready))]
  ∧ cl_restartTimer c = Some 250.
Proof. vm_compute. split; reflexivity. Qed.

(** ** The exchange *)

Definition requested (c : Client) : list jstr := omap (λ e, match e with Requested id _ => Some id | _ => None end) (cl_log c).
Definition settled (c : Client) : list jstr := omap (λ e, match e with Settled id _ => Some id | _ => None end) (cl_log c).

(** What a settlement is owed to. *)
Definition response_line (line : jstr) : option RtkResponse := parse line ≫= responseSchema.
Definition justified (c : Client) (id : jstr) (s : Settlement) : Prop :=
  match s with
  | inl data => ∃ op line v, Requested id op ∈ cl_log c ∧ Received line ∈ cl_log c
      ∧ response_line line = Some (ResponseOk id (Some v)) ∧ RESULT_SCHEMAS op v = Some data
  | inr (RtkServerError error) => ∃ line, Received line ∈ cl_log c ∧ response_line line = Some (ResponseError id error)
  | inr (PlainError _) => cl_shuttingDown c = true
  | inr (Failure _) => True
  end.

(** The requests of a client; [x] is one that is about to be settled. *)
Record exchange_ok (x : option jstr) (c : Client) : Prop := {
  xo_ledger : NoDup (requested c) ∧ requested c ≡ₚ settled c ++ (cl_pending c).*1;
  xo_known : ∀ id p, get id (cl_pending c) = Some p → Requested id (pd_op p) ∈ cl_log c;
  xo_count : (length (cl_pending c) <= MAX_PENDING)%nat;
  xo_bytes : cl_queuedBytes c = zsum (map pd_bytes (cl_pending c).*2) ∧ cl_queuedBytes c <= MAX_QUEUED_BYTES;
  xo_sizes : Forall (λ p, 0 <= pd_bytes p) (cl_pending c).*2;
  xo_queue : NoDup (map jb_id (cl_queue c));
  xo_jobs : Forall (λ j, ∃ p, get (jb_id j) (cl_pending c) = Some p ∧ jb_proc j = pd_proc p) (cl_queue c);
  xo_apart : ∀ id, cl_inFlightId c = Some id → (id ∉ map jb_id (cl_queue c)) ∧ id ∈ requested c;
  xo_waiting : ∀ id, id ∈ (cl_pending c).*1 → x ≠ Some id → cl_inFlightId c = Some id ∨ id ∈ map jb_id (cl_queue c);
  xo_late : (length (cl_lateReplyIds c) <= LATE_REPLY_RING)%nat;
  xo_justified : ∀ id s, Settled id s ∈ cl_log c → justified c id s }.

Lemma exchange_keys x c : exchange_ok x c → omap_ok (cl_pending c).
Proof. intros [[Hn Hp] _ _ _ _ _ _ _ _ _ _]. rewrite Hp in Hn. by apply NoDup_app in Hn as (_ & _ & Hn). Qed.

Lemma exchange_weaken id c : exchange_ok None c → exchange_ok (Some id) c.
Proof. intros []. constructor; try done. intros i Hi _. by apply xo_waiting0. Qed.

(** Only the fields of the exchange matter. *)
Lemma exchange_same x c c' :
  cl_log c' = cl_log c → cl_pending c' = cl_pending c → cl_queuedBytes c' = cl_queuedBytes c → cl_queue c' = cl_queue c →
  cl_inFlightId c' = cl_inFlightId c → cl_lateReplyIds c' = cl_lateReplyIds c → (cl_shuttingDown c = true → cl_shuttingDown c' = true) →
  exchange_ok x c → exchange_ok x c'.
Proof.
  intros El Ep Eb Eq Ei Ey Es []. unfold requested, settled in *. constructor; unfold requested, settled; rewrite ?El, ?Ep, ?Eb, ?Eq, ?Ei, ?Ey; try done.
  intros id s Hin. specialize (xo_justified0 id s Hin). unfold justified in *. rewrite El. destruct s as [|[]]; auto.
Qed.

Lemma justified_grows c c' id s :
  (∀ e, e ∈ cl_log c → e ∈ cl_log c') → (cl_shuttingDown c = true → cl_shuttingDown c' = true) → justified c id s → justified c' id s.
Proof.
  intros Hl Hs. destruct s as [data|[]]; cbn [justified]; [|done| |exact Hs].
  - intros (op & line & v & ? & ? & ?). exists op, line, v. auto.
  - intros (line & ? & ?). exists line. auto.
Qed.

(** An effect that is neither a request nor a settlement changes nothing. *)
Definition neutral (e : Effect) : bool := match e with Requested _ _ | Settled _ _ => false | _ => true end.
Lemma exchange_note x e c : neutral e = true → exchange_ok x c → exchange_ok x (note e c).
Proof.
  intros Hn [].
  assert (requested (note e c) = requested c ∧ settled (note e c) = settled c) as [Er Es].
  { unfold requested, settled, note. cbn [cl_log set_log]. rewrite !omap_app. destruct e; try done; cbn; rewrite !app_nil_r; done. }
  constructor; rewrite ?Er, ?Es; cbn [note set_log cl_pending cl_queuedBytes cl_queue cl_inFlightId cl_lateReplyIds]; try done.
  - intros id p Hp. cbn [cl_log set_log]. apply elem_of_app. left. by apply xo_known0.
  - intros id s Hin. cbn [cl_log set_log note] in Hin. apply elem_of_app in Hin as [Hin|Hin].
    + eapply justified_grows; [| |by apply xo_justified0]; [intros; cbn; apply elem_of_app; by left|done].
    + apply list_elem_of_singleton in Hin. by subst e.
Qed.

(** *** Settling *)

Lemma without_filter id q : NoDup (map jb_id q) → without_job id q = List.filter (λ j, negb (bool_decide (jb_id j = id))) q.
Proof.
  unfold without_job. induction q as [|j q IH]; [done|]. cbn [map list_find List.filter]. intros [Hn Hd]%NoDup_cons. specialize (IH Hd).
  destruct (decide (jb_id j = id)) as [<-|Hne].
  - rewrite bool_decide_true by done. cbn [negb]. change (q = List.filter (λ k, negb (bool_decide (jb_id k = jb_id j))) q). symmetry. clear -Hn. induction q as [|k q IH]; [done|]. cbn [List.filter map] in *.
    rewrite bool_decide_false; [|intros E; apply Hn; rewrite E; left]. cbn [negb]. f_equal. apply IH. intros H. apply Hn. by right.
  - rewrite bool_decide_false by done. cbn [negb]. rewrite <- IH. destruct (list_find _ q) as [[i k]|]; [|done]. reflexivity.
Qed.

Lemma without_elem id q j : NoDup (map jb_id q) → j ∈ without_job id q ↔ j ∈ q ∧ jb_id j ≠ id.
Proof.
  intros Hn. rewrite without_filter by done. rewrite !list_elem_of_In, List.filter_In. split.
  - intros [H1 H2]. split; [done|]. bool_prop. done.
  - intros [H1 H2]. split; [done|]. by rewrite bool_decide_false.
Qed.

Lemma without_ids id q : NoDup (map jb_id q) → NoDup (map jb_id (without_job id q)) ∧ ∀ i, i ∈ map jb_id (without_job id q) ↔ i ∈ map jb_id q ∧ i ≠ id.
Proof.
  intros Hn. split.
  - rewrite without_filter by done. clear -Hn. induction q as [|j q IH]; [done|]. cbn [map List.filter] in *. apply NoDup_cons in Hn as [Hj Hn].
    destruct (negb _); [|by apply IH]. cbn [map]. apply NoDup_cons. split; [|by apply IH]. intros H. apply Hj.
    apply list_elem_of_fmap in H as (k & -> & Hk). apply list_elem_of_fmap. exists k. split; [done|]. rewrite list_elem_of_In, List.filter_In in Hk.
    rewrite list_elem_of_In. tauto.
  - intros i. rewrite !list_elem_of_fmap. split.
    + intros (j & -> & Hj). apply without_elem in Hj as [Hj Hne]; [|done]. split; [by exists j|done].
    + intros [(j & -> & Hj) Hne]. exists j. split; [done|]. by apply without_elem.
Qed.

Lemma settle_unknown id s c : get id (cl_pending c) = None → settle id s c = c.
Proof. intros E. unfold settle. by rewrite E. Qed.

Lemma settle_request_ok id s c : justified c id s → exchange_ok (Some id) c → exchange_ok None (settle id s c).
Proof.
  intros Hj H. pose proof (exchange_keys _ _ H) as Hk. destruct (get id (cl_pending c)) as [p|] eqn:Eg.
  2: { rewrite settle_unknown by done. destruct H. constructor; try done. intros i Hi _. apply xo_waiting0; [done|]. intros [= ->].
       apply key_get in Hi as [? Hi]. congruence. }
  destruct H as [[Hn Hp] Hk2 Hc [Hb Hm] Hz Hq Hjobs Ha Hw Hl Hju]. unfold settle. rewrite Eg.
  pose proof (values_split _ _ _ Hk Eg) as Hv. pose proof (keys_delete_perm id _ Hk (mk_is_Some _ _ Eg)) as Hd.
  destruct (without_ids id _ Hq) as [Hq1 Hq2].
  set (c' := note _ _).
  assert (cl_log c' = cl_log c ++ [Settled id s]) as El by done.
  assert (requested c' = requested c) as Er by (unfold requested; rewrite El, omap_app; cbn; by rewrite app_nil_r).
  assert (settled c' = settled c ++ [id]) as Es by (unfold settled; rewrite El, omap_app; done).
  assert (∀ e, e ∈ cl_log c → e ∈ cl_log c') as Hin by (intros e He; rewrite El; apply elem_of_app; by left).
  constructor.
  - rewrite Er, Es. split; [done|]. rewrite Hp. cbn [cl_pending c' note set_log set_queue set_queuedBytes set_pending]. rewrite Hd.
    rewrite <- app_assoc. done.
  - intros i q Hg. cbn [cl_pending c' note set_log set_queue set_queuedBytes set_pending] in Hg. apply delete_get in Hg as [_ Hg]. apply Hin. by apply Hk2.
  - cbn [cl_pending c' note set_log set_queue set_queuedBytes set_pending]. pose proof (zlen_delete id _ Hk (mk_is_Some _ _ Eg)). lia.
  - cbn [cl_pending cl_queuedBytes c' note set_log set_queue set_queuedBytes set_pending].
    assert (zsum (map pd_bytes (cl_pending c).*2) = pd_bytes p + zsum (map pd_bytes (delete_key id (cl_pending c)).*2)) as E.
    { rewrite (zsum_Permutation _ _ (Permutation_map pd_bytes Hv)). apply zsum_cons. }
    rewrite Hv in Hz. apply Forall_cons in Hz as [Hz _]. lia.
  - cbn [cl_pending c' note set_log set_queue set_queuedBytes set_pending]. rewrite Hv in Hz. by apply Forall_cons in Hz as [_ Hz].
  - done.
  - cbn [cl_pending cl_queue c' note set_log set_queue set_queuedBytes set_pending]. apply Forall_forall. intros j Hin2.
    apply without_elem in Hin2 as [Hin2 Hne]; [|done]. rewrite Forall_forall in Hjobs. destruct (Hjobs j Hin2) as (q & Hg & E).
    exists q. split; [|done]. by rewrite get_delete_ne.
  - intros i Hi. cbn [cl_inFlightId cl_queue c' note set_log set_queue set_queuedBytes set_pending] in *. rewrite Hq2, Er. destruct (Ha i Hi). tauto.
  - intros i Hi _. cbn [cl_inFlightId cl_queue cl_pending c' note set_log set_queue set_queuedBytes set_pending] in *.
    rewrite keys_delete, list_elem_of_In, List.filter_In in Hi. destruct Hi as [Hi Hne]. rewrite <- list_elem_of_In in Hi. bool_prop.
    destruct (Hw i Hi) as [?|?]; [congruence|by left|right]. apply Hq2. done.
  - done.
  - intros i t Hit. rewrite El in Hit. apply elem_of_app in Hit as [Hit|Hit].
    + eapply justified_grows; [exact Hin|done|by apply Hju].
    + apply list_elem_of_singleton in Hit. simplify_eq. eapply justified_grows; [exact Hin|done|done].
Qed.

(** *** The queue *)

Ltac fields := cbn [note set_log set_proc set_ready set_helloPid set_shuttingDown set_spawn set_breakerOpen set_restartAttempt set_restartTimer set_probeTimer
  set_protocolStreak set_lateReplyIds set_pending set_queuedBytes set_queue set_inFlightId set_stalledTimer set_spawns set_recoveries set_helloDone
  set_hello set_recon cl_log cl_proc cl_ready cl_helloPid cl_shuttingDown cl_spawn cl_breakerOpen cl_restartAttempt cl_restartTimer cl_probeTimer
  cl_protocolStreak cl_lateReplyIds cl_pending cl_queuedBytes cl_queue cl_inFlightId cl_stalledTimer cl_spawns cl_recoveries cl_helloDone cl_hello cl_recon].
Tactic Notation "fields" "in" hyp(H) := cbn [note set_log set_proc set_ready set_helloPid set_shuttingDown set_spawn set_breakerOpen set_restartAttempt set_restartTimer set_probeTimer
  set_protocolStreak set_lateReplyIds set_pending set_queuedBytes set_queue set_inFlightId set_stalledTimer set_spawns set_recoveries set_helloDone
  set_hello set_recon cl_log cl_proc cl_ready cl_helloPid cl_shuttingDown cl_spawn cl_breakerOpen cl_restartAttempt cl_restartTimer cl_probeTimer
  cl_protocolStreak cl_lateReplyIds cl_pending cl_queuedBytes cl_queue cl_inFlightId cl_stalledTimer cl_spawns cl_recoveries cl_helloDone cl_hello cl_recon] in H.

(** The fields of supervision, which the exchange only reads. *)
Definition supervision (c : Client) :=
  (cl_proc c, cl_ready c, cl_shuttingDown c, cl_spawn c, cl_breakerOpen c, cl_restartAttempt c, cl_restartTimer c, cl_probeTimer c).

(** Nothing but requests leaves between two states. *)
Record kept (c c' : Client) : Prop := {
  kp_supervision : supervision c' = supervision c;
  kp_pending : ∀ id p, get id (cl_pending c') = Some p → get id (cl_pending c) = Some p;
  kp_log : ∀ e, e ∈ cl_log c → e ∈ cl_log c' }.
Lemma kept_refl c : kept c c.
Proof. by constructor. Qed.
Lemma kept_trans c c' c'' : kept c c' → kept c' c'' → kept c c''.
Proof. intros [E H L] [E' H' L']. constructor; [by rewrite E'| |]; auto. Qed.

Lemma settle_kept id s c : kept c (settle id s c).
Proof.
  unfold settle. destruct (get id (cl_pending c)) as [p|]; [|apply kept_refl]. constructor; [done| |].
  - intros i q. fields. by intros [_ ?]%delete_get.
  - intros e He. fields. apply elem_of_app. by left.
Qed.
(** What [settle] leaves alone. *)
Lemma settle_other id s c :
  cl_inFlightId (settle id s c) = cl_inFlightId c ∧ cl_stalledTimer (settle id s c) = cl_stalledTimer c ∧ cl_lateReplyIds (settle id s c) = cl_lateReplyIds c
  ∧ cl_protocolStreak (settle id s c) = cl_protocolStreak c ∧ (∀ i, get i (cl_pending (settle id s c)) = if bool_decide (i = id) then None else get i (cl_pending c)).
Proof.
  unfold settle. destruct (get id (cl_pending c)) as [p|] eqn:Eg.
  - fields. split_and!; try done. intros i. case_bool_decide as E; [subst; apply get_delete_eq|by apply get_delete_ne].
  - split_and!; try done. intros i. case_bool_decide as E; [by subst|done].
Qed.

Lemma settle_queue id s c job rest : exchange_ok None c → cl_queue c = job :: rest → cl_inFlightId c = None → jb_id job = id →
  justified c id s → exchange_ok None (settle id s (set_queue rest c)).
Proof.
  intros H Eq Ei <- Hj. apply settle_request_ok; [by apply (justified_grows c)|]. destruct H. rewrite Eq in *. cbn [map] in *.
  apply NoDup_cons in xo_queue0 as [? ?]. apply Forall_cons in xo_jobs0 as [_ ?]. constructor; fields; try done.
  - intros id. by rewrite Ei.
  - intros id Hid Hne. right. destruct (xo_waiting0 id Hid ltac:(done)) as [?|Hin]; [congruence|]. apply elem_of_cons in Hin as [->|Hin]; [done|done].
Qed.

Section Drain.
Context (write_fails : nat → jstr → bool) (now : Z).

(** What the queue does when nothing is in flight. *)
Record drained (c c' : Client) : Prop := {
  dr_exchange : exchange_ok None c';
  dr_kept : kept c c';
  dr_stalled : cl_stalledTimer c' = cl_stalledTimer c;
  dr_late : cl_lateReplyIds c' = cl_lateReplyIds c;
  dr_streak : cl_protocolStreak c' = cl_protocolStreak c;
  dr_log : ∃ l, cl_log c' = cl_log c ++ l ∧ ∀ e, e ∈ l → match e with Sent p _ => cl_proc c = Some p | Settled _ (inr (Failure _)) => True | _ => False end;
  dr_flight : ∀ id, cl_inFlightId c' = Some id → id ∈ (cl_pending c').*1 }.

Lemma drained_trans c c' c'' : drained c c' → drained c' c'' → drained c c''.
Proof.
  intros [? K E2 E3 E4 (l & El & Hl) _] [? K' E2' E3' E4' (l' & El' & Hl') Hf]. constructor; try done; try congruence.
  - by eapply kept_trans.
  - exists (l ++ l'). rewrite El', El, app_assoc. split; [done|]. intros e [He|He]%elem_of_app; [by apply Hl|]. specialize (Hl' e He).
    destruct e; try done. pose proof (kp_supervision _ _ K) as Es. unfold supervision in Es. congruence.
Qed.

Lemma drained_refl c : exchange_ok None c → cl_inFlightId c = None → drained c c.
Proof.
  intros H Ei. constructor; [done|apply kept_refl|done|done|done| |by rewrite Ei].
  exists []. rewrite app_nil_r. split; [done|]. intros e He. by apply elem_of_nil in He.
Qed.

Lemma drain_loop_ok fuel : ∀ c, exchange_ok None c → cl_inFlightId c = None → drained c (drain_loop write_fails fuel now c).
Proof.
  induction fuel as [|fuel IH]; intros c H Ei.
  { by apply drained_refl. }
  cbn [drain_loop]. rewrite Ei. destruct (cl_queue c) as [|job rest] eqn:Eq.
  { by apply drained_refl. }
  pose proof (xo_jobs _ _ H) as Hjobs. rewrite Eq in Hjobs. apply Forall_cons in Hjobs as [(pd & Hg & Hp) _].
  assert (∀ f, drained c (drain_loop write_fails fuel now (reject (jb_id job) (Failure f) (set_queue rest c)))) as Hrej.
  { intros f. set (c1 := reject (jb_id job) (Failure f) (set_queue rest c)).
    assert (exchange_ok None c1) as H1 by (by eapply settle_queue). assert (cl_inFlightId c1 = None) as Ei1.
    { unfold c1, reject. by rewrite (proj1 (settle_other _ _ _)). }
    apply drained_trans with c1; [|by apply IH]. unfold c1, reject. destruct (settle_other (jb_id job) (inr (Failure f)) (set_queue rest c)) as (_ & ? & ? & ? & _).
    constructor; try done.
    - eapply kept_trans; [|apply settle_kept]. by constructor.
    - unfold settle. fields. rewrite Hg. fields. eexists. split; [done|]. intros e ->%list_elem_of_singleton. done.
    - intros id E. unfold c1, reject in Ei1. congruence. }
  cbn zeta. assert (has (jb_id job) (cl_pending (set_queue rest c)) = true) as -> by (unfold has; fields; by rewrite Hg). cbn [negb].
  destruct (jb_deadline job <=? now); [apply Hrej|]. destruct (negb (usable _ _)) eqn:Eu; [apply Hrej|]. destruct (write_fails _ _); [apply Hrej|].
  apply negb_false_iff in Eu. unfold usable in Eu. fields in Eu. apply andb_true_iff in Eu as [Eu _]. apply andb_true_iff in Eu as [Eu _]. bool_prop.
  constructor; try done; [|constructor; [done|done|]; intros e He; fields; apply elem_of_app; by left| |].
  - apply exchange_note; [done|]. destruct H. rewrite Eq in *. cbn [map] in *. apply NoDup_cons in xo_queue0 as [? ?]. apply Forall_cons in xo_jobs0 as [_ ?].
    constructor; fields; try done.
    + intros id [= <-]. split; [done|]. destruct xo_ledger0 as [_ Hp']. unfold requested in *. fields. rewrite Hp'. apply elem_of_app. right. apply key_get. by rewrite Hg.
    + intros id Hid _. destruct (xo_waiting0 id Hid ltac:(done)) as [?|Hin]; [congruence|]. apply elem_of_cons in Hin as [->|Hin]; [by left|by right].
  - fields. eexists. split; [done|]. intros e ->%list_elem_of_singleton. done.
  - intros id [= <-]. apply key_get. fields. by rewrite Hg.
Qed.

(** The loop stops only when it has sent something or there is nothing left. *)
Lemma drain_loop_idle fuel : ∀ c, (length (cl_queue c) <= fuel)%nat → cl_inFlightId (drain_loop write_fails fuel now c) = None →
  cl_queue (drain_loop write_fails fuel now c) = [].
Proof.
  assert (∀ id r c, length (cl_queue (reject id r c)) <= length (cl_queue c))%nat as Hle.
  { intros id r c. unfold reject, settle. destruct (get id (cl_pending c)); [|done]. fields. unfold without_job. destruct (list_find _ _) as [[i j]|] eqn:E; [|lia].
    apply list_find_Some in E as (E & _ & _). rewrite length_delete by (by eexists). lia. }
  induction fuel as [|fuel IH]; intros c Hl; cbn [drain_loop]; [destruct (cl_queue c); [done|cbn in Hl; lia]|].
  destruct (cl_inFlightId c) eqn:Ei; [congruence|]. destruct (cl_queue c) as [|job rest] eqn:Eq; [done|]. cbn [length] in Hl.
  cbn zeta. destruct (negb _); [apply IH; fields; lia|].
  destruct (_ <=? _); [apply IH; etrans; [apply Hle|]; fields; lia|]. destruct (negb _); [apply IH; etrans; [apply Hle|]; fields; lia|].
  destruct (write_fails _ _); [apply IH; etrans; [apply Hle|]; fields; lia|]. done.
Qed.
End Drain.

(** ** Supervision *)

Definition serving (c : Client) (p : nat) : Prop := cl_proc c = Some p ∧ cl_ready c = true ∧ cl_shuttingDown c = false ∧ cl_spawn c = None.

Section Invariant.
Context (maxRestartAttempts : Z).

(** The five states a client can be in; in all but the first a child is alive or a
    timer that starts one is armed. *)
Inductive mode_ok (c : Client) : Prop :=
| ModeDown : cl_shuttingDown c = true → cl_proc c = None → cl_ready c = false → cl_restartTimer c = None → cl_probeTimer c = false → mode_ok c
| ModeServing p : serving c p → cl_breakerOpen c = false → cl_restartTimer c = None → cl_probeTimer c = false → mode_ok c
| ModeSpawning s : cl_shuttingDown c = false → cl_proc c = Some (sp_proc s) → cl_ready c = false → cl_spawn c = Some s → cl_restartTimer c = None →
    cl_probeTimer c = cl_breakerOpen c → cl_breakerOpen c = bool_decide (sp_origin s = FromProbe) → mode_ok c
| ModeWaiting : cl_shuttingDown c = false → cl_proc c = None → cl_ready c = false → cl_spawn c = None → cl_breakerOpen c = false →
    cl_restartTimer c = Some (RESTART_BACKOFF_MS * 2 ^ (cl_restartAttempt c - 1)) → 1 <= cl_restartAttempt c → cl_probeTimer c = false → mode_ok c
| ModeProbing : cl_shuttingDown c = false → cl_proc c = None → cl_ready c = false → cl_spawn c = None → cl_breakerOpen c = true →
    cl_restartTimer c = None → cl_probeTimer c = true → mode_ok c.

(** Why a pipe is busy: the request waits for its answer, or the child is about
    to be killed, or has been and will exit. *)
Definition busy (c : Client) (id : jstr) : Prop :=
  cl_shuttingDown c = true ∨ is_Some (get id (cl_pending c)) ∨ (∃ p, cl_stalledTimer c = Some (p, id)) ∨ (∃ p, cl_proc c = Some p ∧ Killed p SIGKILL ∈ cl_log c).

(** Who occupies the pipe, for whom requests are pending, and the supervision. *)
Record rest_ok (c : Client) : Prop := {
  ro_busy : ∀ id, cl_inFlightId c = Some id → busy c id;
  ro_stalled : ∀ p id, cl_stalledTimer c = Some (p, id) → cl_inFlightId c = Some id ∧ get id (cl_pending c) = None ∧ cl_proc c = Some p;
  ro_procs : ∀ id q, get id (cl_pending c) = Some q → serving c (pd_proc q);
  ro_mode : mode_ok c;
  ro_attempts : 0 <= cl_restartAttempt c <= maxRestartAttempts }.

Definition turn_ok (c : Client) : Prop := exchange_ok None c ∧ rest_ok c.
(** Between two events nothing is left to send. *)
Record client_ok (c : Client) : Prop := { co_turn : turn_ok c; co_idle : cl_inFlightId c = None → cl_queue c = [] }.

Lemma serving_same c c' p : supervision c' = supervision c → serving c p → serving c' p.
Proof. unfold supervision, serving. intros [=] (? & ? & ? & ?). split_and!; congruence. Qed.

Lemma mode_same c c' : supervision c' = supervision c → mode_ok c → mode_ok c'.
Proof.
  intros E H. pose proof (serving_same c c') as Hs. specialize (λ p, Hs p E). unfold supervision in E. injection E as E1 E2 E3 E4 E5 E6 E7 E8.
  destruct H as [| p ? | s ? | |]; [apply ModeDown|apply (ModeServing _ p)|apply (ModeSpawning _ s)|apply ModeWaiting|apply ModeProbing]; rewrite ?E1, ?E2, ?E3, ?E4, ?E5, ?E6, ?E7, ?E8; auto.
Qed.

Lemma busy_kept c c' id : supervision c' = supervision c → (is_Some (get id (cl_pending c)) → is_Some (get id (cl_pending c'))) →
  cl_stalledTimer c' = cl_stalledTimer c → (∀ e, e ∈ cl_log c → e ∈ cl_log c') → busy c id → busy c' id.
Proof.
  intros E Hp Es El. unfold supervision in E. injection E as E1 E2 E3 E4 E5 E6 E7 E8. unfold busy. rewrite E1, E3, Es.
  intros [?|[?|[?|(p & ? & ?)]]]; eauto 7.
Qed.

(** A change of the exchange alone. *)
Lemma rest_kept c c' : kept c c' →
  (∀ id, cl_inFlightId c' = Some id → busy c' id) →
  (∀ p id, cl_stalledTimer c' = Some (p, id) → cl_inFlightId c' = Some id ∧ get id (cl_pending c') = None ∧ cl_proc c = Some p) →
  rest_ok c → rest_ok c'.
Proof.
  intros [E Hp _] Hb Hst []. pose proof E as E'. unfold supervision in E'. injection E' as E1 E2 E3 E4 E5 E6 E7 E8.
  constructor; rewrite ?E1, ?E3, ?E6; try done.
  - intros id q Hq. eapply serving_same; [exact E|]. by apply ro_procs0 with id, Hp.
  - by eapply mode_same.
Qed.

Lemma rest_same c c' : supervision c' = supervision c → cl_pending c' = cl_pending c → cl_inFlightId c' = cl_inFlightId c → cl_stalledTimer c' = cl_stalledTimer c →
  (∀ e, e ∈ cl_log c → e ∈ cl_log c') → rest_ok c → rest_ok c'.
Proof.
  intros E Ep Ei Es El H. assert (kept c c') as K by (constructor; [done|by rewrite Ep|done]).
  apply (rest_kept c); rewrite ?Ep, ?Ei, ?Es; [done| |apply H|done]. intros id Hid. apply (busy_kept c); rewrite ?Ep; auto. by apply H.
Qed.

Lemma turn_same c c' : supervision c' = supervision c → cl_pending c' = cl_pending c → cl_inFlightId c' = cl_inFlightId c → cl_stalledTimer c' = cl_stalledTimer c →
  cl_log c' = cl_log c → cl_queuedBytes c' = cl_queuedBytes c → cl_queue c' = cl_queue c → cl_lateReplyIds c' = cl_lateReplyIds c → turn_ok c → turn_ok c'.
Proof.
  intros E Ep Ei Es El Eb Eq Ey [H1 H2]. split; [|apply (rest_same c); try done; by rewrite El]. apply (exchange_same _ c); try done. unfold supervision in E. congruence.
Qed.

Lemma turn_note e c : neutral e = true → turn_ok c → turn_ok (note e c).
Proof. intros Hn [H1 H2]. split; [by apply exchange_note|]. apply (rest_same c); try done. intros x Hx. fields. apply elem_of_app. by left. Qed.

Lemma turn_settle id s c : justified c id s → exchange_ok (Some id) c → rest_ok c → cl_inFlightId c ≠ Some id → turn_ok (settle id s c).
Proof.
  intros Hj H1 H2 Hi. split; [by apply settle_request_ok|]. destruct (settle_other id s c) as (Ei & Es & _ & _ & Eg).
  pose proof (settle_kept id s c) as K. apply (rest_kept c); [done| | |done].
  - rewrite Ei. intros x E. apply (busy_kept c); [apply K| |done|apply K|by apply (ro_busy _ H2)]. by rewrite Eg, bool_decide_false by congruence.
  - setoid_rewrite Eg. rewrite Ei, Es. intros x i E. destruct (ro_stalled _ H2 _ _ E) as (? & ? & ?). by rewrite bool_decide_false by congruence.
Qed.

Lemma drainQueue_ok write_fails now c : turn_ok c → client_ok (drainQueue write_fails now c).
Proof.
  intros [H1 H2]. constructor; [|apply drain_loop_idle; lia]. unfold drainQueue. destruct (cl_inFlightId c) as [id|] eqn:Ei.
  - replace (drain_loop _ _ _ c) with c; [done|]. destruct (length (cl_queue c)); [done|]. cbn [drain_loop]. by rewrite Ei.
  - destruct (drain_loop_ok write_fails now (length (cl_queue c)) c H1 Ei) as [? ? ? ? ? ? Hf]. split; [done|].
    apply (rest_kept c); [done| | |done].
    + intros id E. right. left. apply key_get. by apply Hf.
    + intros p id E. rewrite dr_stalled0 in E. destruct (ro_stalled _ H2 _ _ E). congruence.
Qed.

(** *** Timers *)

Lemma timed_out_ok id p c : get id (cl_pending c) = Some p → turn_ok c → turn_ok (timed_out id p c).
Proof.
  intros Eg [H1 H2]. unfold timed_out.
  case_bool_decide as Ei; [|apply turn_settle; [done|by apply exchange_weaken|done|done]].
  unfold reject. set (c1 := set_stalledTimer _ _).
  assert (exchange_ok (Some id) c1) as Hx.
  { apply exchange_weaken. destruct H1. constructor; try done. unfold c1, rememberLateReply. fields.
    assert (length (if bool_decide (id ∈ cl_lateReplyIds c) then cl_lateReplyIds c else cl_lateReplyIds c ++ [id]) <= S LATE_REPLY_RING)%nat as Hl.
    { case_bool_decide; [lia|]. rewrite length_app. cbn. unfold LATE_REPLY_RING in *. lia. }
    destruct (LATE_REPLY_RING <? _)%nat eqn:El; [|by apply Nat.ltb_ge in El].
    clear El. destruct (if bool_decide _ then _ else _) as [|i ids]; cbn [tail length] in *; lia. }
  split; [by apply settle_request_ok|]. destruct (settle_other id (inr (Failure FTimeout)) c1) as (E1 & E2 & _ & _ & E3).
  apply (rest_kept c); [eapply kept_trans; [|apply settle_kept]; by constructor| | |done]; rewrite ?E1, ?E2.
  - intros i E. unfold c1, rememberLateReply in E. fields in E. right. right. left. exists (pd_proc p). rewrite E2. unfold c1. fields. congruence.
  - intros q i E. unfold c1 in E. fields in E. injection E as <- <-. rewrite E3, bool_decide_true by done. split_and!; [done|done|]. by destruct (ro_procs _ H2 _ _ Eg).
Qed.


Lemma on_timer_ok write_fails id now c : client_ok c → client_ok (on_timer write_fails id now c).
Proof.
  intros H. unfold on_timer. destruct (get id (cl_pending c)) as [p|] eqn:Eg; [|done]. by apply drainQueue_ok, timed_out_ok, H.
Qed.

Lemma on_stalled_ok c : client_ok c → client_ok (on_stalled c).
Proof.
  intros [[H1 H2] Hidle]. unfold on_stalled. destruct (cl_stalledTimer c) as [[p id]|] eqn:Es; [|done].
  destruct (ro_stalled _ H2 _ _ Es) as (Ei & Eg & Ep).
  assert (cl_shuttingDown c = false) as Esh by (destruct (ro_mode _ H2); unfold serving in *; naive_solver congruence).
  cbn zeta. fields. rewrite !bool_decide_true, Esh by done. cbn [negb andb].
  constructor; [|fields; congruence]. split; [apply exchange_note; [done|]; by apply (exchange_same _ c)|].
  destruct H2. constructor; fields; try done.
  - intros i E. right. right. right. exists p. split; [done|]. fields. apply elem_of_app. right. left.
  - by apply (mode_same c).
Qed.

(** *** Frames *)

Lemma turn_streak v c : turn_ok c → turn_ok (set_protocolStreak v c).
Proof. by apply turn_same. Qed.

Lemma checkProtocolStreak_ok c : turn_ok c → turn_ok (checkProtocolStreak c).
Proof. intros H. unfold checkProtocolStreak. destruct (cl_proc c); [|done]. case_test; [|done]. apply turn_note; [done|by apply turn_streak]. Qed.

Lemma answered_ok id c : turn_ok c → exchange_ok (Some id) (answered id c) ∧ rest_ok (answered id c) ∧ cl_inFlightId (answered id c) ≠ Some id
  ∧ (∀ i s, justified c i s → justified (answered id c) i s).
Proof.
  intros [H1 H2]. unfold answered. case_bool_decide as Ei; [|split_and!; [by apply exchange_weaken|done|done|done]].
  split_and!; [| |done|].
  - destruct H1. constructor; fields; try done. intros i Hi Hne. destruct (xo_waiting0 i Hi ltac:(done)) as [?|?]; [congruence|by right].
  - apply (rest_kept c); [by constructor|done|done|done].
  - intros i s. by apply justified_grows.
Qed.

Lemma turn_unknown id c : get id (cl_pending c) = None → exchange_ok (Some id) c → rest_ok c → turn_ok c.
Proof.
  intros Eg H1 H2. split; [|done]. rewrite <- (settle_unknown id (inr (Failure FTimeout)) c Eg). by apply settle_request_ok.
Qed.

Lemma onFrame_ok line c : turn_ok c → turn_ok (onFrame line c).
Proof.
  intros H. unfold onFrame. assert (turn_ok (note (Received line) c)) as H0 by by apply turn_note.
  assert (Received line ∈ cl_log (note (Received line) c)) as Hin by (fields; apply elem_of_app; right; left).
  revert H0 Hin. generalize (note (Received line) c). clear c H. intros c H Hin. cbn zeta.
  assert (∀ m, turn_ok (protocolFailure m None c)) as Hfail by (intros m; apply checkProtocolStreak_ok; by apply turn_streak).
  destruct (parse line) as [v|] eqn:Ep; [|apply Hfail]. destruct (responseSchema v) as [[id result|id error]|] eqn:Er; [| |apply Hfail].
  - destruct (answered_ok id c H) as (A1 & A2 & A3 & A4). destruct (get id (cl_pending (answered id c))) as [p|] eqn:Eg.
    + destruct (result ≫= RESULT_SCHEMAS (pd_op p)) as [data|] eqn:Ed.
      * apply turn_settle; [|by apply (exchange_same _ (answered id c))|by apply (rest_same (answered id c))|done].
        apply bind_Some in Ed as (w & -> & Ed). exists (pd_op p), line, w. split_and!; [by apply (xo_known _ _ A1) with (1 := Eg)| | |done].
        -- change (cl_log (set_protocolStreak 0 (answered id c))) with (cl_log (answered id c)). unfold answered. by case_bool_decide.
        -- unfold response_line. rewrite Ep. cbn. by rewrite Er.
      * apply checkProtocolStreak_ok, turn_streak. by apply turn_settle.
    + pose proof (turn_unknown _ _ Eg A1 A2) as Ht. case_bool_decide; [|by apply checkProtocolStreak_ok, turn_streak].
      destruct Ht as [T1 T2]. split; [|by apply (rest_same (answered id c))]. destruct T1. constructor; fields; try done.
      etrans; [|exact xo_late0]. clear. induction (cl_lateReplyIds _) as [|i l IH]; [done|]. cbn [List.filter length]. destruct (negb _); cbn [length]; lia.
  - destruct (answered_ok id c H) as (A1 & A2 & A3 & A4). apply turn_streak, turn_settle; [|done|done|done].
    exists line. split; [unfold answered; by case_bool_decide|]. unfold response_line. rewrite Ep. cbn. by rewrite Er.
Qed.

Lemma frames_ok lines : ∀ c, turn_ok c → turn_ok (foldl (λ c line, onFrame line c) c lines).
Proof. induction lines as [|l lines IH]; [done|]. intros c H. cbn [foldl]. apply IH. by apply onFrame_ok. Qed.

Lemma on_line_ok c line : turn_ok c → turn_ok (on_line c line).
Proof. intros H. unfold on_line. destruct (cl_helloDone c); [by apply onFrame_ok|]. unfold consumeHello. by apply (turn_same c). Qed.

Lemma lines_ok lines : ∀ c, turn_ok c → turn_ok (foldl on_line c lines).
Proof. induction lines as [|l lines IH]; [done|]. intros c H. cbn [foldl]. apply IH. by apply on_line_ok. Qed.

Lemma feed_chunk_ok max chunk c : turn_ok c → turn_ok (feed_chunk max chunk c).
Proof.
  intros H. unfold feed_chunk. destruct (push max (cl_recon c) chunk) as [r [lines|lines]]; [|unfold overflow_failure, protocolFailure; apply checkProtocolStreak_ok, turn_streak];
    apply lines_ok; by apply (turn_same c).
Qed.

(** *** Lifecycle *)

Context (Hmax : 0 <= maxRestartAttempts).

Lemma no_requests c : exchange_ok None c → (∀ id q, get id (cl_pending c) = Some q → serving c (pd_proc q)) → (∀ p, ¬ serving c p) → cl_pending c = [].
Proof.
  intros _ Hp Hs. destruct (cl_pending c) as [|[id q] l] eqn:E; [done|]. exfalso. apply (Hs (pd_proc q)), (Hp id). cbn [get]. by rewrite bool_decide_true.
Qed.

Lemma idle_queue c : exchange_ok None c → cl_pending c = [] → cl_queue c = [].
Proof.
  intros H E. destruct (cl_queue c) as [|j q] eqn:Eq; [done|]. pose proof (xo_jobs _ _ H) as Hj. rewrite Eq in Hj. apply Forall_cons in Hj as [(p & Hg & _) _].
  by rewrite E in Hg.
Qed.

Lemma reject_all r ids : ∀ c, (∀ i, justified c i (inr r)) → (∀ c', kept c c' → ∀ i, justified c' i (inr r)) → exchange_ok None c →
  let c' := foldl (λ c id, reject id r c) c ids in
  exchange_ok None c' ∧ kept c c' ∧ (∀ i, i ∈ ids → get i (cl_pending c') = None) ∧ cl_inFlightId c' = cl_inFlightId c ∧ cl_stalledTimer c' = cl_stalledTimer c.
Proof.
  induction ids as [|id ids IH]; intros c Hj Hk H; cbn [foldl]; [split_and!; try done; intros i Hi; by apply elem_of_nil in Hi|].
  pose proof (settle_kept id (inr r) c) as K. destruct (settle_other id (inr r) c) as (E1 & E2 & _ & _ & E3).
  destruct (IH (reject id r c)) as (I1 & I2 & I3 & I4 & I5).
  - by apply Hk.
  - intros c' K'. apply Hk. by eapply kept_trans.
  - apply settle_request_ok; [apply Hj|by apply exchange_weaken].
  - split_and!; [done|by eapply kept_trans| |by rewrite I4|by rewrite I5].
    intros i [->|Hi]%elem_of_cons; [|by apply I3]. destruct (get id _) as [q|] eqn:Eg; [|done]. apply (kp_pending _ _ I2) in Eg.
    unfold reject in Eg. rewrite E3, bool_decide_true in Eg by done. done.
Qed.

Lemma rejected_all r c : (∀ c', kept c c' → ∀ i, justified c' i (inr r)) → exchange_ok None c →
  let c' := foldl (λ c id, reject id r c) c (cl_pending c).*1 in
  exchange_ok None c' ∧ supervision c' = supervision c ∧ cl_pending c' = [] ∧ cl_inFlightId c' = cl_inFlightId c ∧ cl_stalledTimer c' = cl_stalledTimer c.
Proof.
  intros Hj H. destruct (reject_all r (cl_pending c).*1 c) as (I1 & I2 & I3 & I4 & I5); [apply Hj, kept_refl|done|done|]. cbv zeta. split_and!; try done; [apply I2|].
  set (c' := foldl _ _ _) in *. destruct (cl_pending c') as [|[i q] l] eqn:E; [done|]. exfalso.
  assert (get i (cl_pending c') = Some q) as Hg by (rewrite E; cbn [get]; by rewrite bool_decide_true). pose proof (kp_pending _ _ I2 _ _ Hg) as Hg2.
  assert (None = Some q) as [=]. rewrite <- Hg. symmetry. rewrite E. apply I3, key_get. by rewrite Hg2.
Qed.

(** A client without a child and without requests. *)
Record vacant (c : Client) : Prop := {
  vc_exchange : exchange_ok None c;
  vc_pending : cl_pending c = [];
  vc_stalled : cl_stalledTimer c = None;
  vc_flight : cl_inFlightId c = None ∨ cl_shuttingDown c = true;
  vc_attempts : 0 <= cl_restartAttempt c <= maxRestartAttempts }.

Lemma vacant_ok c : vacant c → mode_ok c → client_ok c.
Proof.
  intros [] Hm. constructor; [|intros _; by apply idle_queue]. split; [done|]. constructor; try done.
  - intros id E. destruct vc_flight0 as [?|?]; [congruence|by left].
  - intros p id E. congruence.
  - intros id q E. rewrite vc_pending0 in E. done.
Qed.

Lemma shutdown_ok c : exchange_ok None c → 0 <= cl_restartAttempt c <= maxRestartAttempts → (cl_shuttingDown c = true → client_ok c) → client_ok (shutdown c).
Proof.
  intros H1 Ha Hd. unfold shutdown. destruct (cl_shuttingDown c) eqn:Es; [by apply Hd|]. clear Hd. cbv zeta. set (c1 := clearTimers _).
  assert (exchange_ok None c1) as H2 by (by apply (exchange_same _ c)).
  destruct (rejected_all (PlainError (js "RtkClient is shutting down")) c1) as (I1 & I2 & I3 & I4 & I5); [|done|].
  { intros c' K i. cbn [justified]. pose proof (kp_supervision _ _ K) as E. unfold supervision in E. injection E as _ _ E _ _ _ _ _. by rewrite E. }
  set (c2 := foldl _ _ _) in *. unfold supervision in I2. injection I2 as J1 J2 J3 J4 J5 J6 J7 J8. rewrite J1.
  assert (client_ok (set_proc None (set_ready false (set_pending [] c2)))) as H.
  { apply vacant_ok.
    - constructor; fields; [|done|by rewrite I5|right; by rewrite J3|by rewrite J6]. by apply (exchange_same _ c2).
    - apply ModeDown; fields; rewrite ?J3, ?J7, ?J8; done. }
  change (cl_proc c1) with (cl_proc c). destruct (cl_proc c) as [p|]; [|done]. destruct H as [Ht Hi]. constructor; [by apply turn_note|done].
Qed.

Lemma scheduleRestart_ok c : vacant c → cl_shuttingDown c = false → cl_proc c = None → cl_ready c = false → cl_spawn c = None → cl_restartTimer c = None →
  cl_probeTimer c = cl_breakerOpen c → client_ok (scheduleRestart maxRestartAttempts c).
Proof.
  intros Hv Es Ep Er Esp Et Epr. unfold scheduleRestart. rewrite Es, orb_false_r. destruct (cl_breakerOpen c) eqn:Eb.
  { apply vacant_ok; [done|]. by apply ModeProbing. }
  cbv zeta. destruct Hv. fields. destruct (maxRestartAttempts <? _) eqn:Em; unfold tripBreaker; apply vacant_ok.
  - constructor; fields; try done. by apply (exchange_same _ c).
  - by apply ModeProbing.
  - bool_prop. constructor; fields; try done; [by apply (exchange_same _ c)|lia].
  - apply ModeWaiting; fields; try done. lia.
Qed.

Lemma spawn_failed_ok origin c : vacant c → cl_proc c = None → cl_ready c = false → cl_restartTimer c = None →
  cl_probeTimer c = (if cl_shuttingDown c then false else cl_breakerOpen c) → (cl_shuttingDown c = false → cl_breakerOpen c = bool_decide (origin = FromProbe)) →
  client_ok (spawn_failed maxRestartAttempts origin c).
Proof.
  intros Hv Ep Er Et Epr Eb. unfold spawn_failed. cbv zeta. assert (vacant (set_spawn None c)) as Hv' by (destruct Hv; constructor; fields; try done; by apply (exchange_same _ c)).
  destruct (cl_shuttingDown c) eqn:Es.
  - assert (client_ok (set_spawn None c)) as H by (apply vacant_ok; [done|by apply ModeDown]).
    destruct origin; [|unfold scheduleRestart; fields; by rewrite Es, orb_true_r|done]. unfold shutdown. fields. by rewrite Es.
  - specialize (Eb eq_refl). destruct origin.
    + destruct Hv'. apply shutdown_ok; [done|done|]. fields. congruence.
    + apply scheduleRestart_ok; fields; try done.
    + apply vacant_ok; [done|]. apply ModeProbing; fields; try done; by rewrite ?Epr, ?Eb.
Qed.

Lemma spawn_child_ok origin ok c : vacant c → cl_shuttingDown c = false → cl_proc c = None → cl_ready c = false → cl_restartTimer c = None →
  cl_probeTimer c = cl_breakerOpen c → cl_breakerOpen c = bool_decide (origin = FromProbe) → client_ok (spawn_child maxRestartAttempts origin ok c).
Proof.
  intros Hv Es Ep Er Et Epr Eb. unfold spawn_child. destruct ok.
  - cbv zeta. set (p := S (cl_spawns c)). destruct Hv.
    assert (turn_ok (set_recon reset (set_hello None (set_helloDone false (set_spawn (Some (mkSpawn p false origin)) (set_proc (Some p) (set_spawns p c))))))) as H.
    { split; [by apply (exchange_same _ c)|]. constructor; fields; try done.
      - intros id E. destruct vc_flight0; congruence.
      - rewrite vc_stalled0. done.
      - intros id q. rewrite vc_pending0. done.
      - apply (ModeSpawning _ (mkSpawn p false origin)); done. }
    constructor; [by apply turn_note|]. intros _. fields. by apply idle_queue.
  - apply spawn_failed_ok; try done. by rewrite Es.
Qed.

Lemma down_vacant c : client_ok c → (∀ p, ¬ serving c p) → cl_proc c = None → vacant c.
Proof.
  intros [[H1 H2] _] Hs Ep. assert (cl_pending c = []) as E by (apply no_requests; [done|apply H2|done]).
  assert (cl_stalledTimer c = None) as Et.
  { destruct (cl_stalledTimer c) as [[p id]|] eqn:Est; [|done]. destruct (ro_stalled _ H2 _ _ Est) as (_ & _ & ?). congruence. }
  constructor; try done; [|apply H2]. destruct (cl_inFlightId c) as [id|] eqn:Ei; [|by left]. right.
  destruct (ro_busy _ H2 id Ei) as [?|[Hg|[[p ?]|(p & ? & _)]]]; [done| |congruence|congruence]. rewrite E in Hg. by destruct Hg.
Qed.

Lemma greeted_serving c s pid : cl_spawn c = Some s → rest_ok c → exchange_ok None c → cl_proc c = Some (sp_proc s) → turn_ok (greeted pid (sp_origin s) c).
Proof.
  intros Es H2 H1 Ep.
  assert (cl_shuttingDown c = false ∧ cl_ready c = false ∧ cl_restartTimer c = None ∧ cl_probeTimer c = cl_breakerOpen c
          ∧ cl_breakerOpen c = bool_decide (sp_origin s = FromProbe)) as (E1 & E2 & E3 & E4 & E5).
  { destruct (ro_mode _ H2); unfold serving in *; naive_solver congruence. }
  assert (cl_pending c = []) as E0 by (apply no_requests; [done|apply H2|]; unfold serving; intros p (_ & ? & _); congruence).
  assert (turn_ok (set_spawn None (set_lateReplyIds [] (set_protocolStreak 0 (set_restartAttempt 0 (set_ready true (set_helloPid (Some pid) c))))))
          ∨ cl_breakerOpen c = true) as H.
  { destruct (cl_breakerOpen c) eqn:Eb; [by right|left]. split.
    - destruct H1. constructor; fields; try done. unfold LATE_REPLY_RING. cbn. lia.
    - destruct H2. constructor; fields; [done|done|rewrite E0; done|by apply (ModeServing _ (sp_proc s))|lia]. }
  unfold greeted. fields. cbv zeta. rewrite E5 in *. destruct (sp_origin s); fields; rewrite ?E5; cbn [bool_decide]; rewrite ?E5.
  - destruct H as [H|H]; [done|]. by rewrite bool_decide_false in H.
  - rewrite bool_decide_false by done. destruct H as [H|H]; [|by rewrite bool_decide_false in H]. revert H. by apply turn_same.
  - rewrite bool_decide_true by done. split.
    + destruct H1. constructor; fields; try done. unfold LATE_REPLY_RING. cbn. lia.
    + destruct H2. constructor; fields; [done|done|rewrite E0; done|by apply (ModeServing _ (sp_proc s))|lia].
Qed.

Lemma terminate_ok s c : turn_ok c → cl_spawn c = Some s → turn_ok (terminate s c).
Proof.
  intros [H1 H2] Es. apply turn_note; [done|]. split; [by apply (exchange_same _ c)|]. destruct H2. constructor; fields; try done.
  - intros id q Hg. destruct (ro_procs0 id q Hg) as (_ & _ & _ & ?). congruence.
  - destruct ro_mode0 as [|p (? & ? & ? & ?)|s'| |]; [by apply ModeDown|congruence| |congruence|congruence].
    assert (s' = s) as -> by congruence. by apply (ModeSpawning _ (mkSpawn (sp_proc s) true (sp_origin s))).
Qed.

Lemma after_hello_ok c : turn_ok c → turn_ok (after_hello c).
Proof.
  intros H. unfold after_hello. destruct (cl_spawn c) as [s|] eqn:Es; [|done]. destruct (cl_hello c) as [[pid|]|]; [| |done].
  all: destruct (sp_terminating s || _) eqn:E; [done|]; bool_prop.
  - destruct H. by apply greeted_serving.
  - by apply terminate_ok.
Qed.

Lemma reject_flight r v ids : ∀ c, foldl (λ c id, reject id r c) (set_inFlightId v c) ids = set_inFlightId v (foldl (λ c id, reject id r c) c ids).
Proof.
  induction ids as [|id ids IH]; intros c; [done|]. cbn [foldl]. rewrite <- IH. f_equal. unfold reject, settle. fields. by destruct (get id (cl_pending c)).
Qed.

Lemma schedule_spawn c : cl_spawn (scheduleRestart maxRestartAttempts c) = cl_spawn c.
Proof. unfold scheduleRestart. case_test; [done|]. cbv zeta. by case_test. Qed.

Lemma on_exit_ok p c : client_ok c → client_ok (apply_event maxRestartAttempts 0 (λ _ _, false) c (EvExit p)).
Proof.
  intros H. cbn [apply_event]. destruct (co_turn _ H) as [H1 H2]. unfold onChildExit.
  destruct (bool_decide (cl_proc c = Some p)) eqn:Ep; cbn [negb]; bool_prop.
  2: { destruct (cl_spawn c) as [s|] eqn:Es; [|done]. destruct (Nat.eqb_spec (sp_proc s) p) as [Esp|]; [|done].
       assert (cl_shuttingDown c = true ∧ cl_proc c = None ∧ cl_ready c = false ∧ cl_restartTimer c = None ∧ cl_probeTimer c = false) as (? & ? & ? & ? & E).
       { destruct (ro_mode _ H2); unfold serving in *; naive_solver congruence. }
       apply spawn_failed_ok; try done; [|by rewrite E, H0|congruence]. apply down_vacant; [done| |done]. unfold serving. intros q (_ & ? & _). congruence. }
  assert (cl_shuttingDown c = false ∧ cl_restartTimer c = None ∧ cl_probeTimer c = cl_breakerOpen c) as (Esh & Ert & Epr).
  { destruct (ro_mode _ H2); unfold serving in *; naive_solver congruence. }
  fields. rewrite Esh. cbn [orb].
  set (c1 := set_helloPid None (set_ready false (set_proc None (set_stalledTimer None c)))).
  change (set_helloPid None (set_ready false (set_inFlightId None (set_proc None (set_stalledTimer None c))))) with (set_inFlightId None c1).
  assert (exchange_ok None c1) as X1 by (by apply (exchange_same _ c)).
  destruct (cl_spawn c) as [s|] eqn:Es.
  - rewrite bool_decide_true by done. fields. assert (sp_proc s = p ∧ cl_breakerOpen c = bool_decide (sp_origin s = FromProbe)) as [Esp Eb].
    { destruct (ro_mode _ H2); unfold serving in *; naive_solver congruence. }
    assert (cl_pending c = []) as E0 by (apply no_requests; [done|apply H2|]; unfold serving; intros q (_ & _ & _ & ?); congruence).
    change (cl_spawn c1) with (cl_spawn c). rewrite Es, Esp, Nat.eqb_refl. apply spawn_failed_ok; try done.
    + constructor; fields; try done; [|by left|apply H2]. destruct X1. constructor; fields; try done.
      intros id Hid. unfold c1 in Hid. fields in Hid. rewrite E0 in Hid. by apply elem_of_nil in Hid.
    + unfold c1. fields. by rewrite Esh.
  - rewrite bool_decide_false by (by intros []). fields. rewrite reject_flight.
    destruct (rejected_all (Failure FCrash) c1) as (I1 & I2 & I3 & I4 & I5); [done|done|]. change (cl_pending (set_inFlightId None c1)) with (cl_pending c1).
    set (c2 := foldl _ _ _) in *. unfold supervision, c1 in I2. fields in I2. injection I2 as J1 J2 J3 J4 J5 J6 J7 J8.
    rewrite schedule_spawn. fields. rewrite J4, Es. apply scheduleRestart_ok; fields; try congruence.
    constructor; fields; try done; [|by left|rewrite J6; apply H2]. destruct I1. constructor; fields; try done; try (by rewrite I3 in *).
    intros id Hid. by apply elem_of_nil in Hid.
Qed.

(** Every id is used for one request. *)
Definition fresh (c : Client) (e : Event) : Prop := match e with EvRequest _ _ id _ _ => id ∉ requested c | _ => True end.

Lemma exchange_refused id op s c : justified c id s → id ∉ requested c → exchange_ok None c → exchange_ok None (note (Settled id s) (note (Requested id op) c)).
Proof.
  intros Hj Hf []. set (c' := note _ _). assert (cl_log c' = cl_log c ++ [Requested id op; Settled id s]) as El by (unfold c'; fields; by rewrite <- app_assoc).
  assert (∀ e, e ∈ cl_log c → e ∈ cl_log c') as Hin by (intros e He; rewrite El; apply elem_of_app; by left).
  constructor; [| |done|done|done|done|done| |done|done|].
  - unfold requested, settled in *. rewrite El, !omap_app. destruct xo_ledger0 as [Hn Hp]. cbn. split.
    + apply NoDup_app. split_and!; [done| |apply NoDup_singleton]. intros i Hi ->%list_elem_of_singleton. done.
    + change (cl_pending c') with (cl_pending c). rewrite Hp. by rewrite <- !app_assoc, (Permutation_app_comm [id]).
  - intros i p Hg. apply Hin. by apply xo_known0.
  - intros i Hi. destruct (xo_apart0 i Hi). split; [done|]. unfold requested. rewrite El, omap_app. apply elem_of_app. by left.
  - intros i t Hi. rewrite El in Hi. apply elem_of_app in Hi as [Hi|Hi]; [by eapply justified_grows; [exact Hin|done|apply xo_justified0]|].
    apply elem_of_cons in Hi as [[=]|Hi]. apply list_elem_of_singleton in Hi. simplify_eq. by eapply justified_grows; [exact Hin|done|].
Qed.

Lemma turn_refused id op s c : justified c id s → id ∉ requested c → client_ok c → client_ok (note (Settled id s) (note (Requested id op) c)).
Proof.
  intros Hj Hf [[H1 H2] Hi]. constructor; [|done]. split; [by apply exchange_refused|]. apply (rest_same c); try done.
  intros e He. fields. rewrite !elem_of_app. auto.
Qed.

Lemma enqueue_request_ok id op frame deadline p c : id ∉ requested c → client_ok c → serving c p →
  (length (cl_pending c) < MAX_PENDING)%nat → cl_queuedBytes c + byte_length frame <= MAX_QUEUED_BYTES →
  turn_ok (enqueue id op frame deadline p (note (Requested id op) c)).
Proof.
  intros Hf H Hserve El Eb. destruct H as [[[] H2] _].
  assert (get id (cl_pending c) = None) as Hn.
  { apply get_None. intros Hi. apply Hf. destruct xo_ledger0 as [_ Hp]. rewrite Hp. apply elem_of_app. by right. }
  assert (id ∉ map jb_id (cl_queue c)) as Hq.
  { intros Hi. change (map jb_id (cl_queue c)) with (jb_id <$> cl_queue c) in Hi. apply list_elem_of_fmap in Hi as (j & -> & Hj). rewrite Forall_forall in xo_jobs0.
    destruct (xo_jobs0 j Hj) as (q & Hg & _). congruence. }
  pose proof (set_absent id (mkPending op (byte_length frame) p) _ Hn) as Eset. pose proof (byte_length_nonneg frame) as Hb0.
  unfold enqueue. cbv zeta. set (c' := set_queue _ _). assert (cl_log c' = cl_log c ++ [Requested id op]) as Elog by done.
  assert (∀ e, e ∈ cl_log c → e ∈ cl_log c') as Hin by (intros e He; rewrite Elog; apply elem_of_app; by left).
  assert (∀ i q, get i (cl_pending c) = Some q → get i (cl_pending c') = Some q) as Hold.
  { intros i q Hg. unfold c'. fields. rewrite get_set_ne; [done|congruence]. }
  assert (cl_pending c' = cl_pending c ++ [(id, mkPending op (byte_length frame) p)]) as Epend by exact Eset.
  assert (cl_queue c' = cl_queue c ++ [mkJob id frame deadline p]) as Equeue by done.
  assert (cl_queuedBytes c' = cl_queuedBytes c + byte_length frame) as Ebytes by done.
  split.
  - constructor.
    + rewrite Epend, fmap_app. cbn [fmap list_fmap fst snd]. unfold requested, settled in *. rewrite Elog, !omap_app. destruct xo_ledger0 as [Hn' Hp]. cbn. rewrite app_nil_r. split.
      * apply NoDup_app. split_and!; [done| |apply NoDup_singleton]. intros i Hi ->%list_elem_of_singleton. done.
      * rewrite Hp. by rewrite <- !app_assoc.
    + intros i q Hg. rewrite Elog. unfold c' in Hg. fields in Hg. apply elem_of_app. destruct (decide (i = id)) as [->|Hne].
      * rewrite get_set_eq in Hg. injection Hg as <-. right. by apply list_elem_of_singleton.
      * rewrite get_set_ne in Hg by done. left. by apply xo_known0.
    + rewrite Epend, length_app. cbn [length]. unfold MAX_PENDING in *. lia.
    + rewrite Epend, Ebytes, fmap_app, map_app, zsum_app. cbn [fmap list_fmap snd map zsum foldr pd_bytes]. lia.
    + rewrite Epend, fmap_app. apply Forall_app. split; [done|]. by apply Forall_singleton.
    + rewrite Equeue, map_app. cbn [map jb_id]. apply NoDup_app. split_and!; [done| |apply NoDup_singleton]. intros i Hi ->%list_elem_of_singleton. done.
    + rewrite Equeue. apply Forall_app. split.
      * apply Forall_forall. intros j Hj. rewrite Forall_forall in xo_jobs0. destruct (xo_jobs0 j Hj) as (q & Hg & Ejp). exists q. split; [|done].
        by apply Hold in Hg.
      * apply Forall_singleton. cbn [jb_id jb_proc]. exists (mkPending op (byte_length frame) p). unfold c'. fields. by rewrite get_set_eq.
    + intros i Hi. rewrite Equeue, map_app. cbn [map jb_id]. rewrite elem_of_app, list_elem_of_singleton. destruct (xo_apart0 i Hi) as [Hx Hr]. split.
      * intros [Hx'| ->]; [done|]. done.
      * unfold requested. rewrite Elog, omap_app. apply elem_of_app. by left.
    + intros i Hi _. rewrite Equeue, map_app. rewrite Epend, fmap_app in Hi. cbn [fmap list_fmap fst map jb_id] in *. rewrite elem_of_app, list_elem_of_singleton in *. destruct Hi as [Hi| ->]; [|right; by right].
      destruct (xo_waiting0 i Hi ltac:(done)); auto.
    + done.
    + intros i t Hi. rewrite Elog, elem_of_app, list_elem_of_singleton in Hi. destruct Hi as [Hi|[=]]. eapply justified_grows; [exact Hin|done|by apply xo_justified0].
  - destruct H2. pose proof (serving_same c c' p eq_refl) as Hsv. constructor; [| | |by apply (mode_same c)|done].
    + intros i Hi. apply (busy_kept c); try done; [|by apply ro_busy0]. intros [q Hg]. apply Hold in Hg. by eexists.
    + intros q i Hi. destruct (ro_stalled0 q i Hi) as (Hi' & Hg & ?). split_and!; [done| |done]. unfold c'. fields.
      rewrite get_set_ne; [done|]. intros ->. apply (proj2 (xo_apart0 _ Hi')) || (destruct (xo_apart0 _ Hi'); done).
    + intros i q Hg. unfold c' in Hg. fields in Hg. destruct (decide (i = id)) as [->|Hne].
      * rewrite get_set_eq in Hg. injection Hg as <-. by apply Hsv.
      * rewrite get_set_ne in Hg by done. by apply (serving_same c), (ro_procs0 i).
Qed.

Lemma request_ok write_fails op params id timeoutMs now c :
  id ∉ requested c → client_ok c → client_ok (request write_fails op params id timeoutMs now c).
Proof.
  intros Hf H. unfold request. cbv zeta. fields. destruct (cl_shuttingDown c) eqn:Esh; [by apply turn_refused|].
  destruct (cl_ready c) eqn:Er; [|by apply turn_refused]. destruct (cl_proc c) as [p|] eqn:Ep; [|by apply turn_refused].
  destruct (cl_breakerOpen c); [by apply turn_refused|]. destruct (cl_spawn c) eqn:Es; [by apply turn_refused|].
  destruct (_ || _) eqn:E; [by apply turn_refused|]. apply orb_false_iff in E as [El%Nat.leb_gt Eb%Z.ltb_ge]. by apply drainQueue_ok, enqueue_request_ok.
Qed.

Lemma apply_event_ok max write_fails c e : fresh c e → client_ok c → client_ok (apply_event maxRestartAttempts max write_fails c e).
Proof.
  intros Hf H. destruct e as [op params id timeoutMs now|id now| |p chunk now|p tail now|p| | |ok|ok|]; cbn [apply_event].
  - by apply request_ok.
  - by apply on_timer_ok.
  - by apply on_stalled_ok.
  - case_bool_decide; [|done]. apply drainQueue_ok, after_hello_ok, feed_chunk_ok, H.
  - case_bool_decide; [|done]. cbv zeta. destruct (flush _) as [r lines]. apply drainQueue_ok, after_hello_ok, frames_ok.
    apply (turn_same (feed_chunk max tail c)); try done. apply feed_chunk_ok, H.
  - exact (on_exit_ok p c H).
  - destruct (cl_spawn c) as [s|] eqn:Es; [|done]. destruct (sp_terminating s); [done|]. constructor; [|apply H]. apply terminate_ok; [apply H|done].
  - destruct (cl_spawn c) as [s|]; [|done]. destruct (sp_terminating s); [|done]. constructor; [|apply H]. apply turn_note; [done|apply H].
  - destruct (cl_restartTimer c) as [d|] eqn:Et; [|done]. destruct (co_turn _ H) as [H1 H2].
    assert (cl_shuttingDown c = false ∧ cl_proc c = None ∧ cl_ready c = false ∧ cl_spawn c = None ∧ cl_breakerOpen c = false ∧ cl_probeTimer c = false)
      as (E1 & E2 & E3 & E4 & E5 & E6) by (destruct (ro_mode _ H2); unfold serving in *; naive_solver congruence).
    unfold trySpawn. fields. rewrite E1, E2, E4, !bool_decide_false by (by intros []). cbn [orb].
    assert (vacant c) as [] by (apply down_vacant; [done| |done]; unfold serving; intros q (? & _); congruence).
    apply spawn_child_ok; fields; try done; [|by rewrite E6]. constructor; fields; try done. by apply (exchange_same _ c).
  - destruct (cl_probeTimer c) eqn:Ep; [|done]. unfold trySpawn. destruct (_ || _ || _) eqn:E; [by destruct (cl_proc c)|].
    apply orb_false_iff in E as [E E3]. apply orb_false_iff in E as [E1 E2]. destruct (co_turn _ H) as [H1 H2].
    assert (cl_proc c = None ∧ cl_spawn c = None) as [E4 E5].
    { split; [destruct (cl_proc c)|destruct (cl_spawn c)]; try done; by rewrite bool_decide_true in *. }
    assert (cl_ready c = false ∧ cl_restartTimer c = None ∧ cl_breakerOpen c = true) as (E6 & E7 & E8)
      by (destruct (ro_mode _ H2); unfold serving in *; naive_solver congruence).
    apply spawn_child_ok; try done; [|by rewrite Ep, E8]. apply down_vacant; [done| |done]. unfold serving. intros q (? & _). congruence.
  - apply shutdown_ok; [apply H|apply H|done].
Qed.

Lemma create_ok ok : client_ok (create maxRestartAttempts ok).
Proof.
  assert (exchange_ok None new_client) as H.
  { constructor; cbn.
    - split; [apply NoDup_nil_2|done].
    - done.
    - unfold MAX_PENDING. lia.
    - split; [done|unfold MAX_QUEUED_BYTES; lia].
    - apply Forall_nil_2.
    - apply NoDup_nil_2.
    - apply Forall_nil_2.
    - done.
    - intros id Hid. by apply elem_of_nil in Hid.
    - unfold LATE_REPLY_RING. lia.
    - intros id s Hid. by apply elem_of_nil in Hid. }
  unfold create. apply spawn_child_ok; try done. constructor; [done|done|done|by left|cbn; lia].
Qed.
End Invariant.

(** *** What is logged *)

(** No event but a request logs a request. *)
Definition quiet (c c' : Client) : Prop := ∃ l, cl_log c' = cl_log c ++ l ∧ omap (λ e, match e with Requested id _ => Some id | _ => None end) l = [].
Lemma quiet_log c c' : cl_log c' = cl_log c → quiet c c'.
Proof. intros E. exists []. by rewrite app_nil_r. Qed.
Lemma quiet_trans c c' c'' : quiet c c' → quiet c' c'' → quiet c c''.
Proof. intros (l & E & H) (l' & E' & H'). exists (l ++ l'). rewrite E', E, app_assoc, omap_app, H, H'. done. Qed.
Lemma quiet_note c c' e : match e with Requested _ _ => False | _ => True end → quiet c c' → quiet c (note e c').
Proof. intros He H. eapply quiet_trans; [exact H|]. exists [e]. split; [done|]. by destruct e. Qed.
Lemma quiet_requested c c' : quiet c c' → requested c' = requested c.
Proof. intros (l & E & H). unfold requested. by rewrite E, omap_app, H, app_nil_r. Qed.
(** A setter of another field. *)
Lemma quiet_set c c' c'' : cl_log c'' = cl_log c' → quiet c c' → quiet c c''.
Proof. intros E H. eapply quiet_trans; [exact H|by apply quiet_log]. Qed.

Ltac quietly :=
  repeat first
    [ done | by apply quiet_log | match goal with |- quiet _ (if ?b then _ else _) => destruct b | |- quiet _ (match ?x with _ => _ end) => destruct x end
    | apply quiet_note; [done|] | (eapply quiet_set; [|eassumption]; reflexivity) ].

Lemma quiet_settle id s c : quiet c (settle id s c).
Proof. unfold settle. quietly. Qed.
Lemma quiet_reject id r c c' : quiet c c' → quiet c (reject id r c').
Proof. intros H. eapply quiet_trans; [exact H|apply quiet_settle]. Qed.
Lemma quiet_rejects r ids : ∀ c c', quiet c c' → quiet c (foldl (λ c id, reject id r c) c' ids).
Proof. induction ids as [|id ids IH]; [done|]. intros c c' H. cbn [foldl]. apply IH. by apply quiet_reject. Qed.
Lemma quiet_drain write_fails now fuel : ∀ c c', quiet c c' → quiet c (drain_loop write_fails fuel now c').
Proof.
  induction fuel as [|fuel IH]; [done|]. intros c c' H. cbn [drain_loop]. destruct (cl_inFlightId c'); [done|]. destruct (cl_queue c') as [|job rest]; [done|]. cbn zeta.
  assert (quiet c (set_queue rest c')) as H' by by eapply quiet_set. repeat case_match; try (by apply IH); try (by apply IH, quiet_reject). quietly.
Qed.
Lemma quiet_streak c c' : quiet c c' → quiet c (checkProtocolStreak c').
Proof. intros H. unfold checkProtocolStreak. quietly. Qed.
Lemma quiet_failure m v c c' : quiet c c' → quiet c (protocolFailure m v c').
Proof.
  intros H. unfold protocolFailure. apply quiet_streak. eapply quiet_set; [reflexivity|]. destruct v; [by apply quiet_reject|done].
Qed.
Lemma quiet_frame line c c' : quiet c c' → quiet c (onFrame line c').
Proof.
  intros H. unfold onFrame. assert (quiet c (note (Received line) c')) as H' by by apply quiet_note. cbn zeta.
  assert (∀ id, quiet c (answered id (note (Received line) c'))) as Ha by (intros id; unfold answered; quietly).
  destruct (parse line) as [v|]; [|by apply quiet_failure]. destruct (responseSchema v) as [[id r|id e]|]; [| |by apply quiet_failure].
  - destruct (get id _) as [p|].
    + destruct (r ≫= _); [|apply quiet_failure, Ha]. eapply quiet_trans; [|apply quiet_settle]. eapply quiet_set; [reflexivity|apply Ha].
    + case_match; [|apply quiet_streak]; (eapply quiet_set; [reflexivity|apply Ha]).
  - eapply quiet_set; [reflexivity|]. apply quiet_reject, Ha.
Qed.
Lemma quiet_lines lines : ∀ c c', quiet c c' → quiet c (foldl on_line c' lines).
Proof.
  induction lines as [|l lines IH]; [done|]. intros c c' H. cbn [foldl]. apply IH. unfold on_line. case_match; [by apply quiet_frame|]. by eapply quiet_set; [reflexivity|].
Qed.
Lemma quiet_feed max chunk c c' : quiet c c' → quiet c (feed_chunk max chunk c').
Proof. intros H. unfold feed_chunk. repeat case_match; [|apply quiet_failure]; by apply quiet_lines; eapply quiet_set; [reflexivity|]. Qed.
Lemma quiet_schedule m c c' : quiet c c' → quiet c (scheduleRestart m c').
Proof. intros H. unfold scheduleRestart, tripBreaker. cbv zeta. quietly. Qed.
Lemma quiet_shutdown c c' : quiet c c' → quiet c (shutdown c').
Proof.
  intros H. unfold shutdown. case_match; [done|]. cbv zeta. assert (∀ p c'', quiet c c'' → quiet c (match p : option nat with Some p => note (Killed p SIGTERM) c'' | None => c'' end)) as Hk
    by (intros [p|] c'' ?; [by apply quiet_note|done]). apply Hk. eapply quiet_set; [reflexivity|]. apply quiet_rejects. by eapply quiet_set; [reflexivity|].
Qed.
Lemma quiet_failed m o c c' : quiet c c' → quiet c (spawn_failed m o c').
Proof.
  intros H. unfold spawn_failed. cbv zeta. assert (quiet c (set_spawn None c')) by by eapply quiet_set. destruct o; [by apply quiet_shutdown|by apply quiet_schedule|done].
Qed.
Lemma quiet_spawn m o ok c c' : quiet c c' → quiet c (spawn_child m o ok c').
Proof. intros H. unfold spawn_child. destruct ok; [|by apply quiet_failed]. cbv zeta. quietly. Qed.
Lemma quiet_try m o ok c c' : quiet c c' → quiet c (trySpawn m o ok c').
Proof. intros H. unfold trySpawn. case_match; [|by apply quiet_spawn]. repeat case_match; try done. by apply quiet_schedule. Qed.
Lemma quiet_hello c c' : quiet c c' → quiet c (after_hello c').
Proof. intros H. unfold after_hello, greeted, terminate. cbv zeta. repeat case_match; quietly. Qed.
Lemma quiet_exit m p c c' : quiet c c' → quiet c (onChildExit m p c').
Proof.
  intros H. unfold onChildExit. case_match; [done|]. cbv zeta. case_match; [by eapply quiet_set; [reflexivity|]|]. apply quiet_schedule. eapply quiet_set; [reflexivity|].
  apply quiet_rejects. by eapply quiet_set; [reflexivity|].
Qed.

Definition request_ids (events : list Event) : list jstr := omap (λ e, match e with EvRequest _ _ id _ _ => Some id | _ => None end) events.

Definition requesting (e : Event) (c : Client) : Client := match e with EvRequest op _ id _ _ => note (Requested id op) c | _ => c end.
Lemma event_quiet m max write_fails c e : quiet (requesting e c) (apply_event m max write_fails c e).
Proof.
  assert (quiet c c) as Hr by by apply quiet_log.
  destruct e as [op params id timeoutMs now|id now| |p chunk now|p tail now|p| | |ok|ok|]; cbn [apply_event requesting].
  - unfold request. cbn zeta. set (c0 := note (Requested id op) c).
    repeat case_match; quietly; try (by apply quiet_drain, quiet_log).
  - unfold on_timer. case_match; [|done]. apply quiet_drain, quiet_reject. unfold rememberLateReply. quietly.
  - unfold on_stalled. repeat case_match; quietly.
  - case_match; [|done]. apply quiet_drain, quiet_hello, quiet_feed, Hr.
  - case_match; [|done]. cbv zeta. destruct (flush _) as [r lines]. apply quiet_drain, quiet_hello.
    assert (∀ c', quiet c c' → quiet c (foldl (λ c line, onFrame line c) c' lines)) as Hl.
    { induction lines as [|l lines IH]; [done|]. intros c' Hc'. cbn [foldl]. apply IH. by apply quiet_frame. }
    apply Hl. eapply quiet_set; [reflexivity|]. by apply quiet_feed.
  - cbv zeta. assert (quiet c (onChildExit m p c)) by by apply quiet_exit. repeat case_match; try done. by apply quiet_failed.
  - unfold terminate. quietly.
  - quietly.
  - case_match; [|done]. apply quiet_try. by eapply quiet_set.
  - case_match; [|done]. by apply quiet_try.
  - by apply quiet_shutdown.
Qed.

Lemma event_requested m max write_fails c e : requested (apply_event m max write_fails c e) = requested c ++ request_ids [e].
Proof.
  rewrite (quiet_requested _ _ (event_quiet m max write_fails c e)). destruct e; cbn [requesting request_ids omap list_omap]; rewrite ?app_nil_r; try done.
  unfold requested. fields. by rewrite omap_app.
Qed.

Lemma run_logs m max write_fails ok events op params id timeoutMs now : EvRequest op params id timeoutMs now ∈ events →
  Requested id op ∈ cl_log (run m max write_fails ok events).
Proof.
  unfold run. induction events as [|e events IH] using rev_ind; [by intros H%elem_of_nil|]. rewrite foldl_snoc.
  destruct (event_quiet m max write_fails (foldl (apply_event m max write_fails) (create m ok) events) e) as (l & -> & _).
  intros [H|<-%list_elem_of_singleton]%elem_of_app; apply elem_of_app; left.
  - specialize (IH H). destruct e; cbn [requesting]; try done. fields. apply elem_of_app. by left.
  - cbn [requesting]. fields. apply elem_of_app. right. left.
Qed.

Lemma run_requested m max write_fails ok events : requested (run m max write_fails ok events) = request_ids events.
Proof.
  unfold run. induction events as [|e events IH] using rev_ind.
  - cbn [foldl]. rewrite (quiet_requested new_client); [done|]. apply quiet_spawn. by apply quiet_log.
  - rewrite foldl_snoc, event_requested, IH. unfold request_ids. by rewrite omap_app.
Qed.

Lemma run_ok m max write_fails ok events : 0 <= m → NoDup (request_ids events) → client_ok m (run m max write_fails ok events).
Proof.
  intros Hm. unfold run. induction events as [|e events IH] using rev_ind; [intros _; by apply create_ok|].
  unfold request_ids. rewrite omap_app. intros Hn. apply NoDup_app in Hn as (Hn & Hd & _). rewrite foldl_snoc. apply apply_event_ok; [done| |by apply IH].
  destruct e as [op params id timeoutMs now| | | | | | | | | |]; try done. cbn [fresh]. intros Hin. change (foldl _ _ events) with (run m max write_fails ok events) in Hin.
  rewrite run_requested in Hin. apply (Hd id Hin). left.
Qed.

(** ** Properties *)

Lemma requested_once c id op op' : NoDup (requested c) → Requested id op ∈ cl_log c → Requested id op' ∈ cl_log c → op = op'.
Proof.
  unfold requested. induction (cl_log c) as [|e l IH]; [intros _ H; by apply elem_of_nil in H|]. intros Hn H1 H2.
  assert (∀ o, Requested id o ∈ l → id ∈ omap (λ e, match e with Requested id _ => Some id | _ => None end) l) as Hin.
  { intros o Ho. apply list_elem_of_omap. by exists (Requested id o). }
  apply elem_of_cons in H1 as [<-|H1], H2 as [E|H2].
  - by injection E.
  - cbn in Hn. apply NoDup_cons in Hn as [Hn _]. by apply Hin in H2.
  - subst e. cbn in Hn. apply NoDup_cons in Hn as [Hn _]. by apply Hin in H1.
  - apply IH; try done. cbn in Hn. destruct e; try done. by apply NoDup_cons in Hn as [_ Hn].
Qed.

(** C9: the client of rtk stays within its bounds, answers every request once and
    keeps a server.  Whatever the children print, however often they die or
    cannot be started, in any order of calls, timers and chunks: at most 32
    requests of at most 8 MiB are pending, with exact accounting, and at most 64
    ids of late replies are remembered; every request is either settled, once,
    or still pending, and then it is in flight or queued; nothing stays queued
    while the pipe is free, and the pipe is only occupied by a request that
    waits, or by one whose timer will kill, or has killed, the child; and unless it was shut down the client
    serves, waits for a child it has started, or has armed the timer that
    starts the next one. *)
Theorem rtk_client_safe maxRestartAttempts maxFrameBytes write_fails ok events :
  0 <= maxRestartAttempts → NoDup (request_ids events) →
  let c := run maxRestartAttempts maxFrameBytes write_fails ok events in
  (length (cl_pending c) <= MAX_PENDING)%nat ∧ cl_queuedBytes c = zsum (map pd_bytes (cl_pending c).*2) ∧ cl_queuedBytes c <= MAX_QUEUED_BYTES
  ∧ (length (cl_lateReplyIds c) <= LATE_REPLY_RING)%nat
  ∧ request_ids events ≡ₚ settled c ++ (cl_pending c).*1
  ∧ (∀ id, id ∈ (cl_pending c).*1 → cl_inFlightId c = Some id ∨ id ∈ map jb_id (cl_queue c))
  ∧ (cl_inFlightId c = None → cl_queue c = [])
  ∧ (∀ id, cl_inFlightId c = Some id → busy c id)
  ∧ mode_ok c ∧ 0 <= cl_restartAttempt c <= maxRestartAttempts.
Proof.
  intros Hm Hn c. pose proof (run_ok _ maxFrameBytes write_fails ok events Hm Hn) as H. fold c in H. destruct H as [[[] []] ?].
  pose proof (run_requested maxRestartAttempts maxFrameBytes write_fails ok events) as E. fold c in E. rewrite <- E.
  split_and!; try done; try tauto. intros id Hid. by apply xo_waiting0.
Qed.

Lemma demo_run_ids : NoDup (request_ids demo_events).
Proof. decide_now. Qed.
Lemma rtk_client_safe_witness :
  NoDup (request_ids demo_events) ∧ request_ids demo_events ≡ₚ settled (run 5 (8 * 1024 * 1024) (λ _ _, false) true demo_events) ++ [].
Proof.
  pose proof (rtk_client_safe 5 (8 * 1024 * 1024) (λ _ _, false) true demo_events ltac:(lia) demo_run_ids) as (_ & _ & _ & _ & H & _).
  split; [exact demo_run_ids|exact H].
Defined.

(** The client received [r] as the result of request [id]. *)
Definition reply_of (c : Client) (id : jstr) (r : WireResult) : Prop :=
  ∃ line v, Received line ∈ cl_log c ∧ response_line line = Some (ResponseOk id (Some v)) ∧ compressResultSchema v = Some r.

Lemma schema_compressed v r : compressResultSchema v = Some r → bool_decide (wr_status r = StCompressed) = wr_compressed r.
Proof.
  unfold compressResultSchema. intros H. do 15 (apply bind_Some in H as (? & _ & H)). cbv zeta in H. case_test_in H; [|done]. injection H as <-.
  unfold wire_refine in E. do 4 apply andb_true_iff in E as [E _]. symmetry. by apply eqb_prop.
Qed.

(** C21: a failing rtk never alters a tool's output.  Once the request of a
    [compress] has settled, in any run, the outcome is one of these: a result
    that the server sent in a reply to this very request and that satisfies the
    result schema; the input itself, with the reason of the failure; or an
    exception, which only a refusal the server sent for this request or the
    shutdown of the client can cause. *)
Theorem rtk_client_fail_open maxRestartAttempts maxFrameBytes write_fails ok events id params timeoutMs now s input :
  0 <= maxRestartAttempts → NoDup (request_ids events) → EvRequest OpCompress params id timeoutMs now ∈ events →
  let c := run maxRestartAttempts maxFrameBytes write_fails ok events in
  Settled id s ∈ cl_log c →
  match compress_outcome input s with
  | Ok (Compressed r) => reply_of c id r ∧ wr_compressed r = true
  | Ok (Passthrough output _ _ (Some r)) => reply_of c id r ∧ wr_compressed r = false ∧ output = wr_output r
  | Ok (Passthrough output degraded status None) => output = to_output input ∧ is_Some degraded ∧ status = StDegraded
  | Throw (RtkServerError error) => ∃ line, Received line ∈ cl_log c ∧ response_line line = Some (ResponseError id error)
  | Throw _ => cl_shuttingDown c = true
  end.
Proof.
  intros Hm Hn He c Hs. pose proof (run_ok _ maxFrameBytes write_fails ok events Hm Hn) as H. fold c in H. destruct H as [[H _] _].
  pose proof (xo_justified _ _ H id s Hs) as Hj. destruct s as [data|[f|error|m]]; cbn [justified] in Hj.
  - destruct Hj as (op & line & v & Hr & Hl & Hv & Hd). assert (op = OpCompress) as ->.
    { apply (requested_once c id); [apply H|done|]. by eapply run_logs. }
    cbn [RESULT_SCHEMAS] in Hd. apply fmap_Some in Hd as (r & Hd & ->). cbn [compress_outcome].
    assert (reply_of c id r) as Ha by (exists line, v; done). pose proof (schema_compressed v r Hd) as Hc.
    destruct (wr_compressed r) eqn:Ec; cbn [andb]; [by rewrite Hc|]. done.
  - by destruct f.
  - exact Hj.
  - exact Hj.
Qed.

Definition demo_output : ToolOutput := mkOutput (js "bash") (js "text") None None None None None (js "s1") None.
Definition demo_compress : list Event :=
  [EvStdout 1 demo_hello 0; EvRequest OpCompress (compress_params 512 demo_output) (js "r1") 40 0; EvTimer (js "r1") 40].
Lemma demo_settled : Settled (js "r1") (inr (Failure FTimeout)) ∈ cl_log (run 5 (8 * 1024 * 1024) (λ _ _, false) true demo_compress).
Proof. vm_compute. do 3 right. left. Qed.
Lemma rtk_client_fail_open_witness :
  NoDup (request_ids demo_compress)
  ∧ Settled (js "r1") (inr (Failure FTimeout)) ∈ cl_log (run 5 (8 * 1024 * 1024) (λ _ _, false) true demo_compress)
  ∧ compress_outcome demo_output (inr (Failure FTimeout)) = Ok (Passthrough (js "text") (Some DRtimeout) StDegraded None)
  ∧ js "text" = to_output demo_output.
Proof.
  assert (NoDup (request_ids demo_compress)) as Hn by decide_now.
  assert (EvRequest OpCompress (compress_params 512 demo_output) (js "r1") 40 0 ∈ demo_compress) as He by (right; left).
  pose proof (rtk_client_fail_open 5 (8 * 1024 * 1024) (λ _ _, false) true demo_compress (js "r1") _ _ _ _ demo_output ltac:(lia) Hn He demo_settled) as (H & _ & _).
  split; [exact Hn|]. split; [exact demo_settled|]. split; [reflexivity|exact H].
Defined.

(** ** Slowness is not corruption *)

(** A reply the client waits for, or has stopped waiting for. *)
Definition good_reply (c : Client) (line : jstr) : Prop :=
  ∃ r, response_line line = Some r ∧ cl_inFlightId c = Some (response_id r)
  ∧ match r with
    | ResponseOk id v => ∀ p, get id (cl_pending c) = Some p → is_Some (v ≫= RESULT_SCHEMAS (pd_op p))
    | ResponseError _ _ => True
    end.
Definition good_line (c : Client) (line : jstr) : Prop :=
  if cl_helloDone c then good_reply c line else is_Some (parse line ≫= helloSchema).

(** A turn in which the child keeps to the protocol, at any speed: a chunk ends
    at most one line, which is the handshake or a reply to the request in
    flight, and the child leaves no half line behind. *)
Definition honest (maxFrameBytes : Z) (c : Client) (e : Event) : Prop :=
  match e with
  | EvStdout p chunk _ => cl_proc c = Some p → ∃ recon lines, push maxFrameBytes (cl_recon c) chunk = (recon, Lines lines)
      ∧ (lines = [] ∨ ∃ line, lines = [line] ∧ good_line c line)
  | EvStdoutEnd p tail _ => cl_proc c = Some p → tail = [] ∧ parts (cl_recon c) = []
  | _ => True
  end.
Fixpoint honest_run (m max : Z) (write_fails : nat → jstr → bool) (c : Client) (events : list Event) : Prop :=
  match events with
  | [] => True
  | e :: events => honest max c e ∧ honest_run m max write_fails (apply_event m max write_fails c e) events
  end.

(** The children killed by force, in order. *)
Definition kill_of (e : Effect) : option nat := match e with Killed p SIGKILL => Some p | _ => None end.
Definition kills (c : Client) : list nat := omap kill_of (cl_log c).
(** The two occasions on which a child that keeps to the protocol is killed: the
    stall timer finds it still busy with a request that has timed out, or it has
    not exited within the grace after a handshake that came to nothing. *)
Definition late_kill (c : Client) (e : Event) (p : nat) : Prop :=
  match e with
  | EvStalled => cl_proc c = Some p ∧ ∃ id, cl_inFlightId c = Some id ∧ Settled id (inr (Failure FTimeout)) ∈ cl_log c
  | EvGrace => ∃ s, cl_spawn c = Some s ∧ sp_terminating s = true ∧ sp_proc s = p
  | _ => False
  end.
(** The occasions of a run, each with the state it finds and the state it leaves. *)
Fixpoint occasions (m max : Z) (write_fails : nat → jstr → bool) (c : Client) (events : list Event) : list (Client * Event * Client) :=
  match events with
  | [] => []
  | e :: events => let c' := apply_event m max write_fails c e in (c, e, c') :: occasions m max write_fails c' events
  end.

Section Calm.
Context (m max : Z) (write_fails : nat → jstr → bool) (Hmax : 0 <= m).
Context (killed : list nat).

(** A request the client no longer waits for, though its answer may still come. *)
Definition given_up (c : Client) (id : jstr) : Prop := id ∈ cl_lateReplyIds c ∧ Settled id (inr (Failure FTimeout)) ∈ cl_log c.
(** No line counts against the child, and none can; these have been killed so far. *)
Record calm (c : Client) : Prop := {
  ca_streak : cl_protocolStreak c = 0;
  ca_kills : kills c = killed;
  ca_awaited : cl_shuttingDown c = false → ∀ id, cl_inFlightId c = Some id → cl_ready c = true ∧ (is_Some (get id (cl_pending c)) ∨ given_up c id) }.

Lemma kills_note e c : kill_of e = None → kills (note e c) = kills c.
Proof. intros He. unfold kills. fields. rewrite omap_app. cbn. by rewrite He, app_nil_r. Qed.
Lemma kills_settle id s c : kills (settle id s c) = kills c.
Proof. unfold settle. destruct (get id (cl_pending c)); [|done]. by rewrite kills_note. Qed.

Lemma calm_same c c' : supervision c' = supervision c → cl_pending c' = cl_pending c → cl_inFlightId c' = cl_inFlightId c → cl_lateReplyIds c' = cl_lateReplyIds c →
  cl_protocolStreak c' = cl_protocolStreak c → cl_log c' = cl_log c → calm c → calm c'.
Proof.
  intros E Ep Ei El Es Eg [H1 H2 H3]. unfold supervision in E. injection E as E1 E2 E3 E4 E5 E6 E7 E8.
  constructor; unfold given_up, kills in *; rewrite ?E2, ?E3, ?Ep, ?Ei, ?El, ?Es, ?Eg; done.
Qed.

Lemma given_up_note e c id : given_up c id → given_up (note e c) id.
Proof. intros [H1 H2]. split; [done|]. fields. apply elem_of_app. by left. Qed.

Lemma calm_note e c : kill_of e = None → calm c → calm (note e c).
Proof.
  intros He [H1 H2 H3]. constructor; [done|by rewrite kills_note|]. intros Hs id Hi. destruct (H3 Hs id Hi) as [Hr [Hp|Hg]]; (split; [done|]).
  - by left.
  - right. by apply given_up_note.
Qed.

Lemma calm_drain now c : turn_ok m c → calm c → calm (drainQueue write_fails now c).
Proof.
  intros [H1 H2] H. unfold drainQueue. destruct (cl_inFlightId c) as [id|] eqn:Ei.
  - replace (drain_loop _ _ _ c) with c; [done|]. destruct (length (cl_queue c)); [done|]. cbn [drain_loop]. by rewrite Ei.
  - destruct (drain_loop_ok write_fails now (length (cl_queue c)) c H1 Ei) as [? K ? ? Es (l & El & Hl) Hf]. destruct H. constructor; [congruence| |].
    + unfold kills in *. rewrite El, omap_app, ca_kills0. replace (omap kill_of l) with (@nil nat); [by rewrite app_nil_r|].
      clear -Hl. induction l as [|e l IH]; [done|]. cbn. pose proof (Hl e ltac:(left)) as He. rewrite <- IH by (intros x Hx; apply Hl; by right). by destruct e.
    + intros _ id Hid. specialize (Hf id Hid). apply key_get in Hf. split; [|by left]. destruct Hf as [q Hq].
      apply (kp_pending _ _ K) in Hq. destruct (ro_procs _ _ H2 _ _ Hq) as (_ & Hr & _). pose proof (kp_supervision _ _ K) as E. unfold supervision in E. congruence.
Qed.

Lemma given_up_settle id s c i : given_up c i → given_up (settle id s c) i.
Proof. intros [H1 H2]. split; [|by apply (kp_log _ _ (settle_kept id s c))]. by rewrite (proj1 (proj2 (proj2 (settle_other id s c)))). Qed.

Lemma calm_settle id s c : cl_inFlightId c ≠ Some id ∨ id ∈ cl_lateReplyIds c ∧ s = inr (Failure FTimeout) ∧ is_Some (get id (cl_pending c)) →
  calm c → calm (settle id s c).
Proof.
  intros Hi [H1 H2 H3]. destruct (settle_other id s c) as (E1 & E2 & E3 & E4 & E5). pose proof (kp_supervision _ _ (settle_kept id s c)) as E. unfold supervision in E.
  injection E as J1 J2 J3 J4 J5 J6 J7 J8. constructor; [congruence| |].
  - by rewrite kills_settle.
  - rewrite J2, J3, E1. intros Hs i Ei. rewrite E5. destruct (H3 Hs i Ei) as [Hr Hc]. split; [done|]. case_bool_decide as Eq.
    + subst i. right. destruct Hi as [Hi|(Hl & -> & [q Hq])]; [congruence|]. split; [by rewrite E3|]. unfold settle. rewrite Hq. fields. apply elem_of_app. right. left.
    + destruct Hc as [Hc|Hc]; [by left|right; by apply given_up_settle].
Qed.

Lemma calm_refused id s op c : calm c → calm (note (Settled id s) (note (Requested id op) c)).
Proof. intros H. by apply calm_note, calm_note. Qed.

Lemma calm_request op params id timeoutMs now c : client_ok m c → id ∉ requested c → calm c → calm (request write_fails op params id timeoutMs now c).
Proof.
  intros Hc Hf H. unfold request. cbn zeta. fields. destruct (cl_shuttingDown c) eqn:Es; [by apply calm_refused|].
  destruct (cl_ready c) eqn:Er; [|by apply calm_refused]. destruct (cl_proc c) as [p|] eqn:Ep; [|by apply calm_refused].
  destruct (cl_breakerOpen c); [by apply calm_refused|]. destruct (cl_spawn c) eqn:Esp; [by apply calm_refused|].
  destruct (_ || _) eqn:E; [by apply calm_refused|]. apply orb_false_iff in E as [El%Nat.leb_gt Eb%Z.ltb_ge].
  apply calm_drain; [by apply enqueue_request_ok|]. assert (calm (note (Requested id op) c)) as [H1 H2 H3] by by apply calm_note. constructor; [done|done|].
  intros _ i Hi. destruct (H3 Es i Hi) as [_ Ha]. split; [done|]. unfold enqueue. fields. destruct (decide (i = id)) as [->|Hne]; [left; by rewrite get_set_eq|].
  by rewrite get_set_ne.
Qed.

Lemma remembered id c : (length (cl_lateReplyIds c) <= LATE_REPLY_RING)%nat → id ∈ cl_lateReplyIds (rememberLateReply id c).
Proof.
  intros Hl. unfold rememberLateReply. fields. destruct (LATE_REPLY_RING <? _)%nat eqn:El; [|case_bool_decide; [done|]; apply elem_of_app; right; left].
  apply Nat.ltb_lt in El. case_bool_decide as Em; [lia|]. destruct (cl_lateReplyIds c) as [|j l]; [cbn in El; unfold LATE_REPLY_RING in El; lia|].
  cbn [app tail]. apply elem_of_app. right. left.
Qed.

Lemma calm_timer id now c : client_ok m c → calm c → calm (on_timer write_fails id now c).
Proof.
  intros Hc H. unfold on_timer. destruct (get id (cl_pending c)) as [p|] eqn:Eg; [|done].
  apply calm_drain; [apply timed_out_ok; [done|apply Hc]|]. unfold timed_out, reject. case_bool_decide as Ei; [|apply calm_settle; [by left|done]].
  pose proof (remembered id c (xo_late _ _ (proj1 (co_turn _ _ Hc)))) as Hl. apply calm_settle; [right; split_and!; [done|done|by exists p]|]. destruct H as [H1 H2 H3].
  constructor; [done|done|]. intros Hs i Hi. destruct (H3 Hs i Hi) as [Hr _]. split; [done|left]. change (cl_inFlightId c = Some i) in Hi. assert (i = id) as -> by congruence. by exists p.
Qed.

Lemma calm_answered id c : cl_inFlightId c = Some id → calm c →
  calm (answered id c) ∧ cl_inFlightId (answered id c) = None ∧ cl_pending (answered id c) = cl_pending c ∧ cl_lateReplyIds (answered id c) = cl_lateReplyIds c.
Proof. intros Ei []. unfold answered. by rewrite bool_decide_true. Qed.

Lemma calm_free c c' : cl_inFlightId c' = None → cl_log c' = cl_log c → cl_protocolStreak c' = 0 → calm c → calm c'.
Proof. intros F1 F2 F3 [H1 H2 H3]. constructor; [done|unfold kills in *; by rewrite F2|]. intros _ i. by rewrite F1. Qed.

Lemma calm_good line c : good_reply c line → cl_shuttingDown c = false → calm c → calm (onFrame line c).
Proof.
  intros (r & Hr & Ei & Hg) Hsh H. unfold onFrame. unfold response_line in Hr. apply bind_Some in Hr as (v & Ep & Er). rewrite Ep, Er. cbn zeta.
  assert (calm (note (Received line) c)) as H0 by by apply calm_note. destruct (ca_awaited _ H0 Hsh _ Ei) as [_ Ha].
  destruct (calm_answered (response_id r) (note (Received line) c) Ei H0) as (A1 & A2 & A3 & A4).
  destruct r as [id w|id e]; cbn [response_id] in *; set (c1 := answered id (note (Received line) c)) in *.
  - rewrite A3. change (cl_pending (note (Received line) c)) with (cl_pending c) in *. destruct (get id (cl_pending c)) as [p|] eqn:Eg.
    + destruct (Hg p eq_refl) as [data ->]. apply calm_settle; [left; fields; by rewrite A2|]. by apply (calm_free c1).
    + rewrite A4. destruct Ha as [[? ?]|[Hl _]]; [done|]. rewrite bool_decide_true by done. apply (calm_free c1); try done. apply A1.
  - apply (calm_free (reject id (RtkServerError e) c1)); try done.
    + unfold reject. fields. by rewrite (proj1 (settle_other _ _ _)).
    + apply calm_settle; [left; by rewrite A2|done].
Qed.

Lemma calm_line line c : good_line c line → cl_shuttingDown c = false → calm c → calm (on_line c line).
Proof. intros Hg Hs H. unfold good_line, on_line in *. destruct (cl_helloDone c); [by apply calm_good|]. by apply (calm_same c). Qed.

Lemma calm_schedule c : calm c → calm (scheduleRestart m c).
Proof. intros H. unfold scheduleRestart. case_test; [done|]. cbv zeta. case_test; destruct H; constructor; done. Qed.

(** Rejecting everything leaves nothing to wait for once the pipe is free. *)
Lemma calm_rejects r ids : ∀ c, cl_inFlightId c = None ∨ cl_shuttingDown c = true → calm c → calm (foldl (λ c id, reject id r c) c ids).
Proof.
  induction ids as [|id ids IH]; [done|]. intros c Hi H. cbn [foldl]. destruct (settle_other id (inr r) c) as (E1 & _ & E3 & E4 & E5).
  pose proof (kp_supervision _ _ (settle_kept id (inr r) c)) as E. unfold supervision in E. injection E as J1 J2 J3 J4 J5 J6 J7 J8. unfold reject in *. apply IH.
  - destruct Hi; [left|right]; congruence.
  - destruct Hi as [Hi|Hi]; [apply calm_settle; [left; by rewrite Hi|done]|]. destruct H as [H1 H2 H3]. constructor; [congruence| |intros; congruence]. by rewrite kills_settle.
Qed.

Lemma rejects_down r ids : ∀ c, cl_shuttingDown (foldl (λ c id, reject id r c) c ids) = cl_shuttingDown c
  ∧ cl_inFlightId (foldl (λ c id, reject id r c) c ids) = cl_inFlightId c.
Proof.
  induction ids as [|id ids IH]; [done|]. intros c. cbn [foldl]. destruct (IH (reject id r c)) as [-> ->]. destruct (settle_other id (inr r) c) as [Ei _]. pose proof (kp_supervision _ _ (settle_kept id (inr r) c)) as H. unfold supervision in H.
  unfold reject. split; congruence.
Qed.

Lemma calm_shutdown c : calm c → calm (shutdown c).
Proof.
  intros H. unfold shutdown. case_test; [done|]. destruct H as [H1 H2 H3]. cbv zeta. set (c1 := clearTimers _). assert (calm c1) as Hc.
  { constructor; [done|done|]. intros Es. unfold c1, clearTimers in Es. fields in Es. discriminate Es. }
  pose proof (calm_rejects (PlainError (js "RtkClient is shutting down")) (cl_pending c1).*1 c1 (or_intror eq_refl) Hc) as [J1 J2 J3].
  set (c2 := foldl _ _ _) in *. assert (cl_shuttingDown c2 = true) as Es.
  { unfold c2. by rewrite (proj1 (rejects_down _ _ _)). }
  assert (calm (set_proc None (set_ready false (set_pending [] c2)))) as H by (constructor; [done|done|intros E'; fields in E'; congruence]).
  destruct (cl_proc c2); [|done]. by apply calm_note.
Qed.

Lemma calm_failed o c : cl_inFlightId c = None ∨ cl_shuttingDown c = true → calm c → calm (spawn_failed m o c).
Proof.
  intros Hi H. unfold spawn_failed. cbv zeta. assert (calm (set_spawn None c)) as H' by (destruct H; by constructor).
  destruct o; [by apply calm_shutdown|by apply calm_schedule|done].
Qed.

Lemma calm_spawn o ok c : cl_inFlightId c = None ∨ cl_shuttingDown c = true → calm c → calm (spawn_child m o ok c).
Proof. intros Hi H. unfold spawn_child. destruct ok; [|by apply calm_failed]. cbv zeta. apply calm_note; [done|]. destruct H. by constructor. Qed.

Lemma calm_try o ok c : cl_inFlightId c = None ∨ cl_shuttingDown c = true → calm c → calm (trySpawn m o ok c).
Proof. intros Hi H. unfold trySpawn. case_test; [|by apply calm_spawn]. destruct o, (cl_proc c); try done. by apply calm_schedule. Qed.

Lemma calm_terminate s c : calm c → calm (terminate s c).
Proof. intros H. unfold terminate. apply calm_note; [done|]. destruct H. by constructor. Qed.

Lemma calm_hello c : calm c → cl_inFlightId c = None ∨ cl_shuttingDown c = true ∨ cl_spawn c = None → calm (after_hello c).
Proof.
  intros H Hi. unfold after_hello. destruct (cl_spawn c) as [s|] eqn:Es; [|done]. destruct (cl_hello c) as [[pid|]|]; [| |done].
  all: destruct (sp_terminating s || _); [done|].
  2: by apply calm_terminate.
  assert (∀ c', cl_inFlightId c' = cl_inFlightId c → cl_log c' = cl_log c → cl_protocolStreak c' = 0 → cl_shuttingDown c' = cl_shuttingDown c → calm c') as Hc.
  { intros c' F1 F2 F3 F4. destruct H as [H1 H2 H3]. constructor; [done|unfold kills in *; by rewrite F2|]. intros E i. rewrite F1. destruct Hi as [->|[Hi|Hi]]; [done|congruence|done]. }
  unfold greeted. cbv zeta. destruct (sp_origin s); [by apply Hc| |]; (destruct (cl_breakerOpen _); by apply Hc).
Qed.

Lemma calm_exit p c : calm c → calm (onChildExit m p c) ∧ (cl_inFlightId (onChildExit m p c) = None ∨ onChildExit m p c = c).
Proof.
  intros H. unfold onChildExit. case_test; [by split; [|right]|]. cbv zeta. set (c1 := set_helloPid _ _).
  assert (calm c1) as H1 by (by apply (calm_free c); try apply H). case_test; [by split; [|left]|].
  pose proof (calm_rejects (Failure FCrash) (cl_pending c1).*1 c1 (or_introl eq_refl) H1) as H2.
  assert (cl_inFlightId (foldl (λ c id, reject id (Failure FCrash) c) c1 (cl_pending c1).*1) = None) as E1 by by rewrite (proj2 (rejects_down _ _ _)).
  set (c2 := foldl _ _ _) in *. split; [|left].
  - apply calm_schedule. by apply (calm_free c2); try apply H2.
  - unfold scheduleRestart, tripBreaker. cbv zeta. repeat case_test; done.
Qed.

(** Without a child ready to answer nothing is in flight. *)
Lemma calm_quiet c : calm c → cl_ready c = false → cl_inFlightId c = None ∨ cl_shuttingDown c = true.
Proof.
  intros H Hr. destruct (cl_inFlightId c) as [id|] eqn:Ei; [|by left]. right. destruct (cl_shuttingDown c) eqn:Es; [done|].
  destruct (ca_awaited _ H Es id Ei). congruence.
Qed.

Lemma mode_ready c : mode_ok c → cl_ready c = false ∨ cl_spawn c = None.
Proof. intros []; unfold serving in *; naive_solver. Qed.
Lemma mode_child c p : mode_ok c → cl_proc c = Some p → cl_shuttingDown c = false.
Proof. intros [] E; unfold serving in *; naive_solver congruence. Qed.

Lemma frame_spawn line c : cl_spawn (onFrame line c) = cl_spawn c.
Proof.
  assert (∀ c, cl_spawn (checkProtocolStreak c) = cl_spawn c) as H1 by (intros c0; unfold checkProtocolStreak; repeat case_match; done).
  assert (∀ id s c, cl_spawn (settle id s c) = cl_spawn c) as H2.
  { intros id s c0. pose proof (kp_supervision _ _ (settle_kept id s c0)) as E. unfold supervision in E. congruence. }
  assert (∀ id c, cl_spawn (answered id c) = cl_spawn c) as H3 by (intros id c0; unfold answered; by case_test).
  unfold onFrame, protocolFailure, reject. cbn zeta. repeat case_match; rewrite ?H1; fields; rewrite ?H2; fields; rewrite ?H3; done.
Qed.

Lemma feed_nothing c : feed_chunk max [] c = c.
Proof. unfold feed_chunk, push. cbn. by destruct c. Qed.

Lemma calm_event c e : fresh c e → client_ok m c → honest max c e → e ≠ EvStalled → e ≠ EvGrace → calm c → calm (apply_event m max write_fails c e).
Proof.
  intros Hf Hc Hh Hn1 Hn2 H. pose proof (ro_mode _ _ (proj2 (co_turn _ _ Hc))) as Hm.
  assert (cl_spawn c ≠ None → cl_inFlightId c = None ∨ cl_shuttingDown c = true) as Hsp.
  { intros Hs. apply calm_quiet; [done|]. by destruct (mode_ready c Hm). }
  assert (cl_inFlightId c = None ∨ cl_shuttingDown c = true ∨ cl_spawn c = None) as Hsp2.
  { destruct (cl_spawn c); [|by right; right]. destruct Hsp; [done|by left|by right; left]. }
  assert (cl_restartTimer c ≠ None ∨ cl_probeTimer c = true → cl_inFlightId c = None ∨ cl_shuttingDown c = true) as Ht.
  { intros Ht. apply calm_quiet; [done|]. clear -Hm Ht. destruct Hm; unfold serving in *; naive_solver congruence. }
  destruct e as [op params id timeoutMs now|id now| |p chunk now|p tail now|p| | |ok|ok|]; cbn [apply_event honest] in *.
  - by apply calm_request.
  - by apply calm_timer.
  - done.
  - case_bool_decide as Ep; [|done]. apply calm_drain; [by apply after_hello_ok, feed_chunk_ok, Hc|].
    destruct (Hh Ep) as (r & lines & Epush & Hl). unfold feed_chunk. rewrite Epush. set (c1 := set_recon r c). assert (calm c1) as H1 by by apply (calm_same c).
    destruct Hl as [->|(line & -> & Hg)]; cbn [foldl]; [by apply calm_hello|]. pose proof (mode_child c p Hm Ep) as Es.
    apply calm_hello; [by apply calm_line|]. unfold on_line. change (cl_helloDone c1) with (cl_helloDone c). unfold good_line in Hg. destruct (cl_helloDone c); [|exact Hsp2].
    destruct (cl_spawn c) as [s|] eqn:Esp; [|by right; right; rewrite frame_spawn]. destruct Hg as (rr & _ & Ei & _). destruct Hsp; [done|congruence|congruence].
  - case_bool_decide as Ep; [|done]. destruct (Hh Ep) as [-> Hp]. rewrite feed_nothing. unfold flush. rewrite Hp. cbn [concat foldl].
    apply calm_drain; [|apply calm_hello; [by apply (calm_same c)|exact Hsp2]]. apply (after_hello_ok m Hmax), (turn_same _ c); try done. apply Hc.
  - destruct (calm_exit p c H) as [H1 H2]. cbv zeta. destruct (cl_spawn (onChildExit m p c)) as [s|] eqn:Es; [|exact H1]. case_test; [|exact H1]. apply calm_failed; [|exact H1].
    destruct H2 as [H2|H2]; [by left|]. rewrite H2 in *. apply Hsp. congruence.
  - destruct (cl_spawn c); [|done]. case_test; [done|]. by apply calm_terminate.
  - done.
  - destruct (cl_restartTimer c) eqn:Et; [|done]. apply calm_try; [apply Ht; by left|destruct H; by constructor].
  - destruct (cl_probeTimer c) eqn:Et; [|done]. apply calm_try; [apply Ht; by right|done].
  - by apply calm_shutdown.
Qed.
End Calm.

Definition calm_turn (t : Client * Event * Client) : Prop :=
  let '(c, e, c') := t in cl_protocolStreak c' = 0 ∧ (kills c' = kills c ∨ ∃ p, kills c' = kills c ++ [p] ∧ late_kill c e p).

Lemma calm_stalled m killed c : client_ok m c → calm killed c →
  ∃ new, calm (killed ++ new) (on_stalled c) ∧ (new = [] ∨ ∃ p, new = [p] ∧ late_kill c EvStalled p).
Proof.
  intros Hc H. unfold on_stalled. destruct (cl_stalledTimer c) as [[p id]|] eqn:Est; [|exists []; rewrite app_nil_r; by split; [|left]].
  destruct (ro_stalled _ _ (proj2 (co_turn _ _ Hc)) _ _ Est) as (Ei & Ep & Eq). cbv zeta. destruct (_ && _ && _) eqn:Eb.
  - exists [p]. destruct H as [H1 H2 H3]. apply andb_true_iff in Eb as [_ Hs%negb_true_iff]. fields in Hs. split.
    + constructor; [done|unfold kills in *; fields; by rewrite omap_app, H2|]. intros E i Hi. destruct (H3 E i Hi) as [Hr [Hg|Hg]]; (split; [done|]); [by left|].
      right. by apply given_up_note.
    + right. exists p. split; [done|]. split; [done|]. exists id. split; [done|]. destruct (H3 Hs id Ei) as [_ [[q Hq]|[_ Hg]]]; [congruence|done].
  - exists []. rewrite app_nil_r. split; [|by left]. by apply (calm_same _ c).
Qed.

Lemma calm_grace m max write_fails killed c : calm killed c →
  ∃ new, calm (killed ++ new) (apply_event m max write_fails c EvGrace) ∧ (new = [] ∨ ∃ p, new = [p] ∧ late_kill c EvGrace p).
Proof.
  intros H. cbn [apply_event]. destruct (cl_spawn c) as [s|] eqn:Es; [|exists []; rewrite app_nil_r; by split; [|left]].
  destruct (sp_terminating s) eqn:Et; [|exists []; rewrite app_nil_r; by split; [|left]]. exists [sp_proc s]. destruct H as [H1 H2 H3]. split.
  - constructor; [done|unfold kills in *; fields; by rewrite omap_app, H2|]. intros E i Hi. destruct (H3 E i Hi) as [Hr [Hg|Hg]]; (split; [done|]); [by left|].
    right. by apply given_up_note.
  - right. exists (sp_proc s). split; [done|]. by exists s.
Qed.

Lemma calm_step m max write_fails killed c e : 0 <= m → fresh c e → client_ok m c → honest max c e → calm killed c →
  ∃ new, calm (killed ++ new) (apply_event m max write_fails c e) ∧ (new = [] ∨ ∃ p, new = [p] ∧ late_kill c e p).
Proof.
  intros Hm Hf Hc Hh H.
  assert (e ≠ EvStalled → e ≠ EvGrace → ∃ new, calm (killed ++ new) (apply_event m max write_fails c e) ∧ (new = [] ∨ ∃ p, new = [p] ∧ late_kill c e p)) as Hn.
  { intros H1 H2. exists []. rewrite app_nil_r. split; [by apply calm_event|by left]. }
  destruct e; try (by apply Hn); [by eapply calm_stalled|by eapply calm_grace].
Qed.

Lemma occasions_snoc m max write_fails events e : ∀ c, occasions m max write_fails c (events ++ [e]) =
  occasions m max write_fails c events ++ [(foldl (apply_event m max write_fails) c events, e, foldl (apply_event m max write_fails) c (events ++ [e]))].
Proof. induction events as [|a events IH]; intros c; [done|]. cbn [app occasions foldl]. by rewrite IH. Qed.

Lemma calm_run m max write_fails ok events : 0 <= m → NoDup (request_ids events) →
  honest_run m max write_fails (create m ok) events →
  (∃ killed, calm killed (run m max write_fails ok events)) ∧ Forall calm_turn (occasions m max write_fails (create m ok) events).
Proof.
  intros Hm. unfold run. induction events as [|e events IH] using rev_ind; intros Hn Hh.
  - cbn [foldl occasions]. split; [|by apply Forall_nil_2]. exists []. apply calm_spawn; [by left|]. constructor; done.
  - assert (honest_run m max write_fails (create m ok) events ∧ honest max (foldl (apply_event m max write_fails) (create m ok) events) e) as [H1 H2].
    { revert Hh. generalize (create m ok). clear. induction events as [|a events IH]; intros c; cbn [app honest_run foldl]; [tauto|].
      intros [Ha H]. destruct (IH _ H). tauto. }
    pose proof Hn as Hn'. unfold request_ids in Hn'. rewrite omap_app in Hn'. apply NoDup_app in Hn' as (Hn1 & Hd & _).
    destruct (IH Hn1 H1) as [[killed Hc] Ht]. rewrite occasions_snoc, foldl_snoc.
    assert (fresh (foldl (apply_event m max write_fails) (create m ok) events) e) as Hfr.
    { destruct e as [op params id timeoutMs now| | | | | | | | | |]; try done. cbn [fresh]. intros Hin. change (foldl _ _ events) with (run m max write_fails ok events) in Hin.
      rewrite run_requested in Hin. apply (Hd id Hin). left. }
    destruct (calm_step m max write_fails killed _ e Hm Hfr (run_ok _ _ _ _ _ Hm Hn1) H2 Hc) as (new & Hc' & Hnew). split; [by eexists|].
    apply Forall_app. split; [done|]. apply Forall_singleton. unfold calm_turn. split; [apply Hc'|].
    rewrite (ca_kills _ _ Hc'), (ca_kills _ _ Hc). destruct Hnew as [->|(p & -> & Hp)]; [left; by rewrite app_nil_r|right; by exists p].
Qed.

(** C30: a child that keeps to the protocol is not punished for its replies.  As
    long as the child's lines are the handshake and replies to the request in
    flight, whenever they come, however many requests have timed out before, and
    however often children exit and are replaced, no line is counted against it;
    and a turn kills a child by force only if the stall timer finds it still busy
    with a request that has already been settled as timed out, or if it outlives
    the grace that follows a failed handshake.  (The kill that may follow the
    SIGTERM of [shutdown] three seconds later is outside the model: the client
    has let go of the child by then.) *)
Theorem rtk_client_patient maxRestartAttempts maxFrameBytes write_fails ok events :
  0 <= maxRestartAttempts → NoDup (request_ids events) →
  honest_run maxRestartAttempts maxFrameBytes write_fails (create maxRestartAttempts ok) events →
  Forall (λ '(c, e, c'), cl_protocolStreak c' = 0 ∧ (kills c' = kills c ∨ ∃ p, kills c' = kills c ++ [p] ∧ late_kill c e p))
    (occasions maxRestartAttempts maxFrameBytes write_fails (create maxRestartAttempts ok) events).
Proof. intros Hm Hn Hh. exact (proj2 (calm_run _ _ _ _ _ Hm Hn Hh)). Qed.

(** A child that is slow but answers is kept; one that has not answered a second after the timeout is killed. *)
Definition stuck_events : list Event := demo_compress ++ [EvStalled].

Lemma stuck_honest : honest_run 5 (8 * 1024 * 1024) (λ _ _, false) (create 5 true) stuck_events.
Proof.
  unfold stuck_events, demo_compress. cbn [app honest_run honest]. repeat match goal with |- _ ∧ _ => split end; try exact I.
  intros _; eexists; eexists; (split; [vm_compute; reflexivity|]); right; eexists; (split; [reflexivity|]). vm_compute. by eexists.
Qed.
Lemma last_occasion m max write_fails ok events e P :
  Forall P (occasions m max write_fails (create m ok) (events ++ [e])) → P (run m max write_fails ok events, e, run m max write_fails ok (events ++ [e])).
Proof. rewrite occasions_snoc. by intros [_ [H _]%Forall_cons_1]%Forall_app. Qed.
Lemma stuck_ids : NoDup (request_ids stuck_events).
Proof. decide_now. Qed.

Lemma rtk_client_patient_witness :
  (honest_run 5 (8 * 1024 * 1024) (λ _ _, false) (create 5 true) demo_events
   ∧ Forall (λ '(_, _, c'), cl_protocolStreak c' = 0) (occasions 5 (8 * 1024 * 1024) (λ _ _, false) (create 5 true) demo_events)
   ∧ kills (run 5 (8 * 1024 * 1024) (λ _ _, false) true demo_events) = [])
  ∧ (kills (run 5 (8 * 1024 * 1024) (λ _ _, false) true stuck_events) = [1%nat]
     ∧ late_kill (run 5 (8 * 1024 * 1024) (λ _ _, false) true demo_compress) EvStalled 1).
Proof.
  assert (honest_run 5 (8 * 1024 * 1024) (λ _ _, false) (create 5 true) demo_events) as H.
  { cbn [demo_events honest_run honest]. repeat match goal with |- _ ∧ _ => split end; try exact I.
    all: intros _; eexists; eexists; (split; [vm_compute; reflexivity|]); right; eexists; (split; [reflexivity|]).
    - vm_compute. by eexists.
    - unfold good_line. match goal with |- if ?b then _ else _ => assert (b = true) as -> by (vm_compute; reflexivity) end.
      eexists (ResponseOk (js "r1") _). split; [vm_compute; reflexivity|]. split; [vm_compute; reflexivity|]. intros p Hp. vm_compute in Hp. discriminate Hp.
    - unfold good_line. match goal with |- if ?b then _ else _ => assert (b = true) as -> by (vm_compute; reflexivity) end.
      eexists (ResponseOk (js "r2") _). split; [vm_compute; reflexivity|]. split; [vm_compute; reflexivity|]. intros p Hp. vm_compute in Hp. injection Hp as <-. vm_compute. by eexists. }
  split; [split; [exact H|]|split; [vm_compute; reflexivity|]].
  - split; [|vm_compute; reflexivity].
    refine (Forall_impl _ _ _ (rtk_client_patient 5 (8 * 1024 * 1024) (λ _ _, false) true demo_events ltac:(lia) demo_run_ids H) _).
    intros [[c e] c'] Ht. exact (proj1 Ht).
  - pose proof (rtk_client_patient 5 (8 * 1024 * 1024) (λ _ _, false) true stuck_events ltac:(lia) stuck_ids stuck_honest) as Ht.
    apply last_occasion in Ht as [_ Ht].
    assert (kills (run 5 (8 * 1024 * 1024) (λ _ _, false) true demo_compress) = []) as E1 by (vm_compute; reflexivity).
    assert (kills (run 5 (8 * 1024 * 1024) (λ _ _, false) true (demo_compress ++ [EvStalled])) = [1%nat]) as E2 by (vm_compute; reflexivity).
    rewrite E1, E2 in Ht. destruct Ht as [Ht|(p & Ep & Hp)]; [discriminate Ht|]. cbn [app] in Ep. injection Ep as <-. exact Hp.
Defined.
