(* ===== verification/RtkExchange.v ===== *)
(** * One compression through both ends of the pipe

    [RtkClient.compress] against the process of [RtkServer] over the engine of
    [RtkEngine]: the request is framed by the client, cut into chunks, read by
    the server, compressed and stored, framed, cut into chunks again, and read
    by the client.  What comes out is what the engine returned. *)

From stdpp Require Import base tactics list numbers option sets strings.
From S2P Require Import Prelude JsString JsRegex Json Paging Codec Jsonl Ansi CLine Budget StratBasic OMap Classify Pipeline Chat Objects Cas RtkEngine RtkWire RtkServer RtkClient.

(** ** The engine's results fit the wire *)

Lemma split_on_length sep s : zlen (split_on sep s) <= zlen s + 1.
Proof.
  induction s as [|c s IH]; [cbn; lia|]. cbn [split_on length]. destruct (c =? sep); [cbn [length]; lia|].
  destruct (split_on sep s); cbn [length] in *; lia.
Qed.

Lemma source_lines_length raw : zlen (source_lines raw) <= zlen raw + 1.
Proof.
  unfold source_lines. pose proof (split_on_length LF raw). cbv zeta. case_test; [|done].
  etrans; [|exact H]. apply inj_le. clear. induction (split_on LF raw) as [|x [|y l] IH]; cbn [removelast length] in *; lia.
Qed.

Lemma omitted_within retained n : Forall (λ r, 1 <= startLine r <= endLine r ∧ endLine r <= Z.of_nat n) (omitted_ranges retained n).
Proof. destruct (omitted_upto retained n) as [_ Hb _]. unfold omitted_ranges. by rewrite reverse_Permutation. Qed.

Lemma estimate_nonneg s : 0 <= estimateTokens s.
Proof. unfold estimateTokens, ceil4. apply Z.div_pos; lia. Qed.

Lemma within_sized retained n : Z.of_nat n <= MAX_SAFE_INTEGER →
  forallb (λ x, is_safe_integer (startLine x) && (0 <? startLine x) && (is_safe_integer (endLine x) && (0 <? endLine x))) (omitted_ranges retained n) = true.
Proof.
  intros Hn. apply forallb_forall. intros r Hr. rewrite <- list_elem_of_In in Hr. pose proof (omitted_within retained n) as H. rewrite Forall_forall in H.
  specialize (H r Hr). unfold is_safe_integer. unfold MAX_SAFE_INTEGER in *. repeat (apply andb_true_iff; split); rewrite ?Z.leb_le, ?Z.ltb_lt; lia.
Qed.

Lemma run_sized sha256Hex input budget :
  (∀ text, test HASH_RE (sha256Hex text) = true) → ci_budgetTokens input = Some budget → is_safe_integer budget && (0 <? budget) = true →
  zlen (raw_of input) < MAX_SAFE_INTEGER → wire_sized (compressToolOutput sha256Hex input) = true.
Proof.
  intros Hsha Hb Hs Hraw. set (raw := raw_of input) in *.
  assert (∀ trunc output c d notes s ranges,
    forallb (λ x, is_safe_integer (startLine x) && (0 <? startLine x) && (is_safe_integer (endLine x) && (0 <? endLine x))) ranges = true →
    wire_sized (build sha256Hex budget raw trunc output c d notes s ranges) = true) as Hbuild.
  { intros trunc output c d notes s ranges Hr. unfold wire_sized. cbn [build cr_targetTokens cr_actualTokens cr_rawTokensEst cr_outTokensEst cr_omittedRanges cr_rawHash].
    rewrite Hs, Hr, !(proj2 (Z.leb_le _ _) (estimate_nonneg _)). cbn [andb]. apply andb_true_iff. split; [by apply starts_with_app|].
    change (drop 7 (js "sha256:" ++ sha256Hex raw)) with (sha256Hex raw). apply Hsha. }
  unfold compressToolOutput. cbv zeta. rewrite Hb. cbn [default from_option id]. fold raw.
  destruct (_ || _ || _); [by apply Hbuild|]. destruct (_ <=? estimateTokens _); [by apply Hbuild|]. apply Hbuild, within_sized.
  pose proof (source_lines_length raw). lia.
Qed.

Lemma degrade_fits reason raw r : compressResult_refine r = true → wire_sized r = true →
  compressResult_refine (degrade reason raw r) = true ∧ wire_sized (degrade reason raw r) = true.
Proof.
  intros _ Hs. split.
  - unfold compressResult_refine, degrade. cbn [cr_compressed cr_status cr_outTokensEst cr_rawTokensEst cr_actualTokens cr_budgetExceeded cr_targetTokens cr_omittedRanges].
    rewrite bool_decide_false by done. by rewrite Z.eqb_refl, !eqb_reflx.
  - unfold wire_sized in *. cbn [degrade cr_targetTokens cr_actualTokens cr_rawTokensEst cr_outTokensEst cr_omittedRanges cr_rawHash forallb] in *.
    rewrite !andb_true_iff in *. tauto.
Qed.

Section Engine.
Context (sha256Hex : bytes → jstr) (dataDir : jstr) (maxStorageBytes : Z).
Context (Hsha : ∀ content, test HASH_RE (sha256Hex content) = true).

(** Valid parameters always get a result, and it fits the wire. *)
Lemma engine_fits st params id : compressParams_ok params = true → zlen (raw_of (pipeline_input params)) < MAX_SAFE_INTEGER →
  ∃ st' r, RtkEngine.compress sha256Hex dataDir maxStorageBytes st params id = (st', Ok r)
  ∧ compressResult_refine r = true ∧ wire_sized r = true ∧ (cr_compressed r = false → cr_output r = raw_of (pipeline_input params)).
Proof.
  intros Hok Hraw. unfold RtkEngine.compress. rewrite Hok. cbn [negb]. cbv zeta. set (run := compressToolOutput _ _).
  destruct (compress_refines (text_hash sha256Hex) (pipeline_input params)) as (R1 & R2 & R3 & R4 & R5 & R6). fold run in R1, R2, R3, R4, R5, R6.
  assert (wire_sized run = true) as Hsz.
  { apply (run_sized _ _ (default 512 (rp_budgetTokens params))); [intros; apply Hsha|done| |done].
    unfold compressParams_ok in Hok. apply andb_true_iff in Hok as [Hok _]. destruct (rp_budgetTokens params) as [n|]; [|done]. cbn [optionally default] in *.
    unfold positive_int in Hok. by rewrite andb_true_r in Hok. }
  destruct (run_pub _ _ _ _ _ _) as [store p]. eexists; eexists; split; [reflexivity|].
  destruct (pub_failure p) as [reason|]; [|by split_and!; [..|intros E; apply R6 in E as [? _]]].
  destruct (degrade_fits reason (cr_rawForStore run) run R1 Hsz). by split_and!.
Qed.
End Engine.

Lemma schema_params v p : compressParamsSchema v = Some p → compressParams_ok p = true.
Proof.
  unfold compressParamsSchema. intros H. do 7 (apply bind_Some in H as (? & _ & H)). apply bind_Some in H as (metadata & _ & H).
  apply bind_Some in H as (budget & Hb & H). apply bind_Some in H as (session & Hsn & H). apply bind_Some in H as (? & _ & [= <-]).
  unfold compressParams_ok. cbn [rp_budgetTokens rp_sessionId]. apply andb_true_iff. split.
  - destruct budget as [n|]; [|done]. unfold opt in Hb. destruct (assoc _ _) as [w|]; [|done]. apply fmap_Some in Hb as (m & Hm & [= <-]).
    unfold positive_of in Hm. apply bind_Some in Hm as (k & _ & Hm). destruct k; [|done|done]. case_test_in Hm; [|done]. injection Hm as <-. cbn [optionally].
    unfold positive_int. by rewrite E.
  - unfold req in Hsn. apply bind_Some in Hsn as (w & _ & Hsn). unfold id_of in Hsn. apply bind_Some in Hsn as (s & _ & Hsn). by destruct s; [|injection Hsn as <-].
Qed.

(** ** What is written can be read *)

Lemma request_json_ok id op params : units_ok id → json_ok params → json_ok (json_of_request id op params).
Proof.
  intros Hi Hp. unfold json_of_request. keys_ok. members_ok; [by apply ok_int|by apply ok_str|apply ok_str; destruct op; lit_ok|done].
Qed.

Lemma sized_int n : is_safe_integer n && (0 <? n) = true → json_ok (JNum (NInt n)).
Proof. intros [H _]%andb_true_iff. by apply ok_int. Qed.

(** The texts of a result are strings of the language, and its digest is one. *)
Definition texts_ok (r : CompressResult) : Prop := units_ok (cr_output r) ∧ Forall units_ok (cr_diagnostics r) ∧ units_ok (cr_rawHash r).
Definition counts_ok (r : CompressResult) : Prop := cr_actualTokens r <= MAX_SAFE_INTEGER ∧ cr_rawTokensEst r <= MAX_SAFE_INTEGER ∧ cr_outTokensEst r <= MAX_SAFE_INTEGER.

Lemma count_ok n : (0 <=? n) = true → n <= MAX_SAFE_INTEGER → json_ok (JNum (NInt n)).
Proof.
  intros H1 H2. apply Z.leb_le in H1. apply ok_int. unfold is_safe_integer. unfold MAX_SAFE_INTEGER in *. apply andb_true_iff. rewrite !Z.leb_le. lia.
Qed.

Lemma result_json_ok r : wire_sized r = true → counts_ok r → texts_ok r → json_ok (json_of_result r).
Proof.
  unfold wire_sized. rewrite !andb_true_iff. intros ((((((Ht1 & Ht2) & Ha) & Hra) & Ho) & Hr) & _ & _) (C1 & C2 & C3) (T1 & T2 & T3).
  unfold json_of_result. keys_ok. members_ok; try (by constructor); try (by apply count_ok).
  - apply ok_str. destruct (cr_status r); lit_ok.
  - apply ok_arr, Forall_map. apply Forall_forall. intros x Hx. rewrite forallb_forall in Hr. rewrite list_elem_of_In in Hx. specialize (Hr x Hx). cbn beta in Hr.
    apply andb_true_iff in Hr as [H1 H2]. unfold json_of_range. keys_ok. members_ok; by apply sized_int.
  - apply ok_arr, Forall_map. eapply Forall_impl; [exact T2|]. intros s Hs. by apply ok_str.
  - apply ok_str. destruct (cr_strategy r); lit_ok.
  - destruct (cr_degraded r) as [d|]; [|constructor]. keys_ok. members_ok. apply ok_str. destruct d; lit_ok.
Qed.

Lemma response_json_ok id v : units_ok id → json_ok v → json_ok (json_of_response (ResponseOk id (Some v))).
Proof. intros Hi Hv. cbn [json_of_response opt_field app]. keys_ok. members_ok; [by apply ok_int|by apply ok_str|constructor|done]. Qed.

(** A frame, cut anywhere, is one line. *)
Lemma frame_read max v chunks st : 0 <= max → buffering max st → parts st = [] → json_ok v → byte_length (stringify v) <= max →
  concat chunks = encodeFrame v → ∃ st', feed max st chunks = (st', Lines [stringify v]).
Proof.
  intros Hmax Hb Hp Hv Hs Hc. assert (text_of st = []) as Ht by (unfold text_of; by rewrite Hp).
  pose proof (frames_split [v] (Forall_cons_2 _ _ _ Hv (Forall_nil_2 _))) as Hsp. cbn [map concat app] in Hsp. rewrite app_nil_r, <- Hc in Hsp.
  destruct (feed_fits max chunks st Hmax Hb) as (st' & Hf & _).
  - rewrite Ht. cbn [app]. unfold fits. rewrite Hsp. repeat constructor; [done|cbn; lia].
  - rewrite Ht in Hf. cbn [app] in Hf. unfold complete_lines in Hf. rewrite Hsp in Hf. cbn [removelast map] in Hf.
    rewrite strip_cr_printable in Hf by (by apply stringify_printable). by exists st'.
Qed.

(** ** The two ends *)

Section Ends.
Context (maxRestartAttempts maxFrameBytes : Z) (write_fails : nat → jstr → bool) (Hmax : 0 <= maxFrameBytes).
#[local] Abbreviation step := (apply_event maxRestartAttempts maxFrameBytes write_fails).

(** A client that serves and has nothing to do. *)
Record at_rest (c : Client) (p : nat) : Prop := {
  ar_serving : serving c p;
  ar_breaker : cl_breakerOpen c = false;
  ar_pending : cl_pending c = [];
  ar_queue : cl_queue c = [];
  ar_bytes : cl_queuedBytes c = 0;
  ar_flight : cl_inFlightId c = None;
  ar_hello : cl_helloDone c = true;
  ar_recon : parts (cl_recon c) = [] ∧ buffering maxFrameBytes (cl_recon c) }.

(** A client that waits for the answer to its only request. *)
Record awaiting (c : Client) (p : nat) (id : jstr) (op : RtkOp) : Prop := {
  aw_serving : serving c p;
  aw_flight : cl_inFlightId c = Some id;
  aw_pending : ∃ pd, get id (cl_pending c) = Some pd ∧ pd_op pd = op;
  aw_hello : cl_helloDone c = true }.

Lemma request_sent c p op params id timeoutMs now : at_rest c p →
  let frame := encodeFrame (json_of_request id op params) in
  0 < timeoutMs → byte_length frame <= MAX_QUEUED_BYTES → write_fails p frame = false →
  let c' := step c (EvRequest op params id timeoutMs now) in
  Sent p frame ∈ cl_log c' ∧ awaiting c' p id op ∧ parts (cl_recon c') = [] ∧ buffering maxFrameBytes (cl_recon c').
Proof.
  intros [(Hp & Hr & Hsh & Hsp) Hb Hpe Hq Hby Hf Hh [Hrc1 Hrc2]] frame Ht Hs Hw. cbn [apply_event]. unfold request. cbv zeta. fields.
  rewrite Hsh, Hr, Hp, Hb, Hsp. fold frame. rewrite Hpe, Hby. cbn [length]. rewrite (proj2 (Z.ltb_ge _ _)) by lia. cbn [Nat.leb MAX_PENDING orb].
  unfold enqueue, drainQueue. fields. rewrite Hq, Hpe, Hby. cbn [app length drain_loop]. fields. rewrite Hf. cbv zeta. fields. cbn [jb_id jb_deadline jb_proc jb_frame].
  unfold has. cbn [set_key get]. rewrite bool_decide_true by done. cbn [negb]. rewrite (proj2 (Z.leb_gt _ _)) by lia.
  unfold usable. fields. rewrite Hp, bool_decide_true, Hr, Hsh, Hw by done. cbn [andb negb]. fields. split; [|split; [|done]].
  - apply elem_of_app. right. left.
  - constructor; [done|done| |done]. fields. cbn [get]. rewrite bool_decide_true by done. by eexists.
Qed.

Lemma waiting_chunk c p id op chunk now recon : awaiting c p id op → push maxFrameBytes (cl_recon c) chunk = (recon, Lines []) →
  step c (EvStdout p chunk now) = set_recon recon c.
Proof.
  intros [(Hp & Hr & Hsh & Hsp) Hf Hpe Hh] E. cbn [apply_event]. rewrite bool_decide_true by done. unfold feed_chunk. rewrite E. cbn [foldl].
  unfold after_hello. fields. rewrite Hsp. unfold drainQueue. fields. destruct (length (cl_queue c)); [done|]. cbn [drain_loop]. fields. by rewrite Hf.
Qed.

Lemma answer_settles c p id op v data line : awaiting c p id op → parse line = Some (json_of_response (ResponseOk id (Some v))) → id ≠ [] →
  RESULT_SCHEMAS op v = Some data → Settled id (inl data) ∈ cl_log (on_line c line).
Proof.
  intros [_ Hf (pd & Hg & Ho) Hh] Hl Hid Hd. unfold on_line. rewrite Hh. unfold onFrame. cbv zeta. rewrite Hl, response_read by done.
  unfold answered. fields. rewrite bool_decide_true by done. fields. rewrite Hg. cbn [mbind option_bind]. rewrite Ho, Hd.
  unfold settle. fields. rewrite Hg. fields. apply elem_of_app. right. left.
Qed.

Lemma log_kept c e x : x ∈ cl_log c → x ∈ cl_log (step c e).
Proof.
  intros H. destruct (event_quiet maxRestartAttempts maxFrameBytes write_fails c e) as (l & -> & _). apply elem_of_app. left.
  destruct e; cbn [requesting]; try done. fields. apply elem_of_app. by left.
Qed.
Lemma log_kept_run events : ∀ c x, x ∈ cl_log c → x ∈ cl_log (foldl step c events).
Proof. induction events as [|e events IH]; [done|]. intros c x H. cbn [foldl]. by apply IH, log_kept. Qed.

Lemma reply_settles p id op v data chunks : id ≠ [] → RESULT_SCHEMAS op v = Some data →
  ∀ c st line, awaiting c p id op → feed maxFrameBytes (cl_recon c) chunks.*1 = (st, Lines [line]) → parse line = Some (json_of_response (ResponseOk id (Some v))) →
  Settled id (inl data) ∈ cl_log (foldl step c (map (λ cn, EvStdout p cn.1 cn.2) chunks)).
Proof.
  intros Hid Hd. induction chunks as [|[chunk now] chunks IH]; intros c st line Ha Hf Hl; rewrite ?fmap_cons in Hf; cbn [fst feed fmap list_fmap] in Hf; [done|].
  destruct (push maxFrameBytes (cl_recon c) chunk) as [r1 [l1|l1]] eqn:Ep; [|done]. destruct (feed maxFrameBytes r1 _) as [r2 [l2|l2]] eqn:Ef; [|done].
  injection Hf as -> Hl12. cbn [map foldl fst snd]. destruct l1 as [|x [|y l1]]; [| |done].
  - cbn [app] in Hl12. subst l2. rewrite (waiting_chunk c p id op chunk now r1) by done. apply (IH _ st line); [|done|done]. by destruct Ha.
  - cbn [app] in Hl12. injection Hl12 as -> ->. apply log_kept_run. cbn [apply_event]. rewrite bool_decide_true by (by destruct Ha as [[? _] _ _ _]).
    destruct (quiet_drain write_fails now (length (cl_queue (after_hello (feed_chunk maxFrameBytes chunk c)))) (feed_chunk maxFrameBytes chunk c) (after_hello (feed_chunk maxFrameBytes chunk c)))
      as (l & E & _); [by apply quiet_hello, quiet_log|]. unfold drainQueue. rewrite E. apply elem_of_app. left. unfold feed_chunk. rewrite Ep. cbn [foldl].
    eapply answer_settles; [|done|done|done]. by destruct Ha.
Qed.
End Ends.

Section ServerEnd.
Context (sha256Hex : bytes → jstr) (dataDir : jstr) (maxStorageBytes : Z) (uuid : Z → jstr) (uptimeMs : Z → Z) (issues : RtkOp → option json → list jstr).
Context (maxFrameBytes : Z) (Hmax : 0 <= maxFrameBytes).
#[local] Abbreviation receive := (on_chunk sha256Hex dataDir maxStorageBytes false uuid uptimeMs issues maxFrameBytes).

Lemma drop_space_nil s : drop_space s = [] → Forall (λ c, is_space c = true) s.
Proof. induction s as [|c s IH]; [constructor|]. cbn [drop_space]. destruct (is_space c) eqn:E; [|done]. intros H. constructor; auto. Qed.
Lemma trim_kept c s : is_space c = false → trim (c :: s) ≠ [].
Proof.
  intros Hc E. unfold trim in E. cbn [drop_space] in E. rewrite Hc in E. apply (f_equal (@rev Z)) in E. rewrite rev_involutive in E. apply drop_space_nil in E.
  rewrite Forall_forall in E. specialize (E c). rewrite list_elem_of_In, <- in_rev in E. specialize (E (or_introl eq_refl)). congruence.
Qed.

Lemma request_envelope id op params : id ≠ [] → ENVELOPE_PRE_SCHEMA (json_of_request id op params) = Some (id, op_name op, Some params).
Proof.
  intros Hid. unfold ENVELOPE_PRE_SCHEMA, json_of_request. assert (version_of (JNum (NInt PROTOCOL_VERSION)) = Some tt) as Hv by (vm_compute; reflexivity).
  do 2 read_obj. rewrite Hv. do 2 read_obj. destruct id as [|c id]; [done|]. cbn [id_of str_of mbind option_bind]. do 2 read_obj. reflexivity.
Qed.

(** A request that arrives in any chunks is compressed and answered. *)
Lemma request_served b id params p st' r chunks : id ≠ [] → units_ok id → json_ok params →
  byte_length (stringify (json_of_request id OpCompress params)) <= maxFrameBytes →
  compressParamsSchema params = Some p →
  sv_exit (bn_server b) = None → parts (bn_recon b) = [] → buffering maxFrameBytes (bn_recon b) →
  RtkEngine.compress sha256Hex dataDir maxStorageBytes (sv_engine (bn_server b)) p (uuid (sv_linesSeen (bn_server b) + 1)) = (st', Ok r) →
  compressResult_refine r = true → wire_sized r = true →
  concat chunks = encodeFrame (json_of_request id OpCompress params) →
  let b' := foldl receive b chunks in
  sv_frames (bn_server b') = sv_frames (bn_server b) ++ [encodeFrame (json_of_response (ResponseOk id (Some (json_of_result r))))]
  ∧ sv_engine (bn_server b') = st' ∧ sv_exit (bn_server b') = None.
Proof.
  intros Hid Hu Hj Hs Hp He Hrc Hb Hc Hr Hz Hch b'. pose proof (request_json_ok id OpCompress params Hu Hj) as Hok.
  destruct (frame_read maxFrameBytes _ chunks (bn_recon b) Hmax Hb Hrc Hok Hs Hch) as (rc & Hf). unfold b'. rewrite (chunks_served sha256Hex dataDir maxStorageBytes uuid uptimeMs issues maxFrameBytes chunks b rc _ He Hf).
  cbn [bn_server foldl]. set (line := stringify _). assert (parse line = Some (json_of_request id OpCompress params)) as Hl by by apply parse_stringify.
  assert (trim line ≠ []) as Ht by (apply trim_kept; reflexivity). unfold handleLine. rewrite He. cbv zeta. unfold answer_line. destruct (trim line) as [|ch s]; [done|].
  rewrite Hl, (request_envelope id OpCompress params Hid), op_read. cbn [dispatch]. unfold engine_compress. cbn [mbind option_bind]. rewrite Hp, Hc.
  assert (emit id (json_of_result r) OpCompress = ResponseOk id (Some (json_of_result r))) as ->.
  { unfold emit. cbn [RESULT_SCHEMAS]. by rewrite result_read. }
  cbn [perform sv_frames sv_engine sv_exit]. rewrite He. split; [|done]. unfold writeChecked. by rewrite response_read.
Qed.
End ServerEnd.

(** C8: a compression survives the wire.  A client at rest asks a server at rest,
    in time and within the frame limits, for the compression of an output whose
    parameters the schema accepts: the request is sent, and however its bytes
    and those of the answer are cut into chunks on the way, the server answers
    once and the client settles the request with exactly the result of the
    engine.  The outcome is that result when it is compressed, and the engine's
    whole raw text, with the reason of a storage failure, when it is not. *)
Theorem rtk_compress_round_trip sha256Hex dataDir maxStorageBytes uuid uptimeMs issues maxRestartAttempts maxFrameBytes write_fails
    c p b input budgetTokens params id timeoutMs now requestChunks :
  (∀ content, test HASH_RE (sha256Hex content) = true ∧ units_ok (sha256Hex content)) → 0 <= maxFrameBytes →
  at_rest maxFrameBytes c p → sv_exit (bn_server b) = None → bn_recon b = reset →
  compressParamsSchema (compress_params budgetTokens input) = Some params → json_ok (compress_params budgetTokens input) → id ≠ [] → units_ok id → 0 < timeoutMs →
  let frame := encodeFrame (json_of_request id OpCompress (compress_params budgetTokens input)) in
  byte_length frame <= Z.min maxFrameBytes MAX_QUEUED_BYTES → write_fails p frame = false → concat requestChunks = frame →
  let raw := raw_of (pipeline_input params) in zlen raw < MAX_SAFE_INTEGER →
  let c1 := apply_event maxRestartAttempts maxFrameBytes write_fails c (EvRequest OpCompress (compress_params budgetTokens input) id timeoutMs now) in
  let b1 := foldl (on_chunk sha256Hex dataDir maxStorageBytes false uuid uptimeMs issues maxFrameBytes) b requestChunks in
  Sent p frame ∈ cl_log c1
  ∧ ∃ r, RtkEngine.compress sha256Hex dataDir maxStorageBytes (sv_engine (bn_server b)) params (uuid (sv_linesSeen (bn_server b) + 1)) = (sv_engine (bn_server b1), Ok r)
  ∧ sv_frames (bn_server b1) = sv_frames (bn_server b) ++ [encodeFrame (json_of_response (ResponseOk id (Some (json_of_result r))))]
  ∧ compress_outcome input (inl (RCompress (wire_of r)))
    = Ok (if cr_compressed r then Compressed (wire_of r) else
          Passthrough raw (match cr_degraded r with Some DRno_gain => None | d => d end)
            (if bool_decide (cr_status r = StDegraded) then StDegraded else StUnchanged) (Some (wire_of r)))
  ∧ (texts_ok r → counts_ok r → ∀ replyChunks, concat replyChunks.*1 = encodeFrame (json_of_response (ResponseOk id (Some (json_of_result r)))) →
     byte_length (stringify (json_of_response (ResponseOk id (Some (json_of_result r))))) <= maxFrameBytes →
     Settled id (inl (RCompress (wire_of r)))
       ∈ cl_log (foldl (apply_event maxRestartAttempts maxFrameBytes write_fails) c1 (map (λ cn, EvStdout p cn.1 cn.2) replyChunks))).
Proof.
  intros Hsha Hmax Hc He Hrc Hp Hj Hid Hu Ht frame Hs Hw Hch raw Hraw c1 b1.
  destruct (request_sent maxRestartAttempts maxFrameBytes write_fails c p OpCompress (compress_params budgetTokens input) id timeoutMs now Hc Ht) as (S1 & S2 & S3 & S4);
    [fold frame; lia|done|]. fold c1 in S1, S2, S3, S4. split; [exact S1|].
  destruct (engine_fits sha256Hex dataDir maxStorageBytes (λ x, proj1 (Hsha x)) (sv_engine (bn_server b)) params (uuid (sv_linesSeen (bn_server b) + 1)) (schema_params _ _ Hp) Hraw)
    as (st' & r & Hr & R1 & R2 & R3).
  destruct (request_served sha256Hex dataDir maxStorageBytes uuid uptimeMs issues maxFrameBytes Hmax b id (compress_params budgetTokens input) params st' r requestChunks)
    as (B1 & B2 & B3); try done; try (by rewrite Hrc; try apply reset_buffering).
  { assert (byte_length (stringify (json_of_request id OpCompress (compress_params budgetTokens input))) <= byte_length frame) by apply byte_length_prefix. lia. }
  exists r. fold b1 in B1, B2. rewrite B2. split; [exact Hr|]. split; [exact B1|]. split.
  - cbn [compress_outcome wire_of wr_compressed wr_status wr_output wr_degraded]. unfold compressResult_refine in R1. do 4 apply andb_true_iff in R1 as [R1 _].
    apply eqb_prop in R1. rewrite <- R1. destruct (cr_compressed r) eqn:Ec; [done|]. cbn [andb]. by rewrite R3.
  - intros T1 T2 replyChunks Hrep Hsize.
    assert (json_ok (json_of_response (ResponseOk id (Some (json_of_result r))))) as Hok by by apply response_json_ok, result_json_ok.
    destruct (frame_read maxFrameBytes _ replyChunks.*1 (cl_recon c1) Hmax S4 S3 Hok Hsize Hrep) as (rc & Hf).
    eapply reply_settles; [done| |exact S2|exact Hf|by apply parse_stringify]. cbn [RESULT_SCHEMAS]. by rewrite result_read.
Qed.

(** ** Concrete ends *)

Definition demo_client : Client := run 5 1024 (λ _ _, false) true [EvStdout 1 demo_hello 0].
Definition demo_server : Bin := mkBin (startServer (js "/d") 7 empty_rtk) reset.
Definition demo_params : RtkParams := mkParams (js "bash") (js "text") None (Some 512) (js "s1").
Lemma demo_sha_ok content : test HASH_RE (demo_sha content) = true ∧ units_ok (demo_sha content).
Proof. split; [vm_compute; reflexivity|unfold demo_sha; lit_ok]. Qed.
Lemma demo_at_rest : at_rest 1024 demo_client 1.
Proof.
  assert (cl_recon demo_client = reset) as E by (vm_compute; reflexivity).
  constructor; try (vm_compute; reflexivity); [split_and!; vm_compute; reflexivity|]. rewrite E. split; [done|by apply reset_buffering].
Qed.
Definition demo_frame : jstr := encodeFrame (json_of_request (js "r1") OpCompress (compress_params 512 demo_output)).

Lemma rtk_compress_round_trip_witness :
  Sent 1 demo_frame ∈ cl_log (apply_event 5 1024 (λ _ _, false) demo_client (EvRequest OpCompress (compress_params 512 demo_output) (js "r1") 40 0))
  ∧ ∃ st r, RtkEngine.compress demo_sha (js "/d") 100 (sv_engine (bn_server demo_server)) demo_params (js "u") = (st, Ok r).
Proof.
  destruct (rtk_compress_round_trip demo_sha (js "/d") 100 (λ _, js "u") (λ n, n) (λ _ _, []) 5 1024 (λ _ _, false) demo_client 1 demo_server demo_output 512
    demo_params (js "r1") 40 0 [demo_frame]) as (H1 & r & H2 & _).
  - exact demo_sha_ok.
  - lia.
  - exact demo_at_rest.
  - reflexivity.
  - reflexivity.
  - vm_compute. reflexivity.
  - apply json_okb_ok. vm_compute. reflexivity.
  - discriminate.
  - lit_ok.
  - lia.
  - apply Z.leb_le. vm_compute. reflexivity.
  - reflexivity.
  - cbn [concat]. apply app_nil_r.
  - vm_compute. reflexivity.
  - split; [exact H1|]. eexists; eexists; exact H2.
Defined.

(** An output that is not compressed comes back sanitized, not as it went in:
    here without its color codes. *)
Definition colored : jstr := 27 :: js "[31mred".
Example passthrough_sanitized :
  let r := snd (RtkEngine.compress demo_sha (js "/d") 100 (mkState empty_rtk createPipelineStats) (mkParams (js "bash") colored None (Some 512) (js "s1")) (js "u")) in
  match r with Ok r => cr_status r = StUnchanged ∧ cr_compressed r = false ∧ cr_output r = js "red" | Throw _ => False end.
Proof. vm_compute. auto. Qed.
