(* ===== verification/HostAdapter.v ===== *)
(** * Host messages ([packages/plugin/src/host-adapter.ts],
    [packages/plugin/src/apply-plan.ts])

    The host's messages are open objects: [info] and every part keep fields the
    plugin knows nothing of.  [projectMessage] is the only place where they
    become wire messages, and [applyHostView] the only place where a plan is
    written back, in place, into the host's array.

    An object is its list of properties.  [info.id], [info.role] and a part's
    [type] are typed strings, so a value of another type counts as absent.
    [structuredClone] copies, and is the identity here. *)

From stdpp Require Import base tactics list numbers option sets strings sorting.
From S2P Require Import Prelude JsString JsRegex Json CLine OMap Chat Operations Compaction Objects Nodes.

(** ** Data *)

Definition fields := list (jstr * json).
Record HostMessage := mkHost { hm_info : fields; hm_parts : list fields; hm_archive : option Archive }.

(** A plan as the wire carries it: the result, with the fields the plugin reads
    besides. *)
Record ViewPlan := mkView {
  vp_result : HeadroomCompressResult;
  vp_strategy : option CompactStrategy;
  vp_nodes : option (list LayeredNode);
  vp_enhancementJobId : option jstr }.

(** [v.k]: undefined unless [v] is an object with that property. *)
Definition prop (k : jstr) (v : option json) : option json := match v with Some (JObj l) => assoc k l | _ => None end.
Definition str_prop (k : jstr) (l : fields) : option jstr := match assoc k l with Some (JStr s) => Some s | _ => None end.

(** [Boolean(v)]. *)
Definition truthy_json (v : option json) : bool :=
  match v with
  | None | Some JNull => false
  | Some (JBool b) => b
  | Some (JNum (NInt n)) => negb (n =? 0)
  | Some (JNum NNegZero) => false
  | Some (JStr s) => negb (jeqb s [])
  | Some _ => true
  end.

Definition host_id (m : HostMessage) : jstr := default [] (str_prop (js "id") (hm_info m)).
Definition host_role (m : HostMessage) : option Role := str_prop (js "role") (hm_info m) ≫= λ s, role_of (JStr s).

(** ** Projection *)

Definition part_type (p : fields) : jstr := default [] (str_prop (js "type") p).
Definition state_of (p : fields) : option json := assoc (js "state") p.

(** A part the projection carries. *)
Definition part_text (p : fields) : option jstr := if jeqb (part_type p) (js "text") then str_prop (js "text") p else None.
Definition part_tool (p : fields) : option jstr := if jeqb (part_type p) (js "tool") then str_prop (js "tool") p else None.

Definition str_json (v : option json) : option jstr := match v with Some (JStr s) => Some s | _ => None end.
Definition tool_status (p : fields) : jstr := default (js "pending") (str_json (prop (js "status") (state_of p))).

Definition project_part (p : fields) : option Part :=
  match part_text p with
  | Some text => Some (PText text)
  | None =>
    match part_tool p with
    | Some tool =>
      Some (PTool tool (str_prop (js "callID") p) (prop (js "input") (state_of p))
              (mkTS (tool_status p) (str_json (prop (js "error") (state_of p))) (str_json (prop (js "output") (state_of p)))))
    | None => None
    end
  end.

(** Whether a part keeps its message in host form. *)
Definition part_protects (p : fields) : bool :=
  match part_text p with
  | Some _ => truthy_json (assoc (js "ignored") p)
  | None =>
    match part_tool p with
    | Some _ =>
      let state := state_of p in
      let metadata := prop (js "metadata") state in
      match prop (js "attachments") state with Some (JArr (_ :: _)) => true | _ => false end
      || negb (jeqb (tool_status p) (js "completed") || jeqb (tool_status p) (js "error"))
      || (jeqb (tool_status p) (js "completed") && truthy_json (prop (js "compacted") (prop (js "time") state)))
      || (jeqb (tool_status p) (js "error") && match prop (js "interrupted") metadata with Some (JBool true) => true | _ => false end
          && match prop (js "output") metadata with Some (JStr _) => true | _ => false end)
    | None => negb (jeqb (part_type p) (js "step-start") || jeqb (part_type p) (js "step-finish"))
    end
  end.

Definition projectMessage (m : HostMessage) : option ChatMessage :=
  if jeqb (host_id m) [] then None else
  match host_role m with
  | None => None
  | Some role =>
    let protectedContent :=
      (bool_decide (role = RAssistant) && truthy_json (assoc (js "error") (hm_info m))) || existsb part_protects (hm_parts m) in
    Some (mkMsg (host_id m) role (omap project_part (hm_parts m)) (if protectedContent then Some true else None) (hm_archive m))
  end.
Definition projectMessages (messages : list HostMessage) : option (list ChatMessage) := mapM projectMessage messages.

(** ** The session and the epoch *)

(** [null] unless all messages name one session. *)
Definition sessionOf (messages : list HostMessage) : option jstr :=
  let sessions := map (λ m, assoc (js "sessionID") (hm_info m)) messages in
  match sessions with
  | Some (JStr s) :: rest =>
    if forallb (λ v, match v with Some (JStr t) => jeqb t s | _ => false end) rest && negb (jeqb s []) then Some s else None
  | _ => None
  end.

Definition is_compaction (p : fields) : bool := jeqb (part_type p) (js "compaction").
Definition or_null (v : option json) : json := default JNull v.
Definition epoch_entry (m : HostMessage) : jstr :=
  stringify (JArr [or_null (assoc (js "id") (hm_info m)); or_null (assoc (js "parentID") (hm_info m)); or_null (assoc (js "summary") (hm_info m));
                   JArr (map JObj (List.filter is_compaction (hm_parts m)))]).
Definition upstreamEpoch (messages : list HostMessage) : jstr :=
  join (js "|") (map epoch_entry
    (List.filter (λ m, match assoc (js "summary") (hm_info m) with Some (JBool true) => true | _ => false end || existsb is_compaction (hm_parts m)) messages)).

(** ** Applying a plan *)

(** Where the turns the policy keeps begin. *)
Definition turn_starts (projection : list ChatMessage) : list nat :=
  omap (λ im, if bool_decide (im.1 = O) || bool_decide (m_role im.2 = RUser) then Some im.1 else None) (imap pair projection).
Definition recent_start (retainRecentTurns : Z) (projection : list ChatMessage) : nat :=
  let starts := turn_starts projection in
  default O (starts !! Z.to_nat (Z.max 0 (zlen starts - retainRecentTurns - 1))).

Definition affected (r : HeadroomCompressResult) : list jstr :=
  match hr_operations r with Some ops => flat_map op_targets ops | None => hr_replacedMessageIds r end.
Definition policy_refuses (plan : ViewPlan) (retainRecentTurns : option Z) (projection : list ChatMessage) : bool :=
  match vp_strategy plan, retainRecentTurns with
  | Some Layered, Some retain =>
    let recentIds := map m_id (drop (recent_start retain projection) projection) in
    existsb (λ id, bool_decide (id ∈ recentIds)) (affected (vp_result plan))
  | _, _ => false
  end.

(** Writing the edited parts back: only parts the projection carries have a
    counterpart. *)
Definition set_state (k v : jstr) (p : fields) : fields :=
  match assoc (js "state") p with Some (JObj st) => obj_set p (js "state") (JObj (obj_set st k (JStr v))) | _ => p end.
Definition write_opt (k : jstr) (v : option jstr) (p : fields) : fields := match v with Some v => set_state k v p | None => p end.
Definition write_part (p : fields) (updated : Part) : fields :=
  match updated with
  | PText text => if jeqb (part_type p) (js "text") then obj_set p (js "text") (JStr text) else p
  | PTool _ _ _ ts =>
    if jeqb (part_type p) (js "tool") then write_opt (js "error") (ts_error ts) (write_opt (js "output") (ts_output ts) p) else p
  end.
Fixpoint write_parts (parts : list fields) (updated : list Part) : list fields :=
  match parts with
  | [] => []
  | p :: rest =>
    match project_part p, updated with
    | Some _, u :: us => write_part p u :: write_parts rest us
    | _, _ => p :: write_parts rest updated
    end
  end.

(** A host message made from a wire message. *)
Definition synthetic_part (sessionID : option json) (id : jstr) (index : nat) (part : Part) : fields :=
  match json_of_part part with
  | JObj l =>
    foldl (λ l kv, match kv.2 with Some v => obj_set l kv.1 v | None => l end) l
      [(js "id", Some (JStr (id ++ js "-part-" ++ dec (Z.of_nat index)))); (js "messageID", Some (JStr id));
       (js "sessionID", sessionID); (js "synthetic", Some (JBool true))]
  | _ => []
  end.
Definition synthetic_message (source : HostMessage) (m : ChatMessage) : HostMessage :=
  mkHost (obj_set (obj_set (hm_info source) (js "id") (JStr (m_id m))) (js "role") (JStr (role_text (m_role m))))
    (imap (synthetic_part (assoc (js "sessionID") (hm_info source)) (m_id m)) (m_parts m)) (m_archive m).

(** [new Map(messages.map(...))]: the last message of an id. *)
Definition by_id {A} (id_of : A → jstr) (l : list A) : list (jstr * A) := foldl (λ t m, set_key (id_of m) m t) [] l.

Definition same_json (a b : ChatMessage) : bool := jeqb (stringify (json_of_message a)) (stringify (json_of_message b)).

(** One message of the materialized view, as a host message; [None] is the
    throw. *)
Definition rebuild (messages : list HostMessage) (projection : list ChatMessage) (ops : list ViewOperation) (m : ChatMessage) : option HostMessage :=
  let originals := by_id host_id messages in
  match get (m_id m) originals, get (m_id m) (by_id m_id projection) with
  | Some original, Some before =>
    if same_json m before then Some original
    else Some (mkHost (hm_info original) (write_parts (hm_parts original) (m_parts m))
                 (match m_archive m with Some a => Some a | None => hm_archive original end))
  | _, _ =>
    match List.find (λ op, match op with OpRange _ _ _ r => jeqb (m_id r) (m_id m) | _ => false end) ops with
    | Some (OpRange _ ids _ _) => source ← get (default [] (head ids)) originals; Some (synthetic_message source m)
    | _ => None
    end
  end.

Section Apply.
Context (sha256Hex : jstr → jstr).

(** The status and the array afterwards; [None] is the throw. *)
Definition applyHostView (messages : list HostMessage) (plan : ViewPlan) (retainRecentTurns : option Z) : option (ApplyStatus * list HostMessage) :=
  let r := vp_result plan in
  match projectMessages messages, hr_sourceDigests r with
  | Some projection, Some (_ :: _) =>
    if policy_refuses plan retainRecentTurns projection then Some (SInvalid, messages) else
    let result := materializeCompaction sha256Hex projection (plan_of r) in
    match mz_status result with
    | SApplied =>
      match hr_operations r with
      | Some ops => rebuilt ← mapM (rebuild messages projection ops) (mz_messages result); Some (SApplied, rebuilt)
      | None =>
        match messages, mz_messages result with
        | source :: _, replacement :: _ =>
          if negb (bool_decide (head (hr_replacedMessageIds r) = Some (host_id source))) then Some (SInvalid, messages) else
          let replacement := mkMsg (m_id replacement) RUser (m_parts replacement) (m_protected replacement) (m_archive replacement) in
          Some (SApplied, synthetic_message source replacement :: drop (length (hr_replacedMessageIds r)) messages)
        | _, _ => Some (SInvalid, messages)
        end
      end
    | status => Some (status, messages)
    end
  | _, _ => Some (SInvalid, messages)
  end.

(** [applyPlanInPlace] on wire messages. *)
Definition applyPlanInPlace (messages : list ChatMessage) (plan : CompactionPlan) : ApplyStatus * list ChatMessage :=
  let materialized := materializeCompaction sha256Hex messages plan in
  match mz_status materialized with
  | SApplied => (SApplied, mz_messages materialized)
  | status => (status, messages)
  end.
End Apply.

(** ** What materializing leaves of a message *)

(** An edit replaces the text of a text part or the output of a settled tool. *)
Definition part_shape (q u : Part) : Prop :=
  match q, u with
  | PText _, PText _ => True
  | PTool tool callId input ts, PTool tool' callId' input' ts' =>
    tool' = tool ∧ callId' = callId ∧ input' = input ∧ ts_status ts' = ts_status ts ∧ ts_error ts' = ts_error ts
    ∧ (ts_output ts' = ts_output ts ∨ is_Some (ts_output ts') ∧ completed (ts_status ts) = true)
  | _, _ => False
  end.
Record message_shape (m m' : ChatMessage) : Prop := {
  sh_id : m_id m' = m_id m;
  sh_role : m_role m' = m_role m;
  sh_protected : m_protected m' = m_protected m;
  sh_archive : m_archive m' = m_archive m;
  sh_parts : Forall2 part_shape (m_parts m) (m_parts m') }.

Lemma part_shape_refl q : part_shape q q.
Proof. destruct q; cbn; auto 10. Qed.
Lemma parts_shape_refl l : Forall2 part_shape l l.
Proof. apply Forall_Forall2_diag, Forall_forall. intros q _. apply part_shape_refl. Qed.
Lemma message_shape_refl m : message_shape m m.
Proof. split; try done. apply parts_shape_refl. Qed.

Lemma edit_part_shape q edits u : edit_part q edits = Ok u → part_settled q = true → part_shape q u.
Proof.
  unfold edit_part. destruct q as [text|tool callId input ts]; destruct edits as [|[b ids ds r|b mid d pi od r|b mid d pi s e td r] edits];
    try (intros [= <-] _; apply part_shape_refl); cbn [part_settled].
  - by destruct (text_chunks _ _ _); [intros [= <-]|].
  - intros [= <-] Hc. cbn. eauto 10.
Qed.

Definition edits_settled (m : ChatMessage) (mp : list (nat * list ViewOperation)) : Prop :=
  Forall (λ pe, ∃ q, m_parts m !! pe.1 = Some q ∧ part_settled q = true) mp.

Lemma edit_parts_shape m mp parts ps :
  edit_parts (m_parts m) parts mp = Ok ps → edits_settled m mp → Forall2 part_shape (m_parts m) parts → Forall2 part_shape (m_parts m) ps.
Proof.
  revert parts. induction mp as [|[i edits] mp IH]; intros parts; cbn [edit_parts]; [by intros [= <-]|].
  destruct (m_parts m !! i) as [q|] eqn:Eq; [|done]. intros (u & Hu & H)%rbind_ok [(q' & Hq & Hs) Hmp]%Forall_cons Hp.
  cbn [fst] in Hq. rewrite Eq in Hq. injection Hq as <-. eapply IH; [exact H|done|].
  rewrite <- (list_insert_id (m_parts m) i q) by done. apply Forall2_insert; [done|by eapply edit_part_shape].
Qed.

Definition edits_ok (messages : list ChatMessage) (parts : list (nat * list (nat * list ViewOperation))) : Prop :=
  Forall (λ im, ∃ m, messages !! im.1 = Some m ∧ edits_settled m im.2) parts.

Lemma edit_messages_shape messages next parts next' :
  edit_messages messages next parts = Ok next' → edits_ok messages parts → Forall2 message_shape messages next → Forall2 message_shape messages next'.
Proof.
  revert next. induction parts as [|[i mp] parts IH]; intros next; cbn [edit_messages]; [by intros [= <-]|].
  destruct (messages !! i) as [m|] eqn:Em; [|done]. intros (ps & Hps & H)%rbind_ok [(m' & Hm & Hs) Hp]%Forall_cons Hn.
  cbn [fst snd] in *. rewrite Em in Hm. injection Hm as <-. eapply IH; [exact H|done|].
  rewrite <- (list_insert_id messages i m) by done. apply Forall2_insert; [done|]. split; try done. cbn [m_parts].
  eapply edit_parts_shape; [done|done|apply parts_shape_refl].
Qed.

Lemma sort_edits_ok messages parts : edits_ok messages parts → edits_ok messages (sort_edits parts).
Proof.
  unfold edits_ok, sort_edits. rewrite Forall_map. intros H. eapply Forall_impl; [exact H|]. intros [i mp] (m & Hm & Hs). exists m.
  split; [done|]. cbn [fst snd]. unfold edits_settled. rewrite Forall_map. eapply Forall_impl; [exact Hs|]. by intros [pi edits].
Qed.

Section Shape.
Context (sha256Hex : jstr → jstr) (messages : list ChatMessage) (byId : list (jstr * nat)) (digests : list jstr).

(** Every range names a message that is there. *)
Definition range_known (op : ViewOperation) : Prop :=
  match op with OpRange _ ids _ _ => is_Some (get (default [] (head ids)) byId) | _ => True end.

Record op_shape (ops : list ViewOperation) (st : OpState) : Prop := {
  os_edits : edits_ok messages (os_parts st);
  os_made : Forall (λ r, ∃ b ids ds, OpRange b ids ds (er_replacement r) ∈ ops) (os_ranges st) }.

Lemma add_edit_shape parts index m pi q op :
  edits_ok messages parts → messages !! index = Some m → m_parts m !! pi = Some q → part_settled q = true →
  edits_ok messages (add_edit index pi op parts).
Proof.
  intros Hp Hm Hq Hs. unfold add_edit. apply Forall_set; [done|]. exists m. split; [done|]. cbn [snd]. apply Forall_set; [|by exists q].
  destruct (get index parts) as [mp|] eqn:E; [|constructor]. apply get_elem in E. unfold edits_ok in Hp. rewrite Forall_forall in Hp.
  destruct (Hp _ E) as (m' & Hm' & H). cbn [fst snd] in *. rewrite Hm in Hm'. injection Hm' as <-. done.
Qed.

Lemma op_step_shape ops op st st' :
  op_step sha256Hex messages byId digests st op = Ok st' → op ∈ ops → op_shape ops st → op_shape ops st' ∧ range_known op.
Proof.
  unfold op_step. destruct (_ || _); [done|]. cbv zeta. intros H Hop [H1 H2]. destruct op as [b ids ds r|b mid d pi od r|b mid d pi s e td r]; cbn [range_known].
  - destruct (negb _ || _); [done|]. destruct (get (default [] (head ids)) byId) as [start|]; [|done]. apply rbind_ok in H as (w & _ & H).
    destruct (match get (m_id r) byId with Some _ => _ | None => _ end); [done|]. injection H as <-. split; [|by eexists].
    split; [done|]. cbn [os_ranges]. apply Forall_app. split; [done|]. apply Forall_singleton. cbn [er_replacement]. eauto.
  - destruct (get mid byId) as [index|]; [|done]. destruct (messages !! index) as [m|] eqn:Em; [|done]. destruct (_ || _ || _); [done|].
    cbn [mbind option_bind] in H. destruct (m_parts m !! Z.to_nat pi) as [[text|tool c i ts]|] eqn:Ep; try done.
    destruct (negb (completed (ts_status ts)) || _) eqn:Ec; [done|]. apply orb_false_iff in Ec as [Ec _]. apply negb_false_iff in Ec.
    injection H as <-. split; [|done]. split; [|done]. by eapply add_edit_shape.
  - destruct (get mid byId) as [index|]; [|done]. destruct (messages !! index) as [m|] eqn:Em; [|done]. destruct (_ || _ || _); [done|].
    cbn [mbind option_bind] in H. destruct (m_parts m !! Z.to_nat pi) as [[text|tool c i ts]|] eqn:Ep; try done.
    destruct (_ || _ || _); [done|]. injection H as <-. split; [|done]. split; [|done]. by eapply add_edit_shape.
Qed.

Lemma op_loop_shape all ops st st' :
  op_loop sha256Hex messages byId digests st ops = Ok st' → ops ⊆ all → op_shape all st → op_shape all st' ∧ Forall range_known ops.
Proof.
  revert st. induction ops as [|op ops IH]; intros st; cbn [op_loop]; [intros [= <-] _ H; by split|].
  intros (st1 & H1 & H2)%rbind_ok Hsub Hst. destruct (op_step_shape all op st st1) as [Hs Hk]; [done|set_solver|done|].
  destruct (IH st1) as [Hs' Hk']; [done|set_solver|done|]. split; [done|by constructor].
Qed.
End Shape.

Lemma stream_ranges_elem next cursor ranges m :
  m ∈ stream_ranges next cursor ranges → m ∈ next ∨ ∃ r, r ∈ ranges ∧ m = er_replacement r.
Proof.
  revert cursor. induction ranges as [|r rest IH]; intros cursor; cbn [stream_ranges].
  - intros H. left. rewrite <- (take_drop cursor next), elem_of_app. by right.
  - rewrite elem_of_app, elem_of_cons. intros [H|[->|H]].
    + left. rewrite <- (take_drop cursor next), elem_of_app. right. rewrite <- (take_drop (er_start r - cursor) (drop cursor next)), elem_of_app. by left.
    + right. exists r. split; [by left|done].
    + destruct (IH _ H) as [?|(r' & ? & ?)]; [by left|right]. exists r'. split; [by right|done].
Qed.

Lemma index_messages_fresh messages i byId r :
  index_messages i messages byId = Ok r → NoDup (map m_id messages) ∧ (∀ m, m ∈ messages → has (m_id m) byId = false).
Proof.
  revert i byId. induction messages as [|m messages IH]; intros i byId; cbn [index_messages map]; [intros _; split; [constructor|by intros m ?%elem_of_nil]|].
  destruct (has (m_id m) byId) eqn:E; [done|]. intros (Hn & Hf)%IH.
  assert (∀ m', m' ∈ messages → m_id m' ≠ m_id m ∧ has (m_id m') byId = false) as Hne.
  { intros m' H%Hf. unfold has in *. destruct (decide (m_id m' = m_id m)) as [Heq|Hne]; [by rewrite Heq, get_set_eq in H|]. by rewrite get_set_ne in H. }
  split.
  - constructor; [|done]. intros (m' & Heq & Hin)%list_elem_of_fmap. by destruct (Hne m' Hin).
  - intros m' [->|H]%elem_of_cons; [done|]. by apply Hne.
Qed.

(** A message of the view is an edited original or the replacement of a range. *)
Lemma materialize_shape sha256Hex messages ops snapshot output :
  materialize sha256Hex messages ops snapshot = Ok output →
  Forall (λ m, (∃ m0, m0 ∈ messages ∧ message_shape m0 m) ∨ ∃ b ids ds, OpRange b ids ds m ∈ ops) output
  ∧ Forall (λ op, match op with OpRange _ ids _ _ => ∃ m, m ∈ messages ∧ m_id m = default [] (head ids) | _ => True end) ops
  ∧ NoDup (map m_id messages).
Proof.
  unfold materialize. destruct ops as [|op0 ops0]; [done|]. destruct snapshot as [snap|]; [|done]. set (ops := op0 :: ops0).
  intros (byId & Hby & H)%rbind_ok. destruct (_ || _); [done|]. apply rbind_ok in H as (digests & _ & H). apply rbind_ok in H as (st & Hst & H).
  destruct (negb (forallb _ _)); [done|]. apply rbind_ok in H as (next & Hnext & H). destruct (negb (distinct _)); [done|]. injection H as <-.
  destruct (op_loop_shape sha256Hex messages byId digests ops ops _ st Hst) as [[H1 H2] Hk]; [done|by split; constructor|].
  apply edit_messages_shape in Hnext; [|by apply sort_edits_ok|apply Forall_Forall2_diag, Forall_forall; intros m _; apply message_shape_refl].
  split_and!.
  - apply Forall_forall. intros m [Hm|(r & Hr & ->)]%stream_ranges_elem.
    + left. apply list_elem_of_lookup in Hm as [i Hi]. destruct (Forall2_lookup_r _ _ _ _ _ Hnext Hi) as (m0 & Hm0 & Hs).
      exists m0. split; [by eapply list_elem_of_lookup_2|done].
    + right. rewrite sort_by_perm in Hr. by apply (proj1 (Forall_forall _ _) H2).
  - eapply Forall_impl; [exact Hk|]. intros [b ids ds r| |]; [|done..]. cbn [range_known]. intros [i Hi].
    destruct (index_messages_ok _ _ _ _ Hby _ _ Hi) as [?|[Hid _]]; [done|]. rewrite Nat.sub_0_r in Hid.
    destruct (messages !! i) as [m|] eqn:Em; [|done]. injection Hid as Hid. exists m. split; [by eapply list_elem_of_lookup_2|done].
  - by eapply index_messages_fresh.
Qed.

(** ** Projecting what was written *)

Lemma assoc_set_eq k v l : assoc k (obj_set l k v) = Some v.
Proof. induction l as [|[k' v'] l IH]; cbn [obj_set assoc]; [by rewrite jeqb_refl|]. destruct (jeqb k' k) eqn:E; cbn [assoc]; by rewrite E. Qed.

Lemma assoc_set_ne k k' v l : k ≠ k' → assoc k (obj_set l k' v) = assoc k l.
Proof.
  intros Hne. induction l as [|[k2 v2] l IH]; cbn [obj_set assoc].
  - destruct (jeqb k' k) eqn:E; [apply jeqb_eq in E; congruence|done].
  - destruct (jeqb k2 k') eqn:E; cbn [assoc]; [|by rewrite IH]. apply jeqb_eq in E as ->. destruct (jeqb k' k) eqn:E; [apply jeqb_eq in E; congruence|done].
Qed.

Lemma assoc_set k k' v l : assoc k (obj_set l k' v) = if jeqb k' k then Some v else assoc k l.
Proof.
  destruct (jeqb k' k) eqn:E; [apply jeqb_eq in E as ->; apply assoc_set_eq|]. apply assoc_set_ne. intros ->. by rewrite jeqb_refl in E.
Qed.

(** Reading a part after [part.text] or [part.state.k] was assigned. *)
Lemma type_set p k v : jeqb k (js "type") = false → part_type (obj_set p k v) = part_type p.
Proof. intros H. unfold part_type, str_prop. by rewrite assoc_set, H. Qed.

Lemma set_state_other k v p k' : jeqb (js "state") k' = false → assoc k' (set_state k v p) = assoc k' p.
Proof. intros H. unfold set_state. destruct (assoc (js "state") p) as [[| | | | |st]|]; try done. by rewrite assoc_set, H. Qed.

Lemma set_state_prop k v p k' :
  prop k' (state_of (set_state k v p)) = match state_of p with Some (JObj _) => if jeqb k k' then Some (JStr v) else prop k' (state_of p) | s => prop k' s end.
Proof.
  unfold set_state, state_of. destruct (assoc (js "state") p) as [[| | | | |st]|] eqn:E; rewrite ?E; try done.
  rewrite assoc_set_eq. cbn [prop]. apply assoc_set.
Qed.

(** Two parts that the projection sees alike but for the output of a tool. *)
Record same_tool (p p' : fields) : Prop := {
  mt_type : part_type p' = part_type p;
  mt_fields : ∀ k, jeqb (js "state") k = false → assoc k p' = assoc k p;
  mt_state : ∀ k, jeqb (js "output") k = false → prop k (state_of p') = prop k (state_of p) }.

Lemma same_tool_refl p : same_tool p p.
Proof. by split. Qed.
Lemma same_tool_trans p1 p2 p3 : same_tool p1 p2 → same_tool p2 p3 → same_tool p1 p3.
Proof. intros [A1 A2 A3] [B1 B2 B3]. split; intros; [by rewrite B1|by rewrite B2, A2|by rewrite B3, A3]. Qed.

Lemma set_output_same v p : same_tool p (set_state (js "output") v p).
Proof.
  split.
  - unfold part_type, str_prop. by rewrite set_state_other.
  - intros k Hk. by apply set_state_other.
  - intros k Hk. rewrite set_state_prop. destruct (state_of p) as [[| | | | |l]|]; try done. by rewrite Hk.
Qed.

Lemma set_error_same e p : str_json (prop (js "error") (state_of p)) = Some e → same_tool p (set_state (js "error") e p) ∧
  prop (js "output") (state_of (set_state (js "error") e p)) = prop (js "output") (state_of p).
Proof.
  intros He. split.
  - split.
    + unfold part_type, str_prop. by rewrite set_state_other.
    + intros k Hk. by apply set_state_other.
    + intros k Hk. rewrite set_state_prop. destruct (state_of p) as [[| | | | |l]|] eqn:Es; try done.
      destruct (jeqb (js "error") k) eqn:E; [|done]. apply jeqb_eq in E as <-. destruct (prop _ _) as [[]|] eqn:Ep; try done. cbn in He. congruence.
  - rewrite set_state_prop. by destruct (state_of p) as [[| | | | |l]|].
Qed.

Lemma same_tool_protects p p' : same_tool p p' → is_Some (part_tool p) → part_protects p' = part_protects p.
Proof.
  intros [Ht Hf Hs] [tool H]. unfold part_tool in H. destruct (jeqb (part_type p) (js "tool")) eqn:E; [|done]. apply jeqb_eq in E.
  unfold part_protects, part_text, part_tool, str_prop, tool_status. rewrite Ht, E, (Hf (js "tool")), (Hs (js "metadata")), (Hs (js "attachments")), (Hs (js "status")), (Hs (js "time")) by reflexivity.
  done.
Qed.

Lemma same_tool_projects p p' tool callId input ts o :
  same_tool p p' → project_part p = Some (PTool tool callId input ts) → str_json (prop (js "output") (state_of p')) = o →
  project_part p' = Some (PTool tool callId input (mkTS (ts_status ts) (ts_error ts) o)).
Proof.
  intros [Ht Hf Hs] H <-. unfold project_part in *. destruct (part_text p) eqn:Et; [done|]. destruct (part_tool p) as [tool'|] eqn:El; [|done].
  assert (part_text p' = None) as ->.
  { unfold part_text in *. rewrite Ht. unfold part_tool in El. destruct (jeqb (part_type p) (js "tool")) eqn:E; [|done]. apply jeqb_eq in E as ->. done. }
  assert (part_tool p' = Some tool') as ->.
  { unfold part_tool, str_prop in *. by rewrite Ht, (Hf (js "tool")). }
  injection H as <- <- <- <-. unfold tool_status, str_prop. rewrite (Hf (js "callID")), (Hs (js "input")), (Hs (js "status")), (Hs (js "error")) by reflexivity.
  done.
Qed.

Lemma text_projects p text : project_part p = Some (PText text) ↔ part_text p = Some text.
Proof. unfold project_part. destruct (part_text p); [split; congruence|]. by destruct (part_tool p). Qed.

(** Writing an edited part back and projecting gives the edited part. *)
Lemma write_part_projects p q u :
  project_part p = Some q → part_shape q u → project_part (write_part p u) = Some u ∧ part_protects (write_part p u) = part_protects p.
Proof.
  intros Hp Hs. destruct q as [text|tool callId input ts], u as [text'|tool' callId' input' ts']; cbn [part_shape] in Hs; try done.
  - apply text_projects in Hp. assert (jeqb (part_type p) (js "text") = true) as Ht by (unfold part_text in Hp; by destruct (jeqb _ _)).
    cbn [write_part]. rewrite Ht. assert (part_text (obj_set p (js "text") (JStr text')) = Some text') as Hp'.
    { unfold part_text, str_prop. rewrite type_set by done. by rewrite Ht, assoc_set_eq. }
    split; [by apply text_projects|]. unfold part_protects. rewrite Hp, Hp'. by rewrite assoc_set_ne.
  - destruct Hs as (-> & -> & -> & Hst & Her & Hout). destruct ts' as [st' er' out']. cbn [ts_status ts_error ts_output] in *. subst st' er'.
    assert (is_Some (part_tool p) ∧ jeqb (part_type p) (js "tool") = true) as [Htool Ht].
    { unfold project_part in Hp. destruct (part_text p); [done|]. destruct (part_tool p) eqn:E; [|done]. split; [by eexists|].
      unfold part_tool in E. by destruct (jeqb (part_type p) _). }
    assert (ts_error ts = str_json (prop (js "error") (state_of p)) ∧ ts_output ts = str_json (prop (js "output") (state_of p)) ∧ ts_status ts = tool_status p) as (Ee & Eo & Es).
    { unfold project_part in Hp. destruct (part_text p); [done|]. destruct (part_tool p); [|done]. by injection Hp as _ _ _ <-. }
    cbn [write_part]. rewrite Ht. cbn [ts_error ts_output].
    set (p1 := write_opt (js "output") out' p). assert (same_tool p p1 ∧ str_json (prop (js "output") (state_of p1)) = out') as [H1 H2].
    { unfold p1, write_opt. destruct out' as [o|]; [|split; [apply same_tool_refl|destruct Hout as [Hout|[[? ?] _]]; congruence]].
      split; [apply set_output_same|]. rewrite set_state_prop, jeqb_refl. destruct (state_of p) as [[| | | | |l]|] eqn:E; [..|done|];
        (destruct Hout as [Hout|[_ Hc]]; [rewrite Eo in Hout; done|]; rewrite Es in Hc; unfold tool_status in Hc; rewrite E in Hc; vm_compute in Hc; done). }
    set (p2 := write_opt (js "error") (ts_error ts) p1). assert (same_tool p1 p2 ∧ prop (js "output") (state_of p2) = prop (js "output") (state_of p1)) as [H3 H4].
    { unfold p2, write_opt. destruct (ts_error ts) as [e|]; [|split; [apply same_tool_refl|done]]. apply set_error_same.
      rewrite (mt_state _ _ H1) by done. by rewrite <- Ee. }
    pose proof (same_tool_trans _ _ _ H1 H3) as H5. split.
    + eapply same_tool_projects; [done|done|by rewrite H4].
    + by apply same_tool_protects.
Qed.

Lemma write_parts_projects parts us :
  Forall2 part_shape (omap project_part parts) us →
  omap project_part (write_parts parts us) = us ∧ map part_protects (write_parts parts us) = map part_protects parts.
Proof.
  revert us. induction parts as [|p parts IH]; intros us; cbn [omap list_omap write_parts map].
  - intros ->%Forall2_nil_inv_l. done.
  - destruct (project_part p) as [q|] eqn:Ep.
    + intros (u & us' & Hs & H & ->)%Forall2_cons_inv_l. destruct (write_part_projects p q u Ep Hs) as [E1 E2]. destruct (IH us' H) as [E3 E4].
      cbn [omap list_omap map]. rewrite E1. split; [f_equal; exact E3|by rewrite E2, E4].
    + intros H. destruct (IH us H) as [E3 E4]. cbn [omap list_omap map]. rewrite Ep. split; [exact E3|by rewrite E4].
Qed.

(** Projecting a rebuilt original gives the message of the view. *)
Lemma projectMessage_edited h before m :
  projectMessage h = Some before → message_shape before m → hm_archive h = m_archive before →
  projectMessage (mkHost (hm_info h) (write_parts (hm_parts h) (m_parts m)) (match m_archive m with Some a => Some a | None => hm_archive h end)) = Some m.
Proof.
  unfold projectMessage, host_id, host_role. cbn [hm_info hm_parts hm_archive]. destruct (jeqb (default [] _) []); [done|].
  destruct (str_prop (js "role") (hm_info h) ≫= _) as [role|]; [|done]. cbv zeta. intros [= <-] [S1 S2 S3 S4 S5] Ha. cbn [m_id m_role m_protected m_archive m_parts] in *.
  destruct (write_parts_projects _ _ S5) as [E1 E2]. rewrite E1.
  assert (∀ l l' : list fields, map part_protects l = map part_protects l' → existsb part_protects l = existsb part_protects l') as Hex.
  { induction l as [|x l IH]; intros [|y l'] H; try done. injection H as H1 H2. cbn [existsb]. by rewrite H1, (IH l'). }
  rewrite (Hex _ _ E2). destruct m as [mid mrole mparts mprot march]; cbn [m_id m_role m_protected m_archive m_parts] in *. subst mid mrole mprot march.
  by destruct (hm_archive h).
Qed.

Lemma projectMessage_id h m : projectMessage h = Some m → m_id m = host_id h ∧ m_archive m = hm_archive h ∧ m_id m ≠ [].
Proof.
  unfold projectMessage. destruct (jeqb (host_id h) []) eqn:E; [done|]. destruct (host_role h); [|done]. intros [= <-]. cbn. split_and!; [done|done|].
  by apply jeqb_neq.
Qed.

(** [mapM] over lists. *)
Lemma mapM_ids messages projection : projectMessages messages = Some projection → map m_id projection = map host_id messages.
Proof.
  unfold projectMessages. revert projection. induction messages as [|h messages IH]; intros projection; cbn [mapM]; [by intros [= <-]|].
  intros (m & Hm & (rest & Hr & [= <-])%bind_Some)%bind_Some. cbn [map]. by rewrite (IH rest Hr), (proj1 (projectMessage_id _ _ Hm)).
Qed.

Lemma by_id_get {A} (id_of : A → jstr) l : NoDup (map id_of l) → ∀ x, x ∈ l → get (id_of x) (by_id id_of l) = Some x.
Proof.
  unfold by_id. intros Hn x. induction l as [|y l IH] using rev_ind; [by intros ?%elem_of_nil|].
  rewrite map_app in Hn. apply NoDup_app in Hn as (Hn & Hd & _). rewrite foldl_app. cbn [foldl]. intros [Hx| ->%list_elem_of_singleton]%elem_of_app.
  - rewrite get_set_ne; [by apply IH|]. intros E. apply (Hd (id_of x)); [by apply list_elem_of_fmap_2|]. rewrite E. by left.
  - apply get_set_eq.
Qed.

Lemma by_id_sound {A} (id_of : A → jstr) l k x : get k (by_id id_of l) = Some x → x ∈ l ∧ id_of x = k.
Proof.
  unfold by_id. induction l as [|y l IH] using rev_ind; [done|]. rewrite foldl_app. cbn [foldl]. destruct (decide (k = id_of y)) as [->|Hne].
  - rewrite get_set_eq. intros [= <-]. split; [|done]. apply elem_of_app. right. by left.
  - rewrite get_set_ne by done. intros [? ?]%IH. split; [|done]. apply elem_of_app. by left.
Qed.

(** The original and the projection of one id belong together. *)
Lemma originals_projected messages projection h m :
  projectMessages messages = Some projection → NoDup (map m_id projection) →
  get (m_id m) (by_id host_id messages) = Some h → get (m_id m) (by_id m_id projection) = Some m → projectMessage h = Some m.
Proof.
  intros Hp Hn [Hh Hid]%by_id_sound [Hm _]%by_id_sound. unfold projectMessages in Hp. apply mapM_Some_1 in Hp.
  apply list_elem_of_lookup in Hh as [i Hi]. destruct (Forall2_lookup_l _ _ _ _ _ Hp Hi) as (m' & Hm' & Hproj). rewrite Hproj. f_equal.
  apply list_elem_of_lookup in Hm as [j Hj]. assert (i = j) as ->; [|congruence].
  apply (NoDup_lookup (map m_id projection) i j (m_id m)); [done|rewrite map_lookup, Hm'|by rewrite map_lookup, Hj].
  cbn. f_equal. rewrite <- Hid. by apply projectMessage_id in Hproj as [? _].
Qed.

(** ** Plans whose replacements the host can carry *)

(** A replacement of text parts in the user's or assistant's role, under an id no
    message has; the flags of the message it replaces do not reach it. *)
Definition plain_replacement (m : ChatMessage) : bool :=
  negb (jeqb (m_id m) []) && bool_decide (m_role m = RUser) && match m_protected m with None => true | Some _ => false end
  && forallb (λ p, match p with PText _ => true | PTool _ _ _ _ => false end) (m_parts m).
Definition plain_plan (ops : list ViewOperation) (ids : list jstr) : Prop :=
  ∀ b mids ds r, OpRange b mids ds r ∈ ops → plain_replacement r = true ∧ m_id r ∉ ids.

Lemma synthetic_part_projects sid id i text :
  let p := synthetic_part sid id i (PText text) in project_part p = Some (PText text) ∧ part_protects p = false.
Proof. destruct sid; split; vm_compute; reflexivity. Qed.

Lemma synthetic_projects source m : plain_replacement m = true → projectMessage (synthetic_message source m) = Some m.
Proof.
  unfold plain_replacement. intros [[[Hid Hr]%andb_true_iff Hp]%andb_true_iff Hparts]%andb_true_iff. apply negb_true_iff in Hid. apply bool_decide_eq_true in Hr.
  destruct m as [mid role parts prot ar]. cbn [m_id m_role m_parts m_protected] in *. destruct prot; [done|]. subst role.
  assert (host_id (synthetic_message source (mkMsg mid RUser parts None ar)) = mid) as Ei.
  { unfold host_id, str_prop, synthetic_message. cbn [hm_info m_id]. rewrite assoc_set_ne by (by intros [=]). by rewrite assoc_set_eq. }
  assert (host_role (synthetic_message source (mkMsg mid RUser parts None ar)) = Some RUser) as Er.
  { unfold host_role, str_prop, synthetic_message. cbn [hm_info]. by rewrite assoc_set_eq. }
  unfold projectMessage. rewrite Ei, Er, Hid. cbn [synthetic_message hm_parts hm_archive m_parts m_archive m_id].
  set (sid := assoc (js "sessionID") (hm_info source)). assert (∀ k, omap project_part (imap (λ i, synthetic_part sid mid (k + i)) parts) = parts
    ∧ existsb part_protects (imap (λ i, synthetic_part sid mid (k + i)) parts) = false) as H.
  { clear -Hparts. induction parts as [|p parts IH]; intros k; [done|]. cbn [forallb] in Hparts. apply andb_true_iff in Hparts as [Hp Hparts].
    destruct p as [text|]; [|done]. destruct (synthetic_part_projects sid mid (k + 0) text) as [E1 E2]. destruct (IH Hparts (S k)) as [E3 E4].
    cbn [imap]. assert (∀ l, imap (λ i, synthetic_part sid mid (S k + i)) l = imap ((λ i, synthetic_part sid mid (k + i)) ∘ S) l) as Ex.
    { intros l. apply imap_ext. intros i x _. cbn. by rewrite Nat.add_succ_r. }
    rewrite <- Ex. cbn [omap list_omap existsb]. cbv zeta in E1, E2. rewrite E1, E2. split; [f_equal; exact E3|exact E4]. }
  destruct (H O) as [H1 H2]. change (imap (λ i, synthetic_part sid mid (0 + i)) parts) with (imap (synthetic_part sid mid) parts) in H1, H2. by rewrite H1, H2.
Qed.

(** ** Applying *)

Section Prefix.
Context (sha256Hex : jstr → jstr).

(** A legacy plan that starts at the first message replaces a prefix. *)
Lemma scan_first m messages : get (m_id m) (scan_ids (m :: messages)).1 = Some O.
Proof.
  induction messages as [|m' messages IH] using rev_ind; [apply get_set_eq|].
  unfold scan_ids in *. rewrite app_comm_cons, imap_app, foldl_app. set (t := foldl scan_id ([], []) (imap pair (m :: messages))) in *.
  cbn [imap foldl]. unfold scan_id. cbn [fst snd]. destruct (has (m_id m') t.1) eqn:E; [exact IH|]. cbn [fst]. rewrite get_set_ne; [exact IH|].
  intros Heq. unfold has in E. by rewrite <- Heq, IH in E.
Qed.

Lemma legacy_prefix m messages plan :
  pl_operations plan = None → head (pl_replacedMessageIds plan) = Some (m_id m) →
  mz_status (materializeCompaction sha256Hex (m :: messages) plan) = SApplied →
  mz_messages (materializeCompaction sha256Hex (m :: messages) plan) = buildReplacementMessage plan :: drop (length (pl_replacedMessageIds plan)) (m :: messages)
  ∧ pl_replacedMessageIds plan = map m_id (take (length (pl_replacedMessageIds plan)) (m :: messages)).
Proof.
  intros Ho Hh. unfold materializeCompaction. rewrite Ho. cbv zeta. destruct (pl_replacedMessageIds plan) as [|id ids] eqn:Eids; [done|]. injection Hh as ->.
  destruct (_ || _); [done|]. pose proof (scan_first m messages) as Hget. pose proof (is_sound _ _ (scan_ids_spec (m :: messages))) as Hsound.
  destruct (scan_ids (m :: messages)) as [indexById dups]. cbn [fst] in *.
  destruct (existsb _ _); [done|]. destruct (_ =? _); [by destruct (existsb _ _)|]. destruct (0 <? _); [done|].
  set (all := m_id m :: ids). replace (default O (mjoin (head (map (λ id, get id indexById) all)))) with O by (unfold all; cbn [map]; by rewrite Hget).
  destruct (bool_decide _) eqn:Eb; cbn [negb]; [|done]. apply bool_decide_eq_true in Eb.
  destruct (match pl_sourceDigests plan with Some _ => _ | None => _ end); [done|]. destruct (forallb _ _); [done|]. split; [done|].
  apply list_eq. intros k. rewrite map_lookup. destruct (decide (k < length all)%nat) as [Hk|Hk].
  - rewrite lookup_take_lt by done. destruct (lookup_lt_is_Some_2 all k Hk) as [id Hid]. rewrite Hid. symmetry. apply Hsound.
    assert (map (λ id, get id indexById) all !! k = Some (get id indexById)) as Hg by (by rewrite map_lookup, Hid).
    rewrite Eb, length_map, map_lookup, lookup_seq_lt in Hg by done. by injection Hg as <-.
  - rewrite lookup_take_ge, lookup_ge_None_2 by lia. done.
Qed.

End Prefix.

(** *** Rebuilding *)

(** All of a part but its text and its tool's output and error. *)
Record part_kept (p p' : fields) : Prop := {
  pk_fields : ∀ k, k ∉ [js "text"; js "state"] → assoc k p' = assoc k p;
  pk_state : ∀ k, k ∉ [js "output"; js "error"] → prop k (state_of p') = prop k (state_of p);
  pk_opaque : project_part p = None → p' = p }.

Lemma part_kept_refl p : part_kept p p.
Proof. by split. Qed.

Lemma not_in_pair (k a b : jstr) : k ∉ [a; b] → jeqb a k = false ∧ jeqb b k = false.
Proof. intros H. split; apply jeqb_neq; intros ->; apply H; [by left|right; by left]. Qed.

Lemma set_state_kept k v p q : k ∈ [js "output"; js "error"] → part_kept p q → project_part p ≠ None → part_kept p (set_state k v q).
Proof.
  intros Hk [H1 H2 _] Hp. split; [| |done].
  - intros k' Hk'. rewrite set_state_other; [by apply H1|]. by apply not_in_pair in Hk' as [_ ?].
  - intros k' Hk'. rewrite set_state_prop. rewrite <- H2 by done. destruct (state_of q) as [[| | | | |l]|]; try done.
    destruct (jeqb k k') eqn:E; [apply jeqb_eq in E; subst; done|done].
Qed.

Lemma write_part_kept p u : project_part p ≠ None → part_kept p (write_part p u).
Proof.
  intros Hp. destruct u as [text|tool callId input ts]; cbn [write_part].
  - destruct (jeqb _ _); [|apply part_kept_refl]. split; [| |done].
    + intros k [Hk _]%not_in_pair. by rewrite assoc_set, Hk.
    + intros k _. unfold state_of. by rewrite assoc_set_ne.
  - destruct (jeqb _ _); [|apply part_kept_refl]. unfold write_opt.
    destruct (ts_output ts), (ts_error ts); repeat (apply set_state_kept; [set_solver| |done]); apply part_kept_refl.
Qed.

Lemma write_parts_kept parts us : Forall2 part_kept parts (write_parts parts us).
Proof.
  revert us. induction parts as [|p parts IH]; intros us; cbn [write_parts]; [constructor|].
  destruct (project_part p) eqn:E, us as [|u us]; constructor; auto using part_kept_refl. apply write_part_kept. by rewrite E.
Qed.

Lemma same_json_refl m : same_json m m = true.
Proof. apply jeqb_refl. Qed.

Section Rebuild.
Context (messages : list HostMessage) (projection : list ChatMessage).
Context (Hp : projectMessages messages = Some projection) (Hn : NoDup (map m_id projection)).

(** An id of the projection names its original. *)
Lemma original_of m0 :
  m0 ∈ projection → ∃ h, h ∈ messages ∧ projectMessage h = Some m0 ∧ get (m_id m0) (by_id host_id messages) = Some h
    ∧ get (m_id m0) (by_id m_id projection) = Some m0.
Proof using Hp Hn.
  intros Hm. pose proof (by_id_get m_id projection Hn m0 Hm) as Hb. pose proof (mapM_ids _ _ Hp) as Hids.
  pose proof Hm as [i Hi]%list_elem_of_lookup. pose proof Hp as Hp'. unfold projectMessages in Hp'. apply mapM_Some_1 in Hp'.
  destruct (Forall2_lookup_r _ _ _ _ _ Hp' Hi) as (h & Hh & Hproj). apply list_elem_of_lookup_2 in Hh.
  destruct (projectMessage_id _ _ Hproj) as (Hid & _). exists h. split_and!; try done. rewrite Hid. apply by_id_get; [by rewrite <- Hids|done].
Qed.

(** What the map of [applyHostView] makes of one message of the view. *)
Inductive rebuilt (m : ChatMessage) : HostMessage → Prop :=
| rebuilt_same h m0 : h ∈ messages → projectMessage h = Some m0 → m_id m0 = m_id m → same_json m m0 = true → rebuilt m h
| rebuilt_edited h m0 : h ∈ messages → projectMessage h = Some m0 → m_id m0 = m_id m →
    rebuilt m (mkHost (hm_info h) (write_parts (hm_parts h) (m_parts m)) (match m_archive m with Some a => Some a | None => hm_archive h end))
| rebuilt_range h : h ∈ messages → m_id m ∉ map m_id projection → rebuilt m (synthetic_message h m).

Lemma rebuild_ok ops m :
  ((∃ m0, m0 ∈ projection ∧ message_shape m0 m) ∨ ∃ b ids ds, OpRange b ids ds m ∈ ops) →
  Forall (λ op, match op with OpRange _ ids _ _ => ∃ m, m ∈ projection ∧ m_id m = default [] (head ids) | _ => True end) ops →
  ∃ h, rebuild messages projection ops m = Some h ∧ rebuilt m h.
Proof using Hp Hn.
  intros Hm Hops. unfold rebuild. destruct (decide (m_id m ∈ map m_id projection)) as [Hin|Hout].
  - apply list_elem_of_fmap in Hin as (m0 & Hid & Hm0). rewrite Hid. destruct (original_of m0 Hm0) as (h & Hh & Hproj & -> & ->).
    destruct (same_json m m0) eqn:E; eexists; (split; [done|]); [by eapply rebuilt_same|by eapply rebuilt_edited].
  - destruct Hm as [(m0 & Hm0 & [Hid _ _ _ _])|(b & ids & ds & Hop)]; [destruct Hout; rewrite Hid; by apply list_elem_of_fmap_2|].
    assert (get (m_id m) (by_id m_id projection) = None) as ->.
    { destruct (get _ _) as [x|] eqn:E; [|done]. apply by_id_sound in E as [Hx Hid]. destruct Hout. rewrite <- Hid. by apply list_elem_of_fmap_2. }
    assert (get (m_id m) (by_id host_id messages) = None) as ->.
    { destruct (get _ _) as [x|] eqn:E; [|done]. apply by_id_sound in E as [Hx Hid]. destruct Hout. rewrite <- Hid, (mapM_ids _ _ Hp). by apply list_elem_of_fmap_2. }
    set (is_range := λ op, match op with OpRange _ _ _ r => jeqb (m_id r) (m_id m) | _ => false end).
    destruct (List.find is_range ops) as [op|] eqn:Ef.
    + pose proof Ef as Ef'. apply find_some in Ef' as [Hop' Hr]. destruct op as [b' ids' ds' r'| |]; [|done|done].
      apply list_elem_of_In in Hop'. rewrite Forall_forall in Hops. destruct (Hops _ Hop') as (m1 & Hm1 & Hid).
      destruct (original_of m1 Hm1) as (h & Hh & _ & Hg & _). exists (synthetic_message h m). rewrite <- Hid, Hg. split; [done|by constructor].
    + apply list_elem_of_In, (find_none _ _ Ef) in Hop. cbn in Hop. by rewrite jeqb_refl in Hop.
Qed.
End Rebuild.

Lemma mapM_sublist {A B} (f : A → option B) l k k' :
  l `sublist_of` k → mapM f k = Some k' → ∃ l', mapM f l = Some l' ∧ l' `sublist_of` k'.
Proof.
  intros H. revert k'. induction H as [|x l k H IH|x l k H IH]; intros k'; cbn [mapM].
  - intros [= <-]. exists []. split; [done|constructor].
  - intros (y & Hy & (k2 & Hk2 & [= <-])%bind_Some)%bind_Some. destruct (IH k2 Hk2) as (l2 & Hl2 & Hs). exists (y :: l2).
    split; [|by constructor]. rewrite Hy. cbn [mbind option_bind]. by rewrite Hl2.
  - intros (y & Hy & (k2 & Hk2 & [= <-])%bind_Some)%bind_Some. destruct (IH k2 Hk2) as (l2 & Hl2 & Hs). exists l2. split; [done|by constructor].
Qed.

Lemma mapM_total {A B} (f : A → option B) (P : A → B → Prop) l :
  (∀ x, x ∈ l → ∃ y, f x = Some y ∧ P x y) → ∃ l', mapM f l = Some l' ∧ Forall2 P l l'.
Proof.
  induction l as [|x l IH]; intros H; [exists []; split; [done|constructor]|]. destruct (H x) as (y & Hy & HP); [by left|].
  destruct IH as (l' & Hl' & HPs); [intros x' ?; apply H; by right|]. exists (y :: l'). split; [|by constructor]. cbn [mapM]. rewrite Hy. cbn [mbind option_bind].
  by rewrite Hl'.
Qed.

Lemma drop_sublist_filter {A} (P : A → bool) n l : forallb P (drop n l) = true → drop n l `sublist_of` List.filter P l.
Proof.
  intros H. rewrite <- (take_drop n l) at 2. rewrite List.filter_app.
  assert (List.filter P (drop n l) = drop n l) as ->; [|by apply sublist_inserts_l].
  revert H. generalize (drop n l) as k. induction k as [|x k IH]; cbn [forallb List.filter]; [done|]. intros [-> ?]%andb_true_iff. by rewrite IH.
Qed.

Section Applied.
Context (sha256Hex : jstr → jstr) (messages : list HostMessage) (plan : ViewPlan) (retain : option Z).
Abbreviation r := (vp_result plan).

(** The two ways a plan is applied. *)
Inductive host_applied (projection : list ChatMessage) : list HostMessage → Prop :=
| applied_operations ops output messages' :
    hr_operations r = Some ops → materialize sha256Hex projection ops (hr_sourceSnapshot r) = Ok output →
    mz_messages (materializeCompaction sha256Hex projection (plan_of r)) = output →
    mapM (rebuild messages projection ops) output = Some messages' → Forall2 (rebuilt messages projection) output messages' →
    host_applied projection messages'
| applied_prefix h rest :
    hr_operations r = None → messages = h :: rest → head (hr_replacedMessageIds r) = Some (host_id h) →
    mz_messages (materializeCompaction sha256Hex projection (plan_of r))
      = buildReplacementMessage (plan_of r) :: drop (length (hr_replacedMessageIds r)) projection →
    hr_replacedMessageIds r = map m_id (take (length (hr_replacedMessageIds r)) projection) →
    host_applied projection (synthetic_message h (buildReplacementMessage (plan_of r)) :: drop (length (hr_replacedMessageIds r)) messages).

Lemma applyHostView_cases :
  ∃ status messages', applyHostView sha256Hex messages plan retain = Some (status, messages')
  ∧ (status ≠ SApplied → messages' = messages)
  ∧ (status = SApplied → ∃ projection, projectMessages messages = Some projection ∧ policy_refuses plan retain projection = false
       ∧ mz_status (materializeCompaction sha256Hex projection (plan_of r)) = SApplied ∧ host_applied projection messages').
Proof.
  unfold applyHostView. destruct (projectMessages messages) as [projection|] eqn:Hp; [|by exists SInvalid, messages].
  destruct (hr_sourceDigests r) as [[|d ds]|]; [by exists SInvalid, messages| |by exists SInvalid, messages].
  destruct (policy_refuses plan retain projection) eqn:Epol; [by exists SInvalid, messages|]. cbv zeta.
  destruct (mz_status (materializeCompaction sha256Hex projection (plan_of r))) eqn:Es; [|by eexists _, messages..].
  destruct (hr_operations r) as [ops|] eqn:Eo.
  - assert (∃ output, materialize sha256Hex projection ops (hr_sourceSnapshot r) = Ok output
      ∧ materializeCompaction sha256Hex projection (plan_of r) = mkMat SApplied output) as (output & Em & Emc).
    { unfold materializeCompaction, materializeOperations in Es |- *. cbn [plan_of pl_operations pl_sourceSnapshot] in *. rewrite Eo in Es |- *.
      destruct (materialize sha256Hex projection ops (hr_sourceSnapshot r)) as [output|status]; [by exists output|by destruct status]. }
    rewrite Emc. cbn [mz_messages mz_status]. destruct (materialize_shape _ _ _ _ _ Em) as (Hshape & Hops & Hn). rewrite Forall_forall in Hshape.
    destruct (mapM_total (rebuild messages projection ops) (rebuilt messages projection) output) as (messages' & Hm & Hr).
    { intros m Hm. by apply rebuild_ok, Hops; [..|apply Hshape]. }
    rewrite Hm. cbn [mbind option_bind]. exists SApplied, messages'. split; [done|]. split; [done|]. intros _. exists projection. split_and!; try done.
    eapply applied_operations; try done. by rewrite Emc.
  - destruct messages as [|h rest] eqn:Eh; [by eexists SInvalid, []|]. rewrite <- Eh in *. pose proof Hp as Hp'. rewrite Eh in Hp'. unfold projectMessages in Hp'. cbn [mapM] in Hp'.
    apply bind_Some in Hp' as (m & Hm & (prest & _ & Hprest)%bind_Some). injection Hprest as Hprest.
    destruct (projectMessage_id _ _ Hm) as (Hid & _).
    destruct (mz_messages (materializeCompaction sha256Hex projection (plan_of r))) as [|x xs] eqn:Ex; [by eexists SInvalid, _|].
    destruct (bool_decide (head (hr_replacedMessageIds r) = Some (host_id h))) eqn:Eb; cbn [negb]; [|by eexists SInvalid, _].
    apply bool_decide_eq_true in Eb. rewrite <- Hprest in Es, Ex.
    destruct (legacy_prefix sha256Hex m prest (plan_of r)) as [Epre Eids]; [done|cbn [plan_of pl_replacedMessageIds]; congruence|done|].
    rewrite Epre in Ex. injection Ex as <- <-.
    eexists SApplied, _. split; [reflexivity|]. split; [done|]. intros _. exists projection. split_and!; try done; [by rewrite <- Hprest|].
    rewrite Hprest in Epre, Eids. by apply (applied_prefix projection h rest).
Qed.
End Applied.

Lemma project_drop n messages projection : projectMessages messages = Some projection → projectMessages (drop n messages) = Some (drop n projection).
Proof. unfold projectMessages. intros H. apply mapM_Some. apply mapM_Some_1 in H. by apply Forall2_drop. Qed.

Lemma projected_length messages projection : projectMessages messages = Some projection → length messages = length projection.
Proof. unfold projectMessages. intros H%mapM_Some_1. by eapply Forall2_length. Qed.

Lemma unique_by_id (l : list ChatMessage) m m' : NoDup (map m_id l) → m ∈ l → m' ∈ l → m_id m = m_id m' → m = m'.
Proof. intros Hn Hm Hm' E. pose proof (by_id_get m_id l Hn m Hm) as H. rewrite E, (by_id_get m_id l Hn m' Hm') in H. congruence. Qed.

(** The messages of the turns the policy keeps are rebuilt as they are. *)
Lemma kept_rebuilt sha256Hex messages projection ops snapshot output n :
  projectMessages messages = Some projection → materialize sha256Hex projection ops snapshot = Ok output →
  forallb (λ m, negb (bool_decide (m_id m ∈ flat_map op_targets ops))) (drop n projection) = true →
  drop n projection `sublist_of` output ∧ mapM (rebuild messages projection ops) (drop n projection) = Some (drop n messages).
Proof.
  intros Hp Hm Hf. destruct (materialize_shape _ _ _ _ _ Hm) as (_ & _ & Hn).
  destruct (materialize_sound _ _ _ _ _ Hm) as (_ & _ & _ & _ & _ & Hsub). split.
  - exact (transitivity (drop_sublist_filter _ n _ Hf) Hsub).
  - pose proof (project_drop n _ _ Hp) as Hd. unfold projectMessages in Hd. apply mapM_Some_1 in Hd. apply mapM_Some.
    apply Forall2_same_length_lookup. apply Forall2_same_length_lookup in Hd as [Hl Hd]. split; [done|]. intros i m h Hi Hh.
    specialize (Hd i h m Hh Hi). assert (m ∈ projection) as Hin.
    { apply list_elem_of_lookup_2 in Hi. rewrite <- (take_drop n projection), elem_of_app. by right. }
    destruct (original_of messages projection Hp Hn m Hin) as (h' & _ & _ & Hg & Hg'). unfold rebuild. rewrite Hg, Hg', same_json_refl.
    apply by_id_sound in Hg as [Hh' Hid']. f_equal. apply list_elem_of_lookup_2 in Hh.
    assert (h ∈ messages) as Hin' by (rewrite <- (take_drop n messages), elem_of_app; by right).
    pose proof (by_id_get host_id messages) as Hb. rewrite <- (mapM_ids _ _ Hp) in Hb. pose proof (Hb Hn h Hin') as H1. pose proof (Hb Hn h' Hh') as H2.
    rewrite Hid' in H2. rewrite (proj1 (projectMessage_id _ _ Hd)) in H2. congruence.
Qed.

(** A prefix that the policy accepts ends before the turns it keeps. *)
Lemma prefix_before_recent projection ids n :
  ids = map m_id (take (length ids) projection) → forallb (λ id, negb (bool_decide (id ∈ map m_id (drop n projection)))) ids = true →
  (length ids <= n)%nat ∨ (length projection <= n)%nat.
Proof.
  intros Hids Hf. destruct (decide (length ids <= n)%nat) as [?|Hlt]; [by left|]. destruct (decide (length projection <= n)%nat) as [?|Hlp]; [by right|]. exfalso.
  destruct (lookup_lt_is_Some_2 projection n) as [m Hm]; [lia|]. assert (m_id m ∈ ids) as Hin.
  { rewrite Hids. apply list_elem_of_fmap_2. apply (list_elem_of_lookup_2 _ n). rewrite lookup_take_lt by lia. done. }
  rewrite forallb_forall in Hf. specialize (Hf (m_id m) (proj1 (list_elem_of_In _ _) Hin)). apply negb_true_iff, bool_decide_eq_false in Hf. apply Hf.
  apply list_elem_of_fmap_2. apply (list_elem_of_lookup_2 _ 0). by rewrite lookup_drop, Nat.add_0_r.
Qed.

(** Applying a plan to the host's messages is total, atomic and careful.
    [applyHostView] never throws, whatever the plan holds.  Unless it reports
    [applied] the array is as it was.  When it does, every message of the new
    array is one of the old ones, with the same [info] and with parts that keep
    every property but [text] and [state.output] and [state.error], the parts the
    projection does not carry being kept as they are; or it is made from the
    [info] of an old one.  And when a layered plan is applied under the policy of
    keeping recent turns, the messages of those turns are still there,
    unchanged and in order. *)
Theorem host_view_keeps_host sha256Hex messages plan retain :
  ∃ status messages', applyHostView sha256Hex messages plan retain = Some (status, messages')
  ∧ (status ≠ SApplied → messages' = messages)
  ∧ (status = SApplied → ∃ projection, projectMessages messages = Some projection
     ∧ (∀ h', h' ∈ messages' →
          (∃ h, h ∈ messages ∧ hm_info h' = hm_info h ∧ Forall2 part_kept (hm_parts h) (hm_parts h'))
          ∨ (∃ h m, h ∈ messages ∧ h' = synthetic_message h m))
     ∧ (∀ n, vp_strategy plan = Some Layered → retain = Some n → drop (recent_start n projection) messages `sublist_of` messages')).
Proof.
  destruct (applyHostView_cases sha256Hex messages plan retain) as (status & messages' & E & Hno & Hyes). exists status, messages'. split; [done|]. split; [done|].
  intros Hs. destruct (Hyes Hs) as (projection & Hp & Hpol & Hmz & Happ). exists projection. split; [done|].
  assert (∀ n, vp_strategy plan = Some Layered → retain = Some n →
    forallb (λ id, negb (bool_decide (id ∈ map m_id (drop (recent_start n projection) projection)))) (affected (vp_result plan)) = true) as Hfree.
  { intros n Hl Hr. unfold policy_refuses in Hpol. rewrite Hl, Hr in Hpol. apply forallb_forall. intros id Hid. apply negb_true_iff.
    destruct (bool_decide _) eqn:Eb; [|done]. exfalso. rewrite <- not_true_iff_false in Hpol. apply Hpol, existsb_exists. by exists id. }
  destruct Happ as [ops output messages' Ho Hm _ Hmap Hreb|h rest Ho Hh Hid Hprefix Hids].
  - split.
    + intros h' Hh'. apply list_elem_of_lookup in Hh' as [i Hi]. destruct (Forall2_lookup_r _ _ _ _ _ Hreb Hi) as (m & _ & Hb).
      destruct Hb as [h m0 Hin _ _ _|h m0 Hin _ _|h Hin _]; [left; exists h|left; exists h|right; by exists h, m].
      * split_and!; [done|done|]. apply Forall_Forall2_diag, Forall_forall. intros p _. apply part_kept_refl.
      * split_and!; [done|done|]. apply write_parts_kept.
    + intros n Hl Hr. specialize (Hfree n Hl Hr). unfold affected in Hfree. rewrite Ho in Hfree.
      destruct (kept_rebuilt sha256Hex messages projection ops (hr_sourceSnapshot (vp_result plan)) output (recent_start n projection) Hp Hm) as [Hsub Hk].
      { apply forallb_forall. intros m Hin. apply negb_true_iff, bool_decide_eq_false. intros Ht. rewrite forallb_forall in Hfree.
        specialize (Hfree _ (proj1 (list_elem_of_In _ _) Ht)). apply negb_true_iff, bool_decide_eq_false in Hfree. apply Hfree.
        apply list_elem_of_fmap_2. by apply list_elem_of_In. }
      destruct (mapM_sublist _ _ _ _ Hsub Hmap) as (l' & Hl' & Hsub'). rewrite Hk in Hl'. by injection Hl' as <-.
  - split.
    + intros h' [->|Hin]%elem_of_cons; [right; exists h, (buildReplacementMessage (plan_of (vp_result plan))); split; [rewrite Hh; by left|done]|].
      left. exists h'. split_and!; [|done|apply Forall_Forall2_diag, Forall_forall; intros p _; apply part_kept_refl].
      rewrite <- (take_drop (length (hr_replacedMessageIds (vp_result plan))) messages), elem_of_app. by right.
    + intros n Hl Hr. specialize (Hfree n Hl Hr). unfold affected in Hfree. rewrite Ho in Hfree.
      destruct (prefix_before_recent projection (hr_replacedMessageIds (vp_result plan)) (recent_start n projection)) as [Hle|Hge]; [done|done| |].
      * apply sublist_cons. rewrite <- (Nat.sub_add _ _ Hle), Nat.add_comm, <- drop_drop. apply sublist_drop.
      * rewrite drop_ge; [apply sublist_nil_l|]. by rewrite (projected_length _ _ Hp).
Qed.

Lemma buildReplacement_plain plan : plain_replacement (buildReplacementMessage plan) = true.
Proof. reflexivity. Qed.

Definition wire (m : ChatMessage) : jstr := stringify (json_of_message m).

(** One rebuilt message projects to the message of the view, as the wire has it. *)
Lemma rebuilt_projects messages projection ops m h :
  projectMessages messages = Some projection → NoDup (map m_id projection) → plain_plan ops (map host_id messages) →
  ((∃ m0, m0 ∈ projection ∧ message_shape m0 m) ∨ ∃ b ids ds, OpRange b ids ds m ∈ ops) →
  rebuilt messages projection m h → ∃ p, projectMessage h = Some p ∧ wire p = wire m.
Proof.
  intros Hp Hn Hplain Hshape Hb. pose proof (mapM_ids _ _ Hp) as Hids. destruct Hb as [h m0 _ Hproj _ Hsame|h m0 Hh Hproj Hid|h _ Hout].
  - exists m0. split; [done|]. symmetry. by apply jeqb_eq.
  - exists m. split; [|done]. assert (m0 ∈ projection) as Hm0.
    { pose proof Hp as Hp'. unfold projectMessages in Hp'. apply mapM_Some_1 in Hp'. apply list_elem_of_lookup in Hh as [i Hi].
      destruct (Forall2_lookup_l _ _ _ _ _ Hp' Hi) as (m' & Hm' & Hproj'). rewrite Hproj in Hproj'. injection Hproj' as <-. by eapply list_elem_of_lookup_2. }
    destruct Hshape as [(m1 & Hm1 & Hs)|(b & ids & ds & Hop)].
    + assert (m1 = m0) as ->; [|apply (projectMessage_edited h m0 m); [done|done|symmetry; by apply (projectMessage_id h m0)]].
      eapply unique_by_id; [exact Hn|done|done|]. rewrite Hid. symmetry. apply Hs.
    + destruct (Hplain _ _ _ _ Hop) as [_ Hnew]. destruct Hnew. rewrite <- Hids, <- Hid. by apply list_elem_of_fmap_2.
  - exists m. split; [|done]. destruct Hshape as [(m1 & Hm1 & Hs)|(b & ids & ds & Hop)].
    + destruct Hout. rewrite (sh_id _ _ Hs). by apply list_elem_of_fmap_2.
    + apply synthetic_projects. by apply (Hplain _ _ _ _ Hop).
Qed.

Lemma rebuilt_all messages projection ops output messages' :
  projectMessages messages = Some projection → NoDup (map m_id projection) → plain_plan ops (map host_id messages) →
  Forall (λ m, (∃ m0, m0 ∈ projection ∧ message_shape m0 m) ∨ ∃ b ids ds, OpRange b ids ds m ∈ ops) output →
  Forall2 (rebuilt messages projection) output messages' → ∃ projection', projectMessages messages' = Some projection' ∧ map wire projection' = map wire output.
Proof.
  intros Hp Hn Hplain Hshape Hb. induction Hb as [|m h output messages' H Hb IH]; [by exists []|]. apply Forall_cons in Hshape as [Hm Hshape].
  destruct (rebuilt_projects _ _ _ _ _ Hp Hn Hplain Hm H) as (p & Hproj & Hw). destruct (IH Hshape) as (ps & Hps & Hws).
  exists (p :: ps). split; [|cbn [map]; congruence]. unfold projectMessages in *. cbn [mapM]. by rewrite Hproj, Hps.
Qed.

(** C4: writing a plan into the host's messages does what the daemon computed.
    When a plan has been applied, the daemon's materialization of the projected
    messages succeeds, and projecting the host's new array gives exactly the
    messages of that materialized view, byte for byte on the wire: the next
    request sees the view that was planned, no more and no less.  The replacement
    of a range must be one the host can carry: text parts of the user, unprotected, under an id
    that no message has. *)
Theorem host_view_refines sha256Hex messages plan retain messages' :
  applyHostView sha256Hex messages plan retain = Some (SApplied, messages') →
  plain_plan (default [] (hr_operations (vp_result plan))) (map host_id messages) →
  ∃ projection projection', projectMessages messages = Some projection ∧ projectMessages messages' = Some projection'
  ∧ mz_status (materializeCompaction sha256Hex projection (plan_of (vp_result plan))) = SApplied
  ∧ map wire projection' = map wire (mz_messages (materializeCompaction sha256Hex projection (plan_of (vp_result plan)))).
Proof.
  intros E Hplain. destruct (applyHostView_cases sha256Hex messages plan retain) as (status & messages2 & E' & _ & Hyes).
  rewrite E in E'. injection E' as <- <-. destruct (Hyes eq_refl) as (projection & Hp & _ & Hmz & Happ). exists projection.
  destruct Happ as [ops output messages' Ho Hm Hout _ Hreb|h rest Ho Hh Hid Hprefix _].
  - rewrite Ho in Hplain. destruct (materialize_shape _ _ _ _ _ Hm) as (Hshape & _ & Hn). rewrite Hout.
    destruct (rebuilt_all messages projection ops output messages' Hp Hn Hplain Hshape Hreb) as (projection' & ? & ?). by exists projection'.
  - exists (buildReplacementMessage (plan_of (vp_result plan)) :: drop (length (hr_replacedMessageIds (vp_result plan))) projection).
    split_and!; [done| |done|by rewrite Hprefix]. pose proof (project_drop (length (hr_replacedMessageIds (vp_result plan))) _ _ Hp) as Hd.
    unfold projectMessages in *. cbn [mapM]. rewrite synthetic_projects by apply buildReplacement_plain. cbn [mbind option_bind]. by rewrite Hd.
Qed.

(** [sessionOf] names a session only when every message is of it. *)
Lemma sessionOf_all messages s :
  sessionOf messages = Some s → s ≠ [] ∧ Forall (λ m, assoc (js "sessionID") (hm_info m) = Some (JStr s)) messages.
Proof.
  unfold sessionOf. destruct messages as [|h rest]; [done|]. cbn [map]. destruct (assoc (js "sessionID") (hm_info h)) as [[| | |s'| |]|] eqn:E; try done.
  destruct (forallb _ _) eqn:Ef; [|done]. cbn [andb]. destruct (jeqb s' []) eqn:Es; [done|]. intros [= ->]. split; [by apply jeqb_neq|].
  constructor; [done|]. apply Forall_forall. intros m Hm. rewrite forallb_forall in Ef.
  specialize (Ef _ (in_map (λ m, assoc (js "sessionID") (hm_info m)) rest m (proj1 (list_elem_of_In _ _) Hm))). cbv beta in Ef.
  destruct (assoc (js "sessionID") (hm_info m)) as [[| | |t| |]|]; try done. by apply jeqb_eq in Ef as ->.
Qed.

(** ** A host history *)

Definition jstring (s : string) : json := JStr (js s).
Definition demo_host (id role : string) (parts : list fields) : HostMessage :=
  mkHost [(js "id", jstring id); (js "role", jstring role); (js "sessionID", jstring "s"); (js "time", JObj [(js "created", JNum (NInt 5))])] parts None.
Definition demo_text (text : string) : fields := [(js "id", jstring "p"); (js "type", jstring "text"); (js "text", jstring text)].
Definition demo_tool (output : string) : fields :=
  [(js "type", jstring "tool"); (js "tool", jstring "bash"); (js "callID", jstring "c");
   (js "state", JObj [(js "status", jstring "completed"); (js "input", JObj []); (js "output", jstring output); (js "title", jstring "t")])].
Definition demo_step : fields := [(js "type", jstring "step-start"); (js "snapshot", jstring "x")].
Definition demo_hosts : list HostMessage :=
  [demo_host "u1" "user" [demo_text "hello world"]; demo_host "a1" "assistant" [demo_step; demo_tool "long output"; demo_text "done"];
   demo_host "u2" "user" [demo_text "next"]; demo_host "a2" "assistant" [demo_text "working"]].

Definition host_sha : jstr → jstr := λ _, demo_hash 48.
Definition host_ops : list ViewOperation :=
  [OpText (mkBase (demo_hash 97) 1 (demo_hash 48)) (js "u1") (demo_hash 48) 0 6 11 (demo_hash 48) (js "there");
   OpTool (mkBase (demo_hash 98) 1 (demo_hash 48)) (js "a1") (demo_hash 48) 0 (demo_hash 48) (js "short")].
Definition host_plan : ViewPlan :=
  mkView {| hr_compacted := true; hr_operations := Some host_ops; hr_sourceSnapshot := Some (mkSnap [js "u1"; js "a1"] [demo_hash 48; demo_hash 48]);
            hr_sourceDigests := Some [demo_hash 48; demo_hash 48]; hr_epoch := None; hr_memory := None; hr_budgetExceeded := None;
            hr_historyHash := Some (demo_hash 97); hr_summary := None; hr_refs := []; hr_replacedMessageIds := [js "u1"; js "a1"];
            hr_rawTokens := 0; hr_summaryTokens := 0; hr_sourceTokensEst := 0; hr_evictedTokensEst := 0; hr_retainedTokensEst := 0;
            hr_replacementTokensEst := 0; hr_finalTokensEst := 0; hr_freedTokens := 0 |} (Some Layered) None None.

Definition demo_applied : list HostMessage :=
  [demo_host "u1" "user" [demo_text "hello there"]; demo_host "a1" "assistant" [demo_step; demo_tool "short"; demo_text "done"];
   demo_host "u2" "user" [demo_text "next"]; demo_host "a2" "assistant" [demo_text "working"]].
Example applyHostView_ex :
  applyHostView host_sha demo_hosts host_plan (Some 0) = Some (SApplied, demo_applied)
  ∧ applyHostView host_sha demo_hosts host_plan (Some 1) = Some (SInvalid, demo_hosts)
  ∧ sessionOf demo_hosts = Some (js "s") ∧ upstreamEpoch demo_hosts = [].
Proof. vm_compute. auto. Qed.

Lemma host_view_keeps_host_witness :
  drop (recent_start 0 (default [] (projectMessages demo_hosts))) demo_hosts `sublist_of` demo_applied.
Proof.
  destruct (host_view_keeps_host host_sha demo_hosts host_plan (Some 0)) as (status & messages' & E & _ & H).
  assert (applyHostView host_sha demo_hosts host_plan (Some 0) = Some (SApplied, demo_applied)) as E' by (vm_compute; reflexivity).
  rewrite E' in E. injection E as <- <-. destruct (H eq_refl) as (projection & Hp & _ & Hk). rewrite Hp. exact (Hk 0 eq_refl eq_refl).
Defined.

Lemma host_view_refines_witness :
  ∃ projection', projectMessages demo_applied = Some projection' ∧ map m_id projection' = [js "u1"; js "a1"; js "u2"; js "a2"].
Proof.
  destruct (host_view_refines host_sha demo_hosts host_plan (Some 0) demo_applied) as (projection & projection' & _ & H & _).
  - vm_compute. reflexivity.
  - intros b mids ds r H. exfalso. vm_compute in H. repeat (apply elem_of_cons in H as [H|H]; [discriminate H|]). by apply elem_of_nil in H.
  - exists projection'. split; [exact H|]. vm_compute in H. injection H as <-. vm_compute. reflexivity.
Defined.

(** A range whose replacement reuses an id of the range is taken for an edit of
    the original: the parts the replacement does not have are left standing. *)
Definition reuse_plan : ViewPlan :=
  let r := user_text (js "u1") (js "archived") in
  mkView {| hr_compacted := true; hr_operations := Some [OpRange (mkBase (demo_hash 97) 1 (demo_hash 48)) [js "u1"] [demo_hash 48] r];
            hr_sourceSnapshot := Some (mkSnap [js "u1"] [demo_hash 48]);
            hr_sourceDigests := Some [demo_hash 48]; hr_epoch := None; hr_memory := None; hr_budgetExceeded := None;
            hr_historyHash := Some (demo_hash 97); hr_summary := None; hr_refs := []; hr_replacedMessageIds := [js "u1"];
            hr_rawTokens := 0; hr_summaryTokens := 0; hr_sourceTokensEst := 0; hr_evictedTokensEst := 0; hr_retainedTokensEst := 0;
            hr_replacementTokensEst := 0; hr_finalTokensEst := 0; hr_freedTokens := 0 |} (Some Layered) None None.
Example reused_id_keeps_parts_ex :
  let hosts := [demo_host "u1" "user" [demo_text "one"; demo_text "two"]; demo_host "u2" "user" [demo_text "next"]] in
  map m_parts (mz_messages (materializeCompaction host_sha (default [] (projectMessages hosts)) (plan_of (vp_result reuse_plan))))
    = [[PText (js "archived")]; [PText (js "next")]]
  ∧ (map hm_parts ∘ snd <$> applyHostView host_sha hosts reuse_plan None)
    = Some [[demo_text "archived"; demo_text "two"]; [demo_text "next"]].
Proof. vm_compute. auto. Qed.
