(* ===== verification/Runtime.v ===== *)
(** * The plugin runtime ([packages/plugin/src/runtime.ts])

    One runtime per plugin instance serves the host's hooks.  It keeps a state
    per session, at most 64; a queue of daemon work with two permits; and the
    view of each session, which [transform] applies to the messages the host is
    about to send.

    Everything between two [await]s is one function on the state [Runtime], and
    [apply_event] is one turn of the event loop: a hook, the settlement of a
    promise, a clock tick, or the continuation of an asynchronous function.  The
    daemon, the provider list and the security sidecar are the environment: what
    their promises settle with, and when, is part of the events.  A session's
    state and a snapshot are objects that closures keep referring to after the
    session is gone, so both live in a store and are named by address.

    [rt_log] is a ghost: it records the calls to the daemon, and when a plan was
    asked for, invalidated and published.  Trace events and metrics are left
    out, and a number of the model limits that is not an integer counts as
    absent. *)

From stdpp Require Import base tactics list numbers option sets strings relations.
From Stdlib Require Import SpecFloat.
From S2P Require Import Prelude JsString JsRegex Json Codec CLine OMap Chat Operations Compaction Compress Objects Nodes HostAdapter.

(** ** Options *)

Inductive Mode : Type := Moff | Mshadow | Mon.
#[export] Instance Mode_dec : EqDecision Mode.
Proof. solve_decision. Defined.
#[export] Instance CompactStrategy_dec : EqDecision CompactStrategy.
Proof. solve_decision. Defined.

Record Options := mkOptions {
  op_enabled : bool;
  op_mode : Mode;
  op_headroom_mode : option Mode;
  op_strategy : CompactStrategy;
  op_retainRecentTurns : Z;
  op_triggerRatio : spec_float;
  op_targetRatio : spec_float;
  op_summarizer : bool;
  op_timeoutMs : Z;
  op_upstream : bool;                    (** [fallback] is [upstream] *)
  op_headroom_json : json }.             (** [options.headroom], as it is fingerprinted *)

(** What the runtime was given: the daemon, its [getCandidate], and the SDK's
    provider list. *)
Record Ports := mkPorts { po_headroom : bool; po_getCandidate : bool; po_providers : bool }.

(** ** State *)

Record SessionState := mkSS {
  ss_snapshot : option nat;
  ss_view : option ViewPlan;
  ss_epoch : option jstr;
  ss_paused : bool;
  ss_hydrated : bool;
  ss_hydrating : bool;
  ss_busy : bool;
  ss_model : option fields;
  ss_maxOutput : option Z;
  ss_systemTokens : Z;
  ss_attempted : option jstr;
  ss_generation : Z;
  ss_enhancementJob : option jstr }.
Definition new_session : SessionState := mkSS None None None false false false false None None 0 None 0 None.

Definition set_ss_snapshot (v : option nat) (s : SessionState) := mkSS v (ss_view s) (ss_epoch s) (ss_paused s) (ss_hydrated s) (ss_hydrating s) (ss_busy s) (ss_model s) (ss_maxOutput s) (ss_systemTokens s) (ss_attempted s) (ss_generation s) (ss_enhancementJob s).
Definition set_ss_view (v : option ViewPlan) (s : SessionState) := mkSS (ss_snapshot s) v (ss_epoch s) (ss_paused s) (ss_hydrated s) (ss_hydrating s) (ss_busy s) (ss_model s) (ss_maxOutput s) (ss_systemTokens s) (ss_attempted s) (ss_generation s) (ss_enhancementJob s).
Definition set_ss_epoch (v : option jstr) (s : SessionState) := mkSS (ss_snapshot s) (ss_view s) v (ss_paused s) (ss_hydrated s) (ss_hydrating s) (ss_busy s) (ss_model s) (ss_maxOutput s) (ss_systemTokens s) (ss_attempted s) (ss_generation s) (ss_enhancementJob s).
Definition set_ss_paused (v : bool) (s : SessionState) := mkSS (ss_snapshot s) (ss_view s) (ss_epoch s) v (ss_hydrated s) (ss_hydrating s) (ss_busy s) (ss_model s) (ss_maxOutput s) (ss_systemTokens s) (ss_attempted s) (ss_generation s) (ss_enhancementJob s).
Definition set_ss_hydrated (v : bool) (s : SessionState) := mkSS (ss_snapshot s) (ss_view s) (ss_epoch s) (ss_paused s) v (ss_hydrating s) (ss_busy s) (ss_model s) (ss_maxOutput s) (ss_systemTokens s) (ss_attempted s) (ss_generation s) (ss_enhancementJob s).
Definition set_ss_hydrating (v : bool) (s : SessionState) := mkSS (ss_snapshot s) (ss_view s) (ss_epoch s) (ss_paused s) (ss_hydrated s) v (ss_busy s) (ss_model s) (ss_maxOutput s) (ss_systemTokens s) (ss_attempted s) (ss_generation s) (ss_enhancementJob s).
Definition set_ss_busy (v : bool) (s : SessionState) := mkSS (ss_snapshot s) (ss_view s) (ss_epoch s) (ss_paused s) (ss_hydrated s) (ss_hydrating s) v (ss_model s) (ss_maxOutput s) (ss_systemTokens s) (ss_attempted s) (ss_generation s) (ss_enhancementJob s).
Definition set_ss_model (v : option fields) (s : SessionState) := mkSS (ss_snapshot s) (ss_view s) (ss_epoch s) (ss_paused s) (ss_hydrated s) (ss_hydrating s) (ss_busy s) v (ss_maxOutput s) (ss_systemTokens s) (ss_attempted s) (ss_generation s) (ss_enhancementJob s).
Definition set_ss_maxOutput (v : option Z) (s : SessionState) := mkSS (ss_snapshot s) (ss_view s) (ss_epoch s) (ss_paused s) (ss_hydrated s) (ss_hydrating s) (ss_busy s) (ss_model s) v (ss_systemTokens s) (ss_attempted s) (ss_generation s) (ss_enhancementJob s).
Definition set_ss_systemTokens (v : Z) (s : SessionState) := mkSS (ss_snapshot s) (ss_view s) (ss_epoch s) (ss_paused s) (ss_hydrated s) (ss_hydrating s) (ss_busy s) (ss_model s) (ss_maxOutput s) v (ss_attempted s) (ss_generation s) (ss_enhancementJob s).
Definition set_ss_attempted (v : option jstr) (s : SessionState) := mkSS (ss_snapshot s) (ss_view s) (ss_epoch s) (ss_paused s) (ss_hydrated s) (ss_hydrating s) (ss_busy s) (ss_model s) (ss_maxOutput s) (ss_systemTokens s) v (ss_generation s) (ss_enhancementJob s).
Definition set_ss_generation (v : Z) (s : SessionState) := mkSS (ss_snapshot s) (ss_view s) (ss_epoch s) (ss_paused s) (ss_hydrated s) (ss_hydrating s) (ss_busy s) (ss_model s) (ss_maxOutput s) (ss_systemTokens s) (ss_attempted s) v (ss_enhancementJob s).
Definition set_ss_enhancementJob (v : option jstr) (s : SessionState) := mkSS (ss_snapshot s) (ss_view s) (ss_epoch s) (ss_paused s) (ss_hydrated s) (ss_hydrating s) (ss_busy s) (ss_model s) (ss_maxOutput s) (ss_systemTokens s) (ss_attempted s) (ss_generation s) v.
Definition bump (s : SessionState) : SessionState := set_ss_generation (ss_generation s + 1) s.

(** Queued work, with the address and the generation its closure captured; a
    planning and a hydration carry a number. *)
Inductive Job : Type :=
| JClear (id : jstr)
| JHydrate (n : nat) (id : jstr) (a : nat) (generation : Z)
| JPlan (n : nat) (id : jstr) (a : nat) (generation : Z) (raw : nat).

(** What a running job awaits. *)
Inductive Phase : Type :=
| AwaitClear                                          (** [headroom.clearView], the whole of a clear *)
| AwaitView | AwaitViewSafe (plan : ViewPlan) | AwaitMismatchClear
| AwaitProviders (key : jstr) (providerID modelID : jstr) | AwaitModel
| AwaitPlan | AwaitPlanSafe (plan : ViewPlan) | AwaitSetView (plan : ViewPlan)
| Ended.                                              (** before the [finally] of [pump] *)

(** The loop of [pollEnhancement]. *)
Inductive PollPhase : Type :=
| PollSleep | PollCandidate | PollSafe (plan : ViewPlan) | PollSet (plan : ViewPlan).
Record Poll := mkPoll { pp_n : nat; pp_id : jstr; pp_a : nat; pp_job : jstr; pp_base : ViewPlan; pp_gen : Z; pp_until : Z; pp_phase : PollPhase }.

(** A hook that awaits the security guard a second time. *)
Inductive Waiting : Type :=
| WSchedule (id : jstr) (a : nat)                                        (** the end of [transform] *)
| WInfo (id : jstr) (a snap index : nat) (completed : bool).             (** the metadata of one message *)

Record Request := mkRequest {
  rq_namespace : Namespace; rq_messages : list ChatMessage; rq_contextWindowTokens : Z; rq_targetTokens : Z; rq_epoch : jstr; rq_enhance : bool }.

Inductive Log : Type :=
| LGetView (ns : Namespace) | LClearView (ns : Namespace) | LSetView (ns : Namespace) (plan : ViewPlan) | LCompress (r : Request)
| LGetCandidate (ns : Namespace) (jobId epoch : jstr) (digests : list jstr)
| LAsk (n a : nat)                                    (** a planning or hydration of the session at [a] begins *)
| LInvalidate (a : nat)                               (** the session's generation advances *)
| LPublish (n a : nat) (plan : ViewPlan).             (** [state.view = plan], for what [n] asked *)

Record Runtime := mkRT {
  rt_disposed : bool;
  rt_now : Z;
  rt_sessions : list (jstr * nat);
  rt_states : list (nat * SessionState);
  rt_snaps : list (nat * list HostMessage);
  rt_next : nat;
  rt_queue : list (Job * Z);
  rt_running : list (nat * (Job * Phase));
  rt_active : Z;
  rt_queuedBytes : Z;
  rt_polls : list (nat * Poll);
  rt_waiting : list Waiting;
  rt_models : list (jstr * (fields * Z));
  rt_log : list Log }.
Definition new_runtime : Runtime := mkRT false 0 [] [] [] O [] [] 0 0 [] [] [] [].

Definition set_rt_disposed (v : bool) (m : Runtime) := mkRT v (rt_now m) (rt_sessions m) (rt_states m) (rt_snaps m) (rt_next m) (rt_queue m) (rt_running m) (rt_active m) (rt_queuedBytes m) (rt_polls m) (rt_waiting m) (rt_models m) (rt_log m).
Definition set_rt_now (v : Z) (m : Runtime) := mkRT (rt_disposed m) v (rt_sessions m) (rt_states m) (rt_snaps m) (rt_next m) (rt_queue m) (rt_running m) (rt_active m) (rt_queuedBytes m) (rt_polls m) (rt_waiting m) (rt_models m) (rt_log m).
Definition set_rt_sessions (v : list (jstr * nat)) (m : Runtime) := mkRT (rt_disposed m) (rt_now m) v (rt_states m) (rt_snaps m) (rt_next m) (rt_queue m) (rt_running m) (rt_active m) (rt_queuedBytes m) (rt_polls m) (rt_waiting m) (rt_models m) (rt_log m).
Definition set_rt_states (v : list (nat * SessionState)) (m : Runtime) := mkRT (rt_disposed m) (rt_now m) (rt_sessions m) v (rt_snaps m) (rt_next m) (rt_queue m) (rt_running m) (rt_active m) (rt_queuedBytes m) (rt_polls m) (rt_waiting m) (rt_models m) (rt_log m).
Definition set_rt_snaps (v : list (nat * list HostMessage)) (m : Runtime) := mkRT (rt_disposed m) (rt_now m) (rt_sessions m) (rt_states m) v (rt_next m) (rt_queue m) (rt_running m) (rt_active m) (rt_queuedBytes m) (rt_polls m) (rt_waiting m) (rt_models m) (rt_log m).
Definition set_rt_next (v : nat) (m : Runtime) := mkRT (rt_disposed m) (rt_now m) (rt_sessions m) (rt_states m) (rt_snaps m) v (rt_queue m) (rt_running m) (rt_active m) (rt_queuedBytes m) (rt_polls m) (rt_waiting m) (rt_models m) (rt_log m).
Definition set_rt_queue (v : list (Job * Z)) (m : Runtime) := mkRT (rt_disposed m) (rt_now m) (rt_sessions m) (rt_states m) (rt_snaps m) (rt_next m) v (rt_running m) (rt_active m) (rt_queuedBytes m) (rt_polls m) (rt_waiting m) (rt_models m) (rt_log m).
Definition set_rt_running (v : list (nat * (Job * Phase))) (m : Runtime) := mkRT (rt_disposed m) (rt_now m) (rt_sessions m) (rt_states m) (rt_snaps m) (rt_next m) (rt_queue m) v (rt_active m) (rt_queuedBytes m) (rt_polls m) (rt_waiting m) (rt_models m) (rt_log m).
Definition set_rt_active (v : Z) (m : Runtime) := mkRT (rt_disposed m) (rt_now m) (rt_sessions m) (rt_states m) (rt_snaps m) (rt_next m) (rt_queue m) (rt_running m) v (rt_queuedBytes m) (rt_polls m) (rt_waiting m) (rt_models m) (rt_log m).
Definition set_rt_queuedBytes (v : Z) (m : Runtime) := mkRT (rt_disposed m) (rt_now m) (rt_sessions m) (rt_states m) (rt_snaps m) (rt_next m) (rt_queue m) (rt_running m) (rt_active m) v (rt_polls m) (rt_waiting m) (rt_models m) (rt_log m).
Definition set_rt_polls (v : list (nat * Poll)) (m : Runtime) := mkRT (rt_disposed m) (rt_now m) (rt_sessions m) (rt_states m) (rt_snaps m) (rt_next m) (rt_queue m) (rt_running m) (rt_active m) (rt_queuedBytes m) v (rt_waiting m) (rt_models m) (rt_log m).
Definition set_rt_waiting (v : list Waiting) (m : Runtime) := mkRT (rt_disposed m) (rt_now m) (rt_sessions m) (rt_states m) (rt_snaps m) (rt_next m) (rt_queue m) (rt_running m) (rt_active m) (rt_queuedBytes m) (rt_polls m) v (rt_models m) (rt_log m).
Definition set_rt_models (v : list (jstr * (fields * Z))) (m : Runtime) := mkRT (rt_disposed m) (rt_now m) (rt_sessions m) (rt_states m) (rt_snaps m) (rt_next m) (rt_queue m) (rt_running m) (rt_active m) (rt_queuedBytes m) (rt_polls m) (rt_waiting m) v (rt_log m).
Definition set_rt_log (v : list Log) (m : Runtime) := mkRT (rt_disposed m) (rt_now m) (rt_sessions m) (rt_states m) (rt_snaps m) (rt_next m) (rt_queue m) (rt_running m) (rt_active m) (rt_queuedBytes m) (rt_polls m) (rt_waiting m) (rt_models m) v.

Definition log (l : Log) (m : Runtime) : Runtime := set_rt_log (rt_log m ++ [l]) m.
Definition state_at (a : nat) (m : Runtime) : SessionState := default new_session (get a (rt_states m)).
Definition on_state (a : nat) (f : SessionState → SessionState) (m : Runtime) : Runtime := set_rt_states (set_key a (f (state_at a m)) (rt_states m)) m.
Definition set_phase (n : nat) (ph : Phase) (m : Runtime) : Runtime := set_rt_running (update n (λ jp, (jp.1, ph)) (rt_running m)) m.
Definition set_poll (k : nat) (ph : PollPhase) (m : Runtime) : Runtime :=
  set_rt_polls (update k (λ p, mkPoll (pp_n p) (pp_id p) (pp_a p) (pp_job p) (pp_base p) (pp_gen p) (pp_until p) ph) (rt_polls m)) m.
Definition snapshot_of_state (m : Runtime) (s : SessionState) : option (list HostMessage) := ss_snapshot s ≫= λ k, get k (rt_snaps m).
Definition current_session (id : jstr) (a : nat) (m : Runtime) : bool := bool_decide (get id (rt_sessions m) = Some a).

(** ** The model and its budget *)

Definition num_prop (k : jstr) (v : option json) : option Z := match prop k v with Some (JNum (NInt n)) => Some n | _ => None end.
Definition model_limit (s : SessionState) : option json := prop (js "limit") (JObj <$> ss_model s).
Definition or_else (a b : option json) : option json := match a with None | Some JNull => b | _ => a end.
Definition model_id (l : fields) : option json := or_else (assoc (js "id") l) (assoc (js "modelID") l).

Definition usableBudget (s : SessionState) : option Z :=
  let limit := model_limit s in
  match num_prop (js "context") limit with
  | Some context =>
    if context <=? 0 then None else
    let output := default (default 0 (num_prop (js "output") limit)) (ss_maxOutput s) in
    let input := match num_prop (js "input") limit with Some i => if 0 <? i then i else context | None => context end in
    let usable := Z.min input (context - output) - ss_systemTokens s - 512 in
    if 0 <? usable then Some usable else None
  | None => None
  end.

(** The queue admits 32 jobs, running ones included, and 8 MiB of messages. *)
Definition QUEUE_CAP : Z := 32.
Definition BYTES_CAP : Z := 8 * 1024 * 1024.

Section Runtime.
Context (sha256Hex : jstr → jstr) (opts : Options) (ports : Ports) (projectId : jstr).

Definition namespace (sessionId : jstr) : Namespace := mkNs projectId sessionId.
(** [mode("headroom")]. *)
Definition mode_headroom : Mode :=
  if negb (op_enabled opts) || bool_decide (op_mode opts = Moff) then Moff
  else if bool_decide (op_mode opts = Mshadow) then Mshadow
  else default (op_mode opts) (op_headroom_mode opts).
Definition is_off : bool := bool_decide (mode_headroom = Moff).
Definition is_on : bool := bool_decide (mode_headroom = Mon).
Definition applyView (messages : list HostMessage) (plan : ViewPlan) : ApplyStatus * list HostMessage :=
  default (SInvalid, messages) (applyHostView sha256Hex messages plan (Some (op_retainRecentTurns opts))).
Definition applies (messages : list HostMessage) (plan : ViewPlan) : bool := bool_decide ((applyView messages plan).1 = SApplied).

(** ** The queue *)

(** A job up to its first [await].  [resolveModel] takes the limits of a cached
    model at once, asks the provider list for the others, and leaves a model
    without a name alone. *)
Definition start_job (k : nat) (job : Job) (m : Runtime) : Runtime :=
  let run ph m := set_rt_running (set_key k (job, ph) (rt_running m)) m in
  match job with
  | JClear id => run AwaitClear (log (LClearView (namespace id)) m)
  | JHydrate _ id _ _ => run AwaitView (log (LGetView (namespace id)) m)
  | JPlan _ _ a _ _ =>
    let s := state_at a m in
    let l := default [] (ss_model s) in
    if truthy_json (model_limit s) || negb (po_providers ports) then run AwaitModel m else
    match assoc (js "providerID") l, model_id l with
    | Some (JStr providerID), Some (JStr modelID) =>
      if jeqb providerID [] || jeqb modelID [] then run AwaitModel m else
      let key := stringify (JArr [JStr providerID; JStr modelID]) in
      match get key (rt_models m) with
      | Some (cached, expires) =>
        if rt_now m <? expires then run AwaitModel (on_state a (set_ss_model (Some cached)) m)
        else run (AwaitProviders key providerID modelID) m
      | None => run (AwaitProviders key providerID modelID) m
      end
    | _, _ => run AwaitModel m
    end
  end.

Fixpoint pump_queue (queue : list (Job * Z)) (m : Runtime) : Runtime :=
  match queue with
  | [] => m
  | (job, bytes) :: rest =>
    if negb (rt_disposed m) && (rt_active m <? 2) then
      let k := rt_next m in
      let m := set_rt_next (S k) (set_rt_active (rt_active m + 1) (set_rt_queuedBytes (rt_queuedBytes m - bytes) (set_rt_queue rest m))) in
      pump_queue rest (start_job k job m)
    else m
  end.
Definition pump (m : Runtime) : Runtime := pump_queue (rt_queue m) m.

Definition enqueue (job : Job) (bytes : Z) (m : Runtime) : Runtime * bool :=
  if rt_disposed m || (QUEUE_CAP <=? zlen (rt_queue m) + rt_active m) || (BYTES_CAP <? rt_queuedBytes m + bytes) then (m, false)
  else (pump (set_rt_queuedBytes (rt_queuedBytes m + bytes) (set_rt_queue (rt_queue m ++ [(job, bytes)]) m)), true).

(** [active--; pump()], in the turn after the job. *)
Definition finish_job (k : nat) (m : Runtime) : Runtime :=
  match get k (rt_running m) with
  | Some (_, Ended) => pump (set_rt_active (rt_active m - 1) (set_rt_running (delete_key k (rt_running m)) m))
  | _ => m
  end.

(** ** Sessions *)

(** The state of a session, made on demand; [None] when all 64 are busy. *)
Definition stateFor (id : jstr) (m : Runtime) : Runtime * option nat :=
  match get id (rt_sessions m) with
  | Some a => (m, Some a)
  | None =>
    let fresh m :=
      let a := rt_next m in
      (set_rt_next (S a) (set_rt_states (set_key a new_session (rt_states m)) (set_rt_sessions (set_key id a (rt_sessions m)) m)), Some a) in
    if 64 <=? zlen (rt_sessions m) then
      match List.find (λ kv, negb (ss_busy (state_at kv.2 m))) (rt_sessions m) with
      | None => (m, None)
      | Some idle => fresh (set_rt_sessions (delete_key idle.1 (rt_sessions m)) m)
      end
    else fresh m
  end.

(** A generation ends: what was asked for under it is void. *)
Definition invalidate (a : nat) (m : Runtime) : Runtime := log (LInvalidate a) (on_state a bump m).

Definition clearView (id : jstr) (a : nat) (m : Runtime) : Runtime :=
  let m := invalidate a (on_state a (λ s, set_ss_attempted None (set_ss_view None s)) m) in
  if po_headroom ports && is_on then (enqueue (JClear id) 0 m).1 else m.

(** ** schedule *)

Definition schedulable (m : Runtime) (s : SessionState) : bool :=
  negb is_off && po_headroom ports && negb (ss_hydrating s) && negb (ss_paused s) && negb (ss_busy s)
  && match ss_snapshot s with Some _ => true | None => false end.

Definition raw_bytes (raw : list HostMessage) : Z :=
  byte_length (stringify (JArr (map (λ h, JObj ([(js "info", JObj (hm_info h)); (js "parts", JArr (map JObj (hm_parts h)))]
    ++ opt_field (js "archive") json_of_archive (hm_archive h))) raw))).

Definition schedule (id : jstr) (a : nat) (m : Runtime) : Runtime :=
  let s := state_at a m in
  match ss_snapshot s with
  | Some raw =>
    if negb (schedulable m s) then m else
    let n := rt_next m in
    let m := log (LAsk n a) (set_rt_next (S n) (on_state a (set_ss_busy true) m)) in
    let '(m, accepted) := enqueue (JPlan n id a (ss_generation s) raw) (raw_bytes (default [] (get raw (rt_snaps m)))) m in
    if accepted then m else on_state a (set_ss_busy false) m
  | None => m
  end.

(** A planning ends: [finally], after [catch] when it threw. *)
Definition end_plan (k a : nat) (m : Runtime) : Runtime := set_phase k Ended (on_state a (set_ss_busy false) m).
Definition throw_plan (k a : nat) (m : Runtime) : Runtime := end_plan k a (on_state a (set_ss_attempted None) m).

(** *** resolveModel *)

(** The provider list has settled: [found] is the model's entry. *)
Definition model_found (k : nat) (key providerID modelID : jstr) (found : option json) (a : nat) (m : Runtime) : Runtime :=
  let limit := prop (js "limit") found in
  let m := match num_prop (js "context") limit with
    | Some context =>
      if 0 <? context then
        let model := [(js "providerID", JStr providerID); (js "id", JStr modelID); (js "limit", default JNull limit)] in
        let models := set_key key (model, rt_now m + 60000) (rt_models m) in
        let models := if 64 <? zlen models then tail models else models in
        let m := set_rt_models models m in
        let l := default [] (ss_model (state_at a m)) in
        if bool_decide (str_prop (js "providerID") l = Some providerID) && bool_decide (str_json (model_id l) = Some modelID)
        then on_state a (set_ss_model (Some model)) m else m
      else m
    | None => m
    end in
  set_phase k AwaitModel m.

(** *** The planning itself *)

Definition fingerprint (projection : list ChatMessage) (epoch : option jstr) (usable : Z) : jstr :=
  sha256Hex (stringify (JArr [JArr (map json_of_message projection); default JNull (JStr <$> epoch); JNum (NInt usable); op_headroom_json opts])).

Definition below_trigger (tokens usable : Z) : bool := fltb (f64 tokens) (fmul (f64 usable) (op_triggerRatio opts)).
Definition target_tokens (usable : Z) : Z := ffloor (fmul (f64 usable) (op_targetRatio opts)).
Definition parts_tokens (messages : list ChatMessage) : Z := zsum (map (λ m, estimateTokens (stringify (JArr (map json_of_part (m_parts m))))) messages).

Definition stale (m : Runtime) (s : SessionState) (generation : Z) : bool :=
  rt_disposed m || ss_paused s || negb (ss_generation s =? generation).

(** After [resolveModel], up to the daemon. *)
Definition plan_resolved (k : nat) (id : jstr) (a : nat) (generation : Z) (raw : nat) (m : Runtime) : Runtime :=
  let s := state_at a m in
  let messages := default [] (get raw (rt_snaps m)) in
  if stale m s generation then end_plan k a m else
  match usableBudget s, projectMessages messages with
  | Some usable, Some projection =>
    let effective := match ss_view s with Some view => (applyView messages view).2 | None => messages end in
    match projectMessages effective with
    | None => end_plan k a m
    | Some projectedEffective =>
      if below_trigger (parts_tokens projectedEffective) usable then end_plan k a m else
      let print := fingerprint projection (ss_epoch s) usable in
      if bool_decide (ss_attempted s = Some print) then end_plan k a m else
      let request := mkRequest (namespace id) projection usable (target_tokens usable) (default [] (ss_epoch s)) (op_summarizer opts && is_on) in
      set_phase k AwaitPlan (log (LCompress request) (on_state a (set_ss_attempted (Some print)) m))
    end
  | _, _ => end_plan k a m
  end.

(** The daemon has answered. *)
Definition plan_answered (k : nat) (a : nat) (generation : Z) (plan : ViewPlan) (m : Runtime) : Runtime :=
  if stale m (state_at a m) generation || negb (hr_compacted (vp_result plan))
     || match hr_sourceDigests (vp_result plan) with None => true | Some _ => false end
  then end_plan k a m else set_phase k (AwaitPlanSafe plan) m.

(** The plan is validated against the newest snapshot before it is stored. *)
Definition plan_inspected (k : nat) (id : jstr) (a : nat) (raw : nat) (plan : ViewPlan) (safe : bool) (m : Runtime) : Runtime :=
  if negb safe then end_plan k a m else
  let candidate := default (default [] (get raw (rt_snaps m))) (snapshot_of_state m (state_at a m)) in
  if negb (applies candidate plan) then end_plan k a m
  else if bool_decide (mode_headroom = Mshadow) then end_plan k a m
  else set_phase k (AwaitSetView plan) (log (LSetView (namespace id) plan) m).

(** ** pollEnhancement *)

Definition view_is (base : ViewPlan) (s : SessionState) : bool :=
  match ss_view s with Some v => bool_decide (hr_historyHash (vp_result v) = hr_historyHash (vp_result base)) | None => false end.

Definition end_poll (k : nat) (m : Runtime) : Runtime :=
  match get k (rt_polls m) with
  | Some p =>
    on_state (pp_a p) (λ s, if bool_decide (ss_enhancementJob s = Some (pp_job p)) then set_ss_enhancementJob None s else s)
      (set_rt_polls (delete_key k (rt_polls m)) m)
  | None => m
  end.

(** One round of its loop, up to the daemon. *)
Definition poll_round (k : nat) (m : Runtime) : Runtime :=
  match get k (rt_polls m) with
  | Some p =>
    let s := state_at (pp_a p) m in
    if (rt_now m <? pp_until p) && negb (stale m s (pp_gen p)) && current_session (pp_id p) (pp_a p) m && view_is (pp_base p) s then
      match snapshot_of_state m s with
      | Some raw =>
        match projectMessages raw with
        | Some projection =>
          if applies raw (pp_base p)
          then set_poll k PollCandidate
                 (log (LGetCandidate (namespace (pp_id p)) (pp_job p) (default [] (ss_epoch s)) (map (contentDigest sha256Hex) projection)) m)
          else end_poll k m
        | None => end_poll k m
        end
      | None => end_poll k m
      end
    else end_poll k m
  | None => m
  end.

Definition pollEnhancement (n : nat) (id : jstr) (a : nat) (base : ViewPlan) (generation : Z) (m : Runtime) : Runtime :=
  match vp_enhancementJobId base with
  | Some jobId =>
    if jeqb jobId [] || negb (po_headroom ports && po_getCandidate ports) || negb (op_summarizer opts)
       || bool_decide (ss_enhancementJob (state_at a m) = Some jobId) then m else
    let k := rt_next m in
    let m := set_rt_next (S k) (on_state a (set_ss_enhancementJob (Some jobId)) m) in
    poll_round k (set_rt_polls (set_key k (mkPoll n id a jobId base generation (rt_now m + op_timeoutMs opts + 1000) PollSleep) (rt_polls m)) m)
  | None => m
  end.

Inductive CandidateOutcome : Type := CaReady (plan : ViewPlan) | CaWaiting | CaOther | CaThrow.

Definition poll_answered (k : nat) (o : CandidateOutcome) (m : Runtime) : Runtime :=
  match o with
  | CaReady plan => set_poll k (PollSafe plan) m
  | CaWaiting => set_poll k PollSleep m
  | CaOther | CaThrow => end_poll k m
  end.

Definition poll_inspected (k : nat) (p : Poll) (plan : ViewPlan) (safe : bool) (m : Runtime) : Runtime :=
  let s := state_at (pp_a p) m in
  if negb safe || stale m s (pp_gen p) || negb (view_is (pp_base p) s) then end_poll k m else
  match snapshot_of_state m s with
  | Some raw => if applies raw plan then set_poll k (PollSet plan) (log (LSetView (namespace (pp_id p)) plan) m) else end_poll k m
  | None => end_poll k m
  end.

(** [state.view = plan]. *)
Definition publish (n a : nat) (plan : ViewPlan) (m : Runtime) : Runtime := log (LPublish n a plan) (on_state a (set_ss_view (Some plan)) m).

Definition poll_stored (k : nat) (p : Poll) (plan : ViewPlan) (m : Runtime) : Runtime :=
  let s := state_at (pp_a p) m in
  end_poll k (if negb (stale m s (pp_gen p)) && view_is (pp_base p) s then publish (pp_n p) (pp_a p) plan m else m).

(** [setView] of a planning has returned. *)
Definition plan_stored (k n : nat) (id : jstr) (a : nat) (generation : Z) (plan : ViewPlan) (m : Runtime) : Runtime :=
  end_plan k a (if stale m (state_at a m) generation then m else pollEnhancement n id a plan generation (publish n a plan m)).

(** ** hydrate *)

Definition hydrate (id : jstr) (a : nat) (m : Runtime) : Runtime :=
  let s := state_at a m in
  if ss_hydrated s || negb (po_headroom ports) || is_off then m else
  let n := rt_next m in
  let m := log (LAsk n a) (set_rt_next (S n) (on_state a (λ s, set_ss_hydrating true (set_ss_hydrated true s)) m)) in
  let '(m, accepted) := enqueue (JHydrate n id a (ss_generation s)) 0 m in
  if accepted then m else on_state a (λ s, set_ss_hydrating false (set_ss_hydrated false s)) m.

(** Its [finally]. *)
Definition end_hydrate (k : nat) (id : jstr) (a : nat) (m : Runtime) : Runtime :=
  let m := set_phase k Ended (on_state a (set_ss_hydrating false) m) in
  if negb (rt_disposed m) && current_session id a m && ss_hydrated (state_at a m) then schedule id a m else m.
Definition throw_hydrate (k : nat) (id : jstr) (a : nat) (m : Runtime) : Runtime := end_hydrate k id a (on_state a (set_ss_hydrated false) m).

Definition strategy_mismatch (plan : ViewPlan) : bool := negb (bool_decide (default Legacy (vp_strategy plan) = op_strategy opts)).
Definition enhanced (plan : ViewPlan) : bool :=
  existsb (λ node, starts_with (js "layered-summary-") (ln_policyVersion node)) (default [] (vp_nodes plan)).

Definition view_inspected (k n : nat) (id : jstr) (a : nat) (generation : Z) (plan : ViewPlan) (safe : bool) (m : Runtime) : Runtime :=
  if negb safe then end_hydrate k id a m else
  if strategy_mismatch plan || enhanced plan then
    if is_on then set_phase k AwaitMismatchClear (log (LClearView (namespace id)) m) else end_hydrate k id a m
  else
    let s := state_at a m in
    end_hydrate k id a
      (if negb (rt_disposed m) && match ss_view s with None => true | Some _ => false end && (ss_generation s =? generation)
          && match hr_sourceDigests (vp_result plan) with Some _ => true | None => false end
          && bool_decide (hr_epoch (vp_result plan) = Some (default [] (ss_epoch s)))
       then publish n a plan m else m).

(** ** Hooks *)

Definition observeModel (id : jstr) (model : fields) (maxOutput : option Z) (m : Runtime) : Runtime :=
  let '(m, found) := stateFor id m in
  match found with
  | None => m
  | Some a =>
    if rt_disposed m then m else
    let changed := negb (bool_decide (stringify (JObj model) = match ss_model (state_at a m) with Some l => stringify (JObj l) | None => [] end)) in
    let maxOutput := match maxOutput with Some n => if 0 <=? n then Some n else None | None => None end in
    let m := on_state a (λ s, set_ss_maxOutput maxOutput (set_ss_model (Some model) s)) m in
    if changed then invalidate a (on_state a (set_ss_attempted None) m) else m
  end.

Definition observeSystem (id : jstr) (model : fields) (system : list jstr) (m : Runtime) : Runtime :=
  let '(m, found) := stateFor id m in
  match found with
  | None => m
  | Some a =>
    let l := default [] (ss_model (state_at a m)) in
    let same k := bool_decide (str_prop k l = str_prop k model) in
    let m := if negb (truthy_json (model_limit (state_at a m))) || negb (same (js "id")) || negb (same (js "providerID"))
             then observeModel id model None m else m in
    on_state a (set_ss_systemTokens (estimateTokens (join [LF] system))) m
  end.

Definition string_of (v : option json) : jstr := match v with Some (JStr s) => s | Some (JNum n) => jnum_to_string n | Some JNull => js "null" | _ => js "undefined" end.
(** The model the newest message names, when none was observed. *)
Definition inferred_model (messages : list HostMessage) : option fields :=
  match List.find (λ h, truthy_json (assoc (js "modelID") (hm_info h)) || truthy_json (assoc (js "model") (hm_info h))) (rev messages) with
  | Some h =>
    if truthy_json (assoc (js "modelID") (hm_info h))
    then Some [(js "providerID", JStr (string_of (assoc (js "providerID") (hm_info h)))); (js "id", JStr (string_of (assoc (js "modelID") (hm_info h))))]
    else match assoc (js "model") (hm_info h) with Some (JObj l) => Some l | _ => None end
  | None => None
  end.

(** [transform], after the guard has filtered the messages: what it does to the
    array.  [id] is the session of the messages as they came.  The runtime may
    have been disposed of while the guard was awaited. *)
Definition transform (id : option jstr) (messages : list HostMessage) (m : Runtime) : Runtime * list HostMessage :=
  if is_off then (m, messages) else
  match id with
  | None => (m, messages)
  | Some id =>
    let '(m, found) := stateFor id m in
    match found with
    | None => (m, messages)
    | Some a =>
      let epoch := upstreamEpoch messages in
      let m := if match ss_epoch (state_at a m) with Some e => negb (jeqb e epoch) | None => false end then clearView id a m else m in
      let snap := rt_next m in
      let m := set_rt_snaps (set_key snap messages (rt_snaps m)) (set_rt_next (S snap) m) in
      let m := on_state a (λ s, set_ss_snapshot (Some snap) (set_ss_epoch (Some epoch) s)) m in
      let m := on_state a (λ s, match ss_model s with None => set_ss_model (inferred_model messages) s | Some _ => s end) m in
      let m := hydrate id a m in
      if ss_paused (state_at a m) then (m, messages) else
      let '(m, messages) := match ss_view (state_at a m) with
        | Some view =>
          if is_on then
            let '(status, messages) := applyView messages view in
            (match status with SApplied | SAlreadyCompacted => m | _ => clearView id a m end, messages)
          else (m, messages)
        | None => (m, messages)
        end in
      (set_rt_waiting (rt_waiting m ++ [WSchedule id a]) m, messages)
    end
  end.

Definition idle (id : jstr) (m : Runtime) : Runtime :=
  if rt_disposed m || is_off then m else
  let '(m, found) := stateFor id m in
  match found with Some a => schedule id a m | None => m end.

(** [compacting]: the text it adds to the context. *)
Definition compacting (id : jstr) (m : Runtime) : Runtime * option jstr :=
  let '(m, found) := stateFor id m in
  match found with
  | None => (m, None)
  | Some a =>
    if is_off then (m, None) else
    let m := invalidate a (on_state a (set_ss_paused true) m) in
    let s := state_at a m in
    match ss_view s, snapshot_of_state m s with
    | Some view, Some raw =>
      if is_on && op_upstream opts && bool_decide (hr_epoch (vp_result view) = ss_epoch s) && applies raw view
      then (m, Some (js "[bluecode headroom] Archived memory:" ++ [LF] ++ default (js "null") (hr_summary (vp_result view)) ++ [LF]
             ++ js "Retrieve original evidence with headroom_retrieve(historyHash=" ++ [34] ++ default (js "null") (hr_historyHash (vp_result view)) ++ [34]
             ++ js "); follow nextCursor."))
      else (m, None)
    | _, _ => (m, None)
    end
  end.

Definition dispose (m : Runtime) : Runtime :=
  if rt_disposed m then m else
  let m := set_rt_queuedBytes 0 (set_rt_queue [] (set_rt_disposed true m)) in
  foldl (λ m kv, invalidate kv.2 m) m (rt_sessions m).

(** The end of [dispose], when every job has settled. *)
Definition disposed (m : Runtime) : Runtime :=
  match rt_disposed m, rt_running m, rt_polls m with
  | true, [], [] => set_rt_models [] (set_rt_sessions [] m)
  | _, _, _ => m
  end.

(** *** Host events *)

Definition event_session (type : jstr) (o : fields) : option jstr :=
  let info := assoc (js "info") o in
  str_json (if jeqb type (js "session.deleted") then or_else (prop (js "id") info) (assoc (js "sessionID") o)
            else or_else (assoc (js "sessionID") o) (or_else (prop (js "sessionID") info) (prop (js "sessionID") (assoc (js "part") o)))).
Definition event_message (o : fields) : option jstr :=
  str_json (or_else (prop (js "messageID") (assoc (js "part") o)) (or_else (assoc (js "messageID") o) (prop (js "id") (assoc (js "info") o)))).

Definition MESSAGE_EVENTS : list jstr := [js "message.part.updated"; js "message.part.removed"; js "message.removed"; js "message.updated"].

(** [sources] are affected: a message event without a message id touches all. *)
Definition affects (messageID : option jstr) (sources : option (list jstr)) : bool :=
  match sources with
  | None => false
  | Some l => match messageID with None => true | Some id => bool_decide (id ∈ l) end
  end.

Definition view_sources (s : SessionState) : option (list jstr) :=
  (λ v, match hr_sourceSnapshot (vp_result v) with Some snap => sn_messageIds snap | None => hr_replacedMessageIds (vp_result v) end) <$> ss_view s.

(** Layered plans bind the history and the current user, legacy ones everything. *)
Definition last_user (raw : list HostMessage) : option nat :=
  match find_index (λ h, bool_decide (str_prop (js "role") (hm_info h) = Some (js "user"))) (rev raw) with
  | Some k => Some (length raw - 1 - k)%nat
  | None => None
  end.
Definition bound_sources (raw : list HostMessage) : list jstr :=
  map host_id match op_strategy opts, last_user raw with
              | Layered, Some k => take (S k) raw
              | _, _ => raw
              end.

(** A full [info] of the message, which neither the projection nor the epoch
    can tell from the old one: the index of the message. *)
Definition metadata_only (type : jstr) (id : jstr) (info : fields) (messageID : option jstr) (raw : list HostMessage) : option nat :=
  match op_strategy opts with
  | Legacy => None
  | Layered =>
    if negb (jeqb type (js "message.updated")) then None else
    i ← find_index (λ h, bool_decide (Some (host_id h) = messageID)) raw;
    previous ← raw !! i;
    let updated := mkHost info (hm_parts previous) (hm_archive previous) in
    if bool_decide (str_prop (js "id") info = Some (host_id previous)) && bool_decide (str_prop (js "sessionID") info = Some id)
       && match str_prop (js "role") info with Some r => jeqb r (js "user") || jeqb r (js "assistant") | None => false end
       && match prop (js "created") (assoc (js "time") info) with Some (JNum _) => true | _ => false end
    then
      match projectMessage previous, projectMessage updated with
      | Some before, Some after =>
        if jeqb (contentDigest sha256Hex before) (contentDigest sha256Hex after) && jeqb (upstreamEpoch [previous]) (upstreamEpoch [updated])
           && bool_decide (stringify <$> assoc (js "error") (hm_info previous) = stringify <$> assoc (js "error") info)
        then Some i else None
      | _, _ => None
      end
    else None
  end.

Definition event_completed (o : fields) : bool := truthy_json (prop (js "completed") (prop (js "time") (assoc (js "info") o))).

(** The handlers after the message events. *)
Definition session_event (type : jstr) (o : fields) (id : jstr) (a : nat) (m : Runtime) : Runtime :=
  if jeqb type (js "session.compacted") then clearView id a (on_state a (λ s, set_ss_snapshot None (set_ss_paused false s)) m)
  else if jeqb type (js "session.deleted") then
    let m := clearView id a m in set_rt_sessions (delete_key id (rt_sessions m)) m
  else if jeqb type (js "session.idle")
       || (jeqb type (js "session.status") && bool_decide (str_json (prop (js "type") (assoc (js "status") o)) = Some (js "idle")))
  then idle id (on_state a (set_ss_paused false) m)
  else if jeqb type (js "message.updated") && event_completed o then schedule id a m else m.

Definition event (type : jstr) (o : fields) (m : Runtime) : Runtime :=
  match event_session type o with
  | None => m
  | Some id =>
    let '(m, found) := stateFor id m in
    match found with
    | None => m
    | Some a =>
      if negb (bool_decide (type ∈ MESSAGE_EVENTS)) then session_event type o id a m else
      let messageID := event_message o in
      let s := state_at a m in
      let info := match assoc (js "info") o with Some (JObj l) => l | _ => [] end in
      match ss_snapshot s ≫= λ snap, i ← metadata_only type id info messageID (default [] (get snap (rt_snaps m))); Some (snap, i) with
      | Some (snap, i) => set_rt_waiting (rt_waiting m ++ [WInfo id a snap i (event_completed o)]) m
      | None =>
        if affects messageID (view_sources s) then clearView id a (on_state a (set_ss_snapshot None) m)
        else if affects messageID (bound_sources <$> snapshot_of_state m s)
        then invalidate a (on_state a (λ s, set_ss_attempted None (set_ss_snapshot None s)) m)
        else session_event type o id a m
      end
    end
  end.

(** A hook continues after the guard: [filtered] is the info it let through. *)
Definition continue (filtered : fields) (w : Waiting) (m : Runtime) : Runtime :=
  match w with
  | WSchedule id a => schedule id a m
  | WInfo id a snap i completed =>
    let m := set_rt_snaps (update snap (λ raw, match raw !! i with Some h => <[i := mkHost filtered (hm_parts h) (hm_archive h)]> raw | None => raw end) (rt_snaps m)) m in
    if completed then schedule id a m else m
  end.

(** ** One turn of the event loop *)

Inductive Event : Type :=
| EvModel (id : jstr) (model : fields) (maxOutput : option Z)
| EvSystem (id : jstr) (model : fields) (system : list jstr)
| EvTransform (id : option jstr) (messages : list HostMessage)
| EvContinue (i : nat) (filtered : fields)
| EvHost (type : jstr) (properties : fields)
| EvIdle (id : jstr)
| EvCompacting (id : jstr)
| EvDispose | EvDisposed
| EvClock (now : Z)
(* promises of a job settle: a value, or [None] for a rejection *)
| EvCleared (k : nat) (ok : bool)
| EvView (k : nat) (plan : option (option ViewPlan))
| EvProviders (k : nat) (found : option (option json))
| EvResolved (k : nat)
| EvPlan (k : nat) (plan : option ViewPlan)
| EvInspected (k : nat) (safe : option bool)
| EvStored (k : nat) (ok : bool)
| EvFinish (k : nat)
(* and of a poll *)
| EvPollTick (k : nat)
| EvPollCandidate (k : nat) (o : CandidateOutcome)
| EvPollInspected (k : nat) (safe : option bool)
| EvPollStored (k : nat) (ok : bool).

(** The turn of a job whose promise has settled. *)
Definition job_event (e : Event) (k : nat) (job : Job) (ph : Phase) (m : Runtime) : Runtime :=
  match e, job, ph with
  | EvCleared _ ok, JClear _, AwaitClear => set_phase k Ended m
  | EvCleared _ ok, JHydrate _ id a _, AwaitMismatchClear => if ok then end_hydrate k id a m else throw_hydrate k id a m
  | EvView _ None, JHydrate _ id a _, AwaitView => throw_hydrate k id a m
  | EvView _ (Some None), JHydrate _ id a _, AwaitView => end_hydrate k id a m
  | EvView _ (Some (Some plan)), JHydrate _ id a _, AwaitView => set_phase k (AwaitViewSafe plan) m
  | EvInspected _ safe, JHydrate n id a generation, AwaitViewSafe plan =>
    match safe with Some safe => view_inspected k n id a generation plan safe m | None => throw_hydrate k id a m end
  | EvProviders _ found, JPlan _ _ a _ _, AwaitProviders key providerID modelID =>
    match found with Some found => model_found k key providerID modelID found a m | None => throw_plan k a m end
  | EvResolved _, JPlan _ id a generation raw, AwaitModel => plan_resolved k id a generation raw m
  | EvPlan _ plan, JPlan _ _ a generation _, AwaitPlan =>
    match plan with Some plan => plan_answered k a generation plan m | None => throw_plan k a m end
  | EvInspected _ safe, JPlan _ id a _ raw, AwaitPlanSafe plan =>
    match safe with Some safe => plan_inspected k id a raw plan safe m | None => throw_plan k a m end
  | EvStored _ ok, JPlan n id a generation _, AwaitSetView plan =>
    if ok then plan_stored k n id a generation plan m else throw_plan k a m
  | _, _, _ => m
  end.

Definition poll_event (e : Event) (k : nat) (p : Poll) (m : Runtime) : Runtime :=
  match e, pp_phase p with
  | EvPollTick _, PollSleep => poll_round k m
  | EvPollCandidate _ o, PollCandidate => poll_answered k o m
  | EvPollInspected _ safe, PollSafe plan => match safe with Some safe => poll_inspected k p plan safe m | None => end_poll k m end
  | EvPollStored _ ok, PollSet plan => if ok then poll_stored k p plan m else end_poll k m
  | _, _ => m
  end.

Definition event_key (e : Event) : nat :=
  match e with
  | EvCleared k _ | EvView k _ | EvProviders k _ | EvResolved k | EvPlan k _ | EvInspected k _ | EvStored k _ | EvFinish k
  | EvPollTick k | EvPollCandidate k _ | EvPollInspected k _ | EvPollStored k _ => k
  | _ => O
  end.

Definition apply_event (m : Runtime) (e : Event) : Runtime :=
  match e with
  | EvModel id model maxOutput => observeModel id model maxOutput m
  | EvSystem id model system => observeSystem id model system m
  | EvTransform id messages => (transform id messages m).1
  | EvContinue i filtered =>
    match rt_waiting m !! i with Some w => continue filtered w (set_rt_waiting (delete i (rt_waiting m)) m) | None => m end
  | EvHost type o => event type o m
  | EvIdle id => idle id m
  | EvCompacting id => (compacting id m).1
  | EvDispose => dispose m
  | EvDisposed => disposed m
  | EvClock now => set_rt_now (Z.max now (rt_now m)) m
  | EvFinish k => finish_job k m
  | EvPollTick k | EvPollCandidate k _ | EvPollInspected k _ | EvPollStored k _ =>
    match get k (rt_polls m) with Some p => poll_event e k p m | None => m end
  | _ => match get (event_key e) (rt_running m) with Some (job, ph) => job_event e (event_key e) job ph m | None => m end
  end.
Definition run_events (events : list Event) : Runtime := foldl apply_event new_runtime events.
End Runtime.

(** ** Steps

    Every turn is made of steps of a few kinds; the invariant is proved for each
    kind once, and for the turns by composing them. *)

Lemma state_at_on a a' f m : state_at a' (on_state a f m) = if bool_decide (a' = a) then f (state_at a m) else state_at a' m.
Proof.
  unfold on_state, state_at. cbn [set_rt_states rt_states]. case_bool_decide as E; [subst; by rewrite get_set_eq|by rewrite get_set_ne].
Qed.

Definition job_plan (job : Job) : option nat := match job with JPlan _ _ a _ _ => Some a | _ => None end.
Definition job_ask (job : Job) : option (nat * nat * Z) :=
  match job with JClear _ => None | JHydrate n _ a g => Some (n, a, g) | JPlan n _ a g _ => Some (n, a, g) end.
Definition live_plan (jp : Job * Phase) : option nat := match jp.2 with Ended => None | _ => job_plan jp.1 end.

(** What was asked and may still be published. *)
Definition asks (m : Runtime) : list (nat * nat * Z) :=
  omap (λ jb, job_ask jb.1) (rt_queue m) ++ omap (λ kr, job_ask kr.2.1) (rt_running m) ++ map (λ kp, (pp_n kp.2, pp_a kp.2, pp_gen kp.2)) (rt_polls m).
(** The sessions that are being planned. *)
Definition plans (m : Runtime) : list nat := omap (λ jb, job_plan jb.1) (rt_queue m) ++ omap (λ kr, live_plan kr.2) (rt_running m).

Definition is_call (l : Log) : bool := match l with LAsk _ _ | LInvalidate _ | LPublish _ _ _ => false | _ => true end.
(** The requests that change what the daemon keeps for the namespace beyond an archived
    plan: storing or clearing its view, and asking for an enhancement or its candidate. *)
Definition needs_on (l : Log) : bool :=
  match l with LClearView _ | LSetView _ _ | LGetCandidate _ _ _ _ => true | LCompress r => rq_enhance r | _ => false end.
Definition waiting_addr (w : Waiting) : nat := match w with WSchedule _ a => a | WInfo _ a _ _ _ => a end.

(** A change of a session's state that concerns neither its planning nor its
    generation, and publishes nothing. *)
Record quiet (f : SessionState → SessionState) : Prop := {
  qt_busy : ∀ s, ss_busy (f s) = ss_busy s;
  qt_generation : ∀ s, ss_generation (f s) = ss_generation s;
  qt_view : ∀ s, ss_view (f s) = ss_view s ∨ ss_view (f s) = None }.


(** *** Lists of entries *)

Lemma get_split {K V} `{!EqDecision K} (k : K) (v : V) m :
  omap_ok m → get k m = Some v → ∃ l1 l2, m = l1 ++ (k, v) :: l2 ∧ delete_key k m = l1 ++ l2 ∧ ∀ v', set_key k v' m = l1 ++ (k, v') :: l2.
Proof.
  unfold omap_ok. induction m as [|[k' v'] m IH]; [done|]. rewrite fmap_cons. intros [Hn Hd]%NoDup_cons. cbn [get fst] in *. case_bool_decide as E.
  - intros [= ->]. subst k'. exists [], m. split_and!; [done|by rewrite delete_head|]. intros v'. cbn [set_key]. by rewrite bool_decide_true.
  - intros Hg. destruct (IH Hd Hg) as (l1 & l2 & -> & Hdel & Hset). exists ((k', v') :: l1), l2. split_and!; [done| |].
    + unfold delete_key in *. cbn [List.filter fst]. rewrite bool_decide_false by done. cbn [negb]. by rewrite Hdel.
    + intros v2. cbn [set_key]. rewrite bool_decide_false by done. by rewrite Hset.
Qed.

Lemma omap_set_perm {K V A} `{!EqDecision K} (f : V → option A) (k : K) v v' m :
  omap_ok m → get k m = Some v →
  let rest := omap (λ kv, f kv.2) (delete_key k m) in
  omap (λ kv, f kv.2) m ≡ₚ option_list (f v) ++ rest ∧ omap (λ kv, f kv.2) (set_key k v' m) ≡ₚ option_list (f v') ++ rest.
Proof.
  intros Hok Hg. destruct (get_split k v m Hok Hg) as (l1 & l2 & -> & -> & Hset). cbv zeta. rewrite Hset, !omap_app.
  assert (∀ x, omap (λ kv : K * V, f kv.2) ((k, x) :: l2) = option_list (f x) ++ omap (λ kv, f kv.2) l2) as Hc.
  { intros x. cbn [omap list_omap snd]. by destruct (f x). }
  rewrite !Hc. split; by rewrite !app_assoc, (Permutation_app_comm (omap _ l1)).
Qed.

Lemma omap_new {K V A} `{!EqDecision K} (f : V → option A) (k : K) v m :
  get k m = None → omap (λ kv, f kv.2) (set_key k v m) = omap (λ kv, f kv.2) m ++ option_list (f v).
Proof. intros Hg. rewrite set_absent, omap_app by done. cbn [omap list_omap snd]. by destruct (f v). Qed.

(** *** The queue *)

Section QueueOk.
Context (ports : Ports) (projectId : jstr).
Abbreviation start_job := (start_job ports projectId).
Abbreviation pump := (pump ports projectId).
Abbreviation enqueue := (enqueue ports projectId).

(** Starting a job makes it run and asks the daemon; a model may become known. *)
Record started (k : nat) (job : Job) (m m' : Runtime) : Prop := {
  sd_running : ∃ ph, rt_running m' = set_key k (job, ph) (rt_running m) ∧ ph ≠ Ended ∧ (∀ plan, ph ≠ AwaitSetView plan);
  sd_log : ∃ calls, rt_log m' = rt_log m ++ calls ∧ Forall (λ l, is_call l = true ∧ (needs_on l = true → ∃ id, job = JClear id)) calls;
  sd_states : ∀ a, ss_busy (state_at a m') = ss_busy (state_at a m) ∧ ss_generation (state_at a m') = ss_generation (state_at a m)
                 ∧ ss_view (state_at a m') = ss_view (state_at a m);
  sd_rest : rt_disposed m' = rt_disposed m ∧ rt_sessions m' = rt_sessions m ∧ rt_next m' = rt_next m ∧ rt_queue m' = rt_queue m
            ∧ rt_active m' = rt_active m ∧ rt_queuedBytes m' = rt_queuedBytes m ∧ rt_polls m' = rt_polls m ∧ rt_waiting m' = rt_waiting m }.

Lemma start_job_started k job m : started k job m (start_job k job m).
Proof.
  assert (∀ ph m1 calls, ph ≠ Ended → (∀ plan, ph ≠ AwaitSetView plan) → rt_log m1 = rt_log m ++ calls →
    Forall (λ l, is_call l = true ∧ (needs_on l = true → ∃ id, job = JClear id)) calls →
    (∀ a, ss_busy (state_at a m1) = ss_busy (state_at a m) ∧ ss_generation (state_at a m1) = ss_generation (state_at a m) ∧ ss_view (state_at a m1) = ss_view (state_at a m)) →
    rt_running m1 = rt_running m → rt_disposed m1 = rt_disposed m ∧ rt_sessions m1 = rt_sessions m ∧ rt_next m1 = rt_next m ∧ rt_queue m1 = rt_queue m
      ∧ rt_active m1 = rt_active m ∧ rt_queuedBytes m1 = rt_queuedBytes m ∧ rt_polls m1 = rt_polls m ∧ rt_waiting m1 = rt_waiting m →
    started k job m (set_rt_running (set_key k (job, ph) (rt_running m1)) m1)) as Hrun.
  { intros ph m1 calls Hp Hp' Hl Hc Hs Hr Hrest. split; [exists ph; by rewrite <- Hr|by exists calls|exact Hs|exact Hrest]. }
  assert (∀ ph, ph ≠ Ended → (∀ plan, ph ≠ AwaitSetView plan) → started k job m (set_rt_running (set_key k (job, ph) (rt_running m)) m)) as Hplain.
  { intros ph H1 H2. apply (Hrun ph m []); [done|done|by rewrite app_nil_r|apply Forall_nil_2|done|done|by split_and!]. }
  destruct job as [id|n id a g|n id a g raw]; cbn [Runtime.start_job].
  - apply (Hrun _ _ [LClearView (namespace projectId id)]); [done|done|done| |done|done|by split_and!]. apply Forall_singleton. split; [done|eauto].
  - apply (Hrun _ _ [LGetView (namespace projectId id)]); [done|done|done| |done|done|by split_and!]. by apply Forall_singleton.
  - destruct (_ || _); [by apply Hplain|]. destruct (assoc _ _) as [[| | |pid| |]|]; try by apply Hplain. destruct (model_id _) as [[| | |mid| |]|]; try by apply Hplain.
    destruct (_ || _); [by apply Hplain|]. cbv zeta. destruct (get _ (rt_models m)) as [[cached expires]|]; [|by apply Hplain].
    destruct (rt_now m <? expires); [|by apply Hplain]. apply (Hrun _ _ []); [done|done|by rewrite app_nil_r|apply Forall_nil_2| |done|by split_and!].
    intros a'. rewrite state_at_on. case_bool_decide; [by subst|done].
Qed.

(** One round of [pump]. *)
Definition popped (bytes : Z) (rest : list (Job * Z)) (m : Runtime) : Runtime :=
  set_rt_next (S (rt_next m)) (set_rt_active (rt_active m + 1) (set_rt_queuedBytes (rt_queuedBytes m - bytes) (set_rt_queue rest m))).
Inductive pumped (m : Runtime) : Runtime → Prop :=
| pumped_one job bytes rest : rt_queue m = (job, bytes) :: rest → rt_disposed m = false → rt_active m < 2 →
    pumped m (start_job (rt_next m) job (popped bytes rest m)).

Lemma pump_rounds m : rtc pumped m (pump m) ∧ (rt_disposed (pump m) = false → rt_queue (pump m) ≠ [] → 2 <= rt_active (pump m)).
Proof.
  unfold Runtime.pump. remember (rt_queue m) as queue eqn:Hq. revert m Hq. induction queue as [|[job bytes] rest IH]; intros m Hq; cbn [pump_queue].
  { split; [apply rtc_refl|]. intros _ H. by rewrite <- Hq in H. }
  destruct (rt_disposed m) eqn:Ed; cbn [negb andb]; [split; [apply rtc_refl|congruence]|].
  destruct (rt_active m <? 2) eqn:Ea; [|split; [apply rtc_refl|lia]]. cbv zeta. change (set_rt_next _ _) with (popped bytes rest m).
  destruct (IH (start_job (rt_next m) job (popped bytes rest m))) as [Hr Hw].
  { symmetry. apply (sd_rest _ _ _ _ (start_job_started (rt_next m) job (popped bytes rest m))). }
  split; [|done]. eapply rtc_l; [|exact Hr]. apply pumped_one; [done|done|lia].
Qed.

Record queue_ok (extra : list nat) (m : Runtime) : Prop := {
  qo_active : rt_active m = zlen (rt_running m);
  qo_two : rt_active m <= 2;
  qo_cap : zlen (rt_queue m) + rt_active m <= QUEUE_CAP;
  qo_bytes : rt_queuedBytes m = zsum (map snd (rt_queue m));
  qo_pos : Forall (λ jb, 0 <= jb.2) (rt_queue m);
  qo_max : rt_queuedBytes m <= BYTES_CAP;
  qo_stop : rt_disposed m = true → rt_queue m = [];
  qo_keys : omap_ok (rt_running m);
  qo_fresh : ∀ k, is_Some (get k (rt_running m)) → (k < rt_next m)%nat;
  qo_nodup : NoDup (plans m ++ extra);
  qo_lt : ∀ a, a ∈ plans m ++ extra → (a < rt_next m)%nat;
  qo_busy : ∀ a, a ∈ plans m ++ extra → ss_busy (state_at a m) = true;
  qo_all : rt_disposed m = false → ∀ a, ss_busy (state_at a m) = true → a ∈ plans m ++ extra }.

(** The planned sessions are a permutation of the old ones. *)
Lemma queue_ok_perm extra m m' :
  queue_ok extra m → plans m' ≡ₚ plans m → (rt_next m <= rt_next m')%nat → (∀ a, ss_busy (state_at a m') = ss_busy (state_at a m)) →
  rt_disposed m' = rt_disposed m →
  rt_active m' = zlen (rt_running m') → rt_active m' <= 2 → zlen (rt_queue m') + rt_active m' <= QUEUE_CAP →
  rt_queuedBytes m' = zsum (map snd (rt_queue m')) → Forall (λ jb, 0 <= jb.2) (rt_queue m') → rt_queuedBytes m' <= BYTES_CAP →
  (rt_disposed m' = true → rt_queue m' = []) → omap_ok (rt_running m') → (∀ k, is_Some (get k (rt_running m')) → (k < rt_next m')%nat) →
  queue_ok extra m'.
Proof.
  intros [_ _ _ _ _ _ _ _ _ H1 H2 H3 H4] Hp Hn Hb Hd. intros. split; try done.
  - by rewrite Hp.
  - intros a. rewrite Hp. intros Ha%H2. lia.
  - intros a. rewrite Hp, Hb. apply H3.
  - intros Hd' a. rewrite Hp, Hb. apply H4. congruence.
Qed.

Lemma plans_perm m m' : rt_queue m' = rt_queue m → rt_running m' = rt_running m → plans m' = plans m.
Proof. intros H1 H2. unfold plans. by rewrite H1, H2. Qed.

Lemma pumped_ok extra m m' : queue_ok extra m → pumped m m' → queue_ok extra m'.
Proof.
  intros Hm Hp. destruct Hp as [job bytes rest Hq Hd Ha]. pose proof Hm as [A1 A2 A3 A4 A5 A6 A7 A8 A9 _ _ _ _].
  destruct (start_job_started (rt_next m) job (popped bytes rest m)) as [(ph & Hr & Hph & _) _ Hs (D1 & D2 & D3 & D4 & D5 & D6 & D7 & D8)].
  cbn [popped set_rt_next set_rt_active set_rt_queuedBytes set_rt_queue rt_running rt_disposed rt_sessions rt_next rt_queue rt_active rt_queuedBytes] in Hr, D1, D2, D3, D4, D5, D6.
  assert (get (rt_next m) (rt_running m) = None) as Hnew.
  { destruct (get (rt_next m) (rt_running m)) eqn:E; [|done]. destruct (Nat.lt_irrefl (rt_next m)). apply A9. by eexists. }
  rewrite Hq in A3, A4, A5. cbn [map snd] in *. rewrite zsum_cons in A4. apply Forall_cons in A5 as [A5 A5']. rewrite length_cons in A3. cbn [snd] in A5.
  assert (0 <= zsum (map snd rest)) as Hpos by (clear -A5'; induction A5' as [|x l]; [done|cbn [map]; rewrite zsum_cons; lia]).
  eapply queue_ok_perm; try exact Hm; rewrite ?D1, ?D3, ?D4, ?D5, ?D6, ?Hr; try done; try lia.
  - unfold plans. rewrite D4, Hr, Hq, omap_new by done. cbn [omap list_omap fst]. unfold live_plan at 2. cbn [snd fst].
    assert (option_list (match ph with Ended => None | _ => job_plan job end) = option_list (job_plan job)) as -> by (by destruct ph).
    destruct (job_plan job) as [a|]; cbn [option_list]; [|by rewrite app_nil_r].
    rewrite app_assoc, Permutation_app_comm. done.
  - intros a. apply (Hs a).
  - rewrite size_set. unfold has. rewrite Hnew. lia.
  - congruence.
  - by apply set_ok.
  - intros k. destruct (decide (k = rt_next m)) as [->|Hne]; [lia|]. rewrite get_set_ne by done. intros H%A9. lia.
Qed.

Lemma pump_queue_ok extra m : queue_ok extra m → queue_ok extra (pump m).
Proof. destruct (pump_rounds m) as [H _]. induction H as [|m1 m2 m3 H _ IH]; intros Hm; [done|]. by eapply IH, pumped_ok. Qed.

Definition work_conserving (m : Runtime) : Prop := rt_disposed m = false → rt_queue m ≠ [] → 2 <= rt_active m.

Definition pushed (job : Job) (bytes : Z) (m : Runtime) : Runtime :=
  set_rt_queuedBytes (rt_queuedBytes m + bytes) (set_rt_queue (rt_queue m ++ [(job, bytes)]) m).

Lemma enqueue_cases job bytes m :
  enqueue job bytes m = (m, false)
  ∨ enqueue job bytes m = (pump (pushed job bytes m), true) ∧ rt_disposed m = false ∧ zlen (rt_queue m) + rt_active m < QUEUE_CAP
    ∧ rt_queuedBytes m + bytes <= BYTES_CAP.
Proof.
  unfold Runtime.enqueue. destruct (rt_disposed m || (QUEUE_CAP <=? zlen (rt_queue m) + rt_active m) || (BYTES_CAP <? rt_queuedBytes m + bytes)) eqn:E; [by left|right].
  apply orb_false_iff in E as [[E1 E2]%orb_false_iff E3]. split_and!; [done|done|lia|lia].
Qed.

(** A queued planning takes over the session it is for. *)
Lemma pushed_ok extra job bytes m :
  queue_ok (option_list (job_plan job) ++ extra) m → rt_disposed m = false → zlen (rt_queue m) + rt_active m < QUEUE_CAP →
  rt_queuedBytes m + bytes <= BYTES_CAP → 0 <= bytes → queue_ok extra (pushed job bytes m).
Proof.
  intros [A1 A2 A3 A4 A5 A6 A7 A8 A9 A10 A11 A12 A13] Hd Hc Hb H0.
  assert (plans (pushed job bytes m) ++ extra ≡ₚ plans m ++ option_list (job_plan job) ++ extra) as Hp.
  { unfold plans, pushed. cbn [set_rt_queuedBytes set_rt_queue rt_queue rt_running]. rewrite omap_app. cbn [omap list_omap fst].
    rewrite <- !app_assoc. apply Permutation_app_head. rewrite !app_assoc. apply Permutation_app_tail.
    assert ((match job_plan job with Some y => [y] | None => [] end) = option_list (job_plan job)) as -> by (by destruct (job_plan job)).
    apply Permutation_app_comm. }
  split; cbn [pushed set_rt_queuedBytes set_rt_queue rt_queue rt_running rt_active rt_queuedBytes rt_disposed rt_next]; try done.
  - rewrite length_app. cbn [length]. lia.
  - rewrite map_app, zsum_app, A4. cbn [map snd]. rewrite zsum_cons. cbn. lia.
  - apply Forall_app. split; [done|]. by apply Forall_singleton.
  - congruence.
  - by rewrite Hp.
  - intros a. rewrite Hp. apply A11.
  - intros a. rewrite Hp. apply A12.
  - intros _ a Ha. rewrite Hp. by apply A13.
Qed.

Lemma enqueue_queue extra job bytes m :
  queue_ok (option_list (job_plan job) ++ extra) m → work_conserving m → 0 <= bytes →
  ((enqueue job bytes m).2 = true ∧ queue_ok extra (enqueue job bytes m).1 ∧ work_conserving (enqueue job bytes m).1)
  ∨ enqueue job bytes m = (m, false).
Proof.
  intros Hm Hw H0. destruct (enqueue_cases job bytes m) as [->|(-> & Hd & Hc & Hb)]; [by right|left]. split; [done|]. split.
  - by apply pump_queue_ok, pushed_ok.
  - exact (proj2 (pump_rounds _)).
Qed.

Lemma finish_job_ok m k : queue_ok [] m → work_conserving m → queue_ok [] (finish_job ports projectId k m) ∧ work_conserving (finish_job ports projectId k m).
Proof.
  intros Hm Hw. unfold finish_job. destruct (get k (rt_running m)) as [[job ph]|] eqn:Ek; [|done]. destruct ph; try done.
  split; [|exact (proj2 (pump_rounds _))]. apply pump_queue_ok. pose proof Hm as [A1 A2 A3 A4 A5 A6 A7 A8 A9 _ _ _ _].
  assert (zlen (rt_running m) = zlen (delete_key k (rt_running m)) + 1) as Hz by (apply zlen_delete; [done|by eexists]).
  eapply queue_ok_perm; try exact Hm; cbn [set_rt_active set_rt_running rt_active rt_running rt_queue rt_next rt_queuedBytes rt_disposed]; try done; try lia.
  - unfold plans. cbn [set_rt_active set_rt_running rt_running rt_queue]. apply Permutation_app_head.
    destruct (omap_set_perm live_plan k _ (job, Ended) _ A8 Ek) as [-> _]. done.
  - by apply delete_ok.
  - intros k' [x [_ H]%delete_get]. apply A9. by eexists.
Qed.
End QueueOk.

(** *** The log *)

(** What [n] asked of the session at [a] was invalidated. *)
Definition void (l : list Log) (n a : nat) : Prop := ∃ x y z, l = x ++ LAsk n a :: y ++ LInvalidate a :: z.
(** Every publication is of something asked and not void. *)
Definition publishes_fresh (l : list Log) : Prop :=
  ∀ x n a plan y, l = x ++ LPublish n a plan :: y → LAsk n a ∈ x ∧ ¬ void x n a.

Lemma void_snoc l e n a : void (l ++ [e]) n a ↔ void l n a ∨ e = LInvalidate a ∧ LAsk n a ∈ l.
Proof.
  split.
  - intros (x & y & z & E). destruct z as [|e' z _] using rev_ind.
    + right. assert (l ++ [e] = (x ++ LAsk n a :: y) ++ [LInvalidate a]) as E' by (by rewrite <- app_assoc).
      apply app_inj_tail in E' as [-> ->]. split; [done|]. rewrite elem_of_app. right. by left.
    + left. assert (l ++ [e] = (x ++ LAsk n a :: y ++ LInvalidate a :: z) ++ [e']) as E'.
      { rewrite E, <- app_assoc, <- app_comm_cons, <- app_assoc. done. }
      apply app_inj_tail in E' as [-> _]. by exists x, y, z.
  - intros [(x & y & z & ->)|[-> Hin]].
    + exists x, y, (z ++ [e]). by rewrite <- app_assoc, <- app_comm_cons, <- app_assoc.
    + apply list_elem_of_split in Hin as (x & y & ->). exists x, y, []. by rewrite <- app_assoc.
Qed.

Lemma publishes_fresh_snoc l e :
  publishes_fresh l → (∀ n a plan, e = LPublish n a plan → LAsk n a ∈ l ∧ ¬ void l n a) → publishes_fresh (l ++ [e]).
Proof.
  intros Hl He x n a plan y E. destruct y as [|e' y _] using rev_ind.
  - apply app_inj_tail in E as [-> ->]. by eapply He.
  - rewrite app_comm_cons, app_assoc in E. apply app_inj_tail in E as [-> _]. by eapply Hl.
Qed.

Lemma void_calls l calls n a : Forall (λ e, is_call e = true) calls → void (l ++ calls) n a ↔ void l n a.
Proof.
  induction calls as [|e calls IH] using rev_ind; [by rewrite app_nil_r|]. intros [Hc He]%Forall_app. apply Forall_inv in He. rewrite app_assoc, void_snoc, IH by done.
  split; [intros [?|[-> _]]; [done|cbn in He; done]|intros ?; by left].
Qed.

Lemma publishes_fresh_calls l calls : Forall (λ e, is_call e = true) calls → publishes_fresh l → publishes_fresh (l ++ calls).
Proof.
  induction calls as [|e calls IH] using rev_ind; [by rewrite app_nil_r|]. intros [Hc He]%Forall_app Hl. apply Forall_inv in He. rewrite app_assoc.
  apply publishes_fresh_snoc; [by apply IH|]. intros n a plan ->. cbn in He. done.
Qed.

(** *** What the sessions and the log agree on *)

Section Known.
Context (on off : bool).

Definition ask_ok (m : Runtime) (x : nat * nat * Z) : Prop :=
  let '(n, a, g) := x in
  (n < rt_next m)%nat ∧ (a < rt_next m)%nat ∧ LAsk n a ∈ rt_log m ∧ g <= ss_generation (state_at a m)
  ∧ (void (rt_log m) n a → g < ss_generation (state_at a m)) ∧ off = false.

Record known (m : Runtime) : Prop := {
  kn_addr : ∀ id a, get id (rt_sessions m) = Some a → (a < rt_next m)%nat;
  kn_keys : omap_ok (rt_sessions m);
  kn_64 : zlen (rt_sessions m) <= 64;
  kn_waiting : Forall (λ w, (waiting_addr w < rt_next m)%nat) (rt_waiting m);
  kn_polls : omap_ok (rt_polls m);
  kn_asks : ∀ x, x ∈ asks m → ask_ok m x;
  kn_log : ∀ n a, LAsk n a ∈ rt_log m → (n < rt_next m)%nat;
  kn_fresh : publishes_fresh (rt_log m);
  kn_views : ∀ a plan, ss_view (state_at a m) = Some plan → ∃ n, LPublish n a plan ∈ rt_log m;
  kn_on : on = false → rt_polls m = [] ∧ (∀ id b, (JClear id, b) ∉ rt_queue m) ∧ (∀ k job plan, get k (rt_running m) ≠ Some (job, AwaitSetView plan))
            ∧ Forall (λ l, needs_on l = false) (rt_log m) }.

(** Steps that ask, publish and invalidate nothing. *)
Record framed (m m' : Runtime) : Prop := {
  fr_states : ∀ a, ss_generation (state_at a m') = ss_generation (state_at a m) ∧ (ss_view (state_at a m') = ss_view (state_at a m) ∨ ss_view (state_at a m') = None);
  fr_log : ∃ calls, rt_log m' = rt_log m ++ calls ∧ Forall (λ l, is_call l = true) calls;
  fr_asks : ∀ x, x ∈ asks m' → x ∈ asks m;
  fr_next : (rt_next m <= rt_next m')%nat }.

Lemma ask_ok_framed m m' x : framed m m' → ask_ok m x → ask_ok m' x.
Proof.
  intros [F1 (calls & Fl & Fc) _ Fn]. destruct x as [[n a] g]. intros (H1 & H2 & H3 & H4 & H5 & H6). unfold ask_ok. rewrite Fl, (proj1 (F1 a)), void_calls by done.
  split_and!; [lia|lia| |done|done|done]. rewrite elem_of_app. by left.
Qed.

Lemma known_framed m m' :
  known m → framed m m' → (∀ id a, get id (rt_sessions m') = Some a → get id (rt_sessions m) = Some a) → omap_ok (rt_sessions m') →
  zlen (rt_sessions m') <= 64 → Forall (λ w, (waiting_addr w < rt_next m')%nat) (rt_waiting m') → omap_ok (rt_polls m') →
  (on = false → rt_polls m' = [] ∧ (∀ id b, (JClear id, b) ∉ rt_queue m') ∧ (∀ k job plan, get k (rt_running m') ≠ Some (job, AwaitSetView plan))
            ∧ Forall (λ l, needs_on l = false) (rt_log m')) →
  known m'.
Proof.
  intros Hk Hf Hs Hok H64 Hw Hp Hon. pose proof Hf as [F1 (calls & Fl & Fc) Fa Fn]. split; try done.
  - intros id a H%Hs%(kn_addr _ Hk). lia.
  - intros x Hx. eapply ask_ok_framed; [exact Hf|]. by apply (kn_asks _ Hk), Fa.
  - rewrite Fl. intros n a [H|H]%elem_of_app; [apply (kn_log _ Hk) in H; lia|]. rewrite Forall_forall in Fc. apply Fc in H. cbn in H. done.
  - rewrite Fl. apply publishes_fresh_calls; [done|apply Hk].
  - intros a plan H. destruct (proj2 (F1 a)) as [E|E]; [|congruence]. rewrite E in H. destruct (kn_views _ Hk a plan H) as [n Hn]. exists n.
    rewrite Fl, elem_of_app. by left.
Qed.
End Known.

(** *** The steps keep the invariant *)

Section Keep.
Context (opts : Options) (ports : Ports) (projectId : jstr).
Abbreviation is_on := (is_on opts).
Abbreviation known := (known is_on (is_off opts)).
Abbreviation ask_ok := (ask_ok (is_off opts)).
Abbreviation start_job := (start_job ports projectId).
Abbreviation pumped := (pumped ports projectId).
Abbreviation pump := (pump ports projectId).
Abbreviation enqueue := (enqueue ports projectId).

Lemma asks_pumped m m' x : pumped m m' → omap_ok (rt_running m) → (∀ k, is_Some (get k (rt_running m)) → (k < rt_next m)%nat) → x ∈ asks m' → x ∈ asks m.
Proof.
  intros Hp Hok Hfr. destruct Hp as [job bytes rest Hq _ _]. destruct (start_job_started ports projectId (rt_next m) job (popped bytes rest m)) as [(ph & Hr & _) _ _ (_ & _ & _ & Hqueue & _ & _ & Hpolls & _)].
  assert (get (rt_next m) (rt_running m) = None) as Hnew.
  { destruct (get (rt_next m) (rt_running m)) eqn:E; [|done]. destruct (Nat.lt_irrefl (rt_next m)). apply Hfr. by eexists. }
  cbn [popped set_rt_next set_rt_active set_rt_queuedBytes set_rt_queue rt_running rt_queue rt_polls] in *.
  unfold asks. rewrite Hr, Hqueue, Hpolls, Hq. rewrite (omap_new (λ jp, job_ask jp.1)) by done. cbn [omap list_omap fst].
  rewrite !elem_of_app. intros [H|[[H|H]|H]]; [left|right; left|left|right; right]; try done.
  - destruct (job_ask job); [by right|done].
  - destruct (job_ask job); cbn [option_list] in H; [apply list_elem_of_singleton in H as ->; by left|by apply elem_of_nil in H].
Qed.

Lemma pumped_known m m' : pumped m m' → queue_ok [] m → known m → known m'.
Proof.
  intros Hp Hq Hk. pose proof (λ x, asks_pumped m m' x Hp (qo_keys _ _ Hq) (qo_fresh _ _ Hq)) as Ha.
  destruct Hp as [job bytes rest Eq Hd _]. destruct (start_job_started ports projectId (rt_next m) job (popped bytes rest m))
    as [(ph & Hr & _ & Hset) (calls & Hl & Hc) Hs (_ & D2 & D3 & D4 & _ & _ & D7 & D8)].
  cbn [popped set_rt_next set_rt_active set_rt_queuedBytes set_rt_queue rt_running rt_queue rt_polls rt_sessions rt_next rt_waiting rt_log] in *.
  destruct Hk as [K1 K2 K3 K4 K5 K6 K7 K8 K9 K10].
  apply (known_framed _ _ m); [by split|split| | | | | |]; rewrite ?D2, ?D3, ?D4, ?D7, ?D8, ?Hr; try done.
  - intros a. destruct (Hs a) as (_ & H1 & H2). split; [exact H1|by left].
  - exists calls. split; [done|]. eapply Forall_impl; [exact Hc|]. by intros l [? _].
  - lia.
  - eapply Forall_impl; [exact K4|]. intros w H. cbn beta in H. lia.
  - intros Hon. destruct (K10 Hon) as (P1 & P2 & P3 & P4). split_and!; [done| | |].
    + intros id b H. apply (P2 id b). rewrite Eq. by right.
    + intros k job' plan. destruct (decide (k = rt_next m)) as [->|Hne]; [rewrite get_set_eq; intros [= _ E]; by eapply Hset|]. rewrite get_set_ne by done. apply P3.
    + rewrite Hl. apply Forall_app. split; [done|]. eapply Forall_impl; [exact Hc|]. intros l [_ H]. destruct (needs_on l); [|done].
      destruct (H eq_refl) as [id ->]. destruct (P2 id bytes). rewrite Eq. by left.
Qed.

Lemma pump_keeps m : queue_ok [] m → known m → queue_ok [] (pump m) ∧ known (pump m).
Proof.
  intros Hq Hk. destruct (pump_rounds ports projectId m) as [H _]. induction H as [|m1 m2 m3 H _ IH]; [done|].
  apply IH; [by eapply pumped_ok|by eapply pumped_known].
Qed.

Record inv (m : Runtime) : Prop := { iv_queue : queue_ok [] m; iv_work : work_conserving m; iv_known : known m }.

(** Steps that leave the queue and what runs alone. *)
Lemma inv_light m m' :
  inv m → framed m m' → (∀ a, ss_busy (state_at a m') = ss_busy (state_at a m)) →
  rt_disposed m' = rt_disposed m → rt_queue m' = rt_queue m → rt_running m' = rt_running m → rt_active m' = rt_active m → rt_queuedBytes m' = rt_queuedBytes m →
  (∀ id a, get id (rt_sessions m') = Some a → get id (rt_sessions m) = Some a) → omap_ok (rt_sessions m') → zlen (rt_sessions m') <= 64 →
  Forall (λ w, (waiting_addr w < rt_next m')%nat) (rt_waiting m') → omap_ok (rt_polls m') →
  (is_on = false → rt_polls m' = [] ∧ Forall (λ l, needs_on l = false) (rt_log m')) → inv m'.
Proof.
  intros [Hq Hw Hk] Hf Hb Ed Eq Er Ea Ebt Hs Hok H64 Hwt Hp Hon. pose proof Hq as [A1 A2 A3 A4 A5 A6 A7 A8 A9 _ _ _ _]. pose proof (fr_next _ _ Hf) as Hn. split.
  - eapply queue_ok_perm; [exact Hq|by rewrite (plans_perm m m')|done|done|done|..]; rewrite ?Ed, ?Eq, ?Er, ?Ea, ?Ebt; try done.
    intros k H%A9. lia.
  - unfold work_conserving. by rewrite Ed, Eq, Ea.
  - eapply known_framed; try done. intros Ho. destruct (Hon Ho) as [H1 H2]. destruct (kn_on _ _ _ Hk Ho) as (_ & P2 & P3 & _). rewrite Eq, Er. by split_and!.
Qed.

Lemma waiting_more m next : (rt_next m <= next)%nat → known m → Forall (λ w, (waiting_addr w < next)%nat) (rt_waiting m).
Proof. intros Hn Hk. eapply Forall_impl; [apply Hk|]. intros w H. cbn beta in H. lia. Qed.

Ltac light Hi := apply (inv_light _ _ Hi); try done; try apply Hi; try (apply (iv_known _ Hi)).

Lemma on_light m : inv m → is_on = false → rt_polls m = [] ∧ Forall (λ l, needs_on l = false) (rt_log m).
Proof. intros Hi Ho. by destruct (kn_on _ _ _ (iv_known _ Hi) Ho) as (? & _ & _ & ?). Qed.

Lemma state_keeps a f m : quiet f → inv m → inv (on_state a f m).
Proof.
  intros [Q1 Q2 Q3] Hi. light Hi.
  - split; [|exists []; by rewrite app_nil_r|done|done]. intros a'. rewrite state_at_on. case_bool_decide; [subst; by rewrite Q2|by auto].
  - intros a'. rewrite state_at_on. case_bool_decide; [subst; by rewrite Q1|done].
  - apply (on_light m Hi).
Qed.

Lemma data_keeps now models snaps next m :
  (rt_next m <= next)%nat → inv m → inv (set_rt_next next (set_rt_snaps snaps (set_rt_models models (set_rt_now now m)))).
Proof.
  intros Hn Hi. light Hi.
  - split; [by auto|exists []; by rewrite app_nil_r|done|done].
  - apply (waiting_more m next Hn), Hi.
  - apply (on_light m Hi).
Qed.

(** Logging changes the log only. *)
Lemma known_log l m :
  known m → publishes_fresh (rt_log m ++ [l]) → (∀ n a, l = LAsk n a → (n < rt_next m)%nat) →
  (∀ x, x ∈ asks m → ask_ok (log l m) x) → (is_on = false → needs_on l = false) → known (log l m).
Proof.
  intros [K1 K2 K3 K4 K5 K6 K7 K8 K9 K10] Hp Hl Ha Hon. split; cbn [log set_rt_log rt_sessions rt_next rt_waiting rt_polls rt_log rt_queue rt_running]; try done.
  - intros n a [H|H%list_elem_of_singleton]%elem_of_app; [by eapply K7|]. by eapply Hl.
  - intros a plan H. destruct (K9 a plan H) as [n Hn]. exists n. rewrite elem_of_app. by left.
  - intros Ho. destruct (K10 Ho) as (P1 & P2 & P3 & P4). split_and!; [done|done|done|]. apply Forall_app. split; [done|]. apply Forall_cons_2; [by apply Hon|apply Forall_nil_2].
Qed.

Lemma log_queue l m : queue_ok [] m → queue_ok [] (log l m).
Proof. by intros [A1 A2 A3 A4 A5 A6 A7 A8 A9 A10 A11 A12 A13]. Qed.

Lemma call_keeps l m : is_call l = true → (needs_on l = true → is_on = true) → inv m → inv (log l m).
Proof.
  intros Hc Hon [Hq Hw Hk]. assert (Forall (λ e, is_call e = true) [l]) as Hcs by (apply Forall_cons_2; [done|apply Forall_nil_2]).
  split; [by apply log_queue|done|]. apply known_log; [done|by apply publishes_fresh_calls, Hk|by intros n a ->| |].
  - intros x Hx. apply (ask_ok_framed _ m); [|by apply Hk]. split; [by auto|by exists [l]|done|done].
  - intros Ho. destruct (needs_on l); [|done]. rewrite Hon in Ho; done.
Qed.

(** Raising one session's generation voids what was asked of it. *)
Lemma invalidate_keeps a m : inv m → inv (invalidate a m).
Proof.
  intros [Hq Hw Hk]. assert (∀ a', ss_busy (state_at a' (on_state a bump m)) = ss_busy (state_at a' m)) as Hb.
  { intros a'. rewrite state_at_on. case_bool_decide; [by subst|done]. }
  split.
  - apply log_queue. pose proof Hq as [A1 A2 A3 A4 A5 A6 A7 A8 A9 A10 A11 A12 A13]. eapply queue_ok_perm; [exact Hq|done|done|done|done|..]; done.
  - done.
  - pose proof Hk as [K1 K2 K3 K4 K5 K6 K7 K8 K9 K10]. split; cbn [invalidate log set_rt_log rt_sessions rt_next rt_waiting rt_polls rt_log rt_queue rt_running on_state set_rt_states]; try done.
    + intros [[n a'] g] Hx. destruct (K6 (n, a', g) Hx) as (H1 & H2 & H3 & H4 & H5 & H6). unfold Runtime.ask_ok. cbn [invalidate log set_rt_log rt_next rt_log on_state set_rt_states].
      assert (ss_generation (state_at a' (invalidate a m)) = if bool_decide (a' = a) then ss_generation (state_at a' m) + 1 else ss_generation (state_at a' m)) as ->.
      { change (state_at a' (invalidate a m)) with (state_at a' (on_state a bump m)). rewrite state_at_on. case_bool_decide; [by subst|done]. }
      rewrite void_snoc. split_and!; [done|done|rewrite elem_of_app; by left|case_bool_decide; lia| |done].
      intros [Hv%H5|[[= ->] _]]; [case_bool_decide; lia|]. rewrite bool_decide_true by done. lia.
    + intros n a' [H|H%list_elem_of_singleton]%elem_of_app; [by eapply K7|done].
    + apply publishes_fresh_snoc; [done|]. by intros.
    + intros a' plan. change (state_at a' (invalidate a m)) with (state_at a' (on_state a bump m)). rewrite state_at_on.
      intros H. destruct (K9 a' plan) as [n Hn]; [case_bool_decide; [by subst|done]|]. exists n. rewrite elem_of_app. by left.
    + intros Ho. destruct (K10 Ho) as (P1 & P2 & P3 & P4). split_and!; [done|done|done|]. apply Forall_app. split; [done|]. apply Forall_cons_2; [done|apply Forall_nil_2].
Qed.

Lemma drop_keeps id m : inv m → inv (set_rt_sessions (delete_key id (rt_sessions m)) m).
Proof.
  intros Hi. pose proof (iv_known _ Hi) as Hk. light Hi.
  - split; [by auto|exists []; by rewrite app_nil_r|done|done].
  - by intros id' a [_ ?]%delete_get.
  - apply delete_ok, Hk.
  - pose proof (size_delete id (rt_sessions m)). pose proof (kn_64 _ _ _ Hk). cbn [set_rt_sessions rt_sessions]. lia.
  - apply (on_light m Hi).
Qed.

Lemma fresh_keeps id m :
  zlen (rt_sessions m) < 64 → get id (rt_sessions m) = None → inv m →
  inv (set_rt_next (S (rt_next m)) (set_rt_states (set_key (rt_next m) new_session (rt_states m)) (set_rt_sessions (set_key id (rt_next m) (rt_sessions m)) m))).
Proof.
  intros H64 Hid [Hq Hw Hk]. set (m' := set_rt_next _ _).
  assert (∀ a, state_at a m' = if bool_decide (a = rt_next m) then new_session else state_at a m) as Hst.
  { intros a. unfold state_at, m'. cbn [set_rt_next set_rt_states rt_states]. case_bool_decide; [subst; by rewrite get_set_eq|by rewrite get_set_ne]. }
  assert (plans m' = plans m) as Hplans by done. split.
  - destruct Hq as [A1 A2 A3 A4 A5 A6 A7 A8 A9 A10 A11 A12 A13]. split; try done.
    + intros k H%A9. cbn. lia.
    + intros a H%A11. cbn. lia.
    + intros a H. rewrite Hst, bool_decide_false; [by apply A12|]. apply A11 in H. lia.
    + intros Hd a. rewrite Hst. case_bool_decide; [done|]. by apply A13.
  - done.
  - destruct Hk as [K1 K2 K3 K4 K5 K6 K7 K8 K9 K10]. split; try done.
    + intros id' a. cbn [m' set_rt_next set_rt_states set_rt_sessions rt_sessions rt_next]. destruct (decide (id' = id)) as [->|Hne]; [rewrite get_set_eq; intros [= <-]; lia|].
      rewrite get_set_ne by done. intros H%K1. lia.
    + by apply set_ok.
    + cbn [m' set_rt_next set_rt_states set_rt_sessions rt_sessions]. rewrite size_set. unfold has. rewrite Hid. lia.
    + eapply Forall_impl; [exact K4|]. intros w H. cbn in *. lia.
    + intros [[n a] g] Hx. destruct (K6 (n, a, g) Hx) as (H1 & H2 & H3 & H4 & H5 & H6). unfold Runtime.ask_ok. rewrite Hst, bool_decide_false by lia.
      cbn [m' set_rt_next set_rt_states set_rt_sessions rt_next rt_log]. split_and!; [lia|lia|done|done|done|done].
    + intros n a H%K7. cbn. lia.
    + intros a plan. rewrite Hst. case_bool_decide; [done|]. apply K9.
Qed.

(** *** Asking *)

Lemma pushed_known job bytes m :
  known m → (∀ x, job_ask job = Some x → ask_ok m x) → (∀ id, job = JClear id → is_on = true) → known (pushed job bytes m).
Proof.
  intros [K1 K2 K3 K4 K5 K6 K7 K8 K9 K10] Ha Hc. split; try done.
  - intros x Hx. assert (x ∈ asks m ∨ job_ask job = Some x) as [H|H]; [|by apply (K6 x)|by apply Ha].
    unfold asks, pushed in *. cbn [set_rt_queuedBytes set_rt_queue rt_queue rt_running rt_polls] in Hx. rewrite omap_app, !elem_of_app in Hx. cbn [omap list_omap fst] in Hx.
    rewrite !elem_of_app. destruct Hx as [[Hx|Hx]|Hx]; [tauto| |tauto]. right. destruct (job_ask job) as [y|]; [|by apply elem_of_nil in Hx].
    apply list_elem_of_singleton in Hx. congruence.
  - intros Ho. destruct (K10 Ho) as (P1 & P2 & P3 & P4). split_and!; [done| |done|done]. intros id b. unfold pushed. cbn [set_rt_queuedBytes set_rt_queue rt_queue].
    rewrite elem_of_app. intros [H|H%list_elem_of_singleton]; [by eapply P2|]. injection H as <- _. rewrite (Hc id) in Ho; done.
Qed.

Lemma enqueue_keeps job bytes m :
  queue_ok (option_list (job_plan job)) m → work_conserving m → known m → 0 <= bytes → (∀ x, job_ask job = Some x → ask_ok m x) → (∀ id, job = JClear id → is_on = true) →
  (enqueue job bytes m).2 = true ∧ inv (enqueue job bytes m).1 ∨ enqueue job bytes m = (m, false).
Proof.
  intros Hq Hw Hk H0 Ha Hc. destruct (enqueue_cases ports projectId job bytes m) as [->|(-> & Hd & Hcap & Hb)]; [by right|left]. split; [done|].
  assert (queue_ok [] (pushed job bytes m)) as Hq1 by (apply pushed_ok; [by rewrite app_nil_r|done..]).
  destruct (pump_keeps (pushed job bytes m) Hq1) as [Hq2 Hk2]; [by apply pushed_known|].
  split; [done|exact (proj2 (pump_rounds _ _ _))|done].
Qed.

Lemma clear_keeps id m : is_on = true → inv m → inv (enqueue (JClear id) 0 m).1.
Proof. intros Ho Hi. destruct (enqueue_keeps (JClear id) 0 m) as [[_ H]|E]; try apply Hi; try done. by rewrite E. Qed.

Definition asking (a : nat) (f : SessionState → SessionState) (m : Runtime) : Runtime :=
  log (LAsk (rt_next m) a) (set_rt_next (S (rt_next m)) (on_state a f m)).

Lemma asking_state a f m a' : state_at a' (asking a f m) = if bool_decide (a' = a) then f (state_at a m) else state_at a' m.
Proof. change (state_at a' (asking a f m)) with (state_at a' (on_state a f m)). apply state_at_on. Qed.

(** A new question is not void, and no old one becomes so. *)
Lemma asking_known a f m :
  (a < rt_next m)%nat → (∀ s, ss_generation (f s) = ss_generation s) → (∀ s, ss_view (f s) = ss_view s) → is_off opts = false → known m →
  known (asking a f m) ∧ ask_ok (asking a f m) (rt_next m, a, ss_generation (state_at a m)).
Proof.
  intros Hlt Hg Hv Hoff [K1 K2 K3 K4 K5 K6 K7 K8 K9 K10].
  assert (∀ a', ss_generation (state_at a' (asking a f m)) = ss_generation (state_at a' m)) as Hgen.
  { intros a'. rewrite asking_state. case_bool_decide; [subst; by rewrite Hg|done]. }
  assert (∀ n a', void (rt_log m ++ [LAsk (rt_next m) a]) n a' ↔ void (rt_log m) n a') as Hvoid.
  { intros n a'. rewrite void_snoc. split; [intros [?|[? _]]; done|by auto]. }
  split; [split; cbn [asking log set_rt_log set_rt_next rt_sessions rt_next rt_waiting rt_polls rt_log rt_queue rt_running on_state set_rt_states]; try done|].
  - intros id a' H%K1. lia.
  - eapply Forall_impl; [exact K4|]. intros w H. cbn beta in H. lia.
  - intros [[n a'] g] Hx. destruct (K6 (n, a', g) Hx) as (H1 & H2 & H3 & H4 & H5 & H6). unfold Runtime.ask_ok. rewrite Hgen.
    cbn [asking log set_rt_log set_rt_next rt_next rt_log on_state set_rt_states]. rewrite Hvoid. split_and!; [lia|lia|rewrite elem_of_app; by left|done|done|done].
  - intros n a' [H|H%list_elem_of_singleton]%elem_of_app; [apply K7 in H; lia|]. injection H as -> _. lia.
  - apply publishes_fresh_snoc; [done|]. by intros.
  - intros a' plan. rewrite asking_state. intros H. destruct (K9 a' plan) as [n Hn]; [case_bool_decide; [subst; by rewrite Hv in H|done]|].
    exists n. rewrite elem_of_app. by left.
  - intros Ho. destruct (K10 Ho) as (P1 & P2 & P3 & P4). split_and!; [done|done|done|]. apply Forall_app. split; [done|]. apply Forall_cons_2; [done|apply Forall_nil_2].
  - unfold Runtime.ask_ok. rewrite Hgen. cbn [asking log set_rt_log set_rt_next rt_next rt_log on_state set_rt_states]. rewrite Hvoid.
    split_and!; [lia|lia|rewrite elem_of_app; right; by left|lia| |done]. intros (x & y & z & E). exfalso.
    assert (rt_next m < rt_next m)%nat; [|lia]. apply (K7 _ a). rewrite E, elem_of_app. right. by left.
Qed.

Lemma hydrate_keeps id a m : (a < rt_next m)%nat → inv m → inv (hydrate opts ports projectId id a m).
Proof.
  intros Hlt Hi. unfold hydrate. destruct (_ || _ || _) eqn:Eh; [done|]. apply orb_false_iff in Eh as [_ Hoff]. cbv zeta. set (f := λ s, set_ss_hydrating true (set_ss_hydrated true s)).
  change (log (LAsk (rt_next m) a) _) with (asking a f m). pose proof Hi as [Hq Hw Hk]. destruct (asking_known a f m) as [Hk1 Ha]; [done|done|done|done|done|].
  assert (queue_ok [] (asking a f m)) as Hq1.
  { apply log_queue. pose proof Hq as [A1 A2 A3 A4 A5 A6 A7 A8 A9 A10 A11 A12 A13]. eapply queue_ok_perm; [exact Hq|done|cbn; lia| |done|..]; try done.
    - intros a'. change (state_at a' (set_rt_next _ _)) with (state_at a' (on_state a f m)). rewrite state_at_on. case_bool_decide; [by subst|done].
    - intros k H%A9. cbn. lia. }
  destruct (enqueue_keeps (JHydrate (rt_next m) id a (ss_generation (state_at a m))) 0 (asking a f m)) as [[E Hi2]|E]; [done|done|done|done| |done| |].
  - intros x [= <-]. done.
  - destruct (enqueue _ _ _) as [m2 accepted]. cbn [fst snd] in *. subst accepted. done.
  - rewrite E. apply state_keeps; [by split; auto|by split].
Qed.

Lemma schedule_keeps id a m : (a < rt_next m)%nat → inv m → inv (schedule opts ports projectId id a m).
Proof.
  intros Hlt Hi. unfold schedule. destruct (ss_snapshot (state_at a m)) as [raw|]; [|done]. destruct (schedulable _ _ _ _) eqn:Es; cbn [negb]; [|done]. cbv zeta.
  assert (ss_busy (state_at a m) = false) as Hfree.
  { unfold schedulable in Es. repeat apply andb_true_iff in Es as [Es ?]. by destruct (ss_busy _). }
  assert (is_off opts = false) as Hoff.
  { unfold schedulable in Es. do 5 apply andb_true_iff in Es as [Es ?]. by apply negb_true_iff in Es. }
  change (log (LAsk (rt_next m) a) _) with (asking a (set_ss_busy true) m). pose proof Hi as [Hq Hw Hk].
  destruct (asking_known a (set_ss_busy true) m) as [Hk1 Ha]; [done|done|done|done|done|].
  pose proof Hq as [A1 A2 A3 A4 A5 A6 A7 A8 A9 A10 A11 A12 A13]. rewrite app_nil_r in A10, A11, A12, A13.
  assert (a ∉ plans m) as Hnew by (intros H%A12; congruence).
  assert (queue_ok [a] (asking a (set_ss_busy true) m)) as Hq1.
  { split; cbn [asking log set_rt_log set_rt_next rt_next rt_queue rt_running rt_active rt_queuedBytes rt_disposed on_state set_rt_states]; try done;
      change (plans (asking a (set_ss_busy true) m)) with (plans m).
    - intros k H%A9. lia.
    - apply NoDup_app. split; [done|]. split; [by intros x Hx ->%list_elem_of_singleton|apply NoDup_singleton].
    - intros x [H%A11| ->%list_elem_of_singleton]%elem_of_app; lia.
    - intros x Hx. rewrite asking_state. case_bool_decide as E; [done|]. apply A12. apply elem_of_app in Hx as [Hx|Hx%list_elem_of_singleton]; done.
    - intros Hd x. rewrite asking_state, elem_of_app. case_bool_decide as E; [subst; intros _; right; by left|]. intros H. left. by apply A13. }
  destruct (enqueue_keeps (JPlan (rt_next m) id a (ss_generation (state_at a m)) raw) (raw_bytes (default [] (get raw (rt_snaps (asking a (set_ss_busy true) m))))) (asking a (set_ss_busy true) m))
    as [[E Hi2]|E]; [done|done|done|apply byte_length_nonneg| |done| |].
  - intros x [= <-]. done.
  - destruct (enqueue _ _ _) as [m2 accepted]. cbn [fst snd] in *. subst accepted. done.
  - rewrite E. destruct Hq1 as [B1 B2 B3 B4 B5 B6 B7 B8 B9 B10 B11 B12 B13].
    assert (∀ x, ss_busy (state_at x (on_state a (set_ss_busy false) (asking a (set_ss_busy true) m))) = if bool_decide (x = a) then false else ss_busy (state_at x m)) as Hb.
    { intros x. rewrite state_at_on, !asking_state. case_bool_decide; done. }
    split; [split|done|].
    all: try done.
    + change (plans (on_state a (set_ss_busy false) (asking a (set_ss_busy true) m))) with (plans m). by rewrite app_nil_r.
    + intros x. rewrite app_nil_r. intros H%A11. cbn. lia.
    + intros x. rewrite app_nil_r, Hb. intros H. rewrite bool_decide_false; [by apply A12|]. by intros ->.
    + intros Hd x. rewrite app_nil_r, Hb. case_bool_decide; [done|]. by apply A13.
    + eapply known_framed; [exact Hk1| |by intros|apply Hk1|apply Hk1|apply Hk1|apply Hk1|].
      * split; [|exists []; by rewrite app_nil_r|done|done]. intros x. rewrite state_at_on. case_bool_decide; [subst; by auto|by auto].
      * apply (kn_on _ _ _ Hk1).
Qed.

(** *** Running jobs *)

Lemma finish_keeps k m : inv m → inv (finish_job ports projectId k m).
Proof.
  intros [Hq Hw Hk]. destruct (finish_job_ok ports projectId m k Hq Hw) as [H1 H2]. split; [done|done|]. unfold finish_job in *.
  destruct (get k (rt_running m)) as [[job ph]|] eqn:Ek; [|done]. destruct ph; try done. set (m1 := set_rt_active _ _).
  assert (queue_ok [] m1 ∧ known m1) as [Hq1 Hk1]; [|by apply pump_keeps].
  pose proof Hq as [A1 A2 A3 A4 A5 A6 A7 A8 A9 _ _ _ _]. split.
  - assert (zlen (rt_running m) = zlen (delete_key k (rt_running m)) + 1) as Hz by (apply zlen_delete; [done|by eexists]).
    eapply queue_ok_perm; [exact Hq| |done|done|done|..]; cbn [m1 set_rt_active set_rt_running rt_active rt_running rt_queue rt_next rt_queuedBytes rt_disposed]; try done; try lia.
    + unfold plans. cbn [m1 set_rt_active set_rt_running rt_running rt_queue]. apply Permutation_app_head. by destruct (omap_set_perm live_plan k _ (job, Ended) _ A8 Ek) as [-> _].
    + by apply delete_ok.
    + intros k' [x [_ H]%delete_get]. apply A9. by eexists.
  - eapply known_framed; [exact Hk| |by intros|apply Hk|apply Hk|apply Hk|apply Hk|].
    + split; [by auto|exists []; by rewrite app_nil_r| |done]. intros x. unfold asks. cbn [m1 set_rt_active set_rt_running rt_running rt_queue rt_polls].
      destruct (omap_set_perm (λ jp, job_ask jp.1) k _ (job, Ended) _ A8 Ek) as [-> _]. rewrite !elem_of_app. tauto.
    + intros Ho. destruct (kn_on _ _ _ Hk Ho) as (P1 & P2 & P3 & P4). split_and!; [done|done| |done]. intros k' job' plan. cbn [m1 set_rt_active set_rt_running rt_running].
      intros [_ H]%delete_get. by eapply P3.
Qed.

(** A running job goes on. *)
Lemma phase_known k ph job old m :
  omap_ok (rt_running m) → get k (rt_running m) = Some (job, old) → ((∃ plan, ph = AwaitSetView plan) → is_on = true) → known m → known (set_phase k ph m).
Proof.
  intros Hok Ek Hset Hk. assert (update k (λ jp, (jp.1, ph)) (rt_running m) = set_key k (job, ph) (rt_running m)) as Eu by (unfold update; by rewrite Ek).
  eapply known_framed; [exact Hk| |by intros|apply Hk|apply Hk|apply Hk|apply Hk|].
  - split; [by auto|exists []; by rewrite app_nil_r| |done]. intros x. unfold asks, set_phase. cbn [set_rt_running rt_running rt_queue rt_polls]. rewrite Eu.
    destruct (omap_set_perm (λ jp, job_ask jp.1) k _ (job, ph) _ Hok Ek) as [-> ->]. done.
  - intros Ho. destruct (kn_on _ _ _ Hk Ho) as (P1 & P2 & P3 & P4). split_and!; [done|done| |done]. intros k' job' plan. unfold set_phase. cbn [set_rt_running rt_running]. rewrite Eu.
    destruct (decide (k' = k)) as [->|Hne]; [rewrite get_set_eq; intros [= _ ->]; rewrite Hset in Ho; [done|by eexists]|]. rewrite get_set_ne by done. apply P3.
Qed.

Lemma phase_queue k ph job old m m' :
  get k (rt_running m) = Some (job, old) → queue_ok [] m → rt_running m' = update k (λ jp, (jp.1, ph)) (rt_running m) →
  rt_queue m' = rt_queue m → rt_active m' = rt_active m → rt_queuedBytes m' = rt_queuedBytes m → rt_disposed m' = rt_disposed m → rt_next m' = rt_next m →
  plans m ≡ₚ option_list (live_plan (job, old)) ++ omap (λ jb, job_plan jb.1) (rt_queue m) ++ omap (λ kr, live_plan kr.2) (delete_key k (rt_running m))
  ∧ plans m' ≡ₚ option_list (live_plan (job, ph)) ++ omap (λ jb, job_plan jb.1) (rt_queue m) ++ omap (λ kr, live_plan kr.2) (delete_key k (rt_running m))
  ∧ (NoDup (plans m') → (∀ a, a ∈ plans m' → (a < rt_next m)%nat) → (∀ a, a ∈ plans m' → ss_busy (state_at a m') = true) →
     (rt_disposed m = false → ∀ a, ss_busy (state_at a m') = true → a ∈ plans m') → queue_ok [] m').
Proof.
  intros Ek [A1 A2 A3 A4 A5 A6 A7 A8 A9 A10 A11 A12 A13] Er Eq Ea Eb Ed En.
  assert (update k (λ jp, (jp.1, ph)) (rt_running m) = set_key k (job, ph) (rt_running m)) as Eu by (unfold update; by rewrite Ek).
  destruct (omap_set_perm live_plan k _ (job, ph) _ A8 Ek) as [E1 E2]. split_and!.
  - unfold plans. rewrite E1, !app_assoc. apply Permutation_app_tail, Permutation_app_comm.
  - unfold plans. rewrite Eq, Er, Eu, E2, !app_assoc. apply Permutation_app_tail, Permutation_app_comm.
  - intros H1 H2 H3 H4. split; rewrite ?Er, ?Eq, ?Ea, ?Eb, ?Ed, ?En, ?app_nil_r; try done.
    + by rewrite zlen_update.
    + by apply update_ok.
    + intros k'. rewrite <- key_get, keys_update, key_get. apply A9.
Qed.

Lemma phase_keeps k ph job old m :
  get k (rt_running m) = Some (job, old) → (job_plan job = None ∨ old ≠ Ended ∧ ph ≠ Ended) → ((∃ plan, ph = AwaitSetView plan) → is_on = true) → inv m → inv (set_phase k ph m).
Proof.
  intros Ek Hp Hset [Hq Hw Hk]. pose proof (qo_keys _ _ Hq) as Hok. split; [|done|by eapply phase_known].
  destruct (phase_queue k ph job old m (set_phase k ph m) Ek Hq) as (P1 & P2 & H); [done..|].
  assert (live_plan (job, ph) = live_plan (job, old)) as El.
  { unfold live_plan. cbn. destruct Hp as [->|[H1 H2]]; [by destruct ph, old|by destruct ph, old]. }
  rewrite El, <- P1 in P2. pose proof Hq as [_ _ _ _ _ _ _ _ _ A10 A11 A12 A13]. rewrite app_nil_r in A10, A11, A12, A13.
  apply H; [by rewrite P2|intros a; rewrite P2; apply A11|intros a; rewrite P2; apply A12|intros Hd a Ha; rewrite P2; by apply A13].
Qed.

(** A planning ends: its session can be planned again. *)
Lemma end_plan_keeps k n id a g raw old m : get k (rt_running m) = Some (JPlan n id a g raw, old) → old ≠ Ended → inv m → inv (end_plan k a m).
Proof.
  intros Ek Hold [Hq Hw Hk]. pose proof (qo_keys _ _ Hq) as Hok. split; [|done|].
  - destruct (phase_queue k Ended _ old m (end_plan k a m) Ek Hq) as (P1 & P2 & H); [done..|].
    unfold live_plan in P1, P2. cbn [snd fst job_plan option_list app] in P1, P2. assert (plans m ≡ₚ a :: plans (end_plan k a m)) as Hp.
    { rewrite P1, P2. by destruct old. }
    pose proof Hq as [_ _ _ _ _ _ _ _ _ A10 A11 A12 A13]. rewrite app_nil_r in A10, A11, A12, A13. rewrite Hp in A10. apply NoDup_cons in A10 as [Hna A10].
    assert (∀ x, ss_busy (state_at x (end_plan k a m)) = if bool_decide (x = a) then false else ss_busy (state_at x m)) as Hb.
    { intros x. change (state_at x (end_plan k a m)) with (state_at x (on_state a (set_ss_busy false) m)). rewrite state_at_on. by case_bool_decide. }
    apply H; [done| | |].
    + intros x Hx. apply A11. rewrite Hp. by right.
    + intros x Hx. rewrite Hb, bool_decide_false; [apply A12; rewrite Hp; by right|]. by intros ->.
    + intros Hd x. rewrite Hb. case_bool_decide as E; [done|]. intros Hx. apply (A13 Hd) in Hx. rewrite Hp in Hx. by apply elem_of_cons in Hx as [?|?].
  - unfold end_plan. eapply phase_known; [done|exact Ek|by intros [? ?]|].
    eapply known_framed; [exact Hk| |by intros|apply Hk|apply Hk|apply Hk|apply Hk|apply (kn_on _ _ _ Hk)].
    split; [|exists []; by rewrite app_nil_r|done|done]. intros x. rewrite state_at_on. case_bool_decide; [subst; by auto|by auto].
Qed.

(** *** The rest *)

Lemma polls_keeps polls m :
  omap_ok polls → (∀ k p, get k polls = Some p → (pp_n p, pp_a p, pp_gen p) ∈ asks m) → (polls ≠ [] → is_on = true) → inv m → inv (set_rt_polls polls m).
Proof.
  intros Hok Ha Hon Hi. light Hi.
  - split; [by auto|exists []; by rewrite app_nil_r| |done]. intros x. unfold asks at 1. cbn [set_rt_polls rt_queue rt_running rt_polls]. rewrite !elem_of_app.
    intros [H|[H|([k p] & -> & Hin)%list_elem_of_fmap]]; [unfold asks; rewrite !elem_of_app; tauto..|]. cbn [snd]. by apply (Ha k), elem_get.
  - intros Ho. split; [destruct polls; [done|by rewrite Hon in Ho]|]. apply (on_light m Hi Ho).
Qed.

Lemma waiting_keeps ws m : Forall (λ w, (waiting_addr w < rt_next m)%nat) ws → inv m → inv (set_rt_waiting ws m).
Proof.
  intros Hws Hi. light Hi; [|apply (on_light m Hi)]. split; [by auto|exists []; by rewrite app_nil_r|done|done].
Qed.

Lemma publish_keeps n a plan m : (n, a, ss_generation (state_at a m)) ∈ asks m → inv m → inv (publish n a plan m).
Proof.
  intros Hask [Hq Hw Hk]. assert (∀ x, state_at x (publish n a plan m) = if bool_decide (x = a) then set_ss_view (Some plan) (state_at a m) else state_at x m) as Hst.
  { intros x. change (state_at x (publish n a plan m)) with (state_at x (on_state a (set_ss_view (Some plan)) m)). apply state_at_on. }
  split; [|done|].
  - apply log_queue. pose proof Hq as [A1 A2 A3 A4 A5 A6 A7 A8 A9 A10 A11 A12 A13]. eapply queue_ok_perm; [exact Hq|done|done| |done|..]; try done.
    intros x. rewrite state_at_on. case_bool_decide; [by subst|done].
  - pose proof Hk as [K1 K2 K3 K4 K5 K6 K7 K8 K9 K10]. destruct (K6 _ Hask) as (H1 & H2 & H3 & _ & H5 & _).
    split; cbn [publish log set_rt_log rt_sessions rt_next rt_waiting rt_polls rt_log rt_queue rt_running on_state set_rt_states]; try done.
    + intros [[n' a'] g] Hx. destruct (K6 (n', a', g) Hx) as (J1 & J2 & J3 & J4 & J5 & J6). unfold Runtime.ask_ok.
      cbn [publish log set_rt_log rt_next rt_log on_state set_rt_states]. assert (ss_generation (state_at a' (publish n a plan m)) = ss_generation (state_at a' m)) as ->.
      { rewrite Hst. case_bool_decide; [by subst|done]. }
      rewrite void_snoc. split_and!; [done|done|rewrite elem_of_app; by left|done| |done]. intros [?|[? _]]; [by apply J5|done].
    + intros n' a' [H|H%list_elem_of_singleton]%elem_of_app; [by eapply K7|done].
    + apply publishes_fresh_snoc; [done|]. intros n' a' plan' [= <- <- _]. split; [done|]. intros Hv%H5. lia.
    + intros a' plan'. rewrite Hst. case_bool_decide as E.
      * subst a'. cbn. intros [= <-]. exists n. rewrite elem_of_app. right. by left.
      * intros H. destruct (K9 a' plan' H) as [n' Hn]. exists n'. rewrite elem_of_app. by left.
    + intros Ho. destruct (K10 Ho) as (P1 & P2 & P3 & P4). split_and!; [done|done|done|]. apply Forall_app. split; [done|]. apply Forall_cons_2; [done|apply Forall_nil_2].
Qed.

Lemma dispose_keeps m : inv m → inv (set_rt_queuedBytes 0 (set_rt_queue [] (set_rt_disposed true m))).
Proof.
  intros [Hq Hw Hk]. set (m' := set_rt_queuedBytes _ _). pose proof Hq as [A1 A2 A3 A4 A5 A6 A7 A8 A9 A10 A11 A12 A13]. rewrite app_nil_r in A10, A11, A12.
  assert (∀ a, a ∈ plans m' → a ∈ plans m) as Hsub by (intros a; unfold plans; cbn; rewrite elem_of_app; by right). split.
  - split; rewrite ?app_nil_r; try done.
    + cbn. pose proof (Zle_0_nat (length (rt_queue m))). cbn [m' set_rt_queuedBytes set_rt_queue set_rt_disposed rt_active] in *. lia.
    + unfold plans in A10. by apply NoDup_app in A10 as (_ & _ & ?).
    + intros a H. by apply A11, Hsub.
    + intros a H. by apply A12, Hsub.
  - done.
  - eapply known_framed; [exact Hk| |by intros|apply Hk|apply Hk|apply Hk|apply Hk|].
    + split; [by auto|exists []; by rewrite app_nil_r| |done]. intros x. unfold asks. cbn. rewrite !elem_of_app. tauto.
    + intros Ho. destruct (kn_on _ _ _ Hk Ho) as (P1 & P2 & P3 & P4). split_and!; [done| |done|done]. by intros id b ?%elem_of_nil.
Qed.

Lemma disposed_keeps m : inv m → inv (set_rt_models [] (set_rt_sessions [] m)).
Proof.
  intros Hi. light Hi; [|apply NoDup_nil_2|apply (on_light m Hi)]. split; [by auto|exists []; by rewrite app_nil_r|done|done].
Qed.

(** *** What handlers rely on between steps *)

(** Addresses stay known, and what runs keeps running. *)
Record grows (m m' : Runtime) : Prop := {
  gw_next : (rt_next m <= rt_next m')%nat;
  gw_running : ∀ k jp, get k (rt_running m) = Some jp → get k (rt_running m') = Some jp }.

Lemma grows_refl m : grows m m.
Proof. by split. Qed.
Lemma grows_trans m1 m2 m3 : grows m1 m2 → grows m2 m3 → grows m1 m3.
Proof. intros [A1 A2] [B1 B2]. split; [lia|auto]. Qed.
Lemma grows_same m m' : (rt_next m <= rt_next m')%nat → rt_running m' = rt_running m → grows m m'.
Proof. intros H E. split; [done|by rewrite E]. Qed.

Lemma rounds_grow m m' : rtc pumped m m' → (∀ k, is_Some (get k (rt_running m)) → (k < rt_next m)%nat) → grows m m'.
Proof.
  intros H. induction H as [|m1 m2 m3 H _ IH]; intros Hf; [apply grows_refl|]. destruct H as [job bytes rest _ _ _].
  destruct (start_job_started ports projectId (rt_next m1) job (popped bytes rest m1)) as [(ph & Hr & _) _ _ (_ & _ & Hn & _)].
  cbn [popped set_rt_next set_rt_active set_rt_queuedBytes set_rt_queue rt_running rt_next] in Hr, Hn.
  apply (grows_trans _ (start_job (rt_next m1) job (popped bytes rest m1))).
  - split; [rewrite Hn; lia|]. intros k jp Hk. rewrite Hr, get_set_ne; [done|]. intros ->. assert (rt_next m1 < rt_next m1)%nat; [|lia]. apply Hf. by eexists.
  - apply IH. intros k. rewrite Hr, Hn. destruct (decide (k = rt_next m1)) as [->|Hne]; [lia|]. rewrite get_set_ne by done. intros Hk%Hf. lia.
Qed.

Lemma enqueue_grows job bytes m : (∀ k, is_Some (get k (rt_running m)) → (k < rt_next m)%nat) → grows m (enqueue job bytes m).1.
Proof.
  intros Hf. destruct (enqueue_cases ports projectId job bytes m) as [->|(-> & _)]; [apply grows_refl|].
  cbn [fst]. apply (grows_trans _ (pushed job bytes m)); [by apply grows_same|]. by apply rounds_grow; [apply pump_rounds|].
Qed.

Lemma clearView_keeps id a m : inv m → inv (clearView opts ports projectId id a m) ∧ grows m (clearView opts ports projectId id a m).
Proof.
  intros Hi. unfold clearView. cbv zeta. set (m1 := invalidate a _). assert (inv m1) as H1.
  { apply invalidate_keeps, state_keeps; [split; by auto|done]. }
  destruct (po_headroom ports && is_on) eqn:E; [|split; [done|by apply grows_same]]. apply andb_true_iff in E as [_ E].
  split; [by apply clear_keeps|]. eapply grows_trans; [|apply enqueue_grows; exact (qo_fresh _ _ (iv_queue _ H1))]. by apply grows_same.
Qed.

Lemma stateFor_keeps id m :
  inv m → let '(m', found) := stateFor id m in inv m' ∧ grows m m' ∧ ∀ a, found = Some a → (a < rt_next m')%nat.
Proof.
  intros Hi. unfold stateFor. destruct (get id (rt_sessions m)) as [a|] eqn:E.
  { split_and!; [done|apply grows_refl|]. intros a' [= <-]. by eapply (kn_addr _ _ _ (iv_known _ Hi)). }
  destruct (64 <=? zlen (rt_sessions m)) eqn:E64.
  - destruct (List.find _ (rt_sessions m)) as [[id' a']|] eqn:Ef; [|split_and!; [done|apply grows_refl|done]].
    apply find_some in Ef as [Hin _]. apply list_elem_of_In in Hin. cbn [fst]. set (m1 := set_rt_sessions _ m).
    assert (inv m1) as H1 by (by apply drop_keeps). assert (zlen (rt_sessions m1) < 64) as Hlt.
    { pose proof (iv_known _ Hi) as Hk. pose proof (kn_64 _ _ _ Hk). cbn [m1 set_rt_sessions rt_sessions].
      assert (is_Some (get id' (rt_sessions m))) as Hsome by (exists a'; apply elem_get; [apply Hk|done]).
      pose proof (zlen_delete id' (rt_sessions m) (kn_keys _ _ _ Hk) Hsome). lia. }
    split; [apply (fresh_keeps id m1); [done| |done]|split; [by apply grows_same; cbn; [lia|]|intros a [= <-]; cbn; lia]].
    cbn [m1 set_rt_sessions rt_sessions]. destruct (decide (id = id')) as [->|Hne]; [apply get_delete_eq|by rewrite get_delete_ne].
  - split; [apply fresh_keeps; [lia|done|done]|split; [by apply grows_same; cbn; [lia|]|intros a [= <-]; cbn; lia]].
Qed.

Lemma schedule_grows id a m : (a < rt_next m)%nat → inv m → grows m (schedule opts ports projectId id a m).
Proof.
  intros Hlt Hi. unfold schedule. destruct (ss_snapshot (state_at a m)) as [raw|]; [|apply grows_refl]. destruct (schedulable _ _ _ _); cbn [negb]; [|apply grows_refl].
  cbv zeta. set (m1 := log _ _). set (job := JPlan _ _ _ _ _). set (bytes := raw_bytes _).
  assert (grows m1 (enqueue job bytes m1).1) as Hg.
  { apply enqueue_grows. intros k Hk. apply (qo_fresh _ _ (iv_queue _ Hi)) in Hk. cbn. lia. }
  destruct (enqueue job bytes m1) as [m2 accepted]. cbn [fst] in Hg. apply (grows_trans _ m1); [by apply grows_same; [cbn; lia|]|].
  destruct accepted; [done|]. eapply grows_trans; [exact Hg|]. by apply grows_same.
Qed.

(** *** Turns of polls *)

Lemma poll_ask k p m : get k (rt_polls m) = Some p → (pp_n p, pp_a p, pp_gen p) ∈ asks m.
Proof. intros H%get_elem. unfold asks. rewrite !elem_of_app. right. right. by apply (list_elem_of_fmap_2 (λ kp, (pp_n kp.2, pp_a kp.2, pp_gen kp.2)) _ (k, p)). Qed.

Lemma polls_on m : inv m → rt_polls m ≠ [] → is_on = true.
Proof. intros Hi Hp. destruct is_on eqn:E; [done|]. by destruct (kn_on _ _ _ (iv_known _ Hi) E) as [? _]. Qed.

Lemma set_poll_keeps k ph m : inv m → inv (set_poll k ph m).
Proof.
  intros Hi. unfold set_poll. apply polls_keeps; [apply update_ok, (iv_known _ Hi)| | |done].
  - intros k' p. rewrite get_update. case_bool_decide as E; [|by apply poll_ask]. destruct (get k' (rt_polls m)) as [q|] eqn:Eq; [|done].
    intros [= <-]. by apply (poll_ask k' q).
  - intros Hne. apply (polls_on m Hi). intros E. rewrite E in Hne. by destruct Hne.
Qed.

Lemma end_poll_keeps k m : inv m → inv (end_poll k m).
Proof.
  intros Hi. unfold end_poll. destruct (get k (rt_polls m)) as [p|] eqn:Ep; [|done]. apply state_keeps; [split; intros s; case_bool_decide; by auto|].
  apply polls_keeps; [apply delete_ok, (iv_known _ Hi)| | |done].
  - intros k' q [_ H]%delete_get. by apply (poll_ask k').
  - intros _. apply (polls_on m Hi). intros E. by rewrite E in Ep.
Qed.

Context (sha256Hex : jstr → jstr).

Lemma poll_round_keeps k m : inv m → inv (poll_round sha256Hex opts projectId k m).
Proof.
  intros Hi. unfold poll_round. destruct (get k (rt_polls m)) as [p|] eqn:Ep; [|done]. cbv zeta. pose proof (end_poll_keeps k m Hi) as He.
  destruct (_ && _ && _ && _); [|done]. destruct (snapshot_of_state _ _) as [raw|]; [|done]. destruct (projectMessages raw) as [projection|]; [|done].
  destruct (applies _ _ _ _); [|done]. apply set_poll_keeps, call_keeps; [done| |done]. intros _. apply (polls_on m Hi). intros E. by rewrite E in Ep.
Qed.

Lemma end_poll_grows k m : grows m (end_poll k m).
Proof. unfold end_poll. destruct (get k (rt_polls m)); [by apply grows_same|apply grows_refl]. Qed.
Lemma poll_round_grows k m : grows m (poll_round sha256Hex opts projectId k m).
Proof.
  unfold poll_round. destruct (get k (rt_polls m)) as [p|]; [|apply grows_refl]. cbv zeta. pose proof (end_poll_grows k m) as He.
  destruct (_ && _ && _ && _); [|done]. destruct (snapshot_of_state _ _) as [raw|]; [|done]. destruct (projectMessages raw) as [projection|]; [|done].
  destruct (applies _ _ _ _); [|done]. by apply grows_same.
Qed.

Lemma poll_keeps n id a base g m :
  (n, a, g) ∈ asks m → is_on = true → inv m →
  inv (pollEnhancement sha256Hex opts ports projectId n id a base g m) ∧ grows m (pollEnhancement sha256Hex opts ports projectId n id a base g m).
Proof.
  intros Hask Hon Hi. unfold pollEnhancement. destruct (vp_enhancementJobId base) as [jobId|]; [|split; [done|apply grows_refl]].
  destruct (_ || _ || _ || _); [split; [done|apply grows_refl]|]. cbv zeta. set (m1 := set_rt_next _ _). assert (inv m1) as H1.
  { apply (data_keeps (rt_now m) (rt_models m) (rt_snaps m) (S (rt_next m)) (on_state a (set_ss_enhancementJob (Some jobId)) m)); [cbn; lia|].
    apply state_keeps; [split; by auto|done]. }
  split; [|eapply grows_trans; [|apply poll_round_grows]; by apply grows_same; cbn; [lia|]].
  apply poll_round_keeps, polls_keeps; [apply set_ok, (iv_known _ H1)| |done|done].
  intros k p. destruct (decide (k = rt_next m)) as [->|Hne]; [rewrite get_set_eq; intros [= <-]; exact Hask|]. rewrite get_set_ne by done. apply (poll_ask k p m1).
Qed.

Lemma stale_false m s g : stale m s g = false → ss_generation s = g.
Proof. unfold stale. intros [_ H]%orb_false_iff. apply negb_false_iff in H. lia. Qed.

Lemma poll_event_keeps e k p m : get k (rt_polls m) = Some p → inv m → inv (poll_event sha256Hex opts projectId e k p m).
Proof.
  intros Hp Hi. pose proof (end_poll_keeps k m Hi) as He. unfold poll_event. destruct e; try done.
  - destruct (pp_phase p); [by apply poll_round_keeps|done..].
  - destruct (pp_phase p); try done. destruct o; try done; by apply set_poll_keeps.
  - destruct (pp_phase p) as [| |plan|]; try done. destruct safe as [safe|]; [|done]. unfold poll_inspected. cbv zeta.
    destruct (_ || _ || _); [done|]. destruct (snapshot_of_state _ _) as [raw|]; [|done]. destruct (applies _ _ _ _); [|done].
    apply set_poll_keeps, call_keeps; [done| |done]. intros _. apply (polls_on m Hi). intros E. by rewrite E in Hp.
  - destruct (pp_phase p) as [| | |plan]; try done. destruct ok; [|done]. unfold poll_stored. cbv zeta. apply end_poll_keeps.
    destruct (negb (stale m (state_at (pp_a p) m) (pp_gen p)) && _) eqn:Es; [|done]. apply andb_true_iff in Es as [Es _]. apply negb_true_iff in Es.
    apply publish_keeps; [|done]. rewrite (stale_false _ _ _ Es). by apply (poll_ask k).
Qed.

(** *** Turns of jobs *)

Lemma job_in_asks k job ph x m : get k (rt_running m) = Some (job, ph) → job_ask job = Some x → x ∈ asks m.
Proof.
  intros H%get_elem Hj. unfold asks. rewrite !elem_of_app. right. left. apply list_elem_of_omap. by exists (k, (job, ph)).
Qed.

Lemma job_known k job ph n a g m : get k (rt_running m) = Some (job, ph) → job_ask job = Some (n, a, g) → inv m → (a < rt_next m)%nat.
Proof. intros H Hj Hi. apply (job_in_asks k _ _ _ _ H) in Hj. by apply (kn_asks _ _ _ (iv_known _ Hi)) in Hj as (_ & ? & _). Qed.

Lemma job_on k job ph n a g m : get k (rt_running m) = Some (job, ph) → job_ask job = Some (n, a, g) → inv m → is_off opts = false.
Proof. intros H Hj Hi. apply (job_in_asks k _ _ _ _ H) in Hj. by apply (kn_asks _ _ _ (iv_known _ Hi)) in Hj as (_ & _ & _ & _ & _ & ?). Qed.

Lemma set_view_on k job plan m : get k (rt_running m) = Some (job, AwaitSetView plan) → inv m → is_on = true.
Proof. intros H Hi. destruct is_on eqn:E; [done|]. destruct (kn_on _ _ _ (iv_known _ Hi) E) as (_ & _ & P & _). by destruct (P k job plan). Qed.

Lemma end_hydrate_keeps k n id a g ph m : get k (rt_running m) = Some (JHydrate n id a g, ph) → inv m → inv (end_hydrate opts ports projectId k id a m).
Proof.
  intros Hk Hi. unfold end_hydrate. cbv zeta. set (m1 := set_phase _ _ _). assert (inv m1) as H1.
  { eapply phase_keeps; [exact Hk|by left|by intros [? ?]|]. apply state_keeps; [split; by auto|done]. }
  destruct (_ && _ && _); [|done]. apply schedule_keeps; [|done]. change (rt_next m1) with (rt_next m). by eapply (job_known k (JHydrate n id a g)).
Qed.

Lemma throw_hydrate_keeps k n id a g ph m : get k (rt_running m) = Some (JHydrate n id a g, ph) → inv m → inv (throw_hydrate opts ports projectId k id a m).
Proof. intros Hk Hi. unfold throw_hydrate. eapply end_hydrate_keeps; [exact Hk|]. apply state_keeps; [split; by auto|done]. Qed.

Lemma view_inspected_keeps k n id a g ph plan safe m :
  get k (rt_running m) = Some (JHydrate n id a g, ph) → inv m → inv (view_inspected opts ports projectId k n id a g plan safe m).
Proof.
  intros Hk Hi. pose proof (end_hydrate_keeps k n id a g ph m Hk Hi) as He. unfold view_inspected. destruct safe; cbn [negb]; [|done].
  destruct (_ || _).
  - destruct is_on eqn:Eo; [|done]. eapply phase_keeps; [exact Hk|by left|by intros [? ?]|]. apply call_keeps; [done|by rewrite Eo|done].
  - cbv zeta. destruct (negb (rt_disposed m) && _ && _ && _ && _) eqn:Ec; [|done]. eapply end_hydrate_keeps; [exact Hk|].
    repeat apply andb_true_iff in Ec as [Ec ?]. apply publish_keeps; [|done].
    assert (ss_generation (state_at a m) = g) as -> by lia. by eapply job_in_asks.
Qed.

Section Plan.
Context (k n : nat) (id : jstr) (a : nat) (g : Z) (raw : nat).

Lemma throw_plan_keeps ph m : get k (rt_running m) = Some (JPlan n id a g raw, ph) → ph ≠ Ended → inv m → inv (throw_plan k a m).
Proof. intros Hk Hph Hi. unfold throw_plan. eapply end_plan_keeps; [exact Hk|done|]. apply state_keeps; [split; by auto|done]. Qed.

Lemma plan_phase_keeps ph ph' m m' :
  get k (rt_running m) = Some (JPlan n id a g raw, ph) → rt_running m' = rt_running m → ph ≠ Ended → ph' ≠ Ended → ((∃ plan, ph' = AwaitSetView plan) → is_on = true) →
  inv m' → inv (set_phase k ph' m').
Proof. intros Hk Er H1 H2 H3 Hi. eapply phase_keeps; [by rewrite Er|by right|done|done]. Qed.

Lemma model_found_keeps key providerID modelID found ph m :
  get k (rt_running m) = Some (JPlan n id a g raw, ph) → ph ≠ Ended → inv m → inv (model_found k key providerID modelID found a m).
Proof.
  intros Hk Hph Hi. unfold model_found. cbv zeta.
  assert (inv (set_phase k AwaitModel m)) as H0 by (by eapply (plan_phase_keeps ph AwaitModel m m); try done; intros [? ?]).
  destruct (num_prop _ _) as [context|]; [|done]. destruct (0 <? context); [|done]. set (m1 := set_rt_models _ m).
  assert (inv m1) as H1 by (by apply (data_keeps (rt_now m) _ (rt_snaps m) (rt_next m) m)).
  destruct (_ && _); [|by eapply (plan_phase_keeps ph AwaitModel m m1); try done; intros [? ?]].
  eapply (plan_phase_keeps ph AwaitModel m); [exact Hk|done|done|done|by intros [? ?]|]. apply state_keeps; [split; by auto|done].
Qed.

Lemma plan_resolved_keeps ph m :
  get k (rt_running m) = Some (JPlan n id a g raw, ph) → ph ≠ Ended → inv m → inv (plan_resolved sha256Hex opts projectId k id a g raw m).
Proof.
  intros Hk Hph Hi. pose proof (end_plan_keeps k n id a g raw ph m Hk Hph Hi) as He. unfold plan_resolved. cbv zeta.
  destruct (stale _ _ _); [done|]. destruct (usableBudget _) as [usable|]; [|done]. destruct (projectMessages _) as [projection|]; [|done].
  destruct (projectMessages _) as [projected|]; [|done]. destruct (below_trigger _ _ _); [done|]. destruct (bool_decide _); [done|].
  eapply (plan_phase_keeps ph AwaitPlan m); [exact Hk|done|done|done|by intros [? ?]|]. apply call_keeps; [done| |]; [|apply state_keeps; [split; by auto|done]].
  cbn [needs_on rq_enhance]. by intros [_ ?]%andb_true_iff.
Qed.

Lemma plan_answered_keeps ph plan m :
  get k (rt_running m) = Some (JPlan n id a g raw, ph) → ph ≠ Ended → inv m → inv (plan_answered k a g plan m).
Proof.
  intros Hk Hph Hi. unfold plan_answered. destruct (_ || _ || _); [by eapply end_plan_keeps|]. by eapply (plan_phase_keeps ph _ m m); try done; intros [? ?].
Qed.

Lemma plan_inspected_keeps ph plan safe m :
  get k (rt_running m) = Some (JPlan n id a g raw, ph) → ph ≠ Ended → inv m → inv (plan_inspected sha256Hex opts projectId k id a raw plan safe m).
Proof.
  intros Hk Hph Hi. assert (is_off opts = false) as Hoff by (by eapply (job_on k)). pose proof (end_plan_keeps k n id a g raw ph m Hk Hph Hi) as He. unfold plan_inspected. destruct safe; cbn [negb]; [|done].
  destruct (applies _ _ _ _); cbn [negb]; [|done]. case_bool_decide as Es; [done|].
  assert (is_on = true) as Hon by (unfold Runtime.is_on, is_off in *; destruct (mode_headroom opts); done).
  eapply (plan_phase_keeps ph _ m); [exact Hk|done|done|done|done|]. by apply call_keeps.
Qed.

Lemma plan_stored_keeps plan m :
  get k (rt_running m) = Some (JPlan n id a g raw, AwaitSetView plan) → inv m → inv (plan_stored sha256Hex opts ports projectId k n id a g plan m).
Proof.
  intros Hk Hi. unfold plan_stored. pose proof (set_view_on _ _ _ _ Hk Hi) as Hon. destruct (stale m (state_at a m) g) eqn:Es; [by eapply end_plan_keeps|].
  assert ((n, a, g) ∈ asks m) as Hask by (by eapply (job_in_asks k)).
  assert (inv (publish n a plan m)) as H1 by (apply publish_keeps; [by rewrite (stale_false _ _ _ Es)|done]).
  destruct (poll_keeps n id a plan g (publish n a plan m)) as [H2 Hg]; [done|done|done|]. eapply end_plan_keeps; [by apply (gw_running _ _ Hg)|done|done].
Qed.
End Plan.

Lemma job_event_keeps e k job ph m : get k (rt_running m) = Some (job, ph) → inv m → inv (job_event sha256Hex opts ports projectId e k job ph m).
Proof.
  intros Hk Hi. unfold job_event. destruct e; try done.
  - destruct job as [|n id a g|]; [destruct ph; try done|destruct ph; try done|done].
    + eapply phase_keeps; [exact Hk|by left|by intros [? ?]|done].
    + destruct ok; [by eapply end_hydrate_keeps|by eapply throw_hydrate_keeps].
  - destruct job as [|n id a g|]; [by destruct plan as [[?|]|]| |by destruct plan as [[?|]|]].
    destruct plan as [[plan|]|]; destruct ph; try done; [|by eapply end_hydrate_keeps|by eapply throw_hydrate_keeps].
    eapply phase_keeps; [exact Hk|by left|by intros [? ?]|done].
  - destruct job as [| |n id a g raw]; [done..|]. destruct ph; try done. destruct found as [found|]; [by eapply model_found_keeps|by eapply throw_plan_keeps].
  - destruct job as [| |n id a g raw]; [done..|]. destruct ph; try done. by eapply plan_resolved_keeps.
  - destruct job as [| |n id a g raw]; [done..|]. destruct ph; try done. destruct plan as [plan|]; [by eapply plan_answered_keeps|by eapply throw_plan_keeps].
  - destruct job as [|n id a g|n id a g raw]; [done| |]; destruct ph; try done.
    + destruct safe as [safe|]; [by eapply view_inspected_keeps|by eapply throw_hydrate_keeps].
    + destruct safe as [safe|]; [by eapply plan_inspected_keeps|by eapply throw_plan_keeps].
  - destruct job as [| |n id a g raw]; [done..|]. destruct ph; try done. destruct ok; [by eapply plan_stored_keeps|by eapply throw_plan_keeps].
Qed.

(** *** Turns of hooks *)

Lemma stateFor_cases id m (P : Runtime → Prop) (f : nat → Runtime → Runtime) :
  inv m → (∀ m', inv m' → P m') → (∀ a m', (a < rt_next m')%nat → inv m' → P (f a m')) →
  P (let '(m', found) := stateFor id m in match found with Some a => f a m' | None => m' end).
Proof.
  intros Hi H1 H2. pose proof (stateFor_keeps id m Hi) as H. destruct (stateFor id m) as [m' found]. destruct H as (Hi' & _ & Ha).
  destruct found as [a|]; [apply H2; [by apply Ha|done]|by apply H1].
Qed.

Lemma observeModel_keeps id model maxOutput m : inv m → inv (observeModel id model maxOutput m) ∧ grows m (observeModel id model maxOutput m).
Proof.
  intros Hi. unfold observeModel. pose proof (stateFor_keeps id m Hi) as H. destruct (stateFor id m) as [m' found]. destruct H as (Hi' & Hg & Ha).
  destruct found as [a|]; [|done]. destruct (rt_disposed m'); [done|]. cbv zeta.
  assert (inv (on_state a (λ s, set_ss_maxOutput match maxOutput with Some n => if 0 <=? n then Some n else None | None => None end (set_ss_model (Some model) s)) m')) as H1
    by (apply state_keeps; [split; by auto|done]).
  destruct (negb _); [|split; [done|]; eapply grows_trans; [exact Hg|by apply grows_same]].
  split; [apply invalidate_keeps, state_keeps; [split; by auto|done]|]. eapply grows_trans; [exact Hg|by apply grows_same].
Qed.

Lemma observeSystem_keeps id model system m : inv m → inv (observeSystem id model system m).
Proof.
  intros Hi. unfold observeSystem. apply stateFor_cases; [done|done|]. intros a m' _ Hi'. cbv zeta. apply state_keeps; [split; by auto|].
  destruct (_ || _); [by apply observeModel_keeps|done].
Qed.

Lemma hydrate_grows id a m : inv m → grows m (hydrate opts ports projectId id a m).
Proof.
  intros Hi. unfold hydrate. destruct (_ || _ || _); [apply grows_refl|]. cbv zeta. set (m1 := log _ _). set (job := JHydrate _ _ _ _).
  assert (grows m1 (enqueue job 0 m1).1) as Hg.
  { apply enqueue_grows. intros k Hk. apply (qo_fresh _ _ (iv_queue _ Hi)) in Hk. cbn. lia. }
  destruct (enqueue job 0 m1) as [m2 accepted]. cbn [fst] in Hg. apply (grows_trans _ m1); [by apply grows_same; [cbn; lia|]|].
  destruct accepted; [done|]. eapply grows_trans; [exact Hg|]. by apply grows_same.
Qed.

Lemma later_keeps w m : (waiting_addr w < rt_next m)%nat → inv m → inv (set_rt_waiting (rt_waiting m ++ [w]) m).
Proof.
  intros Hw Hi. apply waiting_keeps; [|done]. apply Forall_app. split; [apply (kn_waiting _ _ _ (iv_known _ Hi))|]. apply Forall_cons_2; [done|apply Forall_nil_2].
Qed.

Lemma quiet_model s0 : quiet (λ s, match ss_model s with None => set_ss_model s0 s | Some _ => s end).
Proof. split; intros s; destruct (ss_model s); by auto. Qed.
Lemma quiet_same f : (∀ s, ss_busy (f s) = ss_busy s ∧ ss_generation (f s) = ss_generation s ∧ ss_view (f s) = ss_view s) → quiet f.
Proof. intros H. split; intros s; destruct (H s) as (? & ? & ?); by auto. Qed.

(** The part of [transform] before a view is applied. *)
Lemma snapshot_keeps id a epoch messages m :
  (a < rt_next m)%nat → inv m →
  let m1 := set_rt_snaps (set_key (rt_next m) messages (rt_snaps m)) (set_rt_next (S (rt_next m)) m) in
  let m2 := on_state a (λ s, set_ss_snapshot (Some (rt_next m)) (set_ss_epoch (Some epoch) s)) m1 in
  let m3 := hydrate opts ports projectId id a (on_state a (λ s, match ss_model s with None => set_ss_model (inferred_model messages) s | Some _ => s end) m2) in
  inv m3 ∧ (a < rt_next m3)%nat.
Proof.
  intros Hlt Hi m1 m2 m3. assert (inv m1) as H1 by (apply (data_keeps (rt_now m) (rt_models m) _ (S (rt_next m)) m); [lia|done]).
  assert (inv m2) as H2 by (apply state_keeps; [by apply quiet_same|done]). assert (a < rt_next m2)%nat as Hlt2 by (cbn; lia). unfold m3.
  set (m4 := on_state a _ m2). assert (inv m4) as H4 by (apply state_keeps; [apply quiet_model|done]).
  split; [by apply hydrate_keeps|]. pose proof (gw_next _ _ (hydrate_grows id a m4 H4)) as Hn. change (rt_next m4) with (rt_next m2) in Hn. lia.
Qed.

Lemma transform_keeps id messages m : inv m → inv (transform sha256Hex opts ports projectId id messages m).1.
Proof.
  intros Hi. unfold transform. destruct (is_off opts); [done|]. destruct id as [id|]; [|done].
  pose proof (stateFor_keeps id m Hi) as H. destruct (stateFor id m) as [m0 found]. destruct H as (Hi0 & _ & Ha). destruct found as [a|]; [|done].
  specialize (Ha a eq_refl). cbv zeta. set (epoch := upstreamEpoch messages).
  set (m1 := if match ss_epoch (state_at a m0) with Some e => negb (jeqb e epoch) | None => false end then clearView opts ports projectId id a m0 else m0).
  assert (inv m1 ∧ (a < rt_next m1)%nat) as [H1 L1].
  { unfold m1. destruct (match ss_epoch _ with Some _ => _ | None => _ end); [|done]. destruct (clearView_keeps id a m0 Hi0) as [? [Hn _]]. split; [done|lia]. }
  destruct (snapshot_keeps id a epoch messages m1 L1 H1) as [H3 L3]. set (m3 := hydrate _ _ _ _ _ _) in *.
  destruct (ss_paused (state_at a m3)); [done|]. destruct (ss_view (state_at a m3)) as [view|]; [|by apply later_keeps].
  destruct is_on; [|by apply later_keeps]. destruct (applyView _ _ _ _) as [status messages']. cbn [fst].
  destruct (clearView_keeps id a m3 H3) as [H4 [L4 _]]. destruct status; apply later_keeps; try done; cbn [waiting_addr]; lia.
Qed.

Lemma idle_keeps id m : inv m → inv (idle opts ports projectId id m).
Proof. intros Hi. unfold idle. destruct (_ || _); [done|]. apply stateFor_cases; [done|done|]. intros a m' Ha Hi'. by apply schedule_keeps. Qed.

Lemma compacting_keeps id m : inv m → inv (compacting sha256Hex opts id m).1.
Proof.
  intros Hi. unfold compacting. pose proof (stateFor_keeps id m Hi) as H. destruct (stateFor id m) as [m' found]. destruct H as (Hi' & _ & _).
  destruct found as [a|]; [|done]. destruct (is_off opts); [done|]. cbv zeta. set (m1 := invalidate a _).
  assert (inv m1) as H1 by (apply invalidate_keeps, state_keeps; [by apply quiet_same|done]).
  destruct (ss_view _); [|done]. destruct (snapshot_of_state _ _); [|done]. by destruct (_ && _).
Qed.

Lemma dispose_all_keeps m : inv m → inv (dispose m).
Proof.
  intros Hi. unfold dispose. destruct (rt_disposed m); [done|]. cbv zeta. pose proof (dispose_keeps m Hi) as H. revert H.
  generalize (set_rt_queuedBytes 0 (set_rt_queue [] (set_rt_disposed true m))). intros m0. generalize (rt_sessions m0). intros l. revert m0.
  induction l as [|kv l IH]; intros m' H; [done|]. cbn [foldl]. by apply IH, invalidate_keeps.
Qed.

Lemma disposed_end_keeps m : inv m → inv (disposed m).
Proof. intros Hi. unfold disposed. destruct (rt_disposed m); [|done]. destruct (rt_running m); [|done]. destruct (rt_polls m); [|done]. by apply disposed_keeps. Qed.

Lemma session_event_keeps type o id a m : (a < rt_next m)%nat → inv m → inv (session_event opts ports projectId type o id a m).
Proof.
  intros Hlt Hi. unfold session_event. cbv zeta.
  assert (inv (clearView opts ports projectId id a (on_state a (λ s, set_ss_snapshot None (set_ss_paused false s)) m))) as H1.
  { apply clearView_keeps, state_keeps; [by apply quiet_same|exact Hi]. }
  pose proof (drop_keeps id _ (proj1 (clearView_keeps id a m Hi))) as H2.
  assert (inv (idle opts ports projectId id (on_state a (set_ss_paused false) m))) as H3 by (apply idle_keeps, state_keeps; [by apply quiet_same|exact Hi]).
  pose proof (schedule_keeps id a m Hlt Hi) as H4.
  destruct (jeqb type (js "session.compacted")); [exact H1|]. destruct (jeqb type (js "session.deleted")); [exact H2|].
  destruct (_ || _); [exact H3|]. destruct (_ && _); [exact H4|exact Hi].
Qed.

Lemma host_event_keeps type o m : inv m → inv (event sha256Hex opts ports projectId type o m).
Proof.
  intros Hi. unfold event. destruct (event_session type o) as [id|]; [|done]. apply stateFor_cases; [done|done|]. intros a m' Ha Hi'.
  destruct (negb _); [by apply session_event_keeps|]. cbv zeta. destruct (ss_snapshot _ ≫= _) as [[snap i]|]; [by apply later_keeps|].
  destruct (affects _ _); [apply clearView_keeps, state_keeps; [by apply quiet_same|done]|]. destruct (affects _ _); [apply invalidate_keeps, state_keeps; [by apply quiet_same|done]|].
  by apply session_event_keeps.
Qed.

Lemma continue_keeps filtered w m : (waiting_addr w < rt_next m)%nat → inv m → inv (continue opts ports projectId filtered w m).
Proof.
  intros Hw Hi. destruct w as [id a|id a snap i completed]; cbn [continue waiting_addr] in *; [by apply schedule_keeps|]. cbv zeta.
  set (m1 := set_rt_snaps _ m). assert (inv m1) as H1 by (by apply (data_keeps (rt_now m) (rt_models m) _ (rt_next m) m)).
  destruct completed; [by apply schedule_keeps|done].
Qed.

Lemma event_keeps m e : inv m → inv (apply_event sha256Hex opts ports projectId m e).
Proof.
  intros Hi. assert (∀ k, inv match get k (rt_running m) with Some (job, ph) => job_event sha256Hex opts ports projectId e k job ph m | None => m end) as Hj.
  { intros k. destruct (get k (rt_running m)) as [[job ph]|] eqn:E; [by apply job_event_keeps|done]. }
  assert (∀ k, inv match get k (rt_polls m) with Some p => poll_event sha256Hex opts projectId e k p m | None => m end) as Hp.
  { intros k. destruct (get k (rt_polls m)) as [p|] eqn:E; [by apply poll_event_keeps|done]. }
  destruct e; cbn [apply_event]; first [apply Hj|apply Hp|idtac].
  - by apply observeModel_keeps.
  - by apply observeSystem_keeps.
  - by apply transform_keeps.
  - destruct (rt_waiting m !! i) as [w|] eqn:Ew; [|done]. pose proof (kn_waiting _ _ _ (iv_known _ Hi)) as Hw. rewrite Forall_lookup in Hw.
    apply continue_keeps; [by apply (Hw i)|]. apply waiting_keeps; [|done]. apply list.Forall_delete, Forall_lookup. exact Hw.
  - by apply host_event_keeps.
  - by apply idle_keeps.
  - by apply compacting_keeps.
  - by apply dispose_all_keeps.
  - by apply disposed_end_keeps.
  - by apply (data_keeps (Z.max now (rt_now m)) (rt_models m) (rt_snaps m) (rt_next m) m).
  - by apply finish_keeps.
Qed.

Lemma new_runtime_inv : inv new_runtime.
Proof.
  assert (∀ a, state_at a new_runtime = new_session) as Hs by done. split.
  - split; try done; try apply NoDup_nil_2; try apply Forall_nil_2.
    + intros k [? ?]. done.
    + intros a H. by apply elem_of_nil in H.
    + intros a H. by apply elem_of_nil in H.
  - intros _ H; by destruct H.
  - split; try done; try apply NoDup_nil_2; try apply Forall_nil_2.
    + intros x H. by apply elem_of_nil in H.
    + intros n a H. by apply elem_of_nil in H.
    + intros x n a plan y E. by destruct x.
    + intros _. split_and!; [done| |done|apply Forall_nil_2]. intros id b H. by apply elem_of_nil in H.
Qed.

Lemma run_inv events : inv (run_events sha256Hex opts ports projectId events).
Proof.
  unfold run_events. generalize new_runtime_inv. generalize new_runtime. induction events as [|e events IH]; intros m Hi; [done|]. cbn [foldl]. by apply IH, event_keeps.
Qed.
End Keep.

(** ** What the runtime promises *)

Section Promises.
Context (sha256Hex : jstr → jstr) (opts : Options) (ports : Ports) (projectId : jstr).
Abbreviation run_events := (run_events sha256Hex opts ports projectId).

Lemma rounds_log m m' : rtc (pumped ports projectId) m m' → rt_log m `prefix_of` rt_log m'.
Proof.
  intros H. induction H as [|m1 m2 m3 H _ IH]; [done|]. destruct H as [job bytes rest _ _ _]. etrans; [|exact IH].
  destruct (start_job_started ports projectId (rt_next m1) job (popped bytes rest m1)) as [_ (calls & Hl & _) _ _]. cbn [popped set_rt_next set_rt_active set_rt_queuedBytes set_rt_queue rt_log] in Hl.
  by exists calls.
Qed.

Lemma clearView_log id a m : rt_log m `prefix_of` rt_log (clearView opts ports projectId id a m).
Proof.
  unfold clearView. cbv zeta. set (m1 := invalidate a _). assert (rt_log m `prefix_of` rt_log m1) as H by (by exists [LInvalidate a]).
  destruct (_ && _); [|done]. destruct (enqueue_cases ports projectId (JClear id) 0 m1) as [->|(-> & _)]; [done|]. etrans; [exact H|].
  exact (rounds_log _ _ (proj1 (pump_rounds ports projectId (pushed (JClear id) 0 m1)))).
Qed.

(** The messages that leave [transform]. *)
Lemma transform_output id messages m :
  inv opts m →
  let r := transform sha256Hex opts ports projectId id messages m in
  r.2 = messages ∨ is_on opts = true ∧ ∃ n a plan, LPublish n a plan ∈ rt_log r.1 ∧ r.2 = (applyView sha256Hex opts messages plan).2.
Proof.
  intros Hi. unfold transform. destruct (is_off opts); [by left|]. destruct id as [id|]; [|by left].
  pose proof (stateFor_keeps opts id m Hi) as H. destruct (stateFor id m) as [m0 found]. destruct H as (Hi0 & _ & Ha). destruct found as [a|]; [|by left].
  specialize (Ha a eq_refl). cbv zeta. set (epoch := upstreamEpoch messages).
  set (m1 := if match ss_epoch (state_at a m0) with Some e => negb (jeqb e epoch) | None => false end then clearView opts ports projectId id a m0 else m0).
  assert (inv opts m1 ∧ (a < rt_next m1)%nat) as [H1 L1].
  { unfold m1. destruct (match ss_epoch _ with Some _ => _ | None => _ end); [|done]. destruct (clearView_keeps opts ports projectId id a m0 Hi0) as [? [Hn _]]. split; [done|lia]. }
  destruct (snapshot_keeps opts ports projectId id a epoch messages m1 L1 H1) as [H3 _]. set (m3 := hydrate _ _ _ _ _ _) in *.
  destruct (ss_paused (state_at a m3)); [by left|]. destruct (ss_view (state_at a m3)) as [view|] eqn:Ev; [|by left].
  destruct (is_on opts) eqn:Eo; [|by left]. destruct (kn_views _ _ _ (iv_known _ _ H3) a view Ev) as [n Hn].
  destruct (applyView _ _ _ _) as [status messages'] eqn:Ea. right. split; [done|]. exists n, a, view. rewrite Ea. cbn [fst snd set_rt_waiting rt_log].
  split; [|done]. pose proof (clearView_log id a m3) as [l Hl]. destruct status; try done; by rewrite Hl, elem_of_app; left.
Qed.

(** C34: the daemon's work is bounded and no session is planned twice, in any
    order of hooks, promises and clock ticks.  The permit counter is the number
    of running jobs, at most two; queued and running jobs are at most 32; the
    byte account is the sum over the queue, at most 8 MiB; there are at most 64
    sessions; a permit is never idle while a job is queued, and after [dispose]
    nothing is queued.  At most one planning of a session is queued or running,
    and until [dispose] the session is [busy] exactly while there is one. *)
Theorem runtime_bounds events :
  let m := run_events events in
  rt_active m = zlen (rt_running m) ∧ rt_active m <= 2
  ∧ zlen (rt_queue m) + rt_active m <= QUEUE_CAP
  ∧ rt_queuedBytes m = zsum (map snd (rt_queue m)) ∧ 0 <= rt_queuedBytes m <= BYTES_CAP
  ∧ zlen (rt_sessions m) <= 64
  ∧ (rt_disposed m = true → rt_queue m = []) ∧ (rt_queue m = [] ∨ rt_active m = 2)
  ∧ NoDup (plans m) ∧ (∀ a, a ∈ plans m → ss_busy (state_at a m) = true)
  ∧ (rt_disposed m = false → ∀ a, ss_busy (state_at a m) = true → a ∈ plans m).
Proof.
  intros m. pose proof (run_inv opts ports projectId sha256Hex events) as Hi. fold m in Hi. destruct Hi as [[A1 A2 A3 A4 A5 A6 A7 _ _ A10 _ A12 A13] Hw Hk].
  rewrite app_nil_r in A10, A12, A13. split_and!; try done.
  - rewrite A4. clear -A5. induction A5 as [|x l]; [done|cbn [map]; rewrite zsum_cons; lia].
  - apply (kn_64 _ _ _ Hk).
  - destruct (rt_queue m) eqn:Eq; [by left|right]. destruct (rt_disposed m) eqn:Ed; [by specialize (A7 eq_refl)|].
    assert (2 <= rt_active m); [|lia]. apply Hw; [done|by rewrite Eq].
Qed.

(** C5: no stale plan is published.  Whenever a view is put in force for what
    was asked of a session (a planning, the hydration from the store, or the
    enhancement that follows a planning), it was asked before, and since then the
    session has not been invalidated: no edit or removal of a source message, no
    compaction, no new model, no cleared view, no [dispose] came between.  And
    every view in force was published so. *)
Theorem runtime_no_stale_plan events :
  let m := run_events events in
  (∀ before n a plan later, rt_log m = before ++ LPublish n a plan :: later →
     LAsk n a ∈ before ∧ ¬ ∃ x y z, before = x ++ LAsk n a :: y ++ LInvalidate a :: z)
  ∧ (∀ a plan, ss_view (state_at a m) = Some plan → ∃ n, LPublish n a plan ∈ rt_log m).
Proof. intros m. destruct (run_inv opts ports projectId sha256Hex events) as [_ _ Hk]. split; [apply (kn_fresh _ _ _ Hk)|apply (kn_views _ _ _ Hk)]. Qed.

(** C24: the messages of a request are what the host sent or a published view of
    them, and outside mode [on] the plugin leaves the conversation alone.  Outside [on],
    [transform] returns the messages it was given, [compacting] adds no text, and
    whatever happened, the daemon was never asked to store or to clear a view, to enhance, or for a
    candidate: the requests sent are those for the stored view, and compressions
    without enhancement (whose archive the daemon does keep).  In mode [on] the
    messages are unchanged, or the result of writing into them a plan that the log
    shows published. *)
Theorem runtime_shadow_inert events id messages :
  let m := run_events events in
  let '(m', output) := transform sha256Hex opts ports projectId id messages m in
  (output = messages ∨ ∃ n a plan, LPublish n a plan ∈ rt_log m' ∧ output = (applyView sha256Hex opts messages plan).2)
  ∧ (is_on opts = false → output = messages ∧ Forall (λ l, match l with
           | LSetView _ _ | LClearView _ | LGetCandidate _ _ _ _ => False
           | LCompress r => rq_enhance r = false
           | _ => True end) (rt_log m')
       ∧ ∀ session, (compacting sha256Hex opts session m).2 = None).
Proof.
  intros m. pose proof (run_inv opts ports projectId sha256Hex events) as Hi. fold m in Hi.
  pose proof (transform_output id messages m Hi) as Ho. pose proof (transform_keeps opts ports projectId sha256Hex id messages m Hi) as Hi'. cbv zeta in Ho.
  destruct (transform _ _ _ _ _ _ _) as [m' output]. cbn [fst snd] in *. split; [naive_solver|]. intros Hon. split_and!.
  - destruct Ho as [?|[? _]]; [done|congruence].
  - destruct (kn_on _ _ _ (iv_known _ _ Hi') Hon) as (_ & _ & _ & H). eapply Forall_impl; [exact H|]. by intros [].
  - intros session. unfold compacting. destruct (stateFor session m) as [m1 [a|]]; [|done]. destruct (is_off opts); [done|]. cbv zeta.
    destruct (ss_view _); [|done]. destruct (snapshot_of_state _ _); [|done]. by rewrite Hon.
Qed.
End Promises.

(** ** A planning *)

Definition demo_model : fields :=
  [(js "providerID", jstring "p"); (js "id", jstring "m"); (js "limit", JObj [(js "context", JNum (NInt 700)); (js "output", JNum (NInt 20))])].
Definition demo_opts (mode : Mode) : Options := mkOptions true mode None Layered 0 (f64 0) (f64 0) false 10000 true JNull.
Definition demo_ports : Ports := mkPorts true true true.
Definition demo_view : ViewPlan :=
  mkView {| hr_compacted := true; hr_operations := Some host_ops; hr_sourceSnapshot := Some (mkSnap [js "u1"; js "a1"] [demo_hash 48; demo_hash 48]);
            hr_sourceDigests := Some [demo_hash 48; demo_hash 48]; hr_epoch := Some []; hr_memory := None; hr_budgetExceeded := None;
            hr_historyHash := Some (demo_hash 97); hr_summary := None; hr_refs := []; hr_replacedMessageIds := [js "u1"; js "a1"];
            hr_rawTokens := 0; hr_summaryTokens := 0; hr_sourceTokensEst := 0; hr_evictedTokensEst := 0; hr_retainedTokensEst := 0;
            hr_replacementTokensEst := 0; hr_finalTokensEst := 0; hr_freedTokens := 0 |} (Some Layered) None None.
Abbreviation demo_run mode events := (run_events host_sha (demo_opts mode) demo_ports (js "P") events).
(** A model and messages are seen, the store has no view, and an idle session is
    planned as job 5: its plan is inspected and stored. *)
Definition asked : list Event :=
  [EvModel (js "s") demo_model None; EvTransform (Some (js "s")) demo_hosts; EvContinue 0 []; EvView 3 (Some None); EvFinish 3;
   EvResolved 5; EvPlan 5 (Some demo_view); EvInspected 5 (Some true)].
Definition answered : list Event := [EvStored 5 true; EvFinish 5].
(** Meanwhile a source message is edited. *)
Definition edited : Event := EvHost (js "message.part.updated") [(js "part", JObj [(js "sessionID", jstring "s"); (js "messageID", jstring "u1")])].

Definition published (m : Runtime) : list (nat * nat) := omap (λ l, match l with LPublish n a _ => Some (n, a) | _ => None end) (rt_log m).

(** The plan is published and written into the next request; it is dropped when
    a source was edited while the daemon worked; in shadow mode it is not even stored. *)
Example planning_ex :
  published (demo_run Mon (asked ++ answered)) = [(4%nat, O)]
  ∧ (transform host_sha (demo_opts Mon) demo_ports (js "P") (Some (js "s")) demo_hosts (demo_run Mon (asked ++ answered))).2 = demo_applied
  ∧ published (demo_run Mon (asked ++ [edited] ++ answered)) = []
  ∧ (transform host_sha (demo_opts Mon) demo_ports (js "P") (Some (js "s")) demo_hosts (demo_run Mon (asked ++ [edited] ++ answered))).2 = demo_hosts
  ∧ published (demo_run Mshadow (asked ++ answered)) = [].
Proof. vm_compute. auto. Qed.

Lemma runtime_no_stale_plan_witness :
  ∃ before plan later, rt_log (demo_run Mon (asked ++ answered)) = before ++ LPublish 4 0 plan :: later ∧ LAsk 4 0 ∈ before.
Proof.
  set (l := rt_log (demo_run Mon (asked ++ answered))).
  assert (l = take 6 l ++ LPublish 4 0 demo_view :: drop 7 l) as E by (vm_compute; reflexivity).
  exists (take 6 l), demo_view, (drop 7 l). split; [exact E|].
  exact (proj1 (proj1 (runtime_no_stale_plan host_sha (demo_opts Mon) demo_ports (js "P") (asked ++ answered)) _ _ _ _ _ E)).
Defined.
