(* ===== verification/Guard.v ===== *)
(** * The security guard of the plugin ([packages/plugin/src/security.ts])

    [strings] sends texts to the scanner in bounded batches; [before] asks for a
    decision on a tool call and blocks it.  The scanner is a sidecar behind the
    port: what it answers to the [n]-th batch is [sanitize n], [None] when there is
    no port or its promise rejects.  The field filter is in [GuardFilter]. *)

From stdpp Require Import base tactics list numbers option sets strings.
From S2P Require Import Prelude JsString JsRegex Json OMap Chat Objects Credentials Security.

Definition WITHHELD : jstr := js "[VSecAgent: security inspection unavailable; content withheld]".

Inductive SecurityMode : Type := SmOff | SmAudit | SmEnforce.
#[export] Instance SecurityMode_dec : EqDecision SecurityMode.
Proof. solve_decision. Defined.
Record Stats := mkStats { gs_scans : nat; gs_denied : nat; gs_warned : nat; gs_unavailable : nat; gs_withheld : nat; gs_redactions : nat }.
Definition zero_stats : Stats := mkStats 0 0 0 0 0 0.

(** An answer of the port; a field need not be a string. *)
Record Response := mkResponse { re_fields : list json; re_redactions : nat; re_coverage : Coverage }.

Definition FIELD_BYTES : Z := 1024 * 1024.
Definition BATCH_BYTES : Z := 2 * 1024 * 1024.

(** The inner loop: how many texts it withholds, the batch, what is left. *)
Fixpoint fill (values batch : list jstr) (bytes : Z) : nat * list jstr * list jstr :=
  match values with
  | [] => (O, batch, [])
  | value :: rest =>
    if (64 <=? length batch)%nat then (O, batch, values) else
    let size := byte_length value in
    if FIELD_BYTES <? size then
      match batch with
      | [] => let '(n, batch, rest) := fill rest [] bytes in (S n, batch, rest)
      | _ => (O, batch, values)
      end
    else if negb (bool_decide (batch = [])) && (BATCH_BYTES <? bytes + size) then (O, batch, values)
    else fill rest (batch ++ [value]) (bytes + size)
  end.

Section Strings.
Context (sanitize : nat → list jstr → option Response).

(** A response counts when it is complete and has a string for every text. *)
Definition accept (batch : list jstr) (response : option Response) : option (list jstr * nat) :=
  r ← response;
  if negb (bool_decide (re_coverage r = CvComplete)) || negb (length (re_fields r) =? length batch)%nat then None
  else texts ← mapM str_of (re_fields r); Some (texts, re_redactions r).

Fixpoint strings_loop (fuel n : nat) (values result : list jstr) (st : Stats) : option (list jstr * Stats) :=
  match values with
  | [] => Some (result, st)
  | _ =>
    match fuel with
    | O => None
    | S fuel =>
      let '(k, batch, rest) := fill values [] 0 in
      let result := result ++ replicate k WITHHELD in
      let st := mkStats (gs_scans st) (gs_denied st) (gs_warned st) (gs_unavailable st) (gs_withheld st + k) (gs_redactions st) in
      match batch with
      | [] => strings_loop fuel n rest result st
      | _ =>
        match accept batch (sanitize n batch) with
        | Some (texts, redactions) =>
          strings_loop fuel (S n) rest (result ++ texts)
            (mkStats (gs_scans st) (gs_denied st) (gs_warned st) (gs_unavailable st) (gs_withheld st) (gs_redactions st + redactions))
        | None =>
          strings_loop fuel (S n) rest (result ++ map (λ _, WITHHELD) batch)
            (mkStats (gs_scans st) (gs_denied st) (gs_warned st) (S (gs_unavailable st)) (gs_withheld st + length batch) (gs_redactions st))
        end
      end
    end
  end.
(** Every round takes a text. *)
Definition strings (enabled : bool) (values : list jstr) (st : Stats) : option (list jstr * Stats) :=
  if negb enabled then Some (values, st) else strings_loop (length values) 0 values [] st.
End Strings.

(** ** Tool calls *)

Inductive ToolKind : Type := TkRead | TkWrite | TkExecute | TkUnknown.
#[export] Instance ToolKind_dec : EqDecision ToolKind.
Proof. solve_decision. Defined.
(** [security-tools.ts]; a mapped operation of the policy. *)
Definition kind_of_operation (o : Operation) : ToolKind :=
  match o with OpRead => TkRead | OpWrite | OpDelete => TkWrite | OpExecute => TkExecute | OpUnknown => TkUnknown end.
Definition toolOperation (tool : jstr) (policy : SecurityPolicy) : ToolKind :=
  if bool_decide (tool ∈ [js "read"; js "glob"; js "grep"; js "ls"; js "headroom_retrieve"; js "list_mcp_resources"; js "read_mcp_resource"]) then TkRead
  else if bool_decide (tool ∈ [js "write"; js "edit"; js "apply_patch"]) then TkWrite
  else if bool_decide (tool ∈ [js "bash"; js "shell"; js "task"; js "code"]) then TkExecute
  else match get tool (pl_mcpTools policy) with Some m => kind_of_operation (tm_operation m) | None => TkUnknown end.

Record Guard := mkGuard { gd_stats : Stats; gd_pending : list (jstr * SecurityDecision) }.
Definition pending_key (sessionID callID : jstr) : jstr := stringify (JArr [JStr sessionID; JStr callID]).
Definition unavailable_decision (policy : SecurityPolicy) : SecurityDecision := mkDecision Unavailable CvUnsupported [] (pl_version policy) [js "scanner_unavailable"].

(** The outcome of [before]: the call goes on, or [SecurityBlockedError] is thrown. *)
Inductive Verdict : Type := Proceeds | Blocked.

(** [before] once the scanner has answered; [None] when anything threw.  [asked] tells
    whether the port was called. *)
Definition before (mode : SecurityMode) (policy : SecurityPolicy) (tool sessionID callID : jstr) (asked : bool) (answer : option SecurityDecision) (g : Guard) : Guard * Verdict :=
  if bool_decide (mode = SmOff) then (g, Proceeds) else
  let st := gd_stats g in
  let st := mkStats (if asked then S (gs_scans st) else gs_scans st) (gs_denied st) (gs_warned st)
              (match answer with None => S (gs_unavailable st) | _ => gs_unavailable st end) (gs_withheld st) (gs_redactions st) in
  let decision := default (unavailable_decision policy) answer in
  let pending := if (256 <=? length (gd_pending g))%nat then tail (gd_pending g) else gd_pending g in
  let key := pending_key sessionID callID in
  let pending := set_key key decision pending in
  let denied := bool_decide (dc_decision decision = Deny) || bool_decide (dc_decision decision = Unavailable) && negb (bool_decide (toolOperation tool policy = TkRead)) in
  if denied && bool_decide (mode = SmEnforce) then
    (mkGuard (mkStats (gs_scans st) (S (gs_denied st)) (gs_warned st) (gs_unavailable st) (gs_withheld st) (gs_redactions st)) (delete_key key pending), Blocked)
  else
    (mkGuard (if bool_decide (dc_decision decision = Allow) then st
              else mkStats (gs_scans st) (gs_denied st) (S (gs_warned st)) (gs_unavailable st) (gs_withheld st) (gs_redactions st)) pending, Proceeds).

(** [clearSession] drops what is pending for a session. *)
Definition session_of_key (key : jstr) : option jstr := match parse key with Some (JArr (JStr s :: _)) => Some s | _ => None end.
Definition clearSession (sessionId : jstr) (g : Guard) : Guard :=
  mkGuard (gd_stats g) (List.filter (λ kv, negb (bool_decide (session_of_key kv.1 = Some sessionId))) (gd_pending g)).

(** [after] takes the decision of its call. *)
Definition take_decision (sessionID callID : jstr) (g : Guard) : Guard * option SecurityDecision :=
  let key := pending_key sessionID callID in (mkGuard (gd_stats g) (delete_key key (gd_pending g)), get key (gd_pending g)).

(** The parameters of a batch, as the port sends them to the scanner. *)
Definition sanitize_params (namespace : Namespace) (policy : json) (batch : list jstr) : json :=
  JObj [(js "namespace", JObj [(js "projectId", JStr (projectId namespace)); (js "sessionId", JStr (sessionId namespace))]);
        (js "fields", JArr (map JStr batch)); (js "policy", policy)].
(** A port straight to [sanitizeFields]. *)
Definition scanner_port (iso_datetime : jstr → bool) (namespace : Namespace) (policy : json) (n : nat) (batch : list jstr) : option Response :=
  let r := sanitizeFields iso_datetime (sanitize_params namespace policy batch) in
  Some (mkResponse (map JStr (sr_fields r)) (sr_redactions r) (sr_coverage r)).

(** ** Batches *)

Definition batch_bytes (batch : list jstr) : Z := zsum (map byte_length batch).
Definition batch_ok (batch : list jstr) : Prop := (length batch <= 64)%nat ∧ batch_bytes batch <= BATCH_BYTES.

Record filled (values batch : list jstr) (k : nat) (b rest : list jstr) : Prop := {
  fi_parts : ∃ big taken, values = big ++ taken ++ rest ∧ b = batch ++ taken ∧ length big = k;
  fi_ok : batch_ok b;
  fi_first : batch ≠ [] → k = O;
  fi_progress : batch = [] → values ≠ [] → (length rest < length values)%nat;
  fi_empty : b = [] → rest = [] }.

Lemma fill_spec values : ∀ batch bytes,
  batch_ok batch → bytes = batch_bytes batch → let '(k, b, rest) := fill values batch bytes in filled values batch k b rest.
Proof.
  induction values as [|value rest IH]; intros batch bytes Hok Hb; cbn [fill].
  { split; [exists [], []; split_and!; [done|by rewrite app_nil_r|done]|done|done|done|done]. }
  assert ((1 <= length batch)%nat → filled (value :: rest) batch O batch (value :: rest)) as Hstop.
  { intros H. split; [exists [], []; split_and!; [done|by rewrite app_nil_r|done]|done|done|intros ->; cbn in H; lia|intros ->; cbn in H; lia]. }
  destruct (64 <=? length batch)%nat eqn:E64; [apply Nat.leb_le in E64; apply Hstop; lia|]. apply Nat.leb_gt in E64. cbv zeta.
  destruct (FIELD_BYTES <? byte_length value) eqn:Ebig.
  - destruct batch as [|x batch]; [|apply Hstop; cbn; lia]. pose proof (IH [] bytes Hok Hb) as H. destruct (fill rest [] bytes) as [[n b] rest'].
    destruct H as [(big & taken & E & E' & E'') H1 _ _ H3]. split; [exists (value :: big), taken; split_and!; [by rewrite E|done|cbn; by rewrite E'']|done|done| |done].
    intros _ _. rewrite E. cbn [length]. rewrite !length_app. lia.
  - destruct (negb _ && _) eqn:Efull; [apply andb_true_iff in Efull as [Efull _]; apply Hstop; destruct batch; [done|cbn; lia]|].
    pose proof (byte_length_nonneg value) as Hpos.
    assert (batch_bytes (batch ++ [value]) = batch_bytes batch + byte_length value) as Hbytes.
    { unfold batch_bytes. rewrite map_app, zsum_app. cbn [map]. rewrite zsum_cons. cbn. lia. }
    assert (batch_ok (batch ++ [value])) as Hok'.
    { unfold batch_ok. rewrite Hbytes, length_app. cbn [length]. split; [lia|]. apply andb_false_iff in Efull as [Efull|Efull]; [|lia].
      destruct batch; [|done]. unfold FIELD_BYTES, BATCH_BYTES in *. change (batch_bytes []) with 0. lia. }
    pose proof (IH (batch ++ [value]) (bytes + byte_length value) Hok') as H. destruct (fill rest _ _) as [[k b] rest'].
    destruct H as [(big & taken & E & E' & E'') H1 H2 _ H3]; [by subst bytes|]. assert (big = []) as ->.
    { destruct big; [done|]. rewrite H2 in E''; [done|by destruct batch]. }
    cbn [app length] in E, E''. split; [exists [], (value :: taken); split_and!; [by rewrite E|by rewrite E', <- app_assoc|done]|done|done| |done].
    intros _ _. rewrite E. cbn [length]. rewrite length_app. lia.
Qed.

(** ** What comes out *)

Section Outcome.
Context (sanitize : nat → list jstr → option Response).

(** [out] stands for [value]: it is withheld, or the field a complete response has for it. *)
Definition inspected (value out : jstr) : Prop :=
  out = WITHHELD ∨ ∃ n batch r j, sanitize n batch = Some r ∧ batch_ok batch ∧ re_coverage r = CvComplete ∧ length (re_fields r) = length batch
    ∧ batch !! j = Some value ∧ re_fields r !! j = Some (JStr out).

Lemma mapM_str_of l texts : mapM str_of l = Some texts → l = map JStr texts.
Proof.
  revert texts. induction l as [|v l IH]; intros texts; cbn [mapM]; [by intros [= <-]|]. destruct v; try done. cbn [str_of mbind option_bind].
  destruct (mapM str_of l) as [ts|]; [|done]. cbn. intros [= <-]. cbn [map]. by rewrite (IH ts).
Qed.

Lemma accept_inspected n batch texts redactions :
  batch_ok batch → accept batch (sanitize n batch) = Some (texts, redactions) → Forall2 inspected batch texts.
Proof.
  intros Hok. unfold accept. destruct (sanitize n batch) as [r|] eqn:E; [|done]. cbn [mbind option_bind].
  destruct (negb _ || _) eqn:Ec; [done|]. apply orb_false_iff in Ec as [Ec El]. apply negb_false_iff, bool_decide_eq_true in Ec. apply negb_false_iff, Nat.eqb_eq in El.
  destruct (mapM str_of (re_fields r)) as [ts|] eqn:Em; [|done]. cbn. intros [= <- <-]. apply mapM_str_of in Em.
  apply Forall2_same_length_lookup. rewrite Em, length_map in El. split; [done|]. intros j v t Hv Ht. right. exists n, batch, r, j.
  split; [done|]. split; [done|]. split; [done|]. rewrite Em, length_map. split; [done|]. split; [done|]. by rewrite list_lookup_fmap, Ht.
Qed.

Lemma withheld_inspected (values outs : list jstr) : length outs = length values → Forall (λ o, o = WITHHELD) outs → Forall2 inspected values outs.
Proof.
  revert outs. induction values as [|v values IH]; intros [|o outs]; cbn [length]; try done. intros Hl [Ho Hos]%Forall_cons. constructor; [by left|by apply IH; [lia|]].
Qed.

Lemma strings_loop_inspected fuel : ∀ n values result st,
  (length values <= fuel)%nat → ∃ out st', strings_loop sanitize fuel n values result st = Some (result ++ out, st') ∧ Forall2 inspected values out.
Proof.
  induction fuel as [|fuel IH]; intros n [|v values] result st Hf; try (exists [], st; split; [cbn; by rewrite app_nil_r|constructor]); [cbn in Hf; lia|].
  cbn [strings_loop]. pose proof (fill_spec (v :: values) [] 0 ltac:(split; cbn; unfold BATCH_BYTES; lia) eq_refl) as H.
  destruct (fill (v :: values) [] 0) as [[k batch] rest]. destruct H as [(big & taken & E & -> & Hk) Hok _ Hprog Hempty]. cbn [app] in *.
  specialize (Hprog eq_refl ltac:(done)). assert (length rest <= fuel)%nat as Hrest by (cbn [length] in *; lia).
  assert (Forall2 inspected big (replicate k WITHHELD)) as Hbig.
  { apply withheld_inspected; [by rewrite length_replicate|]. apply Forall_forall. by intros o [-> _]%elem_of_replicate. }
  rewrite E. destruct taken as [|t taken].
  - cbv zeta. edestruct (IH n rest) as (out & st' & -> & Hout); [done|]. exists (replicate k WITHHELD ++ out), st'. split; [by rewrite app_assoc|]. by apply Forall2_app.
  - cbv zeta. destruct (accept (t :: taken) (sanitize n (t :: taken))) as [[texts redactions]|] eqn:Ea.
    + edestruct (IH (S n) rest) as (out & st' & -> & Hout); [done|]. exists (replicate k WITHHELD ++ texts ++ out), st'. split; [by rewrite !app_assoc|].
      apply Forall2_app; [done|]. apply Forall2_app; [by eapply accept_inspected|done].
    + edestruct (IH (S n) rest) as (out & st' & -> & Hout); [done|]. exists (replicate k WITHHELD ++ map (λ _, WITHHELD) (t :: taken) ++ out), st'. split; [by rewrite !app_assoc|].
      apply Forall2_app; [done|]. apply Forall2_app; [|done]. apply withheld_inspected; [by rewrite length_map|]. apply Forall_forall. by intros o (? & -> & _)%list_elem_of_fmap.
Qed.
End Outcome.

Lemma text_of_str x y : text_of (JStr x) = Some y → y = x.
Proof. unfold text_of, check. cbn [str_of mbind option_bind]. destruct (_ && _); [by intros [= ->]|done]. Qed.

Lemma arr_of_texts batch texts : array text_of 1024 (JArr (map JStr batch)) = Some texts → texts = batch.
Proof.
  unfold array, check, arr_of. destruct (mapM text_of (map JStr batch)) as [ts|] eqn:E; [|done]. cbn [mbind option_bind]. destruct (_ <=? _)%nat; [|done]. intros [= <-].
  revert ts E. induction batch as [|x batch IH]; intros ts; cbn [map mapM]; [by intros [= <-]|]. destruct (text_of (JStr x)) as [y|] eqn:Ey; [|done].
  cbn [mbind option_bind]. destruct (mapM text_of (map JStr batch)) as [ts'|]; [|done]. cbn. intros [= <-]. by rewrite (IH ts'), (text_of_str _ _ Ey).
Qed.

Lemma scanner_redacts iso_datetime namespace policy n batch r :
  scanner_port iso_datetime namespace policy n batch = Some r → re_coverage r = CvComplete → re_fields r = map (λ x, JStr (redact x).1) batch.
Proof.
  unfold scanner_port. cbv zeta. intros [= <-]. cbn [re_coverage re_fields]. unfold sanitizeFields. cbv zeta.
  destruct (sanitize_of iso_datetime (sanitize_params namespace policy batch)) as [p|] eqn:E; [|done]. destruct (texts _); [|done]. intros _. cbn [sr_fields].
  assert (sn_fields p = batch) as ->; [|by rewrite !map_map].
  unfold sanitize_of, sanitize_params in E. cbn [fields_of mbind option_bind] in E.
  destruct (req _ namespace_of _) as [ns|]; [|done]. cbn [mbind option_bind] in E. destruct (req _ (array text_of 1024) _) as [ts|] eqn:Et; [|done].
  cbn [mbind option_bind] in E. destruct (req _ (policy_of iso_datetime) _) as [pl|]; [|done]. cbn in E. injection E as <-. cbn [sn_fields]. apply arr_of_texts.
  rewrite <- Et. reflexivity.
Qed.

(** C16: no text leaves the guard uninspected.  Whatever the scanner answers to
    each batch, or fails to, [strings] returns as many texts as it was given, each of
    them the withheld notice or the field that a complete response of the right
    length has for that very text, in a batch of at most 64 texts and 2 MiB; so when the
    scanner is [sanitizeFields], every text comes out redacted or withheld. *)
Theorem guard_fail_closed sanitize values st :
  ∃ out st', strings sanitize true values st = Some (out, st') ∧ Forall2 (inspected sanitize) values out
  ∧ ∀ iso_datetime namespace policy, sanitize = scanner_port iso_datetime namespace policy →
      Forall2 (λ value o, o = WITHHELD ∨ o = (redact value).1) values out.
Proof.
  unfold strings. cbn [negb]. destruct (strings_loop_inspected sanitize (length values) 0 values [] st) as (out & st' & E & H); [done|].
  exists out, st'. split; [exact E|]. split; [done|]. intros iso_datetime namespace policy ->. eapply Forall2_impl; [exact H|].
  intros value o [?|(n & batch & r & j & Hr & _ & Hc & _ & Hv & Ho)]; [by left|right]. rewrite (scanner_redacts _ _ _ _ _ _ Hr Hc) in Ho.
  rewrite list_lookup_fmap, Hv in Ho. by injection Ho as Ho.
Qed.

(** ** Blocking *)

Definition refused (policy : SecurityPolicy) (tool : jstr) (answer : option SecurityDecision) : bool :=
  match answer with
  | Some d => bool_decide (dc_decision d = Deny) || bool_decide (dc_decision d = Unavailable) && negb (bool_decide (toolOperation tool policy = TkRead))
  | None => negb (bool_decide (toolOperation tool policy = TkRead))
  end.

(** An enforcing guard blocks what is denied, and every call but a read when the
    scanner is absent or fails; otherwise, and in audit mode always, the
    call goes on and its decision is kept for [after].  At most 256 decisions are
    kept, a blocked call keeps none, and the decision a call finds is its own. *)
Theorem guard_blocks mode policy tool sessionID callID asked answer g :
  mode ≠ SmOff → (length (gd_pending g) <= 256)%nat →
  let '(g', verdict) := before mode policy tool sessionID callID asked answer g in
  (verdict = Blocked ↔ mode = SmEnforce ∧ refused policy tool answer = true)
  ∧ (length (gd_pending g') <= 256)%nat
  ∧ get (pending_key sessionID callID) (gd_pending g') = match verdict with Blocked => None | Proceeds => Some (default (unavailable_decision policy) answer) end
  ∧ gs_denied (gd_stats g') = (gs_denied (gd_stats g) + match verdict with Blocked => 1 | Proceeds => 0 end)%nat.
Proof.
  intros Hm Hl. unfold before. rewrite bool_decide_false by done. cbv zeta. set (decision := default _ answer). set (pending := if (256 <=? _)%nat then _ else _).
  assert (length pending <= 255)%nat as Hp.
  { unfold pending. destruct (256 <=? length (gd_pending g))%nat eqn:E; [apply Nat.leb_le in E; rewrite length_tl; lia|apply Nat.leb_gt in E; lia]. }
  set (key := pending_key sessionID callID). assert (length (set_key key decision pending) <= 256)%nat as Hset.
  { pose proof (size_set key decision pending) as H. destruct (has key pending); lia. }
  assert (refused policy tool answer = bool_decide (dc_decision decision = Deny) || bool_decide (dc_decision decision = Unavailable) && negb (bool_decide (toolOperation tool policy = TkRead))) as ->.
  { unfold refused, decision. by destruct answer. }
  destruct (_ || _) eqn:Ed; cbn [andb].
  - destruct (bool_decide (mode = SmEnforce)) eqn:Ee.
    + apply bool_decide_eq_true in Ee. cbn [gd_pending gd_stats gs_denied]. split_and!; [done| |apply get_delete_eq|lia].
      pose proof (size_delete key (set_key key decision pending)). lia.
    + apply bool_decide_eq_false in Ee. cbn [gd_pending gd_stats]. split_and!; [split; [done|by intros [? _]]|done|apply get_set_eq|]. rewrite Nat.add_0_r. by destruct (bool_decide (dc_decision decision = Allow)).
  - cbn [gd_pending gd_stats]. split_and!; [split; [done|by intros [_ ?]]|done|apply get_set_eq|]. rewrite Nat.add_0_r. by destruct (bool_decide (dc_decision decision = Allow)).
Qed.

Lemma guard_blocks_witness :
  (before SmEnforce (mkPolicy [] [] [] []) (js "bash") (js "s") (js "c") false None (mkGuard zero_stats [])).2 = Blocked.
Proof.
  pose proof (guard_blocks SmEnforce (mkPolicy [] [] [] []) (js "bash") (js "s") (js "c") false None (mkGuard zero_stats []) ltac:(done) ltac:(cbn; lia)) as H.
  destruct (before _ _ _ _ _ _ _ _) as [g' verdict]. destruct H as [H _]. apply H. split; [reflexivity|vm_compute; reflexivity].
Defined.

Definition demo_port : nat → list jstr → option Response := scanner_port (λ _, true) (mkNs (js "p") (js "s")) (JObj []).
(** A long key value is masked; when the port is gone the text is withheld. *)
Example strings_ex :
  fst <$> strings demo_port true [js "token: abcdefgh1"; js "plain"] zero_stats = Some [js "token: [REDACTED]"; js "plain"]
  ∧ fst <$> strings (λ _ _, None) true [js "plain"] zero_stats = Some [WITHHELD].
Proof. vm_compute. auto. Qed.
