(* ===== verification/Vsec.v ===== *)
(** * The security sidecar ([packages/vsecagent/src/engine.ts, cache.ts, adapters.ts, protocol.ts])

    One engine serves the requests of its process one after the other: it checks
    the parameters, answers from a bounded cache or runs the local scanner
    ([Security]) and an optional external adapter, and checks the result.  The
    clock is read where the code reads it: a request comes with its readings, and
    each of its evaluations with the readings of that evaluation.  What
    an adapter answers, and whether the audit file can be written, are part of the
    request too. *)

From stdpp Require Import base tactics list numbers option sets strings.
From S2P Require Import Prelude JsString JsRegex Json OMap Codec CLine Chat Objects Cas RtkWire Credentials Security.

(** ** Results and their schemas ([packages/contracts/src/security.ts]) *)

Record Location := mkLocation { lo_path : option jstr; lo_line : option Z; lo_column : option Z }.
Record Finding := mkFinding {
  fi_ruleId : jstr; fi_category : Category; fi_severity : Severity; fi_confidence : Severity; fi_message : jstr; fi_remediation : jstr;
  fi_location : option Location }.
Record ScanDecision := mkScanDecision {
  sd_decision : Decision; sd_coverage : Coverage; sd_findings : list Finding; sd_policyVersion : jstr; sd_diagnostics : list jstr }.
Inductive ScanResult : Type := ScDecision (d : ScanDecision) | ScSanitized (r : SanitizeResult).

(** What the local scanner finds always has a line and a column. *)
Definition finding_of_local (f : SecurityFinding) : Finding :=
  mkFinding (fd_ruleId f) (fd_category f) (fd_severity f) (fd_confidence f) (fd_message f) (fd_remediation f)
    (Some (mkLocation (fd_path f) (Some (fd_line f)) (Some (fd_column f)))).
Definition decision_of_local (d : SecurityDecision) : ScanDecision :=
  mkScanDecision (dc_decision d) (dc_coverage d) (map finding_of_local (dc_findings d)) (dc_policyVersion d) (dc_diagnostics d).

Definition ALL_CATEGORIES : list Category := [CCredential; CCommand; CSensitive; CTraversal; CDynamic; CSql; CXss; CCrypto].
Definition severity_name (s : Severity) : jstr := match s with SvCritical => js "critical" | SvHigh => js "high" | SvMedium => js "medium" | SvLow => js "low" end.
Definition decision_name (d : Decision) : jstr := match d with Allow => js "allow" | Warn => js "warn" | Deny => js "deny" | Unavailable => js "unavailable" end.
Definition coverage_name (c : Coverage) : jstr := match c with CvComplete => js "complete" | CvPartial => js "partial" | CvUnsupported => js "unsupported" end.
Definition named {A} (name : A → jstr) (all : list A) : list (jstr * A) := map (λ a, (name a, a)) all.

Definition categorySchema : json → option Category := one_of (named category_name ALL_CATEGORIES).
Definition severitySchema : json → option Severity := one_of (named severity_name [SvCritical; SvHigh; SvMedium; SvLow]).
Definition confidenceSchema : json → option Severity := one_of (named severity_name [SvHigh; SvMedium; SvLow]).
Definition decisionSchema : json → option Decision := one_of (named decision_name [Allow; Warn; Deny; Unavailable]).
Definition coverageSchema : json → option Coverage := one_of (named coverage_name [CvComplete; CvPartial; CvUnsupported]).
Definition short_of (max : nat) (v : json) : option jstr := check (λ s, (length s <=? max)%nat) (str_of v).
(** [z.number().int().nonnegative()]; -0 counts as 0. *)
Definition count_of (v : json) : option nat :=
  match v with JNum (NInt n) => if is_safe_integer n && (0 <=? n) then Some (Z.to_nat n) else None | JNum NNegZero => Some O | _ => None end.

Definition location_of (v : json) : option Location :=
  l ← fields_of v; path ← opt (js "path") path_of l; line ← opt (js "line") positive_of l; column ← opt (js "column") positive_of l;
  Some (mkLocation path line column).
Definition securityFindingSchema (v : json) : option Finding :=
  l ← fields_of v;
  ruleId ← req (js "ruleId") identifier l; category ← req (js "category") categorySchema l; severity ← req (js "severity") severitySchema l;
  confidence ← req (js "confidence") confidenceSchema l; message ← req (js "message") (short_of 2048) l;
  remediation ← req (js "remediation") (short_of 2048) l; location ← opt (js "location") location_of l;
  Some (mkFinding ruleId category severity confidence message remediation location).
Definition securityDecisionSchema (v : json) : option ScanDecision :=
  l ← fields_of v;
  decision ← req (js "decision") decisionSchema l; coverage ← req (js "coverage") coverageSchema l;
  findings ← req (js "findings") (array securityFindingSchema 4096) l; policyVersion ← req (js "policyVersion") identifier l;
  diagnostics ← req (js "diagnostics") (array (short_of 512) 256) l;
  Some (mkScanDecision decision coverage findings policyVersion diagnostics).
Definition securitySanitizeResultSchema (v : json) : option SanitizeResult :=
  l ← fields_of v;
  fields ← req (js "fields") (array text_of 1024) l; redactions ← req (js "redactions") count_of l;
  coverage ← req (js "coverage") coverageSchema l; policyVersion ← req (js "policyVersion") identifier l;
  Some (mkSanitized fields redactions coverage policyVersion).

Definition json_of_location (l : Location) : json :=
  JObj (opt_field (js "path") JStr (lo_path l) ++ opt_field (js "line") (λ n, JNum (NInt n)) (lo_line l) ++ opt_field (js "column") (λ n, JNum (NInt n)) (lo_column l)).
Definition json_of_finding (f : Finding) : json :=
  JObj ([(js "ruleId", JStr (fi_ruleId f)); (js "category", JStr (category_name (fi_category f))); (js "severity", JStr (severity_name (fi_severity f)));
         (js "confidence", JStr (severity_name (fi_confidence f))); (js "message", JStr (fi_message f)); (js "remediation", JStr (fi_remediation f))]
        ++ opt_field (js "location") json_of_location (fi_location f)).
Definition json_of_scan (r : ScanResult) : json :=
  match r with
  | ScDecision d =>
    JObj [(js "decision", JStr (decision_name (sd_decision d))); (js "coverage", JStr (coverage_name (sd_coverage d)));
          (js "findings", JArr (map json_of_finding (sd_findings d))); (js "policyVersion", JStr (sd_policyVersion d));
          (js "diagnostics", JArr (map JStr (sd_diagnostics d)))]
  | ScSanitized r =>
    JObj [(js "fields", JArr (map JStr (sr_fields r))); (js "redactions", JNum (NInt (Z.of_nat (sr_redactions r))));
          (js "coverage", JStr (coverage_name (sr_coverage r))); (js "policyVersion", JStr (sr_policyVersion r))]
  end.

(** ** Parameters, as zod returns them *)

Definition json_of_exception (e : SecurityException) : json :=
  JObj [(js "ruleId", JStr (ex_ruleId e)); (js "scope", JStr (ex_scope e)); (js "reason", JStr (ex_reason e)); (js "expiresAt", JStr (ex_expiresAt e))].
Definition operation_name (o : Operation) : jstr :=
  match o with OpRead => js "read" | OpWrite => js "write" | OpExecute => js "execute" | OpUnknown => js "unknown" | OpDelete => js "delete" end.
Definition json_of_mapping (m : ToolMapping) : json :=
  JObj [(js "operation", JStr (operation_name (tm_operation m))); (js "pathFields", JArr (map JStr (tm_pathFields m)));
        (js "contentFields", JArr (map JStr (tm_contentFields m)))].
Definition json_of_policy (p : SecurityPolicy) : json :=
  JObj [(js "version", JStr (pl_version p)); (js "exceptions", JArr (map json_of_exception (pl_exceptions p)));
        (js "deniedPaths", JArr (map JStr (pl_deniedPaths p))); (js "mcpTools", JObj (map (λ kv, (kv.1, json_of_mapping kv.2)) (pl_mcpTools p)))].
Definition json_of_namespace (n : Namespace) : json := JObj [(js "projectId", JStr (projectId n)); (js "sessionId", JStr (sessionId n))].
Definition json_of_file (f : SecurityFile) : json :=
  JObj ([(js "path", JStr (fl_path f)); (js "content", JStr (fl_content f))] ++ opt_field (js "before") JStr (fl_before f) ++ [(js "complete", JBool (fl_complete f))]).
Definition json_of_target (t : SecurityPath) : json :=
  JObj [(js "path", JStr (tg_path t)); (js "resolvedPath", JStr (tg_resolvedPath t)); (js "operation", JStr (operation_name (tg_operation t)))].
(** [incomplete] is kept apart: it is optional, and the record holds its default. *)
Definition json_of_evaluate (p : EvaluateParams) (incomplete : option bool) : json :=
  JObj ([(js "namespace", json_of_namespace (ep_namespace p)); (js "tool", JStr (ep_tool p)); (js "args", JObj (ep_args p)); (js "cwd", JStr (ep_cwd p));
         (js "root", JStr (ep_root p)); (js "files", JArr (map json_of_file (ep_files p))); (js "paths", JArr (map json_of_target (ep_paths p)));
         (js "policy", json_of_policy (ep_policy p))] ++ opt_field (js "incomplete") JBool incomplete).
Definition json_of_sanitize (p : SanitizeParams) : json :=
  JObj [(js "namespace", json_of_namespace (sn_namespace p)); (js "fields", JArr (map JStr (sn_fields p))); (js "policy", json_of_policy (sn_policy p))].

(** ** The bounds of an input ([protocol.ts]) *)

Definition MAX_FRAME_BYTES : Z := 8 * 1024 * 1024.
(** The walk pops the last item; [count] is how many were popped. *)
Fixpoint bounded_loop (fuel : nat) (count : Z) (queue : list (json * Z)) (bytes : Z) : bool :=
  match queue with
  | [] => true
  | (item, depth) :: queue =>
    match fuel with
    | O => false
    | S fuel =>
      let count := count + 1 in
      if (65536 <? count) || (32 <? depth) then false else
      match item with
      | JStr s =>
        let size := byte_length s in
        if (SECURITY_MAX_TEXT_BYTES <? size) || (MAX_FRAME_BYTES <? bytes + size) then false else bounded_loop fuel count queue (bytes + size)
      | _ =>
        match children item with
        | None => bounded_loop fuel count queue bytes
        | Some entries => match push_children entries depth queue with None => false | Some queue => bounded_loop fuel count queue bytes end
        end
      end
    end
  end.
Definition boundedInput (v : json) : bool := bounded_loop (Z.to_nat 65537) 0 [(v, 0)] 0.

(** ** The cache ([cache.ts]) *)

Definition MAX_CACHE_BYTES : Z := 16 * 1024 * 1024.
Record Entry := mkEntry { en_json : jstr; en_size : Z; en_expiresAt : option Z }.
(** [entries] is a [Map]: oldest insertion first; [expiresAt] is [None] for [Infinity]. *)
Record BoundedCache := mkCache { bc_entries : list (jstr * Entry); bc_bytes : Z; bc_hits : nat; bc_limit : Z }.
Definition new_cache (limit : Z) : BoundedCache := mkCache [] 0 0 (Z.max 0 (Z.min limit MAX_CACHE_BYTES)).
Definition expired (now : Z) (expiresAt : option Z) : bool := match expiresAt with Some e => e <=? now | None => false end.

Definition cache_get (now : Z) (key : jstr) (c : BoundedCache) : BoundedCache * option json :=
  match get key (bc_entries c) with
  | None => (c, None)
  | Some entry =>
    let entries := delete_key key (bc_entries c) in
    if expired now (en_expiresAt entry) then (mkCache entries (bc_bytes c - en_size entry) (bc_hits c) (bc_limit c), None)
    else (mkCache (entries ++ [(key, entry)]) (bc_bytes c) (S (bc_hits c)) (bc_limit c), parse (en_json entry))
  end.
(** The eviction of the oldest entries until [size] fits. *)
Fixpoint make_room (size limit : Z) (entries : list (jstr * Entry)) (bytes : Z) : list (jstr * Entry) * Z :=
  match entries with
  | [] => ([], bytes)
  | (_, oldest) :: rest => if limit <? bytes + size then make_room size limit rest (bytes - en_size oldest) else (entries, bytes)
  end.
Definition cache_set (now : Z) (key : jstr) (value : json) (expiresAt : option Z) (c : BoundedCache) : BoundedCache :=
  let '(entries, bytes) :=
    match get key (bc_entries c) with
    | Some previous => (delete_key key (bc_entries c), bc_bytes c - en_size previous)
    | None => (bc_entries c, bc_bytes c)
    end in
  let text := stringify value in
  let size := byte_length text + byte_length key + 64 in
  if (bc_limit c <? size) || expired now expiresAt then mkCache entries bytes (bc_hits c) (bc_limit c)
  else
    let '(entries, bytes) := make_room size (bc_limit c) entries bytes in
    mkCache (entries ++ [(key, mkEntry text size expiresAt)]) (bytes + size) (bc_hits c) (bc_limit c).

(** ** Adapters ([adapters.ts]) *)

(** How the race of [invoke] ends. *)
Inductive AdapterReply : Type := TimedOut | Rejected | Returned (v : json).
Inductive AdapterErrorCategory : Type := AdapterTimeout | AdapterError | AdapterMalformed.
Definition category_text (c : AdapterErrorCategory) : jstr :=
  match c with AdapterTimeout => js "adapter-timeout" | AdapterError => js "adapter-error" | AdapterMalformed => js "adapter-malformed" end.
Definition invoke (reply : AdapterReply) : result AdapterErrorCategory json :=
  match reply with TimedOut => Throw AdapterTimeout | Rejected => Throw AdapterError | Returned v => Ok v end.

Definition external_finding (f : Finding) : Finding :=
  mkFinding (js "external-firewall." ++ category_name (fi_category f)) (fi_category f) (fi_severity f) (fi_confidence f)
    (js "The configured firewall detected a security risk.") (js "Review the operation against the configured firewall policy.")
    ((λ l, mkLocation None (lo_line l) (lo_column l)) <$> fi_location f).
Definition critical (f : Finding) : bool := bool_decide (fi_severity f = SvCritical) && bool_decide (fi_confidence f = SvHigh).

(** The local decision and the adapter's, put together. *)
Definition combine (local external : ScanDecision) : ScanDecision :=
  let includes d := bool_decide (sd_decision local = d) || bool_decide (sd_decision external = d) in
  mkScanDecision
    (if includes Deny then Deny else if includes Unavailable then Unavailable else if includes Warn then Warn else Allow)
    (if bool_decide (sd_coverage local = CvComplete) && bool_decide (sd_coverage external = CvComplete) then CvComplete
     else if bool_decide (sd_coverage local = CvUnsupported) then CvUnsupported else CvPartial)
    (sd_findings local ++ sd_findings external) (sd_policyVersion local) (sd_diagnostics local ++ sd_diagnostics external).

(** ** The engine ([engine.ts]) *)

Inductive VsecOperation : Type := VoEvaluate | VoSanitize | VoHealth.
#[export] Instance VsecOperation_dec : EqDecision VsecOperation.
Proof. solve_decision. Defined.
Definition vsec_name (o : VsecOperation) : jstr := match o with VoEvaluate => js "evaluate" | VoSanitize => js "sanitize" | VoHealth => js "health" end.

Inductive VsecParams : Type := PrEvaluate (p : EvaluateParams) (incomplete : option bool) | PrSanitize (p : SanitizeParams).
Definition json_of_params (p : VsecParams) : json :=
  match p with PrEvaluate p incomplete => json_of_evaluate p incomplete | PrSanitize p => json_of_sanitize p end.
Definition policy_of_params (p : VsecParams) : SecurityPolicy := match p with PrEvaluate p _ => ep_policy p | PrSanitize p => sn_policy p end.

Inductive FailureCategory : Type := FailInput | FailService.
Inductive VsecResult : Type := VrScan (result : json) | VrHealth (cacheBytes : Z) (cacheHits : nat) | VrFailure (error : FailureCategory).
Record VsecResponse := mkVsecResponse { vr_id : jstr; vr_result : VsecResult; vr_policyVersion : jstr }.

(** A request with what happens around it: the readings of the clock when it
    starts, at the cache, those of the first evaluation, when the adapter has answered,
    those of the second evaluation and when the result is stored; the adapter's reply;
    whether the audit record can be written. *)
Record VsecRequest := mkVsecRequest {
  rq_id : jstr; rq_op : VsecOperation; rq_params : json;
  rq_started : Z; rq_looked : Z; rq_scanned : nat → Z; rq_answered : Z; rq_rescanned : nat → Z; rq_stored : Z;
  rq_adapter : AdapterReply; rq_audited : bool }.

Section Vsec.
Context (iso_datetime : jstr → bool) (date_parse : jstr → option Z).
Context (scanTypeScript : jstr → jstr → option Scan) (scanBash : jstr → jstr → jstr → option Scan).
Context (sha256Hex : bytes → jstr).
(** The versions of the optional adapters, and the version of the parsers. *)
Context (firewall redactor : option jstr) (PARSER_VERSION : jstr).

Definition local_sanitize (params : SanitizeParams) : SanitizeResult := sanitizeFields iso_datetime (json_of_sanitize params).
Definition local_evaluate (clock : nat → Z) (params : json) : ScanDecision :=
  decision_of_local (evaluateTool iso_datetime date_parse clock scanTypeScript scanBash params).
(** [sanitizeFields({ namespace, policy, fields: [] }).policyVersion] *)
Definition safe_version (namespace : Namespace) (policy : SecurityPolicy) : jstr := sr_policyVersion (local_sanitize (mkSanitize namespace [] policy)).

Definition callRedactor (params : SanitizeParams) (reply : AdapterReply) : result AdapterErrorCategory SanitizeResult :=
  match invoke reply with
  | Throw e => Throw e
  | Ok v =>
    if negb (boundedInput v) then Throw AdapterMalformed else
    match securitySanitizeResultSchema v with
    | None => Throw AdapterMalformed
    | Some r =>
      if negb (length (sr_fields r) =? length (sn_fields params))%nat || negb (bool_decide (sr_coverage r = CvComplete)) then Throw AdapterMalformed else
      let local := local_sanitize (mkSanitize (sn_namespace params) (sr_fields r) (sn_policy params)) in
      if negb (bool_decide (sr_coverage local = CvComplete)) then Throw AdapterMalformed
      else Ok (mkSanitized (sr_fields local) (sr_redactions local + sr_redactions r) (sr_coverage local) (sr_policyVersion local))
    end
  end.
Definition callFirewall (params : EvaluateParams) (reply : AdapterReply) : result AdapterErrorCategory ScanDecision :=
  match invoke reply with
  | Throw e => Throw e
  | Ok v =>
    if negb (boundedInput v) then Throw AdapterMalformed else
    match securityDecisionSchema v with
    | None => Throw AdapterMalformed
    | Some d =>
      if bool_decide (sd_decision d = Unavailable) || bool_decide (sd_coverage d = CvUnsupported) then Throw AdapterMalformed else
      Ok (mkScanDecision (if existsb critical (sd_findings d) then Deny else sd_decision d) (sd_coverage d) (map external_finding (sd_findings d))
            (safe_version (ep_namespace params) (ep_policy params))
            (if bool_decide (sd_coverage d = CvPartial) then [js "external-firewall-partial"] else []))
    end
  end.

Definition parse_params (op : VsecOperation) (v : json) : option VsecParams :=
  match op with
  | VoSanitize => PrSanitize <$> sanitize_of iso_datetime v
  | _ => p ← evaluate_of iso_datetime v; incomplete ← opt (js "incomplete") bool_of (default [] (fields_of v)); Some (PrEvaluate p incomplete)
  end.

(** The earliest end of an exception that is in force when the request starts; [None] is [Infinity]. *)
Definition expiry (startedAt : Z) (p : SecurityPolicy) : option Z :=
  foldr (λ e best, match date_parse (ex_expiresAt e) with
    | Some d => if startedAt <? d then Some (match best with Some b => Z.min d b | None => d end) else best
    | None => best
    end) None (pl_exceptions p).

Definition opt_json (o : option jstr) : json := match o with Some s => JStr s | None => JNull end.
(** An absent version is written as [null] in the array. *)
Definition adapter_versions : jstr := stringify (JArr [JStr PARSER_VERSION; opt_json firewall; opt_json redactor]).
Definition cacheKey (op : VsecOperation) (params : VsecParams) : jstr :=
  sha256Hex (utf8_encode (stringify (JArr [JStr (vsec_name op); JStr adapter_versions; json_of_params params]))).

Definition withheld_result (params : SanitizeParams) (policyVersion : jstr) : SanitizeResult :=
  mkSanitized (map (λ _, WITHHELD_TEXT) (sn_fields params)) 0 CvUnsupported policyVersion.
(** What a request is answered with when the cache has nothing. *)
Definition scan (rq : VsecRequest) (params : VsecParams) : ScanResult :=
  match params with
  | PrSanitize p =>
    let local := local_sanitize p in
    match redactor with
    | None => ScSanitized local
    | Some _ => match callRedactor p (rq_adapter rq) with Ok r => ScSanitized r | Throw _ => ScSanitized (withheld_result p (sr_policyVersion local)) end
    end
  | PrEvaluate p incomplete =>
    let local := local_evaluate (rq_scanned rq) (json_of_params params) in
    match firewall with
    | None => ScDecision local
    | Some _ =>
      let local := if expired (rq_answered rq) (expiry (rq_started rq) (ep_policy p)) then local_evaluate (rq_rescanned rq) (json_of_params params) else local in
      match callFirewall p (rq_adapter rq) with
      | Ok external => ScDecision (combine local external)
      | Throw e => ScDecision (mkScanDecision Unavailable CvUnsupported [] (sd_policyVersion local) [category_text e])
      end
    end
  end.

Definition result_valid (r : ScanResult) : bool :=
  boundedInput (json_of_scan r)
  && match r with
     | ScDecision _ => bool_decide (is_Some (securityDecisionSchema (json_of_scan r)))
     | ScSanitized _ => bool_decide (is_Some (securitySanitizeResultSchema (json_of_scan r)))
     end.
Definition cacheable (r : ScanResult) : bool :=
  match r with
  | ScDecision d => negb (bool_decide (sd_coverage d = CvUnsupported)) && negb (bool_decide (sd_decision d = Unavailable))
  | ScSanitized r => negb (bool_decide (sr_coverage r = CvUnsupported))
  end.
Definition policy_version_of (result : json) : jstr := match field (js "policyVersion") result with Some (JStr s) => s | _ => [] end.

(** The part of [request] between the cache and the audit. *)
Definition answer (rq : VsecRequest) (params : VsecParams) (cache : BoundedCache) : BoundedCache * option json :=
  let expiresAt := expiry (rq_started rq) (policy_of_params params) in
  let key := cacheKey (rq_op rq) params in
  let '(cache, cached) := cache_get (rq_looked rq) key cache in
  match cached with
  | Some result => (cache, Some result)
  | None =>
    let r := scan rq params in
    if negb (result_valid r) then (cache, None)
    else (if cacheable r then cache_set (rq_stored rq) key (json_of_scan r) expiresAt cache else cache, Some (json_of_scan r))
  end.
Definition request (rq : VsecRequest) (cache : BoundedCache) : BoundedCache * VsecResponse :=
  match rq_op rq with
  | VoHealth => (cache, mkVsecResponse (rq_id rq) (VrHealth (bc_bytes cache) (bc_hits cache)) (js "vsec-1"))
  | op =>
    if negb (boundedInput (rq_params rq)) then (cache, mkVsecResponse (rq_id rq) (VrFailure FailInput) (js "invalid-policy")) else
    match parse_params op (rq_params rq) with
    | None => (cache, mkVsecResponse (rq_id rq) (VrFailure FailInput) (js "invalid-policy"))
    | Some params =>
      let policyVersion := match params with PrEvaluate p _ => safe_version (ep_namespace p) (ep_policy p) | PrSanitize p => safe_version (sn_namespace p) (sn_policy p) end in
      match answer rq params cache with
      | (cache, Some result) =>
        (cache, if rq_audited rq then mkVsecResponse (rq_id rq) (VrScan result) (policy_version_of result)
                else mkVsecResponse (rq_id rq) (VrFailure FailService) policyVersion)
      | (cache, None) => (cache, mkVsecResponse (rq_id rq) (VrFailure FailService) policyVersion)
      end
    end
  end.
(** The requests of a process, in order. *)
Definition serve (requests : list VsecRequest) (cache : BoundedCache) : BoundedCache * list VsecResponse :=
  foldl (λ acc rq, let '(cache, r) := request rq acc.1 in (cache, acc.2 ++ [r])) (cache, []) requests.
End Vsec.

(** ** An evaluation depends on the time only through its exceptions *)

Lemma foldl_same {A B} (f g : A → B → A) l : (∀ a x, f a x = g a x) → ∀ a, foldl f a l = foldl g a l.
Proof. intros H. induction l as [|x l IH]; intros a; [done|]. cbn [foldl]. by rewrite H, IH. Qed.
Lemma fold_option_same {A B} (f g : A → B → option A) l a : (∀ a x, f a x = g a x) → fold_option f a l = fold_option g a l.
Proof. intros H. apply foldl_same. intros [st|] x; cbn [mbind option_bind]; [apply H|done]. Qed.

Definition in_force (date_parse : jstr → option Z) (now : Z) (e : SecurityException) : bool :=
  match date_parse (ex_expiresAt e) with Some t => now <? t | None => false end.

Section Same.
Context (iso_datetime : jstr → bool) (date_parse : jstr → option Z).
Context (scanTypeScript : jstr → jstr → option Scan) (scanBash : jstr → jstr → jstr → option Scan) (clock clock' : nat → Z).
Definition same_exceptions (policy : SecurityPolicy) : Prop :=
  Forall (λ e, ∀ k, in_force date_parse (clock k) e = in_force date_parse (clock' k) e) (pl_exceptions policy).

Section Params.
Context (p : EvaluateParams) (Hsame : same_exceptions (ep_policy p)).

Lemma excepted_same h path k :
  excepted date_parse clock (pl_exceptions (ep_policy p)) h path p k = excepted date_parse clock' (pl_exceptions (ep_policy p)) h path p k.
Proof.
  revert k. generalize Hsame. unfold same_exceptions. generalize (pl_exceptions (ep_policy p)). intros l Hl.
  induction Hl as [|e l He _ IH]; intros k; [done|]. cbn [excepted]. rewrite !IH. specialize (He k). unfold in_force in He. by rewrite He.
Qed.
Lemma append_same text path st h : append date_parse clock p text path st h = append date_parse clock' p text path st h.
Proof. unfold append. by rewrite excepted_same. Qed.
Lemma hit_step_same f acc h : hit_step date_parse clock p f acc h = hit_step date_parse clock' p f acc h.
Proof. destruct acc as [previous st]. unfold hit_step. destruct (get _ _) as [[|n]|]; by rewrite append_same. Qed.
Lemma file_step_same st f : file_step date_parse clock scanTypeScript scanBash p st f = file_step date_parse clock' scanTypeScript scanBash p st f.
Proof.
  unfold file_step. destruct (sourceHits _ _ _ _) as [scan|]; [|done]. cbn [mbind option_bind]. destruct (previous_hits _ _ _ _) as [before|]; [|done].
  cbn [mbind option_bind]. do 2 f_equal. apply foldl_same, hit_step_same.
Qed.
Lemma argument_step_same st text : argument_step date_parse clock p st text = argument_step date_parse clock' p st text.
Proof. unfold argument_step. destruct (existsb _ _); [done|]. apply foldl_same, append_same. Qed.
Lemma target_step_same st t : target_step date_parse clock p st t = target_step date_parse clock' p st t.
Proof. unfold target_step. destruct (_ || _); [done|]. f_equal. apply foldl_same, append_same. Qed.
Lemma tool_step_same st : tool_step date_parse clock scanBash p st = tool_step date_parse clock' scanBash p st.
Proof.
  unfold tool_step. destruct (test shell_tool _); [|done]. destruct (command_of p) as [[| | |command| |]|]; try done.
  destruct (scanBash _ _ _) as [scan|]; [|done]. cbn [mbind option_bind]. f_equal. apply foldl_same, append_same.
Qed.
Lemma scan_all_same : scan_all date_parse clock scanTypeScript scanBash p = scan_all date_parse clock' scanTypeScript scanBash p.
Proof.
  unfold scan_all. rewrite (fold_option_same _ _ _ _ file_step_same). destruct (fold_option _ _ (ep_files p)) as [st|]; [|done]. cbn [mbind option_bind].
  destruct (arguments p) as [argsText|]; [|done]. cbn [mbind option_bind]. rewrite (foldl_same _ _ _ argument_step_same), (fold_option_same _ _ _ _ target_step_same).
  destruct (fold_option _ _ (ep_paths p)) as [st'|]; [|done]. apply tool_step_same.
Qed.
End Params.

Lemma evaluate_same params :
  (∀ p, evaluate_of iso_datetime params = Some p → same_exceptions (ep_policy p)) →
  evaluateTool iso_datetime date_parse clock scanTypeScript scanBash params = evaluateTool iso_datetime date_parse clock' scanTypeScript scanBash params.
Proof.
  intros H. unfold evaluateTool. cbv zeta. destruct (texts params); [|done]. destruct (evaluate_of _ params) as [p|]; [|done]. by rewrite (scan_all_same p (H p eq_refl)).
Qed.
End Same.

(** Reading the parameters again keeps the exceptions. *)
Lemma req_key {A} k (f : json → option A) v l x : req k f ((k, v) :: l) = Some x → f v = Some x.
Proof. unfold req. cbn [assoc]. by rewrite jeqb_refl. Qed.

Lemma check_some {A} (p : A → bool) o v : check p o = Some v → o = Some v ∧ p v = true.
Proof. unfold check. destruct o as [a|]; [|done]. cbn [mbind option_bind]. destruct (p a) eqn:E; [by intros [= <-]|done]. Qed.
Lemma strict_str v s (p : jstr → bool) : check p (str_of (JStr s)) = Some v → v = s.
Proof. by intros [[= ->] _]%check_some. Qed.

Lemma exception_reread iso_datetime e e' : exception_of iso_datetime (json_of_exception e) = Some e' → e' = e.
Proof.
  destruct e as [ruleId scope reason expiresAt]. unfold exception_of, json_of_exception. cbn [fields_of mbind option_bind ex_ruleId ex_scope ex_reason ex_expiresAt].
  intros H. apply bind_Some in H as (a & Ha & H). apply bind_Some in H as (b & Hb & H). apply bind_Some in H as (c & Hc & H). apply bind_Some in H as (d & Hd & H).
  injection H as <-. revert Ha Hb Hc Hd. unfold req. read_keys. unfold identifier, path_of. intros Ha%strict_str Hb Hc%strict_str Hd%strict_str.
  apply check_some in Hb as [Hb%strict_str _]. by subst.
Qed.

Lemma exceptions_reread iso_datetime l l' : mapM (exception_of iso_datetime) (map json_of_exception l) = Some l' → l' = l.
Proof.
  revert l'. induction l as [|e l IH]; intros l' H; [by injection H as <-|]. cbn [map] in H. apply mapM_Some in H. apply Forall2_cons_inv_l in H as (e' & l'' & He & Hl & ->).
  f_equal; [by eapply exception_reread|]. apply IH. by apply mapM_Some.
Qed.

Lemma array_some {A} (f : json → option A) max l r : array f max (JArr l) = Some r → mapM f l = Some r.
Proof. by intros [H _]%check_some. Qed.

Lemma policy_reread iso_datetime p p' : policy_of iso_datetime (json_of_policy p) = Some p' → pl_exceptions p' = pl_exceptions p.
Proof.
  unfold policy_of, json_of_policy. cbn [fields_of mbind option_bind]. intros H. apply bind_Some in H as (a & _ & H). apply bind_Some in H as (b & Hb & H).
  apply bind_Some in H as (c & _ & H). apply bind_Some in H as (d & _ & H). injection H as <-. cbn [pl_exceptions].
  revert Hb. unfold defaulted. read_keys. intros Hb%array_some. by eapply exceptions_reread.
Qed.

Lemma evaluate_reread iso_datetime p incomplete p' :
  evaluate_of iso_datetime (json_of_evaluate p incomplete) = Some p' → pl_exceptions (ep_policy p') = pl_exceptions (ep_policy p).
Proof.
  unfold evaluate_of, json_of_evaluate. cbn [fields_of mbind option_bind]. intros H. do 7 (apply bind_Some in H as (? & _ & H)).
  apply bind_Some in H as (policy & Hp & H). apply bind_Some in H as (? & _ & H). injection H as <-. cbn [ep_policy].
  revert Hp. read_keys. intros Hp. by eapply policy_reread.
Qed.

(** ** How long an evaluation holds *)

Section Window.
Context (date_parse : jstr → option Z) (startedAt : Z).

Lemma expiry_bound l e d :
  e ∈ l → date_parse (ex_expiresAt e) = Some d → startedAt < d →
  ∃ b, foldr (λ e best, match date_parse (ex_expiresAt e) with
    | Some d => if startedAt <? d then Some (match best with Some b => Z.min d b | None => d end) else best
    | None => best
    end) None l = Some b ∧ b <= d.
Proof.
  intros Hin Hd Hs. induction l as [|e' l IH]; [by apply elem_of_nil in Hin|]. cbn [foldr]. apply elem_of_cons in Hin as [<-|Hin].
  - rewrite Hd. rewrite (proj2 (Z.ltb_lt startedAt d) Hs). eexists. split; [done|]. destruct (foldr _ _ l); lia.
  - destruct (IH Hin) as (b & -> & Hb). destruct (date_parse (ex_expiresAt e')) as [d'|]; [|by exists b]. destruct (startedAt <? d'); [|by exists b].
    eexists. split; [done|]. lia.
Qed.

(** Until the first of the exceptions in force ends, the same ones stay in force. *)
Lemma window_in_force t policy : startedAt <= t → expired t (expiry date_parse startedAt policy) = false →
  Forall (λ e, in_force date_parse t e = in_force date_parse startedAt e) (pl_exceptions policy).
Proof.
  intros Ht He. apply Forall_forall. intros e Hin. unfold in_force. destruct (date_parse (ex_expiresAt e)) as [d|] eqn:Ed; [|done].
  destruct (startedAt <? d) eqn:E; [|lia]. apply Z.ltb_lt in E. unfold expiry in He. destruct (expiry_bound _ e d Hin Ed E) as (b & Eb & Hb).
  rewrite Eb in He. cbn [expired] in He. lia.
Qed.
End Window.

(** ** The cache *)

Definition entry_size (kv : jstr * Entry) : Prop := en_size kv.2 = byte_length (en_json kv.2) + byte_length kv.1 + 64.
Definition sizes (entries : list (jstr * Entry)) : Z := zsum (map (λ kv, en_size kv.2) entries).
Record cache_ok (c : BoundedCache) : Prop := {
  co_keys : omap_ok (bc_entries c);
  co_bytes : bc_bytes c = sizes (bc_entries c);
  co_limit : bc_bytes c <= bc_limit c <= MAX_CACHE_BYTES;
  co_sizes : Forall entry_size (bc_entries c) }.

Lemma entry_size_pos kv : entry_size kv → 0 < en_size kv.2.
Proof. unfold entry_size. intros ->. pose proof (byte_length_nonneg (en_json kv.2)). pose proof (byte_length_nonneg kv.1). lia. Qed.
Lemma sizes_cons kv l : sizes (kv :: l) = en_size kv.2 + sizes l.
Proof. apply zsum_cons. Qed.
Lemma sizes_perm l l' : l ≡ₚ l' → sizes l = sizes l'.
Proof. intros H. by apply zsum_Permutation, Permutation_map. Qed.
Lemma sizes_nonneg l : Forall entry_size l → 0 <= sizes l.
Proof. induction 1 as [|kv l H _ IH]; [done|]. rewrite sizes_cons. apply entry_size_pos in H. lia. Qed.

Lemma entries_split key entry (m : list (jstr * Entry)) : omap_ok m → get key m = Some entry → m ≡ₚ (key, entry) :: delete_key key m.
Proof.
  unfold omap_ok. intros Hok Hg. induction m as [|[k v] m IH]; [done|]. cbn [get] in Hg. rewrite fmap_cons in Hok. apply NoDup_cons in Hok as [Hn Hd].
  unfold delete_key. cbn [List.filter fst]. case_bool_decide as E.
  - subst. injection Hg as ->. cbn [negb]. change (List.filter _ m) with (delete_key k m). by rewrite delete_absent.
  - cbn [negb]. change (List.filter _ m) with (delete_key key m). rewrite (IH Hd Hg) at 1. apply Permutation_swap.
Qed.

Lemma new_cache_ok limit : cache_ok (new_cache limit).
Proof. constructor; [apply NoDup_nil_2|done| |apply Forall_nil_2]. cbn [bc_bytes bc_limit new_cache]. unfold MAX_CACHE_BYTES. lia. Qed.

Lemma scan_cache_get_ok now key c c' v : cache_ok c → cache_get now key c = (c', v) →
  cache_ok c' ∧ bc_limit c' = bc_limit c ∧ (∀ kv, kv ∈ bc_entries c' → kv ∈ bc_entries c)
  ∧ match get key (bc_entries c) with
    | Some entry => if expired now (en_expiresAt entry) then v = None else v = parse (en_json entry)
    | None => v = None
    end.
Proof.
  intros [Hk Hb Hl Hs]. unfold cache_get. destruct (get key (bc_entries c)) as [entry|] eqn:Eg; [|by intros [= <- <-]].
  pose proof (entries_split _ _ _ Hk Eg) as Hp. pose proof (get_elem _ _ _ Eg) as Hin.
  assert (bc_bytes c = en_size entry + sizes (delete_key key (bc_entries c))) as E by (rewrite Hb, (sizes_perm _ _ Hp), sizes_cons; done).
  assert (∀ kv, kv ∈ delete_key key (bc_entries c) → kv ∈ bc_entries c) as Hsub.
  { intros kv. unfold delete_key. rewrite !list_elem_of_In, List.filter_In. tauto. }
  assert (entry_size (key, entry)) as He by (rewrite Forall_forall in Hs; by apply Hs).
  destruct (expired now (en_expiresAt entry)) eqn:Ee; intros [= <- <-]; (split; [|split; [done|]]).
  - constructor; cbn [bc_entries bc_bytes bc_limit]; [by apply delete_ok|lia| |by apply Forall_delete]. apply entry_size_pos in He. cbn [snd] in He. lia.
  - by split.
  - assert (delete_key key (bc_entries c) ++ [(key, entry)] ≡ₚ bc_entries c) as Hp' by (rewrite Hp at 2; by rewrite Permutation_app_comm).
    constructor; cbn [bc_entries bc_bytes bc_limit]; [unfold omap_ok; by rewrite Hp'|by rewrite Hb, (sizes_perm _ _ Hp')|done|by rewrite Hp'].
  - split; [|done]. cbn [bc_entries]. intros kv [H|H]%elem_of_app; [by apply Hsub|]. apply list_elem_of_singleton in H as ->. done.
Qed.

Lemma make_room_ok size limit entries : ∀ bytes, omap_ok entries → Forall entry_size entries → bytes = sizes entries → size <= limit →
  let '(entries', bytes') := make_room size limit entries bytes in
  omap_ok entries' ∧ Forall entry_size entries' ∧ bytes' = sizes entries' ∧ bytes' + size <= limit ∧ (∀ kv, kv ∈ entries' → kv ∈ entries).
Proof.
  induction entries as [|[k e] entries IH]; intros bytes Hk Hs Hb Hl; cbn [make_room].
  - rewrite Hb. cbn [sizes map zsum foldr]. by split_and!.
  - apply Forall_cons in Hs as [He Hs']. rewrite sizes_cons in Hb. destruct (limit <? bytes + size) eqn:E.
    + unfold omap_ok in Hk. rewrite fmap_cons in Hk. apply NoDup_cons in Hk as [_ Hk]. specialize (IH (bytes - en_size e) Hk Hs' ltac:(cbn [snd] in Hb; lia) Hl).
      destruct (make_room _ _ _ _) as [entries' bytes']. destruct IH as (? & ? & ? & ? & Hsub). split_and!; try done. intros kv Hkv. right. by apply Hsub.
    + apply Z.ltb_ge in E. split_and!; [done|by apply Forall_cons_2|by rewrite sizes_cons|done|done].
Qed.

Lemma scan_cache_set_ok now key value expiresAt c : cache_ok c →
  let c' := cache_set now key value expiresAt c in
  cache_ok c' ∧ bc_limit c' = bc_limit c
  ∧ ∀ kv, kv ∈ bc_entries c' → kv ∈ bc_entries c ∨ kv.1 = key ∧ en_json kv.2 = stringify value ∧ en_expiresAt kv.2 = expiresAt ∧ expired now expiresAt = false.
Proof.
  intros [Hk Hb Hl Hs]. cbv zeta. unfold cache_set.
  set (start := match get key (bc_entries c) with Some previous => _ | None => _ end).
  assert (omap_ok start.1 ∧ Forall entry_size start.1 ∧ start.2 = sizes start.1 ∧ start.2 <= bc_limit c ∧ (key ∉ start.1.*1) ∧ ∀ kv, kv ∈ start.1 → kv ∈ bc_entries c) as (S1 & S2 & S3 & S4 & S5 & S6).
  { unfold start. destruct (get key (bc_entries c)) as [e|] eqn:Eg; cbn [fst snd].
    - pose proof (entries_split _ _ _ Hk Eg) as Hp. pose proof (get_elem _ _ _ Eg) as Hin. assert (entry_size (key, e)) as He by (rewrite Forall_forall in Hs; by apply Hs).
      apply entry_size_pos in He. cbn [snd] in He. pose proof (sizes_perm _ _ Hp) as E. rewrite sizes_cons in E. cbn [snd] in E. split_and!; [by apply delete_ok|by apply Forall_delete|lia|lia| |].
      + apply get_None, get_delete_eq.
      + intros kv. unfold delete_key. rewrite !list_elem_of_In, List.filter_In. tauto.
    - apply get_None in Eg. split_and!; (done || lia || auto). }
  destruct start as [entries bytes]. cbn [fst snd] in *. cbv zeta. set (size := byte_length (stringify value) + byte_length key + 64).
  destruct (_ || _) eqn:E; [split; [constructor; cbn [bc_entries bc_bytes bc_limit]; (done || lia)|split; [done|cbn [bc_entries]; auto]]|]. apply orb_false_iff in E as [E1 E2]. apply Z.ltb_ge in E1.
  pose proof (make_room_ok size (bc_limit c) entries bytes S1 S2 S3 E1) as Hr. destruct (make_room _ _ _ _) as [entries' bytes']. destruct Hr as (R1 & R2 & R3 & R4 & R5).
  split; [|split; [done|]].
  - constructor; cbn [bc_entries bc_bytes bc_limit].
    + unfold omap_ok. rewrite fmap_app. apply NoDup_app. split; [done|split; [|apply NoDup_singleton]]. intros x Hx Ex%list_elem_of_singleton. cbn [fst] in Ex.
      apply list_elem_of_fmap in Hx as (kv & E & Hkv). apply S5. rewrite <- Ex, E. apply list_elem_of_fmap. exists kv. split; [done|by apply R5].
    + rewrite (sizes_perm _ _ (Permutation_app_comm _ _)). cbn [app]. rewrite sizes_cons. cbn [snd en_size]. lia.
    + lia.
    + apply Forall_app. split; [done|]. apply Forall_singleton. unfold entry_size. done.
  - cbn [bc_entries]. intros kv [H|H]%elem_of_app; [left; by apply S6, R5|right]. apply list_elem_of_singleton in H as ->. done.
Qed.

(** ** Strings of results are strings *)

(** The model's strings are lists of numbers; those of a program hold UTF-16 units. *)
Lemma units_app a b : units_ok a → units_ok b → units_ok (a ++ b).
Proof. intros. by apply Forall_app. Qed.
Lemma units_take n s : units_ok s → units_ok (take n s).
Proof. apply Forall_take. Qed.
Lemma units_drop n s : units_ok s → units_ok (drop n s).
Proof. apply Forall_drop. Qed.
Lemma units_slice s a b : units_ok s → units_ok (slice s a b).
Proof. intros. by apply units_take, units_drop. Qed.

Lemma units_masked s : ∀ open, units_ok s → units_ok (masked open s).
Proof.
  induction s as [|c s IH]; intros open H; [done|]. apply Forall_cons in H as [Hc H]. cbn [masked]. destruct (is_newline c); [apply Forall_cons_2; [done|by apply IH]|].
  destruct open; [by apply IH|]. apply units_app; [unfold REDACTED; lit_ok|by apply IH].
Qed.
Lemma units_redact s : units_ok s → units_ok (redact s).1.
Proof.
  intros Hs. unfold redact. cbn [fst]. generalize (secretSpans s), O. induction l as [|x l IH]; intros cursor; cbn [redact_from]; [by apply units_drop|].
  apply units_app; [by apply units_slice|]. apply units_app; [rewrite mask_masked; by apply units_masked, units_slice|apply IH].
Qed.

Lemma ok_strs l : Forall units_ok l → json_ok (JArr (map JStr l)).
Proof. intros H. apply ok_arr. apply Forall_map. eapply Forall_impl; [exact H|]. intros. by apply ok_str. Qed.
Lemma str_units v s : json_ok v → str_of v = Some s → units_ok s.
Proof. destruct v; try done. intros H [= <-]. by inversion H. Qed.
Lemma member_ok l k v : json_ok (JObj l) → assoc k l = Some v → json_ok v.
Proof.
  intros H Ha. inversion H as [| | | | |? _ Hl]; subst. clear H. induction l as [|[k' v'] l IH]; [done|]. apply Forall_cons in Hl as [[_ Hv] Hl]. cbn [assoc] in Ha.
  destruct (jeqb k' k); [by injection Ha as <-|by apply IH].
Qed.
Lemma req_ok {A} k (f : json → option A) l x : json_ok (JObj l) → req k f l = Some x → ∃ v, json_ok v ∧ f v = Some x.
Proof. intros H Hr. unfold req in Hr. apply bind_Some in Hr as (v & Hv & Hr). exists v. split; [by eapply member_ok|done]. Qed.
Lemma elems_ok {A} (f : json → option A) max v l : json_ok v → array f max v = Some l → Forall (λ x, ∃ w, json_ok w ∧ f w = Some x) l.
Proof.
  intros H [Ha _]%check_some. destruct v as [| | | |vs|]; try done. cbn [arr_of] in Ha. inversion H as [| | | |? Hv|]; subst. apply mapM_Some in Ha.
  clear H. induction Ha as [|w x vs l Hw _ IH]; [apply Forall_nil_2|]. apply Forall_cons in Hv as [Hw' Hv]. apply Forall_cons_2; [by exists w|by apply IH].
Qed.
Lemma checked_units p v s : json_ok v → check p (str_of v) = Some s → units_ok s.
Proof. intros H [Hs _]%check_some. by eapply str_units. Qed.

(** The strings of findings that come from the parameters. *)
Record params_units (p : EvaluateParams) : Prop := {
  pu_files : Forall (λ f, units_ok (fl_path f)) (ep_files p);
  pu_paths : Forall (λ t, units_ok (tg_resolvedPath t)) (ep_paths p);
  pu_version : units_ok (pl_version (ep_policy p)) }.

Section Units.
Context (iso_datetime : jstr → bool) (date_parse : jstr → option Z) (clock : nat → Z).
Context (scanTypeScript : jstr → jstr → option Scan) (scanBash : jstr → jstr → jstr → option Scan).
Definition hits_units (hits : list Hit) : Prop := Forall (λ h, units_ok (h_ruleId h)) hits.
(** The scanners name their rules with strings. *)
Definition scanners_ok : Prop :=
  (∀ content path scan, scanTypeScript content path = Some scan → hits_units (sc_hits scan))
  ∧ (∀ command root cwd scan, scanBash command root cwd = Some scan → hits_units (sc_hits scan)).
Context (Hscan : scanners_ok).

Lemma policy_units v p : json_ok v → policy_of iso_datetime v = Some p → units_ok (pl_version p).
Proof.
  intros Hv H. unfold policy_of in H. apply bind_Some in H as (l & Hl & H). apply bind_Some in H as (version & Hver & H).
  do 3 (apply bind_Some in H as (? & _ & H)). injection H as <-. cbn [pl_version]. destruct v as [| | | | |l']; try done. injection Hl as ->.
  unfold defaulted in Hver. destruct (assoc _ l) as [w|] eqn:Ew; [|injection Hver as <-; lit_ok]. eapply checked_units; [|exact Hver]. by eapply member_ok.
Qed.

Lemma evaluate_units v p : json_ok v → evaluate_of iso_datetime v = Some p → params_units p.
Proof.
  intros Hv H. unfold evaluate_of in H. apply bind_Some in H as (l & Hl & H). destruct v as [| | | | |l']; try done. injection Hl as ->.
  do 5 (apply bind_Some in H as (? & _ & H)). apply bind_Some in H as (files & Hf & H). apply bind_Some in H as (paths & Hp & H).
  apply bind_Some in H as (policy & Hpol & H). apply bind_Some in H as (? & _ & [= <-]). constructor; cbn [ep_files ep_paths ep_policy].
  - apply req_ok in Hf as (w & Hw & Hf); [|done]. apply elems_ok in Hf; [|done]. eapply Forall_impl; [exact Hf|]. intros f (u & Hu & Hfx). unfold file_of in Hfx.
    apply bind_Some in Hfx as (m & Hm & Hfx). destruct u as [| | | | |m']; try done. injection Hm as ->. apply bind_Some in Hfx as (path & Hpath & Hfx).
    do 3 (apply bind_Some in Hfx as (? & _ & Hfx)). injection Hfx as <-. cbn [fl_path]. apply req_ok in Hpath as (y & Hy & Hpath); [|done]. by eapply checked_units.
  - apply req_ok in Hp as (w & Hw & Hp); [|done]. apply elems_ok in Hp; [|done]. eapply Forall_impl; [exact Hp|]. intros t (u & Hu & Htx). unfold target_of in Htx.
    apply bind_Some in Htx as (m & Hm & Htx). destruct u as [| | | | |m']; try done. injection Hm as ->. apply bind_Some in Htx as (? & _ & Htx).
    apply bind_Some in Htx as (path & Hpath & Htx). apply bind_Some in Htx as (? & _ & [= <-]). cbn [tg_resolvedPath].
    apply req_ok in Hpath as (y & Hy & Hpath); [|done]. by eapply checked_units.
  - apply req_ok in Hpol as (w & Hw & Hpol); [|done]. by eapply policy_units.
Qed.

Definition local_units (f : SecurityFinding) : Prop :=
  units_ok (fd_ruleId f) ∧ units_ok (fd_message f) ∧ units_ok (fd_remediation f) ∧ (∀ p, fd_path f = Some p → units_ok p).
Definition eval_units (st : Eval) : Prop := Forall local_units (ev_findings st) ∧ Forall units_ok (ev_diagnostics st).
Definition path_units (path : option jstr) : Prop := ∀ p, path = Some p → units_ok p.

Lemma note_units d st : units_ok d → eval_units st → eval_units (note d st).
Proof. intros Hd [H1 H2]. split; [done|]. cbn [note ev_diagnostics]. case_bool_decide; [done|]. apply Forall_app. split; [done|by apply Forall_singleton]. Qed.
Lemma finding_units h text path : units_ok (h_ruleId h) → path_units path → local_units (safeFinding h text path).
Proof.
  intros Hh Hp. unfold local_units, safeFinding. cbn [fd_ruleId fd_message fd_remediation fd_path]. split_and!; [done|destruct (h_category h); lit_ok|destruct (h_category h); lit_ok|].
  intros q Hq. destruct path as [[|c r]|]; try done. apply (inj Some) in Hq as <-. by apply units_redact, Hp.
Qed.
Lemma append_units p text path st h : units_ok (h_ruleId h) → path_units path → eval_units st → eval_units (append date_parse clock p text path st h).
Proof.
  intros Hh Hp Hst. unfold append. destruct (excepted _ _ _ _ _ _ _) as [[] k]; [apply (note_units (js "policy-exception-applied") st); [lit_ok|done]|].
  destruct Hst as [H1 H2]. split; [|done]. cbn [set_reads found ev_findings].
  apply Forall_app. split; [done|]. apply Forall_singleton. by apply finding_units.
Qed.
Lemma appends_units p text path hits st : hits_units hits → path_units path → eval_units st → eval_units (foldl (append date_parse clock p text path) st hits).
Proof. intros Hh Hp. revert st. induction Hh as [|h hits Hh _ IH]; intros st Hst; [done|]. cbn [foldl]. apply IH. by apply append_units. Qed.

(** The kinds of spans are the constants of the patterns. *)
Lemma kinds_units text : Forall (λ s, units_ok (sp_kind s)) (raw_spans text).
Proof.
  assert (∀ start value kind critical, units_ok kind → Forall (λ s, units_ok (sp_kind s)) (add start value kind critical)) as Ha.
  { intros start value kind critical Hk. unfold add. destruct (real value); [by apply Forall_singleton|apply Forall_nil_2]. }
  assert (∀ A (f : A → list SecretSpan) l, (∀ x, Forall (λ s, units_ok (sp_kind s)) (f x)) → Forall (λ s, units_ok (sp_kind s)) (flat_map f l)) as Hf.
  { intros A f l H. apply Forall_forall. intros s (x & _ & Hs)%elem_flat_map. specialize (H x). rewrite Forall_forall in H. by apply H. }
  unfold raw_spans. rewrite !Forall_app. split_and!.
  - apply Forall_forall. intros s (f & Hin & Hs)%elem_flat_map. assert (units_ok f.2) as Hk.
    { assert (Forall (λ f, units_ok f.2) formats) as H by (unfold formats; repeat (apply Forall_cons_2; [cbn [snd]; lit_ok|]); apply Forall_nil_2). rewrite Forall_forall in H. by apply H. }
    apply elem_flat_map in Hs as (m & _ & Hs). specialize (Ha (rm_index m) (rm_text m) f.2 true Hk). rewrite Forall_forall in Ha. by apply Ha.
  - apply Hf. intros m. cbv zeta. apply Ha. lit_ok.
  - apply Hf. intros m. cbv zeta. destruct (lastIndexOf _ _); [apply Ha; lit_ok|apply Forall_nil_2].
  - unfold assignment_spans. generalize (S (length text)), O. induction n as [|n IH]; intros i; cbn [assignments_from]; [apply Forall_nil_2|].
    destruct (exec_at assignment text i) as [m|]; [|apply Forall_nil_2]. unfold assignment_value. cbv zeta. destruct (_ && _ && _); [apply IH|].
    destruct (_ && _ && _); [apply IH|]. apply Forall_app. split; [apply Ha; lit_ok|apply IH].
  - apply Hf. intros m. cbv zeta. apply Ha. lit_ok.
Qed.
Lemma credential_units text : hits_units (credentialHits text).
Proof.
  assert (∀ l merged, Forall (λ s, units_ok (sp_kind s)) l → Forall (λ s, units_ok (sp_kind s)) merged → Forall (λ s, units_ok (sp_kind s)) (foldl merge_span merged l)) as Hm.
  { induction l as [|s l IH]; intros merged Hl Hmg; [done|]. apply Forall_cons in Hl as [Hs Hl]. cbn [foldl]. apply IH; [done|]. unfold merge_span.
    destruct merged as [|x merged]; [by apply Forall_singleton|]. apply Forall_cons in Hmg as [Hx Hmg]. destruct (_ <? _)%nat; [|by repeat apply Forall_cons_2].
    apply Forall_cons_2; [|done]. cbn [sp_kind]. by destruct (sp_critical s). }
  unfold hits_units, credentialHits. apply Forall_map. unfold secretSpans. apply Forall_rev. eapply Forall_impl.
  - apply Hm; [|apply Forall_nil_2]. rewrite (sort_by_perm span_order (raw_spans text)). apply kinds_units.
  - intros s Hs. cbn. apply (units_app (js "credential")); [lit_ok|]. apply (units_app [46]); [lit_ok|done].
Qed.

Lemma source_units content path root scan : sourceHits scanTypeScript scanBash content path root = Some scan → hits_units (sc_hits scan).
Proof.
  destruct Hscan as [Hts Hsh]. unfold sourceHits, hits_units. destruct (test typescript_file path); [|destruct (test shell_file path || test shell_shebang content)].
  - destruct (scanTypeScript _ _) as [s|] eqn:E; [|done]. intros [= <-]. cbn [sc_hits]. apply Forall_app. split; [apply credential_units|by eapply Hts].
  - destruct (scanBash _ _ _) as [s|] eqn:E; [|done]. intros [= <-]. cbn [sc_hits]. apply Forall_app. split; [apply credential_units|by eapply Hsh].
  - intros [= <-]. apply credential_units.
Qed.

Lemma fold_option_inv {A B} (P : A → Prop) (Q : B → Prop) (f : A → B → option A) l a a' :
  (∀ a x a', P a → Q x → f a x = Some a' → P a') → Forall Q l → P a → fold_option f a l = Some a' → P a'.
Proof.
  intros Hf Hl. unfold fold_option. revert a. induction Hl as [|x l Hx _ IH]; intros a Ha H; [by injection H as <-|]. cbn [foldl mbind option_bind] in H.
  destruct (f a x) as [b|] eqn:E; [|by rewrite fold_none in H]. by eapply IH, H; eapply Hf.
Qed.

Section Params.
Context (p : EvaluateParams) (Hp : params_units p).

Lemma hit_step_units f acc h : units_ok (fl_path f) → units_ok (h_ruleId h) → eval_units acc.2 → eval_units (hit_step date_parse clock p f acc h).2.
Proof.
  intros Hf Hh Hst. destruct acc as [previous st]. cbn [snd] in Hst. assert (path_units (Some (fl_path f))) as Hpath by (by intros q [= <-]).
  unfold hit_step. destruct (get _ _) as [[|n]|]; cbn [snd]; apply append_units; try done. by apply note_units; [lit_ok|].
Qed.
Lemma file_step_units st f st' : units_ok (fl_path f) → eval_units st → file_step date_parse clock scanTypeScript scanBash p st f = Some st' → eval_units st'.
Proof.
  intros Hf Hst. unfold file_step. cbv zeta. destruct (sourceHits _ _ _ _) as [scan|] eqn:E; [|done]. cbn [mbind option_bind]. destruct (previous_hits _ _ _ _) as [before|]; [|done].
  cbn [mbind option_bind]. intros [= <-]. apply source_units in E. unfold hits_units in E.
  set (acc := (count_hits _, _)). assert (eval_units acc.2) as Ha by done. clearbody acc. revert acc Ha. induction E as [|h hits Hh _ IH]; intros acc Ha; [done|]. cbn [foldl].
  apply IH. by apply hit_step_units.
Qed.
Lemma argument_step_units st text : eval_units st → eval_units (argument_step date_parse clock p st text).
Proof. intros Hst. unfold argument_step. destruct (existsb _ _); [done|]. by apply appends_units; [apply credential_units|intros q ?|]. Qed.
Lemma target_units t : hits_units (target_hits p t).
Proof.
  unfold hits_units, target_hits. rewrite !Forall_app. split_and!.
  - destruct (within _ _); [apply Forall_nil_2|apply Forall_singleton; lit_ok].
  - destruct (existsb _ _); [apply Forall_singleton; lit_ok|apply Forall_nil_2].
  - destruct (sensitivePath _); [apply Forall_singleton; lit_ok|apply Forall_nil_2].
Qed.
Lemma target_step_units st t st' : units_ok (tg_resolvedPath t) → eval_units st → target_step date_parse clock p st t = Some st' → eval_units st'.
Proof. intros Ht Hst. unfold target_step. cbv zeta. destruct (_ || _); [done|]. intros [= <-]. apply appends_units; [apply target_units|by intros q [= <-]|done]. Qed.
Lemma tool_step_units st st' : eval_units st → tool_step date_parse clock scanBash p st = Some st' → eval_units st'.
Proof.
  intros Hst. destruct Hscan as [_ Hsh]. unfold tool_step. destruct (test shell_tool _).
  - destruct (command_of p) as [[| | |command| |]|]; try (by intros [= <-]).
    destruct (scanBash _ _ _) as [scan|] eqn:E; [|done]. cbn [mbind option_bind]. intros [= <-]. by apply appends_units; [eapply Hsh|intros q ?|].
  - destruct (test file_tool _); [by intros [= <-]|]. destruct (get _ _); by intros [= <-].
Qed.
Lemma scan_all_units st : scan_all date_parse clock scanTypeScript scanBash p = Some st → eval_units st.
Proof.
  destruct Hp as [Hf Ht _]. unfold scan_all. destruct (fold_option _ _ (ep_files p)) as [st1|] eqn:E1; [|done]. cbn [mbind option_bind].
  destruct (arguments p) as [argsText|]; [|done]. cbn [mbind option_bind]. destruct (fold_option _ _ (ep_paths p)) as [st2|] eqn:E2; [|done]. cbn [mbind option_bind].
  apply tool_step_units.
  eapply (fold_option_inv eval_units _ _ _ _ _ (λ a x a' Ha Hx, target_step_units a x a' Hx Ha) Ht); [|exact E2].
  assert (eval_units st1) as H1.
  { eapply (fold_option_inv eval_units _ _ _ _ _ (λ a x a' Ha Hx, file_step_units a x a' Hx Ha) Hf); [|exact E1]. split; apply Forall_nil_2. }
  clear -H1 Hscan. revert st1 H1. induction argsText as [|text l IH]; intros st1 H1; [done|]. cbn [foldl]. apply IH. by apply argument_step_units.
Qed.
End Params.

Lemma version_units params : json_ok params → units_ok (version iso_datetime (field (js "policy") params)).
Proof.
  intros Hj. unfold version. destruct (field _ params) as [v|] eqn:E; [|lit_ok]. cbn [mbind option_bind]. destruct (policy_of iso_datetime v) as [p|] eqn:Ep; [|lit_ok].
  apply units_redact. eapply policy_units; [|exact Ep]. destruct params as [| | | | |l]; try done. by eapply member_ok.
Qed.

Lemma evaluate_tool_units params : json_ok params →
  let d := evaluateTool iso_datetime date_parse clock scanTypeScript scanBash params in
  Forall local_units (dc_findings d) ∧ Forall units_ok (dc_diagnostics d) ∧ units_ok (dc_policyVersion d).
Proof.
  intros Hj. pose proof (version_units params Hj) as Hv. cbv zeta. unfold evaluateTool. cbv zeta.
  assert (∀ v, units_ok v → Forall local_units (dc_findings (unavailable v)) ∧ Forall units_ok (dc_diagnostics (unavailable v)) ∧ units_ok (dc_policyVersion (unavailable v))) as Hu.
  { intros v ?. split_and!; [apply Forall_nil_2|apply Forall_singleton; lit_ok|done]. }
  destruct (texts params); [|by apply Hu]. destruct (evaluate_of _ params) as [p|] eqn:E; [|by apply Hu]. apply evaluate_units in E; [|done].
  destruct (scan_all _ _ _ _ p) as [st|] eqn:Es; [|by apply Hu]. apply scan_all_units in Es; [|done].
  set (st' := if ev_partial st then _ else _). assert (eval_units st') as [H1 H2] by (unfold st'; destruct (ev_partial st); [apply note_units; [lit_ok|done]|done]).
  destruct (4096 <? zlen (ev_findings st')); [by apply Hu|]. by split_and!.
Qed.
End Units.

(** What the schema has checked and consists of strings can be read back. *)
Definition finding_strings (f : Finding) : Prop :=
  units_ok (fi_ruleId f) ∧ units_ok (fi_message f) ∧ units_ok (fi_remediation f) ∧ (∀ l p, fi_location f = Some l → lo_path l = Some p → units_ok p).
Definition scan_strings (r : ScanResult) : Prop :=
  match r with
  | ScDecision d => Forall finding_strings (sd_findings d) ∧ Forall units_ok (sd_diagnostics d) ∧ units_ok (sd_policyVersion d)
  | ScSanitized r => Forall units_ok (sr_fields r) ∧ units_ok (sr_policyVersion r)
  end.

Lemma position_json n z : positive_of (JNum (NInt n)) = Some z → json_ok (JNum (NInt n)).
Proof. unfold positive_of. cbn [num_of mbind option_bind]. destruct (is_safe_integer n) eqn:E; [intros _; by apply ok_int|done]. Qed.
Lemma finding_json f g : finding_strings f → securityFindingSchema (json_of_finding f) = Some g → json_ok (json_of_finding f).
Proof.
  intros (H1 & H2 & H3 & H4) Hs. destruct f as [ruleId category severity confidence message remediation location].
  cbn [fi_ruleId fi_message fi_remediation fi_location] in *. unfold json_of_finding in *. cbn [fi_ruleId fi_category fi_severity fi_confidence fi_message fi_remediation fi_location] in *.
  assert (∀ c, units_ok (category_name c)) as Hc by (intros []; lit_ok). assert (∀ s, units_ok (severity_name s)) as Hv by (intros []; lit_ok).
  destruct location as [l|]; cbn [opt_field app] in *.
  - unfold securityFindingSchema in Hs. cbn [fields_of mbind option_bind] in Hs. do 6 (apply bind_Some in Hs as (? & _ & Hs)). apply bind_Some in Hs as (m & Hm & _).
    revert Hm. read_keys. intros Hm. apply fmap_Some in Hm as (l' & Hl & ->).
    keys_ok. members_ok; try by apply ok_str. clear Hc Hv. destruct l as [path line column]. unfold json_of_location in *. cbn [lo_path lo_line lo_column] in *.
    unfold location_of in Hl. cbn [fields_of mbind option_bind] in Hl. apply bind_Some in Hl as (? & _ & Hl). apply bind_Some in Hl as (ln & Hx & Hl). apply bind_Some in Hl as (cn & Hy & _).
    revert Hx Hy. destruct path as [path|], line as [line|], column as [column|]; read_keys; intros Hx Hy; keys_ok; members_ok;
      try (apply ok_str; by eapply H4); try (apply fmap_Some in Hx as (? & Hx & _); by eapply position_json); apply fmap_Some in Hy as (? & Hy & _); by eapply position_json.
  - keys_ok. members_ok; by apply ok_str.
Qed.

Lemma findings_json l r : Forall finding_strings l → mapM securityFindingSchema (map json_of_finding l) = Some r → Forall json_ok (map json_of_finding l).
Proof.
  intros Hl Hm. apply mapM_Some in Hm. revert r Hm. induction Hl as [|f l Hf _ IH]; intros r Hm; [apply Forall_nil_2|]. cbn [map] in *.
  apply Forall2_cons_inv_l in Hm as (g & r' & Hg & Hm & ->). apply Forall_cons_2; [by eapply finding_json|by eapply IH].
Qed.

Lemma scan_json r : result_valid r = true → scan_strings r → json_ok (json_of_scan r).
Proof.
  intros [_ Hs]%andb_true_iff Hu. destruct r as [[decision coverage findings policyVersion diagnostics]|[fields redactions coverage policyVersion]];
    cbn [scan_strings sd_findings sd_diagnostics sd_policyVersion sr_fields sr_policyVersion] in Hu; apply bool_decide_eq_true_1 in Hs as [v Hs];
    cbn [json_of_scan sd_decision sd_coverage sd_findings sd_policyVersion sd_diagnostics sr_fields sr_redactions sr_coverage sr_policyVersion] in *.
  - destruct Hu as (H1 & H2 & H3). unfold securityDecisionSchema in Hs. cbn [fields_of mbind option_bind] in Hs. do 2 (apply bind_Some in Hs as (? & _ & Hs)).
    apply bind_Some in Hs as (l & Hl & _). revert Hl. read_keys. intros Hl%array_some. keys_ok. members_ok.
    + apply ok_str. destruct decision; lit_ok.
    + apply ok_str. destruct coverage; lit_ok.
    + apply ok_arr. by eapply findings_json.
    + by apply ok_str.
    + by apply ok_strs.
  - destruct Hu as (H1 & H2). unfold securitySanitizeResultSchema in Hs. cbn [fields_of mbind option_bind] in Hs. apply bind_Some in Hs as (? & _ & Hs).
    apply bind_Some in Hs as (n & Hn & _). revert Hn. read_keys. cbn [mbind option_bind count_of]. intros Hn. keys_ok. members_ok.
    + by apply ok_strs.
    + apply ok_int. by destruct (is_safe_integer (Z.of_nat redactions)) eqn:E.
    + apply ok_str. destruct coverage; lit_ok.
    + by apply ok_str.
Qed.

(** ** What an answer stands for *)

(** How strict a decision is when two are put together. *)
Definition rank (d : Decision) : nat := match d with Allow => 0 | Warn => 1 | Unavailable => 2 | Deny => 3 end.
(** A finding of a firewall as it is passed on: its class and its position, none of its text. *)
Definition generic (f : Finding) : Prop :=
  fi_ruleId f = js "external-firewall." ++ category_name (fi_category f)
  ∧ fi_message f = js "The configured firewall detected a security risk." ∧ fi_remediation f = js "Review the operation against the configured firewall policy."
  ∧ ∀ l, fi_location f = Some l → lo_path l = None.
(** [d] is the local decision, tightened by an accepted reply. *)
Record tightened (local d : ScanDecision) : Prop := {
  ti_rank : (rank (sd_decision local) <= rank (sd_decision d))%nat;
  ti_complete : sd_coverage d = CvComplete → sd_coverage local = CvComplete;
  ti_version : sd_policyVersion d = sd_policyVersion local;
  ti_findings : ∃ more, sd_findings d = sd_findings local ++ more ∧ Forall generic more
    ∧ (∀ f, f ∈ more → fi_severity f = SvCritical → fi_confidence f = SvHigh → sd_decision d = Deny) }.
Lemma tightened_refl d : tightened d d.
Proof. constructor; [done|done|done|]. exists []. rewrite app_nil_r. split_and!; [done|apply Forall_nil_2|]. intros f Hf. by apply elem_of_nil in Hf. Qed.
Lemma combine_tightened iso_datetime p reply local external : callFirewall iso_datetime p reply = Ok external → tightened local (combine local external).
Proof.
  unfold callFirewall. destruct (invoke reply) as [v|]; [|done]. destruct (boundedInput v); [|done]. cbn [negb]. destruct (securityDecisionSchema v) as [d|]; [|done].
  destruct (_ || _); [done|]. intros [= <-]. unfold combine. constructor; cbn [sd_decision sd_coverage sd_findings sd_policyVersion].
  - generalize (if existsb critical (sd_findings d) then Deny else sd_decision d). intros b. destruct (sd_decision local), b; vm_compute; lia.
  - repeat (case_bool_decide; cbn [andb]); congruence.
  - done.
  - eexists. split; [reflexivity|]. split.
    + apply Forall_map, Forall_forall. intros f _. unfold generic, external_finding. cbn. split_and!; [done..|]. intros l (l' & _ & ->)%fmap_Some. done.
    + intros f (f' & -> & Hf')%list_elem_of_fmap Hs Hc. assert (existsb critical (sd_findings d) = true) as ->.
      { apply existsb_exists. exists f'. split; [by apply list_elem_of_In|]. unfold critical. cbn [external_finding fi_severity fi_confidence] in Hs, Hc. by rewrite !bool_decide_true. }
      by rewrite (bool_decide_true (Deny = Deny)), orb_true_r by done.
Qed.

(** Every field was redacted by the local scanner, or all are withheld. *)
Definition cleaned (fields : list jstr) (r : SanitizeResult) : Prop :=
  length (sr_fields r) = length fields
  ∧ ((∃ texts, sr_fields r = map (λ s, (redact s).1) texts ∧ sr_coverage r = CvComplete) ∨ sr_fields r = map (λ _, WITHHELD_TEXT) fields ∧ sr_coverage r = CvUnsupported).

(** Readings of the clock between two moments, in order. *)
Definition readings (from until : Z) (clock : nat → Z) : Prop := (∀ k, from <= clock k <= until) ∧ ∀ i j, (i <= j)%nat → clock i <= clock j.

Section Engine.
Context (iso_datetime : jstr → bool) (date_parse : jstr → option Z).
Context (scanTypeScript : jstr → jstr → option Scan) (scanBash : jstr → jstr → jstr → option Scan).
Context (sha256Hex : bytes → jstr) (firewall redactor : option jstr) (PARSER_VERSION : jstr).
#[local] Abbreviation local_at := (local_evaluate iso_datetime date_parse scanTypeScript scanBash).
#[local] Abbreviation sanitize_now := (local_sanitize iso_datetime).
#[local] Abbreviation until := (expiry date_parse).
#[local] Abbreviation key_of := (cacheKey sha256Hex firewall redactor PARSER_VERSION).
#[local] Abbreviation scan_now := (scan iso_datetime date_parse scanTypeScript scanBash firewall redactor).
#[local] Abbreviation answer_now := (answer iso_datetime date_parse scanTypeScript scanBash sha256Hex firewall redactor PARSER_VERSION).
#[local] Abbreviation request_now := (request iso_datetime date_parse scanTypeScript scanBash sha256Hex firewall redactor PARSER_VERSION).

Definition accepted (op : VsecOperation) (params : VsecParams) : Prop := ∃ v, parse_params iso_datetime op v = Some params.

(** [r] is what the parameters give when the clock reads [clock], with an accepted
    reply of the adapter if there is an adapter. *)
Definition right_at (params : VsecParams) (clock : nat → Z) (r : ScanResult) : Prop :=
  match params with
  | PrEvaluate p _ =>
    let local := local_at clock (json_of_params params) in
    match firewall with
    | None => r = ScDecision local
    | Some _ => ∃ reply external, callFirewall iso_datetime p reply = Ok external ∧ r = ScDecision (combine local external)
    end
  | PrSanitize p =>
    match redactor with
    | None => r = ScSanitized (sanitize_now p)
    | Some _ => ∃ reply s, callRedactor iso_datetime p reply = Ok s ∧ r = ScSanitized s
    end
  end.
(** [r] is the answer to a request whose adapter fails. *)
Definition failing (rq : VsecRequest) (params : VsecParams) (r : ScanResult) : Prop :=
  match params with
  | PrEvaluate p _ => firewall ≠ None ∧ ∃ e version, callFirewall iso_datetime p (rq_adapter rq) = Throw e
      ∧ r = ScDecision (mkScanDecision Unavailable CvUnsupported [] version [category_text e])
  | PrSanitize p => redactor ≠ None ∧ ∃ e version, callRedactor iso_datetime p (rq_adapter rq) = Throw e ∧ r = ScSanitized (withheld_result p version)
  end.
Lemma failing_uncached rq params r : failing rq params r → cacheable r = false.
Proof. destruct params; intros (_ & e & version & _ & ->); done. Qed.

(** The readings of a request's clock, and strings that are strings. *)
Record request_ok (rq : VsecRequest) : Prop := {
  ro_looked : rq_started rq <= rq_looked rq;
  ro_scanned : readings (rq_looked rq) (rq_answered rq) (rq_scanned rq);
  ro_rescanned : readings (rq_answered rq) (rq_stored rq) (rq_rescanned rq);
  ro_json : ∀ params, parse_params iso_datetime (rq_op rq) (rq_params rq) = Some params → json_ok (json_of_params params);
  ro_adapter : ∀ v, rq_adapter rq = Returned v → json_ok v }.
Lemma clock_order rq : request_ok rq → rq_started rq <= rq_looked rq ∧ rq_looked rq <= rq_answered rq ∧ rq_answered rq <= rq_stored rq.
Proof. intros [H1 [H2 _] [H3 _] _ _]. specialize (H2 O). specialize (H3 O). lia. Qed.
Lemma readings_in a b a' b' clock : a' <= a → b <= b' → readings a b clock → readings a' b' clock.
Proof. intros Ha Hb [H1 H2]. split; [|done]. intros k. specialize (H1 k). lia. Qed.
Lemma constant_readings a b t : a <= t <= b → readings a b (λ _, t).
Proof. by split. Qed.

(** *** One evaluation *)

(** Readings before the first exception ends. *)
Definition within_window (s : Z) (e : option Z) (clock : nat → Z) : Prop := ∀ k, s <= clock k ∧ expired (clock k) e = false.
Lemma local_same s p incomplete clock clock' :
  within_window s (until s (ep_policy p)) clock → within_window s (until s (ep_policy p)) clock' →
  local_at clock (json_of_evaluate p incomplete) = local_at clock' (json_of_evaluate p incomplete).
Proof.
  intros Hc Hc'. unfold local_evaluate. f_equal. apply evaluate_same. intros p' Hp'%evaluate_reread. unfold same_exceptions. rewrite Hp'.
  apply Forall_forall. intros e Hin k. destruct (Hc k) as [H1 H2], (Hc' k) as [H1' H2'].
  pose proof (window_in_force date_parse s (clock k) _ H1 H2) as W. pose proof (window_in_force date_parse s (clock' k) _ H1' H2') as W'.
  rewrite Forall_forall in W, W'. by rewrite W, W'.
Qed.
Lemma expired_mono t t' e : t <= t' → expired t' e = false → expired t e = false.
Proof. unfold expired. destruct e; [lia|done]. Qed.

Lemma sanitize_reread p p' : sanitize_of iso_datetime (json_of_sanitize p) = Some p' → sn_fields p' = sn_fields p.
Proof.
  unfold sanitize_of, json_of_sanitize. cbn [fields_of mbind option_bind]. intros H. apply bind_Some in H as (? & _ & H). apply bind_Some in H as (fields & Hf & H).
  apply bind_Some in H as (? & _ & [= <-]). cbn [sn_fields]. revert Hf. read_keys. intros Hf%array_some.
  revert fields Hf. generalize (sn_fields p). induction l as [|s l IH]; intros fields Hf; [by injection Hf as <-|]. cbn [map] in Hf. apply mapM_Some in Hf.
  apply Forall2_cons_inv_l in Hf as (s' & fields' & Hs & Hf & ->). f_equal; [by apply strict_str in Hs|]. apply IH. by apply mapM_Some.
Qed.
Lemma fields_field p : field (js "fields") (json_of_sanitize p) = Some (JArr (map JStr (sn_fields p))).
Proof. unfold json_of_sanitize. cbn [field]. by read_keys. Qed.
Lemma local_cleaned p : (length (sn_fields p) <= 1024)%nat → cleaned (sn_fields p) (sanitize_now p).
Proof.
  intros Hl. unfold local_sanitize, sanitizeFields, cleaned. cbv zeta.
  rewrite fields_field.
  destruct (sanitize_of _ _) as [p'|] eqn:E; [destruct (texts _)|]; cbn [sr_fields sr_coverage].
  - apply sanitize_reread in E as <-. rewrite !length_map. split; [done|]. left. exists (sn_fields p'). by rewrite map_map.
  - rewrite length_replicate, length_map, Nat.min_l by done. split; [done|]. right. split; [|done]. generalize (sn_fields p). induction l; [done|]. cbn [map length replicate]. by f_equal.
  - rewrite length_replicate, length_map, Nat.min_l by done. split; [done|]. right. split; [|done]. generalize (sn_fields p). induction l; [done|]. cbn [map length replicate]. by f_equal.
Qed.
Lemma sanitize_bound v p : sanitize_of iso_datetime v = Some p → (length (sn_fields p) <= 1024)%nat.
Proof.
  unfold sanitize_of. intros H. apply bind_Some in H as (? & _ & H). apply bind_Some in H as (? & _ & H). apply bind_Some in H as (fields & Hf & H).
  apply bind_Some in H as (? & _ & [= <-]). cbn [sn_fields]. unfold req in Hf. apply bind_Some in Hf as (w & _ & [_ Hf]%check_some). by apply Nat.leb_le in Hf.
Qed.

Lemma redactor_cleaned p reply r : (length (sn_fields p) <= 1024)%nat → callRedactor iso_datetime p reply = Ok r → cleaned (sn_fields p) r.
Proof.
  intros Hl. unfold callRedactor. destruct (invoke reply) as [v|]; [|done]. destruct (boundedInput v); [|done]. cbn [negb].
  destruct (securitySanitizeResultSchema v) as [s|]; [|done]. destruct (length (sr_fields s) =? length (sn_fields p))%nat eqn:En; [|done]. apply Nat.eqb_eq in En. cbn [negb orb].
  case_bool_decide; [|done]. cbn [negb]. cbv zeta. set (q := mkSanitize _ _ _). destruct (local_cleaned q) as [H1 H2]; [cbn [q sn_fields]; lia|].
  case_bool_decide as Hc; [|done]. cbn [negb]. intros [= <-]. unfold cleaned. cbn [sr_fields sr_coverage]. split; [rewrite H1; exact En|].
  destruct H2 as [H2|[_ H2]]; [by left|congruence].
Qed.

Lemma accepted_sanitize op p : accepted op (PrSanitize p) → op = VoSanitize ∧ (length (sn_fields p) <= 1024)%nat.
Proof.
  intros [v H]. destruct op; cbn [parse_params] in H.
  - apply bind_Some in H as (? & _ & H). by apply bind_Some in H as (? & _ & H).
  - apply fmap_Some in H as (q & H & [= ->]). split; [done|]. by eapply sanitize_bound.
  - apply bind_Some in H as (? & _ & H). by apply bind_Some in H as (? & _ & H).
Qed.

(** The readings of the evaluation a fresh result is made of. *)
Definition clock_of (rq : VsecRequest) (params : VsecParams) : nat → Z :=
  match firewall with
  | Some _ => if expired (rq_answered rq) (until (rq_started rq) (policy_of_params params)) then rq_rescanned rq else rq_scanned rq
  | None => rq_scanned rq
  end.
Lemma clock_of_readings rq params : request_ok rq → readings (rq_started rq) (rq_stored rq) (clock_of rq params).
Proof.
  intros Hrq. pose proof (clock_order rq Hrq). destruct Hrq as [_ H2 H3 _ _]. unfold clock_of.
  destruct firewall; [destruct (expired _ _)|]; [eapply readings_in, H3; lia|eapply readings_in, H2; lia..].
Qed.
Lemma scan_at rq params : failing rq params (scan_now rq params) ∨ right_at params (clock_of rq params) (scan_now rq params).
Proof.
  destruct params as [p incomplete|p]; cbn [scan failing right_at policy_of_params clock_of].
  - unfold clock_of. cbn [policy_of_params]. destruct firewall as [version|]; [|by right]. set (j := json_of_params _).
    assert ((if expired (rq_answered rq) (until (rq_started rq) (ep_policy p)) then local_at (rq_rescanned rq) j else local_at (rq_scanned rq) j)
      = local_at (if expired (rq_answered rq) (until (rq_started rq) (ep_policy p)) then rq_rescanned rq else rq_scanned rq) j) as -> by by destruct (expired _ _).
    destruct (callFirewall _ _ _) as [external|e] eqn:E; [right; by exists (rq_adapter rq), external|left]. split; [done|]. by exists e, (sd_policyVersion (local_at (if expired (rq_answered rq) (until (rq_started rq) (ep_policy p)) then rq_rescanned rq else rq_scanned rq) j)).
  - destruct redactor as [version|]; [|by right]. destruct (callRedactor _ _ _) as [s|e] eqn:E; [right; by exists (rq_adapter rq), s|left]. split; [done|]. by exists e, (sr_policyVersion (sanitize_now p)).
Qed.
Lemma right_decision p incomplete clock r : right_at (PrEvaluate p incomplete) clock r →
  ∃ d, r = ScDecision d ∧ tightened (local_at clock (json_of_evaluate p incomplete)) d.
Proof.
  cbn [right_at json_of_params]. cbv zeta. destruct firewall as [version|].
  - intros (reply & external & Hc & ->). eexists. split; [reflexivity|]. by eapply combine_tightened.
  - intros ->. eexists. split; [reflexivity|]. apply tightened_refl.
Qed.
Lemma redactor_complete p reply r : callRedactor iso_datetime p reply = Ok r → sr_coverage r = CvComplete.
Proof.
  unfold callRedactor. destruct (invoke reply) as [v|]; [|done]. destruct (boundedInput v); [|done]. cbn [negb]. destruct (securitySanitizeResultSchema v) as [s|]; [|done].
  destruct (_ || _); [done|]. cbv zeta. case_bool_decide as Hc; [|done]. cbn [negb]. intros [= <-]. exact Hc.
Qed.
(** What is right for some readings is right for all others while no exception ends. *)
Lemma right_window params s clock clock' r : within_window s (until s (policy_of_params params)) clock → within_window s (until s (policy_of_params params)) clock' →
  right_at params clock r → right_at params clock' r.
Proof.
  destruct params as [p incomplete|p]; [|done]. cbn [policy_of_params]. intros H H'. pose proof (local_same s p incomplete clock clock' H H') as E.
  cbn [right_at json_of_params]. by rewrite E.
Qed.

(** *** Results are strings that can be read back *)

Context (Hscan : scanners_ok scanTypeScript scanBash).

Lemma policy_version_units p : units_ok (pl_version p) → units_ok (version iso_datetime (Some (json_of_policy p))).
Proof.
  intros Hp. unfold version. cbn [mbind option_bind]. destruct (policy_of iso_datetime _) as [p'|] eqn:E; [|lit_ok]. apply units_redact.
  unfold policy_of, json_of_policy in E. cbn [fields_of mbind option_bind] in E. apply bind_Some in E as (v & Hv & E). do 3 (apply bind_Some in E as (? & _ & E)).
  injection E as <-. cbn [pl_version]. revert Hv. unfold defaulted. read_keys. unfold identifier. by intros Hv%strict_str; subst.
Qed.
Lemma local_strings p : Forall units_ok (sn_fields p) → units_ok (pl_version (sn_policy p)) →
  Forall units_ok (sr_fields (sanitize_now p)) ∧ units_ok (sr_policyVersion (sanitize_now p)).
Proof.
  intros Hf Hp%policy_version_units. unfold local_sanitize, sanitizeFields. cbv zeta.
  assert (field (js "policy") (json_of_sanitize p) = Some (json_of_policy (sn_policy p))) as -> by (unfold json_of_sanitize; cbn [field]; by read_keys).
  destruct (sanitize_of _ _) as [p'|] eqn:E; [destruct (texts _)|]; cbn [sr_fields sr_policyVersion]; (split; [|done]).
  - apply sanitize_reread in E. rewrite E, map_map. apply Forall_map. eapply Forall_impl; [exact Hf|]. intros s Hs. by apply units_redact.
  - apply Forall_replicate. unfold WITHHELD_TEXT. lit_ok.
  - apply Forall_replicate. unfold WITHHELD_TEXT. lit_ok.
Qed.

Lemma units_strs l : json_ok (JArr (map JStr l)) → Forall units_ok l.
Proof. intros H. inversion H as [| | | |? Hl|]; subst. rewrite Forall_map in Hl. eapply Forall_impl; [exact Hl|]. intros s Hs. by inversion Hs. Qed.
Lemma policy_json_units p : json_ok (json_of_policy p) → units_ok (pl_version p).
Proof. intros H. apply (member_ok _ (js "version") (JStr (pl_version p))) in H; [by inversion H|by read_keys]. Qed.
Lemma sanitize_json_units p : json_ok (json_of_sanitize p) → Forall units_ok (sn_fields p) ∧ units_ok (pl_version (sn_policy p)).
Proof.
  intros H. split.
  - apply units_strs. eapply (member_ok _ (js "fields")); [exact H|by read_keys].
  - apply policy_json_units. eapply (member_ok _ (js "policy")); [exact H|by read_keys].
Qed.
Lemma evaluate_json_units p incomplete : json_ok (json_of_evaluate p incomplete) → units_ok (pl_version (ep_policy p)).
Proof. intros H. apply policy_json_units. eapply (member_ok _ (js "policy")); [exact H|by read_keys]. Qed.

Lemma local_at_strings clock j : json_ok j → scan_strings (ScDecision (local_at clock j)).
Proof.
  intros Hj. destruct (evaluate_tool_units iso_datetime date_parse clock scanTypeScript scanBash Hscan j Hj) as (H1 & H2 & H3).
  cbn [scan_strings local_evaluate decision_of_local sd_findings sd_diagnostics sd_policyVersion]. unfold local_evaluate, decision_of_local. cbn [sd_findings sd_diagnostics sd_policyVersion].
  split_and!; [|done|done]. apply Forall_map. eapply Forall_impl; [exact H1|]. intros f (F1 & F2 & F3 & F4). cbn.
  split_and!; [done|done|done|]. intros l q [= <-]. cbn [lo_path]. apply F4.
Qed.

Lemma scan_is_strings rq params : request_ok rq → parse_params iso_datetime (rq_op rq) (rq_params rq) = Some params → scan_strings (scan_now rq params).
Proof.
  intros [_ _ _ Hj Hadapter] Hp. specialize (Hj _ Hp). destruct params as [p incomplete|p]; cbn [scan json_of_params] in *.
  - destruct firewall as [version|]; [|by apply local_at_strings]. set (l := if expired _ _ then _ else _).
    assert (scan_strings (ScDecision l)) as (L1 & L2 & L3) by (unfold l; destruct (expired _ _); by apply local_at_strings).
    unfold callFirewall. set (c := match invoke _ with Ok v => _ | Throw e => _ end).
    assert (match c with Ok e => Forall finding_strings (sd_findings e) ∧ Forall units_ok (sd_diagnostics e) | Throw _ => True end) as Hc.
    { unfold c. destruct (invoke _) as [v|]; [|done]. destruct (boundedInput v); [|done]. cbn [negb]. destruct (securityDecisionSchema v) as [d|]; [|done].
      destruct (_ || _); [done|]. cbn [sd_findings sd_diagnostics]. split; [|case_bool_decide; [apply Forall_singleton; lit_ok|apply Forall_nil_2]].
      apply Forall_map. apply Forall_forall. intros f _. cbn. split_and!; [|lit_ok|lit_ok|].
      - apply (units_app (js "external-firewall.")); [lit_ok|destruct (fi_category f); lit_ok].
      - intros l' q H H'. apply fmap_Some in H as (l0 & _ & ->). discriminate H'. }
    destruct c as [e|c']; cbn [scan_strings sd_findings sd_diagnostics sd_policyVersion combine].
    + destruct Hc. split_and!; [by apply Forall_app|by apply Forall_app|done].
    + split_and!; [apply Forall_nil_2|apply Forall_singleton; destruct c'; lit_ok|done].
  - apply sanitize_json_units in Hj as [Hf Hv]. destruct (local_strings p Hf Hv) as [L1 L2]. destruct redactor as [version|]; [|by split].
    destruct (callRedactor _ _ _) as [r|c] eqn:E; cbn [scan_strings withheld_result sr_fields sr_policyVersion].
    + unfold callRedactor in E. destruct (rq_adapter rq) as [| |v]; try done. cbn [invoke] in E. destruct (boundedInput v); [|done]. cbn [negb] in E.
      destruct (securitySanitizeResultSchema v) as [s|] eqn:Es; [|done]. destruct (_ || _); [done|]. cbv zeta in E. destruct (negb _); [done|]. injection E as <-. cbn [sr_fields sr_policyVersion].
      apply local_strings; cbn [sn_fields sn_policy]; [|done].
      unfold securitySanitizeResultSchema in Es. apply bind_Some in Es as (l & Hl & Es). destruct v as [| | | | |l']; try done. injection Hl as ->.
      apply bind_Some in Es as (fields & Hfields & Es). do 3 (apply bind_Some in Es as (? & _ & Es)). injection Es as <-. cbn [sr_fields].
      apply req_ok in Hfields as (w & Hw & Hfields); [|by apply Hadapter]. apply elems_ok in Hfields; [|done]. eapply Forall_impl; [exact Hfields|].
      intros s (u & Hu & Hs). by eapply checked_units.
    + split; [|done]. apply Forall_map. apply Forall_forall. intros s _. unfold WITHHELD_TEXT. cbn. lit_ok.
Qed.

(** *** The cache only holds results that are right *)

Context (Hsha : ∀ a b, sha256Hex a = sha256Hex b → a = b).
Context (Hversions : units_ok PARSER_VERSION ∧ (∀ v, firewall = Some v → units_ok v) ∧ (∀ v, redactor = Some v → units_ok v)).

Lemma stringify_inj a b : json_ok a → json_ok b → utf8_encode (stringify a) = utf8_encode (stringify b) → a = b.
Proof.
  intros Ha Hb E. destruct (stringify_ok a Ha) as [Wa Ua]. destruct (stringify_ok b Hb) as [Wb Ub].
  apply (f_equal utf8_decode) in E. rewrite !utf8_decode_encode in E by done. apply (f_equal parse) in E. rewrite !parse_stringify in E by done. by injection E.
Qed.
Lemma key_inj op params op' params' : json_ok (json_of_params params) → json_ok (json_of_params params') → key_of op params = key_of op' params' →
  op = op' ∧ json_of_params params = json_of_params params'.
Proof.
  intros Hp Hp' E. unfold cacheKey in E. apply Hsha, stringify_inj in E.
  - injection E as E1 E2. split; [|done]. destruct op, op'; done.
  - apply ok_arr. repeat apply Forall_cons_2; [..|apply Forall_nil_2]; [apply ok_str; destruct op; lit_ok| |done]. apply ok_str. unfold adapter_versions. apply stringify_ok.
    destruct Hversions as (H1 & H2 & H3). apply ok_arr. repeat apply Forall_cons_2; [..|apply Forall_nil_2]; [by apply ok_str|destruct firewall; [apply ok_str; by apply H2|constructor]|destruct redactor; [apply ok_str; by apply H3|constructor]].
  - apply ok_arr. repeat apply Forall_cons_2; [..|apply Forall_nil_2]; [apply ok_str; destruct op'; lit_ok| |done]. apply ok_str. unfold adapter_versions. apply stringify_ok.
    destruct Hversions as (H1 & H2 & H3). apply ok_arr. repeat apply Forall_cons_2; [..|apply Forall_nil_2]; [by apply ok_str|destruct firewall; [apply ok_str; by apply H2|constructor]|destruct redactor; [apply ok_str; by apply H3|constructor]].
Qed.

Lemma map_JStr_inj l l' : map JStr l = map JStr l' → l = l'.
Proof. revert l'. induction l as [|s l IH]; intros [|s' l'] E; try done. injection E as -> E. f_equal. by apply IH. Qed.

(** What is right depends on the parameters as they are written. *)
Lemma version_same (namespace namespace' : Namespace) (policy policy' : SecurityPolicy) fields :
  json_of_namespace namespace = json_of_namespace namespace' → json_of_policy policy = json_of_policy policy' →
  json_of_sanitize (mkSanitize namespace fields policy) = json_of_sanitize (mkSanitize namespace' fields policy').
Proof. intros E1 E2. unfold json_of_sanitize. cbn [sn_namespace sn_policy sn_fields]. by rewrite E1, E2. Qed.
Lemma right_same op params params' clock r : accepted op params → accepted op params' → json_of_params params = json_of_params params' →
  right_at params clock r → right_at params' clock r.
Proof.
  intros Ha Ha' E. destruct params as [p i|p], params' as [p' i'|p']; cbn [json_of_params right_at] in *.
  - rewrite <- E. destruct firewall; [|done]. intros (reply & external & Hc & ->). exists reply, external. split; [|done]. rewrite <- Hc. unfold callFirewall, safe_version, local_sanitize.
    assert (json_of_namespace (ep_namespace p) = json_of_namespace (ep_namespace p')) as E1 by (apply (f_equal (field (js "namespace"))) in E; revert E; unfold json_of_evaluate; cbn [field]; read_keys; intros E; exact (inj Some _ _ E)).
    assert (json_of_policy (ep_policy p) = json_of_policy (ep_policy p')) as E2 by (apply (f_equal (field (js "policy"))) in E; revert E; unfold json_of_evaluate; cbn [field]; read_keys; intros E; exact (inj Some _ _ E)).
    by rewrite (version_same _ _ _ _ [] E1 E2).
  - apply accepted_sanitize in Ha' as [-> _]. destruct Ha as [v Ha]. cbn [parse_params] in Ha. apply fmap_Some in Ha as (? & _ & Ha). done.
  - apply accepted_sanitize in Ha as [-> _]. destruct Ha' as [v Ha']. cbn [parse_params] in Ha'. apply fmap_Some in Ha' as (? & _ & Ha'). done.
  - destruct redactor; [|intros ->; unfold local_sanitize; by rewrite E]. intros (reply & s & Hc & ->). exists reply, s. split; [|done]. rewrite <- Hc. unfold callRedactor, local_sanitize.
    assert (sn_fields p = sn_fields p') as Ef.
    { apply (f_equal (field (js "fields"))) in E. rewrite !fields_field in E. apply (inj Some) in E. injection E as E. by apply map_JStr_inj. }
    assert (json_of_namespace (sn_namespace p) = json_of_namespace (sn_namespace p')) as E1 by (apply (f_equal (field (js "namespace"))) in E; revert E; unfold json_of_sanitize; cbn [field]; read_keys; intros E; exact (inj Some _ _ E)).
    assert (json_of_policy (sn_policy p) = json_of_policy (sn_policy p')) as E2 by (apply (f_equal (field (js "policy"))) in E; revert E; unfold json_of_sanitize; cbn [field]; read_keys; intros E; exact (inj Some _ _ E)).
    rewrite Ef. destruct (invoke reply) as [v|]; [|done]. destruct (boundedInput v); [|done]. cbn [negb]. destruct (securitySanitizeResultSchema v) as [x|]; [|done].
    by rewrite (version_same _ _ _ _ (sr_fields x) E1 E2).
Qed.

Definition entry_sound (now : Z) (kv : jstr * Entry) : Prop :=
  ∃ op params s r, kv.1 = key_of op params ∧ accepted op params ∧ json_ok (json_of_params params)
  ∧ en_json kv.2 = stringify (json_of_scan r) ∧ json_ok (json_of_scan r) ∧ s <= now
  ∧ ∀ clock, within_window s (en_expiresAt kv.2) clock → right_at params clock r.
Definition sound (now : Z) (c : BoundedCache) : Prop := cache_ok c ∧ Forall (entry_sound now) (bc_entries c).

Lemma entry_later now now' kv : now <= now' → entry_sound now kv → entry_sound now' kv.
Proof. intros Hn (op & params & s & r & ? & ? & ? & ? & ? & ? & ?). exists op, params, s, r. split_and!; try done. lia. Qed.
Lemma sound_later now now' c : now <= now' → sound now c → sound now' c.
Proof. intros Hn [Hc He]. split; [done|]. eapply Forall_impl; [exact He|]. intros kv. by apply entry_later. Qed.

(** [v] stands for a result that is right at moments of the request, or its adapter failed. *)
Definition answers (rq : VsecRequest) (params : VsecParams) (v : json) : Prop :=
  ∃ r clock, v = json_of_scan r ∧ readings (rq_started rq) (rq_stored rq) clock ∧ (failing rq params r ∨ right_at params clock r).

Lemma cached_answers rq params c c1 result : request_ok rq → accepted (rq_op rq) params → json_ok (json_of_params params) → sound (rq_started rq) c →
  cache_get (rq_looked rq) (key_of (rq_op rq) params) c = (c1, Some result) → answers rq params result.
Proof.
  intros Hrq Hacc Hj [Hc He] Eg. destruct (scan_cache_get_ok _ _ _ _ _ Hc Eg) as (_ & _ & _ & Hv). pose proof (clock_order rq Hrq).
  destruct (get _ (bc_entries c)) as [entry|] eqn:Ee; [|done]. destruct (expired _ _) eqn:Ex; [done|].
  apply get_elem in Ee. rewrite Forall_forall in He. destruct (He _ Ee) as (op & params' & s & r & Ek & Ha' & Hj' & Et & Hr & Hs & Hright). cbn [fst snd] in *.
  rewrite Et, parse_stringify in Hv by done. injection Hv as ->. apply key_inj in Ek as [<- Ek]; [|done|done].
  exists r, (λ _, rq_looked rq). split; [done|]. split; [apply constant_readings; lia|]. right. eapply right_same; [exact Ha'|exact Hacc|done|]. apply Hright. intros k. split; [lia|done].
Qed.

Lemma answer_ok rq params c c' v :
  request_ok rq → parse_params iso_datetime (rq_op rq) (rq_params rq) = Some params → sound (rq_started rq) c → answer_now rq params c = (c', v) →
  sound (rq_stored rq) c' ∧ bc_limit c' = bc_limit c
  ∧ match v with Some v => answers rq params v | None => result_valid (scan_now rq params) = false end.
Proof.
  intros Hrq Hp Hsound Ha. pose proof Hsound as [Hc He]. pose proof (clock_order rq Hrq) as Hclock. pose proof (ro_json _ Hrq _ Hp) as Hj. assert (accepted (rq_op rq) params) as Hacc by by exists (rq_params rq).
  unfold answer in Ha. cbv zeta in Ha. destruct (cache_get _ _ _) as [c1 cached] eqn:Eg. destruct (scan_cache_get_ok _ _ _ _ _ Hc Eg) as (Hc1 & Hl1 & Hsub & _).
  assert (Forall (entry_sound (rq_stored rq)) (bc_entries c1)) as He1.
  { apply Forall_forall. intros kv Hkv. apply (entry_later (rq_started rq)); [lia|]. rewrite Forall_forall in He. by apply He, Hsub. }
  destruct cached as [result|].
  - injection Ha as <- <-. split; [by split|]. split; [done|]. by eapply cached_answers.
  - destruct (result_valid _) eqn:Ev; cbn [negb] in Ha; [|injection Ha as <- <-; split; [by split|by split]]. injection Ha as <- <-.
    pose proof (scan_at rq params) as Hr. pose proof (clock_of_readings rq params Hrq) as Hread. pose proof (scan_json _ Ev (scan_is_strings rq params Hrq Hp)) as Hjs.
    split; [|split; [destruct (cacheable _); [|done]; rewrite (proj1 (proj2 (scan_cache_set_ok _ _ _ _ c1 Hc1))); done|by exists (scan_now rq params), (clock_of rq params)]].
    destruct (cacheable _) eqn:Ecache; [|by split]. destruct Hr as [Hr|Hr]; [by rewrite (failing_uncached _ _ _ Hr) in Ecache|].
    destruct (scan_cache_set_ok (rq_stored rq) (key_of (rq_op rq) params) (json_of_scan (scan_now rq params)) (until (rq_started rq) (policy_of_params params)) c1 Hc1)
      as (Hc2 & _ & Hnew). split; [exact Hc2|]. apply Forall_forall. intros kv Hkv. apply Hnew in Hkv as [Hkv|(K1 & K2 & K3 & K4)]; [rewrite Forall_forall in He1; by apply He1|].
    exists (rq_op rq), params, (rq_started rq), (scan_now rq params). split_and!; try done; [lia|]. rewrite K3. intros clock Hw. eapply right_window, Hr; [|exact Hw].
    intros k. destruct Hread as [Hread _]. specialize (Hread k). split; [lia|]. by apply (expired_mono _ (rq_stored rq)); [lia|].
Qed.

(** A response answers its request; [right] is what its result has to be, for
    readings of the clock during the request. *)
Definition answered (right : VsecRequest → VsecParams → (nat → Z) → ScanResult → Prop) (rq : VsecRequest) (resp : VsecResponse) : Prop :=
  vr_id resp = rq_id rq
  ∧ match vr_result resp with
    | VrScan v => ∃ params r clock, parse_params iso_datetime (rq_op rq) (rq_params rq) = Some params
        ∧ v = json_of_scan r ∧ readings (rq_started rq) (rq_stored rq) clock ∧ right rq params clock r
    | VrHealth cacheBytes _ => rq_op rq = VoHealth ∧ cacheBytes <= MAX_CACHE_BYTES
    | VrFailure FailInput => boundedInput (rq_params rq) = false ∨ parse_params iso_datetime (rq_op rq) (rq_params rq) = None
    | VrFailure FailService => rq_audited rq = false
        ∨ ∃ params, parse_params iso_datetime (rq_op rq) (rq_params rq) = Some params ∧ result_valid (scan_now rq params) = false
    end.
Definition right_or_failing (rq : VsecRequest) (params : VsecParams) (clock : nat → Z) (r : ScanResult) : Prop := failing rq params r ∨ right_at params clock r.

Lemma request_answered rq c : request_ok rq → sound (rq_started rq) c →
  let '(c', resp) := request_now rq c in sound (rq_stored rq) c' ∧ bc_limit c' = bc_limit c ∧ answered right_or_failing rq resp.
Proof.
  intros Hrq Hc. pose proof (clock_order rq Hrq) as Hclock. assert (sound (rq_stored rq) c) as Hc' by (apply (sound_later (rq_started rq)); [lia|done]).
  unfold request. destruct (rq_op rq) eqn:Eo.
  3: { split; [done|]. split; [done|]. split; [done|]. cbn [vr_result]. split; [done|]. destruct Hc as [[_ _ [? ?] _] _]. lia. }
  all: destruct (boundedInput (rq_params rq)) eqn:Eb; cbn [negb]; [|split; [done|split; [done|split; [done|by left]]]].
  all: destruct (parse_params iso_datetime _ (rq_params rq)) as [params|] eqn:Ep; [|split; [done|split; [done|split; [done|right; cbn [vr_result]; by rewrite Eo]]]].
  all: rewrite <- Eo in Ep; cbv zeta; destruct (answer_now rq params c) as [c' v] eqn:Ea; destruct (answer_ok _ _ _ _ _ Hrq Ep Hc Ea) as (H1 & H2 & H3).
  all: destruct v as [v|]; (split; [done|split; [done|]]); [destruct (rq_audited rq) eqn:Eu|].
  all: split; [done|]; cbn [vr_result].
  all: first [by left | by (right; exists params) | by (destruct H3 as (r & t & ? & ? & ?); exists params, r, t)].
Qed.

Fixpoint in_order (now : Z) (requests : list VsecRequest) : Prop :=
  match requests with [] => True | rq :: rest => now <= rq_started rq ∧ in_order (rq_stored rq) rest end.

Lemma serve_answered requests : ∀ now c, sound now c → in_order now requests → Forall request_ok requests →
  let '(c', rs) := serve iso_datetime date_parse scanTypeScript scanBash sha256Hex firewall redactor PARSER_VERSION requests c in
  cache_ok c' ∧ bc_limit c' = bc_limit c ∧ Forall2 (answered right_or_failing) requests rs.
Proof.
  unfold serve. set (step := λ acc rq, _). assert (∀ requests now acc, sound now acc.1 → in_order now requests → Forall request_ok requests →
    let acc' := foldl step acc requests in
    cache_ok acc'.1 ∧ bc_limit acc'.1 = bc_limit acc.1 ∧ ∃ rs, acc'.2 = acc.2 ++ rs ∧ Forall2 (answered right_or_failing) requests rs) as H.
  { clear requests. intros requests. induction requests as [|rq requests IH]; intros now acc Hs Ho Hr; cbn [foldl].
    - split; [apply Hs|split; [done|]]. exists []. by rewrite app_nil_r.
    - destruct Ho as [Hn Ho]. apply Forall_cons in Hr as [Hrq Hr]. pose proof (request_answered rq acc.1 Hrq (sound_later _ _ _ Hn Hs)) as Ha.
      destruct (request_now rq acc.1) as [c' resp] eqn:Er. destruct Ha as (A1 & A2 & A3).
      assert (step acc rq = (c', acc.2 ++ [resp])) as -> by (unfold step; by rewrite Er).
      destruct (IH (rq_stored rq) (c', acc.2 ++ [resp]) A1 Ho Hr) as (I1 & I2 & rs & I3 & I4). cbn [fst snd] in *.
      split; [done|]. split; [congruence|]. exists (resp :: rs). split; [|by constructor].
      rewrite I3. by rewrite <- app_assoc. }
  intros now c Hc Ho Hr. destruct (H requests now (c, []) Hc Ho Hr) as (H1 & H2 & rs & H3 & H4). destruct (foldl step (c, []) requests) as [c' rs']. cbn [fst snd] in *. subst. auto.
Qed.
End Engine.

Lemma answered_weaken iso_datetime date_parse scanTypeScript scanBash firewall redactor (P Q : VsecRequest → VsecParams → (nat → Z) → ScanResult → Prop) requests rs :
  (∀ rq params clock r, accepted iso_datetime (rq_op rq) params → P rq params clock r → Q rq params clock r) →
  Forall2 (answered iso_datetime date_parse scanTypeScript scanBash firewall redactor P) requests rs →
  Forall2 (answered iso_datetime date_parse scanTypeScript scanBash firewall redactor Q) requests rs.
Proof.
  intros H Hrs. eapply Forall2_impl; [exact Hrs|]. clear Hrs. intros rq resp [Hid Hr]. split; [done|]. destruct (vr_result resp); try done.
  destruct Hr as (params & r & clock & Hp & ? & ? & ?). exists params, r, clock. split_and!; [done..|]. apply H; [by exists (rq_params rq)|done].
Qed.

Lemma new_sound iso_datetime date_parse scanTypeScript scanBash sha256Hex firewall redactor PARSER_VERSION now limit :
  sound iso_datetime date_parse scanTypeScript scanBash sha256Hex firewall redactor PARSER_VERSION now (new_cache limit).
Proof. split; [apply new_cache_ok|apply Forall_nil_2]. Qed.

(** What a request is answered with without a cache and adapters, for the readings [clock]. *)
Definition evaluated (iso_datetime : jstr → bool) (date_parse : jstr → option Z) (scanTypeScript : jstr → jstr → option Scan)
    (scanBash : jstr → jstr → jstr → option Scan) (params : VsecParams) (clock : nat → Z) : ScanResult :=
  match params with
  | PrEvaluate _ _ => ScDecision (local_evaluate iso_datetime date_parse scanTypeScript scanBash clock (json_of_params params))
  | PrSanitize p => ScSanitized (local_sanitize iso_datetime p)
  end.

(** C14: the cache of the scanner never shows.  With no external adapter, in any
    sequence of requests, at any pace, every request is answered, in order: an
    invalid input is refused; a result is exactly what the scanner computes for
    these parameters when its clock gives some readings in order, all between the start and the
    end of this request, although it may come from the cache, and whichever
    policy exceptions have ended in between; and the
    service only fails when the audit or the result cannot be written.  The cache
    accounts exactly for its entries and stays within its limit. *)
Theorem vsec_cache_transparent iso_datetime date_parse scanTypeScript scanBash sha256Hex PARSER_VERSION limit requests now :
  scanners_ok scanTypeScript scanBash → (∀ a b, sha256Hex a = sha256Hex b → a = b) → units_ok PARSER_VERSION →
  in_order now requests → Forall (request_ok iso_datetime) requests →
  let '(c, rs) := serve iso_datetime date_parse scanTypeScript scanBash sha256Hex None None PARSER_VERSION requests (new_cache limit) in
  Forall2 (answered iso_datetime date_parse scanTypeScript scanBash None None
    (λ _ params clock r, r = evaluated iso_datetime date_parse scanTypeScript scanBash params clock)) requests rs
  ∧ bc_bytes c = sizes (bc_entries c) ∧ bc_bytes c <= bc_limit c <= MAX_CACHE_BYTES.
Proof.
  intros Hscan Hsha Hv Ho Hr. pose proof (serve_answered iso_datetime date_parse scanTypeScript scanBash sha256Hex None None PARSER_VERSION Hscan Hsha
    ltac:(split_and!; [done|done|done]) requests now _ (new_sound _ _ _ _ _ _ _ _ now limit) Ho Hr) as H.
  destruct (serve _ _ _ _ _ _ _ _ _ _) as [c rs]. destruct H as ([_ Hb Hl _] & _ & H). split; [|done]. eapply answered_weaken; [|exact H].
  intros rq [p incomplete|p] clock r _; (intros [[Hn _]|Hright]; [done|exact Hright]).
Qed.


(** ** Two requests of a session *)

Definition demo_scan (content path : jstr) : option Scan := Some (mkScan [] false).
Definition demo_bash (command root cwd : jstr) : option Scan := Some (mkScan [] false).
Definition demo_dates (s : jstr) : option Z := Some (zlen s).
Definition demo_params : json :=
  JObj [(js "namespace", JObj [(js "projectId", JStr (js "p")); (js "sessionId", JStr (js "s"))]); (js "fields", JArr [JStr (js "hello")]); (js "policy", JObj [])].
Definition demo_request (id : string) (op : VsecOperation) (params : json) (at_time : Z) (reply : AdapterReply) : VsecRequest :=
  mkVsecRequest (js id) op params at_time at_time (λ _, at_time) at_time (λ _, at_time) at_time reply true.
Definition demo_requests : list VsecRequest := [demo_request "1" VoSanitize demo_params 5 TimedOut; demo_request "2" VoSanitize demo_params 9 TimedOut].
Definition demo_serve (firewall redactor : option jstr) (requests : list VsecRequest) : BoundedCache * list VsecResponse :=
  serve (λ _, true) demo_dates demo_scan demo_bash (λ s, s) firewall redactor (js "parsers") requests (new_cache MAX_CACHE_BYTES).
Lemma demo_scanners : scanners_ok demo_scan demo_bash.
Proof. split; [intros c p s [= <-]|intros c r w s [= <-]]; apply Forall_nil_2. Qed.
Lemma demo_requests_ok : Forall (request_ok (λ _, true)) demo_requests.
Proof.
  repeat apply Forall_cons_2; [| |apply Forall_nil_2]; (constructor; [cbn; lia|split; cbn; lia|split; cbn; lia| |done]); intros params H; vm_compute in H; injection H as <-; apply json_okb_ok; vm_compute; reflexivity.
Qed.
Lemma vsec_cache_transparent_witness :
  bc_hits (demo_serve None None demo_requests).1 = 1%nat
  ∧ Forall2 (answered (λ _, true) demo_dates demo_scan demo_bash None None (λ _ params clock r, r = evaluated (λ _, true) demo_dates demo_scan demo_bash params clock))
      demo_requests (demo_serve None None demo_requests).2.
Proof.
  pose proof (vsec_cache_transparent (λ _, true) demo_dates demo_scan demo_bash (λ s, s) (js "parsers") MAX_CACHE_BYTES demo_requests 0
    demo_scanners ltac:(auto) ltac:(lit_ok) ltac:(cbn; lia) demo_requests_ok) as H.
  split; [vm_compute; reflexivity|]. unfold demo_serve. destruct (serve _ _ _ _ _ _ _ _ _ _) as [c rs]. exact (proj1 H).
Defined.

(** A failing firewall also replaces a local denial by [Unavailable], without the
    findings; the guard lets reads run on that decision ([Guard.before]). *)
Definition read_secret : json :=
  JObj [(js "namespace", JObj [(js "projectId", JStr (js "p")); (js "sessionId", JStr (js "s"))]); (js "tool", JStr (js "read")); (js "args", JObj []);
        (js "cwd", JStr (js "/p")); (js "root", JStr (js "/p")); (js "files", JArr []);
        (js "paths", JArr [JObj [(js "path", JStr (js "/p/.env")); (js "resolvedPath", JStr (js "/p/.env")); (js "operation", JStr (js "read"))]]);
        (js "policy", JObj [])].
Example failing_firewall_loosens :
  map (λ r, match vr_result r with VrScan v => field (js "decision") v | _ => None end)
    ((demo_serve None None [demo_request "1" VoEvaluate read_secret 5 TimedOut]).2 ++ (demo_serve (Some (js "f1")) None [demo_request "1" VoEvaluate read_secret 5 TimedOut]).2)
  = [Some (JStr (js "deny")); Some (JStr (js "unavailable"))].
Proof. vm_compute. reflexivity. Qed.
