(* ===== verification/VsecClient.v ===== *)
(** * The client of the security sidecar ([packages/vsecagent/src/client.ts])

    One child process, one request in flight, at most 32 waiting; the first request
    that times out, the first broken line and every exit end the child and fail
    what is waiting.  [pump] is asynchronous: its continuation after each [await]
    is an event of its own, so requests and lines may come in between; everything
    else runs in one turn.  The [n]-th child has the pid [pid_of n]; whether it can be
    spawned and written to are parameters.  What the constructor normalizes
    ([maxPending], [maxBytes]) comes as a parameter too. *)

From stdpp Require Import base tactics list numbers option sets strings.
From S2P Require Import Prelude JsString JsRegex Json OMap Codec CLine Chat Objects Cas RtkWire Credentials Security Vsec.

Inductive UnavailableReason : Type := UStartup | UTimeout | UCrash | UProtocol | UOverloaded | UInput | UClosed | UService.
Inductive Settlement : Type := Resolved (value : json) | Failed (reason : UnavailableReason).

(** [frames] is what [readFrames] has buffered of the child's output. *)
Record Generation := mkGeneration { gn_child : nat; gn_ready : bool; gn_frames : bytes }.
Record Pending := mkPending { pn_id : jstr; pn_op : VsecOperation; pn_payload : jstr; pn_bytes : Z }.
(** Where [pump] is: not running; awaiting the start of a child; its start has
    succeeded or failed and the continuation is queued; awaiting the flush. *)
Inductive Phase : Type := PhIdle | PhStarting | PhStarted | PhFailed | PhFlushing.
#[export] Instance Phase_dec : EqDecision Phase.
Proof. solve_decision. Defined.

(** What a run shows outside. *)
Inductive Effect : Type :=
| Requested (id : jstr) (op : VsecOperation) (payload : jstr)
| Spawned (child : nat)
| Killed (child : nat)
| Sent (child : nat) (id line : jstr)
| Received (child : nat) (line : jstr)
| Settled (id : jstr) (s : Settlement).

Record Client := mkClient {
  vc_generation : option Generation; vc_starting : bool; vc_active : option jstr; vc_pending : list Pending; vc_pendingBytes : Z;
  vc_closed : bool; vc_phase : Phase; vc_children : nat; vc_log : list Effect }.
Definition set_generation (v : option Generation) (c : Client) : Client := mkClient v (vc_starting c) (vc_active c) (vc_pending c) (vc_pendingBytes c) (vc_closed c) (vc_phase c) (vc_children c) (vc_log c).
Definition set_starting (v : bool) (c : Client) : Client := mkClient (vc_generation c) v (vc_active c) (vc_pending c) (vc_pendingBytes c) (vc_closed c) (vc_phase c) (vc_children c) (vc_log c).
Definition set_active (v : option jstr) (c : Client) : Client := mkClient (vc_generation c) (vc_starting c) v (vc_pending c) (vc_pendingBytes c) (vc_closed c) (vc_phase c) (vc_children c) (vc_log c).
Definition set_pending (v : list Pending) (n : Z) (c : Client) : Client := mkClient (vc_generation c) (vc_starting c) (vc_active c) v n (vc_closed c) (vc_phase c) (vc_children c) (vc_log c).
Definition set_closed (v : bool) (c : Client) : Client := mkClient (vc_generation c) (vc_starting c) (vc_active c) (vc_pending c) (vc_pendingBytes c) v (vc_phase c) (vc_children c) (vc_log c).
Definition set_phase (v : Phase) (c : Client) : Client := mkClient (vc_generation c) (vc_starting c) (vc_active c) (vc_pending c) (vc_pendingBytes c) (vc_closed c) v (vc_children c) (vc_log c).
Definition set_children (v : nat) (c : Client) : Client := mkClient (vc_generation c) (vc_starting c) (vc_active c) (vc_pending c) (vc_pendingBytes c) (vc_closed c) (vc_phase c) v (vc_log c).
Definition note (e : Effect) (c : Client) : Client := mkClient (vc_generation c) (vc_starting c) (vc_active c) (vc_pending c) (vc_pendingBytes c) (vc_closed c) (vc_phase c) (vc_children c) (vc_log c ++ [e]).
Definition new_client : Client := mkClient None false None [] 0 false PhIdle 0 [].

Definition ids (c : Client) : list jstr := map pn_id (vc_pending c).
Definition pending_of (id : jstr) (c : Client) : option Pending := snd <$> list_find (λ p, pn_id p = id) (vc_pending c).

(** [finish]: only what is still pending is settled. *)
Definition finish (id : jstr) (s : Settlement) (c : Client) : Client :=
  match list_find (λ p, pn_id p = id) (vc_pending c) with
  | None => c
  | Some (i, item) =>
    let c := set_pending (delete i (vc_pending c)) (vc_pendingBytes c - pn_bytes item) c in
    note (Settled id s) (if bool_decide (vc_active c = Some id) then set_active None c else c)
  end.
Definition finish_all (reason : UnavailableReason) (c : Client) : Client := foldl (λ c id, finish id (Failed reason) c) c (ids c).

(** [failGeneration] on the current generation. *)
Definition failGeneration (reason : UnavailableReason) (c : Client) : Client :=
  match vc_generation c with
  | None => c
  | Some g =>
    let c := set_generation None c in
    (* [failStartup] rejects the promise that [start], and so [pump], awaits *)
    let c := set_starting false (match vc_phase c with PhStarting => set_phase PhFailed c | _ => c end) in
    finish_all reason (note (Killed (gn_child g)) c)
  end.

(** ** Replies *)

(** [===] against a number, a string, a boolean. *)
Definition number_is (n : Z) (v : option json) : bool := match v with Some (JNum (NInt m)) => m =? n | _ => false end.
Definition string_is (s : jstr) (v : option json) : bool := match v with Some (JStr t) => jeqb t s | _ => false end.
Definition boolean_is (b : bool) (v : option json) : bool := match v with Some (JBool a) => Bool.eqb a b | _ => false end.
Definition finite (v : option json) : bool := match v with Some w => bool_decide (is_Some (nonnegative_of w)) | None => false end.
Definition is_protocol (l : list (jstr * json)) : bool := number_is 1 (assoc (js "protocol") l).
(** [{ ...parsed.data, ...timing }] *)
Definition spread (data : json) (timing : list (jstr * json)) : json := JObj (obj_of (default [] (fields_of data) ++ timing)).

(** A reply to the request in flight that does not say [ok: false]: its result, or
    [None] for a protocol failure. *)
Definition check_reply (pid : Z) (item : Pending) (l : list (jstr * json)) : option json :=
  timing ← assoc (js "timing") l ≫= fields_of;
  if negb (boolean_is true (assoc (js "ok") l)) || negb (string_is (pn_id item) (assoc (js "requestId") timing))
     || negb (finite (assoc (js "queueMs") timing)) || negb (finite (assoc (js "serviceMs") timing)) then None else
  policyVersion ← assoc (js "policyVersion") timing ≫= str_of;
  match pn_op item with
  | VoHealth =>
    h ← assoc (js "result") l ≫= fields_of;
    if is_protocol h && number_is pid (assoc (js "pid") h)
       && forallb (λ k, finite (assoc k h)) [js "uptimeMs"; js "cacheBytes"; js "cacheHits"; js "serviceMs"; js "rssBytes"]
    then Some (JObj h) else None
  | VoEvaluate =>
    d ← assoc (js "result") l ≫= securityDecisionSchema;
    if jeqb (sd_policyVersion d) policyVersion then Some (spread (json_of_scan (ScDecision d)) timing) else None
  | VoSanitize =>
    r ← assoc (js "result") l ≫= securitySanitizeResultSchema;
    let asked := match parse (pn_payload item) ≫= field (js "fields") with Some (JArr fields) => length fields | _ => O end in
    if jeqb (sr_policyVersion r) policyVersion && (length (sr_fields r) =? asked)%nat then Some (spread (json_of_scan (ScSanitized r)) timing) else None
  end.

Section Client.
Context (iso_datetime : jstr → bool) (pid_of : nat → Z) (spawn_fails : nat → bool) (write_fails : nat → jstr → bool) (maxPending : nat) (maxBytes : Z).

(** [start] and [ensureStarted], up to their first [await]. *)
Definition start (phase : Phase → Phase) (c : Client) : Client :=
  let child := S (vc_children c) in
  if spawn_fails child then set_phase (phase PhFailed) c
  else note (Spawned child) (set_children child (set_starting true (set_generation (Some (mkGeneration child false [])) (set_phase (phase PhStarting) c)))).
Definition ensureStarted (c : Client) : Client :=
  if vc_starting c then set_phase PhStarting c
  else match vc_generation c with
       | Some g => if gn_ready g then set_phase PhStarted c else start (λ p, p) c
       | None => start (λ p, p) c
       end.
Definition pump (c : Client) : Client :=
  if bool_decide (vc_phase c ≠ PhIdle) || bool_decide (is_Some (vc_active c)) || vc_closed c || bool_decide (vc_pending c = []) then c else ensureStarted c.

Definition q (s : string) : jstr := [34] ++ js s ++ [34].
Definition frame_of (item : Pending) (queueMs : jnum) : jstr :=
  js "{" ++ q "protocol" ++ js ":1," ++ q "id" ++ js ":" ++ [34] ++ pn_id item ++ [34] ++ js "," ++ q "op" ++ js ":" ++ [34] ++ vsec_name (pn_op item) ++ [34]
  ++ js "," ++ q "queueMs" ++ js ":" ++ jnum_to_string queueMs ++ js "," ++ q "params" ++ js ":" ++ pn_payload item ++ js "}" ++ [10].

(** The [finally] and the [catch] of [pump]. *)
Definition pump_finally (c : Client) : Client :=
  let c := set_phase PhIdle c in
  match vc_active c, vc_pending c with None, _ :: _ => pump c | _, _ => c end.
Definition pump_catch (c : Client) : Client :=
  pump_finally (match vc_generation c with Some _ => failGeneration UCrash c | None => finish_all (if vc_closed c then UClosed else UStartup) c end).
(** The continuation of [pump], with the outcome of the flush. *)
Definition resume (queueMs : jnum) (flushed : bool) (c : Client) : Client :=
  match vc_phase c with
  | PhStarted =>
    match vc_pending c, vc_generation c with
    | item :: _, Some g =>
      if negb (gn_ready g) || vc_closed c then pump_finally c else
      let line := frame_of item queueMs in
      let c := set_active (Some (pn_id item)) c in
      if write_fails (gn_child g) line then pump_catch c else set_phase PhFlushing (note (Sent (gn_child g) (pn_id item) line) c)
    | _, _ => pump_finally c
    end
  | PhFlushing => if flushed then pump_finally c else pump_catch c
  | PhFailed => pump_catch c
  | PhIdle | PhStarting => c
  end.

(** [receive] for the current generation [g]. *)
Definition receive_line (g : Generation) (line : jstr) (c : Client) : Client :=
  let broken := failGeneration (if gn_ready g then UProtocol else UStartup) in
  match parse line with
  | None => failGeneration UProtocol c
  | Some response =>
    match fields_of response with
    | None => broken c
    | Some l =>
      if negb (is_protocol l) then broken c
      else if negb (gn_ready g) then
        if string_is (js "ready") (assoc (js "type") l) && number_is (pid_of (gn_child g)) (assoc (js "pid") l)
        then
          let c := set_starting false (set_generation (Some (mkGeneration (gn_child g) true (gn_frames g))) c) in
          match vc_phase c with PhStarting => set_phase PhStarted c | _ => c end
        else failGeneration UStartup c
      else
        match assoc (js "id") l with
        | Some (JStr id) =>
          match (active ← vc_active c; if jeqb id active then pending_of active c else None) with
          | None => c
          | Some item =>
            if boolean_is false (assoc (js "ok") l) then pump (finish (pn_id item) (Failed UService) c)
            else match check_reply (pid_of (gn_child g)) item l with
                 | None => failGeneration UProtocol c
                 | Some value => pump (finish (pn_id item) (Resolved value) c)
                 end
          end
        | _ => failGeneration UProtocol c
        end
    end
  end.
Definition receive (child : nat) (line : jstr) (c : Client) : Client :=
  match vc_generation c with
  | Some g => if (gn_child g =? child)%nat then receive_line g line (note (Received child line) c) else c
  | None => c
  end.

(** What a throw of [readFrames] does, if the generation is still the current one. *)
Definition stream_failed (child : nat) (c : Client) : Client :=
  match vc_generation c with
  | Some g => if (gn_child g =? child)%nat then failGeneration (if gn_ready g then UProtocol else UStartup) c else c
  | None => c
  end.
Definition set_frames (child : nat) (frames : bytes) (c : Client) : Client :=
  match vc_generation c with
  | Some g => if (gn_child g =? child)%nat then set_generation (Some (mkGeneration child (gn_ready g) frames)) c else c
  | None => c
  end.
(** [readFrames] on a chunk, cut at its newlines; the last part has none. *)
Fixpoint read_parts (child : nat) (parts : list bytes) (buffered : bytes) (c : Client) : Client :=
  match parts with
  | [] => c
  | [tail] => if MAX_FRAME_BYTES <? zlen (buffered ++ tail) then stream_failed child c else set_frames child (buffered ++ tail) c
  | part :: rest =>
    if MAX_FRAME_BYTES <? zlen (buffered ++ part) then stream_failed child c
    else read_parts child rest [] (receive child (utf8_decode (buffered ++ part)) c)
  end.
Definition readFrames (child : nat) (chunk : bytes) (c : Client) : Client :=
  match vc_generation c with
  | Some g => if (gn_child g =? child)%nat then read_parts child (split_on 10 chunk) (gn_frames g) c else c
  | None => c
  end.

Definition enqueue (op : VsecOperation) (params : json) (id : jstr) (late : bool) (c : Client) : Client :=
  let payload := stringify params in
  let bytes := byte_length payload + 256 in
  let c := note (Requested id op payload) c in
  let fail reason := note (Settled id (Failed reason)) c in
  if vc_closed c then fail UClosed
  else if negb (boundedInput params) || negb (bool_decide (op = VoHealth)) && negb (bool_decide (is_Some (parse_params iso_datetime op params))) then fail UInput
  else if MAX_FRAME_BYTES <? bytes then fail UInput
  else if (maxPending <=? length (vc_pending c))%nat || (maxBytes <? vc_pendingBytes c + bytes) then fail UOverloaded
  else if late then fail UTimeout
  else pump (set_pending (vc_pending c ++ [mkPending id op payload bytes]) (vc_pendingBytes c + bytes) c).
Definition timed_out (id : jstr) (c : Client) : Client :=
  if bool_decide (id ∈ ids c) then
    match vc_generation c with Some _ => failGeneration UTimeout c | None => finish id (Failed UTimeout) c end
  else c.
Definition shutdown (c : Client) : Client :=
  if vc_closed c then c else
  let c := set_closed true c in
  match vc_generation c with Some _ => failGeneration UClosed c | None => finish_all UClosed c end.

Inductive Event : Type :=
| EvRequest (op : VsecOperation) (params : json) (id : jstr) (late : bool)
| EvTimer (id : jstr)
| EvStartTimer
| EvStdout (child : nat) (chunk : bytes)
| EvStdoutEnd (child : nat)
| EvExit (child : nat)
| EvResume (queueMs : jnum) (flushed : bool)
| EvShutdown.
Definition apply_event (c : Client) (e : Event) : Client :=
  match e with
  | EvRequest op params id late => enqueue op params id late c
  | EvTimer id => timed_out id c
  | EvStartTimer => if vc_starting c then failGeneration UStartup c else c
  | EvStdout child chunk => readFrames child chunk c
  | EvStdoutEnd child =>
    match vc_generation c with Some g => match gn_frames g with [] => c | _ => stream_failed child c end | None => c end
  | EvExit child =>
    match vc_generation c with
    | Some g => if (gn_child g =? child)%nat then failGeneration (if gn_ready g then UCrash else UStartup) c else c
    | None => c
    end
  | EvResume queueMs flushed => resume queueMs flushed c
  | EvShutdown => shutdown c
  end.
(** [create] starts the first child; it awaits the handshake, [pump] does not. *)
Definition create : Client := start (λ _, PhIdle) new_client.
Definition run (events : list Event) : Client := foldl apply_event create events.
End Client.

(** ** A run *)

Definition demo_ready : bytes :=
  utf8_encode (stringify (JObj [(js "protocol", JNum (NInt 1)); (js "type", JStr (js "ready")); (js "pid", JNum (NInt 101))]) ++ [10]).
Definition demo_reply (id : string) (fields : list string) : bytes :=
  utf8_encode (stringify (JObj [(js "protocol", JNum (NInt 1)); (js "id", JStr (js id)); (js "ok", JBool true);
    (js "result", json_of_scan (ScSanitized (mkSanitized (map js fields) 0 CvComplete (js "vsec-1"))));
    (js "timing", JObj [(js "requestId", JStr (js id)); (js "queueMs", JNum (NInt 0)); (js "serviceMs", JNum (NInt 2)); (js "policyVersion", JStr (js "vsec-1"))])]) ++ [10]).
Definition demo_pid (child : nat) : Z := 100 + Z.of_nat child.
Notation demo_client events := (run (λ _, true) demo_pid (λ _, false) (λ _ _, false) 32 MAX_FRAME_BYTES events).
(** A reply that comes too late, with its child killed, is never attributed to the next request. *)
Definition demo_events : list Event :=
  [EvStdout 1 demo_ready; EvRequest VoSanitize demo_params (js "r1") false; EvResume (NInt 0) true; EvResume (NInt 0) true;
   EvStdout 1 (demo_reply "r1" ["hello"]); EvRequest VoSanitize demo_params (js "r2") false; EvResume (NInt 0) true; EvTimer (js "r2"); EvResume (NInt 0) true;
   EvStdout 1 (demo_reply "r2" ["stale"]); EvRequest VoSanitize demo_params (js "r3") false; EvExit 2; EvResume (NInt 0) true].
Example vsec_demo_run :
  let outcome e := match e with Settled id (Failed r) => Some (id, Some r) | Settled id (Resolved _) => Some (id, None) | _ => None end in
  omap outcome (vc_log (demo_client demo_events)) = [(js "r1", None); (js "r2", Some UTimeout); (js "r3", Some UStartup)]
  ∧ omap (λ e, match e with Killed n => Some n | _ => None end) (vc_log (demo_client demo_events)) = [1%nat; 2%nat]
  ∧ vc_phase (demo_client demo_events) = PhIdle.
Proof. vm_compute. split; [|split]; reflexivity. Qed.

(** ** What the client keeps *)

Definition requested (c : Client) : list jstr := omap (λ e, match e with Requested id _ _ => Some id | _ => None end) (vc_log c).
Definition settled (c : Client) : list jstr := omap (λ e, match e with Settled id _ => Some id | _ => None end) (vc_log c).

(** What the client takes from a line as the result of [item]. *)
Definition reply_value (pid : Z) (item : Pending) (line : jstr) : option json :=
  response ← parse line; l ← fields_of response;
  if is_protocol l && string_is (pn_id item) (assoc (js "id") l) then check_reply pid item l else None.

Section Proofs.
Context (iso_datetime : jstr → bool) (pid_of : nat → Z) (spawn_fails : nat → bool) (write_fails : nat → jstr → bool) (maxPending : nat) (maxBytes : Z).

(** The request [id] has been written to [child], which has not been killed since. *)
Definition live (child : nat) (id : jstr) (log : list Effect) : Prop :=
  ∃ l1 l2 item queueMs, log = l1 ++ Sent child id (frame_of item queueMs) :: l2 ∧ (Killed child ∉ l2)
  ∧ pn_id item = id ∧ Requested id (pn_op item) (pn_payload item) ∈ l1.
(** The value comes from a line of the very child the request was written to,
    received after that, with the child alive throughout. *)
Definition authentic (id : jstr) (v : json) (log : list Effect) : Prop :=
  ∃ l1 l2 l3 child item queueMs line,
    log = l1 ++ Sent child id (frame_of item queueMs) :: l2 ++ Received child line :: Settled id (Resolved v) :: l3
    ∧ (Killed child ∉ l2) ∧ pn_id item = id ∧ Requested id (pn_op item) (pn_payload item) ∈ l1 ∧ reply_value (pid_of child) item line = Some v.

Record core (c : Client) : Prop := {
  ck_ledger : NoDup (requested c) ∧ requested c ≡ₚ settled c ++ ids c;
  ck_items : Forall (λ p, Requested (pn_id p) (pn_op p) (pn_payload p) ∈ vc_log c ∧ 0 <= pn_bytes p) (vc_pending c);
  ck_count : (length (vc_pending c) <= maxPending)%nat;
  ck_bytes : vc_pendingBytes c = zsum (map pn_bytes (vc_pending c)) ∧ vc_pendingBytes c <= maxBytes;
  ck_active : ∀ id, vc_active c = Some id → id ∈ ids c;
  ck_closed : vc_closed c = true → vc_pending c = [];
  ck_authentic : ∀ id v, Settled id (Resolved v) ∈ vc_log c → authentic id v (vc_log c) }.
Record gens (c : Client) : Prop := {
  gk_generation : match vc_generation c with Some g => gn_child g = vc_children c ∧ gn_ready g = negb (vc_starting c) | None => vc_starting c = false end;
  gk_phase : vc_phase c = PhStarting → vc_starting c = true;
  gk_children : ∀ n, (1 <= n <= vc_children c)%nat → (∃ g, vc_generation c = Some g ∧ gn_child g = n) ∨ Killed n ∈ vc_log c }.
Definition act (c : Client) : Prop :=
  ∀ id, vc_active c = Some id → ∃ g, vc_generation c = Some g ∧ gn_ready g = true ∧ live (gn_child g) id (vc_log c).
Definition client_ok (c : Client) : Prop := core c ∧ gens c ∧ act c.
(** What is pending is in flight, or [pump] is under way. *)
Definition progress (c : Client) : Prop := vc_pending c ≠ [] → is_Some (vc_active c) ∨ vc_phase c ≠ PhIdle.

Lemma live_note child id log e : e ≠ Killed child → live child id log → live child id (log ++ [e]).
Proof.
  intros He (l1 & l2 & item & queueMs & -> & Hk & Hi & Hr). exists l1, (l2 ++ [e]), item, queueMs. rewrite <- app_assoc. split; [done|]. split; [|done].
  rewrite elem_of_app, list_elem_of_singleton. intros [?|E]; [done|by subst].
Qed.
Lemma authentic_note id v log e : authentic id v log → authentic id v (log ++ [e]).
Proof.
  intros (l1 & l2 & l3 & child & item & queueMs & line & -> & H). exists l1, l2, (l3 ++ [e]), child, item, queueMs, line. split; [|done].
  rewrite <- app_assoc. cbn [app]. rewrite <- app_assoc. done.
Qed.

(** An effect that neither requests nor settles. *)
Definition neutral (e : Effect) : Prop := match e with Requested _ _ _ | Settled _ _ => False | _ => True end.
Lemma core_log c c' e : vc_log c' = vc_log c ++ [e] → neutral e → vc_pending c' = vc_pending c → vc_pendingBytes c' = vc_pendingBytes c → vc_active c' = vc_active c →
  vc_closed c' = vc_closed c → core c → core c'.
Proof.
  intros El Hn Ep Eb Ea Ec []. assert (requested c' = requested c ∧ settled c' = settled c ∧ ids c' = ids c) as (Er & Es & Ei).
  { unfold requested, settled, ids. rewrite El, Ep, !omap_app. destruct e; try done; cbn; by rewrite !app_nil_r. }
  constructor; rewrite ?Er, ?Es, ?Ei, ?Ep, ?Eb, ?Ea, ?Ec; try done.
  - eapply Forall_impl; [exact ck_items0|]. intros p [H1 H2]. split; [|done]. rewrite El. apply elem_of_app. by left.
  - intros id v. rewrite El. rewrite elem_of_app, list_elem_of_singleton. intros [H|H]; [by apply authentic_note, ck_authentic0|by subst e].
Qed.
Lemma core_same c c' : vc_log c' = vc_log c → vc_pending c' = vc_pending c → vc_pendingBytes c' = vc_pendingBytes c → vc_active c' = vc_active c →
  vc_closed c' = vc_closed c → core c → core c'.
Proof.
  intros El Ep Eb Ea Ec []. constructor; unfold requested, settled, ids in *; rewrite ?El, ?Ep, ?Eb, ?Ea, ?Ec; try done.
Qed.

(** *** Settling *)

Lemma ids_nodup c : core c → NoDup (ids c).
Proof. intros [[Hn Hp] _ _ _ _ _ _]. rewrite Hp in Hn. by apply NoDup_app in Hn as (_ & _ & Hn). Qed.

(** What [finish] leaves alone. *)
Record rest_same (c c' : Client) : Prop := {
  rs_generation : vc_generation c' = vc_generation c; rs_starting : vc_starting c' = vc_starting c; rs_phase : vc_phase c' = vc_phase c;
  rs_closed : vc_closed c' = vc_closed c; rs_children : vc_children c' = vc_children c;
  rs_active : vc_active c' = vc_active c ∨ vc_active c' = None;
  rs_log : ∃ l, vc_log c' = vc_log c ++ l ∧ Forall (λ e, match e with Settled _ _ => True | _ => False end) l }.
Lemma rest_refl c : rest_same c c.
Proof. constructor; try done; [by left|]. exists []. by rewrite app_nil_r. Qed.
Lemma rest_trans a b c : rest_same a b → rest_same b c → rest_same a c.
Proof.
  intros [G1 S1 P1 C1 N1 A1 (l1 & L1 & F1)] [G2 S2 P2 C2 N2 A2 (l2 & L2 & F2)]. constructor; try congruence.
  - destruct A2 as [->|?]; [done|by right].
  - exists (l1 ++ l2). rewrite L2, L1, app_assoc. split; [done|by apply Forall_app].
Qed.

Lemma finish_ok id s c : core c → (∀ v, s = Resolved v → authentic id v (vc_log c ++ [Settled id s])) →
  let c' := finish id s c in core c' ∧ rest_same c c' ∧ (∀ i, i ∈ ids c' ↔ i ∈ ids c ∧ i ≠ id) ∧ vc_active c' ≠ Some id.
Proof.
  intros Hc Hs. pose proof (ids_nodup c Hc) as Hn. pose proof Hc as [[Hd Hp] Hi Hl [Hb Hm] Ha Hcl Hau]. cbv zeta. unfold finish.
  destruct (list_find _ (vc_pending c)) as [[i item]|] eqn:Ef.
  - apply list_find_Some in Ef as (Hget & Hid & _). pose proof (delete_Permutation _ _ _ Hget) as Hperm. set (b := bool_decide (vc_active _ = Some id)). assert (b = bool_decide (vc_active c = Some id)) as Hbd by reflexivity. clearbody b. set (c' := note _ _).
    assert (vc_pending c' = delete i (vc_pending c)) as Ep by (unfold c'; by destruct b).
    assert (vc_log c' = vc_log c ++ [Settled id s]) as El by (unfold c'; by destruct b).
    assert (vc_active c' = if bool_decide (vc_active c = Some id) then None else vc_active c) as Eact by (rewrite <- Hbd; unfold c'; by destruct b).
    assert (vc_pendingBytes c' = vc_pendingBytes c - pn_bytes item) as Eb by (unfold c'; by destruct b).
    assert (ids c ≡ₚ id :: ids c') as Hids by (unfold ids; rewrite Ep, <- Hid; exact (Permutation_map pn_id Hperm)).
    assert (∀ j, j ∈ ids c' ↔ j ∈ ids c ∧ j ≠ id) as Hin.
    { intros j. rewrite Hids, elem_of_cons. rewrite Hids in Hn. apply NoDup_cons in Hn as [Hn _]. split; [intros ?; split; [by right|by intros ->]|intros [[?|?] ?]; done]. }
    assert (vc_active c' ≠ Some id) as Hna by (rewrite Eact; case_bool_decide; done).
    assert (requested c' = requested c) as Er by (unfold requested; rewrite El, omap_app; cbn; by rewrite app_nil_r).
    assert (settled c' = settled c ++ [id]) as Es by (unfold settled; rewrite El, omap_app; done).
    split; [constructor|split; [|split; [exact Hin|exact Hna]]].
    + rewrite Er, Es. split; [done|]. rewrite Hp, Hids, <- app_assoc. done.
    + rewrite Ep. rewrite Hperm in Hi. apply Forall_cons in Hi as [_ Hi]. eapply Forall_impl; [exact Hi|]. intros p [H1 H2]. split; [|done]. rewrite El. apply elem_of_app. by left.
    + rewrite Ep. apply Permutation_length in Hperm. cbn [length] in Hperm. lia.
    + rewrite Eb, Ep, Hb, (zsum_Permutation _ _ (Permutation_map pn_bytes Hperm)). cbn [map]. rewrite zsum_cons. rewrite Hperm in Hi. apply Forall_cons in Hi as [[_ H0] _].
      rewrite Hb, (zsum_Permutation _ _ (Permutation_map pn_bytes Hperm)) in Hm. cbn [map] in Hm. rewrite zsum_cons in Hm. lia.
    + intros j Hj. apply Hin. rewrite Eact in Hj. case_bool_decide as E; [done|]. split; [by apply Ha|congruence].
    + intros Hclosed. assert (vc_closed c = true) as Hcc by (revert Hclosed; unfold c'; by destruct b). apply Hcl in Hcc. rewrite Hcc in Hget. by rewrite lookup_nil in Hget.
    + intros j v. rewrite El, elem_of_app, list_elem_of_singleton. intros [H|H]; [by apply authentic_note, Hau|]. injection H as -> <-. by apply Hs.
    + constructor; try (unfold c'; by destruct b).
      * rewrite Eact. case_bool_decide; [by right|by left].
      * exists [Settled id s]. split; [done|by apply Forall_singleton].
  - apply list_find_None in Ef. assert (id ∉ ids c) as Hni.
    { intros (p & -> & Hin)%list_elem_of_fmap. rewrite Forall_forall in Ef. by apply (Ef p). }
    split; [done|]. split; [apply rest_refl|]. split; [|intros H; by apply Hni, Ha]. intros i. split; [|by intros []]. intros Hin. split; [done|]. intros ->. done.
Qed.

Lemma finish_list reason l : ∀ c, core c → (∀ i, i ∈ ids c → i ∈ l) →
  let c' := foldl (λ c id, finish id (Failed reason) c) c l in core c' ∧ rest_same c c' ∧ vc_pending c' = [].
Proof.
  induction l as [|id l IH]; intros c Hc Hl; cbn [foldl].
  - split; [done|]. split; [apply rest_refl|]. destruct (vc_pending c) as [|p r] eqn:E; [done|]. exfalso. apply (not_elem_of_nil (pn_id p)), Hl. unfold ids. rewrite E. left.
  - destruct (finish_ok id (Failed reason) c Hc) as (H1 & H2 & H3 & _); [done|]. destruct (IH (finish id (Failed reason) c) H1) as (I1 & I2 & I3).
    + intros i Hi. apply H3 in Hi as [Hi Hne]. apply Hl, elem_of_cons in Hi as [?|?]; done.
    + split; [done|]. split; [by eapply rest_trans|done].
Qed.
Lemma finish_all_ok reason c : core c → let c' := finish_all reason c in core c' ∧ rest_same c c' ∧ vc_pending c' = [] ∧ vc_active c' = None.
Proof.
  intros Hc. destruct (finish_list reason (ids c) c Hc) as (H1 & H2 & H3); [done|]. split; [done|]. split; [done|]. split; [done|]. fold (finish_all reason c) in *.
  destruct (vc_active (finish_all reason c)) as [id|] eqn:E; [|done]. apply (ck_active _ H1) in E. unfold ids in E. rewrite H3 in E. by apply elem_of_nil in E.
Qed.

Lemma progress_empty c : vc_pending c = [] → progress c.
Proof. intros E H. by rewrite E in H. Qed.
Lemma act_idle c : vc_active c = None → act c.
Proof. intros E id. by rewrite E. Qed.

Lemma rest_gens c c' : rest_same c c' → gens c → gens c'.
Proof.
  intros [Eg Es Ep Ec En _ (l & El & _)] []. constructor; rewrite ?Eg, ?Es, ?Ep, ?En; try done. intros n Hn. destruct (gk_children0 n Hn) as [?|?]; [by left|right].
  rewrite El. apply elem_of_app. by left.
Qed.
Lemma rest_act c c' : rest_same c c' → act c → act c'.
Proof.
  intros [Eg _ _ _ _ Ea (l & El & Hl)] H id Hid. destruct Ea as [Ea|Ea]; [|congruence]. rewrite Ea in Hid. destruct (H id Hid) as (g & E & Hr & Hlive). exists g. rewrite Eg. split_and!; [done|done|].
  rewrite El. clear -Hlive Hl. revert Hl. induction l as [|e l IH] using rev_ind; intros Hl; [by rewrite app_nil_r|]. apply Forall_app in Hl as [Hl He]. apply Forall_cons in He as [He _].
  rewrite app_assoc. apply live_note; [|by apply IH]. by destruct e.
Qed.

(** *** The child *)

Lemma failGeneration_ok reason c g : core c → gens c → vc_generation c = Some g →
  let c' := failGeneration reason c in
  client_ok c' ∧ vc_pending c' = [] ∧ vc_active c' = None ∧ vc_generation c' = None ∧ vc_closed c' = vc_closed c
  ∧ vc_phase c' = match vc_phase c with PhStarting => PhFailed | p => p end ∧ ∃ l, vc_log c' = vc_log c ++ l ∧ omap (λ e, match e with Requested id _ _ => Some id | _ => None end) l = [].
Proof.
  intros Hc [Hg Hp Hk] Eg. cbv zeta. unfold failGeneration. rewrite Eg in *. destruct Hg as [Hg _].
  set (c1 := note (Killed (gn_child g)) _).
  assert (core c1) as Hc1 by (apply (core_log c c1 (Killed (gn_child g))); unfold c1; cbn; destruct (vc_phase c) eqn:?; done).
  destruct (finish_all_ok reason c1 Hc1) as (H1 & H2 & H3 & H4). pose proof H2 as [R1 R2 R3 R4 R5 R6 (l & R7 & R8)].
  assert (vc_log c1 = vc_log c ++ [Killed (gn_child g)]) as El by (unfold c1; cbn; by destruct (vc_phase c) eqn:?).
  assert (vc_phase c1 = match vc_phase c with PhStarting => PhFailed | p => p end) as Eph by (unfold c1; cbn; by destruct (vc_phase c) eqn:?).
  assert (gens c1) as Hg1.
  { constructor.
    - unfold c1. cbn. by destruct (vc_phase c) eqn:?.
    - rewrite Eph. by destruct (vc_phase c) eqn:?.
    - intros n Hn. right. rewrite El, elem_of_app. assert (vc_children c1 = vc_children c) as En by (unfold c1; cbn; by destruct (vc_phase c) eqn:?). rewrite En in Hn.
      destruct (Hk n Hn) as [(g' & E & Hg')|?]; [injection E as <-; right; by apply list_elem_of_singleton, f_equal|by left]. }
  split; [split; [done|split; [by eapply rest_gens|by apply act_idle]]|]. split_and!; [done|done| | | |].
  - rewrite R1. unfold c1. cbn. by destruct (vc_phase c) eqn:?.
  - rewrite R4. unfold c1. cbn. by destruct (vc_phase c) eqn:?.
  - by rewrite R3.
  - exists (Killed (gn_child g) :: l). rewrite R7, El, <- app_assoc. split; [done|]. cbn. clear -R8. induction R8 as [|e l He _ IH]; [done|]. cbn. by destruct e.
Qed.

Lemma log_ids c c' l : vc_log c' = vc_log c ++ l → omap (λ e, match e with Requested id _ _ => Some id | _ => None end) l = [] → requested c' = requested c.
Proof. intros El Hl. unfold requested. by rewrite El, omap_app, Hl, app_nil_r. Qed.
Lemma rest_ids c c' : rest_same c c' → requested c' = requested c.
Proof. intros [_ _ _ _ _ _ (l & El & Hl)]. apply (log_ids c c' l El). clear El. induction Hl as [|e l He _ IH]; [done|]. cbn. by destruct e. Qed.

(** The outcome of a step: the client keeps its invariant, and what it asked for. *)
Definition stepped (c c' : Client) : Prop := client_ok c' ∧ progress c' ∧ requested c' = requested c.
Lemma stepped_fail reason c g : core c → gens c → vc_generation c = Some g → stepped c (failGeneration reason c).
Proof.
  intros Hc Hg Eg. destruct (failGeneration_ok reason c g Hc Hg Eg) as (H1 & H2 & _ & _ & _ & _ & l & El & Hl). split; [done|]. split; [by apply progress_empty|by eapply log_ids].
Qed.

Lemma started_ok phase c : core c → gens c → act c → vc_starting c = false → vc_generation c = None →
  (phase PhStarting = PhStarting ∨ phase PhStarting = PhIdle) → phase PhFailed ≠ PhStarting →
  client_ok (start spawn_fails phase c) ∧ requested (start spawn_fails phase c) = requested c.
Proof.
  intros Hc [Hg Hp Hk] Ha Hs Eg Hph Hpf. unfold start. cbv zeta. destruct (spawn_fails _).
  - split; [|done]. split; [by apply (core_same c)|]. split; [|exact Ha]. constructor; [done|done|done].
  - set (c' := note _ _). assert (vc_log c' = vc_log c ++ [Spawned (S (vc_children c))]) as El by done. split.
    + split; [by apply (core_log c c' (Spawned (S (vc_children c))))|]. split.
      * constructor; [done|done|]. intros n Hn. change (vc_children c') with (S (vc_children c)) in Hn. destruct (decide (n = S (vc_children c))) as [->|Hne].
        { left. by eexists. }
        right. rewrite El. apply elem_of_app. left. destruct (Hk n ltac:(lia)) as [(g & E & _)|?]; [congruence|done].
      * intros id Hid. destruct (Ha id Hid) as (g & E & _). congruence.
    + unfold requested. rewrite El, omap_app. cbn. by rewrite app_nil_r.
Qed.

Lemma vsec_pump_ok c : client_ok c → stepped c (pump spawn_fails c).
Proof.
  intros (Hc & Hg & Ha). unfold pump. destruct (_ || _) eqn:E.
  - split; [done|]. split; [|done]. intros Hne. apply orb_true_iff in E as [E|E]; [|by apply bool_decide_eq_true_1 in E].
    apply orb_true_iff in E as [E|E]; [|by rewrite (ck_closed _ Hc E) in Hne]. apply orb_true_iff in E as [E|E]; apply bool_decide_eq_true_1 in E; auto.
  - apply orb_false_iff in E as [E _]. apply orb_false_iff in E as [E _]. apply orb_false_iff in E as [E _]. apply bool_decide_eq_false_1 in E.
    assert (vc_phase c = PhIdle) as Eph by (destruct (decide (vc_phase c = PhIdle)); [done|contradiction]). clear E.
    unfold ensureStarted. destruct (vc_starting c) eqn:Es.
    + split; [|split; [right; done|done]]. split; [by apply (core_same c)|]. split; [|exact Ha]. destruct Hg as [G1 G2 G3]. constructor; [exact G1|done|exact G3].
    + assert (match vc_generation c with Some g => gn_ready g = true | None => True end) as Hr.
      { pose proof (gk_generation _ Hg) as H. destruct (vc_generation c); [|done]. destruct H as [_ H]. by rewrite Es in H. }
      destruct (vc_generation c) as [g|] eqn:Eg.
      * rewrite Hr. split; [|split; [right; done|done]]. split; [by apply (core_same c)|]. split; [|exact Ha]. destruct Hg as [G1 G2 G3]. constructor; [exact G1|done|exact G3].
      * destruct (started_ok (λ p, p) c Hc Hg Ha Es Eg) as [H1 H2]; [by left|done|]. split; [done|]. split; [|done]. right. unfold start. cbv zeta. by destruct (spawn_fails _).
Qed.

Lemma stepped_pump c c1 : client_ok c1 → requested c1 = requested c → stepped c (pump spawn_fails c1).
Proof. intros H E. destruct (vsec_pump_ok c1 H) as (H1 & H2 & H3). split; [done|]. split; [done|congruence]. Qed.

Lemma phase_gens p c : p ≠ PhStarting → gens c → gens (set_phase p c).
Proof. intros Hp [G1 G2 G3]. by constructor. Qed.
Lemma pump_finally_ok c c1 : client_ok c1 → requested c1 = requested c → stepped c (pump_finally spawn_fails c1).
Proof.
  intros (Hc & Hg & Ha) E. unfold pump_finally. assert (client_ok (set_phase PhIdle c1)) as H.
  { split; [by apply (core_same c1)|]. split; [by apply phase_gens|exact Ha]. }
  destruct (vc_active (set_phase PhIdle c1)) as [id|] eqn:Ea.
  - split; [done|]. split; [|done]. intros _. left. by rewrite Ea.
  - destruct (vc_pending (set_phase PhIdle c1)) eqn:Ep; [|by apply stepped_pump]. split; [done|]. split; [by apply progress_empty|done].
Qed.
Lemma pump_catch_ok c c1 : core c1 → gens c1 → requested c1 = requested c → stepped c (pump_catch spawn_fails c1).
Proof.
  intros Hc Hg E. unfold pump_catch. destruct (vc_generation c1) as [g|] eqn:Eg.
  - destruct (failGeneration_ok UCrash c1 g Hc Hg Eg) as (H1 & _ & _ & _ & _ & _ & l & El & Hl). apply pump_finally_ok; [done|]. rewrite <- E. by eapply log_ids.
  - destruct (finish_all_ok (if vc_closed c1 then UClosed else UStartup) c1 Hc) as (H1 & H2 & H3 & H4). apply pump_finally_ok.
    + split; [done|]. split; [by eapply rest_gens|by apply act_idle].
    + rewrite <- E. by apply rest_ids.
Qed.

Lemma resume_ok queueMs flushed c : client_ok c → progress c → stepped c (resume spawn_fails write_fails queueMs flushed c).
Proof.
  intros (Hc & Hg & Ha) Hpr. assert (stepped c c) as Hsame by done. unfold resume. destruct (vc_phase c) eqn:Eph; try done.
  - destruct (vc_pending c) as [|item rest] eqn:Ep; [by apply pump_finally_ok|]. destruct (vc_generation c) as [g|] eqn:Eg; [|by apply pump_finally_ok].
    destruct (negb (gn_ready g) || vc_closed c) eqn:E; [by apply pump_finally_ok|]. apply orb_false_iff in E as [Er _]. apply negb_false_iff in Er.
    assert (core (set_active (Some (pn_id item)) c)) as Hc1.
    { destruct Hc. constructor; try done. intros id [= <-]. unfold ids. cbn [vc_pending set_active]. rewrite Ep. left. }
    assert (gens (set_active (Some (pn_id item)) c)) as Hg1 by (destruct Hg; by constructor).
    cbv zeta. destruct (write_fails _ _); [by apply pump_catch_ok|]. set (e := Sent (gn_child g) (pn_id item) (frame_of item queueMs)).
    split; [|split; [intros _; left; done|unfold requested; cbn [vc_log set_phase note]; rewrite omap_app; cbn; by rewrite app_nil_r]].
    split; [by apply (core_log (set_active (Some (pn_id item)) c) _ e)|]. split.
    + apply phase_gens; [done|]. destruct Hg1 as [G1 G2 G3]. constructor; [exact G1|exact G2|]. intros n Hn. destruct (G3 n Hn) as [?|?]; [by left|right]. cbn [vc_log note]. apply elem_of_app. by left.
    + intros id [= <-]. exists g. split_and!; [done|done|]. pose proof (ck_items _ Hc) as Hi. rewrite Ep in Hi. apply Forall_cons in Hi as [[Hi _] _].
      exists (vc_log c), [], item, queueMs. split_and!; [done|apply not_elem_of_nil|done|exact Hi].
  - by apply pump_catch_ok.
  - destruct flushed; [by apply pump_finally_ok|by apply pump_catch_ok].
Qed.

(** *** Lines *)

Lemma received_note c g line : client_ok c → vc_generation c = Some g → client_ok (note (Received (gn_child g) line) c) ∧ requested (note (Received (gn_child g) line) c) = requested c.
Proof.
  intros (Hc & Hg & Ha) Eg. set (c' := note _ _). assert (vc_log c' = vc_log c ++ [Received (gn_child g) line]) as El by done.
  split; [|unfold requested; rewrite El, omap_app; cbn; by rewrite app_nil_r]. split; [by apply (core_log c c' (Received (gn_child g) line))|]. split.
  - destruct Hg as [G1 G2 G3]. constructor; [exact G1|exact G2|]. intros n Hn. destruct (G3 n Hn) as [?|?]; [by left|right]. rewrite El. apply elem_of_app. by left.
  - intros id Hid. destruct (Ha id Hid) as (g' & E & Hr & Hl). exists g'. split_and!; [done|done|]. rewrite El. by apply live_note.
Qed.

Lemma pending_of_some id c item : pending_of id c = Some item → pn_id item = id ∧ item ∈ vc_pending c.
Proof.
  unfold pending_of. intros H. apply fmap_Some in H as ([i p] & Hf & ->). apply list_find_Some in Hf as (Hget & Hid & _). split; [done|]. by eapply list_elem_of_lookup_2.
Qed.

Lemma vsec_requested_once c id op payload op' payload' : NoDup (requested c) →
  Requested id op payload ∈ vc_log c → Requested id op' payload' ∈ vc_log c → op = op' ∧ payload = payload'.
Proof.
  unfold requested. induction (vc_log c) as [|e l IH]; intros Hn H1 H2; [by apply elem_of_nil in H1|].
  assert (∀ op payload, Requested id op payload ∈ l → id ∈ omap (λ e, match e with Requested id _ _ => Some id | _ => None end) l) as Hin.
  { intros o y Hin. apply list_elem_of_omap. by exists (Requested id o y). }
  apply elem_of_cons in H1 as [H1|H1], H2 as [H2|H2].
  - subst e. by injection H2 as -> ->.
  - subst e. cbn in Hn. apply NoDup_cons in Hn as [Hn _]. by apply Hin in H2.
  - subst e. cbn in Hn. apply NoDup_cons in Hn as [Hn _]. by apply Hin in H1.
  - apply IH; try done. cbn in Hn. destruct e; try done. by apply NoDup_cons in Hn as [_ Hn].
Qed.

(** A line of the current child. *)
Lemma receive_line_ok g line c0 : client_ok c0 → progress c0 → vc_generation c0 = Some g →
  stepped c0 (receive_line pid_of spawn_fails g line (note (Received (gn_child g) line) c0)).
Proof.
  intros H0 Hpr Eg0. destruct (received_note c0 g line H0 Eg0) as [Hok Er0]. set (c := note _ c0) in *. assert (vc_generation c = Some g) as Eg by done.
  assert (progress c) as Hprc by done. pose proof Hok as (Hc & Hg & Ha).
  assert (∀ reason, stepped c0 (failGeneration reason c)) as Hfail.
  { intros reason. destruct (stepped_fail reason c g Hc Hg Eg) as (H1 & H2 & H3). split; [done|]. split; [done|]. by rewrite H3. }
  assert (stepped c0 c) as Hsame by done.
  unfold receive_line. cbv zeta. destruct (parse line) as [response|] eqn:Epl; [|apply Hfail]. destruct (fields_of response) as [l|] eqn:Efl; [|apply Hfail].
  destruct (is_protocol l) eqn:Epr; cbn [negb]; [|apply Hfail]. destruct (gn_ready g) eqn:Erd; cbn [negb].
  - destruct (assoc (js "id") l) as [[| | |id| |]|] eqn:Eid; try apply Hfail.
    destruct (vc_active c) as [active|] eqn:Eact; cbn [mbind option_bind]; [|done]. destruct (jeqb id active) eqn:Ej; [|done]. apply jeqb_eq in Ej as ->.
    destruct (pending_of active c) as [item|] eqn:Ep; [|done]. apply pending_of_some in Ep as [Hid Hin].
    assert (∀ s, (∀ v, s = Resolved v → authentic (pn_id item) v (vc_log c ++ [Settled (pn_id item) s])) → stepped c0 (pump spawn_fails (finish (pn_id item) s c))) as Hfin.
    { intros s Hs. destruct (finish_ok (pn_id item) s c Hc Hs) as (F1 & F2 & _). apply stepped_pump; [|by rewrite (rest_ids _ _ F2)].
      split; [done|]. split; [by eapply rest_gens|by eapply rest_act]. }
    destruct (boolean_is false _); [by apply Hfin|]. destruct (check_reply _ item l) as [value|] eqn:Ecr; [|apply Hfail]. apply Hfin. intros v [= <-].
    destruct (Ha active Eact) as (g' & Eg' & _ & (l1 & l2 & item' & queueMs & El & Hk & Hid' & Hreq)). rewrite Eg in Eg'. injection Eg' as <-.
    assert (∃ l2', l2 = l2' ++ [Received (gn_child g) line]) as [l2' ->].
    { unfold c in El. cbn [vc_log note] in El. destruct l2 as [|x l2] using rev_ind; [apply app_inj_tail in El as [_ El]; done|]. clear IHl2.
      rewrite app_comm_cons, app_assoc in El. apply app_inj_tail in El as [_ <-]. by exists l2. }
    pose proof (ck_items _ Hc) as Hi. rewrite Forall_forall in Hi. destruct (Hi item Hin) as [Hr _]. rewrite Hid in Hr.
    assert (Requested active (pn_op item') (pn_payload item') ∈ vc_log c) as Hr' by (rewrite El; apply elem_of_app; by left).
    destruct (vsec_requested_once c active _ _ _ _ (proj1 (ck_ledger _ Hc)) Hr Hr') as [Eop Epay].
    exists l1, l2', [], (gn_child g), item', queueMs, line. rewrite Hid. split_and!; [|set_solver|done|done|].
    + rewrite El, <- app_assoc. cbn [app]. rewrite <- app_assoc. done.
    + unfold reply_value. rewrite Epl. cbn [mbind option_bind]. rewrite Efl. cbn [mbind option_bind]. rewrite Epr, Hid', Eid. cbn [string_is andb]. rewrite jeqb_refl.
      destruct item as [i1 o1 y1 b1], item' as [i2 o2 y2 b2]. cbn [pn_id pn_op pn_payload] in *. subst. exact Ecr.
  - destruct (_ && _); [|apply Hfail]. set (c1 := set_starting false _).
    assert (core c1) as Hc1 by (by apply (core_same c)).
    assert (vc_starting c = true) as Hst.
    { pose proof (gk_generation _ Hg) as G. rewrite Eg in G. destruct G as [_ G]. rewrite Erd in G. by destruct (vc_starting c). }
    assert (act c1) as Ha1.
    { intros id Hid. destruct (Ha id Hid) as (g' & E & Hr & _). rewrite Eg in E. injection E as <-. congruence. }
    assert (match vc_generation c1 with Some g => gn_child g = vc_children c1 ∧ gn_ready g = negb (vc_starting c1) | None => vc_starting c1 = false end) as G1.
    { pose proof (gk_generation _ Hg) as G. rewrite Eg in G. by destruct G. }
    assert (∀ n, (1 <= n <= vc_children c1)%nat → (∃ g, vc_generation c1 = Some g ∧ gn_child g = n) ∨ Killed n ∈ vc_log c1) as G3.
    { intros n Hn. destruct (gk_children _ Hg n Hn) as [(g' & E & Hn')|?]; [left|by right]. rewrite Eg in E. injection E as <-. by eexists. }
    assert (∀ p, p ≠ PhStarting → client_ok (set_phase p c1)) as Hset.
    { intros p Hp. split; [by apply (core_same c1)|]. split; [by constructor|exact Ha1]. }
    destruct (vc_phase c) eqn:Eph; change (vc_phase c1) with (vc_phase c); rewrite Eph.
    2: { split; [by apply Hset|]. split; [by right|exact Er0]. }
    all: assert (client_ok c1) as Hok1 by (split; [done|split; [constructor; [exact G1| |exact G3]; change (vc_phase c1) with (vc_phase c); by rewrite Eph|exact Ha1]]).
    all: split; [exact Hok1|split; [exact Hprc|exact Er0]].
Qed.

Lemma stepped_trans a b c : requested b = requested a → stepped b c → stepped a c.
Proof. intros E (H1 & H2 & H3). split; [done|]. split; [done|congruence]. Qed.

Lemma receive_ok child line c : client_ok c → progress c → stepped c (receive pid_of spawn_fails child line c).
Proof.
  intros H Hp. unfold receive. destruct (vc_generation c) as [g|] eqn:Eg; [|done]. destruct (gn_child g =? child)%nat eqn:E; [|done]. apply Nat.eqb_eq in E as <-.
  by apply receive_line_ok.
Qed.
Lemma stream_failed_ok child c : client_ok c → progress c → stepped c (stream_failed child c).
Proof.
  intros H Hp. unfold stream_failed. destruct (vc_generation c) as [g|] eqn:Eg; [|done]. destruct (gn_child g =? child)%nat; [|done]. destruct H as (Hc & Hg & _).
  by eapply stepped_fail.
Qed.
Lemma set_frames_ok child frames c : client_ok c → progress c → stepped c (set_frames child frames c).
Proof.
  intros Hok Hp. assert (stepped c c) as Hsame by done. destruct Hok as (Hc & [G1 G2 G3] & Ha). unfold set_frames. destruct (vc_generation c) as [g|] eqn:Eg; [|done]. destruct (gn_child g =? child)%nat eqn:E; [|done]. apply Nat.eqb_eq in E as <-.
  split; [|done]. split; [by apply (core_same c)|]. split.
  - constructor; [exact G1|exact G2|]. intros n Hn. destruct (G3 n Hn) as [(g' & E & Hn')|?]; [left|by right]. injection E as <-. by eexists.
  - intros id Hid. destruct (Ha id Hid) as (g' & E & Hr & Hl). rewrite Eg in E. injection E as <-. by eexists.
Qed.
Lemma read_parts_ok child parts : ∀ buffered c, client_ok c → progress c → stepped c (read_parts pid_of spawn_fails child parts buffered c).
Proof.
  induction parts as [|part parts IH]; intros buffered c H Hp; [done|]. cbn [read_parts]. destruct parts as [|next parts].
  - destruct (_ <? _); [by apply stream_failed_ok|by apply set_frames_ok].
  - destruct (_ <? _); [by apply stream_failed_ok|]. destruct (receive_ok child (utf8_decode (buffered ++ part)) c H Hp) as (H1 & H2 & H3).
    apply (stepped_trans c (receive pid_of spawn_fails child (utf8_decode (buffered ++ part)) c)); [done|]. by apply IH.
Qed.

(** *** Events *)

Definition fresh (c : Client) (e : Event) : Prop := match e with EvRequest _ _ id _ => id ∉ requested c | _ => True end.
Definition asked (e : Event) : list jstr := match e with EvRequest _ _ id _ => [id] | _ => [] end.

Lemma refused_ok id op payload reason c : id ∉ requested c → client_ok c →
  client_ok (note (Settled id (Failed reason)) (note (Requested id op payload) c))
  ∧ requested (note (Settled id (Failed reason)) (note (Requested id op payload) c)) = requested c ++ [id].
Proof.
  intros Hf (Hc & Hg & Ha). set (c' := note _ _). assert (vc_log c' = vc_log c ++ [Requested id op payload; Settled id (Failed reason)]) as El by (unfold c'; cbn [vc_log note]; by rewrite <- app_assoc).
  assert (requested c' = requested c ++ [id]) as Er by (unfold requested; rewrite El, omap_app; done).
  assert (settled c' = settled c ++ [id]) as Es by (unfold settled; rewrite El, omap_app; done).
  split; [|done]. split; [|split].
  - destruct Hc as [[Hn Hp] Hi Hl Hb Hac Hcl Hau]. constructor; try done.
    + rewrite Er, Es. split.
      * apply NoDup_app. split; [done|]. split; [|apply NoDup_singleton]. intros x Hx ->%list_elem_of_singleton. done.
      * change (ids c') with (ids c). rewrite Hp. rewrite <- !app_assoc. apply Permutation_app_head, Permutation_app_comm.
    + eapply Forall_impl; [exact Hi|]. intros p [H1 H2]. split; [|done]. rewrite El. apply elem_of_app. by left.
    + intros i v. rewrite El. rewrite elem_of_app. intros [H|H].
      * replace (vc_log c ++ _) with ((vc_log c ++ [Requested id op payload]) ++ [Settled id (Failed reason)]) by (by rewrite <- app_assoc). by apply authentic_note, authentic_note, Hau.
      * apply elem_of_cons in H as [H|H]; [done|]. by apply list_elem_of_singleton in H.
  - destruct Hg as [G1 G2 G3]. constructor; [exact G1|exact G2|]. intros n Hn. destruct (G3 n Hn) as [?|?]; [by left|right]. rewrite El. apply elem_of_app. by left.
  - intros i Hi. destruct (Ha i Hi) as (g & E & Hr & Hl). exists g. split_and!; [done|done|]. unfold c'. cbn [vc_log note]. by apply live_note, live_note.
Qed.

Lemma vsec_enqueue_ok op params id late c : id ∉ requested c → client_ok c → progress c →
  let c' := enqueue iso_datetime spawn_fails maxPending maxBytes op params id late c in
  client_ok c' ∧ progress c' ∧ requested c' = requested c ++ [id].
Proof.
  intros Hf Hok Hp. cbv zeta. unfold enqueue. cbv zeta. set (payload := stringify params). set (n := byte_length payload + 256). set (c1 := note (Requested id op payload) c).
  assert (∀ reason, client_ok (note (Settled id (Failed reason)) c1) ∧ progress (note (Settled id (Failed reason)) c1) ∧ requested (note (Settled id (Failed reason)) c1) = requested c ++ [id]) as Href.
  { intros reason. destruct (refused_ok id op payload reason c Hf Hok) as [H1 H2]. split; [done|]. split; [exact Hp|done]. }
  destruct (vc_closed c1) eqn:Ecl; [apply Href|]. destruct (_ || _); [apply Href|]. destruct (MAX_FRAME_BYTES <? n); [apply Href|].
  destruct ((maxPending <=? length (vc_pending c1))%nat || (maxBytes <? vc_pendingBytes c1 + n)) eqn:Eo; [apply Href|]. apply orb_false_iff in Eo as [Eo1 Eo2].
  apply Nat.leb_gt in Eo1. apply Z.ltb_ge in Eo2. destruct late; [apply Href|].
  set (c2 := set_pending _ _ c1). assert (requested c2 = requested c ++ [id]) as Er by (unfold requested; cbn [c2 c1 vc_log set_pending note]; by rewrite omap_app).
  destruct Hok as (Hc & Hg & Ha). assert (client_ok c2) as H2.
  { split; [|split].
    - destruct Hc as [[Hn Hpm] Hi Hl [Hb Hm] Hac Hcl Hau]. assert (settled c2 = settled c) as Es by (unfold settled; cbn [c2 c1 vc_log set_pending note]; rewrite omap_app; cbn; by rewrite app_nil_r).
      constructor.
      + rewrite Er, Es. split.
        * apply NoDup_app. split; [done|]. split; [|apply NoDup_singleton]. intros x Hx ->%list_elem_of_singleton. done.
        * unfold ids. cbn [c2 c1 vc_pending set_pending note]. rewrite map_app, app_assoc. by apply Permutation_app_tail.
      + cbn [c2 c1 vc_pending set_pending note vc_log]. apply Forall_app. split.
        * eapply Forall_impl; [exact Hi|]. intros p [H1 H2]. split; [|done]. apply elem_of_app. by left.
        * apply Forall_singleton. split; [apply elem_of_app; right; by apply list_elem_of_singleton|]. cbn [pn_bytes]. pose proof (byte_length_nonneg payload). unfold n. lia.
      + cbn [c2 c1 vc_pending set_pending note] in *. rewrite length_app. cbn [length]. lia.
      + cbn [c2 c1 vc_pending vc_pendingBytes set_pending note] in *. split; [|done]. rewrite map_app, zsum_app, Hb. cbn. lia.
      + intros i Hin. unfold ids. cbn [c2 c1 vc_pending set_pending note]. rewrite map_app. apply elem_of_app. left. by apply Hac.
      + intros E. cbn [c2 c1 vc_closed set_pending note] in *. congruence.
      + intros i v Hin. cbn [c2 c1 vc_log set_pending note] in *. apply elem_of_app in Hin as [Hin|Hin]; [by apply authentic_note, Hau|]. by apply list_elem_of_singleton in Hin.
    - destruct Hg as [G1 G2 G3]. constructor; [exact G1|exact G2|]. intros m Hmn. destruct (G3 m Hmn) as [?|?]; [by left|right]. cbn [c2 c1 vc_log set_pending note]. apply elem_of_app. by left.
    - intros i Hin. destruct (Ha i Hin) as (g & E & Hr & Hl). exists g. split_and!; [done|done|]. by apply live_note. }
  destruct (vsec_pump_ok c2 H2) as (P1 & P2 & P3). split; [done|]. split; [done|]. by rewrite P3.
Qed.

Lemma vsec_timed_out_ok id c : client_ok c → progress c → stepped c (timed_out id c).
Proof.
  intros Hok Hp. assert (stepped c c) as Hsame by done. destruct Hok as (Hc & Hg & Ha). unfold timed_out. case_bool_decide as Hin; [|done]. destruct (vc_generation c) as [g|] eqn:Eg; [by eapply stepped_fail|].
  destruct (finish_ok id (Failed UTimeout) c Hc) as (H1 & H2 & H3 & H4); [done|]. split; [split; [done|split; [by eapply rest_gens|by eapply rest_act]]|]. split; [|by apply rest_ids].
  intros Hne. right. rewrite (rs_phase _ _ H2). destruct (Hp ltac:(intros E; unfold ids in Hin; rewrite E in Hin; by apply elem_of_nil in Hin)) as [[i Hi]|?]; [|done].
  destruct (Ha i Hi) as (g & E & _). congruence.
Qed.

(** Closing commutes with what fails the pending requests. *)
Lemma set_closed_finish b id s c : finish id s (set_closed b c) = set_closed b (finish id s c).
Proof. unfold finish. cbn [vc_pending set_closed]. destruct (list_find _ _) as [[i item]|]; [|done]. cbn. by destruct (bool_decide _). Qed.
Lemma set_closed_finish_all b reason c : finish_all reason (set_closed b c) = set_closed b (finish_all reason c).
Proof.
  unfold finish_all. change (ids (set_closed b c)) with (ids c). generalize (ids c). intros l. revert c.
  induction l as [|id l IH]; intros c; [done|]. cbn [foldl]. rewrite set_closed_finish. apply IH.
Qed.
Lemma set_closed_fail b reason c : failGeneration reason (set_closed b c) = set_closed b (failGeneration reason c).
Proof.
  unfold failGeneration. cbn [vc_generation set_closed]. destruct (vc_generation c) as [g|]; [|done]. cbv zeta. cbn [vc_phase set_closed]. rewrite <- set_closed_finish_all. f_equal. destruct c as [? ? ? ? ? ? [] ? ?]; reflexivity.
Qed.
Lemma closed_ok c : client_ok c → vc_pending c = [] → client_ok (set_closed true c) ∧ progress (set_closed true c).
Proof.
  intros (Hc & Hg & Ha) He. split; [|by apply progress_empty]. split; [|split; [destruct Hg; by constructor|done]].
  destruct Hc. constructor; done.
Qed.
Lemma vsec_shutdown_ok c : client_ok c → progress c → stepped c (shutdown c).
Proof.
  intros Hok Hp. assert (stepped c c) as Hsame by done. destruct Hok as (Hc & Hg & Ha). unfold shutdown. destruct (vc_closed c) eqn:Ecl; [done|]. cbv zeta. change (vc_generation (set_closed true c)) with (vc_generation c).
  destruct (vc_generation c) as [g|] eqn:Eg.
  - rewrite set_closed_fail. destruct (failGeneration_ok UClosed c g Hc Hg Eg) as (H1 & H2 & _ & _ & _ & _ & l & El & Hl).
    destruct (closed_ok _ H1 H2) as [H3 H4]. split; [done|]. split; [done|]. by apply (log_ids c (set_closed true (failGeneration UClosed c)) l).
  - rewrite set_closed_finish_all. destruct (finish_all_ok UClosed c Hc) as (H1 & H2 & H3 & H4).
    destruct (closed_ok (finish_all UClosed c)) as [H5 H6]; [split; [done|split; [by eapply rest_gens|by apply act_idle]]|done|].
    split; [done|]. split; [done|]. exact (rest_ids _ _ H2).
Qed.

Lemma vsec_apply_event_ok c e : fresh c e → client_ok c → progress c →
  let c' := apply_event iso_datetime pid_of spawn_fails write_fails maxPending maxBytes c e in client_ok c' ∧ progress c' ∧ requested c' = requested c ++ asked e.
Proof.
  intros Hf Hok Hp. cbv zeta. assert (∀ c', stepped c c' → client_ok c' ∧ progress c' ∧ requested c' = requested c ++ []) as Hst.
  { intros c' (H1 & H2 & H3). by rewrite app_nil_r. }
  assert (stepped c c) as Hsame by done. pose proof Hok as (Hc & Hg & _).
  destruct e as [op params id late|id| |child chunk|child|child|queueMs flushed|]; cbn [apply_event asked]; [by apply vsec_enqueue_ok|..]; apply Hst.
  - by apply vsec_timed_out_ok.
  - destruct (vc_starting c) eqn:Es; [|done]. destruct (vc_generation c) as [g|] eqn:Eg; [by eapply stepped_fail|]. pose proof (gk_generation _ Hg) as G. rewrite Eg in G. congruence.
  - unfold readFrames. destruct (vc_generation c) as [g|] eqn:Eg; [|done]. destruct (_ =? _)%nat; [by apply read_parts_ok|done].
  - destruct (vc_generation c) as [g|] eqn:Eg; [|done]. destruct (gn_frames g); [done|by apply stream_failed_ok].
  - destruct (vc_generation c) as [g|] eqn:Eg; [|done]. destruct (_ =? _)%nat; [by eapply stepped_fail|done].
  - by apply resume_ok.
  - by apply vsec_shutdown_ok.
Qed.

Lemma vsec_create_ok : 0 <= maxBytes → client_ok (create spawn_fails) ∧ progress (create spawn_fails) ∧ requested (create spawn_fails) = [].
Proof.
  intros Hm. assert (client_ok new_client) as Hok.
  { split; [|split; [|by intros id]].
    - constructor; [split; [constructor|done]|constructor|cbn; lia|done|done|done|]. intros id v H. by apply elem_of_nil in H.
    - constructor; [done|done|]. cbn. lia. }
  destruct Hok as (Hc & Hg & Ha). destruct (started_ok (λ _, PhIdle) new_client Hc Hg Ha) as [H1 H2]; [done|done|by right|done|].
  split; [done|]. split; [|exact H2]. apply progress_empty. unfold create, start. by destruct (spawn_fails _).
Qed.
Lemma vsec_run_ok events : 0 <= maxBytes → NoDup (events ≫= asked) →
  let c := run iso_datetime pid_of spawn_fails write_fails maxPending maxBytes events in client_ok c ∧ progress c ∧ requested c = events ≫= asked.
Proof.
  intros Hm. cbv zeta. induction events as [|e events IH] using rev_ind; intros Hn.
  - by apply vsec_create_ok.
  - rewrite bind_app in *. cbn [mbind list_bind] in *. rewrite app_nil_r in *. apply NoDup_app in Hn as (H1 & H2 & H3).
    destruct (IH H1) as (I1 & I2 & I3). unfold run. rewrite foldl_app. cbn [foldl]. fold (run iso_datetime pid_of spawn_fails write_fails maxPending maxBytes events).
    rewrite <- I3. apply vsec_apply_event_ok; [|done|done]. destruct e; try done. cbn [fresh]. rewrite I3. intros Hin. apply (H2 _ Hin). cbn [asked]. by apply list_elem_of_singleton.
Qed.

(** ** Properties *)

(** C20: whatever the child writes, however its lines are cut, and whatever the
    timers, exits and spawn failures do, between any two turns: at most
    [maxPending] requests wait, [pendingBytes] is the sum of their sizes and at
    most [maxBytes]; every request made is settled exactly once or still pending;
    what is in flight is pending, and was written to the current child, which is
    ready and was not killed since; if anything is pending then something is in
    flight or [pump] is under way; [pump] awaits a start only while the current child
    is not ready, and its start timer runs exactly then; every child
    except the current one was killed; and nothing is pending once the client is closed. *)
Theorem vsec_client_safe events : 0 <= maxBytes → NoDup (events ≫= asked) →
  let c := run iso_datetime pid_of spawn_fails write_fails maxPending maxBytes events in
  ((length (vc_pending c) <= maxPending)%nat ∧ vc_pendingBytes c = zsum (map pn_bytes (vc_pending c)) ∧ vc_pendingBytes c <= maxBytes)
  ∧ events ≫= asked ≡ₚ settled c ++ ids c
  ∧ (∀ id, vc_active c = Some id → id ∈ ids c ∧ ∃ g, vc_generation c = Some g ∧ gn_ready g = true ∧ live (gn_child g) id (vc_log c))
  ∧ (vc_pending c ≠ [] → is_Some (vc_active c) ∨ vc_phase c ≠ PhIdle)
  ∧ (vc_phase c = PhStarting → vc_starting c = true)
  ∧ match vc_generation c with Some g => gn_child g = vc_children c ∧ gn_ready g = negb (vc_starting c) | None => vc_starting c = false end
  ∧ (∀ n, (1 <= n <= vc_children c)%nat → (∃ g, vc_generation c = Some g ∧ gn_child g = n) ∨ Killed n ∈ vc_log c)
  ∧ (vc_closed c = true → vc_pending c = []).
Proof.
  intros Hm Hn. destruct (vsec_run_ok events Hm Hn) as ((Hc & Hg & Ha) & Hp & Hr). cbv zeta. rewrite <- Hr. destruct Hc, Hg.
  split; [by split_and!; [|destruct ck_bytes0..]|]. split; [by destruct ck_ledger0|]. split; [intros id Hid; split; [by apply ck_active0|by apply Ha]|]. done.
Qed.

(** What a reply has to say about a request, and what the request resolves with. *)
Definition measured (k : jstr) (l : list (jstr * json)) : Prop := ∃ v n, assoc k l = Some v ∧ nonnegative_of v = Some n.
Inductive checked_result (pid : Z) (payload version : jstr) (timing : list (jstr * json)) (result : json) : VsecOperation → json → Prop :=
  | checked_decision d : securityDecisionSchema result = Some d → sd_policyVersion d = version →
      checked_result pid payload version timing result VoEvaluate (spread (json_of_scan (ScDecision d)) timing)
  | checked_fields r : securitySanitizeResultSchema result = Some r → sr_policyVersion r = version →
      (∀ params fields, parse payload = Some params → field (js "fields") params = Some (JArr fields) → length (sr_fields r) = length fields) →
      checked_result pid payload version timing result VoSanitize (spread (json_of_scan (ScSanitized r)) timing)
  | checked_health h : result = JObj h → assoc (js "protocol") h = Some (JNum (NInt 1)) → assoc (js "pid") h = Some (JNum (NInt pid)) →
      (∀ k, k ∈ [js "uptimeMs"; js "cacheBytes"; js "cacheHits"; js "serviceMs"; js "rssBytes"] → measured k h) →
      checked_result pid payload version timing result VoHealth result.
Definition checked_line (pid : Z) (id : jstr) (op : VsecOperation) (payload line : jstr) (v : json) : Prop :=
  ∃ l timing version result, parse line = Some (JObj l)
  ∧ assoc (js "protocol") l = Some (JNum (NInt 1)) ∧ assoc (js "id") l = Some (JStr id) ∧ assoc (js "ok") l = Some (JBool true)
  ∧ assoc (js "timing") l = Some (JObj timing) ∧ assoc (js "requestId") timing = Some (JStr id) ∧ measured (js "queueMs") timing ∧ measured (js "serviceMs") timing
  ∧ assoc (js "policyVersion") timing = Some (JStr version) ∧ assoc (js "result") l = Some result
  ∧ checked_result pid payload version timing result op v.

Lemma number_is_some n v : number_is n v = true → v = Some (JNum (NInt n)).
Proof. destruct v as [[| |[m| |]| | |]|]; try done. by intros ->%Z.eqb_eq. Qed.
Lemma string_is_some s v : string_is s v = true → v = Some (JStr s).
Proof. destruct v as [[| | |t| |]|]; try done. by intros ->%jeqb_eq. Qed.
Lemma boolean_is_some b v : boolean_is b v = true → v = Some (JBool b).
Proof. destruct v as [[|a| | | |]|]; try done. by intros ->%Bool.eqb_prop. Qed.
Lemma finite_measured k l : finite (assoc k l) = true → measured k l.
Proof. unfold finite, measured. destruct (assoc k l) as [w|]; [|done]. intros [n Hn]%bool_decide_eq_true. by exists w, n. Qed.
Lemma fields_of_some v l : fields_of v = Some l → v = JObj l.
Proof. destruct v; try done. by intros [= ->]. Qed.
Lemma reply_checked pid item line v : reply_value pid item line = Some v → checked_line pid (pn_id item) (pn_op item) (pn_payload item) line v.
Proof.
  unfold reply_value. intros H. apply bind_Some in H as (response & Hparse & H). apply bind_Some in H as (l & ->%fields_of_some & H).
  destruct (_ && _) eqn:E in H; [|done]. apply andb_true_iff in E as [E1%number_is_some E2%string_is_some].
  unfold check_reply in H. apply bind_Some in H as (timing & Ht & H). apply bind_Some in Ht as (w & Ht & ->%fields_of_some).
  destruct (negb _ || _ || _ || _) eqn:E in H; [done|]. apply orb_false_iff in E as [E E6]. apply orb_false_iff in E as [E E5]. apply orb_false_iff in E as [E3 E4].
  apply negb_false_iff in E3, E4, E5, E6. apply boolean_is_some in E3. apply string_is_some in E4. apply finite_measured in E5, E6.
  apply bind_Some in H as (version & Hv & H). apply bind_Some in Hv as (w & Hv & Hw). destruct w as [| | |s| |]; try done. injection Hw as ->.
  destruct (assoc (js "result") l) as [result|] eqn:Er; [|destruct (pn_op item); done]. exists l, timing, version, result. split_and!; try done.
  destruct (pn_op item); cbn [mbind option_bind] in H.
  - apply bind_Some in H as (d & Hd & H). destruct (jeqb _ _) eqn:Ej; [|done]. apply jeqb_eq in Ej. injection H as <-. by apply checked_decision.
  - apply bind_Some in H as (r & Hr & H). destruct (_ && _) eqn:Ej in H; [|done]. apply andb_true_iff in Ej as [Ej%jeqb_eq El%Nat.eqb_eq]. injection H as <-. apply checked_fields; [done|done|].
    intros params fields Hp Hf. rewrite Hp in El. cbn [mbind option_bind] in El. by rewrite Hf in El.
  - apply bind_Some in H as (h & ->%fields_of_some & H). destruct (_ && _) eqn:Ej in H; [|done]. apply andb_true_iff in Ej as [Ej Hall]. apply andb_true_iff in Ej as [Ep%number_is_some Epid%number_is_some].
    injection H as <-. apply (checked_health _ _ _ _ _ h); [done|done|done|]. intros k Hk. apply finite_measured. rewrite forallb_forall in Hall. by apply Hall, list_elem_of_In.
Qed.

(** C18: a request resolves only with what a line says that carries its own id, read
    from the very child the request was written to, after it was
    written and with that child not killed in between; never with the reply to
    another request or of an earlier child.  The line names the protocol and
    says [ok], its timing repeats the id; its result satisfies the schema of the
    operation and repeats the policy version of the timing, and a sanitized text has as
    many fields as were asked for.  The request resolves with the validated result
    under the keys of the timing record, [{ ...result, ...timing }], so that a key of the timing
    replaces one of the result; a health report is passed on as it is, from the child's own pid. *)
Theorem vsec_client_authentic events id v : 0 <= maxBytes → NoDup (events ≫= asked) →
  let log := vc_log (run iso_datetime pid_of spawn_fails write_fails maxPending maxBytes events) in
  Settled id (Resolved v) ∈ log →
  ∃ l1 l2 l3 child item queueMs line,
    log = l1 ++ Sent child id (frame_of item queueMs) :: l2 ++ Received child line :: Settled id (Resolved v) :: l3
    ∧ (Killed child ∉ l2) ∧ pn_id item = id ∧ Requested id (pn_op item) (pn_payload item) ∈ l1
    ∧ checked_line (pid_of child) id (pn_op item) (pn_payload item) line v.
Proof.
  intros Hm Hn log Hin. destruct (vsec_run_ok events Hm Hn) as ((Hc & _) & _). destruct (ck_authentic _ Hc id v Hin) as (l1 & l2 & l3 & child & item & queueMs & line & E & Hk & Hid & Hr & Hv).
  exists l1, l2, l3, child, item, queueMs, line. split_and!; try done. rewrite <- Hid. by apply reply_checked.
Qed.
End Proofs.

Lemma demo_asked : NoDup (demo_events ≫= asked).
Proof. apply (bool_decide_unpack _). vm_compute. exact I. Qed.

Lemma vsec_client_safe_witness :
  let c := demo_client demo_events in demo_events ≫= asked ≡ₚ settled c ++ ids c ∧ (∀ n, (1 <= n <= vc_children c)%nat → (∃ g, vc_generation c = Some g ∧ gn_child g = n) ∨ Killed n ∈ vc_log c).
Proof.
  destruct (vsec_client_safe (λ _, true) demo_pid (λ _, false) (λ _ _, false) 32 MAX_FRAME_BYTES demo_events ltac:(done) demo_asked) as (_ & H1 & _ & _ & _ & _ & H2 & _).
  split; [exact H1|exact H2].
Defined.

Lemma resolves_in id log : existsb (λ e, match e with Settled i (Resolved _) => jeqb i id | _ => false end) log = true → ∃ v, Settled id (Resolved v) ∈ log.
Proof.
  intros (e & Hin & He)%existsb_exists. destruct e as [| | | | |i [v|]]; try done. apply jeqb_eq in He as ->. exists v. by apply list_elem_of_In.
Qed.

(** The timing record is spread last and its other keys are not checked: they replace
    those of the validated result. *)
Example timing_replaces_result :
  let timing := [(js "requestId", JStr (js "r1")); (js "queueMs", JNum (NInt 0)); (js "serviceMs", JNum (NInt 2)); (js "policyVersion", JStr (js "vsec-1")); (js "fields", JNull)] in
  let reply := [(js "protocol", JNum (NInt 1)); (js "id", JStr (js "r1")); (js "ok", JBool true);
    (js "result", json_of_scan (ScSanitized (mkSanitized [js "hello"] 0 CvComplete (js "vsec-1")))); (js "timing", JObj timing)] in
  (check_reply 101 (mkPending (js "r1") VoSanitize (stringify demo_params) 0) reply ≫= field (js "fields")) = Some JNull.
Proof. vm_compute. reflexivity. Qed.

Lemma vsec_client_authentic_witness :
  let log := vc_log (demo_client demo_events) in
  ∃ v child item line, Settled (js "r1") (Resolved v) ∈ log ∧ Received child line ∈ log ∧ checked_line (demo_pid child) (js "r1") (pn_op item) (pn_payload item) line v.
Proof.
  cbv zeta. destruct (resolves_in (js "r1") (vc_log (demo_client demo_events)) ltac:(vm_compute; reflexivity)) as [v Hv].
  destruct (vsec_client_authentic (λ _, true) demo_pid (λ _, false) (λ _ _, false) 32 MAX_FRAME_BYTES demo_events (js "r1") v ltac:(done) demo_asked Hv)
    as (l1 & l2 & l3 & child & item & queueMs & line & E & _ & _ & _ & H). exists v, child, item, line. split; [exact Hv|]. split; [|exact H].
  rewrite E. apply elem_of_app. right. right. apply elem_of_app. right. left.
Defined.
