(* ===== verification/Enhanced.v ===== *)
(** * Candidates with generated notes ([packages/headroomd/src/enhanced-candidate.ts])

    [buildEnhancedCandidate] takes a rule view and the entries a model wrote for one of
    its evidence nodes, and builds the view that shows the entries instead of the
    extractive notes of that node, below a new node whose child it is.  The candidate is
    judged by materializing the operations of the touched messages only; the theorem
    shows that this local judgement is right for the whole history. *)

From stdpp Require Import base tactics list numbers option sets strings sorting.
From S2P Require Import Prelude JsString JsRegex Json CLine OMap Chat Operations Summary Compaction Nodes Tokens Evidence PartialOps Layered.

(** What the candidate reads and writes of the wire result, beside the common fields. *)
Record RuleView := mkView { rv_result : HeadroomCompressResult; rv_budget : option LayeredBudget; rv_nodes : option (list LayeredNode) }.

Definition is_range (op : ViewOperation) : bool := match op with OpRange _ _ _ _ => true | _ => false end.
Definition op_message (op : ViewOperation) : jstr := match op with OpRange _ _ _ _ => [] | OpTool _ mid _ _ _ _ | OpText _ mid _ _ _ _ _ _ => mid end.

Section Enhanced.
Context (sha256Hex : jstr → jstr) (counter : TokenCounter).

Definition entry_line (e : MemoryEntry) : jstr :=
  js "[" ++ kind_text (me_kind e) ++ js "] " ++ me_text e ++ js " (sources: " ++ join (js ", ") (me_sourceIds e) ++ js ")".
Definition notes_text (entries : list MemoryEntry) : jstr := join [LF] (map entry_line entries).

(** The new node: a parent of the source node. *)
Definition summary_node (sourceNode : LayeredNode) (model text : jstr) : LayeredNode :=
  makeNode sha256Hex (mkNode [] (ln_namespace sourceNode) (ln_level sourceNode + 1) [ln_nodeId sourceNode] [] None
    (js "layered-summary-v1:" ++ model) text (tc_count counter text) (ln_sourceTokens sourceNode)).

(** [{ ...operation, nodeId, replacement, operationId }] *)
Definition rewrite_op (nodeId' replacement : jstr) (op : ViewOperation) : ViewOperation :=
  let id := digest_of sha256Hex (canonicalJSON (JArr [JStr (js "summary-operation"); JStr (operationId (op_base op)); JStr nodeId'; JStr replacement])) in
  let base := mkBase id (sourceVersion (op_base op)) nodeId' in
  match op with
  | OpRange _ ids ds r => op
  | OpTool _ mid d p od _ => OpTool base mid d p od replacement
  | OpText _ mid d p s e td _ => OpText base mid d p s e td replacement
  end.
(** The map over the operations; only the first rewritten one shows the text. *)
Fixpoint rewrite_ops (source node text : jstr) (first : bool) (ops : list ViewOperation) : list ViewOperation :=
  match ops with
  | [] => []
  | op :: r =>
    if negb (jeqb (nodeId (op_base op)) source) || is_range op then op :: rewrite_ops source node text first r
    else rewrite_op node (js "[headroom node:" ++ node ++ js "]" ++ (if first then LF :: text else [])) op :: rewrite_ops source node text false r
  end.

(** [local]: the operations that touch one of [ids]. *)
Definition local_op (ids : list jstr) (op : ViewOperation) : bool :=
  match op with OpRange _ mids _ _ => existsb (λ id, bool_decide (id ∈ ids)) mids | _ => bool_decide (op_message op ∈ ids) end.

Definition notable (kind : MemoryKind) : bool := bool_decide (kind = Kfailures) || bool_decide (kind = Kconstraints).
(** The guards before the text is built. *)
Definition entry_allowed (sourceIds : list jstr) (e : MemoryEntry) : bool :=
  negb (bool_decide (me_kind e = Kconstraints)) && negb (is_blank (me_text e)) && negb (bool_decide (me_sourceIds e = []))
  && forallb (λ id, bool_decide (id ∈ sourceIds)) (me_sourceIds e).
Definition node_allowed (n : LayeredNode) : bool :=
  bool_decide (ln_children n = []) && negb (existsb (λ e, notable (ev_kind e)) (default [] (ln_stateEvents n))) && negb (bool_decide (map ls_messageId (ln_sourceRefs n) = [])).

Definition buildEnhancedCandidate (base : RuleView) (sourceNode : LayeredNode) (entries : list MemoryEntry) (sourceMessages : list ChatMessage)
    (model : jstr) : option (RuleView * LayeredNode) :=
  let b := rv_result base in
  history ← hr_historyHash b; ops ← hr_operations b; budget ← rv_budget base;
  if negb (hr_compacted b) || bool_decide (history = []) || bool_decide (ops = []) || bool_decide (hr_sourceSnapshot b = None) || negb (node_allowed sourceNode) then None else
  let sourceIds := map ls_messageId (ln_sourceRefs sourceNode) in
  if bool_decide (entries = []) || negb (forallb (entry_allowed sourceIds) entries) then None else
  let selected := List.filter (λ op, jeqb (nodeId (op_base op)) (ln_nodeId sourceNode)) ops in
  if bool_decide (selected = []) || existsb is_range selected then None else
  let text := notes_text entries in
  if 1024 <? tc_count counter text then None else
  let node := summary_node sourceNode model text in
  let ids := uniq (map op_message selected) in
  let operations := rewrite_ops (ln_nodeId sourceNode) (ln_nodeId node) text true ops in
  let messages := List.filter (λ m, bool_decide (m_id m ∈ ids)) sourceMessages in
  if negb (length messages =? length ids)%nat then None else
  let snapshot := mkSnap (map m_id messages) (map (contentDigest sha256Hex) messages) in
  let local := List.filter (local_op ids) in
  let before := materializeOperations sha256Hex messages (local ops) (Some snapshot) in
  let after := materializeOperations sha256Hex messages (local operations) (Some snapshot) in
  if negb (bool_decide (mz_status before = SApplied)) || negb (bool_decide (mz_status after = SApplied)) then None else
  let delta := view_tokens counter (mz_messages after) - view_tokens counter (mz_messages before) in
  if 0 <=? delta then None else
  let memoryTokens := Z.max 0 (lb_memoryTokens budget + delta) in
  if lb_historyBudgetTokens budget <? memoryTokens then None else
  let memory := List.filter (λ e, negb (forallb (λ id, bool_decide (id ∈ sourceIds)) (me_sourceIds e))) (default [] (hr_memory b)) ++ entries in
  let summary := join [LF] (map me_text memory) in
  Some (mkView
    {| hr_compacted := hr_compacted b; hr_operations := Some operations; hr_sourceSnapshot := hr_sourceSnapshot b; hr_sourceDigests := hr_sourceDigests b;
       hr_epoch := hr_epoch b; hr_memory := Some memory; hr_budgetExceeded := Some (lb_targetTokens budget <? hr_finalTokensEst b + delta);
       hr_historyHash := Some (digest_of sha256Hex (canonicalJSON (JArr [JStr (js "enhanced-history"); JStr history; JStr (ln_nodeId node); JArr (map json_of_operation operations)])));
       hr_summary := Some summary; hr_refs := hr_refs b; hr_replacedMessageIds := hr_replacedMessageIds b; hr_rawTokens := hr_rawTokens b;
       hr_summaryTokens := tc_count counter summary; hr_sourceTokensEst := hr_sourceTokensEst b; hr_evictedTokensEst := hr_evictedTokensEst b;
       hr_retainedTokensEst := hr_retainedTokensEst b; hr_replacementTokensEst := hr_replacementTokensEst b + delta;
       hr_finalTokensEst := hr_finalTokensEst b + delta; hr_freedTokens := hr_freedTokens b - delta |}
    (Some (mkBudget (lb_availableInputTokens budget) (lb_targetTokens budget) (lb_protectedTokens budget) (lb_recentTokens budget) (lb_wrapperTokens budget)
             (lb_historyBudgetTokens budget) memoryTokens (lb_reasons budget)))
    (Some (default [] (rv_nodes base) ++ [node])), node).
End Enhanced.

(** ** Part edits as a map over the messages *)

(** What the edits of [ops] make of a part and of a message. *)
Definition part_view (ops : list ViewOperation) (mid : jstr) (q : nat) (p : Part) : Part :=
  match edit_part p (sort_by edit_cmp (List.filter (hits mid (Z.of_nat q)) ops)) with Ok p' => p' | Throw _ => p end.
Definition message_view (ops : list ViewOperation) (m : ChatMessage) : ChatMessage :=
  mkMsg (m_id m) (m_role m) (imap (part_view ops (m_id m)) (m_parts m)) (m_protected m) (m_archive m).

Lemma edit_parts_at original mp : ∀ parts ps, edit_parts original parts mp = Ok ps → omap_ok mp → length parts = length original →
  length ps = length original ∧ ∀ q, match get q mp with
    | Some edits => ∃ p p', original !! q = Some p ∧ edit_part p edits = Ok p' ∧ ps !! q = Some p'
    | None => ps !! q = parts !! q end.
Proof.
  induction mp as [|[i edits] mp IH]; intros parts ps; cbn [edit_parts]; [by intros [= <-]|].
  destruct (original !! i) as [p|] eqn:Ep; [|done]. intros (p' & Hp' & H)%rbind_ok Hok Hlen. unfold omap_ok in Hok. cbn in Hok. apply NoDup_cons in Hok as [Hi Hok].
  destruct (IH _ _ H Hok) as [I1 I2]; [by rewrite length_insert|]. split; [done|]. intros q. specialize (I2 q). cbn [get fst snd].
  destruct (decide (q = i)) as [->|Hne].
  - rewrite (proj2 (get_None i mp)) in I2 by done. rewrite bool_decide_true by done. exists p, p'. split_and!; [done|done|]. rewrite I2. apply list_lookup_insert_eq. rewrite Hlen. by eapply lookup_lt_Some.
  - rewrite bool_decide_false by done. destruct (get q mp); [exact I2|]. rewrite I2. by apply list_lookup_insert_ne.
Qed.

Lemma edit_messages_at messages parts : ∀ next next', edit_messages messages next parts = Ok next' → omap_ok parts → length next = length messages →
  length next' = length messages ∧ ∀ i, match get i parts with
    | Some mp => ∃ m ps, messages !! i = Some m ∧ edit_parts (m_parts m) (m_parts m) mp = Ok ps ∧ next' !! i = Some (mkMsg (m_id m) (m_role m) ps (m_protected m) (m_archive m))
    | None => next' !! i = next !! i end.
Proof.
  induction parts as [|[j mp] parts IH]; intros next next'; cbn [edit_messages]; [by intros [= <-]|].
  destruct (messages !! j) as [m|] eqn:Em; [|done]. intros (ps & Hps & H)%rbind_ok Hok Hlen. unfold omap_ok in Hok. cbn in Hok. apply NoDup_cons in Hok as [Hj Hok].
  destruct (IH _ _ H Hok) as [I1 I2]; [by rewrite length_insert|]. split; [done|]. intros i. specialize (I2 i). cbn [get fst snd].
  destruct (decide (i = j)) as [->|Hne].
  - rewrite (proj2 (get_None j parts)) in I2 by done. rewrite bool_decide_true by done. exists m, ps. split_and!; [done|done|]. rewrite I2. apply list_lookup_insert_eq. rewrite Hlen. by eapply lookup_lt_Some.
  - rewrite bool_decide_false by done. destruct (get i parts); [exact I2|]. rewrite I2. by apply list_lookup_insert_ne.
Qed.

(** The two levels of the map of edits have no duplicate keys. *)
Definition parts_ok (parts : list (nat * list (nat * list ViewOperation))) : Prop := omap_ok parts ∧ Forall (λ im, omap_ok im.2) parts.
Lemma add_edit_parts_ok i q op parts : parts_ok parts → parts_ok (add_edit i q op parts).
Proof.
  intros [H1 H2]. unfold add_edit. split; [by apply set_ok|]. apply Forall_set; [done|]. cbn [snd]. apply set_ok. destruct (get i parts) as [mp|] eqn:E; [|apply NoDup_nil_2].
  apply get_elem in E. rewrite Forall_forall in H2. exact (H2 _ E).
Qed.
Lemma sort_edits_get i parts : get i (sort_edits parts) = (λ mp : list (nat * list ViewOperation), map (λ pe, (pe.1, sort_by edit_cmp pe.2)) mp) <$> get i parts.
Proof. unfold sort_edits. induction parts as [|[j mp] parts IH]; [done|]. cbn [map get fst snd]. destruct (bool_decide _); [done|exact IH]. Qed.
Lemma sorted_get q (mp : list (nat * list ViewOperation)) : get q (map (λ pe, (pe.1, sort_by edit_cmp pe.2)) mp) = sort_by edit_cmp <$> get q mp.
Proof. induction mp as [|[j es] mp IH]; [done|]. cbn [map get fst snd]. destruct (bool_decide _); [done|exact IH]. Qed.
Lemma sorted_parts_ok parts : parts_ok parts → parts_ok (sort_edits parts).
Proof.
  intros [H1 H2]. unfold parts_ok, omap_ok, sort_edits in *. split.
  - replace ((map _ parts).*1) with (parts.*1); [done|]. clear. induction parts as [|[j mp] parts IH]; [done|]. cbn. by f_equal.
  - apply Forall_forall. intros x Hx. apply list_elem_of_fmap in Hx as ([j mp] & -> & Hin). rewrite Forall_forall in H2. specialize (H2 _ Hin). cbn [snd] in *.
    replace ((map _ mp).*1) with (mp.*1); [done|]. clear. induction mp as [|[q es] mp IH]; [done|]. cbn. by f_equal.
Qed.

Lemma index_messages_all messages : ∀ i byId r, index_messages i messages byId = Ok r →
  (∀ k v, get k byId = Some v → get k r = Some v) ∧ ∀ j m, messages !! j = Some m → get (m_id m) r = Some (i + j)%nat.
Proof.
  induction messages as [|m messages IH]; intros i byId r; cbn [index_messages]; [by intros [= <-]|]. destruct (has (m_id m) byId) eqn:E; [done|]. intros H.
  destruct (IH _ _ _ H) as [I1 I2]. split.
  - intros k v Hk. apply I1. rewrite get_set_ne; [done|]. intros ->. unfold has in E. by rewrite Hk in E.
  - intros [|j] m' Hm; cbn in Hm; [|rewrite (I2 j m' Hm); f_equal; lia]. injection Hm as <-. rewrite (I1 (m_id m) i); [f_equal; lia|]. apply get_set_eq.
Qed.

Section Loop.
Context (sha256Hex : jstr → jstr) (messages : list ChatMessage) (byId : list (jstr * nat)) (digests : list jstr).
Hypothesis Hby : index_messages 0 messages [] = Ok byId.

Lemma by_sound id i : get id byId = Some i → m_id <$> messages !! i = Some id.
Proof. intros Hi. eapply index_messages_ok in Hby as [?|[Hk _]]; [done| |exact Hi]. by rewrite Nat.sub_0_r in Hk. Qed.
Lemma by_complete i m : messages !! i = Some m → get (m_id m) byId = Some i.
Proof. apply (proj2 (index_messages_all _ _ _ _ Hby)). Qed.

Lemma op_step_edit st op st' : op_step sha256Hex messages byId digests st op = Ok st' → partial op →
  ∃ mid i q, op_part op = Some (mid, Z.of_nat q) ∧ get mid byId = Some i
  ∧ st' = mkOS (os_ranges st) (add_edit i q op (os_parts st)) (os_whole st) (os_ids st ++ [operationId (op_base op)]).
Proof.
  unfold op_step. destruct (_ || _) eqn:Eok; [done|]. apply orb_false_iff in Eok as [Eok _]. apply negb_false_iff in Eok. intros Hs Hp.
  destruct op as [b ids ds rep|b mid d p od rep|b mid d p s e td rep]; [by destruct Hp| |]; unfold viewOperation_ok, int_nonneg in Eok; bool_prop;
    (destruct (get mid byId) as [i|] eqn:Eg; [|done]); cbv zeta in Hs; (destruct (match messages !! i with None => _ | Some m => _ end); [done|]); (destruct (messages !! i ≫= _) as [[|]|]; try done); (destruct (_ || _); [done|]);
    injection Hs as <-; exists mid, i, (Z.to_nat p); cbn [op_part]; (split; [by rewrite Z2Nat.id by lia|done]).
Qed.
Lemma op_loop_edits ops : ∀ st st' past, op_loop sha256Hex messages byId digests st ops = Ok st' → Forall partial ops → parts_ok (os_parts st) →
  (∀ i m q, messages !! i = Some m → parts_at (os_parts st) i q = List.filter (hits (m_id m) (Z.of_nat q)) past) →
  os_ranges st' = os_ranges st ∧ parts_ok (os_parts st') ∧ (∀ i m q, messages !! i = Some m → parts_at (os_parts st') i q = List.filter (hits (m_id m) (Z.of_nat q)) (past ++ ops)).
Proof.
  induction ops as [|op ops IH]; intros st st' past; cbn [op_loop]; [intros [= <-]; by rewrite app_nil_r|]. intros (st1 & H1 & H2)%rbind_ok [Hp Hps]%Forall_cons Hok Hat.
  apply op_step_edit in H1 as (mid & i & q & Hop & Hg & ->); [|done]. rewrite cons_middle, app_assoc. apply (IH _ _ (past ++ [op])) in H2; [done|done|by apply add_edit_parts_ok|].
  intros i' m q' Hm. cbn [os_parts]. rewrite parts_at_add, (Hat i' m q' Hm), List.filter_app. f_equal. cbn [List.filter]. unfold hits. rewrite Hop.
  assert (i = i' ∧ q = q' ↔ Some (mid, Z.of_nat q) = Some (m_id m, Z.of_nat q')) as Hiff; [|by rewrite (bool_decide_ext _ _ Hiff)].
  split; [intros [-> ->]|intros [= -> ?]].
  - apply by_sound in Hg. rewrite Hm in Hg. cbn in Hg. by injection Hg as ->.
  - rewrite (by_complete _ _ Hm) in Hg. injection Hg as ->. split; [done|lia].
Qed.
End Loop.

(** A plan of part edits that applies, applies message by message. *)
Lemma edit_messages_view ops messages parts next :
  edit_messages messages messages (sort_edits parts) = Ok next → parts_ok parts →
  (∀ i m q, messages !! i = Some m → parts_at parts i q = List.filter (hits (m_id m) (Z.of_nat q)) ops) → next = map (message_view ops) messages.
Proof.
  intros Hnext Hparts Hhits. apply sorted_parts_ok in Hparts as Hs. destruct Hs as [Hk Hks]. destruct (edit_messages_at _ _ _ _ Hnext Hk) as [Hlen Hat]; [done|].
  apply list_eq. intros i. rewrite map_lookup. specialize (Hat i). destruct (messages !! i) as [m|] eqn:Em; cbn [fmap option_fmap option_map].
  2: { destruct (get i _); [destruct Hat as (? & ? & ? & _); congruence|congruence]. }
  specialize (Hhits i m). unfold parts_at in Hhits. destruct (get i (sort_edits parts)) as [mp|] eqn:Eg.
  - destruct Hat as (m' & ps & Em' & Hps & ->). injection Em' as <-. unfold message_view. do 2 f_equal.
    assert (omap_ok mp) as Hmp by (apply get_elem in Eg; rewrite Forall_forall in Hks; exact (Hks _ Eg)).
    destruct (edit_parts_at _ _ _ _ Hps Hmp) as [Hl Hq]; [done|]. apply list_eq. intros q. rewrite list_lookup_imap. specialize (Hq q). specialize (Hhits q Em).
    rewrite sort_edits_get in Eg. destruct (get i parts) as [mp0|]; [|done]. cbn [fmap option_fmap option_map default from_option id] in *. injection Eg as <-. rewrite sorted_get in Hq.
    destruct (get q mp0) as [es|]; cbn [fmap option_fmap option_map default from_option id] in *.
    + destruct Hq as (p & p' & -> & He & ->). cbn [fmap option_fmap option_map]. unfold part_view. by rewrite <- Hhits, He.
    + rewrite Hq. destruct (m_parts m !! q) as [p|]; [|done]. cbn [fmap option_fmap option_map]. unfold part_view. rewrite <- Hhits. by destruct p.
  - rewrite Hat. destruct m as [id role ps prot arch]. unfold message_view. cbn [m_id m_role m_parts m_protected m_archive] in *. do 2 f_equal.
    rewrite sort_edits_get in Eg. destruct (get i parts) as [mp0|]; [done|]. apply list_eq. intros q. rewrite list_lookup_imap. destruct (ps !! q) as [p|]; [|done].
    cbn [fmap option_fmap option_map]. unfold part_view. rewrite <- (Hhits q Em). by destruct p.
Qed.

Lemma materialize_view sha messages ops snap output :
  materialize sha messages ops (Some snap) = Ok output → Forall partial ops → output = map (message_view ops) messages.
Proof.
  intros E Hp. unfold materialize in E. destruct ops as [|op0 ops0]; [done|]. set (ops := op0 :: ops0) in *.
  apply rbind_ok in E as (byId & Hby & E). destruct (_ || _) in E; [done|].
  apply rbind_ok in E as (digests & Hdig & E). apply rbind_ok in E as (st & Hst & E).
  destruct (negb (forallb _ _)) in E; [done|]. apply rbind_ok in E as (next & Hnext & E). destruct (negb (distinct _)) in E; [done|]. injection E as <-.
  destruct (op_loop_edits _ _ _ _ Hby _ _ _ [] Hst Hp) as (Er & Hparts & Hat); [split; [apply NoDup_nil_2|constructor]|done|]. rewrite Er. cbn [os_ranges sort_by foldl stream_ranges]. rewrite drop_0.
  by eapply edit_messages_view.
Qed.

(** ** Plans that edit the same spans *)

(** An operation without what identifies it and what it writes. *)
Definition blank (op : ViewOperation) : ViewOperation :=
  let b op := mkBase [] (sourceVersion (op_base op)) [] in
  match op with
  | OpRange _ ids ds r => op
  | OpTool _ mid d p od _ => OpTool (b op) mid d p od []
  | OpText _ mid d p s e td _ => OpText (b op) mid d p s e td []
  end.
Definition blank_parts (parts : list (nat * list (nat * list ViewOperation))) := map (λ im, (im.1, map (λ pe, (pe.1, map blank pe.2)) im.2)) parts.

Lemma set_key_map {K A B} `{EqDecision K} (f : A → B) k v (m : list (K * A)) :
  map (λ kv, (kv.1, f kv.2)) (set_key k v m) = set_key k (f v) (map (λ kv, (kv.1, f kv.2)) m).
Proof. induction m as [|[k' v'] m IH]; [done|]. cbn [set_key map fst snd]. destruct (bool_decide _); [done|]. cbn [map fst snd]. by rewrite IH. Qed.
Lemma get_map {K A B} `{EqDecision K} (f : A → B) k (m : list (K * A)) : get k (map (λ kv, (kv.1, f kv.2)) m) = f <$> get k m.
Proof. induction m as [|[k' v'] m IH]; [done|]. cbn [get map fst snd]. destruct (bool_decide _); [done|exact IH]. Qed.

Lemma add_edit_blank i q op parts : blank_parts (add_edit i q op parts) = add_edit i q (blank op) (blank_parts parts).
Proof.
  unfold add_edit, blank_parts. rewrite (set_key_map (map (λ pe : nat * list ViewOperation, (pe.1, map blank pe.2)))), (get_map (map (λ pe : nat * list ViewOperation, (pe.1, map blank pe.2)))).
  rewrite (set_key_map (map blank)), map_app. f_equal. f_equal.
  - destruct (get i parts) as [mp|]; cbn [fmap option_fmap option_map default from_option id map get]; [|done]. rewrite (get_map (map blank)). by destruct (get q mp).
  - by destruct (get i parts).
Qed.

Lemma blank_cmp a b : edit_cmp (blank a) (blank b) = edit_cmp a b.
Proof. by destruct a, b. Qed.
Lemma sort_edits_blank parts : blank_parts (sort_edits parts) = sort_edits (blank_parts parts).
Proof.
  unfold blank_parts, sort_edits. rewrite !map_map. apply map_ext. intros [i mp]. cbn [fst snd]. f_equal. rewrite !map_map. apply map_ext. intros [q es]. cbn [fst snd].
  f_equal. symmetry. apply sort_by_map, blank_cmp.
Qed.
Lemma edits_disjoint_blank l : edits_disjoint (map blank l) = edits_disjoint l.
Proof. induction l as [|a [|b l] IH]; [done|done|]. cbn [map edits_disjoint] in *. destruct a, b; try done. cbn [blank]. by rewrite <- IH. Qed.
Lemma disjoint_blank parts : forallb (λ im, forallb (λ pe, edits_disjoint pe.2) im.2) (blank_parts parts) = forallb (λ im : nat * list (nat * list ViewOperation), forallb (λ pe, edits_disjoint pe.2) im.2) parts.
Proof.
  induction parts as [|[i mp] parts IH]; [done|]. cbn [blank_parts map forallb fst snd]. f_equal; [|exact IH].
  clear. induction mp as [|[q es] mp IH]; [done|]. cbn [map forallb fst snd]. by rewrite edits_disjoint_blank, IH.
Qed.
Lemma has_blank i parts : has i (blank_parts parts) = has i parts.
Proof. unfold has, blank_parts. rewrite (get_map (map (λ pe : nat * list ViewOperation, (pe.1, map blank pe.2)))). by destruct (get i parts). Qed.

Lemma text_chunks_blank text es : ∀ pos, is_Some (text_chunks text pos (map blank es)) ↔ is_Some (text_chunks text pos es).
Proof.
  induction es as [|e es IH]; intros pos; [done|]. destruct e as [| |b mid d p s e td r]; cbn [map blank text_chunks]; try done.
  specialize (IH e). destruct (text_chunks text e (map blank es)), (text_chunks text e es); cbn; try done; naive_solver.
Qed.
Definition settles {A} (r : result FailStatus A) : Prop := ∃ a, r = Ok a.
Lemma edit_part_blank p es : settles (edit_part p (map blank es)) ↔ settles (edit_part p es).
Proof.
  unfold settles. destruct es as [|e es]; [done|]. destruct p as [text|tool c i st].
  - pose proof (text_chunks_blank text (e :: es) 0) as H. cbn [map] in H. destruct e; cbn [map blank edit_part] in *;
      (destruct (text_chunks text 0 (_ :: map blank es)), (text_chunks text 0 (_ :: es)); try naive_solver; exfalso; first [by apply (is_Some_None (A := list jstr)), H|by apply (is_Some_None (A := list jstr)), (proj2 H)]).
  - destruct e; cbn [map blank edit_part]; naive_solver.
Qed.
Ltac no_settle := solve [by intros [? ?] | by split; intros [? ?] | done].
Lemma edit_parts_blank original mp : ∀ parts, settles (edit_parts original parts (map (λ pe, (pe.1, map blank pe.2)) mp)) ↔ settles (edit_parts original parts mp).
Proof.
  induction mp as [|[q es] mp IH]; intros parts; [split; by eexists|]. cbn [map edit_parts fst snd]. destruct (original !! q) as [p|]; [|no_settle].
  pose proof (edit_part_blank p es) as H. unfold settles in H.
  assert (∀ p1 p2, settles (edit_parts original (<[q := p1]> parts) (map (λ pe, (pe.1, map blank pe.2)) mp)) ↔ settles (edit_parts original (<[q := p2]> parts) mp)) as Hany.
  { intros p1 p2. rewrite IH. clear. revert parts. assert (∀ parts parts', settles (edit_parts original parts mp) → settles (edit_parts original parts' mp)) as H.
    { induction mp as [|[j es] mp IH]; intros l l'; [by eexists|]. cbn [edit_parts]. destruct (original !! j) as [p0|]; [|no_settle]. destruct (edit_part p0 es); [|no_settle]. cbn. apply IH. }
    intros parts. split; apply H. }
  destruct (edit_part p (map blank es)) as [p1|], (edit_part p es) as [p2|]; cbn; [apply Hany|destruct (proj1 H); [by eexists|done]|destruct (proj2 H); [by eexists|done]|no_settle].
Qed.
Lemma edit_messages_blank messages parts : ∀ next, settles (edit_messages messages next (blank_parts parts)) ↔ settles (edit_messages messages next parts).
Proof.
  induction parts as [|[i mp] parts IH]; intros next; [split; by eexists|]. cbn [blank_parts map edit_messages fst snd]. destruct (messages !! i) as [m|]; [|no_settle].
  pose proof (edit_parts_blank (m_parts m) mp (m_parts m)) as H. unfold settles in H.
  assert (∀ n1 n2, settles (edit_messages messages n1 parts) → settles (edit_messages messages n2 parts)) as Hn.
  { clear. induction parts as [|[j mp] parts IH]; intros n1 n2; [by eexists|]. cbn [edit_messages]. destruct (messages !! j) as [m|]; [|no_settle]. destruct (edit_parts _ _ mp); [|no_settle]. cbn. apply IH. }
  destruct (edit_parts _ _ (map _ mp)) as [ps1|], (edit_parts _ _ mp) as [ps2|]; cbn; [|destruct (proj1 H); [by eexists|done]|destruct (proj2 H); [by eexists|done]|no_settle].
  fold (blank_parts parts). rewrite IH. split; apply Hn.
Qed.

Section Same.
Context (sha256Hex : jstr → jstr) (messages : list ChatMessage) (byId : list (jstr * nat)) (digests : list jstr).

Definition same_edit (op op' : ViewOperation) : Prop := partial op ∧ blank op' = blank op ∧ viewOperation_ok op' = true.
Record same_state (st st' : OpState) : Prop := {
  sm_ranges : os_ranges st' = os_ranges st; sm_whole : os_whole st' = os_whole st; sm_parts : blank_parts (os_parts st') = blank_parts (os_parts st) }.

Lemma same_add i q w op op' st st' : same_state st st' → blank op' = blank op →
  same_state (mkOS (os_ranges st) (add_edit i q op (os_parts st)) w (os_ids st ++ [operationId (op_base op)]))
             (mkOS (os_ranges st') (add_edit i q op' (os_parts st')) w (os_ids st' ++ [operationId (op_base op')])).
Proof. intros [H1 H2 H3] Hb. constructor; cbn [os_ranges os_whole os_parts]; [done|done|]. by rewrite !add_edit_blank, H3, Hb. Qed.

Lemma op_step_same st st' op op' st1 : op_step sha256Hex messages byId digests st op = Ok st1 → same_edit op op' → same_state st st' →
  operationId (op_base op') ∉ os_ids st' →
  ∃ st1', op_step sha256Hex messages byId digests st' op' = Ok st1' ∧ same_state st1 st1' ∧ os_ids st1' = os_ids st' ++ [operationId (op_base op')].
Proof.
  intros H (Hp & Hb & Hok) Hs Hn. pose proof (sm_whole _ _ Hs) as Hw. unfold op_step in *. rewrite Hok. cbn [negb orb]. rewrite bool_decide_false by done. destruct (_ || _) in H; [done|].
  destruct op as [|b mid d p od rep|b mid d p s e td rep]; [by destruct Hp| |]; destruct op' as [|b' mid' d' p' od' rep'|b' mid' d' p' s' e' td' rep']; try done; cbn [blank op_base] in *;
    pose proof Hb as Heq; injection Heq; intros; subst; (destruct (get mid byId) as [i|]; [|done]); cbv zeta in *; rewrite Hw;
    (destruct (match messages !! i with None => _ | Some m => _ end); [done|]); (destruct (messages !! i ≫= _) as [[|]|]; try done); (destruct (_ || _) in *; [done|]); injection H as <-; (eexists; split; [reflexivity|split; [by apply (same_add i (Z.to_nat p) (os_whole st))|done]]).
Qed.

Lemma op_loop_same ops ops' : Forall2 same_edit ops ops' → ∀ st st' st1, op_loop sha256Hex messages byId digests st ops = Ok st1 → same_state st st' →
  NoDup (os_ids st' ++ map (λ op, operationId (op_base op)) ops') → ∃ st1', op_loop sha256Hex messages byId digests st' ops' = Ok st1' ∧ same_state st1 st1'.
Proof.
  intros Hf. induction Hf as [|op op' ops ops' Ho _ IH]; intros st st' st1; cbn [op_loop]; [intros [= <-] ? _; by eexists|].
  intros (st2 & H1 & H2)%rbind_ok Hs Hn. cbn [map] in Hn. rewrite cons_middle, app_assoc in Hn. apply NoDup_app in Hn as Hn'. destruct Hn' as (Hn1 & _ & _).
  destruct (op_step_same st st' op op' st2 H1 Ho Hs) as (st2' & -> & Hs2 & Hi).
  { apply NoDup_app in Hn1 as (_ & Hn1 & _). intros Hin. apply (Hn1 _ Hin). by apply list_elem_of_singleton. }
  cbn. apply (IH st2 st2'); [done|done|]. by rewrite Hi.
Qed.
End Same.

(** A plan that edits the same spans as one that applies, with ids of its own, applies. *)
Lemma materialize_same sha messages ops ops' snap output :
  materialize sha messages ops (Some snap) = Ok output → Forall2 same_edit ops ops' → NoDup (map (λ op, operationId (op_base op)) ops') →
  materialize sha messages ops' (Some snap) = Ok (map (message_view ops') messages).
Proof.
  intros E Hf Hn. assert (Forall partial ops) as Hp.
  { clear -Hf. induction Hf as [|op op' ops ops' H _ IH]; constructor; [by destruct H|done]. }
  assert (Forall partial ops') as Hp'.
  { clear -Hf. induction Hf as [|op op' ops ops' H _ IH]; constructor; [|done]. destruct H as (H & Hb & _). destruct op, op'; first [discriminate Hb|by eexists|by destruct H]. }
  enough (∃ out, materialize sha messages ops' (Some snap) = Ok out) as [out Ho] by (by rewrite Ho, (materialize_view _ _ _ _ _ Ho Hp')).
  pose proof E as Eview. apply materialize_view in Eview; [|done]. unfold materialize in *. destruct Hf as [|op0 op0' ops0 ops0' H0 Hf]; [done|].
  set (ops := op0 :: ops0) in *. set (ops' := op0' :: ops0') in *. assert (Forall2 same_edit ops ops') as Hall by (by constructor). clearbody ops ops'. clear H0 Hf.
  apply rbind_ok in E as (byId & Hby & E). rewrite Hby. cbn [rbind]. destruct (_ || _) in *; [done|].
  apply rbind_ok in E as (digests & Hdig & E). rewrite Hdig. cbn [rbind]. apply rbind_ok in E as (st & Hst & E).
  destruct (op_loop_same sha messages byId digests ops ops' Hall _ (mkOS [] [] [] []) _ Hst) as (st' & Hst' & [S1 S2 S3]); [done|done|]. rewrite Hst'. cbn [rbind].
  assert (blank_parts (sort_edits (os_parts st')) = blank_parts (sort_edits (os_parts st))) as Hsort by (by rewrite !sort_edits_blank, S3).
  rewrite <- disjoint_blank, Hsort, disjoint_blank. destruct (negb (forallb _ _)) in *; [done|]. apply rbind_ok in E as (next & Hnext & E).
  destruct (proj1 (edit_messages_blank messages (sort_edits (os_parts st')) messages)) as [next' Hnext'].
  { rewrite Hsort. apply edit_messages_blank. by eexists. }
  rewrite Hnext'. cbn [rbind]. destruct (op_loop_edits _ _ _ _ Hby _ _ _ [] Hst Hp) as (Er & _); [split; [apply NoDup_nil_2|constructor]|done|].
  rewrite S1, Er in *. cbn [os_ranges sort_by foldl stream_ranges] in *. rewrite drop_0 in *.
  apply edit_messages_ok in Hnext as [Hids _]; [|done]. apply edit_messages_ok in Hnext' as [Hids' _]; [|done]. rewrite Hids' in *. rewrite Hids in E. destruct (negb (distinct _)) in *; [done|]. by eexists.
Qed.

(** ** Locality *)

Lemma message_view_ext ops ops' m : (∀ q, List.filter (hits (m_id m) q) ops = List.filter (hits (m_id m) q) ops') → message_view ops m = message_view ops' m.
Proof. intros H. unfold message_view. f_equal. apply imap_ext. intros q p _. unfold part_view. by rewrite H. Qed.

Lemma hits_message mid p op : hits mid p op = true → op_message op = mid ∧ is_range op = false.
Proof. unfold hits. intros H%bool_decide_eq_true. destruct op; [done| |]; by injection H as -> ->. Qed.

Lemma local_hits ids mid p ops : mid ∈ ids → List.filter (hits mid p) (List.filter (local_op ids) ops) = List.filter (hits mid p) ops.
Proof.
  intros Hin. induction ops as [|op ops IH]; [done|]. cbn [List.filter]. destruct (hits mid p op) eqn:E.
  - apply hits_message in E as E'. destruct E' as [Em Er]. assert (local_op ids op = true) as -> by (destruct op; [done| |]; cbn [local_op op_message] in *; subst; by apply bool_decide_eq_true).
    cbn [List.filter]. by rewrite E, IH.
  - destruct (local_op ids op); [|done]. cbn [List.filter]. by rewrite E.
Qed.

Section Rewrite.
Context (sha256Hex : jstr → jstr) (source node text : jstr).

Lemma rewrite_op_part r op : op_part (rewrite_op sha256Hex node r op) = op_part op.
Proof. by destruct op. Qed.
Lemma rewrite_ops_hits mid p ops : ∀ first, (∀ op, op ∈ ops → nodeId (op_base op) = source → op_message op ≠ mid) →
  List.filter (hits mid p) (rewrite_ops sha256Hex source node text first ops) = List.filter (hits mid p) ops.
Proof.
  induction ops as [|op ops IH]; intros first H; [done|]. cbn [rewrite_ops]. assert (∀ op', op' ∈ ops → nodeId (op_base op') = source → op_message op' ≠ mid) as Ht by (intros; apply H; [by right|done]).
  destruct (negb _ || is_range op) eqn:E; cbn [List.filter]; [by rewrite IH|]. apply orb_false_iff in E as [E _]. apply negb_false_iff, jeqb_eq in E.
  assert (hits mid p op = false) as Hf by (destruct (hits mid p op) eqn:Eh; [|done]; apply hits_message in Eh as [Eh _]; destruct (H op); [by left|done|done]).
  assert (∀ r, hits mid p (rewrite_op sha256Hex node r op) = hits mid p op) as Hr by (intros r; unfold hits; by rewrite rewrite_op_part). rewrite Hr, Hf. by apply IH.
Qed.
Lemma rewrite_ops_same ops : ∀ first, (∀ s, headroomHash_ok (sha256Hex s) = true) → headroomHash_ok node = true → Forall partial ops → Forall (λ op, viewOperation_ok op = true) ops →
  Forall2 same_edit ops (rewrite_ops sha256Hex source node text first ops).
Proof.
  intros first Hs Hn Hp Hok. revert first. induction Hp as [|op ops Hp _ IH]; intros first; [constructor|]. apply Forall_cons in Hok as [Ho Hok]. cbn [rewrite_ops].
  destruct (negb _ || is_range op); constructor; try by apply IH; [done|..].
  - done.
  - split; [done|]. split; [by destruct op|]. destruct op as [b ids ds rep|b mid d p od rep|b mid d p s e td rep]; [done| |]; unfold viewOperation_ok, rewrite_op in *; cbn [op_base operationId sourceVersion nodeId] in *;
      unfold digest_of, textDigest_of; rewrite Hs, Hn; cbn [andb]; apply andb_true_iff in Ho as [Ho HD]; apply andb_true_iff in Ho as [Ho _]; apply andb_true_iff in Ho as [_ ->]; exact HD.
Qed.
End Rewrite.

Lemma materialize_ops_ok sha messages ops snap output : materialize sha messages ops snap = Ok output → Forall (λ op, viewOperation_ok op = true) ops.
Proof.
  unfold materialize. destruct ops as [|op0 ops0]; [done|]. destruct snap as [snap|]; [|done]. set (ops := op0 :: ops0). intros (byId & Hby & E)%rbind_ok. destruct (_ || _) in E; [done|].
  apply rbind_ok in E as (digests & Hdig & E). apply rbind_ok in E as (st & Hst & _). clearbody ops. revert Hst. generalize (mkOS [] [] [] []).
  induction ops as [|op ops IH]; intros st0; [constructor|]. cbn [op_loop]. intros (st1 & H1 & H2)%rbind_ok. constructor; [|by eapply IH].
  unfold op_step in H1. destruct (negb (viewOperation_ok op)) eqn:Eok; [done|]. by apply negb_false_iff in Eok.
Qed.

Lemma zsum_difference {A} (f g : A → Z) (P : A → bool) l : (∀ x, x ∈ l → P x = false → f x = g x) →
  zsum (map f l) - zsum (map g l) = zsum (map f (List.filter P l)) - zsum (map g (List.filter P l)).
Proof.
  induction l as [|x l IH]; intros H; [done|]. cbn [map List.filter]. rewrite !zsum_cons. assert (∀ y, y ∈ l → P y = false → f y = g y) as Ht by (intros; apply H; [by right|done]).
  specialize (IH Ht). destruct (P x) eqn:E; [cbn [map]; rewrite !zsum_cons; lia|]. rewrite (H x) by (done || by left). lia.
Qed.

(** The messages of [sources] with an id of [ids] are all the messages of the history with such an id. *)
Lemma sources_perm (messages sources : list ChatMessage) (ids : list jstr) :
  NoDup (map m_id messages) → sources ⊆ messages → NoDup (map m_id (List.filter (λ m, bool_decide (m_id m ∈ ids)) sources)) →
  length (List.filter (λ m, bool_decide (m_id m ∈ ids)) sources) = length ids →
  List.filter (λ m, bool_decide (m_id m ∈ ids)) sources ≡ₚ List.filter (λ m, bool_decide (m_id m ∈ ids)) messages.
Proof.
  intros Hn Hsub Hd Hl. set (P := λ m, bool_decide (m_id m ∈ ids)) in *. apply submseteq_length_Permutation.
  - apply NoDup_submseteq; [by apply (NoDup_fmap_1 m_id)|]. intros m Hm. apply list_elem_of_In, filter_In in Hm as [Hm HP]. apply list_elem_of_In, filter_In. split; [|done].
    apply list_elem_of_In, Hsub, list_elem_of_In. done.
  - rewrite Hl. rewrite <- (length_map m_id). apply submseteq_length, NoDup_submseteq.
    + clear -Hn. induction messages as [|m messages IH]; [constructor|]. cbn [map List.filter] in *. apply NoDup_cons in Hn as [Hm Hn]. destruct (P m); [|by apply IH]. cbn [map]. apply NoDup_cons. split; [|by apply IH].
      intros (x & Ex & Hx)%list_elem_of_fmap. apply Hm. rewrite Ex. apply list_elem_of_fmap. exists x. split; [done|]. apply list_elem_of_In in Hx. apply filter_In in Hx as [Hx _]. by apply list_elem_of_In.
    + intros x (m & -> & Hm)%list_elem_of_fmap. apply list_elem_of_In, filter_In in Hm as [_ HP]. by apply bool_decide_eq_true in HP.
Qed.

(** ** Properties *)

Section Main.
Context (sha256Hex : jstr → jstr) (counter : TokenCounter).

(** The inversion of the builder: what a candidate says about its inputs. *)
Record candidate_of (base : RuleView) (source : LayeredNode) (entries : list MemoryEntry) (sources : list ChatMessage) (model : jstr)
    (ops : list ViewOperation) (plan : RuleView) (new : LayeredNode) : Prop := {
  co_new : new = summary_node sha256Hex counter source model (notes_text entries);
  co_ops : hr_operations (rv_result plan) = Some (rewrite_ops sha256Hex (ln_nodeId source) (ln_nodeId new) (notes_text entries) true ops);
  co_entries : entries ≠ [] ∧ Forall (λ e, me_kind e ≠ Kconstraints ∧ me_sourceIds e ⊆ map ls_messageId (ln_sourceRefs source)) entries;
  co_source : ln_children source = [] ∧ Forall (λ e, ev_kind e ≠ Kfailures ∧ ev_kind e ≠ Kconstraints) (default [] (ln_stateEvents source));
  co_budget : ∃ b b', rv_budget base = Some b ∧ rv_budget plan = Some b' ∧ 0 <= lb_memoryTokens b' <= lb_historyBudgetTokens b ∧ lb_targetTokens b' = lb_targetTokens b
    ∧ hr_budgetExceeded (rv_result plan) = Some (lb_targetTokens b <? hr_finalTokensEst (rv_result plan));
  co_delta : let ids := uniq (map op_message (List.filter (λ op, jeqb (nodeId (op_base op)) (ln_nodeId source)) ops)) in
    let local := List.filter (λ m, bool_decide (m_id m ∈ ids)) sources in
    let snap := mkSnap (map m_id local) (map (contentDigest sha256Hex) local) in
    ∃ out out', materialize sha256Hex local (List.filter (local_op ids) ops) (Some snap) = Ok out
    ∧ materialize sha256Hex local (List.filter (local_op ids) (rewrite_ops sha256Hex (ln_nodeId source) (ln_nodeId new) (notes_text entries) true ops)) (Some snap) = Ok out'
    ∧ length local = length ids ∧ view_tokens counter out' < view_tokens counter out
    ∧ hr_finalTokensEst (rv_result plan) - hr_finalTokensEst (rv_result base) = view_tokens counter out' - view_tokens counter out }.

Lemma applied_inv messages ops snap : mz_status (materializeOperations sha256Hex messages ops snap) = SApplied →
  ∃ out, materialize sha256Hex messages ops snap = Ok out ∧ mz_messages (materializeOperations sha256Hex messages ops snap) = out.
Proof. unfold materializeOperations. destruct (materialize _ _ _ _) as [out|f]; [by eexists|]. by destruct f. Qed.

Lemma build_inv base source entries sources model plan new ops : hr_operations (rv_result base) = Some ops →
  buildEnhancedCandidate sha256Hex counter base source entries sources model = Some (plan, new) → candidate_of base source entries sources model ops plan new.
Proof.
  intros Hops. unfold buildEnhancedCandidate. destruct (hr_historyHash (rv_result base)) as [history|]; [|done]. rewrite Hops. cbn [mbind option_bind].
  destruct (rv_budget base) as [b|] eqn:Eb; [|done]. cbn [mbind option_bind]. cbv zeta. destruct (_ || negb (node_allowed source)) eqn:E1; [done|].
  apply orb_false_iff in E1 as [_ E1]. apply negb_false_iff in E1. unfold node_allowed in E1. apply andb_true_iff in E1 as [[E1 E2]%andb_true_iff _]. apply bool_decide_eq_true in E1. apply negb_true_iff in E2.
  destruct (bool_decide (entries = []) || _) eqn:E3; [done|]. apply orb_false_iff in E3 as [E3 E4]. apply bool_decide_eq_false in E3. apply negb_false_iff in E4.
  destruct (bool_decide _ || existsb is_range _); [done|]. destruct (1024 <? _); [done|]. set (new' := summary_node _ _ _ _ _). set (ids := uniq _).
  set (ops' := rewrite_ops _ _ _ _ _ _). set (local := List.filter (λ m, bool_decide (m_id m ∈ ids)) sources). destruct (negb (length local =? length ids)%nat) eqn:E5; [done|]. apply negb_false_iff, Nat.eqb_eq in E5.
  set (snap := mkSnap _ _). destruct (negb _ || negb _) eqn:E6; [done|]. apply orb_false_iff in E6 as [E6 E7]. apply negb_false_iff, bool_decide_eq_true in E6. apply negb_false_iff, bool_decide_eq_true in E7.
  apply applied_inv in E6 as (out & E6 & ->). apply applied_inv in E7 as (out' & E7 & ->). set (delta := view_tokens counter out' - view_tokens counter out).
  destruct (0 <=? delta) eqn:Ed; [done|]. apply Z.leb_gt in Ed. destruct (_ <? Z.max 0 _) eqn:Em; [done|]. apply Z.ltb_ge in Em. intros [= <- <-].
  constructor; cbn [rv_result rv_budget hr_operations hr_finalTokensEst hr_budgetExceeded].
  - done.
  - done.
  - split; [done|]. apply Forall_forall. intros e He. rewrite forallb_forall in E4. rewrite list_elem_of_In in He. specialize (E4 _ He). unfold entry_allowed in E4.
    apply andb_true_iff in E4 as [E4 Hs]. apply andb_true_iff in E4 as [E4 _]. apply andb_true_iff in E4 as [E4 _]. apply negb_true_iff, bool_decide_eq_false in E4. split; [done|].
    intros x Hx. rewrite forallb_forall in Hs. rewrite list_elem_of_In in Hx. specialize (Hs _ Hx). by apply bool_decide_eq_true in Hs.
  - split; [done|]. apply Forall_forall. intros e He. apply not_true_iff_false in E2. rewrite existsb_exists in E2. unfold notable in E2.
    split; intros Hk; apply E2; exists e; (split; [by apply list_elem_of_In|]); rewrite Hk; done.
  - eexists b, _. split_and!; [done|done|cbn; lia..|done|done].
  - exists out, out'. split_and!; [done|done|done|lia|]. lia.
Qed.

(** C10: a candidate is right for the whole history, although only the touched messages
    were materialized to judge it.  Whenever the rule view of part edits applies to
    a history and the operation ids of the candidate are distinct, the candidate applies to
    the same history; the history is then shown in strictly fewer tokens, by exactly the
    difference between the two token estimates, which [budgetExceeded] compares with the
    target; every message that no operation of the source node touches is shown
    as before, and the others keep their id, role, protection and archive.  Its
    notes state no constraint and cite only sources of that node, which is no parent and
    holds no failure or constraint; the new node is its content-addressed parent. *)
Theorem enhanced_candidate_right base source entries sources model plan new messages ops snap out :
  (∀ s, headroomHash_ok (sha256Hex s) = true) →
  hr_operations (rv_result base) = Some ops → Forall partial ops → materializeOperations sha256Hex messages ops (Some snap) = mkMat SApplied out →
  sources ⊆ messages →
  buildEnhancedCandidate sha256Hex counter base source entries sources model = Some (plan, new) →
  NoDup (map (λ op, operationId (op_base op)) (default [] (hr_operations (rv_result plan)))) →
  (∃ out', materializeOperations sha256Hex messages (default [] (hr_operations (rv_result plan))) (Some snap) = mkMat SApplied out'
    ∧ view_tokens counter out' < view_tokens counter out
    ∧ view_tokens counter out' - view_tokens counter out = hr_finalTokensEst (rv_result plan) - hr_finalTokensEst (rv_result base)
    ∧ Forall2 (λ m m', m_id m' = m_id m ∧ m_role m' = m_role m ∧ m_protected m' = m_protected m ∧ m_archive m' = m_archive m
        ∧ ((∀ op, op ∈ ops → nodeId (op_base op) = ln_nodeId source → op_message op ≠ m_id m) → m' = m)) out out')
  ∧ (∃ b b', rv_budget base = Some b ∧ rv_budget plan = Some b' ∧ 0 <= lb_memoryTokens b' <= lb_historyBudgetTokens b ∧ lb_targetTokens b' = lb_targetTokens b
      ∧ hr_budgetExceeded (rv_result plan) = Some (lb_targetTokens b <? hr_finalTokensEst (rv_result plan)))
  ∧ (entries ≠ [] ∧ Forall (λ e, me_kind e ≠ Kconstraints ∧ me_sourceIds e ⊆ map ls_messageId (ln_sourceRefs source)) entries)
  ∧ (ln_children source = [] ∧ Forall (λ e, ev_kind e ≠ Kfailures ∧ ev_kind e ≠ Kconstraints) (default [] (ln_stateEvents source)))
  ∧ ln_children new = [ln_nodeId source] ∧ ln_level new = ln_level source + 1 ∧ nodeContentHash sha256Hex new = ln_nodeId new.
Proof.
  intros Hsha Hops Hp Hmat Hsub Hb Hn. apply (build_inv _ _ _ _ _ _ _ _ Hops) in Hb as [-> Hops' He Hs Hbud Hdel]. rewrite Hops' in *. cbn [default from_option id] in *.
  set (ops' := rewrite_ops _ _ _ _ _ ops) in *. assert (materialize sha256Hex messages ops (Some snap) = Ok out) as Hok.
  { unfold materializeOperations in Hmat. destruct (materialize _ _ _ _) as [o|f]; [by injection Hmat as ->|]. by destruct f. }
  assert (Forall2 same_edit ops ops') as Hsame by (apply rewrite_ops_same; [done|apply Hsha|done|by eapply materialize_ops_ok]).
  pose proof (materialize_same _ _ _ _ _ _ Hok Hsame Hn) as Hok'. pose proof (materialize_view _ _ _ _ _ Hok Hp) as Hout. destruct (materialize_partial _ _ _ _ _ Hok Hp) as [Hnd _].
  split; [|split_and!; try done; by destruct Hs, He]. exists (map (message_view ops') messages). unfold materializeOperations. rewrite Hok'. split; [done|].
  cbv zeta in Hdel. set (ids := uniq _) in *. set (local := List.filter (λ m, bool_decide (m_id m ∈ ids)) sources) in *. destruct Hdel as (lo & lo' & L1 & L2 & L3 & L4 & ->).
  assert (Forall partial ops') as Hp'.
  { clear -Hsame. induction Hsame as [|op op' ops ops' H _ IH]; constructor; [|done]. destruct H as (H & Hb & _). destruct op, op'; first [discriminate Hb|by eexists|by destruct H]. }
  assert (∀ l, Forall partial l → Forall partial (List.filter (local_op ids) l)) as Hpf.
  { intros l Hl. induction Hl as [|op l Ho _ IH]; [constructor|]. cbn [List.filter]. by destruct (local_op ids op); [constructor|]. }
  destruct (materialize_partial _ _ _ _ _ L1 (Hpf _ Hp)) as [Hld _]. apply materialize_view in L1; [|by apply Hpf]. apply materialize_view in L2; [|by apply Hpf].
  assert (∀ m, (∀ op, op ∈ ops → nodeId (op_base op) = ln_nodeId source → op_message op ≠ m_id m) → message_view ops' m = message_view ops m) as Hkeep.
  { intros m Hm. apply message_view_ext. intros q. by apply rewrite_ops_hits. }
  assert (∀ m, bool_decide (m_id m ∈ ids) = false → message_view ops' m = message_view ops m) as Hout_ids.
  { intros m Hm%bool_decide_eq_false. apply Hkeep. intros op Hop Hnode Eid. apply Hm. unfold ids. apply uniq_elem. rewrite <- Eid. apply list_elem_of_fmap. exists op. split; [done|].
    apply list_elem_of_In, filter_In. split; [by apply list_elem_of_In|]. rewrite Hnode. apply jeqb_refl. }
  assert (view_tokens counter (map (message_view ops') messages) - view_tokens counter out = view_tokens counter lo' - view_tokens counter lo) as Hdiff.
  { subst out lo lo'. unfold view_tokens. rewrite !map_map.
    rewrite (zsum_difference _ _ (λ m, bool_decide (m_id m ∈ ids)) messages) by (intros m _ Hm; by rewrite Hout_ids).
    assert (∀ o, zsum (map (λ m, layeredMessageTokens (count counter) (message_view (List.filter (local_op ids) o) m)) local)
      = zsum (map (λ m, layeredMessageTokens (count counter) (message_view o m)) (List.filter (λ m, bool_decide (m_id m ∈ ids)) messages))) as Hloc; [|by rewrite !Hloc].
    intros o. rewrite <- (zsum_Permutation _ _ (Permutation_map _ (sources_perm messages sources ids Hnd Hsub Hld L3))). f_equal. apply map_ext_in. intros m Hm.
    apply filter_In in Hm as [_ Hm%bool_decide_eq_true]. f_equal. apply message_view_ext. intros q. by apply local_hits. }
  split_and!; [lia|done|]. subst out. apply Forall2_fmap, Forall_Forall2_diag, Forall_forall. intros m _. split_and!; [done..|]. intros H. exact (Hkeep m H).
Qed.
End Main.

(** ** An example *)

Definition demo_hash (s : jstr) : jstr := repeat 97 64.
Definition demo_notes : jstr := concat (repeat (js "the build prints a warning; ") 12).
Definition demo_messages : list ChatMessage :=
  [mkMsg (js "u1") RUser [PText (js "why does it fail?")] None None;
   mkMsg (js "a1") RAssistant [PTool (js "bash") None None (mkTS (js "completed") None (Some (js "a long log")))] None None].
Definition demo_source : LayeredNode :=
  mkNode (repeat 98 64) (mkNs (js "p") (js "s")) 0 [] [mkSrc (js "a1") (demo_hash []) (Some 0) None None None None] None (js "layered-v1") demo_notes 80 80.
Definition demo_ops : list ViewOperation :=
  [OpTool (mkBase (repeat 99 64) 1 (repeat 98 64)) (js "a1") (demo_hash []) 0 (demo_hash []) (js "[headroom node:" ++ repeat 98 64 ++ js "]" ++ LF :: demo_notes)].
Definition demo_snap : SourceSnapshot := mkSnap [js "u1"; js "a1"] [demo_hash []; demo_hash []].
Definition demo_base : RuleView :=
  mkView {| hr_compacted := true; hr_operations := Some demo_ops; hr_sourceSnapshot := Some demo_snap; hr_sourceDigests := Some [demo_hash []]; hr_epoch := None;
      hr_memory := Some [mkMem Kdecisions demo_notes [js "a1"]]; hr_budgetExceeded := Some true; hr_historyHash := Some (repeat 100 64); hr_summary := Some demo_notes;
      hr_refs := []; hr_replacedMessageIds := [js "a1"]; hr_rawTokens := 500; hr_summaryTokens := 80; hr_sourceTokensEst := 500; hr_evictedTokensEst := 300;
      hr_retainedTokensEst := 200; hr_replacementTokensEst := 100; hr_finalTokensEst := 300; hr_freedTokens := 200 |}
    (Some (mkBudget 1000 250 50 50 20 200 100 [])) (Some [demo_source]).
Definition demo_entries : list MemoryEntry := [mkMem Kdecisions (js "only warnings") [js "a1"]].
Definition demo_candidate : option (RuleView * LayeredNode) :=
  buildEnhancedCandidate demo_hash estimatedTokenCounter demo_base demo_source demo_entries demo_messages (js "m").

Example candidate_shown :
  ((λ c, map (λ op, match op with OpTool _ _ _ _ _ r => drop 80 r | _ => [] end) (default [] (hr_operations (rv_result c.1)))) <$> demo_candidate)
  = Some [LF :: js "[decisions] only warnings (sources: a1)"].
Proof. vm_compute. reflexivity. Qed.

Lemma enhanced_candidate_right_witness :
  ∃ plan new out', demo_candidate = Some (plan, new)
    ∧ materializeOperations demo_hash demo_messages (default [] (hr_operations (rv_result plan))) (Some demo_snap) = mkMat SApplied out' ∧ hr_finalTokensEst (rv_result plan) < 300.
Proof.
  assert (∃ out, materializeOperations demo_hash demo_messages demo_ops (Some demo_snap) = mkMat SApplied out) as [out Hout] by (eexists; vm_compute; reflexivity).
  destruct demo_candidate as [[plan new]|] eqn:E; [|by vm_compute in E].
  assert (NoDup (map (λ op, operationId (op_base op)) (default [] (hr_operations (rv_result plan))))) as Hn.
  { assert (match demo_candidate with Some c => bool_decide (NoDup (map (λ op, operationId (op_base op)) (default [] (hr_operations (rv_result c.1))))) | None => false end = true) as H by (vm_compute; reflexivity).
    rewrite E in H. by apply bool_decide_eq_true in H. }
  destruct (enhanced_candidate_right demo_hash estimatedTokenCounter demo_base demo_source demo_entries demo_messages (js "m") plan new demo_messages demo_ops demo_snap out)
    as ((out' & H1 & H2 & H3 & _) & _); [intros s; vm_compute; reflexivity|reflexivity|repeat constructor; by eexists|exact Hout|done|exact E|exact Hn|].
  exists plan, new, out'. split; [done|]. split; [exact H1|]. change (hr_finalTokensEst (rv_result demo_base)) with 300 in H3. lia.
Defined.
