(* ===== verification/GuardFilter.v ===== *)
(** * The field filter of the guard ([packages/plugin/src/security.ts], [object], [messages], [after])

    [object] clones a value, collects its strings and keys in one walk, has them
    inspected in bounded batches ([Guard.strings]) and writes the answers back.  A value
    is a JSON tree here: [structuredClone] of a tree without sharing.  The walk of the
    source keeps references to the parents of what it collected; here it marks the tree,
    and the answers are written back along the same order.  The port's answer to
    batch [n] of the [call]-th use of [strings] is [port call n]. *)

From stdpp Require Import base tactics list numbers option sets strings.
From S2P Require Import Prelude JsString JsRegex Json OMap Chat Objects Credentials Security Guard Summary Vsec.

(** ** The walk *)

Inductive Context : Type := CxGeneric | CxMessages | CxMessage | CxInfo | CxParts | CxPart | CxState | CxToolOutput.
#[export] Instance Context_dec : EqDecision Context.
Proof. solve_decision. Defined.

Definition PART_TYPES : list jstr := map js ["text"; "tool"; "reasoning"; "step-start"; "step-finish"; "compaction"].
Definition CONTEXTUAL_RE : regex := Eval vm_compute in
  re_i "^(?:api[_-]?key|api[_-]?token|access[_-]?token|auth[_-]?token|client[_-]?secret|secret[_-]?key|password|passwd|token|secret|aws_secret_access_key)$".
Definition in_texts (k : jstr) (l : list jstr) : bool := bool_decide (k ∈ l).

(** Strings that are protocol, not content. *)
Definition routing (context : Context) (key : jstr) : bool :=
  match context with
  | CxInfo => in_texts key (map js ["id"; "role"; "sessionID"; "parentID"; "modelID"; "providerID"])
  | CxPart => in_texts key (map js ["id"; "type"; "sessionID"; "messageID"; "tool"; "callID"])
  | CxState => jeqb key (js "status")
  | _ => false
  end.
Definition exempt (preserveCursor : bool) (context : Context) (key item : jstr) : bool :=
  jeqb key (js "type") && in_texts item PART_TYPES || routing context key || preserveCursor && jeqb key (js "nextCursor").
(** Parts of a type the filter does not know keep their shape unseen. *)
Definition opaque (context : Context) (item : json) : bool :=
  match context, item with
  | CxPart, JObj l => match assoc (js "type") l with Some (JStr t) => negb (in_texts t PART_TYPES) | _ => false end
  | _, _ => false
  end.
Definition is_array (v : json) : bool := match v with JArr _ => true | _ => false end.
Definition is_string (v : json) : bool := match v with JStr _ => true | _ => false end.
Definition child_context (context : Context) (key : jstr) (child : json) : Context :=
  match context with
  | CxMessages => CxMessage
  | CxParts => CxPart
  | CxToolOutput => if in_texts key (map js ["content"; "attachments"]) && is_array child then CxParts else CxGeneric
  | CxMessage => if jeqb key (js "info") then CxInfo else if jeqb key (js "parts") then CxParts else CxGeneric
  | CxPart => if jeqb key (js "state") then CxState else if is_string child then CxPart else CxGeneric
  | CxInfo | CxState => if is_string child then context else CxGeneric
  | CxGeneric => CxGeneric
  end.
Definition index_text (i : nat) : jstr := jnum_to_string (NInt (Z.of_nat i)).

(** What the walk makes of a position. *)
Inductive Marked : Type :=
| MKeep (v : json)
| MLeaf (key text : jstr)
| MWithheld
| MArr (l : list Marked)
| MObj (l : list (jstr * Marked)).

Section Walk.
Context (preserveCursor : bool).
(** [n] is [leaves.length]. *)
Fixpoint walk (context : Context) (key : jstr) (depth : Z) (item : json) (n : Z) {struct item} : Marked * Z :=
  match item with
  | JStr s => if exempt preserveCursor context key s then (MKeep item, n) else (MLeaf key s, n + 1)
  | JArr l =>
    if (64 <? depth) || (20000 <? n) then (MWithheld, n) else
    let '(ms, n) := (fix go (i : nat) (l : list json) (n : Z) : list Marked * Z :=
       match l with
       | [] => ([], n)
       | x :: r =>
         let '(m, n) := walk (child_context context (index_text i) x) (index_text i) (depth + 1) x n in
         let '(ms, n) := go (S i) r n in (m :: ms, n)
       end) O l n in (MArr ms, n)
  | JObj l =>
    if (64 <? depth) || (20000 <? n) then (MWithheld, n) else
    if opaque context item then (MKeep item, n) else
    let '(ms, n) := (fix go (l : list (jstr * json)) (n : Z) : list (jstr * Marked) * Z :=
       match l with
       | [] => ([], n)
       | (k, x) :: r =>
         let '(m, n) := walk (child_context context k x) k (depth + 1) x n in
         let '(ms, n) := go r n in ((k, m) :: ms, n)
       end) l n in (MObj ms, n)
  | _ => (MKeep item, n)
  end.
End Walk.

(** [leaves] and [keys], in the order of the walk. *)
Fixpoint leaves (m : Marked) : list (jstr * jstr) :=
  match m with
  | MLeaf k s => [(k, s)]
  | MArr l => concat (map leaves l)
  | MObj l => concat (map (λ kv, leaves kv.2) l)
  | MKeep _ | MWithheld => []
  end.
Fixpoint keys (m : Marked) : list jstr :=
  match m with
  | MArr l => concat (map keys l)
  | MObj l => concat (map (λ kv, kv.1 :: keys kv.2) l)
  | MLeaf _ _ | MKeep _ | MWithheld => []
  end.
Fixpoint withheld (m : Marked) : nat :=
  match m with
  | MWithheld => 1
  | MArr l => sum_list (map withheld l)
  | MObj l => sum_list (map (λ kv, withheld kv.2) l)
  | MLeaf _ _ | MKeep _ => 0
  end.

(** ** Writing the answers back *)

Definition contextual (key : jstr) : bool := test CONTEXTUAL_RE key.
Definition leaf_text (kv : jstr * jstr) : jstr := if contextual kv.1 then stringify (JObj [(kv.1, JStr kv.2)]) else kv.2.
Definition LINES_RE : regex := Eval vm_compute in re "[^\r\n]+".
Definition BREAK_RE : regex := Eval vm_compute in re "[\r\n]".
Definition redact_lines (s : jstr) : jstr := replace_all LINES_RE (λ _, js "[REDACTED]") s.
(** What a leaf becomes when [text] came back. *)
Definition settle_leaf (key item text : jstr) : jstr :=
  if contextual key && negb (jeqb text WITHHELD) then
    let text := match parse text ≫= field key with Some (JStr t) => t | _ => WITHHELD end in
    if negb (jeqb text item) && test BREAK_RE item then redact_lines item else text
  else text.

Definition schemaKeys : list jstr := map js
  ["info"; "parts"; "id"; "role"; "sessionID"; "messageID"; "parentID"; "modelID"; "providerID"; "type"; "tool"; "callID"; "state"; "status"; "input"; "output"; "error";
   "metadata"; "text"; "title"; "content"; "system"; "context"; "time"; "start"; "end"; "created"; "completed"; "summary"; "finish"; "tokens"; "cost"; "model"; "bluecode";
   "vsec"; "nextCursor"; "found"; "archive"; "filePath"; "path"; "command"; "args"; "name"; "data"].

Section Rebuild.
Context (filteredKeys : list (jstr * jstr)).
(** One key of an object: unchanged, or its member deleted and defined again. *)
Definition rename (l : list (jstr * json)) (k : jstr) : list (jstr * json) :=
  let key := default [] (get k filteredKeys) in
  if jeqb key k || jeqb key WITHHELD && in_texts k schemaKeys then l
  else match assoc k l with
       | Some value => obj_order (obj_set (List.filter (λ kv, negb (jeqb kv.1 k)) l) key value)
       | None => l
       end.
Fixpoint rebuild (m : Marked) (texts : list jstr) {struct m} : json * list jstr :=
  match m with
  | MKeep v => (v, texts)
  | MWithheld => (JStr WITHHELD, texts)
  | MLeaf k s => (JStr (settle_leaf k s (default [] (head texts))), tail texts)
  | MArr l =>
    let '(vs, texts) := (fix go (l : list Marked) (texts : list jstr) : list json * list jstr :=
       match l with
       | [] => ([], texts)
       | m :: r => let '(v, texts) := rebuild m texts in let '(vs, texts) := go r texts in (v :: vs, texts)
       end) l texts in (JArr vs, texts)
  | MObj l =>
    let '(vs, texts) := (fix go (l : list (jstr * Marked)) (texts : list jstr) : list (jstr * json) * list jstr :=
       match l with
       | [] => ([], texts)
       | (k, m) :: r => let '(v, texts) := rebuild m texts in let '(vs, texts) := go r texts in ((k, v) :: vs, texts)
       end) l texts in (JObj (foldl rename vs (map fst l)), texts)
  end.
End Rebuild.

Section Object.
Context (port : nat → nat → list jstr → option Response).
Definition add_withheld (n : nat) (st : Stats) : Stats :=
  mkStats (gs_scans st) (gs_denied st) (gs_warned st) (gs_unavailable st) (gs_withheld st + n) (gs_redactions st).
(** [object]: the strings first, then the distinct keys. *)
Definition object (enabled : bool) (value : json) (preserveCursor : bool) (context : Context) (call : nat) (st : Stats) : option (json * Stats) :=
  if negb enabled then Some (value, st) else
  let m := (walk preserveCursor context (js "value") 0 value 0).1 in
  '(texts, st) ← strings (port call) true (map leaf_text (leaves m)) (add_withheld (withheld m) st);
  let distinctKeys := uniq (keys m) in
  '(checkedKeys, st) ← strings (port (S call)) true distinctKeys st;
  Some ((rebuild (zip distinctKeys checkedKeys) m texts).1, st).
(** The context of the value itself. *)
Definition root_context (hostMessages toolOutput : bool) : Context := if hostMessages then CxMessages else if toolOutput then CxToolOutput else CxGeneric.
Definition messages (enabled : bool) (values : json) (call : nat) (st : Stats) : option (json * Stats) :=
  object enabled values false CxMessages call st.

(** ** The hook after a tool *)

(** [{ ...v }] *)
Definition spread_of (v : option json) : list (jstr * json) :=
  match v with
  | Some (JObj l) => l
  | Some (JArr l) => imap (λ i x, (index_text i, x)) l
  | Some (JStr s) => imap (λ i c, (index_text i, JStr [c])) s
  | _ => []
  end.
Definition finding_text (d : SecurityDecision) : jstr :=
  take 900 (join (js "; ") (map (λ f, fd_ruleId f ++ js ": " ++ fd_remediation f) (dc_findings d))).
Definition after (enabled : bool) (policy : SecurityPolicy) (sessionID callID : jstr) (output : list (jstr * json)) (call : nat) (g : Guard) :
    option (list (jstr * json) * Guard) :=
  if negb enabled then Some (output, g) else
  '(clean, st) ← object true (JObj output) false CxToolOutput call (gd_stats g);
  let l := default [] (fields_of clean) in
  let isWithheld := includes WITHHELD (stringify clean) in
  let '(g, decision) := take_decision sessionID callID (mkGuard st (gd_pending g)) in
  '(l, st) ← (if bool_decide (decision = None) && negb isWithheld then Some (l, st) else
    '(texts, st) ← strings (port (S (S call))) true (pl_version policy :: map fd_ruleId (default [] (dc_findings <$> decision))) st;
    let vsec := JObj [(js "decision", JStr (decision_name (default Unavailable (dc_decision <$> decision)))); (js "coverage", JStr (coverage_name (default CvUnsupported (dc_coverage <$> decision))));
                      (js "policyVersion", JStr (default [] (head texts))); (js "rules", JArr (map JStr (tail texts))); (js "withheld", JBool isWithheld)] in
    Some (obj_of (l ++ [(js "metadata", JObj (obj_of (spread_of (assoc (js "metadata") l) ++ [(js "vsec", vsec)])))]), st));
  match decision, assoc (js "output") l with
  | Some d, Some (JStr text) =>
    if bool_decide (dc_findings d = []) then Some (l, mkGuard st (gd_pending g)) else
    '(texts, st) ← strings (port (S (S (S call)))) true [finding_text d] st;
    Some (obj_of (l ++ [(js "output", JStr (text ++ [LF] ++ js "[VSecAgent] " ++ default [] (head texts)))]), mkGuard st (gd_pending g))
  | _, _ => Some (l, mkGuard st (gd_pending g))
  end.
End Object.

(** ** An example *)

Definition demo_filter : nat → nat → list jstr → option Response := λ _, demo_port.
Definition demo_value : json :=
  JArr [JObj [(js "info", JObj [(js "id", JStr (js "token: abcdefgh1")); (js "role", JStr (js "user"))]);
    (js "parts", JArr [JObj [(js "type", JStr (js "text")); (js "text", JStr (js "token: abcdefgh1"))]; JObj [(js "type", JStr (js "file")); (js "url", JStr (js "raw"))];
                       JObj [(js "type", JStr (js "tool")); (js "input", JObj [(js "password", JStr (js "hunter2hunter2")); (js "n", JNum (NInt 3))])]])]].
Example messages_ex :
  fst <$> messages demo_filter true demo_value 0 zero_stats =
  Some (JArr [JObj [(js "info", JObj [(js "id", JStr (js "token: abcdefgh1")); (js "role", JStr (js "user"))]);
    (js "parts", JArr [JObj [(js "type", JStr (js "text")); (js "text", JStr (js "token: [REDACTED]"))]; JObj [(js "type", JStr (js "file")); (js "url", JStr (js "raw"))];
                       JObj [(js "type", JStr (js "tool")); (js "input", JObj [(js "password", JStr (js "[REDACTED]")); (js "n", JNum (NInt 3))])]])]]).
Proof. vm_compute. reflexivity. Qed.

(** ** Positions *)

(** The strings and keys of a value. *)
Fixpoint texts_of (v : json) : list jstr :=
  match v with
  | JStr s => [s]
  | JArr l => concat (map texts_of l)
  | JObj l => concat (map (λ kv, kv.1 :: texts_of kv.2) l)
  | _ => []
  end.
(** The positions the walk may reach below [root], with their context and key. *)
Inductive position (root : json) (context : Context) : Context → jstr → json → Prop :=
| pos_root : position root context context (js "value") root
| pos_element c k l i x : position root context c k (JArr l) → l !! i = Some x → position root context (child_context c (index_text i) x) (index_text i) x
| pos_member c k l k' x : position root context c k (JObj l) → opaque c (JObj l) = false → (k', x) ∈ l → position root context (child_context c k' x) k' x.

(** The texts of what the walk left as it is. *)
Fixpoint kept (m : Marked) : list jstr :=
  match m with
  | MKeep v => texts_of v
  | MArr l => concat (map kept l)
  | MObj l => concat (map (λ kv, kept kv.2) l)
  | MLeaf _ _ | MWithheld => []
  end.

(** The two loops of the walk. *)
Definition walk_items (pc : bool) (context : Context) (depth : Z) : nat → list json → Z → list Marked * Z :=
  fix go (i : nat) (l : list json) (n : Z) : list Marked * Z :=
    match l with
    | [] => ([], n)
    | x :: r =>
      let '(m, n) := walk pc (child_context context (index_text i) x) (index_text i) (depth + 1) x n in
      let '(ms, n) := go (S i) r n in (m :: ms, n)
    end.
Definition walk_members (pc : bool) (context : Context) (depth : Z) : list (jstr * json) → Z → list (jstr * Marked) * Z :=
  fix go (l : list (jstr * json)) (n : Z) : list (jstr * Marked) * Z :=
    match l with
    | [] => ([], n)
    | (k, x) :: r =>
      let '(m, n) := walk pc (child_context context k x) k (depth + 1) x n in
      let '(ms, n) := go r n in ((k, m) :: ms, n)
    end.
Lemma walk_arr pc c k d l n : walk pc c k d (JArr l) n = if (64 <? d) || (20000 <? n) then (MWithheld, n) else let '(ms, n) := walk_items pc c d 0 l n in (MArr ms, n).
Proof. reflexivity. Qed.
Lemma walk_obj pc c k d l n : walk pc c k d (JObj l) n = if (64 <? d) || (20000 <? n) then (MWithheld, n) else if opaque c (JObj l) then (MKeep (JObj l), n) else
  let '(ms, n) := walk_members pc c d l n in (MObj ms, n).
Proof. reflexivity. Qed.

Lemma concat_map_in {A B} (f : A → list B) l y : y ∈ concat (map f l) ↔ ∃ x, x ∈ l ∧ y ∈ f x.
Proof.
  rewrite list_elem_of_In, in_concat. split.
  - intros (ys & (x & <- & Hx)%in_map_iff & Hy). exists x. by rewrite !list_elem_of_In.
  - intros (x & Hx & Hy). exists (f x). rewrite <- !list_elem_of_In. split; [|done]. apply list_elem_of_fmap. by exists x.
Qed.

Section Walk.
Context (pc : bool) (root : json) (context : Context).
Abbreviation at_position := (position root context).

Definition kept_ok (t : jstr) : Prop :=
  (∃ c k, at_position c k (JStr t) ∧ exempt pc c k t = true) ∨ (∃ c k l, at_position c k (JObj l) ∧ opaque c (JObj l) = true ∧ t ∈ texts_of (JObj l)).
Definition leaf_ok (ks : jstr * jstr) : Prop := ∃ c, at_position c ks.1 (JStr ks.2) ∧ exempt pc c ks.1 ks.2 = false.
Definition key_ok (k' : jstr) : Prop := ∃ c k l, at_position c k (JObj l) ∧ opaque c (JObj l) = false ∧ k' ∈ l.*1.
(** What the walk collects is where it says. *)
Record marked_ok (m : Marked) : Prop := {
  mo_kept : ∀ t, t ∈ kept m → kept_ok t; mo_leaves : ∀ ks, ks ∈ leaves m → leaf_ok ks; mo_keys : ∀ k, k ∈ keys m → key_ok k }.

Lemma marked_plain m : kept m = [] → leaves m = [] → keys m = [] → marked_ok m.
Proof. intros E1 E2 E3. constructor; rewrite ?E1, ?E2, ?E3; intros x Hx; by apply elem_of_nil in Hx. Qed.

Lemma walk_ok v : ∀ c k d n, at_position c k v → marked_ok (walk pc c k d v n).1.
Proof.
  induction v as [|b|x|s|l IH|l IH] using json_ind'; intros c k d n Hp; try by apply marked_plain.
  - cbn [walk]. destruct (exempt pc c k s) eqn:E; cbn [fst].
    + constructor; [|intros ? H; by apply elem_of_nil in H..]. intros t ->%list_elem_of_singleton. left. by exists c, k.
    + constructor; [intros ? H; by apply elem_of_nil in H| |intros ? H; by apply elem_of_nil in H]. intros ks ->%list_elem_of_singleton. by exists c.
  - rewrite walk_arr. destruct (_ || _); [by apply marked_plain|].
    assert (∀ i r n, Forall (λ v, ∀ c k d n, at_position c k v → marked_ok (walk pc c k d v n).1) r → (∀ j x, r !! j = Some x → l !! (i + j)%nat = Some x) →
      Forall marked_ok (walk_items pc c d i r n).1) as H.
    { clear IH n. intros i r n Hr. revert i n. induction Hr as [|x r Hx _ IHr]; intros i n Hj; [constructor|]. cbn [walk_items].
      pose proof (Hx (child_context c (index_text i) x) (index_text i) (d + 1) n) as H. destruct (walk pc _ _ _ x n) as [m n1].
      specialize (IHr (S i) n1). fold (walk_items pc c d) in *. destruct (walk_items pc c d (S i) r n1) as [ms n2]. cbn [fst] in *. constructor.
      - apply H. eapply pos_element; [exact Hp|]. rewrite <- (Nat.add_0_r i). by apply Hj.
      - apply IHr. intros j y Hy. replace (S i + j)%nat with (i + S j)%nat by lia. by apply Hj. }
    specialize (H O l n IH ltac:(done)). destruct (walk_items pc c d 0 l n) as [ms n2]. cbn [fst] in *. rewrite Forall_forall in H.
    constructor; cbn [kept leaves keys]; intros y (m & Hm & Hy)%concat_map_in; by apply (H m Hm).
  - rewrite walk_obj. destruct (_ || _); [by apply marked_plain|]. destruct (opaque c (JObj l)) eqn:Eo.
    { constructor; [|intros ? H; by apply elem_of_nil in H..]. intros t Ht. right. by exists c, k, l. }
    assert (∀ r n, Forall (λ kv, ∀ c k d n, at_position c k kv.2 → marked_ok (walk pc c k d kv.2 n).1) r → r ⊆ l →
      Forall (λ km, km.1 ∈ l.*1 ∧ marked_ok km.2) (walk_members pc c d r n).1) as H.
    { clear IH n. intros r n Hr. revert n. induction Hr as [|[k' x] r Hx _ IHr]; intros n Hj; [constructor|]. cbn [walk_members]. cbn [snd] in Hx.
      pose proof (Hx (child_context c k' x) k' (d + 1) n) as H. destruct (walk pc _ _ _ x n) as [m n1].
      specialize (IHr n1). fold (walk_members pc c d) in *. destruct (walk_members pc c d r n1) as [ms n2]. cbn [fst] in *. assert ((k', x) ∈ l) as Hin by (apply Hj; left). constructor.
      - split; [apply list_elem_of_fmap; by exists (k', x)|]. cbn [snd]. apply H. by eapply pos_member.
      - apply IHr. intros y Hy. apply Hj. by right. }
    specialize (H l n IH ltac:(done)). destruct (walk_members pc c d l n) as [ms n2]. cbn [fst] in *. rewrite Forall_forall in H.
    constructor; cbn [kept leaves keys]; intros y (m & Hm & Hy)%concat_map_in; destruct (H m Hm) as [Hk []]; [by auto..|].
    apply elem_of_cons in Hy as [->|Hy]; [by exists c, k, l|by auto].
Qed.
End Walk.

(** ** Writing back *)

Lemma obj_order_in x l : x ∈ obj_order l → x ∈ l.
Proof.
  unfold obj_order. rewrite elem_of_app. intros [(nkv & -> & H)%list_elem_of_fmap|H]; [|apply list_elem_of_In, filter_In in H as [H _]; by apply list_elem_of_In].
  revert nkv H. induction l as [|kv l IH]; intros nkv; cbn [foldr]; [by intros ?%elem_of_nil|].
  destruct (index_key kv.1) as [n|]; [|intros H; right; by apply IH].
  assert (∀ l', nkv ∈ insert_index n kv l' → nkv = (n, kv) ∨ nkv ∈ l') as Hins.
  { clear. induction l' as [|[m kv'] l' IH]; cbn [insert_index]; [rewrite list_elem_of_singleton; auto|]. destruct (n <? m); rewrite !elem_of_cons; naive_solver. }
  intros [->|H]%Hins; [left|right; by apply IH].
Qed.
Lemma obj_set_in x l k v : x ∈ obj_set l k v → x.1 = k ∧ x.2 = v ∨ x ∈ l.
Proof.
  induction l as [|[k' v'] l IH]; cbn [obj_set]; [intros ->%list_elem_of_singleton; by left|]. destruct (jeqb k' k) eqn:E; rewrite !elem_of_cons.
  - apply jeqb_eq in E as ->. naive_solver.
  - naive_solver.
Qed.
Lemma assoc_in k v l : assoc k l = Some v → (k, v) ∈ l.
Proof. induction l as [|[k' v'] l IH]; [done|]. cbn [assoc]. destruct (jeqb k' k) eqn:E; [apply jeqb_eq in E as ->; intros [= ->]; left|intros H; right; by apply IH]. Qed.

Section Rebuild.
Context (fk : list (jstr * jstr)).
(** A key that may stand in the result. *)
Definition renamed (ks : list jstr) (t : jstr) : Prop := ∃ k, k ∈ ks ∧ (t = default [] (get k fk) ∨ t = k ∧ default [] (get k fk) = WITHHELD ∧ k ∈ schemaKeys).

Lemma rename_in l k x : x ∈ rename fk l k → (x.1 = k → renamed [k] x.1) ∧ (renamed [k] x.1 ∧ (∃ kv, kv ∈ l ∧ kv.2 = x.2) ∨ x ∈ l).
Proof.
  unfold rename. cbv zeta. set (key := default [] (get k fk)). destruct (jeqb key k || _) eqn:E.
  - intros Hx. split; [|by right]. intros ->. exists k. split; [by apply list_elem_of_singleton|]. apply orb_true_iff in E as [E|[E1 E2]%andb_true_iff]; [left; by apply jeqb_eq in E|right].
    apply jeqb_eq in E1. split; [done|]. split; [done|]. by apply bool_decide_eq_true in E2.
  - apply orb_false_iff in E as [E _]. destruct (assoc k l) as [value|] eqn:Ea.
    + intros Hx%obj_order_in. apply obj_set_in in Hx as [[Hx Hv]|Hx].
      * assert (renamed [k] x.1) as Hr by (exists k; split; [by apply list_elem_of_singleton|by left]). split; [done|]. left. split; [done|]. apply assoc_in in Ea. exists (k, value). by rewrite Hv.
      * apply list_elem_of_In, filter_In in Hx as [Hx Hk]. split; [|right; by apply list_elem_of_In]. intros Ek. cbn beta in Hk. by rewrite Ek, jeqb_refl in Hk.
    + intros Hx. split; [|by right]. intros <-. exfalso. clear -Hx Ea. induction l as [|[k' v'] l IH]; [by apply elem_of_nil in Hx|]. cbn [assoc] in Ea. destruct (jeqb k' x.1) eqn:E; [done|].
      apply elem_of_cons in Hx as [->|Hx]; [by rewrite jeqb_refl in E|by apply IH].
Qed.
(** After all renames every key is an image or allowed, and no value is new. *)
Lemma renames_in ks : ∀ past l x, (∀ y, y ∈ l → renamed past y.1 ∨ y.1 ∈ ks) → x ∈ foldl (rename fk) l ks →
  renamed (past ++ ks) x.1 ∧ ∃ kv, kv ∈ l ∧ kv.2 = x.2.
Proof.
  induction ks as [|k ks IH]; intros past l x Hl Hx; cbn [foldl] in Hx.
  - rewrite app_nil_r. destruct (Hl x Hx) as [?|H]; [|by apply elem_of_nil in H]. split; [done|by exists x].
  - assert (∀ t, renamed past t ∨ renamed [k] t → renamed (past ++ [k]) t) as Hmore.
    { intros t [(k' & H & H')|(k' & H & H')]; exists k'; (split; [apply elem_of_app; auto|done]). }
    apply (IH (past ++ [k])) in Hx as [Hx (kv & Hkv & E)].
    + rewrite <- app_assoc in Hx. split; [done|]. apply rename_in in Hkv as [_ [[_ (y & Hy & Ey)]|Hkv]]; [exists y; split; [done|congruence]|by exists kv].
    + intros y Hy. apply rename_in in Hy as [H1 [[H2 _]|H2]]; [left; by apply Hmore; right|]. destruct (Hl y H2) as [H|[E|H]%elem_of_cons]; [left; apply Hmore; by left| |by right].
      left. apply Hmore. right. by apply H1.
Qed.

Definition rebuild_items : list Marked → list jstr → list json * list jstr :=
  fix go (l : list Marked) (texts : list jstr) : list json * list jstr :=
    match l with
    | [] => ([], texts)
    | m :: r => let '(v, texts) := rebuild fk m texts in let '(vs, texts) := go r texts in (v :: vs, texts)
    end.
Definition rebuild_members : list (jstr * Marked) → list jstr → list (jstr * json) * list jstr :=
  fix go (l : list (jstr * Marked)) (texts : list jstr) : list (jstr * json) * list jstr :=
    match l with
    | [] => ([], texts)
    | (k, m) :: r => let '(v, texts) := rebuild fk m texts in let '(vs, texts) := go r texts in ((k, v) :: vs, texts)
    end.
Lemma rebuild_arr_eq l texts : rebuild fk (MArr l) texts = let '(vs, texts) := rebuild_items l texts in (JArr vs, texts).
Proof. reflexivity. Qed.
Lemma rebuild_obj_eq l texts : rebuild fk (MObj l) texts = let '(vs, texts) := rebuild_members l texts in (JObj (foldl (rename fk) vs (map fst l)), texts).
Proof. reflexivity. Qed.

Section Texts.
Context (image : jstr * jstr → jstr → Prop).
(** What may stand in a rebuilt value. *)
Definition rebuilt (m : Marked) (t : jstr) : Prop :=
  t = WITHHELD ∨ t ∈ kept m ∨ (∃ ks u, ks ∈ leaves m ∧ image ks u ∧ t = settle_leaf ks.1 ks.2 u) ∨ renamed (keys m) t.
Lemma rebuilt_more m m' t : kept m ⊆ kept m' → leaves m ⊆ leaves m' → keys m ⊆ keys m' → rebuilt m t → rebuilt m' t.
Proof.
  intros H1 H2 H3 [->|[H|[(ks & u & H & Hi & ->)|(k & H & Hk)]]]; [by left|right; left; by apply H1|do 2 right; left; exists ks, u; by auto|do 3 right; exists k; auto].
Qed.

Lemma rebuild_in : ∀ m ts rest, Forall2 image (leaves m) ts → (rebuild fk m (ts ++ rest)).2 = rest ∧ ∀ t, t ∈ texts_of (rebuild fk m (ts ++ rest)).1 → rebuilt m t.
Proof.
  fix IH 1. intros [v|k s| |l|l] ts rest Hf; cbn [leaves] in Hf.
  - inversion Hf; subst. split; [done|]. intros t Ht. right. by left.
  - inversion Hf as [|? u ? ? Hu Hn]; subst. inversion Hn; subst. split; [done|]. cbn. intros t ->%list_elem_of_singleton. do 2 right. left. exists (k, s), u. split_and!; [by apply list_elem_of_singleton|done|done].
  - inversion Hf; subst. split; [done|]. cbn. intros t ->%list_elem_of_singleton. by left.
  - rewrite rebuild_arr_eq. assert (∀ ts rest, Forall2 image (concat (map leaves l)) ts → (rebuild_items l (ts ++ rest)).2 = rest ∧
      ∀ v, v ∈ (rebuild_items l (ts ++ rest)).1 → ∃ m, m ∈ l ∧ ∀ t, t ∈ texts_of v → rebuilt m t) as H.
    { clear ts rest Hf. induction l as [|m l IHl]; intros ts rest Hf; cbn [map concat rebuild_items] in *.
      - inversion Hf; subst. split; [done|]. by intros v ?%elem_of_nil.
      - apply Forall2_app_inv_l in Hf as (t1 & t2 & H1 & H2 & ->). destruct (IH m t1 (t2 ++ rest) H1) as [I1 I2]. rewrite <- app_assoc. destruct (rebuild fk m _) as [v r]. cbn [fst snd] in *. subst r.
        fold rebuild_items. destruct (IHl t2 rest H2) as [I3 I4]. destruct (rebuild_items l _) as [vs r]. cbn [fst snd] in *. split; [done|]. intros w [->|Hw]%elem_of_cons; [exists m; split; [left|done]|].
        destruct (I4 w Hw) as (m' & Hm' & H). exists m'. split; [by right|done]. }
    destruct (H ts rest Hf) as [H1 H2]. destruct (rebuild_items l _) as [vs r]. cbn [fst snd] in *. split; [done|]. cbn [texts_of]. intros t (v & Hv & Ht)%concat_map_in. destruct (H2 v Hv) as (m & Hm & Hr).
    apply (rebuilt_more m); [intros y Hy; apply concat_map_in; by exists m..|]. by apply Hr.
  - rewrite rebuild_obj_eq. assert (∀ ts rest, Forall2 image (concat (map (λ kv, leaves kv.2) l)) ts → (rebuild_members l (ts ++ rest)).2 = rest ∧ map fst (rebuild_members l (ts ++ rest)).1 = map fst l ∧
      ∀ kv, kv ∈ (rebuild_members l (ts ++ rest)).1 → ∃ km, km ∈ l ∧ ∀ t, t ∈ texts_of kv.2 → rebuilt km.2 t) as H.
    { clear ts rest Hf. induction l as [|[k m] l IHl]; intros ts rest Hf; cbn [map concat rebuild_members fst snd] in *.
      - inversion Hf; subst. split; [done|]. split; [done|]. by intros v ?%elem_of_nil.
      - apply Forall2_app_inv_l in Hf as (t1 & t2 & H1 & H2 & ->). destruct (IH m t1 (t2 ++ rest) H1) as [I1 I2]. rewrite <- app_assoc. destruct (rebuild fk m _) as [v r]. cbn [fst snd] in *. subst r.
        fold rebuild_members. destruct (IHl t2 rest H2) as (I3 & I4 & I5). destruct (rebuild_members l _) as [vs r]. cbn [fst snd map] in *. split; [done|]. split; [by rewrite I4|]. intros w [->|Hw]%elem_of_cons; [exists (k, m); split; [left|done]|].
        destruct (I5 w Hw) as (m' & Hm' & H). exists m'. split; [by right|done]. }
    destruct (H ts rest Hf) as (H1 & H2 & H3). destruct (rebuild_members l _) as [vs r]. cbn [fst snd] in *. split; [done|]. cbn [texts_of]. intros t (kv & Hkv & Ht)%concat_map_in.
    assert (∀ k, k ∈ map fst l → k ∈ keys (MObj l)) as Hkeys.
    { intros k (km & -> & Hm)%list_elem_of_fmap. apply concat_map_in. exists km. split; [done|]. left. }
    apply (renames_in _ []) in Hkv as [Hk (kv' & Hkv' & E)].
    + apply elem_of_cons in Ht as [->|Ht].
      * do 3 right. destruct Hk as (k & Hk & Hk'). exists k. split; [by apply Hkeys|done].
      * rewrite <- E in Ht. destruct (H3 kv' Hkv') as (km & Hm & Hr). apply (rebuilt_more km.2); [intros y Hy; apply concat_map_in; exists km; split; [done|]; first [done|by right]..|]. by apply Hr.
    + intros y Hy. right. rewrite <- H2. by apply list_elem_of_fmap_2.
Qed.
End Texts.
End Rebuild.

(** ** Properties *)

(** [v] stands in [root] under the keys and indices of [path]. *)
Inductive at_path (root : json) : list jstr → json → Prop :=
  | at_root : at_path root [] root
  | at_element path l i x : at_path root path (JArr l) → l !! i = Some x → at_path root (path ++ [index_text i]) x
  | at_member path l k x : at_path root path (JObj l) → (k, x) ∈ l → at_path root (path ++ [k]) x.
Definition key_at (path : list jstr) : jstr := default (js "value") (last path).
(** Where the parts are: of a message, or in the output of a tool. *)
Inductive parts_at : Context → list jstr → Prop :=
  | parts_of_message i : parts_at CxMessages [i; js "parts"]
  | parts_of_content : parts_at CxToolOutput [js "content"]
  | parts_of_attachments : parts_at CxToolOutput [js "attachments"].
Definition known_type (t : jstr) : Prop :=
  t = js "text" ∨ t = js "tool" ∨ t = js "reasoning" ∨ t = js "step-start" ∨ t = js "step-finish" ∨ t = js "compaction".
Definition part_key (k : jstr) : Prop := k = js "id" ∨ k = js "type" ∨ k = js "sessionID" ∨ k = js "messageID" ∨ k = js "tool" ∨ k = js "callID".
Definition info_key (k : jstr) : Prop := k = js "id" ∨ k = js "role" ∨ k = js "sessionID" ∨ k = js "parentID" ∨ k = js "modelID" ∨ k = js "providerID".
(** The strings that are protocol: the known types under [type]; the cursor, where it is
    kept; the ids of a message and of a part, and the status of a part's state. *)
Inductive protocol (context : Context) (preserveCursor : bool) : list jstr → jstr → Prop :=
  | protocol_type path t : known_type t → protocol context preserveCursor (path ++ [js "type"]) t
  | protocol_cursor path t : preserveCursor = true → protocol context preserveCursor (path ++ [js "nextCursor"]) t
  | protocol_info i k t : context = CxMessages → info_key k → protocol context preserveCursor [i; js "info"; k] t
  | protocol_part parts j k t : parts_at context parts → part_key k → protocol context preserveCursor (parts ++ [j; k]) t
  | protocol_status parts j t : parts_at context parts → protocol context preserveCursor (parts ++ [j; js "state"; js "status"]) t
  | protocol_parts parts k t : (* parts that are not an array *) parts_at context parts → part_key k → protocol context preserveCursor (parts ++ [k]) t.

(** Where each context of the walk is. *)
Definition context_at (context : Context) (path : list jstr) (v : json) (c : Context) : Prop :=
  match c with
  | CxGeneric => True
  | CxMessages | CxToolOutput => path = [] ∧ context = c
  | CxMessage => context = CxMessages ∧ ∃ i, path = [i]
  | CxInfo => context = CxMessages ∧ ∃ i, path = [i; js "info"] ∨ is_string v = true ∧ ∃ k, path = [i; js "info"; k]
  | CxParts => parts_at context path
  | CxPart => ∃ parts j, parts_at context parts ∧ (path = parts ++ [j] ∨ is_string v = true ∧ ∃ k, path = parts ++ [j; k])
  | CxState => ∃ parts j, parts_at context parts ∧ (path = parts ++ [j; js "state"] ∨ is_string v = true ∧ ∃ k, path = parts ++ [j; js "state"; k])
  end.
Lemma child_at context path v c k x : is_string v = false → context_at context path v c → context_at context (path ++ [k]) x (child_context c k x).
Proof.
  intros Hv H. destruct c; cbn [context_at child_context] in *; rewrite ?Hv in H.
  - done.
  - destruct H as [-> ->]. split; [done|]. by exists k.
  - destruct H as [-> [i ->]]. destruct (jeqb k (js "info")) eqn:E1; [apply jeqb_eq in E1 as ->; split; [done|]; exists i; by left|].
    destruct (jeqb k (js "parts")) eqn:E2; [apply jeqb_eq in E2 as ->; apply parts_of_message|done].
  - destruct H as [-> [i [->|[? _]]]]; [|done]. destruct (is_string x) eqn:E; [|done]. split; [done|]. exists i. right. split; [done|]. by exists k.
  - exists path, k. split; [done|by left].
  - destruct H as (parts & j & Hp & [->|[? _]]); [|done]. destruct (jeqb k (js "state")) eqn:E1; [apply jeqb_eq in E1 as ->; exists parts, j; split; [done|left; by rewrite <- app_assoc]|].
    destruct (is_string x) eqn:E; [|done]. exists parts, j. split; [done|]. right. split; [done|]. exists k. by rewrite <- app_assoc.
  - destruct H as (parts & j & Hp & [->|[? _]]); [|done]. destruct (is_string x) eqn:E; [|done]. exists parts, j. split; [done|]. right. split; [done|]. exists k. by rewrite <- app_assoc.
  - destruct H as [-> ->]. destruct (in_texts k _ && is_array x) eqn:E; [|done]. apply andb_true_iff in E as [E _]. apply bool_decide_eq_true in E. cbn [map] in E.
    apply elem_of_cons in E as [->|E%list_elem_of_singleton]; [apply parts_of_content|subst; apply parts_of_attachments].
Qed.
Lemma key_at_snoc path k : key_at (path ++ [k]) = k.
Proof. unfold key_at. by rewrite last_snoc. Qed.
Lemma position_path root hostMessages toolOutput c k v : let context := root_context hostMessages toolOutput in
  position root context c k v → ∃ path, at_path root path v ∧ k = key_at path ∧ context_at context path v c.
Proof.
  intros context. induction 1 as [|c k l i x _ (path & Hp & _ & Hc) Hx|c k l k' x _ (path & Hp & _ & Hc) _ Hx].
  - exists []. split_and!; [constructor|done|]. subst context. destruct hostMessages; [by split|]. by destruct toolOutput.
  - exists (path ++ [index_text i]). split_and!; [by eapply at_element|by rewrite key_at_snoc|by eapply child_at; [|exact Hc]].
  - exists (path ++ [k']). split_and!; [by eapply at_member|by rewrite key_at_snoc|by eapply child_at; [|exact Hc]].
Qed.
Lemma texts_in (k : jstr) (l : list string) : in_texts k (map js l) = true → ∃ s, s ∈ l ∧ k = js s.
Proof. intros H%bool_decide_eq_true. apply list_elem_of_fmap in H as (s & -> & Hs). by exists s. Qed.
Ltac one_text H := apply texts_in in H as (s & H & ->); repeat (apply elem_of_cons in H as [->|H]); [..|by apply elem_of_nil in H].
Lemma exempt_protocol root context preserveCursor path c t : at_path root path (JStr t) → context_at context path (JStr t) c →
  exempt preserveCursor c (key_at path) t = true → protocol context preserveCursor path t.
Proof.
  intros Hp Hc He. destruct path as [|x pre _] using rev_ind.
  { unfold exempt, key_at in He. cbn [last default from_option id] in He. destruct c; cbn in He; try (destruct preserveCursor; discriminate He).
    all: destruct Hc as (parts & j & Hparts & [E|[_ [k E]]]); destruct parts; discriminate. }
  rewrite key_at_snoc in He. unfold exempt in He. apply orb_true_iff in He as [He|He]; [apply orb_true_iff in He as [He|He]|].
  - apply andb_true_iff in He as [->%jeqb_eq Ht]. apply protocol_type. unfold known_type. one_text Ht; auto 10.
  - destruct c; cbn [routing] in He; try discriminate He; cbn [context_at] in Hc.
    + destruct Hc as [-> [i [E|[_ [k E]]]]].
      * change [i; js "info"] with ([i] ++ [js "info"]) in E. apply app_inj_tail in E as [_ ->]. vm_compute in He. discriminate.
      * change [i; js "info"; k] with ([i; js "info"] ++ [k]) in E. apply app_inj_tail in E as [-> ->]. apply protocol_info; [done|]. unfold info_key. one_text He; auto 10.
    + assert (part_key x) as Hx by (unfold part_key; one_text He; auto 10). destruct Hc as (parts & j & Hparts & [E|[_ [k E]]]).
      * apply app_inj_tail in E as [-> ->]. by apply protocol_parts.
      * change [j; k] with ([j] ++ [k]) in E. rewrite app_assoc in E. apply app_inj_tail in E as [-> ->]. rewrite <- app_assoc. by apply protocol_part.
    + apply jeqb_eq in He as ->. destruct Hc as (parts & j & Hparts & [E|[_ [k E]]]).
      * change [j; js "state"] with ([j] ++ [js "state"]) in E. rewrite app_assoc in E. apply app_inj_tail in E as [_ E]. vm_compute in E. discriminate.
      * change [j; js "state"; k] with ([j; js "state"] ++ [k]) in E. rewrite app_assoc in E. apply app_inj_tail in E as [-> <-]. rewrite <- app_assoc. by apply protocol_status.
  - apply andb_true_iff in He as [-> ->%jeqb_eq]. by apply protocol_cursor.
Qed.
Lemma opaque_part context path l c : context_at context path (JObj l) c → opaque c (JObj l) = true →
  ∃ parts j type, parts_at context parts ∧ path = parts ++ [j] ∧ assoc (js "type") l = Some (JStr type) ∧ ¬ known_type type.
Proof.
  destruct c; try discriminate. cbn [opaque context_at]. intros (parts & j & Hparts & [->|[? _]]); [|done].
  destruct (assoc (js "type") l) as [[| | |type| |]|]; try discriminate. intros Ht%negb_true_iff. exists parts, j, type. split_and!; [done..|].
  intros Hk. apply bool_decide_eq_false in Ht. apply Ht. unfold PART_TYPES. cbn [map]. rewrite !elem_of_cons. unfold known_type in Hk. tauto.
Qed.

(** What [object] may let through from a value: the notice; protocol at its place; all strings and
    keys of an opaque part, one of an unknown type; the settled answer for a string it
    had inspected; the answer for a key it had inspected, or a key of the schema whose
    inspection failed. *)
Inductive approved (port : nat → nat → list jstr → option Response) (preserveCursor : bool) (root : json) (context : Context) (call : nat) (t : jstr) : Prop :=
  | approved_notice : t = WITHHELD → approved port preserveCursor root context call t
  | approved_protocol path : at_path root path (JStr t) → protocol context preserveCursor path t → approved port preserveCursor root context call t
  | approved_opaque parts j l type : parts_at context parts → at_path root (parts ++ [j]) (JObj l) → assoc (js "type") l = Some (JStr type) → ¬ known_type type →
      t ∈ texts_of (JObj l) → approved port preserveCursor root context call t
  | approved_string path s u : at_path root path (JStr s) → inspected (port call) (leaf_text (key_at path, s)) u → t = settle_leaf (key_at path) s u →
      approved port preserveCursor root context call t
  | approved_key path l k : at_path root path (JObj l) → k ∈ l.*1 → inspected (port (S call)) k t → approved port preserveCursor root context call t
  | approved_schema path l : at_path root path (JObj l) → t ∈ l.*1 → t ∈ schemaKeys → inspected (port (S call)) t WITHHELD → approved port preserveCursor root context call t.

Lemma get_zip (ks vs : list jstr) k : length vs = length ks → k ∈ ks → ∃ i v, ks !! i = Some k ∧ vs !! i = Some v ∧ get k (zip ks vs) = Some v.
Proof.
  revert vs. induction ks as [|k' ks IH]; intros [|v vs] Hl Hk; try done; [by apply elem_of_nil in Hk|]. cbn [zip zip_with get fst snd]. destruct (decide (k = k')) as [->|Hne].
  - rewrite bool_decide_true by done. by exists O, v.
  - rewrite bool_decide_false by done. apply elem_of_cons in Hk as [?|Hk]; [done|]. destruct (IH vs) as (i & w & H1 & H2 & H3); [by injection Hl|done|]. by exists (S i), w.
Qed.

Lemma strings_inspected sanitize values st : ∃ out st', strings sanitize true values st = Some (out, st') ∧ Forall2 (inspected sanitize) values out.
Proof. unfold strings. cbn [negb]. destruct (strings_loop_inspected sanitize (length values) 0 values [] st) as (out & st' & E & H); [done|]. by exists out, st'. Qed.

(** The scanner itself behind the port. *)
Lemma inspected_redact (port : nat → nat → list jstr → option Response) iso_datetime namespace policy call value out :
  port call = scanner_port iso_datetime namespace policy → inspected (port call) value out → out = WITHHELD ∨ out = (redact value).1.
Proof.
  intros Hp [?|(n & batch & r & j & Hr & _ & Hc & _ & Hv & Ho)]; [by left|right]. rewrite Hp in Hr. rewrite (scanner_redacts _ _ _ _ _ _ Hr Hc) in Ho.
  rewrite list_lookup_fmap, Hv in Ho. assert (∀ a b, Some (JStr a) = Some (JStr b) → a = b) as Hj by (by intros ? ? [=]). symmetry. exact (Hj _ _ Ho).
Qed.

(** C17: nothing leaves the field filter uninspected, except protocol and unknown
    parts.  Whatever the port answers, or fails to,
    [object] ends with a value each of whose strings and keys is: the notice;
    protocol at its place, that is a known type under [type], the ids of a message or of a part, the
    status of a tool, or the cursor where it is kept; any string or key of a part
    whose type the filter does not know, which it passes on as it is; a key of its
    schema; or the answer of a complete response for that very
    string or key.  Behind [sanitizeFields], a string with a plain key comes
    out redacted or withheld, and a string under the name of a secret as the notice, as
    the member of the redacted object it was inspected as, or with every line redacted. *)
Theorem object_fail_closed port value preserveCursor hostMessages toolOutput call st :
  let context := root_context hostMessages toolOutput in
  ∃ out st', object port true value preserveCursor context call st = Some (out, st')
  ∧ (∀ t, t ∈ texts_of out → approved port preserveCursor value context call t)
  ∧ ∀ iso_datetime namespace policy, port call = scanner_port iso_datetime namespace policy → ∀ k s u, inspected (port call) (leaf_text (k, s)) u →
      settle_leaf k s u = WITHHELD ∨ (if contextual k then settle_leaf k s u = redact_lines s ∨ parse (redact (stringify (JObj [(k, JStr s)]))).1 ≫= field k = Some (JStr (settle_leaf k s u))
                                      else settle_leaf k s u = (redact s).1).
Proof.
  intros context. unfold object. cbn [negb]. set (m := (walk _ _ _ _ _ _).1).
  destruct (strings_inspected (port call) (map leaf_text (leaves m)) (add_withheld (withheld m) st)) as (texts & st1 & -> & H1). cbn [mbind option_bind].
  destruct (strings_inspected (port (S call)) (uniq (keys m)) st1) as (checked & st2 & -> & H2). cbn [mbind option_bind]. eexists _, st2. split; [reflexivity|]. split.
  - intros t Ht. pose proof (walk_ok preserveCursor value context value context (js "value") 0 0 (pos_root _ _)) as [W1 W2 W3]. fold m in W1, W2, W3.
    assert (Forall2 (λ ks u, inspected (port call) (leaf_text ks) u) (leaves m) texts) as Himg by (exact (proj1 (Forall2_fmap_l _ _ _ _) H1)).
    destruct (rebuild_in (zip (uniq (keys m)) checked) _ m texts [] Himg) as [_ Hin]. rewrite app_nil_r in Hin. destruct (Hin t Ht) as [->|[Hk|[([k s] & u & Hks & Hu & ->)|(k & Hk & Hr)]]].
    + by apply approved_notice.
    + destruct (W1 t Hk) as [(c & k & Hpos & He)|(c & k & l & Hpos & Ho & Htl)]; apply position_path in Hpos as (path & Hpath & -> & Hc).
      * by eapply approved_protocol, exempt_protocol.
      * destruct (opaque_part _ _ _ _ Hc Ho) as (parts & j & type & Hparts & -> & Htype & Hunknown). by eapply approved_opaque.
    + destruct (W2 _ Hks) as (c & Hpos & He). cbn [fst snd] in *. apply position_path in Hpos as (path & Hpath & -> & _). by eapply approved_string.
    + destruct (W3 k Hk) as (c & k0 & l & Hpos & Ho & Hl). apply position_path in Hpos as (path & Hpath & _ & _).
      destruct (get_zip (uniq (keys m)) checked k) as (i & v & Hi & Hv & Hg); [by rewrite (Forall2_length _ _ _ H2)|by apply uniq_elem|]. rewrite Hg in Hr. cbn [default from_option id] in Hr.
      pose proof (Forall2_lookup_lr _ _ _ _ _ _ H2 Hi Hv) as Hins. destruct Hr as [->|(-> & -> & Hs)]; [by eapply approved_key|by eapply approved_schema].
  - intros iso_datetime namespace policy Hp k s u Hu. apply (inspected_redact _ _ _ _ _ _ _ Hp) in Hu. unfold leaf_text, settle_leaf in *. cbn [fst snd] in *. destruct (contextual k) eqn:Ek; cbn [andb].
    + destruct (jeqb u WITHHELD) eqn:Ew; cbn [negb]; [left; by apply jeqb_eq in Ew|]. destruct Hu as [-> | ->]; [by rewrite jeqb_refl in Ew|]. cbv zeta. destruct (_ && _); [right; by left|].
      destruct (parse _ ≫= field k) as [[| | |t| |]|]; try by left. right. by right.
    + destruct Hu as [->| ->]; [by left|by right].
Qed.

(** ** A scanner that changes nothing *)

Lemma fill_small values : ∀ batch bytes, Forall (λ s, byte_length s <= FIELD_BYTES) values → (fill values batch bytes).1.1 = O.
Proof.
  induction values as [|v values IH]; intros batch bytes Hs; [done|]. apply Forall_cons in Hs as [Hv Hs]. cbn [fill]. destruct (64 <=? length batch)%nat; [done|]. cbv zeta.
  rewrite (proj2 (Z.ltb_ge _ _) Hv). destruct (negb _ && _); [done|by apply IH].
Qed.

Lemma mapM_JStr l : mapM str_of (map JStr l) = Some l.
Proof. induction l as [|x l IH]; [done|]. cbn [map mapM str_of mbind option_bind]. by rewrite IH. Qed.

Section Identity.
Context (sanitize : nat → list jstr → option Response).
Hypothesis Hid : ∀ n batch, ∃ r, sanitize n batch = Some (mkResponse (map JStr batch) r CvComplete).

Lemma strings_loop_id fuel : ∀ n values result st, (length values <= fuel)%nat → Forall (λ s, byte_length s <= FIELD_BYTES) values →
  ∃ st', strings_loop sanitize fuel n values result st = Some (result ++ values, st').
Proof.
  induction fuel as [|fuel IH]; intros n [|v values] result st Hf Hs; try (exists st; cbn; by rewrite app_nil_r); [cbn in Hf; lia|].
  cbn [strings_loop]. pose proof (fill_spec (v :: values) [] 0 ltac:(split; cbn; unfold BATCH_BYTES; lia) eq_refl) as H. pose proof (fill_small (v :: values) [] 0 Hs) as Hk.
  destruct (fill (v :: values) [] 0) as [[k batch] rest]. cbn [fst] in Hk. subst k. destruct H as [(big & taken & E & -> & Hb) _ _ Hprog Hempty]. destruct big; [|done]. cbn [app] in *.
  specialize (Hprog eq_refl ltac:(done)). assert (length rest <= fuel)%nat as Hrest by (cbn [length] in *; lia). rewrite E in Hs. apply Forall_app in Hs as [_ Hs].
  cbv zeta. cbn [replicate]. rewrite app_nil_r. destruct taken as [|t taken]; [rewrite (Hempty eq_refl) in E; done|]. rewrite E. destruct (Hid n (t :: taken)) as [r Hr]. rewrite Hr. unfold accept. cbn [mbind option_bind re_coverage re_fields re_redactions].
  rewrite bool_decide_true by done. rewrite length_map, Nat.eqb_refl. cbn [negb orb]. rewrite mapM_JStr. cbn [mbind option_bind].
  edestruct (IH (S n) rest) as [st' ->]; [done|done|]. exists st'. by rewrite <- app_assoc.
Qed.
Lemma strings_id values st : Forall (λ s, byte_length s <= FIELD_BYTES) values → ∃ st', strings sanitize true values st = Some (values, st').
Proof. intros H. unfold strings. cbn [negb]. destruct (strings_loop_id (length values) 0 values [] st) as [st' ->]; [done|done|by exists st']. Qed.
End Identity.

Lemma one_member k v : obj_of [(k, v)] = [(k, v)].
Proof. unfold obj_of, obj_order. cbn. destruct (index_key k); done. Qed.
Lemma settle_same k s : units_ok k → units_ok s → settle_leaf k s (leaf_text (k, s)) = s.
Proof.
  intros Hk Hs. unfold settle_leaf, leaf_text. cbn [fst snd]. destruct (contextual k); cbn [andb]; [|done].
  assert (jeqb (stringify (JObj [(k, JStr s)])) WITHHELD = false) as ->.
  { destruct (jeqb _ _) eqn:E; [|done]. apply jeqb_eq in E. cbn [stringify] in E. apply (f_equal (hd 0)) in E. done. }
  cbn [negb]. rewrite parse_stringify; [|constructor; [apply one_member|]; constructor; [|constructor]; split; [done|by constructor]].
  cbn [mbind option_bind field assoc]. rewrite jeqb_refl. cbv zeta. by rewrite jeqb_refl.
Qed.

Lemma index_units i : units_ok (index_text i).
Proof.
  unfold index_text, jnum_to_string, dec. rewrite (proj2 (Z.ltb_ge _ _)) by lia. eapply Forall_impl; [apply (dec_digits _ _ (dec_nonneg_spec (Z.of_nat i) ltac:(lia)))|].
  intros c Hc. unfold is_dig in Hc. bool_prop. lia.
Qed.

Section Same.
Context (fk : list (jstr * jstr)).
Lemma renames_same l ks : (∀ k, k ∈ ks → default [] (get k fk) = k) → foldl (rename fk) l ks = l.
Proof.
  induction ks as [|k ks IH] in l |- *; intros H; [done|]. cbn [foldl]. unfold rename at 2. rewrite (H k) by left. rewrite jeqb_refl. cbn [orb]. apply IH. intros k' Hk'. apply H. by right.
Qed.

Definition restores (m : Marked) (v : json) : Prop :=
  withheld m = O → (∀ k, k ∈ keys m → default [] (get k fk) = k) → ∀ rest, rebuild fk m (map leaf_text (leaves m) ++ rest) = (v, rest).

Lemma rebuild_walk pc v : json_ok v → ∀ c k d n, units_ok k → restores (walk pc c k d v n).1 v.
Proof.
  induction v as [|b|x|s|l IH|l IH] using json_ind'; intros Hok c k d n Hk; try by (intros _ _ rest).
  - inversion Hok as [| | |? Hs| |]; subst. cbn [walk]. destruct (exempt pc c k s); cbn [fst]; intros _ _ rest; [done|]. cbn. by rewrite settle_same.
  - rewrite walk_arr. destruct (_ || _); [by intros H|]. inversion Hok as [| | | |? Hl|]; subst.
    assert (∀ i r n, Forall (λ v, json_ok v → ∀ c k d n, units_ok k → restores (walk pc c k d v n).1 v) r → Forall json_ok r →
      let ms := (walk_items pc c d i r n).1 in sum_list (map withheld ms) = O → (∀ k, k ∈ concat (map keys ms) → default [] (get k fk) = k) → ∀ rest,
      rebuild_items fk ms (map leaf_text (concat (map leaves ms)) ++ rest) = (r, rest)) as H.
    { clear IH Hl Hok n. intros i r n Hr. revert i n. induction Hr as [|x r Hx _ IHr]; intros i n Hok; [done|]. apply Forall_cons in Hok as [Hx' Hok]. cbn [walk_items].
      pose proof (Hx Hx' (child_context c (index_text i) x) (index_text i) (d + 1) n) as H. destruct (walk pc _ _ _ x n) as [m n1]. specialize (IHr (S i) n1 Hok).
      fold (walk_items pc c d) in *. destruct (walk_items pc c d (S i) r n1) as [ms n2]. cbn [fst map sum_list concat] in *. intros Hw Hks rest. simpl in Hw. rewrite map_app, <- app_assoc. cbn [rebuild_items].
      rewrite H; [|apply index_units|lia|intros k' Hk'; apply Hks, elem_of_app; by left]. fold (rebuild_items fk). rewrite IHr; [done|cbn in Hw; lia|intros k' Hk'; apply Hks, elem_of_app; by right]. }
    specialize (H O l n IH Hl). destruct (walk_items pc c d 0 l n) as [ms n2]. cbn [fst] in *. intros Hw Hks rest. rewrite rebuild_arr_eq. cbn [leaves]. by rewrite H.
  - rewrite walk_obj. destruct (_ || _); [by intros H|]. destruct (opaque c (JObj l)); [by intros _ _ rest|]. inversion Hok as [| | | | |? _ Hl]; subst.
    assert (∀ r n, Forall (λ kv, json_ok kv.2 → ∀ c k d n, units_ok k → restores (walk pc c k d kv.2 n).1 kv.2) r → Forall (λ kv, units_ok kv.1 ∧ json_ok kv.2) r →
      let ms := (walk_members pc c d r n).1 in sum_list (map (λ kv, withheld kv.2) ms) = O → (∀ k, k ∈ concat (map (λ kv, kv.1 :: keys kv.2) ms) → default [] (get k fk) = k) → map fst ms = map fst r ∧ ∀ rest,
      rebuild_members fk ms (map leaf_text (concat (map (λ kv, leaves kv.2) ms)) ++ rest) = (r, rest)) as H.
    { clear IH Hl Hok n. intros r n Hr. revert n. induction Hr as [|[k' x] r Hx _ IHr]; intros n Hok; [done|]. apply Forall_cons in Hok as [[Hk' Hx'] Hok]. cbn [walk_members fst snd] in *.
      pose proof (Hx Hx' (child_context c k' x) k' (d + 1) n Hk') as H. destruct (walk pc _ _ _ x n) as [m n1]. specialize (IHr n1 Hok).
      fold (walk_members pc c d) in *. destruct (walk_members pc c d r n1) as [ms n2]. cbn [fst snd map sum_list concat] in *. intros Hw Hks.
      simpl in Hw. destruct IHr as [I1 I2]; [cbn in Hw; lia|intros k1 Hk1; apply Hks; right; apply elem_of_app; by right|]. split; [by rewrite I1|]. intros rest. rewrite map_app, <- app_assoc. cbn [rebuild_members].
      rewrite H; [|lia|intros k1 Hk1; apply Hks; right; apply elem_of_app; by left]. fold (rebuild_members fk). by rewrite I2. }
    specialize (H l n IH Hl). destruct (walk_members pc c d l n) as [ms n2]. cbn [fst] in *. intros Hw Hks rest. rewrite rebuild_obj_eq. cbn [leaves]. destruct (H Hw Hks) as [H1 H2]. rewrite H2, H1.
    rewrite renames_same; [done|]. intros k1 Hk1. apply Hks. rewrite <- H1 in Hk1. apply list_elem_of_fmap in Hk1 as (km & -> & Hm). cbn [keys]. apply concat_map_in. exists km. split; [done|left].
Qed.
End Same.

(** Inspection without a hit changes nothing.  When the port answers every batch
    completely with the batch itself, no string or key is over 1 MiB and the
    value is within the depth and the number of strings of the walk, [object] gives back the very value:
    structure, order of members, strings under the names of secrets and all. *)
Theorem object_transparent port value preserveCursor context call st :
  (∀ c n batch, ∃ r, port c n batch = Some (mkResponse (map JStr batch) r CvComplete)) → json_ok value →
  let m := (walk preserveCursor context (js "value") 0 value 0).1 in
  withheld m = O → Forall (λ s, byte_length s <= FIELD_BYTES) (map leaf_text (leaves m) ++ keys m) →
  ∃ st', object port true value preserveCursor context call st = Some (value, st').
Proof.
  intros Hid Hok m Hw Hs. apply Forall_app in Hs as [Hs1 Hs2]. unfold object. cbn [negb]. fold m. destruct (strings_id (port call) (Hid call) (map leaf_text (leaves m)) (add_withheld (withheld m) st) Hs1) as [st1 ->].
  cbn [mbind option_bind]. destruct (strings_id (port (S call)) (Hid (S call)) (uniq (keys m)) st1) as [st2 ->].
  { apply Forall_forall. intros k Hk. apply (proj1 (uniq_elem _ _)) in Hk. rewrite Forall_forall in Hs2. by apply Hs2. }
  cbn [mbind option_bind]. exists st2. rewrite <- (app_nil_r (map leaf_text (leaves m))). rewrite (rebuild_walk (zip (uniq (keys m)) (uniq (keys m))) preserveCursor value Hok context (js "value") 0 0); [done|by apply lit_units|done|].
  intros k Hk. apply (proj2 (uniq_elem _ _)) in Hk. destruct (get_zip (uniq (keys m)) (uniq (keys m)) k eq_refl Hk) as (i & v & H1 & H2 & ->). rewrite H1 in H2. by injection H2 as <-.
Qed.

Definition demo_echo : nat → nat → list jstr → option Response := λ _ _ batch, Some (mkResponse (map JStr batch) 0 CvComplete).
Lemma object_transparent_witness : ∃ st', object demo_echo true demo_value false CxMessages 0 zero_stats = Some (demo_value, st').
Proof.
  apply (object_transparent demo_echo demo_value false CxMessages 0 zero_stats); [intros c n batch; by exists O|apply json_okb_ok; vm_compute; reflexivity|vm_compute; reflexivity|].
  assert (forallb (λ s, byte_length s <=? FIELD_BYTES) (map leaf_text (leaves (walk false CxMessages (js "value") 0 demo_value 0).1) ++ keys (walk false CxMessages (js "value") 0 demo_value 0).1) = true) as H by (vm_compute; reflexivity).
  apply Forall_forall. intros s Hs. rewrite forallb_forall in H. apply Z.leb_le, H, list_elem_of_In. exact Hs.
Defined.

(** A call that ran with a warning, scanned and with the scanner gone. *)
Definition demo_warning : SecurityDecision :=
  mkDecision Warn CvComplete [Security.mkFinding (js "R1") CCommand SvHigh SvHigh (js "m") (js "use a scoped call") None 1 1] (js "p1") [].
Definition demo_after (port : nat → nat → list jstr → option Response) : option (list (jstr * json)) :=
  fst <$> after port true (mkPolicy (js "p1") [] [] []) (js "s") (js "c") [(js "title", JStr (js "t")); (js "output", JStr (js "token: abcdefgh1"))] 0
            (mkGuard zero_stats [(pending_key (js "s") (js "c"), demo_warning)]).
Definition demo_vsec (withheld : bool) (version rule : jstr) : json :=
  JObj [(js "vsec", JObj [(js "decision", JStr (js "warn")); (js "coverage", JStr (js "complete")); (js "policyVersion", JStr version); (js "rules", JArr [JStr rule]); (js "withheld", JBool withheld)])].
Example after_ex :
  demo_after demo_filter = Some [(js "title", JStr (js "t")); (js "output", JStr (js "token: [REDACTED]" ++ [LF] ++ js "[VSecAgent] R1: use a scoped call")); (js "metadata", demo_vsec false (js "p1") (js "R1"))]
  ∧ demo_after (λ _ _ _, None) = Some [(js "title", JStr WITHHELD); (js "output", JStr (WITHHELD ++ [LF] ++ js "[VSecAgent] " ++ WITHHELD)); (js "metadata", demo_vsec true WITHHELD WITHHELD)].
Proof. vm_compute. split; reflexivity. Qed.
