(* ===== verification/PrepareTool.v ===== *)
(** * Tool calls as the scanner sees them ([packages/plugin/src/security-tools.ts])

    [prepareTool] turns a tool call into the parameters of [evaluateTool]: the paths it
    touches, resolved through links, and the files it would write with their content
    before and after.  The file system is read through [realpath], [stat] and [readFile], which
    are parameters.  What the source uses of [node:path] is its POSIX behaviour. *)

From stdpp Require Import base tactics list numbers option sets strings.
From S2P Require Import Prelude JsString JsRegex Json OMap Chat Objects Credentials Security Guard Vsec.

(** ** Strings *)

(** [s.indexOf(p)], [s.lastIndexOf(p)]: [None] is [-1]. *)
Fixpoint indexOf (p s : jstr) : option nat :=
  if starts_with p s then Some O else match s with [] => None | _ :: r => S <$> indexOf p r end.
Fixpoint lastIndexOf (p s : jstr) : option nat :=
  match s with
  | [] => if starts_with p s then Some O else None
  | _ :: r => match lastIndexOf p r with Some i => Some (S i) | None => if starts_with p s then Some O else None end
  end.
(** [s.replace(old, () => next)] *)
Definition replace_first (old next s : jstr) : jstr :=
  match indexOf old s with Some i => take i s ++ next ++ drop (i + length old) s | None => s end.
(** The replacement patterns of [String.prototype.replaceAll] when the pattern is a
    string: [$$], [$&], [$`], [$']. *)
Definition pattern (s : jstr) (position : nat) (old : jstr) (c d : Z) : option jstr :=
  if negb (c =? 36) then None
  else if d =? 36 then Some [36]
  else if d =? 38 then Some old
  else if d =? 96 then Some (take position s)
  else if d =? 39 then Some (drop (position + length old) s)
  else None.
Fixpoint expand (s : jstr) (position : nat) (old next : jstr) : jstr :=
  match next with
  | [] => []
  | c :: r =>
    match r with
    | [] => [c]
    | d :: t => match pattern s position old c d with Some x => x ++ expand s position old t | None => c :: expand s position old r end
    end
  end.
(** [s.replaceAll(old, next)] from [position], for a non-empty [old]. *)
Fixpoint replaceAll_from (fuel position : nat) (s old next : jstr) : jstr :=
  match fuel, indexOf old (drop position s) with
  | S fuel, Some i =>
    take i (drop position s) ++ expand s (position + i) old next ++ replaceAll_from fuel (position + i + length old) s old next
  | _, _ => drop position s
  end.
Definition replaceAll (s old next : jstr) : jstr := replaceAll_from (length s) 0 s old next.

(** ** Paths *)

Definition is_absolute (p : jstr) : bool := starts_with [47] p.
(** [path.resolve(...)]: from the last absolute argument on; empty arguments are skipped. *)
Definition resolve_step (acc p : jstr) : jstr := if is_absolute p then p else if bool_decide (p = []) then acc else acc ++ [47] ++ p.
Definition resolve (processCwd : jstr) (args : list jstr) : jstr := normalizePath (foldl resolve_step processCwd args).
(** [path.join(base, ...parts)] for an absolute base and parts without separators. *)
Definition path_join (base : jstr) (parts : list jstr) : jstr := normalizePath (join [47] (base :: parts)).

Inductive FsError : Type := ENOENT | ENOTDIR | EOther.
#[export] Instance FsError_dec : EqDecision FsError.
Proof. solve_decision. Defined.
Record FileSystem := mkFs { fs_realpath : jstr → result FsError jstr; fs_stat : jstr → result FsError (bool * Z); fs_readFile : jstr → result FsError jstr }.

(** [canonicalPath]: the loop over the components of [current], the last one first. *)
Fixpoint canonical_loop (fs : FileSystem) (reversed missing : list jstr) : result unit jstr :=
  match fs_realpath fs (47 :: join [47] (rev reversed)) with
  | Ok real => Ok (path_join real missing)
  | Throw EOther => Throw tt
  | Throw _ => match reversed with [] => Throw tt | name :: parent => canonical_loop fs parent (name :: missing) end
  end.
Definition LIMIT : Z := 1024 * 1024.

Section Prepare.
Context (fs : FileSystem) (processCwd : jstr).
Definition canonicalPath (input : jstr) : result unit jstr := canonical_loop fs (rev (components (resolve processCwd [input]))) [].
Definition contents (file : jstr) : result unit (option jstr) :=
  match fs_stat fs file with
  | Throw ENOENT => Ok None
  | Throw _ => Throw tt
  | Ok (isFile, size) =>
    if negb isFile || (LIMIT <? size) then Throw tt else
    match fs_readFile fs file with
    | Throw ENOENT => Ok None
    | Throw _ => Throw tt
    | Ok value => if LIMIT <? byte_length value then Throw tt else Ok (Some value)
    end
  end.

(** [item[key]] of an object or an array. *)
Definition index_of_key (k : jstr) : option nat := match index_key k with Some n => Some (Z.to_nat n) | None => None end.
Definition member_of (item : option json) (key : jstr) : option json :=
  match item with
  | Some (JObj l) => assoc key l
  | Some (JArr l) => i ← index_of_key key; l !! i
  | _ => None
  end.
Definition field_at (args : list (jstr * json)) (name : jstr) : option json := foldl member_of (Some (JObj args)) (split_on 46 name).
Definition string_at (k : jstr) (args : list (jstr * json)) : option jstr := assoc k args ≫= str_of.

(** ** Patches *)

Definition HEADER_RE : regex := Eval vm_compute in re "^\*\*\* (Add|Update|Delete) File: (.+)$".
Definition END_RE : regex := Eval vm_compute in re "^\*\*\* (?:Add|Update|Delete) File:|^\*\*\* End Patch".
Definition MOVE : jstr := js "*** Move to: ".
Inductive PatchKind : Type := PkAdd | PkUpdate | PkDelete.
#[export] Instance PatchKind_dec : EqDecision PatchKind.
Proof. solve_decision. Defined.
Definition header_of (line : jstr) : option (PatchKind * jstr) :=
  m ← exec HEADER_RE line; kind ← group_of m 1; name ← group_of m 2;
  Some (if jeqb kind (js "Add") then PkAdd else if jeqb kind (js "Update") then PkUpdate else PkDelete, name).
Fixpoint body_of (lines : list jstr) : list jstr * list jstr :=
  match lines with
  | [] => ([], [])
  | line :: rest => if test END_RE line then ([], lines) else let '(body, after) := body_of rest in (line :: body, after)
  end.

(** The hunks of an update. *)
Definition hunk_step (hunks : list (list jstr)) (line : jstr) : list (list jstr) :=
  match last hunks with
  | None => hunks
  | Some current =>
    if starts_with (js "@@") line then (if bool_decide (current = []) then hunks else hunks ++ [[]])
    else if jeqb line (js "*** End of File") || bool_decide (line = []) then hunks
    else removelast hunks ++ [current ++ [line]]
  end.
Definition hunks_of (body : list jstr) : list (list jstr) := List.filter (λ h, negb (bool_decide (h = []))) (foldl hunk_step [[]] body).
Definition marked_line (line : jstr) : bool := match line with c :: _ => (c =? 32) || (c =? 43) || (c =? 45) | [] => false end.
Definition side (removed : Z) (hunk : list jstr) : jstr := join [LF] (map tail (List.filter (λ line, negb (bool_decide (head line = Some removed))) hunk)).
Definition old_side : list jstr → jstr := side 43.
Definition new_side : list jstr → jstr := side 45.
Definition apply_hunk (candidate : jstr) (hunk : list jstr) : option jstr :=
  if negb (forallb marked_line hunk) then None else
  let old := old_side hunk in
  if bool_decide (old = []) || bool_decide (indexOf old candidate = None) || negb (bool_decide (indexOf old candidate = lastIndexOf old candidate)) then None
  else Some (replace_first old (new_side hunk) candidate).
Definition apply_hunks (before : jstr) (hunks : list (list jstr)) : option jstr := foldl (λ acc h, candidate ← acc; apply_hunk candidate h) (Some before) hunks.

(** What is known of the file a section of a patch writes: its content, and whether that is all of it. *)
Definition patched (kind : PatchKind) (before : option jstr) (body : list jstr) : jstr * bool :=
  let content := join [LF] (map tail (List.filter (starts_with [43]) body)) in
  if bool_decide (kind = PkAdd) && forallb (λ line, starts_with [43] line || bool_decide (line = [])) body then (content ++ [LF], true)
  else match before with
       | Some b =>
         let hunks := hunks_of body in
         if bool_decide (kind = PkUpdate) && negb (bool_decide (hunks = [])) then match apply_hunks b hunks with Some candidate => (candidate, true) | None => (content, false) end
         else (content, false)
       | None => (content, false)
       end.

(** ** The operation *)

Record Prepared := mkPrepared { pr_files : list SecurityFile; pr_paths : list SecurityPath; pr_incomplete : bool }.
Definition or_incomplete (b : bool) (p : Prepared) : Prepared := mkPrepared (pr_files p) (pr_paths p) (pr_incomplete p || b).
Definition push_file (f : SecurityFile) (p : Prepared) : Prepared := mkPrepared (pr_files p ++ [f]) (pr_paths p) (pr_incomplete p || negb (fl_complete f)).
Definition addPath (cwd name : jstr) (operation : Operation) (p : Prepared) : result unit (jstr * Prepared) :=
  let absolute := resolve processCwd [cwd; name] in
  let! resolvedPath := canonicalPath absolute in
  Ok (absolute, mkPrepared (pr_files p) (pr_paths p ++ [mkTarget absolute resolvedPath operation]) (pr_incomplete p)).

(** [edit] on a file: the new content, if it is known. *)
Definition edited (oldString : option jstr) (newString : jstr) (all : bool) (before : option jstr) : jstr * bool :=
  match oldString, before with
  | Some [], _ => (newString, true)
  | Some old, Some b =>
    if includes old b && (all || bool_decide (indexOf old b = lastIndexOf old b))
    then (if all then replaceAll b old newString else replace_first old newString b, true) else (newString, false)
  | _, _ => (newString, false)
  end.

(** The moves of a section, in order: the last destination. *)
Fixpoint add_moves (cwd : jstr) (lines : list jstr) (destination : option jstr) (p : Prepared) : result unit (option jstr * Prepared) :=
  match lines with
  | [] => Ok (destination, p)
  | line :: rest =>
    if starts_with MOVE line then let! x := addPath cwd (drop (length MOVE) line) OpWrite p in add_moves cwd rest (Some x.1) x.2
    else add_moves cwd rest destination p
  end.
Fixpoint patch_loop (fuel : nat) (cwd : jstr) (lines : list jstr) (p : Prepared) : result unit Prepared :=
  match fuel, lines with
  | S fuel, line :: rest =>
    match header_of line with
    | None => patch_loop fuel cwd rest p
    | Some (kind, name) =>
      let! x := addPath cwd name (if bool_decide (kind = PkDelete) then OpDelete else OpWrite) p in
      let! before := contents x.1 in
      let '(section, after) := body_of rest in
      let! y := add_moves cwd section None x.2 in
      if bool_decide (kind = PkDelete) then patch_loop fuel cwd after y.2 else
      let '(content, complete) := patched kind before (List.filter (λ line, negb (starts_with MOVE line)) section) in
      patch_loop fuel cwd after (push_file (mkFile (default x.1 y.1) content before complete) y.2)
    end
  | _, _ => Ok p
  end.

Fixpoint add_paths (cwd : jstr) (names : list jstr) (operation : Operation) (args : list (jstr * json)) (p : Prepared) : result unit Prepared :=
  match names with
  | [] => Ok p
  | name :: rest =>
    match field_at args name with
    | Some (JStr value) => let! x := addPath cwd value operation p in add_paths cwd rest operation args x.2
    | _ => add_paths cwd rest operation args p
    end
  end.
Definition add_content (args : list (jstr * json)) (p : Prepared) (name : jstr) : Prepared :=
  match field_at args name with
  | Some (JStr value) => mkPrepared (pr_files p ++ [mkFile (match pr_paths p with t :: _ => tg_path t | [] => js "unknown.txt" end) value None false]) (pr_paths p) (pr_incomplete p)
  | _ => p
  end.

Definition prepare_patch (cwd patchText : jstr) : result unit Prepared :=
  let lines := split_on LF patchText in
  let! p := patch_loop (length lines) cwd lines (mkPrepared [] [] (negb (bool_decide (head lines = Some (js "*** Begin Patch"))) || negb (bool_decide (js "*** End Patch" ∈ lines)))) in
  Ok (or_incomplete (bool_decide (pr_paths p = [])) p).
Definition prepare_other (cwd tool : jstr) (args : list (jstr * json)) (policy : SecurityPolicy) : result unit Prepared :=
  let mapping := get tool (pl_mcpTools policy) in
  let names := match mapping with
               | Some m => tm_pathFields m
               | None => if bool_decide (tool ∈ [js "read"; js "glob"; js "grep"; js "ls"]) then [js "filePath"; js "path"] else []
               end in
  let! p := add_paths cwd names (if bool_decide (toolOperation tool policy = TkRead) then OpRead else OpWrite) args (mkPrepared [] [] false) in
  let p := foldl (add_content args) p (match mapping with Some m => tm_contentFields m | None => [] end) in
  Ok (or_incomplete (bool_decide (is_Some mapping) && negb (bool_decide (pr_files p = [])) || bool_decide (tool ∈ [js "write"; js "edit"; js "apply_patch"])) p).

Definition prepare_files (cwd tool : jstr) (args : list (jstr * json)) (policy : SecurityPolicy) : result unit Prepared :=
  let start := mkPrepared [] [] false in
  let otherwise := prepare_other cwd tool args policy in
  if jeqb tool (js "write") then
    match string_at (js "filePath") args, string_at (js "content") args with
    | Some filePath, Some content =>
      let! x := addPath cwd filePath OpWrite start in
      let! before := contents x.1 in
      Ok (push_file (mkFile x.1 content before true) x.2)
    | _, _ => otherwise
    end
  else if jeqb tool (js "edit") then
    match string_at (js "filePath") args, string_at (js "newString") args with
    | Some filePath, Some newString =>
      let! x := addPath cwd filePath OpWrite start in
      let! before := contents x.1 in
      let '(candidate, complete) := edited (string_at (js "oldString") args) newString (match assoc (js "replaceAll") args with Some (JBool true) => true | _ => false end) before in
      Ok (push_file (mkFile x.1 candidate before complete) x.2)
    | _, _ => otherwise
    end
  else if jeqb tool (js "apply_patch") then
    match string_at (js "patchText") args with Some patchText => prepare_patch cwd patchText | None => otherwise end
  else otherwise.

Definition prepareTool (namespace : Namespace) (directory root tool : jstr) (args : json) (policy : SecurityPolicy) : result unit EvaluateParams :=
  let args := match args with JObj l => l | _ => [] end in
  let workdir := match string_at (js "workdir") args with Some w => if bool_decide (tool ∈ [js "bash"; js "shell"]) then w else js "." | None => js "." end in
  let! cwd := canonicalPath (resolve processCwd [directory; workdir]) in
  let! root := canonicalPath root in
  let! p := prepare_files cwd tool args policy in
  Ok (mkEvaluate namespace tool args cwd root (pr_files p) (pr_paths p) policy (pr_incomplete p)).
End Prepare.

(** ** Examples *)

Example prepare_regex_parse : forallb parses ["^\*\*\* (Add|Update|Delete) File: (.+)$"; "^\*\*\* (?:Add|Update|Delete) File:|^\*\*\* End Patch"] = true.
Proof. vm_compute. reflexivity. Qed.

(** A tree with one file, and a link out of it. *)
Definition demo_text : jstr := js "a = 1" ++ [LF] ++ js "b = 2" ++ [LF].
Definition demo_fs : FileSystem :=
  mkFs (λ p, if jeqb p (js "/w/link") then Ok (js "/etc") else if existsb (jeqb p) [js "/"; js "/w"; js "/w/f"; js "/etc"] then Ok p else Throw ENOENT)
    (λ p, if jeqb p (js "/w/f") then Ok (true, 12) else Throw ENOENT) (λ p, if jeqb p (js "/w/f") then Ok demo_text else Throw ENOENT).
Definition demo_prepare (tool : string) (args : list (jstr * json)) : result unit EvaluateParams :=
  prepareTool demo_fs (js "/") (mkNs (js "p") (js "s")) (js "/w") (js "/w") (js tool) (JObj args) (mkPolicy (js "vsec-1") [] [] []).
Definition demo_shown (r : result unit EvaluateParams) : option (list (jstr * jstr * bool) * list (jstr * jstr) * bool) :=
  match r with
  | Ok p => Some (map (λ f, (fl_path f, fl_content f, fl_complete f)) (ep_files p), map (λ t, (tg_path t, tg_resolvedPath t)) (ep_paths p), ep_incomplete p)
  | Throw _ => None
  end.
Definition demo_patch : jstr :=
  join [LF] [js "*** Begin Patch"; js "*** Update File: f"; js "@@"; js " a = 1"; js "-b = 2"; js "+b = 3"; js "*** Add File: link/new"; js "+x"; js "*** End Patch"].
Example prepare_ex :
  map demo_shown
    [demo_prepare "write" [(js "filePath", JStr (js "link/x")); (js "content", JStr (js "c"))];
     demo_prepare "edit" [(js "filePath", JStr (js "f")); (js "oldString", JStr (js "= 2")); (js "newString", JStr (js "= 3"))];
     demo_prepare "edit" [(js "filePath", JStr (js "f")); (js "oldString", JStr (js "=")); (js "newString", JStr (js ":"))];
     demo_prepare "apply_patch" [(js "patchText", JStr demo_patch)];
     demo_prepare "read" [(js "filePath", JStr (js "../etc/passwd"))]]
  = [Some ([(js "/w/link/x", js "c", true)], [(js "/w/link/x", js "/etc/x")], false);
     Some ([(js "/w/f", js "a = 1" ++ [LF] ++ js "b = 3" ++ [LF], true)], [(js "/w/f", js "/w/f")], false);
     Some ([(js "/w/f", js ":", false)], [(js "/w/f", js "/w/f")], true);
     Some ([(js "/w/f", js "a = 1" ++ [LF] ++ js "b = 3" ++ [LF], true); (js "/w/link/new", js "x" ++ [LF], true)], [(js "/w/f", js "/w/f"); (js "/w/link/new", js "/etc/new")], false);
     Some ([], [(js "/etc/passwd", js "/etc/passwd")], false)].
Proof. vm_compute. reflexivity. Qed.

(** [replaceAll] expands the patterns of the new text; the replacement of one occurrence does not. *)
Example replaceAll_expands : replaceAll (js "x = old") (js "old") (js "rm $$HOME $&") = js "x = rm $HOME old".
Proof. vm_compute. reflexivity. Qed.

(** ** Occurrences *)

Definition occurs_at (i : nat) (p s : jstr) : Prop := starts_with p (drop i s) = true ∧ (i <= length s)%nat.

Lemma starts_with_split p s : starts_with p s = true ↔ ∃ r, s = p ++ r.
Proof.
  revert s. induction p as [|c p IH]; intros s; cbn [starts_with]; [split; [by exists s|done]|]. destruct s as [|d s]; [split; [done|by intros [r Hr]]|].
  rewrite andb_true_iff, IH, Z.eqb_eq. split; [intros [-> [r ->]]; by exists r|intros [r [= -> ->]]; split; [done|by exists r]].
Qed.
Lemma indexOf_first p s i : indexOf p s = Some i → occurs_at i p s ∧ ∀ j, occurs_at j p s → (i <= j)%nat.
Proof.
  revert i. induction s as [|c s IH]; intros i; cbn [indexOf].
  - destruct (starts_with p []) eqn:E; [|done]. intros [= <-]. split; [split; [done|cbn; lia]|lia].
  - destruct (starts_with p (c :: s)) eqn:E; [intros [= <-]; split; [split; [done|cbn; lia]|lia]|]. destruct (indexOf p s) as [k|]; [|done]. intros [= <-]. destruct (IH k eq_refl) as [[H1 H2] H3].
    split; [split; [done|cbn; lia]|]. intros [|j] [Hj1 Hj2]; [by rewrite drop_0, E in Hj1|]. cbn in Hj1, Hj2. assert (k <= j)%nat by (apply H3; split; [done|lia]). lia.
Qed.
Lemma lastIndexOf_last p s i j : lastIndexOf p s = Some i → occurs_at j p s → (j <= i)%nat.
Proof.
  revert i j. induction s as [|c s IH]; intros i j; cbn [lastIndexOf].
  - destruct (starts_with p []); [|done]. intros [= <-] [_ Hj]. cbn in Hj. lia.
  - destruct (lastIndexOf p s) as [k|] eqn:Ek.
    + intros [= <-] [Hj1 Hj2]. destruct j as [|j]; [lia|]. cbn in Hj1, Hj2. assert (j <= k)%nat by (apply IH; [done|split; [done|lia]]). lia.
    + destruct (starts_with p (c :: s)); [|done]. intros [= <-] [Hj1 Hj2]. destruct j as [|j]; [lia|]. exfalso. cbn in Hj1, Hj2. clear -Ek Hj1 Hj2. revert j Hj1 Hj2.
      induction s as [|d s IH]; intros j Hj1 Hj2; cbn [lastIndexOf] in Ek.
      * destruct j; [|cbn in Hj2; lia]. rewrite drop_0 in Hj1. by rewrite Hj1 in Ek.
      * destruct (lastIndexOf p s); [done|]. destruct (starts_with p (d :: s)) eqn:E; [done|]. destruct j as [|j]; [by rewrite drop_0, E in Hj1|]. cbn in Hj1, Hj2. apply (IH eq_refl j); [done|lia].
Qed.

(** [old] stands once in [before], and [after] has [next] in its place. *)
Definition replaced_once (old next before after : jstr) : Prop :=
  ∃ a b, before = a ++ old ++ b ∧ after = a ++ next ++ b ∧ ∀ a' b', before = a' ++ old ++ b' → a' = a.

Lemma replace_once old next s : indexOf old s ≠ None → indexOf old s = lastIndexOf old s → replaced_once old next s (replace_first old next s).
Proof.
  intros Hne Heq. unfold replace_first. destruct (indexOf old s) as [i|] eqn:Ei; [|done]. symmetry in Heq. destruct (indexOf_first _ _ _ Ei) as [[Ho Hi] Hmin]. apply starts_with_split in Ho as [r Hr].
  assert (s = take i s ++ old ++ r) as Es by (rewrite <- Hr; by rewrite take_drop).
  assert (drop (i + length old) s = r) as Ed by (rewrite <- drop_drop, Hr; by rewrite drop_app_length).
  exists (take i s), r. split; [done|]. split; [by rewrite Ed|]. intros a' b' Ha. assert (occurs_at (length a') old s) as Hocc.
  { split; [|rewrite Ha, length_app; lia]. apply starts_with_split. exists b'. by rewrite Ha, drop_app_length. }
  assert (length a' = i) as Hl by (pose proof (Hmin _ Hocc); pose proof (lastIndexOf_last _ _ _ _ Heq Hocc); lia).
  rewrite Ha, <- Hl. by rewrite take_app_length.
Qed.
Lemma includes_index p s : includes p s = true → indexOf p s ≠ None.
Proof.
  induction s as [|c s IH]; cbn [includes indexOf]; destruct (starts_with p _); try done. cbn [orb]. intros H. apply IH in H. by destruct (indexOf p s).
Qed.

(** ** Headers *)

(** What follows a match only matters for its results. *)
Lemma star_loop_ext body g k k' n : (∀ st k k', (∀ st, k st = k' st) → body st k = body st k') → (∀ st, k st = k' st) → ∀ st, star_loop body g k n st = star_loop body g k' n st.
Proof.
  intros Hb Hk. induction n as [|n IH]; intros st; cbn [star_loop]; [done|]. rewrite (Hk st).
  assert (∀ st, body st (consuming st (star_loop body g k n)) = body st (consuming st (star_loop body g k' n))) as ->; [|done].
  intros st'. apply Hb. intros st''. unfold consuming. case_bool_decide; [apply IH|done].
Qed.
Lemma rmatch_ext r : ∀ st k k', (∀ st, k st = k' st) → rmatch r st k = rmatch r st k'.
Proof.
  induction r as [|neg rs|a IHa b IHb|a IHa b IHb|g a IH|g a IH| | | |n a IH|neg a IH]; intros st k k' Hk; cbn [rmatch].
  - apply Hk.
  - destruct (step1 st) as [[c st']|]; [|done]. destruct (xorb _ _); [apply Hk|done].
  - apply IHa. intros st'. by apply IHb.
  - by rewrite (IHa st k k'), (IHb st k k').
  - by apply star_loop_ext.
  - assert (rmatch a st (consuming st k) = rmatch a st (consuming st k')) as -> by (apply IH; intros st'; unfold consuming; case_bool_decide; [apply Hk|done]). by rewrite Hk.
  - destruct (m_prev st); [done|apply Hk].
  - destruct (m_rest st); [apply Hk|done].
  - destruct (xorb _ _); [apply Hk|done].
  - apply IH. intros st'. apply Hk.
  - destruct (rmatch a st Some); destruct neg; [done|apply Hk|apply Hk|done].
Qed.

Definition lits (r : regex) (s : jstr) : regex := foldl (λ acc c, RSeq acc (RSet false [(c, c)])) r s.
Definition lits1 (s : jstr) : regex := match s with c :: r => lits (RSet false [(c, c)]) r | [] => REmpty end.
Definition advance (s : jstr) (st : mstate) : mstate := MState (last_or (m_prev st) s) (drop (length s) (m_rest st)) (m_caps st).
Lemma in_single c d : in_ranges [(c, c)] d = (c =? d).
Proof. unfold in_ranges. cbn [existsb]. rewrite orb_false_r. destruct (Z.eqb_spec c d); lia. Qed.
Lemma rmatch_lit c st k : rmatch (RSet false [(c, c)]) st k = if starts_with [c] (m_rest st) then k (advance [c] st) else None.
Proof. rewrite rmatch_set. unfold advance. destruct (m_rest st) as [|d r]; [done|]. cbn [starts_with xorb last_or length drop]. rewrite in_single, andb_true_r, drop_0. destruct (Z.eqb_spec c d) as [-> |]; done. Qed.
Lemma starts_with_concat a b s : starts_with (a ++ b) s = starts_with a s && starts_with b (drop (length a) s).
Proof. revert s. induction a as [|c a IH]; intros s; [done|]. destruct s as [|d s]; [done|]. cbn [app starts_with length drop]. by rewrite IH, andb_assoc. Qed.
Lemma last_or_app prev a b : last_or prev (a ++ b) = last_or (last_or prev a) b.
Proof. revert prev. induction a as [|c a IH]; intros prev; [done|]. apply IH. Qed.
Lemma rmatch_lits s : ∀ r st k, rmatch (lits r s) st k = rmatch r st (λ st', if starts_with s (m_rest st') then k (advance s st') else None).
Proof.
  induction s as [|c s IH] using rev_ind; intros r st k.
  - cbn. apply rmatch_ext. intros [prev rest caps]. unfold advance. cbn. by rewrite drop_0.
  - unfold lits. rewrite foldl_app. cbn [foldl]. change (rmatch (RSeq (lits r s) (RSet false [(c, c)])) st k = rmatch r st (λ st', if starts_with (s ++ [c]) (m_rest st') then k (advance (s ++ [c]) st') else None)).
    cbn [rmatch]. fold (rmatch (RSet false [(c, c)])). rewrite IH. apply rmatch_ext. intros st'. rewrite starts_with_concat. destruct (starts_with s (m_rest st')); [|done]. cbn [andb].
    change (rmatch (RSet false [(c, c)]) (advance s st') k = if starts_with [c] (drop (length s) (m_rest st')) then k (advance (s ++ [c]) st') else None).
    rewrite rmatch_lit. cbn [advance m_rest]. destruct (starts_with [c] _); [|done]. f_equal. unfold advance. cbn [m_prev m_rest m_caps]. by rewrite last_or_app, length_app, drop_drop.
Qed.
Definition kinds : regex := RAlt (lits1 (js "Add")) (RAlt (lits1 (js "Update")) (lits1 (js "Delete"))).
Definition terminators : list (Z * Z) := [(10, 10); (13, 13); (8232, 8233)].
Definition rest_of_line : regex := RSeq (RSet true terminators) (RStar true (RSet true terminators)).
Lemma header_re : HEADER_RE = RSeq (RSeq (lits (RSeq (lits RBol (js "*** ")) (RCap 1 kinds)) (js " File: ")) (RCap 2 rest_of_line)) REol.
Proof. reflexivity. Qed.
Lemma end_re : END_RE = RAlt (lits (RSeq (lits RBol (js "*** ")) kinds) (js " File:")) (lits RBol (js "*** End Patch")).
Proof. reflexivity. Qed.
Lemma rmatch_lits1 s st k : s ≠ [] → rmatch (lits1 s) st k = if starts_with s (m_rest st) then k (advance s st) else None.
Proof.
  destruct s as [|c s]; [done|]. intros _. cbn [lits1]. rewrite rmatch_lits, rmatch_lit. change (c :: s) with ([c] ++ s). rewrite starts_with_concat. destruct (starts_with [c] (m_rest st)); [|done]. cbn [andb advance m_rest].
  destruct (starts_with s _); [|done]. f_equal. unfold advance. cbn [m_prev m_rest m_caps]. by rewrite last_or_app, length_app, drop_drop.
Qed.
Definition kind_text (k : PatchKind) : jstr := match k with PkAdd => js "Add" | PkUpdate => js "Update" | PkDelete => js "Delete" end.
Lemma starts_with_inv p s : starts_with p s = true → s = p ++ drop (length p) s.
Proof. revert s. induction p as [|c p IH]; intros [|d s] H; try done. cbn in H. apply andb_true_iff in H as [->%Z.eqb_eq H]. cbn. f_equal. by apply IH. Qed.
Lemma starts_with_self p s : starts_with p (p ++ s) = true.
Proof. induction p as [|c p IH]; [done|]. cbn. by rewrite Z.eqb_refl. Qed.
Lemma kinds_match st k st' : rmatch kinds st k = Some st' → ∃ kind, starts_with (kind_text kind) (m_rest st) = true ∧ k (advance (kind_text kind) st) = Some st'.
Proof.
  unfold kinds. cbn [rmatch]. intros H.
  change (or_else (rmatch (lits1 (js "Add")) st k) (or_else (rmatch (lits1 (js "Update")) st k) (rmatch (lits1 (js "Delete")) st k)) = Some st') in H.
  rewrite !rmatch_lits1 in H by done.
  destruct (starts_with (js "Add") (m_rest st)) eqn:E1; cbn [or_else] in H; [destruct (k (advance (js "Add") st)) eqn:K1; cbn [or_else] in H; [injection H as ->; by exists PkAdd|]|].
  all: destruct (starts_with (js "Update") (m_rest st)) eqn:E2; cbn [or_else] in H; [destruct (k (advance (js "Update") st)) eqn:K2; cbn [or_else] in H; [injection H as ->; by exists PkUpdate|]|].
  all: destruct (starts_with (js "Delete") (m_rest st)) eqn:E3; [by exists PkDelete|done].
Qed.
Lemma kinds_take kind prev rest caps k st' : k (advance (kind_text kind) (MState prev (kind_text kind ++ rest) caps)) = Some st' → rmatch kinds (MState prev (kind_text kind ++ rest) caps) k = Some st'.
Proof.
  unfold kinds. intros H.
  change (or_else (rmatch (lits1 (js "Add")) (MState prev (kind_text kind ++ rest) caps) k) (or_else (rmatch (lits1 (js "Update")) (MState prev (kind_text kind ++ rest) caps) k) (rmatch (lits1 (js "Delete")) (MState prev (kind_text kind ++ rest) caps) k)) = Some st').
  rewrite !rmatch_lits1 by done. cbn [m_rest]. destruct kind; cbn [kind_text] in *; rewrite starts_with_self, H; done.
Qed.
Lemma star_run_inv neg rs k r n : ∀ st, star_loop (rmatch (RSet neg rs)) true k n st = Some r →
  ∃ t st1, m_rest st = t ++ m_rest st1 ∧ Forall (λ c, in_set neg rs c = true) t ∧ m_caps st1 = m_caps st ∧ k st1 = Some r.
Proof.
  induction n as [|n IH]; intros st; cbn [star_loop]; [intros H; by exists [], st|]. rewrite rmatch_set. destruct (m_rest st) as [|c rest] eqn:Er; cbn [or_else].
  { intros H. exists [], st. by rewrite Er. }
  fold (in_set neg rs c). destruct (in_set neg rs c) eqn:Ec; [|intros H; exists [], st; by rewrite Er].
  unfold consuming. cbn [m_rest]. rewrite Er, bool_decide_true by (cbn; lia).
  destruct (star_loop _ true k n _) as [st2|] eqn:Es; cbn [or_else].
  - intros [= ->]. apply IH in Es as (t & st1 & Ht & Hf & Hc & Hk). cbn [m_rest m_caps] in *. exists (c :: t), st1. rewrite Ht. split_and!; [done|by constructor|done|done].
  - intros H. exists [], st. by rewrite Er.
Qed.
(** A header line, spelled out: the name is not empty and has no line terminator. *)
Definition name_ok (name : jstr) : Prop := name ≠ [] ∧ Forall (λ c, c ≠ 10 ∧ c ≠ 13 ∧ c ≠ 8232 ∧ c ≠ 8233) name.
Definition header_line (kind : PatchKind) (name : jstr) : jstr := js "*** " ++ kind_text kind ++ js " File: " ++ name.
Lemma in_name c : in_set true terminators c = true ↔ c ≠ 10 ∧ c ≠ 13 ∧ c ≠ 8232 ∧ c ≠ 8233.
Proof.
  unfold in_set, terminators, in_ranges. cbn [existsb]. rewrite orb_false_r, xorb_true_l, negb_true_iff, !orb_false_iff, !andb_false_iff, !Z.leb_gt. lia.
Qed.
Lemma bol_only r (Hr : ∀ c s, match_at r (Some c) s = None) s : exec r s = match match_at r None s with Some st => Some (result_of 0 s st) | None => None end.
Proof.
  unfold exec. destruct s as [|c s]; cbn [exec_from]; [done|]. destruct (match_at r None (c :: s)); [done|].
  generalize 1%nat c. induction s as [|d s IH]; intros i e; cbn [exec_from]; rewrite Hr; [done|apply IH].
Qed.
Lemma take_front (p s r : jstr) : s = p ++ r → take (length s - length r) s = p.
Proof. intros ->. rewrite length_app. replace (_ - _)%nat with (length p) by lia. by rewrite take_app_length. Qed.
(** [header_of] reads exactly the header lines. *)
Lemma header_sound line kind name : header_of line = Some (kind, name) → line = header_line kind name ∧ name_ok name.
Proof.
  unfold header_of. rewrite bol_only by done. destruct (match_at HEADER_RE None line) as [st|] eqn:E; [|done]. unfold match_at in E. rewrite header_re in E. cbn [rmatch] in E.
  rewrite rmatch_lits in E. cbn [rmatch] in E. rewrite rmatch_lits in E. cbn [rmatch m_prev m_rest] in E.
  destruct (starts_with (js "*** ") line) eqn:E1; [|done]. apply kinds_match in E as (kind' & E2 & E). cbn [advance m_prev m_rest m_caps] in E, E2.
  destruct (starts_with (js " File: ") _) eqn:E3; [|done]. unfold rest_of_line in E. cbn [rmatch] in E. unfold step1 in E. cbn [advance m_rest m_prev m_caps] in E.
  set (rest := drop (length (js " File: ")) _) in E. destruct rest as [|c rest'] eqn:Er; [done|]. destruct (xorb true (in_ranges terminators c)) eqn:Ec; [|done].
  apply star_run_inv in E as (t & st1 & Ht & Hf & Hcaps & E). cbn [m_rest m_caps] in Ht, Hcaps. destruct (m_rest st1) as [|] eqn:Er1; [|done]. injection E as <-.
  cbn [result_of m_caps m_rest mbind option_bind group_of rm_caps]. rewrite Hcaps. cbn [Nat.eqb mbind option_bind]. intros [= <- <-].
  rewrite app_nil_r in Ht. subst rest'. rewrite firstn_all. change (drop 4 line) with (drop (length (js "*** ")) line).
  apply starts_with_inv in E1, E2, E3.
  assert (take (length (drop (length (js "*** ")) line) - length (drop (length (kind_text kind')) (drop (length (js "*** ")) line))) (drop (length (js "*** ")) line) = kind_text kind') as Hkind.
  { by apply take_front. }
  rewrite Hkind. assert ((if jeqb (kind_text kind') (js "Add") then PkAdd else if jeqb (kind_text kind') (js "Update") then PkUpdate else PkDelete) = kind') as -> by by destruct kind'.
  split.
  - unfold header_line. rewrite <- Er. unfold rest. rewrite <- E3, <- E2, <- E1. done.
  - split; [done|]. apply Forall_cons_2; [by apply in_name|]. eapply Forall_impl; [exact Hf|]. intros d Hd. by apply in_name.
Qed.
Lemma header_complete kind name : name_ok name → header_of (header_line kind name) = Some (kind, name).
Proof.
  intros [Hne Hf]. destruct name as [|c t]; [done|]. apply Forall_cons in Hf as [Hc Hf]. unfold header_of. rewrite bol_only by done.
  assert (∃ st, match_at HEADER_RE None (header_line kind (c :: t)) = Some st ∧ m_caps st = [(2%nat, c :: t); (1%nat, kind_text kind)]) as (st & -> & Hcaps).
  { eexists. split.
    - unfold match_at. rewrite header_re. cbn [rmatch]. rewrite rmatch_lits. cbn [rmatch]. rewrite rmatch_lits. cbn [rmatch m_prev m_rest]. unfold header_line. rewrite starts_with_self.
      unfold advance at 1. cbn [m_rest m_prev m_caps]. rewrite drop_app_length. eapply kinds_take. cbn [advance m_rest m_prev m_caps]. rewrite drop_app_length, starts_with_self.
      unfold advance. cbn [m_rest m_prev m_caps]. rewrite drop_app_length. unfold rest_of_line. cbn [rmatch]. unfold step1. cbn [m_rest m_prev m_caps].
      apply in_name in Hc. unfold in_set in Hc. rewrite Hc. eapply (star_run true terminators _ t []); [eapply Forall_impl; [exact Hf|]; intros d Hd; by apply in_name|done|cbn [m_rest]; by rewrite app_nil_r|lia|].
      cbn [m_rest]. reflexivity.
    - cbn [m_caps m_rest length]. rewrite !Nat.sub_0_r, firstn_all2 by (cbn; lia). do 4 f_equal. by apply take_front. }
  cbn [result_of mbind option_bind group_of rm_caps]. rewrite Hcaps. cbn [Nat.eqb mbind option_bind]. by destruct kind.
Qed.

(** A line that ends a section. *)
Definition boundary (line : jstr) : Prop := (∃ kind, starts_with (js "*** " ++ kind_text kind ++ js " File:") line = true) ∨ starts_with (js "*** End Patch") line = true.
Lemma end_boundary line : test END_RE line = true ↔ boundary line.
Proof.
  unfold test. rewrite bol_only by done. unfold match_at. rewrite end_re. cbn [rmatch]. rewrite !rmatch_lits. cbn [rmatch]. rewrite rmatch_lits. cbn [rmatch m_prev m_rest].
  unfold boundary. split.
  - intros H. destruct (starts_with (js "*** End Patch") line) eqn:E; [by right|left].
    match type of H with match match or_else ?x None with _ => _ end with _ => _ end = _ => destruct x as [st|] eqn:Ex; [|done] end. clear H.
    destruct (starts_with (js "*** ") line) eqn:E1; [|done]. apply kinds_match in Ex as (kind & E2 & Ex). cbn [advance m_rest] in E2, Ex.
    destruct (starts_with (js " File:") _) eqn:E3; [|done]. exists kind. rewrite !starts_with_concat, E1, E2. exact E3.
  - intros [[kind H]|H]; [|rewrite H; by destruct (if starts_with (js "*** ") line then _ else _)].
    rewrite !starts_with_concat in H. apply andb_true_iff in H as [E1 H]. apply andb_true_iff in H as [E2 E3]. rewrite E1. pose proof (starts_with_inv _ _ E2) as E2'.
    set (k := λ st' : mstate, if starts_with (js " File:") (m_rest st') then Some (advance (js " File:") st') else None).
    assert (∃ st, rmatch kinds (advance (js "*** ") (MState None line [])) k = Some st) as [st Hst]; [|change (match match or_else (rmatch kinds (advance (js "*** ") (MState None line [])) k) (if starts_with (js "*** End Patch") line then Some (advance (js "*** End Patch") (MState None line [])) else None) with Some st => Some (result_of 0 line st) | None => None end with Some _ => true | None => false end = true); by rewrite Hst].
    unfold advance. cbn [m_rest m_prev m_caps]. rewrite E2'. eexists. apply kinds_take. unfold k. cbn [advance m_rest]. rewrite drop_app_length, E3. reflexivity.
Qed.
Lemma header_boundary kind name : boundary (header_line kind name).
Proof. left. exists kind. unfold header_line. rewrite !starts_with_concat, starts_with_self, drop_app_length, starts_with_self, drop_app_length. done. Qed.

(** ** Patches, spelled out *)

(** The lines of a section apart from its moves, and where its last move leads to. *)
Definition moves (section : list jstr) : list jstr := map (drop 13) (List.filter (starts_with (js "*** Move to: ")) section).
Definition others (section : list jstr) : list jstr := List.filter (λ line, negb (starts_with (js "*** Move to: ") line)) section.

(** The sections of a patch: a header, and the lines up to the next one or the end mark. *)
Inductive patch_sections : list jstr → list (PatchKind * jstr * list jstr) → Prop :=
  | sections_end : patch_sections [] []
  | sections_skip line rest sections : (∀ kind name, name_ok name → line ≠ header_line kind name) → patch_sections rest sections → patch_sections (line :: rest) sections
  | sections_one kind name section rest sections :
      name_ok name → Forall (λ line, ¬ boundary line) section → match rest with [] => True | line :: _ => boundary line end →
      patch_sections rest sections → patch_sections (header_line kind name :: section ++ rest) ((kind, name, section) :: sections).
Lemma body_of_section section rest : Forall (λ line, ¬ boundary line) section → match rest with [] => True | line :: _ => boundary line end → body_of (section ++ rest) = (section, rest).
Proof.
  intros Hs Hr. induction Hs as [|line section Hl _ IH]; cbn [app body_of].
  - destruct rest as [|line rest]; [done|]. cbn [body_of]. apply end_boundary in Hr. by rewrite Hr.
  - destruct (test END_RE line) eqn:E; [by apply end_boundary in E|]. by rewrite IH.
Qed.
Lemma body_of_split lines : let '(section, rest) := body_of lines in lines = section ++ rest ∧ Forall (λ line, ¬ boundary line) section ∧ match rest with [] => True | line :: _ => boundary line end.
Proof.
  induction lines as [|line lines IH]; cbn [body_of]; [by split_and!; [|apply Forall_nil_2|]|]. destruct (test END_RE line) eqn:E.
  - split_and!; [done|apply Forall_nil_2|by apply end_boundary].
  - destruct (body_of lines) as [section rest]. destruct IH as (-> & H1 & H2). split_and!; [done| |done]. apply Forall_cons_2; [|done]. intros Hb%end_boundary. congruence.
Qed.
Lemma patch_sections_exist lines : ∃ sections, patch_sections lines sections.
Proof.
  assert (∀ n lines, (length lines <= n)%nat → ∃ sections, patch_sections lines sections) as H; [|by apply (H (length lines))]. clear lines.
  induction n as [|n IH]; intros [|line rest] Hn; cbn in Hn; try lia; try (by exists []; constructor).
  destruct (header_of line) as [[kind name]|] eqn:E.
  - apply header_sound in E as [-> Hname]. pose proof (body_of_split rest) as Hb. destruct (body_of rest) as [section after]. destruct Hb as (-> & H1 & H2).
    rewrite length_app in Hn. destruct (IH after) as [sections Hs]; [lia|]. eexists. by apply sections_one.
  - destruct (IH rest) as [sections Hs]; [lia|]. exists sections. apply sections_skip; [|done]. intros kind name Hname ->. by rewrite header_complete in E.
Qed.

(** The groups of lines between the [@@] lines of a section. *)
Inductive separated : list jstr → list (list jstr) → Prop :=
  | separated_one group : Forall (λ line, starts_with (js "@@") line = false) group → separated group [group]
  | separated_more group line body groups : Forall (λ line, starts_with (js "@@") line = false) group → starts_with (js "@@") line = true →
      separated body groups → separated (group ++ line :: body) (group :: groups).
Definition content_line (line : jstr) : bool := negb (jeqb line (js "*** End of File") || bool_decide (line = [])).
Definition nonempty (hunk : list jstr) : bool := negb (bool_decide (hunk = [])).
(** The hunks: the groups without end marks and empty lines, as far as something is left of them. *)
Definition hunks_in (body : list jstr) (hunks : list (list jstr)) : Prop :=
  ∃ groups, separated body groups ∧ hunks = List.filter nonempty (map (List.filter content_line) groups).

Lemma hunk_steps_group group : ∀ pre current, Forall (λ line, starts_with (js "@@") line = false) group →
  foldl hunk_step (pre ++ [current]) group = pre ++ [current ++ List.filter content_line group].
Proof.
  induction group as [|line group IH]; intros pre current Hg; [by rewrite app_nil_r|]. apply Forall_cons in Hg as [Hl Hg]. cbn [foldl List.filter]. unfold hunk_step at 2.
  rewrite last_snoc, Hl. unfold content_line at 1. destruct (_ || _); cbn [negb]; [by apply IH|]. rewrite removelast_last, IH by done. by rewrite <- app_assoc.
Qed.
Lemma hunk_steps_separated body groups : separated body groups → ∀ pre current,
  List.filter nonempty (foldl hunk_step (pre ++ [current]) body)
  = List.filter nonempty pre ++ match groups with [] => [] | g :: gs => List.filter nonempty ((current ++ List.filter content_line g) :: map (List.filter content_line) gs) end.
Proof.
  induction 1 as [group Hg|group line body groups Hg Hl Hs IH]; intros pre current.
  - by rewrite hunk_steps_group, List.filter_app by done.
  - rewrite foldl_app, hunk_steps_group by done. cbn [foldl]. unfold hunk_step at 2. rewrite last_snoc, Hl. set (h := current ++ _).
    destruct groups as [|g gs]; [inversion Hs|]. case_bool_decide as Eh.
    + rewrite IH, Eh. done.
    + assert (nonempty h = true) as En by (unfold nonempty; by rewrite bool_decide_false). rewrite IH, List.filter_app, <- app_assoc. f_equal. cbn [List.filter app map]. by rewrite En.
Qed.
Lemma separated_exists body : ∃ groups, separated body groups.
Proof.
  induction body as [|line body [groups IH]]; [exists [[]]; constructor; apply Forall_nil_2|]. destruct (starts_with (js "@@") line) eqn:E.
  - exists ([] :: groups). by apply (separated_more [] line); [apply Forall_nil_2| |].
  - inversion IH as [group Hg|group line' body' groups' Hg Hl Hs]; subst.
    + exists [line :: body]. constructor. by apply Forall_cons_2.
    + exists ((line :: group) :: groups'). apply (separated_more (line :: group) line'); [by apply Forall_cons_2|done|done].
Qed.
Lemma hunks_of_in body : hunks_in body (hunks_of body).
Proof.
  destruct (separated_exists body) as [groups Hs]. exists groups. split; [done|]. unfold hunks_of. change [[]] with ([] ++ [@nil jstr]).
  change (List.filter (λ h : list jstr, negb (bool_decide (h = []))) ?l) with (List.filter nonempty l). rewrite (hunk_steps_separated _ _ Hs). destruct groups; done.
Qed.

(** The lines of a hunk with one of two marks, without their marks. *)
Definition marked (a b : Z) (hunk : list jstr) : jstr := join [LF] (map tail (List.filter (λ line, bool_decide (head line = Some a) || bool_decide (head line = Some b)) hunk)).
(** The hunks of an update, in order: each line carries a mark, and the kept and removed
    lines stand at one place only, where the kept and added ones replace them. *)
Inductive hunks_applied : list (list jstr) → jstr → jstr → Prop :=
| hunks_nil s : hunks_applied [] s s
| hunks_cons h hs a b c : Forall (λ line, head line = Some 32 ∨ head line = Some 43 ∨ head line = Some 45) h →
    replaced_once (marked 32 45 h) (marked 32 43 h) a b → hunks_applied hs b c → hunks_applied (h :: hs) a c.
Lemma side_marked a b other hunk : a ≠ other → b ≠ other → (∀ line, line ∈ hunk → head line = Some a ∨ head line = Some b ∨ head line = Some other) → side other hunk = marked a b hunk.
Proof.
  intros Ha Hb Hm. unfold side, marked. do 2 f_equal. induction hunk as [|line hunk IH]; [done|]. cbn [List.filter]. rewrite IH by (intros l Hl; apply Hm; by right).
  destruct (Hm line ltac:(by left)) as [-> |[-> | ->]]; repeat case_bool_decide; cbn [negb orb]; congruence.
Qed.
Lemma apply_hunks_ok hs : ∀ a c, apply_hunks a hs = Some c → hunks_applied hs a c.
Proof.
  unfold apply_hunks. induction hs as [|h hs IH]; intros a c; cbn [foldl mbind option_bind]; [intros [= <-]; constructor|].
  destruct (apply_hunk a h) as [b|] eqn:E; [|intros H; exfalso; clear -H; induction hs; [done|by apply IHhs]].
  intros H. unfold apply_hunk in E. destruct (forallb marked_line h) eqn:Em; [|done]. cbn [negb] in E. cbv zeta in E. destruct (_ || _) eqn:Ec; [done|]. injection E as <-.
  assert (Forall (λ line, head line = Some 32 ∨ head line = Some 43 ∨ head line = Some 45) h) as Hm.
  { apply Forall_forall. intros line Hl. rewrite forallb_forall in Em. specialize (Em line (proj1 (list_elem_of_In _ _) Hl)). destruct line as [|x line]; [done|].
    cbn in Em. apply orb_true_iff in Em as [Em|Em%Z.eqb_eq]; [apply orb_true_iff in Em as [Em%Z.eqb_eq|Em%Z.eqb_eq]|]; subst; auto. }
  econstructor; [exact Hm| |by apply IH]. rewrite Forall_forall in Hm.
  assert (old_side h = marked 32 45 h) as <- by (unfold old_side; apply side_marked; [done|done|]; intros line Hl; destruct (Hm line Hl) as [?|[?|?]]; auto).
  assert (new_side h = marked 32 43 h) as <- by (unfold new_side; apply side_marked; [done|done|]; intros line Hl; destruct (Hm line Hl) as [?|[?|?]]; auto).
  apply orb_false_iff in Ec as [Ec Ec3]. apply orb_false_iff in Ec as [_ Ec2]. apply bool_decide_eq_false in Ec2. apply negb_false_iff, bool_decide_eq_true in Ec3. by apply replace_once.
Qed.

(** What a section of a patch makes of a file that is known in full. *)
Definition patched_exactly (kind : PatchKind) (body : list jstr) (f : SecurityFile) : Prop :=
  (kind = PkAdd ∧ Forall (λ line, head line = Some 43 ∨ line = []) body ∧ fl_content f = marked 43 43 body ++ [LF])
  ∨ (kind = PkUpdate ∧ ∃ before hunks, fl_before f = Some before ∧ hunks_in body hunks ∧ hunks ≠ [] ∧ hunks_applied hunks before (fl_content f)).
Lemma plus_head line : starts_with [43] line = bool_decide (head line = Some 43).
Proof. destruct line as [|c line]; [done|]. cbn [starts_with head]. rewrite andb_true_r. case_bool_decide as E; [by injection E as ->|]. apply Z.eqb_neq. congruence. Qed.
Lemma added_marked body : map tail (List.filter (starts_with [43]) body) = map tail (List.filter (λ line, bool_decide (head line = Some 43) || bool_decide (head line = Some 43)) body).
Proof. f_equal. induction body as [|line body IH]; [done|]. cbn [List.filter]. by rewrite IH, plus_head, orb_diag. Qed.
Lemma patched_ok kind before body path : (patched kind before body).2 = true → patched_exactly kind body (mkFile path (patched kind before body).1 before true).
Proof.
  unfold patched, patched_exactly. cbv zeta. destruct (bool_decide (kind = PkAdd) && _) eqn:Ea; cbn [fst snd fl_content fl_before].
  - intros _. left. apply andb_true_iff in Ea as [Ek Ea]. apply bool_decide_eq_true in Ek. split; [done|]. split; [|unfold marked; by rewrite added_marked].
    apply Forall_forall. intros line Hl. rewrite forallb_forall in Ea. apply list_elem_of_In in Hl.
    specialize (Ea _ Hl). cbn beta in Ea. rewrite plus_head in Ea. apply orb_true_iff in Ea as [Ea|Ea]; apply bool_decide_eq_true in Ea; auto.
  - destruct before as [b|]; [|done]. destruct (bool_decide (kind = PkUpdate) && _) eqn:Eu; [|done]. apply andb_true_iff in Eu as [Ek Eh]. apply bool_decide_eq_true in Ek. apply negb_true_iff, bool_decide_eq_false in Eh.
    destruct (apply_hunks b (hunks_of body)) as [c|] eqn:Ec; [|done]. intros _. right. split; [done|]. exists b, (hunks_of body). split_and!; [done|apply hunks_of_in|done|by apply apply_hunks_ok].
Qed.

(** ** Paths, spelled out *)

Definition dir (parts : list jstr) : jstr := 47 :: join [47] parts.
(** [name] seen from [base]. *)
Definition from_dir (base name : jstr) : jstr := if starts_with [47] name then name else base ++ 47 :: name.
Definition located (base name path : jstr) : Prop := ∃ parts, leads (from_dir base name) parts ∧ path = dir parts.

Section Resolution.
Context (fs : FileSystem) (processCwd : jstr).
(** Where a path resolves to: what exists is resolved through its links; what is
    missing is what its parent resolves to, followed by its name. *)
Inductive resolved : list jstr → list jstr → Prop :=
  | resolved_exists parts real there : fs_realpath fs (dir parts) = Ok real → leads real there → resolved parts there
  | resolved_missing parts name e there : fs_realpath fs (dir (parts ++ [name])) = Throw e → e = ENOENT ∨ e = ENOTDIR →
      resolved parts there → resolved (parts ++ [name]) (there ++ [name]).
Definition resolves (path r : jstr) : Prop := ∃ parts there, leads path parts ∧ resolved parts there ∧ r = dir there.

Lemma leads_unique path a b : leads path a → leads path b → a = b.
Proof. by intros ->%leads_components ->%leads_components. Qed.
Lemma resolved_unique parts a b : resolved parts a → resolved parts b → a = b.
Proof.
  intros H. revert b. induction H as [parts real there Hr Hl|parts name e there Hr He H IH]; intros b Hb.
  - inversion Hb as [? real' ? Hr' Hl'|parts' name' e' there' Hr' He' H']; subst; rewrite Hr in Hr'; [|done]. injection Hr' as <-. by eapply leads_unique.
  - inversion Hb as [? real' ? Hr' Hl'|parts' name' e' there' Hr' He' H' E]; subst; [by rewrite Hr in Hr'|]. apply app_inj_tail in E as [-> ->]. by rewrite (IH there').
Qed.
Lemma resolves_unique path a b : resolves path a → resolves path b → a = b.
Proof. intros (p & t & Hp & Ht & ->) (p' & t' & Hp' & Ht' & ->). rewrite (leads_unique _ _ _ Hp' Hp) in Ht'. by rewrite (resolved_unique _ _ _ Ht Ht'). Qed.
Lemma located_unique base name a b : located base name a → located base name b → a = b.
Proof. intros (p & Hp & ->) (p' & Hp' & ->). by rewrite (leads_unique _ _ _ Hp Hp'). Qed.

Lemma components_app a b : components (a ++ 47 :: b) = foldl path_step (components a) (split_on 47 b).
Proof. unfold components. by rewrite split_on_app_sep, foldl_app. Qed.
Lemma components_dir parts : Forall plain_component parts → components (dir parts) = parts.
Proof.
  intros Hp. unfold dir. change (47 :: ?s) with ([] ++ 47 :: s). rewrite components_app. change (components []) with (@nil jstr). destruct parts as [|x parts]; [done|].
  rewrite split_join; [by apply path_steps_keep|done|]. eapply Forall_impl; [exact Hp|]. by intros ? (_ & _ & _ & ?).
Qed.
Lemma components_step base name : components (resolve_step base name) = components (from_dir base name).
Proof. unfold resolve_step, from_dir, is_absolute. destruct (starts_with [47] name); [done|]. case_bool_decide as E; [subst; rewrite components_app; by cbn|done]. Qed.
Lemma components_from base base' name : components base = components base' → components (from_dir base name) = components (from_dir base' name).
Proof. intros E. unfold from_dir. destruct (starts_with [47] name); [done|]. by rewrite !components_app, E. Qed.
Lemma resolve_one input : resolve processCwd [input] = dir (components (from_dir processCwd input)).
Proof. unfold resolve. cbn [foldl]. unfold normalizePath, dir. by rewrite components_step. Qed.
Lemma resolve_two base input : resolve processCwd [base; input] = dir (components (from_dir (from_dir processCwd base) input)).
Proof. unfold resolve. cbn [foldl]. unfold normalizePath, dir. rewrite components_step. by rewrite (components_from _ _ _ (components_step processCwd base)). Qed.
Lemma resolve_located base input : starts_with [47] base = true → located base input (resolve processCwd [base; input]).
Proof.
  intros Hb. rewrite resolve_two. eexists. split; [apply components_lead|]. do 2 f_equal. unfold from_dir at 2. by rewrite Hb.
Qed.
Lemma path_join_dir real missing : Forall plain_component missing → path_join real missing = dir (components real ++ missing).
Proof.
  intros Hm. unfold path_join, normalizePath, dir. do 2 f_equal. destruct missing as [|m missing]; [cbn; by rewrite app_nil_r|].
  change (join [47] (real :: m :: missing)) with (real ++ 47 :: join [47] (m :: missing)). rewrite components_app, split_join; [by apply path_steps_keep|done|].
  eapply Forall_impl; [exact Hm|]. by intros ? (_ & _ & _ & ?).
Qed.
Lemma canonical_loop_ok reversed : ∀ missing r, Forall plain_component reversed → Forall plain_component missing → canonical_loop fs reversed missing = Ok r →
  ∃ there, resolved (rev reversed) there ∧ r = dir (there ++ missing).
Proof.
  induction reversed as [|name parent IH]; intros missing r Hp Hm; cbn [canonical_loop]; change (47 :: join [47] ?l) with (dir l).
  - destruct (fs_realpath fs _) as [real|e] eqn:E; [|by destruct e]. intros [= <-]. exists (components real). split; [by eapply resolved_exists, components_lead|by apply path_join_dir].
  - apply Forall_cons in Hp as [Hname Hp]. destruct (fs_realpath fs _) as [real|e] eqn:E.
    + intros [= <-]. exists (components real). split; [by eapply resolved_exists, components_lead|by apply path_join_dir].
    + intros H. assert (canonical_loop fs parent (name :: missing) = Ok r ∧ (e = ENOENT ∨ e = ENOTDIR)) as [Hl He] by (destruct e; auto; discriminate).
      apply IH in Hl as (there & Ht & ->); [|done|by apply Forall_cons_2]. exists (there ++ [name]). split; [|by rewrite <- app_assoc]. cbn [rev] in *. by eapply resolved_missing.
Qed.
Lemma canonical_components input r : canonicalPath fs processCwd input = Ok r → ∃ there, resolved (components (from_dir processCwd input)) there ∧ r = dir there.
Proof.
  unfold canonicalPath. rewrite resolve_one, components_dir by apply components_plain. intros (there & Ht & ->)%canonical_loop_ok.
  - rewrite rev_involutive in Ht. exists there. by rewrite app_nil_r.
  - apply Forall_rev, components_plain.
  - apply Forall_nil_2.
Qed.
Lemma canonical_from input r : canonicalPath fs processCwd input = Ok r → resolves (from_dir processCwd input) r.
Proof. intros (there & Ht & ->)%canonical_components. eexists _, there. split; [apply components_lead|done]. Qed.
Lemma canonical_resolves input r : starts_with [47] input = true → canonicalPath fs processCwd input = Ok r → resolves input r.
Proof. intros Hi H%canonical_from. unfold from_dir in H. by rewrite Hi in H. Qed.
Lemma canonical_two base input r : canonicalPath fs processCwd (resolve processCwd [base; input]) = Ok r → resolves (from_dir (from_dir processCwd base) input) r.
Proof.
  intros (there & Ht & ->)%canonical_components. eexists _, there. split; [apply components_lead|]. split; [|done]. revert Ht. rewrite resolve_two.
  change (from_dir processCwd (dir ?x)) with (dir x). by rewrite components_dir by apply components_plain.
Qed.
Lemma resolved_absolute path r : resolves path r → starts_with [47] r = true.
Proof. by intros (p & t & _ & _ & ->). Qed.
End Resolution.

(** ** Replacing everywhere *)

(** [old] stands between the pieces and in none of them; [after] has [next] in its place. *)
Definition replaced_everywhere (old next before after : jstr) : Prop :=
  ∃ pieces, pieces ≠ [] ∧ before = join old pieces ∧ after = join next pieces ∧ Forall (λ piece, ∀ i, ¬ occurs_at i old piece) pieces.
Lemma expand_plain s position old next : 36 ∉ next → expand s position old next = next.
Proof.
  induction next as [|c r IH]; intros Hn; [done|]. cbn [expand]. apply not_elem_of_cons in Hn as [Hc Hr]. destruct r as [|d t]; [done|].
  unfold pattern. assert ((c =? 36) = false) as -> by (apply Z.eqb_neq; congruence). cbn [negb]. by rewrite IH.
Qed.
Lemma indexOf_some p s j : occurs_at j p s → indexOf p s ≠ None.
Proof.
  revert j. induction s as [|c s IH]; intros j [Hj Hl]; cbn [indexOf].
  - destruct j; [|cbn in Hl; lia]. rewrite drop_0 in Hj. by rewrite Hj.
  - destruct (starts_with p (c :: s)) eqn:E; [done|]. destruct j as [|j]; [by rewrite drop_0, E in Hj|]. cbn in Hj, Hl. specialize (IH j). destruct (indexOf p s); [done|]. apply IH. split; [done|lia].
Qed.
Lemma take_free old s i : indexOf old s = Some i → old ≠ [] → ∀ j, ¬ occurs_at j old (take i s).
Proof.
  intros Hi Hne j [Hj Hl]. destruct (indexOf_first _ _ _ Hi) as [[Ho Hlen] Hmin]. rewrite length_take_le in Hl by done.
  apply starts_with_split in Hj as [r Hr]. assert (j + length old <= i)%nat as Hle.
  { apply (f_equal length) in Hr. rewrite length_drop, length_take_le, length_app in Hr by done. destruct old; [done|]. cbn in *. lia. }
  assert (occurs_at j old s) as Hocc.
  { split; [|lia]. apply starts_with_split. exists (r ++ drop i s). rewrite <- (take_drop i s) at 1. rewrite drop_app_le by (rewrite length_take_le by done; lia). rewrite Hr. by rewrite <- app_assoc. }
  pose proof (Hmin j Hocc). destruct old; [done|]. cbn in Hle. lia.
Qed.
Lemma join_cons_ne sep x l : l ≠ [] → join sep (x :: l) = x ++ sep ++ join sep l.
Proof. by destruct l. Qed.
Lemma replaceAll_pieces old next : old ≠ [] → 36 ∉ next → ∀ fuel position s, (length s - position <= fuel)%nat → (position <= length s)%nat →
  replaced_everywhere old next (drop position s) (replaceAll_from fuel position s old next).
Proof.
  intros Hne Hn. induction fuel as [|fuel IH]; intros position s Hf Hp; cbn [replaceAll_from].
  - exists [drop position s]. split_and!; [done|done|done|]. apply Forall_singleton. intros i [Hi _]. rewrite (drop_ge s position), drop_nil in Hi by lia. by destruct old.
  - destruct (indexOf old (drop position s)) as [i|] eqn:Ei; [|exists [drop position s]; split_and!; [done|done|done|]; apply Forall_singleton; intros i Hi%indexOf_some; done].
    destruct (indexOf_first _ _ _ Ei) as [[Ho Hlen] _]. apply starts_with_split in Ho as [r Hr]. rewrite drop_drop in Hr. rewrite length_drop in Hlen.
    assert (length old + length r = length s - (position + i))%nat as Hlr by (rewrite <- length_app, <- Hr; by rewrite length_drop).
    assert (drop (position + i + length old) s = r) as Ed by (rewrite <- drop_drop, Hr; by rewrite drop_app_length).
    assert (0 < length old)%nat by (destruct old; [done|cbn; lia]).
    destruct (IH (position + i + length old)%nat s) as (pieces & E0 & E1 & E2 & E3); [lia|lia|]. rewrite Ed in E1.
    exists (take i (drop position s) :: pieces). rewrite !join_cons_ne by done. rewrite expand_plain by done. split_and!.
    + done.
    + rewrite <- (take_drop i (drop position s)) at 1. rewrite drop_drop, Hr, <- E1. done.
    + by rewrite E2.
    + apply Forall_cons_2; [|done]. by apply take_free.
Qed.
Lemma replaceAll_everywhere s old next : old ≠ [] → 36 ∉ next → replaced_everywhere old next s (replaceAll s old next).
Proof. intros Hne Hn. unfold replaceAll. rewrite <- (drop_0 s) at 1. apply replaceAll_pieces; [done|done|lia|lia]. Qed.

(** ** What a call touches *)

Section Proofs.
Context (fs : FileSystem) (processCwd : jstr).
Abbreviation resolves := (resolves fs).

(** What the file system has at a path: a regular file, or nothing. *)
Definition snapshot (path : jstr) (before : option jstr) : Prop :=
  match before with
  | Some text => fs_readFile fs path = Ok text ∧ ∃ size, fs_stat fs path = Ok (true, size)
  | None => fs_stat fs path = Throw ENOENT ∨ fs_readFile fs path = Throw ENOENT
  end.
Lemma contents_snapshot path before : contents fs path = Ok before → snapshot path before.
Proof.
  unfold contents. destruct (fs_stat fs path) as [[isFile size]|[]] eqn:Es; [|intros [= <-]; by left|done|done]. destruct isFile; [|done]. cbn [negb orb].
  destruct (LIMIT <? size); [done|]. destruct (fs_readFile fs path) as [text|[]] eqn:Er; [|intros [= <-]; by right|done|done].
  destruct (LIMIT <? byte_length text); [done|]. intros [= <-]. split; [done|by exists size].
Qed.

(** The sections of the patch of a call. *)
Definition call_section (tool : jstr) (args : list (jstr * json)) (kind : PatchKind) (name : jstr) (section : list jstr) : Prop :=
  tool = js "apply_patch" ∧ ∃ text sections, assoc (js "patchText") args = Some (JStr text) ∧ patch_sections (split_on LF text) sections ∧ (kind, name, section) ∈ sections.
(** The paths a call mentions, and what it does there. *)
Inductive mentions (tool : jstr) (args : list (jstr * json)) (policy : SecurityPolicy) : jstr → Operation → Prop :=
  | mentions_write name content : tool = js "write" → assoc (js "filePath") args = Some (JStr name) → assoc (js "content") args = Some (JStr content) →
      mentions tool args policy name OpWrite
  | mentions_edit name text : tool = js "edit" → assoc (js "filePath") args = Some (JStr name) → assoc (js "newString") args = Some (JStr text) →
      mentions tool args policy name OpWrite
  | mentions_header kind name section : call_section tool args kind name section →
      mentions tool args policy name (if bool_decide (kind = PkDelete) then OpDelete else OpWrite)
  | mentions_move kind name section destination : call_section tool args kind name section → destination ∈ moves section →
      mentions tool args policy destination OpWrite
  | mentions_read key name : tool ∈ [js "read"; js "glob"; js "grep"; js "ls"] → get tool (pl_mcpTools policy) = None →
      key = js "filePath" ∨ key = js "path" → assoc key args = Some (JStr name) → mentions tool args policy name OpRead
  | mentions_mapped mapping key name : tool ∉ [js "write"; js "edit"; js "apply_patch"] → get tool (pl_mcpTools policy) = Some mapping →
      key ∈ tm_pathFields mapping → field_at args key = Some (JStr name) →
      mentions tool args policy name (if bool_decide (toolOperation tool policy = TkRead) then OpRead else OpWrite).
(** The files a call writes. *)
Inductive writes (tool : jstr) (args : list (jstr * json)) : jstr → Prop :=
  | writes_write name content : tool = js "write" → assoc (js "filePath") args = Some (JStr name) → assoc (js "content") args = Some (JStr content) → writes tool args name
  | writes_edit name text : tool = js "edit" → assoc (js "filePath") args = Some (JStr name) → assoc (js "newString") args = Some (JStr text) → writes tool args name
  | writes_section kind name section : call_section tool args kind name section → kind ≠ PkDelete → writes tool args (default name (last (moves section))).

(** What a file that is shown as complete is, by tool. *)
Inductive exact (cwd tool : jstr) (args : list (jstr * json)) (f : SecurityFile) : Prop :=
  | exact_write name : tool = js "write" → assoc (js "filePath") args = Some (JStr name) → located cwd name (fl_path f) →
      assoc (js "content") args = Some (JStr (fl_content f)) → snapshot (fl_path f) (fl_before f) → exact cwd tool args f
  | exact_create name : tool = js "edit" → assoc (js "filePath") args = Some (JStr name) → located cwd name (fl_path f) →
      assoc (js "oldString") args = Some (JStr []) → assoc (js "newString") args = Some (JStr (fl_content f)) → snapshot (fl_path f) (fl_before f) → exact cwd tool args f
  | exact_edit name old new before : tool = js "edit" → assoc (js "filePath") args = Some (JStr name) → located cwd name (fl_path f) →
      assoc (js "oldString") args = Some (JStr old) → old ≠ [] → assoc (js "newString") args = Some (JStr new) →
      fl_before f = Some before → snapshot (fl_path f) (fl_before f) →
      (assoc (js "replaceAll") args = Some (JBool true) ∧ fl_content f = replaceAll before old new ∧ (36 ∉ new → replaced_everywhere old new before (fl_content f))
       ∨ replaced_once old new before (fl_content f)) → exact cwd tool args f
  | exact_patch kind name section source : call_section tool args kind name section → kind ≠ PkDelete →
      located cwd (default name (last (moves section))) (fl_path f) → located cwd name source → snapshot source (fl_before f) →
      patched_exactly kind (others section) f → exact cwd tool args f.

Record prepared_ok (P : SecurityFile → Prop) (p : Prepared) : Prop := {
  po_paths : Forall (λ t, resolves (tg_path t) (tg_resolvedPath t)) (pr_paths p);
  po_files : Forall (λ f, fl_complete f = true → P f ∧ ∃ t, t ∈ pr_paths p ∧ tg_path t = fl_path f ∧ tg_operation t = OpWrite) (pr_files p);
  po_incomplete : pr_incomplete p = false → Forall (λ f, fl_complete f = true) (pr_files p) }.
(** [p'] has everything [p] has. *)
Record grows (p p' : Prepared) : Prop := {
  gr_paths : ∀ t, t ∈ pr_paths p → t ∈ pr_paths p';
  gr_files : ∀ f, f ∈ pr_files p → f ∈ pr_files p' }.
#[local] Instance grows_pre : PreOrder grows.
Proof. split; [by split|]. intros a b c [H1 H2] [H3 H4]. split; auto. Qed.
Definition touched (cwd name : jstr) (op : Operation) (p : Prepared) : Prop := ∃ t, t ∈ pr_paths p ∧ located cwd name (tg_path t) ∧ tg_operation t = op.
Definition shown (cwd name : jstr) (p : Prepared) : Prop := ∃ f, f ∈ pr_files p ∧ located cwd name (fl_path f).
Lemma touched_grows cwd name op p p' : grows p p' → touched cwd name op p → touched cwd name op p'.
Proof. intros [H _] (t & Ht & ?). exists t. auto. Qed.
Lemma shown_grows cwd name p p' : grows p p' → shown cwd name p → shown cwd name p'.
Proof. intros [_ H] (f & Hf & ?). exists f. auto. Qed.

Lemma start_ok P b : prepared_ok P (mkPrepared [] [] b).
Proof. constructor; constructor. Qed.
Lemma or_incomplete_ok P b p : prepared_ok P p → prepared_ok P (or_incomplete b p).
Proof. intros [H1 H2 H3]. constructor; [done|done|]. cbn. intros [H _]%orb_false_iff. by apply H3. Qed.

Section Cwd.
Context (cwd : jstr) (Hcwd : starts_with [47] cwd = true).

Lemma addPath_ok P name op p x : addPath fs processCwd cwd name op p = Ok x → prepared_ok P p →
  prepared_ok P x.2 ∧ located cwd name x.1 ∧ (∃ r, x.2 = mkPrepared (pr_files p) (pr_paths p ++ [mkTarget x.1 r op]) (pr_incomplete p))
  ∧ grows p x.2 ∧ touched cwd name op x.2.
Proof.
  unfold addPath. cbv zeta. intros (r & Hr & [= <-])%rbind_ok [H1 H2 H3]. cbn [fst snd]. pose proof (resolve_located processCwd cwd name Hcwd) as Hloc. split; [|split; [done|split; [by exists r|split]]].
  - constructor; cbn [pr_files pr_paths pr_incomplete].
    + apply Forall_app. split; [done|]. apply Forall_singleton. cbn [tg_path tg_resolvedPath]. apply (canonical_resolves fs processCwd); [by destruct Hloc as (parts & _ & ->)|done].
    + eapply Forall_impl; [exact H2|]. intros f Hf Hc. destruct (Hf Hc) as (HP & t & Ht & E). split; [done|]. exists t. split; [apply elem_of_app; by left|done].
    + done.
  - split; cbn [pr_files pr_paths]; [|done]. intros t Ht. apply elem_of_app. by left.
  - eexists. split; [apply elem_of_app; right; by left|done].
Qed.
Lemma push_ok P f p : prepared_ok P p → (fl_complete f = true → P f ∧ ∃ t, t ∈ pr_paths p ∧ tg_path t = fl_path f ∧ tg_operation t = OpWrite) → prepared_ok P (push_file f p).
Proof.
  intros [H1 H2 H3] Hf. constructor; cbn [pr_files pr_paths pr_incomplete push_file]; [done|apply Forall_app; split; [done|by apply Forall_cons_2]|].
  intros [H4 H5]%orb_false_iff. apply Forall_app. split; [by apply H3|]. apply Forall_cons_2; [by apply negb_false_iff|done].
Qed.
Lemma push_grows f p : grows p (push_file f p).
Proof. split; [done|]. intros g Hg. cbn. apply elem_of_app. by left. Qed.
Lemma push_shown name f p : located cwd name (fl_path f) → shown cwd name (push_file f p).
Proof. intros H. exists f. split; [cbn; apply elem_of_app; right; by left|done]. Qed.

Lemma add_moves_ok P lines : ∀ destination p y, add_moves fs processCwd cwd lines destination p = Ok y → prepared_ok P p →
  (∀ d, destination = Some d → ∃ t, t ∈ pr_paths p ∧ tg_path t = d ∧ tg_operation t = OpWrite) →
  prepared_ok P y.2 ∧ grows p y.2 ∧ pr_files y.2 = pr_files p ∧ (∀ d, y.1 = Some d → ∃ t, t ∈ pr_paths y.2 ∧ tg_path t = d ∧ tg_operation t = OpWrite)
  ∧ (∀ name, name ∈ moves lines → touched cwd name OpWrite y.2)
  ∧ match last (moves lines) with Some name => ∃ d, y.1 = Some d ∧ located cwd name d | None => y.1 = destination end.
Proof.
  induction lines as [|line lines IH]; intros destination p y; cbn [add_moves].
  { intros [= <-] Hp Hd. split_and!; [done|done|done|done| |done]. intros name Hn. by apply elem_of_nil in Hn. }
  unfold moves. cbn [List.filter]. change (js "*** Move to: ") with MOVE. destruct (starts_with MOVE line); [|by apply IH]. intros (x & Hx & H)%rbind_ok Hp Hd.
  destruct (addPath_ok P _ _ _ _ Hx Hp) as (Hp' & Hloc & (r & Ep) & Hg & Ht). apply IH in H as (H1 & H2 & H3 & H4 & H5 & H6); [|done|].
  - cbn [map]. change (map (drop 13) (List.filter (starts_with MOVE) lines)) with (moves lines). split_and!; [done|by transitivity x.2|by rewrite H3, Ep|done| |].
    + intros name [->|Hn]%elem_of_cons; [by eapply touched_grows|by apply H5].
    + rewrite last_cons. destruct (last (moves lines)); [done|]. by exists x.1.
  - intros d [= <-]. rewrite Ep. cbn [pr_paths]. exists (mkTarget x.1 r OpWrite). split; [apply elem_of_app; right; by left|done].
Qed.

Definition section_exact (sections : list (PatchKind * jstr * list jstr)) (f : SecurityFile) : Prop :=
  ∃ kind name section source, (kind, name, section) ∈ sections ∧ kind ≠ PkDelete ∧ located cwd (default name (last (moves section))) (fl_path f) ∧ located cwd name source
    ∧ snapshot source (fl_before f) ∧ patched_exactly kind (others section) f.
Lemma patch_loop_ok all lines sections : patch_sections lines sections → (∀ s, s ∈ sections → s ∈ all) → ∀ fuel p p', (length lines <= fuel)%nat →
  patch_loop fs processCwd fuel cwd lines p = Ok p' → prepared_ok (section_exact all) p →
  prepared_ok (section_exact all) p' ∧ grows p p'
  ∧ ∀ kind name section, (kind, name, section) ∈ sections →
      touched cwd name (if bool_decide (kind = PkDelete) then OpDelete else OpWrite) p' ∧ (∀ d, d ∈ moves section → touched cwd d OpWrite p')
      ∧ (kind ≠ PkDelete → shown cwd (default name (last (moves section))) p').
Proof.
  induction 1 as [|line rest sections Hn _ IH|kind name section rest sections Hname Hsec Hrest _ IH]; intros Hall fuel p p' Hf.
  - destruct fuel; cbn [patch_loop]; intros [= <-] Hp; (split_and!; [done|done|]); intros kind name section Hin; by apply elem_of_nil in Hin.
  - destruct fuel as [|fuel]; [cbn in Hf; lia|]. cbn [patch_loop]. destruct (header_of line) as [[kind name]|] eqn:E; [apply header_sound in E as [-> Hname]; by destruct (Hn kind name)|].
    apply IH; [done|cbn in Hf; lia].
  - destruct fuel as [|fuel]; [cbn in Hf; lia|]. cbn [patch_loop]. rewrite header_complete by done. intros (x & Hx & H)%rbind_ok Hp. apply rbind_ok in H as (before & Hb & H). apply contents_snapshot in Hb.
    rewrite body_of_section in H by done. apply rbind_ok in H as (y & Hy & H). destruct (addPath_ok _ _ _ _ _ Hx Hp) as (Hp1 & Hloc & (r & Ep) & Hg1 & Ht1).
    apply (add_moves_ok (section_exact all)) in Hy as (Hp2 & Hg2 & _ & Hd & Hm & Hlast); [|done|done].
    assert (located cwd (default name (last (moves section))) (default x.1 y.1)) as Hdest.
    { destruct (last (moves section)) as [m|]; [destruct Hlast as (d & -> & ?); done|by rewrite Hlast]. }
    cbn [length] in Hf. rewrite length_app in Hf. destruct (bool_decide (kind = PkDelete)) eqn:Ek.
    + apply IH in H as (H1 & H2 & H3); [|intros s Hs; apply Hall; by right|lia|done]. apply bool_decide_eq_true in Ek as ->. split_and!; [done|by transitivity x.2; [|transitivity y.2]|].
      intros kind' name' section' [[= -> -> ->]|Hin]%elem_of_cons; [|by apply H3]. rewrite bool_decide_true by done. split_and!; [|intros d Hd'; eapply touched_grows; [exact H2|by apply Hm]|done].
      eapply touched_grows; [|exact Ht1]. by transitivity y.2.
    + change (List.filter (λ line : jstr, negb (starts_with MOVE line)) section) with (others section) in H. destruct (patched kind before (others section)) as [content complete] eqn:Epat.
      apply bool_decide_eq_false in Ek. apply IH in H as (H1 & H2 & H3); [|intros s Hs; apply Hall; by right|lia|].
      * assert (grows y.2 p') as Hg3 by (transitivity (push_file (mkFile (default x.1 y.1) content before complete) y.2); [apply push_grows|done]).
        split_and!; [done|by transitivity x.2; [|transitivity y.2]|]. intros kind' name' section' [[= -> -> ->]|Hin]%elem_of_cons; [|by apply H3].
        rewrite bool_decide_false by done. split_and!; [eapply touched_grows; [|exact Ht1]; by transitivity y.2|intros d Hd'; eapply touched_grows; [exact Hg3|by apply Hm]|].
        intros _. eapply shown_grows; [exact H2|]. by apply push_shown.
      * apply push_ok; [done|]. cbn [fl_complete fl_path]. intros ->. split.
        -- exists kind, name, section, x.1. split_and!; [apply Hall; by left|done|exact Hdest|done|exact Hb|]. pose proof (patched_ok kind before (others section) (default x.1 y.1)) as Hpat. rewrite Epat in Hpat. by apply Hpat.
        -- destruct y.1 as [d|] eqn:Ed; cbn [default from_option id]; [by apply Hd|]. exists (mkTarget x.1 r OpWrite). split; [|done]. apply Hg2. rewrite Ep. cbn [pr_paths]. apply elem_of_app. right. by left.
Qed.

Lemma add_paths_ok P names op args : ∀ p p', add_paths fs processCwd cwd names op args p = Ok p' → prepared_ok P p →
  prepared_ok P p' ∧ pr_files p' = pr_files p ∧ grows p p' ∧ ∀ key name, key ∈ names → field_at args key = Some (JStr name) → touched cwd name op p'.
Proof.
  induction names as [|key names IH]; intros p p'; cbn [add_paths].
  { intros [= <-] Hp. split_and!; [done|done|done|]. intros key name Hk. by apply elem_of_nil in Hk. }
  assert ((∀ value, field_at args key ≠ Some (JStr value)) → add_paths fs processCwd cwd names op args p = Ok p' → prepared_ok P p →
    prepared_ok P p' ∧ pr_files p' = pr_files p ∧ grows p p' ∧ ∀ key' name, key' ∈ key :: names → field_at args key' = Some (JStr name) → touched cwd name op p') as Hskip.
  { intros Hno H Hp. destruct (IH _ _ H Hp) as (H1 & H2 & H3 & H4). split_and!; [done|done|done|]. intros key' name [->|Hk]%elem_of_cons Hf; [by destruct (Hno name)|by eapply H4]. }
  destruct (field_at args key) as [[| | |value| |]|] eqn:Ef; try (by apply Hskip). clear Hskip.
  intros (x & Hx & H)%rbind_ok Hp. destruct (addPath_ok P _ _ _ _ Hx Hp) as (Hp' & _ & (r & Ep) & Hg & Ht). apply IH in H as (H1 & H2 & H3 & H4); [|done].
  split_and!; [done|by rewrite H2, Ep|by transitivity x.2|]. intros key' name [->|Hk]%elem_of_cons Hf; [|by eapply H4]. rewrite Ef in Hf. injection Hf as <-. by eapply touched_grows.
Qed.
Lemma add_contents_ok args names : ∀ p, Forall (λ f, fl_complete f = false) (pr_files p) →
  let p' := foldl (add_content args) p names in pr_paths p' = pr_paths p ∧ Forall (λ f, fl_complete f = false) (pr_files p') ∧ (names = [] → p' = p).
Proof.
  induction names as [|name names IH]; intros p Hf; cbn [foldl]; [done|].
  assert (pr_paths (add_content args p name) = pr_paths p ∧ Forall (λ f, fl_complete f = false) (pr_files (add_content args p name))) as [H1 H2].
  { unfold add_content. destruct (field_at args name) as [[| | |value| |]|]; try done. cbn [pr_files pr_paths]. split; [done|]. apply Forall_app. split; [done|by apply Forall_singleton]. }
  destruct (IH _ H2) as (I1 & I2 & _). cbv zeta. rewrite I1, H1. done.
Qed.

(** What is mentioned by any other tool. *)
Lemma prepare_other_ok P tool args policy p : prepare_other fs processCwd cwd tool args policy = Ok p →
  prepared_ok P p
  ∧ (∀ key name, tool ∈ [js "read"; js "glob"; js "grep"; js "ls"] → get tool (pl_mcpTools policy) = None → key = js "filePath" ∨ key = js "path" → assoc key args = Some (JStr name) → touched cwd name OpRead p)
  ∧ (∀ mapping key name, get tool (pl_mcpTools policy) = Some mapping → key ∈ tm_pathFields mapping → field_at args key = Some (JStr name) →
       touched cwd name (if bool_decide (toolOperation tool policy = TkRead) then OpRead else OpWrite) p).
Proof.
  unfold prepare_other. cbv zeta. intros (p0 & Hp & [= <-])%rbind_ok. apply (add_paths_ok P) in Hp as ([H1 _ _] & Hf & _ & Ht); [|apply start_ok]. cbn [pr_files] in Hf.
  destruct (add_contents_ok args (match get tool (pl_mcpTools policy) with Some m => tm_contentFields m | None => [] end) p0) as (E1 & E2 & E3); [by rewrite Hf|]. set (p' := foldl _ p0 _) in *.
  assert (∀ name op b, touched cwd name op p0 → touched cwd name op (or_incomplete b p')) as Hkeep.
  { intros name op b (t & Hin & H). exists t. split; [cbn; by rewrite E1|done]. }
  split_and!.
  - constructor; cbn [or_incomplete pr_files pr_paths pr_incomplete].
    + by rewrite E1.
    + eapply Forall_impl; [exact E2|]. intros f Hc Hc'. congruence.
    + intros [_ H]%orb_false_iff. apply orb_false_iff in H as [H _]. assert (pr_files p' = []) as ->; [|done]. destruct (get tool (pl_mcpTools policy)) as [m|]; [|by rewrite E3].
      rewrite bool_decide_true in H by by eexists. cbn [andb] in H. apply negb_false_iff, bool_decide_eq_true in H. done.
  - intros key name Htool Hget Hkey Hname. apply Hkeep. rewrite Hget in Ht. assert (toolOperation tool policy = TkRead) as Hread.
    { unfold toolOperation. rewrite bool_decide_true; [done|]. revert Htool. rewrite !elem_of_cons, elem_of_nil. intuition auto. }
    rewrite (bool_decide_true (tool ∈ _)), (bool_decide_true (toolOperation tool policy = TkRead)) in Ht by done. apply (Ht key).
    + destruct Hkey as [-> | ->]; [left|right; left].
    + destruct Hkey as [-> | ->]; exact Hname.
  - intros mapping key name Hget Hkey Hname. apply Hkeep. rewrite Hget in Ht. by apply (Ht key).
Qed.

Lemma edited_ok oldString new all before path args : (all = true → assoc (js "replaceAll") args = Some (JBool true)) → (edited oldString new all before).2 = true →
  oldString = Some [] ∧ (edited oldString new all before).1 = new
  ∨ ∃ old b, oldString = Some old ∧ old ≠ [] ∧ fl_before (mkFile path (edited oldString new all before).1 before true) = Some b
    ∧ (assoc (js "replaceAll") args = Some (JBool true) ∧ (edited oldString new all before).1 = replaceAll b old new ∧ (36 ∉ new → replaced_everywhere old new b (edited oldString new all before).1)
       ∨ replaced_once old new b (edited oldString new all before).1).
Proof.
  intros Hall. unfold edited. destruct oldString as [old|]; [|done]. destruct old as [|c old]; [by left|]. destruct before as [b|]; [|done]. destruct (includes (c :: old) b) eqn:Ei; [|done]. cbn [andb].
  destruct (all || _) eqn:E; [|done]. intros _. right. exists (c :: old), b. split; [done|]. split; [done|]. split; [done|]. cbn [fst]. destruct all; [left; split; [by apply Hall|]|right].
  - split; [done|]. intros Hn. by apply replaceAll_everywhere.
  - cbn [orb] in E. apply bool_decide_eq_true in E. by apply replace_once; [apply includes_index|].
Qed.
Lemma string_at_some k args s : string_at k args = Some s ↔ assoc k args = Some (JStr s).
Proof. unfold string_at. destruct (assoc k args) as [[]|]; cbn; split; intros H; try done; by injection H as ->. Qed.

Record files_ok (tool : jstr) (args : list (jstr * json)) (policy : SecurityPolicy) (p : Prepared) : Prop := {
  fk_prepared : prepared_ok (exact cwd tool args) p;
  fk_mentions : ∀ name op, mentions tool args policy name op → touched cwd name op p;
  fk_writes : ∀ name, writes tool args name → shown cwd name p }.
(** A tool that writes no file of its own. *)
Lemma other_files tool args policy p : prepare_other fs processCwd cwd tool args policy = Ok p →
  (∀ name content, tool = js "write" → assoc (js "filePath") args = Some (JStr name) → assoc (js "content") args = Some (JStr content) → False) →
  (∀ name text, tool = js "edit" → assoc (js "filePath") args = Some (JStr name) → assoc (js "newString") args = Some (JStr text) → False) →
  (∀ kind name section, call_section tool args kind name section → False) → files_ok tool args policy p.
Proof.
  intros Hp Hw He Hs. apply (prepare_other_ok (exact cwd tool args)) in Hp as (H1 & H2 & H3). constructor; [done| |].
  - intros name op Hm. destruct Hm as [name content ???|name text ???|kind name section ?|kind name section destination ??|key name ????|mapping key name ????]; [by exfalso; eapply Hw|by exfalso; eapply He|by exfalso; eapply Hs|by exfalso; eapply Hs|by eapply H2|by eapply H3].
  - intros name Hm. destruct Hm as [name content ???|name text ???|kind name section ??]; exfalso; [by eapply Hw|by eapply He|by eapply Hs].
Qed.
Ltac other_tool := match goal with H : js _ = js _ |- _ => vm_compute in H; discriminate H | H : js _ ∈ _ |- _ => exfalso; refine (proj1 (bool_decide_eq_false _) _ H); vm_compute; reflexivity end.

Lemma write_files name content args policy x before : addPath fs processCwd cwd name OpWrite (mkPrepared [] [] false) = Ok x →
  contents fs x.1 = Ok before → assoc (js "filePath") args = Some (JStr name) → assoc (js "content") args = Some (JStr content) →
  files_ok (js "write") args policy (push_file (mkFile x.1 content before true) x.2).
Proof.
  intros Hx Hb%contents_snapshot Hname Hcontent. destruct (addPath_ok (exact cwd (js "write") args) _ _ _ _ Hx (start_ok _ _)) as (Hp & Hloc & (r & Ep) & _ & Ht). constructor.
  - apply push_ok; [done|]. intros _. split; [by apply (exact_write _ _ _ _ name)|]. exists (mkTarget x.1 r OpWrite). rewrite Ep. split; [by left|done].
  - intros name' op Hm. destruct Hm as [name' content' _ Hn' ?|name' text Htool|kind name' section [Htool _]|kind name' section destination [Htool _]|key name' Htool|mapping key name' Htool]; try other_tool.
    + rewrite Hname in Hn'. injection Hn' as <-. eapply touched_grows; [apply push_grows|done].
    + exfalso. apply Htool. left.
  - intros name' Hm. destruct Hm as [name' content' _ Hn' ?|name' text Htool|kind name' section [Htool _]]; try other_tool. rewrite Hname in Hn'. injection Hn' as <-. by apply push_shown.
Qed.
Lemma edit_files name new args policy x before : addPath fs processCwd cwd name OpWrite (mkPrepared [] [] false) = Ok x →
  contents fs x.1 = Ok before → assoc (js "filePath") args = Some (JStr name) → assoc (js "newString") args = Some (JStr new) →
  let all := match assoc (js "replaceAll") args with Some (JBool true) => true | _ => false end in
  let e := edited (string_at (js "oldString") args) new all before in
  files_ok (js "edit") args policy (push_file (mkFile x.1 e.1 before e.2) x.2).
Proof.
  intros Hx Hb%contents_snapshot Hname Hnew all e. destruct (addPath_ok (exact cwd (js "edit") args) _ _ _ _ Hx (start_ok _ _)) as (Hp & Hloc & (r & Ep) & _ & Ht). constructor.
  - apply push_ok; [done|]. cbn [fl_complete fl_path]. intros Hc. split; [|exists (mkTarget x.1 r OpWrite); rewrite Ep; split; [by left|done]].
    assert (all = true → assoc (js "replaceAll") args = Some (JBool true)) as Hall by (unfold all; destruct (assoc (js "replaceAll") args) as [[|[|]| | | |]|]; done).
    destruct (edited_ok (string_at (js "oldString") args) new all before x.1 args Hall Hc) as [[Ho He]|(old & b & Ho & Hne & Eb & Hr)]; apply string_at_some in Ho.
    + by apply (exact_create _ _ _ _ name); [|..|unfold e; rewrite He|].
    + by apply (exact_edit _ _ _ _ name old new b).
  - intros name' op Hm. destruct Hm as [name' content' Htool|name' text _ Hn' ?|kind name' section [Htool _]|kind name' section destination [Htool _]|key name' Htool|mapping key name' Htool]; try other_tool.
    + rewrite Hname in Hn'. injection Hn' as <-. eapply touched_grows; [apply push_grows|done].
    + exfalso. apply Htool. right. left.
  - intros name' Hm. destruct Hm as [name' content' Htool|name' text _ Hn' ?|kind name' section [Htool _]]; try other_tool. rewrite Hname in Hn'. injection Hn' as <-. by apply push_shown.
Qed.
Lemma prepared_weaken (P Q : SecurityFile → Prop) p : (∀ f, P f → Q f) → prepared_ok P p → prepared_ok Q p.
Proof. intros HPQ [H1 H2 H3]. constructor; [done| |done]. eapply Forall_impl; [exact H2|]. intros f Hf Hc. destruct (Hf Hc) as [? ?]. auto. Qed.
Lemma patch_files text args policy p : prepare_patch fs processCwd cwd text = Ok p → assoc (js "patchText") args = Some (JStr text) → files_ok (js "apply_patch") args policy p.
Proof.
  unfold prepare_patch. cbv zeta. intros (p0 & Hp & [= <-])%rbind_ok Htext. set (lines := split_on LF text) in *.
  assert (∀ sections, patch_sections lines sections → prepared_ok (exact cwd (js "apply_patch") args) p0
    ∧ ∀ kind name section, (kind, name, section) ∈ sections → touched cwd name (if bool_decide (kind = PkDelete) then OpDelete else OpWrite) p0
      ∧ (∀ d, d ∈ moves section → touched cwd d OpWrite p0) ∧ (kind ≠ PkDelete → shown cwd (default name (last (moves section))) p0)) as H.
  { intros sections Hs. destruct (patch_loop_ok sections lines sections Hs (λ _ H, H) (length lines) _ p0 ltac:(lia) Hp (start_ok _ _)) as (H1 & _ & H3). split; [|done].
    eapply prepared_weaken; [|exact H1]. intros f (kind & name & section & source & Hin & Hk & Hl & Hsrc & Hsn & Hpat).
    apply (exact_patch _ _ _ _ kind name section source); try done. split; [done|]. by exists text, sections. }
  constructor.
  - apply or_incomplete_ok. destruct (patch_sections_exist lines) as [sections Hs]. by apply (H sections).
  - intros name' op Hm. destruct Hm as [name' content' Htool|name' text' Htool|kind name' section (_ & text' & sections & Et & Hs & Hin)|kind name' section destination (_ & text' & sections & Et & Hs & Hin) Hd|key name' Htool|mapping key name' Htool]; try other_tool.
    + rewrite Htext in Et. injection Et as <-. destruct (H sections Hs) as [_ H2]. exact (proj1 (H2 _ _ _ Hin)).
    + rewrite Htext in Et. injection Et as <-. destruct (H sections Hs) as [_ H2]. exact (proj1 (proj2 (H2 _ _ _ Hin)) destination Hd).
    + exfalso. apply Htool. right. right. left.
  - intros name' Hm. destruct Hm as [name' content' Htool|name' text' Htool|kind name' section (_ & text' & sections & Et & Hs & Hin) Hk]; try other_tool.
    rewrite Htext in Et. injection Et as <-. destruct (H sections Hs) as [_ H2]. exact (proj2 (proj2 (H2 _ _ _ Hin)) Hk).
Qed.

Lemma prepare_files_ok tool args policy p : prepare_files fs processCwd cwd tool args policy = Ok p → files_ok tool args policy p.
Proof.
  unfold prepare_files. cbv zeta. destruct (jeqb tool (js "write")) eqn:Ew; [apply jeqb_eq in Ew as ->|apply jeqb_neq in Ew; destruct (jeqb tool (js "edit")) eqn:Ee; [apply jeqb_eq in Ee as ->|apply jeqb_neq in Ee; destruct (jeqb tool (js "apply_patch")) eqn:Ea; [apply jeqb_eq in Ea as ->|apply jeqb_neq in Ea]]].
  - destruct (string_at (js "filePath") args) as [name|] eqn:En; [destruct (string_at (js "content") args) as [content|] eqn:Ec|].
    1: intros (x & Hx & H)%rbind_ok; apply rbind_ok in H as (before & Hb & [= <-]); apply string_at_some in En, Ec; by eapply write_files.
    all: intros Hp; eapply other_files; [exact Hp|..]; [intros name' content' _ Hn Hc|intros name' text Htool; other_tool|intros kind name' section [Htool _]; other_tool]; apply string_at_some in Hn, Hc; congruence.
  - destruct (string_at (js "filePath") args) as [name|] eqn:En; [destruct (string_at (js "newString") args) as [new|] eqn:Ec|].
    1: intros (x & Hx & H)%rbind_ok; apply rbind_ok in H as (before & Hb & H); apply string_at_some in En, Ec; pose proof (edit_files name new args policy x before Hx Hb En Ec) as Hfiles; cbv zeta in Hfiles;
       destruct (edited _ _ _ before) as [candidate complete]; injection H as <-; exact Hfiles.
    all: intros Hp; eapply other_files; [exact Hp|..]; [intros name' content' Htool; other_tool|intros name' text _ Hn Hc|intros kind name' section [Htool _]; other_tool]; apply string_at_some in Hn, Hc; congruence.
  - destruct (string_at (js "patchText") args) as [text|] eqn:Et; [intros Hp; apply string_at_some in Et; by eapply patch_files|].
    intros Hp; eapply other_files; [exact Hp|..]; [intros name' content' Htool; other_tool|intros name' text Htool; other_tool|]. intros kind name' section (_ & text & sections & Hn & _). apply string_at_some in Hn. congruence.
  - intros Hp. eapply other_files; [exact Hp|done|done|]. by intros kind name' section [Htool _].
Qed.
End Cwd.
End Proofs.

(** ** From the call to the verdict *)

(** The parameters as the port sends them. *)
Definition params_json (p : EvaluateParams) : json := json_of_evaluate p (if ep_incomplete p then Some true else None).

Lemma targets_reread l l' : mapM target_of (map json_of_target l) = Some l' → map tg_resolvedPath l' = map tg_resolvedPath l.
Proof.
  revert l'. induction l as [|t l IH]; intros l' H; [by injection H as <-|]. cbn [map] in H. apply mapM_Some in H. apply Forall2_cons_inv_l in H as (t' & l'' & Ht & Hl & ->). cbn [map].
  f_equal; [|apply IH; by apply mapM_Some]. unfold target_of, json_of_target in Ht. cbn [fields_of mbind option_bind] in Ht. apply bind_Some in Ht as (a & _ & Ht). apply bind_Some in Ht as (b & Hb & Ht).
  apply bind_Some in Ht as (c & _ & Ht). injection Ht as <-. cbn [tg_resolvedPath]. revert Hb. read_keys. unfold path_of. by intros Hb%strict_str.
Qed.
Lemma call_reread iso_datetime p incomplete p' : evaluate_of iso_datetime (json_of_evaluate p incomplete) = Some p' →
  map tg_resolvedPath (ep_paths p') = map tg_resolvedPath (ep_paths p) ∧ ep_root p' = ep_root p ∧ pl_exceptions (ep_policy p') = pl_exceptions (ep_policy p).
Proof.
  intros H. split; [|split; [|by eapply evaluate_reread]]; unfold evaluate_of, json_of_evaluate in H; cbn [fields_of mbind option_bind] in H; do 4 (apply bind_Some in H as (? & _ & H));
    apply bind_Some in H as (root & Hroot & H); apply bind_Some in H as (? & _ & H); apply bind_Some in H as (paths & Hpaths & H); do 2 (apply bind_Some in H as (? & _ & H)); injection H as <-; cbn [ep_paths ep_root].
  - revert Hpaths. read_keys. intros Hpaths%array_some. by apply targets_reread.
  - revert Hroot. read_keys. unfold path_of. by intros Hroot%strict_str.
Qed.

Lemma call_reread_tool iso_datetime p incomplete p' : evaluate_of iso_datetime (json_of_evaluate p incomplete) = Some p' → ep_tool p' = ep_tool p.
Proof.
  unfold evaluate_of, json_of_evaluate. cbn [fields_of mbind option_bind]. intros H. apply bind_Some in H as (? & _ & H). apply bind_Some in H as (tool & Htool & H).
  do 7 (apply bind_Some in H as (? & _ & H)). injection H as <-. cbn [ep_tool]. revert Htool. read_keys. unfold identifier. by intros Htool%strict_str.
Qed.

Section Main.
Context (fs : FileSystem) (processCwd : jstr).

(** The directory a command runs in. *)
Definition workdir (tool : jstr) (args : list (jstr * json)) : jstr :=
  match assoc (js "workdir") args with Some (JStr w) => if bool_decide (tool = js "bash" ∨ tool = js "shell") then w else js "." | _ => js "." end.
Lemma prepareTool_inv namespace directory root tool args policy p : prepareTool fs processCwd namespace directory root tool args policy = Ok p →
  files_ok fs (ep_cwd p) tool (ep_args p) policy (mkPrepared (ep_files p) (ep_paths p) (ep_incomplete p))
  ∧ ep_args p = match args with JObj l => l | _ => [] end
  ∧ resolves fs (from_dir processCwd root) (ep_root p) ∧ resolves fs (from_dir (from_dir processCwd directory) (workdir tool (ep_args p))) (ep_cwd p)
  ∧ ep_policy p = policy ∧ ep_tool p = tool.
Proof.
  unfold prepareTool. cbv zeta. set (l := match args with JObj l => l | _ => [] end). intros (cwd & Hcwd & H)%rbind_ok. apply rbind_ok in H as (r & Hr & H). apply rbind_ok in H as (q & Hq & [= <-]).
  apply canonical_two in Hcwd. apply canonical_from in Hr. apply prepare_files_ok in Hq; [|by eapply resolved_absolute]. cbn [ep_files ep_paths ep_incomplete ep_args ep_root ep_cwd ep_policy ep_tool].
  split_and!; [by destruct q|done|done| |done|done].
  assert (workdir tool l = match string_at (js "workdir") l with Some w => if bool_decide (tool ∈ [js "bash"; js "shell"]) then w else js "." | None => js "." end) as ->; [|done].
  unfold workdir, string_at. destruct (assoc (js "workdir") l) as [[| | |w| |]|]; try done. cbn [mbind option_bind str_of].
  assert (bool_decide (tool = js "bash" ∨ tool = js "shell") = bool_decide (tool ∈ [js "bash"; js "shell"])) as ->; [|done].
  apply bool_decide_ext. rewrite !elem_of_cons, elem_of_nil. tauto.
Qed.

(** C25: what the scanner is shown is what the call touches and would write.  The root
    and the working directory of a prepared call, and every path in it, are
    resolved: what exists through its links, what is missing by its parent.
    Every path the call mentions, in its arguments or in a header or move of
    its patch, is among the paths, with its operation; every file it writes
    is among the files.  A file that is marked complete is a write target, and shown
    with what is there now and with what the call leaves there: for [write], the
    argument; for [edit], the new text, or the current text with the only
    occurrence of the old text replaced, or every one where the call says so; for
    [apply_patch], of the section at its header, the added lines, or the current
    text with every hunk of the section applied, in order, where its kept and removed
    lines stand only once.  A call that is not marked incomplete has complete files only. *)
Theorem prepared_files_exact namespace directory root tool args policy p : prepareTool fs processCwd namespace directory root tool args policy = Ok p →
  ep_args p = match args with JObj l => l | _ => [] end
  ∧ resolves fs (from_dir processCwd root) (ep_root p) ∧ resolves fs (from_dir (from_dir processCwd directory) (workdir tool (ep_args p))) (ep_cwd p)
  ∧ Forall (λ t, resolves fs (tg_path t) (tg_resolvedPath t)) (ep_paths p)
  ∧ (∀ name op, mentions tool (ep_args p) policy name op → ∃ t, t ∈ ep_paths p ∧ located (ep_cwd p) name (tg_path t) ∧ tg_operation t = op)
  ∧ (∀ name, writes tool (ep_args p) name → ∃ f, f ∈ ep_files p ∧ located (ep_cwd p) name (fl_path f))
  ∧ Forall (λ f, fl_complete f = true → exact fs (ep_cwd p) tool (ep_args p) f ∧ ∃ t, t ∈ ep_paths p ∧ tg_path t = fl_path f ∧ tg_operation t = OpWrite) (ep_files p)
  ∧ (ep_incomplete p = false → Forall (λ f, fl_complete f = true) (ep_files p)).
Proof. intros ([[H1 H2 H3] H4 H5] & H6 & H7 & H8 & _)%prepareTool_inv. by split_and!. Qed.

(** A target outside the root is refused. *)
Lemma outside_refused iso_datetime date_parse clock scanTypeScript scanBash p t : t ∈ ep_paths p → ¬ below (tg_resolvedPath t) (ep_root p) →
  ¬ exempted date_parse clock (ep_policy p) (ep_tool p) (js "path-traversal.outside-root") (Some (tg_resolvedPath t)) →
  let d := evaluateTool iso_datetime date_parse clock scanTypeScript scanBash (params_json p) in dc_decision d = Deny ∨ dc_decision d = Unavailable.
Proof.
  intros Ht Hw He d. destruct (evaluate_of iso_datetime (params_json p)) as [p'|] eqn:Hp'.
  - pose proof Hp' as Htool. apply call_reread_tool in Htool. pose proof Hp' as Hr. apply call_reread in Hr as (E1 & E2 & E3).
    assert (tg_resolvedPath t ∈ map tg_resolvedPath (ep_paths p')) as Hin by (rewrite E1; by apply list_elem_of_fmap_2).
    apply list_elem_of_fmap in Hin as (t' & Et & Ht'). apply (target_refused iso_datetime date_parse clock scanTypeScript scanBash (params_json p) p' t' (js "path-traversal.outside-root")); [done|done| |].
    + rewrite <- Et. apply forbidden_outside. by rewrite E2.
    + rewrite <- Et. unfold exempted. by rewrite E3, Htool.
  - right. unfold d, evaluateTool. cbv zeta. rewrite Hp'. by destruct (texts _).
Qed.

(** C15: a call that leaves the project is blocked.  In enforcing mode, with a
    scanner that answers, if at all, with its verdict on the call as it was prepared, a tool call
    that mentions a path which resolves, through links, neither to the
    resolved root nor below it never proceeds, unless an exception of the policy
    names the rule for outside paths and covers the path or the tool: not when
    the scanner answers, nor when it fails, nor when the call cannot be prepared.
    Only a read can slip through, when there is no verdict.  The path may stand in an
    argument, or in a header or move of a patch; the call may be for any tool whose paths are known. *)
Theorem escaping_call_blocked iso_datetime date_parse clock scanTypeScript scanBash namespace directory root tool args policy sessionID callID asked answer g
    base cwd name op path real :
  let members := match args with JObj l => l | _ => [] end in
  (∀ d, answer = Some d → ∃ p, prepareTool fs processCwd namespace directory root tool args policy = Ok p
    ∧ d = evaluateTool iso_datetime date_parse clock scanTypeScript scanBash (params_json p)) →
  mentions tool members policy name op →
  resolves fs (from_dir processCwd root) base → resolves fs (from_dir (from_dir processCwd directory) (workdir tool members)) cwd →
  located cwd name path → resolves fs path real → ¬ below real base →
  ¬ exempted date_parse clock policy tool (js "path-traversal.outside-root") (Some real) →
  (toolOperation tool policy = TkRead → ∃ d, answer = Some d ∧ dc_decision d ≠ Unavailable) →
  (before SmEnforce policy tool sessionID callID asked answer g).2 = Blocked.
Proof.
  intros members Hans Hm Hroot Hcwd Hloc Hreal Hout He Hread. assert (refused policy tool answer = true) as Href.
  { destruct answer as [d|].
    - destruct (Hans d eq_refl) as (p & Hp & Ed). apply prepareTool_inv in Hp as ([[P1 _ _] P2 _] & Eargs & Er & Ec & Epol & Etool). cbn [pr_paths] in P1.
      fold members in Eargs. rewrite Eargs in *. pose proof (resolves_unique fs _ _ _ Er Hroot) as Eroot. destruct (P2 name op Hm) as (t & Ht & Htl & _). cbn [pr_paths] in Ht.
      pose proof (resolves_unique fs _ _ _ Ec Hcwd) as Ecwd. rewrite Ecwd in Htl. pose proof (located_unique _ _ _ _ Htl Hloc) as Ept.
      rewrite Forall_forall in P1. pose proof (P1 t Ht) as Hres. cbn beta in Hres. rewrite Ept in Hres. pose proof (resolves_unique fs _ _ _ Hres Hreal) as Ereal.
      assert (dc_decision d = Deny ∨ dc_decision d = Unavailable) as Hd.
      { rewrite Ed. apply (outside_refused iso_datetime date_parse clock scanTypeScript scanBash p t Ht); [|by rewrite Epol, Etool, Ereal].
        by rewrite Ereal, Eroot. }
      cbn [refused]. destruct Hd as [-> | Hu]; [done|]. rewrite Hu. cbn. apply negb_true_iff, bool_decide_eq_false. intros Hk. destruct (Hread Hk) as (d' & [= <-] & Hd'). done.
    - cbn [refused]. apply negb_true_iff, bool_decide_eq_false. intros Hk. destruct (Hread Hk) as (d & Hd & _). done. }
  unfold before. cbv zeta. rewrite bool_decide_false by done. set (decision := default _ answer).
  assert (bool_decide (dc_decision decision = Deny) || bool_decide (dc_decision decision = Unavailable) && negb (bool_decide (toolOperation tool policy = TkRead)) = true) as ->; [|done].
  rewrite <- Href. unfold refused, decision. by destruct answer.
Qed.
End Main.

(** The patch of the example, read back. *)
Lemma prepared_files_exact_witness :
  ∃ p, demo_prepare "apply_patch" [(js "patchText", JStr demo_patch)] = Ok p ∧ Forall (λ f, fl_complete f = true) (ep_files p)
    ∧ Forall (λ t, resolves demo_fs (tg_path t) (tg_resolvedPath t)) (ep_paths p).
Proof.
  destruct (demo_prepare "apply_patch" [(js "patchText", JStr demo_patch)]) as [p|] eqn:E; [|vm_compute in E; discriminate]. exists p. split; [done|].
  assert (ep_incomplete p = false) as Hi.
  { assert (match demo_prepare "apply_patch" [(js "patchText", JStr demo_patch)] with Ok p => ep_incomplete p | Throw _ => true end = false) as H by (vm_compute; reflexivity). by rewrite E in H. }
  unfold demo_prepare in E. destruct (prepared_files_exact demo_fs (js "/") _ _ _ _ _ _ p E) as (_ & _ & _ & H1 & _ & _ & _ & H3). split; [by apply H3|exact H1].
Defined.

(** A write through the link, with the scanner there and gone. *)
Lemma resolves_dot fs processCwd r : canonicalPath fs processCwd (resolve processCwd [js "/w"; js "."]) = Ok r → resolves fs (from_dir (from_dir processCwd (js "/w")) (js ".")) r.
Proof. apply canonical_two. Qed.
Lemma demo_resolves path real : starts_with [47] path = true → canonicalPath demo_fs (js "/") path = Ok real → resolves demo_fs path real.
Proof. apply canonical_resolves. Qed.
Definition link_args : list (jstr * json) := [(js "filePath", JStr (js "link/x")); (js "content", JStr (js "c"))].
Definition demo_verdict : option SecurityDecision :=
  match demo_prepare "write" link_args with
  | Ok p => Some (evaluateTool (λ _, true) (λ _, None) (λ _, 0) (λ _ _, Some (mkScan [] false)) (λ _ _ _, Some (mkScan [] true)) (params_json p))
  | Throw _ => None
  end.
Lemma escaping_call_blocked_witness :
  let policy := mkPolicy (js "vsec-1") [] [] [] in
  canonicalPath demo_fs (js "/") (js "/w/link/x") = Ok (js "/etc/x")
  ∧ map (λ answer, (before SmEnforce policy (js "write") (js "s") (js "c") false answer (mkGuard zero_stats [])).2) [None; demo_verdict] = [Blocked; Blocked].
Proof.
  cbv zeta. split; [vm_compute; reflexivity|].
  assert (∀ answer, answer = None ∨ answer = demo_verdict → (before SmEnforce (mkPolicy (js "vsec-1") [] [] []) (js "write") (js "s") (js "c") false answer (mkGuard zero_stats [])).2 = Blocked) as H.
  { intros answer Ha.
    apply (escaping_call_blocked demo_fs (js "/") (λ _, true) (λ _, None) (λ _, 0) (λ _ _, Some (mkScan [] false)) (λ _ _ _, Some (mkScan [] true)) (mkNs (js "p") (js "s")) (js "/w") (js "/w") (js "write")
      (JObj link_args) (mkPolicy (js "vsec-1") [] [] []) (js "s") (js "c") false answer (mkGuard zero_stats []) (js "/w") (js "/w") (js "link/x") OpWrite (js "/w/link/x") (js "/etc/x")).
    - intros d ->. destruct Ha as [Ha|Ha]; [discriminate Ha|]. unfold demo_verdict, demo_prepare in Ha.
      destruct (prepareTool _ _ _ _ _ _ _ _) as [p|] eqn:E; [|discriminate Ha]. exists p. split; [reflexivity|]. exact (inj Some _ _ Ha).
    - apply (mentions_write _ _ _ (js "link/x") (js "c")); vm_compute; reflexivity.
    - apply demo_resolves; vm_compute; reflexivity.
    - apply (resolves_dot demo_fs (js "/")). vm_compute. reflexivity.
    - eexists. split; [apply components_lead|vm_compute; reflexivity].
    - apply demo_resolves; vm_compute; reflexivity.
    - intros Hb%within_below. vm_compute in Hb. discriminate Hb.
    - intros (ex & ends & k & Hin & _). cbn in Hin. by apply elem_of_nil in Hin.
    - intros Hk. vm_compute in Hk. discriminate Hk. }
  cbn [map]. by rewrite (H None), (H demo_verdict) by auto.
Defined.
